(* ===== verification/_CoqProject ===== *)
-Q . S2P
Prelude.v
GoText.v
NzfNames.v
NzfFormat.v
NzfTheorems.v
Effects.v
LeaseController.v
LeaseSafety.v
LeaseSystem.v
LeaseProgress.v
LeaseDriver.v
Rollout.v
RolloutTheorems.v
RolloutStore.v
ZoneJournal.v
ZoneServed.v
ZoneRebuild.v
FailoverEligibility.v
FailoverStore.v
FailoverPublish.v
FailoverSafety.v
FailoverRead.v
DnssecRollover.v
RolloverTheorems.v
XfrIn.v
XfrTheorems.v
DnsLib.v
ZoneRules.v
ZoneRecords.v
ZoneEdits.v
ZoneExamples.v
DynUpdate.v
DynRefine.v
DynStored.v
DynApply.v
DynExamples.v
EngineName.v
EngineNzf.v
EngineZone.v
EngineContent.v
EngineFinal.v
EngineFlags.v
EngineLookup.v
EngineMsg.v
EngineWriter.v
EngineAnswer.v
EngineRespond.v
EngineLoader.v
EngineExamples.v
AuthZones.v
AuthSystem.v
AuthRebuild.v
AuthExamples.v
DnssecSign.v
DnssecSets.v
DnssecChain.v
DnssecChain3.v
DnssecSigned.v
DnssecDenial.v
DnssecVerify.v
DnssecStable.v
DnssecErrors.v
Secrets.v
DnssecStore.v
DnssecSigner.v
DnssecKeys.v
DnssecKeysThms.v
DnssecExamples.v
ValDenial.v
ValZone.v
ValVerify.v
Validator.v
ValChain.v
ValResponse.v
ValNsecCache.v
ValSecure.v
ValAnchors.v
ValAnchorsThms.v
ValExamples.v
