(* ===== verification/Prelude.v ===== *)
(** * Nexora: a verified model of the DNS platform

    Nexora is a DNS service.  A management plane in Go (src/mgmt) keeps zones, engine groups, keys
    and policies in PostgreSQL, builds the served versions of every hosted zone, signs them, and
    sends configuration snapshots to engines in Rust (src/engine), which answer queries.  A failover
    controller in Go (src/deploy/failover) moves an address between two nodes.  This library
    translates the parts of these programs whose correctness is in their logic into Rocq functions,
    and proves what each part promises the next.

    ** How the model reads

    A Go function is a function of the same name.  One that can fail returns [res E A]: a value, an
    error, a panic, or [Fuel], which no run of the program is and which the theorems exclude.  State
    is passed explicitly: a table of the database is a [gmap] or a list of rows of one record type,
    a transaction is a function from the database to its result and the next database, and a failed
    one leaves the database as it was.  Integers keep their width where they can wrap ([u8] ...
    [u64], [i64]); octets are integers from 0 to 255 ([is_byte]), strings are lists of octets.  Loops
    are structural recursion or recursion on fuel with a proof that the fuel is enough.  What is
    outside the repository (the DNS library, cryptography, zstd, the kernel, PostgreSQL's clock) is a
    parameter: a class of operations such as [DnsLib.DnsLib] or [DnssecSign.SignLib], and a class of
    laws that states what is relied on, with an instance that shows the laws can hold.  The order in
    which Go ranges over a map is a parameter too ([DnssecSets.ranges] and its like).

    ** The parts

    Foundations.  This file: results and their rules ([post], [errs]), machine integers, octets and
    big-endian numbers, slices, sorting by a key, and the tactics and hints the other files share.
    [GoText]: UTF-8, case folding, splitting and number formatting as Go does them.  [Effects]:
    instants, durations and floating point, and programs that call the outside, as trees of calls.

    The zone format (mgmt/internal/nzf; engine/src/authoritative/nzf.rs).  [NzfNames]: wire names and
    their canonical order.  [NzfFormat]: [EncodeFull], [EncodeDelta], [Decode].  [NzfTheorems]: round
    trips, totality, the order of RFC 4034.  [EngineName], [EngineNzf]: the engine's reader, which reads
    every blob the management plane writes as what was written.

    Hosted zones (mgmt/internal/zone, store/blobs.go, snapshot/authzones.go).  [ZoneJournal] has the
    tables of a zone's versions with [Rebuild], [rebuildEdit] and [loadServed]; [ZoneServed] and
    [ZoneRebuild] show that reading a version back gives exactly the records built.  [ZoneRules]:
    the rules a zone must keep, decided for the whole zone and for an edit.
    [ZoneRecords], [ZoneEdits]: the record operations keep the rules and what is served true to the rows.
    [AuthZones], [AuthSystem], [AuthRebuild]: the snapshot message of a zone, and the run of rebuilds
    and loads in which the engine always serves the version last built.

    Changes from outside (mgmt/internal/xfrin, mgmt/internal/dynupdate).  [XfrIn], [XfrTheorems]: what a
    transfer stream means and what applying it stores.  [DynUpdate], [DynRefine], [DynStored],
    [DynApply]: dynamic updates against RFC 2136, stored and served, and who may make them.  [DnsLib] is
    the DNS library these parts call, with nzf/rr.go.

    DNSSEC (mgmt/internal/dnssec, mgmt/internal/secrets).  [DnssecRollover], [RolloverTheorems]: the key
    state machine [Advance].  [DnssecSign]: [Sign] of sign.go with canonical.go.  [DnssecSets],
    [DnssecChain], [DnssecChain3], [DnssecSigned] take a signing pass apart; on them rest [DnssecDenial]
    (what is served, the NSEC and NSEC3 chains), [DnssecVerify] (every signature verifies and
    every set that must be signed is), [DnssecStable] (freshness, independence of map order, reuse) and
    [DnssecErrors] (why signing can fail).  [Secrets]: sealed key material and signing keys.
    [DnssecStore]: the signature cache in the database.  [DnssecSigner]: the store is
    the signer that [ZoneRebuild.SignerLaws] asks for.  [DnssecKeys], [DnssecKeysThms]: creating, rolling
    and destroying keys: transactions on different zones open side by side, and the phases of the sweeps
    and destructions of the token between them, in any interleaving.

    The engine's authoritative server (engine/src/authoritative).  [EngineZone], [EngineContent],
    [EngineFinal], [EngineFlags]: a zone in memory, what it holds, and the flags of its nodes.
    [EngineLookup]: the walk of RFC 1034.  [EngineMsg], [EngineWriter]: reading and writing messages.
    [EngineAnswer], [EngineRespond]: the response.  [EngineLoader]: loading the zones of a snapshot.

    The engine's validating resolver (engine/src/recursor/dnssec).  [ValDenial]: denial.rs, over the names
    of the DNS library.  [ValZone]: what a signed zone says about a name, and that the proofs of denial.rs
    say the same.  [ValVerify]: verify.rs, signatures, keys and DS records.  [Validator]: validator.rs, the
    walk down the chain of trust and the checks of a response.  [ValChain]: a world of zones that sign only
    what is theirs, and what the walk finds in it.  [ValResponse], [ValSecure]: what a verdict means, whatever
    the network answers.  [ValNsecCache]: nsec_cache.rs, denials kept and used again.  [ValAnchors]: anchors.rs,
    the configured anchors and the key rollover of RFC 5011, in the state file and in the trust points the
    validator reads.  [ValAnchorsThms]: every state the store can reach, through merges, refreshes, failed writes
    and restarts, and what is trusted in it.  [ValExamples]: small worlds in which the theorems are applied, and in
    which forged denials are accepted and a walk never ends.

    Rollouts (mgmt/internal/rollout).  [Rollout], [RolloutTheorems]: the state machine of a staged
    rollout.  [RolloutStore]: its database side.

    Failover (deploy/failover/lease, mgmt/internal/failover).  [LeaseController], [LeaseSafety],
    [LeaseSystem], [LeaseProgress], [LeaseDriver]: the lease controller, its kernel gate and the system of
    any number of nodes.  [FailoverEligibility], [FailoverStore], [FailoverPublish], [FailoverSafety],
    [FailoverRead]: failover groups, the evidence about their members, and its publication.

    [ZoneExamples], [DynExamples], [EngineExamples], [AuthExamples], [DnssecExamples] and [ValExamples]
    instantiate the parameters and run the programs: each theorem with hypotheses is
    applied there, or beside it, at concrete values.

    ** What the theorems show

    Safety across nodes and time: two nodes never forward at once ([LeaseSystem]); reservations
    outlive everything but a verified withdrawal ([FailoverSafety]); a canary rollout reaches the
    rest of a group only through verified canaries ([RolloutTheorems]); signing keys in use,
    committed or not, are never lost or ambiguous, as long as no transaction outlasts the grace
    period of the sweep ([DnssecKeysThms]).  Refinement: what was built is what is stored, sent,
    loaded and served ([ZoneRebuild], [AuthRebuild], [DynApply]); updates are those of RFC 2136
    ([DynRefine]); responses are those the records of the zone dictate, whole where they fit and cut
    where they do not ([EngineRespond]).  Signing: signatures verify, denial is exact, errors have
    causes, and nothing changes without a reason ([DnssecVerify] to [DnssecErrors], [DnssecStore]).
    Validation: a secure answer was published, an insecure one has a signed cause, NSEC proofs hold
    exactly where neither the name nor its wildcard has records and NSEC3 proofs are sound,
    signatures are accepted under exactly the conditions named, synthesised denials are true, and
    validation ends; each under the conditions its statement names, with the exceptions shown in
    [ValExamples] ([ValZone], [ValVerify], [ValSecure]).  Trust anchors: keys move along the table
    of RFC 5011 and in four named ways beyond it, trusted keys are configured or held down, revoked
    ones stay out while the hold-down lasts and can come back after it, and the trust points are as
    right as the configuration, which is what the theorems on validation ask of them
    ([ValAnchorsThms]).  Round trips and bounds: [NzfTheorems], [EngineWriter], [Secrets],
    [EngineName].  Progress: [LeaseProgress], [RolloutTheorems], [EngineRespond].

    ** Fuel and bounds

    [occluded] and [ent_loop] walk towards the root with one step more than a name has octets, plus the
    root: [parent_measure] shows that each step shortens the name.  The engine's walk over a compressed
    name has the 64 pointers and 254 octets the code allows itself.  [respond_loop] has one step more
    than MAX_CHAIN.  The validator's walk has as many steps as the name has labels, which is enough for
    every name but one with an asterisk label inside ([validation_ends], [walk_never_ends]).  [createKey] has
    the eight attempts of the source.  Where a loop of the source has no bound of its own (parsing,
    splitting), the fuel is the length of its input.

    ** Not modelled

    The engine's iterative resolution, response cache, filter, upstream forwarding with the validation of
    forwarded answers, mDNS and telemetry, and the transports of both sides (UDP, TCP, TLS, HTTPS, QUIC): they
    are concurrent I/O around libraries, and no theorem here is about them.  Outgoing transfers, NOTIFY and forwarded
    updates of the engine are network exchanges around the zone model that is here.  The API handlers,
    authentication, query log, statistics, AI agents, MCP server, web interface and operator of the
    management plane move data between the database and their clients; generated code (protocol buffers,
    OpenAPI, deep copies) and SQL migrations are not translated, but the tables the modelled statements
    touch follow the migrations.  ZONEMD, catalog zones, zone files, block lists and response policy
    zones are not modelled.  PKCS#11 sessions, reading secret files, audit entries and the timers that
    call the modelled operations are outside; so is PostgreSQL itself, of which atomic transactions,
    row locks and unique keys are assumed. *)

From stdpp Require Export base tactics list gmap strings numbers sorting relations.
From Stdlib Require Export ZArith Lia.

#[global] Open Scope Z_scope.

(** ** Go results

    A Go function that may fail returns a value, an error, or panics (an index out of range, a
    nil dereference).  [Fuel] is not a Go outcome: it is the value of a loop model that ran out of
    the iterations it was given, and the termination theorems show it never arises. *)
Inductive res (E A : Type) : Type :=
| Ok (a : A)
| Err (e : E)
| Panic
| Fuel.
Arguments Ok {E A} a.
Arguments Err {E A} e.
Arguments Panic {E A}.
Arguments Fuel {E A}.

#[export] Instance res_ret E : MRet (res E) := λ _ a, Ok a.
#[export] Instance res_bind E : MBind (res E) := λ _ _ f m,
  match m with Ok a => f a | Err e => Err e | Panic => Panic | Fuel => Fuel end.
#[export] Instance res_fmap E : FMap (res E) := λ _ _ f m,
  match m with Ok a => Ok (f a) | Err e => Err e | Panic => Panic | Fuel => Fuel end.

#[export] Instance res_eq_dec `{EqDecision E, EqDecision A} : EqDecision (res E A).
Proof. solve_decision. Defined.


Lemma bind_Ok {E A B} (m : res E A) (f : A → res E B) b :
  m ≫= f = Ok b → ∃ a, m = Ok a ∧ f a = Ok b.
Proof. destruct m; simpl; naive_solver. Qed.

(** Errors and successes are the two outcomes a caller can see. *)
Definition returns {E A} (m : res E A) : Prop :=
  match m with Ok _ | Err _ => True | _ => False end.

Lemma returns_bind {E A B} (m : res E A) (f : A → res E B) :
  returns m → (∀ a, m = Ok a → returns (f a)) → returns (m ≫= f).
Proof. destruct m; simpl; auto. Qed.

(** A loop that stops at the first error. *)
Fixpoint fold_res {A B E} (f : A → B → res E A) (a : A) (l : list B) : res E A :=
  match l with [] => Ok a | b :: l => a ← f a b; fold_res f a l end.
Lemma fold_res_returns {A B E} (f : A → B → res E A) l a : (∀ a b, returns (f a b)) → returns (fold_res f a l).
Proof. intros Hf. revert a. induction l as [|b l IH]; intros a; [done|]. simpl. apply returns_bind; auto. Qed.
Lemma fold_res_app {A B E} (f : A → B → res E A) a l k : fold_res f a (l ++ k) = (fold_res f a l ≫= λ a, fold_res f a k).
Proof. revert a. induction l as [|b l IH]; intros a; simpl; [done|]. destruct (f a b); simpl; [apply IH|done..]. Qed.
Lemma fold_res_inv {A B E} (P : A → Prop) (f : A → B → res E A) l a a' : P a → (∀ a b a', b ∈ l → P a → f a b = Ok a' → P a') → fold_res f a l = Ok a' → P a'.
Proof.
  revert a. induction l as [|b l IH]; intros a Ha Hf; simpl; [by intros [= <-]|]. intros (a1 & E1 & E2)%bind_Ok. apply (IH a1); [by apply (Hf a b); [left|..]| |done]. intros a2 b2 a3 Hb. apply Hf. by right.
Qed.
Lemma returns_Ok {E A} (m : res E A) : returns m → (∀ e, m ≠ Err e) → ∃ a, m = Ok a.
Proof. destruct m; naive_solver. Qed.

(** [post m Q]: [m] returns, and a value it returns satisfies [Q]. *)
Definition post {E A} (m : res E A) (Q : A → Prop) : Prop :=
  match m with Ok a => Q a | Err _ => True | _ => False end.

Lemma post_bind {E A B} (m : res E A) (f : A → res E B) (Q : A → Prop) (R : B → Prop) :
  post m Q → (∀ a, Q a → post (f a) R) → post (m ≫= f) R.
Proof. destruct m; simpl; auto. Qed.
Lemma post_mono {E A} (m : res E A) (Q R : A → Prop) :
  post m Q → (∀ a, Q a → R a) → post m R.
Proof. destruct m; simpl; auto. Qed.
Lemma post_returns {E A} (m : res E A) Q : post m Q → returns m.
Proof. by destruct m. Qed.
Lemma post_Ok {E A} (m : res E A) Q a : post m Q → m = Ok a → Q a.
Proof. by intros ? ->. Qed.
Lemma returns_post {E A} (m : res E A) : returns m → post m (λ a, m = Ok a).
Proof. by destruct m. Qed.
Lemma post_guard {E A} (b : bool) e (m : res E A) Q :
  (b = false → post m Q) → post (if b then Err e else m) Q.
Proof. destruct b; simpl; auto. Qed.
#[export] Hint Resolve returns_post : core.

(** [m] returns, and an error of it satisfies [Q]. *)
Definition errs {E A} (m : res E A) (Q : E → Prop) : Prop := match m with Ok _ => True | Err e => Q e | _ => False end.
Lemma errs_bind {E A B} (m : res E A) (f : A → res E B) Q : errs m Q → (∀ a, m = Ok a → errs (f a) Q) → errs (m ≫= f) Q.
Proof. destruct m; simpl; auto. Qed.
Lemma errs_mono {E A} (m : res E A) (Q R : E → Prop) : errs m Q → (∀ e, Q e → R e) → errs m R.
Proof. destruct m; simpl; auto. Qed.
Lemma errs_fold {E A B} (f : A → B → res E A) a l Q : (∀ a b, b ∈ l → errs (f a b) Q) → errs (fold_res f a l) Q.
Proof.
  revert a. induction l as [|b l IH]; intros a Hf; simpl; [done|]. apply errs_bind; [apply Hf; by left|]. intros a' _. apply IH. intros x y Hy. apply Hf. by right.
Qed.
(** One step of a [post] goal: a guard that fails with an error, or a bind whose head is described
    by the given lemma. *)
Ltac post_step lem :=
  repeat (apply post_guard; intros ?);
  eapply post_bind; [eapply lem; eauto | cbv beta].
Ltac post_done := repeat (apply post_guard; intros ?); try exact I; simpl.

(** ** Lists *)
Lemma foldl_inv {A B} (P : A → Prop) (f : A → B → A) l a : P a → (∀ a b, b ∈ l → P a → P (f a b)) → P (foldl f a l).
Proof. revert a. induction l as [|b l IH]; intros a Ha Hf; simpl; [done|]. apply IH; [by apply Hf; [left|]|]. intros x y Hy. apply Hf. by right. Qed.
Lemma Forall2_elem_l {A B} (P : A → B → Prop) l k x : Forall2 P l k → x ∈ l → ∃ y, y ∈ k ∧ P x y.
Proof. induction 1 as [|a b l k Hab _ IH]; [by intros ?%not_elem_of_nil|]. intros [->|Hx]%elem_of_cons; [exists b; split; [by left|done]|]. destruct (IH Hx) as (y & ? & ?). exists y. split; [by right|done]. Qed.
Lemma Forall2_elem_r {A B} (P : A → B → Prop) l k y : Forall2 P l k → y ∈ k → ∃ x, x ∈ l ∧ P x y.
Proof. intros HP Hy. apply Forall2_flip in HP. destruct (Forall2_elem_l _ _ _ _ HP Hy) as (x & ? & ?). by exists x. Qed.
Lemma filter_map_comm {A B} (f : A → B) (P : B → Prop) `{HP : ∀ x, Decision (P x)}
    `{HQ : ∀ x, Decision (P (f x))} l :
  filter P (map f l) = map f (filter (λ x, P (f x)) l).
Proof.
  induction l as [|x l IH]; [done|]. cbn [map]. rewrite !filter_cons, IH.
  by repeat case_decide.
Qed.
Lemma map_inj {A B} (f : A → B) l k : (∀ x y, f x = f y → x = y) → map f l = map f k → l = k.
Proof.
  intros Hf. revert k. induction l as [|x l IH]; intros [|y k] E; simplify_eq/=; [done|].
  f_equal; auto.
Qed.

Lemma NoDup_map_filter {A B} (f : A → B) (P : A → Prop) `{∀ x, Decision (P x)} l :
  NoDup (map f l) → NoDup (map f (filter P l)).
Proof.
  induction l as [|x l IH]; [done|]. cbn [map]. rewrite NoDup_cons, filter_cons. intros [Hx Hl].
  case_decide; [|by apply IH]. cbn [map]. apply NoDup_cons. split; [|by apply IH].
  intros (y & E & Hy)%list_elem_of_fmap. apply Hx. apply list_elem_of_fmap. exists y.
  split; [done|]. by apply list_elem_of_filter in Hy as [_ ?].
Qed.
Lemma filter_nil_iff_elem {A} (P : A → Prop) `{∀ x, Decision (P x)} l :
  (∀ x, x ∈ l → ¬ P x) → filter P l = [].
Proof.
  induction l as [|x l IH]; intros Hl; [done|]. rewrite filter_cons, decide_False.
  - apply IH. intros y Hy. apply Hl. by right.
  - apply Hl. left.
Qed.
Lemma Forall_filter {A} (Q P : A → Prop) `{∀ x, Decision (P x)} l : Forall Q l → Forall Q (filter P l).
Proof. rewrite !Forall_forall. intros HQ x Hx. apply list_elem_of_filter in Hx as [_ Hx]. auto. Qed.
Lemma NoDup_take {A} (l : list A) n : NoDup l → NoDup (take n l).
Proof. intros H. rewrite <- (take_drop n l) in H. by apply NoDup_app in H as [? _]. Qed.

(** ** Go integers and slices *)
Definition u8 (x : Z) : Z := x mod 2 ^ 8.
Definition u16 (x : Z) : Z := x mod 2 ^ 16.
Definition u32 (x : Z) : Z := x mod 2 ^ 32.
Definition u64 (x : Z) : Z := x mod 2 ^ 64.

Abbreviation bytes := (list Z).

Definition len {A} (l : list A) : Z := Z.of_nat (length l).

(** [b[i]]: [None] is the panic of an index out of range. *)
Definition idx {A} (l : list A) (i : Z) : option A :=
  if i <? 0 then None else l !! Z.to_nat i.

(** [b[lo:hi]] for bounds already checked by the caller. *)
Definition slice {A} (l : list A) (lo hi : Z) : list A :=
  take (Z.to_nat (hi - lo)) (drop (Z.to_nat lo) l).

Definition is_byte (b : Z) : Prop := 0 ≤ b < 256.
Definition is_u16 (x : Z) : Prop := 0 ≤ x < 2 ^ 16.
Definition is_u32 (x : Z) : Prop := 0 ≤ x < 2 ^ 32.
Definition is_u64 (x : Z) : Prop := 0 ≤ x < 2 ^ 64.

#[export] Instance is_byte_dec x : Decision (is_byte x).
Proof. unfold is_byte. apply _. Defined.
#[export] Instance is_u16_dec x : Decision (is_u16 x).
Proof. unfold is_u16. apply _. Defined.
#[export] Instance is_u32_dec x : Decision (is_u32 x).
Proof. unfold is_u32. apply _. Defined.
#[export] Instance is_u64_dec x : Decision (is_u64 x).
Proof. unfold is_u64. apply _. Defined.

(** A signed 64-bit word. *)
Definition i64 (x : Z) : Z := (x + 2 ^ 63) mod 2 ^ 64 - 2 ^ 63.

(** A closed decidable goal, by evaluation. *)
Ltac by_compute := apply (bool_decide_unpack _); vm_compute; exact I.

Lemma len_nonneg {A} (l : list A) : 0 ≤ len l.
Proof. unfold len. lia. Qed.
Lemma to_nat_len {A} (l : list A) : Z.to_nat (len l) = length l.
Proof. unfold len. lia. Qed.
Lemma len_nil {A} : len ([] : list A) = 0.
Proof. reflexivity. Qed.
Lemma len_cons {A} (x : A) l : len (x :: l) = 1 + len l.
Proof. unfold len. simpl. lia. Qed.
Lemma len_app {A} (l k : list A) : len (l ++ k) = len l + len k.
Proof. unfold len. rewrite length_app. lia. Qed.
Lemma len_map {A B} (f : A → B) l : len (map f l) = len l.
Proof. unfold len. by rewrite length_map. Qed.
Lemma len_perm {A} (l k : list A) : l ≡ₚ k → len l = len k.
Proof. intros H. unfold len. by rewrite H. Qed.

Create Rewrite HintDb len.
#[export] Hint Rewrite @len_nil @len_cons @len_app @len_map : len.

(** Normalise lengths everywhere, expose their sign, and finish with [lia]. *)
Ltac len_simpl :=
  repeat match goal with H : context [len] |- _ => progress autorewrite with len in H end;
  autorewrite with len.
Ltac len_lia :=
  len_simpl;
  repeat match goal with
  | |- context [len ?l] =>
      lazymatch goal with H : 0 ≤ len l |- _ => fail | _ => pose proof (len_nonneg l) end
  | _ : context [len ?l] |- _ =>
      lazymatch goal with H : 0 ≤ len l |- _ => fail | _ => pose proof (len_nonneg l) end
  end; lia.

Lemma idx_app_r {A} (l k : list A) i :
  0 ≤ i → idx (l ++ k) (len l + i) = idx k i.
Proof.
  intros Hi. unfold idx, len.
  destruct (Z.ltb_spec (Z.of_nat (length l) + i) 0); [lia|].
  destruct (Z.ltb_spec i 0); [lia|].
  rewrite lookup_app_r by lia. f_equal. lia.
Qed.
Lemma idx_app_mid {A} (l k : list A) x : idx (l ++ x :: k) (len l) = Some x.
Proof. rewrite <- (Z.add_0_r (len l)), idx_app_r by lia. reflexivity. Qed.
Lemma idx_is_Some {A} (l : list A) i : 0 ≤ i < len l → is_Some (idx l i).
Proof.
  intros [? ?]. unfold idx, len in *. destruct (Z.ltb_spec i 0); [lia|].
  apply lookup_lt_is_Some. lia.
Qed.
Lemma idx_None {A} (l : list A) i : len l ≤ i → idx l i = None.
Proof.
  intros Hi. unfold idx, len in *. destruct (i <? 0) eqn:?; [done|].
  apply lookup_ge_None. lia.
Qed.
Lemma idx_Some_split {A} (l : list A) i x :
  idx l i = Some x → ∃ pre post, l = pre ++ x :: post ∧ len pre = i.
Proof.
  unfold idx, len. destruct (Z.ltb_spec i 0); [done|]. intros Hl.
  exists (take (Z.to_nat i) l), (drop (S (Z.to_nat i)) l).
  rewrite take_drop_middle by done. split; [done|].
  apply lookup_lt_Some in Hl. rewrite length_take. lia.
Qed.

Lemma slice_app_mid {A} (p l k : list A) : slice (p ++ l ++ k) (len p) (len p + len l) = l.
Proof.
  unfold slice, len. replace (Z.to_nat (Z.of_nat (length p))) with (length p) by lia.
  rewrite drop_app_length.
  replace (Z.to_nat _) with (length l) by lia. apply take_app_length.
Qed.
Lemma len_slice {A} (l : list A) lo hi :
  0 ≤ lo → lo ≤ hi → hi ≤ len l → len (slice l lo hi) = hi - lo.
Proof. unfold slice, len. intros. rewrite length_take, length_drop. lia. Qed.

(** ** Stable sorting

    [sort.SliceStable] and [slices.SortStableFunc] promise a sorted permutation that keeps equal
    elements in their original order.  For a strict weak order that result is unique
    ([stable_sort_unique]), so an insertion sort is a faithful model of either. *)
Section stable_sort.
Context {A : Type} (less : A → A → bool).

Fixpoint insert_stable (x : A) (l : list A) : list A :=
  match l with
  | [] => [x]
  | y :: ys => if less y x then y :: insert_stable x ys else x :: y :: ys
  end.

Definition stable_sort (l : list A) : list A := foldr insert_stable [] l.

Lemma insert_stable_perm x l : insert_stable x l ≡ₚ x :: l.
Proof.
  induction l as [|y ys IH]; simpl; [done|]. destruct (less y x); [|done].
  rewrite IH. apply Permutation_swap.
Qed.

Lemma stable_sort_perm l : stable_sort l ≡ₚ l.
Proof. induction l as [|x l IH]; simpl; [done|]. by rewrite insert_stable_perm, IH. Qed.

(** Stability: a class of mutually incomparable elements keeps its order. *)
Lemma insert_stable_filter (P : A → Prop) `{∀ x, Decision (P x)} x l :
  (∀ a b, P a → P b → less a b = false) →
  filter P (insert_stable x l) = filter P (x :: l).
Proof.
  intros HP. induction l as [|y ys IH]; [done|]. simpl insert_stable.
  destruct (less y x) eqn:Hyx; [|done].
  rewrite (filter_cons P y), IH, !filter_cons.
  destruct (decide (P y)), (decide (P x)); try done. rewrite HP in Hyx; done.
Qed.

Lemma stable_sort_filter (P : A → Prop) `{∀ x, Decision (P x)} l :
  (∀ a b, P a → P b → less a b = false) → filter P (stable_sort l) = filter P l.
Proof.
  intros HP. induction l as [|x l IH]; simpl; [done|].
  rewrite insert_stable_filter, !filter_cons by done. by rewrite IH.
Qed.

(** The order [less] induces: [a] may stand before [b]. *)
Definition in_order (a b : A) : Prop := less b a = false.
Definition incomparable (a b : A) : Prop := less a b = false ∧ less b a = false.

Class StrictWeakOrder : Prop := {
  swo_irrefl a : less a a = false;
  swo_asym a b : less a b = true → less b a = false;
  swo_neg_trans a b c : less a b = false → less b c = false → less a c = false;
}.
Context {Hswo : StrictWeakOrder}.

Lemma insert_stable_sorted x l :
  StronglySorted in_order l → StronglySorted in_order (insert_stable x l).
Proof.
  induction 1 as [|y ys Hs IH Hall]; simpl.
  { repeat constructor. }
  destruct (less y x) eqn:Hyx.
  - constructor; [done|]. rewrite insert_stable_perm. constructor; [|done].
    by apply swo_asym.
  - repeat constructor; try done. eapply Forall_impl; [done|].
    intros z Hz. by eapply swo_neg_trans.
Qed.

Lemma stable_sort_sorted l : StronglySorted in_order (stable_sort l).
Proof. induction l; simpl; [constructor|by apply insert_stable_sorted]. Qed.

#[local] Instance incomparable_dec a b : Decision (incomparable a b).
Proof. unfold incomparable. apply _. Defined.

Lemma incomparable_class x a b :
  incomparable x a → incomparable x b → less a b = false.
Proof. intros [_ Ha] [Hb _]. by eapply swo_neg_trans. Qed.

(** Two sorted lists with the same equivalence classes, each in the same order, are equal. *)
Lemma sorted_classes_eq l k :
  StronglySorted in_order l → StronglySorted in_order k →
  (∀ x, filter (incomparable x) l = filter (incomparable x) k) → l = k.
Proof.
  intros Hl. revert k. induction Hl as [|x l Hl IH Hx]; intros k Hk Hf.
  { destruct k as [|y k]; [done|]. specialize (Hf y).
    rewrite filter_cons, decide_True in Hf by (split; apply swo_irrefl). done. }
  destruct Hk as [|y k Hk Hy].
  { specialize (Hf x).
    rewrite filter_cons, decide_True in Hf by (split; apply swo_irrefl). done. }
  assert (incomparable x y) as Hxy.
  { pose proof (Hf x) as H1. pose proof (Hf y) as H2.
    rewrite filter_cons, decide_True in H1 by (split; apply swo_irrefl).
    rewrite (filter_cons _ y), decide_True in H2 by (split; apply swo_irrefl).
    assert (x ∈ y :: k) as Hin1.
    { apply (list_elem_of_filter (incomparable x)). rewrite <- H1. left. }
    assert (y ∈ x :: l) as Hin2.
    { apply (list_elem_of_filter (incomparable y)). rewrite H2. left. }
    rewrite Forall_forall in Hx, Hy. split.
    - apply elem_of_cons in Hin1 as [->|]; [apply swo_irrefl|]. by apply Hy.
    - apply elem_of_cons in Hin2 as [->|]; [apply swo_irrefl|]. by apply Hx. }
  assert (x = y) as <-.
  { pose proof (Hf x) as H1.
    rewrite !filter_cons, !decide_True in H1 by (done || split; apply swo_irrefl).
    by simplify_eq. }
  f_equal. apply IH; [done|]. intros z. specialize (Hf z).
  rewrite !filter_cons in Hf. by destruct (decide (incomparable z x)); simplify_eq.
Qed.

(** A sorted list with the classes of [l] is the stable sort of [l]. *)
Lemma stable_sort_unique l k :
  StronglySorted in_order k →
  (∀ x, filter (incomparable x) k = filter (incomparable x) l) → k = stable_sort l.
Proof.
  intros Hk Hf. apply sorted_classes_eq; [done|apply stable_sort_sorted|].
  intros x. rewrite Hf, stable_sort_filter; [done|]. apply incomparable_class.
Qed.
End stable_sort.

(** Total orders given by a comparison function, and their lexicographic products. *)
Class CmpOrder {K} (cmp : K → K → comparison) : Prop := {
  cmp_opp a b : cmp b a = CompOpp (cmp a b);
  cmp_eq a b : cmp a b = Eq → a = b;
  cmp_lt_trans a b c : cmp a b = Lt → cmp b c = Lt → cmp a c = Lt;
}.

Definition lex_cmp {A B} (ca : A → A → comparison) (cb : B → B → comparison)
    (x y : A * B) : comparison :=
  match ca x.1 y.1 with Eq => cb x.2 y.2 | c => c end.

Lemma cmp_refl {K} (cmp : K → K → comparison) `{!CmpOrder cmp} a : cmp a a = Eq.
Proof. pose proof (cmp_opp a a) as H. by destruct (cmp a a). Qed.

#[export] Instance lex_cmp_order {A B} ca cb `{!CmpOrder (K:=A) ca, !CmpOrder (K:=B) cb} :
  CmpOrder (lex_cmp ca cb).
Proof.
  split; unfold lex_cmp.
  - intros [a b] [a' b']; simpl. rewrite (cmp_opp a a'). destruct (ca a a'); simpl; [|done..].
    apply cmp_opp.
  - intros [a b] [a' b']; simpl. destruct (ca a a') eqn:E; try done.
    apply cmp_eq in E as ->. intros ->%cmp_eq. done.
  - intros [a b] [a' b'] [a'' b'']; simpl.
    destruct (ca a a') eqn:E1, (ca a' a'') eqn:E2; try done.
    + apply cmp_eq in E1 as ->. rewrite E2. apply cmp_lt_trans.
    + apply cmp_eq in E1 as ->. by rewrite E2.
    + apply cmp_eq in E2 as ->. by rewrite E1.
    + by rewrite (cmp_lt_trans _ _ _ E1 E2).
Qed.

#[export] Instance Zcompare_order : CmpOrder Z.compare.
Proof.
  split.
  - intros. apply Z.compare_antisym.
  - apply Z.compare_eq.
  - intros a b c. rewrite !Z.compare_lt_iff. lia.
Qed.

(** Sorting by a key with a total order on keys is a strict weak order. *)
Lemma swo_of_cmp {A K} (key : A → K) (cmp : K → K → comparison) `{!CmpOrder cmp} less :
  (∀ x y, less x y = bool_decide (cmp (key x) (key y) = Lt)) → StrictWeakOrder less.
Proof.
  intros Hless. split.
  - intros a. rewrite Hless, cmp_refl by done. done.
  - intros a b. rewrite !Hless. intros H%bool_decide_eq_true. apply bool_decide_eq_false_2.
    by rewrite cmp_opp, H.
  - intros a b c. rewrite !Hless.
    intros Hab%bool_decide_eq_false Hbc%bool_decide_eq_false. apply bool_decide_eq_false_2.
    intros Hac. destruct (cmp (key b) (key c)) eqn:E.
    + apply cmp_eq in E. congruence.
    + done.
    + apply Hab. apply (cmp_lt_trans _ (key c)); [done|]. by rewrite cmp_opp, E.
Qed.

(** ** Byte strings *)

(** [bytes.Compare] / [strings.Compare]: lexicographic, a proper prefix first. *)
Fixpoint bytes_compare (a b : bytes) : comparison :=
  match a, b with
  | [], [] => Eq
  | [], _ :: _ => Lt
  | _ :: _, [] => Gt
  | x :: a', y :: b' => match x ?= y with Eq => bytes_compare a' b' | c => c end
  end.

Lemma bytes_compare_refl a : bytes_compare a a = Eq.
Proof. induction a; simpl; [done|]. by rewrite Z.compare_refl. Qed.
Lemma bytes_compare_eq a b : bytes_compare a b = Eq ↔ a = b.
Proof.
  split; [|intros ->; apply bytes_compare_refl].
  revert b. induction a as [|x a IH]; intros [|y b]; simpl; try done.
  destruct (Z.compare_spec x y); [|done|done]. intros. subst. f_equal. auto.
Qed.
Lemma bytes_compare_opp a b : bytes_compare b a = CompOpp (bytes_compare a b).
Proof.
  revert b. induction a as [|x a IH]; intros [|y b]; simpl; try done.
  rewrite (Z.compare_antisym x y). by destruct (x ?= y); simpl.
Qed.
Lemma bytes_compare_lt_trans a b c :
  bytes_compare a b = Lt → bytes_compare b c = Lt → bytes_compare a c = Lt.
Proof.
  revert b c. induction a as [|x a IH]; intros [|y b] [|z c]; simpl; try done.
  destruct (Z.compare_spec x y), (Z.compare_spec y z); subst; try done; intros ??.
  - rewrite Z.compare_refl. eauto.
  - by destruct (Z.compare_spec y z); try lia.
  - by destruct (Z.compare_spec x z); try lia.
  - by destruct (Z.compare_spec x z); try lia.
Qed.
#[export] Instance bytes_compare_order : CmpOrder bytes_compare.
Proof.
  split.
  - intros. apply bytes_compare_opp.
  - intros a b. apply bytes_compare_eq.
  - apply bytes_compare_lt_trans.
Qed.
Definition bytes_lt (a b : bytes) : bool := bool_decide (bytes_compare a b = Lt).

(** ** Sorting by a key

    [slices.SortFunc] does not keep equal elements in order; on a list whose keys differ the sorted
    permutation is unique all the same ([sort_on_unique]). *)
Section sort_on.
Context {A K : Type} (key : A → K) (cmp : K → K → comparison) `{!CmpOrder cmp}.
Definition key_lt (a b : A) : Prop := cmp (key a) (key b) = Lt.
Definition sort_on (l : list A) : list A := stable_sort (λ a b, bool_decide (cmp (key a) (key b) = Lt)) l.
Lemma sort_on_perm l : sort_on l ≡ₚ l.
Proof. apply stable_sort_perm. Qed.
Lemma elem_of_sort_on l x : x ∈ sort_on l ↔ x ∈ l.
Proof. by rewrite sort_on_perm. Qed.
Lemma sort_on_strict l : NoDup (map key l) → StronglySorted key_lt (sort_on l).
Proof.
  intros Hnd. assert (StrictWeakOrder (λ a b, bool_decide (cmp (key a) (key b) = Lt))) by by apply (swo_of_cmp key cmp).
  pose proof (stable_sort_sorted (λ a b, bool_decide (cmp (key a) (key b) = Lt)) l) as Hs. fold (sort_on l) in Hs.
  assert (NoDup (map key (sort_on l))) as Hnd' by by rewrite sort_on_perm. clear Hnd.
  induction Hs as [|a k Hs IH Ha]; [constructor|]. apply NoDup_cons in Hnd' as [Hna Hnd]. constructor; [by apply IH|].
  rewrite Forall_forall in Ha |- *. intros b Hb. specialize (Ha b Hb). apply bool_decide_eq_false in Ha. unfold key_lt.
  rewrite (cmp_opp (key b) (key a)). destruct (cmp (key b) (key a)) eqn:E; [|done|done].
  exfalso. apply Hna. apply cmp_eq in E. rewrite <- E. by apply list_elem_of_fmap_2.
Qed.
Lemma strict_NoDup l : StronglySorted key_lt l → NoDup (map key l).
Proof.
  induction 1 as [|a l Hs IH Ha]; [constructor|]. constructor; [|done]. intros (b & E & Hb)%list_elem_of_fmap.
  rewrite Forall_forall in Ha. specialize (Ha b Hb). unfold key_lt in Ha. rewrite E, cmp_refl in Ha; done.
Qed.
(** Strictly sorted lists with the same elements are equal. *)
Lemma strict_unique l k : StronglySorted key_lt l → StronglySorted key_lt k → (∀ x, x ∈ l ↔ x ∈ k) → l = k.
Proof.
  assert (∀ a b, key_lt a b → ¬ key_lt b a) as Hasym by (intros a b H1 H2; unfold key_lt in *; rewrite (cmp_opp (key a) (key b)), H1 in H2; done).
  assert (∀ a, ¬ key_lt a a) as Hirr by (intros a H; by apply (Hasym a a)).
  intros Hl. revert k. induction Hl as [|a l Hl IH Ha]; intros k Hk Heq.
  { destruct k as [|b k]; [done|]. exfalso. apply (not_elem_of_nil b), Heq. by left. }
  destruct Hk as [|b k Hk Hb]; [exfalso; apply (not_elem_of_nil a), Heq; by left|]. rewrite Forall_forall in Ha, Hb.
  assert (a = b) as <-.
  { assert (a ∈ b :: k) as Hin by (apply Heq; by left). assert (b ∈ a :: l) as Hin' by (apply Heq; by left).
    apply elem_of_cons in Hin as [|Hin], Hin' as [|Hin']; try done. exfalso. eapply Hasym; [by apply Ha|by apply Hb]. }
  f_equal. apply IH; [done|]. intros x. specialize (Heq x). rewrite !elem_of_cons in Heq. split; intros Hx.
  - destruct (proj1 Heq (or_intror Hx)) as [->|]; [|done]. exfalso. by eapply Hirr, Ha.
  - destruct (proj2 Heq (or_intror Hx)) as [->|]; [|done]. exfalso. by eapply Hirr, Hb.
Qed.
Lemma sort_on_unique l k : NoDup (map key l) → StronglySorted key_lt k → (∀ x, x ∈ k ↔ x ∈ l) → k = sort_on l.
Proof. intros Hnd Hk Heq. apply strict_unique; [done|by apply sort_on_strict|]. intros x. by rewrite elem_of_sort_on. Qed.
Lemma sort_on_perm_eq l k : NoDup (map key l) → l ≡ₚ k → sort_on l = sort_on k.
Proof. intros Hnd Hp. apply sort_on_unique; [by rewrite <- Hp|by apply sort_on_strict|]. intros x. by rewrite elem_of_sort_on, Hp. Qed.
End sort_on.
Lemma forallb_perm {A} (f : A → bool) l k : l ≡ₚ k → forallb f l = forallb f k.
Proof. induction 1 as [|x l k _ IH|x y l|l k m _ IH1 _ IH2]; simpl; [done|by rewrite IH|destruct (f x), (f y); done|by rewrite IH1]. Qed.
Lemma filter_all {A} (P : A → Prop) `{∀ x, Decision (P x)} (l : list A) : (∀ x, x ∈ l → P x) → filter P l = l.
Proof.
  induction l as [|x l IH]; intros Hl; [done|]. rewrite filter_cons, decide_True by (apply Hl; by left). f_equal. apply IH. intros y Hy. apply Hl. by right.
Qed.
(** Two elements that [f] does not tell apart. *)
Lemma not_NoDup_map {A B} `{EqDecision A} `{EqDecision B} (f : A → B) l : NoDup l → ¬ NoDup (map f l) → ∃ x y, x ∈ l ∧ y ∈ l ∧ x ≠ y ∧ f x = f y.
Proof.
  intros Hl Hn. destruct (decide (Forall (λ x, Forall (λ y, f x = f y → x = y) l) l)) as [Hf|Hf].
  - exfalso. apply Hn, NoDup_fmap_2_strong; [|done]. intros x y Hx Hy. rewrite Forall_forall in Hf. specialize (Hf x Hx). rewrite Forall_forall in Hf. auto.
  - apply not_Forall_Exists, Exists_exists in Hf as (x & Hx & Hf); [|apply _]. apply not_Forall_Exists, Exists_exists in Hf as (y & Hy & Hf); [|apply _]. simpl in Hf.
    exists x, y. destruct (decide (f x = f y)), (decide (x = y)); tauto.
Qed.


(** [binary.BigEndian.AppendUint16]/[AppendUint32] and their readers. *)
Definition put16 (v : Z) : bytes := [u8 (Z.shiftr v 8); u8 v].
Definition put32 (v : Z) : bytes :=
  [u8 (Z.shiftr v 24); u8 (Z.shiftr v 16); u8 (Z.shiftr v 8); u8 v].
Definition get16 (b : bytes) : option Z :=
  match b with
  | b0 :: b1 :: _ => Some (Z.lor b1 (Z.shiftl b0 8))
  | _ => None
  end.
Definition get32 (b : bytes) : option Z :=
  match b with
  | b0 :: b1 :: b2 :: b3 :: _ =>
      Some (Z.lor (Z.lor (Z.lor b3 (Z.shiftl b2 8)) (Z.shiftl b1 16)) (Z.shiftl b0 24))
  | _ => None
  end.

Lemma lor_shiftl_add a b n :
  0 ≤ n → 0 ≤ a < 2 ^ n → Z.lor a (Z.shiftl b n) = a + b * 2 ^ n.
Proof.
  intros Hn Ha. rewrite <- Z.shiftl_mul_pow2, <- Z.add_lor_land by lia.
  enough (Z.land a (Z.shiftl b n) = 0) by lia.
  apply Z.bits_inj'. intros i Hi. rewrite Z.land_spec, Z.bits_0.
  destruct (Z.ltb_spec i n).
  - rewrite Z.shiftl_spec_low by lia. by destruct (Z.testbit a i).
  - enough (Z.testbit a i = false) as -> by done.
    rewrite <- (Z.mod_small a (2 ^ n)) by lia. apply Z.mod_pow2_bits_high. lia.
Qed.

Lemma get16_put16 v k : is_u16 v → get16 (put16 v ++ k) = Some v.
Proof.
  intros Hv. unfold put16, get16, u8, is_u16 in *. simpl.
  pose proof (Z.mod_pos_bound v (2 ^ 8)).
  rewrite lor_shiftl_add, Z.shiftr_div_pow2 by lia.
  f_equal. rewrite (Z.mod_small (v / 2 ^ 8)).
  - pose proof (Z.div_mod v (2 ^ 8)). lia.
  - split; [apply Z.div_pos|apply Z.div_lt_upper_bound]; lia.
Qed.

Lemma get32_put32 v k : is_u32 v → get32 (put32 v ++ k) = Some v.
Proof.
  intros Hv. unfold put32, get32, u8, is_u32 in *. cbn [app].
  rewrite !Z.shiftr_div_pow2 by lia.
  pose proof (Z.mod_pos_bound v (2 ^ 8)). pose proof (Z.mod_pos_bound (v / 2 ^ 8) (2 ^ 8)).
  pose proof (Z.mod_pos_bound (v / 2 ^ 16) (2 ^ 8)).
  rewrite (lor_shiftl_add _ _ 8), (lor_shiftl_add _ _ 16), (lor_shiftl_add _ _ 24) by lia.
  f_equal. rewrite (Z.mod_small (v / 2 ^ 24)).
  - pose proof (Z.div_mod v (2 ^ 8)). pose proof (Z.div_mod (v / 2 ^ 8) (2 ^ 8)).
    pose proof (Z.div_mod (v / 2 ^ 16) (2 ^ 8)).
    rewrite (Z.div_div v (2 ^ 8) (2 ^ 8)) in * by lia.
    rewrite (Z.div_div v (2 ^ 16) (2 ^ 8)) in * by lia.
    change (2 ^ 8 * 2 ^ 8) with (2 ^ 16) in *. change (2 ^ 16 * 2 ^ 8) with (2 ^ 24) in *. lia.
  - split; [apply Z.div_pos|apply Z.div_lt_upper_bound]; lia.
Qed.

Lemma get16_bound b v : Forall is_byte b → get16 b = Some v → is_u16 v.
Proof.
  destruct b as [|b0 [|b1 b]]; try done. simpl. rewrite !Forall_cons.
  intros (H0 & H1 & _) [= <-]. unfold is_byte, is_u16 in *.
  rewrite lor_shiftl_add by lia. lia.
Qed.
Lemma get32_bound b v : Forall is_byte b → get32 b = Some v → is_u32 v.
Proof.
  destruct b as [|b0 [|b1 [|b2 [|b3 b]]]]; try done. cbn [get32]. rewrite !Forall_cons.
  intros (H0 & H1 & H2 & H3 & _) [= <-]. unfold is_byte, is_u32 in *.
  rewrite (lor_shiftl_add _ _ 8), (lor_shiftl_add _ _ 16), (lor_shiftl_add _ _ 24) by lia. lia.
Qed.

Lemma u8_byte v : is_byte (u8 v).
Proof. unfold u8, is_byte. apply (Z.mod_pos_bound v (2 ^ 8)). lia. Qed.
Lemma put16_bytes v : Forall is_byte (put16 v).
Proof. repeat constructor; apply u8_byte. Qed.
Lemma put32_bytes v : Forall is_byte (put32 v).
Proof. repeat constructor; apply u8_byte. Qed.
Lemma u8_small v : is_byte v → u8 v = v.
Proof. intros Hv. by apply Z.mod_small. Qed.
Lemma u16_small v : is_u16 v → u16 v = v.
Proof. intros Hv. by apply Z.mod_small. Qed.
Lemma u32_small v : is_u32 v → u32 v = v.
Proof. intros Hv. by apply Z.mod_small. Qed.
#[export] Hint Resolve u8_byte put16_bytes put32_bytes : core.

(** ** Strings

    A Go string is its octets; [str] writes a constant. *)
Definition str (s : string) : bytes :=
  map (λ a, Z.of_N (Ascii.N_of_ascii a)) (String.list_ascii_of_string s).

