(* ===== verification/GoText.v ===== *)
(** * Go text primitives used by the management plane

    The parts of [unicode/utf8], [unicode] and [bytes] that the sources call on raw wire names:
    UTF-8 decoding with Go's treatment of invalid input, simple case folding, and
    [bytes.EqualFold].  The case-folding table beyond ASCII is a parameter ([wide]); the two orbits
    that mix ASCII and non-ASCII runes (U+212A KELVIN SIGN with k/K, U+017F LONG S with s/S) are
    written out because the ASCII part of the table points into them. *)

From S2P Require Import Prelude.

Definition RuneSelf : Z := 0x80.
Definition RuneError : Z := 0xFFFD.

(** [utf8.DecodeRune]: the first rune and its width; an invalid encoding is (RuneError, 1). *)
Definition cont (lo hi b : Z) : bool := (lo <=? b) && (b <=? hi).

(** The [first] table: size of the encoding and the accepted range of its second byte. *)
Definition first_byte (p0 : Z) : option (Z * Z * Z) :=
  if (0xC2 <=? p0) && (p0 <=? 0xDF) then Some (2, 0x80, 0xBF)
  else if p0 =? 0xE0 then Some (3, 0xA0, 0xBF)
  else if p0 =? 0xED then Some (3, 0x80, 0x9F)
  else if (0xE1 <=? p0) && (p0 <=? 0xEF) then Some (3, 0x80, 0xBF)
  else if p0 =? 0xF0 then Some (4, 0x90, 0xBF)
  else if (0xF1 <=? p0) && (p0 <=? 0xF3) then Some (4, 0x80, 0xBF)
  else if p0 =? 0xF4 then Some (4, 0x80, 0x8F)
  else None.

Definition DecodeRune (p : bytes) : Z * Z :=
  match p with
  | [] => (RuneError, 0)
  | p0 :: rest =>
      if p0 <? RuneSelf then (p0, 1)
      else
        match first_byte p0, rest with
        | Some (2, lo, hi), b1 :: _ =>
            if cont lo hi b1
            then (Z.lor (Z.shiftl (Z.land p0 0x1F) 6) (Z.land b1 0x3F), 2)
            else (RuneError, 1)
        | Some (3, lo, hi), b1 :: b2 :: _ =>
            if cont lo hi b1 && cont 0x80 0xBF b2
            then (Z.lor (Z.lor (Z.shiftl (Z.land p0 0x0F) 12) (Z.shiftl (Z.land b1 0x3F) 6))
                        (Z.land b2 0x3F), 3)
            else (RuneError, 1)
        | Some (4, lo, hi), b1 :: b2 :: b3 :: _ =>
            if cont lo hi b1 && cont 0x80 0xBF b2 && cont 0x80 0xBF b3
            then (Z.lor (Z.lor (Z.lor (Z.shiftl (Z.land p0 0x07) 18) (Z.shiftl (Z.land b1 0x3F) 12))
                               (Z.shiftl (Z.land b2 0x3F) 6)) (Z.land b3 0x3F), 4)
            else (RuneError, 1)
        | _, _ => (RuneError, 1)
        end
  end.

Definition is_upper (r : Z) : bool := (65 <=? r) && (r <=? 90).
Definition is_lower (r : Z) : bool := (97 <=? r) && (r <=? 122).
Definition ascii_lower (r : Z) : Z := if is_upper r then r + 32 else r.

Section fold.
(** [unicode.SimpleFold] above ASCII. *)
Context (wide : Z → Z).

Definition SimpleFold (r : Z) : Z :=
  if r =? 107 then 0x212A
  else if r =? 115 then 0x17F
  else if is_upper r then r + 32
  else if is_lower r then r - 32
  else if r <? RuneSelf then r
  else if r =? 0x212A then 75
  else if r =? 0x17F then 83
  else wide r.

(** The general case of [EqualFold]'s comparison of two runes [sr < tr]: walk the orbit of [sr]
    upwards.  Unicode orbits have at most four elements. *)
Fixpoint orbit (fuel : nat) (sr tr r : Z) : Z :=
  match fuel with
  | O => r
  | S f => if negb (r =? sr) && (r <? tr) then orbit f sr tr (SimpleFold r) else r
  end.

Definition rune_eq (sr tr : Z) : bool :=
  if tr =? sr then true
  else
    let '(sr, tr) := if tr <? sr then (tr, sr) else (sr, tr) in
    if tr <? RuneSelf then is_upper sr && (tr =? sr + 32)
    else orbit 8 sr tr (SimpleFold sr) =? tr.

(** The loop after [hasUnicode]; [fuel] bounds the runes left. *)
Fixpoint fold_runes (fuel : nat) (s t : bytes) : bool :=
  match fuel with
  | O => bool_decide (s = [] ∧ t = [])
  | S f =>
      match s, t with
      | _ :: _, _ :: _ =>
          let '(sr, n) := DecodeRune s in
          let '(tr, m) := DecodeRune t in
          if rune_eq sr tr then fold_runes f (drop (Z.to_nat n) s) (drop (Z.to_nat m) t)
          else false
      | [], [] => true
      | _, _ => false
      end
  end.

(** [bytes.EqualFold]: an ASCII prefix compared byte by byte, then runes. *)
Fixpoint EqualFold (s t : bytes) : bool :=
  match s, t with
  | [], [] => true
  | sr :: s', tr :: t' =>
      if RuneSelf <=? Z.lor sr tr then fold_runes (length (sr :: s')) (sr :: s') (tr :: t')
      else if tr =? sr then EqualFold s' t'
      else
        let '(a, b) := if tr <? sr then (tr, sr) else (sr, tr) in
        if is_upper a && (b =? a + 32) then EqualFold s' t' else false
  | _, _ => false
  end.
End fold.

(** Two different invalid UTF-8 bytes decode to the same replacement rune, so [EqualFold] equates
    them: on octets that are not text it is coarser than ASCII case folding. *)
Example EqualFold_invalid wide : EqualFold wide [0xFE] [0xFF] = true.
Proof. reflexivity. Qed.

Lemma lor_ge_l a b : 0 ≤ a → 0 ≤ b → a ≤ Z.lor a b.
Proof.
  intros Ha Hb. pose proof (Z.add_lor_land a (Z.ldiff b a)) as H.
  assert (Z.lor a (Z.ldiff b a) = Z.lor a b) as H1.
  { apply Z.bits_inj'. intros i Hi. rewrite !Z.lor_spec, Z.ldiff_spec.
    by destruct (Z.testbit a i), (Z.testbit b i). }
  assert (Z.land a (Z.ldiff b a) = 0) as H2.
  { apply Z.bits_inj'. intros i Hi. rewrite Z.land_spec, Z.ldiff_spec, Z.bits_0.
    by destruct (Z.testbit a i), (Z.testbit b i). }
  pose proof (proj2 (Z.ldiff_nonneg b a) (or_introl Hb)). lia.
Qed.
Lemma lor_ge_r a b : 0 ≤ a → 0 ≤ b → b ≤ Z.lor a b.
Proof. rewrite Z.lor_comm. intros. by apply lor_ge_l. Qed.

Lemma land_low x n : 0 ≤ n → Z.land x (Z.ones n) = x mod 2 ^ n.
Proof. apply Z.land_ones. Qed.

Ltac modlia := Z.div_mod_to_equations; lia.
Ltac lor_nonneg := rewrite ?Z.lor_nonneg; repeat split; modlia.
(** Bound a bitwise or from below by one of its arguments. *)
Ltac lor_bound :=
  lazymatch goal with
  | |- _ ≤ Z.lor _ _ =>
      first [ etrans; [|apply lor_ge_l; lor_nonneg]; lor_bound
            | etrans; [|apply lor_ge_r; lor_nonneg]; lor_bound ]
  | |- _ => modlia
  end.

(** Multi-byte runes lie above ASCII. *)
Lemma DecodeRune_wide p0 p :
  is_byte p0 → Forall is_byte p → RuneSelf ≤ p0 → RuneSelf ≤ (DecodeRune (p0 :: p)).1.
Proof.
  unfold is_byte, DecodeRune, first_byte. intros Hp0 Hp Hge.
  destruct (Z.ltb_spec p0 RuneSelf); [lia|].
  change 0x1F with (Z.ones 5); change 0x0F with (Z.ones 4); change 0x07 with (Z.ones 3);
  change 0x3F with (Z.ones 6).
  repeat case_match; simplify_eq/=; try (unfold RuneSelf, RuneError; lia);
    unfold cont in *; rewrite !Forall_cons in Hp; destruct_and?;
    rewrite ?land_low, ?Z.shiftl_mul_pow2 by lia; unfold is_byte, RuneSelf in *; lor_bound.
Qed.

Lemma ascii_lower_cases b : is_byte b → ascii_lower b = b ∨ (b < RuneSelf ∧ ascii_lower b < RuneSelf).
Proof. unfold is_byte, ascii_lower, is_upper, RuneSelf. case_match; lia. Qed.
Lemma ascii_lower_wide r : RuneSelf ≤ r → ascii_lower r = r.
Proof. unfold ascii_lower, is_upper, RuneSelf. case_match; lia. Qed.
Lemma ascii_lower_byte b : is_byte b → is_byte (ascii_lower b).
Proof. unfold is_byte, ascii_lower, is_upper. case_match; lia. Qed.
Lemma lower_bytes p : Forall is_byte p → Forall is_byte (map ascii_lower p).
Proof. induction 1; simpl; constructor; auto using ascii_lower_byte. Qed.
Lemma ascii_lower_idemp b : ascii_lower (ascii_lower b) = ascii_lower b.
Proof. unfold ascii_lower, is_upper. repeat case_match; lia. Qed.

Lemma cont_low lo hi b : RuneSelf ≤ lo → b < RuneSelf → cont lo hi b = false.
Proof. unfold cont. lia. Qed.

(** Decoding a multi-byte rune looks at the following bytes only through [cont]. *)
Definition same_cont (b b' : Z) : Prop := b = b' ∨ (b < RuneSelf ∧ b' < RuneSelf).

Lemma first_byte_lo p0 n lo hi : first_byte p0 = Some (n, lo, hi) → RuneSelf ≤ lo.
Proof. unfold first_byte. intros. repeat case_match; simplify_eq; done. Qed.

Lemma DecodeRune_same_cont p0 p p' :
  RuneSelf ≤ p0 → Forall2 same_cont p p' → DecodeRune (p0 :: p) = DecodeRune (p0 :: p').
Proof.
  intros Hp0 H. unfold DecodeRune. destruct (Z.ltb_spec p0 RuneSelf); [lia|].
  pose proof (first_byte_lo p0) as Hlo.
  destruct (first_byte p0) as [[[n lo] hi]|]; [|by destruct H].
  specialize (Hlo _ _ _ eq_refl). assert (RuneSelf ≤ 0x80) by done.
  assert (∀ b b', b < RuneSelf → b' < RuneSelf →
    cont lo hi b = false ∧ cont lo hi b' = false ∧
    cont 0x80 0xBF b = false ∧ cont 0x80 0xBF b' = false) as Hc.
  { intros. by rewrite !cont_low. }
  destruct H as [|b1 b1' ?? [->|[Hb1 Hb1']] H]; [done| |].
  - destruct H as [|b2 b2' ?? [->|[Hb2 Hb2']] H]; [done| |].
    + destruct H as [|b3 b3' ?? [->|[Hb3 Hb3']] H]; [done|done|].
      destruct (Hc _ _ Hb3 Hb3') as (?&?&->&->). by rewrite andb_false_r.
    + destruct (Hc _ _ Hb2 Hb2') as (?&?&->&->). rewrite !andb_false_r. by destruct H.
  - destruct (Hc _ _ Hb1 Hb1') as (->&->&?&?). simpl.
    by destruct H as [|???? ? []].
Qed.

(** Lowercasing ASCII letters commutes with decoding. *)
Lemma DecodeRune_lower p :
  Forall is_byte p →
  DecodeRune (map ascii_lower p) = (ascii_lower (DecodeRune p).1, (DecodeRune p).2).
Proof.
  intros Hp. destruct p as [|p0 rest]; [done|].
  apply Forall_cons in Hp as [Hp0 Hrest].
  destruct (Z.ltb_spec p0 RuneSelf) as [Hlt|Hge].
  { destruct (ascii_lower_cases p0 Hp0) as [E|[_ Hlt']]; simpl.
    - rewrite E, (proj2 (Z.ltb_lt p0 RuneSelf) Hlt). simpl. by rewrite E.
    - by rewrite (proj2 (Z.ltb_lt _ _) Hlt'), (proj2 (Z.ltb_lt _ _) Hlt). }
  pose proof (DecodeRune_wide p0 rest Hp0 Hrest Hge) as Hr.
  rewrite (ascii_lower_wide _ Hr), <- surjective_pairing. cbn [map].
  rewrite (ascii_lower_wide p0 Hge). symmetry. apply DecodeRune_same_cont; [done|].
  clear -Hrest. induction Hrest as [|b rest Hb Hrest IH]; simpl; constructor; [|done].
  destruct (ascii_lower_cases b Hb) as [->|]; [by left|by right].
Qed.

Lemma DecodeRune_width p0 p : 1 ≤ (DecodeRune (p0 :: p)).2 ≤ len (p0 :: p).
Proof. unfold DecodeRune. repeat case_match; simpl; len_lia. Qed.

Section fold_props.
Context (wide : Z → Z).

Lemma rune_eq_refl r : rune_eq wide r r = true.
Proof. unfold rune_eq. by rewrite Z.eqb_refl. Qed.
Lemma rune_eq_comm r q : rune_eq wide r q = rune_eq wide q r.
Proof.
  unfold rune_eq. rewrite (Z.eqb_sym q r). destruct (Z.eqb_spec r q); [done|].
  destruct (Z.ltb_spec q r), (Z.ltb_spec r q); try lia; done.
Qed.

Lemma orbit_step f s t r :
  r ≠ s → r < t → orbit wide (S f) s t r = orbit wide f s t (SimpleFold wide r).
Proof. intros. simpl. by rewrite (proj2 (Z.eqb_neq r s)), (proj2 (Z.ltb_lt r t)). Qed.
Lemma orbit_back f s t : orbit wide f s t s = s.
Proof. destruct f; simpl; [done|]. by rewrite Z.eqb_refl. Qed.
Lemma orbit_past f s t r : t ≤ r → orbit wide f s t r = r.
Proof.
  destruct f; simpl; [done|]. intros. rewrite (proj2 (Z.ltb_ge r t)) by done.
  by rewrite andb_false_r.
Qed.
Lemma SimpleFold_upper r : is_upper r = true → SimpleFold wide r = r + 32.
Proof. unfold SimpleFold, is_upper. intros H. by repeat case_match; try lia. Qed.
Lemma SimpleFold_lower r :
  is_upper r = true → r ≠ 75 → r ≠ 83 → SimpleFold wide (r + 32) = r.
Proof. unfold SimpleFold, is_upper, is_lower. intros H ??. repeat case_match; lia. Qed.

(** An ASCII letter reaches the same wide runes from either case: only k/K and s/S have any. *)
Lemma orbit_upper tr sr :
  is_upper tr = true → RuneSelf ≤ sr →
  (orbit wide 8 tr sr (SimpleFold wide tr) =? sr)
  = (orbit wide 8 (tr + 32) sr (SimpleFold wide (tr + 32)) =? sr).
Proof.
  unfold RuneSelf. intros Htr Hsr.
  assert (65 ≤ tr ≤ 90) as Hb by (unfold is_upper in Htr; lia).
  rewrite (SimpleFold_upper tr), orbit_step by (done || lia).
  assert (∀ w, (tr = 75 ∧ w = 0x212A ∨ tr = 83 ∧ w = 0x17F) →
    SimpleFold wide (tr + 32) = w ∧ SimpleFold wide w = tr) as Hw
    by (intros w [[-> ->]|[-> ->]]; done).
  assert (∀ w, SimpleFold wide (tr + 32) = w → SimpleFold wide w = tr → 128 < w →
    (orbit wide 7 tr sr w =? sr) = (orbit wide 8 (tr + 32) sr w =? sr)) as Hmix.
  { intros w H1 H2 Hw'. destruct (Z.ltb_spec w sr).
    - rewrite orbit_step, H2, orbit_back by lia.
      rewrite orbit_step, H2, orbit_step, SimpleFold_upper, orbit_back by (done || lia). lia.
    - by rewrite !orbit_past. }
  destruct (Z.eqb_spec tr 75); [|destruct (Z.eqb_spec tr 83)].
  - destruct (Hw 0x212A) as [H1 H2]; [lia|]. rewrite H1. by apply Hmix.
  - destruct (Hw 0x17F) as [H1 H2]; [lia|]. rewrite H1. by apply Hmix.
  - rewrite SimpleFold_lower, orbit_back by done.
    rewrite orbit_step, SimpleFold_upper, orbit_back by (done || lia). lia.
Qed.

Lemma rune_eq_lower sr tr :
  rune_eq wide sr (ascii_lower tr) = rune_eq wide sr tr.
Proof.
  unfold ascii_lower. destruct (is_upper tr) eqn:Hu; [|done].
  destruct (Z.leb_spec RuneSelf sr) as [Hw|Hn].
  - pose proof (orbit_upper tr sr Hu Hw) as Ho. revert Ho.
    unfold rune_eq, is_upper, RuneSelf in *.
    destruct (Z.eqb_spec (tr + 32) sr); [lia|]. destruct (Z.eqb_spec tr sr); [lia|].
    destruct (Z.ltb_spec (tr + 32) sr); [|lia]. destruct (Z.ltb_spec tr sr); [|lia].
    destruct (Z.ltb_spec sr 128); [lia|]. by intros ->.
  - unfold rune_eq, is_upper, RuneSelf in *.
    repeat match goal with
    | |- context [?a <? ?b] => destruct (Z.ltb_spec a b)
    | |- context [(?a =? ?b)] => destruct (Z.eqb_spec a b)
    end; lia.
Qed.

(** Enough fuel is enough. *)
Lemma fold_runes_fuel f s t :
  (length s ≤ f)%nat → fold_runes wide f s t = fold_runes wide (length s) s t.
Proof.
  remember (length s) as n eqn:Hn. revert f s t Hn.
  induction (lt_wf n) as [n _ IH]; intros f s t -> Hf.
  destruct s as [|a s]; [destruct f, t; done|].
  destruct f as [|f]; [simpl in Hf; lia|]. cbn [fold_runes length].
  destruct t as [|b t]; [done|].
  pose proof (DecodeRune_width a s) as Hw. destruct (DecodeRune (a :: s)) as [sr n] eqn:E.
  destruct (DecodeRune (b :: t)) as [tr m]. destruct (rune_eq wide sr tr); [|done].
  simpl in Hf, Hw. unfold len in Hw. simpl in Hw.
  rewrite (IH (length (drop (Z.to_nat n) (a :: s)))) with (f := f); rewrite ?length_drop; simpl; try lia; try done.
  symmetry. apply IH; rewrite ?length_drop; simpl; lia.
Qed.

Lemma DecodeRune_ascii a s : a < RuneSelf → DecodeRune (a :: s) = (a, 1).
Proof. intros. simpl. by rewrite (proj2 (Z.ltb_lt a RuneSelf)). Qed.

(** The ASCII fast path of [EqualFold] agrees with the rune loop. *)
Lemma EqualFold_runes s t :
  Forall is_byte s → Forall is_byte t →
  EqualFold wide s t = fold_runes wide (length s) s t.
Proof.
  intros Hs. revert t. induction Hs as [|a s Ha Hs IH]; intros t Ht.
  { by destruct Ht. }
  destruct Ht as [|b t Hb Ht]; [done|].
  cbn [EqualFold]. destruct (Z.leb_spec RuneSelf (Z.lor a b)) as [|Hlt]; [done|].
  unfold is_byte in *.
  assert (a < RuneSelf ∧ b < RuneSelf) as [Ha' Hb'].
  { pose proof (lor_ge_l a b). pose proof (lor_ge_r a b). lia. }
  rewrite IH by done. cbn [length fold_runes].
  rewrite !DecodeRune_ascii by done.
  change (Z.to_nat 1) with 1%nat. cbn [drop]. unfold rune_eq.
  destruct (b =? a); [done|].
  destruct (Z.ltb_spec b a); [rewrite (proj2 (Z.ltb_lt a RuneSelf) Ha')
                             |rewrite (proj2 (Z.ltb_lt b RuneSelf) Hb')]; by case_match.
Qed.

Lemma fold_runes_lower f s t :
  Forall is_byte s → Forall is_byte t →
  fold_runes wide f s (map ascii_lower t) = fold_runes wide f s t.
Proof.
  revert s t. induction f as [|f IH]; intros s t Hs Ht.
  { simpl. apply bool_decide_ext. by destruct t; split; intros [? ?]. }
  cbn [fold_runes]. destruct s as [|a s]; [by destruct t|].
  destruct t as [|b t]; [done|]. cbn [map].
  change (ascii_lower b :: map ascii_lower t) with (map ascii_lower (b :: t)).
  rewrite DecodeRune_lower by done.
  destruct (DecodeRune (a :: s)) as [sr n], (DecodeRune (b :: t)) as [tr m]. cbn [fst snd].
  rewrite rune_eq_lower. destruct (rune_eq wide sr tr); [|done].
  rewrite skipn_map. apply IH; by apply Forall_drop.
Qed.

Lemma fold_runes_refl f s : (length s ≤ f)%nat → fold_runes wide f s s = true.
Proof.
  revert s. induction f as [|f IH]; intros [|a s] Hf; try done; [simpl in Hf; lia|].
  cbn [fold_runes]. pose proof (DecodeRune_width a s).
  destruct (DecodeRune (a :: s)) as [r n]. rewrite rune_eq_refl. apply IH.
  rewrite length_drop. simpl in *. lia.
Qed.

Lemma fold_runes_comm f s t :
  (length s ≤ f)%nat → (length t ≤ f)%nat → fold_runes wide f s t = fold_runes wide f t s.
Proof.
  revert s t. induction f as [|f IH]; intros s t Hs Ht.
  { by destruct s, t; simpl in *; try lia. }
  cbn [fold_runes]. destruct s as [|a s], t as [|b t]; try done.
  pose proof (DecodeRune_width a s). pose proof (DecodeRune_width b t).
  destruct (DecodeRune (a :: s)) as [sr n], (DecodeRune (b :: t)) as [tr m].
  rewrite rune_eq_comm. destruct (rune_eq wide tr sr); [|done].
  apply IH; rewrite length_drop; simpl in *; lia.
Qed.

(** [EqualFold] does not see the case of ASCII letters... *)
Lemma EqualFold_lower_r s t :
  Forall is_byte s → Forall is_byte t →
  EqualFold wide s (map ascii_lower t) = EqualFold wide s t.
Proof.
  intros Hs Ht. rewrite !EqualFold_runes by auto using lower_bytes.
  by apply fold_runes_lower.
Qed.
Lemma EqualFold_refl s : Forall is_byte s → EqualFold wide s s = true.
Proof. intros. rewrite EqualFold_runes by done. by apply fold_runes_refl. Qed.
Lemma EqualFold_comm s t :
  Forall is_byte s → Forall is_byte t → EqualFold wide s t = EqualFold wide t s.
Proof.
  intros. rewrite !EqualFold_runes by done.
  rewrite <- (fold_runes_fuel (length s + length t) s) by lia.
  rewrite <- (fold_runes_fuel (length s + length t) t) by lia.
  apply fold_runes_comm; lia.
Qed.
(** ... so names equal up to ASCII case always compare equal. *)
Lemma EqualFold_of_lower s t :
  Forall is_byte s → Forall is_byte t →
  map ascii_lower s = map ascii_lower t → EqualFold wide s t = true.
Proof.
  intros Hs Ht E. rewrite <- EqualFold_lower_r, <- E, EqualFold_lower_r by auto using lower_bytes.
  by apply EqualFold_refl.
Qed.

(** On pure ASCII it is exactly ASCII case-insensitive equality. *)
Lemma EqualFold_ascii s t :
  Forall (λ b, 0 ≤ b < RuneSelf) s → Forall (λ b, 0 ≤ b < RuneSelf) t →
  EqualFold wide s t = true ↔ map ascii_lower s = map ascii_lower t.
Proof.
  intros Hs. revert t. induction Hs as [|a s Ha Hs IH]; intros t Ht.
  { by destruct Ht. }
  destruct Ht as [|b t Hb Ht]; [done|]. cbn [EqualFold map].
  destruct (Z.leb_spec RuneSelf (Z.lor a b)) as [Hle|_].
  { exfalso. unfold RuneSelf in *.
    assert (Z.log2 (Z.lor a b) < 7) as Hlog.
    { rewrite Z.log2_lor by lia.
      assert (∀ x, 0 ≤ x < 128 → Z.log2 x < 7) as Hx.
      { intros x Hx. destruct (Z.eqb_spec x 0) as [->|]; [done|].
        apply Z.log2_lt_pow2; lia. }
      pose proof (Hx a). pose proof (Hx b). lia. }
    pose proof (Z.log2_le_mono 128 (Z.lor a b) Hle). change (Z.log2 128) with 7 in *. lia. }
  specialize (IH t Ht). destruct (Z.eqb_spec b a) as [->|Hne].
  { rewrite IH. split; [by intros ->|]. by intros [= ->]. }
  assert (∀ c : bool, (c = true ↔ ascii_lower a = ascii_lower b) →
    (if c then EqualFold wide s t else false) = true ↔
    ascii_lower a :: map ascii_lower s = ascii_lower b :: map ascii_lower t) as Hc.
  { intros c Hc. destruct c.
    - rewrite IH. split; [intros ->; f_equal; by apply Hc|]. by intros [= _ ->].
    - split; [done|]. intros [= Hab _]. by apply Hc in Hab. }
  unfold ascii_lower, is_upper in *. destruct (Z.ltb_spec b a); apply Hc; repeat case_match; lia.
Qed.
End fold_props.

(** ** encoding/hex *)
Definition hexval (c : Z) : option Z :=
  if (48 <=? c) && (c <=? 57) then Some (c - 48)
  else if (97 <=? c) && (c <=? 102) then Some (c - 87)
  else if (65 <=? c) && (c <=? 70) then Some (c - 55)
  else None.
Definition hexdigit (v : Z) : Z := if v <? 10 then 48 + v else 87 + v.

(** [hex.DecodeString]; [None] is an error (a character that is no hex digit, or an odd length). *)
Fixpoint hex_DecodeString (s : bytes) : option bytes :=
  match s with
  | [] => Some []
  | [_] => None
  | a :: b :: s =>
      x ← hexval a; y ← hexval b; r ← hex_DecodeString s; Some (Z.lor (Z.shiftl x 4) y :: r)
  end.
Definition hex_EncodeToString (b : bytes) : bytes :=
  concat (map (λ x, [hexdigit (Z.shiftr x 4); hexdigit (Z.land x 15)]) b).

(** ** strings *)
Fixpoint HasPrefix (s p : bytes) : bool :=
  match p, s with
  | [], _ => true
  | b :: p, a :: s => (a =? b) && HasPrefix s p
  | _ :: _, [] => false
  end.
Definition HasSuffix (s p : bytes) : bool := HasPrefix (rev s) (rev p).
Definition TrimPrefix (s p : bytes) : bytes := if HasPrefix s p then drop (length p) s else s.
Definition TrimSuffix (s p : bytes) : bytes :=
  if HasSuffix s p then take (length s - length p) s else s.

(** [strings.Split(s, sep)] for a separator of one octet. *)
Fixpoint Split (s : bytes) (sep : Z) : list bytes :=
  match s with
  | [] => [[]]
  | a :: s =>
      if a =? sep then [] :: Split s sep
      else match Split s sep with p :: ps => (a :: p) :: ps | [] => [[a]] end
  end.

(** [unicode.IsSpace]. *)
Definition IsSpace (r : Z) : bool :=
  ((9 <=? r) && (r <=? 13)) || (r =? 32) || (r =? 0x85) || (r =? 0xA0) || (r =? 0x1680) ||
  ((0x2000 <=? r) && (r <=? 0x200a)) || (r =? 0x2028) || (r =? 0x2029) || (r =? 0x202f) ||
  (r =? 0x205f) || (r =? 0x3000).

(** [strings.Fields]: the maximal runs of runes that are not spaces; [acc] is the field being read. *)
Fixpoint fields_loop (fuel : nat) (s acc : bytes) : list bytes :=
  match fuel, s with
  | O, _ | _, [] => match acc with [] => [] | _ => [acc] end
  | S fuel, s =>
      let '(r, w) := DecodeRune s in
      let rest := drop (Z.to_nat w) s in
      if IsSpace r then (match acc with [] => [] | _ => [acc] end) ++ fields_loop fuel rest []
      else fields_loop fuel rest (acc ++ take (Z.to_nat w) s)
  end.
Definition Fields (s : bytes) : list bytes := fields_loop (length s) s [].

(** ** strconv

    [ParseUint(s, 10, bits)] of a string of decimal digits; [None] is an error. *)
Definition is_digit (c : Z) : bool := (48 <=? c) && (c <=? 57).
Definition digits_val (s : bytes) : Z := foldl (λ v c, 10 * v + (c - 48)) 0 s.
Definition beq_nil (s : bytes) : bool := match s with [] => true | _ => false end.
Definition ParseUint (s : bytes) (bits : Z) : option Z :=
  if beq_nil s || negb (forallb is_digit s) then None
  else if 2 ^ bits <=? digits_val s then None else Some (digits_val s).

(** [FormatUint(n, 10)]; twenty digits are enough for 64 bits. *)
Fixpoint format_loop (fuel : nat) (n : Z) (acc : bytes) : bytes :=
  match fuel with
  | O => acc
  | S fuel =>
      let acc := 48 + n mod 10 :: acc in
      if n <? 10 then acc else format_loop fuel (n / 10) acc
  end.
Definition FormatUint (n : Z) : bytes := format_loop 20 n [].

Lemma digits_val_app s k : digits_val (s ++ k) = foldl (λ v c, 10 * v + (c - 48)) (digits_val s) k.
Proof. unfold digits_val. by rewrite foldl_app. Qed.
Lemma foldl_digits v k : foldl (λ v c, 10 * v + (c - 48)) v k = v * 10 ^ len k + digits_val k.
Proof.
  revert v. induction k as [|c k IH]; intros v; [unfold digits_val; simpl; rewrite len_nil; lia|].
  unfold digits_val. cbn [foldl]. rewrite !IH, len_cons, Z.pow_add_r by len_lia. lia.
Qed.
Lemma format_loop_val fuel n acc : 0 ≤ n < 10 ^ Z.of_nat fuel → (0 < fuel)%nat →
  digits_val (format_loop fuel n acc) = n * 10 ^ len acc + digits_val acc.
Proof.
  revert n acc. induction fuel as [|fuel IH]; intros n acc Hn Hf; [lia|]. simpl.
  assert (digits_val (48 + n mod 10 :: acc) = n mod 10 * 10 ^ len acc + digits_val acc) as E.
  { unfold digits_val at 1. cbn [foldl]. rewrite foldl_digits. lia. }
  destruct (Z.ltb_spec n 10).
  - rewrite E, Z.mod_small by lia. done.
  - rewrite Nat2Z.inj_succ, Z.pow_succ_r in Hn by lia.
    assert (0 < fuel)%nat by (destruct fuel; [simpl in Hn; lia|lia]).
    assert (0 ≤ n / 10 < 10 ^ Z.of_nat fuel) as Hd.
    { split; [apply Z.div_pos; lia|]. apply Z.div_lt_upper_bound; lia. }
    rewrite IH, E, len_cons, Z.pow_add_r by len_lia. pose proof (Z.div_mod n 10). lia.
Qed.
Lemma format_loop_digits fuel n acc : 0 ≤ n →
  forallb is_digit acc = true → forallb is_digit (format_loop fuel n acc) = true.
Proof.
  revert n acc. induction fuel as [|fuel IH]; intros n acc Hn Ha; [done|]. simpl.
  assert (forallb is_digit (48 + n mod 10 :: acc) = true) as E.
  { simpl. rewrite Ha, andb_true_r. unfold is_digit. pose proof (Z.mod_pos_bound n 10). lia. }
  destruct (n <? 10); [done|]. apply IH; [by apply Z.div_pos|done].
Qed.
Lemma format_loop_ne fuel n acc : (0 < fuel)%nat → format_loop fuel n acc ≠ [].
Proof.
  revert n acc. induction fuel as [|fuel IH]; intros n acc Hf; [lia|]. simpl.
  destruct (n <? 10); [done|]. destruct fuel; [done|]. apply IH. lia.
Qed.
(** What [FormatUint] prints, [ParseUint] reads back. *)
Lemma ParseUint_Format n bits : is_u64 n → n < 2 ^ bits → ParseUint (FormatUint n) bits = Some n.
Proof.
  intros Hn Hb. unfold ParseUint, FormatUint.
  unfold is_u64 in Hn. pose proof (format_loop_ne 20 n []) as Hne.
  assert (digits_val (format_loop 20 n []) = n) as Hv.
  { rewrite format_loop_val by lia. change (digits_val []) with 0. unfold len. simpl. lia. }
  rewrite format_loop_digits, Hv by (done || lia). cbn [negb].
  destruct (format_loop 20 n []); [by destruct Hne; [lia|]|]. cbn [beq_nil orb].
  by rewrite (proj2 (Z.leb_gt _ _)) by lia.
Qed.
Lemma ParseUint_FormatUint n : is_u64 n → ParseUint (FormatUint n) 64 = Some n.
Proof. intros Hn. apply ParseUint_Format; [done|]. apply Hn. Qed.
