(* ===== verification/NzfNames.v ===== *)
(** * NZF1 wire names and their canonical order

    Models [mgmt/internal/nzf]: the record types and error values of [format.go], its functions on
    uncompressed wire names ([nameEnd], [validName], [within], [lower]) and [canon.go]
    ([CanonicalKey], [SortRecords]).  A wire name is a sequence of length-prefixed labels closed by
    a zero octet; [wire_name] builds one from its labels and [nameEnd_spec] shows that [nameEnd]
    accepts exactly those prefixes.  On label lists the functions have direct specifications:
    [within] is "the origin's labels are a suffix of the owner's", [lower] lowercases every label,
    and the bytewise order of [CanonicalKey] is the RFC 4034 canonical order of names. *)

From S2P Require Import Prelude.
From S2P Require Import GoText.

(** One resource record with uncompressed wire owner and RDATA. *)
Record record := mkRecord {
  Owner : bytes;
  RType : Z;
  RClass : Z;
  TTL : Z;
  RData : bytes;
}.

(** A complete zone at one serial. *)
Record Image := mkImage {
  img_Origin : bytes;
  img_Serial : Z;
  img_Records : list record;
}.

(** What turns the zone at [FromSerial] into the zone at [ToSerial]. *)
Record Delta := mkDelta {
  dl_Origin : bytes;
  FromSerial : Z;
  ToSerial : Z;
  Deleted : list record;
  Added : list record;
}.

#[export] Instance record_eq_dec : EqDecision record.
Proof. solve_decision. Defined.
#[export] Instance Image_eq_dec : EqDecision Image.
Proof. solve_decision. Defined.
#[export] Instance Delta_eq_dec : EqDecision Delta.
Proof. solve_decision. Defined.

(** [malformed(...)]: every decoding or validation failure wraps [ErrMalformed]; the constructors
    are the messages. *)
Inductive malformed : Type :=
| NamePastBuffer
| NameTooLong
| LabelOctet (l : Z)
| NameLength (n declared : Z)
| SOALength (n : Z)
| NotApexSOA
| SOASerial (s serial : Z)
| OutsideOrigin
| Class (c : Z)
| RDataLength (n : Z)
| RootOrigin
| TwoSOA
| NoSOA
| DeltaWithoutSOA
| Truncated
| BadMagic
| Kind (k : Z)
| Reserved (o : Z)
| RecordCounts (a b remaining : Z)
| FullWithDeltaFields
| TrailingOctets (n : Z).

#[export] Instance malformed_eq_dec : EqDecision malformed.
Proof. solve_decision. Defined.

(** [nameEnd]: validates the uncompressed wire name starting at b[0] and returns its length.
    [i] grows by at least two per iteration and stays below 256, so 257 iterations suffice. *)
Fixpoint nameEnd_loop (fuel : nat) (b : bytes) (i : Z) : res malformed Z :=
  match fuel with
  | O => Fuel
  | S fuel =>
      if len b <=? i then Err NamePastBuffer
      else
        match idx b i with
        | None => Panic
        | Some l =>
            if l =? 0 then (if 255 <? i + 1 then Err NameTooLong else Ok (i + 1))
            else if 0x40 <=? l then Err (LabelOctet l)
            else
              let i := i + (l + 1) in
              if 255 <? i then Err NameTooLong else nameEnd_loop fuel b i
        end
  end.

Definition nameEnd (b : bytes) : res malformed Z := nameEnd_loop 257 b 0.

Definition validName (b : bytes) : res malformed unit :=
  n ← nameEnd b;
  if n =? len b then Ok tt else Err (NameLength n (len b)).

(** The label walk of [within]. *)
Fixpoint within_loop (fuel : nat) (owner : bytes) (start i : Z) : res malformed bool :=
  match fuel with
  | O => Fuel
  | S fuel =>
      if i <? len owner then
        if i =? start then Ok true
        else
          match idx owner i with
          | None => Panic
          | Some l => if l =? 0 then Ok false else within_loop fuel owner start (i + l + 1)
          end
      else Ok false
  end.

(** [within] reports whether the valid wire name [owner] equals [origin] or lies below it at a
    label boundary. *)
Definition within (wide : Z → Z) (owner origin : bytes) : res malformed bool :=
  if len owner <? len origin then Ok false
  else
    let start := len owner - len origin in
    if negb (EqualFold wide (slice owner start (len owner)) origin) then Ok false
    else within_loop (S (length owner)) owner start 0.

(** [lower]: a copy of the name with the octets of every label lowercased. *)
Definition upd (l : bytes) (i x : Z) : bytes := <[Z.to_nat i := x]> l.

Fixpoint lower_label (n : nat) (out : bytes) (j : Z) : res malformed bytes :=
  match n with
  | O => Ok out
  | S n =>
      match idx out j with
      | None => Panic
      | Some c => lower_label n (if is_upper c then upd out j (u8 (c + 32)) else out) (j + 1)
      end
  end.

Fixpoint lower_loop (fuel : nat) (out : bytes) (i : Z) : res malformed bytes :=
  match fuel with
  | O => Fuel
  | S fuel =>
      if i <? len out then
        match idx out i with
        | None => Panic
        | Some l =>
            out ← lower_label (Z.to_nat l) out (i + 1);
            match idx out i with
            | None => Panic
            | Some l => lower_loop fuel out (i + (l + 1))
            end
        end
      else Ok out
  end.

Definition lower (name : bytes) : res malformed bytes := lower_loop (S (length name)) name 0.

(** [CanonicalKey]: the label starts (at most 128), then the labels from the root. *)
Fixpoint label_starts (fuel : nat) (wire : bytes) (i n : Z) : list Z :=
  match fuel with
  | O => []
  | S fuel =>
      match idx wire i with
      | Some l =>
          if (i <? len wire) && negb (l =? 0) && (n <? 128) && (i + 1 + l <=? len wire)
          then i :: label_starts fuel wire (i + (l + 1)) (n + 1)
          else []
      | None => []
      end
  end.

Definition key_octet (b : Z) : bytes :=
  let b := if is_upper b then u8 (b + 32) else b in
  if b =? 0 then [1; 1] else if b =? 1 then [1; 2] else [b].

Definition key_label (wire : bytes) (o : Z) : bytes :=
  let l := default 0 (idx wire o) in
  concat (map key_octet (slice wire (o + 1) (o + 1 + l))) ++ [0].

Definition CanonicalKey (wire : bytes) : bytes :=
  concat (map (key_label wire) (rev (label_starts 129 wire 0 0))).

(** [SortRecords] orders records by (CanonicalKey(owner), type, rdata bytes), computing each key
    once. *)
Definition record_less (a b : bytes * record) : bool :=
  match bytes_compare a.1 b.1 with
  | Lt => true
  | Gt => false
  | Eq =>
      if negb (RType a.2 =? RType b.2) then RType a.2 <? RType b.2
      else bool_decide (bytes_compare (RData a.2) (RData b.2) = Lt)
  end.

Definition SortRecords (rs : list record) : list record :=
  map snd (stable_sort record_less (map (λ r, (CanonicalKey (Owner r), r)) rs)).

(** ** Names as label lists *)

Definition wire_labels (ls : list bytes) : bytes := concat (map (λ l, len l :: l) ls).
Definition wire_name (ls : list bytes) : bytes := wire_labels ls ++ [0].

Definition label_ok (l : bytes) : Prop := 1 ≤ len l ≤ 63.

(** The label lists that are DNS names: labels of 1 to 63 octets, 255 octets on the wire. *)
Definition name_ok (ls : list bytes) : Prop :=
  Forall label_ok ls ∧ len (wire_name ls) ≤ 255.

Lemma wire_labels_cons l ls : wire_labels (l :: ls) = len l :: l ++ wire_labels ls.
Proof. done. Qed.
Lemma wire_name_cons l ls : wire_name (l :: ls) = len l :: l ++ wire_name ls.
Proof. unfold wire_name. by rewrite wire_labels_cons, <- app_comm_cons, app_assoc. Qed.
Lemma wire_labels_app ls ks : wire_labels (ls ++ ks) = wire_labels ls ++ wire_labels ks.
Proof. unfold wire_labels. by rewrite map_app, concat_app. Qed.
Lemma wire_name_app ls ks : wire_name (ls ++ ks) = wire_labels ls ++ wire_name ks.
Proof. unfold wire_name. by rewrite wire_labels_app, app_assoc. Qed.
Lemma len_wire_name ls : len (wire_name ls) = len (wire_labels ls) + 1.
Proof. unfold wire_name. by len_simpl. Qed.
Lemma len_wire_name_cons l ls : len (wire_name (l :: ls)) = 1 + len l + len (wire_name ls).
Proof. rewrite wire_name_cons. len_simpl. lia. Qed.

Lemma length_wire_labels ls :
  Forall label_ok ls → (2 * length ls ≤ length (wire_labels ls))%nat.
Proof.
  induction 1 as [|l ls [??] Hls IH]; [done|]. rewrite wire_labels_cons. simpl.
  rewrite length_app. unfold len in *. lia.
Qed.

Lemma name_ok_cons l ls : name_ok (l :: ls) → label_ok l ∧ name_ok ls.
Proof.
  intros [Hl Hn]. apply Forall_cons in Hl as [??]. split; [done|]. split; [done|].
  rewrite len_wire_name_cons in Hn. pose proof (len_nonneg l). lia.
Qed.
Lemma name_ok_suffix ls ks : name_ok (ls ++ ks) → name_ok ks.
Proof. induction ls as [|l ls IH]; [done|]. intros [_ ?]%name_ok_cons. auto. Qed.

(** A name of at most 255 octets has at most 127 labels. *)
Lemma name_ok_labels ls : name_ok ls → len ls ≤ 127.
Proof.
  intros [Hl Hn]. pose proof (length_wire_labels ls Hl).
  rewrite len_wire_name in Hn. unfold len in *. lia.
Qed.

Lemma drop_idx {A} (l : list A) i x :
  idx l i = Some x → drop (Z.to_nat i) l = x :: drop (Z.to_nat (i + 1)) l ∧ 0 ≤ i.
Proof.
  unfold idx. destruct (Z.ltb_spec i 0); [done|]. intros Hx. split; [|done].
  rewrite (drop_S _ _ _ Hx). do 2 f_equal. lia.
Qed.

(** *** [nameEnd] *)

Lemma nameEnd_loop_sound fuel b i n :
  Forall is_byte b → 0 ≤ i →
  nameEnd_loop fuel b i = Ok n →
  ∃ ls rest, drop (Z.to_nat i) b = wire_name ls ++ rest ∧ Forall label_ok ls ∧
    n = i + len (wire_name ls) ∧ n ≤ 255.
Proof.
  intros Hb. revert i. induction fuel as [|fuel IH]; intros i Hi; simpl; [done|].
  destruct (Z.leb_spec (len b) i); [done|].
  destruct (idx b i) as [l|] eqn:Hl; [|done].
  destruct (drop_idx _ _ _ Hl) as [Hdrop _].
  assert (is_byte l) as Hlb.
  { unfold idx in Hl. case_match; [done|]. by eapply Forall_lookup_1. }
  destruct (Z.eqb_spec l 0) as [->|Hl0].
  { destruct (Z.ltb_spec 255 (i + 1)); [done|]. intros [= <-].
    exists [], (drop (Z.to_nat (i + 1)) b). rewrite Hdrop. repeat split; [constructor|done]. }
  destruct (Z.leb_spec 0x40 l); [done|]. destruct (Z.ltb_spec 255 (i + (l + 1))); [done|].
  intros (ls & rest & Hd & Hok & -> & Hn)%IH; [|unfold is_byte in *; lia].
  assert (0 < len (wire_name ls)) by (rewrite len_wire_name; len_lia).
  set (lab := take (Z.to_nat l) (drop (Z.to_nat (i + 1)) b)).
  assert (drop (Z.to_nat (i + 1)) b = lab ++ wire_name ls ++ rest) as Hsplit.
  { rewrite <- Hd, <- (take_drop (Z.to_nat l) (drop (Z.to_nat (i + 1)) b)), drop_drop.
    unfold lab. do 2 f_equal. unfold is_byte in *. lia. }
  assert (len lab = l) as Hlen.
  { apply (f_equal length) in Hd. rewrite length_drop, length_app in Hd.
    unfold lab, len in *. rewrite length_take, length_drop. unfold is_byte in *. lia. }
  exists (lab :: ls), rest. rewrite Hdrop, wire_name_cons, Hsplit, Hlen. repeat split.
  - by rewrite <- app_comm_cons, !app_assoc.
  - constructor; [|done]. unfold label_ok, is_byte in *. lia.
  - len_simpl. lia.
  - done.
Qed.

Lemma nameEnd_loop_complete fuel pre ls rest :
  Forall label_ok ls → len pre + len (wire_name ls) ≤ 255 → (length ls < fuel)%nat →
  nameEnd_loop fuel (pre ++ wire_name ls ++ rest) (len pre) = Ok (len pre + len (wire_name ls)).
Proof.
  intros Hls. revert fuel pre. induction Hls as [|l ls Hl Hls IH]; intros fuel pre Hn Hf;
    (destruct fuel as [|fuel]; [simpl in Hf; lia|]); cbn [nameEnd_loop].
  - destruct (Z.leb_spec (len (pre ++ wire_name [] ++ rest)) (len pre)).
    { unfold wire_name in *. len_lia. }
    change (wire_name [] ++ rest) with (0 :: rest). rewrite idx_app_mid. simpl.
    rewrite len_wire_name in *. change (wire_labels []) with ([] : bytes) in *. len_simpl.
    by destruct (Z.ltb_spec 255 (len pre + 1)); [lia|].
  - rewrite wire_name_cons in *.
    destruct (Z.leb_spec (len (pre ++ (len l :: l ++ wire_name ls) ++ rest)) (len pre)); [len_lia|].
    rewrite <- app_comm_cons, idx_app_mid. unfold label_ok in Hl.
    destruct (Z.eqb_spec (len l) 0); [lia|]. destruct (Z.leb_spec 0x40 (len l)); [lia|].
    destruct (Z.ltb_spec 255 (len pre + (len l + 1))); [len_lia|].
    specialize (IH fuel (pre ++ len l :: l)).
    replace ((pre ++ len l :: l) ++ wire_name ls ++ rest)
      with (pre ++ len l :: (l ++ wire_name ls) ++ rest) in IH
      by (simplify_list_eq; done).
    replace (len (pre ++ len l :: l)) with (len pre + (len l + 1)) in IH by len_lia.
    rewrite IH; [f_equal; len_lia|len_lia|simpl in Hf; lia].
Qed.

(** [nameEnd] accepts exactly the buffers that start with a DNS name, and returns its length. *)
Lemma nameEnd_spec b n :
  Forall is_byte b →
  nameEnd b = Ok n ↔
  ∃ ls rest, b = wire_name ls ++ rest ∧ name_ok ls ∧ n = len (wire_name ls).
Proof.
  intros Hb. split.
  - intros (ls & rest & Hd & Hls & -> & Hn)%nameEnd_loop_sound; [|done|lia].
    exists ls, rest. split; [done|]. split; [split; [done|]|]; lia.
  - intros (ls & rest & -> & Hok & ->). pose proof (name_ok_labels _ Hok) as Hlen.
    unfold nameEnd. pose proof (nameEnd_loop_complete 257 [] ls rest) as H.
    change (len []) with 0 in H. rewrite Z.add_0_l in H. cbn [app] in H. destruct Hok.
    apply H; [done|done|]. unfold len in Hlen. lia.
Qed.

(** [nameEnd] returns on every buffer: neither an index panic nor an endless loop. *)
Lemma nameEnd_loop_returns fuel b i :
  Forall is_byte b → 0 ≤ i ≤ 255 → 255 - i < Z.of_nat fuel → returns (nameEnd_loop fuel b i).
Proof.
  intros Hb. revert i. induction fuel as [|fuel IH]; intros i Hi Hf; [lia|]. cbn [nameEnd_loop].
  destruct (Z.leb_spec (len b) i); [done|].
  destruct (idx_is_Some b i) as [l Hl]; [lia|]. rewrite Hl.
  assert (is_byte l) as [Hl1 Hl2].
  { unfold idx in Hl. case_match; [done|]. by eapply Forall_lookup_1. }
  repeat case_match; try done. apply IH; lia.
Qed.
Lemma nameEnd_returns b : Forall is_byte b → returns (nameEnd b).
Proof. intros. apply nameEnd_loop_returns; [done|lia|lia]. Qed.

Lemma validName_spec b :
  Forall is_byte b → validName b = Ok tt ↔ ∃ ls, b = wire_name ls ∧ name_ok ls.
Proof.
  intros Hb. unfold validName. split.
  - intros (n & (ls & rest & -> & Hok & ->)%nameEnd_spec & Hn)%bind_Ok; [|done].
    destruct (Z.eqb_spec (len (wire_name ls)) (len (wire_name ls ++ rest))) as [E|]; [|done].
    exists ls. split; [|done]. rewrite len_app in E.
    destruct rest; [by rewrite app_nil_r|]. len_lia.
  - intros (ls & -> & Hok).
    rewrite (proj2 (nameEnd_spec (wire_name ls) (len (wire_name ls)) Hb)).
    + simpl. by rewrite Z.eqb_refl.
    + exists ls, []. by rewrite app_nil_r.
Qed.
Lemma validName_returns b : Forall is_byte b → returns (validName b).
Proof.
  intros H%nameEnd_returns. unfold validName. destruct (nameEnd b); try done.
  simpl. by case_match.
Qed.

(** The labels of a name can be read back. *)
Lemma wire_name_app_inj ls ks r s :
  wire_name ls ++ r = wire_name ks ++ s → Forall label_ok ls → Forall label_ok ks → ls = ks ∧ r = s.
Proof.
  intros E Hls. revert ks E. induction Hls as [|l ls Hl Hls IH]; intros ks E Hks.
  - destruct Hks as [|k ks [??] Hks]; [by simplify_eq/=|].
    rewrite wire_name_cons in E. change (wire_name []) with [0] in E. simplify_eq/=. lia.
  - destruct Hks as [|k ks Hk Hks].
    { rewrite wire_name_cons in E. change (wire_name []) with [0] in E.
      destruct Hl. simplify_eq/=. lia. }
    rewrite !wire_name_cons, <- !app_comm_cons in E. injection E as Elen E.
    rewrite <- !app_assoc in E.
    assert (length l = length k) as Hlen by (unfold len in Elen; lia).
    apply app_inj_1 in E as [-> E]; [|done].
    destruct (IH ks E Hks) as [-> ->]. done.
Qed.
Lemma wire_name_inj ls ks :
  wire_name ls = wire_name ks → Forall label_ok ls → Forall label_ok ks → ls = ks.
Proof.
  intros E. intros. apply (wire_name_app_inj ls ks [] []); [|done|done]. by rewrite E.
Qed.

(** *** [lower] *)

Lemma map_lower_wire_labels ls :
  Forall label_ok ls →
  map ascii_lower (wire_labels ls) = wire_labels (map (map ascii_lower) ls).
Proof.
  induction 1 as [|l ls [Hl1 Hl2] Hls IH]; [done|].
  rewrite wire_labels_cons. cbn [map]. rewrite wire_labels_cons, map_app, IH, len_map.
  f_equal. unfold ascii_lower, is_upper. case_match; lia.
Qed.
Lemma map_lower_wire_name ls :
  Forall label_ok ls → map ascii_lower (wire_name ls) = wire_name (map (map ascii_lower) ls).
Proof. intros. unfold wire_name. by rewrite map_app, map_lower_wire_labels. Qed.

Lemma upd_mid pre c post x : upd (pre ++ c :: post) (len pre) x = pre ++ x :: post.
Proof.
  unfold upd, len. rewrite Nat2Z.id, insert_app_r_alt by lia.
  by rewrite Nat.sub_diag.
Qed.

Lemma lower_label_spec pre l post :
  Forall is_byte l →
  lower_label (length l) (pre ++ l ++ post) (len pre) = Ok (pre ++ map ascii_lower l ++ post).
Proof.
  intros Hl. revert pre. induction Hl as [|c l Hc Hl IH]; intros pre; [done|].
  cbn [length lower_label app]. rewrite idx_app_mid.
  assert ((if is_upper c then upd (pre ++ c :: l ++ post) (len pre) (u8 (c + 32))
           else pre ++ c :: l ++ post) = (pre ++ [ascii_lower c]) ++ l ++ post) as ->.
  { unfold ascii_lower. destruct (is_upper c) eqn:Hu.
    - rewrite upd_mid, u8_small by (unfold is_upper, is_byte in *; lia). by simplify_list_eq.
    - by simplify_list_eq. }
  replace (len pre + 1) with (len (pre ++ [ascii_lower c])) by len_lia.
  rewrite IH. by simplify_list_eq.
Qed.

Lemma lower_loop_spec fuel pre ls :
  Forall label_ok ls → Forall (Forall is_byte) ls → (length ls + 1 < fuel)%nat →
  lower_loop fuel (pre ++ wire_name ls) (len pre) =
    Ok (pre ++ wire_name (map (map ascii_lower) ls)).
Proof.
  intros Hls Hb. revert fuel pre. induction ls as [|l ls IH]; intros fuel pre Hf;
    (destruct fuel as [|fuel]; [lia|]); cbn [lower_loop].
  - change (wire_name []) with [0]. rewrite idx_app_mid. simpl.
    rewrite idx_app_mid. destruct (Z.ltb_spec (len pre) (len (pre ++ [0]))); [|len_lia].
    destruct fuel as [|fuel]; [simpl in Hf; lia|]. simpl.
    by destruct (Z.ltb_spec (len pre + (0 + 1)) (len (pre ++ [0]))); [len_lia|].
  - apply Forall_cons in Hls as [Hl Hls], Hb as [Hlb Hb].
    rewrite wire_name_cons, idx_app_mid.
    destruct (Z.ltb_spec (len pre) (len (pre ++ len l :: l ++ wire_name ls))); [|len_lia].
    replace (Z.to_nat (len l)) with (length l) by (unfold len; lia).
    replace (pre ++ len l :: l ++ wire_name ls)
      with ((pre ++ [len l]) ++ l ++ wire_name ls) by by simplify_list_eq.
    replace (len pre + 1) with (len (pre ++ [len l])) by len_lia.
    rewrite lower_label_spec by done. cbn [mbind res_bind].
    replace ((pre ++ [len l]) ++ map ascii_lower l ++ wire_name ls)
      with (pre ++ len l :: map ascii_lower l ++ wire_name ls) by by simplify_list_eq.
    rewrite idx_app_mid.
    replace (pre ++ len l :: map ascii_lower l ++ wire_name ls)
      with ((pre ++ len l :: map ascii_lower l) ++ wire_name ls) by by simplify_list_eq.
    replace (len pre + (len l + 1)) with (len (pre ++ len l :: map ascii_lower l)) by len_lia.
    rewrite IH by (done || (simpl in Hf; lia)). cbn [map]. rewrite wire_name_cons, len_map.
    by simplify_list_eq.
Qed.

Lemma wire_labels_bytes ls :
  Forall label_ok ls → Forall is_byte (wire_labels ls) ↔ Forall (Forall is_byte) ls.
Proof.
  induction 1 as [|l ls [??] Hls IH].
  { split; constructor. }
  rewrite wire_labels_cons, Forall_cons, Forall_app, IH, (Forall_cons _ l).
  unfold is_byte at 1. split; [by intros (_ & ? & ?)|]. intros [??]. repeat split; try done; lia.
Qed.
Lemma wire_name_bytes ls :
  Forall label_ok ls → Forall is_byte (wire_name ls) ↔ Forall (Forall is_byte) ls.
Proof.
  intros. unfold wire_name. rewrite Forall_app, wire_labels_bytes by done.
  split; [by intros [??]|]. intros. split; [done|]. repeat constructor; done.
Qed.

(** On a valid name, [lower] returns the name with its ASCII letters lowercased. *)
Lemma lower_spec ls :
  name_ok ls → Forall is_byte (wire_name ls) →
  lower (wire_name ls) = Ok (map ascii_lower (wire_name ls)).
Proof.
  intros [Hls Hn] Hb. rewrite map_lower_wire_name by done.
  apply (lower_loop_spec _ [] ls); [done|by apply wire_name_bytes|].
  pose proof (length_wire_labels ls Hls). unfold wire_name. rewrite length_app. simpl. lia.
Qed.

(** *** [within] *)

(** Some suffix of the labels [s], whose first one starts at offset [i], starts at [start]. *)
Fixpoint boundary (s : list bytes) (i start : Z) : bool :=
  (i =? start) || match s with [] => false | l :: s => boundary s (i + len l + 1) start end.

Lemma boundary_spec s i start :
  boundary s i start = true ↔ ∃ p q, s = p ++ q ∧ start = i + len (wire_labels p).
Proof.
  revert i. induction s as [|l s IH]; intros i; cbn [boundary].
  - rewrite orb_false_r, Z.eqb_eq. split.
    + intros ->. exists [], []. split; [done|]. change (wire_labels []) with ([] : bytes). len_lia.
    + intros (p & q & E & ->). symmetry in E. apply app_nil in E as [-> ->].
      change (wire_labels []) with ([] : bytes). len_lia.
  - rewrite orb_true_iff, Z.eqb_eq, IH. split.
    + intros [->|(p & q & -> & ->)].
      * exists [], (l :: s). split; [done|]. change (wire_labels []) with ([] : bytes). len_lia.
      * exists (l :: p), q. split; [done|]. rewrite wire_labels_cons. len_lia.
    + intros ([|k p] & q & E & ->); simplify_eq/=.
      * left. change (wire_labels []) with ([] : bytes). len_lia.
      * right. exists p, q. split; [done|]. rewrite wire_labels_cons. len_lia.
Qed.

Lemma within_loop_spec fuel p s start :
  Forall label_ok s → (length s < fuel)%nat →
  within_loop fuel (wire_labels p ++ wire_name s) start (len (wire_labels p)) =
    Ok (boundary s (len (wire_labels p)) start).
Proof.
  intros Hs. revert fuel p. induction Hs as [|l s Hl Hs IH]; intros fuel p Hf;
    (destruct fuel as [|fuel]; [simpl in Hf; lia|]); cbn [within_loop boundary].
  - change (wire_name []) with [0]. rewrite idx_app_mid.
    destruct (Z.ltb_spec (len (wire_labels p)) (len (wire_labels p ++ [0]))); [|len_lia].
    by destruct (Z.eqb_spec (len (wire_labels p)) start).
  - rewrite wire_name_cons, idx_app_mid.
    destruct (Z.ltb_spec (len (wire_labels p)) (len (wire_labels p ++ len l :: l ++ wire_name s)));
      [|len_lia].
    destruct (Z.eqb_spec (len (wire_labels p)) start) as [|_]; [done|].
    destruct Hl. destruct (Z.eqb_spec (len l) 0); [lia|]. cbn [orb].
    specialize (IH fuel (p ++ [l])). simpl in Hf.
    rewrite wire_labels_app, wire_labels_cons in IH. change (wire_labels []) with ([] : bytes) in IH.
    rewrite app_nil_r, <- app_assoc, <- app_comm_cons in IH.
    replace (len (wire_labels p ++ len l :: l)) with (len (wire_labels p) + len l + 1) in IH by len_lia.
    apply IH. lia.
Qed.

Lemma slice_suffix {A} (p q : list A) : slice (p ++ q) (len (p ++ q) - len q) (len (p ++ q)) = q.
Proof.
  replace (len (p ++ q) - len q) with (len p) by len_lia.
  pose proof (slice_app_mid p q []) as H. rewrite app_nil_r in H.
  replace (len (p ++ q)) with (len p + len q) by len_lia. done.
Qed.

(** [within] holds exactly when a label suffix of the owner folds to the origin. *)
Lemma within_spec wide ls origin :
  Forall label_ok ls →
  ∃ r, within wide (wire_name ls) origin = Ok r ∧
  (r = true ↔ ∃ p q, ls = p ++ q ∧ len (wire_name q) = len origin ∧
                     EqualFold wide (wire_name q) origin = true).
Proof.
  intros Hls. unfold within.
  destruct (Z.ltb_spec (len (wire_name ls)) (len origin)) as [Hlt|Hge].
  { exists false. split; [done|]. split; [done|]. intros (p & q & -> & Hq & _).
    rewrite wire_name_app in Hlt. len_lia. }
  assert (∀ p q, ls = p ++ q → len (wire_name ls) - len origin = len (wire_labels p) →
    slice (wire_name ls) (len (wire_name ls) - len origin) (len (wire_name ls)) = wire_name q ∧
    len (wire_name q) = len origin) as Hsuf.
  { intros p q -> Hst. rewrite wire_name_app in Hst |- *.
    assert (len (wire_name q) = len origin) as Hlen by len_lia.
    rewrite <- Hlen. split; [apply slice_suffix|done]. }
  destruct (EqualFold wide (slice _ _ _) origin) eqn:HE; simpl negb; cbv iota.
  - eexists. split.
    { apply (within_loop_spec _ [] ls _ Hls). pose proof (length_wire_labels ls Hls).
      unfold wire_name. rewrite length_app. lia. }
    rewrite boundary_spec. change (len (wire_labels [])) with 0. split.
    + intros (p & q & -> & Hst). rewrite Z.add_0_l in Hst.
      destruct (Hsuf p q eq_refl Hst) as [Hsl Hlen]. rewrite Hsl in HE. eauto.
    + intros (p & q & -> & Hlen & _). exists p, q. split; [done|].
      rewrite wire_name_app. len_lia.
  - exists false. split; [done|]. split; [done|]. intros (p & q & -> & Hlen & HE').
    destruct (Hsuf p q eq_refl) as [Hsl _]; [rewrite wire_name_app; len_lia|].
    rewrite Hsl in HE. congruence.
Qed.

(** [within] reads the origin only up to ASCII case. *)
Lemma within_lower wide owner origin :
  Forall is_byte owner → Forall is_byte origin →
  within wide owner (map ascii_lower origin) = within wide owner origin.
Proof.
  intros Ho Hor. unfold within. rewrite !len_map. case_match; [done|].
  rewrite EqualFold_lower_r; [done| |done]. unfold slice. by apply Forall_take, Forall_drop.
Qed.

(** *** [CanonicalKey] *)

Definition label_key (l : bytes) : bytes := concat (map key_octet l) ++ [0].

Lemma key_label_mid pre l post : key_label (pre ++ len l :: l ++ post) (len pre) = label_key l.
Proof.
  unfold key_label, label_key. rewrite idx_app_mid. simpl.
  replace (pre ++ len l :: l ++ post) with ((pre ++ [len l]) ++ l ++ post) by by simplify_list_eq.
  replace (len pre + 1) with (len (pre ++ [len l])) by len_lia.
  by rewrite slice_app_mid.
Qed.

Lemma label_starts_spec fuel pre ls rest n :
  Forall label_ok ls → n + len ls ≤ 127 → (length ls < fuel)%nat →
  let w := pre ++ wire_name ls ++ rest in
  map (key_label w) (label_starts fuel w (len pre) n) = map label_key ls.
Proof.
  intros Hls. revert fuel pre n. induction Hls as [|l ls Hl Hls IH]; intros fuel pre n Hn Hf w;
    (destruct fuel as [|fuel]; [simpl in Hf; lia|]); cbn [label_starts]; subst w.
  - change (wire_name [] ++ rest) with (0 :: rest). rewrite idx_app_mid.
    by rewrite (andb_false_r (_ <? _)).
  - rewrite wire_name_cons, <- app_comm_cons, <- app_assoc, idx_app_mid.
    destruct Hl as [Hl1 Hl2]. rewrite (proj2 (Z.eqb_neq (len l) 0)) by lia.
    rewrite (proj2 (Z.ltb_lt _ (len (_ ++ _)))) by len_lia.
    rewrite (proj2 (Z.ltb_lt n 128)), (proj2 (Z.leb_le _ _)) by len_lia. cbn [andb negb map].
    f_equal; [apply key_label_mid|].
    specialize (IH fuel (pre ++ len l :: l) (n + 1)). simpl in IH, Hf.
    rewrite <- app_assoc, <- app_comm_cons in IH.
    replace (len (pre ++ len l :: l)) with (len pre + (len l + 1)) in IH by len_lia.
    apply IH; len_lia.
Qed.

(** The key of a name: its lowercased, escaped labels from the root down. *)
Lemma CanonicalKey_wire ls rest :
  name_ok ls → CanonicalKey (wire_name ls ++ rest) = concat (map label_key (rev ls)).
Proof.
  intros Hok. pose proof (name_ok_labels ls Hok) as Hn. destruct Hok as [Hls _].
  unfold CanonicalKey. rewrite map_rev.
  pose proof (label_starts_spec 129 [] ls rest 0 Hls) as H. cbv zeta in H.
  change (len []) with 0 in H. change ([] ++ ?x) with x in H.
  rewrite H, <- map_rev by (unfold len in *; lia). done.
Qed.

(** RFC 4034 §6.1 on names given from the root down: compare the most significant labels first,
    each label as a lowercased octet string, an absent label before any other. *)
Fixpoint canonical_compare (a b : list bytes) : comparison :=
  match a, b with
  | [], [] => Eq
  | [], _ :: _ => Lt
  | _ :: _, [] => Gt
  | x :: a, y :: b =>
      match bytes_compare (map ascii_lower x) (map ascii_lower y) with
      | Eq => canonical_compare a b
      | c => c
      end
  end.

Lemma key_octet_lower b : is_byte b →
  key_octet b = if ascii_lower b =? 0 then [1; 1] else if ascii_lower b =? 1 then [1; 2]
                else [ascii_lower b].
Proof.
  unfold key_octet, ascii_lower. intros. destruct (is_upper b) eqn:Hu; [|done].
  by rewrite u8_small by (unfold is_upper, is_byte in *; lia).
Qed.

(** Escaping keeps the order of labels and never lets a label run into the next one. *)
Lemma label_key_compare a b x y :
  Forall is_byte a → Forall is_byte b →
  bytes_compare (label_key a ++ x) (label_key b ++ y) =
  match bytes_compare (map ascii_lower a) (map ascii_lower b) with
  | Eq => bytes_compare x y
  | c => c
  end.
Proof.
  unfold label_key. intros Ha. revert b. induction Ha as [|c a Hc Ha IH]; intros b Hb.
  - destruct Hb as [|d b Hd Hb]; [done|]. simpl. rewrite key_octet_lower by done.
    pose proof (ascii_lower_byte d Hd) as [Hd' _].
    destruct (Z.eqb_spec (ascii_lower d) 0); [done|].
    destruct (Z.eqb_spec (ascii_lower d) 1); [done|]. simpl.
    destruct (ascii_lower d) eqn:E; [lia|done|lia].
  - destruct Hb as [|d b Hd Hb].
    { simpl. rewrite key_octet_lower by done. pose proof (ascii_lower_byte c Hc) as [Hc' _].
      destruct (Z.eqb_spec (ascii_lower c) 0); [done|].
      destruct (Z.eqb_spec (ascii_lower c) 1); [done|]. simpl.
      destruct (ascii_lower c) eqn:E; [lia|done|lia]. }
    specialize (IH b Hb). cbn [map concat]. rewrite !key_octet_lower by done.
    pose proof (ascii_lower_byte c Hc) as [Hc' _]. pose proof (ascii_lower_byte d Hd) as [Hd' _].
    rewrite <- !app_assoc in *. cbn [bytes_compare].
    destruct (Z.compare_spec (ascii_lower c) (ascii_lower d)) as [E|Hlt|Hgt].
    + rewrite E. destruct (ascii_lower d =? 0), (ascii_lower d =? 1); cbn [app bytes_compare];
        rewrite ?Z.compare_refl; exact IH.
    + repeat (match goal with |- context [?u =? ?v] => destruct (Z.eqb_spec u v) end);
        try lia; cbn [app bytes_compare]; simplify_eq; try done;
        rewrite ?(proj2 (Z.compare_lt_iff _ _)) by lia; done.
    + repeat (match goal with |- context [?u =? ?v] => destruct (Z.eqb_spec u v) end);
        try lia; cbn [app bytes_compare]; simplify_eq; try done;
        rewrite ?(proj2 (Z.compare_gt_iff _ _)) by lia; done.
Qed.

Lemma concat_key_compare a b :
  Forall (Forall is_byte) a → Forall (Forall is_byte) b →
  bytes_compare (concat (map label_key a)) (concat (map label_key b)) = canonical_compare a b.
Proof.
  intros Ha. revert b. induction Ha as [|x a Hx Ha IH]; intros b Hb.
  - destruct Hb as [|y b Hy Hb]; [done|]. cbn [map concat canonical_compare].
    unfold label_key. rewrite <- app_assoc. by destruct (concat (map key_octet y)).
  - destruct Hb as [|y b Hy Hb]; cbn [map concat canonical_compare].
    + unfold label_key. rewrite <- app_assoc. by destruct (concat (map key_octet x)).
    + rewrite label_key_compare by done. by rewrite IH.
Qed.

(** *** [SortRecords] *)

Definition sort_key (p : bytes * record) : bytes * (Z * bytes) := (p.1, (RType p.2, RData p.2)).

Lemma record_less_cmp a b :
  record_less a b =
  bool_decide (lex_cmp bytes_compare (lex_cmp Z.compare bytes_compare) (sort_key a) (sort_key b) = Lt).
Proof.
  unfold record_less, lex_cmp, sort_key. simpl. destruct (bytes_compare a.1 b.1); try done.
  destruct (Z.compare_spec (RType a.2) (RType b.2)) as [E|E|E].
  - by rewrite E, Z.eqb_refl.
  - rewrite (proj2 (Z.eqb_neq _ _)) by lia. by apply Z.ltb_lt.
  - rewrite (proj2 (Z.eqb_neq _ _)) by lia. apply Z.ltb_ge. lia.
Qed.
#[export] Instance record_less_swo : StrictWeakOrder record_less.
Proof. exact (swo_of_cmp sort_key _ _ record_less_cmp). Qed.

Definition keyed (r : record) : bytes * record := (CanonicalKey (Owner r), r).

(** [a] may stand before [b] in a sorted zone. *)
Definition record_before (a b : record) : Prop := record_less (keyed b) (keyed a) = false.

Lemma SortRecords_perm rs : SortRecords rs ≡ₚ rs.
Proof.
  unfold SortRecords. rewrite stable_sort_perm, map_map. simpl. by rewrite map_id.
Qed.
Lemma len_SortRecords rs : len (SortRecords rs) = len rs.
Proof. apply len_perm, SortRecords_perm. Qed.

Lemma SortRecords_keyed rs :
  map keyed (SortRecords rs) = stable_sort record_less (map keyed rs).
Proof.
  unfold SortRecords. rewrite map_map.
  change (map (λ r, (CanonicalKey (Owner r), r)) rs) with (map keyed rs).
  rewrite <- (map_id (stable_sort _ _)) at 2. apply map_ext_in.
  intros p Hp. rewrite <- list_elem_of_In, stable_sort_perm in Hp.
  apply list_elem_of_In, in_map_iff in Hp as (r & <- & _). done.
Qed.

Lemma SortRecords_sorted rs : StronglySorted record_before (SortRecords rs).
Proof.
  pose proof (stable_sort_sorted record_less (map keyed rs)) as H.
  rewrite <- SortRecords_keyed in H. generalize dependent (SortRecords rs). clear.
  induction l as [|r l IH]; intros H; [constructor|].
  change (map keyed (r :: l)) with (keyed r :: map keyed l) in H.
  apply StronglySorted_inv in H as [Hs Hf]. constructor; [by apply IH|].
  change (map keyed l) with (keyed <$> l) in Hf. rewrite Forall_fmap in Hf. exact Hf.
Qed.

(** Records with the same key keep their order. *)
Lemma SortRecords_stable rs k :
  filter (λ q, sort_key (keyed q) = k) (SortRecords rs) = filter (λ q, sort_key (keyed q) = k) rs.
Proof.
  apply (map_inj keyed); [by intros a b [= _ ->]|].
  transitivity (filter (λ p, sort_key p = k) (map keyed (SortRecords rs)));
    [symmetry; apply (filter_map_comm keyed (λ p, sort_key p = k))|].
  rewrite SortRecords_keyed, stable_sort_filter;
    [apply (filter_map_comm keyed (λ p, sort_key p = k))|].
  intros a b <- E. rewrite record_less_cmp, E. by rewrite cmp_refl by apply _.
Qed.
