(* ===== verification/NzfFormat.v ===== *)
(** * NZF1: encoding and decoding of zone images and deltas

    Models [mgmt/internal/nzf/format.go]: the checks on records and SOAs, [EncodeFull],
    [EncodeDelta], the bounds-checked [reader] and [Decode].  [Decode] returns on every input, and
    decoding an encoded image or delta gives it back with its records in canonical order and its
    origin in lowercase. *)

From S2P Require Import Prelude.
From S2P Require Import GoText.
From S2P Require Import NzfNames.

Definition KindFull : Z := 1.
Definition KindDelta : Z := 2.
Definition typeSOA : Z := 6.
Definition classIN : Z := 1.
Definition headerTail : Z := 16.
Definition minRecord : Z := 11.
Definition magic : bytes := [78; 90; 70; 49].

Definition of_idx {A} (o : option A) : res malformed A :=
  match o with Some a => Ok a | None => Panic end.

(** [b[lo:]]; slicing past the end panics. *)
Definition tail_from (b : bytes) (lo : Z) : res malformed bytes :=
  if len b <? lo then Panic else Ok (drop (Z.to_nat lo) b).

(** The serial of SOA RDATA: two uncompressed names, then 20 octets. *)
Definition soaSerial (rdata : bytes) : res malformed Z :=
  m ← nameEnd rdata;
  rest ← tail_from rdata m;
  r ← nameEnd rest;
  if negb (len rdata =? m + r + 20) then Err (SOALength (len rdata))
  else
    t ← tail_from rdata (m + r);
    of_idx (get32 t).

Section format.
Context (wide : Z → Z).

Definition checkSOA (r : record) (origin : bytes) (serial : Z) : res malformed unit :=
  if negb (RType r =? typeSOA) || negb (EqualFold wide (Owner r) origin) then Err NotApexSOA
  else
    s ← soaSerial (RData r);
    if negb (s =? serial) then Err (SOASerial s serial) else Ok tt.

Definition checkRecord (r : record) (origin : bytes) : res malformed unit :=
  validName (Owner r);;
  w ← within wide (Owner r) origin;
  if negb w then Err OutsideOrigin
  else if negb (RClass r =? classIN) then Err (Class (RClass r))
  else if 65535 <? len (RData r) then Err (RDataLength (len (RData r)))
  else Ok tt.

Definition checkOrigin (origin : bytes) : res malformed unit :=
  validName origin;;
  if len origin <? 2 then Err RootOrigin else Ok tt.

(** Exactly one SOA, at the origin, carrying the image serial. *)
Fixpoint checkFullSOA_loop (rs : list record) (origin : bytes) (serial : Z) (found : bool)
    : res malformed unit :=
  match rs with
  | [] => if found then Ok tt else Err NoSOA
  | r :: rs =>
      if negb (RType r =? typeSOA) then checkFullSOA_loop rs origin serial found
      else if found then Err TwoSOA
      else
        checkSOA r origin serial;;
        checkFullSOA_loop rs origin serial true
  end.
Definition checkFullSOA (rs : list record) (origin : bytes) (serial : Z) : res malformed unit :=
  checkFullSOA_loop rs origin serial false.

Fixpoint checkRecords (rs : list record) (origin : bytes) : res malformed unit :=
  match rs with
  | [] => Ok tt
  | r :: rs => checkRecord r origin;; checkRecords rs origin
  end.

Definition appendHeader (b : bytes) (kind : Z) (origin : bytes) (serial from a c : Z)
    : res malformed bytes :=
  lo ← lower origin;
  Ok (b ++ magic ++ [kind; 0; u8 (len origin)] ++ lo ++
      put32 serial ++ put32 from ++ put32 (u32 a) ++ put32 (u32 c)).

Definition appendRecord (r : record) : bytes :=
  u8 (len (Owner r)) :: Owner r ++
  put16 (RType r) ++ put16 (RClass r) ++ put32 (TTL r) ++
  put16 (u16 (len (RData r))) ++ RData r.

Definition appendRecords (b : bytes) (rs : list record) : bytes :=
  b ++ concat (map appendRecord rs).

(** [EncodeFull] serialises a full image with its records in canonical order. *)
Definition EncodeFull (img : Image) : res malformed bytes :=
  checkOrigin (img_Origin img);;
  checkRecords (img_Records img) (img_Origin img);;
  checkFullSOA (img_Records img) (img_Origin img) (img_Serial img);;
  let rs := SortRecords (img_Records img) in
  b ← appendHeader [] KindFull (img_Origin img) (img_Serial img) 0 (len rs) 0;
  Ok (appendRecords b rs).

(** [SortRecords(list[1:])]: the SOA stays first. *)
Definition sort_tail (rs : list record) : list record :=
  match rs with [] => [] | r :: rs => r :: SortRecords rs end.

Definition EncodeDelta (d : Delta) : res malformed bytes :=
  checkOrigin (dl_Origin d);;
  match Deleted d, Added d with
  | d0 :: _, a0 :: _ =>
      checkSOA d0 (dl_Origin d) (FromSerial d);;
      checkSOA a0 (dl_Origin d) (ToSerial d);;
      checkRecords (Deleted d) (dl_Origin d);;
      checkRecords (Added d) (dl_Origin d);;
      let del := sort_tail (Deleted d) in
      let add := sort_tail (Added d) in
      b ← appendHeader [] KindDelta (dl_Origin d) (ToSerial d) (FromSerial d) (len del) (len add);
      Ok (appendRecords (appendRecords b del) add)
  | _, _ => Err DeltaWithoutSOA
  end.

(** ** The reader: the buffer and the offset of the next octet. *)
Record reader := mkReader { rd_b : bytes; rd_off : Z }.

Definition take_n (r : reader) (n : Z) : res malformed (bytes * reader) :=
  if (n <? 0) || (len (rd_b r) - rd_off r <? n) then Err Truncated
  else Ok (slice (rd_b r) (rd_off r) (rd_off r + n), mkReader (rd_b r) (rd_off r + n)).

Definition read_u8 (r : reader) : res malformed (Z * reader) :=
  '(s, r) ← take_n r 1; v ← of_idx (idx s 0); Ok (v, r).
Definition read_u16 (r : reader) : res malformed (Z * reader) :=
  '(s, r) ← take_n r 2; v ← of_idx (get16 s); Ok (v, r).
Definition read_u32 (r : reader) : res malformed (Z * reader) :=
  '(s, r) ← take_n r 4; v ← of_idx (get32 s); Ok (v, r).

Definition read_record (r : reader) (origin : bytes) : res malformed (record * reader) :=
  '(ol, r) ← read_u8 r;
  '(owner, r) ← take_n r ol;
  '(ty, r) ← read_u16 r;
  '(class, r) ← read_u16 r;
  '(ttl, r) ← read_u32 r;
  '(rdlen, r) ← read_u16 r;
  '(rdata, r) ← take_n r rdlen;
  let rec := mkRecord owner ty class ttl rdata in
  checkRecord rec origin;;
  Ok (rec, r).

Fixpoint read_records (n : nat) (r : reader) (origin : bytes) : res malformed (list record * reader) :=
  match n with
  | O => Ok ([], r)
  | S n =>
      '(rec, r) ← read_record r origin;
      '(recs, r) ← read_records n r origin;
      Ok (rec :: recs, r)
  end.

(** What [Decode] returns: the image or the delta its kind octet announces. *)
Inductive decoded : Type :=
| DFull (img : Image)
| DDelta (d : Delta).

(** The second half of [Decode], from the check of the record counts on. *)
Definition decodeBody (raw : bytes) (kind : Z) (origin : bytes) (serial from countA countB : Z)
    (r : reader) : res malformed decoded :=
  if (len raw - rd_off r) `div` minRecord <? countA + countB
  then Err (RecordCounts countA countB (len raw - rd_off r))
  else if (kind =? KindFull) && (negb (from =? 0) || negb (countB =? 0))
  then Err FullWithDeltaFields
  else
  '(a, r) ← read_records (Z.to_nat countA) r origin;
  '(b, r) ← read_records (Z.to_nat countB) r origin;
  if negb (rd_off r =? len raw) then Err (TrailingOctets (len raw - rd_off r))
  else if kind =? KindFull then
    checkFullSOA a origin serial;;
    Ok (DFull (mkImage origin serial a))
  else
    match a, b with
    | a0 :: _, b0 :: _ =>
        checkSOA a0 origin from;;
        checkSOA b0 origin serial;;
        Ok (DDelta (mkDelta origin from serial a b))
    | _, _ => Err DeltaWithoutSOA
    end.

Definition Decode (raw : bytes) : res malformed decoded :=
  let r := mkReader raw 0 in
  '(m, r) ← take_n r 4;
  if negb (bool_decide (m = magic)) then Err BadMagic
  else
  '(kind, r) ← read_u8 r;
  if negb (kind =? KindFull) && negb (kind =? KindDelta) then Err (Kind kind)
  else
  '(reserved, r) ← read_u8 r;
  if negb (reserved =? 0) then Err (Reserved reserved)
  else
  '(ol, r) ← read_u8 r;
  '(origin, r) ← take_n r ol;
  checkOrigin origin;;
  '(hdr, r) ← take_n r headerTail;
  serial ← of_idx (get32 hdr);
  from ← of_idx (get32 (drop 4 hdr));
  countA ← of_idx (get32 (drop 8 hdr));
  countB ← of_idx (get32 (drop 12 hdr));
  decodeBody raw kind origin serial from countA countB r.
End format.

(** ** Lemmas *)

(** The field ranges of the Go types. *)
Definition record_wf (r : record) : Prop :=
  Forall is_byte (Owner r) ∧ is_u16 (RType r) ∧ is_u16 (RClass r) ∧ is_u32 (TTL r) ∧
  Forall is_byte (RData r).

(** A reader in the middle of a buffer: [pre] is consumed, [rest] is left. *)
Definition at_ (pre rest : bytes) : reader := mkReader (pre ++ rest) (len pre).

Lemma take_at pre x rest : take_n (at_ pre (x ++ rest)) (len x) = Ok (x, at_ (pre ++ x) rest).
Proof.
  unfold take_n, at_. simpl.
  destruct (Z.ltb_spec (len x) 0); [len_lia|].
  destruct (Z.ltb_spec (len (pre ++ x ++ rest) - len pre) (len x)); [len_lia|]. simpl.
  rewrite slice_app_mid. do 2 f_equal. f_equal; [by rewrite app_assoc|len_lia].
Qed.

Lemma take_at_len pre x rest n :
  n = len x → take_n (at_ pre (x ++ rest)) n = Ok (x, at_ (pre ++ x) rest).
Proof. intros ->. apply take_at. Qed.

Lemma read_u8_at pre b rest : read_u8 (at_ pre (b :: rest)) = Ok (b, at_ (pre ++ [b]) rest).
Proof.
  unfold read_u8. change (b :: rest) with ([b] ++ rest). by rewrite take_at_len.
Qed.
Lemma read_u16_at pre v rest :
  is_u16 v → read_u16 (at_ pre (put16 v ++ rest)) = Ok (v, at_ (pre ++ put16 v) rest).
Proof.
  intros Hv. unfold read_u16. rewrite (take_at_len pre (put16 v) rest 2) by done. cbn -[get16 put16].
  pose proof (get16_put16 v [] Hv) as H. rewrite app_nil_r in H. by rewrite H.
Qed.
Lemma read_u32_at pre v rest :
  is_u32 v → read_u32 (at_ pre (put32 v ++ rest)) = Ok (v, at_ (pre ++ put32 v) rest).
Proof.
  intros Hv. unfold read_u32. rewrite (take_at_len pre (put32 v) rest 4) by done. cbn -[get32 put32].
  pose proof (get32_put32 v [] Hv) as H. rewrite app_nil_r in H. by rewrite H.
Qed.
Lemma validName_len b : Forall is_byte b → validName b = Ok tt → 1 ≤ len b ≤ 255.
Proof.
  intros Hb (ls & -> & Hls & Hn)%validName_spec; [|done]. split; [|done].
  rewrite len_wire_name. len_lia.
Qed.

Section lemmas.
Context (wide : Z → Z).

Lemma checkRecord_Ok r origin :
  checkRecord wide r origin = Ok tt ↔
  validName (Owner r) = Ok tt ∧ within wide (Owner r) origin = Ok true ∧
  RClass r = classIN ∧ len (RData r) ≤ 65535.
Proof.
  unfold checkRecord. split.
  - intros ([] & Hv & (w & Hw & H)%bind_Ok)%bind_Ok. destruct w; [|done]. simpl in H.
    destruct (Z.eqb_spec (RClass r) classIN); [|done]. simpl in H.
    destruct (Z.ltb_spec 65535 (len (RData r))); [done|]. done.
  - intros (-> & -> & -> & Hl). simpl.
    by destruct (Z.ltb_spec 65535 (len (RData r))); [lia|].
Qed.

(** Reading back one appended record. *)
Lemma read_record_at pre r rest origin :
  record_wf r → checkRecord wide r origin = Ok tt →
  read_record wide (at_ pre (appendRecord r ++ rest)) origin =
    Ok (r, at_ (pre ++ appendRecord r) rest).
Proof.
  intros (Ho & Ht & Hc & Htt & Hr) Hck.
  apply checkRecord_Ok in Hck as Hck'. destruct Hck' as (Hv & _ & _ & Hlen).
  pose proof (validName_len _ Ho Hv) as Hol. pose proof (len_nonneg (RData r)).
  unfold read_record, appendRecord. rewrite u8_small by (unfold is_byte; lia).
  rewrite u16_small by (unfold is_u16; lia). rewrite <- app_comm_cons, <- !app_assoc.
  rewrite read_u8_at. cbn [mbind res_bind]. rewrite take_at. cbn [mbind res_bind].
  rewrite !read_u16_at by done. cbn [mbind res_bind]. rewrite read_u16_at by done.
  cbn [mbind res_bind]. rewrite read_u32_at by done. cbn [mbind res_bind].
  rewrite read_u16_at by (unfold is_u16; lia). cbn [mbind res_bind]. rewrite take_at.
  cbn [mbind res_bind]. destruct r; simpl in *. rewrite Hck. cbn [mbind res_bind].
  do 2 f_equal. unfold at_. by simplify_list_eq.
Qed.

Lemma read_records_at pre rs rest origin :
  Forall record_wf rs → Forall (λ r, checkRecord wide r origin = Ok tt) rs →
  read_records wide (length rs) (at_ pre (concat (map appendRecord rs) ++ rest)) origin =
    Ok (rs, at_ (pre ++ concat (map appendRecord rs)) rest).
Proof.
  intros Hwf Hck. revert pre. induction rs as [|r rs IH]; intros pre.
  { simpl. by rewrite app_nil_r. }
  apply Forall_cons in Hwf as [Hr Hwf], Hck as [Hcr Hck].
  cbn [length read_records map concat]. rewrite <- app_assoc, read_record_at by done.
  cbn [mbind res_bind]. rewrite IH by done. cbn [mbind res_bind].
  by rewrite app_assoc.
Qed.

Lemma checkRecords_Ok rs origin :
  checkRecords wide rs origin = Ok tt ↔ Forall (λ r, checkRecord wide r origin = Ok tt) rs.
Proof.
  induction rs as [|r rs IH]; simpl; [by split|]. rewrite Forall_cons, <- IH. split.
  - by intros ([] & ? & ?)%bind_Ok.
  - by intros [-> ->].
Qed.

(** The zone's SOA records. *)
Definition is_soa (r : record) : Prop := RType r = typeSOA.

Lemma checkFullSOA_loop_Ok rs origin serial found :
  checkFullSOA_loop wide rs origin serial found = Ok tt ↔
  if found then filter is_soa rs = []
  else ∃ r, filter is_soa rs = [r] ∧ checkSOA wide r origin serial = Ok tt.
Proof.
  revert found. induction rs as [|r rs IH]; intros found; cbn [checkFullSOA_loop].
  { destruct found; simpl; split; try done. by intros (? & ? & _). }
  rewrite filter_cons. unfold is_soa at 1 4.
  destruct (Z.eqb_spec (RType r) typeSOA) as [E|E]; simpl negb; cbv iota.
  - rewrite !decide_True by done. destruct found; [done|]. split.
    + intros ([] & Hs & Hl)%bind_Ok. apply IH in Hl. exists r. by rewrite Hl.
    + intros (r' & [= -> Hn] & ->). simpl. apply (IH true), Hn.
  - rewrite !decide_False by done. apply IH.
Qed.

Lemma checkFullSOA_Ok rs origin serial :
  checkFullSOA wide rs origin serial = Ok tt ↔
  ∃ r, filter is_soa rs = [r] ∧ checkSOA wide r origin serial = Ok tt.
Proof. apply (checkFullSOA_loop_Ok rs origin serial false). Qed.

Lemma checkFullSOA_perm rs rs' origin serial :
  rs ≡ₚ rs' → checkFullSOA wide rs origin serial = Ok tt →
  checkFullSOA wide rs' origin serial = Ok tt.
Proof.
  rewrite !checkFullSOA_Ok. intros HP (r & Hf & Hc). exists r. split; [|done].
  apply Permutation_singleton_r. by rewrite <- Hf, HP.
Qed.

(** The checks read the origin only up to ASCII case. *)
Lemma checkSOA_lower r origin serial :
  Forall is_byte (Owner r) → Forall is_byte origin →
  checkSOA wide r (map ascii_lower origin) serial = checkSOA wide r origin serial.
Proof. intros. unfold checkSOA. by rewrite EqualFold_lower_r. Qed.
Lemma checkRecord_lower r origin :
  Forall is_byte (Owner r) → Forall is_byte origin →
  checkRecord wide r (map ascii_lower origin) = checkRecord wide r origin.
Proof. intros. unfold checkRecord. by rewrite within_lower. Qed.
Lemma checkOrigin_Ok origin :
  Forall is_byte origin →
  checkOrigin origin = Ok tt ↔ ∃ ls, origin = wire_name ls ∧ name_ok ls ∧ 2 ≤ len origin.
Proof.
  intros Hb. unfold checkOrigin. split.
  - intros ([] & (ls & -> & Hls)%validName_spec & H)%bind_Ok; [|done].
    destruct (Z.ltb_spec (len (wire_name ls)) 2); [done|]. eauto.
  - intros (ls & E & Hls & Hn). rewrite (proj2 (validName_spec origin Hb)) by eauto. simpl.
    by destruct (Z.ltb_spec (len origin) 2); [lia|].
Qed.
Lemma checkOrigin_lower origin :
  Forall is_byte origin → checkOrigin origin = Ok tt →
  lower origin = Ok (map ascii_lower origin) ∧ checkOrigin (map ascii_lower origin) = Ok tt ∧
  2 ≤ len origin ≤ 255.
Proof.
  intros Hb (ls & -> & Hls & Hn)%checkOrigin_Ok; [|done].
  split; [by apply lower_spec|]. split.
  - apply checkOrigin_Ok; [by apply lower_bytes|]. exists (map (map ascii_lower) ls).
    destruct Hls as [Hls Hlen]. rewrite len_map, <- map_lower_wire_name by done.
    repeat split; try done.
    + clear -Hls. induction Hls; simpl; constructor; [|done]. unfold label_ok. by rewrite len_map.
    + by rewrite <- map_lower_wire_name, len_map.
  - by destruct Hls.
Qed.

Lemma Forall_checkRecord_lower rs origin :
  Forall record_wf rs → Forall is_byte origin →
  Forall (λ r, checkRecord wide r origin = Ok tt) rs →
  Forall (λ r, checkRecord wide r (map ascii_lower origin) = Ok tt) rs.
Proof.
  intros Hwf Hb Hck. rewrite Forall_forall in Hwf, Hck. apply Forall_forall. intros r Hr.
  destruct (Hwf r Hr) as [Ho _]. rewrite checkRecord_lower by done. by apply Hck.
Qed.
Lemma checkFullSOA_lower rs origin serial :
  Forall record_wf rs → Forall is_byte origin →
  checkFullSOA wide rs origin serial = Ok tt →
  checkFullSOA wide rs (map ascii_lower origin) serial = Ok tt.
Proof.
  intros Hwf Hb. rewrite !checkFullSOA_Ok. intros (r & Hf & Hc). exists r.
  split; [done|]. rewrite Forall_forall in Hwf. rewrite checkSOA_lower; [done| |done].
  apply Hwf, (list_elem_of_filter is_soa). rewrite Hf. left.
Qed.

(** Every appended record takes at least [minRecord] octets, so the record counts of an encoded
    zone pass the bound [Decode] puts on them. *)
Lemma len_appendRecord r :
  1 ≤ len (Owner r) → minRecord ≤ len (appendRecord r).
Proof. unfold appendRecord, minRecord. intros. len_simpl. unfold len in *. simpl. lia. Qed.
Lemma len_appendRecords rs origin :
  Forall record_wf rs → Forall (λ r, checkRecord wide r origin = Ok tt) rs →
  minRecord * len rs ≤ len (concat (map appendRecord rs)).
Proof.
  intros Hwf Hck. induction rs as [|r rs IH]; [done|].
  apply Forall_cons in Hwf as [Hr Hwf], Hck as [Hcr Hck].
  apply checkRecord_Ok in Hcr as (Hv & _). apply validName_len in Hv; [|apply Hr].
  pose proof (len_appendRecord r). specialize (IH Hwf Hck). cbn [map concat]. len_lia.
Qed.

(** [Decode] on the output of [appendHeader]: the header fields come back, and what follows is
    read as [countA] and then [countB] records. *)
Definition header (kind : Z) (origin : bytes) (serial from a c : Z) : bytes :=
  magic ++ [kind; 0; len origin] ++ origin ++ put32 serial ++ put32 from ++ put32 a ++ put32 c.

Lemma appendHeader_Ok kind origin serial from a c :
  Forall is_byte origin → checkOrigin origin = Ok tt → is_u32 a → is_u32 c →
  appendHeader [] kind origin serial from a c =
    Ok (header kind (map ascii_lower origin) serial from a c).
Proof.
  intros Hb Ho Ha Hc. destruct (checkOrigin_lower origin Hb Ho) as (Hl & _ & Hlen).
  unfold appendHeader, header. rewrite Hl. simpl.
  rewrite u8_small by (unfold is_byte; lia). by rewrite !u32_small, len_map.
Qed.

Lemma Decode_header kind origin serial from a c body :
  kind = KindFull ∨ kind = KindDelta →
  Forall is_byte origin → checkOrigin origin = Ok tt →
  is_u32 serial → is_u32 from → is_u32 a → is_u32 c →
  let h := header kind origin serial from a c in
  Decode wide (h ++ body) = decodeBody wide (h ++ body) kind origin serial from a c (at_ h body).
Proof.
  intros Hk Hb Ho Hs Hf Ha Hc h. unfold Decode.
  assert (mkReader (h ++ body) 0 = at_ [] (magic ++ kind :: 0 :: len origin :: origin ++
    (put32 serial ++ put32 from ++ put32 a ++ put32 c) ++ body)) as ->.
  { unfold at_, h, header. f_equal. by rewrite <- !app_assoc. }
  rewrite take_at_len by done. cbn [mbind res_bind]. rewrite bool_decide_eq_true_2 by done.
  simpl negb. cbv iota. rewrite read_u8_at. cbn [mbind res_bind].
  replace (negb (kind =? KindFull) && negb (kind =? KindDelta)) with false
    by (destruct Hk as [->| ->]; done).
  rewrite read_u8_at. cbn [mbind res_bind]. change (negb (0 =? 0)) with false. cbv iota.
  rewrite read_u8_at. cbn [mbind res_bind].
  rewrite take_at. cbn [mbind res_bind]. rewrite Ho. cbn [mbind res_bind].
  rewrite take_at_len by done. cbn [mbind res_bind].
  rewrite (get32_put32 serial) by done. cbn [of_idx mbind res_bind].
  rewrite (drop_app_length' (put32 serial) _ 4) by done.
  rewrite (get32_put32 from) by done. cbn [of_idx mbind res_bind].
  rewrite (app_assoc (put32 serial)), (drop_app_length' (put32 serial ++ put32 from) _ 8) by done.
  rewrite (get32_put32 a) by done. cbn [of_idx mbind res_bind].
  rewrite (app_assoc (put32 serial ++ put32 from)),
    (drop_app_length' ((put32 serial ++ put32 from) ++ put32 a) _ 12) by done.
  pose proof (get32_put32 c [] Hc) as E. rewrite app_nil_r in E. rewrite E.
  cbn [of_idx mbind res_bind]. f_equal.
Qed.
End lemmas.

(** ** Totality *)

Definition reader_ok (r : reader) : Prop :=
  Forall is_byte (rd_b r) ∧ 0 ≤ rd_off r ≤ len (rd_b r).

Lemma slice_bytes b lo hi : Forall is_byte b → Forall is_byte (slice b lo hi).
Proof. intros. unfold slice. by apply Forall_take, Forall_drop. Qed.

(** What [take_n] hands out: [n] octets of the buffer, and a reader past them. *)
Definition read_ok {A} (Q : A → Prop) (r : reader) (x : A * reader) : Prop :=
  reader_ok x.2 ∧ rd_b x.2 = rd_b r ∧ Q x.1.

Lemma take_n_post r n : reader_ok r →
  post (take_n r n) (read_ok (λ s, Forall is_byte s ∧ len s = n) r).
Proof.
  intros [Hb Ho]. unfold take_n. apply post_guard.
  intros [?%Z.ltb_ge ?%Z.ltb_ge]%orb_false_iff. unfold read_ok, reader_ok. simpl.
  rewrite len_slice by lia. split_and!; try done; try lia. by apply slice_bytes.
Qed.

Lemma get16_len s : len s = 2 → ∃ v, get16 s = Some v.
Proof. destruct s as [|?[|?[|??]]]; unfold len; simpl; try lia. eauto. Qed.
Lemma get32_len s : 4 ≤ len s → ∃ v, get32 s = Some v.
Proof. destruct s as [|?[|?[|?[|??]]]]; unfold len; simpl; try lia. eauto. Qed.
Lemma idx0_len {A} (s : list A) : len s = 1 → ∃ v, idx s 0 = Some v ∧ s = [v].
Proof. destruct s as [|?[|??]]; unfold len; simpl; try lia. eauto. Qed.

(** A read of a fixed-size field returns, and what it returns is in range. *)
Lemma read_u8_post r : reader_ok r → post (read_u8 r) (read_ok is_byte r).
Proof.
  intros Hr. unfold read_u8. post_step take_n_post. intros [s r'] (? & ? & Hs & Hl). simpl in *.
  destruct (idx0_len s Hl) as (v & -> & ->). rewrite Forall_singleton in Hs. done.
Qed.
Lemma read_u16_post r : reader_ok r → post (read_u16 r) (read_ok is_u16 r).
Proof.
  intros Hr. unfold read_u16. post_step take_n_post. intros [s r'] (? & ? & Hs & Hl). simpl in *.
  destruct (get16_len s Hl) as (v & E). rewrite E. apply get16_bound in E; done.
Qed.
Lemma read_u32_post r : reader_ok r → post (read_u32 r) (read_ok is_u32 r).
Proof.
  intros Hr. unfold read_u32. post_step take_n_post. intros [s r'] (? & ? & Hs & Hl). simpl in *.
  destruct (get32_len s) as (v & E); [lia|]. rewrite E. apply get32_bound in E; done.
Qed.

Lemma tail_from_Ok b lo : lo ≤ len b → tail_from b lo = Ok (drop (Z.to_nat lo) b).
Proof. intros. unfold tail_from. by destruct (Z.ltb_spec (len b) lo); [lia|]. Qed.

Section totality.
Context (wide : Z → Z).

Lemma soaSerial_returns rdata : Forall is_byte rdata → returns (soaSerial rdata).
Proof.
  intros Hb. unfold soaSerial. apply returns_bind; [by apply nameEnd_returns|].
  intros m (ls & rest & -> & Hls & ->)%nameEnd_spec; [|done].
  rewrite (tail_from_Ok (wire_name ls ++ rest)) by len_lia. cbn [mbind res_bind].
  replace (drop _ (wire_name ls ++ rest)) with rest
    by (unfold len; rewrite Nat2Z.id, drop_app_length; done).
  apply Forall_app in Hb as [Hb1 Hb2].
  apply returns_bind; [by apply nameEnd_returns|].
  intros r (ks & rest' & -> & Hks & ->)%nameEnd_spec; [|done].
  destruct (Z.eqb_spec (len (wire_name ls ++ wire_name ks ++ rest'))
    (len (wire_name ls) + len (wire_name ks) + 20)) as [E|]; [|done]. simpl negb. cbv iota.
  rewrite tail_from_Ok by len_lia. cbn [mbind res_bind].
  destruct (get32_len (drop (Z.to_nat (len (wire_name ls) + len (wire_name ks)))
    (wire_name ls ++ wire_name ks ++ rest'))) as (v & ->); [|done].
  unfold len in *. rewrite length_drop. lia.
Qed.

Lemma within_returns owner origin :
  Forall is_byte owner → validName owner = Ok tt → ∃ w, within wide owner origin = Ok w.
Proof.
  intros Hb (ls & -> & [Hls _])%validName_spec; [|done].
  destruct (within_spec wide ls origin Hls) as (r & H & _). eauto.
Qed.

Lemma checkSOA_returns r origin serial :
  Forall is_byte (RData r) → returns (checkSOA wide r origin serial).
Proof.
  intros. unfold checkSOA. case_match; [done|].
  apply returns_bind; [by apply soaSerial_returns|]. intros. by case_match.
Qed.

Lemma checkRecord_returns r origin :
  Forall is_byte (Owner r) → returns (checkRecord wide r origin).
Proof.
  intros Hb. unfold checkRecord. apply returns_bind; [by apply validName_returns|].
  intros [] Hv. destruct (within_returns _ origin Hb Hv) as [w ->]. simpl. by repeat case_match.
Qed.

Lemma checkOrigin_returns origin : Forall is_byte origin → returns (checkOrigin origin).
Proof.
  intros Hb. unfold checkOrigin. apply returns_bind; [by apply validName_returns|].
  intros. by case_match.
Qed.

Lemma checkFullSOA_returns rs origin serial :
  Forall (λ r, Forall is_byte (RData r)) rs → returns (checkFullSOA wide rs origin serial).
Proof.
  unfold checkFullSOA. generalize false. intros found Hrs. revert found.
  induction Hrs as [|r rs Hr Hrs IH]; intros found; simpl; [by case_match|].
  do 2 (case_match; [done|]). apply returns_bind; [by apply checkSOA_returns|]. done.
Qed.

Lemma read_record_post r origin : reader_ok r →
  post (read_record wide r origin)
    (read_ok (λ rec, record_wf rec ∧ checkRecord wide rec origin = Ok tt) r).
Proof.
  intros Hr. unfold read_record.
  post_step read_u8_post. intros [ol r1] (? & ? & ?); simpl in *.
  post_step take_n_post. intros [owner r2] (? & ? & ? & ?); simpl in *.
  post_step read_u16_post. intros [ty r3] (? & ? & ?); simpl in *.
  post_step read_u16_post. intros [cl r4] (? & ? & ?); simpl in *.
  post_step read_u32_post. intros [ttl r5] (? & ? & ?); simpl in *.
  post_step read_u16_post. intros [rl r6] (? & ? & ?); simpl in *.
  post_step take_n_post. intros [rd r7] (? & ? & ? & ?); simpl in *.
  eapply post_bind; [by apply returns_post, checkRecord_returns|]. intros [] ?.
  split; [done|]. split; [simpl; congruence|]. done.
Qed.

Definition records_ok (rs : list record) (origin : bytes) : Prop :=
  Forall record_wf rs ∧ Forall (λ r, checkRecord wide r origin = Ok tt) rs.

Lemma read_records_post n r origin : reader_ok r →
  post (read_records wide n r origin) (read_ok (λ rs, length rs = n ∧ records_ok rs origin) r).
Proof.
  revert r. induction n as [|n IH]; intros r Hr; [done|]. cbn [read_records].
  post_step read_record_post. intros [rec r1] (? & ? & ? & ?); simpl in *.
  post_step IH. intros [recs r2] (? & ? & ? & ? & ?); simpl in *.
  split; [done|]. split; [simpl; congruence|]. split; [simpl; lia|]. split; by constructor.
Qed.

(** What a decoded image or delta satisfies. *)
Definition decoded_ok (d : decoded) : Prop :=
  match d with
  | DFull img =>
      Forall is_byte (img_Origin img) ∧ checkOrigin (img_Origin img) = Ok tt ∧
      is_u32 (img_Serial img) ∧ records_ok (img_Records img) (img_Origin img) ∧
      checkFullSOA wide (img_Records img) (img_Origin img) (img_Serial img) = Ok tt
  | DDelta d =>
      Forall is_byte (dl_Origin d) ∧ checkOrigin (dl_Origin d) = Ok tt ∧
      is_u32 (FromSerial d) ∧ is_u32 (ToSerial d) ∧
      records_ok (Deleted d) (dl_Origin d) ∧ records_ok (Added d) (dl_Origin d) ∧
      ∃ a del b add, Deleted d = a :: del ∧ Added d = b :: add ∧
        checkSOA wide a (dl_Origin d) (FromSerial d) = Ok tt ∧
        checkSOA wide b (dl_Origin d) (ToSerial d) = Ok tt
  end.

Lemma records_ok_rdata rs origin :
  records_ok rs origin → Forall (λ r, Forall is_byte (RData r)) rs.
Proof. intros [Hl _]. eapply Forall_impl; [exact Hl|]. by intros ? (_ & _ & _ & _ & ?). Qed.

Lemma decodeBody_post raw kind origin serial from ca cb r :
  reader_ok r → Forall is_byte origin → checkOrigin origin = Ok tt → is_u32 serial → is_u32 from →
  post (decodeBody wide raw kind origin serial from ca cb r) decoded_ok.
Proof.
  intros Hr Hb Ho Hs Hf. unfold decodeBody.
  post_step read_records_post. intros [a r1] (? & ? & ? & Ha); simpl in *.
  post_step read_records_post. intros [b r2] (? & ? & ? & Hb'); simpl in *.
  apply post_guard; intros ?. pose proof (records_ok_rdata _ _ Ha) as Ra.
  pose proof (records_ok_rdata _ _ Hb') as Rb. destruct (kind =? KindFull).
  - eapply post_bind; [by apply returns_post, checkFullSOA_returns|]. by intros [] ?.
  - destruct a as [|a0 a]; [done|]. destruct b as [|b0 b]; [done|].
    inversion_clear Ra. inversion_clear Rb.
    eapply post_bind; [by apply returns_post, checkSOA_returns|]. intros [] ?.
    eapply post_bind; [by apply returns_post, checkSOA_returns|]. intros [] ?.
    simpl. eauto 20.
Qed.

Lemma hdr_words h k : Forall is_byte h → 4 + Z.of_nat k ≤ len h →
  ∃ v, get32 (drop k h) = Some v ∧ is_u32 v.
Proof.
  intros Hb Hl. destruct (get32_len (drop k h)) as [v Hv].
  { unfold len in *. rewrite length_drop. lia. }
  exists v. split; [done|]. eapply get32_bound; [|done]. by apply Forall_drop.
Qed.

Lemma Decode_post raw : Forall is_byte raw → post (Decode wide raw) decoded_ok.
Proof.
  intros Hraw. unfold Decode. cbv zeta.
  assert (reader_ok (mkReader raw 0)) as H0 by (split; simpl; [done|len_lia]).
  post_step take_n_post. intros [m r1] (? & ? & ? & ?); simpl in *.
  post_step read_u8_post. intros [kind r2] (? & ? & ?); simpl in *.
  post_step read_u8_post. intros [rsv r3] (? & ? & ?); simpl in *.
  post_step read_u8_post. intros [ol r4] (? & ? & ?); simpl in *.
  post_step take_n_post. intros [origin r5] (? & ? & ? & ?); simpl in *.
  eapply post_bind; [by apply returns_post, checkOrigin_returns|]. intros [] ?.
  post_step take_n_post. intros [hdr r6] (? & ? & Hh & Hl); simpl in *. unfold headerTail in Hl.
  destruct (hdr_words hdr 0 Hh) as (serial & E0 & Hs); [lia|]. rewrite drop_0 in E0.
  destruct (hdr_words hdr 4 Hh) as (from & E4 & Hf); [lia|].
  destruct (hdr_words hdr 8 Hh) as (ca & E8 & _); [lia|].
  destruct (hdr_words hdr 12 Hh) as (cb & E12 & _); [lia|].
  rewrite E0, E4, E8, E12. cbn [of_idx mbind res_bind]. by apply decodeBody_post.
Qed.
End totality.
