(* ===== verification/NzfTheorems.v ===== *)
(** * NZF: what the zone format promises

    The theorems on mgmt/internal/nzf: round trips of [EncodeFull] and [EncodeDelta] through
    [Decode], totality of [Decode] on arbitrary octets, the contract of decoded zones, and the
    RFC 4034 order of the canonical keys. *)

From S2P Require Import Prelude.
From S2P Require Import GoText.
From S2P Require Import NzfNames.
From S2P Require Import NzfFormat.

(** The ranges of the Go types of an image and a delta. *)
Definition image_wf (img : Image) : Prop :=
  Forall is_byte (img_Origin img) ∧ is_u32 (img_Serial img) ∧ Forall record_wf (img_Records img).
Definition delta_wf (d : Delta) : Prop :=
  Forall is_byte (dl_Origin d) ∧ is_u32 (FromSerial d) ∧ is_u32 (ToSerial d) ∧
  Forall record_wf (Deleted d) ∧ Forall record_wf (Added d).

#[export] Instance record_wf_dec r : Decision (record_wf r).
Proof. unfold record_wf. apply _. Defined.
#[export] Instance image_wf_dec img : Decision (image_wf img).
Proof. unfold image_wf. apply _. Defined.
#[export] Instance delta_wf_dec d : Decision (delta_wf d).
Proof. unfold delta_wf. apply _. Defined.
#[export] Instance name_ok_dec ls : Decision (name_ok ls).
Proof. unfold name_ok, label_ok. apply _. Defined.

(** ** Reading an encoded body back *)

Lemma decodeBody_at wide h kind origin serial from a b :
  Forall record_wf a → Forall record_wf b →
  Forall (λ r, checkRecord wide r origin = Ok tt) a →
  Forall (λ r, checkRecord wide r origin = Ok tt) b →
  (kind = KindFull → from = 0 ∧ b = []) →
  let body := concat (map appendRecord a) ++ concat (map appendRecord b) in
  decodeBody wide (h ++ body) kind origin serial from (len a) (len b) (at_ h body) =
  if kind =? KindFull then
    checkFullSOA wide a origin serial;; Ok (DFull (mkImage origin serial a))
  else match a, b with
    | a0 :: _, b0 :: _ =>
        checkSOA wide a0 origin from;; checkSOA wide b0 origin serial;;
        Ok (DDelta (mkDelta origin from serial a b))
    | _, _ => Err DeltaWithoutSOA
    end.
Proof.
  intros Hwa Hwb Hca Hcb Hfull body. unfold decodeBody.
  pose proof (len_appendRecords wide a origin Hwa Hca) as La.
  pose proof (len_appendRecords wide b origin Hwb Hcb) as Lb.
  change (rd_off (at_ h body)) with (len h).
  replace ((len (h ++ body) - len h) `div` minRecord <? len a + len b) with false; cycle 1.
  { symmetry. apply Z.ltb_ge, Z.div_le_lower_bound; unfold minRecord, body in *; len_lia. }
  replace ((kind =? KindFull) && _) with false; cycle 1.
  { destruct (Z.eqb_spec kind KindFull) as [E|]; [|done]. by destruct (Hfull E) as [-> ->]. }
  unfold body. rewrite !to_nat_len, read_records_at by done. cbn [mbind res_bind].
  pose proof (read_records_at wide (h ++ concat (map appendRecord a)) b [] origin Hwb Hcb) as E.
  rewrite app_nil_r in E. rewrite E. cbn [mbind res_bind].
  unfold at_ at 1. cbn [rd_off]. rewrite <- app_assoc, Z.eqb_refl. done.
Qed.

Lemma sort_tail_perm rs : sort_tail rs ≡ₚ rs.
Proof. destruct rs; simpl; [done|]. by rewrite SortRecords_perm. Qed.

Lemma Forall_perm_iff {A} (P : A → Prop) l k : l ≡ₚ k → Forall P l → Forall P k.
Proof. by intros ->. Qed.

Section round_trip.
Context (wide : Z → Z).

Lemma Decode_full img raw :
  image_wf img → len (img_Records img) < 2 ^ 32 →
  EncodeFull wide img = Ok raw →
  Decode wide raw = Ok (DFull (mkImage (map ascii_lower (img_Origin img)) (img_Serial img)
                                       (SortRecords (img_Records img)))).
Proof.
  intros (Hb & Hs & Hwf) Hn. unfold EncodeFull.
  intros ([] & Ho & ([] & Hc%checkRecords_Ok & ([] & Hsoa & (h & Hh & [= <-])%bind_Ok)%bind_Ok)%bind_Ok)%bind_Ok.
  set (rs := SortRecords (img_Records img)) in *.
  assert (img_Records img ≡ₚ rs) as Hperm by (unfold rs; by rewrite SortRecords_perm).
  destruct (checkOrigin_lower (img_Origin img) Hb Ho) as (_ & Ho' & _).
  rewrite appendHeader_Ok in Hh; [|done..|unfold is_u32, rs; rewrite len_SortRecords; len_lia|done].
  injection Hh as <-. unfold appendRecords.
  pose proof (decodeBody_at wide (header KindFull (map ascii_lower (img_Origin img)) (img_Serial img)
    0 (len rs) 0) KindFull (map ascii_lower (img_Origin img)) (img_Serial img) 0 rs []) as E.
  cbv zeta in E. cbn [map concat] in E. rewrite app_nil_r in E.
  rewrite Decode_header; [|by left|by apply lower_bytes|done|done|done| |done];
    [|unfold is_u32, rs; rewrite len_SortRecords; len_lia].
  change (len []) with 0 in E. rewrite E; clear E; [|by eapply Forall_perm_iff|done| |done|done];
    [|by eapply Forall_perm_iff; [|eapply Forall_checkRecord_lower]].
  apply checkFullSOA_lower in Hsoa; [|done..].
  apply (checkFullSOA_perm wide _ rs) in Hsoa; [|done]. simpl. by rewrite Hsoa.
Qed.

(** A zone [EncodeFull] accepts comes back from [Decode] unchanged, except that the origin is
    lowercased and the records are in canonical order: nothing is lost, reordered within equal
    keys, or reinterpreted.  The record count must fit the header's 32-bit field. *)
Theorem Decode_EncodeFull img raw :
  image_wf img → len (img_Records img) < 2 ^ 32 →
  EncodeFull wide img = Ok raw →
  Decode wide raw = Ok (DFull (mkImage (map ascii_lower (img_Origin img)) (img_Serial img)
                                       (SortRecords (img_Records img)))).
Proof. apply Decode_full. Qed.

Lemma Decode_delta d raw :
  delta_wf d → len (Deleted d) < 2 ^ 32 → len (Added d) < 2 ^ 32 →
  EncodeDelta wide d = Ok raw →
  Decode wide raw = Ok (DDelta (mkDelta (map ascii_lower (dl_Origin d)) (FromSerial d) (ToSerial d)
                                        (sort_tail (Deleted d)) (sort_tail (Added d)))).
Proof.
  destruct d as [origin from to dels adds]. unfold EncodeDelta, delta_wf. simpl.
  intros (Hb & Hf & Ht & Hwd & Hwa) Hnd Hna ([] & Ho & H)%bind_Ok.
  destruct dels as [|d0 dels]; [done|]. destruct adds as [|a0 adds]; [done|].
  apply bind_Ok in H as ([] & Hsd & ([] & Hsa & ([] & Hcd & ([] & Hca & (h & Hh & [= <-])%bind_Ok)
    %bind_Ok)%bind_Ok)%bind_Ok).
  rewrite checkRecords_Ok in Hca. apply (checkRecords_Ok wide (d0 :: dels)) in Hcd.
  pose proof (sort_tail_perm (d0 :: dels)) as Pd. pose proof (sort_tail_perm (a0 :: adds)) as Pa.
  cbn [sort_tail] in *. set (del := d0 :: SortRecords dels) in *.
  set (add := a0 :: SortRecords adds) in *.
  destruct (checkOrigin_lower origin Hb Ho) as (_ & Ho' & _).
  apply len_perm in Pd as Ld. apply len_perm in Pa as La. symmetry in Pd, Pa.
  assert (is_u32 (len del)) as Ud by (unfold is_u32; len_lia).
  assert (is_u32 (len add)) as Ua by (unfold is_u32; len_lia).
  rewrite appendHeader_Ok in Hh by done. injection Hh as <-. unfold appendRecords.
  rewrite <- app_assoc, Decode_header; [|by right|by apply lower_bytes|done..].
  rewrite decodeBody_at; [|by eapply Forall_perm_iff|by eapply Forall_perm_iff
    |by eapply Forall_perm_iff, Forall_checkRecord_lower
    |by eapply Forall_perm_iff, Forall_checkRecord_lower|done].
  unfold del, add. change (KindDelta =? KindFull) with false. cbv iota.
  apply Forall_cons in Hwd as [[Hd0 _] _], Hwa as [[Ha0 _] _]. rewrite !checkSOA_lower by done.
  by rewrite Hsd, Hsa.
Qed.

(** A delta [EncodeDelta] accepts comes back from [Decode] unchanged, except that the origin
    is lowercased and each list is in canonical order behind its SOA, which stays first. *)
Theorem Decode_EncodeDelta d raw :
  delta_wf d → len (Deleted d) < 2 ^ 32 → len (Added d) < 2 ^ 32 →
  EncodeDelta wide d = Ok raw →
  Decode wide raw = Ok (DDelta (mkDelta (map ascii_lower (dl_Origin d)) (FromSerial d) (ToSerial d)
                                        (sort_tail (Deleted d)) (sort_tail (Added d)))).
Proof. apply Decode_delta. Qed.

(** [Decode] returns on every octet string, however malformed: it never indexes or slices out
    of range and its loops end. *)
Theorem Decode_total raw : Forall is_byte raw → returns (Decode wide raw).
Proof. intros H. eapply post_returns, Decode_post, H. Qed.

(** Whatever [Decode] accepts satisfies the contract [EncodeFull] and [EncodeDelta] check: a
    decoded image or delta can always be encoded again. *)
Theorem Decode_encodable raw x :
  Forall is_byte raw → Decode wide raw = Ok x →
  match x with
  | DFull img => ∃ raw', EncodeFull wide img = Ok raw'
  | DDelta d => ∃ raw', EncodeDelta wide d = Ok raw'
  end.
Proof.
  intros Hraw Hx. pose proof (post_Ok _ _ _ (Decode_post wide raw Hraw) Hx) as H.
  destruct x as [img|d]; cbn [decoded_ok] in H.
  - destruct H as (Hb & Ho & Hs & [Hwf Hck%checkRecords_Ok] & Hsoa).
    destruct (checkOrigin_lower _ Hb Ho) as (Hl & _). unfold EncodeFull, appendHeader.
    rewrite Ho, Hck, Hsoa, Hl. simpl. eauto.
  - destruct H as (Hb & Ho & Hf & Ht & [Hwd Hcd%checkRecords_Ok] & [Hwa Hca%checkRecords_Ok]
      & a & del & b & add & Ea & Eb & Ha & Hbb).
    destruct (checkOrigin_lower _ Hb Ho) as (Hl & _). unfold EncodeDelta, appendHeader.
    rewrite Ho, Ea, Eb in *. cbn [mbind res_bind]. rewrite Ha, Hbb. cbn [mbind res_bind].
    rewrite Hcd, Hca, Hl. simpl. eauto.
Qed.
End round_trip.

(** ** Names *)

(** [CanonicalKey] turns the RFC 4034 section 6.1 order of names into the order of octet
    strings: comparing two keys gives what comparing the names label by label from the root, with
    their ASCII letters lowercased, gives. *)
Theorem CanonicalKey_order a b :
  name_ok a → name_ok b → Forall (Forall is_byte) a → Forall (Forall is_byte) b →
  bytes_compare (CanonicalKey (wire_name a)) (CanonicalKey (wire_name b)) =
  canonical_compare (rev a) (rev b).
Proof.
  intros Ha Hb Ba Bb.
  pose proof (CanonicalKey_wire a [] Ha) as Ea. pose proof (CanonicalKey_wire b [] Hb) as Eb.
  rewrite app_nil_r in Ea, Eb. rewrite Ea, Eb. apply concat_key_compare; by apply Forall_rev.
Qed.

(** [SortRecords] sorts: its result is a permutation of the records in which no record comes
    before one with a smaller (canonical owner, type, RDATA) key, and records with equal keys keep
    their order. *)
Theorem SortRecords_correct rs :
  SortRecords rs ≡ₚ rs ∧ StronglySorted record_before (SortRecords rs) ∧
  ∀ r, filter (λ q, sort_key (keyed q) = sort_key (keyed r)) (SortRecords rs) =
       filter (λ q, sort_key (keyed q) = sort_key (keyed r)) rs.
Proof.
  split; [apply SortRecords_perm|]. split; [apply SortRecords_sorted|].
  intros r. apply SortRecords_stable.
Qed.

Lemma label_ok_lower ls : Forall label_ok ls → Forall label_ok (map (map ascii_lower) ls).
Proof. induction 1; simpl; constructor; [|done]. unfold label_ok. by rewrite len_map. Qed.
Lemma wire_name_ascii ls :
  Forall label_ok ls → Forall (Forall (λ b, 0 ≤ b < 128)) ls →
  Forall (λ b, 0 ≤ b < RuneSelf) (wire_name ls).
Proof.
  intros Hls Als. unfold RuneSelf. induction Hls as [|l ls [Hl1 Hl2] Hls IH].
  - repeat constructor; lia.
  - apply Forall_cons in Als as [Al Als]. rewrite wire_name_cons.
    constructor; [lia|]. apply Forall_app. auto.
Qed.

(** On names whose octets are all ASCII, [within] is exactly the DNS relation: the owner's
    labels end with the origin's, compared without regard to ASCII case. *)
Theorem within_ascii wide ls ks :
  name_ok ls → name_ok ks →
  Forall (Forall (λ b, 0 ≤ b < 128)) ls → Forall (Forall (λ b, 0 ≤ b < 128)) ks →
  ∃ r, within wide (wire_name ls) (wire_name ks) = Ok r ∧
  (r = true ↔ ∃ p q, ls = p ++ q ∧ map (map ascii_lower) q = map (map ascii_lower) ks).
Proof.
  intros [Hls _] [Hks _] Als Aks. destruct (within_spec wide ls (wire_name ks) Hls) as (r & Hr & Hspec).
  exists r. split; [done|]. rewrite Hspec.
  assert (∀ q, Forall label_ok q → Forall (Forall (λ b, 0 ≤ b < 128)) q →
    EqualFold wide (wire_name q) (wire_name ks) = true ↔
    map (map ascii_lower) q = map (map ascii_lower) ks) as Hfold.
  { intros q Hq Aq. rewrite EqualFold_ascii, !map_lower_wire_name by auto using wire_name_ascii.
    split; [|by intros ->]. intros E. apply wire_name_inj in E; auto using label_ok_lower. }
  split.
  - intros (p & q & -> & _ & E). apply Forall_app in Hls as [_ Hq], Als as [_ Aq].
    exists p, q. split; [done|]. by apply Hfold.
  - intros (p & q & -> & E). apply Forall_app in Hls as [_ Hq], Als as [_ Aq].
    exists p, q. split; [done|]. split; [|by apply Hfold].
    rewrite <- (len_map ascii_lower (wire_name q)), <- (len_map ascii_lower (wire_name ks)).
    by rewrite !map_lower_wire_name, E.
Qed.

(** ** A concrete zone

    example. at serial 1: the SOA and the address of www.example. *)
Definition ex_origin : bytes := [7; 101; 120; 97; 109; 112; 108; 101; 0].
Definition ex_www : bytes := [3; 119; 119; 119] ++ ex_origin.
Definition ex_soa (serial : Z) : record :=
  mkRecord ex_origin 6 1 3600
    (ex_www ++ ex_www ++ put32 serial ++ put32 7200 ++ put32 900 ++ put32 86400 ++ put32 300).
Definition ex_a (host : Z) : record := mkRecord ex_www 1 1 300 [192; 0; 2; host].
Definition ex_image : Image := mkImage ex_origin 1 [ex_a 1; ex_soa 1].
Definition ex_delta : Delta := mkDelta ex_origin 1 2 [ex_soa 1; ex_a 1] [ex_soa 2; ex_a 7].


Lemma Decode_EncodeFull_witness :
  ∃ raw, EncodeFull (λ x, x) ex_image = Ok raw ∧
    Decode (λ x, x) raw = Ok (DFull (mkImage (map ascii_lower ex_origin) 1 (SortRecords [ex_a 1; ex_soa 1]))).
Proof.
  eexists. split; [vm_compute; reflexivity|].
  apply (Decode_EncodeFull (λ x, x) ex_image); [by_compute|by_compute|vm_compute; reflexivity].
Defined.

Lemma Decode_EncodeDelta_witness :
  ∃ raw, EncodeDelta (λ x, x) ex_delta = Ok raw ∧
    Decode (λ x, x) raw =
      Ok (DDelta (mkDelta (map ascii_lower ex_origin) 1 2
        (sort_tail [ex_soa 1; ex_a 1]) (sort_tail [ex_soa 2; ex_a 7]))).
Proof.
  eexists. split; [vm_compute; reflexivity|].
  apply (Decode_EncodeDelta (λ x, x) ex_delta);
    [by_compute|by_compute|by_compute|vm_compute; reflexivity].
Defined.

Lemma Decode_total_witness : returns (Decode (λ x, x) (magic ++ [1; 0; 255; 3])).
Proof. apply (Decode_total (λ x, x)). by_compute. Defined.

Definition ex_raw : bytes :=
  Eval vm_compute in match EncodeFull (λ x, x) ex_image with Ok raw => raw | _ => [] end.

Lemma Decode_encodable_witness :
  ∃ raw', EncodeFull (λ x, x) (mkImage ex_origin 1 [ex_soa 1; ex_a 1]) = Ok raw'.
Proof.
  pose proof (Decode_encodable (λ x, x) ex_raw (DFull (mkImage ex_origin 1 [ex_soa 1; ex_a 1]))) as H.
  apply H; [by_compute|]. vm_compute. reflexivity.
Defined.

Lemma CanonicalKey_order_witness :
  bytes_compare (CanonicalKey (wire_name [[97]; [122; 46]])) (CanonicalKey (wire_name [[90]; [65]])) =
  canonical_compare (rev [[97]; [122; 46]]) (rev [[90]; [65]]).
Proof. apply CanonicalKey_order; by_compute. Defined.

Lemma within_ascii_witness :
  ∃ r, within (λ x, x) (wire_name [[119]; [88]]) (wire_name [[120]]) = Ok r ∧
  (r = true ↔ ∃ p q, [[119]; [88]] = p ++ q ∧ map (map ascii_lower) q = map (map ascii_lower) [[120]]).
Proof. apply (within_ascii (λ x, x)); by_compute. Defined.

(** On names with octets beyond ASCII [within] is wider than the DNS relation, because
    bytes.EqualFold decodes the wire name as UTF-8 and every invalid octet as the same replacement
    rune: [EncodeFull] accepts a zone for the origin \255 whose SOA and records are all owned by the
    different name \254. *)
Theorem EncodeFull_foreign_origin wide :
  ∃ img raw, image_wf img ∧ EncodeFull wide img = Ok raw ∧
    Forall (λ r, map ascii_lower (Owner r) ≠ map ascii_lower (img_Origin img)) (img_Records img).
Proof.
  set (own := [1; 254; 0]).
  exists (mkImage [1; 255; 0] 1 [mkRecord own 6 1 60
    ([0; 0] ++ put32 1 ++ put32 1 ++ put32 1 ++ put32 1 ++ put32 1)]).
  eexists. split; [by_compute|]. split; [vm_compute; reflexivity|]. by_compute.
Qed.
