(* ===== verification/Effects.v ===== *)
(** * Time and effects

    Go's time values, and the effects the stores share. *)

From Stdlib Require Import SpecFloat.
From S2P Require Import Prelude.

(** ** Go time and floating point

    The parts of the Go language and of package time the components use: instants are nanoseconds,
    durations signed 64-bit nanoseconds, and float64 is IEEE 754 binary64 as the Standard Library's
    [spec_float] computes it. *)

Definition min_duration : Z := - 2 ^ 63.
Definition max_duration : Z := 2 ^ 63 - 1.
(** [t.Sub(u)] saturates. *)
Definition time_Sub (t u : Z) : Z := Z.max min_duration (Z.min max_duration (t - u)).
(** [time.Duration(n) * time.Second] wraps around. *)
Definition seconds (n : Z) : Z := i64 (n * 1000000000).

Definition float64 : Type := spec_float.
Definition f64_of_Z (n : Z) : float64 := binary_normalize 53 1024 n 0 false.
Definition f64_mul : float64 → float64 → float64 := SFmul 53 1024.
Definition f64_div : float64 → float64 → float64 := SFdiv 53 1024.
Definition f64_add : float64 → float64 → float64 := SFadd 53 1024.
Definition f64_sub : float64 → float64 → float64 := SFsub 53 1024.
Definition f64_lt (a b : float64) : bool := SFltb a b.
Definition f64_le (a b : float64) : bool := SFleb a b.

(** [int(math.Ceil(x))] of a finite [x]; the conversion of other values is not defined by Go, and is
    the value amd64 gives. *)
Definition ceil_int (x : float64) : Z :=
  match x with
  | S754_zero _ => 0
  | S754_finite s m e =>
      let v := if s then - Z.pos m else Z.pos m in
      if 0 <=? e then i64 (v * 2 ^ e) else - ((- v) `div` 2 ^ (- e))
  | _ => - 2 ^ 63
  end.

Example ceil_int_ex : ceil_int (f64_div (f64_mul (f64_of_Z 7) (f64_of_Z 33)) (f64_of_Z 100)) = 3.
Proof. reflexivity. Qed.

Lemma time_Sub_small t u : min_duration ≤ t - u ≤ max_duration → time_Sub t u = t - u.
Proof. unfold time_Sub, min_duration, max_duration. lia. Qed.
Lemma seconds_small n : 0 ≤ n ≤ 9000000000 → seconds n = n * 1000000000.
Proof. intros. unfold seconds, i64. rewrite Z.mod_small; lia. Qed.

(** The zero time: January 1 of year 1. *)
Definition zero_time : Z := - 62135596800 * 1000000000.
Definition IsZero (t : Z) : bool := t =? zero_time.
Definition After (t u : Z) : bool := u <? t.
Definition Before (t u : Z) : bool := t <? u.

(** ** Programs with external calls

    A Go routine that talks to the outside (a clock, a server, a kernel gate) is a tree of calls:
    each call names its request and continues with whatever the outside answers.  The tree is
    executable, and it is what concurrent runs interleave, one call at a time.  [wp] is the
    weakest-precondition reading of such a tree over the history of the calls made so far. *)

Section prog.
Context {Ev : Type} {Ans : Ev → Type}.

Inductive prog (A : Type) : Type :=
| Ret (a : A)
| Call (e : Ev) (k : Ans e → prog A).
Arguments Ret {A} a.
Arguments Call {A} e k.

#[global] Instance prog_ret : MRet prog := λ _ a, Ret a.
#[global] Instance prog_bind : MBind prog := λ A B f, fix go (m : prog A) : prog B :=
  match m with Ret a => f a | Call e k => Call e (λ x, go (k x)) end.

Definition call (e : Ev) : prog (Ans e) := Call e Ret.

(** A call with its answer and the real time it took effect. *)
Record entry := mkEntry { at_time : Z; req : Ev; ans : Ans req }.
Abbreviation history := (list entry).

(** [Q] holds of whatever the program returns, whatever the outside answers. *)
Fixpoint every_run {A} (p : prog A) (Q : A → Prop) : Prop :=
  match p with Ret a => Q a | Call e k => ∀ x, every_run (k x) Q end.

Lemma every_run_mono {A} (p : prog A) (Q R : A → Prop) :
  every_run p Q → (∀ a, Q a → R a) → every_run p R.
Proof. intros Hp HQ. induction p as [a|e k IH]; simpl in *; auto. Qed.
Lemma every_run_bind {A B} (p : prog A) (f : A → prog B) Q :
  every_run p (λ a, every_run (f a) Q) → every_run (p ≫= f) Q.
Proof. induction p as [a|e k IH]; simpl; [done|]. intros H x. by apply IH. Qed.

Section wp.
(** [valid h x]: the outside may add the entry [x] to the history [h].
    [pre h e]: the program may make the call [e] after the history [h]. *)
Context (valid : history → entry → Prop) (pre : history → Ev → Prop).

Fixpoint wp {A} (p : prog A) (h : history) (Q : A → history → Prop) : Prop :=
  match p with
  | Ret a => Q a h
  | Call e k => pre h e ∧ ∀ T x, valid h (mkEntry T e x) → wp (k x) (h ++ [mkEntry T e x]) Q
  end.

Lemma wp_mono {A} (p : prog A) h (Q R : A → history → Prop) :
  wp p h Q → (∀ a h', Q a h' → R a h') → wp p h R.
Proof.
  intros Hp HQ. revert h Hp. induction p as [a|e k IH]; intros h; simpl; [auto|].
  intros [Hpre Hk]. split; [done|]. eauto.
Qed.
Lemma wp_bind {A B} (p : prog A) (f : A → prog B) h Q :
  wp p h (λ a h', wp (f a) h' Q) → wp (p ≫= f) h Q.
Proof.
  revert h. induction p as [a|e k IH]; intros h; [done|].
  simpl. intros [Hpre Hk]. split; [done|]. intros T x Hx. by apply IH, Hk.
Qed.
Lemma wp_call e h (Q : Ans e → history → Prop) :
  pre h e → (∀ T x, valid h (mkEntry T e x) → Q x (h ++ [mkEntry T e x])) → wp (call e) h Q.
Proof. intros. by split. Qed.
End wp.
End prog.
Arguments prog {Ev} Ans A.
Arguments Ret {Ev Ans A} a.
Arguments Call {Ev Ans A} e k.
Arguments entry {Ev} Ans.
Arguments mkEntry {Ev Ans} at_time req ans.
