(* ===== verification/LeaseController.v ===== *)
(** * The lease controller

    deploy/failover/lease/controller.go: a controller holds the failover address of a node by
    renewing a record in a compare-and-swap authority (a Kubernetes Lease) and by arming the node's
    kernel gate with tickets that expire on their own.  [Step] is one observation and at most one
    compare-and-swap; it is a program over the calls the controller makes of its clock, its
    authority and its gate.

    The [raw] field of a Go [Record] is the server document the HTTPS authority keeps for its next
    PUT; the controller only copies it, and it is left to that authority. *)

From S2P Require Import Prelude.
From S2P Require Import GoText.
From S2P Require Import Effects.

Definition second : Z := 1000000000.
Definition minute : Z := 60 * second.
Definition MaxInt64 : Z := 2 ^ 63 - 1.
Definition MaxUint64 : Z := 2 ^ 64 - 1.

Definition MaxKernelWindow : Z := 5 * second.
Definition Protocol : bytes := str "nexora-kernel-ticket-v1".

Record Ticket := mkTicket { Captured : Z; Deadline : Z }.
Record Record_ := mkRecord_ {
  UID : bytes; RV : bytes; Holder : bytes; Nonce : bytes; Proto : bytes; Epoch : Z }.
Definition zero_record : Record_ := mkRecord_ [] [] [] [] [] 0.

#[export] Instance Ticket_eq_dec : EqDecision Ticket.
Proof. solve_decision. Defined.
#[export] Instance Record__eq_dec : EqDecision Record_.
Proof. solve_decision. Defined.

Definition beq (a b : bytes) : bool := bool_decide (a = b).

Definition strong (s : bytes) : bool :=
  match hex_DecodeString s with
  | Some b => (len b =? 32) && beq (hex_EncodeToString b) s
  | None => false
  end.
Definition valid (r : Record_) : bool :=
  beq (Proto r) Protocol && negb (beq (UID r) []) && (len (UID r) <=? 256) &&
  negb (beq (RV r) []) && (len (RV r) <=? 256) &&
  (beq (Holder r) [] || strong (Holder r)) && strong (Nonce r).

Record Config := mkConfig { cfg_Holder : bytes; Margin : Z; IOTimeout : Z }.
Record Result := mkResult { CASAcknowledged : bool; TicketArmed : bool; res_Ticket : Ticket }.
Definition zero_result : Result := mkResult false false (mkTicket 0 0).

Record Controller := mkController {
  cfg : Config;
  last : Z; since : Z;
  pinned : bytes; stableRV : bytes;
  own : Record_; observed : Record_;
  ack : bool; started : bool; terminal : bool }.

Definition set_last v c := mkController (cfg c) v (since c) (pinned c) (stableRV c) (own c) (observed c) (ack c) (started c) (terminal c).
Definition set_pinned v c := mkController (cfg c) (last c) (since c) v (stableRV c) (own c) (observed c) (ack c) (started c) (terminal c).
Definition set_stable rv n c := mkController (cfg c) (last c) n (pinned c) rv (own c) (observed c) (ack c) (started c) (terminal c).
Definition set_own v c := mkController (cfg c) (last c) (since c) (pinned c) (stableRV c) v (observed c) (ack c) (started c) (terminal c).
Definition set_observed v c := mkController (cfg c) (last c) (since c) (pinned c) (stableRV c) (own c) v (ack c) (started c) (terminal c).
Definition set_ack v c := mkController (cfg c) (last c) (since c) (pinned c) (stableRV c) (own c) (observed c) v (started c) (terminal c).
Definition set_started v c := mkController (cfg c) (last c) (since c) (pinned c) (stableRV c) (own c) (observed c) (ack c) v (terminal c).
Definition set_terminal v c := mkController (cfg c) (last c) (since c) (pinned c) (stableRV c) (own c) (observed c) (ack c) (started c) v.

(** The errors, by their messages. *)
Inductive step_err : Type :=
| ETerminal | EDenyFailed | EClock | EGetFailed | EGetDeadline | EInvalidRecord | EUIDReplaced
| EChangedWithoutRV | EEpochOverflow | ENonceFailed | ENonceCollision | ECaptureFailed
| ECaptureDeadline | EBadTicket | ECASFailed | EUnverifiedCAS | ECASLate | ECASDeadline
| EArmFailed | EArmDeadline | EArmLate | EConfig | EDriverPairing.

#[export] Instance step_err_eq_dec : EqDecision step_err.
Proof. solve_decision. Defined.

(** ** The calls

    [Gone] is [errors.Is(err, ErrGone)]; an error of the gate may mean the operation took effect.
    [COpErr] asks whether the operation's context is done. *)
Inductive ioerr : Type := Failed | Gone.
Inductive call_ : Type :=
| CNow | CNonce | CGet | CCAS (old next : Record_) | CCapture | CArm (t : Ticket) | CDeny | COpErr.
Definition answer (e : call_) : Type :=
  match e with
  | CNow => Z
  | CNonce => option bytes
  | CGet | CCAS _ _ => Record_ + ioerr
  | CCapture => option Ticket
  | CArm _ | CDeny | COpErr => bool
  end.

(** ** The state and early-return monad of the methods *)
Definition outcome : Type := Result + list step_err.
Definition ctl (A : Type) : Type := Controller → prog answer (Controller * (A + outcome)).
#[export] Instance ctl_ret : MRet ctl := λ _ a c, Ret (c, inl a).
#[export] Instance ctl_bind : MBind ctl := λ _ _ f m c,
  m c ≫= λ '(c', r), match r with inl a => f a c' | inr o => Ret (c', inr o) end.
Definition ask (e : call_) : ctl (answer e) := λ c, x ← call e; Ret (c, inl x).
Definition get : ctl Controller := λ c, Ret (c, inl c).
Definition modify (f : Controller → Controller) : ctl unit := λ c, Ret (f c, inl tt).
Definition exit {A} (o : outcome) : ctl A := λ c, Ret (c, inr o).
Definition when (b : bool) (m : ctl unit) : ctl unit := if b then m else mret tt.

Definition clock_Now : ctl Z := ask CNow.
Definition NewHolderID : ctl (option bytes) := ask CNonce.
Definition authority_Get : ctl (Record_ + ioerr) := ask CGet.
Definition authority_CAS (old next : Record_) : ctl (Record_ + ioerr) := ask (CCAS old next).
Definition gate_Capture : ctl (option Ticket) := ask CCapture.
Definition gate_Arm (t : Ticket) : ctl bool := ask (CArm t).
Definition gate_Deny : ctl bool := ask CDeny.
Definition op_Err : ctl bool := ask COpErr.

(** [New], for an authority and a clock that are given.  A [DriverGate] must not be nil, poisoned or
    already claimed and must be paired with the clock; it is then claimed. *)
Record driver_gate := mkDriverGate { d_nil : bool; d_paired : bool; d_poisoned : bool; d_claimed : bool }.
Definition New (g : option driver_gate) (k : Config)
    : (Controller + step_err) * option driver_gate :=
  if negb (strong (cfg_Holder k)) || (Margin k <=? 0) || (MaxInt64 - MaxKernelWindow <? Margin k) ||
     (IOTimeout k <=? 0) || (minute <? IOTimeout k)
  then (inr EConfig, g)
  else
    let c := mkController k 0 0 [] [] zero_record zero_record false false false in
    match g with
    | None => (inl c, g)
    | Some d =>
        if d_nil d || negb (d_paired d) || d_poisoned d || d_claimed d then (inr EDriverPairing, g)
        else (inl c, Some (mkDriverGate (d_nil d) (d_paired d) (d_poisoned d) true))
    end.

(** [now]; [None] is the error. *)
Definition now : ctl (option Z) :=
  n ← clock_Now;
  c ← get;
  if (n =? 0) || (n <? last c) then mret None
  else modify (set_last n);; mret (Some n).

(** [deny]: true is success. *)
Definition deny : ctl bool :=
  ok ← gate_Deny;
  if negb ok then modify (set_terminal true);; mret false
  else
    late ← op_Err;
    if (late : bool) then modify (set_terminal true);; mret false else mret true.

Definition fail {A} (err : step_err) (term : bool) : ctl A :=
  modify (λ c, set_terminal (terminal c || term) (set_stable [] 0 (set_ack false c)));;
  ok ← deny;
  exit (inr (if (ok : bool) then [err] else [err; EDenyFailed])).

Definition now_or_fail : ctl Z :=
  n ← now;
  match n with Some n => mret n | None => fail EClock true end.
Definition fail_if (b : bool) (err : step_err) (term : bool) : ctl unit :=
  if b then fail err term else mret tt.
Definition deny_or_return : ctl unit :=
  ok ← deny;
  if (ok : bool) then mret tt else exit (inr [EDenyFailed]).

(** ** Step *)

(** Up to the decision: what the GET returned, or an early return. *)
Definition step_observe : ctl (Record_ * Z) :=
  c ← get;
  (if terminal c then exit (inr [ETerminal]) else mret tt);;
  (if negb (started c) then modify (set_started true);; deny_or_return else mret tt);;
  now_or_fail;;
  r ← authority_Get;
  match r with
  | inr e => fail EGetFailed (match e with Gone => true | Failed => false end)
  | inl r =>
      late ← op_Err;
      fail_if late EGetDeadline false;;
      n ← now_or_fail;
      fail_if (negb (valid r)) EInvalidRecord false;;
      modify (λ c, if beq (pinned c) [] then set_pinned (UID r) c else c);;
      c ← get;
      fail_if (negb (beq (UID r) (pinned c))) EUIDReplaced true;;
      fail_if (beq (UID (observed c)) (UID r) && beq (RV (observed c)) (RV r) &&
               (negb (beq (Holder (observed c)) (Holder r)) ||
                negb (beq (Nonce (observed c)) (Nonce r)) ||
                negb (Epoch (observed c) =? Epoch r))) EChangedWithoutRV false;;
      modify (set_observed r);;
      mret (r, n)
  end.

(** A renewal goes on at once; anyone else waits out the longest window a ticket can have on an
    unchanged record. *)
Definition step_decide (r : Record_) (n : Z) : ctl unit :=
  c ← get;
  let renew := ack c && beq (UID r) (UID (own c)) && beq (RV r) (RV (own c)) &&
    beq (Holder r) (cfg_Holder (cfg c)) && beq (Nonce r) (Nonce (own c)) &&
    (Epoch r =? Epoch (own c)) in
  if renew then mret tt
  else
    modify (set_ack false);;
    if negb (beq (stableRV c) (RV r)) then
      modify (set_stable (RV r) n);;
      deny_or_return;;
      exit (inl zero_result)
    else if u64 (n - since c) <? u64 (MaxKernelWindow + Margin (cfg c))
    then exit (inl zero_result)
    else mret tt.

Definition ticket_bad (t : Ticket) (before after : Z) : bool :=
  (Captured t =? 0) || (Captured t <? before) || (after <? Captured t) ||
  (Deadline t <=? Captured t) || (MaxKernelWindow <? u64 (Deadline t - Captured t)) ||
  (Deadline t <=? after).

Definition step_capture (r : Record_) : ctl (bytes * Ticket) :=
  fail_if (Epoch r =? MaxUint64) EEpochOverflow false;;
  nonce ← NewHolderID;
  match nonce with
  | None => fail ENonceFailed false
  | Some nonce =>
      fail_if (beq nonce (Nonce r)) ENonceCollision false;;
      before ← now_or_fail;
      t ← gate_Capture;
      match t with
      | None => fail ECaptureFailed true
      | Some t =>
          late ← op_Err;
          fail_if late ECaptureDeadline true;;
          after ← now_or_fail;
          fail_if (ticket_bad t before after) EBadTicket true;;
          mret (nonce, t)
      end
  end.

Definition unverified (out r next : Record_) : bool :=
  negb (valid out) || negb (beq (UID out) (UID r)) || beq (RV out) (RV r) ||
  negb (beq (Holder out) (Holder next)) || negb (beq (Nonce out) (Nonce next)) ||
  negb (Epoch out =? Epoch next).

Definition step_commit (r : Record_) (nonce : bytes) (t : Ticket) : ctl Result :=
  c ← get;
  let next := mkRecord_ (UID r) (RV r) (cfg_Holder (cfg c)) nonce (Proto r) (u64 (Epoch r + 1)) in
  out ← authority_CAS r next;
  match out with
  | inr e => fail ECASFailed (match e with Gone => true | Failed => false end)
  | inl out =>
      n ← now_or_fail;
      fail_if (unverified out r next) EUnverifiedCAS false;;
      fail_if (Deadline t <=? n) ECASLate false;;
      late ← op_Err;
      fail_if late ECASDeadline false;;
      armed ← gate_Arm t;
      fail_if (negb armed) EArmFailed true;;
      late ← op_Err;
      fail_if late EArmDeadline true;;
      n ← now_or_fail;
      fail_if (Deadline t <=? n) EArmLate false;;
      modify (λ c, set_stable [] 0 (set_ack true (set_own out c)));;
      mret (mkResult true true t)
  end.

Definition step_body : ctl Result :=
  '(r, n) ← step_observe;
  step_decide r n;;
  '(nonce, t) ← step_capture r;
  step_commit r nonce t.

Definition Step (c : Controller) : prog answer (Controller * outcome) :=
  '(c, r) ← step_body c;
  Ret (c, match r with inl res => inl res | inr o => o end).
