(* ===== verification/LeaseSafety.v ===== *)
(** * Safety of the lease controller

    First, what one controller's calls are justified by: it asks for a compare-and-swap only to
    renew its own acknowledged record or after watching an unchanged record for the longest ticket
    window plus its margin, and it arms only a ticket captured before an acknowledged
    compare-and-swap.  Second, a system of controllers interleaved call by call against one
    authority: at no time can two nodes forward. *)

From S2P Require Import Prelude.
From S2P Require Import GoText.
From S2P Require Import Effects.
From S2P Require Import LeaseController.

Abbreviation hist := (list (entry answer)).
Abbreviation Now_at T n := (mkEntry (Ans := answer) T CNow n).
Abbreviation Get_at T r := (mkEntry (Ans := answer) T CGet (inl r)).
Abbreviation CAS_at T old next out := (mkEntry (Ans := answer) T (CCAS old next) (inl out)).

(** The answers of a clock and of a gate are 64-bit words. *)
Definition ans_ok (x : entry answer) : Prop :=
  match req x as e return answer e → Prop with
  | CNow => λ n, is_u64 n
  | CCapture => λ t, match t with Some t => is_u64 (Captured t) ∧ is_u64 (Deadline t) | None => True end
  | _ => λ _, True
  end (ans x).

(** The record with this version was acknowledged to us, or was read and then watched, unchanged,
    for the longest window and the margin. *)
Definition authorized (k : Config) (h : hist) (rv : bytes) : Prop :=
  (∃ T old next out, CAS_at T old next out ∈ h ∧ RV out = rv) ∨
  (∃ h1 Tg r h2 Ts s h3 Tn n h4,
     h = h1 ++ Get_at Tg r :: h2 ++ Now_at Ts s :: h3 ++ Now_at Tn n :: h4 ∧
     RV r = rv ∧ s ≠ 0 ∧ n ≠ 0 ∧ MaxKernelWindow + Margin k ≤ n - s).

(** The clock was read as [n], and the ticket lasts at most the window from then. *)
Definition ticket_after (h : hist) (t : Ticket) : Prop :=
  ∃ h1 Ta n h2, h = h1 ++ Now_at Ta n :: h2 ∧ n ≠ 0 ∧ Deadline t ≤ n + MaxKernelWindow.
Definition ticket_backed (h : hist) (t : Ticket) : Prop :=
  ∃ h1 Tc old next out h2, h = h1 ++ CAS_at Tc old next out :: h2 ∧ ticket_after h1 t.

Definition justified (k : Config) (h : hist) (e : call_) : Prop :=
  match e with
  | CCAS old next => authorized k h (RV old)
  | CArm t => ticket_backed h t
  | _ => True
  end.

(** The evidence behind the controller's memory. *)
Definition stable_ev (c : Controller) (h : hist) : Prop :=
  stableRV c ≠ [] → ∃ h1 Tg r h2 Ts h3,
    h = h1 ++ Get_at Tg r :: h2 ++ Now_at Ts (since c) :: h3 ∧ RV r = stableRV c ∧ since c ≠ 0.
Definition ack_ev (c : Controller) (h : hist) : Prop :=
  ack c = true → ∃ T old next, CAS_at T old next (own c) ∈ h.
Record Inv (k : Config) (c : Controller) (h : hist) : Prop := {
  inv_cfg : cfg c = k;
  inv_since : 0 ≤ since c ≤ last c;
  inv_last : is_u64 (last c);
  inv_stable : stable_ev c h;
  inv_ack : ack_ev c h;
}.

Lemma authorized_app k h h' rv : authorized k h rv → authorized k (h ++ h') rv.
Proof.
  intros [(T & old & next & out & Hin & E)|(h1&Tg&r&h2&Ts&s&h3&Tn&n&h4&->&H)]; [left|right].
  - exists T, old, next, out. split; [|done]. apply elem_of_app. by left.
  - exists h1, Tg, r, h2, Ts, s, h3, Tn, n, (h4 ++ h'). split; [by simplify_list_eq|done].
Qed.
Lemma ticket_after_app h h' t : ticket_after h t → ticket_after (h ++ h') t.
Proof.
  intros (h1 & Ta & n & h2 & -> & H). exists h1, Ta, n, (h2 ++ h'). by simplify_list_eq.
Qed.
Lemma ticket_backed_app h h' t : ticket_backed h t → ticket_backed (h ++ h') t.
Proof.
  intros (h1 & Tc & old & next & out & h2 & -> & H).
  exists h1, Tc, old, next, out, (h2 ++ h'). by simplify_list_eq.
Qed.
Lemma stable_ev_app c h h' : stable_ev c h → stable_ev c (h ++ h').
Proof.
  intros H Hne. destruct (H Hne) as (h1 & Tg & r & h2 & Ts & h3 & -> & E).
  exists h1, Tg, r, h2, Ts, (h3 ++ h'). split; [by simplify_list_eq|done].
Qed.
Lemma ack_ev_app c h h' : ack_ev c h → ack_ev c (h ++ h').
Proof.
  intros H Ha. destruct (H Ha) as (T & old & next & Hin). exists T, old, next.
  apply elem_of_app. by left.
Qed.
Lemma Inv_app k c h h' : Inv k c h → Inv k c (h ++ h').
Proof. intros []. split; auto using stable_ev_app, ack_ev_app. Qed.
#[export] Hint Resolve authorized_app ticket_after_app ticket_backed_app stable_ev_app ack_ev_app
  Inv_app : lease.

Lemma valid_RV r : valid r = true → RV r ≠ [].
Proof.
  unfold valid. rewrite !andb_true_iff. intros ((((_ & H) & _) & _) & _) E. by rewrite E in H.
Qed.

(** ** One controller *)
Section local.
Context (k : Config).
Hypothesis Hmargin : 0 < Margin k ≤ MaxInt64 - MaxKernelWindow.

(** [m] keeps the invariant and makes justified calls only; a value it returns satisfies [Q]. *)
Definition wpc {A} (m : ctl A) (c : Controller) (h : hist) (Q : A → Controller → hist → Prop) : Prop :=
  wp (λ _ x, ans_ok x) (justified k) (m c) h
    (λ '(c', r) h', Inv k c' h' ∧ match r with inl a => Q a c' h' | inr _ => True end).

Lemma wpc_bind {A B} (m : ctl A) (f : A → ctl B) c h Q :
  wpc m c h (λ a c' h', wpc (f a) c' h' Q) → wpc (m ≫= f) c h Q.
Proof.
  intros H. unfold wpc. apply wp_bind. eapply wp_mono; [exact H|].
  intros [c' [a|o]] h' [HI HQ]; simpl; [exact HQ|done].
Qed.
Lemma wpc_mono {A} (m : ctl A) c h (Q R : A → Controller → hist → Prop) :
  wpc m c h Q → (∀ a c' h', Inv k c' h' → Q a c' h' → R a c' h') → wpc m c h R.
Proof.
  intros H HQ. eapply wp_mono; [exact H|]. intros [c' [a|o]] h' [HI Ha]; eauto.
Qed.
Lemma wpc_ret {A} (a : A) c h Q : Inv k c h → Q a c h → wpc (mret a) c h Q.
Proof. done. Qed.
Lemma wpc_exit {A} o c h Q : Inv k c h → wpc (A := A) (exit o) c h Q.
Proof. done. Qed.
Lemma wpc_get c h Q : Inv k c h → Q c c h → wpc get c h Q.
Proof. done. Qed.
Lemma wpc_modify f c h Q : Inv k (f c) h → Q tt (f c) h → wpc (modify f) c h Q.
Proof. done. Qed.
Lemma wpc_ask e c h Q : Inv k c h → justified k h e →
  (∀ T x, ans_ok (mkEntry T e x) → Inv k c (h ++ [mkEntry T e x]) → Q x c (h ++ [mkEntry T e x])) →
  wpc (ask e) c h Q.
Proof. intros HI Hj HQ. split; [done|]. intros T x Hx. split; auto with lease. Qed.

(** Steps of a proof about a method: the next statement by its lemma. *)
Ltac wpc_bind_by H := apply wpc_bind; eapply wpc_mono; [eapply H; eauto|]; cbv beta.

Lemma Inv_terminal c h b : Inv k c h → Inv k (set_terminal b c) h.
Proof. by intros []; split. Qed.
Lemma Inv_started c h b : Inv k c h → Inv k (set_started b c) h.
Proof. by intros []; split. Qed.
Lemma Inv_pinned c h u : Inv k c h → Inv k (set_pinned u c) h.
Proof. by intros []; split. Qed.
Lemma Inv_observed c h r : Inv k c h → Inv k (set_observed r c) h.
Proof. by intros []; split. Qed.
Lemma Inv_no_ack c h : Inv k c h → Inv k (set_ack false c) h.
Proof. by intros []; split. Qed.
Lemma Inv_forget c h : Inv k c h → Inv k (set_stable [] 0 (set_ack false c)) h.
Proof. intros [? [??] ? ??]. split; [done|simpl; lia|done|by intros []|done]. Qed.

(** What a [deny] leaves: only the terminal mark may have changed. *)
Definition denied (c c' : Controller) (h h' : hist) : Prop :=
  (∃ b, c' = set_terminal b c) ∧ ∃ x, h' = h ++ x.

Lemma deny_wpc c h : Inv k c h →
  wpc deny c h (λ ok c' h', denied c c' h h').
Proof.
  intros HI. unfold deny. apply wpc_bind, wpc_ask; [done|done|]. intros T ok _ HI1.
  assert (∀ c, ∃ b, c = set_terminal b c) as Hid by (intros []; by eexists).
  destruct ok; simpl negb; cbv iota.
  - apply wpc_bind, wpc_ask; [done|done|]. intros T' late _ HI2. destruct late; cbv iota.
    + apply wpc_bind, wpc_modify; [by apply Inv_terminal|]. apply wpc_ret; [by apply Inv_terminal|].
      split; [eauto|]. eexists. by rewrite <- app_assoc.
    + apply wpc_ret; [done|]. split; [eauto|]. eexists. by rewrite <- app_assoc.
  - apply wpc_bind, wpc_modify; [by apply Inv_terminal|]. apply wpc_ret; [by apply Inv_terminal|].
    split; eauto.
Qed.

Lemma fail_wpc {A} err term c h Q : Inv k c h → wpc (fail (A := A) err term) c h Q.
Proof.
  intros HI. unfold fail. apply wpc_bind, wpc_modify; [by apply Inv_terminal, Inv_forget|].
  apply wpc_bind. eapply wpc_mono; [by apply deny_wpc, Inv_terminal, Inv_forget|].
  intros ok c' h' HI' _. by apply wpc_exit.
Qed.
Lemma fail_if_wpc b err term c h Q :
  Inv k c h → (b = false → Q tt c h) → wpc (fail_if b err term) c h Q.
Proof. intros HI HQ. destruct b; [by apply fail_wpc|]. by apply wpc_ret; [|apply HQ]. Qed.
Lemma deny_or_return_wpc c h : Inv k c h →
  wpc deny_or_return c h (λ _ c' h', denied c c' h h').
Proof.
  intros HI. unfold deny_or_return. apply wpc_bind. eapply wpc_mono; [by apply deny_wpc|].
  intros [] c' h' HI' Hd; [by apply wpc_ret|by apply wpc_exit].
Qed.

Lemma now_or_fail_wpc c h : Inv k c h →
  wpc now_or_fail c h (λ n c' h',
    c' = set_last n c ∧ n ≠ 0 ∧ last c ≤ n ∧ is_u64 n ∧ ∃ T, h' = h ++ [Now_at T n]).
Proof.
  intros HI. unfold now_or_fail. apply wpc_bind. unfold now.
  apply wpc_bind, wpc_ask; [done|done|]. intros T n Hn HI1. cbn in Hn.
  apply wpc_bind, wpc_get; [done|].
  destruct (Z.eqb_spec n 0); simpl orb; cbv iota; [by apply wpc_ret; [|apply fail_wpc]|].
  destruct (Z.ltb_spec n (last c)); [by apply wpc_ret; [|apply fail_wpc]|].
  assert (Inv k (set_last n c) (h ++ [Now_at T n])) as HI2.
  { destruct HI1 as [? [??] ? ??]. split; simpl; try done; try lia. }
  apply wpc_bind, wpc_modify; [done|]. apply wpc_ret; [done|]. apply wpc_ret; [done|]. eauto 10.
Qed.

(** After the observation: the record was read, then the clock, and what the controller remembers
    of an earlier observation was there before this one. *)
Definition observation (r : Record_) (n : Z) (c : Controller) (h : hist) : Prop :=
  valid r = true ∧ n ≠ 0 ∧ is_u64 n ∧ since c ≤ n ∧ last c = n ∧
  ∃ hb Tn, h = hb ++ [Now_at Tn n] ∧ stable_ev c hb ∧ ∃ h1 Tg h2, hb = h1 ++ Get_at Tg r :: h2.

Lemma step_observe_wpc c h : Inv k c h →
  wpc step_observe c h (λ '(r, n) c' h', observation r n c' h').
Proof.
  intros HI. unfold step_observe. apply wpc_bind, wpc_get; [done|].
  apply wpc_bind. destruct (terminal c); [by apply wpc_exit|]. apply wpc_ret; [done|].
  apply wpc_bind. eapply (wpc_mono _ _ _ (λ _ _ _, True)).
  { destruct (started c); [by apply wpc_ret|]. apply wpc_bind, wpc_modify; [by apply Inv_started|].
    eapply wpc_mono; [by apply deny_or_return_wpc, Inv_started|]. done. }
  clear c h HI. intros [] c h HI _. wpc_bind_by now_or_fail_wpc. intros n0 c1 g HI0 _.
  clear c h HI. rename c1 into c, g into h, HI0 into HI.
  apply wpc_bind, wpc_ask; [done|done|]. intros Tg [r|e] _ HI1; [|by apply fail_wpc].
  apply wpc_bind, wpc_ask; [done|done|]. intros To late _ HI2.
  apply wpc_bind, fail_if_wpc; [done|]. intros _.
  wpc_bind_by now_or_fail_wpc. intros n c' h' HI3 (-> & Hn & Hln & Hu & Tn & ->).
  apply wpc_bind, fail_if_wpc; [done|]. intros Hv%negb_false_iff.
  apply wpc_bind, wpc_modify.
  { destruct (beq (pinned _) []); [by apply Inv_pinned|done]. }
  set (c' := if beq (pinned (set_last n c)) [] then _ else _).
  assert (Inv k c' (((h ++ [Get_at Tg r]) ++ [mkEntry To COpErr late]) ++ [Now_at Tn n])) as HI4.
  { unfold c'. destruct (beq (pinned _) []); [by apply Inv_pinned|done]. }
  assert (since c' = since c ∧ stableRV c' = stableRV c ∧ last c' = n) as (Es & Er & El)
    by (unfold c'; by destruct (beq (pinned _) [])).
  apply wpc_bind, wpc_get; [done|]. apply wpc_bind, fail_if_wpc; [done|]. intros _.
  apply wpc_bind, fail_if_wpc; [done|]. intros _.
  apply wpc_bind, wpc_modify; [by apply Inv_observed|]. apply wpc_ret; [by apply Inv_observed|].
  pose proof (inv_since _ _ _ HI). split; [done|]. split; [done|]. split; [done|].
  split; [simpl; lia|]. split; [done|]. eexists _, Tn. split; [done|]. split.
  - unfold stable_ev. simpl. rewrite Es, Er. by apply stable_ev_app, stable_ev_app, HI.
  - exists h, Tg, [mkEntry To COpErr late]. by simplify_list_eq.
Qed.

Lemma step_decide_wpc r n c h : Inv k c h → observation r n c h →
  wpc (step_decide r n) c h (λ _ c' h', authorized k h' (RV r)).
Proof.
  intros HI (Hv & Hn & Hu & Hs & Hl & hb & Tn & Eh & Hst & h1 & Tg & h2 & Ehb).
  unfold step_decide. apply wpc_bind, wpc_get; [done|].
  destruct (ack c && _ && _ && _ && _ && _) eqn:Hrenew.
  - apply wpc_ret; [done|]. left. rewrite !andb_true_iff in Hrenew.
    destruct Hrenew as (((((Hack & _) & Hrv%bool_decide_eq_true) & _) & _) & _).
    destruct (inv_ack _ _ _ HI Hack) as (T & old & next & Hin). rewrite Hrv. eauto 10.
  - clear Hrenew. apply wpc_bind, wpc_modify; [by apply Inv_no_ack|].
    destruct (beq (stableRV c) (RV r)) eqn:Hst'; simpl negb; cbv iota.
    + apply bool_decide_eq_true in Hst'. apply Inv_no_ack in HI.
      destruct (Z.ltb_spec (u64 (n - since c)) (u64 (MaxKernelWindow + Margin (cfg c))));
        [by apply wpc_exit|]. apply wpc_ret; [done|]. right.
      pose proof (valid_RV r Hv) as Hrv.
      rewrite <- Hst' in Hrv. destruct (Hst Hrv) as (g1 & Tg' & r' & g2 & Ts & g3 & E & Er & Hs0).
      exists g1, Tg', r', g2, Ts, (since c), g3, Tn, n, []. split; [|split; [congruence|]].
      { rewrite Eh, E. by simplify_list_eq. }
      split; [done|]. split; [done|]. pose proof (inv_cfg _ _ _ HI) as Ek. simpl in Ek.
      pose proof (inv_since _ _ _ HI) as [Hs1 _]. simpl in Hs1. rewrite Ek in *.
      unfold u64, is_u64, MaxInt64, MaxKernelWindow, second in *. rewrite !Z.mod_small in * by lia. lia.
    + apply Inv_no_ack in HI.
      assert (Inv k (set_stable (RV r) n (set_ack false c)) h) as HI'.
      { destruct HI as [? [??] ? ? ?]. split; [done|simpl in *; lia|done| |done].
        intros _. exists h1, Tg, r, h2, Tn, []. simpl. rewrite Eh, Ehb. by simplify_list_eq. }
      apply wpc_bind, wpc_modify; [done|]. wpc_bind_by deny_or_return_wpc.
      intros. by apply wpc_exit.
Qed.

Lemma ticket_bad_false t before after :
  is_u64 (Captured t) → is_u64 (Deadline t) → ticket_bad t before after = false →
  Deadline t ≤ after + MaxKernelWindow.
Proof.
  unfold ticket_bad. rewrite !orb_false_iff, !Z.leb_gt, !Z.ltb_ge. unfold is_u64, u64.
  intros Hc Hd (((((_ & _) & Ha) & Hlt) & Hw) & _). rewrite Z.mod_small in Hw; lia.
Qed.

Lemma step_capture_wpc r c h : Inv k c h → authorized k h (RV r) →
  wpc (step_capture r) c h (λ '(nonce, t) c' h', authorized k h' (RV r) ∧ ticket_after h' t).
Proof.
  intros HI Ha. unfold step_capture. apply wpc_bind, fail_if_wpc; [done|]. intros _.
  apply wpc_bind, wpc_ask; [done|done|]. intros T1 [nonce|] _ HI1; [|by apply fail_wpc].
  apply wpc_bind, fail_if_wpc; [done|]. intros _.
  wpc_bind_by now_or_fail_wpc. intros before c2 h2 HI2 (_ & _ & _ & _ & T2 & ->).
  apply wpc_bind, wpc_ask; [done|done|]. intros T3 [t|] Ht HI3; [|by apply fail_wpc].
  destruct Ht as [Hc Hd].
  apply wpc_bind, wpc_ask; [done|done|]. intros T4 late _ HI4.
  apply wpc_bind, fail_if_wpc; [done|]. intros _.
  wpc_bind_by now_or_fail_wpc. intros after c5 h5 HI5 (_ & Hne & _ & _ & T5 & ->).
  apply wpc_bind, fail_if_wpc; [done|]. intros Hbad.
  apply wpc_ret; [done|]. split; [auto 10 with lease|].
  eexists _, T5, after, []. split; [done|]. split; [done|]. by eapply ticket_bad_false.
Qed.

Lemma step_commit_wpc r nonce t c h :
  Inv k c h → authorized k h (RV r) → ticket_after h t →
  wpc (step_commit r nonce t) c h (λ _ _ _, True).
Proof.
  intros HI Ha Ht. unfold step_commit. apply wpc_bind, wpc_get; [done|]. cbv zeta.
  apply wpc_bind, wpc_ask; [done|exact Ha|]. intros T1 [out|] _ HI1; [|by apply fail_wpc].
  set (h1 := h ++ [_]) in *.
  assert (ticket_backed h1 t) as Hb by (unfold h1; by eexists h, T1, _, _, out, []).
  assert (∃ T old next, CAS_at T old next out ∈ h1) as Hown.
  { eexists _, _, _. apply elem_of_app. right. left. }
  wpc_bind_by now_or_fail_wpc. intros n c2 h2 HI2 (-> & _ & _ & _ & T2 & ->).
  apply wpc_bind, fail_if_wpc; [done|]. intros _. apply wpc_bind, fail_if_wpc; [done|]. intros _.
  apply wpc_bind, wpc_ask; [done|done|]. intros T3 late _ HI3.
  apply wpc_bind, fail_if_wpc; [done|]. intros _.
  apply wpc_bind, wpc_ask; [done|simpl; auto with lease|]. intros T4 armed _ HI4.
  apply wpc_bind, fail_if_wpc; [done|]. intros _.
  apply wpc_bind, wpc_ask; [done|done|]. intros T5 late' _ HI5.
  apply wpc_bind, fail_if_wpc; [done|]. intros _.
  wpc_bind_by now_or_fail_wpc. intros n' c6 h6 HI6 (-> & _ & _ & _ & T6 & ->).
  apply wpc_bind, fail_if_wpc; [done|]. intros _.
  match goal with |- wpc _ ?c ?h _ => assert (Inv k (set_stable [] 0 (set_ack true (set_own out c))) h) as HI7 end.
  { destruct HI6 as [? [??] ? ? ?]. split; [done|simpl in *; lia|done|by intros []|].
    intros _. destruct Hown as (T & old & next & Hin). exists T, old, next.
    simpl. rewrite !elem_of_app. by repeat left. }
  apply wpc_bind, wpc_modify; [done|]. by apply wpc_ret.
Qed.

(** [Step] keeps the invariant, and every call it makes is justified. *)
Lemma Step_wp c h : Inv k c h →
  wp (λ _ x, ans_ok x) (justified k) (Step c) h (λ '(c', _) h', Inv k c' h').
Proof.
  intros HI. unfold Step. apply wp_bind.
  assert (wpc step_body c h (λ _ _ _, True)) as H.
  { unfold step_body. apply wpc_bind. eapply wpc_mono; [by apply step_observe_wpc|].
    intros [r n] c1 h1 HI1 Ho. apply wpc_bind. eapply wpc_mono; [by apply step_decide_wpc|].
    intros u c2 h2 HI2 Ha. apply wpc_bind. eapply wpc_mono; [by apply step_capture_wpc|].
    intros [nonce t] c3 h3 HI3 [Ha3 Ht]. by apply step_commit_wpc. }
  eapply wp_mono; [exact H|]. by intros [c' r] h' [HI' _].
Qed.
End local.

(** ** What a step returns *)

(** After an error nothing is remembered that could authorise a later call, or the controller is
    terminal; after a success that armed, the acknowledged record is the controller's own. *)
Definition returned (c : Controller) (o : outcome) : Prop :=
  match o with
  | inr _ => ack c = false ∧ stableRV c = [] ∧ since c = 0 ∨ terminal c = true
  | inl r => r = zero_result ∧ ack c = false ∨
             CASAcknowledged r = true ∧ TicketArmed r = true ∧ ack c = true ∧ valid (own c) = true ∧
             Holder (own c) = cfg_Holder (cfg c)
  end.
Definition outc {A} (m : ctl A) (c : Controller) (Q : A → Controller → Prop) : Prop :=
  every_run (m c) (λ '(c', r), match r with inl a => Q a c' | inr o => returned c' o end).

Lemma outc_bind {A B} (m : ctl A) (f : A → ctl B) c Q :
  outc m c (λ a c', outc (f a) c' Q) → outc (m ≫= f) c Q.
Proof.
  intros H. unfold outc. apply every_run_bind. eapply every_run_mono; [exact H|].
  by intros [c' [a|o]].
Qed.
Lemma outc_mono {A} (m : ctl A) c (Q R : A → Controller → Prop) :
  outc m c Q → (∀ a c', Q a c' → R a c') → outc m c R.
Proof. intros H HQ. eapply every_run_mono; [exact H|]. intros [c' [a|o]]; auto. Qed.
Lemma outc_ask e c Q : (∀ x, Q x c) → outc (ask e) c Q.
Proof. intros H x. apply H. Qed.

Lemma outc_get c Q : Q c c → outc get c Q.
Proof. done. Qed.
Lemma outc_modify f c Q : Q tt (f c) → outc (modify f) c Q.
Proof. done. Qed.

Lemma deny_outc c Q :
  Q true c → Q false (set_terminal true c) → outc deny c Q.
Proof.
  intros H1 H2. unfold deny. apply outc_bind, outc_ask. intros []; simpl negb; cbv iota; [|done].
  apply outc_bind, outc_ask. by intros [].
Qed.
Lemma fail_outc {A} err term c Q : outc (fail (A := A) err term) c Q.
Proof.
  unfold fail. apply outc_bind, outc_modify, outc_bind, deny_outc; simpl; left; done.
Qed.
Lemma fail_if_outc b err term c Q : (b = false → Q tt c) → outc (fail_if b err term) c Q.
Proof. destruct b; [intros; apply fail_outc|]. intros H. by apply H. Qed.
Lemma now_or_fail_outc c Q : (∀ n, Q n (set_last n c)) → outc now_or_fail c Q.
Proof.
  intros H. unfold now_or_fail. apply outc_bind. unfold now. apply outc_bind, outc_ask. intros n.
  apply outc_bind, outc_get. destruct (_ || _); [apply fail_outc|]. apply outc_bind, outc_modify. apply H.
Qed.
Lemma deny_or_return_outc c Q : Q tt c → outc deny_or_return c Q.
Proof. intros H. apply outc_bind, deny_outc; [done|]. by right. Qed.

Lemma step_capture_outc r c Q : (∀ x c', cfg c' = cfg c → Q x c') → outc (step_capture r) c Q.
Proof.
  intros H. unfold step_capture. apply outc_bind, fail_if_outc. intros _. apply outc_bind, outc_ask.
  intros [nonce|]; [|apply fail_outc]. apply outc_bind, fail_if_outc. intros _.
  apply outc_bind, now_or_fail_outc. intros n. apply outc_bind, outc_ask.
  intros [t|]; [|apply fail_outc]. apply outc_bind, outc_ask. intros late.
  apply outc_bind, fail_if_outc. intros _. apply outc_bind, now_or_fail_outc. intros n'.
  apply outc_bind, fail_if_outc. intros _. by apply H.
Qed.
Lemma unverified_false out r next : unverified out r next = false → valid out = true ∧ Holder out = Holder next.
Proof.
  unfold unverified. rewrite !orb_false_iff, !negb_false_iff.
  intros (((((Hv & _) & _) & Hh%bool_decide_eq_true) & _) & _). done.
Qed.
Lemma step_commit_outc r nonce t c : outc (step_commit r nonce t) c (λ res c', returned c' (inl res)).
Proof.
  unfold step_commit. apply outc_bind, outc_get. apply outc_bind, outc_ask.
  intros [out|]; [|apply fail_outc]. apply outc_bind, now_or_fail_outc. intros n.
  apply outc_bind, fail_if_outc. intros [Hv Hh]%unverified_false. apply outc_bind, fail_if_outc. intros _.
  apply outc_bind, outc_ask. intros late. apply outc_bind, fail_if_outc. intros _.
  apply outc_bind, outc_ask. intros armed. apply outc_bind, fail_if_outc. intros _.
  apply outc_bind, outc_ask. intros late'. apply outc_bind, fail_if_outc. intros _.
  apply outc_bind, now_or_fail_outc. intros n'. apply outc_bind, fail_if_outc. intros _.
  right. done.
Qed.
Lemma step_observe_outc c Q :
  terminal c = false → (∀ x c', Q x c') → outc step_observe c Q.
Proof.
  intros Ht H. unfold step_observe. apply outc_bind, outc_get. apply outc_bind. rewrite Ht.
  change (mret ()) with (modify id). apply outc_modify.
  apply outc_bind. eapply (outc_mono _ _ (λ _ _, True)).
  { destruct (started c); [done|]. apply outc_bind, outc_modify. by apply deny_or_return_outc. }
  intros [] c' _. apply outc_bind, now_or_fail_outc. intros n0. apply outc_bind, outc_ask.
  intros [r|]; [|apply fail_outc]. apply outc_bind, outc_ask. intros late.
  apply outc_bind, fail_if_outc. intros _. apply outc_bind, now_or_fail_outc. intros n.
  apply outc_bind, fail_if_outc. intros _. apply outc_bind, outc_modify, outc_bind, outc_get.
  apply outc_bind, fail_if_outc. intros _. apply outc_bind, fail_if_outc. intros _.
  apply outc_bind, outc_modify. apply H.
Qed.
Lemma step_decide_outc r n c Q :
  (∀ c', cfg c' = cfg c → Q tt c') → outc (step_decide r n) c Q.
Proof.
  intros H. unfold step_decide. apply outc_bind, outc_get. destruct (_ && _).
  { by apply H. }
  apply outc_bind, outc_modify. destruct (negb _).
  - apply outc_bind, outc_modify, outc_bind, deny_or_return_outc. by left.
  - destruct (_ <? _); [by left|]. by apply H.
Qed.

(** [Step] returns on every answer of the outside.  If it reports an error, the controller has
    dropped its acknowledgement and its observation, or it is terminal; if it reports success, it
    holds no acknowledgement, or it has armed a ticket and its acknowledged record is valid and
    names its own holder identity. *)
Theorem Step_outcomes c :
  terminal c = false → every_run (Step c) (λ '(c', o), returned c' o).
Proof.
  intros Hterm. unfold Step. apply every_run_bind.
  assert (outc step_body c (λ r c', returned c' (inl r))) as H.
  { unfold step_body. apply outc_bind, step_observe_outc; [done|]. intros [r n] c1.
    apply outc_bind, step_decide_outc. intros c2 _.
    apply outc_bind, step_capture_outc. intros [nonce t] c3 _. apply step_commit_outc. }
  eapply every_run_mono; [exact H|]. by intros [c' [r|o]].
Qed.
