(* ===== verification/LeaseSystem.v ===== *)
(** * A system of lease controllers

    Any number of nodes run [Step] over and over, interleaved call by call, against one authority.
    The authority is linearizable and gives every write a new resource version (what a Kubernetes
    API server documents of an object's resourceVersion); a compare-and-swap that reports an error
    may still have been applied, and anything else may write the record at any time.  A node may
    forward as long as some ticket it ever asked its gate to arm has not expired: the model grants
    the gate no DENY at all, and an ARM that reported an error counts as armed. *)

From S2P Require Import Prelude.
From S2P Require Import GoText.
From S2P Require Import Effects.
From S2P Require Import LeaseController.
From S2P Require Import LeaseSafety.

Section system.
Context {Node : Type} `{!EqDecision Node}.
Context (cfgs : Node → Config) (clk : Node → Z → Z) (init_rec : Record_).

(** ** The trace *)
Inductive item : Type :=
| ICall (i : Node) (x : entry answer) (before after : Record_)
| IEnv (T : Z) (before after : Record_).
Definition time (y : item) : Z := match y with ICall _ x _ _ => at_time x | IEnv T _ _ => T end.
Definition before (y : item) : Record_ := match y with ICall _ _ b _ | IEnv _ b _ => b end.
Definition after (y : item) : Record_ := match y with ICall _ _ _ a | IEnv _ _ a => a end.

Definition cur_of (t : list item) : Record_ :=
  match list.last t with Some y => after y | None => init_rec end.
Definition seen (t : list item) : list bytes := flat_map (λ y, [RV (before y); RV (after y)]) t.
Definition proj (i : Node) (t : list item) : hist :=
  omap (λ y, match y with ICall j x _ _ => if decide (i = j) then Some x else None | _ => None end) t.

(** ** What the outside does *)
Definition with_RV (r : Record_) (v : bytes) : Record_ :=
  mkRecord_ (UID r) v (Holder r) (Nonce r) (Proto r) (Epoch r).
Definition fresh (t : list item) (v : bytes) : Prop := v ∉ RV (cur_of t) :: seen t.
Definition applied (t : list item) (old next b a : Record_) : Prop :=
  UID old = UID b ∧ RV old = RV b ∧ ∃ v, fresh t v ∧ a = with_RV next v.
Definition authority (t : list item) (b a : Record_) (x : entry answer) : Prop :=
  match req x as e return answer e → Prop with
  | CGet => λ r, a = b ∧ match r with inl r => r = b | inr _ => True end
  | CCAS old next => λ r,
      match r with inl out => applied t old next b a ∧ out = a | inr _ => a = b ∨ applied t old next b a end
  | _ => λ _, a = b
  end (ans x).
Definition clock (i : Node) (x : entry answer) : Prop :=
  match req x as e return answer e → Prop with
  | CNow => λ n, n = 0 ∨ n = clk i (at_time x)
  | _ => λ _, True
  end (ans x).

(** ** The system *)
Inductive node : Type :=
| Idle (c : Controller)
| Busy (p : prog answer (Controller * outcome)).
Record sys := mkSys { tr : list item; nodes : Node → node }.

Definition set_node (s : sys) (i : Node) (n : node) : Node → node :=
  λ j, if decide (i = j) then n else nodes s j.
Definition up_to (t : list item) (T : Z) : Prop := Forall (λ y, time y ≤ T) t.

Inductive sstep : sys → sys → Prop :=
| s_start s i c :
    nodes s i = Idle c → sstep s (mkSys (tr s) (set_node s i (Busy (Step c))))
| s_return s i c o :
    nodes s i = Busy (Ret (c, o)) → sstep s (mkSys (tr s) (set_node s i (Idle c)))
| s_call s i e kont T x a :
    nodes s i = Busy (Call e kont) → up_to (tr s) T →
    ans_ok (mkEntry T e x) → clock i (mkEntry T e x) →
    authority (tr s) (cur_of (tr s)) a (mkEntry T e x) →
    sstep s (mkSys (tr s ++ [ICall i (mkEntry T e x) (cur_of (tr s)) a]) (set_node s i (Busy (kont x))))
| s_write s T a :
    up_to (tr s) T → fresh (tr s) (RV a) →
    sstep s (mkSys (tr s ++ [IEnv T (cur_of (tr s)) a]) (nodes s)).

Definition new_controller (k : Config) : Controller :=
  mkController k 0 0 [] [] zero_record zero_record false false false.
Definition init : sys := mkSys [] (λ i, Idle (new_controller (cfgs i))).

(** A ticket was sent to the gate of [i] that still stands at time [T]. *)
Definition may_forward (s : sys) (i : Node) (T : Z) : Prop :=
  ∃ T' t ok b a, ICall i (mkEntry T' (CArm t) ok) b a ∈ tr s ∧ clk i T < Deadline t.

(** ** Traces *)
Definition item_ok (t : list item) (y : item) : Prop :=
  up_to t (time y) ∧ before y = cur_of t ∧ (after y = before y ∨ fresh t (RV (after y))) ∧
  match y with
  | ICall i x b a => justified (cfgs i) (proj i t) (req x) ∧ clock i x ∧ authority t b a x
  | IEnv _ _ _ => True
  end.
Definition trace_ok (t : list item) : Prop := ∀ t1 y t2, t = t1 ++ y :: t2 → item_ok t1 y.

Lemma trace_ok_snoc t y : trace_ok t → item_ok t y → trace_ok (t ++ [y]).
Proof.
  intros Ht Hy t1 z t2 E. destruct t2 as [|w t2 _] using rev_ind.
  - apply app_inj_tail in E as [-> ->]. done.
  - rewrite app_comm_cons, app_assoc in E. apply app_inj_tail in E as [-> _]. eauto.
Qed.
Lemma trace_ok_prefix t1 t2 : trace_ok (t1 ++ t2) → trace_ok t1.
Proof. intros H u1 y u2 ->. apply (H u1 y (u2 ++ t2)). by rewrite <- app_assoc. Qed.

Lemma cur_of_snoc t y : cur_of (t ++ [y]) = after y.
Proof. unfold cur_of. by rewrite last_snoc. Qed.
Lemma seen_app t u : seen (t ++ u) = seen t ++ seen u.
Proof. unfold seen. by rewrite flat_map_app. Qed.
Lemma proj_app i t u : proj i (t ++ u) = proj i t ++ proj i u.
Proof. unfold proj. by rewrite omap_app. Qed.
Lemma proj_self i x b a : proj i [ICall i x b a] = [x].
Proof. unfold proj. simpl. by rewrite decide_True. Qed.

Lemma proj_split i t h1 x h2 : proj i t = h1 ++ x :: h2 →
  ∃ t1 b a t2, t = t1 ++ ICall i x b a :: t2 ∧ proj i t1 = h1 ∧ proj i t2 = h2.
Proof.
  revert h1. induction t as [|y t IH]; intros h1 E; [by destruct h1|].
  change (y :: t) with ([y] ++ t) in E. rewrite proj_app in E.
  destruct y as [j z b a|T b a]; cbn in E.
  - destruct (decide (i = j)) as [->|Hne]; simpl in E.
    + destruct h1 as [|w h1]; simplify_eq/=.
      * by exists [], b, a, t.
      * destruct (IH h1) as (t1 & b' & a' & t2 & -> & <- & <-); [done|].
        exists (ICall j w b a :: t1), b', a', t2. split; [done|]. split; [|done].
        change (?y :: t1) with ([y] ++ t1). by rewrite proj_app, proj_self.
    + destruct (IH h1 E) as (t1 & b' & a' & t2 & -> & <- & <-).
      exists (ICall j z b a :: t1), b', a', t2. split; [done|]. split; [|done].
      cbn. by rewrite decide_False.
  - destruct (IH h1 E) as (t1 & b' & a' & t2 & -> & <- & <-).
    by exists (IEnv T b a :: t1), b', a', t2.
Qed.

(** Once a write has replaced a version, no version seen before is current again. *)
Lemma never_again t t1 y t2 v :
  trace_ok t → t = t1 ++ y :: t2 → fresh t1 (RV (after y)) → v ∈ RV (before y) :: seen t1 →
  RV (cur_of t) ≠ v.
Proof.
  intros Ht -> Hf Hv. assert (before y = cur_of t1) as Hb by by destruct (Ht t1 y t2 eq_refl) as (_ & ? & _).
  assert (RV (after y) ≠ v) as Hy by (rewrite Hb in Hv; by intros <-).
  induction t2 as [|z t2 IH] using rev_ind; [by rewrite cur_of_snoc|].
  rewrite app_comm_cons, app_assoc in Ht |- *. rewrite cur_of_snoc.
  destruct (Ht (t1 ++ y :: t2) z []) as (_ & Hbz & Haz & _); [done|].
  destruct Haz as [E|Hfz].
  - rewrite E, Hbz. apply IH. by eapply trace_ok_prefix.
  - intros <-. apply Hfz. apply elem_of_cons. right. rewrite seen_app. apply elem_of_app.
    apply elem_of_cons in Hv as [Hv|Hv]; [right|by left].
    simpl. rewrite Hv. left.
Qed.

(** Two items of one trace: one is first. *)
Lemma two_items {A} (t u1 u2 w1 w2 : list A) x y :
  t = u1 ++ x :: u2 → t = w1 ++ y :: w2 →
  (x = y ∧ u1 = w1) ∨ (∃ m, w1 = u1 ++ x :: m) ∨ (∃ m, u1 = w1 ++ y :: m).
Proof.
  intros -> E. revert w1 E. induction u1 as [|a u1 IH]; intros [|b w1] E; simpl in E;
    injection E as E1 E2; subst.
  - by left.
  - right. left. by exists w1.
  - right. right. by exists u1.
  - destruct (IH w1 E2) as [[-> ->]|[[m ->]|[m ->]]]; [by left|right; left|right; right]; by exists m.
Qed.

Lemma up_to_app t y u T : up_to (t ++ y :: u) T → time y ≤ T.
Proof. unfold up_to. by rewrite Forall_app, Forall_cons; intros (_ & ? & _). Qed.

(** ** The clocks *)
Hypothesis clk_mono : ∀ i T T', T ≤ T' → clk i T ≤ clk i T'.
(** The margin covers the difference of the clock rates. *)
Hypothesis clk_rate : ∀ i j T T', T ≤ T' →
  MaxKernelWindow + Margin (cfgs j) ≤ clk j T' - clk j T → MaxKernelWindow ≤ clk i T' - clk i T.

(** A write of [i] before a record [j] read, and [j]'s clock readings a window and margin apart. *)
Lemma wait_gap t u1 m i j Ta olda nexta outa ba aa w1 x bx ax w3 Ts s bs as_ w5 Tn n bn an w6 Tb :
  trace_ok t → up_to t Tb →
  t = w1 ++ ICall j x bx ax :: w3 ++ ICall j (Now_at Ts s) bs as_ :: w5 ++ ICall j (Now_at Tn n) bn an :: w6 →
  w1 = u1 ++ ICall i (CAS_at Ta olda nexta outa) ba aa :: m →
  s ≠ 0 → n ≠ 0 → MaxKernelWindow + Margin (cfgs j) ≤ n - s →
  clk i Ta + MaxKernelWindow ≤ clk i Tb.
Proof.
  intros Ht Hup E Em Hs0 Hn0 Hwait.
  destruct (Ht (w1 ++ ICall j x bx ax :: w3) (ICall j (Now_at Ts s) bs as_)
    (w5 ++ ICall j (Now_at Tn n) bn an :: w6)) as (Hups & _ & _ & _ & Hcs & _);
    [rewrite E; by simplify_list_eq|].
  destruct (Ht (w1 ++ ICall j x bx ax :: w3 ++ ICall j (Now_at Ts s) bs as_ :: w5)
    (ICall j (Now_at Tn n) bn an) w6) as (Hupn & _ & _ & _ & Hcn & _);
    [rewrite E; by simplify_list_eq|].
  assert (Tn ≤ Tb) as HTn.
  { rewrite E in Hup. unfold up_to in Hup. rewrite Forall_app, Forall_cons, Forall_app, Forall_cons,
      Forall_app, Forall_cons in Hup. simpl in Hup. tauto. }
  assert (Ts ≤ Tn) as HTs.
  { rewrite app_comm_cons, app_assoc in Hupn. by apply up_to_app in Hupn. }
  assert (Ta ≤ Ts) as HTa.
  { rewrite Em in Hups. rewrite <- app_assoc in Hups. simpl in Hups. by apply up_to_app in Hups. }
  cbn in Hcs, Hcn. destruct Hcs as [|Hcs]; [done|]. destruct Hcn as [|Hcn]; [done|].
  pose proof (clk_mono i Ta Ts HTa). pose proof (clk_mono i Tn Tb HTn).
  pose proof (clk_rate i j Ts Tn HTs). lia.
Qed.

(** Between an acknowledged write of [i] and a later one of another node, the clock of [i] runs
    through the longest window. *)
Lemma cas_gap n : ∀ t1 u1 u2 i j Ta olda nexta outa ba aa Tb old next out b a,
  (length t1 < n)%nat → i ≠ j →
  t1 = u1 ++ ICall i (CAS_at Ta olda nexta outa) ba aa :: u2 →
  trace_ok (t1 ++ [ICall j (CAS_at Tb old next out) b a]) →
  clk i Ta + MaxKernelWindow ≤ clk i Tb.
Proof.
  induction n as [|n IH]; intros t1 u1 u2 i j Ta olda nexta outa ba aa Tb old next out b a Hn Hij Ea Ht;
    [lia|].
  destruct (Ht t1 _ [] eq_refl) as (Hup & Hb & _ & Hauth & _ & ((HU & HR & _) & _)).
  simpl in Hup, Hb, Hauth. pose proof (trace_ok_prefix _ _ Ht) as Ht1.
  destruct (Ht1 u1 _ u2 Ea) as (_ & Hba & _ & _ & _ & ((_ & _ & v & Hv & Eaa) & _)).
  assert (∀ v', v' ∈ RV ba :: seen u1 → RV old ≠ v') as Hnever.
  { intros v' Hv'. rewrite HR, Hb. eapply (never_again t1 u1 _ u2 v' Ht1 Ea); [|done].
    simpl. by rewrite Eaa. }
  destruct Hauth as [(T' & o' & n' & out' & Hin & Erv)|(h1&Tg&r&h2&Ts&sv&h3&Tn&nv&h4&E&Erv&Hs0&Hn0&Hwait)].
  - apply list_elem_of_split in Hin as (h1 & h2 & E).
    apply proj_split in E as (w1 & b' & a' & w2 & E & _ & _).
    destruct (Ht1 w1 _ w2 E) as (_ & _ & _ & _ & _ & (_ & Eo')).
    destruct (two_items t1 u1 u2 w1 w2 _ _ Ea E) as [[Exy _]|[[m Em]|[m Em]]]; [by simplify_eq| |].
    + transitivity (clk i T'); [|apply clk_mono; rewrite E in Hup; by apply up_to_app in Hup].
      eapply (IH w1 u1 m i j); [|done|done|].
      * rewrite E, length_app in Hn. simpl in Hn. lia.
      * apply (trace_ok_prefix _ w2). rewrite <- app_assoc. simpl. rewrite E in Ht1. exact Ht1.
    + exfalso. apply (Hnever (RV out')); [|by rewrite Erv]. right. rewrite Em, seen_app. apply elem_of_app.
      right. simpl. rewrite Eo'. right. left.
  - apply proj_split in E as (w1 & bg & ag & w2 & E & _ & E2).
    apply proj_split in E2 as (w3 & bs & as_ & w4 & -> & _ & E4).
    apply proj_split in E4 as (w5 & bn & an & w6 & -> & _ & _).
    destruct (Ht1 w1 _ _ E) as (Hupg & _ & _ & _ & _ & (_ & Er)).
    destruct (two_items t1 u1 u2 w1 _ _ _ Ea E) as [[Exy _]|[[m Em]|[m Em]]]; [by simplify_eq| |].
    + eapply (wait_gap t1); [exact Ht1|done|exact E|exact Em|done..].
    + exfalso. apply (Hnever (RV r)); [|by rewrite Erv]. right. rewrite Em, seen_app. apply elem_of_app.
      right. simpl in Er |- *. rewrite Er. left.
Qed.

(** An armed ticket ends within the window of an acknowledged write of its node. *)
Lemma arm_backed t i T tk ok b a :
  trace_ok t → ICall i (mkEntry T (CArm tk) ok) b a ∈ t →
  ∃ u1 Tc old next out bc ac u2, t = u1 ++ ICall i (CAS_at Tc old next out) bc ac :: u2 ∧
    Deadline tk ≤ clk i Tc + MaxKernelWindow.
Proof.
  intros Ht (t1 & t2 & E)%list_elem_of_split.
  destruct (Ht t1 _ t2 E) as (_ & _ & _ & Hj & _). simpl in Hj.
  destruct Hj as (h1 & Tc & old & next & out & h2 & E1 & g1 & Ta & n & g2 & Eg & Hn & Hd).
  apply proj_split in E1 as (u1 & bc & ac & u2 & -> & E1 & _). subst h1.
  apply proj_split in Eg as (w1 & bn & an & w2 & -> & _ & _).
  destruct (Ht w1 (ICall i (Now_at Ta n) bn an) (w2 ++ ICall i (CAS_at Tc old next out) bc ac :: u2 ++
    ICall i (mkEntry T (CArm tk) ok) b a :: t2)) as (_ & _ & _ & _ & Hc & _);
    [rewrite E; by simplify_list_eq|].
  destruct (Ht (w1 ++ ICall i (Now_at Ta n) bn an :: w2) (ICall i (CAS_at Tc old next out) bc ac) (u2 ++
    ICall i (mkEntry T (CArm tk) ok) b a :: t2)) as (Hup & _);
    [rewrite E; by simplify_list_eq|].
  apply up_to_app in Hup. cbn in Hc. destruct Hc as [|Hc]; [done|].
  exists (w1 ++ ICall i (Now_at Ta n) bn an :: w2), Tc, old, next, out, bc, ac,
    (u2 ++ ICall i (mkEntry T (CArm tk) ok) b a :: t2).
  split; [rewrite E; by simplify_list_eq|]. pose proof (clk_mono i Ta Tc Hup). lia.
Qed.

Lemma trace_exclusive s i j T :
  trace_ok (tr s) → up_to (tr s) T → i ≠ j → may_forward s i T → may_forward s j T → False.
Proof.
  intros Ht Hup Hij (Ti & ti & oki & bi & ai & Hi & Hdi) (Tj & tj & okj & bj & aj & Hj & Hdj).
  apply arm_backed in Hi as (u1 & Ta & o1 & n1 & out1 & b1 & a1 & u2 & Ei & Hi); [|done].
  apply arm_backed in Hj as (w1 & Tb & o2 & n2 & out2 & b2 & a2 & w2 & Ej & Hj); [|done].
  assert (Ta ≤ T) as HTa by (rewrite Ei in Hup; by apply up_to_app in Hup).
  assert (Tb ≤ T) as HTb by (rewrite Ej in Hup; by apply up_to_app in Hup).
  pose proof (clk_mono i Tb T HTb). pose proof (clk_mono j Ta T HTa).
  destruct (two_items _ _ _ _ _ _ _ Ei Ej) as [[Exy _]|[[m Em]|[m Em]]]; [by simplify_eq| |].
  - assert (clk i Ta + MaxKernelWindow ≤ clk i Tb); [|lia].
    eapply (cas_gap (S (length w1)) w1 u1 m i j); [lia|done|exact Em|].
    apply (trace_ok_prefix _ w2). rewrite <- app_assoc. simpl. rewrite Ej in Ht. exact Ht.
  - assert (clk j Tb + MaxKernelWindow ≤ clk j Ta); [|lia].
    eapply (cas_gap (S (length u1)) u1 w1 m j i); [lia|done|exact Em|].
    apply (trace_ok_prefix _ u2). rewrite <- app_assoc. simpl. rewrite Ei in Ht. exact Ht.
Qed.

(** ** Reachable states *)
Hypothesis margins : ∀ i, 0 < Margin (cfgs i) ≤ MaxInt64 - MaxKernelWindow.

Definition node_inv (k : Config) (n : node) (h : hist) : Prop :=
  match n with
  | Idle c => Inv k c h
  | Busy p => wp (λ _ x, ans_ok x) (justified k) p h (λ '(c, _) h', Inv k c h')
  end.
Definition sys_inv (s : sys) : Prop :=
  trace_ok (tr s) ∧ ∀ i, node_inv (cfgs i) (nodes s i) (proj i (tr s)).

Lemma sys_inv_init : sys_inv init.
Proof.
  split; [by intros [] ? ? ?|]. intros i. split; [done|simpl; lia|done|by intros []|done].
Qed.
Lemma changed_fresh t b a x : authority t b a x → a = b ∨ fresh t (RV a).
Proof.
  destruct x as [T [] x]; unfold authority, applied; simpl; try by left.
  - intros [-> _]. by left.
  - destruct x; [intros [(_ & _ & v & Hv & ->) _]|intros [->|(_ & _ & v & Hv & ->)]]; by auto.
Qed.
Lemma sys_inv_step s s' : sys_inv s → sstep s s' → sys_inv s'.
Proof.
  intros [Ht Hn] Hst.
  destruct Hst as [s i c Hi|s i c o Hi|s i e kont T x a Hi Hup Hans Hclk Hauth|s T a Hup Hf].
  - split; [done|]. intros j. simpl. unfold set_node. destruct (decide (i = j)) as [<-|]; [|apply Hn].
    specialize (Hn i). rewrite Hi in Hn. apply Step_wp; [apply margins|done].
  - split; [done|]. intros j. simpl. unfold set_node. destruct (decide (i = j)) as [<-|]; [|apply Hn].
    specialize (Hn i). by rewrite Hi in Hn.
  - pose proof (Hn i) as Hni. rewrite Hi in Hni. destruct Hni as [Hj Hk]. split.
    + apply trace_ok_snoc; [done|]. split; [done|]. split; [done|]. split; [|done].
      by eapply changed_fresh.
    + intros j. simpl. rewrite proj_app. unfold set_node. destruct (decide (i = j)) as [<-|Hne].
      * rewrite proj_self. by apply Hk.
      * unfold proj at 2. simpl. rewrite decide_False by done. rewrite app_nil_r. apply Hn.
  - split.
    + apply trace_ok_snoc; [done|]. split; [done|]. split; [done|]. split; [by right|done].
    + intros j. simpl. rewrite proj_app. unfold proj at 2. simpl. rewrite app_nil_r. apply Hn.
Qed.
Lemma sys_inv_reachable s : rtc sstep init s → sys_inv s.
Proof.
  intros H. assert (∀ s0, rtc sstep s0 s → sys_inv s0 → sys_inv s) as Hgen.
  { induction 1; eauto using sys_inv_step. }
  eapply Hgen, sys_inv_init. exact H.
Qed.

(** C1: Mutual exclusion.  In every state the interleaved system can reach, at no time from then on
    do two nodes hold a ticket that still stands: whatever calls fail, however the answers are
    delayed, and even if no DENY ever takes effect.  The hypotheses are the platform's: boottime
    clocks do not go back, and a node's margin covers the difference between the clock rates. *)
Theorem at_most_one_forwards s i j T :
  rtc sstep init s → up_to (tr s) T → may_forward s i T → may_forward s j T → i = j.
Proof.
  intros [Ht _]%sys_inv_reachable Hup Hi Hj.
  destruct (decide (i = j)); [done|]. exfalso. by eapply trace_exclusive.
Qed.
End system.
