(* ===== verification/LeaseProgress.v ===== *)
(** * The lease controller makes progress

    With a working authority, gate and clock, a controller that has watched an unchanged record for
    the window and its margin acquires it; and a concrete run of a system of controllers in which
    a node comes to forward, on which the mutual exclusion theorem is applied. *)

From S2P Require Import Prelude.
From S2P Require Import GoText.
From S2P Require Import Effects.
From S2P Require Import LeaseController.
From S2P Require Import LeaseSafety.
From S2P Require Import LeaseSystem.

(** ** Replaying answers *)
Inductive reply : Type :=
| RNow (n : Z) | RNonce (b : bytes) | RRec (r : Record_) | RTicket (t : Ticket) | RBool (b : bool).
Definition reply_for (e : call_) (r : reply) : option (answer e) :=
  match e as e return option (answer e) with
  | CNow => match r with RNow n => Some n | _ => None end
  | CNonce => match r with RNonce b => Some (Some b) | _ => None end
  | CGet => match r with RRec r => Some (inl r) | _ => None end
  | CCAS _ _ => match r with RRec r => Some (inl r) | _ => None end
  | CCapture => match r with RTicket t => Some (Some t) | _ => None end
  | CArm _ => match r with RBool b => Some b | _ => None end
  | CDeny => match r with RBool b => Some b | _ => None end
  | COpErr => match r with RBool b => Some b | _ => None end
  end.
Fixpoint replay {A} (sc : list reply) (p : prog answer A) : option A :=
  match p, sc with
  | Ret a, [] => Some a
  | Call e k, r :: sc => x ← reply_for e r; replay sc (k x)
  | _, _ => None
  end.

Lemma replay_bind {A B} (p : prog answer A) (f : A → prog answer B) s1 s2 a b :
  replay s1 p = Some a → replay s2 (f a) = Some b → replay (s1 ++ s2) (p ≫= f) = Some b.
Proof.
  revert s1. induction p as [x|e k IH]; intros [|r s1]; simpl; try done.
  - by intros [= ->].
  - destruct (reply_for e r) as [x|]; simpl; [|done]. intros H1 H2. by apply IH.
Qed.

(** [m] takes [c] to [c'] and gives [a] when the outside answers [sc]. *)
Definition does {A} (sc : list reply) (m : ctl A) (c c' : Controller) (a : A) : Prop :=
  replay sc (m c) = Some (c', inl a).

Lemma does_bind {A B} (m : ctl A) (f : A → ctl B) s1 s2 c c1 c2 a b :
  does s1 m c c1 a → does s2 (f a) c1 c2 b → does (s1 ++ s2) (m ≫= f) c c2 b.
Proof. intros H1 H2. unfold does. by eapply replay_bind; [exact H1|]. Qed.
Lemma does_ret {A} (a : A) c : does [] (mret a) c c a.
Proof. done. Qed.
Lemma does_get c : does [] get c c c.
Proof. done. Qed.
Lemma does_modify f c : does [] (modify f) c (f c) tt.
Proof. done. Qed.
Lemma does_fail_if b err term c : b = false → does [] (fail_if b err term) c c tt.
Proof. by intros ->. Qed.

Lemma does_ask e r x c : reply_for e r = Some x → does [r] (ask e) c c x.
Proof. intros H. unfold does, ask. cbn [call mbind prog_bind replay]. by rewrite H. Qed.

(** A statement of a method, then the rest of it. *)
Tactic Notation "does_step" uconstr(lem) := eapply (does_bind _ _ [_]); [eapply lem|].
Tactic Notation "does_skip" uconstr(lem) := eapply (does_bind _ _ []); [eapply lem|].

Lemma does_now c n : n ≠ 0 → last c ≤ n → does [RNow n] now_or_fail c (set_last n c) n.
Proof.
  intros Hn Hl. assert (does [RNow n] now c (set_last n c) (Some n)) as H.
  { unfold now. does_step (does_ask CNow); [done|]. does_skip does_get.
    rewrite (proj2 (Z.eqb_neq _ _)), (proj2 (Z.ltb_ge _ _)) by done.
    does_skip does_modify. apply does_ret. }
  eapply (does_bind _ _ [_] []); [exact H|apply does_ret].
Qed.

Section acquire.
Context (c : Controller) (r out : Record_) (nonce : bytes) (t : Ticket).
Context (n0 n b a n1 n2 : Z).

(** A running controller that holds nothing and has been watching [r]. *)
Record watching : Prop := {
  w_running : terminal c = false ∧ started c = true ∧ ack c = false;
  w_record : valid r = true ∧ Epoch r ≠ MaxUint64 ∧ is_u64 (Epoch r);
  w_pinned : pinned c = [] ∨ pinned c = UID r;
  w_observed : observed c = r;
  w_stable : stableRV c = RV r;
  w_waited : 0 ≤ since c ∧ MaxKernelWindow + Margin (cfg c) ≤ n - since c ∧ is_u64 n ∧
             0 < Margin (cfg c) ≤ MaxInt64 - MaxKernelWindow;
}.
(** Its clock goes on, the kernel gives a ticket that outlasts the exchange, and the authority
    acknowledges the write with a new version. *)
Record cooperative : Prop := {
  k_clock : 0 < n0 ∧ last c ≤ n0 ∧ n0 ≤ n ∧ n ≤ b ∧ b ≤ a ∧ a ≤ n1 ∧ n1 ≤ n2;
  k_ticket : b ≤ Captured t ≤ a ∧ n2 < Deadline t ≤ Captured t + MaxKernelWindow;
  k_nonce : nonce ≠ Nonce r;
  k_out : out = mkRecord_ (UID r) (RV out) (cfg_Holder (cfg c)) nonce (Proto r) (Epoch r + 1);
  k_new : RV out ≠ RV r ∧ valid out = true;
}.
Hypothesis Hw : watching.
Hypothesis Hk : cooperative.

Lemma beq_refl x : beq x x = true.
Proof. by apply bool_decide_eq_true. Qed.
Lemma beq_ne x y : x ≠ y → beq x y = false.
Proof. by intros; apply bool_decide_eq_false. Qed.

Lemma acquire_observe : ∃ c1,
  does [RNow n0; RRec r; RBool false; RNow n] step_observe c c1 (r, n) ∧
  (ack c1, stableRV c1, since c1, cfg c1, last c1) = (ack c, stableRV c, since c, cfg c, n).
Proof.
  destruct Hw as [(Ht & Hs & Ha) (Hv & _) Hp Ho Hst _]. destruct Hk as [(H0 & Hl & H1 & _) _ _ _ _].
  eexists. split.
  - unfold step_observe. does_skip does_get. rewrite Ht, Hs. does_skip does_ret. does_skip does_ret.
    does_step does_now; [lia|done|]. does_step (does_ask CGet); [done|].
    does_step (does_ask COpErr); [done|].
    does_skip does_fail_if; [done|]. does_step does_now; [lia|done|]. rewrite Hv.
    does_skip does_fail_if; [done|]. does_skip does_modify. does_skip does_get.
    does_skip does_fail_if; [|does_skip does_fail_if; [|does_skip does_modify; apply does_ret]].
    + destruct (beq (pinned _) []) eqn:E; cbn [negb pinned set_pinned set_last] in *.
      * by rewrite beq_refl.
      * destruct Hp as [Hp|Hp]; [by rewrite Hp in E|]. by rewrite Hp, beq_refl.
    + destruct (beq (pinned _) []); cbn [observed set_pinned set_last];
        by rewrite Ho, !beq_refl, Z.eqb_refl.
  - cbn. by destruct (beq (pinned c) []).
Qed.

Lemma acquire_decide c1 :
  (ack c1, stableRV c1, since c1, cfg c1, last c1) = (ack c, stableRV c, since c, cfg c, n) →
  does [] (step_decide r n) c1 (set_ack false c1) tt.
Proof.
  destruct Hw as [(_ & _ & Ha) _ _ _ Hst (Hs & Hwait & Hn & Hm)]. intros [= Ea Er Es Ec _].
  unfold step_decide. does_skip does_get. rewrite Ea, Ha. cbn [andb].
  does_skip does_modify. rewrite Er, Hst, beq_refl. cbn [negb].
  rewrite Es, Ec. rewrite (proj2 (Z.ltb_ge _ _)); [apply does_ret|].
  unfold u64, is_u64, MaxInt64, MaxKernelWindow, second in *. rewrite !Z.mod_small; lia.
Qed.

Lemma acquire_capture c1 : last c1 = n →
  does [RNonce nonce; RNow b; RTicket t; RBool false; RNow a] (step_capture r) c1
    (set_last a (set_last b c1)) (nonce, t).
Proof.
  destruct Hw as [_ (_ & Hmax & _) _ _ _ _].
  destruct Hk as [(? & ? & ? & ? & ? & ? & ?) (Hc & Hd) Hnn _ _]. intros Hl.
  unfold step_capture. does_skip does_fail_if; [by apply Z.eqb_neq|].
  does_step (does_ask CNonce); [done|]. does_skip does_fail_if; [by apply beq_ne|].
  does_step does_now; [lia|lia|]. does_step (does_ask CCapture); [done|].
  does_step (does_ask COpErr); [done|]. does_skip does_fail_if; [done|].
  does_step does_now; [lia|simpl; lia|]. does_skip does_fail_if; [|apply does_ret].
  unfold ticket_bad, u64, MaxKernelWindow, second in *.
  rewrite !orb_false_iff, !Z.ltb_ge, !Z.leb_gt, Z.eqb_neq, Z.mod_small; lia.
Qed.

Lemma acquire_commit c1 : last c1 = a → cfg c1 = cfg c →
  ∃ c2, does [RRec out; RNow n1; RBool false; RBool true; RBool false; RNow n2]
          (step_commit r nonce t) c1 c2 (mkResult true true t) ∧
        ack c2 = true ∧ own c2 = out.
Proof.
  destruct Hw as [_ (_ & Hmax & He) _ _ _ _].
  destruct Hk as [(? & ? & ? & ? & ? & ? & ?) (Hc & Hd) _ Ho (Hrv & Hv)]. intros Hl Ec.
  eexists. split.
  - unfold step_commit. does_skip does_get. cbv zeta. does_step (does_ask (CCAS _ _)); [done|].
    cbv iota. does_step does_now; [lia|lia|]. does_skip does_fail_if.
    { unfold unverified. rewrite Hv, Ho, Ec. cbn [UID RV Holder Nonce Proto Epoch].
      rewrite (beq_ne (RV out) (RV r)), !beq_refl by done. unfold u64.
      rewrite Z.mod_small by (unfold is_u64, MaxUint64 in *; lia). by rewrite Z.eqb_refl. }
    does_skip does_fail_if; [apply Z.leb_gt; lia|]. does_step (does_ask COpErr); [done|].
    does_skip does_fail_if; [done|]. does_step (does_ask (CArm t)); [done|].
    does_skip does_fail_if; [done|]. does_step (does_ask COpErr); [done|].
    does_skip does_fail_if; [done|]. does_step does_now; [lia|simpl; lia|].
    does_skip does_fail_if; [apply Z.leb_gt; lia|]. does_skip does_modify. apply does_ret.
  - done.
Qed.

Definition acquire_script : list reply :=
  [RNow n0; RRec r; RBool false; RNow n] ++ [] ++
  [RNonce nonce; RNow b; RTicket t; RBool false; RNow a] ++
  [RRec out; RNow n1; RBool false; RBool true; RBool false; RNow n2].

(** C38: Progress.  A running controller that has watched a valid record, unchanged, for the ticket
    window and its margin takes it in its next [Step] if every call succeeds in time: the step
    reports an acknowledged write and an armed ticket, and the controller then owns the record the
    authority acknowledged, with its own holder identity and the next epoch. *)
Theorem Step_acquires : ∃ c',
  replay acquire_script (Step c) = Some (c', inl (mkResult true true t)) ∧
  ack c' = true ∧ own c' = out.
Proof.
  destruct acquire_observe as (c1 & H1 & E1). pose proof (acquire_decide c1 E1) as H2.
  injection E1 as Ea Er Es Ec El.
  destruct (acquire_commit (set_last a (set_last b (set_ack false c1)))) as (c2 & H3 & Hack & Hown);
    [done|done|].
  exists c2. split; [|done]. unfold Step, acquire_script. rewrite <- (app_nil_r (_ ++ _)).
  eapply (replay_bind _ _ _ [] (c2, inl (mkResult true true t))); [|done]. unfold step_body.
  eapply (does_bind _ _ _ _ _ _ _ (r, n)); [exact H1|].
  eapply (does_bind _ _ _ _ _ _ _ tt); [exact H2|].
  eapply (does_bind _ _ _ _ _ _ _ (nonce, t)); [by apply acquire_capture|]. exact H3.
Qed.
End acquire.

(** ** Running a node of a system *)
Section feed.
Context {Node : Type} `{!EqDecision Node} (clk : Node → Z → Z) (init_rec : Record_).

Abbreviation cur := (cur_of (Node := Node) init_rec).
Abbreviation SStep := (sstep (Node := Node) clk init_rec).

Definition record_after (t : list item) (e : call_) : answer e → Record_ :=
  match e as e return answer e → Record_ with
  | CCAS _ _ => λ x, match x with inl out => out | inr _ => cur t end
  | _ => λ _, cur t
  end.
Definition outside_ok (t : list item) (i : Node) (T : Z) (e : call_) : answer e → bool :=
  match e as e return answer e → bool with
  | CNow => λ n, bool_decide (is_u64 n ∧ n = clk i T)
  | CCapture => λ x,
      match x with Some k => bool_decide (is_u64 (Captured k) ∧ is_u64 (Deadline k)) | None => true end
  | CGet => λ x, match x with inl r => bool_decide (r = cur t) | inr _ => true end
  | CCAS old next => λ x,
      match x with
      | inl out => bool_decide (UID old = UID (cur t) ∧ RV old = RV (cur t) ∧
                     RV out ∉ RV (cur t) :: seen t ∧ out = with_RV next (RV out))
      | inr _ => true
      end
  | _ => λ _, true
  end.
Fixpoint feed {A} (i : Node) (t : list item) (p : prog answer A) (sc : list (Z * reply))
    {struct sc} : option (list item * prog answer A) :=
  match sc with
  | [] => Some (t, p)
  | (T, rp) :: sc =>
      match p with
      | Ret _ => None
      | Call e k =>
          x ← reply_for e rp;
          if bool_decide (up_to t T) && outside_ok t i T e x
          then feed i (t ++ [ICall i (mkEntry T e x) (cur t) (record_after t e x)]) (k x) sc
          else None
      end
  end.

Lemma outside_ok_sound t i T e x : outside_ok t i T e x = true →
  ans_ok (mkEntry T e x) ∧ clock clk i (mkEntry T e x) ∧
  authority init_rec t (cur t) (record_after t e x) (mkEntry T e x).
Proof.
  destruct e; unfold ans_ok, clock, authority, applied, fresh; simpl in *; try done.
  - intros [H1 H2]%bool_decide_eq_true. auto.
  - destruct x; [intros ->%bool_decide_eq_true|]; done.
  - destruct x as [out|]; [|by auto]. intros (H1 & H2 & H3 & H4)%bool_decide_eq_true. eauto 10.
  - destruct x; [intros [??]%bool_decide_eq_true|]; done.
Qed.

Lemma feed_reach i sc : ∀ (s : sys) p t' p',
  nodes s i = Busy p → feed i (tr s) p sc = Some (t', p') →
  ∃ s', rtc SStep s s' ∧ tr s' = t' ∧ nodes s' i = Busy p'.
Proof.
  induction sc as [|[T rp] sc IH]; intros s p t' p' Hn; cbn [feed].
  { intros [= <- <-]. by exists s. }
  destruct p as [r0|e k]; [done|]. destruct (reply_for e rp) as [x|]; [|done]. simpl.
  destruct (bool_decide_reflect (up_to (tr s) T)) as [Hup|]; [|done].
  destruct (outside_ok _ _ _ _ _) eqn:Ho; [|done]. simpl. intros Hf.
  apply outside_ok_sound in Ho as (H1 & H2 & H3).
  destruct (IH (mkSys (tr s ++ [ICall i (mkEntry T e x) (cur (tr s)) (record_after (tr s) e x)])
    (set_node s i (Busy (k x)))) (k x) t' p') as (s' & Hr & Ht & Hn'); [|done|].
  { simpl. unfold set_node. by rewrite decide_True. }
  exists s'. split; [|done]. eapply rtc_l; [|exact Hr]. by eapply s_call.
Qed.

(** One whole [Step] of node [i]. *)
Lemma feed_step i (s : sys) c sc t' c' o :
  nodes s i = Idle c → feed i (tr s) (Step c) sc = Some (t', Ret (c', o)) →
  ∃ s', rtc SStep s s' ∧ tr s' = t' ∧ nodes s' i = Idle c'.
Proof.
  intros Hn Hf. destruct (feed_reach i sc (mkSys (tr s) (set_node s i (Busy (Step c)))) (Step c) t'
    (Ret (c', o))) as (s' & Hr & Ht & Hn'); [|done|].
  { simpl. unfold set_node. by rewrite decide_True. }
  exists (mkSys (tr s') (set_node s' i (Idle c'))). split; [|split; [done|]].
  - eapply rtc_l; [by eapply s_start|]. eapply rtc_r; [exact Hr|]. by eapply s_return.
  - simpl. unfold set_node. by rewrite decide_True.
Qed.
End feed.

(** ** A concrete run

    Two nodes with the same clock and a margin of a second; node [true] watches an unowned record
    for six seconds, then takes it. *)
Definition hex64 (d : Z) : bytes := repeat d 64.
Definition ex_cfg (i : bool) : Config :=
  mkConfig (hex64 (if i then 49 else 50)) second (10 * second).
Definition ex_clk (i : bool) (T : Z) : Z := T.
Definition ex_rec : Record_ := mkRecord_ [117] [49] [] (hex64 48) Protocol 7.
Definition ex_out : Record_ := mkRecord_ [117] [50] (hex64 49) (hex64 51) Protocol 8.
Definition ex_ticket : Ticket := mkTicket (7 * second + 2) (12 * second).

Definition ex_script1 : list (Z * reply) :=
  [(1, RBool true); (1, RBool false); (1, RNow 1); (2, RRec ex_rec); (2, RBool false); (3, RNow 3);
   (4, RBool true); (4, RBool false)].
Definition ex_answers2 : list reply :=
  acquire_script ex_rec ex_out (hex64 51) ex_ticket (7 * second) (7 * second + 1) (7 * second + 1)
    (7 * second + 3) (7 * second + 4) (7 * second + 5).
Definition ex_script2 : list (Z * reply) :=
  zip [7 * second; 7 * second; 7 * second; 7 * second + 1; 7 * second + 1; 7 * second + 1;
       7 * second + 2; 7 * second + 2; 7 * second + 3; 7 * second + 3; 7 * second + 4; 7 * second + 4;
       7 * second + 5; 7 * second + 5; 7 * second + 5] ex_answers2.

Abbreviation ex_init := (init ex_cfg).
Abbreviation ex_step := (sstep ex_clk ex_rec).

Definition ex_watching : Controller :=
  mkController (ex_cfg true) 3 3 [117] [49] zero_record ex_rec false true false.

Definition ex_owning : Controller :=
  mkController (ex_cfg true) (7 * second + 5) 0 [117] [] ex_out ex_rec true true false.
Definition ex_trace1 : list item := Eval vm_compute in
  from_option fst [] (feed ex_clk ex_rec true [] (Step (new_controller (ex_cfg true))) ex_script1).
Definition ex_trace2 : list item := Eval vm_compute in
  from_option fst [] (feed ex_clk ex_rec true ex_trace1 (Step ex_watching) ex_script2).

Lemma ex_run : ∃ s, rtc ex_step ex_init s ∧ tr s = ex_trace2 ∧ nodes s true = Idle ex_owning.
Proof.
  destruct (feed_step ex_clk ex_rec true ex_init (new_controller (ex_cfg true)) ex_script1
    ex_trace1 ex_watching (inl zero_result)) as (s & Hr & Ht & Hn); [done|vm_compute; reflexivity|].
  destruct (feed_step ex_clk ex_rec true s ex_watching ex_script2
    ex_trace2 ex_owning (inl (mkResult true true ex_ticket))) as (s' & Hr' & Ht' & Hn');
    [done|rewrite Ht; vm_compute; reflexivity|].
  exists s'. split; [by etrans|done].
Qed.

(** Eight seconds in, node [true] forwards, and the theorem says only it does. *)
Lemma at_most_one_forwards_witness :
  ∃ s, rtc ex_step ex_init s ∧ may_forward ex_clk s true (8 * second) ∧
    ∀ j, may_forward ex_clk s j (8 * second) → j = true.
Proof.
  destruct ex_run as (s & Hr & Ht & _). exists s. split; [done|].
  assert (may_forward ex_clk s true (8 * second)) as Hf.
  { exists (7 * second + 5), ex_ticket, true, ex_out, ex_out. rewrite Ht.
    split; [|by_compute]. apply (list_elem_of_lookup_2 _ 20). reflexivity. }
  split; [done|]. intros j Hj.
  refine (at_most_one_forwards ex_cfg ex_clk ex_rec _ _ _ s j true (8 * second) Hr _ Hj Hf).
  - done.
  - unfold ex_clk. intros i j' T T' _ H. change (Margin (ex_cfg j')) with second in H.
    unfold second in H. lia.
  - intros i. split; by_compute.
  - rewrite Ht. unfold up_to. by_compute.
Defined.

Lemma Step_acquires_witness : ∃ c',
  replay ex_answers2 (Step ex_watching) = Some (c', inl (mkResult true true ex_ticket)) ∧
  ack c' = true ∧ own c' = ex_out.
Proof.
  apply Step_acquires.
  - split; by_compute.
  - split; by_compute.
Defined.

Lemma Step_outcomes_witness :
  every_run (Step ex_watching) (λ '(c', o), returned c' o).
Proof. apply Step_outcomes. reflexivity. Defined.
