(* ===== verification/LeaseDriver.v ===== *)
(** * The driver gate and the boot clock

    deploy/failover/lease/driver.go and clock.go (and [BootClock.Now] of binding_linux.go): the gate
    the lease controller drives is a child process behind a line protocol on a private pipe.  An
    exchange either is acknowledged exactly, or poisons the connection for good.  The pipe, the
    process and the procfs checks are the outside; what they did during one exchange is an [io]. *)

From S2P Require Import Prelude.
From S2P Require Import GoText.
From S2P Require Import LeaseController.

Definition zero_ticket : Ticket := mkTicket 0 0.

Record DriverGate := mkGate {
  poisoned : bool; dual : bool; ticket : Ticket; lastCapture : Z;
  ifindex : Z; program : Z; backend : Z }.

(** Only [ErrGateUncertain] is ever returned; [None] below. *)
Definition decimal (s : bytes) (bits : Z) : option Z :=
  if beq s [] || (20 <? len s) || ((1 <? len s) && bool_decide (head s = Some 48)) then None
  else if negb (forallb is_digit s) then None
  else match ParseUint s bits with
       | Some n => if n =? 0 then None else Some n
       | None => None
       end.

(** [readDriverLine]: one octet per read, at most 127; the stream is what the pipe delivers before
    it ends or its deadline passes. *)
Fixpoint read_line_loop (room : nat) (b stream : bytes) : option (bytes * bytes) :=
  match room, stream with
  | O, _ => None
  | _, [] => None
  | S room, one :: stream =>
      if one =? 10 then Some (b, stream)
      else if (one <? 32) || (126 <? one) then None
      else read_line_loop room (b ++ [one]) stream
  end.
Definition readDriverLine (stream : bytes) : option (bytes * bytes) := read_line_loop 127 [] stream.

Definition poison (g : DriverGate) : DriverGate :=
  mkGate true (dual g) (ticket g) (lastCapture g) (ifindex g) (program g) (backend g).
Definition set_ticket (t : Ticket) (g : DriverGate) : DriverGate :=
  mkGate (poisoned g) (dual g) t (lastCapture g) (ifindex g) (program g) (backend g).

(** The outside during one exchange. *)
Record io := mkIo {
  locked : bool;            (* the lock was acquired before the context ended *)
  deadlines_set : bool;     (* both pipe deadlines could be set *)
  verify_before : bool;     (* process and namespace identity, before and after *)
  written : bool;           (* the command was written in full *)
  stream : bytes;           (* what the driver sends *)
  verify_after : bool;
  in_time : bool;           (* the context did not end during the exchange *)
}.

(** [exchangeChecked]: what was written to the driver, the gate, and whether the exchange was
    acknowledged.  [before] may refuse; [accept] checks the line and updates the gate. *)
Definition exchangeChecked (g : DriverGate) (command : bytes) (before : DriverGate → bool)
    (accept : bytes → DriverGate → DriverGate * bool) (o : io) : list bytes * DriverGate * bool :=
  if negb (locked o) then ([], poison g, false)
  else if poisoned g then ([], g, false)
  else if negb (deadlines_set o) then ([], poison g, false)
  else if negb (verify_before o && before g) then ([], poison g, false)
  else
    let sent := if beq command [] then [] else [command ++ [10]] in
    if negb (beq command []) && negb (written o) then (sent, poison g, false)
    else match readDriverLine (stream o) with
         | None => (sent, poison g, false)
         | Some (line, _) =>
             let '(g', ok) := accept line g in
             if negb (in_time o) || negb (ok && verify_after o) then (sent, poison g', false)
             else (sent, g', true)
         end.
Definition exchange (g : DriverGate) (command : bytes)
    (accept : bytes → DriverGate → DriverGate * bool) (o : io) : list bytes * DriverGate * bool :=
  exchangeChecked g command (λ _, true) accept o.

Definition space : Z := 32.
Definition horizon : bytes := str "horizon_ns=5000000000".
Definition set_backend (n : Z) (g : DriverGate) :=
  mkGate (poisoned g) (dual g) (ticket g) (lastCapture g) (ifindex g) (program g) n.
Definition set_ifindex (n : Z) (g : DriverGate) :=
  mkGate (poisoned g) (dual g) (ticket g) (lastCapture g) n (program g) (backend g).
Definition set_program (n : Z) (g : DriverGate) :=
  mkGate (poisoned g) (dual g) (ticket g) (lastCapture g) (ifindex g) n (backend g).

(** The banner after the dual-egress fields have been taken out of it. *)
Definition ready_single (p : list bytes) (g : DriverGate) : DriverGate * bool :=
  match p with
  | [w; i; pr; h] =>
      if beq w (str "READY") && HasPrefix i (str "ifindex=") && HasPrefix pr (str "program=") &&
         beq h horizon
      then
        match decimal (TrimPrefix i (str "ifindex=")) 31 with
        | None => (set_ifindex 0 g, false)
        | Some n =>
            let g := set_ifindex n g in
            if dual g && (backend g =? n) then (g, false)
            else match decimal (TrimPrefix pr (str "program=")) 32 with
                 | None => (set_program 0 g, false)
                 | Some m => (set_program m g, true)
                 end
        end
      else (g, false)
  | _ => (g, false)
  end.
Definition ready_accept (line : bytes) (g : DriverGate) : DriverGate * bool :=
  let p := Split line space in
  if dual g then
    match p with
    | [w; i; b; pr; h] =>
        if beq w (str "READY2") && HasPrefix b (str "backend=") then
          match decimal (TrimPrefix b (str "backend=")) 31 with
          | None => (set_backend 0 g, false)
          | Some n => ready_single [str "READY"; i; pr; h] (set_backend n g)
          end
        else (g, false)
    | _ => (g, false)
    end
  else ready_single p g.
Definition ready (g : DriverGate) (o : io) : list bytes * DriverGate * bool :=
  exchange g [] ready_accept o.

Definition capture_accept (line : bytes) (g : DriverGate) : DriverGate * bool :=
  match Split line space with
  | [w; c; d] =>
      if beq w (str "TICKET") then
        match decimal c 64, decimal d 64 with
        | Some c, Some d =>
            if (c <=? lastCapture g) || (d <=? c) || negb (u64 (d - c) =? MaxKernelWindow) then (g, false)
            else (mkGate (poisoned g) (dual g) (mkTicket c d) c (ifindex g) (program g) (backend g), true)
        | _, _ => (g, false)
        end
      else (g, false)
  | _ => (g, false)
  end.
Definition Capture (g : DriverGate) (o : io) : list bytes * DriverGate * option Ticket :=
  let '(sent, g', ok) :=
    exchangeChecked g (str "CAPTURE") (λ g, bool_decide (ticket g = zero_ticket)) capture_accept o in
  (sent, g', if ok then Some (ticket g') else None).

Definition Arm (g : DriverGate) (t : Ticket) (o : io) : list bytes * DriverGate * bool :=
  exchangeChecked g (str "ARM " ++ FormatUint (Captured t))
    (λ g, negb (Captured t =? 0) && bool_decide (t = ticket g))
    (λ line g, if beq line (str "ARMED") then (set_ticket zero_ticket g, true) else (g, false)) o.
Definition Deny (g : DriverGate) (o : io) : list bytes * DriverGate * bool :=
  exchange g (str "DENY")
    (λ line g, if beq line (str "DENIED") then (set_ticket zero_ticket g, true) else (g, false)) o.

(** [Close]: a DENY, then the connection is closed for good; [reaped] is whether the child's exit was
    seen in time. *)
Definition Close (g : DriverGate) (o : io) (reaped : bool) : list bytes * DriverGate * bool :=
  let '(sent, g', ok) := Deny g o in (sent, poison g', ok && reaped).

(** ** clock.go *)

(** [zeroOffsets]: both clocks present once, both offsets zero. *)
Fixpoint zero_offsets_loop (lines : list bytes) (seen : list bytes) : option (list bytes) :=
  match lines with
  | [] => Some seen
  | line :: lines =>
      match Fields line with
      | [w; a; b] =>
          if (negb (beq w (str "monotonic")) && negb (beq w (str "boottime"))) ||
             bool_decide (w ∈ seen) || negb (beq a (str "0")) || negb (beq b (str "0"))
          then None
          else zero_offsets_loop lines (w :: seen)
      | _ => None
      end
  end.
Definition zeroOffsets (s : bytes) : bool :=
  match zero_offsets_loop (Split (TrimSuffix s [10]) 10) [] with
  | None => false
  | Some seen => bool_decide (str "monotonic" ∈ seen) && bool_decide (str "boottime" ∈ seen)
  end.

Record BootClock := mkBootClock { bc_last : Z; bc_failed : bool }.

(** [Now]: [domain] is whether each check of the clock domain passes, [ts] what clock_gettime gives
    (seconds and nanoseconds, signed 64 bits each). *)
Definition Now (c : BootClock) (domain1 : bool) (ts : option (Z * Z)) (domain2 : bool)
    : BootClock * Z :=
  let failed := (mkBootClock (bc_last c) true, 0) in
  if bc_failed c then (c, 0)
  else if negb domain1 then failed
  else match ts with
  | None => failed
  | Some (sec, nsec) =>
      if negb domain2 then failed
      else if (sec <? 0) || (nsec <? 0) || (1000000000 <=? nsec) ||
              ((MaxUint64 - nsec) `div` 1000000000 <? sec) then failed
      else
        let n := u64 (sec * 1000000000 + nsec) in
        if (n =? 0) || (n <? bc_last c) then failed
        else (mkBootClock n false, n)
  end.

(** ** What the gate promises the controller *)

Lemma exchangeChecked_ok g cmd before accept o sent g' :
  exchangeChecked g cmd before accept o = (sent, g', true) →
  poisoned g = false ∧ before g = true ∧ verify_before o = true ∧ verify_after o = true ∧
  ∃ line rest, readDriverLine (stream o) = Some (line, rest) ∧ accept line g = (g', true).
Proof.
  unfold exchangeChecked. destruct (locked o); [|done]. destruct (poisoned g); [done|].
  destruct (deadlines_set o); [|done]. destruct (verify_before o && before g) eqn:Hb; [|done].
  apply andb_true_iff in Hb as [Hv Hb]. simpl. destruct (_ && _); [done|].
  destruct (readDriverLine (stream o)) as [[line rest]|]; [|done].
  destruct (accept line g) as [g1 ok] eqn:Ha. destruct (in_time o), ok, (verify_after o); try done.
  simpl. intros [= <- <-]. eauto 10.
Qed.
Lemma exchangeChecked_fail g cmd before accept o sent g' :
  exchangeChecked g cmd before accept o = (sent, g', false) → poisoned g' = true.
Proof.
  unfold exchangeChecked. intros H.
  repeat match type of H with
  | context [if ?b then _ else _] => destruct b eqn:?; simpl in H; try (by simplify_eq)
  | context [match ?x with Some _ => _ | None => _ end] => destruct x as [[? ?]|]; simpl in H; try (by simplify_eq)
  | context [let '(_, _) := ?x in _] => destruct x; simpl in H
  end.
Qed.
Lemma exchangeChecked_poisoned g cmd before accept o :
  poisoned g = true → ∃ g', exchangeChecked g cmd before accept o = ([], g', false) ∧ poisoned g' = true.
Proof. intros Hp. unfold exchangeChecked. rewrite Hp. destruct (locked o); eauto. Qed.

(** The operations the controller calls, as one transition system. *)
Inductive gate_op : Type := OpCapture | OpArm (t : Ticket) | OpDeny | OpClose (reaped : bool).
Definition gate_step (g : DriverGate) (op : gate_op) (o : io) : list bytes * DriverGate * bool :=
  match op with
  | OpCapture => let '(sent, g', t) := Capture g o in (sent, g', bool_decide (is_Some t))
  | OpArm t => Arm g t o
  | OpDeny => Deny g o
  | OpClose reaped => Close g o reaped
  end.

(** A history of operations on one connection: what was called and what came of it. *)
Inductive gate_run (g0 : DriverGate) : list (gate_op * option Ticket * bool) → DriverGate → Prop :=
| gr_nil : gate_run g0 [] g0
| gr_step h g op o sent g' ok :
    gate_run g0 h g → gate_step g op o = (sent, g', ok) →
    gate_run g0 (h ++ [(op, (match op with OpCapture => (Capture g o).2 | _ => None end), ok)]) g'.

Definition captured (h : list (gate_op * option Ticket * bool)) : list Ticket :=
  omap (λ x, match x with ((OpCapture, Some t), true) => Some t | _ => None end) h.
Definition armed (h : list (gate_op * option Ticket * bool)) : list Ticket :=
  omap (λ x, match x with ((OpArm t, _), true) => Some t | _ => None end) h.

Definition ticket_ok (t : Ticket) : Prop :=
  0 < Captured t ∧ Deadline t = Captured t + MaxKernelWindow.

(** The outstanding ticket is the last one captured, and captures only go up. *)
Record gate_inv (h : list (gate_op * option Ticket * bool)) (g : DriverGate) : Prop := {
  gi_last : 0 ≤ lastCapture g;
  gi_captured : Forall (λ t, ticket_ok t ∧ Captured t ≤ lastCapture g) (captured h);
  gi_sorted : StronglySorted (λ t u, Captured t < Captured u) (captured h);
  gi_ticket : poisoned g = true ∨ ticket g = zero_ticket ∨
    Captured (ticket g) = lastCapture g ∧ ticket g ∈ captured h ∧ ticket g ∉ armed h;
  gi_armed : ∀ t, t ∈ armed h → t ∈ captured h;
  gi_once : NoDup (armed h);
}.

Lemma decimal_pos s bits n : decimal s bits = Some n → 0 < n < 2 ^ bits.
Proof.
  unfold decimal, ParseUint. case_match; [done|].
  destruct (forallb is_digit s) eqn:Hd; [|done]. simpl. rewrite orb_false_r.
  destruct (beq_nil s); [done|]. destruct (Z.leb_spec (2 ^ bits) (digits_val s)); [done|].
  destruct (Z.eqb_spec (digits_val s) 0); [done|]. intros [= <-].
  assert (0 ≤ digits_val s); [|lia]. clear -Hd. unfold digits_val.
  assert (∀ v, 0 ≤ v → 0 ≤ foldl (λ v c, 10 * v + (c - 48)) v s) as H; [|by apply H].
  induction s as [|c s IH]; intros v Hv; [done|]. simpl in *.
  apply andb_true_iff in Hd as [Hc Hd]. apply IH; [done|]. unfold is_digit in Hc. lia.
Qed.
Lemma capture_accept_ok line g g' :
  capture_accept line g = (g', true) →
  ticket_ok (ticket g') ∧ Captured (ticket g') = lastCapture g' ∧ lastCapture g < lastCapture g'.
Proof.
  unfold capture_accept. destruct (Split line space) as [|w [|c [|d [|]]]]; try done.
  destruct (beq w _); [|done]. destruct (decimal c 64) as [c'|] eqn:Hc; [|done].
  destruct (decimal d 64) as [d'|] eqn:Hd; [|done].
  apply decimal_pos in Hc, Hd.
  destruct (Z.leb_spec c' (lastCapture g)); [done|]. destruct (Z.leb_spec d' c'); [done|]. simpl.
  destruct (Z.eqb_spec (u64 (d' - c')) MaxKernelWindow) as [E|]; [|done]. simpl. intros [= <-].
  unfold ticket_ok. simpl. unfold u64 in E. rewrite Z.mod_small in E by lia. lia.
Qed.

Lemma captured_snoc h op t ok : captured (h ++ [(op, t, ok)]) =
  captured h ++ match op, t, ok with OpCapture, Some t, true => [t] | _, _, _ => [] end.
Proof. unfold captured. rewrite omap_app. simpl. by destruct op, t, ok. Qed.
Lemma armed_snoc h op t ok : armed (h ++ [(op, t, ok)]) =
  armed h ++ match op, ok with OpArm t, true => [t] | _, _ => [] end.
Proof. unfold armed. rewrite omap_app. simpl. by destruct op, ok. Qed.

(** Whatever the outcome, the gate is what it was or what [accept] made of it, up to the poison. *)
Lemma exchangeChecked_keeps (R : DriverGate → Prop) g cmd before accept o :
  R g → (∀ g, R g → R (poison g)) → (∀ line, R (accept line g).1) →
  R (exchangeChecked g cmd before accept o).1.2.
Proof.
  intros Hg Hp Ha. unfold exchangeChecked. do 5 (case_match; [simpl; by auto|]).
  destruct (readDriverLine (stream o)) as [[line rest]|]; [|by apply Hp].
  specialize (Ha line). destruct (accept line g) as [g1 ok]. case_match; simpl; auto.
Qed.
Lemma capture_accept_last line g : lastCapture g ≤ lastCapture (capture_accept line g).1.
Proof.
  destruct (capture_accept line g) as [g' []] eqn:E; simpl.
  - apply capture_accept_ok in E as (_ & _ & ?). lia.
  - unfold capture_accept in E. repeat (case_match; simplify_eq/=; try lia).
Qed.
Lemma gate_step_last g op o sent g' ok :
  gate_step g op o = (sent, g', ok) → lastCapture g ≤ lastCapture g'.
Proof.
  assert (∀ cmd before accept, (∀ line, lastCapture g ≤ lastCapture (accept line g).1) →
    lastCapture g ≤ lastCapture (exchangeChecked g cmd before accept o).1.2) as H.
  { intros. apply (exchangeChecked_keeps (λ g', lastCapture g ≤ lastCapture g')); [lia|done|done]. }
  destruct op; simpl; unfold Capture, Arm, Deny, Close, exchange.
  - specialize (H (str "CAPTURE") (λ g, bool_decide (ticket g = zero_ticket)) capture_accept).
    destruct (exchangeChecked _ _ _ _ _) as [[s1 g1] ok1]. intros [= <- <- _].
    apply H. intros. apply capture_accept_last.
  - intros E. change g' with (sent, g', ok).1.2. rewrite <- E. apply H.
    intros line. by case_match.
  - intros E. change g' with (sent, g', ok).1.2. rewrite <- E. apply H.
    intros line. by case_match.
  - unfold Deny, exchange. specialize (H (str "DENY") (λ _, true)
      (λ line g, if beq line (str "DENIED") then (set_ticket zero_ticket g, true) else (g, false))).
    destruct (exchangeChecked _ _ _ _ _) as [[s1 g1] ok1]. intros [= <- <- _]. simpl.
    apply H. intros line. by case_match.
Qed.
Lemma gate_step_fail g op o sent g' : gate_step g op o = (sent, g', false) → poisoned g' = true.
Proof.
  destruct op; simpl; unfold Capture, Arm, Deny, Close, exchange.
  - destruct (exchangeChecked _ _ _ _ _) as [[s1 g1] []] eqn:E; [done|].
    intros [= <- <-]. by eapply exchangeChecked_fail.
  - apply exchangeChecked_fail.
  - apply exchangeChecked_fail.
  - destruct (Deny g o) as [[s1 g1] ok1]. by intros [= <- <- _].
Qed.
Lemma gate_step_poisoned g op o sent g' ok :
  poisoned g = true → gate_step g op o = (sent, g', ok) → sent = [] ∧ ok = false ∧ poisoned g' = true.
Proof.
  intros Hp. destruct op; simpl; unfold Capture, Arm, Close, Deny, exchange;
    match goal with |- context [exchangeChecked ?a ?b ?c ?d ?e] =>
      destruct (exchangeChecked_poisoned a b c d e Hp) as (g1 & -> & H1) end;
    intros ?; by simplify_eq/=.
Qed.

Definition fresh_gate (g : DriverGate) : Prop := ticket g = zero_ticket ∧ lastCapture g = 0.

(** What an acknowledged operation did. *)
Lemma Capture_true g o sent g' : gate_step g OpCapture o = (sent, g', true) →
  ticket g = zero_ticket ∧ (Capture g o).2 = Some (ticket g') ∧ ticket_ok (ticket g') ∧
  Captured (ticket g') = lastCapture g' ∧ lastCapture g < lastCapture g'.
Proof.
  unfold gate_step, Capture. destruct (exchangeChecked _ _ _ _ _) as [[s1 g1] []] eqn:E; [|done].
  intros [= <- <-]. apply exchangeChecked_ok in E as (_ & Hb%bool_decide_eq_true & _ & _ & line & rest & _ & Ha).
  apply capture_accept_ok in Ha. done.
Qed.
Lemma Arm_true g t o sent g' : gate_step g (OpArm t) o = (sent, g', true) →
  poisoned g = false ∧ Captured t ≠ 0 ∧ t = ticket g ∧ g' = set_ticket zero_ticket g.
Proof.
  intros (Hp & Hb & _ & _ & line & rest & _ & Ha)%exchangeChecked_ok.
  apply andb_true_iff in Hb as [H0%negb_true_iff%Z.eqb_neq Ht%bool_decide_eq_true].
  case_match; by simplify_eq.
Qed.
Lemma Deny_true g o sent g' : Deny g o = (sent, g', true) → g' = set_ticket zero_ticket g.
Proof.
  intros (_ & _ & _ & _ & line & rest & _ & Ha)%exchangeChecked_ok. case_match; by simplify_eq.
Qed.

Lemma captured_le h g t n : gate_inv h g → lastCapture g < n → t ∈ captured h → Captured t < n.
Proof.
  intros [_ Hc _ _ _ _] Hn Hin. rewrite Forall_forall in Hc. destruct (Hc t Hin). lia.
Qed.
Lemma sorted_snoc h g t : gate_inv h g → lastCapture g < Captured t →
  StronglySorted (λ t u, Captured t < Captured u) (captured h ++ [t]).
Proof.
  intros HI Hn. pose proof (gi_sorted _ _ HI) as Hs.
  assert (Forall (λ u, Captured u < Captured t) (captured h)) as Hf.
  { apply Forall_forall. intros. by eapply captured_le. }
  clear HI Hn. induction Hs as [|a l Hs IH Ha]; simpl; [repeat constructor|].
  apply Forall_cons in Hf as [Hat Hf]. constructor; [by apply IH|].
  apply Forall_app. split; [done|]. by constructor.
Qed.

(** A step that captures nothing and arms nothing keeps the invariant if the gate is poisoned or
    holds no ticket. *)
Lemma gate_inv_quiet h g g' op x ok :
  gate_inv h g → lastCapture g ≤ lastCapture g' → (poisoned g' = true ∨ ticket g' = zero_ticket) →
  (ok = true → op ≠ OpCapture ∧ ∀ t, op ≠ OpArm t) →
  gate_inv (h ++ [(op, x, ok)]) g'.
Proof.
  intros [Hl Hc Hs Ht Ha Hn] Hle Hz Hop.
  assert (captured (h ++ [(op, x, ok)]) = captured h) as Ec.
  { rewrite captured_snoc. destruct op, x, ok; try apply app_nil_r. by destruct (Hop eq_refl). }
  assert (armed (h ++ [(op, x, ok)]) = armed h) as Ea.
  { rewrite armed_snoc. destruct op, ok; try apply app_nil_r. destruct (Hop eq_refl) as [_ H]. by destruct (H t). }
  split; rewrite ?Ec, ?Ea; try done; [lia| |tauto].
  eapply Forall_impl; [exact Hc|]. simpl. intros t [??]. split; [done|lia].
Qed.

Lemma gate_inv_step h g op o sent g' ok :
  gate_inv h g → gate_step g op o = (sent, g', ok) →
  gate_inv (h ++ [(op, (match op with OpCapture => (Capture g o).2 | _ => None end), ok)]) g'.
Proof.
  intros HI E. pose proof (gate_step_last _ _ _ _ _ _ E) as Hle. destruct ok.
  2:{ apply (gate_inv_quiet h g); [done|done|left; by eapply gate_step_fail|done]. }
  destruct op as [|t| |reaped].
  - apply Capture_true in E as (_ & -> & Hok & Hcap & Hlt). pose proof HI as [Hl Hc Hs Ht Ha Hn].
    assert (ticket g' ∉ captured h) as Hnew.
    { intros Hin. apply (captured_le h g _ (lastCapture g') HI Hlt) in Hin. lia. }
    split; rewrite ?captured_snoc, ?armed_snoc, ?app_nil_r; [lia| |by apply (sorted_snoc h g); [|lia]| | |done].
    + apply Forall_app. split; [|apply Forall_singleton; split; [done|lia]].
      eapply Forall_impl; [exact Hc|]. simpl. intros u [??]. split; [done|lia].
    + right. right. split; [done|]. split; [apply elem_of_app; right; left|]. intros Hin. by apply Hnew, Ha.
    + intros u Hu. apply elem_of_app. left. by apply Ha.
  - apply Arm_true in E as (Hp & H0 & -> & ->). destruct HI as [Hl Hc Hs Ht Ha Hn].
    destruct Ht as [Ht|[Ht|(Ht & Hin & Hnin)]]; [congruence|by rewrite Ht in H0|].
    split; rewrite ?captured_snoc, ?armed_snoc, ?app_nil_r; try done; [by right; left| |].
    + intros u [Hu|Hu]%elem_of_app; [by apply Ha|]. apply list_elem_of_singleton in Hu as ->. done.
    + apply NoDup_app. split; [done|]. split; [|apply NoDup_singleton].
      intros u Hu Hu'. apply list_elem_of_singleton in Hu' as ->. done.
  - apply Deny_true in E as ->. apply (gate_inv_quiet h g); [done|done|by right|done].
  - apply (gate_inv_quiet h g); [done|done| |done]. left. simpl in E. unfold Close in E.
    destruct (Deny g o) as [[s1 g1] ok1]. injection E as <- <- _. done.
Qed.

Lemma gate_run_inv g0 h g : fresh_gate g0 → gate_run g0 h g → gate_inv h g.
Proof.
  intros [Ht Hl]. induction 1 as [|h g op o sent g' ok _ IH E].
  - split; [lia|constructor|constructor|by right; left|by intros ? ?%elem_of_nil|constructor].
  - by eapply gate_inv_step.
Qed.
Lemma gate_run_failed g0 h g : gate_run g0 h g → (∃ x, x ∈ h ∧ x.2 = false) → poisoned g = true.
Proof.
  induction 1 as [|h g op o sent g' ok _ IH E]; intros (x & Hin & Hx); [by apply elem_of_nil in Hin|].
  destruct ok; [|by eapply gate_step_fail].
  apply elem_of_app in Hin as [Hin|Hin]; [|by apply list_elem_of_singleton in Hin as ->].
  by eapply gate_step_poisoned in E as (_ & ? & _); [|by apply IH; exists x].
Qed.

(** C36: The contract the driver gate gives the lease controller, over any history of operations on a
    fresh connection and whatever the pipe and the driver do: captured tickets start later and
    later and last exactly the kernel window; only a captured ticket is ever armed, and at most
    once; and once an operation was not acknowledged, no later one is. *)
Theorem driver_gate_contract g0 h g :
  fresh_gate g0 → gate_run g0 h g →
  StronglySorted (λ t u, Captured t < Captured u) (captured h) ∧ Forall ticket_ok (captured h) ∧
  (∀ t, t ∈ armed h → t ∈ captured h) ∧ NoDup (armed h) ∧
  (∀ h1 x h2, h = h1 ++ x :: h2 → x.2 = false → Forall (λ y, y.2 = false) h2).
Proof.
  intros H0 H. destruct (gate_run_inv _ _ _ H0 H) as [_ Hc Hs _ Ha Hn].
  split; [done|]. split; [by eapply Forall_impl; [exact Hc|]; intros ? []|]. split; [done|]. split; [done|].
  clear Hc Hs Ha Hn. induction H as [|h g op o sent g' ok Hr IH E]; intros h1 x h2 Eh Hx; [by destruct h1|].
  destruct h2 as [|y h2 _] using rev_ind; [constructor|].
  rewrite app_comm_cons, app_assoc in Eh. apply app_inj_tail in Eh as [-> <-].
  apply Forall_app. split; [by eapply IH|]. apply Forall_singleton. simpl.
  eapply gate_step_poisoned in E as (_ & ? & _); [done|].
  eapply gate_run_failed; [exact Hr|]. exists x. split; [|done]. apply elem_of_app. right. left.
Qed.

(** [BootClock.Now] gives zero or a reading no smaller than any it gave before, whatever
    clock_gettime returns, and after one failure it gives zero for ever. *)
Theorem BootClock_monotone c d1 ts d2 :
  let '(c', n) := Now c d1 ts d2 in
  (n = 0 ∧ bc_last c' = bc_last c ∧ bc_failed c' = true ∨
   0 < n < 2 ^ 64 ∧ bc_last c ≤ n ∧ bc_last c' = n ∧ bc_failed c = false ∧ bc_failed c' = false) ∧
  (bc_failed c = true → n = 0).
Proof.
  unfold Now. destruct c as [l f]. simpl. destruct f; [by split; [left|]|].
  destruct d1; [|by split; [left|]]. destruct ts as [[sec nsec]|]; [|by split; [left|]].
  destruct d2; [|by split; [left|]]. simpl.
  destruct (_ || _ || _ || _) eqn:Hr; [by split; [left|]|].
  destruct (Z.eqb_spec (u64 (sec * 1000000000 + nsec)) 0); [by split; [left|]|].
  destruct (Z.ltb_spec (u64 (sec * 1000000000 + nsec)) l); [by split; [left|]|]. simpl.
  split; [|done]. right. unfold u64 in *.
  pose proof (Z.mod_pos_bound (sec * 1000000000 + nsec) (2 ^ 64)). lia.
Qed.

Lemma driver_gate_contract_witness :
  let g0 := mkGate false false zero_ticket 0 1 1 0 in
  let g1 := mkGate false false (mkTicket 1 5000000001) 1 1 1 0 in
  StronglySorted (λ t u, Captured t < Captured u) [mkTicket 1 5000000001] ∧
  gate_run g0 [(OpCapture, Some (mkTicket 1 5000000001), true)] g1.
Proof.
  intros g0 g1.
  assert (gate_run g0 [(OpCapture, Some (mkTicket 1 5000000001), true)] g1) as H.
  { eapply (gr_step g0 [] g0 OpCapture
      (mkIo true true true true (str "TICKET 1 5000000001" ++ [10]) true true)); [constructor|].
    vm_compute. reflexivity. }
  split; [|exact H].
  apply (driver_gate_contract g0 [(OpCapture, Some (mkTicket 1 5000000001), true)] g1); [by split|exact H].
Defined.
