(* ===== verification/Rollout.v ===== *)
(** * Staged rollouts

    mgmt/internal/rollout/rollout.go: the state machine that takes one group snapshot from pending
    through canaries and verification to the whole engine group, canary selection, and the version
    an engine is told to run. *)

From S2P Require Import Prelude.
From S2P Require Import Effects.

Inductive State : Type :=
| Pending | Canary | Verifying | Rolling | Completed | Halted | RolledBack | Superseded.
Inductive Strategy : Type := AllAtOnce | CanaryStrategy.
Inductive Kind : Type := KindChange | KindRollback | KindRepublish.

#[export] Instance State_eq_dec : EqDecision State.
Proof. solve_decision. Defined.
#[export] Instance Strategy_eq_dec : EqDecision Strategy.
Proof. solve_decision. Defined.
#[export] Instance Kind_eq_dec : EqDecision Kind.
Proof. solve_decision. Defined.

Definition Terminal (s : State) : bool :=
  match s with Completed | RolledBack | Superseded => true | _ => false end.

Definition CanaryLabel : bytes := str "nexora.io/canary".

Record Params := mkParams {
  p_Strategy : Strategy;
  CanaryCount : Z;
  CanaryPercent : Z;
  AckTimeoutSeconds : Z;
  HealthWindowSeconds : Z;
  MaxServfailRatio : float64;
  MinHealthQueries : Z;
}.

(** The reasons a rollout halts with, by their messages. *)
Inductive halt_reason : Type :=
| ReasonText (s : bytes)
| RejectedBy (name : bytes) (version : Z) (why : bytes)
| NotAppliedBy (name : bytes) (version seconds : Z)
| NoHealthFrom (name : bytes)
| ServfailRatio (name : bytes) (servfail queries : Z).

Abbreviation uuid := Z.

Record Rollout := mkRollout {
  r_ID : uuid;
  EngineGroupID : uuid;
  Version : Z;
  r_Kind : Kind;
  r_State : State;
  CanaryEngineIDs : list uuid;
  PhaseStartedAt : Z;
  HaltReason : halt_reason;
  r_Params : Params;
}.

Record Health := mkHealth { Samples : Z; Queries : Z; Servfail : Z }.

Record Engine := mkEngine {
  e_ID : uuid;
  e_Name : bytes;
  Labels : gmap bytes bytes;
  Connected : bool;
  AppliedVersion : Z;
  RejectedVersion : Z;
  RejectedReason : bytes;
  e_Health : Health;
}.

Record Observation := mkObs { o_Now : Z; GroupPaused : bool; Engines : list Engine }.

Definition enter (r : Rollout) (s : State) (now : Z) : Rollout :=
  mkRollout (r_ID r) (EngineGroupID r) (Version r) (r_Kind r) s (CanaryEngineIDs r) now
    (HaltReason r) (r_Params r).
Definition set_reason (r : Rollout) (why : halt_reason) : Rollout :=
  mkRollout (r_ID r) (EngineGroupID r) (Version r) (r_Kind r) (r_State r) (CanaryEngineIDs r)
    (PhaseStartedAt r) why (r_Params r).
Definition set_canaries (r : Rollout) (ids : list uuid) : Rollout :=
  mkRollout (r_ID r) (EngineGroupID r) (Version r) (r_Kind r) (r_State r) ids
    (PhaseStartedAt r) (HaltReason r) (r_Params r).
Definition set_state (r : Rollout) (s : State) : Rollout := enter r s (PhaseStartedAt r).

Definition halt (r : Rollout) (now : Z) (reason : halt_reason) : Rollout :=
  set_reason (enter r Halted now) reason.

Definition pick (es : list Engine) (ids : list uuid) : list Engine :=
  filter (λ e, e_ID e ∈ ids) es.

Fixpoint rejection (r : Rollout) (es : list Engine) : option halt_reason :=
  match es with
  | [] => None
  | e :: es =>
      if RejectedVersion e =? Version r
      then Some (RejectedBy (e_Name e) (Version r) (RejectedReason e))
      else rejection r es
  end.

Fixpoint firstUnapplied (r : Rollout) (es : list Engine) (connectedOnly : bool) : option Engine :=
  match es with
  | [] => None
  | e :: es =>
      if connectedOnly && negb (Connected e) then firstUnapplied r es connectedOnly
      else if AppliedVersion e <? Version r then Some e
      else firstUnapplied r es connectedOnly
  end.

(** ** Canary selection *)
Definition labelled (e : Engine) : bool := bool_decide (Labels e !! CanaryLabel = Some (str "true")).
Definition canary_less (a b : Engine) : bool :=
  if Bool.eqb (labelled a) (labelled b)
  then bool_decide (bytes_compare (e_Name a) (e_Name b) = Lt)
  else labelled a.

Definition canary_want (p : Params) (n : Z) : Z :=
  let want := Z.max (Z.max (CanaryCount p)
    (ceil_int (f64_div (f64_mul (f64_of_Z n) (f64_of_Z (CanaryPercent p))) (f64_of_Z 100)))) 1 in
  let want := if 2 <=? n then Z.min want (n - 1) else want in
  Z.min want n.

Definition SelectCanaries (p : Params) (engines : list Engine) : list uuid :=
  let connected := filter (λ e, Connected e = true) engines in
  let n := len connected in
  if n =? 0 then []
  else take (Z.to_nat (canary_want p n)) (map e_ID (stable_sort canary_less connected)).

(** ** Step *)

(** The health of the canaries; [None]: all of them pass. *)
Fixpoint health_failure (r : Rollout) (es : list Engine) : option halt_reason :=
  match es with
  | [] => None
  | e :: es =>
      let h := e_Health e in
      if Samples h <? 2 then Some (NoHealthFrom (e_Name e))
      else if (Queries h <? MinHealthQueries (r_Params r)) || (Queries h =? 0) then health_failure r es
      else
        let ratio := f64_div (f64_of_Z (Servfail h)) (f64_of_Z (Queries h)) in
        if f64_lt (MaxServfailRatio (r_Params r)) ratio
        then Some (ServfailRatio (e_Name e) (Servfail h) (Queries h))
        else health_failure r es
  end.

Definition Step (r : Rollout) (obs : Observation) : Rollout * bool :=
  if Terminal (r_State r) || bool_decide (r_State r = Halted) then (r, false)
  else
  let ackTimeout := seconds (AckTimeoutSeconds (r_Params r)) in
  let elapsed := time_Sub (o_Now obs) (PhaseStartedAt r) in
  match r_State r with
  | Pending =>
      if GroupPaused obs && bool_decide (r_Kind r = KindChange) then (r, false)
      else if negb (bool_decide (r_Kind r = KindChange)) || bool_decide (p_Strategy (r_Params r) = AllAtOnce)
      then (enter r Rolling (o_Now obs), true)
      else (enter (set_canaries r (SelectCanaries (r_Params r) (Engines obs))) Canary (o_Now obs), true)
  | Canary =>
      let canaries := pick (Engines obs) (CanaryEngineIDs r) in
      match rejection r canaries with
      | Some reason => (halt r (o_Now obs) reason, true)
      | None =>
          match firstUnapplied r canaries false with
          | None => (enter r Verifying (o_Now obs), true)
          | Some e =>
              if ackTimeout <? elapsed
              then (halt r (o_Now obs) (NotAppliedBy (e_Name e) (Version r) (AckTimeoutSeconds (r_Params r))), true)
              else (r, false)
          end
      end
  | Verifying =>
      let canaries := pick (Engines obs) (CanaryEngineIDs r) in
      match rejection r canaries with
      | Some reason => (halt r (o_Now obs) reason, true)
      | None =>
          if elapsed <? seconds (HealthWindowSeconds (r_Params r)) then (r, false)
          else match health_failure r canaries with
               | Some reason => (halt r (o_Now obs) reason, true)
               | None => (enter r Rolling (o_Now obs), true)
               end
      end
  | Rolling =>
      match rejection r (Engines obs) with
      | Some reason => (halt r (o_Now obs) reason, true)
      | None =>
          match firstUnapplied r (Engines obs) true with
          | None => (set_state r Completed, true)
          | Some e =>
              if ackTimeout <? elapsed
              then (halt r (o_Now obs) (NotAppliedBy (e_Name e) (Version r) (AckTimeoutSeconds (r_Params r))), true)
              else (r, false)
          end
      end
  | _ => (r, false)
  end.

(** [Target]: the version engine [e] should run. *)
Definition Target (e : Engine) (stable : Z) (latest : option Rollout) : Z :=
  match latest with
  | None => stable
  | Some l =>
      match r_State l with
      | Rolling | Completed | RolledBack => Version l
      | Canary | Verifying => if bool_decide (e_ID e ∈ CanaryEngineIDs l) then Version l else stable
      | Halted => if AppliedVersion e =? Version l then Version l else stable
      | _ => stable
      end
  end.
