(* ===== verification/RolloutTheorems.v ===== *)
(** * What a staged rollout promises

    Theorems on the rollout state machine of [Rollout]: a canary rollout reaches the rest of the
    group only through verified canaries, every rollout changes state a bounded number of times and
    cannot stall once started, and what canary selection picks. *)

From S2P Require Import Prelude.
From S2P Require Import Effects.
From S2P Require Import Rollout.

(** A rollout stepped on a sequence of observations. *)
Definition run (r : Rollout) (os : list Observation) : Rollout := foldl (λ r o, (Step r o).1) r os.

Lemma run_snoc r os o : run r (os ++ [o]) = (Step (run r os) o).1.
Proof. unfold run. by rewrite foldl_app. Qed.

(** ** What the checks of a phase establish *)
Lemma rejection_None r es :
  rejection r es = None ↔ Forall (λ e, RejectedVersion e ≠ Version r) es.
Proof.
  induction es as [|e es IH]; simpl; [by split|]. rewrite Forall_cons, <- IH.
  destruct (Z.eqb_spec (RejectedVersion e) (Version r)); split; try done; tauto.
Qed.
Lemma firstUnapplied_None r es only :
  firstUnapplied r es only = None ↔
  Forall (λ e, only = true ∧ Connected e = false ∨ Version r ≤ AppliedVersion e) es.
Proof.
  induction es as [|e es IH]; simpl; [by split|]. rewrite Forall_cons, <- IH.
  destruct only, (Connected e); simpl; destruct (Z.ltb_spec (AppliedVersion e) (Version r));
    split; try done; intros; destruct_and?; try destruct_or?; destruct_and?; try done; try lia; auto.
Qed.

(** The health test of one canary. *)
Definition healthy (r : Rollout) (e : Engine) : Prop :=
  2 ≤ Samples (e_Health e) ∧
  (MinHealthQueries (r_Params r) ≤ Queries (e_Health e) → Queries (e_Health e) ≠ 0 →
   f64_lt (MaxServfailRatio (r_Params r))
     (f64_div (f64_of_Z (Servfail (e_Health e))) (f64_of_Z (Queries (e_Health e)))) = false).
Lemma health_failure_None r es : health_failure r es = None ↔ Forall (healthy r) es.
Proof.
  unfold healthy. induction es as [|e es IH]; simpl; [by split|]. rewrite Forall_cons, <- IH.
  destruct (Z.ltb_spec (Samples (e_Health e)) 2); [split; [done|lia]|].
  destruct (Z.ltb_spec (Queries (e_Health e)) (MinHealthQueries (r_Params r))); simpl;
    [split; [intros; repeat split; try done; lia|tauto]|].
  destruct (Z.eqb_spec (Queries (e_Health e)) 0); simpl; [split; [intros; repeat split; try done; lia|tauto]|].
  destruct (f64_lt _ _) eqn:E; [|by split; [intros; split_and!|intros [_ ?]]].
  split; [done|]. intros ([_ H'] & _). specialize (H' ltac:(done) ltac:(done)). congruence.
Qed.

(** ** The canary gate *)

(** As [pick] does, this looks at the canaries among the engines of the group: one that was revoked,
    deleted or moved to another group since it was selected is no longer asked. *)
Definition for_canaries (ids : list uuid) (o : Observation) (P : Engine → Prop) : Prop :=
  ∀ e, e ∈ Engines o → e_ID e ∈ ids → P e.

Lemma for_canaries_pick ids o P : Forall P (pick (Engines o) ids) ↔ for_canaries ids o P.
Proof.
  unfold for_canaries, pick. rewrite Forall_forall. setoid_rewrite list_elem_of_filter. split.
  - intros H e He Hid. by apply H.
  - intros H e [Hid He]. by apply H.
Qed.

(** The observations that took the rollout through the phases: the one that picked the canaries, the
    one that found the version applied on all of them, and the one that found them healthy after
    the window. *)
Definition selected (r : Rollout) (o : Observation) (ids : list uuid) : Prop :=
  GroupPaused o = false ∧ ids = SelectCanaries (r_Params r) (Engines o).
Definition applied (r : Rollout) (o : Observation) (ids : list uuid) : Prop :=
  for_canaries ids o (λ e, RejectedVersion e ≠ Version r ∧ Version r ≤ AppliedVersion e).
Definition verified (r : Rollout) (since : Z) (o : Observation) (ids : list uuid) : Prop :=
  seconds (HealthWindowSeconds (r_Params r)) ≤ time_Sub (o_Now o) since ∧
  for_canaries ids o (λ e, RejectedVersion e ≠ Version r ∧ healthy r e).
Definition gate_passed (r : Rollout) (os : list Observation) (ids : list uuid) : Prop :=
  ∃ os1 o1 os2 o2 os3 o3 os4, os = os1 ++ o1 :: os2 ++ o2 :: os3 ++ o3 :: os4 ∧
    selected r o1 ids ∧ applied r o2 ids ∧ verified r (o_Now o2) o3 ids.

Definition progress (r : Rollout) (os : list Observation) (r' : Rollout) : Prop :=
  match r_State r' with
  | Pending => True
  | Canary => ∃ os1 o1 os2, os = os1 ++ o1 :: os2 ∧ selected r o1 (CanaryEngineIDs r')
  | Verifying => ∃ os1 o1 os2 o2 os3, os = os1 ++ o1 :: os2 ++ o2 :: os3 ∧
      selected r o1 (CanaryEngineIDs r') ∧ applied r o2 (CanaryEngineIDs r') ∧ PhaseStartedAt r' = o_Now o2
  | Rolling | Completed => gate_passed r os (CanaryEngineIDs r')
  | Halted => True
  | RolledBack | Superseded => False
  end.
Definition same (r r' : Rollout) : Prop :=
  Version r' = Version r ∧ r_Kind r' = r_Kind r ∧ r_Params r' = r_Params r.

Lemma Step_same r o : same r (Step r o).1.
Proof. unfold Step, same. by repeat case_match. Qed.
Lemma run_same r os : same r (run r os).
Proof.
  induction os as [|o os IH] using rev_ind; [done|]. rewrite run_snoc.
  destruct IH as (? & ? & ?), (Step_same (run r os) o) as (? & ? & ?). split_and!; congruence.
Qed.

Lemma gate_passed_app r os o ids : gate_passed r os ids → gate_passed r (os ++ [o]) ids.
Proof.
  intros (os1 & o1 & os2 & o2 & os3 & o3 & os4 & -> & H).
  exists os1, o1, os2, o2, os3, o3, (os4 ++ [o]). split; [by simplify_list_eq|done].
Qed.

(** Nothing that was established is lost when a step changes nothing. *)
Lemma progress_stay r os o r' : progress r os r' → progress r (os ++ [o]) r'.
Proof.
  unfold progress. destruct (r_State r'); try done; try apply gate_passed_app.
  - intros (os1 & o1 & os2 & -> & H). exists os1, o1, (os2 ++ [o]). split; [by simplify_list_eq|done].
  - intros (os1 & o1 & os2 & o2 & os3 & -> & H). exists os1, o1, os2, o2, (os3 ++ [o]).
    split; [by simplify_list_eq|done].
Qed.

Lemma progress_step r os o r' :
  r_Kind r = KindChange → p_Strategy (r_Params r) = CanaryStrategy → same r r' →
  progress r os r' → progress r (os ++ [o]) (Step r' o).1.
Proof.
  intros Hk Hs (Ev & Ek & Ep) Hp. apply (progress_stay _ _ o) in Hp as Hstay.
  unfold Step. destruct (r_State r') eqn:Est; simpl; try exact Hstay.
  - rewrite Ek, Ep, Hk, Hs. destruct (GroupPaused o) eqn:Hg; simpl; [exact Hstay|].
    exists os, o, []. split; [done|]. by split.
  - unfold progress in Hp. rewrite Est in Hp. destruct Hp as (os1 & o1 & os2 & -> & Hsel).
    destruct (rejection _ _) eqn:Er; [done|]. apply rejection_None, for_canaries_pick in Er.
    destruct (firstUnapplied _ _ _) eqn:Eu; [by case_match|].
    apply firstUnapplied_None, for_canaries_pick in Eu.
    exists os1, o1, os2, o, []. split; [by simplify_list_eq|]. split; [done|]. split; [|done].
    intros e He Hid. specialize (Er e He Hid). destruct (Eu e He Hid) as [[? _]|?]; [done|].
    rewrite Ev in *. done.
  - unfold progress in Hp. rewrite Est in Hp.
    destruct Hp as (os1 & o1 & os2 & o2 & os3 & -> & Hsel & Happ & Hph).
    destruct (rejection _ _) eqn:Er; [done|]. apply rejection_None, for_canaries_pick in Er.
    destruct (Z.ltb_spec (time_Sub (o_Now o) (PhaseStartedAt r')) (seconds (HealthWindowSeconds (r_Params r'))));
      [exact Hstay|].
    destruct (health_failure _ _) eqn:Eh; [done|]. apply health_failure_None, for_canaries_pick in Eh.
    exists os1, o1, os2, o2, os3, o, []. split; [by simplify_list_eq|]. split; [done|]. split; [done|].
    rewrite Ep, Hph in *. split; [done|]. intros e He Hid. specialize (Er e He Hid). specialize (Eh e He Hid).
    rewrite Ev in Er. split; [done|]. unfold healthy in *. by rewrite Ep in Eh.
  - unfold progress in Hstay. rewrite Est in Hstay.
    destruct (rejection _ _); [done|]. destruct (firstUnapplied _ _ _); [|exact Hstay].
    case_match; [done|]. unfold progress. simpl. by rewrite Est.
Qed.

Lemma run_progress r os :
  r_State r = Pending → r_Kind r = KindChange → p_Strategy (r_Params r) = CanaryStrategy →
  progress r os (run r os).
Proof.
  intros Hst Hk Hs. induction os as [|o os IH] using rev_ind.
  - unfold progress. simpl. by rewrite Hst.
  - rewrite run_snoc. apply progress_step; try done. apply run_same.
Qed.

(** C7: The canary gate.  Whatever the engine group is observed to do, a configuration change rolled
    out with the canary strategy is the target of an engine that is neither a canary nor already
    running it only after an observation selected the canaries, a later one found the version
    applied and not rejected on every canary still in the group, and one at least the health window
    after that found every canary still in the group healthy and not rejecting it. *)
Theorem canary_gate r os e stable :
  r_State r = Pending → r_Kind r = KindChange → p_Strategy (r_Params r) = CanaryStrategy →
  let r' := run r os in
  Target e stable (Some r') = Version r → stable ≠ Version r →
  e_ID e ∉ CanaryEngineIDs r' → AppliedVersion e ≠ Version r →
  gate_passed r os (CanaryEngineIDs r').
Proof.
  intros Hst Hk Hs r' Ht Hne Hcan Happ. pose proof (run_progress r os Hst Hk Hs) as Hp.
  destruct (run_same r os) as (Ev & _ & _). fold r' in Ev, Hp. unfold progress in Hp.
  unfold Target in Ht. rewrite Ev in Ht.
  destruct (r_State r'); try done; [rewrite bool_decide_eq_false_2 in Ht; done..|].
  by rewrite (proj2 (Z.eqb_neq _ _)) in Ht.
Qed.

(** ** Bounded changes and no stall *)
Definition rank (s : State) : nat :=
  match s with Pending => 0 | Canary => 1 | Verifying => 2 | Rolling => 3 | _ => 4 end.
Lemma Step_rank r o : (Step r o).2 = true → (rank (r_State r) < rank (r_State (Step r o).1))%nat.
Proof. unfold Step. destruct (r_State r); simpl; try done; repeat case_match; simpl; try done; lia. Qed.
Lemma Step_unchanged r o : (Step r o).2 = false → (Step r o).1 = r.
Proof. unfold Step. by repeat case_match. Qed.

Fixpoint changes (r : Rollout) (os : list Observation) : nat :=
  match os with
  | [] => 0
  | o :: os => (if (Step r o).2 then 1 else 0) + changes (Step r o).1 os
  end.

(** A rollout changes state at most four times, however often it is stepped and whatever is
    observed. *)
Theorem changes_bounded r os : (changes r os + rank (r_State r) ≤ 4)%nat.
Proof.
  revert r. induction os as [|o os IH]; intros r; simpl.
  - destruct (r_State r); simpl; lia.
  - specialize (IH (Step r o).1). destruct ((Step r o).2) eqn:E.
    + apply Step_rank in E. lia.
    + apply Step_unchanged in E. rewrite E in *. lia.
Qed.

(** A started phase ends when its time is over. *)
Definition phase_limit (p : Params) : Z :=
  Z.max (seconds (AckTimeoutSeconds p)) (seconds (HealthWindowSeconds p)).
Definition started (s : State) : Prop := s = Canary ∨ s = Verifying ∨ s = Rolling.
Definition finished (s : State) : Prop := s = Completed ∨ s = Halted.

Lemma Step_due r o : started (r_State r) →
  phase_limit (r_Params r) < time_Sub (o_Now o) (PhaseStartedAt r) →
  finished (r_State (Step r o).1) ∨
  (r_State r = Canary ∧ r_State (Step r o).1 = Verifying ∨ r_State r = Verifying ∧ r_State (Step r o).1 = Rolling) ∧
  PhaseStartedAt (Step r o).1 = o_Now o.
Proof.
  unfold phase_limit, finished. intros Hs Hd.
  destruct Hs as [E|[E|E]]; unfold Step; rewrite E; simpl.
  - destruct (rejection _ _); [by left; right|]. destruct (firstUnapplied _ _ _); [|by right; split; [left|]].
    rewrite (proj2 (Z.ltb_lt _ _)) by lia. by left; right.
  - destruct (rejection _ _); [by left; right|]. rewrite (proj2 (Z.ltb_ge _ _)) by lia.
    destruct (health_failure _ _); [by left; right|]. by right; split; [right|].
  - destruct (rejection _ _); [by left; right|]. destruct (firstUnapplied _ _ _); [|by left; left].
    rewrite (proj2 (Z.ltb_lt _ _)) by lia. by left; right.
Qed.
Lemma Step_finished r o : finished (r_State r) → (Step r o).1 = r.
Proof. intros [E|E]; unfold Step; by rewrite E. Qed.

(** C39: A started rollout cannot stall: three observations, each later than the one before by more
    than the acknowledgement timeout and the health window, leave it completed or halted. *)
Theorem rollout_finishes r o1 o2 o3 :
  started (r_State r) →
  phase_limit (r_Params r) < time_Sub (o_Now o1) (PhaseStartedAt r) →
  phase_limit (r_Params r) < time_Sub (o_Now o2) (o_Now o1) →
  phase_limit (r_Params r) < time_Sub (o_Now o3) (o_Now o2) →
  finished (r_State (run r [o1; o2; o3])).
Proof.
  intros Hs H1 H2 H3. cbn [run foldl].
  assert (∀ r o, finished (r_State r) → finished (r_State (Step r o).1)) as Hfin
    by (intros; by rewrite Step_finished).
  destruct (Step_same r o1) as (_ & _ & E1). destruct (Step_same (Step r o1).1 o2) as (_ & _ & E2).
  destruct (Step_due r o1 Hs H1) as [?|[Hst1 Hp1]]; [by auto|].
  destruct (Step_due (Step r o1).1 o2) as [?|[Hst2 Hp2]]; [|by rewrite E1, Hp1|by auto|].
  { destruct Hst1 as [[_ ->]|[_ ->]]; unfold started; auto. }
  destruct (Step_due (Step (Step r o1).1 o2).1 o3) as [?|[Hst3 _]]; [|by rewrite E2, E1, Hp2|done|].
  { destruct Hst2 as [[_ ->]|[_ ->]]; unfold started; auto. }
  exfalso. intuition congruence.
Qed.

(** ** Canary selection *)
Definition canary_key (e : Engine) : Z * bytes := (if labelled e then 0 else 1, e_Name e).
Lemma canary_less_cmp a b :
  canary_less a b = bool_decide (lex_cmp Z.compare bytes_compare (canary_key a) (canary_key b) = Lt).
Proof. unfold canary_less, canary_key, lex_cmp. by destruct (labelled a), (labelled b). Qed.
#[export] Instance canary_less_swo : StrictWeakOrder canary_less.
Proof. exact (swo_of_cmp canary_key _ _ canary_less_cmp). Qed.

Lemma canary_want_bounds p n : 1 ≤ n →
  1 ≤ canary_want p n ≤ n ∧ (2 ≤ n → canary_want p n < n).
Proof. intros. unfold canary_want. destruct (Z.leb_spec 2 n); lia. Qed.

Abbreviation connected es := (filter (λ e, Connected e = true) es).
Definition chosen (p : Params) (es : list Engine) : list Engine :=
  take (Z.to_nat (canary_want p (len (connected es)))) (stable_sort canary_less (connected es)).

Lemma SelectCanaries_chosen p es :
  connected es ≠ [] → SelectCanaries p es = map e_ID (chosen p es).
Proof.
  intros Hne. unfold SelectCanaries, chosen. destruct (Z.eqb_spec (len (connected es)) 0) as [E|_].
  - destruct (connected es); [done|]. unfold len in E. simpl in E. lia.
  - change (map e_ID) with (fmap (M := list) e_ID). by rewrite fmap_take.
Qed.

(** [SelectCanaries] picks connected engines only, each once, at least one of them if there is
    one, and never all of them when there are two or more; and a connected engine it leaves out
    does not come before a picked one, so labelled engines go first. *)
Theorem SelectCanaries_correct p es :
  connected es ≠ [] → NoDup (map e_ID es) →
  ∃ picked, SelectCanaries p es = map e_ID picked ∧ picked ⊆ connected es ∧
    NoDup (SelectCanaries p es) ∧
    1 ≤ len picked ≤ len (connected es) ∧ (2 ≤ len (connected es) → len picked < len (connected es)) ∧
    ∀ e e', e ∈ picked → e' ∈ connected es → e' ∉ picked → canary_less e' e = false.
Proof.
  intros Hne Hnd. exists (chosen p es). rewrite (SelectCanaries_chosen p es Hne).
  assert (1 ≤ len (connected es)) as Hn.
  { destruct (connected es); [done|]. unfold len. simpl. lia. }
  pose proof (canary_want_bounds p _ Hn) as [Hw Hw2].
  pose proof (stable_sort_perm canary_less (connected es)) as Hperm.
  assert (len (chosen p es) = canary_want p (len (connected es))) as Hlen.
  { unfold chosen, len. rewrite length_take, Hperm. unfold len in Hw. lia. }
  assert (chosen p es ⊆ connected es) as Hsub.
  { intros e He. rewrite <- Hperm. unfold chosen in He. by apply elem_of_take in He as (i & He%list_elem_of_lookup_2 & _). }
  split; [done|]. split; [done|]. split; [|rewrite Hlen; split; [done|]; split; [done|]].
  - unfold chosen. change (map e_ID) with (fmap (M := list) e_ID). rewrite fmap_take.
    apply NoDup_take. rewrite Hperm. by apply (NoDup_map_filter e_ID).
  - intros e e' He He' Hn'. rewrite <- Hperm in He'.
    pose proof (stable_sort_sorted canary_less (connected es)) as Hs.
    rewrite <- (take_drop (Z.to_nat (canary_want p (len (connected es)))) (stable_sort _ _)) in Hs, He'.
    apply elem_of_app in He' as [?|He']; [done|].
    exact (StronglySorted_app_1_elem_of _ _ _ _ _ Hs He He').
Qed.

(** ** A concrete rollout

    Version 7 over a group of two engines, the first of them the canary. *)
Definition ex_params : Params := mkParams CanaryStrategy 1 10 30 60 (f64_div (f64_of_Z 1) (f64_of_Z 10)) 5.
Definition ex_rollout : Rollout := mkRollout 1 1 7 KindChange Pending [] 0 (ReasonText []) ex_params.
Definition ex_engine (id : Z) (applied : Z) (h : Health) : Engine :=
  mkEngine id [96 + id] ∅ true applied 0 [] h.
Definition ex_obs (now a b : Z) (h : Health) : Observation :=
  mkObs (now * 1000000000) false [ex_engine 1 a h; ex_engine 2 b (mkHealth 0 0 0)].
Definition ex_observations : list Observation :=
  [ex_obs 1 6 6 (mkHealth 0 0 0); ex_obs 2 7 6 (mkHealth 0 0 0); ex_obs 63 7 6 (mkHealth 3 100 4)].

Lemma canary_gate_witness : gate_passed ex_rollout ex_observations [1].
Proof.
  apply (canary_gate ex_rollout ex_observations (ex_engine 2 6 (mkHealth 0 0 0)) 6);
    [done|done|done|vm_compute; reflexivity|done|by_compute|done].
Defined.

Lemma rollout_finishes_witness :
  finished (r_State (run (enter ex_rollout Rolling 0)
    [ex_obs 61 6 6 (mkHealth 0 0 0); ex_obs 122 6 6 (mkHealth 0 0 0); ex_obs 183 7 7 (mkHealth 0 0 0)])).
Proof. apply rollout_finishes; [by right; right|vm_compute; reflexivity..]. Defined.

Lemma SelectCanaries_correct_witness :
  let es := [ex_engine 1 6 (mkHealth 0 0 0); ex_engine 2 6 (mkHealth 0 0 0)] in
  ∃ picked, SelectCanaries ex_params es = map e_ID picked ∧ picked ⊆ connected es ∧
    NoDup (SelectCanaries ex_params es) ∧
    1 ≤ len picked ≤ len (connected es) ∧ (2 ≤ len (connected es) → len picked < len (connected es)) ∧
    ∀ e e', e ∈ picked → e' ∈ connected es → e' ∉ picked → canary_less e' e = false.
Proof. intros es. apply SelectCanaries_correct; [done|]. by_compute. Defined.
