(* ===== verification/RolloutStore.v ===== *)
(** * Rollouts in the database

    mgmt/internal/rollout/create.go and controller.go: how rollouts are created, superseded and
    driven, on the tables they touch.  A transaction is one atomic function of the database; the
    time it sees as now(), the id it draws and whether it gets the advisory lock are arguments.
    The collation PostgreSQL orders node names by is a parameter. *)

From S2P Require Import Prelude.
From S2P Require Import Effects.
From S2P Require Import Rollout.
From S2P Require Import RolloutTheorems.

(** ** Tables *)
Record group_row := mkGroup {
  rollouts_paused : bool;
  rollout_strategy : Strategy;
  stable_version : option Z;
  g_canary_count : Z; g_canary_percent : Z; g_ack_timeout : Z; g_health_window : Z;
  g_max_servfail : float64; g_min_queries : Z;
}.
Record rollout_row := mkRow {
  row_id : uuid; row_group : uuid; row_version : Z; from_version : option Z; row_kind : Kind;
  row_strategy : Strategy; row_state : State; row_params : Params; created_by : bytes;
  phase_started_at : option Z; row_canaries : list uuid; row_reason : halt_reason;
  finished_at : option Z; created_at : Z;
}.
Record engine_row := mkEngineRow {
  er_id : uuid; er_group : uuid; node_name : bytes; er_labels : gmap bytes bytes;
  connected_instance : option uuid; applied_version : Z; rejected_version : option Z;
  rejected_reason : bytes; revoked : bool; deleted : bool; enrolled_at : Z;
}.
(** [None]: the stored message does not decode. *)
Record stats_row := mkStats { s_engine : uuid; s_at : Z; s_stats : option (Z * Z) }.
Record db := mkDb {
  groups : gmap uuid group_row;
  rollouts : list rollout_row;
  engine_rows : list engine_row;
  heartbeats : gmap uuid Z;
  stats_rows : list stats_row;
  notified : list uuid;
}.

Definition set_groups (d : db) g := mkDb g (rollouts d) (engine_rows d) (heartbeats d) (stats_rows d) (notified d).
Definition set_rollouts (d : db) r := mkDb (groups d) r (engine_rows d) (heartbeats d) (stats_rows d) (notified d).
Definition notify (d : db) (g : uuid) := mkDb (groups d) (rollouts d) (engine_rows d) (heartbeats d) (stats_rows d) (notified d ++ [g]).
Definition set_paused (g : group_row) (b : bool) : group_row :=
  mkGroup b (rollout_strategy g) (stable_version g) (g_canary_count g) (g_canary_percent g)
    (g_ack_timeout g) (g_health_window g) (g_max_servfail g) (g_min_queries g).
Definition set_stable (g : group_row) (v : Z) : group_row :=
  mkGroup (rollouts_paused g) (rollout_strategy g) (Some v) (g_canary_count g) (g_canary_percent g)
    (g_ack_timeout g) (g_health_window g) (g_max_servfail g) (g_min_queries g).
Definition close_row (s : State) (now : Z) (r : rollout_row) : rollout_row :=
  mkRow (row_id r) (row_group r) (row_version r) (from_version r) (row_kind r) (row_strategy r) s
    (row_params r) (created_by r) (phase_started_at r) (row_canaries r) (row_reason r) (Some now)
    (created_at r).

(** [update rollouts set ... where p]. *)
Definition update_where (p : rollout_row → bool) (f : rollout_row → rollout_row) (rs : list rollout_row) :=
  map (λ r, if p r then f r else r) rs.
Definition in_group (g : uuid) (ss : list State) (r : rollout_row) : bool :=
  (row_group r =? g) && bool_decide (row_state r ∈ ss).

(** ** Create *)
Record CreateParams := mkCreate {
  c_Group : uuid; c_Version : Z; FromVersion : option Z; c_Kind : Kind; Immediate : bool; Actor : bytes }.
Inductive store_err : Type := NoGroup | NotLocked | LoadFailed.

Definition group_params (g : group_row) (s : Strategy) : Params :=
  mkParams s (g_canary_count g) (g_canary_percent g) (g_ack_timeout g) (g_health_window g)
    (g_max_servfail g) (g_min_queries g).

Definition Create (d : db) (p : CreateParams) (now : Z) (new_id : uuid)
    : db * (uuid * State + store_err) :=
  match groups d !! c_Group p with
  | None => (d, inr NoGroup)
  | Some g =>
      let held := bool_decide (c_Kind p = KindChange) && negb (Immediate p) && rollouts_paused g in
      let '(d1, supersede) :=
        if held then (d, [Pending])
        else if bool_decide (c_Kind p = KindRollback) then
          (set_groups
             (set_rollouts d (update_where (in_group (c_Group p) [Halted]) (close_row RolledBack now) (rollouts d)))
             (<[c_Group p := set_paused g true]> (groups d)),
           [Pending; Canary; Verifying; Rolling])
        else (d, [Pending; Canary; Verifying; Rolling; Halted]) in
      let d2 := set_rollouts d1
        (update_where (in_group (c_Group p) supersede) (close_row Superseded now) (rollouts d1)) in
      let strategy :=
        if negb (bool_decide (c_Kind p = KindChange)) || Immediate p then AllAtOnce
        else rollout_strategy g in
      let state := if bool_decide (strategy = AllAtOnce) && negb held then Rolling else Pending in
      let row := mkRow new_id (c_Group p) (i64 (c_Version p)) (i64 <$> FromVersion p) (c_Kind p) strategy state
        (group_params g strategy) (Actor p)
        (if bool_decide (state = Rolling) then Some now else None) [] (ReasonText []) None now in
      (notify (set_rollouts d2 (rollouts d2 ++ [row])) (c_Group p), inl (new_id, state))
  end.

(** ** HealthSince *)
Definition stats_before (a b : stats_row) : bool := s_at a <? s_at b.
Definition health_rows (d : db) (e : uuid) (since : Z) : list stats_row :=
  let mine := stable_sort stats_before (filter (λ s, s_engine s = e) (stats_rows d)) in
  let base := filter (λ s, s_at s ≤ since ∧ since - 60 * 1000000000 < s_at s) mine in
  match list.last base with Some b => [b] | None => [] end ++ filter (λ s, since < s_at s) mine.
Definition HealthSince (d : db) (e : uuid) (since : Z) : Health :=
  let ss := omap s_stats (health_rows d e since) in
  let n := len ss in
  match head ss, list.last ss with
  | Some (q0, f0), Some (q1, f1) =>
      if 2 <=? n then
        let '(q0, f0) := if (q1 <? q0) || (f1 <? f0) then (0, 0) else (q0, f0) in
        mkHealth n (u64 (q1 - q0)) (u64 (f1 - f0))
      else mkHealth n 0 0
  | _, _ => mkHealth n 0 0
  end.

(** ** driveOne *)
Definition zero_time : Z := - 62135596800 * 1000000000.

Section drive.
Context (collate : bytes → bytes → comparison).

Definition engine_before (a b : engine_row) : bool :=
  match collate (node_name a) (node_name b) with
  | Lt => true | Gt => false | Eq => enrolled_at a <? enrolled_at b
  end.
Definition is_connected (d : db) (now : Z) (e : engine_row) : bool :=
  match connected_instance e with
  | None => false
  | Some i => match heartbeats d !! i with Some h => now - 15 * 1000000000 <? h | None => false end
  end.
Definition loadEngines (d : db) (now : Z) (g : uuid) : list Engine :=
  map (λ e, mkEngine (er_id e) (node_name e) (er_labels e) (is_connected d now e)
              (u64 (applied_version e)) (u64 (default 0 (rejected_version e))) (rejected_reason e)
              (mkHealth 0 0 0))
    (stable_sort engine_before
      (filter (λ e, er_group e = g ∧ revoked e = false ∧ deleted e = false) (engine_rows d))).
Definition with_health (e : Engine) (h : Health) : Engine :=
  mkEngine (e_ID e) (e_Name e) (Labels e) (Connected e) (AppliedVersion e) (RejectedVersion e)
    (RejectedReason e) h.

Definition load_rollout (r : rollout_row) : Rollout :=
  mkRollout (row_id r) (row_group r) (u64 (row_version r)) (row_kind r) (row_state r) (row_canaries r)
    (default zero_time (phase_started_at r)) (row_reason r) (row_params r).
Definition observe (d : db) (now : Z) (paused : bool) (r : Rollout) : Observation :=
  let es := loadEngines d now (EngineGroupID r) in
  let es := if bool_decide (r_State r = Verifying)
    then map (λ e, if bool_decide (e_ID e ∈ CanaryEngineIDs r)
                   then with_health e (HealthSince d (e_ID e) (PhaseStartedAt r)) else e) es
    else es in
  mkObs now paused es.
Definition store_step (next : Rollout) (now : Z) (r : rollout_row) : rollout_row :=
  mkRow (row_id r) (row_group r) (row_version r) (from_version r) (row_kind r) (row_strategy r)
    (r_State next) (row_params r) (created_by r) (Some (PhaseStartedAt next)) (CanaryEngineIDs next)
    (HaltReason next) (if bool_decide (r_State next = Completed) then Some now else finished_at r)
    (created_at r).

Definition driveOne (d : db) (id : uuid) (now : Z) (locked : bool) : db * bool :=
  if negb locked then (d, false)
  else match find (λ r, row_id r =? id) (rollouts d) with
  | None => (d, false)
  | Some row =>
      match groups d !! row_group row with
      | None => (d, false)
      | Some g =>
          let r := load_rollout row in
          if Terminal (r_State r) || bool_decide (r_State r = Halted) then (d, false)
          else
            let '(next, changed) := Step r (observe d now (rollouts_paused g) r) in
            if negb changed then (d, false)
            else
              let d1 := set_rollouts d
                (update_where (λ x, row_id x =? id) (store_step next now) (rollouts d)) in
              let d2 := if bool_decide (r_State next = Completed) then
                  set_groups d1 (alter (λ g, set_stable g (Z.max (default 0 (stable_version g)) (i64 (Version next))))
                                   (EngineGroupID next) (groups d1))
                else d1 in
              (notify d2 (EngineGroupID next), true)
      end
  end.

(** [Controller.Step]: every open rollout once, oldest first; [env] gives each transaction its time
    and its lock. *)
Definition open_state (s : State) : bool :=
  match s with Pending | Canary | Verifying | Rolling => true | _ => false end.
Definition open_ids (d : db) : list uuid :=
  map row_id (stable_sort (λ a b, created_at a <? created_at b)
    (filter (λ r, open_state (row_state r) = true) (rollouts d))).
Fixpoint drive_all (d : db) (ids : list uuid) (env : list (Z * bool)) : db * Z :=
  match ids, env with
  | id :: ids, (now, locked) :: env =>
      let '(d1, ok) := driveOne d id now locked in
      let '(d2, n) := drive_all d1 ids env in
      (d2, (if ok then 1 else 0) + n)
  | _, _ => (d, 0)
  end.
Definition controller_Step (d : db) (env : list (Z * bool)) : db * Z := drive_all d (open_ids d) env.
End drive.

(** ** What the operations keep *)

Lemma filter_update_where (P : rollout_row → Prop) `{∀ r, Decision (P r)} p f rs :
  (∀ r, p r = true → ¬ P r ∧ ¬ P (f r)) → filter P (update_where p f rs) = filter P rs.
Proof.
  intros Hp. induction rs as [|r rs IH]; [done|].
  change (update_where p f (r :: rs)) with ((if p r then f r else r) :: update_where p f rs).
  rewrite !filter_cons.
  destruct (p r) eqn:E; [|by rewrite IH].
  destruct (Hp r E). by rewrite !decide_False.
Qed.
Lemma elem_update_where p f rs r :
  r ∈ update_where p f rs → (∃ r0, r0 ∈ rs ∧ p r0 = true ∧ r = f r0) ∨ (r ∈ rs ∧ p r = false).
Proof.
  intros (r0 & -> & Hin)%list_elem_of_fmap. destruct (p r0) eqn:E; [left|right]; eauto.
Qed.

(** The rows of other groups. *)
Abbreviation elsewhere g := (λ r, row_group r ≠ g).
Lemma filter_elsewhere g ss s now rs :
  filter (elsewhere g) (update_where (in_group g ss) (close_row s now) rs) = filter (elsewhere g) rs.
Proof.
  apply filter_update_where. intros r. unfold in_group. intros [H%Z.eqb_eq _]%andb_true_iff. simpl. tauto.
Qed.

(** A rollout that is not held by a pause takes over its engine group: after [Create] every
    other rollout of the group is finished (completed, rolled back or superseded), the new one is
    rolling or pending with the group's parameters, and no row of another group has changed. *)
Theorem Create_takes_over d p now id g :
  groups d !! c_Group p = Some g →
  c_Kind p ≠ KindChange ∨ Immediate p = true ∨ rollouts_paused g = false →
  ∃ old row, rollouts (Create d p now id).1 = old ++ [row] ∧
    row_id row = id ∧ row_group row = c_Group p ∧ (row_state row = Rolling ∨ row_state row = Pending) ∧
    (∀ r, r ∈ old → row_group r = c_Group p → Terminal (row_state r) = true) ∧
    filter (elsewhere (c_Group p)) old = filter (elsewhere (c_Group p)) (rollouts d).
Proof.
  intros Hg Hheld. unfold Create. rewrite Hg.
  replace (bool_decide (c_Kind p = KindChange) && negb (Immediate p) && rollouts_paused g) with false.
  2:{ symmetry. destruct Hheld as [H|[->| ->]]; [|by destruct (bool_decide _)|by rewrite andb_false_r].
      by rewrite bool_decide_eq_false_2. }
  destruct (bool_decide (c_Kind p = KindRollback)); simpl;
    (eexists _, _; split; [reflexivity|]); simpl; (do 2 (split; [done|]));
    (split; [case_match; auto|]); (split; [|by rewrite !filter_elsewhere]).
  - intros r [(r0 & Hin & Hp & ->)|[Hin Hp]]%elem_update_where Hr; [done|].
    unfold in_group in Hp. rewrite Hr, Z.eqb_refl in Hp. apply bool_decide_eq_false in Hp.
    apply elem_update_where in Hin as [(r0 & _ & _ & ->)|[_ Hh]]; [done|].
    unfold in_group in Hh. rewrite Hr, Z.eqb_refl in Hh. apply bool_decide_eq_false in Hh.
    destruct (row_state r); try done; exfalso; (apply Hp + apply Hh); by_compute.
  - intros r [(r0 & Hin & Hp & ->)|[Hin Hp]]%elem_update_where Hr; [done|].
    unfold in_group in Hp. rewrite Hr, Z.eqb_refl in Hp. apply bool_decide_eq_false in Hp.
    destruct (row_state r); try done; exfalso; apply Hp; by_compute.
Qed.

(** ** The life of the tables *)
Section life.
Context (collate : bytes → bytes → comparison).

Inductive store_op : Type :=
| OCreate (p : CreateParams) (now : Z) (id : uuid)
| ODrive (id : uuid) (now : Z) (locked : bool)
| OStep (env : list (Z * bool)).
Definition do_op (d : db) (o : store_op) : db :=
  match o with
  | OCreate p now id => (Create d p now id).1
  | ODrive id now locked => (driveOne collate d id now locked).1
  | OStep env => (controller_Step collate d env).1
  end.

Abbreviation pending g := (λ r, row_group r = g ∧ row_state r = Pending).
Definition one_pending (d : db) : Prop := ∀ g, (length (filter (pending g) (rollouts d)) ≤ 1)%nat.

Lemma driveOne_cases d id now locked :
  let '(d', ok) := driveOne collate d id now locked in
  d' = d ∧ ok = false ∨
  ∃ row g next, find (λ r, row_id r =? id) (rollouts d) = Some row ∧
    groups d !! row_group row = Some g ∧ ok = true ∧
    Step (load_rollout row) (observe collate d now (rollouts_paused g) (load_rollout row)) = (next, true) ∧
    rollouts d' = update_where (λ x, row_id x =? id) (store_step next now) (rollouts d) ∧
    groups d' = if bool_decide (r_State next = Completed)
      then alter (λ g, set_stable g (Z.max (default 0 (stable_version g)) (i64 (Version next))))
             (EngineGroupID next) (groups d)
      else groups d.
Proof.
  unfold driveOne. destruct locked; simpl; [|by left].
  destruct (find _ _) as [row|] eqn:Ef; [|by left].
  destruct (groups d !! row_group row) as [g|] eqn:Eg; [|by left].
  destruct (_ || _); [by left|].
  destruct (Step (load_rollout row) _) as [next changed] eqn:Es. destruct changed; simpl; [|by left].
  right. exists row, g, next. repeat (split; [done|]). by case_bool_decide.
Qed.

Lemma filter_update_le (P : rollout_row → Prop) `{∀ r, Decision (P r)} p f rs :
  (∀ r, ¬ P (f r)) → (length (filter P (update_where p f rs)) ≤ length (filter P rs))%nat.
Proof.
  intros Hf. induction rs as [|r rs IH]; [done|].
  change (update_where p f (r :: rs)) with ((if p r then f r else r) :: update_where p f rs).
  rewrite !filter_cons. destruct (p r).
  - rewrite decide_False by done. case_decide; simpl; lia.
  - case_decide; simpl; lia.
Qed.
Lemma Step_not_pending r o next : Step r o = (next, true) → r_State next ≠ Pending.
Proof. unfold Step. intros H E. repeat (case_match; simplify_eq/=). Qed.

Lemma one_pending_drive d id now locked : one_pending d → one_pending (driveOne collate d id now locked).1.
Proof.
  intros H g. pose proof (driveOne_cases d id now locked) as Hc.
  destruct (driveOne collate d id now locked) as [d' ok]. simpl.
  destruct Hc as [[-> _]|(row & gr & next & _ & _ & _ & Hs & -> & _)]; [apply H|].
  etrans; [|apply (H g)]. apply filter_update_le. intros r [_ E]. by apply Step_not_pending in Hs.
Qed.
Lemma one_pending_create d p now id : one_pending d → one_pending (Create d p now id).1.
Proof.
  intros H g. unfold Create. destruct (groups d !! c_Group p) as [gr|]; [|apply H].
  set (held := _ && _ && _).
  assert (∀ rs ss row, Pending ∈ ss → row_group row = c_Group p →
    (length (filter (pending g) rs) ≤ length (filter (pending g) (rollouts d)))%nat →
    (length (filter (pending g) (update_where (in_group (c_Group p) ss) (close_row Superseded now) rs ++ [row]))
      ≤ 1)%nat) as Hgen.
  { intros rs ss row Hss Hrow Hle. rewrite filter_app, length_app.
    destruct (decide (g = c_Group p)) as [->|Hne].
    - replace (filter _ (update_where _ _ _)) with ([] : list rollout_row).
      + simpl. rewrite filter_cons. case_decide; simpl; lia.
      + symmetry. apply filter_nil_iff_elem. intros r Hr [E Es].
        apply elem_update_where in Hr as [(r0 & _ & _ & ->)|[_ Hp]]; [done|].
        unfold in_group in Hp. rewrite E, Z.eqb_refl, bool_decide_eq_true_2 in Hp; [done|]. by rewrite Es.
    - rewrite (filter_cons_False (pending g) row); [|intros [? _]; congruence]. simpl.
      specialize (H g). pose proof (filter_update_le (pending g) (in_group (c_Group p) ss)
        (close_row Superseded now) rs) as Hu. rewrite Nat.add_0_r. etrans; [apply Hu|lia].
      intros r [_ ?]. done. }
  destruct held; [apply Hgen; [left|done|done]|].
  destruct (bool_decide (c_Kind p = KindRollback)); simpl; apply Hgen; try done; try left.
  apply filter_update_le. intros r [_ ?]. done.
Qed.

(** However rollouts are created and driven, by any number of controllers, an engine group never
    has two pending rollouts. *)
Theorem one_pending_invariant d os : one_pending d → one_pending (foldl do_op d os).
Proof.
  revert d. induction os as [|o os IH]; intros d H; [done|]. simpl. apply IH.
  destruct o as [p now id|id now locked|env]; simpl;
    [by apply one_pending_create|by apply one_pending_drive|].
  unfold controller_Step. generalize (open_ids d). intros ids. revert d env H.
  induction ids as [|id ids IHi]; intros d [|[now locked] env] H; try done. simpl.
  pose proof (one_pending_drive d id now locked H) as H1.
  destruct (driveOne collate d id now locked) as [d1 ok]. specialize (IHi d1 env H1).
  by destruct (drive_all collate d1 ids env).
Qed.

Lemma Step_completed r o next : Step r o = (next, true) → r_State next = Completed →
  EngineGroupID next = EngineGroupID r ∧ Version next = Version r ∧ r_State r = Rolling ∧
  rejection r (Engines o) = None ∧ firstUnapplied r (Engines o) true = None.
Proof. unfold Step. intros H E. repeat (case_match; simplify_eq/=; try done). Qed.

(** [driveOne] changes a group's stable version only by completing a rolling rollout of that
    group: no engine of the group has rejected the version, every connected one has applied it, and
    the stable version never goes down. *)
Theorem stable_version_earned d id now locked g gr gr' :
  groups d !! g = Some gr → groups (driveOne collate d id now locked).1 !! g = Some gr' →
  stable_version gr' ≠ stable_version gr →
  ∃ row, row ∈ rollouts d ∧ row_group row = g ∧ row_state row = Rolling ∧
    stable_version gr' = Some (Z.max (default 0 (stable_version gr)) (i64 (u64 (row_version row)))) ∧
    ∀ e, e ∈ loadEngines collate d now g →
      RejectedVersion e ≠ u64 (row_version row) ∧
      (Connected e = true → u64 (row_version row) ≤ AppliedVersion e).
Proof.
  intros Hg Hg' Hne. pose proof (driveOne_cases d id now locked) as Hc.
  destruct (driveOne collate d id now locked) as [d' ok]. simpl in Hg'.
  destruct Hc as [[-> _]|(row & gr0 & next & Hf & Hrow & _ & Hs & _ & Egs)]; [congruence|].
  rewrite Egs in Hg'. case_bool_decide as Hcomp; [|congruence].
  assert (EngineGroupID next = row_group row ∧ Version next = u64 (row_version row) ∧
    r_State (load_rollout row) = Rolling ∧
    rejection (load_rollout row) (Engines (observe collate d now (rollouts_paused gr0) (load_rollout row))) = None ∧
    firstUnapplied (load_rollout row) (Engines (observe collate d now (rollouts_paused gr0) (load_rollout row))) true = None)
    as (Egid & Ever & Est & Er & Eu) by exact (Step_completed _ _ _ Hs Hcomp).
  rewrite Egid in Hg'. destruct (decide (g = row_group row)) as [->|Hdiff];
    [|rewrite lookup_alter_ne in Hg' by done; congruence].
  rewrite lookup_alter_eq, Hg in Hg'. simpl in Hg'. injection Hg' as <-.
  exists row. split; [by apply list_elem_of_In, (find_some _ _ Hf)|]. split; [done|]. split; [done|].
  split; [simpl; by rewrite Ever|]. apply rejection_None in Er. apply firstUnapplied_None in Eu.
  assert (Engines (observe collate d now (rollouts_paused gr0) (load_rollout row)) =
    loadEngines collate d now (row_group row)) as Eo.
  { unfold observe. simpl. unfold load_rollout in Est. simpl in Est. rewrite Est. done. }
  rewrite Eo in *. rewrite Forall_forall in Er, Eu. intros e He. split; [by apply Er|].
  intros Hc. destruct (Eu e He) as [[_ ?]|?]; [congruence|done].
Qed.
End life.

(** ** A concrete store

    One group whose only engine runs version 7, the version of its rolling rollout. *)
Definition ex_group : group_row := mkGroup false AllAtOnce (Some 6) 1 10 30 60 (f64_of_Z 1) 5.
Definition ex_row (st : State) : rollout_row :=
  mkRow 5 1 7 None KindChange AllAtOnce st (group_params ex_group AllAtOnce) [] (Some 0) []
    (ReasonText []) None 0.
Definition ex_db (st : State) : db :=
  mkDb {[1 := ex_group]} [ex_row st]
    [mkEngineRow 9 1 [97] ∅ (Some 3) 7 None [] false false 0] {[3 := 100]} [] [].

Lemma Create_takes_over_witness : ∃ old row,
  rollouts (Create (ex_db Rolling) (mkCreate 1 8 None KindChange false []) 50 6).1 = old ++ [row] ∧
  row_id row = 6 ∧ row_group row = 1 ∧ (row_state row = Rolling ∨ row_state row = Pending) ∧
  (∀ r, r ∈ old → row_group r = 1 → Terminal (row_state r) = true) ∧
  filter (elsewhere 1) old = filter (elsewhere 1) (rollouts (ex_db Rolling)).
Proof.
  apply (Create_takes_over (ex_db Rolling) (mkCreate 1 8 None KindChange false []) 50 6 ex_group);
    [reflexivity|]. right. right. reflexivity.
Defined.

Lemma one_pending_invariant_witness :
  one_pending (foldl (do_op bytes_compare) (ex_db Pending) [OCreate (mkCreate 1 8 None KindChange false []) 50 6]).
Proof.
  apply one_pending_invariant. intros g. change (rollouts (ex_db Pending)) with [ex_row Pending].
  rewrite filter_cons. case_decide; rewrite filter_nil; simpl; lia.
Defined.

Lemma stable_version_earned_witness : ∃ row, row ∈ rollouts (ex_db Rolling) ∧ row_state row = Rolling ∧
  ∀ e, e ∈ loadEngines bytes_compare (ex_db Rolling) 200 1 →
    RejectedVersion e ≠ u64 (row_version row) ∧ (Connected e = true → u64 (row_version row) ≤ AppliedVersion e).
Proof.
  destruct (stable_version_earned bytes_compare (ex_db Rolling) 5 200 true 1 ex_group (set_stable ex_group 7))
    as (row & H1 & _ & H2 & _ & H3); [reflexivity|vm_compute; reflexivity|done|]. eauto.
Defined.
