(* ===== verification/ZoneJournal.v ===== *)
(** * The zone journal

    mgmt/internal/zone/serial.go and build.go (with nzf/blob.go, nzf/rr.go and store/blobs.go): the
    served versions of a hosted zone as full images and journal deltas, how [Rebuild] writes the
    next version, and how [loadServed] reads the current one back.

    The tables are those of one zone (every statement selects by zone_id) and the shared blob
    store.  What is not in the repository is a parameter: the DNS library's record type [RR] with
    its packing [FromRR], the zstd codec, SHA-256, the signer (an interface of the package), and
    the order in which Go ranges over a map. *)

From S2P Require Import Prelude.
From S2P Require Import GoText.
From S2P Require Import NzfNames.
From S2P Require Import NzfFormat.

(** ** serial.go *)
Definition half : Z := 2 ^ 31.
Definition SerialLess (a b : Z) : bool :=
  if a =? b then false
  else ((a <? b) && (u32 (b - a) <? half)) || ((b <? a) && (half <? u32 (a - b))).
Definition SerialNext (s : Z) : Z := u32 (s + 1).

(** ** Constants *)
Definition journalKept : Z := 100.
Definition imageEveryDelta : Z := 64.
Definition imageMinDeltaBytes : Z := 64 * 1024.
Definition maxServedSize : Z := 2 * 2 ^ 30.
Definition TypeSOA : Z := 6.
Definition TypeRRSIG : Z := 46.
Definition TypeZONEMD : Z := 63.

(** ** Records *)
Definition isSOAData (r : record) : bool :=
  if (RType r =? TypeSOA) || (RType r =? TypeZONEMD) then true
  else if negb (RType r =? TypeRRSIG) || (len (RData r) <? 2) then false
  else match get16 (RData r) with
       | Some covered => (covered =? TypeSOA) || (covered =? TypeZONEMD)
       | None => false
       end.
Definition soaWithSigs (rs : list record) : list record :=
  filter (λ r, RType r = TypeSOA) rs ++
  filter (λ r, RType r ≠ TypeSOA ∧ isSOAData r = true) rs.
Definition recordKey (r : record) : bytes :=
  Owner r ++ put16 (RType r) ++ put16 (RClass r) ++ put32 (TTL r) ++ RData r.

(** The keys of the records that are not SOA data. *)
Definition plain (rs : list record) : list record := filter (λ r, isSOAData r = false) rs.
Fixpoint diff_added (prev want : gset bytes) (desired : list record) : list record :=
  match desired with
  | [] => []
  | r :: rs =>
      if isSOAData r then diff_added prev want rs
      else
        let k := recordKey r in
        if bool_decide (k ∈ want) then diff_added prev want rs
        else if bool_decide (k ∈ prev) then diff_added prev ({[k]} ∪ want) rs
        else r :: diff_added prev ({[k]} ∪ want) rs
  end.
Definition keys (rs : list record) : gset bytes := list_to_set (map recordKey rs).
Definition diffIgnoringSOA (previous desired : list record) : list record * list record :=
  let prev := keys (plain previous) in
  let want := keys (plain desired) in
  (filter (λ r, isSOAData r = false ∧ recordKey r ∉ want) previous, diff_added prev ∅ desired).

Definition soaFieldsEqual (previous desired : list record) : bool :=
  match soaWithSigs previous, soaWithSigs desired with
  | a :: _, b :: _ =>
      let ra := RData a in let rb := RData b in
      if negb (TTL a =? TTL b) || negb (bool_decide (Owner a = Owner b)) ||
         negb (len ra =? len rb) || (len ra <? 20) then false
      else
        let s := Z.to_nat (len ra - 20) in
        bool_decide (take s ra = take s rb) && bool_decide (drop (s + 4) ra = drop (s + 4) rb)
  | _, _ => false
  end.

Inductive zone_err : Type :=
| EncodeErr (e : malformed) | NotFound | Duplicate | BadBlob | BadImage | BadDelta
| NeedsSerial | RowErr | PackErr | SignErr | NameErr.

Definition servedSerial (soaFirst : list record) : res zone_err Z :=
  match soaFirst with
  | [] => Panic
  | r :: _ =>
      if len (RData r) <? 20 then Panic
      else match get32 (drop (Z.to_nat (len (RData r) - 20)) (RData r)) with Some v => Ok v | None => Panic end
  end.
Definition withSerial (r : record) (serial : Z) : res zone_err record :=
  if len (RData r) <? 20 then Panic
  else
    let s := Z.to_nat (len (RData r) - 20) in
    Ok (mkRecord (Owner r) (RType r) (RClass r) (TTL r)
          (take s (RData r) ++ put32 serial ++ drop (s + 4) (RData r))).

(** ** Tables *)
Record jrow := mkJrow { from_serial : Z; to_serial : Z; j_sha : bytes; j_size : Z }.
Record irow := mkIrow { i_serial : Z; i_sha : bytes; i_size : Z }.
Record zdb := mkZdb {
  blobs : gmap bytes bytes;
  journal : gmap Z jrow;
  images : gmap Z irow;
}.
Inductive ZoneKind : Type := Primary | Secondary.
#[export] Instance ZoneKind_eq_dec : EqDecision ZoneKind.
Proof. solve_decision. Defined.

(** The fields of the zone row the journal reads; [Name] stands for the name and the SOA fields. *)
Record Zone (Name : Type) := mkZone {
  z_Name : Name; z_Kind : ZoneKind; Serial : Z; CurrentSeq : Z; ImageSeq : Z;
  DNSSECEnabled : bool; ZonemdGenerate : bool }.
Arguments mkZone {Name}.
Arguments z_Name {Name}.
Arguments z_Kind {Name}.
Arguments Serial {Name}.
Arguments CurrentSeq {Name}.
Arguments ImageSeq {Name}.
Arguments DNSSECEnabled {Name}.
Arguments ZonemdGenerate {Name}.

Section journal.
Context {Name RR : Type}.
Context (wide : Z → Z).
(** The DNS library. *)
Context (FromRR : RR → option record) (rr_set_serial : Z → RR → RR).
Context (soaRR : Zone Name → RR) (wireName : Name → option bytes).
(** zstd, SHA-256 in hex, and the order of a range over a map. *)
Context (compress : bytes → bytes) (decompress : bytes → option bytes) (sha : bytes → bytes).
Context (range_order : gmap bytes record → list record).

Definition set_image (z : Zone Name) (seq : Z) : Zone Name :=
  mkZone (z_Name z) (z_Kind z) (Serial z) (CurrentSeq z) seq (DNSSECEnabled z) (ZonemdGenerate z).
Definition set_version (z : Zone Name) (serial seq : Z) : Zone Name :=
  mkZone (z_Name z) (z_Kind z) serial seq (ImageSeq z) (DNSSECEnabled z) (ZonemdGenerate z).

(** ** Blobs *)
Definition putBlob (d : zdb) (raw : bytes) : zdb * bytes :=
  let data := compress raw in
  let k := sha data in
  (mkZdb (match blobs d !! k with Some _ => blobs d | None => <[k := data]> (blobs d) end)
     (journal d) (images d), k).
Definition Decompress (data : bytes) (maxSize : Z) : res zone_err bytes :=
  if maxSize <=? 0 then Err BadBlob
  else match decompress data with
       | None => Err BadBlob
       | Some out => if maxSize <? len out then Err BadBlob else Ok out
       end.
Definition readBlob (d : zdb) (k : bytes) : res zone_err bytes :=
  match blobs d !! k with None => Err NotFound | Some data => Decompress data maxServedSize end.

(** ** loadServed *)
Definition put_all (m : gmap bytes record) (rs : list record) : gmap bytes record :=
  foldl (λ m r, <[recordKey r := r]> m) m rs.
Definition delete_all (m : gmap bytes record) (rs : list record) : gmap bytes record :=
  foldl (λ m r, delete (recordKey r) m) m rs.
Definition apply_delta (m : gmap bytes record) (dl : Delta) : gmap bytes record :=
  put_all (delete_all m (Deleted dl)) (Added dl).

Definition decode_image (raw : bytes) : res zone_err Image :=
  match Decode wide raw with
  | Ok (DFull img) => Ok img
  | Ok (DDelta _) | Err _ => Err BadImage
  | Panic => Panic
  | Fuel => Fuel
  end.
Definition decode_delta (raw : bytes) : res zone_err Delta :=
  match Decode wide raw with
  | Ok (DDelta dl) => Ok dl
  | Ok (DFull _) | Err _ => Err BadDelta
  | Panic => Panic
  | Fuel => Fuel
  end.
Fixpoint apply_blobs (d : zdb) (m : gmap bytes record) (shas : list bytes) : res zone_err (gmap bytes record) :=
  match shas with
  | [] => Ok m
  | k :: shas =>
      raw ← readBlob d k;
      dl ← decode_delta raw;
      apply_blobs d (apply_delta m dl) shas
  end.
(** [SELECT blob_sha256 FROM zone_journal WHERE seq > from AND seq <= to ORDER BY seq]. *)
Definition journal_shas (d : zdb) (from to : Z) : list bytes :=
  omap (λ seq, j_sha <$> journal d !! seq) (seqZ (from + 1) (to - from)).
Definition served_map (d : zdb) (z : Zone Name) : res zone_err (gmap bytes record) :=
  match images d !! ImageSeq z with
  | None => Err NotFound
  | Some row =>
      raw ← readBlob d (i_sha row);
      img ← decode_image raw;
      apply_blobs d (put_all ∅ (img_Records img)) (journal_shas d (ImageSeq z) (CurrentSeq z))
  end.
Definition loadServed (d : zdb) (z : Zone Name) : res zone_err (list record) :=
  m ← served_map d z;
  Ok (SortRecords (range_order m)).

(** ** Writing a version *)
Definition lift {A} (m : res malformed A) : res zone_err A :=
  match m with Ok a => Ok a | Err e => Err (EncodeErr e) | Panic => Panic | Fuel => Fuel end.

(** [INSERT]: the sequence number is the primary key. *)
Definition insert_journal (d : zdb) (seq : Z) (row : jrow) : res zone_err zdb :=
  match journal d !! seq with
  | Some _ => Err Duplicate
  | None => Ok (mkZdb (blobs d) (<[seq := row]> (journal d)) (images d))
  end.
Definition insert_image (d : zdb) (seq : Z) (row : irow) : res zone_err zdb :=
  match images d !! seq with
  | Some _ => Err Duplicate
  | None => Ok (mkZdb (blobs d) (journal d) (<[seq := row]> (images d)))
  end.

Definition delta_bytes (d : zdb) (from : Z) : Z :=
  foldr Z.add 0 (map (λ p, if from <? p.1 then j_size p.2 else 0) (map_to_list (journal d))).
Definition needImage (d : zdb) (z : Zone Name) (seq : Z) : res zone_err bool :=
  if (ImageSeq z =? 0) || (imageEveryDelta <=? seq - ImageSeq z) then Ok true
  else match images d !! ImageSeq z with
       | None => Err NotFound
       | Some row =>
           let n := delta_bytes d (ImageSeq z) in
           Ok ((imageMinDeltaBytes <=? n) && (i_size row <=? n * 4))
       end.

Definition writeImage (d : zdb) (z : Zone Name) (origin : bytes) (seq serial : Z) (recs : list record)
    : res zone_err (zdb * Zone Name) :=
  raw ← lift (EncodeFull wide (mkImage origin serial recs));
  let '(d1, k) := putBlob d raw in
  d2 ← insert_image d1 seq (mkIrow serial k (len raw));
  Ok (mkZdb (blobs d2) (journal d2) (filter (λ p, seq ≤ p.1) (images d2)), set_image z seq).

Definition writeVersion (d : zdb) (z : Zone Name) (origin : bytes) (newSerial : Z) (dl : option Delta)
    (forceImage : bool) (image : res zone_err (list record)) : res zone_err (zdb * Zone Name) :=
  let seq := CurrentSeq z + 1 in
  d1 ← match dl with
       | None => Ok d
       | Some dl =>
           raw ← lift (EncodeDelta wide dl);
           let '(d1, k) := putBlob d raw in
           insert_journal d1 seq (mkJrow (FromSerial dl) (ToSerial dl) k (len raw))
       end;
  due ← needImage d1 z seq;
  '(d2, z2) ← (if due || forceImage
               then recs ← image; writeImage d1 z origin seq newSerial recs
               else Ok (d1, z));
  let d3 := mkZdb (blobs d2)
    (filter (λ p, ¬ (p.1 ≤ seq - journalKept ∧ p.1 ≤ ImageSeq z2)) (journal d2)) (images d2) in
  Ok (d3, set_version z2 newSerial seq).

(** ** Rebuild *)
Record RebuildOptions := mkOptions {
  o_Serial : option Z; Force : bool; Edit : option (list RR * list RR) }.
(** The signer: an interface of the package, implemented by the DNSSEC service. *)
Record Signer := mkSigner {
  Sign : Zone Name → list RR → option (list RR);
  ResignSOA : Zone Name → list RR → option (list RR);
  SignZONEMD : Zone Name → list RR → option (list RR);
}.
Context (Placeholder : Zone Name → RR) (zonemd_Apply : Zone Name → list RR → option (list RR)).

Definition of_opt {A} (e : zone_err) (o : option A) : res zone_err A :=
  match o with Some a => Ok a | None => Err e end.
Definition toRecords (rrs : list RR) : res zone_err (list record) := of_opt PackErr (mapM FromRR rrs).
Definition setSOASerial (rrs : list RR) (serial : Z) : list RR := map (rr_set_serial serial) rrs.
(** [stored] is the result of reading the record rows. *)
Definition desiredRRs (stored : res zone_err (list RR)) (z : Zone Name) : res zone_err (list RR) :=
  recs ← stored;
  Ok (soaRR z :: recs).

Definition nextSerial (z : Zone Name) (opts : RebuildOptions) : res zone_err Z :=
  n ← match z_Kind z, o_Serial opts with
      | Secondary, None => Err NeedsSerial
      | Secondary, Some s => Ok s
      | Primary, Some s => Ok (if SerialLess (Serial z) s then s else SerialNext (Serial z))
      | Primary, None => Ok (SerialNext (Serial z))
      end;
  Ok (if (CurrentSeq z =? 0) && bool_decide (o_Serial opts = None) then Serial z else n).

Definition sign_with (b : bool) (f : Signer → Zone Name → list RR → option (list RR)) (signer : option Signer)
    (z : Zone Name) (rrs : list RR) : res zone_err (list RR) :=
  match signer with
  | Some s => if b then of_opt SignErr (f s z rrs) else Ok rrs
  | None => Ok rrs
  end.

(** The serial of the version at the current sequence number. *)
Definition served_serial_at (d : zdb) (z : Zone Name) : res zone_err Z :=
  match journal d !! CurrentSeq z, images d !! CurrentSeq z with
  | Some row, _ => Ok (to_serial row)
  | None, Some row => Ok (i_serial row)
  | None, None => Err NotFound
  end.

Definition rebuildEdit (d : zdb) (stored : res zone_err (list RR)) (z : Zone Name) (opts : RebuildOptions)
    (before after : list RR) : res zone_err (option (zdb * Zone Name)) :=
  before ← toRecords before;
  after ← toRecords after;
  let '(deleted, added) := diffIgnoringSOA before after in
  if bool_decide (deleted = []) && bool_decide (added = []) && bool_decide (o_Serial opts = None)
  then Ok None
  else
    newSerial ← nextSerial z opts;
    served ← served_serial_at d z;
    oldSOA ← of_opt PackErr (FromRR (soaRR z));
    newSOA ← of_opt PackErr (FromRR (rr_set_serial newSerial (soaRR z)));
    origin ← of_opt NameErr (wireName (z_Name z));
    let dl := mkDelta origin (Serial z) newSerial (oldSOA :: deleted) (newSOA :: added) in
    r ← writeVersion d z origin newSerial (Some dl) (negb (u32 served =? Serial z))
          (desired ← desiredRRs stored z; toRecords (setSOASerial desired newSerial));
    Ok (Some r).

(** The served set before the new serial is known, and after. *)
Definition generateZonemd (z : Zone Name) : bool := ZonemdGenerate z && bool_decide (z_Kind z = Primary).
Definition first_desired (stored : res zone_err (list RR)) (signer : option Signer) (z : Zone Name) : res zone_err (list RR) :=
  desired ← desiredRRs stored z;
  let desired := desired ++ (if generateZonemd z then [Placeholder z] else []) in
  sign_with (DNSSECEnabled z) Sign signer z desired.
Definition final_desired (signer : option Signer) (z : Zone Name) (desired : list RR) (newSerial : Z)
    : res zone_err (list RR) :=
  let desired := setSOASerial desired newSerial in
  desired ← sign_with (DNSSECEnabled z) ResignSOA signer z desired;
  if generateZonemd z then
    desired ← of_opt SignErr (zonemd_Apply z desired);
    sign_with (DNSSECEnabled z) SignZONEMD signer z desired
  else Ok desired.

(** The delta from the served set to the new one, and whether an image must go with it. *)
Definition next_delta (z : Zone Name) (origin : bytes) (newSerial : Z)
    (previous deleted added desiredRecs : list record) : res zone_err (option Delta * bool) :=
  if 0 <? CurrentSeq z then
    let del := soaWithSigs previous ++ deleted in
    s ← servedSerial del;
    let add := soaWithSigs desiredRecs ++ added in
    if s =? Serial z then Ok (Some (mkDelta origin (Serial z) newSerial del add), false)
    else match del with
         | [] => Panic
         | r :: del => r ← withSerial r (Serial z);
                       Ok (Some (mkDelta origin (Serial z) newSerial (r :: del) add), true)
         end
  else Ok (None, false).

(** [Rebuild] from the whole record set.  [None]: nothing changed and nothing was written. *)
Definition rebuildFull (d : zdb) (stored : res zone_err (list RR)) (signer : option Signer) (z : Zone Name)
    (opts : RebuildOptions) : res zone_err (option (zdb * Zone Name)) :=
  desired ← first_desired stored signer z;
  previous ← (if 0 <? CurrentSeq z then loadServed d z else Ok []);
  desiredRecs ← toRecords desired;
  let '(deleted, added) := diffIgnoringSOA previous desiredRecs in
  let soaChanged := (CurrentSeq z =? 0) || negb (soaFieldsEqual previous desiredRecs) in
  if bool_decide (deleted = []) && bool_decide (added = []) && negb soaChanged && negb (Force opts) &&
     bool_decide (o_Serial opts = None) then Ok None
  else
    newSerial ← nextSerial z opts;
    desired ← final_desired signer z desired newSerial;
    desiredRecs ← toRecords desired;
    origin ← of_opt NameErr (wireName (z_Name z));
    '(dl, forceImage) ← next_delta z origin newSerial previous deleted added desiredRecs;
    r ← writeVersion d z origin newSerial dl forceImage (Ok desiredRecs);
    Ok (Some r).

Definition Rebuild (d : zdb) (stored : res zone_err (list RR)) (signer : option Signer) (z : Zone Name)
    (opts : RebuildOptions) : res zone_err (option (zdb * Zone Name)) :=
  match Edit opts with
  | Some (before, after) =>
      if negb (DNSSECEnabled z) && negb (generateZonemd z) && bool_decide (z_Kind z = Primary) &&
         (0 <? CurrentSeq z) && negb (Force opts)
      then rebuildEdit d stored z opts before after
      else rebuildFull d stored signer z opts
  | None => rebuildFull d stored signer z opts
  end.
End journal.
