(* ===== verification/ZoneServed.v ===== *)
(** * What is served is what was built

    The served set of a zone, as a set of records: reading a version back gives exactly the records
    [Rebuild] built, whether the version was written as a delta or as an image. *)

From S2P Require Import Prelude.
From S2P Require Import GoText.
From S2P Require Import NzfNames.
From S2P Require Import NzfFormat.
From S2P Require Import NzfTheorems.
From S2P Require Import ZoneJournal.

(** ** Keys *)

(** A record as the DNS library packs it: fields in range, an uncompressed owner name. *)
Definition key_ok (r : record) : Prop := record_wf r ∧ validName (Owner r) = Ok tt.

Lemma put16_inj a b x y : is_u16 a → is_u16 b → put16 a ++ x = put16 b ++ y → a = b ∧ x = y.
Proof.
  intros Ha Hb E. pose proof (get16_put16 a x Ha) as Ea. pose proof (get16_put16 b y Hb) as Eb.
  rewrite E in Ea. rewrite Ea in Eb. injection Eb as ->. split; [done|]. by apply app_inv_head in E.
Qed.
Lemma put32_inj a b x y : is_u32 a → is_u32 b → put32 a ++ x = put32 b ++ y → a = b ∧ x = y.
Proof.
  intros Ha Hb E. pose proof (get32_put32 a x Ha) as Ea. pose proof (get32_put32 b y Hb) as Eb.
  rewrite E in Ea. rewrite Ea in Eb. injection Eb as ->. split; [done|]. by apply app_inv_head in E.
Qed.
Lemma recordKey_inj a b : key_ok a → key_ok b → recordKey a = recordKey b → a = b.
Proof.
  intros [(Ho & Ht & Hc & Htt & Hr) Hv] [(Ho' & Ht' & Hc' & Htt' & Hr') Hv'] E.
  apply validName_spec in Hv as (ls & El & Hls & _); [|done].
  apply validName_spec in Hv' as (ls' & El' & Hls' & _); [|done].
  unfold recordKey in E. rewrite El, El' in E. apply wire_name_app_inj in E as [-> E]; [|done..].
  apply put16_inj in E as [Et E]; [|done..]. apply put16_inj in E as [Ec E]; [|done..].
  apply put32_inj in E as [Ett Er]; [|done..]. destruct a, b; simpl in *. congruence.
Qed.

(** ** Maps that hold a set of records *)
Definition rep (m : gmap bytes record) (S : list record) : Prop :=
  ∀ k r, m !! k = Some r ↔ k = recordKey r ∧ r ∈ S.

Lemma rep_empty : rep ∅ [].
Proof.
  intros k r. rewrite lookup_empty. split; [done|]. intros [_ H]. by apply elem_of_nil in H.
Qed.
Lemma rep_equiv m S S' : (∀ r, r ∈ S ↔ r ∈ S') → rep m S → rep m S'.
Proof. intros HS Hm k r. rewrite (Hm k r), HS. done. Qed.
Lemma rep_insert m S r :
  key_ok r → Forall key_ok S → rep m S → rep (<[recordKey r := r]> m) (r :: S).
Proof.
  intros Hr HS Hm k x. rewrite lookup_insert_Some, (Hm k x), elem_of_cons. split.
  - intros [[<- <-]|(Hk & -> & Hx)]; auto.
  - intros (-> & [->|Hx]); [by left|].
    destruct (decide (recordKey r = recordKey x)) as [E|]; [|by right].
    left. split; [done|]. rewrite Forall_forall in HS. apply recordKey_inj; auto.
Qed.
Lemma rep_put_all m S rs :
  Forall key_ok S → Forall key_ok rs → rep m S → rep (put_all m rs) (rs ++ S).
Proof.
  revert m S. induction rs as [|r rs IH]; intros m S HS Hrs Hm; [done|].
  apply Forall_cons in Hrs as [Hr Hrs]. unfold put_all. cbn [foldl].
  eapply rep_equiv; [|apply (IH _ (r :: S)); [by constructor|done|by apply rep_insert]].
  intros x. rewrite <- app_comm_cons, elem_of_cons, !elem_of_app, elem_of_cons. tauto.
Qed.
Lemma rep_delete m S r :
  key_ok r → Forall key_ok S → rep m S → rep (delete (recordKey r) m) (filter (λ x, x ≠ r) S).
Proof.
  intros Hr HS Hm k x. rewrite lookup_delete_Some, (Hm k x), list_elem_of_filter. split.
  - intros (Hk & -> & Hx). split; [done|]. split; [|done]. by intros ->.
  - intros (-> & Hne & Hx). split; [|done]. intros E. apply Hne. symmetry.
    rewrite Forall_forall in HS. apply recordKey_inj; auto.
Qed.
Lemma rep_delete_all m S rs :
  Forall key_ok S → Forall key_ok rs → rep m S → rep (delete_all m rs) (filter (λ x, x ∉ rs) S).
Proof.
  revert m S. induction rs as [|r rs IH]; intros m S HS Hrs Hm.
  - eapply rep_equiv; [|exact Hm]. intros x. rewrite list_elem_of_filter.
    pose proof (not_elem_of_nil x). tauto.
  - apply Forall_cons in Hrs as [Hr Hrs]. unfold delete_all. cbn [foldl].
    eapply rep_equiv; [|apply (IH _ (filter (λ x, x ≠ r) S)); [|done|by apply rep_delete]].
    + intros x. rewrite !list_elem_of_filter, not_elem_of_cons. tauto.
    + by apply Forall_filter.
Qed.
Lemma rep_apply_delta m S dl :
  Forall key_ok S → Forall key_ok (Deleted dl) → Forall key_ok (Added dl) → rep m S →
  rep (apply_delta m dl) (Added dl ++ filter (λ x, x ∉ Deleted dl) S).
Proof.
  intros HS Hd Ha Hm. apply rep_put_all; [by apply Forall_filter|done|by apply rep_delete_all].
Qed.

(** ** The diff *)
Lemma elem_keys k rs : k ∈ keys rs ↔ ∃ r, r ∈ rs ∧ k = recordKey r.
Proof.
  unfold keys. rewrite elem_of_list_to_set, list_elem_of_fmap.
  split; intros (r & ? & ?); by exists r.
Qed.
Lemma elem_keys_ok r rs : key_ok r → Forall key_ok rs → recordKey r ∈ keys rs ↔ r ∈ rs.
Proof.
  intros Hr Hrs. rewrite elem_keys. rewrite Forall_forall in Hrs. split; [|by eauto].
  intros (x & Hx & E). apply recordKey_inj in E; [by subst|done|by auto].
Qed.
Lemma Forall_plain rs : Forall key_ok rs → Forall key_ok (plain rs).
Proof. intros H. unfold plain. by apply Forall_filter. Qed.

Lemma elem_diff_added prev want rs r :
  key_ok r → Forall key_ok rs →
  r ∈ diff_added prev want rs ↔
  r ∈ rs ∧ isSOAData r = false ∧ recordKey r ∉ prev ∧ recordKey r ∉ want.
Proof.
  intros Hr Hrs. revert want. induction Hrs as [|x rs Hx Hrs IH]; intros want; simpl.
  { pose proof (not_elem_of_nil r). tauto. }
  assert (recordKey r = recordKey x → r = x) as Hinj by (intros; by apply recordKey_inj).
  rewrite elem_of_cons. destruct (isSOAData x) eqn:Ex.
  { rewrite IH. split; [tauto|]. intros ([->|?] & ? & ?); [congruence|tauto]. }
  case_bool_decide as Hw.
  { rewrite IH. split; [tauto|]. intros ([->|?] & ? & ? & ?); [done|tauto]. }
  case_bool_decide as Hp.
  - rewrite IH, not_elem_of_union, not_elem_of_singleton. split; [tauto|].
    intros ([->|?] & ? & ? & ?); [done|]. split_and!; try done. intros E. by rewrite E in *.
  - rewrite elem_of_cons, IH, not_elem_of_union, not_elem_of_singleton. split.
    + intros [->|?]; tauto.
    + intros (Hin & ? & ? & ?). destruct (decide (r = x)) as [->|Hne]; [by left|].
      right. split; [by destruct Hin|]. split_and!; try done. auto.
Qed.

(** The two lists of the diff, as sets. *)
Lemma diffIgnoringSOA_spec previous desired r :
  key_ok r → Forall key_ok previous → Forall key_ok desired →
  let '(deleted, added) := diffIgnoringSOA previous desired in
  (r ∈ deleted ↔ r ∈ previous ∧ isSOAData r = false ∧ r ∉ desired) ∧
  (r ∈ added ↔ r ∈ desired ∧ isSOAData r = false ∧ r ∉ previous).
Proof.
  intros Hr Hp Hd. unfold diffIgnoringSOA. split.
  - rewrite list_elem_of_filter, elem_keys_ok by auto using Forall_plain. unfold plain.
    rewrite list_elem_of_filter. tauto.
  - rewrite elem_diff_added, elem_keys_ok by auto using Forall_plain. unfold plain.
    rewrite list_elem_of_filter. pose proof (not_elem_of_empty (C := gset bytes) (recordKey r)). tauto.
Qed.
Lemma elem_soaWithSigs rs r : r ∈ soaWithSigs rs ↔ r ∈ rs ∧ isSOAData r = true.
Proof.
  unfold soaWithSigs. rewrite elem_of_app, !list_elem_of_filter.
  assert (RType r = TypeSOA → isSOAData r = true) as H.
  { intros E. unfold isSOAData. by rewrite E. }
  destruct (decide (RType r = TypeSOA)); tauto.
Qed.

(** ** The blob store and the tables *)
Section served.
Context {Name RR : Type} (wide : Z → Z).
Context (FromRR : RR → option record) (rr_set_serial : Z → RR → RR).
Context (soaRR : Zone Name → RR) (wireName : Name → option bytes).
Context (compress : bytes → bytes) (decompress : bytes → option bytes) (sha : bytes → bytes).
Context (range_order : gmap bytes record → list record).

(** What the libraries document. *)
Hypothesis zstd_round : ∀ raw, decompress (compress raw) = Some raw.
Hypothesis sha_injective : ∀ a b, sha a = sha b → a = b.
Hypothesis range_all : ∀ m, range_order m ≡ₚ map snd (map_to_list m).

Abbreviation PutBlob := (putBlob compress sha).
Abbreviation ReadBlob := (readBlob decompress).
Abbreviation ApplyBlobs := (apply_blobs wide decompress).
Abbreviation ServedMap := (served_map (Name := Name) wide decompress).

Definition blobs_ok (d : zdb) : Prop := ∀ k b, blobs d !! k = Some b → k = sha b.

Lemma put_read d raw d1 k : PutBlob d raw = (d1, k) → blobs_ok d → len raw ≤ maxServedSize →
  ReadBlob d1 k = Ok raw.
Proof.
  unfold putBlob, readBlob, Decompress. intros [= <- <-] Hb Hl. simpl.
  assert (match blobs d !! sha (compress raw) with
    | Some _ => blobs d | None => <[sha (compress raw) := compress raw]> (blobs d) end
    !! sha (compress raw) = Some (compress raw)) as ->.
  { destruct (blobs d !! sha (compress raw)) as [b|] eqn:E; [|by rewrite lookup_insert_eq].
    rewrite E. f_equal. symmetry. apply sha_injective, Hb, E. }
  rewrite zstd_round. by rewrite (proj2 (Z.ltb_ge _ _)).
Qed.
Lemma put_blobs d raw d1 k : PutBlob d raw = (d1, k) →
  (blobs_ok d → blobs_ok d1) ∧ blobs d ⊆ blobs d1 ∧ journal d1 = journal d ∧ images d1 = images d.
Proof.
  unfold putBlob, blobs_ok. intros [= <- <-]. simpl. destruct (blobs d !! _) eqn:E; [done|].
  split; [|split; [by apply insert_subseteq|done]].
  intros Hb k b. rewrite lookup_insert_Some. intros [[<- <-]|[_ ?]]; [done|by apply Hb].
Qed.
Lemma readBlob_mono d d1 k raw : blobs d ⊆ blobs d1 → ReadBlob d k = Ok raw → ReadBlob d1 k = Ok raw.
Proof.
  unfold readBlob. intros Hs. destruct (blobs d !! k) as [b|] eqn:E; [|done].
  by rewrite (lookup_weaken _ _ _ _ E Hs).
Qed.
Lemma apply_blobs_mono d d1 m shas m' : blobs d ⊆ blobs d1 →
  ApplyBlobs d m shas = Ok m' → ApplyBlobs d1 m shas = Ok m'.
Proof.
  intros Hs. revert m. induction shas as [|k shas IH]; intros m; [done|]. cbn [apply_blobs].
  intros (raw & Hr & (dl & Hd & H)%bind_Ok)%bind_Ok. rewrite (readBlob_mono _ _ _ _ Hs Hr).
  cbn [mbind res_bind]. rewrite Hd. cbn [mbind res_bind]. by apply IH.
Qed.
Lemma apply_blobs_app d m l1 l2 :
  ApplyBlobs d m (l1 ++ l2) = m' ← ApplyBlobs d m l1; ApplyBlobs d m' l2.
Proof.
  revert m. induction l1 as [|k l1 IH]; intros m; [done|]. cbn [apply_blobs app].
  destruct (ReadBlob d k); try done. cbn [mbind res_bind].
  destruct (decode_delta wide a); try done. apply IH.
Qed.

Lemma journal_shas_ext d d1 from to :
  (∀ s, from < s ≤ to → journal d1 !! s = journal d !! s) →
  journal_shas d1 from to = journal_shas d from to.
Proof.
  intros H. unfold journal_shas. apply list_omap_ext, Forall_Forall2_diag, Forall_forall.
  intros s Hs%elem_of_seqZ. by rewrite H by lia.
Qed.
Lemma journal_shas_snoc d from to row : from ≤ to → journal d !! (to + 1) = Some row →
  journal_shas d from (to + 1) = journal_shas d from to ++ [j_sha row].
Proof.
  intros Hle E. unfold journal_shas. replace (to + 1 - from) with (to - from + 1) by lia.
  rewrite seqZ_app by lia. rewrite omap_app. f_equal.
  replace (from + 1 + (to - from)) with (to + 1) by lia.
  replace (seqZ (to + 1) 1) with [to + 1] by (unfold seqZ; simpl; f_equal; lia). cbn. by rewrite E.
Qed.

(** ** Encoded versions decode to the records they were made of *)
Lemma encoded_size rs rs' origin :
  rs' ≡ₚ rs → Forall record_wf rs → Forall (λ r, checkRecord wide r origin = Ok tt) rs →
  11 * len rs ≤ len (concat (map appendRecord rs')).
Proof.
  intros P Hw Hc. rewrite <- (len_perm _ _ P). symmetry in P.
  apply (len_appendRecords wide rs' origin); by eapply Forall_perm_iff.
Qed.
Lemma encode_full_count origin serial recs raw :
  Forall record_wf recs → EncodeFull wide (mkImage origin serial recs) = Ok raw → 11 * len recs ≤ len raw.
Proof.
  intros Hr E. unfold EncodeFull in E. simpl in E.
  apply bind_Ok in E as ([] & _ & ([] & Hc%checkRecords_Ok & ([] & _ & (h & Hh & [= <-])%bind_Ok)%bind_Ok)%bind_Ok).
  unfold appendRecords. rewrite len_app.
  pose proof (encoded_size recs (SortRecords recs) origin (SortRecords_perm recs) Hr Hc).
  pose proof (len_nonneg h). lia.
Qed.
Lemma encode_delta_count dl raw : delta_wf dl → EncodeDelta wide dl = Ok raw →
  11 * len (Deleted dl) ≤ len raw ∧ 11 * len (Added dl) ≤ len raw.
Proof.
  intros Hw E. destruct dl as [origin from to dels adds]. destruct Hw as (_ & _ & _ & Hwd & Hwa). simpl in *.
  unfold EncodeDelta in E. simpl in E. apply bind_Ok in E as ([] & _ & E).
  destruct dels as [|d0 dels]; [done|]. destruct adds as [|a0 adds]; [done|].
  apply bind_Ok in E as ([] & _ & ([] & _ & ([] & Hcd & ([] & Hca & (h & _ & [= <-])%bind_Ok)%bind_Ok)%bind_Ok)%bind_Ok).
  apply (checkRecords_Ok wide (d0 :: dels)) in Hcd. apply (checkRecords_Ok wide (a0 :: adds)) in Hca.
  pose proof (encoded_size _ _ origin (sort_tail_perm (d0 :: dels)) Hwd Hcd) as H1.
  pose proof (encoded_size _ _ origin (sort_tail_perm (a0 :: adds)) Hwa Hca) as H2.
  unfold appendRecords. rewrite !len_app. cbn [sort_tail] in *. pose proof (len_nonneg h).
  pose proof (len_nonneg (d0 :: dels)). pose proof (len_nonneg (a0 :: adds)). lia.
Qed.
Lemma encode_full_back origin serial recs raw :
  Forall is_byte origin → is_u32 serial → Forall record_wf recs → len raw ≤ maxServedSize →
  EncodeFull wide (mkImage origin serial recs) = Ok raw →
  ∃ img, decode_image wide raw = Ok img ∧ img_Records img ≡ₚ recs.
Proof.
  intros Ho Hs Hr Hl E. pose proof (encode_full_count _ _ _ _ Hr E) as Hn. unfold decode_image.
  rewrite (Decode_full wide (mkImage origin serial recs) raw); [|done|simpl; unfold maxServedSize in *; lia|done].
  eexists. split; [done|]. apply SortRecords_perm.
Qed.
Lemma encode_delta_back dl raw :
  delta_wf dl → len raw ≤ maxServedSize → EncodeDelta wide dl = Ok raw →
  ∃ dl', decode_delta wide raw = Ok dl' ∧ Deleted dl' ≡ₚ Deleted dl ∧ Added dl' ≡ₚ Added dl.
Proof.
  intros Hw Hl E. unfold decode_delta. destruct (encode_delta_count dl raw Hw E) as [Hd Ha].
  rewrite (Decode_delta wide dl raw); [|done|unfold maxServedSize in *; lia..|done].
  eexists. split; [done|]. simpl. split; apply sort_tail_perm.
Qed.

(** ** The invariant of the tables

    The current version of [z] reads back as the set [S]. *)
Record journal_inv (d : zdb) (z : Zone Name) (S : list record) : Prop := {
  ji_blobs : blobs_ok d;
  ji_seq : 0 ≤ ImageSeq z ≤ CurrentSeq z;
  ji_journal : ∀ s row, journal d !! s = Some row → s ≤ CurrentSeq z;
  ji_images : ∀ s row, images d !! s = Some row → s ≤ CurrentSeq z;
  ji_first : 0 < CurrentSeq z → 0 < ImageSeq z;
  ji_served : 0 < CurrentSeq z → ∃ m, ServedMap d z = Ok m ∧ rep m S;
  ji_keys : Forall key_ok S;
  ji_serial : is_u32 (Serial z);
}.
Abbreviation WriteImage := (writeImage (Name := Name) wide compress sha).
Abbreviation WriteVersion := (writeVersion (Name := Name) wide compress sha).

(** The rows written at [seq] are within the size a blob may have when it is read back. *)
Definition fits (d : zdb) (seq : Z) : Prop :=
  (∀ row, journal d !! seq = Some row → j_size row ≤ maxServedSize) ∧
  (∀ row, images d !! seq = Some row → i_size row ≤ maxServedSize).

Lemma key_ok_wf rs : Forall key_ok rs → Forall record_wf rs.
Proof. intros H. eapply Forall_impl; [exact H|]. by intros ? []. Qed.
Lemma rep_set rs rs' : Forall key_ok rs → rs' ≡ₚ rs → rep (put_all ∅ rs') rs.
Proof.
  intros Hk P. eapply rep_equiv; [|apply (rep_put_all ∅ []); [done| |apply rep_empty]].
  - intros r. rewrite app_nil_r, P. done.
  - symmetry in P. by eapply Forall_perm_iff.
Qed.

(** An image makes its version readable on its own. *)
Lemma writeImage_served d z origin seq serial recs d' z' :
  blobs_ok d → Forall is_byte origin → is_u32 serial → Forall key_ok recs →
  WriteImage d z origin seq serial recs = Ok (d', z') → 
  (∀ row, images d' !! seq = Some row → i_size row ≤ maxServedSize) →
  z' = set_image z seq ∧ blobs_ok d' ∧ blobs d ⊆ blobs d' ∧ journal d' = journal d ∧
  (∀ s row, images d' !! s = Some row → s = seq ∨ images d !! s = Some row) ∧
  ∃ row raw img, images d' !! seq = Some row ∧ ReadBlob d' (i_sha row) = Ok raw ∧
    decode_image wide raw = Ok img ∧ img_Records img ≡ₚ recs ∧
    i_serial row = serial ∧ i_size row = len raw ∧ EncodeFull wide (mkImage origin serial recs) = Ok raw.
Proof.
  intros Hb Ho Hs Hk (raw & Hraw & H)%bind_Ok Hfit.
  destruct (EncodeFull wide (mkImage origin serial recs)) as [raw0| | |] eqn:E; try done.
  injection Hraw as ->. destruct (PutBlob d raw) as [d1 k] eqn:Ep.
  destruct (put_blobs _ _ _ _ Ep) as (Hb1 & Hsub & Hj & Hi).
  apply bind_Ok in H as (d2 & Hins & [= <- <-]). unfold insert_image in Hins.
  destruct (images d1 !! seq) eqn:Ei; [done|]. injection Hins as <-. simpl in *.
  assert (filter (λ p : Z * irow, seq ≤ p.1) (<[seq := mkIrow serial k (len raw)]> (images d1)) !! seq =
    Some (mkIrow serial k (len raw))) as Hrow.
  { apply map_lookup_filter_Some. simpl. by rewrite lookup_insert_eq. }
  specialize (Hfit _ Hrow). simpl in Hfit.
  destruct (encode_full_back origin serial recs raw) as (img & Hd & Hp); try done; [by apply key_ok_wf|].
  pose proof (put_read _ _ _ _ Ep Hb Hfit) as Hr.
  split; [done|]. split; [by apply Hb1|]. split; [done|]. split; [done|]. split.
  - intros s row [H _]%map_lookup_filter_Some. rewrite lookup_insert_Some, Hi in H.
    destruct H as [[<- _]|[_ ?]]; auto.
  - exists (mkIrow serial k (len raw)), raw, img. done.
Qed.

(** What the new version must be, in terms of the delta and the image the caller gives. *)
Definition delta_for (z : Zone Name) (origin : bytes) (serial : Z) (S T : list record) (force : bool)
    (dl : option Delta) : Prop :=
  match dl with
  | None => CurrentSeq z = 0
  | Some dl =>
      0 < CurrentSeq z ∧ dl_Origin dl = origin ∧ FromSerial dl = Serial z ∧ ToSerial dl = serial ∧
      Forall key_ok (Deleted dl) ∧ Forall key_ok (Added dl) ∧
      (force = false → ∀ r, r ∈ T ↔ r ∈ Added dl ++ filter (λ x, x ∉ Deleted dl) S)
  end.
Definition image_for (T : list record) (image : res zone_err (list record)) : Prop :=
  ∀ recs, image = Ok recs → Forall key_ok recs ∧ ∀ r, r ∈ recs ↔ r ∈ T.

Lemma served_after_image z serial T seq d' row raw img recs :
  seq = CurrentSeq z + 1 →
  images d' !! seq = Some row → ReadBlob d' (i_sha row) = Ok raw → decode_image wide raw = Ok img →
  img_Records img ≡ₚ recs → Forall key_ok recs → (∀ r, r ∈ recs ↔ r ∈ T) →
  ∃ m, ServedMap d' (set_version (set_image z seq) serial seq) = Ok m ∧ rep m T.
Proof.
  intros -> Hi Hr Hd Hp Hk HT. unfold served_map. simpl. rewrite Hi. cbn [mbind res_bind].
  rewrite Hr. cbn [mbind res_bind]. rewrite Hd. cbn [mbind res_bind].
  unfold journal_shas. rewrite Z.sub_diag. cbn. eexists. split; [done|].
  eapply rep_equiv; [exact HT|]. by apply rep_set.
Qed.

(** Adding one delta to the journal applies it to what was served. *)
Lemma served_after_delta d z S T serial seq d' dl raw row :
  journal_inv d z S → seq = CurrentSeq z + 1 → 0 < CurrentSeq z →
  blobs d ⊆ blobs d' → images d' = images d →
  (∀ s, ImageSeq z < s ≤ CurrentSeq z → journal d' !! s = journal d !! s) →
  journal d' !! seq = Some row → ReadBlob d' (j_sha row) = Ok raw →
  delta_wf dl → len raw ≤ maxServedSize → EncodeDelta wide dl = Ok raw →
  Forall key_ok (Deleted dl) → Forall key_ok (Added dl) →
  (∀ r, r ∈ T ↔ r ∈ Added dl ++ filter (λ x, x ∉ Deleted dl) S) →
  ∃ m, ServedMap d' (set_version z serial seq) = Ok m ∧ rep m T.
Proof.
  intros HI -> Hcur Hb Hi Hj Hrow Hr Hw Hl He Hkd Hka HT.
  destruct (ji_served _ _ _ HI Hcur) as (m & Hm & Hrep).
  destruct (encode_delta_back dl raw Hw Hl He) as (dl' & Hdl & Pd & Pa).
  unfold served_map in *. simpl. rewrite Hi. destruct (images d !! ImageSeq z) as [irow|]; [|done].
  apply bind_Ok in Hm as (iraw & Hir & (img & Hd & Hm)%bind_Ok).
  rewrite (readBlob_mono _ _ _ _ Hb Hir). cbn [mbind res_bind]. rewrite Hd. cbn [mbind res_bind].
  rewrite (journal_shas_snoc d' _ _ row) by (done || apply HI).
  rewrite (journal_shas_ext d d') by done. rewrite apply_blobs_app.
  rewrite (apply_blobs_mono _ _ _ _ _ Hb Hm). cbn [mbind res_bind apply_blobs].
  rewrite Hr. cbn [mbind res_bind]. rewrite Hdl. cbn [mbind res_bind].
  eexists. split; [done|]. eapply rep_equiv; [|apply (rep_apply_delta m S)]; try done.
  - intros r. rewrite HT, !elem_of_app, !list_elem_of_filter, Pa, Pd. done.
  - apply HI.
  - symmetry in Pd. by eapply Forall_perm_iff.
  - symmetry in Pa. by eapply Forall_perm_iff.
Qed.

Lemma needImage_first d z seq : ImageSeq z = 0 → needImage (Name := Name) d z seq = Ok true.
Proof. unfold needImage. by intros ->. Qed.

(** The first half of [writeVersion]: the delta's blob and journal row. *)
Lemma journal_written d (z : Zone Name) dl d1 :
  blobs_ok d → (∀ s row, journal d !! s = Some row → s ≤ CurrentSeq z) → let seq := CurrentSeq z + 1 in
  match dl with
  | None => Ok d
  | Some dl =>
      raw ← lift (EncodeDelta wide dl);
      let '(d1, k) := PutBlob d raw in
      insert_journal d1 seq (mkJrow (FromSerial dl) (ToSerial dl) k (len raw))
  end = Ok d1 →
  blobs_ok d1 ∧ blobs d ⊆ blobs d1 ∧ images d1 = images d ∧
  (∀ s, s ≤ CurrentSeq z → journal d1 !! s = journal d !! s) ∧
  (∀ s row, journal d1 !! s = Some row → s ≤ seq) ∧
  match dl with
  | None => True
  | Some dl => ∃ raw row, EncodeDelta wide dl = Ok raw ∧ journal d1 !! seq = Some row ∧
      j_size row = len raw ∧ (len raw ≤ maxServedSize → ReadBlob d1 (j_sha row) = Ok raw) ∧
      from_serial row = FromSerial dl ∧ to_serial row = ToSerial dl
  end.
Proof.
  intros Hok Hcur seq H1. destruct dl as [dl|].
  - apply bind_Ok in H1 as (raw & Hraw & H1). destruct (EncodeDelta wide dl) as [raw0| | |] eqn:E; try done.
    injection Hraw as ->. destruct (PutBlob d raw) as [d0 k] eqn:Ep.
    destruct (put_blobs _ _ _ _ Ep) as (Hb & Hsub & Hj & Hi). unfold insert_journal in H1.
    destruct (journal d0 !! seq) eqn:Es; [done|]. injection H1 as <-. simpl. rewrite Hj.
    split; [by apply Hb|]. split; [done|]. split; [done|]. split; [|split].
    + intros s Hle. rewrite lookup_insert_ne; [done|]. lia.
    + intros s row. rewrite lookup_insert_Some. intros [[<- _]|[_ Hr]]; [lia|].
      pose proof (Hcur s row Hr). lia.
    + eexists raw, _. split; [done|]. split; [by rewrite lookup_insert_eq|]. split; [done|].
      split; [|done]. intros Hl. exact (put_read _ _ _ _ Ep Hok Hl).
  - injection H1 as <-. split; [done|]. split; [done|]. split; [done|]. split; [done|]. split; [|done].
    intros s row Hr. pose proof (Hcur s row Hr). lia.
Qed.

Lemma pruned_lookup (j : gmap Z jrow) a b s : b < s →
  filter (λ p : Z * jrow, ¬ (p.1 ≤ a ∧ p.1 ≤ b)) j !! s = j !! s.
Proof.
  intros Hs. destruct (j !! s) as [row|] eqn:E.
  - apply map_lookup_filter_Some. split; [done|]. simpl. lia.
  - apply map_lookup_filter_None. by left.
Qed.
Lemma pruned_Some (j : gmap Z jrow) (P : Z * jrow → Prop) `{∀ x, Decision (P x)} s row :
  filter P j !! s = Some row → j !! s = Some row.
Proof. by intros [? _]%map_lookup_filter_Some. Qed.

Lemma writeVersion_served d z S T origin serial dl force image d' z' :
  journal_inv d z S → Forall is_byte origin → is_u32 serial → Forall key_ok T →
  delta_for z origin serial S T force dl → image_for T image →
  WriteVersion d z origin serial dl force image = Ok (d', z') → fits d' (CurrentSeq z + 1) →
  journal_inv d' z' T ∧ Serial z' = serial ∧ CurrentSeq z' = CurrentSeq z + 1.
Proof.
  intros HI Ho Hs HT Hdl Himg H [Hfj Hfi]. unfold writeVersion in H.
  apply bind_Ok in H as (d1 & H1 & (due & Hdue & ([d2 z2] & H2 & [= <- <-])%bind_Ok)%bind_Ok).
  destruct (journal_written d z dl d1 (ji_blobs _ _ _ HI) (ji_journal _ _ _ HI) H1) as (Hb1 & Hsub1 & Hi1 & Hj1 & Hjs1 & Hdl1). clear H1.
  pose proof (ji_seq _ _ _ HI) as Hseq. simpl in Hfj, Hfi. split; [|done].
  destruct (due || force) eqn:Edue.
  - apply bind_Ok in H2 as (recs & Hrecs & H2). destruct (Himg recs Hrecs) as [Hk Hr].
    destruct (writeImage_served _ _ _ _ _ _ _ _ Hb1 Ho Hs Hk H2 Hfi)
      as (-> & Hb2 & Hsub2 & Hj2 & Him2 & row & raw & img & Hrow & Hrd & Hdec & Hperm & _).
    split; simpl; [exact Hb2|lia| | |lia| |done|done].
    + intros s jr Hjr%pruned_Some. rewrite Hj2 in Hjr. by eapply Hjs1.
    + intros s ir Hir. destruct (Him2 s ir Hir) as [->|Hir']; [done|]. rewrite Hi1 in Hir'.
      pose proof (ji_images _ _ _ HI s ir Hir'). lia.
    + intros _. by eapply (served_after_image z serial T).
  - injection H2 as <- <-. apply orb_false_iff in Edue as [-> ->].
    destruct dl as [dl|].
    2:{ exfalso. rewrite needImage_first in Hdue; [done|]. unfold delta_for in Hdl. lia. }
    destruct Hdl as (Hcur & Eo & Ef & Et & Hkd & Hka & HTd).
    destruct Hdl1 as (raw & row & He & Hrow & Hsz & Hrd & _).
    rewrite pruned_lookup in Hfj by lia. specialize (Hfj row Hrow). rewrite Hsz in Hfj.
    split; simpl; [exact Hb1|lia| | |by intros; apply HI| |done|done].
    + intros s jr Hjr%pruned_Some. by eapply Hjs1.
    + intros s ir Hir. rewrite Hi1 in Hir. pose proof (ji_images _ _ _ HI s ir Hir). lia.
    + intros _. eapply (served_after_delta d z S T serial _ _ dl raw row); try done; simpl.
      * intros s Hs'. rewrite pruned_lookup by lia. apply Hj1. lia.
      * by rewrite pruned_lookup by lia.
      * by apply Hrd.
      * unfold delta_wf. rewrite Eo, Ef, Et. split_and!; try done; [apply HI|by apply key_ok_wf..].
      * by apply HTd.
Qed.
End served.
