(* ===== verification/ZoneRebuild.v ===== *)
(** * Rebuild keeps the journal true

    [Rebuild] against the invariant of [ZoneServed]: the version it writes reads back as exactly the
    records it built, both from the whole record set and from the delta of an edit, and writing
    nothing means that nothing differs. *)

From S2P Require Import Prelude.
From S2P Require Import GoText.
From S2P Require Import NzfNames.
From S2P Require Import NzfFormat.
From S2P Require Import NzfTheorems.
From S2P Require Import ZoneJournal.
From S2P Require Import ZoneServed.

(** The records of [rrs] that pack and are not SOA data. *)
Definition plain_of {RR} (FromRR : RR → option record) (rrs : list RR) : list record :=
  plain (omap FromRR rrs).

(** What [Rebuild] relies on of a step that finishes a served set (setting the serial, re-signing
    the SOA, filling in and signing the ZONEMD): it changes SOA data only. *)
Class PlainKept {RR} (FromRR : RR → option record) (f : list RR → option (list RR)) : Prop :=
  plain_kept rrs rrs' : f rrs = Some rrs' →
    ∀ r, r ∈ plain_of FromRR rrs ↔ r ∈ plain_of FromRR rrs'.

(** The promise of the signer, discharged by its implementation. *)
Class SignerLaws {Name RR} (FromRR : RR → option record) (s : Signer (Name := Name) (RR := RR)) : Prop := {
  resign_kept z :: PlainKept FromRR (ResignSOA s z);
  zonemd_kept z :: PlainKept FromRR (SignZONEMD s z);
}.

(** ** The set arithmetic of a delta *)
Lemma diff_added_sub prev want rs : diff_added prev want rs ⊆ rs.
Proof.
  revert want. induction rs as [|x rs IH]; intros want r; simpl; [done|]. rewrite elem_of_cons.
  case_match; [by right; apply (IH want)|]. case_bool_decide; [by right; apply (IH want)|].
  case_bool_decide; [by right; eapply IH|]. rewrite elem_of_cons. intros [?|?]; [by left|right; by eapply IH].
Qed.

(** Dropping the served SOA data and the deleted records and adding the new ones gives the new set. *)
Lemma served_set (S previous desired final deleted added : list record) :
  (∀ r, r ∈ previous ↔ r ∈ S) →
  (∀ r, r ∈ S → key_ok r) → (∀ r, r ∈ desired → key_ok r) → (∀ r, r ∈ final → key_ok r) →
  (∀ r, r ∈ plain desired ↔ r ∈ plain final) →
  (∀ r, key_ok r → (r ∈ deleted ↔ r ∈ S ∧ isSOAData r = false ∧ r ∉ desired) ∧
                   (r ∈ added ↔ r ∈ desired ∧ isSOAData r = false ∧ r ∉ S)) →
  added ⊆ desired →
  ∀ r, r ∈ final ↔
    r ∈ (soaWithSigs final ++ added) ++ filter (λ x, x ∉ soaWithSigs previous ++ deleted) S.
Proof.
  intros Hprev HkS Hkd Hkf Hpl Hdiff Has r.
  assert (r ∈ plain desired ↔ r ∈ desired ∧ isSOAData r = false) as Ed
    by (unfold plain; rewrite list_elem_of_filter; tauto).
  assert (r ∈ plain final ↔ r ∈ final ∧ isSOAData r = false) as Ef
    by (unfold plain; rewrite list_elem_of_filter; tauto).
  specialize (Hpl r). specialize (Hprev r). specialize (Hdiff r). specialize (Has r).
  rewrite !elem_of_app, list_elem_of_filter, not_elem_of_app, !elem_soaWithSigs.
  destruct (decide (r ∈ S)) as [HS|HS]; destruct (isSOAData r) eqn:Esoa.
  - destruct (Hdiff (HkS r HS)) as [Hdel Hadd]. intuition congruence.
  - destruct (Hdiff (HkS r HS)) as [Hdel Hadd]. destruct (decide (r ∈ desired)); intuition congruence.
  - destruct (decide (r ∈ added)) as [Ha|Ha]; [|intuition congruence].
    destruct (Hdiff (Hkd r (Has Ha))) as [_ Hadd]. intuition congruence.
  - destruct (decide (r ∈ desired)) as [Hd|Hd].
    + destruct (Hdiff (Hkd r Hd)) as [_ Hadd]. intuition congruence.
    + intuition congruence.
Qed.

Section rebuild.
Context {Name RR : Type} (wide : Z → Z).
Context (FromRR : RR → option record) (rr_set_serial : Z → RR → RR).
Context (soaRR : Zone Name → RR) (wireName : Name → option bytes).
Context (compress : bytes → bytes) (decompress : bytes → option bytes) (sha : bytes → bytes).
Context (range_order : gmap bytes record → list record).
Context (Placeholder : Zone Name → RR) (zonemd_Apply : Zone Name → list RR → option (list RR)).

Hypothesis zstd_round : ∀ raw, decompress (compress raw) = Some raw.
Hypothesis sha_injective : ∀ a b, sha a = sha b → a = b.
Hypothesis range_all : ∀ m, range_order m ≡ₚ map snd (map_to_list m).
(** The DNS library packs owners uncompressed and its fields in range; names are octets. *)
Hypothesis FromRR_ok : ∀ rr r, FromRR rr = Some r → key_ok r.
Hypothesis wireName_ok : ∀ n w, wireName n = Some w → Forall is_byte w.
(** Setting the serial of an SOA changes no other record. *)
Hypothesis set_serial_plain : ∀ s rr r, FromRR rr = Some r → isSOAData r = false →
  FromRR (rr_set_serial s rr) = Some r.
Hypothesis set_serial_soa : ∀ s rr r, FromRR (rr_set_serial s rr) = Some r → isSOAData r = false →
  FromRR rr = Some r.
Context {Hzonemd : ∀ z, PlainKept FromRR (zonemd_Apply z)}.

Abbreviation Inv := (journal_inv (Name := Name) wide decompress sha).
Abbreviation LoadServed := (loadServed (Name := Name) wide decompress range_order).
Abbreviation RebuildFull := (rebuildFull wide FromRR rr_set_serial soaRR wireName compress decompress sha
  range_order Placeholder zonemd_Apply).
Abbreviation RebuildEdit := (rebuildEdit wide FromRR rr_set_serial soaRR wireName compress sha).

(** ** Reading *)
Lemma rep_elements m S : rep m S → ∀ r, r ∈ range_order m ↔ r ∈ S.
Proof.
  intros Hm r. rewrite range_all, list_elem_of_fmap. split.
  - intros ([k x] & -> & Hin%elem_of_map_to_list). simpl. by apply Hm in Hin as [_ ?].
  - intros Hr. exists (recordKey r, r). split; [done|]. apply elem_of_map_to_list. by apply Hm.
Qed.
Lemma rep_NoDup m S : rep m S → NoDup (range_order m).
Proof.
  intros Hm. rewrite range_all. apply NoDup_fmap_2_strong; [|apply NoDup_map_to_list].
  intros [k x] [k' y] Hx%elem_of_map_to_list Hy%elem_of_map_to_list E. simpl in E. subst y.
  apply Hm in Hx as [-> _]. by apply Hm in Hy as [-> _].
Qed.
Lemma loadServed_Inv d z S : Inv d z S → 0 < CurrentSeq z →
  ∃ out, LoadServed d z = Ok out ∧ NoDup out ∧ (∀ r, r ∈ out ↔ r ∈ S).
Proof.
  intros HI Hc. destruct (ji_served _ _ _ _ _ _ HI Hc) as (m & Hm & Hrep).
  unfold loadServed. rewrite Hm. cbn [mbind res_bind]. eexists. split; [done|]. split.
  - rewrite SortRecords_perm. by eapply rep_NoDup.
  - intros r. rewrite SortRecords_perm. by apply rep_elements.
Qed.

(** ** Packing *)
Lemma mapM_omap rrs recs : mapM FromRR rrs = Some recs → omap FromRR rrs = recs.
Proof.
  revert recs. induction rrs as [|rr rrs IH]; intros recs; simpl; [by intros [= <-]|].
  destruct (FromRR rr) as [r|]; simpl; [|done]. destruct (mapM FromRR rrs) as [rs|]; simpl; [|done].
  intros [= <-]. f_equal. by apply IH.
Qed.
Lemma toRecords_Ok rrs recs : toRecords FromRR rrs = Ok recs → omap FromRR rrs = recs ∧ Forall key_ok recs.
Proof.
  unfold toRecords, of_opt. destruct (mapM FromRR rrs) as [rs|] eqn:E; [|done]. intros [= <-].
  apply mapM_omap in E as E'. split; [done|]. rewrite <- E'. apply Forall_forall.
  intros r (rr & _ & Hr)%list_elem_of_omap. by eapply FromRR_ok.
Qed.
Lemma elem_plain rs r : r ∈ plain rs ↔ r ∈ rs ∧ isSOAData r = false.
Proof. unfold plain. rewrite list_elem_of_filter. tauto. Qed.

#[local] Instance set_serial_kept s : PlainKept FromRR (λ rrs, Some (setSOASerial rr_set_serial rrs s)).
Proof.
  intros rrs rrs' [= <-] r. unfold plain_of, setSOASerial. rewrite !elem_plain, !list_elem_of_omap. split.
  - intros [(rr & Hin & Hr) Hp]. split; [|done]. exists (rr_set_serial s rr).
    split; [by apply list_elem_of_fmap; exists rr|by apply set_serial_plain].
  - intros [(rr' & (rr & -> & Hin)%list_elem_of_fmap & Hr) Hp]. split; [|done].
    exists rr. split; [done|by eapply set_serial_soa].
Qed.

Lemma sign_with_kept (f : Signer → Zone Name → list RR → option (list RR)) b signer z rrs rrs' :
  (∀ s, signer = Some s → PlainKept FromRR (f s z)) →
  sign_with b f signer z rrs = Ok rrs' → ∀ r, r ∈ plain_of FromRR rrs ↔ r ∈ plain_of FromRR rrs'.
Proof.
  unfold sign_with, of_opt. intros Hk. destruct signer as [s|]; [|by intros [= <-]].
  destruct b; [|by intros [= <-]]. destruct (f s z rrs) eqn:E; [|done]. intros [= <-].
  by apply (Hk s eq_refl).
Qed.
Lemma final_desired_kept signer z desired serial final :
  (∀ s, signer = Some s → SignerLaws FromRR s) →
  final_desired rr_set_serial zonemd_Apply signer z desired serial = Ok final →
  ∀ r, r ∈ plain_of FromRR desired ↔ r ∈ plain_of FromRR final.
Proof.
  intros Hl (d1 & H1 & H2)%bind_Ok r.
  rewrite (set_serial_kept serial desired _ eq_refl r).
  rewrite (sign_with_kept _ _ _ _ _ _ (λ s E, @resign_kept _ _ _ s (Hl s E) z) H1 r).
  destruct (generateZonemd z); [|by injection H2 as ->].
  apply bind_Ok in H2 as (d2 & H2 & H3). unfold of_opt in H2.
  destruct (zonemd_Apply z d1) as [d2'|] eqn:E; [|done]. injection H2 as ->.
  rewrite (plain_kept d1 d2 E r).
  by rewrite (sign_with_kept _ _ _ _ _ _ (λ s E, @zonemd_kept _ _ _ s (Hl s E) z) H3 r).
Qed.

(** ** The serial *)
Lemma nextSerial_u32 (z : Zone Name) (opts : RebuildOptions (RR := RR)) n :
  is_u32 (Serial z) → (∀ s, o_Serial opts = Some s → is_u32 s) → nextSerial z opts = Ok n → is_u32 n.
Proof.
  intros Hz Ho (m & Hm & [= <-])%bind_Ok. assert (is_u32 (SerialNext (Serial z))) as Hn.
  { unfold SerialNext, u32, is_u32. apply Z.mod_pos_bound. lia. }
  assert (is_u32 m) as Hm'; [|by destruct (_ && _)].
  destruct (z_Kind z), (o_Serial opts) as [s|]; simplify_eq; auto. destruct (SerialLess _ _); auto.
Qed.

(** ** The delta *)
Lemma withSerial_ok r n r' : key_ok r → is_u32 n → withSerial r n = Ok r' → key_ok r'.
Proof.
  intros [(Ho & Ht & Hc & Htt & Hr) Hv] Hn. unfold withSerial. case_match; [done|]. cbv zeta.
  set (rd := take _ _ ++ _). intros [= <-]. split; [|done]. split_and!; try done. cbn [RData]. unfold rd.
  apply Forall_app; split; [by apply Forall_take|]. apply Forall_app; split; [|by apply Forall_drop].
  by apply put32_bytes.
Qed.
Lemma elem_diff d z S previous desired r :
  Inv d z S → (∀ r, r ∈ previous ↔ r ∈ S) → Forall key_ok desired → key_ok r →
  let '(deleted, added) := diffIgnoringSOA previous desired in
  (r ∈ deleted ↔ r ∈ S ∧ isSOAData r = false ∧ r ∉ desired) ∧
  (r ∈ added ↔ r ∈ desired ∧ isSOAData r = false ∧ r ∉ S).
Proof.
  intros HI Hp Hd Hr. pose proof (diffIgnoringSOA_spec previous desired r Hr) as H.
  destruct (diffIgnoringSOA previous desired) as [del add]. rewrite <- !Hp. apply H; [|done].
  pose proof (ji_keys _ _ _ _ _ _ HI) as Hk. rewrite Forall_forall in Hk |- *.
  intros x Hx. apply Hk. by apply Hp.
Qed.

Lemma next_delta_for d z S previous desired final origin serial dl force :
  Inv d z S → (0 < CurrentSeq z → ∀ r, r ∈ previous ↔ r ∈ S) →
  Forall key_ok desired → Forall key_ok final →
  (∀ r, r ∈ plain desired ↔ r ∈ plain final) →
  let '(deleted, added) := diffIgnoringSOA previous desired in
  next_delta z origin serial previous deleted added final = Ok (dl, force) →
  delta_for z origin serial S final force dl.
Proof.
  intros HI Hprev Hkd Hkf Hpl. destruct (diffIgnoringSOA previous desired) as [deleted added] eqn:Ed.
  unfold next_delta. pose proof (ji_seq _ _ _ _ _ _ HI).
  destruct (Z.ltb_spec 0 (CurrentSeq z)) as [Hc|]; [|intros [= <- <-]; simpl; lia].
  specialize (Hprev Hc). pose proof (ji_keys _ _ _ _ _ _ HI) as HkS.
  assert (∀ r, key_ok r → (r ∈ deleted ↔ r ∈ S ∧ isSOAData r = false ∧ r ∉ desired) ∧
    (r ∈ added ↔ r ∈ desired ∧ isSOAData r = false ∧ r ∉ S)) as Hdiff.
  { intros r Hr. pose proof (elem_diff d z S previous desired r HI Hprev Hkd Hr) as H'. by rewrite Ed in H'. }
  assert (deleted ⊆ previous ∧ added ⊆ desired) as [Hds Has].
  { unfold diffIgnoringSOA in Ed. injection Ed as <- <-. split; [|apply diff_added_sub].
    intros r Hr. by apply list_elem_of_filter in Hr as [_ Hr]. }
  rewrite Forall_forall in HkS, Hkd, Hkf.
  assert (Forall key_ok (soaWithSigs previous ++ deleted)) as Hkdel.
  { apply Forall_forall. intros r [Hr|Hr]%elem_of_app; apply HkS, Hprev; [by apply elem_soaWithSigs in Hr as [? _]|auto]. }
  assert (Forall key_ok (soaWithSigs final ++ added)) as Hkadd.
  { apply Forall_forall. intros r [Hr|Hr]%elem_of_app; [apply Hkf; by apply elem_soaWithSigs in Hr as [? _]|auto]. }
  intros (s & _ & H')%bind_Ok. destruct (s =? Serial z).
  - injection H' as <- <-. simpl. do 6 (split; [done|]). intros _ r.
    by apply (served_set S previous desired final deleted added).
  - destruct (soaWithSigs previous ++ deleted) as [|r0 del]; [done|].
    apply bind_Ok in H' as (r1 & Hr1 & [= <- <-]). apply Forall_cons in Hkdel as [Hk0 Hkdel].
    simpl. do 4 (split; [done|]). split; [|done]. constructor; [|done].
    eapply withSerial_ok; [exact Hk0| |exact Hr1]. apply HI.
Qed.

(** ** Rebuild from the whole record set *)
Lemma previous_of d z S previous : Inv d z S →
  (if 0 <? CurrentSeq z then LoadServed d z else Ok []) = Ok previous →
  0 < CurrentSeq z → ∀ r, r ∈ previous ↔ r ∈ S.
Proof.
  intros HI Hp Hc. rewrite (proj2 (Z.ltb_lt _ _)) in Hp by done.
  destruct (loadServed_Inv d z S HI Hc) as (out & Ho & _ & Hout).
  rewrite Ho in Hp. by injection Hp as <-.
Qed.

Lemma rebuildFull_Inv d stored signer z opts S d' z' :
  Inv d z S → (∀ s, signer = Some s → SignerLaws FromRR s) →
  (∀ n, o_Serial opts = Some n → is_u32 n) →
  RebuildFull d stored signer z opts = Ok (Some (d', z')) → fits d' (CurrentSeq z + 1) →
  ∃ desired final recs,
    first_desired soaRR Placeholder stored signer z = Ok desired ∧
    final_desired rr_set_serial zonemd_Apply signer z desired (Serial z') = Ok final ∧
    toRecords FromRR final = Ok recs ∧
    Inv d' z' recs ∧ CurrentSeq z' = CurrentSeq z + 1.
Proof.
  intros HI Hsl Hser H Hfit. unfold rebuildFull in H.
  apply bind_Ok in H as (desired & Hdes & (previous & Hprev & (drecs & Hdr & H)%bind_Ok)%bind_Ok).
  destruct (diffIgnoringSOA previous drecs) as [deleted added] eqn:Ed. destruct (_ && _); [done|].
  apply bind_Ok in H as (serial & Hs & (final & Hf & (recs & Hr & (origin & Ho & ([dl force] & Hdl & ([d2 z2] & Hw & [= -> ->])%bind_Ok)%bind_Ok)%bind_Ok)%bind_Ok)%bind_Ok).
  destruct (toRecords_Ok _ _ Hdr) as [Edr Kdr]. destruct (toRecords_Ok _ _ Hr) as [Er Kr].
  assert (∀ r, r ∈ plain drecs ↔ r ∈ plain recs) as Hpl.
  { intros r. rewrite <- Edr, <- Er. by eapply final_desired_kept. }
  pose proof (next_delta_for d z S previous drecs recs origin serial dl force HI
    (previous_of d z S previous HI Hprev) Kdr Kr Hpl) as Hfor. rewrite Ed in Hfor. specialize (Hfor Hdl).
  assert (Forall is_byte origin) as Hob.
  { unfold of_opt in Ho. destruct (wireName (z_Name z)) eqn:E; [|done]. injection Ho as ->. by eapply wireName_ok. }
  pose proof (nextSerial_u32 z opts serial (ji_serial _ _ _ _ _ _ HI) Hser Hs) as Hu.
  destruct (writeVersion_served wide compress decompress sha zstd_round sha_injective
    d z S recs origin serial dl force (Ok recs) d' z') as (HI' & Es & Ec); try done.
  { intros l [= <-]. done. }
  exists desired, final, recs. by rewrite Es.
Qed.

(** C24: What is served is what was built.  When [Rebuild] writes a version from the whole record set,
    reading the zone back gives exactly the records of the finished set at the new serial, each
    once: nothing served before is left over, and nothing built is missing, whether the version went
    out as a delta, as an image, or both.  It holds for every signer that changes SOA data only, and
    as long as the blobs are within the size [loadServed] reads. *)
Theorem Rebuild_served d stored signer z opts S d' z' :
  Inv d z S → (∀ s, signer = Some s → SignerLaws FromRR s) →
  (∀ n, o_Serial opts = Some n → is_u32 n) →
  RebuildFull d stored signer z opts = Ok (Some (d', z')) → fits d' (CurrentSeq z + 1) →
  ∃ desired final recs out,
    first_desired soaRR Placeholder stored signer z = Ok desired ∧
    final_desired rr_set_serial zonemd_Apply signer z desired (Serial z') = Ok final ∧
    toRecords FromRR final = Ok recs ∧
    LoadServed d' z' = Ok out ∧ NoDup out ∧ (∀ r, r ∈ out ↔ r ∈ recs) ∧ Inv d' z' recs.
Proof.
  intros HI Hsl Hser H Hfit.
  destruct (rebuildFull_Inv d stored signer z opts S d' z' HI Hsl Hser H Hfit)
    as (desired & final & recs & Hd & Hf & Hr & HI' & Hc).
  destruct (loadServed_Inv d' z' recs HI') as (out & Ho & Hn & Hout).
  { pose proof (ji_seq _ _ _ _ _ _ HI). lia. }
  exists desired, final, recs, out. done.
Qed.

Lemma rebuildFull_None d stored signer z opts S :
  Inv d z S → RebuildFull d stored signer z opts = Ok None →
  ∃ desired recs, first_desired soaRR Placeholder stored signer z = Ok desired ∧
    toRecords FromRR desired = Ok recs ∧ 0 < CurrentSeq z ∧ (∀ r, r ∈ plain S ↔ r ∈ plain recs).
Proof.
  intros HI H. unfold rebuildFull in H.
  apply bind_Ok in H as (desired & Hdes & (previous & Hprev & (drecs & Hdr & H)%bind_Ok)%bind_Ok).
  destruct (diffIgnoringSOA previous drecs) as [deleted added] eqn:Ed.
  destruct (_ && _) eqn:Eb in H;
    [|by repeat (apply bind_Ok in H as (? & ? & H); try case_match)].
  rewrite !andb_true_iff, !bool_decide_eq_true, !negb_true_iff, orb_false_iff in Eb.
  destruct Eb as ((((-> & ->) & (Hc0%Z.eqb_neq & _)) & _) & _). pose proof (ji_seq _ _ _ _ _ _ HI).
  exists desired, drecs. split; [done|]. split; [done|]. split; [lia|].
  destruct (toRecords_Ok _ _ Hdr) as [_ Kdr]. intros r. rewrite !elem_plain.
  pose proof (previous_of d z S previous HI Hprev ltac:(lia)) as Hp.
  pose proof (ji_keys _ _ _ _ _ _ HI) as HkS. rewrite Forall_forall in HkS, Kdr.
  assert (key_ok r → (r ∈ S → isSOAData r = false → r ∈ drecs) ∧ (r ∈ drecs → isSOAData r = false → r ∈ S)) as Hd.
  { intros Hk. pose proof (elem_diff d z S previous drecs r HI Hp) as Hdiff. rewrite Ed in Hdiff.
    destruct Hdiff as [H1 H2]; [by apply Forall_forall|done|].
    pose proof (not_elem_of_nil r). split; intros; (destruct (decide (r ∈ drecs)), (decide (r ∈ S)); tauto). }
  split; intros [Hin Hs]; (destruct Hd as [H1 H2]; [auto|]); auto.
Qed.

(** Writing nothing is right: when [Rebuild] reports no change, the served set already has
    exactly the built records, up to SOA data (the serial and what signs it). *)
Theorem Rebuild_unchanged d stored signer z opts S :
  Inv d z S → RebuildFull d stored signer z opts = Ok None →
  ∃ desired recs, first_desired soaRR Placeholder stored signer z = Ok desired ∧
    toRecords FromRR desired = Ok recs ∧ 0 < CurrentSeq z ∧ (∀ r, r ∈ plain S ↔ r ∈ plain recs).
Proof. apply rebuildFull_None. Qed.

(** ** Rebuild from an edit *)

(** The record rows hold managed types only: each packs to a record that is not SOA data. *)
Definition managed (rrs : list RR) : Prop :=
  ∀ rr, rr ∈ rrs → ∃ r, FromRR rr = Some r ∧ isSOAData r = false.
Lemma managed_plain rrs r : managed rrs → r ∈ omap FromRR rrs → isSOAData r = false.
Proof.
  intros Hm (rr & Hin & Hr)%list_elem_of_omap. destruct (Hm rr Hin) as (r' & Hr' & ?). congruence.
Qed.
Lemma managed_serial n rrs r : managed rrs →
  r ∈ omap FromRR (setSOASerial rr_set_serial rrs n) ↔ r ∈ omap FromRR rrs.
Proof.
  intros Hm. unfold setSOASerial. rewrite !list_elem_of_omap. split.
  - intros (rr' & (rr & -> & Hin)%list_elem_of_fmap & Hr). destruct (Hm rr Hin) as (r' & Hr' & Hp).
    exists rr. split; [done|]. rewrite (set_serial_plain n rr r' Hr' Hp) in Hr. congruence.
  - intros (rr & Hin & Hr). exists (rr_set_serial n rr). split; [by apply list_elem_of_fmap; exists rr|].
    destruct (Hm rr Hin) as (r' & Hr' & Hp). apply set_serial_plain; [done|]. congruence.
Qed.

(** The served set before the edit is the zone's SOA and the records [P]; the edit replaced, among
    them, the RRsets [before] by [after]. *)
Record edit_of (d : zdb) (z : Zone Name) (S P : list record) (before after stored : list RR) : Prop := {
  eo_managed : managed before ∧ managed after ∧ managed stored;
  eo_zone : ∀ r, FromRR (soaRR z) = Some r → isSOAData r = true;
  eo_plain : ∀ r, isSOAData r = false → r ∈ S ↔ r ∈ P;
  eo_soa : ∀ s, served_serial_at d z = Ok s → u32 s = Serial z →
             ∀ r, isSOAData r = true → r ∈ S ↔ FromRR (soaRR z) = Some r;
  eo_before : ∀ r, r ∈ omap FromRR before → r ∈ P;
  eo_stored : ∀ r, r ∈ omap FromRR stored ↔
                (r ∈ P ∧ r ∉ omap FromRR before) ∨ r ∈ omap FromRR after;
}.

Lemma edit_image z n stored soa :
  managed stored → FromRR (rr_set_serial n (soaRR z)) = Some soa →
  image_for (soa :: omap FromRR stored) (desired ← desiredRRs soaRR (Ok stored) z; toRecords FromRR (setSOASerial rr_set_serial desired n)).
Proof.
  intros Hm Hsoa recs Hr. destruct (toRecords_Ok _ _ Hr) as [Er Kr]. split; [done|]. intros r.
  rewrite <- Er, elem_of_cons, <- (managed_serial n stored r Hm). unfold desiredRRs, setSOASerial.
  cbn [map omap list_omap]. rewrite Hsoa. by rewrite elem_of_cons.
Qed.

Lemma edit_set d z S P before after stored soa soa' served brecs arecs :
  edit_of d z S P before after stored → served_serial_at d z = Ok served → u32 served = Serial z →
  Inv d z S → FromRR (soaRR z) = Some soa →
  isSOAData soa = true →
  toRecords FromRR before = Ok brecs → toRecords FromRR after = Ok arecs →
  let '(deleted, added) := diffIgnoringSOA brecs arecs in
  ∀ r, r ∈ soa' :: omap FromRR stored ↔
       r ∈ (soa' :: added) ++ filter (λ x, x ∉ soa :: deleted) S.
Proof.
  clear Placeholder Hzonemd zonemd_Apply. intros [(Hmb & Hma & Hms) _ Hpl Hso Hbef Hsto] Hserved Hser HI Hsoa Hsd Hb Ha.
  destruct (toRecords_Ok _ _ Hb) as [<- Kb]. destruct (toRecords_Ok _ _ Ha) as [<- Ka].
  destruct (diffIgnoringSOA _ _) as [deleted added] eqn:Ed. intros r.
  specialize (Hso served Hserved Hser r).
  assert (deleted ⊆ omap FromRR before ∧ added ⊆ omap FromRR after) as [Hds Has].
  { unfold diffIgnoringSOA in Ed. injection Ed as <- <-. split; [|apply diff_added_sub].
    intros x Hx. by apply list_elem_of_filter in Hx as [_ Hx]. }
  specialize (Hds r). specialize (Has r).
  rewrite <- app_comm_cons, !elem_of_cons, elem_of_app, list_elem_of_filter, not_elem_of_cons, Hsto.
  specialize (Hpl r). specialize (Hbef r). rewrite Hsoa in Hso.
  pose proof (managed_plain before r Hmb) as Pb. pose proof (managed_plain after r Hma) as Pa.
  destruct (decide (r = soa')) as [|Hne]; [tauto|].
  destruct (isSOAData r) eqn:Er.
  - assert (r ∈ P → False) as HP.
    { intros HP. destruct (decide (r ∈ omap FromRR before)); [by specialize (Pb ltac:(done))|].
      assert (r ∈ omap FromRR stored) as Hin by (apply Hsto; auto).
      by apply (managed_plain stored) in Hin; [congruence|]. }
    assert (Some soa = Some r ↔ r = soa) as Es by (split; congruence). intuition congruence.
  - assert (r ≠ soa) as Hns by congruence.
    pose proof (ji_keys _ _ _ _ _ _ HI) as HkS. 
    destruct (decide (key_ok r)) as [Hk|Hk].
    2:{ rewrite Forall_forall in HkS, Ka. specialize (HkS r). specialize (Ka r). tauto. }
    pose proof (diffIgnoringSOA_spec _ _ r Hk Kb Ka) as Hd. rewrite Ed in Hd. destruct Hd as [Hdel Hadd].
    destruct (decide (r ∈ omap FromRR before)), (decide (r ∈ omap FromRR after)); tauto.
Qed.

Lemma rebuildEdit_Inv d stored z opts before after S P d' z' :
  Inv d z S → 0 < CurrentSeq z → edit_of d z S P before after stored →
  (∀ n, o_Serial opts = Some n → is_u32 n) →
  RebuildEdit d (Ok stored) z opts before after = Ok (Some (d', z')) → fits d' (CurrentSeq z + 1) →
  ∃ soa, FromRR (rr_set_serial (Serial z') (soaRR z)) = Some soa ∧
    Inv d' z' (soa :: omap FromRR stored) ∧ CurrentSeq z' = CurrentSeq z + 1.
Proof.
  intros HI Hc He Hser H Hfit. unfold rebuildEdit in H.
  apply bind_Ok in H as (brecs & Hb & (arecs & Ha & H)%bind_Ok).
  destruct (diffIgnoringSOA brecs arecs) as [deleted added] eqn:Ed. destruct (_ && _); [done|].
  apply bind_Ok in H as (serial & Hs & (served & Hsv & (soa & Hso & (soa' & Hso' & (origin & Ho &
    ([d2 z2] & Hw & [= -> ->])%bind_Ok)%bind_Ok)%bind_Ok)%bind_Ok)%bind_Ok).
  unfold of_opt in Hso, Hso', Ho. destruct (FromRR (soaRR z)) as [soa0|] eqn:Es; [|done]. injection Hso as ->.
  destruct (FromRR (rr_set_serial serial (soaRR z))) as [soa1|] eqn:Es'; [|done]. injection Hso' as ->.
  destruct (wireName (z_Name z)) as [origin0|] eqn:Eo; [|done]. injection Ho as ->.
  destruct (toRecords_Ok _ _ Hb) as [Eb Kb]. destruct (toRecords_Ok _ _ Ha) as [Ea Ka].
  pose proof (nextSerial_u32 z opts serial (ji_serial _ _ _ _ _ _ HI) Hser Hs) as Hu.
  assert (deleted ⊆ brecs ∧ added ⊆ arecs) as [Hds Has].
  { unfold diffIgnoringSOA in Ed. injection Ed as <- <-. split; [|apply diff_added_sub].
    intros x Hx. by apply list_elem_of_filter in Hx as [_ Hx]. }
  rewrite Forall_forall in Kb, Ka.
  edestruct (writeVersion_served wide compress decompress sha zstd_round sha_injective
    d z S (soa' :: omap FromRR stored) origin serial) as (HI' & Esr & Ec);
    [exact HI|by eapply wireName_ok|exact Hu| | | |exact Hw|exact Hfit|].
  - constructor; [by eapply FromRR_ok|]. apply Forall_forall. intros r (rr & _ & Hr)%list_elem_of_omap. by eapply FromRR_ok.
  - simpl. do 4 (split; [done|]). split; [|split].
    + constructor; [by eapply FromRR_ok|]. apply Forall_forall. auto.
    + constructor; [by eapply FromRR_ok|]. apply Forall_forall. auto.
    + intros Hf%negb_false_iff%Z.eqb_eq. pose proof (edit_set d z S P before after stored soa soa' served brecs arecs
        He Hsv Hf HI Es) as Hset. rewrite Ed in Hset. apply Hset; [|done|done]. by apply He.
  - apply edit_image; [apply He|done].
  - exists soa'. by rewrite Esr.
Qed.

(** Rebuilding from one edit gives what a full rebuild gives.  Where the edit replaced the RRsets
    [before] of the served records by [after], [rebuildEdit], which diffs those RRsets alone and
    never reads the zone, leaves a version that reads back as the zone's SOA at the new serial and
    exactly the stored records.  This includes the version written with a forced image because the
    served SOA had another serial than the zone row. *)
Theorem rebuildEdit_served d stored z opts before after S P d' z' :
  Inv d z S → 0 < CurrentSeq z → edit_of d z S P before after stored →
  (∀ n, o_Serial opts = Some n → is_u32 n) →
  RebuildEdit d (Ok stored) z opts before after = Ok (Some (d', z')) → fits d' (CurrentSeq z + 1) →
  ∃ soa out, FromRR (rr_set_serial (Serial z') (soaRR z)) = Some soa ∧
    LoadServed d' z' = Ok out ∧ NoDup out ∧
    (∀ r, r ∈ out ↔ r = soa ∨ r ∈ omap FromRR stored) ∧ Inv d' z' (soa :: omap FromRR stored).
Proof.
  intros HI Hc He Hser H Hfit.
  destruct (rebuildEdit_Inv d stored z opts before after S P d' z' HI Hc He Hser H Hfit) as (soa & Hs & HI' & Hc').
  destruct (loadServed_Inv d' z' _ HI') as (out & Ho & Hn & Hout); [lia|].
  exists soa, out. do 3 (split; [done|]). split; [|done]. intros r. by rewrite Hout, elem_of_cons.
Qed.
End rebuild.

(** ** A concrete zone

    The parameters at concrete functions, and the zone [a.] through a first version, an edit and a
    rebuild without changes. *)
Module Example.
Definition FromRR (r : record) : option record := if decide (key_ok r) then Some r else None.
Definition rr_set_serial (n : Z) (r : record) : record :=
  if RType r =? TypeSOA then
    match withSerial r n with Ok r' => r' | _ => r end
  else r.
Definition soaRR (z : Zone bytes) : record :=
  mkRecord (z_Name z) TypeSOA 1 300 ([0; 0] ++ put32 (Serial z) ++ put32 7200 ++ put32 900 ++ put32 604800 ++ put32 60).
Definition range_order (m : gmap bytes record) : list record := map snd (map_to_list m).
Definition Placeholder (z : Zone bytes) : record := mkRecord (z_Name z) TypeZONEMD 1 300 [].
Definition zonemd_Apply (z : Zone bytes) (rrs : list record) : option (list record) := Some rrs.
Definition wide (c : Z) : Z := c.
Definition owner_ok (w : bytes) : option bytes := if decide (Forall is_byte w) then Some w else None.
Definition full := rebuildFull wide FromRR rr_set_serial soaRR owner_ok id Some id range_order Placeholder zonemd_Apply.
Definition edit := rebuildEdit wide FromRR rr_set_serial soaRR owner_ok id id.

Definition z0 : Zone bytes := mkZone [1; 97; 0] Primary 1 0 0 false false.
Definition d0 : zdb := mkZdb ∅ ∅ ∅.
Definition www : record := mkRecord [3; 119; 119; 119; 1; 97; 0] 1 1 300 [192; 0; 2; 1].
Definition ftp : record := mkRecord [3; 102; 116; 112; 1; 97; 0] 1 1 300 [192; 0; 2; 2].
Definition opts0 : RebuildOptions (RR := record) := mkOptions None false None.
Definition got (r : res zone_err (option (zdb * Zone bytes))) : zdb * Zone bytes :=
  match r with Ok (Some p) => p | _ => (d0, z0) end.
Definition v1 := Eval vm_compute in got (full d0 (Ok [www]) None z0 opts0).
Definition v2 := Eval vm_compute in got (edit v1.1 (Ok [ftp]) v1.2 opts0 [www] [ftp]).

Lemma FromRR_ok rr r : FromRR rr = Some r → key_ok r.
Proof. unfold FromRR. case_decide; [by intros [= <-]|done]. Qed.
Lemma owner_ok_ok n w : owner_ok n = Some w → Forall is_byte w.
Proof. unfold owner_ok. case_decide; [by intros [= <-]|done]. Qed.
Lemma isSOAData_SOA r : RType r = TypeSOA → isSOAData r = true.
Proof. intros H. unfold isSOAData. by rewrite H. Qed.
Lemma set_plain s rr r : FromRR rr = Some r → isSOAData r = false → FromRR (rr_set_serial s rr) = Some r.
Proof.
  intros H Hp. assert (rr = r) as -> by (unfold FromRR in H; case_decide; congruence).
  unfold rr_set_serial. destruct (Z.eqb_spec (RType r) TypeSOA) as [E|]; [|done].
  by rewrite isSOAData_SOA in Hp.
Qed.
Lemma set_soa s rr r : FromRR (rr_set_serial s rr) = Some r → isSOAData r = false → FromRR rr = Some r.
Proof.
  unfold rr_set_serial. destruct (Z.eqb_spec (RType rr) TypeSOA) as [E|]; [|done]. intros H Hp.
  assert (RType r = TypeSOA) as Ht; [|by rewrite isSOAData_SOA in Hp].
  unfold FromRR in H. case_decide; [|done]. injection H as <-. unfold withSerial. by destruct (_ <? _).
Qed.
#[local] Instance zonemd_id z : PlainKept FromRR (zonemd_Apply z).
Proof. by intros rrs rrs' [= <-] r. Qed.

Abbreviation Inv := (journal_inv (Name := bytes) wide Some id).
Lemma Inv0 : Inv d0 z0 [].
Proof. split; try (intros *; simpl; rewrite ?lookup_empty; (done || lia)); by_compute. Qed.
Lemma small d z : bool_decide (map_Forall (λ _ r, j_size r ≤ maxServedSize) (journal d)) = true →
  bool_decide (map_Forall (λ _ r, i_size r ≤ maxServedSize) (images d)) = true → fits d z.
Proof. intros H1%bool_decide_eq_true H2%bool_decide_eq_true. split; intros row H; [by eapply H1|by eapply H2]. Qed.
Lemma no_signer : ∀ s : Signer, @None (Signer (Name := bytes)) = Some s → SignerLaws FromRR s.
Proof. done. Qed.
Lemma no_serial : ∀ n, o_Serial opts0 = Some n → is_u32 n.
Proof. done. Qed.

Lemma Inv1 : Inv v1.1 v1.2 [soaRR z0; www].
Proof.
  destruct (rebuildFull_Inv wide FromRR rr_set_serial soaRR owner_ok id Some id range_order Placeholder
    zonemd_Apply (λ _, eq_refl) (λ _ _ E, E) (λ _, reflexivity _) FromRR_ok owner_ok_ok set_plain set_soa
    d0 (Ok [www]) None z0 opts0 [] v1.1 v1.2 Inv0 no_signer no_serial)
    as (desired & final & recs & Hd & Hf & Hr & HI & _); [vm_compute; reflexivity|by apply small; vm_compute|].
  injection Hd as <-. injection Hf as <-.
  assert (recs = [soaRR z0; www]) as ->; [|done]. vm_compute in Hr. by injection Hr as <-.
Qed.
Lemma Rebuild_served_witness :
  ∃ out, loadServed wide Some range_order v1.1 v1.2 = Ok out ∧ ∀ r, r ∈ out ↔ r ∈ [soaRR z0; www].
Proof.
  destruct (Rebuild_served wide FromRR rr_set_serial soaRR owner_ok id Some id range_order Placeholder
    zonemd_Apply (λ _, eq_refl) (λ _ _ E, E) (λ _, reflexivity _) FromRR_ok owner_ok_ok set_plain set_soa
    d0 (Ok [www]) None z0 opts0 [] v1.1 v1.2 Inv0 no_signer no_serial)
    as (desired & final & recs & out & Hd & Hf & Hr & Ho & _ & Hin & _);
    [vm_compute; reflexivity|by apply small; vm_compute|].
  exists out. split; [exact Ho|]. injection Hd as <-. injection Hf as <-.
  vm_compute in Hr. injection Hr as <-. exact Hin.
Defined.
Lemma Rebuild_unchanged_witness :
  ∃ recs, toRecords FromRR [soaRR v1.2; www] = Ok recs ∧ ∀ r, r ∈ plain [soaRR z0; www] ↔ r ∈ plain recs.
Proof.
  destruct (Rebuild_unchanged wide FromRR rr_set_serial soaRR owner_ok id Some id range_order Placeholder
    zonemd_Apply (λ _, reflexivity _) FromRR_ok v1.1 (Ok [www]) None v1.2 opts0 [soaRR z0; www] Inv1)
    as (desired & recs & Hd & Hr & _ & Hp); [vm_compute; reflexivity|].
  injection Hd as <-. exists recs. exact (conj Hr Hp).
Defined.

Lemma edit12 : edit_of FromRR soaRR v1.1 v1.2 [soaRR z0; www] [www] [www] [ftp] [ftp].
Proof.
  assert (managed FromRR [www] ∧ managed FromRR [ftp]) as [Hw Hf].
  { split; intros rr ->%list_elem_of_singleton; eexists; split; vm_compute; reflexivity. }
  split; [done| | | | |].
  - intros r H. vm_compute in H. by injection H as <-.
  - intros r Hr. rewrite elem_of_cons. split; [|by right]. intros [->|?]; [|done]. by vm_compute in Hr.
  - intros s _ _ r Hr. replace (FromRR (soaRR v1.2)) with (Some (soaRR z0)) by (vm_compute; reflexivity).
    rewrite elem_of_cons, list_elem_of_singleton. split; [|intros [= ->]; by left].
    intros [->| ->]; [done|]. by vm_compute in Hr.
  - intros r. by replace (omap FromRR [www]) with [www] by (vm_compute; reflexivity).
  - intros r. replace (omap FromRR [www]) with [www] by (vm_compute; reflexivity).
    replace (omap FromRR [ftp]) with [ftp] by (vm_compute; reflexivity). tauto.
Qed.
Lemma rebuildEdit_served_witness :
  ∃ soa out, FromRR (rr_set_serial (Serial v2.2) (soaRR v1.2)) = Some soa ∧
    loadServed wide Some range_order v2.1 v2.2 = Ok out ∧ (∀ r, r ∈ out ↔ r = soa ∨ r ∈ omap FromRR [ftp]).
Proof.
  destruct (rebuildEdit_served wide FromRR rr_set_serial soaRR owner_ok id Some id range_order
    (λ _, eq_refl) (λ _ _ E, E) (λ _, reflexivity _) FromRR_ok owner_ok_ok set_plain
    v1.1 [ftp] v1.2 opts0 [www] [ftp] [soaRR z0; www] [www] v2.1 v2.2 Inv1)
    as (soa & out & Hs & Ho & _ & Hin & _);
    [done|exact edit12|exact no_serial|vm_compute; reflexivity|by apply small; vm_compute|].
  exists soa, out. exact (conj Hs (conj Ho Hin)).
Defined.
End Example.

(** ** Serials *)
Lemma SerialLess_spec a b : is_u32 a → is_u32 b →
  SerialLess a b = true ↔ 0 < (b - a) mod 2 ^ 32 < 2 ^ 31.
Proof.
  unfold is_u32, SerialLess, half, u32. intros Ha Hb. destruct (Z.eqb_spec a b) as [->|Hne].
  - rewrite Z.sub_diag. simpl. split; [done|]. rewrite Zmod_0_l. lia.
  - rewrite orb_true_iff, !andb_true_iff, !Z.ltb_lt.
    destruct (Z.lt_ge_cases a b).
    + rewrite (Z.mod_small (b - a)) by lia. lia.
    + rewrite (Z.mod_small (a - b)) by lia.
      replace ((b - a) mod 2 ^ 32) with (b - a + 2 ^ 32); [lia|].
      apply Z.mod_unique with (q := -1); lia.
Qed.

(** [SerialLess] is the RFC 1982 order on 32-bit serials: [a] is before [b] exactly when [b] is
    ahead of [a] by 1 to 2^31 - 1 steps modulo 2^32.  It is irreflexive and asymmetric, and two
    different serials are comparable unless they are exactly 2^31 apart. *)
Theorem SerialLess_rfc1982 a b : is_u32 a → is_u32 b →
  (SerialLess a b = true ↔ 0 < (b - a) mod 2 ^ 32 < 2 ^ 31) ∧
  (SerialLess a b = true → SerialLess b a = false) ∧
  (SerialLess a b = false → SerialLess b a = false → a = b ∨ (b - a) mod 2 ^ 32 = 2 ^ 31).
Proof.
  intros Ha Hb. pose proof (SerialLess_spec a b Ha Hb) as H1. pose proof (SerialLess_spec b a Hb Ha) as H2.
  split; [done|]. destruct (decide (a = b)) as [<-|Hne].
  { unfold SerialLess. rewrite Z.eqb_refl. auto. }
  assert ((b - a) mod 2 ^ 32 ≠ 0) as Hz.
  { intros Hz. unfold is_u32 in *. apply Z.mod_divide in Hz as [q Hq]; lia. }
  assert ((a - b) mod 2 ^ 32 = 2 ^ 32 - (b - a) mod 2 ^ 32) as Hm.
  { replace (a - b) with (- (b - a)) by lia. by apply Z.mod_opp_l_nz. }
  pose proof (Z.mod_pos_bound (b - a) (2 ^ 32) ltac:(lia)). rewrite Hm in H2.
  destruct (SerialLess a b), (SerialLess b a); split; try done; intros; [exfalso|right]; intuition lia.
Qed.
Lemma SerialLess_rfc1982_witness : SerialLess (2 ^ 32 - 1) 0 = true ∧ SerialLess 0 (2 ^ 32 - 1) = false.
Proof.
  split; [reflexivity|].
  by apply (SerialLess_rfc1982 (2 ^ 32 - 1) 0); [by_compute|by_compute|vm_compute].
Defined.

(** A primary zone's serial only moves forward.  After its first version, the serial [nextSerial]
    picks is ahead of the zone's under RFC 1982, it is the requested one whenever that is ahead, and
    the successor otherwise; a secondary takes exactly the serial of its transfer and refuses to go
    without one. *)
Theorem nextSerial_advances {Name RR} (z : Zone Name) (opts : RebuildOptions (RR := RR)) :
  is_u32 (Serial z) → (∀ s, o_Serial opts = Some s → is_u32 s) → 0 < CurrentSeq z →
  match z_Kind z with
  | Primary => ∃ n, nextSerial z opts = Ok n ∧ is_u32 n ∧ SerialLess (Serial z) n = true ∧
                 (∀ s, o_Serial opts = Some s → SerialLess (Serial z) s = true → n = s)
  | Secondary => nextSerial z opts = match o_Serial opts with Some s => Ok s | None => Err NeedsSerial end
  end.
Proof.
  intros Hz Ho Hc. unfold nextSerial. rewrite (proj2 (Z.eqb_neq _ _)) by lia. simpl.
  assert (is_u32 (SerialNext (Serial z)) ∧ SerialLess (Serial z) (SerialNext (Serial z)) = true) as [Hn Hl].
  { assert (is_u32 (SerialNext (Serial z))) as Hn.
    { unfold SerialNext, u32, is_u32. apply Z.mod_pos_bound. lia. }
    split; [done|]. apply SerialLess_spec; [done..|]. unfold SerialNext, u32.
    rewrite Zminus_mod_idemp_l. replace (Serial z + 1 - Serial z) with 1 by lia. vm_compute. auto. }
  destruct (z_Kind z), (o_Serial opts) as [s|] eqn:E; simpl; try done.
  - destruct (SerialLess (Serial z) s) eqn:El; eexists; split_and!; try done; auto; intros; congruence.
  - eexists; split_and!; done.
Qed.
Lemma nextSerial_advances_witness :
  ∃ n, nextSerial (RR := unit) (mkZone tt Primary (2 ^ 32 - 1) 3 3 false false) (mkOptions (Some 7) false None) = Ok n
    ∧ SerialLess (2 ^ 32 - 1) n = true.
Proof.
  destruct (nextSerial_advances (RR := unit) (mkZone tt Primary (2 ^ 32 - 1) 3 3 false false) (mkOptions (Some 7) false None))
    as (n & Hn & _ & Hl & _); [by_compute|intros s [= <-]; by_compute|simpl; lia|].
  exists n. exact (conj Hn Hl).
Defined.
