(* ===== verification/FailoverEligibility.v ===== *)
(** * Failover eligibility

    mgmt/internal/failover/groups.go (Group, Validate), eligibility.go and status.go: which members
    of a failover pair may serve, decided from timestamped evidence alone.  A time is its
    nanosecond count, and Go's zero time is a fixed instant; a UUID is the number of its octets.
    The UUID package is a parameter. *)

From S2P Require Import Prelude.
From S2P Require Import GoText.
From S2P Require Import Effects.

Abbreviation uuid := Z.
Definition Nil : uuid := 0.

(** ** Groups *)
(** The values of the lifecycle column, and the empty string of a Go zero value. *)
Inductive Lifecycle : Type := Unset | Active | Draining | Withdrawn | Deleting | Deleted.
#[export] Instance Lifecycle_eq_dec : EqDecision Lifecycle.
Proof. solve_decision. Defined.

Record Group := mkGroup {
  g_ID : uuid; Name : bytes; FrontendIP : bytes; Members : uuid * uuid;
  Generation : Z; g_Lifecycle : Lifecycle; CreatedAt : Z; UpdatedAt : Z }.
Definition zero_group : Group := mkGroup Nil [] [] (Nil, Nil) 0 Unset zero_time zero_time.

(** [^[a-z0-9]([a-z0-9-]{0,61}[a-z0-9])?$] *)
Definition name_char (c : Z) : bool := is_lower c || is_digit c.
Definition nameRE (s : bytes) : bool :=
  match s with
  | [] => false
  | [c] => name_char c
  | c :: rest =>
      name_char c && name_char (List.last rest 0) &&
      forallb (λ c, name_char c || (c =? 45)) (removelast rest) && (len s <=? 63)
  end.

(** The IPv4 half of netip.ParseAddr; an address it refuses is refused or not IPv4. *)
Definition ip4_field (s : bytes) : option Z :=
  if beq_nil s || negb (forallb is_digit s) || ((1 <? len s) && HasPrefix s [48]) then None
  else let v := digits_val s in if 255 <? v then None else Some v.
Definition ParseAddr4 (s : bytes) : option (list Z) :=
  let fs := Split s 46 in
  if len fs =? 4 then mapM ip4_field fs else None.
Definition IsGlobalUnicast4 (ip : list Z) : bool :=
  match ip with
  | [a; b; c; d] =>
      negb (bool_decide (ip = [0; 0; 0; 0])) && negb (bool_decide (ip = [255; 255; 255; 255])) &&
      negb (a =? 127) && negb ((224 <=? a) && (a <=? 239)) && negb ((a =? 169) && (b =? 254))
  | _ => false
  end.
Definition ip4_String (ip : list Z) : bytes :=
  match ip with
  | [a; b; c; d] => FormatUint a ++ [46] ++ FormatUint b ++ [46] ++ FormatUint c ++ [46] ++ FormatUint d
  | _ => []
  end.

(** [true]: no error. *)
Definition Validate (g : Group) : bool :=
  if negb (nameRE (Name g)) then false
  else match ParseAddr4 (FrontendIP g) with
       | None => false
       | Some ip =>
           let a := List.hd 0 ip in
           if negb (bool_decide (ip4_String ip = FrontendIP g)) || negb (IsGlobalUnicast4 ip) ||
              (a =? 0) || (224 <=? a) then false
           else if ((Members g).1 =? Nil) || ((Members g).2 =? Nil) || ((Members g).1 =? (Members g).2) then false
           else true
       end.

(** ** Evidence *)
Inductive EligibilityReason : Type :=
| ReasonLifecycle | ReasonInvalidGroup | ReasonInvalidClock | ReasonExpectedMembers
| ReasonInvalidBinding | ReasonBindingTime | ReasonFailureDomain | ReasonInventoryTime
| ReasonRevoked | ReasonDeleted | ReasonPolicyMismatch | ReasonTargetMismatch | ReasonNotReady
| ReasonManagement | ReasonDirectDNS | ReasonSnapshot | ReasonEmptyPool.
#[export] Instance EligibilityReason_eq_dec : EqDecision EligibilityReason.
Proof. solve_decision. Defined.

Record TrustedPlacement := mkPlacement {
  p_EngineID : uuid; p_PodUID : bytes; NodeUID : bytes; NodeName : bytes; p_ObservedAt : Z }.
Record EligibilityCheck := mkCheck { OK : bool; c_ObservedAt : Z }.
Record EligibilitySnapshot := mkSnapshot { Version : Z; Digest : bytes }.
Record MemberEvidence := mkEvidence {
  EngineID : uuid; PolicyGroupID : uuid; ConnectionSession : uuid; ContainerID : bytes;
  PodUID : bytes; Placement : TrustedPlacement; ObservedAt : Z; Revoked : bool; e_Deleted : bool;
  Ready : EligibilityCheck; Management : EligibilityCheck; DirectDNS : EligibilityCheck;
  Applied : EligibilitySnapshot; e_Target : EligibilitySnapshot; SnapshotObservedAt : Z;
  InventoryValidUntil : Z }.
Record MemberEligibility := mkMember { m_EngineID : uuid; m_Eligible : bool; m_Reasons : list EligibilityReason }.
Record Eligibility := mkEligibility {
  e_Members : MemberEligibility * MemberEligibility; Eligible : list uuid; Reasons : list EligibilityReason }.

#[export] Instance Snapshot_eq_dec : EqDecision EligibilitySnapshot.
Proof. solve_decision. Defined.
#[export] Instance Placement_eq_dec : EqDecision TrustedPlacement.
Proof. solve_decision. Defined.
#[export] Instance Check_eq_dec : EqDecision EligibilityCheck.
Proof. solve_decision. Defined.
#[export] Instance Evidence_eq_dec : EqDecision MemberEvidence.
Proof. solve_decision. Defined.

Definition zero_snapshot : EligibilitySnapshot := mkSnapshot 0 [].
Definition zero_check : EligibilityCheck := mkCheck false zero_time.
Definition zero_evidence : MemberEvidence :=
  mkEvidence Nil Nil Nil [] [] (mkPlacement Nil [] [] [] zero_time) zero_time false false
    zero_check zero_check zero_check zero_snapshot zero_snapshot zero_time zero_time.

Definition is_lower_hex (c : Z) : bool := is_digit c || ((97 <=? c) && (c <=? 102)).
Definition digestRE (s : bytes) : bool := (len s =? 64) && forallb is_lower_hex s.
Definition validEligibilitySnapshot (s : EligibilitySnapshot) : bool := (0 <? Version s) && digestRE (Digest s).
Definition freshEligibility (at_ now maxAge : Z) : bool :=
  negb (IsZero at_) && negb (After at_ now) && (time_Sub now at_ <=? maxAge).
Definition canonicalNodeName (s : bytes) : bool :=
  if 253 <? len s then false else forallb nameRE (Split s 46).
Definition distinctNodes (a b : TrustedPlacement) : bool :=
  if (negb (beq_nil (NodeUID a)) && bool_decide (NodeUID a = NodeUID b)) ||
     (negb (beq_nil (NodeName a)) && bool_decide (NodeName a = NodeName b)) then false
  else (negb (beq_nil (NodeUID a)) && negb (beq_nil (NodeUID b))) ||
       (negb (beq_nil (NodeName a)) && negb (beq_nil (NodeName b))).

(** A reason added when a condition holds. *)
Definition when (b : bool) (r : EligibilityReason) : list EligibilityReason := if b then [r] else [].

Definition no_reasons (l : list EligibilityReason) : bool := match l with [] => true | _ => false end.

Section eligibility.
(** github.com/google/uuid *)
Context (uuid_Parse : bytes → option uuid) (uuid_String : uuid → bytes).

Definition canonicalUID (s : bytes) : bool :=
  match uuid_Parse s with
  | Some id => negb (id =? Nil) && bool_decide (uuid_String id = s)
  | None => false
  end.

(** The two slots, how often each was filled, and whether anything else was seen. *)
Definition slots : Type := MemberEvidence * MemberEvidence * (Z * Z) * bool.
Definition assign (g : Group) (s : slots) (e : MemberEvidence) : slots :=
  let '(a, b, (n, k), u) := s in
  if EngineID e =? (Members g).1 then (e, b, (n + 1, k), u)
  else if EngineID e =? (Members g).2 then (a, e, (n, k + 1), u)
  else (a, b, (n, k), true).

Definition bad_binding (e : MemberEvidence) : bool :=
  let p := Placement e in
  negb (p_EngineID p =? EngineID e) || negb (canonicalUID (PodUID e)) || negb (bool_decide (p_PodUID p = PodUID e)) ||
  (beq_nil (NodeUID p) && beq_nil (NodeName p)) ||
  (negb (beq_nil (NodeUID p)) && negb (canonicalUID (NodeUID p))) ||
  (negb (beq_nil (NodeName p)) && negb (canonicalNodeName (NodeName p))).

Definition member_reasons (e : MemberEvidence) (now maxAge : Z) : list EligibilityReason :=
  when (bad_binding e) ReasonInvalidBinding ++
  when (negb (freshEligibility (p_ObservedAt (Placement e)) now maxAge)) ReasonBindingTime ++
  when (negb (freshEligibility (ObservedAt e) now maxAge) ||
        (negb (IsZero (InventoryValidUntil e)) && negb (Before now (InventoryValidUntil e)))) ReasonInventoryTime ++
  when (Revoked e) ReasonRevoked ++
  when (e_Deleted e) ReasonDeleted ++
  when (negb (OK (Ready e)) || negb (freshEligibility (c_ObservedAt (Ready e)) now maxAge)) ReasonNotReady ++
  when (negb (OK (Management e)) || negb (freshEligibility (c_ObservedAt (Management e)) now maxAge)) ReasonManagement ++
  when (negb (OK (DirectDNS e)) || negb (freshEligibility (c_ObservedAt (DirectDNS e)) now maxAge)) ReasonDirectDNS ++
  when (negb (validEligibilitySnapshot (Applied e)) || negb (validEligibilitySnapshot (e_Target e)) ||
        negb (bool_decide (Applied e = e_Target e)) ||
        negb (freshEligibility (SnapshotObservedAt e) now maxAge)) ReasonSnapshot.

Definition pair_reasons (a b : MemberEvidence) (now maxAge : Z) : list EligibilityReason :=
  let bad e := bad_binding e || negb (freshEligibility (p_ObservedAt (Placement e)) now maxAge) in
  when (bad a || bad b || bool_decide (PodUID a = PodUID b) || negb (distinctNodes (Placement a) (Placement b)))
    ReasonFailureDomain ++
  when ((PolicyGroupID a =? Nil) || negb (PolicyGroupID a =? PolicyGroupID b)) ReasonPolicyMismatch ++
  when (negb (validEligibilitySnapshot (e_Target a)) || negb (validEligibilitySnapshot (e_Target b)) ||
        negb (bool_decide (Digest (e_Target a) = Digest (e_Target b)))) ReasonTargetMismatch.

Definition EvaluateEligibility (g : Group) (evidence : list MemberEvidence) (now maxAge : Z) : Eligibility :=
  let '(a, b, counts, unexpected) :=
    foldl (assign g) (zero_evidence, zero_evidence, (0, 0), negb (len evidence =? 2)) evidence in
  let reasons :=
    when (negb (bool_decide (g_Lifecycle g = Unset)) && negb (bool_decide (g_Lifecycle g = Active))) ReasonLifecycle ++
    when (negb (Validate g)) ReasonInvalidGroup ++
    when (IsZero now || (maxAge <=? 0)) ReasonInvalidClock ++
    when (unexpected || negb (bool_decide (counts = (1, 1)))) ReasonExpectedMembers in
  let '(ra, rb, reasons) :=
    match reasons with
    | [] => (member_reasons a now maxAge, member_reasons b now maxAge, pair_reasons a b now maxAge)
    | _ => ([], [], reasons)
    end in
  let ma := ra ++ reasons in
  let mb := rb ++ reasons in
  let eligible := (if no_reasons ma then [(Members g).1] else []) ++ (if no_reasons mb then [(Members g).2] else []) in
  mkEligibility (mkMember (Members g).1 (no_reasons ma) ma, mkMember (Members g).2 (no_reasons mb) mb)
    eligible (reasons ++ when (bool_decide (eligible = [])) ReasonEmptyPool).

(** ** What eligibility promises

    The specification, in terms of the evidence alone. *)
Definition fresh (at_ now maxAge : Z) : Prop := at_ ≠ zero_time ∧ at_ ≤ now ∧ now - at_ ≤ maxAge.
Definition passed (c : EligibilityCheck) (now maxAge : Z) : Prop := OK c = true ∧ fresh (c_ObservedAt c) now maxAge.

(** The member is bound to a pod and a node by a fresh trusted lookup. *)
Definition bound (e : MemberEvidence) (now maxAge : Z) : Prop :=
  p_EngineID (Placement e) = EngineID e ∧ p_PodUID (Placement e) = PodUID e ∧ canonicalUID (PodUID e) = true ∧
  (NodeUID (Placement e) ≠ [] ∨ NodeName (Placement e) ≠ []) ∧
  (NodeUID (Placement e) ≠ [] → canonicalUID (NodeUID (Placement e)) = true) ∧
  (NodeName (Placement e) ≠ [] → canonicalNodeName (NodeName (Placement e)) = true) ∧
  fresh (p_ObservedAt (Placement e)) now maxAge.
(** The two members fail independently and serve the same configuration. *)
Definition independent (a b : MemberEvidence) : Prop :=
  PodUID a ≠ PodUID b ∧ distinctNodes (Placement a) (Placement b) = true ∧
  PolicyGroupID a ≠ Nil ∧ PolicyGroupID a = PolicyGroupID b ∧
  validEligibilitySnapshot (e_Target a) = true ∧ validEligibilitySnapshot (e_Target b) = true ∧
  Digest (e_Target a) = Digest (e_Target b).
(** The member itself is admitted, healthy and runs its target. *)
Definition healthy (e : MemberEvidence) (now maxAge : Z) : Prop :=
  fresh (ObservedAt e) now maxAge ∧
  (InventoryValidUntil e = zero_time ∨ now < InventoryValidUntil e) ∧
  Revoked e = false ∧ e_Deleted e = false ∧
  passed (Ready e) now maxAge ∧ passed (Management e) now maxAge ∧ passed (DirectDNS e) now maxAge ∧
  validEligibilitySnapshot (e_Target e) = true ∧ Applied e = e_Target e ∧
  fresh (SnapshotObservedAt e) now maxAge.
Definition group_ok (g : Group) (now maxAge : Z) : Prop :=
  (g_Lifecycle g = Unset ∨ g_Lifecycle g = Active) ∧ Validate g = true ∧ now ≠ zero_time ∧ 0 < maxAge.

(** ** Lemmas *)
Lemma fresh_spec at_ now maxAge : maxAge < max_duration →
  freshEligibility at_ now maxAge = true ↔ fresh at_ now maxAge.
Proof.
  intros Hm. unfold freshEligibility, fresh, IsZero, After, time_Sub, max_duration, min_duration in *.
  rewrite !andb_true_iff, !negb_true_iff, Z.eqb_neq, Z.ltb_ge, Z.leb_le. lia.
Qed.
Lemma when_nil b r : when b r = [] ↔ b = false.
Proof. by destruct b. Qed.
Lemma no_reasons_nil l : no_reasons l = true ↔ l = [].
Proof. by destruct l. Qed.
Lemma beq_nil_false (s : bytes) : beq_nil s = false ↔ s ≠ [].
Proof. by destruct s. Qed.

Lemma binding_spec e now maxAge : maxAge < max_duration →
  bad_binding e || negb (freshEligibility (p_ObservedAt (Placement e)) now maxAge) = false ↔ bound e now maxAge.
Proof.
  intros Hm. unfold bad_binding, bound. rewrite <- fresh_spec by done.
  rewrite !orb_false_iff, !andb_false_iff, !negb_false_iff, Z.eqb_eq, bool_decide_eq_true, !beq_nil_false.
  destruct (NodeUID (Placement e)), (NodeName (Placement e)); simpl; intuition congruence.
Qed.
Lemma member_spec e now maxAge : maxAge < max_duration → bound e now maxAge →
  member_reasons e now maxAge = [] ↔ healthy e now maxAge.
Proof.
  intros Hm [Hb Hf]%binding_spec%orb_false_iff; [|done]. unfold member_reasons, healthy, passed.
  rewrite Hb, Hf, <- !fresh_spec by done. rewrite !app_nil, !when_nil.
  rewrite !orb_false_iff, !andb_false_iff, !negb_false_iff, bool_decide_eq_true.
  unfold IsZero, Before. rewrite Z.eqb_eq, Z.ltb_lt.
  assert (Applied e = e_Target e → validEligibilitySnapshot (Applied e) = validEligibilitySnapshot (e_Target e))
    by congruence. intuition congruence.
Qed.
Lemma pair_spec a b now maxAge : maxAge < max_duration →
  pair_reasons a b now maxAge = [] ↔ bound a now maxAge ∧ bound b now maxAge ∧ independent a b.
Proof.
  intros Hm. rewrite <- !binding_spec by done. unfold pair_reasons, independent.
  rewrite !app_nil, !when_nil, !orb_false_iff, !negb_false_iff, !Z.eqb_neq, !Z.eqb_eq, bool_decide_eq_false, bool_decide_eq_true.
  tauto.
Qed.

Lemma assign_pair g evidence a b :
  (Members g).1 ≠ (Members g).2 → evidence = [a; b] ∨ evidence = [b; a] →
  EngineID a = (Members g).1 → EngineID b = (Members g).2 →
  foldl (assign g) (zero_evidence, zero_evidence, (0, 0), negb (len evidence =? 2)) evidence = (a, b, (1, 1), false).
Proof.
  intros Hne [-> | ->] Ha Hb; cbn -[assign zero_evidence]; unfold assign; rewrite Ha, Hb, !Z.eqb_refl;
    by rewrite !(proj2 (Z.eqb_neq _ _)) by congruence.
Qed.
(** The slots are filled exactly by one piece of evidence for each member. *)
Lemma assign_spec g evidence a b counts u :
  (Members g).1 ≠ (Members g).2 →
  foldl (assign g) (zero_evidence, zero_evidence, (0, 0), negb (len evidence =? 2)) evidence = (a, b, counts, u) →
  u || negb (bool_decide (counts = (1, 1))) = false ↔
  (evidence = [a; b] ∨ evidence = [b; a]) ∧ EngineID a = (Members g).1 ∧ EngineID b = (Members g).2.
Proof.
  intros Hne Hf. rewrite orb_false_iff, negb_false_iff, bool_decide_eq_true.
  destruct evidence as [|x [|y [|w rest]]].
  - injection Hf as <- <- <- <-. simpl. split; [by intros [? ?]|]. intros [[?|?] _]; congruence.
  - cbn -[assign zero_evidence] in Hf. split; [|intros [[?|?] _]; congruence].
    unfold assign in Hf. repeat case_match; simplify_eq/=; intros []; congruence.
  - cbn -[assign zero_evidence] in Hf. split.
    + intros [-> ->]. unfold assign in Hf.
      repeat match type of Hf with context [if ?c =? ?d then _ else _] => destruct (Z.eqb_spec c d) end;
        simplify_eq/=; naive_solver.
    + intros (E & Ha & Hb). pose proof (assign_pair g [x; y] a b Hne E Ha Hb) as Hp.
      cbn -[assign zero_evidence] in Hp. rewrite Hp in Hf. by simplify_eq.
  - assert (u = true) as ->; [|split; [by intros []|intros [[?|?] _]; congruence]].
    assert (∀ l s, s.2 = true → (foldl (assign g) s l).2 = true) as Hu.
    { intros l. induction l as [|z l IH]; [done|]. intros [[[p q] [n k]] v] Hv. simpl in *. apply IH.
      unfold assign. by repeat case_match. }
    replace (negb (len _ =? 2)) with true in Hf.
    2:{ symmetry. apply negb_true_iff, Z.eqb_neq. unfold len. simpl. lia. }
    specialize (Hu (x :: y :: w :: rest) (zero_evidence, zero_evidence, (0, 0), true) eq_refl).
    by rewrite Hf in Hu.
Qed.

Lemma distinctNodes_sym a b : distinctNodes a b = distinctNodes b a.
Proof.
  unfold distinctNodes. destruct (NodeUID a), (NodeUID b), (NodeName a), (NodeName b); simpl;
    repeat case_bool_decide; simplify_eq/=; congruence.
Qed.
Lemma independent_sym a b : independent a b → independent b a.
Proof. unfold independent. rewrite (distinctNodes_sym (Placement a)). intuition congruence. Qed.
Lemma Validate_members g : Validate g = true → (Members g).1 ≠ (Members g).2.
Proof.
  unfold Validate. destruct (nameRE _); simpl; [|done]. destruct (ParseAddr4 _); [|done].
  destruct (_ || (224 <=? _)); [done|]. destruct (_ || _) eqn:E; [done|]. intros _.
  apply orb_false_iff in E as [_ ?%Z.eqb_neq]. done.
Qed.

(** The decision, once the slots are known. *)
Lemma Eligible_slots g evidence now maxAge a b counts u :
  foldl (assign g) (zero_evidence, zero_evidence, (0, 0), negb (len evidence =? 2)) evidence = (a, b, counts, u) →
  maxAge < max_duration →
  let r := EvaluateEligibility g evidence now maxAge in
  let admitted e := group_ok g now maxAge ∧ u || negb (bool_decide (counts = (1, 1))) = false ∧
    bound a now maxAge ∧ bound b now maxAge ∧ independent a b ∧ healthy e now maxAge in
  (m_Eligible (e_Members r).1 = true ↔ admitted a) ∧ (m_Eligible (e_Members r).2 = true ↔ admitted b).
Proof.
  intros Hf Hm. unfold EvaluateEligibility. rewrite Hf.
  set (rs := when _ ReasonLifecycle ++ _). cbn zeta.
  assert (rs = [] ↔ group_ok g now maxAge ∧ u || negb (bool_decide (counts = (1, 1))) = false) as Hrs.
  { unfold rs, group_ok, IsZero. rewrite !app_nil, !when_nil, !andb_false_iff, !negb_false_iff, !bool_decide_eq_true.
    rewrite orb_false_iff, Z.eqb_neq, Z.leb_gt. tauto. }
  destruct rs as [|r rs]; cbn [e_Members m_Eligible fst snd]; rewrite !no_reasons_nil, app_nil.
  - destruct Hrs as [[Hg Hc] _]; [done|]. rewrite app_nil, !pair_spec by done.
    split; (split; [intros (Hr & Ha & Hb & Hi)|intros (_ & _ & Ha & Hb & Hi & Hh)]).
    1,3: by rewrite member_spec in Hr by done.
    all: by rewrite member_spec by done.
  - split; (split; [by intros [_ ?]|]); intros (Hg & Hc & _); by discriminate (proj2 Hrs (conj Hg Hc)).
Qed.
Lemma elem_Eligible g evidence now maxAge id :
  let r := EvaluateEligibility g evidence now maxAge in
  id ∈ Eligible r ↔ (id = (Members g).1 ∧ m_Eligible (e_Members r).1 = true) ∨
                    (id = (Members g).2 ∧ m_Eligible (e_Members r).2 = true).
Proof.
  unfold EvaluateEligibility. destruct (foldl _ _ _) as [[[a b] counts] u]. destruct (_ ++ _);
    cbn [e_Members m_Eligible fst snd Eligible]; rewrite elem_of_app; pose proof (not_elem_of_nil id);
    repeat destruct (no_reasons _); rewrite ?list_elem_of_singleton; intuition congruence.
Qed.
Lemma EmptyPool_iff g evidence now maxAge :
  let r := EvaluateEligibility g evidence now maxAge in ReasonEmptyPool ∈ Reasons r ↔ Eligible r = [].
Proof.
  unfold EvaluateEligibility. destruct (foldl _ _ _) as [[[a b] counts] u].
  set (rs := when _ ReasonLifecycle ++ _).
  assert (∀ l c r, r ≠ ReasonEmptyPool → ReasonEmptyPool ∉ l → ReasonEmptyPool ∉ when c r ++ l) as Hw.
  { intros l [] r ? ?; simpl; [|done]. rewrite not_elem_of_cons. auto. }
  assert (∀ c r, r ≠ ReasonEmptyPool → ReasonEmptyPool ∉ when c r) as Hw'.
  { intros [] r ?; simpl; rewrite ?list_elem_of_singleton; [congruence|apply not_elem_of_nil]. }
  assert (ReasonEmptyPool ∉ rs ∧ ReasonEmptyPool ∉ pair_reasons a b now maxAge) as [H1 H2].
  { unfold rs, pair_reasons. split; repeat apply Hw; try done; by apply Hw'. }
  destruct rs; cbn [Reasons Eligible]; rewrite elem_of_app; unfold when; case_bool_decide as E;
    rewrite ?list_elem_of_singleton; intuition (try done); by apply not_elem_of_nil in H3.
Qed.
End eligibility.

Section statement.
Context (uuid_Parse : bytes → option uuid) (uuid_String : uuid → bytes).

Lemma eligible_iff g evidence now maxAge id : maxAge < max_duration →
  id ∈ Eligible (EvaluateEligibility uuid_Parse uuid_String g evidence now maxAge) ↔ ∃ e partner,
    (evidence = [e; partner] ∨ evidence = [partner; e]) ∧ EngineID e = id ∧
    (Members g = (id, EngineID partner) ∨ Members g = (EngineID partner, id)) ∧
    group_ok g now maxAge ∧
    bound uuid_Parse uuid_String e now maxAge ∧ bound uuid_Parse uuid_String partner now maxAge ∧
    independent e partner ∧ healthy e now maxAge.
Proof.
  intros Hm. rewrite elem_Eligible.
  destruct (foldl (assign g) (zero_evidence, zero_evidence, (0, 0), negb (len evidence =? 2)) evidence)
    as [[[a b] counts] u] eqn:Hf.
  destruct (Eligible_slots uuid_Parse uuid_String g evidence now maxAge a b counts u Hf Hm) as [Ha Hb].
  rewrite Ha, Hb. split.
  - intros [(-> & Hg & Hc & Hba & Hbb & Hi & Hh)|(-> & Hg & Hc & Hba & Hbb & Hi & Hh)];
      (rewrite (assign_spec g evidence a b counts u) in Hc by (done || by apply Validate_members, Hg));
      destruct Hc as (He & E1 & E2).
    + exists a, b. split; [done|]. split; [done|]. split; [left; rewrite E2; by destruct (Members g)|done].
    + exists b, a. split; [tauto|]. split; [done|]. split; [right; rewrite E1; by destruct (Members g)|].
      split_and!; auto using independent_sym; apply Hg.
  - intros (e & p & He & <- & HM & Hg & Hbe & Hbp & Hi & Hh).
    pose proof (Validate_members g ltac:(apply Hg)) as Hn. destruct HM as [HM|HM]; [left|right]; rewrite HM in Hn.
    + rewrite (assign_pair g evidence e p) in Hf by (done || by rewrite HM). simplify_eq.
      split; [by rewrite HM|]. done.
    + rewrite (assign_pair g evidence p e) in Hf by (done || tauto || by rewrite HM). simplify_eq.
      split; [by rewrite HM|]. split_and!; auto using independent_sym; apply Hg.
Qed.
Lemma eligible_nil g now maxAge : Eligible (EvaluateEligibility uuid_Parse uuid_String g [] now maxAge) = [].
Proof.
  unfold EvaluateEligibility. cbn [foldl]. destruct (when _ ReasonLifecycle ++ _) eqn:E; [|done].
  by rewrite !app_nil in E; destruct E as (_ & _ & _ & ?).
Qed.

(** The eligible pool, characterised by the evidence alone.  A member is in the pool exactly when
    the group is valid and active, the evidence consists of one piece for each of the two members,
    both members are bound to their pod and node by a fresh trusted lookup, they run in different
    pods on different nodes under one policy group with the same target content, and the member
    itself is freshly seen, neither revoked nor deleted, ready, managed, answering DNS and running
    exactly its target.  So an unhealthy member leaves its partner in the pool, an unproven
    placement empties the pool, and the pool is empty exactly when that is given as a reason. *)
Theorem EvaluateEligibility_spec g evidence now maxAge : maxAge < max_duration →
  let r := EvaluateEligibility uuid_Parse uuid_String g evidence now maxAge in
  (∀ id, id ∈ Eligible r ↔ ∃ e partner,
    (evidence = [e; partner] ∨ evidence = [partner; e]) ∧ EngineID e = id ∧
    (Members g = (id, EngineID partner) ∨ Members g = (EngineID partner, id)) ∧
    group_ok g now maxAge ∧
    bound uuid_Parse uuid_String e now maxAge ∧ bound uuid_Parse uuid_String partner now maxAge ∧
    independent e partner ∧ healthy e now maxAge) ∧
  (ReasonEmptyPool ∈ Reasons r ↔ Eligible r = []).
Proof. intros Hm r. split; [intros id; by apply eligible_iff|apply EmptyPool_iff]. Qed.
End statement.

(** ** Frontend status (status.go) *)
Record Observation := mkObservation {
  AppliedGeneration : Z; Owner : bytes; o_State : bytes; Reason : bytes; o_ObservedAt : Z }.
Definition Status (g : Group) (o : option Observation) (now : Z) : bytes :=
  if negb (bool_decide (g_Lifecycle g = Unset)) && negb (bool_decide (g_Lifecycle g = Active)) then str "pending"
  else match o with
       | None => str "unknown"
       | Some o =>
           if beq_nil (Owner o) || IsZero (o_ObservedAt o) || After (o_ObservedAt o) now ||
              (30 * 1000000000 <? time_Sub now (o_ObservedAt o)) then str "unknown"
           else if (Generation g <=? 0) || negb (AppliedGeneration o =? Generation g) then str "pending"
           else if bool_decide (o_State o ∈ [str "healthy"; str "degraded"; str "unavailable"]) then o_State o
           else str "unknown"
       end.

(** A frontend is reported healthy only on a current report: the group is active, and an owner
    reported healthy for exactly the current generation, not in the future and at most 30 seconds
    ago.  Every other case reads as pending, unknown, or the reported trouble. *)
Theorem Status_healthy g o now :
  Status g o now = str "healthy" ↔
  ∃ x, o = Some x ∧ (g_Lifecycle g = Unset ∨ g_Lifecycle g = Active) ∧ Owner x ≠ [] ∧
    fresh (o_ObservedAt x) now (30 * 1000000000) ∧ 0 < Generation g ∧
    AppliedGeneration x = Generation g ∧ o_State x = str "healthy".
Proof.
  unfold Status. destruct (_ && _) eqn:El.
  { rewrite andb_true_iff, !negb_true_iff, !bool_decide_eq_false in El. split; [done|].
    intros (x & _ & [?|?] & _); tauto. }
  rewrite andb_false_iff, !negb_false_iff, !bool_decide_eq_true in El.
  destruct o as [x|]; [|split; [done|by intros (x & ? & _)]].
  assert (freshEligibility (o_ObservedAt x) now (30 * 1000000000) = true ↔ fresh (o_ObservedAt x) now (30 * 1000000000))
    as Hf by (apply fresh_spec; unfold max_duration; lia).
  unfold freshEligibility in Hf. rewrite !andb_true_iff, !negb_true_iff, Z.leb_le in Hf.
  destruct (_ || (_ <? _)) eqn:Eo.
  { split; [done|]. rewrite !orb_true_iff, Z.ltb_lt in Eo. intros (y & [= <-] & _ & Hn & Hy & _).
    apply Hf in Hy as ((H1 & H2) & H3). destruct Eo as [[[Eo|Eo]|Eo]|Eo]; [by destruct (Owner x)|congruence..|lia]. }
  rewrite !orb_false_iff, Z.ltb_ge, beq_nil_false in Eo. destruct Eo as (((H1 & H2) & H3) & H4).
  destruct (_ || _) eqn:Eg.
  { split; [done|]. rewrite orb_true_iff, negb_true_iff, Z.leb_le, Z.eqb_neq in Eg.
    intros (y & [= <-] & _ & _ & _ & ? & ? & _). lia. }
  rewrite orb_false_iff, negb_false_iff, Z.leb_gt, Z.eqb_eq in Eg. destruct Eg. split.
  - case_bool_decide; [|done]. intros E. exists x. split_and!; try done. apply Hf. auto.
  - intros (y & [= <-] & _ & _ & _ & _ & _ & E). rewrite bool_decide_eq_true_2; [done|]. rewrite E. left.
Qed.

(** ** A concrete pair *)
Module Pair.
Definition parse (s : bytes) : option uuid := ParseUint s 64.
Definition uid (n : Z) : bytes := FormatUint n.
Definition sec : Z := 1000000000.
Definition group : Group := mkGroup 1 (str "edge") (str "192.0.2.10") (11, 12) 4 Active 0 0.
Definition digest : bytes := replicate 64 97.
Definition member (id pod node : Z) (seen : Z) (dns : bool) : MemberEvidence :=
  mkEvidence id 7 (id + 100) (str "c") (uid pod) (mkPlacement id (uid pod) (uid node) [] seen) seen false false
    (mkCheck true seen) (mkCheck true seen) (mkCheck dns seen) (mkSnapshot 3 digest) (mkSnapshot 3 digest) seen
    zero_time.
Definition a := member 11 21 31 (100 * sec) true.
Definition b := member 12 22 32 (100 * sec) false.

Lemma EvaluateEligibility_spec_witness :
  Eligible (EvaluateEligibility parse uid group [b; a] (105 * sec) (10 * sec)) = [11] ∧
  ∃ e partner, [b; a] = [partner; e] ∧ EngineID e = 11 ∧ healthy e (105 * sec) (10 * sec) ∧ independent e partner.
Proof.
  split; [vm_compute; reflexivity|].
  destruct (EvaluateEligibility_spec parse uid group [b; a] (105 * sec) (10 * sec)) as [H _]; [by vm_compute|].
  destruct (proj1 (H 11)) as (e & p & He & E1 & _ & _ & _ & _ & Hi & Hh).
  { vm_compute. left. }
  exists e, p. destruct He as [He|He]; [|done]. injection He as <- <-. by vm_compute in E1.
Defined.
End Pair.
