(* ===== verification/FailoverStore.v ===== *)
(** * Failover groups in the database

    mgmt/internal/failover/groups.go and lifecycle.go on the tables of
    migrations/01300_failover_groups.sql and 01306_failover_lifecycle.sql, triggers included.  An
    operation is one transaction: it returns the new tables and its value, or an error, and then
    the caller rolls back.  The ids the database and the UUID package draw, the time of now(), the
    LOGIN of the connection, SHA-256 and the withdrawal verifier are arguments. *)

From S2P Require Import Prelude.
From S2P Require Import GoText.
From S2P Require Import FailoverEligibility.

(** ** Errors *)
Inductive pgcode : Type := UniqueViolation | CheckViolation | ForeignKeyViolation | InsufficientPrivilege.
Inductive ferr : Type :=
| ErrInvalid | ErrConflict | ErrNotFound | ErrUnauthorized | NoRows | Pg (c : pgcode)
| Refused | Cancelled | Ambiguous | LoadFailed.
#[export] Instance pgcode_eq_dec : EqDecision pgcode.
Proof. solve_decision. Defined.
#[export] Instance ferr_eq_dec : EqDecision ferr.
Proof. solve_decision. Defined.

Definition MapError (e : ferr) : ferr :=
  match e with NoRows => ErrNotFound | Pg UniqueViolation => ErrConflict | e => e end.
Definition mapErr {A} (m : res ferr A) : res ferr A := match m with Err e => Err (MapError e) | m => m end.

(** ** Tables *)
Record PublisherToken := mkToken {
  t_GroupID : uuid; t_Generation : Z; Epoch : Z; t_Owner : uuid; Session : uuid }.
#[export] Instance Token_eq_dec : EqDecision PublisherToken.
Proof. solve_decision. Defined.

(** A row of failover_publishers: the token and the claimed sequence. *)
Record publisher := mkPublisher { pub_token : PublisherToken; sequence : Z }.
Record publication := mkPublication {
  pn_generation : Z; source_incarnation : uuid; max_age_ms : Z; pn_epoch : Z; pn_sequence : Z;
  evidence : list MemberEvidence; collected_at : Z; expires_at : Z }.
Record withdrawal := mkWithdrawal { w_group : uuid; w_generation : Z; w_epoch : Z; proof_sha256 : bytes }.
Inductive Purpose : Type := Collector | Controller | Withdrawal.
#[export] Instance Purpose_eq_dec : EqDecision Purpose.
Proof. solve_decision. Defined.
Record source_row := mkSource { role_oid : Z; incarnation : uuid; role_name : bytes; purpose : Purpose }.
Record engine_row := mkEngine {
  node_name : bytes; engine_group_id : uuid; revoked : bool; deleted : bool;
  connection_session : option uuid; applied_version : Z; connected : bool;
  persist_error : bytes; version_ahead : bool; rejected_version : option Z;
  last_seen_at : option Z; certificate_serial : bytes }.
Record cert_row := mkCert { cert_engine : uuid; cert_revoked : bool; not_before : Z; not_after : Z }.

Section tables.
Context {Fleet : Type}.

(** The tables other parts of the program write; [fleet] stands for those the rollout target is
    computed from. *)
Record inventory := mkInventory {
  sources : list source_row;
  roles : list (Z * bytes);
  engines : gmap uuid engine_row;
  engine_groups : gset uuid;
  content_sha256 : gmap (uuid * Z) bytes;
  certificates : gmap bytes cert_row;
  fleet : Fleet;
}.
Record fdb := mkFdb {
  groups : gmap uuid Group;
  members : gmap (uuid * uuid) Z;
  ip_reservations : gmap bytes uuid;
  engine_reservations : gmap uuid uuid;
  publishers : gmap uuid publisher;
  history : list PublisherToken;
  publications : gmap uuid publication;
  withdrawals : list withdrawal;
  inv : inventory;
}.
Definition set_groups (d : fdb) x := mkFdb x (members d) (ip_reservations d) (engine_reservations d)
  (publishers d) (history d) (publications d) (withdrawals d) (inv d).
Definition set_members (d : fdb) x := mkFdb (groups d) x (ip_reservations d) (engine_reservations d)
  (publishers d) (history d) (publications d) (withdrawals d) (inv d).
Definition set_ip (d : fdb) x := mkFdb (groups d) (members d) x (engine_reservations d)
  (publishers d) (history d) (publications d) (withdrawals d) (inv d).
Definition set_eng (d : fdb) x := mkFdb (groups d) (members d) (ip_reservations d) x
  (publishers d) (history d) (publications d) (withdrawals d) (inv d).
Definition set_publishers (d : fdb) x := mkFdb (groups d) (members d) (ip_reservations d)
  (engine_reservations d) x (history d) (publications d) (withdrawals d) (inv d).
Definition set_history (d : fdb) x := mkFdb (groups d) (members d) (ip_reservations d)
  (engine_reservations d) (publishers d) x (publications d) (withdrawals d) (inv d).
Definition set_publications (d : fdb) x := mkFdb (groups d) (members d) (ip_reservations d)
  (engine_reservations d) (publishers d) (history d) x (withdrawals d) (inv d).
Definition set_withdrawals (d : fdb) x := mkFdb (groups d) (members d) (ip_reservations d)
  (engine_reservations d) (publishers d) (history d) (publications d) x (inv d).
Definition set_inv (d : fdb) x := mkFdb (groups d) (members d) (ip_reservations d)
  (engine_reservations d) (publishers d) (history d) (publications d) (withdrawals d) x.

(** ** Triggers and constraints *)
Definition frontend_check (ip : bytes) : bool :=
  match ParseAddr4 ip with
  | Some [a; b; c; d] =>
      negb (a =? 0) && negb (a =? 127) && negb ((a =? 169) && (b =? 254)) && negb (224 <=? a)
  | _ => false
  end.
Definition group_check (g : Group) : bool :=
  nameRE (Name g) && frontend_check (FrontendIP g) && (0 <? Generation g) &&
  negb ((Members g).1 =? (Members g).2) && negb (bool_decide (g_Lifecycle g = Unset)).
Definition live_name_taken (d : fdb) (g : Group) : Prop :=
  g_Lifecycle g ≠ Deleted ∧
  map_Exists (λ id h, id ≠ g_ID g ∧ g_Lifecycle h ≠ Deleted ∧ Name h = Name g) (groups d).

Definition reserve_ip (d : fdb) (ip : bytes) (g : uuid) : res ferr fdb :=
  match ip_reservations d !! ip with
  | Some h => if h =? g then Ok d else Err (Pg UniqueViolation)
  | None =>
      if decide (map_Exists (λ _ h, h = g) (ip_reservations d)) then Err (Pg UniqueViolation)
      else Ok (set_ip d (<[ip := g]> (ip_reservations d)))
  end.
Definition reserve_engine (d : fdb) (e g : uuid) : res ferr fdb :=
  match engine_reservations d !! e with
  | Some h => if h =? g then Ok d else Err (Pg UniqueViolation)
  | None => Ok (set_eng d (<[e := g]> (engine_reservations d)))
  end.
(** The trigger on failover_groups; [old] is the row an update replaces. *)
Definition failover_reserve (d : fdb) (old : option Group) (new : Group) : res ferr fdb :=
  if match old with
     | Some o => bool_decide (g_Lifecycle o = Deleted) || negb (bool_decide (FrontendIP new = FrontendIP o)) ||
                 negb (g_ID new =? g_ID o)
     | None => false
     end then Err (Pg CheckViolation)
  else if bool_decide (g_Lifecycle new = Deleted) then Ok d
  else
    d ← reserve_ip d (FrontendIP new) (g_ID new);
    d ← reserve_engine d (Members new).1 (g_ID new);
    reserve_engine d (Members new).2 (g_ID new).

(** A reference to an engine that does not exist; an update checks it only when it changes. *)
Definition dangling (d : fdb) (old : option uuid) (e : uuid) : bool :=
  negb (bool_decide (old = Some e)) && bool_decide (engines (inv d) !! e = None).
(** Writing a row of failover_groups: the constraints, then the trigger. *)
Definition write_group (d : fdb) (old : option Group) (g : Group) : res ferr fdb :=
  if negb (group_check g) then Err (Pg CheckViolation)
  else if dangling d ((λ o, (Members o).1) <$> old) (Members g).1 || dangling d ((λ o, (Members o).2) <$> old) (Members g).2
  then Err (Pg ForeignKeyViolation)
  else if decide (live_name_taken d g) then Err (Pg UniqueViolation)
  else failover_reserve (set_groups d (<[g_ID g := g]> (groups d))) old g.

(** ** groups.go *)
Definition Get (d : fdb) (id : uuid) : res ferr Group :=
  match groups d !! id with Some g => Ok g | None => Err ErrNotFound end.
Definition lock (d : fdb) (id : uuid) (expected : Z) : res ferr Group :=
  match groups d !! id with
  | None => Err ErrNotFound
  | Some g => if (expected <=? 0) || negb (Generation g =? expected) then Err ErrConflict else Ok g
  end.
Definition insertMembers (d : fdb) (g : Group) : res ferr fdb :=
  let a := (g_ID g, (Members g).1) in
  let b := (g_ID g, (Members g).2) in
  if bool_decide (members d !! a ≠ None ∨ members d !! b ≠ None ∨ a = b) then Err ErrConflict
  else Ok (set_members d (<[b := 2]> (<[a := 1]> (members d)))).
Definition blank (s : bytes) : bool := bool_decide (Fields s = []).
Definition validateMembers (d : fdb) (ids : uuid * uuid) : res ferr unit :=
  match engines (inv d) !! ids.1, engines (inv d) !! ids.2 with
  | Some a, Some b =>
      if revoked a || deleted a || blank (node_name a) || revoked b || deleted b || blank (node_name b) then Err ErrInvalid
      else if ids.1 =? ids.2 then Err ErrInvalid
      else if bool_decide (node_name a = node_name b) then Err ErrInvalid
      else if negb (engine_group_id a =? engine_group_id b) then Err ErrInvalid
      else Ok tt
  | _, _ => Err ErrInvalid
  end.
Definition sameMembers (a b : uuid * uuid) : bool :=
  bool_decide (a = b) || ((a.1 =? b.2) && (a.2 =? b.1)).

Definition Create (d : fdb) (g : Group) (new_id now : Z) : res ferr (fdb * Group) :=
  if negb (Validate g) then Err ErrInvalid
  else
    validateMembers d (Members g);;
    let row := mkGroup new_id (Name g) (FrontendIP g) (Members g) 1 Active now now in
    d ← mapErr (match groups d !! new_id with Some _ => Err (Pg UniqueViolation) | None => write_group d None row end);
    d ← insertMembers d row;
    g ← Get d new_id;
    Ok (d, g).

Definition Update (d : fdb) (g : Group) (expected now : Z) : res ferr (fdb * Group) :=
  if negb (Validate g) then Err ErrInvalid
  else
    current ← lock d (g_ID g) expected;
    if negb (bool_decide (g_Lifecycle current = Active)) && negb (bool_decide (g_Lifecycle current = Withdrawn))
    then Err ErrInvalid
    else if negb (bool_decide (FrontendIP current = FrontendIP g)) then Err ErrInvalid
    else
      validateMembers d (Members g);;
      let next := if sameMembers (Members current) (Members g) then g_Lifecycle current else Draining in
      let row := mkGroup (g_ID g) (Name g) (FrontendIP current) (Members g) (Generation current + 1) next
                   (CreatedAt current) now in
      d ← mapErr (write_group d (Some current) row);
      let d := set_members d (filter (λ p, p.1.1 ≠ g_ID g) (members d)) in
      d ← insertMembers d row;
      g ← Get d (g_ID g);
      Ok (d, g).

(** ** lifecycle.go *)
Definition is_source (i : inventory) (su : bytes) (p : Purpose) (s : source_row) : Prop :=
  role_name s = su ∧ purpose s = p ∧ (role_oid s, role_name s) ∈ roles i.
#[export] Instance is_source_dec i su p s : Decision (is_source i su p s).
Proof. unfold is_source. apply _. Defined.
Definition authorizeSource (d : fdb) (su : bytes) (p : Purpose) : res ferr unit :=
  match filter (is_source (inv d) su p) (sources (inv d)) with [] => Err ErrUnauthorized | _ => Ok tt end.

Definition RotatePublisher (d : fdb) (su : bytes) (id : uuid) (generation expectedEpoch : Z) (owner session : uuid)
    : res ferr (fdb * PublisherToken) :=
  authorizeSource d su Controller;;
  g ← lock d id generation;
  if (owner =? Nil) || bool_decide (g_Lifecycle g = Deleted) || bool_decide (g_Lifecycle g = Withdrawn)
  then Err ErrInvalid
  else
    let epoch := match publishers d !! id with Some p => Epoch (pub_token p) | None => 0 end in
    if negb (epoch =? expectedEpoch) then Err ErrConflict
    else
      let t := mkToken id generation (epoch + 1) owner session in
      if bool_decide (map_Exists (λ k p, k ≠ id ∧ Session (pub_token p) = session) (publishers d)) ||
         bool_decide (Exists (λ h, Session h = session ∨ (t_GroupID h = id ∧ Epoch h = epoch + 1)) (history d))
      then Err (Pg UniqueViolation)
      else if (epoch + 1 <=? 0) || (generation <=? 0) then Err (Pg CheckViolation)
      else Ok (set_history (set_publishers d (<[id := mkPublisher t 0]> (publishers d))) (history d ++ [t]), t).

Definition lockPublisher (d : fdb) (t : PublisherToken) : res ferr Group :=
  g ← lock d (t_GroupID t) (t_Generation t);
  match publishers d !! t_GroupID t with
  | None => Err ErrConflict
  | Some p =>
      let q := pub_token p in
      if negb (t_Generation q =? t_Generation t) || negb (Epoch q =? Epoch t) || negb (t_Owner q =? t_Owner t) ||
         negb (Session q =? Session t) || (Session q =? Nil) then Err ErrConflict
      else Ok g
  end.

Definition with_lifecycle (g : Group) (l : Lifecycle) (now : Z) : Group :=
  mkGroup (g_ID g) (Name g) (FrontendIP g) (Members g) (Generation g + 1) l (CreatedAt g) now.
Definition transition (d : fdb) (id : uuid) (expected : Z) (next : Lifecycle) (now : Z) : res ferr (fdb * Group) :=
  g ← lock d id expected;
  let l := g_Lifecycle g in
  if match next with
     | Draining => bool_decide (l = Active)
     | Deleting => bool_decide (l = Active) || bool_decide (l = Draining) || bool_decide (l = Withdrawn)
     | Active => bool_decide (l = Withdrawn)
     | _ => false
     end
  then
    d ← mapErr (write_group d (Some g) (with_lifecycle g next now));
    g ← Get d id;
    Ok (d, g)
  else Err ErrInvalid.
Definition BeginDrain (d : fdb) (id : uuid) (expected now : Z) := transition d id expected Draining now.
Definition RequestDeletion (d : fdb) (id : uuid) (expected now : Z) := transition d id expected Deleting now.
Definition Resume (d : fdb) (id : uuid) (expected now : Z) := transition d id expected Active now.

(** ** CompleteWithdrawal *)
Record WithdrawalScope := mkScope {
  s_Group : Group; Publishers : list PublisherToken; ReservedMembers : list uuid }.
Definition epoch_less (a b : PublisherToken) : bool := Epoch a <? Epoch b.
Definition scope_of (d : fdb) (g : Group) : WithdrawalScope :=
  mkScope g (stable_sort epoch_less (filter (λ t, t_GroupID t = g_ID g) (history d)))
    (stable_sort Z.ltb (omap (λ p, if p.2 =? g_ID g then Some p.1 else None) (map_to_list (engine_reservations d)))).

(** failover_release_guard on deleting a reservation of group [id]. *)
Definition release_allowed (d : fdb) (su : bytes) (id : uuid) : bool :=
  bool_decide (authorizeSource d su Withdrawal = Ok tt) &&
  match groups d !! id with
  | Some g => bool_decide (g_Lifecycle g ∈ [Withdrawn; Deleted]) &&
              bool_decide (Exists (λ w, w_group w = id ∧ w_generation w = Generation g - 1) (withdrawals d))
  | None => false
  end.

Definition release_engines (d : fdb) (su : bytes) (g : Group) (all : bool) : res ferr fdb :=
  let gone (p : uuid * uuid) := p.2 = g_ID g ∧ (all = true ∨ (p.1 ≠ (Members g).1 ∧ p.1 ≠ (Members g).2)) in
  if decide (map_Exists (λ k x, gone (k, x)) (engine_reservations d)) then
    if release_allowed d su (g_ID g)
    then Ok (set_eng d (filter (λ p, ¬ gone p) (engine_reservations d)))
    else Err (Pg InsufficientPrivilege)
  else Ok d.
Definition release_ip (d : fdb) (su : bytes) (g : Group) : res ferr fdb :=
  if decide (map_Exists (λ _ x, x = g_ID g) (ip_reservations d)) then
    if release_allowed d su (g_ID g)
    then Ok (set_ip d (filter (λ p, p.2 ≠ g_ID g) (ip_reservations d)))
    else Err (Pg InsufficientPrivilege)
  else Ok d.

(** [v = None]: no verifier was supplied.  [cancelled]: the context ended while it ran. *)
Definition CompleteWithdrawal (sha256 : bytes → bytes) (d : fdb) (su : bytes) (t : PublisherToken) (proof : bytes)
    (v : option (WithdrawalScope → bytes → bool)) (cancelled : bool) (now : Z) : res ferr (fdb * Group) :=
  match v with
  | None => Err ErrInvalid
  | Some verify =>
      if (len proof =? 0) || (2 ^ 20 <? len proof) then Err ErrInvalid
      else
        authorizeSource d su Withdrawal;;
        g ← lockPublisher d t;
        if negb (bool_decide (g_Lifecycle g = Draining)) && negb (bool_decide (g_Lifecycle g = Deleting)) then Err ErrInvalid
        else if negb (verify (scope_of d g) proof) then Err Refused
        else if cancelled then Err Cancelled
        else
          let w := mkWithdrawal (g_ID g) (Generation g) (Epoch t) (hex_EncodeToString (sha256 proof)) in
          if bool_decide (Exists (λ x, w_group x = g_ID g ∧ w_generation x = Generation g) (withdrawals d))
          then Err (Pg UniqueViolation)
          else
            let d := set_withdrawals d (withdrawals d ++ [w]) in
            let next := if bool_decide (g_Lifecycle g = Deleting) then Deleted else Withdrawn in
            d ← write_group d (Some g) (with_lifecycle g next now);
            d ← release_engines d su g (bool_decide (next = Deleted));
            d ← (if bool_decide (next = Deleted) then release_ip d su g else Ok d);
            g ← Get d (g_ID g);
            Ok (d, g)
  end.
End tables.
Arguments inventory : clear implicits.
Arguments fdb : clear implicits.
