(* ===== verification/FailoverPublish.v ===== *)
(** * Publication of failover eligibility

    mgmt/internal/failover/publication.go: collecting evidence once, publishing it under a
    publisher token, and the checked read.  A stage that runs in one transaction is a function of
    the tables; between the two transactions of [CollectAndPublish] other transactions commit,
    which the argument [between] stands for.  Clock readings, the outcome of a commit and whether a
    context ended are arguments.  Evidence is stored by value; the database keeps microseconds. *)

From S2P Require Import Prelude.
From S2P Require Import GoText.
From S2P Require Import Effects.
From S2P Require Import FailoverEligibility.
From S2P Require Import FailoverStore.

(** fleet.Target, with the message it carries. *)
Record Target (Snapshot : Type) := mkTarget { tg_Version : Z; tg_Snapshot : option Snapshot }.
Arguments mkTarget {Snapshot}.
Arguments tg_Version {Snapshot}.
Arguments tg_Snapshot {Snapshot}.

Definition second : Z := 1000000000.
Definition millisecond : Z := 1000000.
(** pgx truncates a time to microseconds. *)
Definition to_pg (t : Z) : Z := (t / 1000) * 1000.

Definition set_member (e : MemberEvidence) (rev del mgmt : bool) (applied target : EligibilitySnapshot) (until : Z)
    : MemberEvidence :=
  mkEvidence (EngineID e) (PolicyGroupID e) (ConnectionSession e) (ContainerID e) (PodUID e) (Placement e)
    (ObservedAt e) rev del (Ready e) (mkCheck mgmt (c_ObservedAt (Management e))) (DirectDNS e) applied target
    (SnapshotObservedAt e) until.

Section publish.
Context {Fleet Snapshot : Type}.
Context (uuid_Parse : bytes → option uuid) (uuid_String : uuid → bytes).
(** fleet.TargetFor and snapshot.ContentDigest: the version a rollout tells the engine to run and
    the digest of a snapshot. *)
Context (TargetFor : fdb Fleet → uuid → res ferr (Target Snapshot)) (ContentDigest : Snapshot → res ferr bytes).

Abbreviation Evaluate := (EvaluateEligibility uuid_Parse uuid_String).

(** ** validateInventory *)
(** The certificate of the engine's current serial. *)
Definition certificate_of (d : fdb Fleet) (id : uuid) (row : engine_row) : option cert_row :=
  match certificates (inv d) !! certificate_serial row with
  | Some c => if cert_engine c =? id then Some c else None
  | None => None
  end.
Definition cert_ok (c : cert_row) (now : Z) : bool :=
  negb (cert_revoked c) && (not_before c <=? now) && (now <? not_after c).
Definition badApply (row : engine_row) : bool :=
  negb (beq_nil (persist_error row)) || version_ahead row || bool_decide (rejected_version row ≠ None).

(** One round of the loop; [None]: the whole evidence is discarded. *)
Definition validate_member (d : fdb Fleet) (g : Group) (e : MemberEvidence) (now maxAge : Z)
    : res ferr (option MemberEvidence) :=
  if negb (EngineID e =? (Members g).1) && negb (EngineID e =? (Members g).2) then Ok None
  else if (ConnectionSession e =? Nil) || beq_nil (ContainerID e) ||
          negb (canonicalUID uuid_Parse uuid_String (NodeUID (Placement e))) then Ok None
  else match engines (inv d) !! EngineID e with
  | None => Ok None
  | Some row =>
      if negb (bool_decide (connection_session row = Some (ConnectionSession e))) then Ok None
      else
        let rev := Revoked e || revoked row in
        let del := e_Deleted e || deleted row in
        let policy := engine_group_id row in
        if negb (policy =? PolicyGroupID e) then Ok None
        else
          let until := match last_seen_at row with Some t => t + maxAge | None => now end in
          let mgmt := OK (Management e) &&
            (connected row && match last_seen_at row with Some t => freshEligibility t now maxAge | None => false end) in
          let version := applied_version row in
          let applied := if badApply row || (version <=? 0) || negb (version =? Version (Applied e))
                         then zero_snapshot else Applied e in
          if negb (bool_decide (policy ∈ engine_groups (inv d))) then Err NoRows
          else match TargetFor d (EngineID e) with
          | Err ErrNotFound => Ok (Some (set_member e rev true mgmt applied (e_Target e) until))
          | Err x => Err x
          | Panic => Panic
          | Fuel => Fuel
          | Ok tg =>
              match tg_Snapshot tg with
              | None => Ok (Some (set_member e rev del mgmt applied zero_snapshot until))
              | Some s =>
                  if tg_Version tg =? 0 then Ok (Some (set_member e rev del mgmt applied zero_snapshot until))
                  else
                    digest ← ContentDigest s;
                    let target := if negb (Version (e_Target e) =? tg_Version tg) ||
                                     negb (bool_decide (Digest (e_Target e) = digest))
                                  then zero_snapshot else e_Target e in
                    let applied := match content_sha256 (inv d) !! (policy, version) with
                                   | None => zero_snapshot
                                   | Some x => if bool_decide (Digest applied = x) then applied else zero_snapshot
                                   end in
                    match certificate_of d (EngineID e) row with
                    | None => Ok (Some (set_member e true del mgmt applied target until))
                    | Some c =>
                        let until := if negb (IsZero (not_after c)) && Before (not_after c) until
                                     then not_after c else until in
                        Ok (Some (set_member e (rev || negb (cert_ok c now)) del mgmt applied target until))
                    end
              end
          end
  end.
Fixpoint validate_all (d : fdb Fleet) (g : Group) (es : list MemberEvidence) (now maxAge : Z)
    : res ferr (option (list MemberEvidence)) :=
  match es with
  | [] => Ok (Some [])
  | e :: es =>
      o ← validate_member d g e now maxAge;
      match o with
      | None => Ok None
      | Some e' =>
          o ← validate_all d g es now maxAge;
          Ok (match o with Some es' => Some (e' :: es') | None => None end)
      end
  end.
(** A nil slice is the empty list. *)
Definition validateInventory (d : fdb Fleet) (g : Group) (input : list MemberEvidence) (now maxAge : Z)
    : res ferr (list MemberEvidence) :=
  if negb (len input =? 2) then Ok []
  else o ← validate_all d g input now maxAge; Ok (match o with Some es => es | None => [] end).

(** ** Publishing *)
Definition sourceIncarnation (d : fdb Fleet) (su : bytes) : res ferr uuid :=
  match filter (is_source (inv d) su Collector) (sources (inv d)) with
  | s :: _ => Ok (incarnation s)
  | [] => Err ErrUnauthorized
  end.
Definition set_sequence (p : publisher) (n : Z) : publisher := mkPublisher (pub_token p) n.

(** The first transaction: claim the sequence number and drop the previous publication. *)
Definition claim (d : fdb Fleet) (su : bytes) (t : PublisherToken) (seq : Z) : res ferr (fdb Fleet * (uuid * Group)) :=
  source ← sourceIncarnation d su;
  g ← lockPublisher d t;
  match publishers d !! g_ID g with
  | Some p =>
      if sequence p <? seq then
        let d := set_publishers d (<[g_ID g := set_sequence p seq]> (publishers d)) in
        Ok (set_publications d (delete (g_ID g) (publications d)), (source, g))
      else Err ErrConflict
  | None => Err ErrConflict
  end.

Record publicationDecision := mkDecision { d_group : Group; d_evidence : list MemberEvidence; d_now : Z }.

(** The second transaction; [now1] and [now2] are its two readings of the database clock. *)
Definition publish (d : fdb Fleet) (su : bytes) (t : PublisherToken) (seq : Z) (source : uuid) (start maxAge : Z)
    (es : list MemberEvidence) (now1 now2 : Z) : res ferr (fdb Fleet * publicationDecision) :=
  authorized ← sourceIncarnation d su;
  if negb (authorized =? source) then Err ErrUnauthorized
  else
    g ← lockPublisher d t;
    match publishers d !! g_ID g with
    | None => Err NoRows
    | Some p =>
        if negb (seq =? sequence p) then Err ErrConflict
        else
          let es := if freshEligibility start now1 maxAge then es else [] in
          es ← validateInventory d g es now1 maxAge;
          let es := if freshEligibility start now2 maxAge then es else [] in
          let ms := Z.quot maxAge millisecond in
          let row := mkPublication (Generation g) source ms (Epoch t) seq es (to_pg start) (to_pg (start + maxAge)) in
          if (ms <? 1) || (30000 <? ms) || (expires_at row <=? collected_at row) then Err (Pg CheckViolation)
          else
            let d := set_publications d (<[g_ID g := row]> (publications d)) in
            let d := set_publishers d (<[g_ID g := set_sequence p seq]> (publishers d)) in
            Ok (d, mkDecision g es now2)
    end.

(** What becomes of a transaction's commit: acknowledged, or lost with or without effect. *)
Inductive commit : Type := Acknowledged | LostCommitted | LostAborted.
Definition settle {A} (c : commit) (d : fdb Fleet) (r : res ferr (fdb Fleet * A)) : fdb Fleet * res ferr A :=
  match r, c with
  | Ok (d', a), Acknowledged => (d', Ok a)
  | Ok (d', _), LostCommitted => (d', Err Ambiguous)
  | Ok _, LostAborted => (d, Err Ambiguous)
  | Err e, _ => (d, Err e)
  | Panic, _ => (d, Panic)
  | Fuel, _ => (d, Fuel)
  end.

(** The outside of one call: the clock at the start, the commits, whether a context ended at its
    three checks, the collector ([None]: it failed), what other transactions did in between, the
    database clock of the second transaction and the time its end took. *)
Record outside := mkOutside {
  o_start : Z; commit1 : commit; ended1 : bool;
  collect : Group → Z → option (list MemberEvidence); ended_collect : bool;
  between : fdb Fleet → fdb Fleet;
  o_now1 : Z; o_now2 : Z; commit2 : commit; ended2 : bool; since : Z }.

Definition empty : Eligibility := Evaluate zero_group [] zero_time 0.

Definition CollectAndPublish (d : fdb Fleet) (su : bytes) (t : PublisherToken) (seq maxAge : Z) (o : outside)
    : fdb Fleet * (Eligibility * option ferr) :=
  if (seq <=? 0) || (maxAge <? millisecond) || (30 * second <? maxAge) then (d, (empty, Some ErrInvalid))
  else
    let '(d1, r1) := settle (commit1 o) d (claim d su t seq) in
    match r1 with
    | Ok (source, g) =>
        if ended1 o then (d1, (empty, Some Cancelled))
        else
          let collected := if ended_collect o then None else collect o g maxAge in
          let collectErr := match collected with Some _ => None | None => Some LoadFailed end in
          let es := match collected with Some es => es | None => [] end in
          let d2 := between o d1 in
          let '(d3, r2) := settle (commit2 o) d2 (publish d2 su t seq source (o_start o) maxAge es (o_now1 o) (o_now2 o)) in
          match r2 with
          | Ok dec =>
              if ended2 o then (d3, (empty, Some Cancelled))
              else
                let now := d_now dec + since o in
                let es := if negb (Before now (o_start o + maxAge)) || negb (freshEligibility (o_start o) now maxAge)
                          then [] else d_evidence dec in
                (d3, (Evaluate (d_group dec) es now maxAge, collectErr))
          | Err e => (d3, (empty, Some e))
          | Panic | Fuel => (d3, (empty, None))
          end
    | Err e => (d1, (empty, Some e))
    | Panic | Fuel => (d1, (empty, None))
    end.

(** ** The checked read *)
(** The row the query joins: the publication with the publisher it was made by and a source that is
    still authorised. *)
Definition current_publication (d : fdb Fleet) (g : Group) : option publication :=
  match publications d !! g_ID g, publishers d !! g_ID g with
  | Some p, Some o =>
      if bool_decide (Epoch (pub_token o) = pn_epoch p ∧ sequence o = pn_sequence p ∧
           t_Generation (pub_token o) = pn_generation p ∧ pn_generation p = Generation g ∧
           Exists (λ s, incarnation s = source_incarnation p ∧ purpose s = Collector ∧
                        (role_oid s, role_name s) ∈ roles (inv d)) (sources (inv d)))
      then Some p else None
  | _, _ => None
  end.
(** [wall] is the time of the evaluation of an empty pool; [now1], [now2] the readings of the
    database clock, [since] the time after the second, [ended] whether the context ended. *)
Definition ReadPublished (d : fdb Fleet) (id : uuid) (wall now1 now2 since_ : Z) (ended : bool)
    : Eligibility * option ferr :=
  match groups d !! id with
  | None => (empty, Some ErrNotFound)
  | Some g =>
      let empty := Evaluate g [] wall second in
      match current_publication d g with
      | None => (empty, None)
      | Some p =>
          let maxAge := i64 (max_age_ms p * millisecond) in
          let stale now := negb (Before now (expires_at p)) || negb (freshEligibility (collected_at p) now maxAge) in
          if stale now1 then (empty, None)
          else match validateInventory d g (evidence p) now1 maxAge with
          | Ok es =>
              if stale now2 then (empty, None)
              else if ended then (empty, Some Cancelled)
              else if stale (now2 + since_) then (empty, None)
              else (Evaluate g es (now2 + since_) maxAge, None)
          | Err e => (empty, Some e)
          | Panic | Fuel => (empty, None)
          end
      end
  end.
End publish.
