(* ===== verification/FailoverSafety.v ===== *)
(** * Safety of failover groups

    The operations of [FailoverStore] and [FailoverPublish] as steps of one system that any number of
    callers share, its invariant, and what it keeps safe: addresses and engines are never shared,
    reservations outlive everything but a verified withdrawal, and stale tokens stay dead. *)

From S2P Require Import Prelude.
From S2P Require Import GoText.
From S2P Require Import Effects.
From S2P Require Import FailoverEligibility.
From S2P Require Import FailoverStore.
From S2P Require Import FailoverPublish.

Section safety.
Context {Fleet Snapshot : Type}.
Context (uuid_Parse : bytes → option uuid) (uuid_String : uuid → bytes).
Context (TargetFor : fdb Fleet → uuid → res ferr (Target Snapshot)) (ContentDigest : Snapshot → res ferr bytes).
Context (sha256 : bytes → bytes).

Abbreviation Publish := (publish uuid_Parse uuid_String TargetFor ContentDigest).
Abbreviation Withdraw := (CompleteWithdrawal sha256).
Implicit Types d : fdb Fleet.

(** ** The system *)
(** What a step shows to the outside: a token handed out, a withdrawal accepted by a verifier. *)
Inductive event : Type :=
| Issued (t : PublisherToken)
| WithdrawnWith (v : WithdrawalScope → bytes → bool) (s : WithdrawalScope) (proof : bytes)
| Quiet.

Inductive step : fdb Fleet → event → fdb Fleet → Prop :=
| step_create d g id now d' g' : Create d g id now = Ok (d', g') → step d Quiet d'
| step_update d g expected now d' g' : Update d g expected now = Ok (d', g') → step d Quiet d'
| step_transition d id expected next now d' g' : transition d id expected next now = Ok (d', g') → step d Quiet d'
| step_rotate d su id generation epoch owner session d' t :
    RotatePublisher d su id generation epoch owner session = Ok (d', t) → step d (Issued t) d'
| step_withdraw d su t proof v now d' g g' :
    lockPublisher d t = Ok g → Withdraw d su t proof (Some v) false now = Ok (d', g') →
    step d (WithdrawnWith v (scope_of d g) proof) d'
| step_claim d su t seq d' r : claim d su t seq = Ok (d', r) → step d Quiet d'
| step_publish d su t seq source start maxAge es now1 now2 d' r :
    Publish d su t seq source start maxAge es now1 now2 = Ok (d', r) → step d Quiet d'
| step_inventory d i : step d Quiet (set_inv d i).

Inductive run : fdb Fleet → list event → fdb Fleet → Prop :=
| run_refl d : run d [] d
| run_step d ev d1 tr d2 : step d ev d1 → run d1 tr d2 → run d (ev :: tr) d2.

(** The tables after the migrations. *)
Definition initial (i : inventory Fleet) : fdb Fleet := mkFdb ∅ ∅ ∅ ∅ ∅ [] ∅ [] i.

Definition issued (tr : list event) : list PublisherToken :=
  omap (λ ev, match ev with Issued t => Some t | _ => None end) tr.

(** ** What writing a group row does *)
Record written d (g : Group) d' : Prop := {
  wr_groups : groups d' = <[g_ID g := g]> (groups d);
  wr_ip_sub : ip_reservations d ⊆ ip_reservations d';
  wr_eng_sub : engine_reservations d ⊆ engine_reservations d';
  wr_ip_new : ∀ ip x, ip_reservations d' !! ip = Some x →
    ip_reservations d !! ip = Some x ∨ (x = g_ID g ∧ ip = FrontendIP g ∧ g_Lifecycle g ≠ Deleted);
  wr_eng_new : ∀ e x, engine_reservations d' !! e = Some x →
    engine_reservations d !! e = Some x ∨ (x = g_ID g ∧ g_Lifecycle g ≠ Deleted);
  wr_ip : g_Lifecycle g ≠ Deleted → ip_reservations d' !! FrontendIP g = Some (g_ID g);
  wr_eng : g_Lifecycle g ≠ Deleted → engine_reservations d' !! (Members g).1 = Some (g_ID g) ∧
    engine_reservations d' !! (Members g).2 = Some (g_ID g);
  wr_rest : members d' = members d ∧ publishers d' = publishers d ∧ history d' = history d ∧
    publications d' = publications d ∧ withdrawals d' = withdrawals d ∧ inv d' = inv d;
  wr_check : group_check g = true;
  wr_name : ¬ live_name_taken d g;
}.

Lemma reserve_ip_Ok d ip g d' : reserve_ip d ip g = Ok d' →
  d' = set_ip d (<[ip := g]> (ip_reservations d)) ∧
  (ip_reservations d !! ip = None ∨ ip_reservations d !! ip = Some g).
Proof.
  unfold reserve_ip. destruct (ip_reservations d !! ip) as [h|] eqn:E.
  - destruct (Z.eqb_spec h g) as [->|]; [|done]. intros [= <-]. split; [|by right].
    rewrite insert_id by done. by destruct d.
  - case_decide; [done|]. intros [= <-]. auto.
Qed.
Lemma reserve_engine_Ok d e g d' : reserve_engine d e g = Ok d' →
  d' = set_eng d (<[e := g]> (engine_reservations d)) ∧
  (engine_reservations d !! e = None ∨ engine_reservations d !! e = Some g).
Proof.
  unfold reserve_engine. destruct (engine_reservations d !! e) as [h|] eqn:E.
  - destruct (Z.eqb_spec h g) as [->|]; [|done]. intros [= <-]. split; [|by right].
    rewrite insert_id by done. by destruct d.
  - intros [= <-]. auto.
Qed.
Lemma insert_keeps {K A} `{Countable K} (m : gmap K A) k x :
  m !! k = None ∨ m !! k = Some x → m ⊆ <[k := x]> m.
Proof. intros [?|?]; [by apply insert_subseteq|by rewrite insert_id]. Qed.

Lemma write_group_Ok d old g d' : write_group d old g = Ok d' → written d g d'.
Proof.
  unfold write_group. destruct (group_check g) eqn:Ec; simpl; [|done]. destruct (_ || _); [done|].
  destruct (decide (live_name_taken d g)) as [|Hn]; [done|]. unfold failover_reserve.
  destruct (match old with Some _ => _ | None => _ end); [done|]. case_bool_decide as Hl.
  { intros [= <-]. split; try done; simpl; auto. }
  intros (d1 & [-> H1]%reserve_ip_Ok & (d2 & [-> H2]%reserve_engine_Ok & [-> H3]%reserve_engine_Ok)%bind_Ok)%bind_Ok.
  simpl in *. pose proof (insert_keeps _ _ _ H2) as S2. pose proof (insert_keeps _ _ _ H3) as S3.
  split; simpl; try done.
  - by apply insert_keeps.
  - by etrans.
  - intros ip x. rewrite lookup_insert_Some. intuition congruence.
  - intros e x. rewrite !lookup_insert_Some. intuition congruence.
  - intros _. apply lookup_insert_eq.
  - intros _. split; [|apply lookup_insert_eq]. eapply lookup_weaken; [apply lookup_insert_eq|exact S3].
Qed.

(** ** What each operation does to a group *)
Definition successor (o g : Group) : Prop :=
  g_ID g = g_ID o ∧ FrontendIP g = FrontendIP o ∧ Generation g = Generation o + 1.
(** The changes of desired state. *)
Inductive edge : Lifecycle → Lifecycle → Prop :=
| edge_edit l : l = Active ∨ l = Withdrawn → edge l l
| edge_drain l : l = Active ∨ l = Withdrawn → edge l Draining
| edge_delete l : l = Active ∨ l = Draining ∨ l = Withdrawn → edge l Deleting
| edge_resume : edge Withdrawn Active.
(** The changes only a withdrawal makes. *)
Definition withdrawn_to (l : Lifecycle) : Lifecycle := if bool_decide (l = Deleting) then Deleted else Withdrawn.

(** [row] replaces the row of its group, or starts a group; [d1] has the row and its reservations. *)
Record desired_change d d1 d' (row : Group) : Prop := {
  dc_written : written d row d1;
  dc_after : ∃ m, d' = set_members d1 m;
  dc_old : match groups d !! g_ID row with
           | None => Generation row = 1 ∧ g_Lifecycle row = Active
           | Some o => g_ID o = g_ID row → successor o row ∧ edge (g_Lifecycle o) (g_Lifecycle row) ∧
                       (sameMembers (Members o) (Members row) = true ∨ g_Lifecycle row = Draining)
           end;
}.

Lemma lock_Ok d id expected g : lock d id expected = Ok g →
  groups d !! id = Some g ∧ Generation g = expected ∧ 0 < expected.
Proof.
  unfold lock. destruct (groups d !! id); [|done]. destruct (_ || _) eqn:E; [done|]. intros [= <-].
  apply orb_false_iff in E as [?%Z.leb_gt ?%negb_false_iff%Z.eqb_eq]. auto.
Qed.
Lemma mapErr_Ok {A} (m : res ferr A) a : mapErr m = Ok a → m = Ok a.
Proof. by destruct m. Qed.
Lemma insertMembers_Ok d g d' : insertMembers d g = Ok d' → ∃ m, d' = set_members d m.
Proof. unfold insertMembers. case_bool_decide; [done|]. intros [= <-]. eauto. Qed.

Lemma Create_change d g id now d' g' : Create d g id now = Ok (d', g') → ∃ d1 row, desired_change d d1 d' row.
Proof.
  unfold Create. destruct (Validate g); simpl; [|done]. intros (_ & _ & H)%bind_Ok.
  apply bind_Ok in H as (d1 & H1%mapErr_Ok & (d2 & [m ->]%insertMembers_Ok & (? & _ & [= <- _])%bind_Ok)%bind_Ok).
  set (row := mkGroup id _ _ _ _ _ _ _) in *. exists d1, row.
  destruct (groups d !! id) eqn:E; [done|]. apply write_group_Ok in H1.
  split; [done|by exists m|]. change (g_ID row) with id. by rewrite E.
Qed.
Lemma Update_change d g expected now d' g' : Update d g expected now = Ok (d', g') → ∃ d1 row, desired_change d d1 d' row.
Proof.
  unfold Update. destruct (Validate g); simpl; [|done]. intros (o & (Ho & Hg & Hp)%lock_Ok & H)%bind_Ok.
  destruct (_ && _) eqn:El; [done|]. destruct (negb (bool_decide (FrontendIP o = _))) eqn:Ei; [done|].
  apply bind_Ok in H as (_ & _ & (d1 & H1%mapErr_Ok & (d2 & [m ->]%insertMembers_Ok & (? & _ & [= <- _])%bind_Ok)%bind_Ok)%bind_Ok).
  set (row := mkGroup _ _ _ _ _ _ _ _) in *. exists d1, row. apply write_group_Ok in H1.
  split; [done|by exists m|]. change (g_ID row) with (g_ID g). rewrite Ho. intros Hid.
  rewrite andb_false_iff, !negb_false_iff, !bool_decide_eq_true in El.
  split; [done|]. unfold row. simpl. destruct (sameMembers (Members o) (Members g)); [by split; [apply edge_edit|left]|].
  split; [by apply edge_drain|by right].
Qed.
Lemma transition_change d id expected next now d' g' : transition d id expected next now = Ok (d', g') →
  (∀ o, groups d !! id = Some o → g_ID o = id) → ∃ d1 row, desired_change d d1 d' row.
Proof.
  unfold transition. intros (o & (Ho & Hg & Hp)%lock_Ok & H)%bind_Ok Hid. specialize (Hid o Ho).
  destruct (match next with Unset => _ | _ => _ end) eqn:El; [|done].
  apply bind_Ok in H as (d1 & H1%mapErr_Ok%write_group_Ok & (? & _ & [= <- _])%bind_Ok).
  exists d1, (with_lifecycle o next now). split; [done|exists (members d1); by destruct d1|].
  simpl. rewrite Hid, Ho. intros _. split; [done|]. split; [|left; unfold sameMembers; by rewrite bool_decide_eq_true_2].
  destruct next; try done; rewrite ?orb_true_iff, ?bool_decide_eq_true in El.
  - rewrite El. constructor.
  - rewrite El. apply edge_drain. auto.
  - apply edge_delete. tauto.
Qed.

(** [g] is withdrawn with the receipt [w]; [d1] has its new row. *)
Record withdrawal_change d d1 d' (g : Group) (w : withdrawal) (now : Z) : Prop := {
  wc_next : g_Lifecycle g = Draining ∨ g_Lifecycle g = Deleting;
  wc_receipt : w_group w = g_ID g ∧ w_generation w = Generation g;
  wc_written : written (set_withdrawals d (withdrawals d ++ [w]))
                 (with_lifecycle g (withdrawn_to (g_Lifecycle g)) now) d1;
  wc_tables : ∃ er ir, d' = set_ip (set_eng d1 er) ir;
  wc_eng : ∀ e x, engine_reservations d' !! e = Some x ↔ engine_reservations d1 !! e = Some x ∧
    ¬ (x = g_ID g ∧ (g_Lifecycle g = Deleting ∨ (e ≠ (Members g).1 ∧ e ≠ (Members g).2)));
  wc_ip : ∀ ip x, ip_reservations d' !! ip = Some x ↔ ip_reservations d1 !! ip = Some x ∧
    ¬ (x = g_ID g ∧ g_Lifecycle g = Deleting);
}.

Lemma release_engines_Ok d su g all d' : release_engines d su g all = Ok d' →
  (∃ er, d' = set_eng d er) ∧
  ∀ e x, engine_reservations d' !! e = Some x ↔ engine_reservations d !! e = Some x ∧
    ¬ (x = g_ID g ∧ (all = true ∨ (e ≠ (Members g).1 ∧ e ≠ (Members g).2))).
Proof.
  unfold release_engines. destruct (decide (map_Exists _ _)) as [_|Hn].
  - destruct (release_allowed _ _ _); [|done]. intros [= <-]. split; [by eexists|]. intros e x. simpl.
    by rewrite map_lookup_filter_Some.
  - intros [= <-]. split; [exists (engine_reservations d); by destruct d|]. intros e x.
    split; [|by intros []]. intros He. split; [done|]. intros Hg. apply Hn. by exists e, x.
Qed.
Lemma release_ip_Ok d su g d' : release_ip d su g = Ok d' →
  (∃ ir, d' = set_ip d ir) ∧
  ∀ ip x, ip_reservations d' !! ip = Some x ↔ ip_reservations d !! ip = Some x ∧ x ≠ g_ID g.
Proof.
  unfold release_ip. destruct (decide (map_Exists _ _)) as [_|Hn].
  - destruct (release_allowed _ _ _); [|done]. intros [= <-]. split; [by eexists|]. intros e x. simpl.
    by rewrite map_lookup_filter_Some.
  - intros [= <-]. split; [exists (ip_reservations d); by destruct d|]. intros e x.
    split; [|by intros []]. intros He. split; [done|]. intros ->. apply Hn. by exists e, (g_ID g).
Qed.
Lemma Withdraw_change d su t proof v c now d' r g :
  Withdraw d su t proof v c now = Ok (d', r) → lockPublisher d t = Ok g →
  (∃ verify, v = Some verify ∧ verify (scope_of d g) proof = true) ∧
  ∃ d1 w, withdrawal_change d d1 d' g w now.
Proof.
  unfold CompleteWithdrawal. destruct v as [verify|]; [|done]. destruct (_ || _); [done|].
  intros (_ & _ & (g1 & Hg & H)%bind_Ok)%bind_Ok Hg'. rewrite Hg in Hg'. injection Hg' as ->.
  destruct (_ && _) eqn:El; [done|]. destruct (verify _ _) eqn:Ev; simpl in H; [|done].
  destruct c; [done|]. split; [by exists verify|]. case_bool_decide; [done|].
  set (w := mkWithdrawal _ _ _ _) in H. fold (withdrawn_to (g_Lifecycle g)) in H.
  apply bind_Ok in H as (d1 & Hw%write_group_Ok & (d2 & [[er ->] He]%release_engines_Ok & (d3 & Hip & (g2 & _ & [= <- _])%bind_Ok)%bind_Ok)%bind_Ok).
  rewrite andb_false_iff, !negb_false_iff, !bool_decide_eq_true in El. exists d1, w.
  assert (bool_decide (withdrawn_to (g_Lifecycle g) = Deleted) = true ↔ g_Lifecycle g = Deleting) as Hd.
  { rewrite bool_decide_eq_true. by destruct (g_Lifecycle g). }
  assert ((∃ er0 ir, d3 = set_ip (set_eng d1 er0) ir) ∧
    engine_reservations d3 = er ∧
    ∀ ip x, ip_reservations d3 !! ip = Some x ↔ ip_reservations d1 !! ip = Some x ∧ ¬ (x = g_ID g ∧ g_Lifecycle g = Deleting))
    as (H3 & <- & H5).
  { destruct (bool_decide (withdrawn_to _ = _)).
    - apply release_ip_Ok in Hip as [[ir ->] Hi]. split; [by eexists _, _|]. split; [done|]. intros ip y.
      rewrite Hi. simpl. tauto.
    - injection Hip as <-. split; [exists er, (ip_reservations d1); by destruct d1|]. split; [done|].
      intros ip y. simpl. intuition congruence. }
  split; try done. intros e y. rewrite He. simpl. rewrite Hd. done.
Qed.

(** ** Steps by what they do *)
Definition of_group (id : uuid) (t : PublisherToken) : Prop := t_GroupID t = id.
#[local] Instance of_group_dec id t : Decision (of_group id t).
Proof. unfold of_group. apply _. Defined.

Inductive astep d : event → fdb Fleet → Prop :=
| as_desired d1 d' row : desired_change d d1 d' row → astep d Quiet d'
| as_withdraw v proof t g d1 d' w now :
    lockPublisher d t = Ok g → v (scope_of d g) proof = true → withdrawal_change d d1 d' g w now →
    astep d (WithdrawnWith v (scope_of d g) proof) d'
| as_rotate t g :
    groups d !! t_GroupID t = Some g → Generation g = t_Generation t → 0 < Epoch t →
    Epoch t = match publishers d !! t_GroupID t with Some p => Epoch (pub_token p) | None => 0 end + 1 →
    (∀ h, h ∈ history d → Session h ≠ Session t) →
    astep d (Issued t) (set_history (set_publishers d (<[t_GroupID t := mkPublisher t 0]> (publishers d))) (history d ++ [t]))
| as_report id p seq pn d' :
    publishers d !! id = Some p → sequence p ≤ seq →
    (∀ row, pn = Some row → pn_epoch row = Epoch (pub_token p) ∧ pn_sequence row = seq ∧ 1 ≤ max_age_ms row ≤ 30000) →
    d' = set_publications (set_publishers d (<[id := set_sequence p seq]> (publishers d)))
           (partial_alter (λ _, pn) id (publications d)) →
    astep d Quiet d'
| as_inventory i : astep d Quiet (set_inv d i).

Lemma lockPublisher_Ok d t g : lockPublisher d t = Ok g ↔
  groups d !! t_GroupID t = Some g ∧ Generation g = t_Generation t ∧ 0 < t_Generation t ∧ Session t ≠ Nil ∧
  ∃ p, publishers d !! t_GroupID t = Some p ∧ t_Generation (pub_token p) = t_Generation t ∧
       Epoch (pub_token p) = Epoch t ∧ t_Owner (pub_token p) = t_Owner t ∧ Session (pub_token p) = Session t.
Proof.
  unfold lockPublisher. split.
  - intros (g0 & (Hg & Hgen & Hpos)%lock_Ok & H)%bind_Ok. destruct (publishers d !! _) as [p|]; [|done].
    destruct (_ || _) eqn:E; [done|]. injection H as ->.
    rewrite !orb_false_iff, !negb_false_iff, !Z.eqb_eq, Z.eqb_neq in E. destruct E as ((((E1 & E2) & E3) & E4) & E5).
    split_and!; try congruence. by exists p.
  - intros (Hg & Hgen & Hpos & Hs & p & -> & E1 & E2 & E3 & E4). unfold lock. rewrite Hg, Hgen, Z.eqb_refl.
    rewrite (proj2 (Z.leb_gt _ _)) by done. simpl. rewrite E1, E2, E3, E4, !Z.eqb_refl. simpl.
    by rewrite (proj2 (Z.eqb_neq _ _)).
Qed.

Lemma step_astep d ev d' : step d ev d' → (∀ id o, groups d !! id = Some o → g_ID o = id) → astep d ev d'.
Proof.
  intros Hs Hid. destruct Hs as [d g id now d' g' H|d g expected now d' g' H|d id expected next now d' g' H
    |d su id gen epoch owner session d' t H|d su t proof v now d' g g' Hl H|d su t seq d' r H
    |d su t seq source start maxAge es now1 now2 d' r H|d i].
  - apply Create_change in H as (d1 & row & H). by eapply as_desired.
  - apply Update_change in H as (d1 & row & H). by eapply as_desired.
  - apply transition_change in H as (d1 & row & H); [by eapply as_desired|eauto].
  - unfold RotatePublisher in H. apply bind_Ok in H as (_ & _ & (g & (Hg & Hgen & Hpos)%lock_Ok & H)%bind_Ok).
    destruct (_ || _); [done|]. destruct (negb _) eqn:Ee; [done|].
    destruct (bool_decide (map_Exists _ _) || bool_decide _) eqn:Eu; [done|].
    destruct ((_ <=? 0) || (gen <=? 0)) eqn:Ec; [done|].
    injection H as <- <-. apply orb_false_iff in Eu as [_ Eu%bool_decide_eq_false].
    apply orb_false_iff in Ec as [Ec%Z.leb_gt _]. apply (as_rotate d (mkToken _ _ _ _ _) g); try done.
    intros h Hh Hs. apply Eu, Exists_exists. exists h. split; [done|by left].
  - destruct (Withdraw_change _ _ _ _ _ _ _ _ _ _ H Hl) as ((v' & [= <-] & Hv) & d1 & w & Hc).
    by eapply as_withdraw.
  - unfold claim in H. apply bind_Ok in H as (source & _ & (g & Hg & H)%bind_Ok).
    destruct (publishers d !! g_ID g) as [p|] eqn:Ep; [|done]. destruct (Z.ltb_spec (sequence p) seq); [|done].
    injection H as <- _. eapply (as_report d (g_ID g) p seq None); [done|lia|done|done].
  - unfold publish in H. apply bind_Ok in H as (source' & _ & H). destruct (negb _); [done|].
    apply bind_Ok in H as (g & Hg & H). destruct (publishers d !! g_ID g) as [p|] eqn:Ep; [|done].
    destruct (negb _) eqn:Eseq; [done|]. apply negb_false_iff, Z.eqb_eq in Eseq.
    apply bind_Ok in H as (es' & _ & H). destruct (_ || _) eqn:Ec; [done|]. injection H as <- _.
    apply orb_false_iff in Ec as [[?%Z.ltb_ge ?%Z.ltb_ge]%orb_false_iff _].
    apply lockPublisher_Ok in Hg as (Hg & _ & _ & _ & q & Hq & _ & He & _).
    rewrite (Hid _ _ Hg) in Ep. assert (q = p) as -> by congruence.
    eapply (as_report d (g_ID g) p seq (Some _)); [by rewrite (Hid _ _ Hg)|lia| |done].
    intros row [= <-]. done.
  - apply as_inventory.
Qed.

(** ** The invariant *)
Definition reserved d (g : Group) : Prop :=
  ip_reservations d !! FrontendIP g = Some (g_ID g) ∧
  engine_reservations d !! (Members g).1 = Some (g_ID g) ∧ engine_reservations d !! (Members g).2 = Some (g_ID g).

Record groups_inv d : Prop := {
  gi_id : ∀ id g, groups d !! id = Some g → g_ID g = id;
  gi_gen : ∀ id g, groups d !! id = Some g → 0 < Generation g;
  gi_set : ∀ id g, groups d !! id = Some g → g_Lifecycle g ≠ Unset;
  gi_live : ∀ id g, groups d !! id = Some g → g_Lifecycle g ≠ Deleted → reserved d g;
  gi_name : ∀ id g id' g', groups d !! id = Some g → groups d !! id' = Some g' → id ≠ id' →
    g_Lifecycle g ≠ Deleted → g_Lifecycle g' ≠ Deleted → Name g ≠ Name g';
  gi_ip : ∀ ip x, ip_reservations d !! ip = Some x →
    ∃ g, groups d !! x = Some g ∧ FrontendIP g = ip ∧ g_Lifecycle g ≠ Deleted;
  gi_eng : ∀ e x, engine_reservations d !! e = Some x → ∃ g, groups d !! x = Some g ∧ g_Lifecycle g ≠ Deleted;
  gi_receipt : ∀ id g, groups d !! id = Some g → g_Lifecycle g = Deleted →
    Exists (λ w, w_group w = id ∧ w_generation w = Generation g - 1) (withdrawals d);
}.
Record tokens_inv d : Prop := {
  ti_pub : ∀ id p, publishers d !! id = Some p → last (filter (of_group id) (history d)) = Some (pub_token p);
  ti_none : ∀ id, publishers d !! id = None → filter (of_group id) (history d) = [];
  ti_epoch : ∀ t p, t ∈ history d → publishers d !! t_GroupID t = Some p → Epoch t ≤ Epoch (pub_token p);
  ti_gen : ∀ t, t ∈ history d → ∃ g, groups d !! t_GroupID t = Some g ∧ t_Generation t ≤ Generation g;
  ti_session : NoDup (map Session (history d));
}.

Lemma check_row g : group_check g = true → 0 < Generation g ∧ g_Lifecycle g ≠ Unset.
Proof.
  unfold group_check. rewrite !andb_true_iff, negb_true_iff, Z.ltb_lt, negb_true_iff, bool_decide_eq_false. tauto.
Qed.
Lemma gi_other d d1 id g row : groups_inv d → written d row d1 → groups d !! id = Some g → id ≠ g_ID row →
  g_Lifecycle g ≠ Deleted → reserved d1 g.
Proof.
  intros HI Hw Hg Hne Hl. destruct (gi_live d HI id g Hg Hl) as (H1 & H2 & H3).
  split_and!; (eapply lookup_weaken; [done|apply Hw]).
Qed.
Lemma old_not_deleted d d1 d' row : groups_inv d → desired_change d d1 d' row →
  g_Lifecycle row ≠ Deleted ∧ ∀ o, groups d !! g_ID row = Some o →
    successor o row ∧ edge (g_Lifecycle o) (g_Lifecycle row) ∧ g_Lifecycle o ≠ Deleted.
Proof.
  intros HI Hc. pose proof (dc_old _ _ _ _ Hc) as Ho.
  destruct (groups d !! g_ID row) as [o|] eqn:E; [|split; [destruct Ho; congruence|done]].
  destruct (Ho (gi_id d HI _ _ E)) as (Hs & He & _).
  split; [destruct He; intuition congruence|]. intros o' [= <-]. split; [done|]. split; [done|].
  destruct He; intuition congruence.
Qed.

Lemma desired_groups_inv d d1 d' row : groups_inv d → desired_change d d1 d' row → groups_inv d'.
Proof.
  intros HI Hc. destruct (old_not_deleted _ _ _ _ HI Hc) as [Hl Hold].
  destruct Hc as [Hw [m ->] Ho]. pose proof (wr_groups _ _ _ Hw) as Eg.
  destruct (wr_rest _ _ _ Hw) as (_ & _ & _ & _ & Ew & _).
  split; cbn [set_members groups ip_reservations engine_reservations withdrawals].
  - intros id g. rewrite Eg, lookup_insert_Some. intros [[<- <-]|[_ ?]]; [done|by eapply gi_id].
  - intros id g. rewrite Eg, lookup_insert_Some. intros [[<- <-]|[_ ?]]; [|by eapply gi_gen].
    by apply (check_row row), Hw.
  - intros id g. rewrite Eg, lookup_insert_Some. intros [[<- <-]|[_ ?]]; [|by eapply gi_set].
    by apply (check_row row), Hw.
  - intros id g. rewrite Eg, lookup_insert_Some. intros [[<- <-]|[Hne Hg]] Hd.
    + split; [by apply Hw|by apply Hw].
    + apply (gi_other d d1 id g row); done.
  - pose proof (wr_name _ _ _ Hw) as Hn.
    intros id g id' g'. rewrite Eg, !lookup_insert_Some.
    intros [[<- <-]|[Hne Hg]] [[<- <-]|[Hne' Hg']] Hids Hd Hd'; [done| | |by eapply (gi_name d HI id g id')].
    + intros E. apply Hn. split; [done|]. by exists id', g'.
    + intros E. apply Hn. split; [done|]. by exists id, g.
  - intros ip x [H|(-> & -> & _)]%(wr_ip_new _ _ _ Hw).
    + destruct (gi_ip d HI ip x H) as (g & Hg & Hip & Hd). rewrite Eg.
      destruct (decide (x = g_ID row)) as [->|]; [|exists g; by rewrite lookup_insert_ne].
      exists row. rewrite lookup_insert_eq. destruct (Hold g Hg) as ((_ & Hf & _) & _). split; [done|]. by rewrite Hf.
    + exists row. rewrite Eg. by rewrite lookup_insert_eq.
  - intros e x [H|(-> & _)]%(wr_eng_new _ _ _ Hw).
    + destruct (gi_eng d HI e x H) as (g & Hg & Hd). rewrite Eg.
      destruct (decide (x = g_ID row)) as [->|]; [exists row; by rewrite lookup_insert_eq|exists g; by rewrite lookup_insert_ne].
    + exists row. rewrite Eg. by rewrite lookup_insert_eq.
  - intros id g. rewrite Eg, lookup_insert_Some, Ew. intros [[<- <-]|[_ Hg]] Hd; [done|by eapply gi_receipt].
Qed.

Lemma withdrawn_to_cases l : l = Draining ∨ l = Deleting →
  (l = Deleting ∧ withdrawn_to l = Deleted) ∨ (l = Draining ∧ withdrawn_to l = Withdrawn).
Proof. intros [-> | ->]; auto. Qed.

Lemma withdraw_groups_inv d d1 d' g w now : groups_inv d → groups d !! g_ID g = Some g →
  withdrawal_change d d1 d' g w now → groups_inv d'.
Proof.
  intros HI Hg Hc. destruct Hc as [Hn [Hw1 Hw2] Hw [er [ir ->]] He Hi].
  set (row := with_lifecycle g _ now) in *. pose proof (wr_groups _ _ _ Hw) as Eg. cbn [groups set_withdrawals] in Eg.
  change (g_ID row) with (g_ID g) in Eg. destruct (wr_rest _ _ _ Hw) as (_ & _ & _ & _ & Ew & _).
  assert (g_Lifecycle row = withdrawn_to (g_Lifecycle g)) as Er by done.
  pose proof (withdrawn_to_cases _ Hn) as Hcase. rewrite <- Er in Hcase. clear Er Hn.
  pose proof (gi_live d HI _ _ Hg ltac:(destruct Hcase as [[-> _]|[-> _]]; done)) as (R1 & R2 & R3).
  assert (∀ ip x, ip_reservations d !! ip = Some x → ip_reservations d1 !! ip = Some x) as Kip.
  { intros. eapply lookup_weaken; [done|apply Hw]. }
  assert (∀ e x, engine_reservations d !! e = Some x → engine_reservations d1 !! e = Some x) as Keng.
  { intros. eapply lookup_weaken; [done|apply Hw]. }
  assert (∀ ip x, ip_reservations d1 !! ip = Some x → ip_reservations d !! ip = Some x) as Bip.
  { intros ip x [?|(-> & -> & _)]%(wr_ip_new _ _ _ Hw); done. }
  split; cbn [set_ip set_eng groups withdrawals]; rewrite Eg.
  - intros id x. rewrite lookup_insert_Some. intros [[<- <-]|[_ ?]]; [done|by eapply gi_id].
  - intros id x. rewrite lookup_insert_Some. intros [[<- <-]|[_ ?]]; [|by eapply gi_gen].
    by apply (check_row row), Hw.
  - intros id x. rewrite lookup_insert_Some. intros [[<- <-]|[_ ?]]; [|by eapply gi_set].
    by apply (check_row row), Hw.
  - intros id x. rewrite lookup_insert_Some. intros [[<- <-]|[Hne Hx]] Hd; unfold reserved; rewrite !He, !Hi.
    + split_and!; try (apply Kip || apply Keng; done); intuition congruence.
    + destruct (gi_live d HI id x Hx Hd) as (H1 & H2 & H3). rewrite (gi_id d HI _ _ Hx) in *.
      split_and!; try (apply Kip || apply Keng; done); intuition congruence.
  - intros id x id' y. rewrite !lookup_insert_Some.
    intros [[<- <-]|[Hne Hx]] [[<- <-]|[Hne' Hy]] Hids Hd Hd'; [done| | |by eapply (gi_name d HI id x id')].
    + eapply (gi_name d HI (g_ID g) g id' y); try done. destruct Hcase as [[-> _]|[-> _]]; done.
    + eapply (gi_name d HI id x (g_ID g) g); try done. destruct Hcase as [[-> _]|[-> _]]; done.
  - intros ip x [H Hx]%Hi. apply Bip in H. destruct (gi_ip d HI ip x H) as (y & Hy & Hip & Hd).
    destruct (decide (x = g_ID g)) as [->|]; [|exists y; by rewrite lookup_insert_ne].
    exists row. rewrite lookup_insert_eq. assert (y = g) as -> by congruence. split; [done|]. split; [done|].
    intuition congruence.
  - intros e x [H Hx]%He. destruct (decide (x = g_ID g)) as [->|].
    + exists row. rewrite lookup_insert_eq. split; [done|]. intuition congruence.
    + apply (wr_eng_new _ _ _ Hw) in H as [H|[? _]]; [|done].
      destruct (gi_eng d HI e x H) as (y & Hy & Hd). exists y. by rewrite lookup_insert_ne.
  - intros id x. rewrite lookup_insert_Some, Ew. cbn [set_withdrawals withdrawals]. rewrite Exists_app, Exists_cons.
    intros [[<- <-]|[_ Hx]] Hd; [|left; by eapply gi_receipt]. right. left. split; [done|]. simpl. lia.
Qed.

Lemma groups_inv_ext d d' : groups d' = groups d → ip_reservations d' = ip_reservations d →
  engine_reservations d' = engine_reservations d → withdrawals d' = withdrawals d → groups_inv d → groups_inv d'.
Proof. intros E1 E2 E3 E4 [? ? ? ? ? ? ? ?]. unfold reserved in *. split; unfold reserved; rewrite ?E1, ?E2, ?E3, ?E4; done. Qed.

Lemma astep_groups_inv d ev d' : groups_inv d → astep d ev d' → groups_inv d'.
Proof.
  intros HI Hs. destruct Hs as [d1 d' row Hc|v proof t g d1 d' w now Hl _ Hc|t g|id p seq pn d' _ _ _ ->|i].
  - by eapply desired_groups_inv.
  - apply lockPublisher_Ok in Hl as (Hg & _). pose proof (gi_id d HI _ _ Hg) as E. rewrite <- E in Hg.
    by eapply withdraw_groups_inv.
  - by apply (groups_inv_ext d).
  - by apply (groups_inv_ext d).
  - by apply (groups_inv_ext d).
Qed.

(** ** How a group changes *)
Definition group_step d (ev : event) (g g' : Group) : Prop :=
  g' = g ∨
  (successor g g' ∧
    ((ev = Quiet ∧ edge (g_Lifecycle g) (g_Lifecycle g') ∧
      (sameMembers (Members g) (Members g') = true ∨ g_Lifecycle g' = Draining)) ∨
     (∃ v proof, ev = WithdrawnWith v (scope_of d g) proof ∧ v (scope_of d g) proof = true ∧
        (g_Lifecycle g = Draining ∨ g_Lifecycle g = Deleting) ∧ Members g' = Members g ∧
        g_Lifecycle g' = withdrawn_to (g_Lifecycle g)))).

Lemma astep_group d ev d' id g : groups_inv d → astep d ev d' → groups d !! id = Some g →
  ∃ g', groups d' !! id = Some g' ∧ group_step d ev g g'.
Proof.
  intros HI Hs Hg. pose proof (gi_id d HI _ _ Hg) as Eid.
  destruct Hs as [d1 d' row [Hw [m ->] Ho]|v proof t h d1 d' w now Hl Hv [Hn _ Hw [er [ir ->]] _ _]|t h|x p seq pn d' _ _ _ ->|i];
    [| |by exists g; split; [|left]..].
  - cbn [set_members groups]. rewrite (wr_groups _ _ _ Hw). destruct (decide (id = g_ID row)) as [->|Hne].
    + exists row. rewrite lookup_insert_eq. split; [done|]. rewrite Hg in Ho. destruct (Ho Eid) as (Hs & He & Hm).
      right. split; [done|]. by left.
    + exists g. rewrite lookup_insert_ne by done. split; [done|by left].
  - apply lockPublisher_Ok in Hl as (Hh & _). pose proof (gi_id d HI _ _ Hh) as Eh.
    cbn [set_ip set_eng groups]. rewrite (wr_groups _ _ _ Hw). cbn [set_withdrawals groups with_lifecycle g_ID].
    destruct (decide (id = g_ID h)) as [->|Hne].
    + assert (h = g) as -> by congruence. eexists. rewrite lookup_insert_eq. split; [done|]. right.
      split; [done|]. right. by exists v, proof.
    + exists g. rewrite lookup_insert_ne by done. split; [done|by left].
Qed.

(** Steps other than handing out a token keep the tokens. *)
Lemma astep_tokens d ev d' : astep d ev d' →
  (∃ t, ev = Issued t) ∨
  (history d' = history d ∧ ∀ id, pub_token <$> publishers d' !! id = pub_token <$> publishers d !! id).
Proof.
  intros [d1 d'' row [Hw [m ->] _]|v proof t g d1 d'' w now _ _ [_ _ Hw [er [ir ->]] _ _]|t g|id p seq pn d'' Hp _ _ ->|i];
    [right|right|by left; eexists|right|by right].
  - destruct (wr_rest _ _ _ Hw) as (_ & E1 & E2 & _). simpl. by rewrite E1, E2.
  - destruct (wr_rest _ _ _ Hw) as (_ & E1 & E2 & _). simpl. by rewrite E1, E2.
  - split; [done|]. intros x. simpl. destruct (decide (x = id)) as [->|]; [|by rewrite lookup_insert_ne].
    by rewrite lookup_insert_eq, Hp.
Qed.

Lemma astep_tokens_inv d ev d' : groups_inv d → tokens_inv d → astep d ev d' → tokens_inv d'.
Proof.
  intros HG HT Hs. assert (∀ t, t ∈ history d → ∃ g, groups d' !! t_GroupID t = Some g ∧ t_Generation t ≤ Generation g) as Hgen.
  { intros t Ht. destruct (ti_gen d HT t Ht) as (g & Hg & Hle).
    destruct (astep_group d ev d' _ g HG Hs Hg) as (g' & Hg' & [E|[(_ & _ & E) _]]); exists g'; (split; [done|]); [by rewrite E|lia]. }
  destruct (astep_tokens d ev d' Hs) as [[t ->]|[Eh Ep]].
  - inversion Hs as [| |t' g Hg Hge Hpos He Hses| |]; subst t' d'. split; simpl.
    + intros id p. rewrite lookup_insert_Some, filter_app, filter_cons, filter_nil. unfold of_group at 2.
      intros [[<- <-]|[Hne Hp]]; [by rewrite decide_True, last_snoc|]. rewrite decide_False, app_nil_r by done.
      by apply ti_pub.
    + intros id. rewrite lookup_insert_None, filter_app, filter_cons, filter_nil. unfold of_group at 2. intros [Hp Hne].
      rewrite decide_False, app_nil_r by done. by apply ti_none.
    + intros h p Hh. rewrite lookup_insert_Some. apply elem_of_app in Hh as [Hh|Hh%list_elem_of_singleton].
      * intros [[E <-]|[Hne Hp]]; [|by eapply ti_epoch]. simpl. rewrite E in He.
        destruct (publishers d !! t_GroupID h) as [q|] eqn:Eq.
        -- pose proof (ti_epoch d HT h q Hh Eq). lia.
        -- apply (ti_none d HT) in Eq. exfalso. apply (not_elem_of_nil h). rewrite <- Eq. by apply list_elem_of_filter.
      * subst h. intros [[_ <-]|[? _]]; [simpl; lia|done].
    + intros h [Hh|Hh%list_elem_of_singleton]%elem_of_app; [by apply Hgen|]. subst h. exists g. split; [done|lia].
    + rewrite map_app. apply NoDup_app. split; [apply HT|]. split; [|apply NoDup_singleton].
      intros x (h & -> & Hh)%list_elem_of_fmap Hx. simpl in Hx. apply list_elem_of_singleton in Hx. by eapply Hses.
  - assert (∀ id p, publishers d' !! id = Some p → ∃ q, publishers d !! id = Some q ∧ pub_token q = pub_token p) as Hpub.
    { intros id p Hp. specialize (Ep id). rewrite Hp in Ep. destruct (publishers d !! id) as [q|]; [|done].
      injection Ep as Ep. by exists q. }
    split; rewrite ?Eh.
    + intros id p (q & Hq & <-)%Hpub. by apply ti_pub.
    + intros id Hp. specialize (Ep id). rewrite Hp in Ep. apply (ti_none d HT). by destruct (publishers d !! id).
    + intros t p Ht (q & Hq & <-)%Hpub. by eapply ti_epoch.
    + done.
    + apply HT.
Qed.

(** The age of a publication is bounded by its CHECK. *)
Definition ages_inv d : Prop := ∀ id p, publications d !! id = Some p → 1 ≤ max_age_ms p ≤ 30000.
Lemma astep_ages_inv d ev d' : ages_inv d → astep d ev d' → ages_inv d'.
Proof.
  unfold ages_inv.
  intros HA [d1 d'' row [Hw [m ->] _]|v proof t g d1 d'' w now _ _ [_ _ Hw [er [ir ->]] _ _]|t g|id p seq pn d'' Hp _ Hn ->|i];
    try done.
  - destruct (wr_rest _ _ _ Hw) as (_ & _ & _ & E & _). simpl. by rewrite E.
  - destruct (wr_rest _ _ _ Hw) as (_ & _ & _ & E & _). simpl. by rewrite E.
  - intros x y. simpl. destruct (decide (x = id)) as [->|].
    + rewrite lookup_partial_alter_eq. intros E. by apply Hn.
    + rewrite lookup_partial_alter_ne by done. apply HA.
Qed.

(** ** Runs *)
Lemma initial_inv i : groups_inv (initial i) ∧ tokens_inv (initial i).
Proof. split; split; simpl; intros *; rewrite ?lookup_empty; try done; [by intros ?%not_elem_of_nil..|constructor]. Qed.

Lemma astep_issued d ev d' : astep d ev d' → history d' = history d ++ issued [ev].
Proof.
  intros Hs. destruct ev as [t|v sc proof|]; [by inversion Hs; subst|..];
    (destruct (astep_tokens d _ d' Hs) as [[t ?]|[-> _]]; [done|by rewrite app_nil_r]).
Qed.
Lemma run_inv d tr d' : run d tr d' → groups_inv d → tokens_inv d →
  groups_inv d' ∧ tokens_inv d' ∧ history d' = history d ++ issued tr.
Proof.
  induction 1 as [d|d ev d1 tr d2 Hs _ IH]; intros HG HT; [by rewrite app_nil_r|].
  apply step_astep in Hs; [|apply HG]. destruct IH as (HG2 & HT2 & E);
    [by eapply astep_groups_inv|by eapply astep_tokens_inv|].
  split; [done|]. split; [done|]. rewrite E, (astep_issued d ev d1 Hs), <- app_assoc. f_equal.
  unfold issued. by rewrite <- omap_app.
Qed.
Lemma run_initial i tr d : run (initial i) tr d → groups_inv d ∧ tokens_inv d ∧ history d = issued tr.
Proof. intros Hr. destruct (initial_inv i) as [HG HT]. by apply (run_inv _ _ _ Hr). Qed.

Lemma run_ages i tr d : run (initial i) tr d → ages_inv d.
Proof.
  intros Hr. destruct (initial_inv i) as [HG HT]. assert (ages_inv (initial i)) as HA.
  { intros id p. simpl. by rewrite lookup_empty. }
  revert HG HT HA. induction Hr as [d|d ev d1 tr d2 Hs _ IH]; intros HG HT HA; [done|].
  apply step_astep in Hs; [|apply HG].
  apply IH; [by eapply astep_groups_inv|by eapply astep_tokens_inv|by eapply astep_ages_inv].
Qed.

(** C27: No two live failover groups share a name, a frontend address or an engine, in any order of
    creations, edits, drains, withdrawals and publications, and each holds the reservations of its
    address and both members. *)
Theorem live_groups_disjoint i tr d id g id' g' :
  run (initial i) tr d → groups d !! id = Some g → groups d !! id' = Some g' → id ≠ id' →
  g_Lifecycle g ≠ Deleted → g_Lifecycle g' ≠ Deleted →
  Name g ≠ Name g' ∧ FrontendIP g ≠ FrontendIP g' ∧
  (∀ e, e ∈ [(Members g).1; (Members g).2] → e ∉ [(Members g').1; (Members g').2]) ∧ reserved d g.
Proof.
  intros (HG & _ & _)%run_initial Hg Hg' Hne Hl Hl'.
  destruct (gi_live d HG _ _ Hg Hl) as (I1 & A1 & B1). destruct (gi_live d HG _ _ Hg' Hl') as (I2 & A2 & B2).
  pose proof (gi_id d HG _ _ Hg). pose proof (gi_id d HG _ _ Hg').
  split; [by eapply gi_name|]. split; [congruence|]. split; [|done].
  intros e. rewrite !elem_of_cons. intros [->|[->|[]%not_elem_of_nil]] [E|[E|[]%not_elem_of_nil]]; congruence.
Qed.

(** ** Reservations *)
(** An engine or an address held by group [A]. *)
Definition held d (r : uuid + bytes) (A : uuid) : Prop :=
  match r with inl e => engine_reservations d !! e = Some A | inr ip => ip_reservations d !! ip = Some A end.
Definition covers (sc : WithdrawalScope) (r : uuid + bytes) : Prop :=
  match r with inl e => e ∈ ReservedMembers sc | inr ip => FrontendIP (s_Group sc) = ip end.

Lemma scope_members d g e : engine_reservations d !! e = Some (g_ID g) → e ∈ ReservedMembers (scope_of d g).
Proof.
  intros He. unfold scope_of. simpl. rewrite stable_sort_perm. apply list_elem_of_omap. exists (e, g_ID g).
  split; [by apply elem_of_map_to_list|]. simpl. by rewrite Z.eqb_refl.
Qed.
Lemma scope_publishers d g t : t ∈ history d → t_GroupID t = g_ID g → t ∈ Publishers (scope_of d g).
Proof.
  intros Ht Hid. unfold scope_of. simpl. rewrite stable_sort_perm. apply list_elem_of_filter. done.
Qed.
Lemma held_step d ev d' r A : groups_inv d → held d r A → astep d ev d' →
  held d' r A ∨
  ∃ v sc proof, ev = WithdrawnWith v sc proof ∧ v sc proof = true ∧ g_ID (s_Group sc) = A ∧ covers sc r ∧
    (∀ t, t ∈ history d → t_GroupID t = A → t ∈ Publishers sc).
Proof.
  intros HI Hh Hs.
  destruct Hs as [d1 d' row [Hw [m ->] _]|v proof t g d1 d' w now Hl Hv [_ _ Hw _ He Hi]|t g|id p seq pn d' _ _ _ ->|i].
  - left. destruct r; (eapply lookup_weaken; [exact Hh|apply Hw]).
  - destruct (decide (A = g_ID g)) as [->|Hne].
    + right. exists v, (scope_of d g), proof. split_and!; try done.
      * destruct r as [e|ip]; simpl; [by apply scope_members|].
        apply lockPublisher_Ok in Hl as (Hg & _). destruct (gi_ip d HI ip _ Hh) as (g0 & Hg0 & Hip & _).
        pose proof (gi_id d HI _ _ Hg) as E. rewrite <- E in Hg. by simplify_eq.
      * intros t' Ht' Hid. by apply scope_publishers.
    + left. destruct r; simpl; rewrite ?He, ?Hi; (split; [eapply lookup_weaken; [exact Hh|apply Hw]|]); intuition.
  - by left; destruct r.
  - by left; destruct r.
  - by left; destruct r.
Qed.

(** C25: A reservation outlives everything but a verified withdrawal.  Once an engine or an address is
    reserved for a group, it stays so through edits, member changes, drains, deletion requests and
    publications, until a withdrawal of that group that a verifier accepted for a scope which
    covers the engine or address and lists every publisher token ever handed out for the group. *)
Theorem released_only_after_withdrawal i tr0 d r A tr d' :
  run (initial i) tr0 d → held d r A → run d tr d' → ¬ held d' r A →
  ∃ tr1 v sc proof tr2, tr = tr1 ++ WithdrawnWith v sc proof :: tr2 ∧ v sc proof = true ∧
    g_ID (s_Group sc) = A ∧ covers sc r ∧
    (∀ t, t ∈ issued (tr0 ++ tr1) → t_GroupID t = A → t ∈ Publishers sc).
Proof.
  intros (HG & HT & Eh)%run_initial Hh Hr Hn.
  assert (∀ t, t ∈ issued tr0 → t ∈ history d) as Hsub by (by rewrite Eh). clear Eh. revert tr0 Hsub Hh Hn HG HT.
  induction Hr as [d|d ev d1 tr d2 Hs _ IH]; intros tr0 Hsub Hh Hn HG HT; [done|].
  apply step_astep in Hs; [|apply HG].
  destruct (held_step d ev d1 r A HG Hh Hs) as [Hh1|(v & sc & proof & -> & Hv & HA & Hc & Ht)].
  - destruct (IH (tr0 ++ [ev])) as (tr1 & v & sc & proof & tr2 & -> & H1 & H2 & H3 & H4); try done.
    + intros t. unfold issued. rewrite omap_app, elem_of_app, (astep_issued d ev d1 Hs), elem_of_app. unfold issued.
      intros [?|?]; auto.
    + by eapply astep_groups_inv.
    + by eapply astep_tokens_inv.
    + exists (ev :: tr1), v, sc, proof, tr2. split; [done|]. rewrite <- app_assoc in H4. done.
  - exists [], v, sc, proof, tr. split; [done|]. split; [done|]. split; [done|]. split; [done|].
    rewrite app_nil_r. auto.
Qed.

(** ** Tokens *)
(** C32: A publisher token works exactly as long as it is current.  In every reachable state the
    database accepts a token if and only if it is the last one handed out for its group and the
    group is still at the generation the token was handed out for: any later registration and any
    later change of the group shuts out delayed reports and withdrawals for good. *)
Theorem token_fence i tr d t :
  run (initial i) tr d →
  (∃ g, lockPublisher d t = Ok g) ↔
  last (filter (of_group (t_GroupID t)) (issued tr)) = Some t ∧ Session t ≠ Nil ∧
  ∃ g, groups d !! t_GroupID t = Some g ∧ Generation g = t_Generation t.
Proof.
  intros (HG & HT & <-)%run_initial. split.
  - intros (g & Hl0). apply lockPublisher_Ok in Hl0 as (Hg & Hgen & _ & Hs & p & Hp & E1 & E2 & E3 & E4).
    pose proof (ti_pub d HT _ _ Hp) as Hl. split; [|split; [done|by exists g]]. rewrite Hl. f_equal.
    assert (t_GroupID (pub_token p) = t_GroupID t).
    { apply last_Some_elem_of, list_elem_of_filter in Hl as [Hl _]. done. }
    destruct (pub_token p), t; simpl in *; congruence.
  - intros (Hl & Hs & g & Hg & Hgen). exists g. apply lockPublisher_Ok. split_and!; try done.
    { rewrite <- Hgen. by eapply gi_gen. }
    destruct (publishers d !! t_GroupID t) as [p|] eqn:Ep; [|by rewrite (ti_none d HT _ Ep) in Hl].
    exists p. rewrite (ti_pub d HT _ _ Ep) in Hl. by injection Hl as ->.
Qed.

(** The lifecycle of a group.  Every step leaves a group as it is or takes it to the next
    generation with the same id and address: an edit of an active or withdrawn group, which drains
    it when the members change; a drain; a deletion request; a resume after withdrawal; or a
    withdrawal, which only ends a drain or a deletion and only when a verifier accepted it.  No
    step changes a deleted group, and it keeps the receipt of its withdrawal. *)
Theorem lifecycle_steps i tr d ev d' id g :
  run (initial i) tr d → step d ev d' → groups d !! id = Some g →
  ∃ g', groups d' !! id = Some g' ∧ group_step d ev g g' ∧
    (g_Lifecycle g = Deleted → g' = g ∧
      Exists (λ w, w_group w = id ∧ w_generation w = Generation g - 1) (withdrawals d)).
Proof.
  intros (HG & HT & _)%run_initial Hs%step_astep Hg; [|apply HG].
  destruct (astep_group d ev d' id g HG Hs Hg) as (g' & Hg' & Hst). exists g'. split; [done|]. split; [done|].
  intros Hd. split; [|by eapply gi_receipt]. destruct Hst as [->|(_ & [(_ & He & _)|(v & proof & _ & _ & Hn & _)])]; [done|..].
  - rewrite Hd in He. inversion He; intuition congruence.
  - intuition congruence.
Qed.
End safety.
