(* ===== verification/FailoverRead.v ===== *)
(** * The checked read of published eligibility

    Whatever evidence was published, [ReadPublished] offers only engines that the database itself
    still vouches for at the time of the read, and a claimed but unfinished collection offers none. *)

From S2P Require Import Prelude.
From S2P Require Import GoText.
From S2P Require Import Effects.
From S2P Require Import FailoverEligibility.
From S2P Require Import FailoverStore.
From S2P Require Import FailoverPublish.
From S2P Require Import FailoverSafety.

Section read.
Context {Fleet Snapshot : Type}.
Context (uuid_Parse : bytes → option uuid) (uuid_String : uuid → bytes).
Context (TargetFor : fdb Fleet → uuid → res ferr (Target Snapshot)) (ContentDigest : Snapshot → res ferr bytes).
Context (sha256 : bytes → bytes).
Implicit Types d : fdb Fleet.

Abbreviation ValidateMember := (validate_member uuid_Parse uuid_String TargetFor ContentDigest).
Abbreviation Read := (ReadPublished uuid_Parse uuid_String TargetFor ContentDigest).
Abbreviation Run := (run uuid_Parse uuid_String TargetFor ContentDigest sha256).

(** The database vouches for engine [id] of the group: its row, its certificate and its target.  [at_]
    is when the database was read, [now] when the answer is given. *)
Record vouched d (g : Group) (id : uuid) (at_ now maxAge : Z) : Prop := {
  v_member : id = (Members g).1 ∨ id = (Members g).2;
  v_row : ∃ row seen c tg s,
    engines (inv d) !! id = Some row ∧
    revoked row = false ∧ deleted row = false ∧ connected row = true ∧ connection_session row ≠ None ∧
    last_seen_at row = Some seen ∧ fresh seen at_ maxAge ∧ now < seen + maxAge ∧
    badApply row = false ∧
    certificates (inv d) !! certificate_serial row = Some c ∧ cert_engine c = id ∧
    cert_ok c at_ = true ∧ (not_after c ≠ zero_time → now < not_after c) ∧
    TargetFor d id = Ok tg ∧ tg_Snapshot tg = Some s ∧ tg_Version tg = applied_version row ∧
    (∃ digest, ContentDigest s = Ok digest ∧
      content_sha256 (inv d) !! (engine_group_id row, applied_version row) = Some digest);
}.

Lemma snapshot_valid_ne s : validEligibilitySnapshot s = true → s ≠ zero_snapshot.
Proof. by intros H ->. Qed.

Lemma until_bound seen now at_ maxAge after :
  zero_time < at_ → fresh seen at_ maxAge →
  (let until := if negb (IsZero after) && Before after (seen + maxAge) then after else seen + maxAge in
   until = zero_time ∨ now < until) →
  now < seen + maxAge ∧ (after ≠ zero_time → now < after).
Proof.
  unfold fresh, IsZero, Before. intros Hat (Hz & Hle & Hage).
  destruct (Z.eqb_spec after zero_time), (Z.ltb_spec after (seen + maxAge)); simpl; lia.
Qed.

Lemma validate_member_vouched d g e e' at_ now maxAge :
  maxAge < max_duration → zero_time < at_ →
  ValidateMember d g e at_ maxAge = Ok (Some e') → healthy e' now maxAge →
  EngineID e' = EngineID e ∧ vouched d g (EngineID e') at_ now maxAge.
Proof.
  intros Hm Hat H (_ & Hu & Hrev & Hdel & _ & [Hmg _] & _ & Hv & Hap & _).
  unfold validate_member in H. destruct (_ && _) eqn:Emem; [done|].
  destruct (_ || negb (canonicalUID _ _ _)); [done|].
  destruct (engines (inv d) !! EngineID e) as [row|] eqn:Erow; [|done].
  destruct (negb (bool_decide (connection_session row = _))) eqn:Esess; [done|].
  destruct (negb (engine_group_id row =? _)); [done|]. destruct (negb (bool_decide (_ ∈ _))); [done|].
  destruct (TargetFor d (EngineID e)) as [tg|[]| |] eqn:Etg; try done;
    [|injection H as <-; simpl in Hdel; done].
  destruct (tg_Snapshot tg) as [s|] eqn:Es;
    [|injection H as <-; simpl in Hv; done].
  destruct (Z.eqb_spec (tg_Version tg) 0) as [|Hnz]; [injection H as <-; simpl in Hv; done|].
  apply bind_Ok in H as (digest & Edig & H).
  unfold certificate_of in H. destruct (certificates (inv d) !! certificate_serial row) as [c|] eqn:Ec;
    [|injection H as <-; done].
  destruct (Z.eqb_spec (cert_engine c) (EngineID e)) as [Ece|]; [|injection H as <-; done].
  injection H as <-. simpl in *. split; [done|].
  apply andb_true_iff in Hmg as [_ [Hcon Hseen]%andb_true_iff].
  destruct (last_seen_at row) as [seen|] eqn:Eseen; [|done]. rewrite fresh_spec in Hseen by done.
  destruct (until_bound seen now at_ maxAge (not_after c) Hat Hseen Hu) as [Hn1 Hn2].
  apply orb_false_iff in Hrev as [[_ Hrev]%orb_false_iff Hcert%negb_false_iff].
  apply orb_false_iff in Hdel as [_ Hdel].
  apply negb_false_iff, bool_decide_eq_true in Esess.
  destruct (_ || negb (bool_decide (Digest (e_Target e) = digest))) eqn:Et; [done|].
  apply orb_false_iff in Et as [Et1%negb_false_iff%Z.eqb_eq Et2%negb_false_iff%bool_decide_eq_true].
  destruct (content_sha256 (inv d) !! _) as [x|] eqn:Ex; [|by apply snapshot_valid_ne in Hv; rewrite <- Hap in Hv].
  case_bool_decide as Edx; [|by apply snapshot_valid_ne in Hv; rewrite <- Hap in Hv].
  destruct (_ || negb (applied_version row =? _)) eqn:Eap; [by apply snapshot_valid_ne in Hv; rewrite <- Hap in Hv|].
  rewrite !orb_false_iff, negb_false_iff, Z.eqb_eq in Eap. destruct Eap as [[Hb _] Eav].
  split; [by rewrite andb_false_iff, !negb_false_iff, !Z.eqb_eq in Emem|].
  exists row, seen, c, tg, s. split_and!; try done; [by rewrite Esess|by rewrite <- Et1, Eav, Hap|].
  exists digest. split; [done|]. by rewrite Ex, <- Edx, Hap, Et2.
Qed.

Lemma validate_all_elem d g es now maxAge es' e' :
  validate_all uuid_Parse uuid_String TargetFor ContentDigest d g es now maxAge = Ok (Some es') → e' ∈ es' →
  ∃ e, ValidateMember d g e now maxAge = Ok (Some e').
Proof.
  revert es'. induction es as [|e es IH]; intros es'; simpl; [by intros [= <-] []%not_elem_of_nil|].
  intros ([e1|] & H1 & H)%bind_Ok; [|done]. apply bind_Ok in H as ([es1|] & H2 & [= <-]); simpl.
  rewrite elem_of_cons. intros [->|Hin]; [by exists e|]. by apply (IH es1).
Qed.
Lemma i64_small x : - 2 ^ 63 ≤ x < 2 ^ 63 → i64 x = x.
Proof. intros Hx. unfold i64. rewrite Z.mod_small; lia. Qed.

(** Every answer is an empty pool, or the evaluation of evidence checked against the database. *)
Lemma Read_cases d id wall now1 now2 elapsed ended :
  let r := (Read d id wall now1 now2 elapsed ended).1 in
  Eligible r = [] ∨ ∃ g p es, groups d !! id = Some g ∧ current_publication d g = Some p ∧
    let maxAge := i64 (max_age_ms p * millisecond) in
    now2 + elapsed < expires_at p ∧
    validateInventory uuid_Parse uuid_String TargetFor ContentDigest d g (evidence p) now1 maxAge = Ok es ∧
    r = EvaluateEligibility uuid_Parse uuid_String g es (now2 + elapsed) maxAge.
Proof.
  unfold ReadPublished. destruct (groups d !! id) as [g|]; [|left; apply eligible_nil].
  destruct (current_publication d g) as [p|] eqn:Ep; [|left; apply eligible_nil].
  destruct (negb (Before now1 _) || _); [left; apply eligible_nil|].
  destruct (validateInventory _ _ _ _ _ _ _ _ _) as [es| | |] eqn:Ev; [|left; apply eligible_nil..].
  destruct (negb (Before now2 _) || _); [left; apply eligible_nil|].
  destruct ended; [left; apply eligible_nil|].
  destruct (negb (Before (now2 + elapsed) _) || _) eqn:Est; [left; apply eligible_nil|].
  right. exists g, p, es. apply orb_false_iff in Est as [Hexp%negb_false_iff%Z.ltb_lt _]. done.
Qed.
Lemma current_publication_Some d g p : current_publication d g = Some p →
  ∃ o, publications d !! g_ID g = Some p ∧ publishers d !! g_ID g = Some o ∧
    pn_generation p = Generation g ∧ pn_epoch p = Epoch (pub_token o) ∧ pn_sequence p = sequence o ∧
    Exists (λ s, incarnation s = source_incarnation p ∧ purpose s = Collector) (sources (inv d)).
Proof.
  unfold current_publication. destruct (publications d !! g_ID g) as [q|]; [|done].
  destruct (publishers d !! g_ID g) as [o|]; [|done]. case_bool_decide as H; [|done]. intros [= ->].
  destruct H as (H1 & H2 & H3 & H4 & H5). exists o. split_and!; try done.
  eapply Exists_impl; [exact H5|]. by intros s (? & ? & _).
Qed.

(** The checked read vouches for every engine it offers.  In any reachable state, whatever was
    published, an engine [ReadPublished] lists belongs to a group that is active now and whose
    publication was made at the current generation under the last claimed sequence number by a
    source that is still authorised and has not expired.  The engine itself is neither revoked nor
    deleted, is connected and was seen within the allowed age, holds a certificate that is valid
    and in force until after the answer, and has applied exactly the version and content that the
    rollout tells it to run. *)
Theorem ReadPublished_sound i tr d id wall now1 now2 elapsed ended e :
  Run (initial i) tr d → zero_time < now1 →
  e ∈ Eligible (Read d id wall now1 now2 elapsed ended).1 →
  ∃ g p o, groups d !! id = Some g ∧ g_Lifecycle g = Active ∧
    publications d !! id = Some p ∧ publishers d !! id = Some o ∧
    pn_generation p = Generation g ∧ pn_epoch p = Epoch (pub_token o) ∧ pn_sequence p = sequence o ∧
    Exists (λ s, incarnation s = source_incarnation p ∧ purpose s = Collector) (sources (inv d)) ∧
    now2 + elapsed < expires_at p ∧
    vouched d g e now1 (now2 + elapsed) (max_age_ms p * millisecond).
Proof.
  intros Hr Hz He. pose proof (run_ages _ _ _ _ _ i tr d Hr) as HA. apply run_initial in Hr as (HG & _ & _).
  destruct (Read_cases d id wall now1 now2 elapsed ended) as [E|(g & p & es & Hg & Hp & Hx & Hv & E)];
    [rewrite E in He; by apply not_elem_of_nil in He|]. rewrite E in He.
  apply current_publication_Some in Hp as (o & Hp & Ho & H1 & H2 & H3 & H4).
  rewrite (gi_id d HG _ _ Hg) in Hp, Ho. specialize (HA _ _ Hp).
  rewrite i64_small in Hv, He by (unfold millisecond; lia).
  assert (max_age_ms p * millisecond < max_duration) as Hm by (unfold millisecond, max_duration; lia).
  apply eligible_iff in He as (x & partner & Hes & <- & _ & (Hl & _) & _ & _ & _ & Hh); [|done].
  exists g, p, o. split_and!; try done.
  { destruct Hl as [Hl|Hl]; [by apply (gi_set d HG _ _ Hg) in Hl|done]. }
  assert (x ∈ es) as Hin by (destruct Hes as [-> | ->]; rewrite !elem_of_cons; tauto).
  unfold validateInventory in Hv. destruct (negb _); [by injection Hv as <-; apply not_elem_of_nil in Hin|].
  apply bind_Ok in Hv as ([es'|] & Hv & Hv'); injection Hv' as <-; [|by apply not_elem_of_nil in Hin].
  destruct (validate_all_elem _ _ _ _ _ _ _ Hv Hin) as (x0 & Hx0).
  by eapply validate_member_vouched.
Qed.

(** Starting a collection empties the pool.  Once a worker has claimed its sequence number, every
    checked read of the group offers nothing until that claim is published, so a worker that dies
    or is overtaken leaves no old answer behind. *)
Theorem claim_empties i tr d su t seq d' r wall now1 now2 elapsed ended :
  Run (initial i) tr d → claim d su t seq = Ok (d', r) →
  Eligible (Read d' (t_GroupID t) wall now1 now2 elapsed ended).1 = [].
Proof.
  intros (HG & _ & _)%run_initial H. pose proof (gi_id d HG) as Hid. unfold claim in H. apply bind_Ok in H as (source & _ & (g & Hg & H)%bind_Ok).
  destruct (publishers d !! g_ID g) as [p|]; [|done]. destruct (_ <? _); [|done]. injection H as <- _.
  apply lockPublisher_Ok in Hg as (Hg & _). pose proof (Hid _ _ Hg) as E.
  set (d1 := set_publications _ _).
  destruct (Read_cases d1 (t_GroupID t) wall now1 now2 elapsed ended) as [?|(g' & q & es & Hg' & Hq & _)]; [done|].
  apply current_publication_Some in Hq as (o & Hq & _). simpl in Hg', Hq. rewrite Hg in Hg'. injection Hg' as <-.
  by rewrite lookup_delete_eq in Hq.
Qed.
End read.

(** ** A concrete group *)
Module Example.
Definition parse (s : bytes) : option uuid := ParseUint s 64.
Definition uid (n : Z) : bytes := FormatUint n.
Definition TargetFor (d : fdb unit) (id : uuid) : res ferr (Target bytes) := Ok (mkTarget 3 (Some Pair.digest)).
Definition ContentDigest (s : bytes) : res ferr bytes := Ok s.
Definition sha256 (b : bytes) : bytes := replicate 32 0.
Definition verify (sc : WithdrawalScope) (proof : bytes) : bool := bool_decide (proof = [1]).
Definition now : Z := 100 * second.

Definition engine (node : Z) (session serial : Z) : engine_row :=
  mkEngine [node] 7 false false (Some session) 3 true [] false None (Some now) [serial].
Definition inv0 : inventory unit := mkInventory
  [mkSource 1 501 (str "c") Collector; mkSource 2 502 (str "k") Controller; mkSource 3 503 (str "w") Withdrawal]
  [(1, str "c"); (2, str "k"); (3, str "w")]
  (<[11 := engine 97 111 1]> (<[12 := engine 98 112 2]> ∅)) {[7]} (<[(7, 3) := Pair.digest]> ∅)
  (<[[1] := mkCert 11 false 0 (1000 * second)]> (<[[2] := mkCert 12 false 0 (1000 * second)]> ∅)) tt.
Definition d0 : fdb unit := initial inv0.
Definition got {A} (r : res ferr (fdb unit * A)) : fdb unit := match r with Ok (d, _) => d | _ => d0 end.
Definition tok (epoch gen session : Z) : PublisherToken := mkToken 1 gen epoch 77 session.
Definition d1 := Eval vm_compute in got (Create d0 Pair.group 1 now).
Definition d2 := Eval vm_compute in got (RotatePublisher d1 (str "k") 1 1 0 77 901).
Definition d3 := Eval vm_compute in got (claim d2 (str "c") (tok 1 1 901) 1).
Definition d4 := Eval vm_compute in got (publish parse uid TargetFor ContentDigest d3 (str "c") (tok 1 1 901) 1 501
  now (10 * second) [Pair.a; Pair.b] (now + second) (now + second)).
Definition d5 := Eval vm_compute in got (RequestDeletion d2 1 1 now).
Definition d6 := Eval vm_compute in got (RotatePublisher d5 (str "k") 1 2 1 77 902).
Definition d7 := Eval vm_compute in got (CompleteWithdrawal sha256 d6 (str "w") (tok 2 2 902) [1] (Some verify) false now).

Abbreviation Run := (run parse uid TargetFor ContentDigest sha256).
Abbreviation Step := (step parse uid TargetFor ContentDigest sha256).
Lemma create_run : Run d0 [Quiet] d1.
Proof. eapply run_step; [eapply (step_create _ _ _ _ _ _ Pair.group 1 now); vm_compute; reflexivity|apply run_refl]. Qed.
Lemma token_run : Run d0 [Quiet; Issued (tok 1 1 901)] d2.
Proof.
  eapply run_step; [eapply (step_create _ _ _ _ _ _ Pair.group 1 now); vm_compute; reflexivity|].
  eapply run_step; [|apply run_refl]. eapply (step_rotate _ _ _ _ _ _ (str "k") 1 1 0 77 901). vm_compute. reflexivity.
Qed.
Lemma delete_run : Run d2 [Quiet; Issued (tok 2 2 902); WithdrawnWith verify (scope_of d6 (with_lifecycle (mkGroup 1 (str "edge")
  (str "192.0.2.10") (11, 12) 1 Active now now) Deleting now)) [1]] d7.
Proof.
  eapply run_step; [eapply (step_transition _ _ _ _ _ _ 1 1 Deleting now); vm_compute; reflexivity|].
  eapply run_step; [eapply (step_rotate _ _ _ _ _ _ (str "k") 1 2 1 77 902); vm_compute; reflexivity|].
  eapply run_step; [|apply run_refl].
  eapply (step_withdraw _ _ _ _ _ _ (str "w") (tok 2 2 902) [1] verify now); vm_compute; reflexivity.
Qed.
Lemma publish_run : Run d0 [Quiet; Issued (tok 1 1 901); Quiet; Quiet] d4.
Proof.
  eapply run_step; [eapply (step_create _ _ _ _ _ _ Pair.group 1 now); vm_compute; reflexivity|].
  eapply run_step; [eapply (step_rotate _ _ _ _ _ _ (str "k") 1 1 0 77 901); vm_compute; reflexivity|].
  eapply run_step; [eapply (step_claim _ _ _ _ _ _ (str "c") (tok 1 1 901) 1); vm_compute; reflexivity|].
  eapply run_step; [|apply run_refl].
  eapply (step_publish _ _ _ _ _ _ (str "c") (tok 1 1 901) 1 501 now (10 * second) [Pair.a; Pair.b] (now + second)
    (now + second)). vm_compute. reflexivity.
Qed.

(** A second group beside the first. *)
Definition group2 : Group := mkGroup 0 (str "core") (str "192.0.2.11") (13, 14) 0 Unset 0 0.
Definition inv2 : inventory unit := mkInventory (sources inv0) (roles inv0)
  (<[13 := engine 99 113 3]> (<[14 := engine 100 114 4]> (engines inv0))) (engine_groups inv0) (content_sha256 inv0)
  (certificates inv0) tt.
Definition d8 := Eval vm_compute in got (Create (set_inv d1 inv2) group2 2 now).
Definition row_of (d : fdb unit) (id : uuid) : Group := match groups d !! id with Some g => g | None => zero_group end.
Lemma two_run : Run d0 [Quiet; Quiet; Quiet] d8.
Proof.
  eapply run_step; [eapply (step_create _ _ _ _ _ _ Pair.group 1 now); vm_compute; reflexivity|].
  eapply run_step; [apply (step_inventory _ _ _ _ _ d1 inv2)|].
  eapply run_step; [|apply run_refl]. eapply (step_create _ _ _ _ _ _ group2 2 now). vm_compute. reflexivity.
Qed.
Lemma live_groups_disjoint_witness :
  Name (row_of d8 1) ≠ Name (row_of d8 2) ∧ FrontendIP (row_of d8 1) ≠ FrontendIP (row_of d8 2) ∧ reserved d8 (row_of d8 1).
Proof.
  destruct (live_groups_disjoint parse uid TargetFor ContentDigest sha256 inv0 _ d8 1 (row_of d8 1) 2 (row_of d8 2) two_run)
    as (H1 & H2 & _ & H3); [vm_compute; reflexivity|vm_compute; reflexivity|done|by vm_compute|by vm_compute|].
  exact (conj H1 (conj H2 H3)).
Defined.

Lemma released_only_after_withdrawal_witness :
  ∃ tr1 v sc proof tr2,
    [Quiet; Issued (tok 2 2 902); WithdrawnWith verify (scope_of d6 (row_of d6 1)) [1]] =
      tr1 ++ WithdrawnWith v sc proof :: tr2 ∧ v sc proof = true ∧ 12 ∈ ReservedMembers sc ∧
    (∀ t, t ∈ issued ([Quiet; Issued (tok 1 1 901)] ++ tr1) → t_GroupID t = 1 → t ∈ Publishers sc).
Proof.
  assert (held d2 (inl 12) 1) as Hh by (vm_compute; reflexivity).
  assert (¬ held d7 (inl 12) 1) as Hn by (by vm_compute).
  destruct (released_only_after_withdrawal parse uid TargetFor ContentDigest sha256 inv0 _ d2 (inl 12) 1 _ d7 token_run
    Hh delete_run Hn) as (tr1 & v & sc & proof & tr2 & E & Hv & _ & Hc & Ht).
  exists tr1, v, sc, proof, tr2. exact (conj E (conj Hv (conj Hc Ht))).
Defined.

Lemma token_fence_witness :
  (∃ g, lockPublisher d6 (tok 2 2 902) = Ok g) ∧ ¬ (∃ g, lockPublisher d6 (tok 1 1 901) = Ok g).
Proof.
  assert (Run d0 [Quiet; Issued (tok 1 1 901); Quiet; Issued (tok 2 2 902)] d6) as Hr.
  { eapply run_step; [eapply (step_create _ _ _ _ _ _ Pair.group 1 now); vm_compute; reflexivity|].
    eapply run_step; [eapply (step_rotate _ _ _ _ _ _ (str "k") 1 1 0 77 901); vm_compute; reflexivity|].
    eapply run_step; [eapply (step_transition _ _ _ _ _ _ 1 1 Deleting now); vm_compute; reflexivity|].
    eapply run_step; [|apply run_refl]. eapply (step_rotate _ _ _ _ _ _ (str "k") 1 2 1 77 902). vm_compute. reflexivity. }
  split.
  - apply (token_fence parse uid TargetFor ContentDigest sha256 inv0 _ d6 (tok 2 2 902) Hr).
    split; [vm_compute; reflexivity|]. split; [done|]. eexists. split; vm_compute; reflexivity.
  - intros H. apply (token_fence parse uid TargetFor ContentDigest sha256 inv0 _ d6 (tok 1 1 901) Hr) in H as (H & _).
    by vm_compute in H.
Defined.

Lemma lifecycle_steps_witness :
  ∃ g', groups d5 !! 1 = Some g' ∧ group_step d2 Quiet (row_of d2 1) g'.
Proof.
  destruct (lifecycle_steps parse uid TargetFor ContentDigest sha256 inv0 _ d2 Quiet d5 1 (row_of d2 1) token_run)
    as (g' & Hg & Hs & _); [|vm_compute; reflexivity|].
  - eapply (step_transition _ _ _ _ _ _ 1 1 Deleting now). vm_compute. reflexivity.
  - exists g'. exact (conj Hg Hs).
Defined.

Lemma ReadPublished_sound_witness :
  Eligible (ReadPublished parse uid TargetFor ContentDigest d4 1 now (now + 2 * second) (now + 2 * second) 5 false).1 = [11] ∧
  ∃ g p, groups d4 !! 1 = Some g ∧ vouched TargetFor ContentDigest d4 g 11 (now + 2 * second) (now + 2 * second + 5)
    (max_age_ms p * millisecond).
Proof.
  split; [vm_compute; reflexivity|].
  destruct (ReadPublished_sound parse uid TargetFor ContentDigest sha256 inv0 _ d4 1 now (now + 2 * second) (now + 2 * second)
    5 false 11 publish_run) as (g & p & o & Hg & _ & _ & _ & _ & _ & _ & _ & _ & Hv); [by vm_compute|vm_compute; left|].
  exists g, p. exact (conj Hg Hv).
Defined.
Lemma claim_empties_witness :
  Eligible (ReadPublished parse uid TargetFor ContentDigest d3 1 now (now + second) (now + second) 5 false).1 = [].
Proof.
  apply (claim_empties parse uid TargetFor ContentDigest sha256 inv0 _ d2 (str "c") (tok 1 1 901) 1 d3
    (501, row_of d2 1) now (now + second) (now + second) 5 false token_run). vm_compute. reflexivity.
Defined.
End Example.
