(* ===== verification/DnssecRollover.v ===== *)
(** * DNSSEC key rollovers

    mgmt/internal/dnssec/rollover.go: the key state machine of a signed zone.  [Advance] applies the
    transitions due at a time and says when the next one is pending.  Its closures over [next] are
    explicit state; a key is addressed by its position, as in the source. *)

From S2P Require Import Prelude.
From S2P Require Import Effects.

Inductive Role : Type := KSK | ZSK.
Inductive KeyPhase : Type := PublishedKey | ActiveKey | RetiredKey | RemovedKey.
Inductive DSPhase : Type := DSNone | DSPending | DSSeen.
#[export] Instance Role_eq_dec : EqDecision Role.
Proof. solve_decision. Defined.
#[export] Instance KeyPhase_eq_dec : EqDecision KeyPhase.
Proof. solve_decision. Defined.
#[export] Instance DSPhase_eq_dec : EqDecision DSPhase.
Proof. solve_decision. Defined.

Record KeyState := mkKey {
  k_ID : bytes; k_Role : Role; k_State : KeyPhase; DSState : DSPhase; PublishedAt : Z;
  ActivatedAt : option Z; RetiredAt : option Z; RemovedAt : option Z; DSSeenAt : option Z }.
Record Policy := mkPolicy { DNSKEYTTL : Z; MaxZoneTTL : Z; Propagation : Z; ParentDSTTL : Z; ZSKLifetime : Z }.
Record Actions := mkActions { CreateZSK : bool }.
#[export] Instance KeyState_eq_dec : EqDecision KeyState.
Proof. solve_decision. Defined.

Definition activated (now : Z) (k : KeyState) : KeyState :=
  mkKey (k_ID k) (k_Role k) ActiveKey (DSState k) (PublishedAt k) (Some now) (RetiredAt k) (RemovedAt k) (DSSeenAt k).
Definition retired (now : Z) (k : KeyState) : KeyState :=
  mkKey (k_ID k) (k_Role k) RetiredKey (DSState k) (PublishedAt k) (ActivatedAt k) (Some now) (RemovedAt k) (DSSeenAt k).
Definition removed (now : Z) (k : KeyState) : KeyState :=
  mkKey (k_ID k) (k_Role k) RemovedKey (DSState k) (PublishedAt k) (ActivatedAt k) (RetiredAt k) (Some now) (DSSeenAt k).

Definition activatedAt (k : KeyState) : Z := match ActivatedAt k with Some t => t | None => PublishedAt k end.

(** Due at [now], and the earliest pending instant otherwise. *)
Definition pending (now at_ next : Z) : bool * Z :=
  if negb (Before now at_) then (true, next)
  else (false, if IsZero next || Before at_ next then at_ else next).

Definition in_phase (r : Role) (s : KeyPhase) (k : KeyState) : bool :=
  bool_decide (k_Role k = r) && bool_decide (k_State k = s).
Fixpoint idx_from (i : nat) (r : Role) (s : KeyPhase) (out : list KeyState) : list nat :=
  match out with
  | [] => []
  | k :: out => (if in_phase r s k then [i] else []) ++ idx_from (S i) r s out
  end.
Definition idx (r : Role) (s : KeyPhase) (out : list KeyState) : list nat := idx_from 0 r s out.

(** ** The ZSK loops *)
Definition retire_all (now : Z) (active : list nat) (out : list KeyState) : list KeyState :=
  foldl (λ out j, alter (retired now) j out) out active.
Fixpoint activate_loop (p : Policy) (now : Z) (is_ : list nat) (out : list KeyState) (active : list nat) (next : Z)
    : list KeyState * list nat * Z :=
  match is_ with
  | [] => (out, active, next)
  | i :: is_ =>
      match out !! i with
      | None => (out, active, next)
      | Some k =>
          match active with
          | [] => activate_loop p now is_ out active next
          | _ =>
              let '(due, next) := pending now (PublishedAt k + i64 (DNSKEYTTL p + Propagation p)) next in
              if due then activate_loop p now is_ (retire_all now active (<[i := activated now k]> out)) [i] next
              else activate_loop p now is_ out active next
          end
      end
  end.
Fixpoint remove_loop (p : Policy) (now : Z) (is_ : list nat) (out : list KeyState) (next : Z) : list KeyState * Z :=
  match is_ with
  | [] => (out, next)
  | i :: is_ =>
      match out !! i with
      | None => (out, next)
      | Some k =>
          match RetiredAt k with
          | None => remove_loop p now is_ out next
          | Some t =>
              let '(due, next) := pending now (t + i64 (MaxZoneTTL p + Propagation p)) next in
              remove_loop p now is_ (if due then <[i := removed now k]> out else out) next
          end
      end
  end.

(** ** KSKs and the automatic rollover *)
Definition ksk_step (p : Policy) (now : Z) (out : list KeyState) (next : Z) : list KeyState * Z :=
  match idx KSK ActiveKey out with
  | [i; j] =>
      match out !! i, out !! j with
      | Some a, Some b =>
          let '(older, newer, o, n) := if Before (activatedAt b) (activatedAt a) then (j, i, b, a) else (i, j, a, b) in
          match DSState n, DSSeenAt n with
          | DSSeen, Some t =>
              let '(due, next) := pending now (t + i64 (ParentDSTTL p + Propagation p)) next in
              (if due then <[older := removed now o]> out else out, next)
          | _, _ => (out, next)
          end
      | _, _ => (out, next)
      end
  | _ => (out, next)
  end.
Definition create_step (p : Policy) (now : Z) (out : list KeyState) (active : list nat) (next : Z) : Actions * Z :=
  match active, idx ZSK PublishedKey out with
  | [i], [] =>
      match out !! i with
      | Some z =>
          match ActivatedAt z with
          | Some t =>
              if 0 <? ZSKLifetime p then
                let '(due, next) := pending now (t + ZSKLifetime p) next in (mkActions due, next)
              else (mkActions false, next)
          | None => (mkActions false, next)
          end
      | None => (mkActions false, next)
      end
  | _, _ => (mkActions false, next)
  end.

Definition Advance (keys : list KeyState) (p : Policy) (now : Z) : list KeyState * Actions * Z :=
  let '(out, active, next) := activate_loop p now (idx ZSK PublishedKey keys) keys (idx ZSK ActiveKey keys) zero_time in
  let '(out, next) := remove_loop p now (idx ZSK RetiredKey out) out next in
  let '(out, next) := ksk_step p now out next in
  let '(act, next) := create_step p now out active next in
  (out, act, next).

(** ** Positions *)
Lemma elem_idx_from n r s out i :
  i ∈ idx_from n r s out ↔ ∃ j k, i = (n + j)%nat ∧ out !! j = Some k ∧ k_Role k = r ∧ k_State k = s.
Proof.
  revert n. induction out as [|k out IH]; intros n; simpl.
  - split; [by intros []%not_elem_of_nil|]. by intros (j & x & _ & ? & _).
  - rewrite elem_of_app, IH. unfold in_phase. split.
    + intros [Hi|(j & x & -> & Hx & H)].
      * destruct (bool_decide (k_Role k = r)) eqn:Er, (bool_decide (k_State k = s)) eqn:Es; simpl in Hi;
          try by apply not_elem_of_nil in Hi.
        apply list_elem_of_singleton in Hi as ->. apply bool_decide_eq_true in Er, Es.
        exists 0%nat, k. split; [lia|]. done.
      * exists (S j), x. split; [lia|]. done.
    + intros ([|j] & x & -> & Hx & Hr & Hs); simpl in Hx.
      * injection Hx as ->. left. rewrite !bool_decide_eq_true_2 by done. simpl. apply list_elem_of_singleton. lia.
      * right. exists j, x. split; [lia|]. done.
Qed.
Lemma elem_idx r s out i : i ∈ idx r s out ↔ ∃ k, out !! i = Some k ∧ k_Role k = r ∧ k_State k = s.
Proof.
  unfold idx. rewrite elem_idx_from. split; [intros (j & k & -> & H); by exists k|].
  intros (k & H). by exists i, k.
Qed.
Lemma idx_sorted r s out : StronglySorted lt (idx r s out).
Proof.
  unfold idx. generalize 0%nat. induction out as [|k out IH]; intros n; simpl; [constructor|].
  destruct (in_phase r s k); simpl; [|apply IH]. constructor; [apply IH|].
  apply Forall_forall. intros i (j & x & -> & _)%elem_idx_from. lia.
Qed.
Lemma idx_NoDup r s out : NoDup (idx r s out).
Proof.
  pose proof (idx_sorted r s out) as H. induction H as [|i l _ IH Hi]; constructor; [|done].
  intros Hin. rewrite Forall_forall in Hi. specialize (Hi i Hin). lia.
Qed.

(** ** Moves *)
(** The transitions of one key, with their conditions. *)
Inductive move (p : Policy) (now : Z) : KeyState → KeyState → Prop :=
| mv_activate k : k_Role k = ZSK → k_State k = PublishedKey →
    PublishedAt k + i64 (DNSKEYTTL p + Propagation p) ≤ now → move p now k (activated now k)
| mv_retire k : k_Role k = ZSK → k_State k = ActiveKey → move p now k (retired now k)
| mv_remove k t : k_Role k = ZSK → k_State k = RetiredKey → RetiredAt k = Some t →
    t + i64 (MaxZoneTTL p + Propagation p) ≤ now → move p now k (removed now k)
| mv_remove_ksk k : k_Role k = KSK → k_State k = ActiveKey → move p now k (removed now k).
Abbreviation moves p now := (Forall2 (rtc (move p now))).

Lemma moves_refl p now l : moves p now l l.
Proof. induction l; constructor; [apply rtc_refl|done]. Qed.
Lemma moves_trans p now a b c : moves p now a b → moves p now b c → moves p now a c.
Proof.
  intros Hab. revert c. induction Hab as [|x y a b Hxy _ IH]; intros c Hc; [by inversion Hc|].
  inversion Hc; subst. constructor; [by etrans|auto].
Qed.
Lemma moves_insert p now l i k k' : l !! i = Some k → move p now k k' → moves p now l (<[i := k']> l).
Proof.
  intros Hi Hm. apply Forall2_same_length_lookup. rewrite length_insert. split; [done|]. intros j x y Hx Hy.
  destruct (decide (i = j)) as [<-|Hne].
  - rewrite list_lookup_insert_eq in Hy by (by eapply lookup_lt_Some). simplify_eq. by apply rtc_once.
  - rewrite list_lookup_insert_ne in Hy by done. simplify_eq. apply rtc_refl.
Qed.

Definition mins (next : Z) (ats : list Z) : Z := foldl (λ n a, if IsZero n || Before a n then a else n) next ats.
Lemma pending_spec now at_ next : pending now at_ next = if at_ <=? now then (true, next) else (false, mins next [at_]).
Proof. unfold pending, Before. rewrite <- Z.leb_antisym. by destruct (at_ <=? now). Qed.

Lemma lookup_retire_all now active out j : NoDup active →
  retire_all now active out !! j = if decide (j ∈ active) then retired now <$> out !! j else out !! j.
Proof.
  unfold retire_all. revert out. induction active as [|a active IH]; intros out Hnd; cbn [foldl];
    [by rewrite decide_False by apply not_elem_of_nil|].
  apply NoDup_cons in Hnd as [Ha Hnd]. rewrite IH by done. destruct (decide (j = a)) as [->|Hne].
  - rewrite decide_False, decide_True by (done || left). by rewrite list_lookup_alter_eq.
  - rewrite list_lookup_alter_ne by done. destruct (decide (j ∈ active)).
    + by rewrite decide_True by (by right).
    + by rewrite decide_False by (by rewrite not_elem_of_cons).
Qed.
Lemma moves_retire_all p now active out : NoDup active →
  (∀ j, j ∈ active → ∃ k, out !! j = Some k ∧ k_Role k = ZSK ∧ k_State k = ActiveKey) →
  moves p now out (retire_all now active out).
Proof.
  intros Hnd Ha. apply Forall2_same_length_lookup. split.
  - unfold retire_all. clear Ha. revert out. induction active as [|a active IH]; intros out; [done|].
    apply NoDup_cons in Hnd as [_ Hnd]. simpl. by rewrite <- IH, length_alter.
  - intros j x y Hx. rewrite lookup_retire_all by done. case_decide as Hj.
    + destruct (Ha j Hj) as (k & Hk & Hr & Hs). rewrite Hk in Hx. injection Hx as ->. rewrite Hk. intros [= <-].
      apply rtc_once. by constructor.
    + intros Hy. rewrite Hx in Hy. injection Hy as ->. apply rtc_refl.
Qed.

(** ** Activation *)
Section activation.
Context (p : Policy) (now : Z).
Definition publish_at (k : KeyState) : Z := PublishedAt k + i64 (DNSKEYTTL p + Propagation p).
(** The instants of the keys at [is_] that are not yet due. *)
Definition wait_of (at_ : KeyState → option Z) (out : list KeyState) (i : nat) : option Z :=
  match out !! i with
  | Some k => match at_ k with Some a => if a <=? now then None else Some a | None => None end
  | None => None
  end.
Fixpoint waiting (at_ : KeyState → option Z) (is_ : list nat) (out : list KeyState) : list Z :=
  match is_ with
  | [] => []
  | i :: is_ => match wait_of at_ out i with Some a => a :: waiting at_ is_ out | None => waiting at_ is_ out end
  end.
Abbreviation waits := (waiting (λ k, Some (publish_at k))).

Lemma waiting_ext at_ is_ out out' : (∀ i, i ∈ is_ → out !! i = out' !! i) → waiting at_ is_ out = waiting at_ is_ out'.
Proof.
  intros H. induction is_ as [|i is_ IH]; [done|]. simpl. unfold wait_of. rewrite (H i) by left.
  rewrite IH; [done|]. intros j Hj. apply H. by right.
Qed.

Definition published_at (out : list KeyState) (i : nat) : Prop :=
  ∃ k, out !! i = Some k ∧ k_Role k = ZSK ∧ k_State k = PublishedKey.
Definition active_at (out : list KeyState) (i : nat) : Prop :=
  ∃ k, out !! i = Some k ∧ k_Role k = ZSK ∧ k_State k = ActiveKey.

(** The state of the loop: the positions left are published, [active] are the active ones. *)
Record loop_inv (is_ : list nat) (out : list KeyState) (active : list nat) : Prop := {
  li_nodup : NoDup is_;
  li_pub : ∀ i, i ∈ is_ → published_at out i;
  li_active : ∀ j, j ∈ active ↔ active_at out j;
  li_nodup_active : NoDup active;
}.

Definition fire (i : nat) (k : KeyState) (out : list KeyState) (active : list nat) : list KeyState :=
  retire_all now active (<[i := activated now k]> out).
Lemma fire_lookup i k out active j : out !! i = Some k → NoDup active →
  fire i k out active !! j =
    if decide (j ∈ active) then retired now <$> (<[i := activated now k]> out) !! j
    else if decide (j = i) then Some (activated now k) else out !! j.
Proof.
  intros Hi Hnd. unfold fire. rewrite lookup_retire_all by done. case_decide; [done|].
  case_decide as E; [subst; apply list_lookup_insert_eq; by eapply lookup_lt_Some|]. by rewrite list_lookup_insert_ne.
Qed.
Lemma fire_inv i is_ out active k : loop_inv (i :: is_) out active → out !! i = Some k →
  loop_inv is_ (fire i k out active) [i] ∧
  (∀ j, j ∈ is_ → fire i k out active !! j = out !! j) ∧
  (∀ j x, out !! j = Some x → k_Role x = KSK → fire i k out active !! j = Some x) ∧
  (∀ j, published_at (fire i k out active) j ↔ published_at out j ∧ j ≠ i).
Proof.
  intros [Hnd Hpub Hact Hna] Hi. apply NoDup_cons in Hnd as [Hni Hnd].
  destruct (Hpub i) as (k' & Hk' & Hr & Hs); [left|]. rewrite Hi in Hk'. injection Hk' as <-.
  assert (i ∉ active) as Hia.
  { rewrite Hact. intros (x & Hx & _ & Hxs). congruence. }
  assert (∀ j x, j ∈ active → out !! j = Some x → k_Role x = ZSK ∧ k_State x = ActiveKey) as Hax.
  { intros j x Hj Hx. apply Hact in Hj as (y & Hy & H1 & H2). rewrite Hx in Hy. by injection Hy as <-. }
  assert (∀ j, fire i k out active !! j =
    if decide (j ∈ active) then retired now <$> out !! j
    else if decide (j = i) then Some (activated now k) else out !! j) as Hf.
  { intros j. rewrite fire_lookup by done. case_decide; [|done]. rewrite list_lookup_insert_ne; [done|]. by intros <-. }
  split; [split|split_and!].
  - done.
  - intros j Hj. destruct (Hpub j) as (x & Hx & H1 & H2); [by right|]. exists x. rewrite Hf.
    rewrite decide_False; [rewrite decide_False; [done|by intros ->]|]. intros Hja. destruct (Hax j x Hja Hx). congruence.
  - intros j. rewrite list_elem_of_singleton. unfold active_at. split.
    + intros ->. exists (activated now k). rewrite Hf, decide_False, decide_True by done. done.
    + intros (x & Hx & H1 & H2). rewrite Hf in Hx. case_decide as Hja.
      * destruct (out !! j); [|done]. injection Hx as <-. done.
      * case_decide; [done|]. exfalso. apply Hja, Hact. by exists x.
  - apply NoDup_singleton.
  - intros j Hj. destruct (Hpub j) as (x & Hx & H1 & H2); [by right|]. rewrite Hf.
    rewrite decide_False; [rewrite decide_False; [done|by intros ->]|]. intros Hja. destruct (Hax j x Hja Hx). congruence.
  - intros j x Hx Hk. rewrite Hf. rewrite decide_False; [rewrite decide_False; [done|]|].
    + intros ->. congruence.
    + intros Hja. destruct (Hax j x Hja Hx). congruence.
  - intros j. unfold published_at. rewrite Hf. case_decide as Hja; [|case_decide as Hji].
    + split; [by intros (x & Hx & _ & Hxs); destruct (out !! j); [injection Hx as <-|]|].
      intros [(x & Hx & _ & Hxs) _]. destruct (Hax j x Hja Hx). congruence.
    + subst j. split; [by intros (x & [= <-] & _ & ?)|]. by intros [_ ?].
    + split; [intros H; by split|by intros [H _]].
Qed.

Record activate_post (is_ : list nat) (out : list KeyState) (active : list nat) (next : Z)
    (out' : list KeyState) (active' : list nat) (next' : Z) : Prop := {
  ap_moves : moves p now out out';
  ap_inv : loop_inv [] out' active';
  ap_active : active = [] ↔ active' = [];
  ap_pub : ∀ i, published_at out' i ↔ published_at out i ∧
    (i ∈ is_ → active ≠ [] → wait_of (λ k, Some (publish_at k)) out i ≠ None);
  ap_ksk : ∀ i k, out !! i = Some k → k_Role k = KSK → out' !! i = Some k;
  ap_next : next' = mins next (match active with [] => [] | _ => waits is_ out end);
}.

Lemma activate_spec is_ out active next out' active' next' :
  activate_loop p now is_ out active next = (out', active', next') → loop_inv is_ out active →
  activate_post is_ out active next out' active' next'.
Proof.
  revert out active next. induction is_ as [|i is_ IH]; intros out active next; cbn [activate_loop].
  { intros [= <- <- <-] HI. split; try done; [|by destruct active].
    intros i. split; [|by intros [? _]]. intros H. split; [done|]. by intros ?%not_elem_of_nil. }
  intros H HI. destruct (li_pub _ _ _ HI i) as (k & Hk & Hr & Hs); [left|]. rewrite Hk in H.
  pose proof (li_nodup _ _ _ HI) as [Hni Hnd]%NoDup_cons.
  assert (loop_inv is_ out active) as HI'.
  { split; [done| |apply HI|apply HI]. intros j Hj. apply HI. by right. }
  destruct active as [|a active].
  { destruct (IH _ _ _ H HI') as [H1 H2 H3 H4 H5 H6]. split; try done. intros j. rewrite H4. split; intros [? _]; done. }
  rewrite pending_spec in H. fold (publish_at k) in H.
  assert (wait_of (λ k, Some (publish_at k)) out i = if publish_at k <=? now then None else Some (publish_at k)) as Ew
    by (unfold wait_of; by rewrite Hk).
  cbn [waiting]. destruct (Z.leb_spec (publish_at k) now) as [Hdue|Hnot].
  - fold (fire i k out (a :: active)) in H.
    destruct (fire_inv i is_ out (a :: active) k HI Hk) as (HI1 & Hsame & Hksk & Hpub).
    destruct (IH _ _ _ H HI1) as [H1 H2 H3 H4 H5 H6]. split; try done.
    + eapply moves_trans; [|exact H1]. unfold fire.
      eapply moves_trans; [apply (moves_insert p now out i k (activated now k) Hk); by constructor|].
      apply moves_retire_all; [apply HI|]. intros j Hj. apply HI in Hj as (x & Hx & Hxr & Hxs).
      exists x. split; [|done]. rewrite list_lookup_insert_ne; [done|]. intros ->. congruence.
    + split; [done|]. by intros ?%H3.
    + intros j. rewrite H4, Hpub. unfold wait_of. split.
      * intros [[Hp Hne] Hw]. split; [done|]. rewrite elem_of_cons. intros [->|Hj] _; [done|].
        specialize (Hw Hj ltac:(done)). by rewrite Hsame in Hw.
      * intros [Hp Hw]. split.
        -- split; [done|]. intros ->. apply Hw; [left|done|]. rewrite Hk. by rewrite (proj2 (Z.leb_le _ _)).
        -- intros Hj _. rewrite Hsame by done. apply Hw; [by right|done].
    + intros j x Hx Hxr. apply H5; [|done]. by apply Hksk.
    + rewrite H6. cbn [waiting]. rewrite Ew. f_equal. by apply waiting_ext.
  - destruct (IH _ _ _ H HI') as [H1 H2 H3 H4 H5 H6]. split; try done.
    + intros j. rewrite H4. split; intros [Hp Hw]; (split; [done|]).
      * rewrite elem_of_cons. intros [->|Hj] Hne; [by rewrite Ew|auto].
      * intros Hj. apply Hw. by right.
    + rewrite H6. cbn [waiting]. by rewrite Ew.
Qed.
(** Without an active key nothing is activated; otherwise nothing changes or one key that was due is the active one. *)
Lemma activate_dark is_ out next out' active' next' : activate_loop p now is_ out [] next = (out', active', next') → out' = out.
Proof. induction is_ as [|i is_ IH]; cbn [activate_loop]; [by intros [= <- _ _]|]. destruct (out !! i); [done|]. by intros [= <- _ _]. Qed.
Lemma activate_succ is_ out active next out' active' next' :
  activate_loop p now is_ out active next = (out', active', next') → loop_inv is_ out active →
  out' = out ∨ ∃ j k, out !! j = Some k ∧ k_Role k = ZSK ∧ k_State k = PublishedKey ∧ publish_at k ≤ now ∧ out' !! j = Some (activated now k) ∧ active' = [j].
Proof.
  revert out active next. induction is_ as [|i is_ IH]; intros out active next; cbn [activate_loop]; [intros [= <- _ _] _; by left|].
  intros H HI. destruct (li_pub _ _ _ HI i) as (k & Hk & Hr & Hs); [left|]. rewrite Hk in H.
  destruct active as [|a active]; [left; by eapply activate_dark|].
  assert (loop_inv is_ out (a :: active)) as HI' by (pose proof (li_nodup _ _ _ HI) as [_ ?]%NoDup_cons; split; [done|intros j Hj; apply HI; by right|apply HI|apply HI]).
  rewrite pending_spec in H. fold (publish_at k) in H. destruct (Z.leb_spec (publish_at k) now) as [Hdue|_]; [|by eapply IH].
  fold (fire i k out (a :: active)) in H. destruct (fire_inv i is_ out (a :: active) k HI Hk) as (HI1 & _ & _ & _).
  assert (i ∉ a :: active) as Hia by (rewrite (li_active _ _ _ HI); intros (x & Hx & _ & ?); congruence). right.
  destruct (IH _ _ _ H HI1) as [->|(j & k' & Hk' & Hr' & Hs' & Hd & Ho)].
  - exists i, k. split_and!; try done; [by rewrite fire_lookup, decide_False, decide_True by (done || apply HI)|].
    pose proof (activate_spec _ _ _ _ _ _ _ H HI1) as Hp. destruct (ap_inv _ _ _ _ _ _ _ Hp) as [_ _ Ha Hn].
    apply Permutation_singleton_r, NoDup_Permutation; [done|apply NoDup_singleton|]. intros j. rewrite (Ha j). symmetry. apply (li_active _ _ _ HI1).
  - exists j, k'. split; [|done]. rewrite fire_lookup in Hk' by (done || apply HI). case_decide; [|case_decide; [|done]].
    + destruct (<[i:=activated now k]> out !! j); [|done]. by injection Hk' as <-.
    + injection Hk' as <-. done.
Qed.
End activation.

(** ** Removal *)
Definition retire_at (p : Policy) (k : KeyState) : option Z :=
  (λ t, t + i64 (MaxZoneTTL p + Propagation p)) <$> RetiredAt k.
Definition retired_at (out : list KeyState) (i : nat) : Prop :=
  ∃ k, out !! i = Some k ∧ k_Role k = ZSK ∧ k_State k = RetiredKey.
(** The key at [i] is not due at [now]. *)
Definition not_due (now : Z) (at_ : KeyState → option Z) (out : list KeyState) (i : nat) : Prop :=
  ∀ k a, out !! i = Some k → at_ k = Some a → now < a.

Record remove_post (p : Policy) (now : Z) (is_ : list nat) (out : list KeyState) (next : Z)
    (out' : list KeyState) (next' : Z) : Prop := {
  rp_moves : moves p now out out';
  rp_same : ∀ i, i ∉ is_ ∨ not_due now (retire_at p) out i → out' !! i = out !! i;
  rp_gone : ∀ i, i ∈ is_ → ¬ not_due now (retire_at p) out i → ∃ k, out' !! i = Some k ∧ k_State k = RemovedKey ∧ k_Role k = ZSK;
  rp_next : next' = mins next (waiting now (retire_at p) is_ out);
}.
Lemma not_due_of now at_ out i k a : out !! i = Some k → at_ k = Some a → not_due now at_ out i ↔ now < a.
Proof. intros Hk Ha. split; [intros H; by eapply H|]. intros H k' a' Hk' Ha'. congruence. Qed.

Lemma remove_spec p now is_ out next out' next' :
  remove_loop p now is_ out next = (out', next') → NoDup is_ → (∀ i, i ∈ is_ → retired_at out i) →
  remove_post p now is_ out next out' next'.
Proof.
  revert out next. induction is_ as [|i is_ IH]; intros out next; cbn [remove_loop].
  { intros [= <- <-] _ _. split; try done. by intros i ?%not_elem_of_nil. }
  intros H [Hni Hnd]%NoDup_cons Hret. destruct (Hret i) as (k & Hk & Hr & Hs); [left|]. rewrite Hk in H.
  destruct (RetiredAt k) as [t|] eqn:Et.
  - assert (retire_at p k = Some (t + i64 (MaxZoneTTL p + Propagation p))) as Ea by (unfold retire_at; by rewrite Et).
    pose proof (not_due_of now (retire_at p) out i k _ Hk Ea) as Hnot.
    assert (wait_of now (retire_at p) out i = if t + i64 (MaxZoneTTL p + Propagation p) <=? now then None
      else Some (t + i64 (MaxZoneTTL p + Propagation p))) as Ew by (unfold wait_of; by rewrite Hk, Ea).
    rewrite pending_spec in H.
    destruct (Z.leb_spec (t + i64 (MaxZoneTTL p + Propagation p)) now) as [Hdue|Hlate].
    + assert (∀ j, j ≠ i → <[i := removed now k]> out !! j = out !! j) as Hne by (intros; by rewrite list_lookup_insert_ne).
      assert (∀ j, j ≠ i → not_due now (retire_at p) (<[i := removed now k]> out) j ↔ not_due now (retire_at p) out j) as Hnd'.
      { intros j Hj. unfold not_due. by rewrite Hne. }
      destruct (IH _ _ H Hnd) as [H1 H2 H3 H4].
      { intros j Hj. unfold retired_at. rewrite Hne by (by intros ->). apply Hret. by right. }
      split.
      * eapply moves_trans; [|exact H1]. eapply moves_insert; [done|]. by eapply mv_remove.
      * intros j Hj. assert (j ≠ i) as Hji.
        { intros ->. destruct Hj as [Hj|Hj]; [apply Hj; left|]. apply Hnot in Hj. lia. }
        rewrite H2; [by apply Hne|]. rewrite Hnd' by done. rewrite not_elem_of_cons in Hj. tauto.
      * intros j. rewrite elem_of_cons. intros Hj Hd. destruct (decide (j = i)) as [->|Hji].
        -- exists (removed now k). split; [|done]. rewrite H2 by (by left). apply list_lookup_insert_eq. by eapply lookup_lt_Some.
        -- destruct Hj as [|Hj]; [done|]. apply H3; [done|]. by rewrite Hnd'.
      * rewrite H4. cbn [waiting]. rewrite Ew. f_equal. apply waiting_ext. intros j Hj. apply Hne. by intros ->.
    + destruct (IH _ _ H Hnd) as [H1 H2 H3 H4]; [intros j Hj; apply Hret; by right|]. split; try done.
      * intros j Hj. rewrite not_elem_of_cons in Hj. destruct (decide (j = i)) as [->|]; [apply H2; right; by apply Hnot|].
        apply H2. tauto.
      * intros j. rewrite elem_of_cons. intros [->|Hj] Hd; [by rewrite Hnot in Hd|auto].
      * rewrite H4. cbn [waiting]. by rewrite Ew.
  - assert (not_due now (retire_at p) out i) as Hn.
    { intros k' a Hk' Ha. rewrite Hk in Hk'. injection Hk' as <-. unfold retire_at in Ha. by rewrite Et in Ha. }
    destruct (IH _ _ H Hnd) as [H1 H2 H3 H4]; [intros j Hj; apply Hret; by right|]. split; try done.
    + intros j Hj. rewrite not_elem_of_cons in Hj. destruct (decide (j = i)) as [->|]; [apply H2; by right|].
      apply H2. tauto.
    + intros j. rewrite elem_of_cons. intros [->|Hj] Hd; [done|auto].
    + rewrite H4. cbn [waiting]. unfold wait_of. rewrite Hk. unfold retire_at. by rewrite Et.
Qed.
