(* ===== verification/RolloverTheorems.v ===== *)
(** * Key rollovers are safe

    [Advance] against the two dangers of a rollover: a key that signs before resolvers can know it or
    disappears while its signatures are still cached, and a zone left without a signing key; and
    against its caller's schedule, which sleeps until the instant [Advance] returns. *)

From S2P Require Import Prelude.
From S2P Require Import Effects.
From S2P Require Import DnssecRollover.

(** ** The instants a state waits for *)
Definition at_of (at_ : KeyState → option Z) (out : list KeyState) (i : nat) : option Z :=
  match out !! i with Some k => at_ k | None => None end.
Fixpoint ats (at_ : KeyState → option Z) (is_ : list nat) (out : list KeyState) : list Z :=
  match is_ with
  | [] => []
  | i :: is_ => match at_of at_ out i with Some a => a :: ats at_ is_ out | None => ats at_ is_ out end
  end.

Lemma sorted_head (i : nat) l l' : StronglySorted lt (i :: l) → StronglySorted lt l' → i ∈ l' →
  (∀ j, j ∈ l' → j = i ∨ j ∈ l) → ∃ l'', l' = i :: l''.
Proof.
  intros Hs Hs' Hi Hsub. destruct l' as [|j l']; [by apply not_elem_of_nil in Hi|].
  apply StronglySorted_inv in Hs as [_ Hl]. apply StronglySorted_inv in Hs' as [_ Hl'].
  rewrite Forall_forall in Hl, Hl'. exists l'. f_equal.
  apply elem_of_cons in Hi as [->|Hi]; [done|]. specialize (Hl' i Hi).
  destruct (Hsub j) as [->|Hj]; [left|done|]. specialize (Hl j Hj). lia.
Qed.
Lemma sorted_tail (i : nat) l : StronglySorted lt (i :: l) → i ∉ l ∧ StronglySorted lt l.
Proof. intros [Hs Hl]%StronglySorted_inv. split; [|done]. intros Hi. rewrite Forall_forall in Hl. specialize (Hl i Hi). lia. Qed.

Lemma not_due_cases now at_ out i :
  (¬ not_due now at_ out i ∧ wait_of now at_ out i = None) ∨
  (not_due now at_ out i ∧ wait_of now at_ out i = at_of at_ out i).
Proof.
  unfold wait_of, at_of, not_due. destruct (out !! i) as [k|] eqn:Ek; [|right; split; [done|done]].
  destruct (at_ k) as [a|] eqn:Ea; [|right; split; [intros; congruence|done]].
  destruct (Z.leb_spec a now); [left|right]; (split; [|done]).
  - intros H'. specialize (H' k a eq_refl Ea). lia.
  - intros k' a' [= <-]. congruence.
Qed.
Lemma waiting_sub now at_ is_ is_' out out' :
  StronglySorted lt is_ → StronglySorted lt is_' →
  (∀ i, i ∈ is_' ↔ i ∈ is_ ∧ not_due now at_ out i) →
  (∀ i, i ∈ is_' → at_of at_ out i = at_of at_ out' i) →
  waiting now at_ is_ out = ats at_ is_' out'.
Proof.
  intros Hs. revert is_'. induction is_ as [|i is_ IH]; intros is_' Hs' Hin Hat.
  { destruct is_' as [|j is_']; [done|]. destruct (proj1 (Hin j)) as [[]%not_elem_of_nil _]. left. }
  destruct (sorted_tail _ _ Hs) as [Hni Hs0]. cbn [waiting].
  destruct (not_due_cases now at_ out i) as [[Hd ->]|[Hd ->]].
  - apply IH; [done..| |done]. intros j. rewrite Hin, elem_of_cons. split; [|tauto].
    intros [[->|?] ?]; [done|done].
  - destruct (sorted_head i is_ is_' Hs Hs') as [is'' ->].
    { apply Hin. split; [left|done]. }
    { intros j [Hj _]%Hin. by apply elem_of_cons in Hj. }
    destruct (sorted_tail _ _ Hs') as [Hni' Hs1]. cbn [ats]. rewrite <- (Hat i) by left.
    rewrite (IH Hs0 is''); [done|done| |].
    + intros j. specialize (Hin j). rewrite !elem_of_cons in Hin. split.
      * intros Hj. assert (j ≠ i) by (by intros ->). tauto.
      * intros [Hj Hd']. destruct (proj2 Hin) as [->|]; [tauto|done|done].
    + intros j Hj. apply Hat. by right.
Qed.
Lemma idx_ext r s out out' :
  (∀ i, (∃ k, out !! i = Some k ∧ k_Role k = r ∧ k_State k = s) ↔ (∃ k, out' !! i = Some k ∧ k_Role k = r ∧ k_State k = s)) →
  idx r s out = idx r s out'.
Proof.
  intros H. pose proof (idx_sorted r s out) as S1. pose proof (idx_sorted r s out') as S2.
  assert (∀ i, i ∈ idx r s out ↔ i ∈ idx r s out') as He by (intros i; by rewrite !elem_idx).
  revert He S1 S2. generalize (idx r s out) (idx r s out'). clear. intros l.
  induction l as [|i l IH]; intros l' He S1 S2.
  - destruct l' as [|j l']; [done|]. exfalso. apply (not_elem_of_nil j). apply He. left.
  - destruct (sorted_head i l l' S1 S2) as [l'' ->]; [apply He; left| |].
    { intros j Hj. apply He in Hj. by apply elem_of_cons in Hj. }
    destruct (sorted_tail _ _ S1) as [N1 S1']. destruct (sorted_tail _ _ S2) as [N2 S2']. f_equal. apply IH; [|done..].
    intros j. specialize (He j). rewrite !elem_of_cons in He.
    split; intros Hj; [assert (j ≠ i) by (by intros ->)|assert (j ≠ i) by (by intros ->)]; tauto.
Qed.

Section rollover.
Context (p : Policy).
Abbreviation pub_at := (λ k, Some (publish_at p k)).

Definition zsk_waits (out : list KeyState) : list Z :=
  match idx ZSK ActiveKey out with [] => [] | _ => ats pub_at (idx ZSK PublishedKey out) out end.
Definition retired_waits (out : list KeyState) : list Z := ats (retire_at p) (idx ZSK RetiredKey out) out.
Definition ksk_waits (out : list KeyState) : list Z :=
  match idx KSK ActiveKey out with
  | [i; j] =>
      match out !! i, out !! j with
      | Some a, Some b =>
          let n := if Before (activatedAt b) (activatedAt a) then a else b in
          match DSState n, DSSeenAt n with DSSeen, Some t => [t + i64 (ParentDSTTL p + Propagation p)] | _, _ => [] end
      | _, _ => []
      end
  | _ => []
  end.
Definition create_waits (out : list KeyState) : list Z :=
  match idx ZSK ActiveKey out, idx ZSK PublishedKey out with
  | [i], [] =>
      match out !! i with
      | Some z => match ActivatedAt z with Some t => if 0 <? ZSKLifetime p then [t + ZSKLifetime p] else [] | None => [] end
      | None => []
      end
  | _, _ => []
  end.
Definition late (now : Z) (l : list Z) : list Z := filter (λ a, now < a) l.
Definition state_waits (out : list KeyState) : list Z := zsk_waits out ++ retired_waits out ++ ksk_waits out.

Lemma mins_app n l k : mins n (l ++ k) = mins (mins n l) k.
Proof. unfold mins. by rewrite foldl_app. Qed.

(** ** KSKs *)
Inductive ksk_result (now : Z) (out : list KeyState) (next : Z) : list KeyState → Z → Prop :=
| ksk_idle : (∀ a, a ∈ ksk_waits out → now < a) → ksk_result now out next out (mins next (ksk_waits out))
| ksk_fired i j o n t :
    i ≠ j → out !! i = Some o → out !! j = Some n → (∀ l, l ∈ idx KSK ActiveKey out ↔ l = i ∨ l = j) →
    k_Role o = KSK → k_State o = ActiveKey → k_Role n = KSK → k_State n = ActiveKey →
    DSState n = DSSeen → DSSeenAt n = Some t → t + i64 (ParentDSTTL p + Propagation p) ≤ now →
    activatedAt o ≤ activatedAt n → t + i64 (ParentDSTTL p + Propagation p) ∈ ksk_waits out → ksk_result now out next (<[i := removed now o]> out) next.

Lemma ksk_step_result now out next out' next' : ksk_step p now out next = (out', next') → ksk_result now out next out' next'.
Proof.
  unfold ksk_step. pose proof (ksk_idle now out next) as Hidle. unfold ksk_waits in Hidle.
  destruct (idx KSK ActiveKey out) as [|i [|j [|]]] eqn:Ei;
    try (intros [= <- <-]; apply Hidle; by intros a ?%not_elem_of_nil).
  assert (∀ l, l ∈ idx KSK ActiveKey out ↔ l = i ∨ l = j) as Hl.
  { intros l. rewrite Ei, !elem_of_cons. pose proof (not_elem_of_nil l). tauto. }
  destruct (proj1 (elem_idx KSK ActiveKey out i)) as (a & Ha & Har & Has); [apply Hl; by left|].
  destruct (proj1 (elem_idx KSK ActiveKey out j)) as (b & Hb & Hbr & Hbs); [apply Hl; by right|].
  assert (i ≠ j) as Hne.
  { pose proof (idx_NoDup KSK ActiveKey out) as Hnd. rewrite Ei in Hnd. apply NoDup_cons in Hnd as [Hnd _].
    intros ->. apply Hnd. left. }
  rewrite Ha, Hb in Hidle |- *. destruct (Before (activatedAt b) (activatedAt a)) eqn:Eb; unfold Before in Eb.
  - apply Z.ltb_lt in Eb. destruct (DSState a) eqn:Eds, (DSSeenAt a) as [t|] eqn:Et;
      try (intros [= <- <-]; apply Hidle; by intros x ?%not_elem_of_nil).
    rewrite pending_spec. destruct (Z.leb_spec (t + i64 (ParentDSTTL p + Propagation p)) now) as [Hd|Hd]; intros [= <- <-].
    + eapply (ksk_fired now out next j i b a t); try done; [intros l; rewrite Hl; tauto|lia|].
      unfold ksk_waits. rewrite Ei, Ha, Hb. unfold Before. rewrite (proj2 (Z.ltb_lt _ _)) by done. rewrite Eds, Et. left.
    + apply Hidle. intros x ->%list_elem_of_singleton. lia.
  - apply Z.ltb_ge in Eb. destruct (DSState b) eqn:Eds, (DSSeenAt b) as [t|] eqn:Et;
      try (intros [= <- <-]; apply Hidle; by intros x ?%not_elem_of_nil).
    rewrite pending_spec. destruct (Z.leb_spec (t + i64 (ParentDSTTL p + Propagation p)) now) as [Hd|Hd]; intros [= <- <-].
    + eapply (ksk_fired now out next i j a b t); try done.
      unfold ksk_waits. rewrite Ei, Ha, Hb. unfold Before. rewrite (proj2 (Z.ltb_ge _ _)) by done. rewrite Eds, Et. left.
    + apply Hidle. intros x ->%list_elem_of_singleton. lia.
Qed.
Lemma ksk_step_idle now out next : (∀ a, a ∈ ksk_waits out → now < a) →
  ksk_step p now out next = (out, mins next (ksk_waits out)).
Proof.
  intros H. destruct (ksk_step p now out next) as [out' next'] eqn:E. pose proof (ksk_step_result _ _ _ _ _ E) as Hr.
  destruct Hr as [|i j o n t Hne Ho Hn Hl H1 H2 H3 H4 H5 H6 H7 H8 H9]; [done|]. specialize (H _ H9). lia.
Qed.

(** ** The automatic rollover *)
Lemma create_step_spec now out active next : (∀ j, j ∈ active ↔ j ∈ idx ZSK ActiveKey out) → NoDup active →
  create_step p now out active next =
    (mkActions (bool_decide (Exists (λ a, a ≤ now) (create_waits out))), mins next (late now (create_waits out))).
Proof.
  intros Ha Hnd. assert (active ≡ₚ idx ZSK ActiveKey out) as Hp by (apply NoDup_Permutation; [done|apply idx_NoDup|done]).
  unfold create_step, create_waits, late. destruct (idx ZSK ActiveKey out) as [|i [|j l]].
  - apply Permutation_nil_r in Hp as ->. done.
  - apply Permutation_singleton_r in Hp as ->. destruct (idx ZSK PublishedKey out); [|done].
    destruct (out !! i) as [z|]; [|done]. destruct (ActivatedAt z) as [t|]; [|done]. destruct (0 <? ZSKLifetime p); [|done].
    rewrite pending_spec. destruct (Z.leb_spec (t + ZSKLifetime p) now) as [Hd|Hd].
    + rewrite bool_decide_eq_true_2 by (by apply Exists_cons; left). by rewrite filter_cons_False by lia.
    + rewrite bool_decide_eq_false_2 by (rewrite Exists_cons, Exists_nil; lia). by rewrite filter_cons_True by lia.
  - destruct active as [|x [|y active]]; [done|apply Permutation_length in Hp; done|done].
Qed.

(** ** Nothing due, nothing done *)
Lemma activate_idle now is_ out active next :
  (∀ i, i ∈ is_ → ∃ k, out !! i = Some k) → active = [] ∨ (∀ i, i ∈ is_ → not_due now pub_at out i) →
  activate_loop p now is_ out active next =
    (out, active, mins next (match active with [] => [] | _ => ats pub_at is_ out end)).
Proof.
  intros Hk Hd. revert next. induction is_ as [|i is_ IH]; intros next; [by destruct active|]. cbn [activate_loop].
  destruct (Hk i) as [k Ek]; [left|]. rewrite Ek.
  assert (∀ next, activate_loop p now is_ out active next =
    (out, active, mins next (match active with [] => [] | _ => ats pub_at is_ out end))) as IH'.
  { apply IH; [intros j Hj; apply Hk; by right|]. destruct Hd as [?|Hd]; [by left|right]. intros j Hj. apply Hd. by right. }
  destruct active as [|a active]; [apply IH'|]. rewrite pending_spec. fold (publish_at p k).
  destruct Hd as [|Hd]; [done|]. pose proof (Hd i ltac:(left) k _ Ek eq_refl) as Hlt.
  rewrite (proj2 (Z.leb_gt _ _)) by done. rewrite IH'. cbn [ats]. unfold at_of. by rewrite Ek.
Qed.
Lemma remove_idle now is_ out next :
  (∀ i, i ∈ is_ → ∃ k, out !! i = Some k) → (∀ i, i ∈ is_ → not_due now (retire_at p) out i) →
  remove_loop p now is_ out next = (out, mins next (ats (retire_at p) is_ out)).
Proof.
  intros Hk Hd. revert next. induction is_ as [|i is_ IH]; intros next; [done|]. cbn [remove_loop].
  destruct (Hk i) as [k Ek]; [left|]. rewrite Ek. cbn [ats]. unfold at_of. rewrite Ek.
  assert (∀ next, remove_loop p now is_ out next = (out, mins next (ats (retire_at p) is_ out))) as IH'.
  { apply IH; intros j Hj; [apply Hk|apply Hd]; by right. }
  pose proof (Hd i ltac:(left) k) as Hlt. unfold retire_at in Hlt |- * at 1. destruct (RetiredAt k) as [t|]; [|apply IH'].
  rewrite pending_spec. specialize (Hlt _ Ek eq_refl). rewrite (proj2 (Z.leb_gt _ _)) by done. apply IH'.
Qed.
Lemma elem_ats at_ is_ out a : a ∈ ats at_ is_ out ↔ ∃ i, i ∈ is_ ∧ at_of at_ out i = Some a.
Proof.
  induction is_ as [|i is_ IH]; simpl.
  - split; [by intros []%not_elem_of_nil|by intros (i & []%not_elem_of_nil & _)].
  - destruct (at_of at_ out i) as [b|] eqn:E; rewrite ?elem_of_cons, IH; setoid_rewrite elem_of_cons; split.
    + intros [->|(j & Hj & Ej)]; eauto.
    + intros (j & [->|Hj] & Ej); [left; congruence|right; eauto].
    + intros (j & Hj & Ej). eauto.
    + intros (j & [->|Hj] & Ej); [congruence|eauto].
Qed.
Lemma idx_lookup r ph out i : i ∈ idx r ph out → ∃ k, out !! i = Some k.
Proof. intros (k & Hk & _)%elem_idx. by exists k. Qed.

(** [Advance] of a state that waits for later instants only. *)
Lemma Advance_idle out now : (∀ a, a ∈ state_waits out → now < a) →
  Advance out p now =
    (out, mkActions (bool_decide (Exists (λ a, a ≤ now) (create_waits out))),
     mins zero_time (state_waits out ++ late now (create_waits out))).
Proof.
  intros Hq. unfold state_waits in *. unfold Advance. rewrite activate_idle.
  - rewrite remove_idle.
    + rewrite ksk_step_idle by (intros a Ha; apply Hq; rewrite !elem_of_app; auto).
      rewrite create_step_spec by (done || apply idx_NoDup). rewrite !mins_app. done.
    + apply idx_lookup.
    + intros i Hi k a Hk Ha. apply Hq. rewrite !elem_of_app. right. left. apply elem_ats. exists i.
      split; [done|]. unfold at_of. by rewrite Hk.
  - apply idx_lookup.
  - destruct (idx ZSK ActiveKey out) eqn:Ea; [by left|right]. intros i Hi k a Hk Ha. apply Hq. rewrite !elem_of_app. left.
    unfold zsk_waits. rewrite Ea. apply elem_ats. exists i. split; [done|]. unfold at_of. by rewrite Hk.
Qed.

(** ** What [Advance] reaches *)
Lemma move_kept now k k' : rtc (move p now) k k' → k_Role k' = k_Role k ∧ PublishedAt k' = PublishedAt k.
Proof. induction 1 as [|x y z Hxy _ [-> ->]]; [done|]. by destruct Hxy. Qed.
Lemma moves_lookup now l l' i k' : moves p now l l' → l' !! i = Some k' → ∃ k, l !! i = Some k ∧ rtc (move p now) k k'.
Proof.
  intros Hm Hi. destruct (Forall2_lookup_r _ _ _ _ _ Hm Hi) as (k & Hk & Hr). by exists k.
Qed.

(** One ZSK took over from those that were active: it was due, and it is the only active one. *)
Definition succeeded (now : Z) (keys out : list KeyState) : Prop :=
  (∃ i k, keys !! i = Some k ∧ k_Role k = ZSK ∧ k_State k = ActiveKey) ∧
  ∃ j k, keys !! j = Some k ∧ k_Role k = ZSK ∧ k_State k = PublishedKey ∧ PublishedAt k + i64 (DNSKEYTTL p + Propagation p) ≤ now ∧
    out !! j = Some (activated now k) ∧ ∀ i k', out !! i = Some k' → k_Role k' = ZSK → k_State k' = ActiveKey → i = j.
Lemma idx_nonempty r s out : idx r s out ≠ [] ↔ ∃ i k, out !! i = Some k ∧ k_Role k = r ∧ k_State k = s.
Proof.
  split.
  - intros Hne. destruct (idx r s out) as [|i l] eqn:E; [done|]. exists i. apply elem_idx. rewrite E. left.
  - intros (i & k & H) E. apply (not_elem_of_nil i). rewrite <- E. apply elem_idx. eauto.
Qed.
Record staged (now : Z) (keys out1 : list KeyState) (active1 : list nat) (n1 : Z) (out2 : list KeyState) (n2 : Z)
    (out3 : list KeyState) (n3 : Z) : Prop := {
  sg_activate : activate_post p now (idx ZSK PublishedKey keys) keys (idx ZSK ActiveKey keys) zero_time out1 active1 n1;
  sg_remove : remove_post p now (idx ZSK RetiredKey out1) out1 n1 out2 n2;
  sg_ksk : ksk_result now out2 n2 out3 n3;
}.
Section stages.
Context (now : Z) (keys out1 : list KeyState) (active1 : list nat) (n1 : Z) (out2 : list KeyState) (n2 : Z).
Context (out3 : list KeyState) (n3 : Z) (Hst : staged now keys out1 active1 n1 out2 n2 out3 n3).

Lemma stage2_same i k : out1 !! i = Some k → k_State k ≠ RetiredKey ∨ k_Role k = KSK → out2 !! i = Some k.
Proof.
  intros Hk Hs. rewrite (rp_same _ _ _ _ _ _ _ (sg_remove _ _ _ _ _ _ _ _ _ Hst) i); [done|]. left.
  intros (x & Hx & Hr & Hst')%elem_idx. intuition congruence.
Qed.
Lemma stage2_back i k : out2 !! i = Some k → k_State k ≠ RemovedKey ∨ k_Role k = KSK → out1 !! i = Some k.
Proof.
  intros Hk Hs. pose proof (sg_remove _ _ _ _ _ _ _ _ _ Hst) as Hr.
  destruct (decide (i ∈ idx ZSK RetiredKey out1)) as [Hi|Hi].
  - destruct (not_due_cases now (retire_at p) out1 i) as [[Hd _]|[Hd _]].
    + destruct (rp_gone _ _ _ _ _ _ _ Hr i Hi Hd) as (x & Hx & Hxs & Hxr). intuition congruence.
    + rewrite <- (rp_same _ _ _ _ _ _ _ Hr i); [done|by right].
  - rewrite <- (rp_same _ _ _ _ _ _ _ Hr i); [done|by left].
Qed.
Lemma stage3_zsk i k : k_Role k = ZSK → out3 !! i = Some k ↔ out2 !! i = Some k.
Proof.
  intros Hz. destruct (sg_ksk _ _ _ _ _ _ _ _ _ Hst) as [|j l o n t Hne Ho Hn _ H1 _ _ _ _ _ _ _ _]; [done|].
  destruct (decide (i = j)) as [->|Hij]; [|by rewrite list_lookup_insert_ne].
  rewrite list_lookup_insert_eq by (by eapply lookup_lt_Some). rewrite Ho.
  split; intros [= <-]; simpl in Hz; congruence.
Qed.
(** The published and the active ZSKs are those the first loop left; the retired ones those not due. *)
Lemma stage_zsk s i : s = PublishedKey ∨ s = ActiveKey → i ∈ idx ZSK s out3 ↔ i ∈ idx ZSK s out1.
Proof.
  intros Hs. rewrite !elem_idx. split; intros (k & Hk & Hr & Hks); exists k; (split; [|done]).
  - apply stage3_zsk in Hk; [|done]. apply stage2_back; [done|]. left. intuition congruence.
  - apply stage3_zsk; [done|]. apply stage2_same; [done|]. left. intuition congruence.
Qed.
Lemma stage_retired i : i ∈ idx ZSK RetiredKey out3 ↔ i ∈ idx ZSK RetiredKey out1 ∧ not_due now (retire_at p) out1 i.
Proof.
  pose proof (sg_remove _ _ _ _ _ _ _ _ _ Hst) as Hr. rewrite (elem_idx ZSK RetiredKey out3). split.
  - intros (k & Hk & Hkr & Hks). apply stage3_zsk in Hk; [|done].
    assert (out1 !! i = Some k) as Hk1 by (apply stage2_back; [done|left; congruence]).
    assert (i ∈ idx ZSK RetiredKey out1) as Hi by (apply elem_idx; eauto). split; [done|].
    destruct (not_due_cases now (retire_at p) out1 i) as [[Hd _]|[Hd _]]; [|done].
    destruct (rp_gone _ _ _ _ _ _ _ Hr i Hi Hd) as (x & Hx & Hxs & _). congruence.
  - intros [(k & Hk & Hkr & Hks)%elem_idx Hd]. exists k. split; [|done]. apply stage3_zsk; [done|].
    by rewrite (rp_same _ _ _ _ _ _ _ Hr i) by (by right).
Qed.
Lemma stage_moves : moves p now keys out3.
Proof.
  pose proof (sg_activate _ _ _ _ _ _ _ _ _ Hst) as Ha. pose proof (sg_remove _ _ _ _ _ _ _ _ _ Hst) as Hr.
  eapply moves_trans; [apply Ha|]. eapply moves_trans; [apply Hr|].
  destruct (sg_ksk _ _ _ _ _ _ _ _ _ Hst) as [|j l o n t Hne Ho Hn _ H1 H2 _ _ _ _ _ _ _]; [apply moves_refl|].
  eapply moves_insert; [done|]. by apply mv_remove_ksk.
Qed.

Lemma stage_pub i : idx ZSK ActiveKey keys ≠ [] →
  i ∈ idx ZSK PublishedKey out3 ↔ i ∈ idx ZSK PublishedKey keys ∧ not_due now pub_at keys i.
Proof.
  intros Hne. pose proof (sg_activate _ _ _ _ _ _ _ _ _ Hst) as Ha.
  rewrite stage_zsk by (by left). rewrite (elem_idx ZSK PublishedKey out1). fold (published_at out1 i).
  rewrite (ap_pub _ _ _ _ _ _ _ _ _ Ha), elem_idx. fold (published_at keys i).
  split; intros [Hp Hw]; (split; [done|]).
  - destruct (not_due_cases now pub_at keys i) as [[_ E]|[Hd _]]; [|done].
    by destruct (Hw Hp Hne E).
  - intros _ _. destruct Hp as (k & Hk & _). destruct (not_due_cases now pub_at keys i) as [[Hd _]|[_ ->]]; [done|].
    unfold at_of. by rewrite Hk.
Qed.
Lemma stage_active : idx ZSK ActiveKey keys = [] ↔ idx ZSK ActiveKey out3 = [].
Proof.
  pose proof (sg_activate _ _ _ _ _ _ _ _ _ Hst) as Ha. rewrite (ap_active _ _ _ _ _ _ _ _ _ Ha).
  assert (∀ j, j ∈ active1 ↔ j ∈ idx ZSK ActiveKey out3) as He.
  { intros j. rewrite stage_zsk by (by right). rewrite elem_idx. apply (ap_inv _ _ _ _ _ _ _ _ _ Ha). }
  split; intros E; rewrite E in He.
  - destruct (idx ZSK ActiveKey out3) as [|j l]; [done|]. exfalso. apply (not_elem_of_nil j). apply He. left.
  - destruct active1 as [|j l]; [done|]. exfalso. apply (not_elem_of_nil j). apply He. left.
Qed.

Lemma stage_succ : (idx ZSK ActiveKey keys = [] → out1 = keys) →
  (out1 = keys ∨ ∃ j k, keys !! j = Some k ∧ k_Role k = ZSK ∧ k_State k = PublishedKey ∧ publish_at p k ≤ now ∧ out1 !! j = Some (activated now k) ∧ active1 = [j]) →
  (∀ i k, keys !! i = Some k → k_Role k = ZSK → k_State k = PublishedKey ∨ k_State k = ActiveKey → out3 !! i = Some k) ∨ succeeded now keys out3.
Proof.
  intros Hdark Hs. assert (∀ i k, out1 !! i = Some k → k_Role k = ZSK → k_State k ≠ RetiredKey → out3 !! i = Some k) as Hsame
    by (intros i k Hk Hr Hn; apply stage3_zsk; [done|]; apply stage2_same; [done|by left]).
  destruct Hs as [E|(j & k & Hk & Hr & Hp & Hd & Ho & Ea)]; [left; intros i k Hk Hr Hs; apply Hsame; [by rewrite E|done|intuition congruence]|].
  destruct (idx ZSK ActiveKey keys) as [|x l] eqn:Ei; [exfalso; rewrite (Hdark eq_refl) in Ho; rewrite Hk in Ho; injection Ho as Ho; rewrite Ho in Hp; done|].
  right. split; [assert (x ∈ idx ZSK ActiveKey keys) as (y & Hy)%elem_idx by (rewrite Ei; left); eauto|].
  exists j, k. split_and!; try done; [by apply Hsame|]. intros i k' Hk' Hr' Hs'. assert (i ∈ idx ZSK ActiveKey out3) as Hi by (apply elem_idx; eauto).
  rewrite stage_zsk, elem_idx in Hi by (by right). apply (li_active _ _ _ (ap_inv _ _ _ _ _ _ _ _ _ (sg_activate _ _ _ _ _ _ _ _ _ Hst))) in Hi. rewrite Ea in Hi. by apply list_elem_of_singleton in Hi.
Qed.
Lemma stage_zsk_waits : n1 = mins zero_time (zsk_waits out3) ∧ ∀ a, a ∈ zsk_waits out3 → now < a.
Proof.
  pose proof (sg_activate _ _ _ _ _ _ _ _ _ Hst) as Ha. rewrite (ap_next _ _ _ _ _ _ _ _ _ Ha).
  unfold zsk_waits. pose proof stage_active as Hac.
  assert (∀ i, i ∈ idx ZSK PublishedKey out3 → at_of pub_at keys i = at_of pub_at out3 i) as Hat.
  { intros i (k' & Hk' & _)%elem_idx. destruct (moves_lookup _ _ _ _ _ stage_moves Hk') as (k & Hk & [_ E]%move_kept).
    unfold at_of, publish_at. by rewrite Hk, Hk', E. }
  destruct (idx ZSK ActiveKey keys) as [|x xs] eqn:E0.
  { rewrite (proj1 Hac eq_refl). split; [done|]. by intros a ?%not_elem_of_nil. }
  destruct (idx ZSK ActiveKey out3) as [|y ys]; [discriminate (proj2 Hac eq_refl)|].
  assert (∀ i, i ∈ idx ZSK PublishedKey out3 ↔ i ∈ idx ZSK PublishedKey keys ∧ not_due now pub_at keys i) as Hp.
  { intros i. apply stage_pub. by rewrite E0. }
  split.
  - f_equal. apply waiting_sub; [apply idx_sorted..|done|done].
  - intros a (i & Hi & Ea)%elem_ats. rewrite <- Hat in Ea by done. apply Hp in Hi as [_ Hd].
    unfold at_of in Ea. destruct (keys !! i) eqn:Ek; [|done]. by eapply Hd.
Qed.
Lemma stage_retired_waits : n2 = mins n1 (retired_waits out3) ∧ ∀ a, a ∈ retired_waits out3 → now < a.
Proof.
  pose proof (sg_remove _ _ _ _ _ _ _ _ _ Hst) as Hr. rewrite (rp_next _ _ _ _ _ _ _ Hr). unfold retired_waits.
  assert (∀ i, i ∈ idx ZSK RetiredKey out3 → at_of (retire_at p) out1 i = at_of (retire_at p) out3 i) as Hat.
  { intros i (k & Hk & Hkr & Hks)%elem_idx. unfold at_of. rewrite Hk. apply stage3_zsk in Hk; [|done].
    by rewrite (stage2_back i k Hk) by (left; congruence). }
  split.
  - f_equal. apply waiting_sub; [apply idx_sorted..|apply stage_retired|done].
  - intros a (i & Hi & Ea)%elem_ats. rewrite <- Hat in Ea by done. apply stage_retired in Hi as [_ Hd].
    unfold at_of in Ea. destruct (out1 !! i) eqn:Ek; [|done]. by eapply Hd.
Qed.
Lemma idx_single r s out j : (∀ l, l ∈ idx r s out ↔ l = j) → idx r s out = [j].
Proof.
  intros H. apply Permutation_singleton_r. apply NoDup_Permutation; [apply idx_NoDup|apply NoDup_singleton|].
  intros l. by rewrite H, list_elem_of_singleton.
Qed.
Lemma stage_ksk_waits : n3 = mins n2 (ksk_waits out3) ∧ ∀ a, a ∈ ksk_waits out3 → now < a.
Proof.
  destruct (sg_ksk _ _ _ _ _ _ _ _ _ Hst) as [Hi|i j o n t Hne Ho Hn Hl H1 H2 H3 H4 _ _ _ _ _]; [done|].
  assert (idx KSK ActiveKey (<[i := removed now o]> out2) = [j]) as E.
  { apply idx_single. intros l. rewrite elem_idx. split.
    - intros (k & Hk & Hkr & Hks). destruct (decide (l = i)) as [->|Hli].
      + rewrite list_lookup_insert_eq in Hk by (by eapply lookup_lt_Some). by injection Hk as <-.
      + rewrite list_lookup_insert_ne in Hk by done. assert (l ∈ idx KSK ActiveKey out2) as Hin by (apply elem_idx; eauto).
        apply Hl in Hin. tauto.
    - intros ->. exists n. by rewrite list_lookup_insert_ne by done. }
  unfold ksk_waits. rewrite E. split; [done|]. by intros a ?%not_elem_of_nil.
Qed.
End stages.

Record advanced (now : Z) (keys out : list KeyState) (act : Actions) (next : Z) : Prop := {
  ad_moves : moves p now keys out;
  ad_quiet : ∀ a, a ∈ state_waits out → now < a;
  ad_next : next = mins zero_time (state_waits out ++ late now (create_waits out));
  ad_act : act = mkActions (bool_decide (Exists (λ a, a ≤ now) (create_waits out)));
  ad_zsk : idx ZSK ActiveKey keys = [] ↔ idx ZSK ActiveKey out = [];
  ad_ksk : ∀ i k, keys !! i = Some k → k_Role k = KSK → out !! i = Some k ∨
    (k_State k = ActiveKey ∧ ∃ j n t, j ≠ i ∧ keys !! j = Some n ∧ out !! j = Some n ∧ k_Role n = KSK ∧
       k_State n = ActiveKey ∧ DSState n = DSSeen ∧ DSSeenAt n = Some t ∧
       t + i64 (ParentDSTTL p + Propagation p) ≤ now ∧ activatedAt k ≤ activatedAt n);
  ad_succ : (∀ i k, keys !! i = Some k → k_Role k = ZSK → k_State k = PublishedKey ∨ k_State k = ActiveKey → out !! i = Some k) ∨ succeeded now keys out;
}.
Lemma Advance_advanced keys now out act next : Advance keys p now = (out, act, next) → advanced now keys out act next.
Proof.
  unfold Advance. destruct (activate_loop _ _ _ _ _ _) as [[out1 active1] n1] eqn:E1.
  destruct (remove_loop _ _ _ _ _) as [out2 n2] eqn:E2. destruct (ksk_step _ _ _ _) as [out3 n3] eqn:E3.
  assert (loop_inv (idx ZSK PublishedKey keys) keys (idx ZSK ActiveKey keys)) as HI
    by (split; [apply idx_NoDup|intros i Hi; by apply elem_idx|intros j; apply elem_idx|apply idx_NoDup]).
  assert (idx ZSK ActiveKey keys = [] → out1 = keys) as Hdark by (intros Ed; rewrite Ed in E1; by eapply activate_dark).
  pose proof (activate_succ _ _ _ _ _ _ _ _ _ E1 HI) as Hsucc. apply activate_spec in E1; [|done].
  apply remove_spec in E2; [|apply idx_NoDup|intros i Hi; by apply elem_idx]. apply ksk_step_result in E3.
  assert (staged now keys out1 active1 n1 out2 n2 out3 n3) as Hst by done.
  rewrite create_step_spec; [|intros j; rewrite (stage_zsk _ _ _ _ _ _ _ _ _ Hst) by (by right); rewrite elem_idx; apply E1|apply E1].
  intros [= <- <- <-].
  destruct (stage_zsk_waits _ _ _ _ _ _ _ _ _ Hst) as [N1 Q1].
  destruct (stage_retired_waits _ _ _ _ _ _ _ _ _ Hst) as [N2 Q2].
  destruct (stage_ksk_waits _ _ _ _ _ _ _ _ _ Hst) as [N3 Q3].
  split; try done.
  - by eapply stage_moves.
  - intros a. unfold state_waits. rewrite !elem_of_app. intros [?|[?|?]]; auto.
  - unfold state_waits. by rewrite !mins_app, N3, N2, N1.
  - by eapply stage_active.
  - intros i k Hk Hr. assert (∀ i k, keys !! i = Some k → k_Role k = KSK → out2 !! i = Some k) as Hk2.
    { intros j x Hj Hjr. eapply (stage2_same _ _ _ _ _ _ _ _ _ Hst); [|by right]. by eapply ap_ksk. }
    assert (∀ i k, out2 !! i = Some k → k_Role k = KSK → keys !! i = Some k) as Hb.
    { intros j x Hj Hjr. destruct (moves_lookup now keys out2 j x) as (y & Hy & [Hyr _]%move_kept); [|done|].
      - eapply moves_trans; [apply E1|apply E2].
      - pose proof (Hk2 j y Hy ltac:(congruence)). congruence. }
    destruct E3 as [|j l o n t Hne Ho Hn _ H1 H2 H3 H4 H5 H6 H7 H8 _]; [left; auto|].
    destruct (decide (i = j)) as [->|Hij]; [|left; rewrite list_lookup_insert_ne by done; auto].
    right. rewrite (Hk2 j k Hk Hr) in Ho. injection Ho as <-. split; [done|]. exists l, n, t.
    rewrite list_lookup_insert_ne by done. split_and!; auto.
  - by eapply stage_succ.
Qed.
End rollover.

(** ** Theorems *)
Lemma mins_bound l n : zero_time ≤ n → (∀ a, a ∈ l → zero_time < a) →
  let m := mins n l in zero_time ≤ m ∧ (m = zero_time → n = zero_time ∧ l = []) ∧
  (n ≠ zero_time → m ≤ n) ∧ (∀ a, a ∈ l → m ≤ a).
Proof.
  revert n. induction l as [|x l IH]; intros n Hn Hl; simpl.
  { split_and!; try done; try lia. by intros a ?%not_elem_of_nil. }
  assert (zero_time < x) as Hx by (apply Hl; left).
  set (n' := if IsZero n || Before x n then x else n).
  assert (zero_time < n' ∧ n' ≤ x ∧ (n ≠ zero_time → n' ≤ n)) as (Hn' & Hnx & Hnn).
  { unfold n', IsZero, Before. destruct (Z.eqb_spec n zero_time), (Z.ltb_spec x n); simpl; lia. }
  destruct (IH n') as (H1 & H2 & H3 & H4); [lia|intros a Ha; apply Hl; by right|]. fold n'. split; [done|].
  specialize (H3 ltac:(lia)). split_and!.
  - intros Hm. destruct (H2 Hm). lia.
  - intros Hz. specialize (Hnn Hz). lia.
  - intros a [->|Ha]%elem_of_cons; [lia|auto].
Qed.

(** C40: Every transition [Advance] makes is due, and every due one is made.  Published and active zone-signing keys stay as
    they are, or one published key, due by the DNSKEY TTL and the propagation time, takes over while another
    is active, as the only active one from now on: the zone has an active zone-signing key afterwards exactly if it had one before.  A
    zone-signing key is removed only when it has been retired for the longest TTL of the zone and the propagation time.
    A key-signing key is removed only while another one stays active that is not older, whose DS
    record was seen at the parent at least the parent's DS TTL and the propagation time ago.  Nothing else changes;
    afterwards no retired key is due, no published one where a key is active, and the older of two active key-signing keys is not. *)
Theorem Advance_safe keys p now :
  let '(out, _, _) := Advance keys p now in
  Forall2 (rtc (move p now)) keys out ∧
  ((∀ i k, keys !! i = Some k → k_Role k = ZSK → k_State k = PublishedKey ∨ k_State k = ActiveKey → out !! i = Some k) ∨ succeeded p now keys out) ∧
  ((∃ i k, keys !! i = Some k ∧ k_Role k = ZSK ∧ k_State k = ActiveKey) ↔ ∃ i k, out !! i = Some k ∧ k_Role k = ZSK ∧ k_State k = ActiveKey) ∧
  (∀ i k, keys !! i = Some k → k_Role k = KSK → out !! i = Some k ∨
    (k_State k = ActiveKey ∧ ∃ j n t, j ≠ i ∧ keys !! j = Some n ∧ out !! j = Some n ∧ k_Role n = KSK ∧
       k_State n = ActiveKey ∧ DSState n = DSSeen ∧ DSSeenAt n = Some t ∧
       t + i64 (ParentDSTTL p + Propagation p) ≤ now ∧ activatedAt k ≤ activatedAt n)) ∧
  (∀ i k t, out !! i = Some k → k_Role k = ZSK → k_State k = RetiredKey → RetiredAt k = Some t → now < t + i64 (MaxZoneTTL p + Propagation p)) ∧
  (∀ i k j n, out !! i = Some k → k_Role k = ZSK → k_State k = ActiveKey → out !! j = Some n → k_Role n = ZSK → k_State n = PublishedKey →
     now < PublishedAt n + i64 (DNSKEYTTL p + Propagation p)) ∧
  (∀ i j a b t, idx KSK ActiveKey out = [i; j] → out !! i = Some a → out !! j = Some b →
     let n := if decide (activatedAt b < activatedAt a) then a else b in DSState n = DSSeen → DSSeenAt n = Some t → now < t + i64 (ParentDSTTL p + Propagation p)).
Proof.
  destruct (Advance keys p now) as [[out act] next] eqn:E. apply Advance_advanced in E. destruct E as [E1 Hq _ _ E3 E4 E5]. split_and!; try done.
  - rewrite <- !idx_nonempty. by rewrite E3.
  - intros i k t Hk Hr Hs Ht. apply Hq. unfold state_waits. rewrite !elem_of_app. right; left. apply elem_ats. exists i. rewrite elem_idx. split; [eauto|]. unfold at_of, retire_at. by rewrite Hk, Ht.
  - intros i k j n Hk Hr Hs Hn Hnr Hns. apply Hq. unfold state_waits. rewrite elem_of_app. left. unfold zsk_waits. assert (idx ZSK ActiveKey out ≠ []) as Ha by (rewrite idx_nonempty; eauto).
    destruct (idx ZSK ActiveKey out); [done|]. apply elem_ats. exists j. rewrite elem_idx. split; [eauto|]. unfold at_of, publish_at. by rewrite Hn.
  - intros i j a b t Ei Ha Hb n Hn Ht. apply Hq. unfold state_waits. rewrite !elem_of_app. right; right. unfold ksk_waits. rewrite Ei, Ha, Hb. cbv zeta.
    replace (if Before (activatedAt b) (activatedAt a) then a else b) with n by (unfold n, Before; case_decide; destruct (Z.ltb_spec (activatedAt b) (activatedAt a)); done || lia). rewrite Hn, Ht. left.
Qed.

(** A rollover never leaves the zone without a signing key: if there is an active key of a role
    before [Advance], there is one after it. *)
Lemma Advance_never_dark keys p now r i k :
  keys !! i = Some k → k_Role k = r → k_State k = ActiveKey →
  let '(out, _, _) := Advance keys p now in ∃ j k', out !! j = Some k' ∧ k_Role k' = r ∧ k_State k' = ActiveKey.
Proof.
  intros Hk Hr Hs. destruct (Advance keys p now) as [[out act] next] eqn:E. apply Advance_advanced in E. destruct r.
  - destruct (ad_ksk _ _ _ _ _ _ E i k Hk Hr) as [H|(_ & j & n & t & _ & _ & H & H1 & H2 & _)]; eauto.
  - assert (i ∈ idx ZSK ActiveKey keys) as Hi by (apply elem_idx; eauto).
    pose proof (ad_zsk _ _ _ _ _ _ E) as Hz. destruct (idx ZSK ActiveKey out) as [|j l] eqn:Eo.
    + rewrite (proj2 Hz eq_refl) in Hi. by apply not_elem_of_nil in Hi.
    + assert (j ∈ idx ZSK ActiveKey out) as Hj by (rewrite Eo; left). apply elem_idx in Hj as (k' & ? & ? & ?). eauto.
Qed.
(** Sleeping until [next] misses nothing.  From the state [Advance] returns, calling it again at
    any later time before the returned instant (or at any later time when there is none) changes
    no key, asks for the same actions and returns the same instant. *)
Theorem Advance_stable keys p now out act next now' :
  Advance keys p now = (out, act, next) → zero_time ≤ now → now ≤ now' → (next = zero_time ∨ now' < next) →
  Advance out p now' = (out, act, next).
Proof.
  intros E Hz Hle Hnext. apply Advance_advanced in E. destruct E as [_ Hq En Ea _ _].
  assert (∀ a, a ∈ state_waits p out ++ late now (create_waits p out) → now < a) as HL.
  { intros a. unfold late. rewrite elem_of_app, list_elem_of_filter. intros [?|[? _]]; auto. }
  destruct (mins_bound (state_waits p out ++ late now (create_waits p out)) zero_time) as (_ & Hm & _ & Hb);
    [done|intros a Ha; specialize (HL a Ha); lia|]. rewrite <- En in Hm, Hb.
  assert (∀ a, a ∈ state_waits p out ++ late now (create_waits p out) → now' < a) as HL'.
  { intros a Ha. destruct Hnext as [Hnz|Hlt]; [|specialize (Hb a Ha); lia].
    destruct (Hm Hnz) as [_ E0]. rewrite E0 in Ha. by apply not_elem_of_nil in Ha. }
  assert (∀ a, a ∈ create_waits p out → now < a ↔ now' < a) as Hc.
  { intros a Ha. split; [|lia]. intros Hlt. apply HL'. unfold late. rewrite elem_of_app, list_elem_of_filter. auto. }
  rewrite Advance_idle by (intros a Ha; apply HL'; rewrite elem_of_app; auto).
  assert (late now' (create_waits p out) = late now (create_waits p out)) as ->.
  { unfold late. clear -Hc. induction (create_waits p out) as [|a l IH]; [done|]. rewrite !filter_cons.
    rewrite IH by (intros b Hb; apply Hc; by right). pose proof (Hc a ltac:(left)). repeat case_decide; tauto. }
  rewrite Ea, En. do 3 f_equal. apply bool_decide_ext. rewrite !Exists_exists.
  split; intros (a & Ha & Hle'); exists a; (split; [done|]); specialize (Hc a Ha); lia.
Qed.
Lemma Advance_stable_witness :
  let p := mkPolicy 10 10 1 1 100 in
  let keys := [mkKey [] ZSK ActiveKey DSNone 0 (Some 0) None None None; mkKey [] ZSK PublishedKey DSNone 1 None None None None] in
  let '(out, act, next) := Advance keys p 12 in next = 23 ∧ Advance out p 22 = (out, act, next).
Proof.
  set (p := mkPolicy 10 10 1 1 100).
  set (keys := [mkKey [] ZSK ActiveKey DSNone 0 (Some 0) None None None; mkKey [] ZSK PublishedKey DSNone 1 None None None None]).
  cbv zeta. split; [vm_compute; reflexivity|].
  apply (Advance_stable keys p 12 _ _ 23 22); [vm_compute; reflexivity|by vm_compute|lia|right; lia].
Defined.
