(* ===== verification/XfrIn.v ===== *)
(** * Incoming zone transfers

    mgmt/internal/xfrin/ixfr.go and refresh.go, with ApplyRecordChanges of zone/service.go: the
    meaning of a transfer stream, applying it to the stored records, and the timers of a secondary
    zone.  The network side of a transfer is an argument; the DNS library's presentation and wire
    forms of a record, its subdomain test, and the order in which Go ranges over a map are
    parameters. *)

From S2P Require Import Prelude.
From S2P Require Import GoText.
From S2P Require Import Effects.
From S2P Require Import NzfNames.
From S2P Require Import NzfFormat.
From S2P Require Import ZoneJournal.

(** ** Resource records *)
Record SOAData := mkSOA {
  Ns : bytes; Mbox : bytes; s_Serial : Z; s_Refresh : Z; s_Retry : Z; s_Expire : Z; Minttl : Z }.
(** A dns.RR: its header, its data, and the SOA fields when it is a dns.SOA. *)
Record rr := mkRR { h_Name : bytes; Rrtype : Z; Class : Z; Ttl : Z; Data : bytes; asSOA : option SOAData }.
#[export] Instance SOAData_eq_dec : EqDecision SOAData.
Proof. solve_decision. Defined.
#[export] Instance rr_eq_dec : EqDecision rr.
Proof. solve_decision. Defined.
Definition is_soa_type (r : rr) : bool := Rrtype r =? TypeSOA.
Definition set_ttl (r : rr) (t : Z) : rr := mkRR (h_Name r) (Rrtype r) (Class r) t (Data r) (asSOA r).
Definition set_name (r : rr) (n : bytes) : rr := mkRR n (Rrtype r) (Class r) (Ttl r) (Data r) (asSOA r).
(** Names in presentation form are ASCII. *)
Definition ToLower (s : bytes) : bytes := map ascii_lower s.

(** ** Interpret *)
Record Diff := mkDiff { d_From : Z; d_To : Z; d_Deleted : list rr; d_Added : list rr }.
Record Answer := mkAnswer { UpToDate : bool; Full : option (list rr); Diffs : list Diff; a_Serial : Z }.
Inductive xfr_err : Type :=
| EmptyTransfer | NoStartSOA | TruncatedTransfer | NoEndSOA | SOAInBody | BrokenSequence (expect : Z)
| NoNewSOA | EndsElsewhere (expect serial : Z) | OutsideZone | SOANotApex | PackFailed | Changed | TableErr.

(** The records before the next SOA or the last record, and what is left from there. *)
Fixpoint span (l : list rr) : list rr * list rr :=
  match l with
  | [] => ([], [])
  | r :: l' =>
      match l' with
      | [] => ([], l)
      | _ :: _ => if is_soa_type r then ([], l) else let '(a, b) := span l' in (r :: a, b)
      end
  end.
Fixpoint diff_loop (fuel : nat) (l : list rr) (expect : Z) : res xfr_err (list Diff * Z) :=
  match l with
  | [] => Panic
  | [_] => Ok ([], expect)
  | from :: t =>
      match fuel with
      | O => Fuel
      | S fuel =>
          match asSOA from with
          | None => Err (BrokenSequence expect)
          | Some f =>
              if negb (s_Serial f =? expect) then Err (BrokenSequence expect)
              else
                let '(del, l) := span t in
                match l with
                | [] => Panic
                | to :: t =>
                    match asSOA to, t with
                    | None, _ | Some _, [] => Err NoNewSOA
                    | Some ts, _ :: _ =>
                        let '(add, l) := span t in
                        '(ds, e) ← diff_loop fuel l (s_Serial ts);
                        Ok (mkDiff (s_Serial f) (s_Serial ts) del add :: ds, e)
                    end
                end
          end
      end
  end.

Definition Interpret (rrs : list rr) (requested : Z) (ixfr : bool) : res xfr_err Answer :=
  match rrs with
  | [] => Err EmptyTransfer
  | first :: rest =>
      match asSOA first with
      | None => Err NoStartSOA
      | Some soa =>
          let serial := s_Serial soa in
          match rest with
          | [] =>
              if ixfr && negb (SerialLess requested serial) then Ok (mkAnswer true None [] serial)
              else Err TruncatedTransfer
          | second :: _ =>
              match asSOA (List.last rest first) with
              | None => Err NoEndSOA
              | Some l =>
                  if negb (s_Serial l =? serial) then Err NoEndSOA
                  else if negb ixfr || bool_decide (asSOA second = None) then
                    let body := removelast rest in
                    if existsb is_soa_type body then Err SOAInBody
                    else Ok (mkAnswer false (Some (first :: body)) [] serial)
                  else
                    '(ds, e) ← diff_loop (length rest) rest requested;
                    if negb (e =? serial) then Err (EndsElsewhere e serial)
                    else Ok (mkAnswer false None ds serial)
              end
          end
      end
  end.

Section transfer.
(** strings.EqualFold beyond ASCII, dns.IsSubDomain, FromRR's RDATA, RR.String and map order. *)
Context (wide : Z → Z) (IsSubDomain : bytes → bytes → bool).
Context (wire : rr → option bytes) (RR_String : rr → bytes).
Context (range_order : gmap bytes rr → list rr).

(** The checks of [transfer] on the received records. *)
Definition check_rrs (zone : bytes) (rrs : list rr) : res xfr_err unit :=
  foldr (λ r k,
    if negb (Class r =? 1) || negb (IsSubDomain zone (h_Name r)) then Err OutsideZone
    else match asSOA r with
         | Some _ => if EqualFold wide (h_Name r) zone then k else Err SOANotApex
         | None => k
         end) (Ok tt) rrs.
Definition interpret_transfer (zone : bytes) (rrs : list rr) (requested : Z) (ixfr : bool) : res xfr_err (Answer * rr) :=
  ans ← Interpret rrs requested ixfr;
  check_rrs zone rrs;;
  match rrs with first :: _ => Ok (ans, first) | [] => Panic end.

(** ** ApplyRecordChanges *)
(** zone_records of one zone, by its unique index (lower(owner), rtype, rdata_wire): the spelling
    of the owner and the TTL. *)
Definition rec_key : Type := bytes * Z * bytes.
Abbreviation records := (gmap rec_key (bytes * Z)).
Definition rrset_of (k : rec_key) : bytes * Z := (k.1.1, k.1.2).
Definition rrset_name (r : rr) : bytes * Z := (ToLower (h_Name r), Rrtype r).
Definition key_of (r : rr) : option rec_key := (λ w, (ToLower (h_Name r), Rrtype r, w)) <$> wire r.

Definition setRRsetTTL (t : records) (rs : bytes * Z) (ttl : Z) : records :=
  map_imap (λ k v, Some (if bool_decide (rrset_of k = rs) then (v.1, ttl) else v)) t.
Definition delete_record (t : records) (r : rr) : res xfr_err records :=
  if is_soa_type r then Ok t
  else match key_of r with None => Err PackFailed | Some k => Ok (delete k t) end.
Definition add_record (t : records) (r : rr) : res xfr_err records :=
  if is_soa_type r then Ok t
  else match key_of r with
       | None => Err PackFailed
       | Some k =>
           let t := match t !! k with Some v => <[k := (v.1, Ttl r)]> t | None => <[k := (h_Name r, Ttl r)]> t end in
           Ok (setRRsetTTL t (rrset_name r) (Ttl r))
       end.
Definition ApplyRecordChanges (t : records) (deleted added : list rr) : res xfr_err records :=
  t ← fold_res delete_record t deleted;
  fold_res add_record t added.

(** ** SetRecords *)
(** [string(rune(t))]: UTF-8, with U+FFFD for a surrogate; a type has 16 bits. *)
Definition rune_string (t : Z) : bytes :=
  if t <? 0x80 then [t]
  else if t <? 0x800 then [Z.lor 0xC0 (Z.shiftr t 6); Z.lor 0x80 (Z.land t 63)]
  else if (0xD800 <=? t) && (t <=? 0xDFFF) then [0xEF; 0xBF; 0xBD]
  else [Z.lor 0xE0 (Z.shiftr t 12); Z.lor 0x80 (Z.land (Z.shiftr t 6) 63); Z.lor 0x80 (Z.land t 63)].
Definition set_record (s : gset bytes * records) (r : rr) : res xfr_err (gset bytes * records) :=
  if is_soa_type r then Ok s
  else match wire r with
       | None => Err PackFailed
       | Some w =>
           let key := ToLower (h_Name r) ++ [0] ++ rune_string (Rrtype r) ++ w in
           if bool_decide (key ∈ s.1) then Ok s
           else
             let k := (ToLower (h_Name r), Rrtype r, w) in
             match s.2 !! k with
             | Some _ => Err TableErr
             | None => Ok ({[key]} ∪ s.1, <[k := (h_Name r, Ttl r)]> s.2)
             end
       end.
Definition SetRecords (rrs : list rr) : res xfr_err records :=
  '(_, t) ← fold_res set_record (∅, ∅) rrs;
  Ok t.

(** ** applyDiffs *)
Definition diff_key (r : rr) : bytes := RR_String (set_ttl (set_name r (ToLower (h_Name r))) 0).
Definition dstate : Type := gmap bytes rr * gmap (bytes * Z) Z.
Definition put_current (m : gmap bytes rr) (r : rr) : gmap bytes rr := if is_soa_type r then m else <[diff_key r := r]> m.
Definition del_diff (s : dstate) (r : rr) : dstate := (delete (diff_key r) s.1, s.2).
Definition add_diff (s : dstate) (r : rr) : dstate :=
  if is_soa_type r then s else (<[diff_key r := r]> s.1, <[rrset_name r := Ttl r]> s.2).
Definition apply_diff (s : dstate) (d : Diff) : dstate := foldl add_diff (foldl del_diff s (d_Deleted d)) (d_Added d).
Definition fix_ttl (ttls : gmap (bytes * Z) Z) (r : rr) : rr :=
  match ttls !! rrset_name r with Some t => if t =? Ttl r then r else set_ttl r t | None => r end.
Definition applyDiffs (current : list rr) (diffs : list Diff) : list rr :=
  let '(m, ttls) := foldl apply_diff (foldl put_current ∅ current, ∅) diffs in
  map (fix_ttl ttls) (range_order m).

(** ** The record changes of succeed *)
Definition apply_answer (locked : Z) (t : records) (ans : Answer) : res xfr_err records :=
  match Full ans with
  | Some rrs => SetRecords rrs
  | None =>
      match Diffs ans with
      | [] => Panic
      | d :: _ =>
          if negb (locked =? d_From d) then Err Changed
          else fold_res (λ t d, ApplyRecordChanges t (d_Deleted d) (d_Added d)) t (Diffs ans)
      end
  end.
End transfer.
