(* ===== verification/XfrTheorems.v ===== *)
(** * Incoming transfers: what is accepted and what is stored

    [Interpret] accepts exactly the streams of RFC 5936 and RFC 1995, and the zone content checked
    before a transfer is applied is the content that applying it stores. *)

From S2P Require Import Prelude.
From S2P Require Import GoText.
From S2P Require Import NzfNames.
From S2P Require Import NzfFormat.
From S2P Require Import ZoneJournal.
From S2P Require Import XfrIn.

(** ** Spans *)
Lemma span_app l a b : span l = (a, b) → l = a ++ b ∧ Forall (λ r, is_soa_type r = false) a ∧ (l ≠ [] → b ≠ []).
Proof.
  revert a b. induction l as [|r l IH]; intros a b; cbn [span]; [by intros [= <- <-]|].
  destruct l as [|r' l]; [by intros [= <- <-]|]. destruct (is_soa_type r) eqn:E; [by intros [= <- <-]|].
  destruct (span (r' :: l)) as [a' b'] eqn:Es. intros [= <- <-].
  destruct (IH a' b' eq_refl) as (Hl & Ha & Hb). rewrite Hl. split; [done|]. split; [by constructor|]. intros _. by apply Hb.
Qed.
(** A span stops at an SOA or at the last record. *)
Lemma span_stop a r b : Forall (λ r, is_soa_type r = false) a → is_soa_type r = true ∨ b = [] →
  span (a ++ r :: b) = (a, r :: b).
Proof.
  intros Ha Hr. induction Ha as [|x a Hx _ IH]; cbn [span app].
  - destruct b as [|y b]; [done|]. destruct Hr as [->|?]; done.
  - rewrite IH, Hx. by destruct a.
Qed.

Lemma last_app_ne {A} (a : list A) z l (d : A) : List.last (a ++ z :: l) d = List.last (z :: l) d.
Proof. induction a as [|x a IH]; [done|]. rewrite <- IH. by destruct a. Qed.

Lemma last_default {A} (x : A) l (d : A) : List.last (x :: l) (List.last (x :: l) d) = List.last (x :: l) d.
Proof. revert x. induction l as [|y l IH]; intros x; [done|]. exact (IH y). Qed.

(** ** The streams of RFC 1995 *)
(** One difference sequence: the old SOA, the deletions, the new SOA, the additions. *)
Record part := mkPart { p_from : rr; p_del : list rr; p_to : rr; p_add : list rr }.
Definition part_rrs (x : part) : list rr := p_from x :: p_del x ++ p_to x :: p_add x.
Definition serial_of (r : rr) : option Z := s_Serial <$> asSOA r.
Definition plain_rrs (l : list rr) : Prop := Forall (λ r, is_soa_type r = false) l.
(** The sequences lead from [from] to [to]. *)
Fixpoint chain (from : Z) (xs : list part) (ds : list Diff) (to : Z) : Prop :=
  match xs, ds with
  | [], [] => from = to
  | x :: xs, d :: ds =>
      serial_of (p_from x) = Some from ∧ serial_of (p_to x) = Some (d_To d) ∧ d_From d = from ∧
      d_Deleted d = p_del x ∧ d_Added d = p_add x ∧ plain_rrs (p_del x) ∧ plain_rrs (p_add x) ∧
      chain (d_To d) xs ds to
  | _, _ => False
  end.

Lemma diff_loop_sound fuel l expect ds e last :
  diff_loop fuel l expect = Ok (ds, e) → List.last l last = last →
  ∃ xs, l = concat (map part_rrs xs) ++ [last] ∧ chain expect xs ds e.
Proof.
  revert l expect ds e. induction fuel as [|fuel IH]; intros l expect ds e; destruct l as [|from [|x t]]; cbn [diff_loop]; try done.
  - intros [= <- <-] <-. by exists [].
  - intros [= <- <-] <-. by exists [].
  - destruct (asSOA from) as [f|] eqn:Ef; [|done]. destruct (Z.eqb_spec (s_Serial f) expect) as [<-|]; [|done]. cbn [negb].
    destruct (span (x :: t)) as [del l1] eqn:E1. apply span_app in E1 as (Hl1 & Hdel & Hne1).
    destruct l1 as [|to t1]; [done|]. destruct (asSOA to) as [ts|] eqn:Et; [|done]. destruct t1 as [|y t1]; [done|].
    destruct (span (y :: t1)) as [add l2] eqn:E2. apply span_app in E2 as (Hl2 & Hadd & Hne2).
    intros ([ds' e'] & Hrec & [= <- <-])%bind_Ok Hlast.
    rewrite Hl1, Hl2 in Hlast |- *.
    assert (List.last l2 last = last) as Hlast2.
    { specialize (Hne2 ltac:(done)). destruct l2 as [|z l2]; [done|]. revert Hlast.
      replace (from :: del ++ to :: add ++ z :: l2) with ((from :: del ++ to :: add) ++ z :: l2) by (simpl; by rewrite <- app_assoc).
      intros H. rewrite <- H at 2. rewrite last_app_ne. done. }
    destruct (IH l2 (s_Serial ts) ds' e') as (xs & Hxs & Hc); [done|done|].
    exists (mkPart from del to add :: xs). split.
    + simpl. unfold part_rrs at 1. simpl. rewrite Hxs. by rewrite <- !app_assoc.
    + simpl. unfold serial_of. rewrite Ef, Et. done.
Qed.

(** The DNS library makes a dns.SOA only of records of type SOA. *)
Definition soa_typed (l : list rr) : Prop := ∀ r, r ∈ l → asSOA r ≠ None → is_soa_type r = true.

Lemma serial_Some r n : serial_of r = Some n → ∃ s, asSOA r = Some s ∧ s_Serial s = n.
Proof. unfold serial_of. destruct (asSOA r) as [s|]; [|done]. intros [= <-]. by exists s. Qed.

Lemma diff_loop_complete fuel xs ds expect e last :
  soa_typed (concat (map part_rrs xs)) → chain expect xs ds e →
  (length (concat (map part_rrs xs)) ≤ fuel)%nat →
  diff_loop fuel (concat (map part_rrs xs) ++ [last]) expect = Ok (ds, e).
Proof.
  revert fuel ds expect. induction xs as [|x xs IH]; intros fuel ds expect Hty Hc Hf.
  { destruct ds; [|done]. simpl in Hc. subst. by destruct fuel. }
  destruct ds as [|d ds]; [done|]. destruct Hc as (Hf1 & Ht1 & Hd1 & Hd2 & Hd3 & Hp1 & Hp2 & Hc).
  apply serial_Some in Hf1 as (f & Ef & <-). apply serial_Some in Ht1 as (ts & Et & Ets).
  cbn [map concat] in Hty, Hf |- *. unfold part_rrs at 1. unfold part_rrs at 1 in Hf. cbn [app] in Hf |- *.
  assert (soa_typed (concat (map part_rrs xs))) as Hty'.
  { intros r Hr. apply Hty. apply elem_of_app. by right. }
  assert (is_soa_type (p_to x) = true) as Hto.
  { apply Hty; [|by rewrite Et]. apply elem_of_app. left. unfold part_rrs. rewrite elem_of_cons, elem_of_app, elem_of_cons. tauto. }
  destruct fuel as [|fuel]; [simpl in Hf; lia|].
  assert (∃ y t, (p_del x ++ p_to x :: p_add x) ++ concat (map part_rrs xs) ++ [last] = y :: t) as (y & t & Ey)
    by (destruct (p_del x); simpl; eauto).
  rewrite <- app_assoc, Ey. cbn [diff_loop]. rewrite Ef, Z.eqb_refl. cbn [negb]. rewrite <- Ey, <- app_assoc. cbn [app].
  rewrite span_stop by (done || by left). rewrite Et.
  assert (∃ z w, p_add x ++ concat (map part_rrs xs) ++ [last] = z :: w) as (z & w & Ez)
    by (destruct (p_add x); simpl; [destruct (concat (map part_rrs xs)); simpl|]; eauto).
  rewrite Ez. rewrite <- Ez.
  assert (span (p_add x ++ concat (map part_rrs xs) ++ [last]) = (p_add x, concat (map part_rrs xs) ++ [last])) as ->.
  { destruct xs as [|x' xs]; cbn [map concat app]; [apply span_stop; [done|by right]|].
    unfold part_rrs at 1. cbn [app]. unfold part_rrs at 1. cbn [app]. apply span_stop; [done|left].
    destruct ds as [|d' ds]; [done|]. destruct Hc as (Hx' & _). apply serial_Some in Hx' as (s' & Es' & _).
    apply Hty'; [|by rewrite Es']. cbn [map concat]. unfold part_rrs at 1. left. }
  rewrite Ets. rewrite (IH fuel ds); [|done|done|].
  - simpl. destruct d; simpl in *. by subst.
  - cbn [length] in Hf. rewrite !length_app in Hf. lia.
Qed.

Lemma span_length l a b : span l = (a, b) → (length b ≤ length l)%nat.
Proof. intros (-> & _)%span_app. rewrite length_app. lia. Qed.
Lemma diff_loop_returns fuel l expect : (length l ≤ fuel)%nat → l ≠ [] → returns (diff_loop fuel l expect).
Proof.
  revert l expect. induction fuel as [|fuel IH]; intros [|from [|x t]] expect Hf Hne; try done; [simpl in Hf; lia|].
  cbn [diff_loop]. destruct (asSOA from) as [f|]; [|done]. destruct (negb _); [done|].
  destruct (span (x :: t)) as [del l1] eqn:E1. pose proof (span_length _ _ _ E1) as L1.
  apply span_app in E1 as (_ & _ & N1). destruct l1 as [|to t1]; [by specialize (N1 ltac:(done))|].
  destruct (asSOA to); [|done]. destruct t1 as [|y t1]; [done|].
  destruct (span (y :: t1)) as [add l2] eqn:E2. pose proof (span_length _ _ _ E2) as L2.
  apply span_app in E2 as (_ & _ & N2). apply returns_bind; [|by intros [ds e]].
  apply IH; [simpl in *; lia|auto].
Qed.

(** ** What a stream means *)
Inductive stream_means (requested : Z) (ixfr : bool) : list rr → Answer → Prop :=
| means_current first serial :
    ixfr = true → serial_of first = Some serial → SerialLess requested serial = false →
    stream_means requested ixfr [first] (mkAnswer true None [] serial)
| means_full first body last serial :
    serial_of first = Some serial → serial_of last = Some serial → plain_rrs body →
    (ixfr = true → ∃ r rest, body = r :: rest ∧ asSOA r = None) →
    stream_means requested ixfr (first :: body ++ [last]) (mkAnswer false (Some (first :: body)) [] serial)
| means_diffs first xs ds last serial :
    ixfr = true → serial_of first = Some serial → serial_of last = Some serial → chain requested xs ds serial →
    stream_means requested ixfr (first :: concat (map part_rrs xs) ++ [last]) (mkAnswer false None ds serial).

Lemma split_last {A} (l : list A) d : l ≠ [] → l = removelast l ++ [List.last l d].
Proof. intros H. by apply app_removelast_last. Qed.
Lemma existsb_plain l : existsb is_soa_type l = false ↔ plain_rrs l.
Proof.
  unfold plain_rrs. induction l as [|x l IH]; simpl; [split; [constructor|done]|].
  rewrite orb_false_iff, Forall_cons, IH. done.
Qed.

Lemma Interpret_sound rrs requested ixfr ans :
  Interpret rrs requested ixfr = Ok ans → stream_means requested ixfr rrs ans.
Proof.
  unfold Interpret. destruct rrs as [|first rest]; [done|]. destruct (asSOA first) as [soa|] eqn:Ef; [|done].
  assert (serial_of first = Some (s_Serial soa)) as Hf by (unfold serial_of; by rewrite Ef).
  destruct rest as [|second rest].
  { destruct ixfr; [|done]. destruct (SerialLess _ _) eqn:Es; [done|]. intros [= <-]. by constructor. }
  set (l := List.last (second :: rest) first).
  destruct (asSOA l) as [ls|] eqn:El; [|done].
  destruct (Z.eqb_spec (s_Serial ls) (s_Serial soa)) as [Es|]; [|done]. cbn [negb].
  assert (serial_of l = Some (s_Serial soa)) as Hl by (unfold serial_of; rewrite El; simpl; by rewrite Es).
  destruct (negb ixfr || _) eqn:Ex.
  - destruct (existsb _ _) eqn:Eb; [done|]. intros [= <-]. apply existsb_plain in Eb.
    rewrite (split_last (second :: rest) first) by done. fold l. constructor; try done.
    intros ->. simpl in Ex. apply bool_decide_eq_true in Ex. destruct rest as [|y rest]; [|by exists second, (removelast (y :: rest))].
    unfold l in El. simpl in El. congruence.
  - apply orb_false_iff in Ex as [Hx%negb_false_iff _]. intros ([ds e] & Hd & H)%bind_Ok.
    destruct (Z.eqb_spec e (s_Serial soa)) as [->|]; [|done]. injection H as <-.
    destruct (diff_loop_sound _ _ _ _ _ l Hd) as (xs & -> & Hc); [by apply last_default|]. by constructor.
Qed.
Lemma Interpret_complete rrs requested ixfr ans :
  soa_typed rrs → stream_means requested ixfr rrs ans → Interpret rrs requested ixfr = Ok ans.
Proof.
  intros Hty Hm. destruct Hm as [first serial Hx Hf Hs|first body last serial Hf Hl Hp Hb|first xs ds last serial Hx Hf Hl Hc];
    apply serial_Some in Hf as (soa & Ef & <-); unfold Interpret; rewrite Ef.
  - by rewrite Hx, Hs.
  - apply serial_Some in Hl as (ls & El & Es). destruct (body ++ [last]) as [|second rest] eqn:Eb; [by destruct body|].
    rewrite <- Eb, last_app_ne. simpl List.last. rewrite El, Es, Z.eqb_refl. cbn [negb].
    assert (negb ixfr || bool_decide (asSOA second = None) = true) as ->.
    { destruct ixfr; [|done]. destruct (Hb eq_refl) as (r & t & -> & Hr). simpl in Eb. injection Eb as <- _.
      by rewrite bool_decide_eq_true_2. }
    rewrite removelast_last. by rewrite (proj2 (existsb_plain body)).
  - apply serial_Some in Hl as (ls & El & Es).
    destruct (concat (map part_rrs xs) ++ [last]) as [|second rest] eqn:Eb; [by destruct (concat (map part_rrs xs))|].
    rewrite <- Eb, last_app_ne. simpl List.last. rewrite El, Es, Z.eqb_refl. cbn [negb].
    rewrite Hx. cbn [negb orb]. assert (bool_decide (asSOA second = None) = false) as ->.
    { apply bool_decide_eq_false. destruct xs as [|x xs]; [simpl in Eb; injection Eb as <- _; congruence|].
      destruct ds as [|d ds]; [done|]. destruct Hc as (Hx1 & _). apply serial_Some in Hx1 as (s & Ex & _).
      cbn [map concat] in Eb. unfold part_rrs at 1 in Eb. cbn [app] in Eb. injection Eb as <- _. congruence. }
    rewrite (diff_loop_complete _ xs ds requested (s_Serial soa)); [|  |done|].
    + cbn [mbind res_bind]. by rewrite Z.eqb_refl.
    + intros r Hr. apply Hty. rewrite <- ?Eb, elem_of_cons, elem_of_app. auto.
    + rewrite <- ?Eb, length_app. lia.
Qed.

(** ** Applying diffs *)
Section apply.
Context (wire : rr → option bytes) (RR_String : rr → bytes) (range_order : gmap bytes rr → list rr).
(** Two records of class IN that pack have one presentation form, but for the TTL and the case of the owner,
    exactly when they agree in owner, type and RDATA; the type can be read off the form; the wire
    RDATA does not depend on the TTL; a range visits every entry once. *)
Hypothesis string_key : ∀ a b ka kb, Class a = 1 → Class b = 1 → key_of wire a = Some ka → key_of wire b = Some kb →
  diff_key RR_String a = diff_key RR_String b ↔ ka = kb.
Hypothesis string_type : ∀ a b, diff_key RR_String a = diff_key RR_String b → Rrtype a = Rrtype b.
Hypothesis wire_ttl : ∀ r t, wire (set_ttl r t) = wire r.
Hypothesis range_all : ∀ m, range_order m ≡ₚ map snd (map_to_list m).

Abbreviation Key := (key_of wire).
Abbreviation DKey := (diff_key RR_String).

(** The TTL a record will have. *)
Definition eff (ttls : gmap (bytes * Z) Z) (r : rr) : Z := default (Ttl r) (ttls !! rrset_name r).
(** The in-memory state and the table hold the same records. *)
Record same_records (s : dstate) (t : gmap rec_key (bytes * Z)) : Prop := {
  sr_to : ∀ x r, s.1 !! x = Some r → DKey r = x ∧ is_soa_type r = false ∧
    ∃ k o, Key r = Some k ∧ t !! k = Some (o, eff s.2 r);
  sr_of : ∀ k v, t !! k = Some v → ∃ r, s.1 !! DKey r = Some r ∧ Key r = Some k;
  sr_class : ∀ x r, s.1 !! x = Some r → Class r = 1;
}.

Lemma key_rrset r k : Key r = Some k → rrset_of k = rrset_name r.
Proof. unfold key_of. destruct (wire r); [|done]. by intros [= <-]. Qed.

Lemma same_delete s t r t' : Class r = 1 → same_records s t → delete_record wire t r = Ok t' → same_records (del_diff RR_String s r) t'.
Proof.
  intros Hc [Hto Hof Hin]. unfold delete_record, del_diff. destruct (is_soa_type r) eqn:Es.
  - intros [= <-]. assert (delete (DKey r) s.1 = s.1) as Ed.
    { apply delete_id. destruct (s.1 !! DKey r) as [r'|] eqn:Er; [|done]. exfalso.
      destruct (Hto _ _ Er) as (Ek & Hs' & _). apply string_type in Ek. unfold is_soa_type in *. congruence. }
    split; simpl; rewrite Ed; done.
  - destruct (Key r) as [k|] eqn:Ek; [|done]. intros [= <-]. split; simpl.
    + intros x r' [Hx Hr']%lookup_delete_Some. destruct (Hto x r' Hr') as (<- & Hs' & k' & o & Hk' & Ht).
      split; [done|]. split; [done|]. exists k', o. split; [done|]. rewrite lookup_delete_ne; [done|].
      intros ->. apply Hx. apply (string_key r r' k' k'); eauto.
    + intros k' v [Hne Hv]%lookup_delete_Some. destruct (Hof k' v Hv) as (r' & Hr' & Hk'). exists r'. split; [|done].
      rewrite lookup_delete_ne; [done|]. intros E. apply Hne. apply (string_key r r' k k'); eauto.
    + intros x r' [_ Hr']%lookup_delete_Some. by eapply Hin.
Qed.

Lemma lookup_setTTL t rs ttl k :
  setRRsetTTL t rs ttl !! k = (λ v, if bool_decide (rrset_of k = rs) then (v.1, ttl) else v) <$> t !! k.
Proof. unfold setRRsetTTL. rewrite map_lookup_imap. by destruct (t !! k). Qed.

Lemma same_add s t r t' : Class r = 1 → same_records s t → add_record wire t r = Ok t' → same_records (add_diff RR_String s r) t'.
Proof.
  intros Hc [Hto Hof Hin]. unfold add_record, add_diff. destruct (is_soa_type r) eqn:Es; [by intros [= <-]|].
  destruct (Key r) as [k|] eqn:Ek; [|done]. intros [= <-].
  set (t1 := match t !! k with Some v => _ | None => _ end).
  assert (∃ o, t1 !! k = Some (o, Ttl r)) as [o Ho] by (unfold t1; destruct (t !! k); rewrite lookup_insert_eq; eauto).
  assert (∀ k', k' ≠ k → t1 !! k' = t !! k') as Hne by (intros k' ?; unfold t1; destruct (t !! k); by rewrite lookup_insert_ne).
  split; simpl.
  - intros x r' [[<- <-]|[Hx Hr']]%lookup_insert_Some.
    + split; [done|]. split; [done|]. exists k, o. split; [done|]. rewrite lookup_setTTL, Ho. simpl.
      unfold eff. rewrite lookup_insert_eq. simpl. by case_bool_decide.
    + destruct (Hto x r' Hr') as (<- & Hs' & k' & o' & Hk' & Ht). split; [done|]. split; [done|].
      exists k', o'. split; [done|]. rewrite lookup_setTTL, Hne, Ht.
      2:{ intros ->. apply Hx. apply (string_key r r' k k); eauto. }
      simpl. rewrite (key_rrset _ _ Hk'). unfold eff.
      case_bool_decide as E; [rewrite E, lookup_insert_eq; done|by rewrite lookup_insert_ne].
  - intros k' v Hv. rewrite lookup_setTTL in Hv. destruct (decide (k' = k)) as [->|Hk'].
    + exists r. by rewrite lookup_insert_eq.
    + rewrite Hne in Hv by done. destruct (t !! k') as [v'|] eqn:Et; [|done].
      destruct (Hof k' v' Et) as (r' & Hr' & Hkr). exists r'. split; [|done].
      rewrite lookup_insert_ne; [done|]. intros E. apply Hk'. symmetry. apply (string_key r r' k k'); eauto.
  - intros x r' [[_ <-]|[_ Hr']]%lookup_insert_Some; [done|by eapply Hin].
Qed.
Lemma same_fold {B} (P : B → Prop) (f : dstate → B → dstate) (g : gmap rec_key (bytes * Z) → B → res xfr_err (gmap rec_key (bytes * Z))) l s t t' :
  (∀ s t b t', P b → same_records s t → g t b = Ok t' → same_records (f s b) t') →
  Forall P l → same_records s t → fold_res g t l = Ok t' → same_records (foldl f s l) t'.
Proof.
  intros Hf Hl. revert s t. induction Hl as [|b l Hb Hl IH]; intros s t Hs; simpl; [by intros [= <-]|].
  intros (t1 & H1 & H2)%bind_Ok. eapply IH; [|done]. by eapply Hf.
Qed.
(** The records of a diff are of class IN, as [check_rrs] has it. *)
Definition inet_diff (d : Diff) : Prop := Forall (λ r, Class r = 1) (d_Deleted d) ∧ Forall (λ r, Class r = 1) (d_Added d).
Lemma same_diff s t d t' : inet_diff d → same_records s t → ApplyRecordChanges wire t (d_Deleted d) (d_Added d) = Ok t' →
  same_records (apply_diff RR_String s d) t'.
Proof.
  intros [Hd Ha] Hs (t1 & H1 & H2)%bind_Ok. unfold apply_diff. eapply same_fold; [exact same_add|exact Ha| |exact H2].
  eapply same_fold; [exact same_delete|exact Hd|exact Hs|exact H1].
Qed.

(** The stored records are the served ones. *)
Record served_is (current : list rr) (t : gmap rec_key (bytes * Z)) : Prop := {
  sv_class : ∀ r, r ∈ current → Class r = 1;
  sv_pack : ∀ r, r ∈ current → is_soa_type r = false → Key r ≠ None;
  sv_to : ∀ r k, r ∈ current → is_soa_type r = false → Key r = Some k → ∃ o, t !! k = Some (o, Ttl r);
  sv_of : ∀ k v, t !! k = Some v → ∃ r, r ∈ current ∧ is_soa_type r = false ∧ Key r = Some k;
}.
Lemma put_all_spec (l : list rr) m :
  (∀ x r, m !! x = Some r → DKey r = x ∧ is_soa_type r = false) →
  (∀ r, r ∈ l → is_soa_type r = false → ∃ r', foldl (put_current RR_String) m l !! DKey r = Some r') ∧
  (∀ x, m !! x ≠ None → foldl (put_current RR_String) m l !! x ≠ None) ∧
  (∀ x r, foldl (put_current RR_String) m l !! x = Some r → (m !! x = Some r ∨ r ∈ l) ∧ DKey r = x ∧ is_soa_type r = false).
Proof.
  revert m. induction l as [|y l IH]; intros m Hm; simpl.
  { split_and!; [by intros r ?%not_elem_of_nil|done|]. intros x r Hr. split; [by left|by apply Hm]. }
  assert (∀ x r, put_current RR_String m y !! x = Some r → DKey r = x ∧ is_soa_type r = false) as Hm'.
  { intros x r. unfold put_current. destruct (is_soa_type y) eqn:Ey; [apply Hm|].
    intros [[<- <-]|[_ ?]]%lookup_insert_Some; [done|by apply Hm]. }
  destruct (IH _ Hm') as (H1 & H2 & H3). split_and!.
  - intros r [->|Hr]%elem_of_cons Hs; [|by apply H1].
    specialize (H2 (DKey y)). unfold put_current in H2 at 1. rewrite Hs, lookup_insert_eq in H2.
    specialize (H2 ltac:(done)). destruct (foldl _ _ l !! DKey y) as [r'|]; [by exists r'|done].
  - intros x Hx. apply H2. unfold put_current. destruct (is_soa_type y); [done|].
    destruct (decide (DKey y = x)) as [<-|]; [by rewrite lookup_insert_eq|by rewrite lookup_insert_ne].
  - intros x r Hr. destruct (H3 x r Hr) as ([Hp|Hp] & Hd & Hs); (split; [|done]); [|right; by right].
    unfold put_current in Hp. destruct (is_soa_type y); [by left|].
    apply lookup_insert_Some in Hp as [[<- <-]|[_ ?]]; [right; left|by left].
Qed.
Lemma same_start current t : served_is current t → same_records (foldl (put_current RR_String) ∅ current, ∅) t.
Proof.
  intros [Hc Hp Hto Hof]. destruct (put_all_spec current ∅) as (H1 & _ & H3); [by intros x r; rewrite lookup_empty|].
  split; simpl.
  - intros x r Hr. destruct (H3 x r Hr) as ([Hm|Hin] & Hd & Hs); [by rewrite lookup_empty in Hm|].
    split; [done|]. split; [done|]. destruct (Key r) as [k|] eqn:Ek; [|by destruct (Hp r Hin Hs)].
    destruct (Hto r k Hin Hs Ek) as [o Ho]. exists k, o. by unfold eff.
  - intros k v Hv. destruct (Hof k v Hv) as (r & Hin & Hs & Hk). destruct (H1 r Hin Hs) as [r' Hr'].
    destruct (H3 _ _ Hr') as ([Hm|Hin'] & Hd & Hs'); [by rewrite lookup_empty in Hm|].
    exists r'. rewrite Hd. split; [done|]. destruct (Key r') as [k'|] eqn:Ek'; [|by destruct (Hp r' Hin' Hs')].
    f_equal. apply (string_key r' r k' k); auto.
  - intros x r Hr. destruct (H3 x r Hr) as ([Hm|Hin] & _); [by rewrite lookup_empty in Hm|by apply Hc].
Qed.

Lemma fix_ttl_eff ttls r : Ttl (fix_ttl ttls r) = eff ttls r ∧ Key (fix_ttl ttls r) = Key r ∧
  is_soa_type (fix_ttl ttls r) = is_soa_type r.
Proof.
  unfold fix_ttl, eff. destruct (ttls !! rrset_name r) as [t|]; [|done]. simpl.
  destruct (Z.eqb_spec t (Ttl r)) as [->|]; [done|]. split; [done|]. split; [|done].
  unfold key_of. by rewrite wire_ttl.
Qed.

(** The zone checked is the zone stored.  When an incremental transfer is applied, the records
    in the database afterwards are exactly those [applyDiffs] computed for the ZONEMD check before:
    the same owners, types and data, with the same TTLs, through any sequence of differences that
    deletes, adds again, changes TTLs or repeats records. *)
Theorem applyDiffs_stored current t ans locked t' :
  served_is current t → Forall inet_diff (Diffs ans) → Full ans = None → apply_answer wire locked t ans = Ok t' →
  ∀ k ttl, (∃ o, t' !! k = Some (o, ttl)) ↔
    ∃ r, r ∈ applyDiffs RR_String range_order current (Diffs ans) ∧ is_soa_type r = false ∧
         Key r = Some k ∧ Ttl r = ttl.
Proof.
  intros Hs Hcl Hfull Ha. unfold apply_answer in Ha. rewrite Hfull in Ha.
  destruct (Diffs ans) as [|d0 ds0] eqn:Ed; [done|]. destruct (negb _); [done|].
  pose proof (same_fold _ (apply_diff RR_String) _ _ _ _ _ same_diff Hcl (same_start _ _ Hs) Ha) as [Hto Hof _].
  unfold applyDiffs. destruct (foldl (apply_diff RR_String) _ (d0 :: ds0)) as [m ttls]. simpl in Hto, Hof.
  intros k ttl. split.
  - intros [o Ho]. destruct (Hof _ _ Ho) as (r & Hr & Hk). destruct (Hto _ _ Hr) as (_ & Hrs & k' & o' & Hk' & Ht').
    destruct (fix_ttl_eff ttls r) as (E1 & E2 & E3). exists (fix_ttl ttls r). split_and!; [|congruence..].
    apply list_elem_of_fmap. exists r. split; [done|]. rewrite range_all. apply list_elem_of_fmap.
    exists (DKey r, r). split; [done|]. by apply elem_of_map_to_list.
  - intros (r' & (r & -> & Hin)%list_elem_of_fmap & Hrs & Hk & <-).
    rewrite range_all in Hin. apply list_elem_of_fmap in Hin as ([x r1] & -> & Hx%elem_of_map_to_list). simpl in *.
    destruct (fix_ttl_eff ttls r1) as (E1 & E2 & E3). destruct (Hto _ _ Hx) as (_ & _ & k' & o & Hk' & Ht').
    exists o. rewrite E1. congruence.
Qed.
End apply.

(** ** An empty incremental answer *)
Lemma apply_answer_panics wire locked t ans :
  apply_answer wire locked t ans = Panic ↔ Full ans = None ∧ Diffs ans = [].
Proof.
  unfold apply_answer. split; [|by intros [-> ->]]. intros H. destruct (Full ans) as [rrs|] eqn:Ef.
  - exfalso. assert (returns (SetRecords wire rrs)) as Hr; [|by rewrite H in Hr].
    unfold SetRecords. apply returns_bind; [|by intros [? ?]]. apply fold_res_returns. intros [seen tb] r.
    unfold set_record. repeat case_match; done.
  - destruct (Diffs ans) as [|d ds] eqn:Ed; [done|]. destruct (negb _); [done|]. exfalso.
    assert (∀ ds, returns (fold_res (λ t d, ApplyRecordChanges wire t (d_Deleted d) (d_Added d)) t ds)) as Hr;
      [|specialize (Hr (d :: ds)); by rewrite H in Hr].
    intros ds'. apply fold_res_returns. intros t0 d0. unfold ApplyRecordChanges.
    apply returns_bind; [|intros t1 _]; apply fold_res_returns; intros t2 r.
    + unfold delete_record. repeat case_match; done.
    + unfold add_record. repeat case_match; done.
Qed.

(** A transfer answer crashes the process that applies it exactly when it is two SOA records with
    the serial that was asked for: [Interpret] accepts that stream as an incremental transfer
    without differences, which is neither marked as up to date nor has a first difference. *)
Theorem empty_ixfr_panics wire locked t rrs requested ixfr ans :
  Interpret rrs requested ixfr = Ok ans → UpToDate ans = false →
  apply_answer wire locked t ans = Panic ↔
  ixfr = true ∧ ∃ first last, rrs = [first; last] ∧ serial_of first = Some requested ∧ serial_of last = Some requested.
Proof.
  intros Hi Hu. pose proof (Interpret_sound _ _ _ _ Hi) as Hm. rewrite apply_answer_panics. split.
  - intros [Hf Hd]. destruct Hm as [| |first xs ds last serial Hx H1 H2 Hc]; [done|done|]. split; [done|].
    simpl in Hd. subst ds. destruct xs; [|done]. simpl in Hc. subst. by exists first, last.
  - intros (-> & first & last & -> & H1 & H2). apply serial_Some in H1 as (a & Ea & Ha).
    apply serial_Some in H2 as (b & Eb & Hb). unfold Interpret in Hi. rewrite Ea in Hi. simpl in Hi.
    rewrite Eb, Ha, Hb, Z.eqb_refl in Hi. rewrite bool_decide_eq_false_2 in Hi by done. simpl in Hi.
    rewrite ?Z.eqb_refl in Hi. by injection Hi as <-.
Qed.

(** A transfer stream is accepted exactly when it has the form the protocol gives it.  A single
    SOA that is not newer means nothing to do; a full transfer is an SOA, records without SOA, and
    the SOA again; an incremental one is a chain of differences, each an old SOA, deletions, a new
    SOA and additions, whose serials lead from the requested serial to that of the enclosing SOAs,
    and the interpretation returns exactly these parts.  Every stream gets an answer or an error. *)
Theorem Interpret_accepts rrs requested ixfr : soa_typed rrs →
  (∀ ans, Interpret rrs requested ixfr = Ok ans ↔ stream_means requested ixfr rrs ans) ∧
  returns (Interpret rrs requested ixfr).
Proof.
  intros Hty. split; [intros ans; split; [apply Interpret_sound|by apply Interpret_complete]|].
  unfold Interpret. destruct rrs as [|first rest]; [done|]. destruct (asSOA first); [|done].
  destruct rest as [|second rest]; [by destruct (_ && _)|]. destruct (asSOA (List.last _ _)); [|done].
  destruct (negb _); [done|]. destruct (_ || _); [by destruct (existsb _ _)|].
  apply returns_bind; [|intros [ds e] _; by destruct (negb _)]. apply diff_loop_returns; [lia|done].
Qed.

(** ** A concrete zone *)
Module Example.
Definition soa (n : Z) : rr := mkRR [97; 46] 6 1 300 [] (Some (mkSOA [] [] n 5 5 5 5)).
Definition a_rr (host ttl : Z) : rr := mkRR [host; 46; 97; 46] 1 1 ttl [192; 0; 2; host] None.
Definition wire (r : rr) : option bytes := Some (Data r).
Definition RR_String (r : rr) : bytes := Class r :: Rrtype r :: len (h_Name r) :: h_Name r ++ Data r.
Definition range_order (m : gmap bytes rr) : list rr := map snd (map_to_list m).
Definition stream : list rr := [soa 8; soa 5; a_rr 120 300; soa 7; a_rr 121 60; soa 7; soa 8; a_rr 122 30; soa 8].

Lemma Interpret_accepts_witness :
  ∃ ans, Interpret stream 5 true = Ok ans ∧ stream_means 5 true stream ans.
Proof.
  destruct (Interpret_accepts stream 5 true) as [H _].
  { intros r Hr. unfold stream in Hr. rewrite !elem_of_cons in Hr.
    repeat (destruct Hr as [->|Hr]; [by vm_compute|]). by apply not_elem_of_nil in Hr. }
  eexists. split; [vm_compute; reflexivity|]. apply H. vm_compute. reflexivity.
Defined.
Lemma empty_ixfr_panics_witness :
  Interpret [soa 5; soa 5] 5 true = Ok (mkAnswer false None [] 5) ∧
  apply_answer wire 5 ∅ (mkAnswer false None [] 5) = Panic.
Proof.
  split; [vm_compute; reflexivity|].
  apply (empty_ixfr_panics wire 5 ∅ [soa 5; soa 5] 5 true (mkAnswer false None [] 5)); [vm_compute; reflexivity|done|].
  split; [done|]. by exists (soa 5), (soa 5).
Defined.

Lemma string_key a b ka kb : Class a = 1 → Class b = 1 → key_of wire a = Some ka → key_of wire b = Some kb →
  diff_key RR_String a = diff_key RR_String b ↔ ka = kb.
Proof.
  intros Ha Hb [= <-] [= <-]. unfold diff_key, RR_String. simpl. rewrite Ha, Hb. split.
  - intros [= -> Hl Hd]. apply app_inj_1 in Hd as [-> ->]; [done|]. unfold len in Hl. lia.
  - intros [= E -> ->]. by rewrite E.
Qed.
Lemma string_type a b : diff_key RR_String a = diff_key RR_String b → Rrtype a = Rrtype b.
Proof. by intros [= _ ? _ _]. Qed.
Definition host (n ttl : Z) : rr := mkRR [n] 1 1 ttl [n] None.
Definition current : list rr := [soa 5; host 1 3; host 2 3].
Definition table : gmap rec_key (bytes * Z) := <[([1], 1, [1]) := ([1], 3)]> (<[([2], 1, [2]) := ([2], 3)]> ∅).
(** Two differences: the first replaces host 1 by host 3, the second adds host 1 again. *)
Definition ans : Answer := mkAnswer false None
  [mkDiff 5 7 [host 1 3] [host 3 4]; mkDiff 7 8 [] [host 1 2]] 8.
Lemma served_table : served_is wire current table.
Proof.
  split.
  - intros r Hr. unfold current in Hr. rewrite !elem_of_cons in Hr.
    destruct Hr as [->|[->|[->|Hr]]]; [done..|by apply not_elem_of_nil in Hr].
  - done.
  - intros r k Hr Hs [= <-]. unfold current in Hr. rewrite !elem_of_cons in Hr.
    destruct Hr as [->|[->|[->|Hr]]]; [done|by exists [1]|by exists [2]|by apply not_elem_of_nil in Hr].
  - unfold table. intros k v [[<- _]|[_ Hk]]%lookup_insert_Some.
    + exists (host 1 3). split; [right; left|done].
    + apply lookup_insert_Some in Hk as [[<- _]|[_ Hk]]; [|by rewrite lookup_empty in Hk].
      exists (host 2 3). split; [right; right; left|done].
Qed.
Definition stored {A} (r : res xfr_err A) (d : A) : A := match r with Ok t => t | _ => d end.
Definition is_ok {A} (r : res xfr_err A) : bool := match r with Ok _ => true | _ => false end.
Lemma stored_ok {A} (r : res xfr_err A) d : is_ok r = true → r = Ok (stored r d).
Proof. by destruct r. Qed.
Lemma applyDiffs_stored_witness :
  let t' := stored (apply_answer wire 5 table ans) ∅ in
  t' !! ([1], 1, [1]) = Some ([1], 2) ∧
  ∀ k ttl, (∃ o, t' !! k = Some (o, ttl)) ↔
    ∃ r, r ∈ applyDiffs RR_String range_order current (Diffs ans) ∧ is_soa_type r = false ∧
         key_of wire r = Some k ∧ Ttl r = ttl.
Proof.
  intros t'. split; [vm_compute; reflexivity|].
  apply (applyDiffs_stored wire RR_String range_order string_key string_type (λ _ _, eq_refl) (λ _, reflexivity _)
    current table ans 5 _ served_table); [by repeat constructor|done|].
  apply stored_ok. vm_compute. reflexivity.
Defined.

(** A type in the surrogate range of Unicode is not told apart from another one when a full
    transfer is stored: of two records that differ in such a type only the first is kept. *)
Theorem SetRecords_surrogate_types :
  let x := mkRR [1] 0xD800 1 300 [1] None in
  let y := mkRR [1] 0xD801 1 300 [1] None in
  let t := stored (SetRecords wire [x; y]) ∅ in
  is_ok (SetRecords wire [x; y]) = true ∧ t !! ([1], 0xD800, [1]) = Some ([1], 300) ∧ t !! ([1], 0xD801, [1]) = None.
Proof. split_and!; vm_compute; reflexivity. Qed.
End Example.
