(* ===== verification/DnsLib.v ===== *)
(** * The DNS library and the wire form of records

    The operations of the DNS library (github.com/miekg/dns) that the zone service, dynamic updates
    and transfers call, as a class of parameters; what is relied on of them as a class of laws; and
    mgmt/internal/nzf/rr.go, which converts between the library's records and zone format records. *)

From S2P Require Import Prelude.
From S2P Require Import GoText.
From S2P Require Import NzfNames.
From S2P Require Import NzfFormat.
From S2P Require Import ZoneJournal.
From S2P Require Import ZoneServed.
From S2P Require Import XfrIn.

Definition TypeA : Z := 1.
Definition TypeNS : Z := 2.
Definition TypeCNAME : Z := 5.
Definition TypePTR : Z := 12.
Definition TypeMX : Z := 15.
Definition TypeTXT : Z := 16.
Definition TypeAAAA : Z := 28.
Definition TypeLOC : Z := 29.
Definition TypeSRV : Z := 33.
Definition TypeNAPTR : Z := 35.
Definition TypeDNAME : Z := 39.
Definition TypeDS : Z := 43.
Definition TypeSSHFP : Z := 44.
Definition TypeTLSA : Z := 52.
Definition TypeSVCB : Z := 64.
Definition TypeHTTPS : Z := 65.
Definition TypeCAA : Z := 257.
Definition ClassINET : Z := 1.
Definition ClassNONE : Z := 254.
Definition ClassANY : Z := 255.

Class DnsLib := {
  NextLabel : bytes → Z → Z * bool;
  IsDomainName : bytes → bool;
  IsFqdn : bytes → bool;
  IsSubDomain : bytes → bytes → bool;
  Fqdn : bytes → bytes;
  CanonicalName : bytes → bytes;
  StringToType : bytes → option Z;
  TypeToString : Z → option bytes;
  NewRR : bytes → option (option rr);
  RR_String : rr → bytes;
  IsDuplicate : rr → rr → bool;
  PackRR : rr → option bytes;
  PackDomainName : bytes → option bytes;
  UnpackRR : bytes → option rr;
}.

(** The wire form of a record (RFC 1035, 3.2.1). *)
Definition wire_rr (owner : bytes) (t c ttl : Z) (rdata : bytes) : bytes :=
  owner ++ put16 t ++ put16 c ++ put32 ttl ++ put16 (len rdata) ++ rdata.

Section rr.
Context `{DnsLib}.

(** nzf.FromRR: the slices of the packed record. *)
Definition nzf_FromRR (r : rr) : option record :=
  b ← PackRR r;
  o ← PackDomainName (h_Name r);
  let ol := length o in
  if (length b <? ol + 10)%nat then None
  else
    rdlen ← get16 (drop (ol + 8) b);
    if negb (Z.of_nat ol + 10 + rdlen =? len b) then None
    else
      t ← get16 (drop ol b);
      c ← get16 (drop (ol + 2) b);
      ttl ← get32 (drop (ol + 4) b);
      Some (mkRecord (take ol b) t c ttl (drop (ol + 10) b)).
Definition nzf_ToRR (r : record) : option rr :=
  if 65535 <? len (RData r) then None
  else UnpackRR (wire_rr (Owner r) (RType r) (RClass r) (TTL r) (RData r)).
End rr.

(** The header fields have their widths. *)
Definition wf_rr (r : rr) : Prop := is_u16 (Rrtype r) ∧ is_u16 (Class r) ∧ is_u32 (Ttl r).
Definition set_soa (r : rr) (s : option SOAData) : rr := mkRR (h_Name r) (Rrtype r) (Class r) (Ttl r) (Data r) s.

(** What the model relies on: names pack to valid wire names; a record packs to its wire form, with
    an RDATA that depends on neither the owner, the class nor the TTL; a packed record unpacks, to
    one with the same header that packs alike; the names the library prints are ASCII, with one
    spelling per wire name; the two tables of type names are inverse to each other;
    [NextLabel] moves right to an offset after a dot; a canonical name is in lower case. *)
Class DnsLaws `{DnsLib} := {
  rdata_of : rr → option bytes;
  printed : bytes → Prop;
  next_label : ∀ s off i, 0 ≤ off → NextLabel s off = (i, false) → off < i ≤ len s ∧ idx s (i - 1) = Some 46;
  pack_name : ∀ n o, PackDomainName n = Some o → validName o = Ok tt ∧ Forall is_byte o;
  pack_rr : ∀ r, PackRR r =
    (o ← PackDomainName (h_Name r); d ← rdata_of r; Some (wire_rr o (Rrtype r) (Class r) (Ttl r) d));
  type_string : ∀ t s, TypeToString t = Some s → s ≠ [] ∧ StringToType s = Some t;
  type_number : ∀ t, TypeToString t = None → StringToType (str "TYPE" ++ FormatUint t) = None;
  rdata_bytes : ∀ r d, rdata_of r = Some d → Forall is_byte d ∧ len d ≤ 65535;
  rdata_header : ∀ r n c t, rdata_of (mkRR n (Rrtype r) c t (Data r) (asSOA r)) = rdata_of r;
  rdata_soa : ∀ r s, Rrtype r ≠ TypeSOA → rdata_of (set_soa r s) = rdata_of r;
  unpack_rr : ∀ r b, wf_rr r → PackRR r = Some b → ∃ r', UnpackRR b = Some r' ∧ PackRR r' = Some b ∧
    Rrtype r' = Rrtype r ∧ Class r' = Class r ∧ Ttl r' = Ttl r ∧ printed (h_Name r');
  new_rr : ∀ s r, NewRR s = Some (Some r) → wf_rr r;
  printed_ascii : ∀ n, printed n → Forall (λ c, 0 ≤ c < RuneSelf) n;
  printed_inj : ∀ a b w, printed a → printed b → PackDomainName a = Some w → PackDomainName b = Some w → a = b;
  canonical_lower : ∀ n, ToLower (CanonicalName n) = CanonicalName n;
}.

Lemma ToLower_idem s : ToLower (ToLower s) = ToLower s.
Proof. unfold ToLower. rewrite map_map. apply map_ext. apply ascii_lower_idemp. Qed.
Lemma get16_all v k : get16 (put16 v ++ k) = Some (u16 v).
Proof.
  rewrite <- (get16_put16 (u16 v) k) by (unfold u16, is_u16; apply Z.mod_pos_bound; lia).
  unfold put16, u8, u16. do 3 f_equal; [|f_equal]; rewrite ?Z.shiftr_div_pow2 by lia; Z.div_mod_to_equations; lia.
Qed.
Lemma drop_past {A} (p q : list A) n : drop (length p + n) (p ++ q) = drop n q.
Proof. rewrite drop_app_ge by lia. f_equal. lia. Qed.
Lemma wire_fields o t c ttl d (b := wire_rr o t c ttl d) (n := length o) :
  take n b = o ∧ get16 (drop n b) = Some (u16 t) ∧ get16 (drop (n + 2) b) = Some (u16 c) ∧
  (is_u32 ttl → get32 (drop (n + 4) b) = Some ttl) ∧ get16 (drop (n + 8) b) = Some (u16 (len d)) ∧
  drop (n + 10) b = d ∧ length b = (n + 10 + length d)%nat.
Proof.
  unfold b, n, wire_rr. rewrite take_app_length, drop_app_length, !drop_past. split; [done|].
  split; [apply get16_all|]. split; [apply get16_all|]. split; [apply get32_put32|]. split; [apply get16_all|].
  split; [done|]. rewrite !length_app. simpl. lia.
Qed.

Section laws.
Context `{DnsLaws}.

(** Packing without the detour through offsets. *)
Lemma FromRR_spec r : wf_rr r → nzf_FromRR r =
  (o ← PackDomainName (h_Name r); d ← rdata_of r; Some (mkRecord o (Rrtype r) (Class r) (Ttl r) d)).
Proof.
  intros (Ht & Hc & Hl). unfold nzf_FromRR. rewrite pack_rr. destruct (PackDomainName (h_Name r)) as [o|] eqn:Eo; [|done].
  destruct (rdata_of r) as [d|] eqn:Ed; [|done]. pose proof (rdata_bytes _ _ Ed) as [_ Hd]. pose proof (len_nonneg d).
  destruct (wire_fields o (Rrtype r) (Class r) (Ttl r) d) as (E1 & E2 & E3 & E4 & E5 & E6 & E7).
  cbn [mbind option_bind]. rewrite E1, E2, E3, (E4 Hl), E5, E6, E7. cbn [mbind option_bind].
  destruct (Nat.ltb_spec (length o + 10 + length d) (length o + 10)); [lia|].
  rewrite !u16_small by (unfold is_u16 in *; lia). unfold len in *. rewrite E7.
  destruct (Z.eqb_spec (Z.of_nat (length o) + 10 + Z.of_nat (length d)) (Z.of_nat (length o + 10 + length d))); [done|lia].
Qed.
Lemma pack_bytes r b : PackRR r = Some b → Forall is_byte b.
Proof.
  rewrite pack_rr. destruct (PackDomainName (h_Name r)) as [o|] eqn:Eo; [|done].
  destruct (rdata_of r) as [d|] eqn:Ed; [|done]. intros [= <-]. unfold wire_rr.
  destruct (pack_name _ _ Eo) as [_ Ho]. destruct (rdata_bytes _ _ Ed) as [Hd _].
  repeat apply Forall_app_2; auto using put16_bytes, put32_bytes.
Qed.
(** Whatever the header holds, a packed record is well formed. *)
Lemma nzf_FromRR_ok r x : nzf_FromRR r = Some x → key_ok x.
Proof.
  unfold nzf_FromRR. destruct (PackRR r) as [b|] eqn:Eb; [|done]. pose proof (pack_bytes _ _ Eb) as Hb.
  rewrite pack_rr in Eb. destruct (PackDomainName (h_Name r)) as [o|] eqn:Eo; [|done].
  destruct (rdata_of r) as [d|] eqn:Ed; [|done]. injection Eb as <-. cbn [mbind option_bind].
  destruct (wire_fields o (Rrtype r) (Class r) (Ttl r) d) as (E1 & E2 & E3 & _ & E5 & E6 & E7).
  destruct (_ <? _)%nat; [done|]. rewrite E5. cbn [mbind option_bind]. destruct (negb _); [done|].
  rewrite E2, E3. cbn [mbind option_bind]. destruct (get32 _) as [ttl|] eqn:E4; [|done].
  cbn [mbind option_bind]. rewrite E1, E6. intros [= <-].
  destruct (pack_name _ _ Eo) as [Hn Ho]. destruct (rdata_bytes _ _ Ed) as [Hd Hl].
  apply get32_bound in E4; [|by apply Forall_drop].
  split; [|done]. unfold record_wf. simpl. split_and!; try done; unfold is_u16, u16; try (apply Z.mod_pos_bound; lia).
Qed.
Lemma FromRR_type r x : nzf_FromRR r = Some x → RType x = u16 (Rrtype r).
Proof.
  unfold nzf_FromRR. rewrite pack_rr. destruct (PackDomainName (h_Name r)) as [o|] eqn:Eo; [|done].
  destruct (rdata_of r) as [d|]; [|done]. cbn [mbind option_bind].
  destruct (wire_fields o (Rrtype r) (Class r) (Ttl r) d) as (_ & E2 & E3 & _ & E5 & _). destruct (_ <? _)%nat; [done|].
  rewrite E5. cbn [mbind option_bind]. destruct (negb _); [done|]. rewrite E2, E3. cbn [mbind option_bind].
  destruct (get32 _); [|done]. by intros [= <-].
Qed.
Lemma FromRR_soa_field r s : Rrtype r ≠ TypeSOA → nzf_FromRR (set_soa r s) = nzf_FromRR r.
Proof. intros Ht. unfold nzf_FromRR. rewrite !pack_rr. rewrite rdata_soa by done. done. Qed.
Lemma wire_rr_inj o t c ttl d o' t' c' ttl' d' : validName o = Ok tt → validName o' = Ok tt →
  Forall is_byte o → Forall is_byte o' → len d ≤ 65535 → len d' ≤ 65535 →
  wire_rr o t c ttl d = wire_rr o' t' c' ttl' d' → o = o' ∧ d = d'.
Proof.
  intros Hv Hv' Ho Ho' Hd Hd' E. apply validName_spec in Hv as (ls & El & Hls & _); [|done].
  apply validName_spec in Hv' as (ls' & El' & Hls' & _); [|done].
  unfold wire_rr in E. rewrite El, El' in E. apply wire_name_app_inj in E as [-> E]; [|done..]. split; [congruence|].
  apply (f_equal (drop 10)) in E. exact E.
Qed.

(** A row of the record table reads back as the record that was stored. *)
Lemma ToRR_back n o r0 ttl d : PackDomainName n = Some o → rdata_of r0 = Some d → is_u16 (Rrtype r0) → is_u32 ttl →
  let x := mkRecord o (Rrtype r0) ClassINET ttl d in
  ∃ r, nzf_ToRR x = Some r ∧ nzf_FromRR r = Some x ∧ wf_rr r ∧ Rrtype r = Rrtype r0 ∧ Class r = ClassINET ∧
    Ttl r = ttl ∧ printed (h_Name r) ∧ PackDomainName (h_Name r) = Some o.
Proof.
  intros Hn Hd Ht Hl x. destruct (rdata_bytes _ _ Hd) as [Hb Hlen]. unfold nzf_ToRR. simpl.
  destruct (Z.ltb_spec 65535 (len d)); [lia|].
  set (r1 := mkRR n (Rrtype r0) ClassINET ttl (Data r0) (asSOA r0)).
  assert (wf_rr r1) as Hwf by (by split_and!).
  assert (PackRR r1 = Some (wire_rr o (Rrtype r0) ClassINET ttl d)) as Hp.
  { rewrite pack_rr. simpl. rewrite Hn. simpl. unfold r1. rewrite rdata_header, Hd. done. }
  destruct (unpack_rr _ _ Hwf Hp) as (r & Hu & Hp' & E1 & E2 & E3 & Hpr). exists r. split; [done|].
  simpl in E1, E2, E3. assert (wf_rr r) as Hwr by (split_and!; rewrite ?E1, ?E2, ?E3; done).
  pose proof Hp' as Hq. rewrite pack_rr in Hq. destruct (PackDomainName (h_Name r)) as [o'|] eqn:Eo; [|done].
  destruct (rdata_of r) as [d'|] eqn:Ed; [|done]. injection Hq as Hq.
  destruct (pack_name _ _ Hn) as [Hv Hvb]. destruct (pack_name _ _ Eo) as [Hv' Hvb']. destruct (rdata_bytes _ _ Ed) as [_ Hlen'].
  apply wire_rr_inj in Hq as [-> ->]; [|done..].
  split; [|by split_and!]. rewrite FromRR_spec by done. rewrite Eo. simpl. rewrite Ed. simpl. by rewrite E1, E2, E3.
Qed.
End laws.
