(* ===== verification/ZoneRules.v ===== *)
(** * Record rules of a zone

    mgmt/internal/zone: the rules a zone's records obey, and that the incremental check is the full one. *)

From S2P Require Import Prelude.
From S2P Require Import GoText.
From S2P Require Import ZoneJournal.
From S2P Require Import XfrIn.
From S2P Require Import DnsLib.

(** ** The rules of a zone

    mgmt/internal/zone/validate.go ([CheckSet], [checkOwner], [ancestors]) and the part of
    service.go that checks an edit ([checkOwners]): CNAME exclusivity, one DNAME, DS only at
    delegations, nothing below a DNAME, an NS at the apex.  [CheckSet] is proved to decide these
    rules, and [checkOwners], which reads the edited owners and their ancestors only, to agree with
    it on a zone that kept the rules before the edit. *)

Inductive rule_err : Type :=
| LastApexNS | CnameConflict | DnameConflict | DsNotAtDelegation | DnameOccludes.

(** [ownerTypes]: the number of records by lowercase owner and type. *)
Abbreviation ownerTypes := (gmap bytes (gmap Z Z)).
Definition types_at (t : ownerTypes) (o : bytes) : gmap Z Z := default ∅ (t !! o).
Definition count (t : ownerTypes) (o : bytes) (ty : Z) : Z := default 0 (types_at t o !! ty).
Definition ot_add (t : ownerTypes) (p : bytes * Z) : ownerTypes :=
  <[p.1 := <[p.2 := count t p.1 p.2 + 1]> (types_at t p.1)]> t.

Section rules.
Context `{DnsLib}.

Fixpoint ancestors_loop (fuel : nat) (apex o : bytes) (off : Z) : list bytes :=
  match fuel with
  | O => []
  | S fuel =>
      let '(off, end_) := NextLabel o off in
      if negb end_ && (len apex <=? len o - off)
      then drop (Z.to_nat off) o :: ancestors_loop fuel apex o off
      else []
  end.
(** Every round moves the offset to the right, so the length of the name bounds the rounds. *)
Definition ancestors (apex o : bytes) : list bytes := ancestors_loop (S (length o)) apex o 0.

Definition checkApexNS (n : Z) : res rule_err unit := if n =? 0 then Err LastApexNS else Ok tt.
Definition checkOwner (apex o : bytes) (types : ownerTypes) : res rule_err unit :=
  let t := types_at types o in
  let n := count types o TypeCNAME in
  if (0 <? n) && ((1 <? n) || (1 <? size t)%nat || bool_decide (o = apex)) then Err CnameConflict
  else if 1 <? count types o TypeDNAME then Err DnameConflict
  else if (0 <? count types o TypeDS) && (bool_decide (o = apex) || (count types o TypeNS =? 0))
  then Err DsNotAtDelegation
  else if existsb (λ parent, 0 <? count types parent TypeDNAME) (ancestors apex o) then Err DnameOccludes
  else Ok tt.

Fixpoint checkEach (apex : bytes) (types : ownerTypes) (owners : list bytes) : res rule_err unit :=
  match owners with
  | [] => Ok tt
  | o :: owners => checkOwner apex o types;; checkEach apex types owners
  end.

(** The owners in the order they are first seen, with the counts. *)
Definition see (s : ownerTypes * list bytes) (p : bytes * Z) : ownerTypes * list bytes :=
  (ot_add s.1 p, match s.1 !! p.1 with None => s.2 ++ [p.1] | Some _ => s.2 end).
Definition CheckSet (zoneName : bytes) (rrs : list rr) : res rule_err unit :=
  let '(types, owners) := foldl see (∅, []) (map rrset_name rrs) in
  let apex := ToLower zoneName in
  checkApexNS (count types apex TypeNS);;
  checkEach apex types (stable_sort bytes_lt owners).

(** ** checkOwners *)

(** SQL's [LIKE] with escape character [\ ]: [%] is any text, [_] any character. *)
Fixpoint like (p : bytes) : bytes → bool :=
  match p with
  | [] => λ s, bool_decide (s = [])
  | c :: p =>
      if c =? 37 then
        fix any (s : bytes) : bool := like p s || match s with [] => false | _ :: s => any s end
      else if c =? 95 then λ s, match s with [] => false | _ :: s => like p s end
      else if c =? 92 then
        match p with
        | [] => λ _, false
        | e :: p => λ s, match s with [] => false | x :: s => (x =? e) && like p s end
        end
      else λ s, match s with [] => false | x :: s => (x =? c) && like p s end
  end.
Definition likeEscaper (s : bytes) : bytes :=
  flat_map (λ c, if (c =? 92) || (c =? 37) || (c =? 95) then [92; c] else [c]) s.

(** [rows] are the pairs lower(owner), rtype of the zone's records. *)
Definition checkEdited (apex : bytes) (types : ownerTypes) (rows : list (bytes * Z)) (o : bytes) : res rule_err unit :=
  match types !! o with
  | None => Ok tt
  | Some _ =>
      checkOwner apex o types;;
      if count types o TypeDNAME =? 0 then Ok tt
      else if existsb (λ p, like (37 :: 46 :: likeEscaper o) p.1) rows then Err DnameOccludes
      else Ok tt
  end.
Fixpoint checkAllEdited (apex : bytes) (types : ownerTypes) (rows : list (bytes * Z)) (owners : list bytes) : res rule_err unit :=
  match owners with
  | [] => Ok tt
  | o :: owners => checkEdited apex types rows o;; checkAllEdited apex types rows owners
  end.
Definition checkOwners (zoneName : bytes) (rows : list (bytes * Z)) (owners : list bytes) : res rule_err unit :=
  let apex := ToLower zoneName in
  let lower := map ToLower owners in
  let names := apex :: flat_map (λ o, o :: ancestors apex o) lower in
  let types := foldl ot_add ∅ (filter (λ p, p.1 ∈ names) rows) in
  checkApexNS (count types apex TypeNS);;
  checkAllEdited apex types rows lower.
End rules.

(** ** CheckSet and checkOwners decide the rules of a zone *)

(** ** Counting *)
Definition occ (os : list (bytes * Z)) (o : bytes) (ty : Z) : nat := length (filter (λ p, p = (o, ty)) os).
(** The table counts the records at [o]. *)
Definition tabulates (t : ownerTypes) (os : list (bytes * Z)) (o : bytes) : Prop :=
  (∀ ty, types_at t o !! ty = if (occ os o ty =? 0)%nat then None else Some (Z.of_nat (occ os o ty))) ∧
  (t !! o = None ↔ ∀ ty, (o, ty) ∉ os).

Lemma occ_elem os o ty : (0 < occ os o ty)%nat ↔ (o, ty) ∈ os.
Proof.
  unfold occ. split.
  - intros Hl. destruct (filter _ os) as [|p l] eqn:E; [simpl in Hl; lia|].
    assert (p ∈ filter (λ p, p = (o, ty)) os) as Hp by (rewrite E; left). apply list_elem_of_filter in Hp as [-> ?]. done.
  - intros Hin. assert ((o, ty) ∈ filter (λ p, p = (o, ty)) os) as Hp by by apply list_elem_of_filter.
    destruct (filter _ os); [by apply not_elem_of_nil in Hp|simpl; lia].
Qed.
Lemma count_tab t os o ty : tabulates t os o → count t o ty = Z.of_nat (occ os o ty).
Proof. intros [Ht _]. unfold count. rewrite Ht. destruct (Nat.eqb_spec (occ os o ty) 0) as [->|]; done. Qed.

Lemma tab_fold os o : tabulates (foldl ot_add ∅ os) os o.
Proof.
  induction os as [|[o' ty'] os [IH1 IH2]] using rev_ind.
  { split; [intros ty; by unfold types_at; simpl; rewrite lookup_empty|]. simpl. rewrite lookup_empty.
    split; [|done]. intros _ ty. apply not_elem_of_nil. }
  rewrite foldl_snoc. set (t := foldl ot_add ∅ os) in *. unfold ot_add. simpl.
  destruct (decide (o' = o)) as [->|Hne].
  - split.
    + intros ty. unfold types_at at 1. rewrite lookup_insert_eq. simpl. unfold occ. rewrite filter_app, length_app.
      rewrite filter_cons, filter_nil. unfold count. destruct (decide (ty' = ty)) as [->|Hty].
      * rewrite lookup_insert_eq, IH1. rewrite decide_True by done. unfold occ. simpl.
        rewrite Nat.add_1_r. simpl. f_equal. destruct (Nat.eqb_spec (length (filter (λ p, p = (o, ty)) os)) 0) as [->|]; simpl; lia.
      * rewrite lookup_insert_ne by done. rewrite decide_False by congruence. simpl. rewrite Nat.add_0_r. apply IH1.
    + rewrite lookup_insert_eq. split; [done|]. intros Hn. exfalso. apply (Hn ty'). apply elem_of_app. right. left.
  - split.
    + intros ty. unfold types_at. rewrite lookup_insert_ne by done. unfold occ. rewrite filter_app, length_app.
      rewrite filter_cons, filter_nil, decide_False by congruence. simpl. rewrite Nat.add_0_r. apply IH1.
    + rewrite lookup_insert_ne by done. rewrite IH2. split; intros Hn ty Hin; apply (Hn ty).
      * apply elem_of_app in Hin as [?|Hin]; [done|]. apply list_elem_of_singleton in Hin. congruence.
      * apply elem_of_app. by left.
Qed.
Lemma occ_filter (P : bytes * Z → Prop) `{∀ p, Decision (P p)} os o ty :
  P (o, ty) → occ (filter P os) o ty = occ os o ty.
Proof.
  intros HP. unfold occ. induction os as [|p os IH]; [done|]. rewrite !filter_cons.
  destruct (decide (P p)) as [Hp|Hp]; [rewrite filter_cons; by destruct (decide _); simpl; rewrite IH|].
  destruct (decide (p = (o, ty))) as [->|]; [done|exact IH].
Qed.
Lemma tab_sub t os (names : list bytes) o : o ∈ names → tabulates t (filter (λ p, p.1 ∈ names) os) o → tabulates t os o.
Proof.
  intros Hin [H1 H2]. split.
  - intros ty. rewrite H1, occ_filter by done. done.
  - rewrite H2. split; intros Hn ty Hx; apply (Hn ty); [apply list_elem_of_filter; done|].
    by apply list_elem_of_filter in Hx as [_ ?].
Qed.

(** ** The rules *)
Section rules.
Context `{DnsLib}.

Record owner_rules (apex : bytes) (os : list (bytes * Z)) (o : bytes) : Prop := {
  or_cname : (o, TypeCNAME) ∈ os → o ≠ apex ∧ filter (λ p, p.1 = o) os = [(o, TypeCNAME)];
  or_dname : (occ os o TypeDNAME ≤ 1)%nat;
  or_ds : (o, TypeDS) ∈ os → o ≠ apex ∧ (o, TypeNS) ∈ os;
  or_above : ∀ p, p ∈ ancestors apex o → (p, TypeDNAME) ∉ os;
}.
(** [os] are the owners (in lower case) and types of the records of a zone, SOA excluded. *)
Definition zone_rules (apex : bytes) (os : list (bytes * Z)) : Prop :=
  (apex, TypeNS) ∈ os ∧ ∀ o ty, (o, ty) ∈ os → owner_rules apex os o.

Lemma two_keys (m : gmap Z Z) a b x y : a ≠ b → m !! a = Some x → m !! b = Some y → (1 < size m)%nat.
Proof.
  intros Hne Ha Hb. rewrite <- size_dom. apply Nat.lt_le_trans with (size ({[a; b]} : gset Z)).
  - rewrite size_union by set_solver. rewrite !size_singleton. lia.
  - apply subseteq_size. apply elem_of_dom_2 in Ha, Hb. set_solver.
Qed.
Lemma filter_forced (P Q : bytes * Z → Prop) `{∀ p, Decision (P p)} `{∀ p, Decision (Q p)} (os : list (bytes * Z)) :
  (∀ p, p ∈ os → P p ↔ Q p) → filter P os = filter Q os.
Proof.
  induction os as [|p os IH]; intros Hpq; [done|]. rewrite !filter_cons.
  rewrite IH by (intros q Hq; apply Hpq; by right). pose proof (Hpq p ltac:(left)).
  destruct (decide (P p)), (decide (Q p)); tauto || done.
Qed.
Lemma single_type t os o ty : tabulates t os o → (o, ty) ∈ os →
  (count t o ty ≤ 1 ∧ (size (types_at t o) ≤ 1)%nat) ↔ filter (λ p, p.1 = o) os = [(o, ty)].
Proof.
  intros Ht Hin. pose proof (count_tab t os o ty Ht) as Hc. destruct Ht as [Ht _].
  pose proof (proj2 (occ_elem os o ty) Hin) as Hocc. rewrite Hc. split.
  - intros [H1 H2]. assert (occ os o ty = 1)%nat as E1 by lia. unfold occ in E1.
    rewrite (filter_forced _ (λ p, p = (o, ty))).
    { destruct (filter (λ p, p = (o, ty)) os) as [|q [|]] eqn:E; [done| |done].
      assert (q ∈ filter (λ p, p = (o, ty)) os) as Hq by (rewrite E; left). by apply list_elem_of_filter in Hq as [-> _]. }
    intros [o' ty'] Hp. simpl. split; [|congruence]. intros ->. destruct (decide (ty' = ty)) as [->|Hne]; [done|].
    exfalso. apply occ_elem in Hp. assert (1 < size (types_at t o))%nat; [|lia].
    eapply (two_keys _ ty ty'); [done|rewrite Ht|rewrite Ht]; destruct (Nat.eqb_spec (occ os o ty) 0), (Nat.eqb_spec (occ os o ty') 0); (lia || done).
  - intros Hf. assert (∀ p, p ∈ os → p.1 = o ↔ p = (o, ty)) as Hall.
    { intros p Hp. split; [|by intros ->]. intros Ho. assert (p ∈ filter (λ p, p.1 = o) os) as Hq by by apply list_elem_of_filter.
      rewrite Hf in Hq. by apply list_elem_of_singleton in Hq. }
    split.
    + unfold occ. rewrite <- (filter_forced _ _ _ Hall), Hf. simpl. lia.
    + assert (dom (types_at t o) ⊆ {[ty]}) as Hd.
      { intros ty' [x Hx]%elem_of_dom. rewrite Ht in Hx. destruct (Nat.eqb_spec (occ os o ty') 0) as [|Hp]; [done|].
        assert ((o, ty') ∈ os) as Hp' by (apply occ_elem; lia). apply Hall in Hp' as Hp2. specialize (proj1 Hp2 eq_refl) as [= ->]. set_solver. }
      rewrite <- size_dom. apply subseteq_size in Hd. by rewrite size_singleton in Hd.
Qed.

Lemma checkOwner_iff apex o t os : (∀ x, x ∈ o :: ancestors apex o → tabulates t os x) →
  checkOwner apex o t = Ok tt ↔ owner_rules apex os o.
Proof.
  intros Ht. pose proof (Ht o ltac:(left)) as Ho. unfold checkOwner.
  assert (∀ ty, 0 < count t o ty ↔ (o, ty) ∈ os) as Hpos.
  { intros ty. rewrite (count_tab _ _ _ _ Ho), <- occ_elem. lia. }
  assert (existsb (λ parent, 0 <? count t parent TypeDNAME) (ancestors apex o) = false ↔
    ∀ p, p ∈ ancestors apex o → (p, TypeDNAME) ∉ os) as Habove.
  { rewrite <- not_true_iff_false, existsb_exists. split.
    - intros Hn p Hp Hin. apply Hn. exists p. split; [by apply list_elem_of_In|].
      apply Z.ltb_lt. rewrite (count_tab t os) by (apply Ht; by right). apply occ_elem in Hin. lia.
    - intros Hn (p & Hp & Hc). apply list_elem_of_In in Hp. apply (Hn p Hp). apply occ_elem.
      apply Z.ltb_lt in Hc. rewrite (count_tab t os) in Hc by (apply Ht; by right). lia. }
  assert ((0 <? count t o TypeCNAME) && ((1 <? count t o TypeCNAME) || (1 <? size (types_at t o))%nat || bool_decide (o = apex)) = false ↔
    ((o, TypeCNAME) ∈ os → o ≠ apex ∧ filter (λ p, p.1 = o) os = [(o, TypeCNAME)])) as Hcn.
  { rewrite andb_false_iff, !orb_false_iff, !Z.ltb_ge, Nat.ltb_ge, bool_decide_eq_false. rewrite <- Hpos. split.
    - intros [?|[Hs Ha]] Hc; [lia|]. split; [done|]. apply (single_type t); [done|by apply Hpos|done].
    - intros Hr. destruct (Z.le_gt_cases (count t o TypeCNAME) 0) as [|Hc]; [by left|right].
      destruct Hr as [Ha Hf]; [lia|]. apply (single_type t) in Hf; [done|done|apply Hpos; lia]. }
  assert ((0 <? count t o TypeDS) && (bool_decide (o = apex) || (count t o TypeNS =? 0)) = false ↔
    ((o, TypeDS) ∈ os → o ≠ apex ∧ (o, TypeNS) ∈ os)) as Hds.
  { rewrite andb_false_iff, orb_false_iff, Z.ltb_ge, bool_decide_eq_false, Z.eqb_neq, <- !Hpos.
    pose proof (count_tab t os o TypeNS Ho). split; [intros [?|[? ?]] ?; [lia|]; split; [done|lia]|].
    intros Hr. destruct (Z.le_gt_cases (count t o TypeDS) 0); [by left|right]. destruct Hr; [lia|]. split; [done|lia]. }
  pose proof (count_tab t os o TypeDNAME Ho) as Hd.
  split.
  - intros Hok. destruct (_ && _) eqn:E1 in Hok; [done|]. destruct (1 <? _) eqn:E2 in Hok; [done|].
    destruct (_ && _) eqn:E3 in Hok; [done|]. destruct (existsb _ _) eqn:E4 in Hok; [done|].
    split; [by apply Hcn|apply Z.ltb_ge in E2; lia|by apply Hds|by apply Habove].
  - intros [R1 R2 R3 R4]. rewrite (proj2 Hcn R1), (proj2 Hds R3), (proj2 Habove R4).
    destruct (Z.ltb_spec 1 (count t o TypeDNAME)); [lia|done].
Qed.

(** ** CheckSet *)
Lemma see_fold os : ∃ owners, foldl see (∅, []) os = (foldl ot_add ∅ os, owners) ∧
  ∀ o, o ∈ owners ↔ ∃ ty, (o, ty) ∈ os.
Proof.
  induction os as [|p os (owners & E & IH)] using rev_ind.
  { exists []. split; [done|]. intros o. split; [by intros ?%not_elem_of_nil|]. by intros (? & ?%not_elem_of_nil). }
  rewrite !foldl_snoc, E. unfold see. simpl. eexists. split; [done|]. intros o.
  destruct (tab_fold os p.1) as [_ Hn]. destruct (foldl ot_add ∅ os !! p.1) as [m|] eqn:Em.
  - rewrite IH. split; [intros [ty ?]; exists ty; apply elem_of_app; by left|].
    intros (ty & [Hin|Hin]%elem_of_app); [by exists ty|]. apply list_elem_of_singleton in Hin.
    destruct (decide (p.1 ∈ owners)) as [Hp|Hp]; [apply IH in Hp; by subst p|].
    exfalso. enough (Some m = None) by done. apply Hn. intros ty' Hty. apply Hp, IH. by exists ty'.
  - rewrite elem_of_app, list_elem_of_singleton, IH. split.
    + intros [[ty ?]| ->]; [exists ty; apply elem_of_app; by left|].
      exists p.2. apply elem_of_app. right. apply list_elem_of_singleton. by destruct p.
    + intros (ty & [Hin|Hin]%elem_of_app); [left; by exists ty|right]. apply list_elem_of_singleton in Hin. by subst p.
Qed.
Lemma checkEach_iff apex t owners :
  checkEach apex t owners = Ok tt ↔ ∀ o, o ∈ owners → checkOwner apex o t = Ok tt.
Proof.
  induction owners as [|o owners IH]; simpl.
  { split; [by intros _ o ?%not_elem_of_nil|done]. }
  split.
  - intros ([] & H1 & H2)%bind_Ok o' [->|Hin]%elem_of_cons; [done|]. by apply IH.
  - intros Hall. rewrite (Hall o) by left. simpl. apply IH. intros o' Ho. apply Hall. by right.
Qed.
Lemma checkApexNS_iff n : 0 ≤ n → checkApexNS n = Ok tt ↔ 0 < n.
Proof. unfold checkApexNS. intros. destruct (Z.eqb_spec n 0); split; (done || lia). Qed.
Lemma apex_iff t os apex : tabulates t os apex → checkApexNS (count t apex TypeNS) = Ok tt ↔ (apex, TypeNS) ∈ os.
Proof. intros Ht. rewrite (count_tab _ _ _ _ Ht), checkApexNS_iff, <- occ_elem by lia. lia. Qed.

Lemma CheckSet_iff zoneName rrs :
  CheckSet zoneName rrs = Ok tt ↔ zone_rules (ToLower zoneName) (map rrset_name rrs).
Proof.
  unfold CheckSet. set (os := map rrset_name rrs). destruct (see_fold os) as (owners & -> & Ho).
  set (apex := ToLower zoneName). set (t := foldl ot_add ∅ os).
  assert (∀ o, tabulates t os o) as Ht by (intros; apply tab_fold).
  unfold zone_rules. rewrite <- (apex_iff t os apex (Ht apex)). split.
  - intros ([] & H1 & H2)%bind_Ok. split; [done|]. intros o ty Hin. apply (checkOwner_iff apex o t); [auto|].
    rewrite checkEach_iff in H2. apply H2. rewrite stable_sort_perm. apply Ho. by exists ty.
  - intros [-> Hr]. simpl. apply checkEach_iff. intros o. rewrite stable_sort_perm, Ho. intros [ty Hin].
    apply (checkOwner_iff apex o t os); [auto|]. by eapply Hr.
Qed.

(** [CheckSet] accepts a record set exactly when it keeps the rules of a zone: the apex has an NS;
    a CNAME is the only record of its owner, which is not the apex; no owner has two DNAMEs; a DS
    is at an owner below the apex that has an NS; and no record lies below a DNAME.  Otherwise it
    returns an error. *)
Theorem CheckSet_rules zoneName rrs :
  (CheckSet zoneName rrs = Ok tt ↔ zone_rules (ToLower zoneName) (map rrset_name rrs)) ∧
  returns (CheckSet zoneName rrs).
Proof.
  split; [apply CheckSet_iff|]. unfold CheckSet. destruct (foldl see _ _) as [t owners].
  apply returns_bind; [unfold checkApexNS; by case_match|]. intros _ _.
  induction (stable_sort bytes_lt owners) as [|o l IH]; [done|]. simpl. apply returns_bind; [|done].
  unfold checkOwner. by repeat case_match.
Qed.

(** ** The pattern of checkOwners *)
Lemma like_any p s : like (37 :: p) s = true ↔ ∃ pre post, s = pre ++ post ∧ like p post = true.
Proof.
  induction s as [|x s IH].
  - simpl. rewrite orb_false_r. split; [intros; by exists [], []|]. intros (pre & post & E & Hp).
    symmetry in E. by apply app_nil in E as [-> ->].
  - change (like (37 :: p) (x :: s)) with (like p (x :: s) || like (37 :: p) s). rewrite orb_true_iff, IH. split.
    + intros [?|(pre & post & -> & ?)]; [by exists [], (x :: s)|]. by exists (x :: pre), post.
    + intros ([|y pre] & post & E & Hp); [left; simpl in E; by subst|right].
      simpl in E. injection E as <- ->. by exists pre, post.
Qed.
Lemma like_literal o s : like (likeEscaper o) s = true ↔ s = o.
Proof.
  revert s. induction o as [|c o IH]; intros s; [simpl; apply bool_decide_eq_true|].
  assert (∀ x s', (x =? c) && like (likeEscaper o) s' = true ↔ x :: s' = c :: o) as Hstep.
  { intros x s'. rewrite andb_true_iff, Z.eqb_eq, IH. split; [by intros [-> ->]|by intros [= -> ->]]. }
  change (likeEscaper (c :: o)) with ((if (c =? 92) || (c =? 37) || (c =? 95) then [92; c] else [c]) ++ likeEscaper o).
  destruct ((c =? 92) || (c =? 37) || (c =? 95)) eqn:Ec.
  - simpl. destruct s as [|x s]; [done|apply Hstep].
  - rewrite !orb_false_iff in Ec. destruct Ec as [[E1 E2] E3]. simpl. rewrite E1, E2, E3. destruct s as [|x s]; [done|apply Hstep].
Qed.
Lemma like_below o s : like (37 :: 46 :: likeEscaper o) s = true ↔ ∃ pre, s = pre ++ 46 :: o.
Proof.
  rewrite like_any. split.
  - intros (pre & post & -> & Hp). exists pre. f_equal. simpl in Hp. destruct post as [|x post]; [done|].
    apply andb_true_iff in Hp as [->%Z.eqb_eq Hp]. by apply like_literal in Hp as ->.
  - intros (pre & ->). exists pre, (46 :: o). split; [done|]. simpl. by apply like_literal.
Qed.

(** ** Edits *)
Context `{!DnsLaws}.

Lemma ancestors_below fuel apex o off p : 0 ≤ off → p ∈ ancestors_loop fuel apex o off → ∃ pre, o = pre ++ 46 :: p.
Proof.
  revert off. induction fuel as [|fuel IH]; intros off Hoff; simpl; [by intros ?%not_elem_of_nil|].
  destruct (NextLabel o off) as [i e] eqn:En. destruct (negb e && _) eqn:Ec; [|by intros ?%not_elem_of_nil].
  apply andb_true_iff in Ec as [He _]. destruct e; [done|]. apply next_label in En as [Hi Hdot]; [|done].
  intros [->|Hp]%elem_of_cons; [|apply (IH i); [lia|done]].
  apply idx_Some_split in Hdot as (l & k & E & Hl). exists l. rewrite E at 1. do 2 f_equal.
  rewrite E. rewrite (cons_middle 46), app_assoc, drop_app_length'; [done|]. rewrite length_app. simpl. unfold len in *. lia.
Qed.

Definition changed_at (owners : list bytes) (before after : list (bytes * Z)) : Prop :=
  ∀ o, o ∉ owners → filter (λ p, p.1 = o) after ≡ₚ filter (λ p, p.1 = o) before.
(** In no owner does a dot that a backslash escapes separate it from the owner of a DNAME. *)
Definition plain_dots (apex : bytes) (os : list (bytes * Z)) : Prop :=
  ∀ o ty p pre, (o, ty) ∈ os → (p, TypeDNAME) ∈ os → o = pre ++ 46 :: p → p ∈ ancestors apex o.

Lemma unchanged_elem owners before after o ty : changed_at owners before after → o ∉ owners →
  (o, ty) ∈ after ↔ (o, ty) ∈ before.
Proof.
  intros Hc Ho. specialize (Hc o Ho).
  assert (∀ os, (o, ty) ∈ os ↔ (o, ty) ∈ filter (λ p, p.1 = o) os) as Hf by (intros os; rewrite list_elem_of_filter; naive_solver).
  by rewrite (Hf after), (Hf before), Hc.
Qed.
Lemma unchanged_occ owners before after o ty : changed_at owners before after → o ∉ owners →
  occ after o ty = occ before o ty.
Proof.
  intros Hc Ho. rewrite <- (occ_filter (λ p, p.1 = o) after), <- (occ_filter (λ p, p.1 = o) before) by done.
  unfold occ. by rewrite (Hc o Ho).
Qed.
(** The rules of an owner that was not edited, but for DNAMEs that appeared above it. *)
Lemma unchanged_rules apex owners before after o : changed_at owners before after → o ∉ owners →
  owner_rules apex before o →
  (∀ p, p ∈ ancestors apex o → p ∈ owners → (p, TypeDNAME) ∉ after) → owner_rules apex after o.
Proof.
  intros Hc Ho [R1 R2 R3 R4] Habove. pose proof (λ ty, unchanged_elem _ _ _ o ty Hc Ho) as He. split.
  - rewrite He. intros [Ha Hf]%R1. split; [done|]. pose proof (Hc o Ho) as Hp. rewrite Hf in Hp.
    by apply Permutation_singleton_r in Hp.
  - by rewrite (unchanged_occ _ _ _ _ _ Hc Ho).
  - by rewrite !He.
  - intros p Hp Hin. destruct (decide (p ∈ owners)) as [Hpo|Hpo]; [by eapply Habove|].
    apply (R4 p Hp). by apply (unchanged_elem _ _ _ p TypeDNAME Hc Hpo).
Qed.
Lemma checkAllEdited_iff apex t rows owners :
  checkAllEdited apex t rows owners = Ok tt ↔ ∀ o, o ∈ owners → checkEdited apex t rows o = Ok tt.
Proof.
  induction owners as [|o owners IH]; simpl.
  { split; [by intros _ o ?%not_elem_of_nil|done]. }
  split.
  - intros ([] & H1 & H2)%bind_Ok o' [->|Hin]%elem_of_cons; [done|]. by apply IH.
  - intros Hall. rewrite (Hall o) by left. simpl. apply IH. intros o' Ho. apply Hall. by right.
Qed.
Lemma checkEdited_iff apex t os o : (∀ x, x ∈ o :: ancestors apex o → tabulates t os x) →
  checkEdited apex t os o = Ok tt ↔
  ((∃ ty, (o, ty) ∈ os) → owner_rules apex os o) ∧
  ((o, TypeDNAME) ∈ os → ∀ x ty pre, (x, ty) ∈ os → x = pre ++ 46 :: o → False).
Proof.
  intros Ht. pose proof (Ht o ltac:(left)) as Ho. unfold checkEdited. destruct (t !! o) as [m|] eqn:Em.
  2:{ split; [|done]. intros _. destruct Ho as [_ [Hn _]]. specialize (Hn Em). split; [by intros [ty Hin]; destruct (Hn ty)|by intros Hin; destruct (Hn TypeDNAME)]. }
  assert (∃ ty, (o, ty) ∈ os) as Hex.
  { destruct (filter (λ p, p.1 = o) os) as [|[o' ty] l] eqn:Ef.
    - exfalso. assert (t !! o = None) as E; [|congruence]. apply Ho. intros ty Hin.
      apply (not_elem_of_nil (o, ty)). rewrite <- Ef. by apply list_elem_of_filter.
    - assert ((o', ty) ∈ filter (λ p, p.1 = o) os) as Hp by (rewrite Ef; left).
      apply list_elem_of_filter in Hp as [E Hp]. simpl in E. subst o'. by exists ty. }
  pose proof (checkOwner_iff apex o t os Ht) as Hco.
  assert (count t o TypeDNAME = 0 ↔ (o, TypeDNAME) ∉ os) as Hd.
  { rewrite (count_tab _ _ _ _ Ho), <- occ_elem. lia. }
  assert (existsb (λ p : bytes * Z, like (37 :: 46 :: likeEscaper o) p.1) os = true ↔
    ∃ x ty pre, (x, ty) ∈ os ∧ x = pre ++ 46 :: o) as Hb.
  { rewrite existsb_exists. split.
    - intros ([x ty] & Hin%list_elem_of_In & [pre E]%like_below). by exists x, ty, pre.
    - intros (x & ty & pre & Hin & E). exists (x, ty). split; [by apply list_elem_of_In|]. apply like_below. by exists pre. }
  split.
  - intros ([] & H1 & H2)%bind_Ok. split; [intros _; by apply Hco|]. intros Hin x ty pre Hx E.
    destruct (Z.eqb_spec (count t o TypeDNAME) 0) as [E0|_]; [by apply Hd in E0|].
    destruct (existsb _ _) eqn:Eb; [done|]. enough (false = true) by done. apply Hb. eauto.
  - intros [H1 H2]. rewrite (proj2 Hco (H1 Hex)). simpl.
    destruct (Z.eqb_spec (count t o TypeDNAME) 0) as [|Hne]; [done|].
    destruct (existsb _ _) eqn:Eb; [|done]. destruct (proj1 Hb eq_refl) as (x & ty & pre & Hin & E).
    exfalso. eapply H2; [|done..]. apply occ_elem. rewrite (count_tab _ _ _ _ Ho) in Hne. lia.
Qed.

Lemma checkOwners_zone_rules zoneName before after owners (apex := ToLower zoneName) :
  zone_rules apex before → changed_at (map ToLower owners) before after →
  (checkOwners zoneName after owners = Ok tt → zone_rules apex after) ∧
  (plain_dots apex after → zone_rules apex after → checkOwners zoneName after owners = Ok tt).
Proof.
  intros [_ Hb] Hc. unfold checkOwners. fold apex. set (lower := map ToLower owners) in *.
  set (names := apex :: flat_map (λ o, o :: ancestors apex o) lower).
  set (t := foldl ot_add ∅ (filter (λ p, p.1 ∈ names) after)).
  assert (∀ x, x ∈ names → tabulates t after x) as Ht by (intros x Hx; apply (tab_sub t after names x Hx), tab_fold).
  assert (∀ o x, o ∈ lower → x ∈ o :: ancestors apex o → tabulates t after x) as Hto.
  { intros o x Ho Hx. apply Ht. right. apply list_elem_of_In, in_flat_map. exists o. rewrite <- !list_elem_of_In. done. }
  pose proof (apex_iff t after apex (Ht apex ltac:(left))) as Hapex. split.
  - intros ([] & H1 & H2)%bind_Ok. rewrite checkAllEdited_iff in H2. split; [by apply Hapex|]. intros o ty Hin.
    assert (∀ p, p ∈ lower → ((∃ ty, (p, ty) ∈ after) → owner_rules apex after p) ∧
      ((p, TypeDNAME) ∈ after → ∀ x ty pre, (x, ty) ∈ after → x = pre ++ 46 :: p → False)) as Hed.
    { intros p Hp. apply (checkEdited_iff apex t); [eauto|]. by apply H2. }
    destruct (decide (o ∈ lower)) as [Ho|Ho]; [by apply Hed; [|exists ty]|].
    eapply unchanged_rules; [done|done|apply (Hb o ty); by apply (unchanged_elem _ _ _ o ty Hc Ho)|].
    intros p Hp Hpo Hd. destruct (ancestors_below _ _ _ _ _ ltac:(done) Hp) as [pre E].
    exact (proj2 (Hed p Hpo) Hd o ty pre Hin E).
  - intros Hdots [Ha Hr]. rewrite (proj2 Hapex Ha). simpl. apply checkAllEdited_iff. intros o Ho.
    apply (checkEdited_iff apex t); [eauto|]. split; [intros [ty Hin]; by eapply Hr|].
    intros Hd x ty pre Hx E. by apply (or_above _ _ _ (Hr x ty Hx) o (Hdots x ty o pre Hx Hd E)).
Qed.

(** Checking an edit where it happened is checking the whole zone.  On a zone that kept the rules
    and changed at the edited owners only, [checkOwners], which reads the records at these owners
    and their ancestors and looks below an owner with a DNAME, accepts only if the whole zone
    keeps the rules that [CheckSet] checks.  It also accepts whenever the zone keeps them, unless
    an escaped dot makes an owner look as if it were below a DNAME. *)
Theorem checkOwners_incremental zoneName before after owners (apex := ToLower zoneName) :
  zone_rules apex before → changed_at (map ToLower owners) before after →
  (checkOwners zoneName after owners = Ok tt → zone_rules apex after) ∧
  (plain_dots apex after → zone_rules apex after → checkOwners zoneName after owners = Ok tt).
Proof. apply checkOwners_zone_rules. Qed.
End rules.
