(* ===== verification/ZoneRecords.v ===== *)
(** * Editing the records of a zone

    mgmt/internal/zone/service.go and validate.go: the record rows of one zone, [ParseRecord], the
    operations [CreateRecord], [UpdateRecord] and [DeleteRecord], and [Mutate], the transaction they
    run in, which rebuilds the served zone.  A transaction that fails changes nothing. *)

From S2P Require Import Prelude.
From S2P Require Import GoText.
From S2P Require Import NzfNames.
From S2P Require Import NzfFormat.
From S2P Require Import ZoneJournal.
From S2P Require Import XfrIn.
From S2P Require Import DnsLib.
From S2P Require Import ZoneRules.

Inductive svc_err : Type :=
| RuleErr (e : rule_err) | InvalidName | OutOfZone | UnsupportedType | InvalidTTL | InvalidRData
| ErrReadOnly | ErrCatalogManaged | ErrNotFound | ErrConflict | ZoneErr (e : zone_err).

Definition maxTTL : Z := 2147483647.
Definition ManagedTypes (t : Z) : bool :=
  bool_decide (t ∈ [TypeA; TypeAAAA; TypeCNAME; TypeDNAME; TypeMX; TypeNS; TypePTR; TypeSRV; TypeTXT; TypeCAA;
                    TypeSSHFP; TypeTLSA; TypeHTTPS; TypeSVCB; TypeDS; TypeNAPTR; TypeLOC]).

(** zone_records: the rows of one zone by id; [lower(owner)], type and RDATA are unique together. *)
Record zrow := mkZrow { zr_owner : bytes; zr_type : Z; zr_ttl : Z; zr_rdata : bytes; zr_wire : bytes; zr_rev : Z }.
Abbreviation zrows := (gmap Z zrow).
Definition row_key (r : zrow) : rec_key := (ToLower (zr_owner r), zr_type r, zr_wire r).
Definition row_pair (r : zrow) : bytes * Z := (ToLower (zr_owner r), zr_type r).
Definition pairs_of (rows : zrows) : list (bytes * Z) := map (λ p, row_pair p.2) (map_to_list rows).
Definition set_row_ttl (r : zrow) (ttl : Z) : zrow :=
  mkZrow (zr_owner r) (zr_type r) ttl (zr_rdata r) (zr_wire r) (zr_rev r + 1).

(** The name and the SOA fields of the zone row; the serial in [zi_SOA] is not read. *)
Record zinfo := mkZinfo { zi_name : bytes; zi_SOA : SOAData; zi_TTL : Z }.
Record RecordInput := mkInput { in_Name : bytes; in_Type : bytes; in_TTL : Z; in_Data : bytes }.
Record RecordView := mkView { v_Name : bytes; v_Type : bytes; v_TTL : Z; v_Data : bytes; v_Revision : Z }.

Section records.
Context `{DnsLib} (wide : Z → Z) (wide_upper : bytes → bytes).

(** [strings.ToUpper]; beyond ASCII it is [wide_upper]. *)
Definition ToUpper (s : bytes) : bytes :=
  if forallb (λ c, c <? RuneSelf) s then map (λ c, if is_lower c then c - 32 else c) s else wide_upper s.

(** What is left after [n] tabs. *)
Fixpoint after_tabs (s : bytes) (n : nat) : option bytes :=
  match n with
  | O => Some s
  | S n' => match s with [] => None | c :: s => if c =? 9 then after_tabs s n' else after_tabs s n end
  end.
Definition RDataText (r : rr) : bytes := default [] (after_tabs (RR_String r) 4).

Definition ParseRecord (zoneName : bytes) (i : RecordInput) : res svc_err (rr * bytes) :=
  let name := in_Name i in
  if negb (IsDomainName name) || negb (IsFqdn name) then Err InvalidName
  else if negb (IsSubDomain zoneName name) then Err OutOfZone
  else match StringToType (ToUpper (in_Type i)) with
  | None => Err UnsupportedType
  | Some typ =>
      if negb (ManagedTypes typ) then Err UnsupportedType
      else if maxTTL <? in_TTL i then Err InvalidTTL
      else if existsb (λ c, (c =? 10) || (c =? 13) || (c =? 59)) (in_Data i) || bool_decide (Fields (in_Data i) = [])
      then Err InvalidRData
      else match NewRR (name ++ [32] ++ FormatUint (in_TTL i) ++ str " IN " ++ default [] (TypeToString typ) ++ [32] ++ in_Data i) with
      | None | Some None => Err InvalidRData
      | Some (Some r) => if negb (Rrtype r =? typ) then Err InvalidRData else Ok (r, RDataText r)
      end
  end.

(** ** Rows *)
Definition taken (rows : zrows) (except : Z → bool) (k : rec_key) : bool :=
  existsb (λ p, negb (except p.1) && bool_decide (row_key p.2 = k)) (map_to_list rows).
Definition insertRecord (rows : zrows) (id : Z) (r : rr) : res svc_err zrows :=
  match nzf_FromRR r with
  | None => Err InvalidRData
  | Some w =>
      let row := mkZrow (h_Name r) (Rrtype r) (Ttl r) (RDataText r) (RData w) 1 in
      if bool_decide (rows !! id ≠ None) || taken rows (λ _, false) (row_key row) then Err ErrConflict
      else Ok (<[id := row]> rows)
  end.
Definition rows_setRRsetTTL (rows : zrows) (owner : bytes) (rtype ttl : Z) : zrows :=
  (λ r, if bool_decide (row_pair r = (ToLower owner, rtype)) && negb (zr_ttl r =? ttl) then set_row_ttl r ttl else r) <$> rows.

(** [ApplyRecordChanges] on the rows; [new_id] is the id the next inserted row gets. *)
Definition rows_delete (rows : zrows) (r : rr) : res svc_err zrows :=
  if is_soa_type r then Ok rows
  else match nzf_FromRR r with
       | None => Err InvalidRData
       | Some w => Ok (filter (λ p, row_key p.2 ≠ (ToLower (h_Name r), Rrtype r, RData w)) rows)
       end.
Definition find_row (rows : zrows) (k : rec_key) : option (Z * zrow) :=
  snd <$> list_find (λ p, row_key p.2 = k) (map_to_list rows).
Definition rows_add (new_id : zrows → Z) (rows : zrows) (r : rr) : res svc_err zrows :=
  if is_soa_type r then Ok rows
  else match nzf_FromRR r with
       | None => Err InvalidRData
       | Some w =>
           rows ← match find_row rows (ToLower (h_Name r), Rrtype r, RData w) with
                  | Some (id, old) => Ok (if zr_ttl old =? Ttl r then rows else <[id := set_row_ttl old (Ttl r)]> rows)
                  | None =>
                      let id := new_id rows in
                      if bool_decide (rows !! id ≠ None) then Err ErrConflict
                      else Ok (<[id := mkZrow (h_Name r) (Rrtype r) (Ttl r) (RDataText r) (RData w) 1]> rows)
                  end;
           Ok (rows_setRRsetTTL rows (h_Name r) (Rrtype r) (Ttl r))
       end.
Definition rows_ApplyRecordChanges (new_id : zrows → Z) (rows : zrows) (deleted added : list rr) : res svc_err zrows :=
  rows ← fold_res rows_delete rows deleted;
  fold_res (rows_add new_id) rows added.

(** queryRRs: each row as a record of the library. *)
Definition row_rr (r : zrow) : option rr :=
  o ← PackDomainName (zr_owner r);
  nzf_ToRR (mkRecord o (zr_type r) ClassINET (zr_ttl r) (zr_wire r)).
Definition queryRRs (rows : zrows) (P : zrow → bool) : res zone_err (list rr) :=
  match mapM (λ p, row_rr p.2) (filter (λ p, P p.2 = true) (map_to_list rows)) with
  | Some l => Ok l
  | None => Err RowErr
  end.
Definition loadRecordRRs (rows : zrows) : res zone_err (list rr) := queryRRs rows (λ _, true).
Fixpoint load_sets (rows : zrows) (seen sets : list (bytes * Z)) : res zone_err (list rr) :=
  match sets with
  | [] => Ok []
  | s :: sets =>
      if existsb (λ o, (o.2 =? s.2) && EqualFold wide o.1 s.1) seen then load_sets rows (seen ++ [s]) sets
      else
        rrs ← queryRRs rows (λ r, bool_decide (row_pair r = (ToLower s.1, s.2)));
        rest ← load_sets rows (seen ++ [s]) sets;
        Ok (rrs ++ rest)
  end.
Definition loadRRsets (rows : zrows) (sets : list (bytes * Z)) : res zone_err (list rr) := load_sets rows [] sets.

(** ** The edits *)
Definition lift_zone {E A} (ze : zone_err → E) (m : res zone_err A) : res E A :=
  match m with Ok a => Ok a | Err e => Err (ze e) | Panic => Panic | Fuel => Fuel end.
Definition lift_rule {A} (m : res rule_err A) : res svc_err A :=
  match m with Ok a => Ok a | Err e => Err (RuleErr e) | Panic => Panic | Fuel => Fuel end.

Definition recordEdit (zoneName : bytes) (rows : zrows) (owners : list bytes) (sets : list (bytes * Z))
    (change : zrows → res svc_err zrows) : res svc_err (zrows * (list rr * list rr)) :=
  before ← lift_zone ZoneErr (loadRRsets rows sets);
  rows' ← change rows;
  lift_rule (checkOwners zoneName (pairs_of rows') owners);;
  after ← lift_zone ZoneErr (loadRRsets rows' sets);
  Ok (rows', (before, after)).

(** [scanRecord] and [rtypeOf]: the type goes through its text. *)
Definition type_text (t : Z) : bytes :=
  match TypeToString t with Some (c :: s) => c :: s | Some [] | None => str "TYPE" ++ FormatUint t end.
Definition scanRecord (r : zrow) : RecordView :=
  mkView (zr_owner r) (type_text (zr_type r)) (zr_ttl r) (zr_rdata r) (zr_rev r).
Definition rtypeOf (v : RecordView) : Z :=
  match StringToType (v_Type v) with
  | Some t => t
  | None => default 0 (ParseUint (TrimPrefix (v_Type v) (str "TYPE")) 16)
  end.
Definition lockRecord (rows : zrows) (id revision : Z) : res svc_err RecordView :=
  match rows !! id with
  | None => Err ErrNotFound
  | Some r => if negb (zr_rev r =? revision) then Err ErrConflict else Ok (scanRecord r)
  end.

Definition writable (k : ZoneKind) : res svc_err unit := if bool_decide (k = Primary) then Ok tt else Err ErrReadOnly.
Definition checkRecordsWritable (k : ZoneKind) (producer : bool) : res svc_err unit :=
  writable k;;
  if producer then Err ErrCatalogManaged else Ok tt.

(** The functions the three operations pass to [Mutate]; [id] is the id a new row gets. *)
Definition createRecord (name : bytes) (rows : zrows) (id : Z) (i : RecordInput) : res svc_err (zrows * (list rr * list rr)) :=
  '(r, _) ← ParseRecord name i;
  recordEdit name rows [h_Name r] [(h_Name r, Rrtype r)] (λ rows,
    rows ← insertRecord rows id r;
    Ok (rows_setRRsetTTL rows (h_Name r) (Rrtype r) (Ttl r))).
Definition updateRecord (name : bytes) (rows : zrows) (id revision : Z) (i : RecordInput) : res svc_err (zrows * (list rr * list rr)) :=
  before ← lockRecord rows id revision;
  '(r, data) ← ParseRecord name i;
  match nzf_FromRR r with
  | None => Err InvalidRData
  | Some w =>
      recordEdit name rows [v_Name before; h_Name r] [(v_Name before, rtypeOf before); (h_Name r, Rrtype r)] (λ rows,
        match rows !! id with
        | None => Err ErrNotFound
        | Some old =>
            let row := mkZrow (h_Name r) (Rrtype r) (Ttl r) data (RData w) (zr_rev old + 1) in
            if taken rows (λ i, i =? id) (row_key row) then Err ErrConflict
            else Ok (rows_setRRsetTTL (<[id := row]> rows) (h_Name r) (Rrtype r) (Ttl r))
        end)
  end.
Definition deleteRecord (name : bytes) (rows : zrows) (id revision : Z) : res svc_err (zrows * (list rr * list rr)) :=
  before ← lockRecord rows id revision;
  recordEdit name rows [v_Name before] [(v_Name before, rtypeOf before)] (λ rows, Ok (delete id rows)).

(** ** Mutate *)
Definition soaRR (z : Zone zinfo) : rr :=
  let i := z_Name z in let s := zi_SOA i in
  mkRR (zi_name i) TypeSOA ClassINET (zi_TTL i) []
    (Some (mkSOA (Ns s) (Mbox s) (Serial z) (s_Refresh s) (s_Retry s) (s_Expire s) (Minttl s))).
Definition rr_set_serial (n : Z) (r : rr) : rr :=
  match asSOA r with
  | Some s => set_soa r (Some (mkSOA (Ns s) (Mbox s) n (s_Refresh s) (s_Retry s) (s_Expire s) (Minttl s)))
  | None => r
  end.
Definition wireName (i : zinfo) : option bytes := PackDomainName (Fqdn (zi_name i)).

Record zsvc := mkSvc { sv_zone : Zone zinfo; sv_rev : Z; sv_producer : bool; sv_rows : zrows; sv_db : zdb }.

Context (compress : bytes → bytes) (decompress : bytes → option bytes) (sha : bytes → bytes).
Context (range_order : gmap bytes record → list record).
Context (Placeholder : Zone zinfo → rr) (zonemd_Apply : Zone zinfo → list rr → option (list rr)).
Context (signer : option (Signer (Name := zinfo) (RR := rr))).

Definition set_info (z : Zone zinfo) (i : zinfo) : Zone zinfo :=
  mkZone i (z_Kind z) (Serial z) (CurrentSeq z) (ImageSeq z) (DNSSECEnabled z) (ZonemdGenerate z).
Definition zone_Rebuild := Rebuild wide nzf_FromRR rr_set_serial soaRR wireName compress decompress sha range_order Placeholder zonemd_Apply.
(** [fn] returns the rows and SOA fields it wrote, and the rebuild options; [ze] makes an error of the
    rebuild one of the caller. *)
Definition Mutate {E} (ze : zone_err → E) (st : zsvc) (fn : zsvc → res E (zrows * zinfo * RebuildOptions (RR := rr))) : res E zsvc :=
  '(rows, info, opts) ← fn st;
  let z := set_info (sv_zone st) info in
  if bool_decide (z_Kind z = Primary) || bool_decide (o_Serial opts ≠ None) then
    r ← lift_zone ze (zone_Rebuild (sv_db st) (loadRecordRRs rows) signer z opts);
    match r with
    | None => Ok (mkSvc z (sv_rev st + 1) (sv_producer st) rows (sv_db st))
    | Some (d, z) => Ok (mkSvc z (sv_rev st + 1) (sv_producer st) rows d)
    end
  else Ok (mkSvc z (sv_rev st + 1) (sv_producer st) rows (sv_db st)).

Definition edit_fn (f : bytes → zrows → res svc_err (zrows * (list rr * list rr))) (st : zsvc)
    : res svc_err (zrows * zinfo * RebuildOptions (RR := rr)) :=
  checkRecordsWritable (z_Kind (sv_zone st)) (sv_producer st);;
  '(rows, e) ← f (zi_name (z_Name (sv_zone st))) (sv_rows st);
  Ok (rows, z_Name (sv_zone st), mkOptions None false (Some e)).
Definition CreateRecord (st : zsvc) (id : Z) (i : RecordInput) : res svc_err zsvc :=
  Mutate ZoneErr st (edit_fn (λ name rows, createRecord name rows id i)).
Definition UpdateRecord (st : zsvc) (id revision : Z) (i : RecordInput) : res svc_err zsvc :=
  Mutate ZoneErr st (edit_fn (λ name rows, updateRecord name rows id revision i)).
Definition DeleteRecord (st : zsvc) (id revision : Z) : res svc_err zsvc :=
  Mutate ZoneErr st (edit_fn (λ name rows, deleteRecord name rows id revision)).
End records.
