(* ===== verification/ZoneEdits.v ===== *)
(** * Record edits keep the zone and what is served of it consistent

    The composition of the record operations (ZoneRecords), the rules (ZoneRules) and the rebuild
    from an edit (ZoneRebuild): an unsigned primary zone whose record rows keep the rules and whose
    served version holds exactly these rows stays so through every edit. *)

From S2P Require Import Prelude.
From S2P Require Import GoText.
From S2P Require Import NzfNames.
From S2P Require Import NzfFormat.
From S2P Require Import ZoneJournal.
From S2P Require Import ZoneServed.
From S2P Require Import ZoneRebuild.
From S2P Require Import XfrIn.
From S2P Require Import DnsLib.
From S2P Require Import ZoneRules.
From S2P Require Import ZoneRecords.

Section edits.
Context `{DnsLaws} (wide : Z → Z) (wide_upper : bytes → bytes).

(** ** Rows *)
Record row_ok (r : zrow) : Prop := {
  ro_owner : printed (zr_owner r);
  ro_type : is_u16 (zr_type r);
  ro_managed : ManagedTypes (zr_type r) = true;
  ro_ttl : is_u32 (zr_ttl r);
  ro_packs : is_Some (PackDomainName (zr_owner r));
  ro_wire : ∃ r0, Rrtype r0 = zr_type r ∧ rdata_of r0 = Some (zr_wire r);
}.
Definition rows_ok (rows : zrows) : Prop := ∀ id r, rows !! id = Some r → row_ok r.
Definition row_record (r : zrow) : record :=
  mkRecord (default [] (PackDomainName (zr_owner r))) (zr_type r) ClassINET (zr_ttl r) (zr_wire r).
(** The records of the rows that satisfy [P]. *)
Definition rec_in (rows : zrows) (P : zrow → Prop) (x : record) : Prop := ∃ id r, rows !! id = Some r ∧ P r ∧ x = row_record r.

Lemma row_back r : row_ok r → ∃ x, row_rr r = Some x ∧ nzf_FromRR x = Some (row_record r).
Proof.
  intros [Hp Ht _ Hl [o Ho] (r0 & E & Hd)]. unfold row_rr, row_record. rewrite Ho. simpl.
  rewrite <- E in Ht |- *. destruct (ToRR_back (zr_owner r) o r0 (zr_ttl r) (zr_wire r) Ho Hd Ht Hl) as (x & Hx & Hf & _). eauto.
Qed.
Lemma managed_not_soa t r : ManagedTypes t = true → RType r = t → isSOAData r = false.
Proof.
  unfold ManagedTypes, isSOAData. rewrite bool_decide_eq_true. intros Hin ->.
  rewrite !elem_of_cons in Hin. destruct_or! Hin; subst; try done. by apply not_elem_of_nil in Hin.
Qed.
Lemma row_plain r : row_ok r → isSOAData (row_record r) = false.
Proof. intros Hr. by eapply managed_not_soa; [apply Hr|]. Qed.

Lemma queryRRs_spec rows P l : rows_ok rows → queryRRs rows P = Ok l →
  managed nzf_FromRR l ∧ ∀ x, x ∈ omap nzf_FromRR l ↔ rec_in rows (λ r, P r = true) x.
Proof.
  intros Hok. unfold queryRRs. destruct (mapM _ _) as [l'|] eqn:Em; [|done]. intros [= <-].
  apply mapM_Some in Em. assert (∀ id r, (id, r) ∈ filter (λ p, P p.2 = true) (map_to_list rows) ↔ rows !! id = Some r ∧ P r = true) as Hf.
  { intros id r. rewrite list_elem_of_filter, elem_of_map_to_list. naive_solver. }
  assert (∀ y, y ∈ l' → ∃ id r, rows !! id = Some r ∧ P r = true ∧ nzf_FromRR y = Some (row_record r)) as Hto.
  { intros y (i & Hi)%list_elem_of_lookup. destruct (Forall2_lookup_r _ _ _ _ _ Em Hi) as ([id r] & Hr & Hy).
    apply list_elem_of_lookup_2, Hf in Hr as [Hr HP]. exists id, r. split; [done|]. split; [done|].
    destruct (row_back r (Hok _ _ Hr)) as (x & Hx & Hb). simpl in Hy. congruence. }
  split.
  - intros y Hy. destruct (Hto y Hy) as (id & r & Hr & _ & Hb). exists (row_record r). split; [done|]. by eapply row_plain, Hok.
  - intros x. rewrite list_elem_of_omap. split.
    + intros (y & Hy & Hx). destruct (Hto y Hy) as (id & r & Hr & HP & Hb). exists id, r. split_and!; congruence.
    + intros (id & r & Hr & HP & ->). assert ((id, r) ∈ filter (λ p, P p.2 = true) (map_to_list rows)) as Hin by by apply Hf.
      apply list_elem_of_lookup in Hin as [i Hi]. destruct (Forall2_lookup_l _ _ _ _ _ Em Hi) as (y & Hy & Hry). simpl in Hry.
      exists y. split; [by eapply list_elem_of_lookup_2|]. destruct (row_back r (Hok _ _ Hr)) as (x & Hx & Hb). congruence.
Qed.
Lemma queryRRs_total rows P : rows_ok rows → ∃ l, queryRRs rows P = Ok l.
Proof.
  intros Hok. unfold queryRRs. destruct (mapM _ _) as [l|] eqn:Em; [by exists l|]. exfalso.
  apply mapM_None, Exists_exists in Em as ([id r] & Hin & Hn). apply list_elem_of_filter in Hin as [_ Hin%elem_of_map_to_list].
  destruct (row_back r (Hok _ _ Hin)) as (x & Hx & _). simpl in Hn. congruence.
Qed.

(** ** The edited RRsets *)
Definition lower_set (s : bytes * Z) : bytes * Z := (ToLower s.1, s.2).
Lemma load_sets_spec rows seen sets l : rows_ok rows → Forall (λ s, printed s.1) (seen ++ sets) →
  load_sets wide rows seen sets = Ok l →
  managed nzf_FromRR l ∧
  ∀ x, (x ∈ omap nzf_FromRR l ∨ rec_in rows (λ r, row_pair r ∈ map lower_set seen) x) ↔
       rec_in rows (λ r, row_pair r ∈ map lower_set (seen ++ sets)) x.
Proof.
  intros Hok. revert seen l. induction sets as [|s sets IH]; intros seen l Hpr; simpl.
  { intros [= <-]. split; [by intros ? ?%not_elem_of_nil|]. intros x. rewrite app_nil_r. simpl.
    split; [intros [?%not_elem_of_nil|?]; done|by right]. }
  assert (seen ++ s :: sets = (seen ++ [s]) ++ sets) as Eapp by by rewrite <- app_assoc.
  rewrite Eapp in Hpr |- *.
  assert (Hlow : ∀ r, row_pair r ∈ map lower_set (seen ++ [s]) ↔ row_pair r ∈ map lower_set seen ∨ row_pair r = lower_set s).
  { intros r. rewrite map_app, elem_of_app. cbn [map]. by rewrite list_elem_of_singleton. }
  destruct (existsb _ seen) eqn:Es.
  - intros Hl. destruct (IH _ _ Hpr Hl) as [Hm Hx]. split; [done|]. intros x. rewrite <- Hx.
    assert (lower_set s ∈ map lower_set seen) as Hs.
    { apply existsb_exists in Es as (o & Ho%list_elem_of_In & [Et%Z.eqb_eq Ef]%andb_true_iff).
      apply list_elem_of_fmap. exists o. split; [|done]. unfold lower_set, ToLower. rewrite Et. f_equal. symmetry.
      rewrite !Forall_app in Hpr. destruct Hpr as [[H1 H2] _]. apply (EqualFold_ascii wide); [| |done].
      - apply printed_ascii. rewrite Forall_forall in H1. by apply H1.
      - apply printed_ascii. by inversion H2. }
    assert (∀ x, rec_in rows (λ r, row_pair r ∈ map lower_set (seen ++ [s])) x ↔ rec_in rows (λ r, row_pair r ∈ map lower_set seen) x) as E.
    { intros y. split; intros (id & r & Hr & HP & ->); exists id, r; (split; [done|]); (split; [|done]); [|by apply Hlow; left].
      apply Hlow in HP as [?|E]; [done|]. by rewrite E. }
    by rewrite E.
  - intros (rrs & Hq & (rest & Hl & [= <-])%bind_Ok)%bind_Ok. destruct (IH _ _ Hpr Hl) as [Hm Hx].
    destruct (queryRRs_spec _ _ _ Hok Hq) as [Hmq Hxq]. split.
    { intros y [Hy|Hy]%elem_of_app; [by apply Hmq|by apply Hm]. }
    intros x. rewrite <- Hx, omap_app, elem_of_app, Hxq.
    assert (rec_in rows (λ r, row_pair r ∈ map lower_set (seen ++ [s])) x ↔
      rec_in rows (λ r, bool_decide (row_pair r = (ToLower s.1, s.2)) = true) x ∨ rec_in rows (λ r, row_pair r ∈ map lower_set seen) x) as E; [|rewrite E; tauto].
    split.
    + intros (id & r & Hr & HP & ->). apply Hlow in HP as [HP|HP]; [right|left]; exists id, r; [done|]. by rewrite bool_decide_eq_true.
    + intros [(id & r & Hr & HP & ->)|(id & r & Hr & HP & ->)]; exists id, r; (split; [done|]); (split; [|done]); apply Hlow; [|by left].
      rewrite bool_decide_eq_true in HP. by right.
Qed.

(** Rows outside the RRsets [sets] are the same. *)
Definition outside (sets : list (bytes * Z)) (rows rows' : zrows) : Prop :=
  ∀ id r, row_pair r ∉ map lower_set sets → rows !! id = Some r ↔ rows' !! id = Some r.
Definition records_of (rows : zrows) : list record := map (λ p, row_record p.2) (map_to_list rows).
Lemma elem_records rows x : x ∈ records_of rows ↔ rec_in rows (λ _, True) x.
Proof.
  unfold records_of. rewrite list_elem_of_fmap. split.
  - intros ([id r] & -> & Hin%elem_of_map_to_list). by exists id, r.
  - intros (id & r & Hr & _ & ->). exists (id, r). split; [done|]. by apply elem_of_map_to_list.
Qed.
Lemma same_pair r r' : row_ok r → row_ok r' → row_record r = row_record r' → row_pair r = row_pair r'.
Proof.
  intros Hr Hr' E. unfold row_record in E. destruct (ro_packs _ Hr) as [o Ho], (ro_packs _ Hr') as [o' Ho'].
  rewrite Ho, Ho' in E. simpl in E. injection E as -> Et _ _. unfold row_pair. rewrite Et. do 2 f_equal.
  eapply printed_inj; [apply Hr|apply Hr'|done|done].
Qed.
Lemma edit_records rows rows' sets before after stored :
  rows_ok rows → rows_ok rows' → outside sets rows rows' → Forall (λ s, printed s.1) sets →
  loadRRsets wide rows sets = Ok before → loadRRsets wide rows' sets = Ok after → loadRecordRRs rows' = Ok stored →
  (managed nzf_FromRR before ∧ managed nzf_FromRR after ∧ managed nzf_FromRR stored) ∧
  (∀ x, x ∈ omap nzf_FromRR before → x ∈ records_of rows) ∧
  (∀ x, x ∈ omap nzf_FromRR stored ↔ x ∈ records_of rows') ∧
  (∀ x, x ∈ omap nzf_FromRR stored ↔ (x ∈ records_of rows ∧ x ∉ omap nzf_FromRR before) ∨ x ∈ omap nzf_FromRR after).
Proof.
  intros Hok Hok' Hout Hpr Hb Ha Hs. unfold loadRRsets in Hb, Ha.
  destruct (load_sets_spec rows [] sets before Hok Hpr Hb) as [Hmb Hxb].
  destruct (load_sets_spec rows' [] sets after Hok' Hpr Ha) as [Hma Hxa].
  destruct (queryRRs_spec rows' _ _ Hok' Hs) as [Hms Hxs]. simpl in Hxb, Hxa.
  assert (∀ rs x, ¬ rec_in rs (λ r, row_pair r ∈ []) x) as Hno by (intros rs x (? & ? & _ & ?%not_elem_of_nil & _); done).
  assert (∀ x, x ∈ omap nzf_FromRR before ↔ rec_in rows (λ r, row_pair r ∈ map lower_set sets) x) as Hb'
    by (intros x; rewrite <- Hxb; specialize (Hno rows x); tauto).
  assert (∀ x, x ∈ omap nzf_FromRR after ↔ rec_in rows' (λ r, row_pair r ∈ map lower_set sets) x) as Ha'
    by (intros x; rewrite <- Hxa; specialize (Hno rows' x); tauto).
  split; [done|]. split; [|split].
  - intros x. rewrite Hb', elem_records. intros (id & r & Hr & _ & ->). by exists id, r.
  - intros x. rewrite Hxs, elem_records. split; intros (id & r & Hr & _ & ->); by exists id, r.
  - intros x. rewrite Hxs, Hb', Ha', elem_records. split.
    + intros (id & r & Hr & _ & ->). destruct (decide (row_pair r ∈ map lower_set sets)) as [Hin|Hin]; [right; by exists id, r|left].
      split; [exists id, r; split; [by apply (Hout id r Hin)|done]|].
      intros (id2 & r2 & Hr2 & Hin2 & E). apply Hin. rewrite (same_pair r r2); [done|by eapply Hok'|by eapply Hok|done].
    + intros [[(id & r & Hr & _ & ->) Hn]|(id & r & Hr & _ & ->)]; [|by exists id, r].
      destruct (decide (row_pair r ∈ map lower_set sets)) as [Hin|Hin]; [destruct Hn; by exists id, r|].
      exists id, r. split; [by apply (Hout id r Hin)|done].
Qed.
Lemma filter_to_list (P : Z * zrow → Prop) `{∀ p, Decision (P p)} (m : zrows) :
  filter P (map_to_list m) ≡ₚ map_to_list (filter P m).
Proof.
  apply NoDup_Permutation; [apply NoDup_filter, NoDup_map_to_list|apply NoDup_map_to_list|].
  intros [id r]. rewrite list_elem_of_filter, !elem_of_map_to_list, map_lookup_filter_Some. tauto.
Qed.
Lemma outside_pairs rows rows' sets owners : outside sets rows rows' →
  (∀ s, s ∈ sets → ToLower s.1 ∈ owners) → changed_at owners (pairs_of rows) (pairs_of rows').
Proof.
  intros Hout Hsub o Ho.
  assert (∀ m : zrows, filter (λ p, p.1 = o) (pairs_of m) ≡ₚ map (λ p, row_pair p.2) (map_to_list (filter (λ p, (row_pair p.2).1 = o) m))) as Hf.
  { intros m. rewrite <- filter_to_list. unfold pairs_of. by rewrite (filter_map_comm _ _ (HQ := λ p, decide ((row_pair p.2).1 = o))). }
  rewrite !Hf. assert (filter (λ p, (row_pair p.2).1 = o) rows = filter (λ p, (row_pair p.2).1 = o) rows') as ->; [|done].
  apply map_eq. intros id. apply option_eq. intros r. rewrite !map_lookup_filter_Some. simpl.
  assert (ToLower (zr_owner r) = o → row_pair r ∉ map lower_set sets) as Hni.
  { intros E (s & Es & Hs)%list_elem_of_fmap. apply Ho. rewrite <- E. injection Es as -> _. by apply Hsub. }
  split; intros [Hr E]; (split; [|done]); by apply (Hout id r (Hni E)).
Qed.

(** ** The operations *)

(** The unique index: one row per owner, type and RDATA. *)
Definition rows_unique (rows : zrows) : Prop :=
  ∀ i j a b, rows !! i = Some a → rows !! j = Some b → row_key a = row_key b → i = j.
Lemma taken_false rows except k : taken rows except k = false →
  ∀ i a, rows !! i = Some a → except i = false → row_key a ≠ k.
Proof.
  unfold taken. rewrite <- not_true_iff_false, existsb_exists. intros Hn i a Ha He Hk. apply Hn. exists (i, a).
  split; [by apply list_elem_of_In, elem_of_map_to_list|]. simpl. rewrite He. simpl. by apply bool_decide_eq_true.
Qed.
Lemma insert_unique rows id row : rows_unique rows → taken rows (λ i, i =? id) (row_key row) = false →
  rows_unique (<[id := row]> rows).
Proof.
  intros Hu Ht i j a b [[<- <-]|[Hi Ha]]%lookup_insert_Some [[<- <-]|[Hj Hb]]%lookup_insert_Some E; [done|..].
  - exfalso. apply (taken_false _ _ _ Ht j b Hb); [by apply Z.eqb_neq|done].
  - exfalso. apply (taken_false _ _ _ Ht i a Ha); [by apply Z.eqb_neq|done].
  - by eapply Hu.
Qed.
Lemma setTTL_lookup rows owner t ttl id r : rows_setRRsetTTL rows owner t ttl !! id = Some r →
  ∃ q, rows !! id = Some q ∧ row_key r = row_key q ∧ row_pair r = row_pair q ∧
    zr_ttl r = if bool_decide (row_pair q = (ToLower owner, t)) then ttl else zr_ttl q.
Proof.
  unfold rows_setRRsetTTL. rewrite lookup_fmap. destruct (rows !! id) as [q|]; [|done]. simpl. intros [= <-]. exists q.
  case_bool_decide; [|done]. destruct (Z.eqb_spec (zr_ttl q) ttl); done.
Qed.
Lemma setTTL_unique rows owner t ttl : rows_unique rows → rows_unique (rows_setRRsetTTL rows owner t ttl).
Proof.
  intros Hu i j a b (qa & Ha & Ea & _)%setTTL_lookup (qb & Hb & Eb & _)%setTTL_lookup E. eapply Hu; [done..|congruence].
Qed.

(** What an edit did, and that it was checked. *)
Definition good_edit (name : bytes) (rows rows' : zrows) (before after : list rr) : Prop :=
  ∃ sets owners, Forall (λ s, printed s.1) sets ∧ (∀ s, s ∈ sets → ToLower s.1 ∈ map ToLower owners) ∧
    rows_ok rows' ∧ rows_unique rows' ∧ outside sets rows rows' ∧ checkOwners name (pairs_of rows') owners = Ok tt ∧
    loadRRsets wide rows sets = Ok before ∧ loadRRsets wide rows' sets = Ok after.

Lemma recordEdit_good name rows owners sets change rows' before after :
  Forall (λ s, printed s.1) sets → (∀ s, s ∈ sets → ToLower s.1 ∈ map ToLower owners) →
  (∀ rows', change rows = Ok rows' → rows_ok rows' ∧ rows_unique rows' ∧ outside sets rows rows') →
  recordEdit wide name rows owners sets change = Ok (rows', (before, after)) → good_edit name rows rows' before after.
Proof.
  intros Hpr Hsub Hch (b & Hb & (r' & Hr & ([] & Hc & (a & Ha & [= <- <- <-])%bind_Ok)%bind_Ok)%bind_Ok)%bind_Ok.
  destruct (Hch _ Hr) as (Hok & Hu & Hout). exists sets, owners.
  destruct (loadRRsets wide rows sets) as [b'| | |] eqn:Eb; try done. injection Hb as ->.
  destruct (loadRRsets wide r' sets) as [a'| | |] eqn:Ea; try done. injection Ha as ->.
  destruct (checkOwners _ _ _) as [[]| | |] eqn:Ec; try done.
Qed.

Lemma setTTL_ok rows owner t ttl : rows_ok rows → is_u32 ttl → rows_ok (rows_setRRsetTTL rows owner t ttl).
Proof.
  intros Hok Ht id r. unfold rows_setRRsetTTL. rewrite lookup_fmap. destruct (rows !! id) as [q|] eqn:Eq; [|done].
  simpl. intros [= <-]. destruct (_ && _); [|by eapply Hok]. destruct (Hok _ _ Eq). by split.
Qed.
Lemma setTTL_outside rows rows0 owner t ttl sets : lower_set (owner, t) ∈ map lower_set sets →
  outside sets rows0 rows → outside sets rows0 (rows_setRRsetTTL rows owner t ttl).
Proof.
  intros Hin Hout id r Hn. rewrite (Hout id r Hn). unfold rows_setRRsetTTL. rewrite lookup_fmap.
  destruct (rows !! id) as [q|]; [|done]. simpl.
  destruct (bool_decide (row_pair q = (ToLower owner, t)) && _) eqn:Eb; [|done].
  apply andb_true_iff in Eb as [Eq%bool_decide_eq_true _].
  split; intros [= E]; exfalso; apply Hn; [rewrite <- E, Eq; done|rewrite <- E]. unfold set_row_ttl, row_pair in *. simpl. by rewrite Eq.
Qed.
Lemma insert_outside rows id row sets : row_pair row ∈ map lower_set sets →
  (∀ old, rows !! id = Some old → row_pair old ∈ map lower_set sets) → outside sets rows (<[id := row]> rows).
Proof.
  intros Hin Hold id' r Hn. destruct (decide (id' = id)) as [->|]; [|by rewrite lookup_insert_ne].
  rewrite lookup_insert_eq. split; [intros Hr; by destruct Hn; apply Hold|]. intros [= ->]. done.
Qed.

(** The library prints the owner of the record the way it was written. *)
Definition printed_input (name : bytes) (i : RecordInput) : Prop :=
  ∀ r data, ParseRecord wide_upper name i = Ok (r, data) → printed (h_Name r).
Lemma ParseRecord_ok name i r data : ParseRecord wide_upper name i = Ok (r, data) → wf_rr r ∧ ManagedTypes (Rrtype r) = true.
Proof.
  unfold ParseRecord. destruct (_ || _); [done|]. destruct (negb _); [done|].
  destruct (StringToType _) as [t|]; [|done]. destruct (ManagedTypes t) eqn:Em; [|done]. simpl.
  destruct (maxTTL <? _); [done|]. destruct (_ || _); [done|]. destruct (NewRR _) as [[x|]|] eqn:En; [|done..].
  destruct (Z.eqb_spec (Rrtype x) t) as [E|]; [|done]. simpl. intros [= <- _]. split; [by eapply new_rr|]. by rewrite E.
Qed.
Lemma new_row_ok name i r data w rev txt : ParseRecord wide_upper name i = Ok (r, data) → printed_input name i →
  nzf_FromRR r = Some w → row_ok (mkZrow (h_Name r) (Rrtype r) (Ttl r) txt (RData w) rev).
Proof.
  intros Hp Hi Hw. destruct (ParseRecord_ok _ _ _ _ Hp) as [Hwf Hm]. rewrite FromRR_spec in Hw by done.
  destruct (PackDomainName (h_Name r)) as [o|] eqn:Eo; [|done]. destruct (rdata_of r) as [d|] eqn:Ed; [|done].
  injection Hw as <-. split; simpl; [by eapply Hi|apply Hwf|done|apply Hwf|by rewrite Eo|by exists r].
Qed.
Lemma insert_ok rows id row : rows_ok rows → row_ok row → rows_ok (<[id := row]> rows).
Proof. intros Hok Hr id' q [[_ <-]|[_ ?]]%lookup_insert_Some; [done|by eapply Hok]. Qed.

Lemma createRecord_good name rows id i rows' before after : rows_ok rows → rows_unique rows → printed_input name i →
  createRecord wide wide_upper name rows id i = Ok (rows', (before, after)) → good_edit name rows rows' before after.
Proof.
  intros Hok Hu Hi ([r data] & Hp & He)%bind_Ok. pose proof (ParseRecord_ok _ _ _ _ Hp) as [Hwf _].
  apply recordEdit_good in He; [done|by repeat constructor; apply (Hi r data)|intros s ->%list_elem_of_singleton; left|].
  intros rows1 (rows2 & Hins & [= <-])%bind_Ok. unfold insertRecord in Hins.
  destruct (nzf_FromRR r) as [w|] eqn:Ew; [|done]. destruct (bool_decide (rows !! id ≠ None)) eqn:En; [done|].
  destruct (taken _ _ _) eqn:Et; [done|]. injection Hins as <-.
  apply bool_decide_eq_false, dec_stable in En. split; [|split].
  - apply setTTL_ok; [|apply Hwf]. apply insert_ok; [done|]. by eapply new_row_ok.
  - apply setTTL_unique, insert_unique; [done|]. rewrite <- not_true_iff_false in Et |- *. intros Ht. apply Et.
    unfold taken in *. apply existsb_exists in Ht as (p & Hp' & E). apply existsb_exists. exists p. split; [done|].
    apply andb_true_iff in E as [_ E]. exact E.
  - apply setTTL_outside; [left|]. apply insert_outside; [left|]. intros old Hold. congruence.
Qed.
Lemma rtypeOf_scan r : is_u16 (zr_type r) → rtypeOf (scanRecord r) = zr_type r.
Proof.
  intros Ht. unfold rtypeOf, scanRecord, type_text. cbn [v_Type]. destruct (TypeToString (zr_type r)) as [[|c s]|] eqn:Et.
  - by destruct (type_string _ _ Et).
  - by destruct (type_string _ _ Et) as [_ ->].
  - rewrite type_number by done. unfold TrimPrefix. assert (HasPrefix (str "TYPE" ++ FormatUint (zr_type r)) (str "TYPE") = true) as -> by by destruct (FormatUint _).
    change (drop (length (str "TYPE")) (str "TYPE" ++ FormatUint (zr_type r))) with (FormatUint (zr_type r)).
    unfold is_u16 in Ht. rewrite ParseUint_Format; [done|unfold is_u64; lia|lia].
Qed.
Lemma lockRecord_Ok rows id rev v : lockRecord rows id rev = Ok v → ∃ r, rows !! id = Some r ∧ v = scanRecord r.
Proof. unfold lockRecord. destruct (rows !! id) as [r|]; [|done]. destruct (negb _); [done|]. intros [= <-]. eauto. Qed.
Lemma locked_set rows id r : rows_ok rows → rows !! id = Some r →
  lower_set (v_Name (scanRecord r), rtypeOf (scanRecord r)) = row_pair r.
Proof. intros Hok Hr. unfold lower_set, row_pair. cbn [fst snd]. rewrite rtypeOf_scan; [done|]. by eapply Hok. Qed.

Lemma updateRecord_good name rows id rev i rows' before after : rows_ok rows → rows_unique rows → printed_input name i →
  updateRecord wide wide_upper name rows id rev i = Ok (rows', (before, after)) → good_edit name rows rows' before after.
Proof.
  intros Hok Hu Hi (v & Hv & ([r data] & Hp & He)%bind_Ok)%bind_Ok. pose proof (ParseRecord_ok _ _ _ _ Hp) as [Hwf _].
  apply lockRecord_Ok in Hv as (old & Hold & ->). destruct (nzf_FromRR r) as [w|] eqn:Ew; [|done].
  apply recordEdit_good in He; [done| |intros s [->|[->|?%not_elem_of_nil]%elem_of_cons]%elem_of_cons; [left|right; left|done]|].
  { constructor; [by eapply ro_owner, Hok|]. constructor; [by apply (Hi r data)|done]. }
  intros rows1. rewrite Hold. cbv zeta. case_match; [done|]. intros [= <-]. split; [|split].
  - apply setTTL_ok; [|apply Hwf]. apply insert_ok; [done|]. by eapply new_row_ok.
  - by apply setTTL_unique, insert_unique.
  - apply setTTL_outside; [right; left|]. apply insert_outside; [right; left|].
    intros old' Hold'. assert (old' = old) as -> by congruence.
    cbn [map]. rewrite (locked_set rows id old Hok Hold). left.
Qed.
Lemma deleteRecord_good name rows id rev rows' before after : rows_ok rows → rows_unique rows →
  deleteRecord wide name rows id rev = Ok (rows', (before, after)) → good_edit name rows rows' before after.
Proof.
  intros Hok Hu (v & Hv & He)%bind_Ok. apply lockRecord_Ok in Hv as (old & Hold & ->).
  apply recordEdit_good in He; [done|by repeat constructor; eapply ro_owner, Hok|intros s ->%list_elem_of_singleton; left|].
  intros rows1 [= <-]. split; [intros id' r [_ ?]%lookup_delete_Some; by eapply Hok|].
  split; [intros i j a b [_ ?]%lookup_delete_Some [_ ?]%lookup_delete_Some; by eapply Hu|].
  intros id' r Hn. destruct (decide (id' = id)) as [->|]; [|by rewrite lookup_delete_ne].
  rewrite lookup_delete_eq. split; [|done]. intros Hr. destruct Hn. assert (r = old) as -> by congruence.
  cbn [map]. rewrite (locked_set rows id old Hok Hold). left.
Qed.

(** ** The invariant *)
Context (compress : bytes → bytes) (decompress : bytes → option bytes) (sha : bytes → bytes).
Context (range_order : gmap bytes record → list record).
Context (Placeholder : Zone zinfo → rr) (zonemd_Apply : Zone zinfo → list rr → option (list rr)).
Context (signer : option (Signer (Name := zinfo) (RR := rr))).
Hypothesis zstd_round : ∀ raw, decompress (compress raw) = Some raw.
Hypothesis sha_injective : ∀ a b, sha a = sha b → a = b.
Hypothesis range_all : ∀ m, range_order m ≡ₚ map snd (map_to_list m).

Abbreviation Inv := (journal_inv (Name := zinfo) wide decompress sha).

(** The rows keep the rules of the zone, and the served version is the SOA and exactly the rows. *)
Record zone_inv (st : zsvc) : Prop := {
  zi_primary : z_Kind (sv_zone st) = Primary;
  zi_unsigned : DNSSECEnabled (sv_zone st) = false ∧ ZonemdGenerate (sv_zone st) = false;
  zi_version : 0 < CurrentSeq (sv_zone st);
  zi_rows : rows_ok (sv_rows st);
  zi_unique : rows_unique (sv_rows st);
  zi_rules : zone_rules (ToLower (zi_name (z_Name (sv_zone st)))) (pairs_of (sv_rows st));
  zi_served : ∃ S soa, Inv (sv_db st) (sv_zone st) S ∧ nzf_FromRR (soaRR (sv_zone st)) = Some soa ∧
    ∀ x, x ∈ S ↔ x = soa ∨ x ∈ records_of (sv_rows st);
}.

Lemma wireName_ok n w : wireName n = Some w → Forall is_byte w.
Proof. intros Hn. by apply (pack_name (Fqdn (zi_name n))). Qed.
Lemma serial_same n r x : nzf_FromRR r = Some x ∨ nzf_FromRR (rr_set_serial n r) = Some x → isSOAData x = false →
  nzf_FromRR (rr_set_serial n r) = nzf_FromRR r.
Proof.
  intros Hx Hs. unfold rr_set_serial in *. destruct (asSOA r) as [s|]; [|done]. apply FromRR_soa_field. intros Et.
  assert (RType x = TypeSOA) as E by (destruct Hx as [Hx|Hx]; apply FromRR_type in Hx; rewrite Hx; simpl; rewrite Et; done).
  unfold isSOAData in Hs. by rewrite E in Hs.
Qed.
Lemma soaRR_serial z z' : z_Name z' = z_Name z → soaRR z' = rr_set_serial (Serial z') (soaRR z).
Proof. unfold soaRR, rr_set_serial. simpl. by intros ->. Qed.
Lemma soa_is_soa z x : nzf_FromRR (soaRR z) = Some x → isSOAData x = true.
Proof. intros Hx%FromRR_type. unfold isSOAData. by rewrite Hx. Qed.

(** A version changes the serial and the sequence numbers of the zone row only. *)
Definition same_row (z z' : Zone zinfo) : Prop :=
  z_Name z' = z_Name z ∧ z_Kind z' = z_Kind z ∧ DNSSECEnabled z' = DNSSECEnabled z ∧ ZonemdGenerate z' = ZonemdGenerate z.
Lemma writeVersion_row d z origin serial dl force image d' z' :
  writeVersion (Name := zinfo) wide compress sha d z origin serial dl force image = Ok (d', z') → same_row z z'.
Proof.
  intros (d1 & _ & (due & _ & ([d2 z2] & Hw & [= _ <-])%bind_Ok)%bind_Ok)%bind_Ok.
  assert (same_row z z2) as Hz2; [|by unfold same_row in *; destruct Hz2 as (? & ? & ? & ?)].
  destruct (due || force).
  - apply bind_Ok in Hw as (recs & _ & (raw & _ & Hw)%bind_Ok). destruct (putBlob _ _ _ _) as [d3 k].
    apply bind_Ok in Hw as (d4 & _ & [= _ <-]). done.
  - by injection Hw as _ <-.
Qed.
Abbreviation RebuildEdit := (rebuildEdit wide nzf_FromRR rr_set_serial soaRR wireName compress sha).
Lemma rebuildEdit_row d stored z opts before after d' z' :
  RebuildEdit d stored z opts before after = Ok (Some (d', z')) → same_row z z'.
Proof.
  unfold rebuildEdit. intros (b & _ & (a & _ & Hr)%bind_Ok)%bind_Ok. destruct (diffIgnoringSOA b a) as [deleted added].
  destruct (_ && _ && _); [done|].
  apply bind_Ok in Hr as (? & _ & (? & _ & (? & _ & (? & _ & (? & _ & ([d2 z2] & Hw & [= -> ->])%bind_Ok)%bind_Ok)%bind_Ok)%bind_Ok)%bind_Ok).
  by eapply writeVersion_row.
Qed.
(** No change written: the edited RRsets hold what they held. *)
Lemma rebuildEdit_none d stored z opts before after x :
  RebuildEdit d stored z opts before after = Ok None → managed nzf_FromRR before → managed nzf_FromRR after →
  x ∈ omap nzf_FromRR before ↔ x ∈ omap nzf_FromRR after.
Proof.
  unfold rebuildEdit. intros (b & Hb & (a & Ha & Hr)%bind_Ok)%bind_Ok Hmb Hma.
  destruct (diffIgnoringSOA b a) as [deleted added] eqn:Ed. destruct (_ && _ && _) eqn:Ec.
  2:{ by repeat (apply bind_Ok in Hr as (? & _ & Hr)). }
  rewrite !andb_true_iff, !bool_decide_eq_true in Ec. destruct Ec as [[-> ->] _].
  destruct (toRecords_Ok nzf_FromRR nzf_FromRR_ok _ _ Hb) as [<- Kb]. destruct (toRecords_Ok nzf_FromRR nzf_FromRR_ok _ _ Ha) as [<- Ka].
  pose proof (managed_plain nzf_FromRR before x Hmb) as Pb. pose proof (managed_plain nzf_FromRR after x Hma) as Pa.
  assert (key_ok x → x ∈ omap nzf_FromRR before ↔ x ∈ omap nzf_FromRR after) as Hk.
  { intros Hk. pose proof (diffIgnoringSOA_spec _ _ x Hk Kb Ka) as Hd. rewrite Ed in Hd. destruct Hd as [H1 H2].
    pose proof (not_elem_of_nil x). destruct (decide (x ∈ omap nzf_FromRR before)), (decide (x ∈ omap nzf_FromRR after)); tauto. }
  rewrite Forall_forall in Kb, Ka. split; intros Hx; apply Hk; auto.
Qed.

Abbreviation MutateEdit := (Mutate wide compress decompress sha range_order Placeholder zonemd_Apply signer ZoneErr).
(** The edit of the served set that a good edit is. *)
Lemma good_edit_of st rows' before after stored S soa : zone_inv st →
  Inv (sv_db st) (sv_zone st) S → nzf_FromRR (soaRR (sv_zone st)) = Some soa →
  (∀ x, x ∈ S ↔ x = soa ∨ x ∈ records_of (sv_rows st)) →
  good_edit (zi_name (z_Name (sv_zone st))) (sv_rows st) rows' before after → loadRecordRRs rows' = Ok stored →
  edit_of nzf_FromRR soaRR (sv_db st) (sv_zone st) S (records_of (sv_rows st)) before after stored ∧
  (∀ x, x ∈ omap nzf_FromRR stored ↔ x ∈ records_of rows').
Proof.
  intros [_ _ _ Hok _ _ _] HI Hsoa HS (sets & owners & Hpr & _ & Hok' & _ & Hout & _ & Hb & Ha) Hst.
  destruct (edit_records _ _ _ _ _ _ Hok Hok' Hout Hpr Hb Ha Hst) as (Hm & Hbef & Hrec & Hsto). split; [|done].
  assert (∀ x, x ∈ records_of (sv_rows st) → isSOAData x = false) as Hplain.
  { intros x (id & r & Hr & _ & ->)%elem_records. by eapply row_plain, Hok. }
  pose proof (soa_is_soa _ _ Hsoa) as Hss. split; [done|by intros r ?%soa_is_soa| | |done|done].
  - intros r Hr. rewrite HS. split; [|by right]. intros [->|?]; [congruence|done].
  - intros s _ _ r Hr. rewrite HS, Hsoa. split; [|intros [= ->]; by left].
    intros [->|Hin]; [done|]. by rewrite Hplain in Hr.
Qed.
Lemma Mutate_good st f st' : zone_inv st →
  (∀ rows' before after, f (zi_name (z_Name (sv_zone st))) (sv_rows st) = Ok (rows', (before, after)) →
     good_edit (zi_name (z_Name (sv_zone st))) (sv_rows st) rows' before after) →
  MutateEdit st (edit_fn f) = Ok st' → fits (sv_db st') (CurrentSeq (sv_zone st) + 1) → zone_inv st'.
Proof.
  intros Hinv Hf ([[rows info] opts] & Hfn & Hm)%bind_Ok Hfit. unfold edit_fn in Hfn.
  apply bind_Ok in Hfn as ([] & _ & ([rows1 [before after]] & He & [= <- <- <-])%bind_Ok).
  pose proof (Hf _ _ _ He) as Hg. pose proof Hinv as [Hk [Hd Hz] Hv Hok _ Hru (S & soa & HI & Hsoa & HS)].
  assert (set_info (sv_zone st) (z_Name (sv_zone st)) = sv_zone st) as Ez by by destruct (sv_zone st).
  cbv zeta in Hm. rewrite Ez, bool_decide_eq_true_2 in Hm by done. cbn [orb] in Hm.
  pose proof Hg as (sets & owners & _ & Hsub & Hok' & Hu' & Hout & Hco & _).
  assert (zone_rules (ToLower (zi_name (z_Name (sv_zone st)))) (pairs_of rows1)) as Hru'.
  { eapply checkOwners_zone_rules; [exact Hru| |exact Hco]. by eapply outside_pairs. }
  destruct (queryRRs_total rows1 (λ _, true) Hok') as [stored Hst].
  destruct (good_edit_of st rows1 before after stored S soa Hinv HI Hsoa HS Hg Hst) as [Heo Hrec].
  unfold zone_Rebuild, Rebuild in Hm. cbn [Edit Force] in Hm. unfold generateZonemd in Hm. rewrite Hd, Hz, Hk in Hm.
  rewrite (proj2 (Z.ltb_lt _ _) Hv) in Hm. simpl in Hm. unfold loadRecordRRs in Hm. rewrite Hst in Hm.
  apply bind_Ok in Hm as (r & Hr & Hm). destruct (RebuildEdit _ _ _ _ _ _) as [r'| | |] eqn:Er; try done. injection Hr as ->.
  destruct r as [[d z]|]; injection Hm as <-; simpl in *.
  - destruct (rebuildEdit_row _ _ _ _ _ _ _ _ Er) as (En & Ek & Ed & Ezm).
    destruct (rebuildEdit_Inv wide nzf_FromRR rr_set_serial soaRR wireName compress decompress sha zstd_round sha_injective
      nzf_FromRR_ok wireName_ok (λ n r x Hx Hs, eq_trans (serial_same n r x (or_introl Hx) Hs) Hx)
      _ stored _ (mkOptions None false (Some (before, after))) _ _ _ _ _ _ HI Hv Heo ltac:(done) Er Hfit) as (soa' & Hs' & HI' & Hc').
    split; simpl; [congruence|split; congruence|lia|done|done|by rewrite En|].
    exists (soa' :: omap nzf_FromRR stored), soa'. split; [done|]. split; [by rewrite (soaRR_serial (sv_zone st) z En)|].
    intros x. by rewrite elem_of_cons, Hrec.
  - split; simpl; [done|done|done|done|done|done|]. exists S, soa. split; [done|]. split; [done|]. intros x. rewrite HS.
    destruct Heo as [(Hmb & Hma & _) _ _ _ Hbef Hsto]. pose proof (rebuildEdit_none _ _ _ _ _ _ x Er Hmb Hma) as Hba.
    rewrite <- (Hrec x), Hsto, <- Hba. specialize (Hbef x).
    destruct (decide (x ∈ omap nzf_FromRR before)); tauto.
Qed.

(** ** Whole rebuilds *)
Abbreviation RebuildZone := (zone_Rebuild wide compress decompress sha range_order Placeholder zonemd_Apply).
Lemma full_plain d stored z opts : DNSSECEnabled z = false → ZonemdGenerate z = false →
  rebuildFull wide nzf_FromRR rr_set_serial soaRR wireName compress decompress sha range_order Placeholder zonemd_Apply d stored signer z opts =
  rebuildFull wide nzf_FromRR rr_set_serial soaRR wireName compress decompress sha range_order Placeholder (λ _ l, Some l) d stored None z opts.
Proof.
  intros Hd Hz. unfold rebuildFull, first_desired, final_desired, sign_with, generateZonemd. rewrite Hd, Hz. by destruct signer.
Qed.
#[local] Instance keep_all : ∀ z : Zone zinfo, PlainKept nzf_FromRR ((λ _ l, Some l) z).
Proof. intros z. unfold PlainKept. by intros ? ? [= <-]. Qed.

Lemma rebuildFull_row apply d stored sg z opts d' z' :
  rebuildFull wide nzf_FromRR rr_set_serial soaRR wireName compress decompress sha range_order Placeholder apply d stored sg z opts = Ok (Some (d', z')) →
  same_row z z'.
Proof.
  intros Hr. unfold rebuildFull in Hr. apply bind_Ok in Hr as (desired & _ & (previous & _ & (drecs & _ & Hr)%bind_Ok)%bind_Ok).
  destruct (diffIgnoringSOA previous drecs) as [deleted added]. destruct (_ && _); [done|].
  apply bind_Ok in Hr as (serial & _ & (final & _ & (recs & _ & (origin & _ & ([dl force] & _ & ([d2 z2] & Hw & [= -> ->])%bind_Ok)%bind_Ok)%bind_Ok)%bind_Ok)%bind_Ok).
  by eapply writeVersion_row.
Qed.
Lemma full_inv d z S rows serial force d' z' rev producer :
  z_Kind z = Primary → DNSSECEnabled z = false → ZonemdGenerate z = false → rows_ok rows → rows_unique rows →
  zone_rules (ToLower (zi_name (z_Name z))) (pairs_of rows) → Inv d z S → (∀ n, serial = Some n → is_u32 n) →
  RebuildZone d (loadRecordRRs rows) signer z (mkOptions serial force None) = Ok (Some (d', z')) → fits d' (CurrentSeq z + 1) →
  zone_inv (mkSvc z' rev producer rows d').
Proof.
  intros Hk Hd Hz Hok Hu Hru HI Hser Hr Hfit. unfold zone_Rebuild, Rebuild in Hr. cbn [Edit] in Hr. rewrite full_plain in Hr by done.
  destruct (rebuildFull_Inv wide nzf_FromRR rr_set_serial soaRR wireName compress decompress sha range_order Placeholder _
    zstd_round sha_injective range_all nzf_FromRR_ok wireName_ok
    (λ n r x Hx Hs, eq_trans (serial_same n r x (or_introl Hx) Hs) Hx)
    (λ n r x Hx Hs, eq_trans (eq_sym (serial_same n r x (or_intror Hx) Hs)) Hx)
    d (loadRecordRRs rows) None z (mkOptions serial force None) S d' z' HI ltac:(done) Hser Hr Hfit) as (desired & final & recs & Hde & Hfi & Hre & HI' & Hc).
  assert (same_row z z') as (En & Ek & Ed & Ez).
  { by eapply rebuildFull_row. }
  destruct (queryRRs_total rows (λ _, true) Hok) as [stored Hst]. destruct (queryRRs_spec _ _ _ Hok Hst) as [Hm Hin].
  unfold loadRecordRRs in Hde. rewrite Hst in Hde. unfold first_desired, desiredRRs, sign_with, generateZonemd in Hde. rewrite Hz in Hde.
  cbn [mbind res_bind andb] in Hde. rewrite app_nil_r in Hde. injection Hde as <-.
  unfold final_desired, sign_with, generateZonemd in Hfi. rewrite Hz in Hfi. cbn [mbind res_bind andb] in Hfi. injection Hfi as <-.
  destruct (toRecords_Ok nzf_FromRR nzf_FromRR_ok _ _ Hre) as [Er _].
  unfold setSOASerial in Er. cbn [map] in Er. rewrite <- (soaRR_serial z z' En) in Er.
  destruct (nzf_FromRR (soaRR z')) as [soa|] eqn:Es.
  2:{ unfold toRecords, of_opt, setSOASerial in Hre. cbn [map] in Hre.
      rewrite <- (soaRR_serial z z' En) in Hre. cbn [mapM] in Hre. by rewrite Es in Hre. }
  pose proof (ji_seq _ _ _ _ _ _ HI). split; simpl; [congruence|split; congruence|lia|done|done|by rewrite En|].
  exists recs, soa. split; [done|]. split; [done|]. intros x. rewrite <- Er. cbn [omap list_omap]. rewrite Es, elem_of_cons.
  pose proof (managed_serial nzf_FromRR rr_set_serial (λ n r x Hx Hs, eq_trans (serial_same n r x (or_introl Hx) Hs) Hx) (Serial z') stored x Hm) as Hms.
  unfold setSOASerial in Hms. rewrite Hms, Hin, elem_records. split; (intros [?|(id & r & Hx & _ & ->)]; [by left|right]); by exists id, r.
Qed.

(** A whole rebuild that writes nothing: no serial was asked for, and the rows are what is served. *)
Lemma full_none_serial d stored z serial force :
  RebuildZone d stored signer z (mkOptions serial force None) = Ok None → serial = None.
Proof.
  unfold zone_Rebuild, Rebuild. cbn [Edit]. unfold rebuildFull. intros (desired & _ & (previous & _ & (drecs & _ & Hr)%bind_Ok)%bind_Ok)%bind_Ok.
  destruct (diffIgnoringSOA previous drecs) as [deleted added]. destruct (_ && _) eqn:Eb in Hr;
    [|by repeat (apply bind_Ok in Hr as (? & ? & Hr); try case_match)].
  rewrite !andb_true_iff, !bool_decide_eq_true in Eb. simpl in Eb. tauto.
Qed.
Lemma full_none_inv st rows serial force rev producer : zone_inv st → rows_ok rows → rows_unique rows →
  zone_rules (ToLower (zi_name (z_Name (sv_zone st)))) (pairs_of rows) →
  RebuildZone (sv_db st) (loadRecordRRs rows) signer (sv_zone st) (mkOptions serial force None) = Ok None →
  zone_inv (mkSvc (sv_zone st) rev producer rows (sv_db st)).
Proof.
  intros [Hk [Hd Hz] Hv Hok0 _ _ (S & soa & HI & Hsoa & HS)] Hok Hu Hru Hr. unfold zone_Rebuild, Rebuild in Hr. cbn [Edit] in Hr.
  rewrite full_plain in Hr by done.
  destruct (rebuildFull_None wide nzf_FromRR rr_set_serial soaRR wireName compress decompress sha range_order Placeholder _
    range_all nzf_FromRR_ok (sv_db st) (loadRecordRRs rows) None (sv_zone st) (mkOptions serial force None) S HI Hr) as (desired & recs & Hde & Hre & _ & Hpl).
  destruct (queryRRs_total rows (λ _, true) Hok) as [stored Hst]. destruct (queryRRs_spec _ _ _ Hok Hst) as [Hm Hin].
  unfold loadRecordRRs in Hde. rewrite Hst in Hde. unfold first_desired, desiredRRs, sign_with, generateZonemd in Hde. rewrite Hz in Hde.
  cbn [mbind res_bind andb] in Hde. rewrite app_nil_r in Hde. injection Hde as <-.
  destruct (toRecords_Ok nzf_FromRR nzf_FromRR_ok _ _ Hre) as [Er _]. cbn [omap list_omap] in Er. rewrite Hsoa in Er.
  pose proof (soa_is_soa _ _ Hsoa) as Hss.
  assert (∀ rows x, rows_ok rows → x ∈ records_of rows → isSOAData x = false) as Hplain.
  { intros rows0 x Hok' (id & r & Hr0 & _ & ->)%elem_records. by eapply row_plain, Hok'. }
  split; simpl; [done|done|done|done|done|done|]. exists S, soa. split; [done|]. split; [done|]. intros x. rewrite HS.
  assert (x ∈ records_of rows ↔ x ∈ omap nzf_FromRR stored) as Hrec.
  { rewrite Hin, elem_records. split; intros (id & r & Hx & _ & ->); by exists id, r. }
  specialize (Hpl x). unfold plain in Hpl. rewrite !list_elem_of_filter, HS, <- Er, elem_of_cons, <- Hrec in Hpl.
  destruct (isSOAData x) eqn:Ex.
  - assert (x ∉ records_of rows ∧ x ∉ records_of (sv_rows st)) as [? ?]; [|tauto].
    split; intros Hx%Hplain; try done; congruence.
  - assert (x ≠ soa) as Hne by congruence. tauto.
Qed.

(** ** Runs of edits *)
Inductive edit_op : Type :=
| OpCreate (id : Z) (i : RecordInput)
| OpUpdate (id revision : Z) (i : RecordInput)
| OpDelete (id revision : Z).
Definition run_op (st : zsvc) (op : edit_op) : res svc_err zsvc :=
  match op with
  | OpCreate id i => CreateRecord wide wide_upper compress decompress sha range_order Placeholder zonemd_Apply signer st id i
  | OpUpdate id rev i => UpdateRecord wide wide_upper compress decompress sha range_order Placeholder zonemd_Apply signer st id rev i
  | OpDelete id rev => DeleteRecord wide compress decompress sha range_order Placeholder zonemd_Apply signer st id rev
  end.
Definition op_printed (st : zsvc) (op : edit_op) : Prop :=
  match op with
  | OpCreate _ i | OpUpdate _ _ i => printed_input (zi_name (z_Name (sv_zone st))) i
  | OpDelete _ _ => True
  end.
(** A failed operation leaves the state as it is; a version that is written can be read back. *)
Inductive edits : zsvc → list edit_op → zsvc → Prop :=
| edits_nil st : edits st [] st
| edits_ok st op st1 ops st' : run_op st op = Ok st1 → op_printed st op →
    fits (sv_db st1) (CurrentSeq (sv_zone st) + 1) → edits st1 ops st' → edits st (op :: ops) st'
| edits_err st op e ops st' : run_op st op = Err e → edits st ops st' → edits st (op :: ops) st'.

Lemma run_op_inv st op st' : zone_inv st → op_printed st op → run_op st op = Ok st' →
  fits (sv_db st') (CurrentSeq (sv_zone st) + 1) → zone_inv st'.
Proof.
  intros Hi Hp Hr Hf. pose proof (zi_rows _ Hi) as Hok. pose proof (zi_unique _ Hi) as Hu. destruct op as [id i|id rev i|id rev]; simpl in Hp, Hr;
    (eapply Mutate_good; [exact Hi| |exact Hr|exact Hf]); intros rows' before after.
  - by apply createRecord_good.
  - by apply updateRecord_good.
  - by apply deleteRecord_good.
Qed.

(** What the invariant says of the served version. *)
Definition served_rows (st : zsvc) : Prop :=
  ∃ soa out, nzf_FromRR (soaRR (sv_zone st)) = Some soa ∧
    loadServed wide decompress range_order (sv_db st) (sv_zone st) = Ok out ∧ NoDup out ∧
    ∀ x, x ∈ out ↔ x = soa ∨ x ∈ records_of (sv_rows st).
Lemma inv_served st : zone_inv st → served_rows st.
Proof.
  intros [_ _ Hv _ _ _ (S & soa & HI & Hsoa & HS)].
  destruct (loadServed_Inv wide decompress sha range_order range_all _ _ _ HI Hv) as (out & Ho & Hn & Hout).
  exists soa, out. do 3 (split; [done|]). intros x. by rewrite Hout, HS.
Qed.

(** C26: Through any sequence of record edits of an unsigned primary zone, successful or refused, the
    stored records keep the rules of a zone, and reading the served version back gives the SOA of
    the zone row, with its serial, and exactly the stored records, each once: although an edit
    checks only the owners it touches and writes only the difference of the RRsets it touches. *)
Theorem edits_consistent st ops st' : zone_inv st → edits st ops st' →
  zone_rules (ToLower (zi_name (z_Name (sv_zone st')))) (pairs_of (sv_rows st')) ∧ served_rows st'.
Proof.
  intros Hi He. assert (zone_inv st') as Hi'.
  { induction He as [|st op st1 ops st' Hr Hp Hf _ IH|]; auto. apply IH. by eapply run_op_inv. }
  split; [apply Hi'|by apply inv_served].
Qed.
End edits.
