(* ===== verification/ZoneExamples.v ===== *)
(** * Zones, evaluated

    A concrete DNS library, and the witnesses of the theorems on record rules and edits. *)

From S2P Require Import Prelude.
From S2P Require Import GoText.
From S2P Require Import NzfNames.
From S2P Require Import NzfFormat.
From S2P Require Import ZoneJournal.
From S2P Require Import ZoneServed.
From S2P Require Import XfrIn.
From S2P Require Import DnsLib.
From S2P Require Import ZoneRebuild.
From S2P Require Import ZoneRules.
From S2P Require Import ZoneRecords.
From S2P Require Import ZoneEdits.

(** ** A concrete DNS library

    An instance of the library the parameters stand for, small enough to evaluate: names are wire
    names, the RDATA of a record is its data, and a record text is five fields.  It satisfies the
    laws, so the theorems that assume them are not vacuous. *)

Module Lib.
(** [escaped]: the character before is a backslash that escapes the next one. *)
Fixpoint next_dot (escaped : bool) (s : bytes) (off i : Z) : Z * bool :=
  match s with
  | [] => (i, true)
  | c :: s =>
      if (off <=? i) && (c =? 46) && negb escaped then (i + 1, bool_decide (s = []))
      else next_dot (negb escaped && (c =? 92)) s off (i + 1)
  end.
Definition name_ok (n : bytes) : Prop := validName n = Ok tt ∧ Forall (λ c, 0 ≤ c < RuneSelf) n.
#[export] Instance name_ok_dec n : Decision (name_ok n).
Proof. unfold name_ok. apply _. Defined.
Definition data_ok (d : bytes) : Prop := Forall is_byte d ∧ len d ≤ 65535.
#[export] Instance data_ok_dec d : Decision (data_ok d).
Proof. unfold data_ok. apply _. Defined.
Definition pack_name (n : bytes) : option bytes := if decide (name_ok n) then Some n else None.
Definition soa_data (s : SOAData) : bytes :=
  Ns s ++ Mbox s ++ put32 (s_Serial s) ++ put32 (s_Refresh s) ++ put32 (s_Retry s) ++ put32 (s_Expire s) ++ put32 (Minttl s).
Definition rdata (r : rr) : option bytes :=
  let d := match asSOA r with Some s => if Rrtype r =? TypeSOA then soa_data s else Data r | None => Data r end in
  if decide (data_ok d) then Some d else None.
Definition pack (r : rr) : option bytes :=
  o ← pack_name (h_Name r); d ← rdata r; Some (wire_rr o (Rrtype r) (Class r) (Ttl r) d).
Definition unpack (b : bytes) : option rr :=
  match nameEnd b with
  | Ok n =>
      let n := Z.to_nat n in
      t ← get16 (drop n b);
      c ← get16 (drop (n + 2) b);
      ttl ← get32 (drop (n + 4) b);
      Some (mkRR (take n b) t c ttl (drop (n + 10) b) None)
  | _ => None
  end.
Definition type_names : list (Z * bytes) :=
  [(TypeA, str "A"); (TypeNS, str "NS"); (TypeCNAME, str "CNAME"); (TypeDNAME, str "DNAME"); (TypeDS, str "DS")].
Definition type_of (s : bytes) : option Z := fst <$> list_find (λ p, p.2 = s) type_names ≫= λ p, Some p.2.
Definition name_of (t : Z) : option bytes := snd <$> list_find (λ p, p.1 = t) type_names ≫= λ p, Some p.2.
(** "name ttl IN type data". *)
Definition parse (s : bytes) : option (option rr) :=
  match Split s 32 with
  | [n; ttl; _; t; d] =>
      match ParseUint ttl 32, type_of t with
      | Some ttl, Some t => Some (Some (mkRR n t 1 ttl d None))
      | _, _ => None
      end
  | _ => None
  end.
Definition same (a b : rr) : bool :=
  bool_decide (ToLower (h_Name a) = ToLower (h_Name b)) && (Rrtype a =? Rrtype b) && (Class a =? Class b) &&
  bool_decide (rdata a = rdata b).

Lemma next_dot_spec e p s off i : next_dot e s off (len p) = (i, false) → off < i ≤ len (p ++ s) ∧ idx (p ++ s) (i - 1) = Some 46.
Proof.
  revert e p. induction s as [|c s IH]; intros e p; simpl; [done|]. destruct (_ && _ && _) eqn:Ec.
  - rewrite !andb_true_iff in Ec. destruct Ec as [[Hoff%Z.leb_le ->%Z.eqb_eq] _].
    intros [= <- _]. split; [rewrite len_app, len_cons; pose proof (len_nonneg s); lia|].
    replace (len p + 1 - 1) with (len p) by lia. apply idx_app_mid.
  - intros Hn. specialize (IH (negb e && (c =? 92)) (p ++ [c])). rewrite len_app in IH. cbn in IH.
    rewrite <- app_assoc in IH. by apply IH.
Qed.
Lemma ascii_bytes n : Forall (λ c, 0 ≤ c < RuneSelf) n → Forall is_byte n.
Proof. intros Hn. eapply Forall_impl; [exact Hn|]. intros c. unfold RuneSelf, is_byte. lia. Qed.
Lemma pack_name_Some n o : pack_name n = Some o → o = n ∧ validName n = Ok tt ∧ Forall (λ c, 0 ≤ c < RuneSelf) n.
Proof. unfold pack_name. destruct (decide (name_ok n)) as [[? ?]|]; [|done]. by intros [= <-]. Qed.
Lemma rdata_Some r d : rdata r = Some d → data_ok d.
Proof. unfold rdata. case_match; case_decide; intros [= <-]; done. Qed.
Lemma unpack_pack r b : wf_rr r → pack r = Some b → ∃ r', unpack b = Some r' ∧ pack r' = Some b ∧
  Rrtype r' = Rrtype r ∧ Class r' = Class r ∧ Ttl r' = Ttl r ∧ name_ok (h_Name r').
Proof.
  intros (Ht & Hc & Hl) Hp. unfold pack in Hp. destruct (pack_name (h_Name r)) as [o|] eqn:Eo; [|done].
  destruct (rdata r) as [d|] eqn:Ed; [|done]. injection Hp as <-. apply pack_name_Some in Eo as (-> & Hv & Ha).
  pose proof (rdata_Some _ _ Ed) as Hd. set (o := h_Name r) in *.
  destruct (wire_fields o (Rrtype r) (Class r) (Ttl r) d) as (E1 & E2 & E3 & E4 & _ & E6 & _).
  assert (nameEnd (wire_rr o (Rrtype r) (Class r) (Ttl r) d) = Ok (len o)) as En.
  { apply nameEnd_spec; [apply ascii_bytes in Ha; unfold wire_rr; repeat apply Forall_app_2; auto using put16_bytes, put32_bytes; apply Hd|].
    apply validName_spec in Hv as (ls & El & Hls); [|by apply ascii_bytes]. exists ls. eexists. unfold wire_rr. rewrite El at 1. rewrite El. done. }
  unfold unpack. rewrite En, to_nat_len, E1, E2, E3, (E4 Hl), E6. cbn [mbind option_bind].
  eexists. split; [done|]. unfold pack. cbn [h_Name Rrtype Class Ttl]. rewrite !u16_small by done. split; [|by split_and!].
  unfold pack_name, rdata. cbn [asSOA Data]. rewrite !decide_True by done. done.
Qed.
Lemma parse_wf s r : parse s = Some (Some r) → wf_rr r.
Proof.
  unfold parse. destruct (Split s 32) as [|n [|ttl [|c [|t [|d [|]]]]]]; try done.
  destruct (ParseUint ttl 32) as [l|] eqn:El; [|done]. destruct (type_of t) as [t'|] eqn:Et; [|done]. intros [= <-].
  split_and!; simpl; [|done|].
  - unfold type_of in Et. destruct (list_find _ _) as [[k [t1 s1]]|] eqn:Ef; [|done]. injection Et as <-.
    apply list_find_Some in Ef as (Hk & _). apply list_elem_of_lookup_2 in Hk. simpl.
    unfold type_names in Hk. rewrite !elem_of_cons in Hk. destruct_or! Hk; try (injection Hk as -> _; by compute). by apply not_elem_of_nil in Hk.
  - unfold ParseUint in El. destruct (_ || _) eqn:Eb; [done|]. destruct (Z.leb_spec (2 ^ 32) (digits_val ttl)); [done|].
    injection El as <-. split; [|lia]. apply orb_false_iff in Eb as [_ Eb%negb_false_iff].
    assert (∀ v, 0 ≤ v → 0 ≤ foldl (λ v c, 10 * v + (c - 48)) v ttl) as Hp; [|by apply Hp].
    clear -Eb. induction ttl as [|x ttl IH]; intros v Hv; [done|]. simpl in Eb |- *. apply andb_true_iff in Eb as [Ex Eb].
    apply IH; [done|]. unfold is_digit in Ex. lia.
Qed.
End Lib.
#[export] Instance lib : DnsLib := {|
  NextLabel s off := Lib.next_dot false s off 0;
  IsDomainName _ := true; IsFqdn _ := true;
  IsSubDomain parent child := HasSuffix child parent;
  Fqdn n := n; CanonicalName n := ToLower n;
  StringToType := Lib.type_of; TypeToString := Lib.name_of; NewRR := Lib.parse;
  RR_String r := h_Name r ++ [9; 9; 9; 9] ++ Data r;
  IsDuplicate := Lib.same; PackRR := Lib.pack; PackDomainName := Lib.pack_name; UnpackRR := Lib.unpack;
|}.

#[export, refine] Instance laws : DnsLaws := {| rdata_of := Lib.rdata; printed := Lib.name_ok |}.
Proof.
  - intros s off i _ Hn. apply (Lib.next_dot_spec false [] s off i Hn).
  - intros n o (-> & Hv & Ha)%Lib.pack_name_Some. split; [done|by apply Lib.ascii_bytes].
  - done.
  - intros t s Hs. simpl in *. unfold Lib.name_of in Hs. destruct (list_find _ _) as [[k [t1 s1]]|] eqn:Ef; [|done].
    injection Hs as <-. apply list_find_Some in Ef as (Hk & Ht & _). simpl in Ht. subst t1.
    apply list_elem_of_lookup_2 in Hk. unfold Lib.type_names in Hk. rewrite !elem_of_cons in Hk.
    destruct_or! Hk; try (injection Hk as -> ->; split; [done|by vm_compute]). by apply not_elem_of_nil in Hk.
  - intros t Ht. simpl. unfold Lib.type_of. destruct (list_find _ _) as [[k [t1 s1]]|] eqn:Ef; [|done]. exfalso.
    apply list_find_Some in Ef as (Hk & E & _). simpl in E. apply list_elem_of_lookup_2 in Hk. unfold Lib.type_names in Hk.
    rewrite !elem_of_cons in Hk. destruct_or! Hk; try (injection Hk as -> ->; discriminate E). by apply not_elem_of_nil in Hk.
  - intros r d Hd. by apply Lib.rdata_Some in Hd.
  - intros r n c t. done.
  - intros r s Ht. unfold Lib.rdata, set_soa. simpl. rewrite (proj2 (Z.eqb_neq _ _) Ht). by destruct s, (asSOA r).
  - intros r b. apply Lib.unpack_pack.
  - intros s r. apply Lib.parse_wf.
  - by intros n [_ Ha].
  - intros a b w _ _ (-> & _)%Lib.pack_name_Some (-> & _)%Lib.pack_name_Some. done.
  - intros n. simpl. apply ToLower_idem.
Defined.

(** ** A concrete zone under edits

    The theorems on record edits applied to the zone [a.] with the library above: creating,
    changing and deleting records, and an edit that the rules refuse. *)

Module Rules.
Definition name (s : string) : bytes := str s.
Definition at_ (n : string) (t : Z) : rr := mkRR (str n) t 1 300 [] None.
Definition before : list rr := [at_ "a." TypeNS; at_ "x.b.a." TypeA].
Definition after : list rr := before ++ [at_ "c.a." TypeDNAME].
Lemma rules_before : zone_rules (str "a.") (map rrset_name before).
Proof. apply (CheckSet_iff (str "a.") before). vm_compute. reflexivity. Qed.
Lemma checkOwners_incremental_witness :
  zone_rules (str "a.") (map rrset_name after) ∧
  checkOwners (str "a.") (map rrset_name (before ++ [at_ "b.a." TypeDNAME])) [str "B.a."] = Err DnameOccludes.
Proof.
  split; [|vm_compute; reflexivity].
  apply (checkOwners_incremental (str "a.") (map rrset_name before) (map rrset_name after) [str "c.a."] rules_before);
    [|vm_compute; reflexivity].
  intros o Ho. unfold after. rewrite map_app, filter_app. rewrite <- (app_nil_r (filter _ (map rrset_name before))) at 2.
  apply Permutation_app_head. simpl. rewrite filter_cons, filter_nil. destruct (decide _) as [E|]; [|done].
  destruct Ho. rewrite <- E. apply list_elem_of_singleton. by vm_compute.
Defined.
(** An owner whose first label is [x.b]: the whole-zone check accepts it beside a DNAME at [b.a.], the
    check of an edit at [b.a.] takes it for a name below. *)
Example escaped_dot :
  CheckSet (str "a.") [at_ "a." TypeNS; at_ "b.a." TypeDNAME; at_ "x\.b.a." TypeA] = Ok tt ∧
  checkOwners (str "a.") (map rrset_name [at_ "a." TypeNS; at_ "b.a." TypeDNAME; at_ "x\.b.a." TypeA]) [str "b.a."] =
    Err DnameOccludes.
Proof. split; vm_compute; reflexivity. Qed.
End Rules.

Module Edits.
Definition wide (c : Z) : Z := c.
Definition range_order (m : gmap bytes record) : list record := map snd (map_to_list m).
Definition Placeholder (z : Zone zinfo) : rr := mkRR (zi_name (z_Name z)) TypeZONEMD 1 300 [] None.
Definition zonemd_Apply (z : Zone zinfo) (l : list rr) : option (list rr) := Some l.
Definition apex : bytes := [1; 97; 0].
Definition www : bytes := [3; 119; 119; 119; 1; 97; 0].
Definition info : zinfo := mkZinfo apex (mkSOA apex apex 0 1 1 1 1) 300.
Definition z0 : Zone zinfo := mkZone info Primary 1 0 0 false false.
Definition d0 : zdb := mkZdb ∅ ∅ ∅.
Definition rows0 : zrows := {[ 1 := mkZrow apex TypeNS 300 [] www 1 ]}.
Definition got {A} (r : res zone_err (option (zdb * Zone zinfo))) (f : zdb → Zone zinfo → A) (d : A) : A :=
  match r with Ok (Some (d, z)) => f d z | _ => d end.
Definition first := zone_Rebuild wide id Some id range_order Placeholder zonemd_Apply d0 (loadRecordRRs rows0) None z0 (mkOptions None true None).
Definition st0 : zsvc := Eval vm_compute in got first (λ d z, mkSvc z 1 false rows0 d) (mkSvc z0 1 false rows0 d0).
Definition step (st : zsvc) (op : edit_op) : zsvc :=
  match run_op wide id id Some id range_order Placeholder zonemd_Apply None st op with Ok st' => st' | _ => st end.
Definition st1 : zsvc := Eval vm_compute in step st0 (OpCreate 2 (mkInput www (str "A") 60 [192; 0; 2; 1])).
Definition st2 : zsvc := Eval vm_compute in step st1 (OpUpdate 2 1 (mkInput www (str "A") 30 [192; 0; 2; 2])).

Lemma row_ok_ex r : (Lib.name_ok (zr_owner r) ∧ is_u16 (zr_type r) ∧ ManagedTypes (zr_type r) = true ∧
  is_u32 (zr_ttl r) ∧ Lib.data_ok (zr_wire r)) → row_ok r.
Proof.
  intros (Hn & Ht & Hm & Hl & Hd). split; [done..| |].
  - exists (zr_owner r). simpl. unfold Lib.pack_name. by rewrite decide_True.
  - exists (mkRR [] (zr_type r) 1 0 (zr_wire r) None). split; [done|]. simpl. unfold Lib.rdata. simpl. by rewrite decide_True.
Qed.
Lemma rows0_ok : rows_ok rows0.
Proof. unfold rows_ok, rows0. intros id r [<- <-]%lookup_singleton_Some. apply row_ok_ex. by_compute. Qed.
Lemma rows0_unique : rows_unique rows0.
Proof. unfold rows_unique, rows0. by intros i j a b [<- _]%lookup_singleton_Some [<- _]%lookup_singleton_Some. Qed.
Lemma rules0 : zone_rules (ToLower apex) (pairs_of rows0).
Proof.
  replace (pairs_of rows0) with (map rrset_name [mkRR apex TypeNS 1 300 [] None]) by (vm_compute; reflexivity).
  apply CheckSet_iff. vm_compute. reflexivity.
Qed.
Lemma inv0 : zone_inv wide Some id st0.
Proof.
  apply (full_inv wide id Some id range_order Placeholder zonemd_Apply None (λ _, eq_refl) (λ _ _ E, E) (λ _, reflexivity _)
    d0 z0 [] rows0 None true _ _ 1 false); [done|done|done|exact rows0_ok|exact rows0_unique|exact rules0| |done|vm_compute; reflexivity|].
  - split; try (intros *; simpl; rewrite ?lookup_empty; (done || lia)); by_compute.
  - by apply Example.small; vm_compute.
Qed.
Abbreviation Run := (run_op wide id id Some id range_order Placeholder zonemd_Apply None).
Definition op1 : edit_op := OpCreate 2 (mkInput www (str "A") 60 [192; 0; 2; 1]).
Definition op2 : edit_op := OpCreate 3 (mkInput www (str "CNAME") 60 [1; 120; 0]).
Definition op3 : edit_op := OpUpdate 2 1 (mkInput www (str "A") 30 [192; 0; 2; 2]).
Definition op4 : edit_op := OpDelete 1 1.
Lemma run1 : Run st0 op1 = Ok st1.
Proof. vm_cast_no_check (eq_refl (@Ok svc_err _ st1)). Qed.
Lemma run2 : Run st1 op2 = Err (RuleErr CnameConflict).
Proof. vm_compute. reflexivity. Qed.
Lemma run3 : Run st1 op3 = Ok st2.
Proof. vm_cast_no_check (eq_refl (@Ok svc_err _ st2)). Qed.
Lemma run4 : Run st2 op4 = Err (RuleErr LastApexNS).
Proof. vm_compute. reflexivity. Qed.
Lemma www_printed st i : zi_name (z_Name (sv_zone st)) = apex → in_Name i = www →
  (∀ r data, ParseRecord id apex i = Ok (r, data) → h_Name r = www) → printed_input id (zi_name (z_Name (sv_zone st))) i.
Proof. intros -> _ Hw r data Hp. rewrite (Hw _ _ Hp). simpl. by_compute. Qed.
Lemma ran12 : edits wide id id Some id range_order Placeholder zonemd_Apply None st0 [op1; op2; op3; op4] st2.
Proof.
  eapply edits_ok; [exact run1| |by apply Example.small; vm_compute|].
  { apply www_printed; [done|done|]. intros r data Hp. vm_compute in Hp. by injection Hp as <- _. }
  eapply edits_err; [exact run2|].
  eapply edits_ok; [exact run3| |by apply Example.small; vm_compute|].
  { apply www_printed; [done|done|]. intros r data Hp. vm_compute in Hp. by injection Hp as <- _. }
  eapply edits_err; [exact run4|]. constructor.
Qed.
Lemma edits_consistent_witness :
  ∃ soa out, loadServed wide Some range_order (sv_db st2) (sv_zone st2) = Ok out ∧
    ∀ x, x ∈ out ↔ x = soa ∨ x ∈ records_of (sv_rows st2).
Proof.
  destruct (edits_consistent wide id id Some id range_order Placeholder zonemd_Apply None (λ _, eq_refl) (λ _ _ E, E)
    (λ _, reflexivity _) st0 [op1; op2; op3; op4] st2 inv0 ran12) as [_ (soa & out & _ & Ho & _ & Hx)].
  exists soa, out. exact (conj Ho Hx).
Defined.
End Edits.
