(* ===== verification/DynUpdate.v ===== *)
(** * Dynamic updates

    mgmt/internal/dynupdate/apply.go: RFC 2136 updates that engines forward.  The zone's records as
    the maps of the code, the prerequisite section, the prescan and the update section, the
    difference to the stored records, and the transaction that applies it.  Unpacking the message
    and checking its TSIG are the DNS library's; the applier's checks around them are here. *)

From S2P Require Import Prelude.
From S2P Require Import GoText.
From S2P Require Import NzfNames.
From S2P Require Import NzfFormat.
From S2P Require Import ZoneJournal.
From S2P Require Import XfrIn.
From S2P Require Import DnsLib.
From S2P Require Import ZoneRules.
From S2P Require Import ZoneRecords.

Definition TypeIXFR : Z := 251.
Definition TypeAXFR : Z := 252.
Definition TypeMAILB : Z := 253.
Definition TypeMAILA : Z := 254.
Definition TypeANY : Z := 255.
Definition maxTimer : Z := 2147483647.

(** Response codes. *)
Inductive rcode : Type :=
| FormatError | ServerFailure | NameError | Refused | YXDomain | YXRrset | NXRrset | NotAuth | NotZone.
Inductive upd_err : Type := Rcode (r : rcode) | NoChange | SvcErr (e : svc_err).

(** A record of the message, with the length of its RDATA there. *)
Record urr := mkUrr { u_rr : rr; Rdlength : Z }.

Abbreviation rrmap := (gmap bytes (gmap Z (list rr))).
Record state := mkState {
  s_apex : bytes; s_rrs : rrmap; s_soa : rr; s_soaChanged : bool; s_original : gmap bytes rr }.
Definition rrs_at (m : rrmap) (name : bytes) : gmap Z (list rr) := default ∅ (m !! name).
Definition set_at (types : gmap Z (list rr)) (t : Z) : list rr := default [] (types !! t).
Definition rrset_at (m : rrmap) (name : bytes) (t : Z) : list rr := set_at (rrs_at m name) t.
Definition with_rrs (st : state) (m : rrmap) : state :=
  mkState (s_apex st) m (s_soa st) (s_soaChanged st) (s_original st).
Definition soa_serial (r : rr) : Z := match asSOA r with Some s => s_Serial s | None => 0 end.

Section update.
Context `{DnsLib}.
(** Go ranges over maps in any order. *)
Context (shuffle : list rr → list rr).

(** "%s|%d|%x" of the owner, the type and the RDATA. *)
Definition recordKey (r : rr) : option bytes :=
  w ← nzf_FromRR r;
  Some (ToLower (h_Name r) ++ [124] ++ FormatUint (RType w) ++ [124] ++ hex_EncodeToString (RData w)).

Definition add_rr (m : rrmap) (r : rr) : rrmap :=
  let name := ToLower (h_Name r) in
  <[name := <[Rrtype r := rrset_at m name (Rrtype r) ++ [r]]> (rrs_at m name)]> m.

Definition upd_soaRR (i : zinfo) (serial : Z) : rr :=
  let s := zi_SOA i in
  mkRR (CanonicalName (zi_name i)) TypeSOA ClassINET (zi_TTL i) []
    (Some (mkSOA (Ns s) (Mbox s) serial (s_Refresh s) (s_Retry s) (s_Expire s) (Minttl s))).
Fixpoint load_state (st : state) (records : list rr) : res upd_err state :=
  match records with
  | [] => Ok st
  | r :: records =>
      match recordKey r with
      | None => Err (SvcErr InvalidRData)
      | Some k =>
          load_state (mkState (s_apex st) (add_rr (s_rrs st) r) (s_soa st) (s_soaChanged st) (<[k := r]> (s_original st))) records
      end
  end.
Definition newState (i : zinfo) (serial : Z) (records : list rr) : res upd_err state :=
  let soa := upd_soaRR i serial in
  load_state (mkState (CanonicalName (zi_name i)) (add_rr ∅ soa) soa false ∅) records.

Definition inZone (st : state) (name : bytes) : bool := IsSubDomain (s_apex st) name.
Definition nameExists (st : state) (name : bytes) : bool :=
  existsb (λ p, match p.2 with [] => false | _ :: _ => true end) (map_to_list (rrs_at (s_rrs st) name)).
Definition isMeta (t : Z) : bool :=
  (t =? TypeANY) || (t =? TypeAXFR) || (t =? TypeIXFR) || (t =? TypeMAILA) || (t =? TypeMAILB).
Definition updatable (t : Z) : bool := (t =? TypeSOA) || ManagedTypes t.
Definition contains (set : list rr) (r : rr) : bool := existsb (λ x, IsDuplicate x r) set.
Definition sameSet (a b : list rr) : bool := forallb (contains b) a && forallb (contains a) b.

(** ** Prerequisites *)
Definition isnil {A} (l : list A) : bool := match l with [] => true | _ :: _ => false end.
Fixpoint prereq_loop (st : state) (temp : rrmap) (ps : list urr) : res upd_err rrmap :=
  match ps with
  | [] => Ok temp
  | p :: ps =>
      let h := u_rr p in
      let name := ToLower (h_Name h) in
      if negb (Ttl h =? 0) then Err (Rcode FormatError)
      else if negb (inZone st name) then Err (Rcode NotZone)
      else if Class h =? ClassANY then
        if negb (Rdlength p =? 0) then Err (Rcode FormatError)
        else if Rrtype h =? TypeANY then
          if nameExists st name then prereq_loop st temp ps else Err (Rcode NameError)
        else if isnil (rrset_at (s_rrs st) name (Rrtype h)) then Err (Rcode NXRrset) else prereq_loop st temp ps
      else if Class h =? ClassNONE then
        if negb (Rdlength p =? 0) then Err (Rcode FormatError)
        else if Rrtype h =? TypeANY then
          if nameExists st name then Err (Rcode YXDomain) else prereq_loop st temp ps
        else if isnil (rrset_at (s_rrs st) name (Rrtype h)) then prereq_loop st temp ps else Err (Rcode YXRrset)
      else if Class h =? ClassINET then
        prereq_loop st (<[name := <[Rrtype h := rrset_at temp name (Rrtype h) ++ [h]]> (rrs_at temp name)]> temp) ps
      else Err (Rcode FormatError)
  end.
Definition prerequisites (st : state) (ps : list urr) : res upd_err unit :=
  temp ← prereq_loop st ∅ ps;
  if forallb (λ n, forallb (λ t, sameSet t.2 (rrset_at (s_rrs st) n.1 t.1)) (map_to_list n.2)) (map_to_list temp)
  then Ok tt else Err (Rcode NXRrset).

(** ** Prescan *)
Definition soa_timers_bad (h : rr) : bool :=
  match asSOA h with
  | Some s =>
      (Class h =? ClassINET) &&
      ((s_Refresh s =? 0) || (s_Retry s =? 0) || (s_Expire s =? 0) ||
       (maxTimer <? Z.max (s_Refresh s) (Z.max (s_Retry s) (Z.max (s_Expire s) (Z.max (Minttl s) (Ttl h))))))
  | None => false
  end.
Definition prescan_tail (h : rr) : res upd_err unit :=
  if negb (updatable (Rrtype h)) then Err (Rcode Refused)
  else if soa_timers_bad h then Err (Rcode Refused) else Ok tt.
Definition prescan_one (st : state) (u : urr) : res upd_err unit :=
  let h := u_rr u in
  if negb (inZone st (h_Name h)) then Err (Rcode NotZone)
  else if Class h =? ClassINET then
    if isMeta (Rrtype h) then Err (Rcode FormatError) else prescan_tail h
  else if Class h =? ClassANY then
    if negb (Ttl h =? 0) || negb (Rdlength u =? 0) || (negb (Rrtype h =? TypeANY) && isMeta (Rrtype h))
    then Err (Rcode FormatError)
    else if Rrtype h =? TypeANY then Ok tt else prescan_tail h
  else if Class h =? ClassNONE then
    if negb (Ttl h =? 0) || isMeta (Rrtype h) then Err (Rcode FormatError) else prescan_tail h
  else Err (Rcode FormatError).
Fixpoint prescan (st : state) (us : list urr) : res upd_err unit :=
  match us with
  | [] => Ok tt
  | u :: us => prescan_one st u;; prescan st us
  end.

(** ** Update *)
Definition typesPresent (types : gmap Z (list rr)) : list Z :=
  omap (λ p, if isnil p.2 then None else Some p.1) (map_to_list types).
(** The index of the first record of the set that duplicates [r]. *)
Definition dup_index (set : list rr) (r : rr) : option nat := fst <$> list_find (λ x, IsDuplicate x r = true) set.
Definition set_class (r : rr) (c : Z) : rr := mkRR (h_Name r) (Rrtype r) c (Ttl r) (Data r) (asSOA r).

Definition add_to_set (set : list rr) (r : rr) (ttl : Z) : list rr :=
  map (λ x, set_ttl x ttl) (match dup_index set r with Some i => <[i := r]> set | None => set ++ [r] end).
Definition update_inet (st : state) (name : bytes) (types : gmap Z (list rr)) (r : rr) : state :=
  let apex := bool_decide (name = s_apex st) in
  let skip := with_rrs st (<[name := types]> (s_rrs st)) in
  let r' := set_name r name in
  match asSOA r' with
  | Some s =>
      if apex && SerialLess (soa_serial (s_soa st)) (s_Serial s) then
        mkState (s_apex st) (<[name := <[TypeSOA := [r']]> types]> (s_rrs st)) r' true (s_original st)
      else skip
  | None =>
      let put (types : gmap Z (list rr)) :=
        with_rrs st (<[name := <[Rrtype r := add_to_set (set_at types (Rrtype r)) r' (Ttl r)]> types]> (s_rrs st)) in
      if Rrtype r =? TypeCNAME then
        if apex || existsb (λ t, negb (t =? TypeCNAME)) (typesPresent types) then skip
        else put (<[TypeCNAME := []]> types)
      else if isnil (set_at types TypeCNAME) then put types else skip
  end.
Definition update_any (st : state) (name : bytes) (types : gmap Z (list rr)) (r : rr) : state :=
  let apex := bool_decide (name = s_apex st) in
  with_rrs st (<[name := filter (λ p, ((Rrtype r =? TypeANY) || (p.1 =? Rrtype r)) &&
                                       negb (apex && ((p.1 =? TypeSOA) || (p.1 =? TypeNS))) = false) types]> (s_rrs st)).
Definition update_none (st : state) (name : bytes) (types : gmap Z (list rr)) (r : rr) : state :=
  let apex := bool_decide (name = s_apex st) in
  let skip := with_rrs st (<[name := types]> (s_rrs st)) in
  if Rrtype r =? TypeSOA then skip
  else
    let set := set_at types (Rrtype r) in
    match dup_index set (set_class r ClassINET) with
    | None => skip
    | Some i =>
        if apex && (Rrtype r =? TypeNS) && (length set =? 1)%nat then skip
        else with_rrs st (<[name := <[Rrtype r := delete i set]> types]> (s_rrs st))
    end.
Definition update_one (st : state) (u : urr) : state :=
  let r := u_rr u in
  let name := ToLower (h_Name r) in
  let types := rrs_at (s_rrs st) name in
  if Class r =? ClassINET then update_inet st name types r
  else if Class r =? ClassANY then update_any st name types r
  else if Class r =? ClassNONE then update_none st name types r
  else with_rrs st (<[name := types]> (s_rrs st)).
Definition update (st : state) (us : list urr) : state := foldl update_one st us.

(** ** Changes *)
Definition flat (m : rrmap) : list rr :=
  concat (map (λ n, concat (map (λ t, if t.1 =? TypeSOA then [] else t.2) (map_to_list n.2))) (map_to_list m)).
Definition records (st : state) : list rr := shuffle (flat (s_rrs st)).
Fixpoint changes_loop (st : state) (final : gset bytes) (added rrs : list rr) : res upd_err (gset bytes * list rr) :=
  match rrs with
  | [] => Ok (final, added)
  | r :: rrs =>
      match recordKey r with
      | None => Err (Rcode FormatError)
      | Some k =>
          let changed := match s_original st !! k with Some old => negb (Ttl old =? Ttl r) | None => true end in
          changes_loop st ({[k]} ∪ final) (if changed then added ++ [r] else added) rrs
      end
  end.
Definition changes (st : state) : res upd_err (list rr * list rr) :=
  '(final, added) ← changes_loop st ∅ [] (records st);
  Ok (shuffle (map snd (filter (λ p, p.1 ∉ final) (map_to_list (s_original st)))), added).
End update.

(** ** The applier *)
Record umsg := mkMsg {
  Opcode : Z; Response : bool; Question : list (bytes * Z * Z); m_Answer : list urr; m_Ns : list urr;
  IsTsig : option (bytes * bytes) }.
Definition OpcodeUpdate : Z := 5.
Definition maxMessage : Z := 65535.
Record UpdateRequest := mkReq { req_Zone : bytes; req_Message : bytes; req_TsigKey : bytes }.
(** A zone with the keys that may update it; the TSIG keys by name, each with its id and algorithm. *)
Record hosted := mkHosted { ho_svc : zsvc; UpdateTSIGKeyIDs : list Z }.
Record tsig_row := mkTsig { tk_id : Z; tk_algorithm : bytes }.

(** The algorithm names of the key rows, and those of the library. *)
Definition HmacSHA256 : bytes := str "hmac-sha256.".
Definition HmacSHA384 : bytes := str "hmac-sha384.".
Definition HmacSHA512 : bytes := str "hmac-sha512.".
Definition tsigAlgorithms (a : bytes) : bytes :=
  if bool_decide (a = str "hmac-sha256") then HmacSHA256
  else if bool_decide (a = str "hmac-sha384") then HmacSHA384
  else if bool_decide (a = str "hmac-sha512") then HmacSHA512 else [].

Section applier.
Context `{DnsLib} (shuffle : list rr → list rr) (wide : Z → Z).
(** The message codec and TSIG of the library, and the key store. *)
Context (Unpack : bytes → option umsg) (TsigVerify : bytes → bytes → bool).
Context (tsig_available : bool) (Secret : Z → option bytes).
Context (new_id : zrows → Z).
Context (compress : bytes → bytes) (decompress : bytes → option bytes) (sha : bytes → bytes).
Context (range_order : gmap bytes record → list record).
Context (Placeholder : Zone zinfo → rr) (zonemd_Apply : Zone zinfo → list rr → option (list rr)).
Context (signer : option (Signer (Name := zinfo) (RR := rr))).

Definition verify (keys : gmap bytes tsig_row) (h : hosted) (msg : umsg) (raw keyName : bytes) : res upd_err unit :=
  match IsTsig msg with
  | None => Err (Rcode Refused)
  | Some (name, algorithm) =>
      if negb (bool_decide (CanonicalName name = keyName)) then Err (Rcode NotAuth)
      else if negb tsig_available then Err (Rcode NotAuth)
      else match keys !! keyName with
      | None => Err (Rcode NotAuth)
      | Some k =>
          if negb (bool_decide (tk_id k ∈ UpdateTSIGKeyIDs h)) then Err (Rcode Refused)
          else match Secret (tk_id k) with
          | None => Err (SvcErr ErrNotFound)
          | Some secret =>
              if negb (EqualFold wide (tsigAlgorithms (tk_algorithm k)) algorithm) then Err (Rcode NotAuth)
              else if TsigVerify raw secret then Ok tt else Err (Rcode NotAuth)
          end
      end
  end.
Definition allowed (keys : gmap bytes tsig_row) (h : hosted) (keyName : bytes) : bool :=
  match keys !! keyName with Some k => bool_decide (tk_id k ∈ UpdateTSIGKeyIDs h) | None => false end.

Definition lift_svc {A} (m : res svc_err A) : res upd_err A :=
  match m with Ok a => Ok a | Err e => Err (SvcErr e) | Panic => Panic | Fuel => Fuel end.
(** The SOA fields the update writes to the zone row. *)
Definition updated_info (i : zinfo) (st : state) : zinfo :=
  match asSOA (s_soa st) with
  | Some s =>
      if s_soaChanged st then
        mkZinfo (zi_name i) (mkSOA (CanonicalName (Ns s)) (CanonicalName (Mbox s)) (s_Serial s) (s_Refresh s) (s_Retry s) (s_Expire s) (Minttl s))
          (Ttl (s_soa st))
      else i
  | None => i
  end.
(** The function passed to [MutateFenced]. *)
Definition update_fn (ok : bool) (prereqs updates : list urr) (sv : zsvc)
    : res upd_err (zrows * zinfo * RebuildOptions (RR := rr)) :=
  let z := sv_zone sv in
  let i := z_Name z in
  if negb (bool_decide (z_Kind z = Primary)) then Err (Rcode Refused)
  else if negb ok then Err (Rcode Refused)
  else
    recs ← lift_zone (λ e, SvcErr (ZoneErr e)) (loadRecordRRs (sv_rows sv));
    st ← newState i (Serial z) recs;
    prerequisites st prereqs;;
    prescan st updates;;
    let st := update st updates in
    '(deleted, added) ← changes shuffle st;
    if isnil deleted && isnil added && negb (s_soaChanged st) then Err NoChange
    else match CheckSet (zi_name i) (records shuffle st) with
    | Ok _ =>
        rows ← lift_svc (rows_ApplyRecordChanges new_id (sv_rows sv) deleted added);
        Ok (rows, updated_info i st, mkOptions (if s_soaChanged st then Some (soa_serial (s_soa st)) else None) false None)
    | _ => Err (Rcode Refused)
    end.

(** [apply]: the zones by name; the updated zone on success.  [fence] runs first in the transaction. *)
Definition apply_update (fence : res upd_err unit) (TSIGCheck : bool) (keys : gmap bytes tsig_row) (zones : gmap bytes hosted) (req : UpdateRequest)
    : res upd_err (bytes * hosted) :=
  if maxMessage <? len (req_Message req) then Err (Rcode FormatError)
  else match Unpack (req_Message req) with
  | None => Err (Rcode FormatError)
  | Some msg =>
      match Question msg with
      | [(qname, qtype, qclass)] =>
          if negb (Opcode msg =? OpcodeUpdate) || Response msg then Err (Rcode FormatError)
          else if negb (qtype =? TypeSOA) || negb (qclass =? ClassINET) ||
                  negb (bool_decide (CanonicalName qname = CanonicalName (req_Zone req))) then Err (Rcode FormatError)
          else match zones !! CanonicalName qname with
          | None => Err (Rcode NotAuth)
          | Some h =>
              if negb (bool_decide (z_Kind (sv_zone (ho_svc h)) = Primary)) then Err (Rcode Refused)
              else
                let keyName := CanonicalName (req_TsigKey req) in
                (if TSIGCheck then verify keys h msg (req_Message req) keyName else Ok tt);;
                fence;;
                sv ← Mutate wide compress decompress sha range_order Placeholder zonemd_Apply signer (λ e, SvcErr (ZoneErr e)) (ho_svc h)
                       (update_fn (negb TSIGCheck || allowed keys h keyName) (m_Answer msg) (m_Ns msg));
                Ok (CanonicalName qname, mkHosted sv (UpdateTSIGKeyIDs h))
          end
      | _ => Err (Rcode FormatError)
      end
  end.

(** The response code ([None]: success), and the zones afterwards. *)
Definition ApplyFenced (fence : res upd_err unit) (TSIGCheck : bool) (keys : gmap bytes tsig_row) (zones : gmap bytes hosted) (req : UpdateRequest)
    : res unit (option rcode * gmap bytes hosted) :=
  match apply_update fence TSIGCheck keys zones req with
  | Ok (name, h) => Ok (None, <[name := h]> zones)
  | Err NoChange => Ok (None, zones)
  | Err (Rcode r) => Ok (Some r, zones)
  | Err (SvcErr _) => Ok (Some ServerFailure, zones)
  | Panic => Panic
  | Fuel => Fuel
  end.
Definition Apply := ApplyFenced (Ok tt).
End applier.
