(* ===== verification/DynRefine.v ===== *)
(** * Dynamic updates implement RFC 2136

    The update section, as RFC 2136, 3.4.2 describes it, on a zone that is one list of records; and
    the proof that the code, which keeps a map of maps of slices, implements it. *)

From S2P Require Import Prelude.
From S2P Require Import GoText.
From S2P Require Import NzfNames.
From S2P Require Import NzfFormat.
From S2P Require Import ZoneJournal.
From S2P Require Import XfrIn.
From S2P Require Import DnsLib.
From S2P Require Import ZoneRules.
From S2P Require Import ZoneRecords.
From S2P Require Import DynUpdate.

(** ** Grouping *)
Lemma filter_group_perm {A K} `{EqDecision K} (key : A → K) (l k : list A) :
  (∀ x, filter (λ a, key a = x) l ≡ₚ filter (λ a, key a = x) k) → l ≡ₚ k.
Proof.
  revert k. induction l as [|a l IH]; intros k Hk.
  - destruct k as [|b k]; [done|]. specialize (Hk (key b)). rewrite filter_nil, filter_cons, decide_True in Hk by done.
    by apply Permutation_nil_cons in Hk.
  - pose proof (Hk (key a)) as Ha. rewrite filter_cons, decide_True in Ha by done.
    assert (a ∈ filter (λ b, key b = key a) k) as Hin by (rewrite <- Ha; left).
    apply list_elem_of_filter in Hin as [_ (k1 & k2 & ->)%list_elem_of_split].
    rewrite <- Permutation_middle. constructor. apply IH. intros x. specialize (Hk x).
    rewrite <- Permutation_middle in Hk. rewrite !filter_cons in Hk. destruct (decide (key a = x)); [by apply Permutation_cons_inv in Hk|done].
Qed.

(** ** The reference *)
Definition owner_of (r : rr) : bytes := ToLower (h_Name r).
Definition at_set (n : bytes) (t : Z) (r : rr) : Prop := rrset_name r = (n, t).
#[export] Instance at_set_dec n t r : Decision (at_set n t r).
Proof. unfold at_set. apply _. Defined.

(** A zone as its records and its SOA. *)
Record rzone := mkRzone { rz_rrs : list rr; rz_soa : rr; rz_changed : bool }.

Section reference.
Context `{DnsLib}.

(** The first record of the zone that is in the RRset and duplicates [r]. *)
Definition dup_in (n : bytes) (t : Z) (r x : rr) : Prop := at_set n t x ∧ IsDuplicate x r = true.
#[export] Instance dup_in_dec n t r x : Decision (dup_in n t r x).
Proof. unfold dup_in. apply _. Defined.
Fixpoint replace_first (P : rr → Prop) `{∀ x, Decision (P x)} (f : option rr) (l : list rr) : list rr :=
  match l with
  | [] => []
  | x :: l => if decide (P x) then (match f with Some r => r :: l | None => l end) else x :: replace_first P f l
  end.

(** Adding a record: it takes the place of a duplicate, and its RRset takes its TTL. *)
Definition ref_add (zone : list rr) (n : bytes) (t : Z) (r : rr) : list rr :=
  map (λ x, if decide (at_set n t x) then set_ttl x (Ttl r) else x)
    (if decide (Exists (dup_in n t r) zone) then replace_first (dup_in n t r) (Some r) zone else zone ++ [r]).
Definition ref_update (apex : bytes) (z : rzone) (u : urr) : rzone :=
  let r := u_rr u in
  let n := owner_of r in
  let t := Rrtype r in
  let zone := rz_rrs z in
  let set l := mkRzone l (rz_soa z) (rz_changed z) in
  if decide (Class r = ClassINET) then
    match asSOA r with
    | Some s =>
        if decide (n = apex ∧ SerialLess (soa_serial (rz_soa z)) (s_Serial s) = true)
        then mkRzone zone (set_name r n) true else z
    | None =>
        if decide (t = TypeCNAME) then
          if decide (n = apex ∨ Exists (λ x, owner_of x = n ∧ Rrtype x ≠ TypeCNAME) zone) then z
          else set (ref_add (filter (λ x, ¬ at_set n TypeCNAME x) zone) n t (set_name r n))
        else if decide (Exists (at_set n TypeCNAME) zone) then z
        else set (ref_add zone n t (set_name r n))
    end
  else if decide (Class r = ClassANY) then
    set (filter (λ x, ¬ (owner_of x = n ∧ (t = TypeANY ∨ Rrtype x = t) ∧ ¬ (n = apex ∧ Rrtype x = TypeNS))) zone)
  else if decide (Class r = ClassNONE ∧ t ≠ TypeSOA) then
    if decide (n = apex ∧ t = TypeNS ∧ length (filter (at_set n t) zone) = 1%nat) then z
    else set (replace_first (dup_in n t (set_class r ClassINET)) None zone)
  else z.
End reference.

(** ** The refinement *)
Section refine.
Context `{DnsLib}.

(** The maps hold the records of the zone, by owner and type, and at the apex the SOA. *)
Record refines (st : state) (z : rzone) : Prop := {
  rf_sets : ∀ n t, t ≠ TypeSOA → rrset_at (s_rrs st) n t = filter (at_set n t) (rz_rrs z);
  rf_plain : Forall (λ r, Rrtype r ≠ TypeSOA) (rz_rrs z);
  rf_soa : ∀ n, n ≠ s_apex st → rrset_at (s_rrs st) n TypeSOA = [];
  rf_row : s_soa st = rz_soa z ∧ s_soaChanged st = rz_changed z;
}.
(** A record is a dns.SOA exactly when its type is SOA. *)
Definition typed (u : urr) : Prop := Rrtype (u_rr u) = TypeSOA ↔ asSOA (u_rr u) ≠ None.

Lemma rrset_insert (m : rrmap) name types n t :
  rrset_at (<[name := types]> m) n t = if decide (n = name) then set_at types t else rrset_at m n t.
Proof.
  unfold rrset_at, rrs_at. destruct (decide (n = name)) as [->|]; [by rewrite lookup_insert_eq|by rewrite lookup_insert_ne].
Qed.
Lemma set_insert (types : gmap Z (list rr)) t l t' :
  set_at (<[t := l]> types) t' = if decide (t' = t) then l else set_at types t'.
Proof. unfold set_at. destruct (decide (t' = t)) as [->|]; [by rewrite lookup_insert_eq|by rewrite lookup_insert_ne]. Qed.
Lemma filter_at_map n t ttl n' t' l :
  filter (at_set n' t') (map (λ x, if decide (at_set n t x) then set_ttl x ttl else x) l) =
  map (λ x, if decide (at_set n t x) then set_ttl x ttl else x) (filter (at_set n' t') l).
Proof.
  rewrite (filter_map_comm _ _ (HQ := λ x, decide (at_set n' t' (if decide (at_set n t x) then set_ttl x ttl else x)))).
  f_equal. apply list_filter_iff. intros x. by destruct (decide (at_set n t x)).
Qed.
Lemma map_ttl_out n t ttl n' t' l : (n', t') ≠ (n, t) →
  map (λ x, if decide (at_set n t x) then set_ttl x ttl else x) (filter (at_set n' t') l) = filter (at_set n' t') l.
Proof.
  intros Hne. rewrite <- (map_id (filter _ l)) at 2. apply map_ext_in. intros x Hx%list_elem_of_In.
  apply list_elem_of_filter in Hx as [Hx _]. rewrite decide_False; [done|]. unfold at_set in *. congruence.
Qed.
Lemma map_ttl_in n t ttl l :
  map (λ x, if decide (at_set n t x) then set_ttl x ttl else x) (filter (at_set n t) l) = map (λ x, set_ttl x ttl) (filter (at_set n t) l).
Proof.
  apply map_ext_in. intros x Hx%list_elem_of_In. apply list_elem_of_filter in Hx as [Hx _]. by rewrite decide_True.
Qed.
Lemma filter_replace_out (P : rr → Prop) `{∀ x, Decision (P x)} f n t l :
  (∀ x, P x → ¬ at_set n t x) → (∀ r, f = Some r → ¬ at_set n t r) →
  filter (at_set n t) (replace_first P f l) = filter (at_set n t) l.
Proof.
  intros HP Hf. induction l as [|x l IH]; [done|]. simpl. rewrite !filter_cons. destruct (decide (P x)) as [Hx|Hx].
  - rewrite (decide_False (P := at_set n t x)) by auto. destruct f as [r|]; [|done].
    rewrite filter_cons, decide_False by auto. done.
  - rewrite filter_cons, IH. done.
Qed.
(** Inside the RRset, the first duplicate of the zone is the first of the set. *)
Lemma filter_replace_in n t r f l : (∀ r', f = Some r' → at_set n t r') →
  filter (at_set n t) (replace_first (dup_in n t r) f l) =
  match dup_index (filter (at_set n t) l) r with
  | Some i => match f with Some r' => <[i := r']> (filter (at_set n t) l) | None => delete i (filter (at_set n t) l) end
  | None => filter (at_set n t) l
  end.
Proof.
  intros Hf. induction l as [|x l IH]; [done|]. simpl. rewrite !filter_cons. destruct (decide (at_set n t x)) as [Hx|Hx].
  - unfold dup_index. cbn [list_find]. destruct (decide (dup_in n t r x)) as [[_ Hd]|Hd].
    + rewrite decide_True by done. simpl. destruct f as [r'|]; [|done]. rewrite filter_cons, decide_True by auto. done.
    + rewrite decide_False by (unfold dup_in in Hd; tauto). rewrite filter_cons, decide_True by done. rewrite IH. unfold dup_index.
      destruct (list_find _ _) as [[i y]|]; simpl; [|done]. by destruct f.
  - rewrite decide_False by (unfold dup_in; tauto). rewrite filter_cons, decide_False by done. done.
Qed.
Lemma dup_index_None n t r l : dup_index (filter (at_set n t) l) r = None ↔ ¬ Exists (dup_in n t r) l.
Proof.
  unfold dup_index. rewrite fmap_None, list_find_None, Forall_forall, Exists_exists. split.
  - intros Hn (x & Hx & Ha & Hd). by apply (Hn x); [apply list_elem_of_filter|].
  - intros Hn x [Ha Hx]%list_elem_of_filter Hd. apply Hn. by exists x.
Qed.

Lemma ref_add_sets zone n t r n' t' : at_set n t r →
  filter (at_set n' t') (ref_add zone n t r) =
  if decide ((n', t') = (n, t)) then add_to_set (filter (at_set n t) zone) r (Ttl r) else filter (at_set n' t') zone.
Proof.
  intros Hr. unfold ref_add. rewrite filter_at_map. destruct (decide ((n', t') = (n, t))) as [[= -> ->]|Hne].
  - rewrite map_ttl_in. unfold add_to_set. f_equal. destruct (decide (Exists (dup_in n t r) zone)) as [He|He].
    + rewrite filter_replace_in by (by intros ? [= <-]). destruct (dup_index _ _) eqn:Ed; [done|].
      by apply dup_index_None in Ed.
    + rewrite (proj2 (dup_index_None n t r zone) He), filter_app, filter_cons, filter_nil, decide_True by done. done.
  - rewrite map_ttl_out by done.
    assert (∀ x, at_set n t x → ¬ at_set n' t' x) as Hno by (unfold at_set; congruence).
    destruct (decide _).
    + apply filter_replace_out; [by intros x [Hx _]; apply Hno|intros ? [= <-]; by apply Hno].
    + rewrite filter_app, filter_cons, filter_nil, decide_False by (by apply Hno). by rewrite app_nil_r.
Qed.
Lemma ref_add_plain zone n t r : t ≠ TypeSOA → at_set n t r → Forall (λ r, Rrtype r ≠ TypeSOA) zone →
  Forall (λ r, Rrtype r ≠ TypeSOA) (ref_add zone n t r).
Proof.
  intros Ht Hr Hz. unfold ref_add. apply Forall_fmap. apply (Forall_impl (λ r, Rrtype r ≠ TypeSOA)).
  2:{ intros x Hx. simpl. by destruct (decide _). }
  assert (Rrtype r ≠ TypeSOA) as Hrt by (unfold at_set in Hr; injection Hr as _ ->; done).
  destruct (decide _); [|apply Forall_app_2; [done|by repeat constructor]].
  clear -Hz Hrt. induction Hz as [|x l Hx Hl IH]; [constructor|]. simpl. destruct (decide _); by constructor.
Qed.
Lemma replace_first_sub (P : rr → Prop) `{∀ x, Decision (P x)} l x : x ∈ replace_first P None l → x ∈ l.
Proof.
  induction l as [|y l IH]; [done|]. simpl. destruct (decide (P y)); [by right|].
  intros [->|?]%elem_of_cons; [left|right; auto].
Qed.
Lemma typesPresent_elem types t : t ∈ typesPresent types ↔ set_at types t ≠ [].
Proof.
  unfold typesPresent. rewrite list_elem_of_omap. split.
  - intros ([t' l] & Hin%elem_of_map_to_list & Hs). simpl in Hs. destruct l; [done|]. injection Hs as ->.
    unfold set_at. by rewrite Hin.
  - intros Hs. unfold set_at in Hs. destruct (types !! t) as [l|] eqn:El; [|done]. exists (t, l).
    split; [by apply elem_of_map_to_list|]. simpl in *. by destruct l.
Qed.
Lemma filter_empty_Exists n t l : filter (at_set n t) l = [] ↔ ¬ Exists (at_set n t) l.
Proof.
  rewrite Exists_exists. split.
  - intros E (x & Hx & Ha). apply (not_elem_of_nil x). rewrite <- E. by apply list_elem_of_filter.
  - intros Hn. destruct (filter (at_set n t) l) as [|x k] eqn:E; [done|]. destruct Hn.
    assert (x ∈ filter (at_set n t) l) as Hx by (rewrite E; left). apply list_elem_of_filter in Hx as [? ?]. by exists x.
Qed.
(** Leaving the zone as it is. *)
Lemma skip_refines st z name : refines st z → refines (with_rrs st (<[name := rrs_at (s_rrs st) name]> (s_rrs st))) z.
Proof.
  assert (∀ n t, rrset_at (<[name := rrs_at (s_rrs st) name]> (s_rrs st)) n t = rrset_at (s_rrs st) n t) as E.
  { intros n t. rewrite rrset_insert. by destruct (decide (n = name)) as [->|]. }
  intros [H1 H2 H3 H4]. split; simpl; [|done| |done]; intros; rewrite E; auto.
Qed.
(** Writing one RRset. *)
Lemma put_refines st z name types t l zone' : refines st z → t ≠ TypeSOA →
  (∀ t', set_at types t' = if decide (t' = t) then l else rrset_at (s_rrs st) name t') →
  Forall (λ r, Rrtype r ≠ TypeSOA) zone' →
  (∀ n' t', filter (at_set n' t') zone' = if decide ((n', t') = (name, t)) then l else filter (at_set n' t') (rz_rrs z)) →
  refines (with_rrs st (<[name := types]> (s_rrs st))) (mkRzone zone' (rz_soa z) (rz_changed z)).
Proof.
  intros [H1 H2 H3 H4] Ht Hty Hpl Hz. split; simpl; [|done| |done].
  - intros n' t' Ht'. rewrite rrset_insert, Hz. destruct (decide (n' = name)) as [->|].
    + rewrite Hty. destruct (decide (t' = t)) as [->|]; [by rewrite decide_True|]. rewrite decide_False by congruence. auto.
    + rewrite decide_False by congruence. auto.
  - intros n' Hn. rewrite rrset_insert. destruct (decide (n' = name)) as [->|]; [|auto]. rewrite Hty, decide_False by done. auto.
Qed.

(** What keeps a CNAME out. *)
Lemma cname_blocked st z n : refines st z →
  bool_decide (n = s_apex st) || existsb (λ t, negb (t =? TypeCNAME)) (typesPresent (rrs_at (s_rrs st) n)) = true ↔
  n = s_apex st ∨ Exists (λ x, owner_of x = n ∧ Rrtype x ≠ TypeCNAME) (rz_rrs z).
Proof.
  intros [H1 H2 H3 _]. rewrite orb_true_iff, bool_decide_eq_true. destruct (decide (n = s_apex st)) as [|Hna]; [tauto|].
  rewrite existsb_exists, Exists_exists. split.
  - intros [?|(t & Ht'%list_elem_of_In%typesPresent_elem & Hn%negb_true_iff%Z.eqb_neq)]; [done|]. right.
    fold (rrset_at (s_rrs st) n t) in Ht'. destruct (decide (t = TypeSOA)) as [->|]; [by rewrite H3 in Ht'|].
    rewrite H1 in Ht' by done. destruct (filter (at_set n t) (rz_rrs z)) as [|x k] eqn:Ef; [done|].
    assert (x ∈ filter (at_set n t) (rz_rrs z)) as Hx by (rewrite Ef; left). apply list_elem_of_filter in Hx as [[= E1 E2] Hx].
    exists x. split; [done|]. split; [done|congruence].
  - intros [?|(x & Hx & Ho & Hn)]; [done|]. right. exists (Rrtype x). split; [|by apply negb_true_iff, Z.eqb_neq].
    apply list_elem_of_In, typesPresent_elem. fold (rrset_at (s_rrs st) n (Rrtype x)). rewrite Forall_forall in H2. rewrite H1 by auto.
    intros E. apply (not_elem_of_nil x). rewrite <- E. apply list_elem_of_filter. split; [|done]. unfold at_set, rrset_name. f_equal. done.
Qed.

Lemma inet_refines st z u (r := u_rr u) (n := owner_of r) : refines st z → typed u → Class r = ClassINET →
  refines (update_inet st n (rrs_at (s_rrs st) n) r) (ref_update (s_apex st) z u).
Proof.
  intros Hrf Hty Hc. unfold ref_update. fold r. fold n. rewrite (decide_True (P := Class r = ClassINET)) by done.
  unfold update_inet. cbn [asSOA set_name]. pose proof Hrf as [H1 H2 H3 [H4 H5]]. destruct (asSOA r) as [s|] eqn:Es.
  - rewrite <- H4. destruct (bool_decide (n = s_apex st) && SerialLess _ _) eqn:Eb.
    + apply andb_true_iff in Eb as [En%bool_decide_eq_true Eb]. rewrite decide_True by done.
      split; simpl; [|done| |done]; intros n'.
      * intros t Ht. rewrite rrset_insert. destruct (decide (n' = n)) as [->|]; [|auto].
        rewrite set_insert, decide_False by done. apply H1. done.
      * intros Hn. rewrite rrset_insert, decide_False by congruence. auto.
    + rewrite decide_False; [by apply skip_refines|]. intros [En Es']. rewrite bool_decide_eq_true_2 in Eb by done. by rewrite Es' in Eb.
  - assert (Rrtype r ≠ TypeSOA) as Ht by (intros E; apply Hty in E; done).
    assert (at_set n (Rrtype r) (set_name r n)) as Hat.
    { unfold at_set, rrset_name. simpl. f_equal. apply ToLower_idem. }
    assert (Ttl (set_name r n) = Ttl r) as Ettl by done.
    destruct (Z.eqb_spec (Rrtype r) TypeCNAME) as [Ec|Ec].
    + rewrite (decide_True (P := Rrtype r = TypeCNAME)) by done.
      pose proof (cname_blocked st z n Hrf) as Hcond.
      destruct (_ || _) eqn:Eb; [rewrite decide_True by (by apply Hcond); by apply skip_refines|].
      rewrite decide_False by (intros Hx%Hcond; congruence). rewrite Ec.
      apply (put_refines _ _ _ _ TypeCNAME (add_to_set [] (set_name r n) (Ttl r))); [done|done| | |].
      * intros t'. rewrite !set_insert. destruct (decide (t' = TypeCNAME)) as [->|]; [by rewrite decide_True|done].
      * rewrite Ec in Hat. apply ref_add_plain; [done|done|]. by apply Forall_filter.
      * intros n' t'. rewrite Ec in Hat. rewrite ref_add_sets by done. destruct (decide _) as [[= -> ->]|Hne].
        -- f_equal. apply filter_nil_iff_elem. intros x [Hx _]%list_elem_of_filter. done.
        -- rewrite list_filter_filter. apply list_filter_iff. intros x. split; [tauto|]. intros Hx. split; [done|].
           unfold at_set in *. congruence.
    + rewrite (decide_False (P := Rrtype r = TypeCNAME)) by done.
      assert (isnil (set_at (rrs_at (s_rrs st) n) TypeCNAME) = true ↔ ¬ Exists (at_set n TypeCNAME) (rz_rrs z)) as Hcn.
      { fold (rrset_at (s_rrs st) n TypeCNAME). rewrite H1 by done. rewrite <- filter_empty_Exists. by destruct (filter _ _). }
      destruct (isnil _) eqn:En.
      * rewrite decide_False by (by apply Hcn).
        apply (put_refines _ _ _ _ (Rrtype r) (add_to_set (filter (at_set n (Rrtype r)) (rz_rrs z)) (set_name r n) (Ttl r))); [done|done| | |].
        -- intros t'. rewrite set_insert. destruct (decide (t' = Rrtype r)) as [->|]; [|done]. rewrite <- H1 by done. done.
        -- by apply ref_add_plain.
        -- intros n' t'. exact (ref_add_sets _ _ _ (set_name r n) n' t' Hat).
      * rewrite decide_True; [by apply skip_refines|]. destruct (decide (Exists (at_set n TypeCNAME) (rz_rrs z))); [done|].
        exfalso. assert (false = true) by (by apply Hcn). done.
Qed.
Lemma any_refines st z u (r := u_rr u) (n := owner_of r) : refines st z → Class r = ClassANY →
  refines (update_any st n (rrs_at (s_rrs st) n) r) (ref_update (s_apex st) z u).
Proof.
  intros [H1 H2 H3 H4] Hc. unfold ref_update. fold r. fold n. rewrite (decide_False (P := Class r = ClassINET)) by (by rewrite Hc).
  rewrite (decide_True (P := Class r = ClassANY)) by done. unfold update_any.
  set (P := λ p : Z * list rr, ((Rrtype r =? TypeANY) || (p.1 =? Rrtype r)) && negb (bool_decide (n = s_apex st) && ((p.1 =? TypeSOA) || (p.1 =? TypeNS))) = false).
  assert (∀ t, set_at (filter P (rrs_at (s_rrs st) n)) t = if decide (P (t, [])) then rrset_at (s_rrs st) n t else []) as Hs.
  { intros t. unfold rrset_at, set_at. destruct (filter P (rrs_at (s_rrs st) n) !! t) as [l|] eqn:El.
    - apply map_lookup_filter_Some in El as [El HP]. rewrite decide_True by done. by rewrite El.
    - apply map_lookup_filter_None in El as [El|Hn]; [rewrite El; by destruct (decide _)|].
      destruct (rrs_at (s_rrs st) n !! t) as [l|] eqn:El; [|by destruct (decide _)]. rewrite decide_False; [done|]. exact (Hn l eq_refl). }
  split; simpl; [|by apply Forall_filter| |done].
  - intros n' t' Ht'. rewrite rrset_insert. destruct (decide (n' = n)) as [->|Hn].
    + rewrite Hs, H1, list_filter_filter by done.
      assert (∀ x, at_set n t' x → P (t', []) ↔
        ¬ (owner_of x = n ∧ (Rrtype r = TypeANY ∨ Rrtype x = Rrtype r) ∧ ¬ (n = s_apex st ∧ Rrtype x = TypeNS))) as HP.
      { intros x [= E1 E2]. unfold P. simpl. rewrite <- not_true_iff_false, andb_true_iff, orb_true_iff, negb_true_iff, <- not_true_iff_false,
          andb_true_iff, orb_true_iff, bool_decide_eq_true, !Z.eqb_eq. unfold owner_of. rewrite E1, E2. naive_solver. }
      destruct (decide (P (t', []))) as [Hp|Hp].
      * apply list_filter_iff. intros x. split; [|tauto]. intros Hx. split; [done|]. by apply HP.
      * symmetry. apply filter_nil_iff_elem. intros x _ [Hx Ha]. by apply Hp, (HP x).
    + rewrite H1, list_filter_filter by done. apply list_filter_iff. intros x. split; [|tauto]. intros Hx. split; [done|].
      intros (Ho & _). unfold at_set, rrset_name in Hx. injection Hx as E _. unfold owner_of in Ho. congruence.
  - intros n' Hn'. rewrite rrset_insert. destruct (decide (n' = n)) as [->|]; [|auto]. rewrite Hs, H3 by done. by destruct (decide _).
Qed.
Lemma none_refines st z u (r := u_rr u) (n := owner_of r) : refines st z → Class r = ClassNONE →
  refines (update_none st n (rrs_at (s_rrs st) n) r) (ref_update (s_apex st) z u).
Proof.
  intros Hrf Hc. unfold ref_update. fold r. fold n. rewrite (decide_False (P := Class r = ClassINET)) by (by rewrite Hc).
  rewrite (decide_False (P := Class r = ClassANY)) by (by rewrite Hc). unfold update_none.
  destruct (Z.eqb_spec (Rrtype r) TypeSOA) as [Et|Et]; [rewrite decide_False by (by intros [_ ?]); by apply skip_refines|].
  rewrite (decide_True (P := Class r = ClassNONE ∧ _)) by done. pose proof Hrf as [H1 H2 H3 H4].
  assert (set_at (rrs_at (s_rrs st) n) (Rrtype r) = filter (at_set n (Rrtype r)) (rz_rrs z)) as Es by (by rewrite <- H1). rewrite Es.
  set (t := Rrtype r) in *. set (r' := set_class r ClassINET).
  assert (∀ n' t', filter (at_set n' t') (replace_first (dup_in n t r') None (rz_rrs z)) =
    if decide ((n', t') = (n, t)) then (match dup_index (filter (at_set n t) (rz_rrs z)) r' with
      | Some i => delete i (filter (at_set n t) (rz_rrs z)) | None => filter (at_set n t) (rz_rrs z) end)
    else filter (at_set n' t') (rz_rrs z)) as Hrep.
  { intros n' t'. destruct (decide _) as [[= -> ->]|Hne]; [by rewrite filter_replace_in|].
    apply filter_replace_out; [|done]. intros x [Hx _]. unfold at_set in *. congruence. }
  assert (Forall (λ r, Rrtype r ≠ TypeSOA) (replace_first (dup_in n t r') None (rz_rrs z))) as Hpl.
  { rewrite Forall_forall in H2 |- *. intros x Hx%replace_first_sub. auto. }
  destruct (dup_index (filter (at_set n t) (rz_rrs z)) r') as [i|] eqn:Ed.
  - destruct (bool_decide (n = s_apex st) && (t =? TypeNS) && (length (filter (at_set n t) (rz_rrs z)) =? 1)%nat) eqn:Ec.
    + rewrite !andb_true_iff, bool_decide_eq_true, Z.eqb_eq, Nat.eqb_eq in Ec. destruct Ec as [[E1 E2] E3].
      rewrite decide_True by done. by apply skip_refines.
    + rewrite decide_False. 2:{ intros (E1 & E2 & E3). rewrite bool_decide_eq_true_2, E3 in Ec by done. by rewrite E2 in Ec. }
      eapply put_refines; [done|done| |done|exact Hrep]. intros t'. by rewrite set_insert.
  - destruct (decide _); [by apply skip_refines|]. destruct (skip_refines st z n Hrf) as [K1 K2 K3 K4].
    split; simpl; [|done|done|done]. intros n' t' Ht'. rewrite Hrep. destruct (decide _) as [[= -> ->]|]; by apply K1.
Qed.
Lemma update_one_refines st z u : refines st z → typed u →
  refines (update_one st u) (ref_update (s_apex st) z u) ∧ s_apex (update_one st u) = s_apex st.
Proof.
  intros Hrf Hty. unfold update_one. fold (owner_of (u_rr u)). split.
  - destruct (Z.eqb_spec (Class (u_rr u)) ClassINET) as [E|E1]; [by apply inet_refines|].
    destruct (Z.eqb_spec (Class (u_rr u)) ClassANY) as [E|E2]; [by apply any_refines|].
    destruct (Z.eqb_spec (Class (u_rr u)) ClassNONE) as [E|E3]; [by apply none_refines|].
    unfold ref_update. rewrite !decide_False by tauto. by apply skip_refines.
  - unfold update_inet, update_any, update_none. by repeat case_match.
Qed.
Lemma update_all_refines us st z : refines st z → Forall typed us →
  refines (update st us) (foldl (ref_update (s_apex st)) z us) ∧ s_apex (update st us) = s_apex st.
Proof.
  revert st z. induction us as [|u us IH]; intros st z Hr; simpl; [done|]. intros [Hu Hus]%Forall_cons.
  destruct (update_one_refines st z u Hr Hu) as [Hr' Ha]. unfold update in *. simpl. rewrite <- Ha in Hr' |- *. by apply IH.
Qed.

(** ** Loading *)
Definition non_soa (r : rr) : Prop := Rrtype r ≠ TypeSOA.
Lemma add_rr_sets m r n t :
  rrset_at (add_rr m r) n t = if decide (at_set n t r) then rrset_at m n t ++ [r] else rrset_at m n t.
Proof.
  unfold add_rr. rewrite rrset_insert. unfold at_set, rrset_name. destruct (decide (n = _)) as [->|Hn].
  - rewrite set_insert. destruct (decide (t = Rrtype r)) as [->|Ht]; [by rewrite decide_True|rewrite decide_False by congruence; done].
  - rewrite decide_False by congruence. done.
Qed.
Lemma load_refines recs st st' z : load_state st recs = Ok st' → Forall non_soa recs → refines st z →
  refines st' (mkRzone (rz_rrs z ++ recs) (rz_soa z) (rz_changed z)) ∧ s_apex st' = s_apex st.
Proof.
  revert st z. induction recs as [|r recs IH]; intros st z; simpl.
  { intros [= <-] _ Hr. rewrite app_nil_r. by destruct z. }
  destruct (recordKey r) as [k|]; [|done]. intros Hl [Hp Hps]%Forall_cons [H1 H2 H3 H4].
  apply (IH _ (mkRzone (rz_rrs z ++ [r]) (rz_soa z) (rz_changed z))) in Hl; [|done|].
  { simpl in Hl. by rewrite <- app_assoc in Hl. }
  split; simpl; [| |intros n Hn; rewrite add_rr_sets, H3 by done|done].
  - intros n t Ht. rewrite add_rr_sets, H1, filter_app by done. rewrite filter_cons, filter_nil. destruct (decide _); [done|by rewrite app_nil_r].
  - apply Forall_app_2; [done|]. by constructor.
  - rewrite decide_False; [done|]. intros E. unfold at_set, rrset_name in E. injection E as _ E. done.
Qed.
Lemma newState_refines i serial recs st : ToLower (CanonicalName (zi_name i)) = CanonicalName (zi_name i) →
  newState i serial recs = Ok st → Forall non_soa recs →
  refines st (mkRzone recs (upd_soaRR i serial) false) ∧ s_apex st = CanonicalName (zi_name i).
Proof.
  intros Hc Hl Hp. unfold newState in Hl. apply (load_refines _ _ _ (mkRzone [] (upd_soaRR i serial) false)) in Hl; [done|done|].
  assert (∀ n t, rrset_at (∅ : rrmap) n t = []) as He.
  { intros n t. unfold rrset_at, rrs_at, set_at. rewrite lookup_empty. simpl. by rewrite lookup_empty. }
  split; simpl; [|done| |done].
  - intros n t Ht. rewrite add_rr_sets, He, filter_nil, decide_False; [done|]. unfold at_set, rrset_name. simpl. congruence.
  - intros n Hn. rewrite add_rr_sets, He, decide_False; [done|]. unfold at_set, rrset_name. simpl. congruence.
Qed.

(** ** Reading the records off the maps *)
Lemma concat_map_filter {A} (P : rr → Prop) `{∀ x, Decision (P x)} (f : A → list rr) l :
  filter P (concat (map f l)) = concat (map (λ a, filter P (f a)) l).
Proof. induction l as [|a l IH]; simpl; [done|]. by rewrite filter_app, IH. Qed.
(** Of a list of disjoint groups, the group of one key. *)
Lemma concat_one {K V} `{Countable K} (m : gmap K V) (f : K * V → list rr) k :
  (∀ k' v, m !! k' = Some v → k' ≠ k → f (k', v) = []) →
  concat (map f (map_to_list m)) ≡ₚ match m !! k with Some v => f (k, v) | None => [] end.
Proof.
  intros Hf. assert (∀ m' : gmap K V, m' ⊆ m → m' !! k = None → concat (map f (map_to_list m')) = []) as Hn.
  { intros m' Hm Hk. assert (∀ p, p ∈ map_to_list m' → f p = []) as Ha.
    { intros [k' v] Hp%elem_of_map_to_list. apply Hf; [by eapply lookup_weaken|congruence]. }
    induction (map_to_list m') as [|p l IH]; [done|]. simpl. rewrite (Ha p) by left. apply IH. intros q Hq. apply Ha. by right. }
  destruct (m !! k) as [v|] eqn:Ek; [|by rewrite Hn].
  rewrite <- (insert_delete_id m k v Ek), map_to_list_insert by apply lookup_delete_eq.
  simpl. rewrite (Hn (delete k m)); [by rewrite app_nil_r|apply delete_subseteq|apply lookup_delete_eq].
Qed.
(** Every record is filed under its own owner and type. *)
Definition filed (m : rrmap) : Prop :=
  ∀ n types t l, m !! n = Some types → types !! t = Some l → t ≠ TypeSOA → Forall (at_set n t) l.
Lemma filed_set m n t : filed m → t ≠ TypeSOA → Forall (at_set n t) (rrset_at m n t).
Proof.
  intros Hf Ht. unfold rrset_at, rrs_at, set_at. destruct (m !! n) as [ty|] eqn:En; simpl; [|rewrite lookup_empty; constructor].
  destruct (ty !! t) as [l|] eqn:Et; [|constructor]. simpl. by eapply Hf.
Qed.
Lemma filter_flat m n t : filed m → t ≠ TypeSOA → filter (at_set n t) (flat m) ≡ₚ rrset_at m n t.
Proof.
  intros Hf Ht. unfold flat. rewrite concat_map_filter.
  assert (∀ n' types, m !! n' = Some types →
    filter (at_set n t) (concat (map (λ p, if p.1 =? TypeSOA then [] else p.2) (map_to_list types))) ≡ₚ
    if decide (n' = n) then set_at types t else []) as Hty.
  { intros n' types Hn'. rewrite concat_map_filter.
    rewrite (map_ext_in _ (λ p, if decide ((n', p.1) = (n, t)) then p.2 else [])).
    2:{ intros [t' l] Hin%list_elem_of_In%elem_of_map_to_list. simpl. destruct (Z.eqb_spec t' TypeSOA) as [->|Hs].
        { rewrite decide_False by congruence. done. }
        pose proof (Hf n' types t' l Hn' Hin Hs) as Hl. destruct (decide _) as [[= -> ->]|Hne].
        - by apply filter_all, Forall_forall.
        - apply filter_nil_iff_elem. intros x Hx E. rewrite Forall_forall in Hl. specialize (Hl x Hx). unfold at_set in *. congruence. }
    rewrite (concat_one types _ t).
    2:{ intros t' l _ Hn. simpl in *. rewrite decide_False by congruence. done. }
    unfold set_at. destruct (decide (n' = n)) as [->|]; destruct (types !! t); simpl; try done;
      [by rewrite decide_True|by rewrite decide_False by congruence]. }
  unfold rrset_at, rrs_at. rewrite (concat_one m (λ p, filter (at_set n t) _) n).
  - destruct (m !! n) as [types|] eqn:En; simpl; [|unfold set_at; by rewrite lookup_empty]. rewrite Hty by done. by rewrite decide_True.
  - intros n' types Hn' Hne. apply Permutation_nil_r. rewrite Hty by done. by rewrite decide_False.
Qed.
Lemma refines_flat st z : refines st z → flat (s_rrs st) ≡ₚ rz_rrs z.
Proof.
  intros [H1 H2 _ _]. assert (filed (s_rrs st)) as Hf.
  { intros n types t l Hn Hl Ht. pose proof (H1 n t Ht) as E. unfold rrset_at, rrs_at, set_at in E. rewrite Hn in E. simpl in E.
    rewrite Hl in E. simpl in E. rewrite E. apply Forall_forall. by intros x [? _]%list_elem_of_filter. }
  apply (filter_group_perm rrset_name). intros [n t]. destruct (decide (t = TypeSOA)) as [->|Ht].
  - rewrite (filter_nil_iff_elem _ (rz_rrs z)).
    2:{ intros x Hx E. rewrite Forall_forall in H2. apply (H2 x Hx). unfold rrset_name in E. congruence. }
    rewrite (filter_nil_iff_elem _ (flat (s_rrs st))); [done|]. intros x Hx E. unfold flat in Hx.
    apply list_elem_of_In, in_concat in Hx as (k & Hk & Hx). apply in_map_iff in Hk as ([n' types] & <- & Hn'%list_elem_of_In%elem_of_map_to_list).
    apply in_concat in Hx as (k & Hk & Hx%list_elem_of_In). apply in_map_iff in Hk as ([t' l] & <- & Hl%list_elem_of_In%elem_of_map_to_list).
    simpl in Hx. destruct (Z.eqb_spec t' TypeSOA) as [|Ht]; [by apply not_elem_of_nil in Hx|].
    pose proof (Hf n' types t' l Hn' Hl Ht) as Ha. rewrite Forall_forall in Ha. specialize (Ha x Hx). unfold at_set in Ha. congruence.
  - etrans; [exact (filter_flat _ n t Hf Ht)|]. by rewrite (H1 n t Ht).
Qed.


(** C33: Applying an update section to a zone's records does what RFC 2136, 3.4.2 says, record by
    record in the order of the message: the records the applier ends with are those of the reference
    on a plain list of records, and so are the SOA and whether it was replaced. *)
Theorem update_refines i serial recs st us : ToLower (CanonicalName (zi_name i)) = CanonicalName (zi_name i) →
  Forall non_soa recs → Forall typed us → newState i serial recs = Ok st →
  let z := foldl (ref_update (CanonicalName (zi_name i))) (mkRzone recs (upd_soaRR i serial) false) us in
  flat (s_rrs (update st us)) ≡ₚ rz_rrs z ∧ s_soa (update st us) = rz_soa z ∧ s_soaChanged (update st us) = rz_changed z.
Proof.
  intros Hc Hp Ht Hn. destruct (newState_refines _ _ _ _ Hc Hn Hp) as [Hr Ha].
  destruct (update_all_refines us _ _ Hr Ht) as [Hu _]. rewrite Ha in Hu. split; [by apply refines_flat|apply Hu].
Qed.
End refine.
