(* ===== verification/DynStored.v ===== *)
(** * A dynamic update is stored and served

    The composition of the update (DynUpdate), its difference to the stored records, the writes of
    the difference to the record rows and the rebuild (ZoneEdits): the rows end up holding exactly
    the records of RFC 2136's update of the zone, and the served version exactly the rows. *)

From S2P Require Import Prelude.
From S2P Require Import GoText.
From S2P Require Import NzfNames.
From S2P Require Import NzfFormat.
From S2P Require Import ZoneJournal.
From S2P Require Import ZoneServed.
From S2P Require Import ZoneRebuild.
From S2P Require Import XfrIn.
From S2P Require Import DnsLib.
From S2P Require Import ZoneRules.
From S2P Require Import ZoneRecords.
From S2P Require Import ZoneEdits.
From S2P Require Import DynUpdate.
From S2P Require Import DynRefine.

(** ** Keys as text *)
Lemma hexdigit_inj a b : 0 ≤ a < 16 → 0 ≤ b < 16 → hexdigit a = hexdigit b → a = b.
Proof. unfold hexdigit. intros ? ?. destruct (Z.ltb_spec a 10), (Z.ltb_spec b 10); lia. Qed.
Lemma byte_halves x : is_byte x → 0 ≤ Z.shiftr x 4 < 16 ∧ 0 ≤ Z.land x 15 < 16 ∧ x = Z.shiftr x 4 * 16 + Z.land x 15.
Proof.
  unfold is_byte. intros Hx. rewrite Z.shiftr_div_pow2 by lia. change 15 with (Z.ones 4). rewrite Z.land_ones by lia.
  change (2 ^ 4) with 16. Z.div_mod_to_equations. lia.
Qed.
Lemma hex_inj a b : Forall is_byte a → Forall is_byte b → hex_EncodeToString a = hex_EncodeToString b → a = b.
Proof.
  intros Ha. revert b. induction Ha as [|x a Hx Ha IH]; intros [|y b] Hb; try done. apply Forall_cons in Hb as [Hy Hb].
  unfold hex_EncodeToString. cbn [map concat app]. intros [= E1 E2 E3]. apply byte_halves in Hx as (? & ? & Ex), Hy as (? & ? & Ey).
  apply hexdigit_inj in E1, E2; [|lia..]. f_equal; [lia|]. by apply IH.
Qed.
Lemma hex_no_bar b : Forall is_byte b → 124 ∉ hex_EncodeToString b.
Proof.
  induction 1 as [|x b Hx Hb IH]; [by apply not_elem_of_nil|]. unfold hex_EncodeToString. cbn [map concat app].
  apply byte_halves in Hx as (H1 & H2 & _). rewrite !not_elem_of_cons. unfold hexdigit. split_and!; [..|exact IH];
    destruct (Z.ltb_spec (Z.shiftr x 4) 10), (Z.ltb_spec (Z.land x 15) 10); lia.
Qed.
Lemma FormatUint_no_bar n : is_u64 n → 124 ∉ FormatUint n.
Proof.
  intros Hn. pose proof (ParseUint_FormatUint n Hn) as Hp. unfold ParseUint in Hp. destruct (_ || _) eqn:Eb; [done|].
  apply orb_false_iff in Eb as [_ Eb%negb_false_iff]. rewrite forallb_forall in Eb. by intros Hin%list_elem_of_In%Eb.
Qed.
Lemma FormatUint_inj a b : is_u64 a → is_u64 b → FormatUint a = FormatUint b → a = b.
Proof. intros Ha Hb E. apply (f_equal (λ s, ParseUint s 64)) in E. rewrite !ParseUint_FormatUint in E by done. congruence. Qed.
(** The last bar splits a text in one way. *)
Lemma last_bar a b a' b' : 124 ∉ b → 124 ∉ b' → a ++ 124 :: b = a' ++ 124 :: b' → a = a' ∧ b = b'.
Proof.
  revert a'. induction a as [|x a IH]; intros [|y a'] Hb Hb' E; simpl in E.
  - by injection E as ->.
  - injection E as <- ->. destruct Hb. apply elem_of_app. right. left.
  - injection E as -> <-. destruct Hb'. apply elem_of_app. right. left.
  - injection E as <- E. apply IH in E as [-> ->]; done.
Qed.

Definition key_str (k : rec_key) : bytes := k.1.1 ++ [124] ++ FormatUint k.1.2 ++ [124] ++ hex_EncodeToString k.2.
Definition key_wf (k : rec_key) : Prop := is_u16 k.1.2 ∧ Forall is_byte k.2.
Lemma key_str_inj k k' : key_wf k → key_wf k' → key_str k = key_str k' → k = k'.
Proof.
  intros [Ht Hd] [Ht' Hd']. destruct k as [[n t] d], k' as [[n' t'] d']. unfold key_str. simpl in *. intros E.
  assert (is_u64 t ∧ is_u64 t') as [? ?] by (unfold is_u16, is_u64 in *; lia).
  rewrite !(app_comm_cons _ _ 124), !app_assoc in E. apply last_bar in E as [E ->%hex_inj]; [|auto using hex_no_bar..].
  apply last_bar in E as [-> ->%FormatUint_inj]; auto using FormatUint_no_bar.
Qed.

Section keys.
Context `{DnsLaws}.

Definition rr_key (r : rr) : option rec_key := w ← nzf_FromRR r; Some (ToLower (h_Name r), Rrtype r, RData w).
Lemma rr_key_wf r k : wf_rr r → rr_key r = Some k → key_wf k ∧ k.1 = rrset_name r ∧ ∃ d, rdata_of r = Some d ∧ k.2 = d ∧ is_Some (PackDomainName (h_Name r)).
Proof.
  intros Hwf. unfold rr_key. rewrite FromRR_spec by done. destruct (PackDomainName (h_Name r)) as [o|]; [|done].
  destruct (rdata_of r) as [d|] eqn:Ed; [|done]. intros [= <-]. simpl. split; [|by eauto]. split; [apply Hwf|by eapply rdata_bytes].
Qed.
Lemma recordKey_str r : wf_rr r → recordKey r = key_str <$> rr_key r.
Proof.
  intros Hwf. unfold recordKey, rr_key. rewrite FromRR_spec by done. destruct (PackDomainName (h_Name r)); [|done]. by destruct (rdata_of r).
Qed.
Lemma recordKey_rr_key a b k : wf_rr a → wf_rr b → recordKey a = Some k → recordKey b = Some k → rr_key a = rr_key b.
Proof.
  intros Ha Hb. rewrite !recordKey_str by done. destruct (rr_key a) as [ka|] eqn:Ea; [|done]. destruct (rr_key b) as [kb|] eqn:Eb; [|done].
  simpl. intros [= <-] [= E]. f_equal. symmetry. apply key_str_inj; [by eapply (rr_key_wf b)|by eapply (rr_key_wf a)|done].
Qed.

(** A row reads back as a record with its key. *)
Lemma row_rr_key r : row_ok r → ∃ x, row_rr r = Some x ∧ rr_key x = Some (row_key r) ∧ Ttl x = zr_ttl r ∧ wf_rr x ∧
  h_Name x = zr_owner r ∧ Rrtype x = zr_type r.
Proof.
  intros [Hp Ht _ Hl [o Ho] (r0 & E & Hd)]. unfold row_rr. rewrite Ho. simpl. rewrite <- E in Ht |- *.
  destruct (ToRR_back (zr_owner r) o r0 (zr_ttl r) (zr_wire r) Ho Hd Ht Hl) as (x & Hx & Hf & Hwf & E1 & _ & E3 & Hpr & Hpo).
  exists x. assert (h_Name x = zr_owner r) as En by by eapply printed_inj. split; [done|]. split; [|by split_and!].
  unfold rr_key, row_key. rewrite Hf. simpl. by rewrite En, E1, E.
Qed.

(** ** Writing the difference to the rows *)
Definition has (rows : zrows) (k : rec_key) (ttl : Z) : Prop := ∃ id r, rows !! id = Some r ∧ row_key r = k ∧ zr_ttl r = ttl.
Lemma is_soa_non_soa r : non_soa r → is_soa_type r = false.
Proof. unfold non_soa, is_soa_type. apply Z.eqb_neq. Qed.
Lemma rows_delete_spec rows r k rows' : non_soa r → rr_key r = Some k → rows_delete rows r = Ok rows' →
  rows' = filter (λ p, row_key p.2 ≠ k) rows.
Proof.
  intros Hp Hk. unfold rows_delete, rr_key in *. rewrite is_soa_non_soa by done. destruct (nzf_FromRR r) as [w|]; [|done].
  injection Hk as <-. by intros [= <-].
Qed.
Lemma filter_rows rows (P : rec_key → Prop) `{∀ k, Decision (P k)} (rows' := filter (λ p, P (row_key p.2)) rows) :
  (rows_ok rows → rows_ok rows') ∧ (rows_unique rows → rows_unique rows') ∧ ∀ k t, has rows' k t ↔ has rows k t ∧ P k.
Proof.
  split; [|split].
  - intros Hok id r [Hr _]%map_lookup_filter_Some. by eapply Hok.
  - intros Hu i j a b [Ha _]%map_lookup_filter_Some [Hb _]%map_lookup_filter_Some. by eapply Hu.
  - intros k t. split.
    + intros (id & r & [Hr HP]%map_lookup_filter_Some & <- & <-). split; [by exists id, r|done].
    + intros [(id & r & Hr & <- & <-) HP]. exists id, r. split; [|done]. by apply map_lookup_filter_Some.
Qed.
Lemma delete_all deleted rows rows' : Forall (λ r, non_soa r ∧ is_Some (rr_key r)) deleted →
  fold_res rows_delete rows deleted = Ok rows' →
  (rows_ok rows → rows_ok rows') ∧ (rows_unique rows → rows_unique rows') ∧
  ∀ k t, has rows' k t ↔ has rows k t ∧ ∀ r, r ∈ deleted → rr_key r ≠ Some k.
Proof.
  intros Hd. revert rows. induction Hd as [|r deleted [Hp [k Hk]] Hd IH]; intros rows; simpl.
  { intros [= <-]. split; [done|]. split; [done|]. intros k t. split; [|tauto]. intros Hh. split; [done|]. by intros r ?%not_elem_of_nil. }
  intros (rows1 & H1%(rows_delete_spec _ _ k) & (K1 & K2 & K3)%IH)%bind_Ok; [|done..]. subst rows1.
  destruct (filter_rows rows (λ k', k' ≠ k)) as (J1 & J2 & J3). split; [auto|]. split; [auto|].
  intros k' t. rewrite K3, J3. split.
  - intros [[Hh Hne] Ha]. split; [done|]. intros x [->|Hx]%elem_of_cons; [congruence|auto].
  - intros [Hh Ha]. split; [split; [done|]|intros x Hx; apply Ha; by right]. intros ->. by apply (Ha r); [left|].
Qed.
(** A record that can be a row. *)
Record storable (r : rr) : Prop := {
  st_wf : wf_rr r; st_printed : printed (h_Name r); st_managed : ManagedTypes (Rrtype r) = true; st_key : is_Some (rr_key r) }.
Lemma storable_non_soa r : storable r → non_soa r.
Proof. intros [_ _ Hm _] E. by rewrite E in Hm. Qed.
Lemma storable_row r w txt rev : storable r → nzf_FromRR r = Some w → row_ok (mkZrow (h_Name r) (Rrtype r) (Ttl r) txt (RData w) rev).
Proof.
  intros [Hwf Hpr Hm _] Hw. rewrite FromRR_spec in Hw by done. destruct (PackDomainName (h_Name r)) as [o|] eqn:Eo; [|done].
  destruct (rdata_of r) as [d|] eqn:Ed; [|done]. injection Hw as <-. split; simpl; [done|apply Hwf|done|apply Hwf|by rewrite Eo|by exists r].
Qed.
Lemma setTTL_has rows owner t ttl k l : has (rows_setRRsetTTL rows owner t ttl) k l ↔
  ∃ l0, has rows k l0 ∧ l = if decide (k.1 = (ToLower owner, t)) then ttl else l0.
Proof.
  split.
  - intros (id & r & (q & Hq & Ek & _ & Et)%setTTL_lookup & <- & <-). exists (zr_ttl q). split; [exists id, q; by rewrite Ek|].
    rewrite Ek, Et. change ((row_key q).1) with (row_pair q). case_bool_decide; case_decide; done.
  - intros (l0 & (id & q & Hq & <- & <-) & ->). destruct (rows_setRRsetTTL rows owner t ttl !! id) as [r|] eqn:Er.
    + exists id, r. split; [done|]. apply setTTL_lookup in Er as (q' & Hq' & Ek & _ & Et). assert (q' = q) as -> by congruence.
      split; [done|]. rewrite Et. change ((row_key q).1) with (row_pair q). case_bool_decide; case_decide; done.
    + unfold rows_setRRsetTTL in Er. rewrite lookup_fmap, Hq in Er. done.
Qed.
Lemma find_row_None rows k : find_row rows k = None → ∀ id r, rows !! id = Some r → row_key r ≠ k.
Proof.
  unfold find_row. destruct (list_find _ _) as [[i p]|] eqn:Ef; [done|]. intros _ id r Hr. apply list_find_None in Ef.
  rewrite Forall_forall in Ef. apply (Ef (id, r)). by apply elem_of_map_to_list.
Qed.
Lemma find_row_Some rows k id r : find_row rows k = Some (id, r) → rows !! id = Some r ∧ row_key r = k.
Proof.
  unfold find_row. destruct (list_find _ _) as [[i p]|] eqn:Ef; [|done]. intros [= ->]. apply list_find_Some in Ef as (Hi & Hk & _).
  by apply list_elem_of_lookup_2, elem_of_map_to_list in Hi.
Qed.
(** Putting one row for a key into rows that have none or that one. *)
Lemma put_row rows id row : rows_unique rows → (∀ j a, rows !! j = Some a → row_key a = row_key row → j = id) →
  (∀ old, rows !! id = Some old → row_key old = row_key row) →
  rows_unique (<[id := row]> rows) ∧
  ∀ k t, has (<[id := row]> rows) k t ↔ (k = row_key row ∧ t = zr_ttl row) ∨ (k ≠ row_key row ∧ has rows k t).
Proof.
  intros Hu Hk Hid. split.
  - intros i j a b [[<- <-]|[Hi Ha]]%lookup_insert_Some [[<- <-]|[Hj Hb]]%lookup_insert_Some E; [done|..|by eapply Hu].
    + symmetry. by eapply Hk.
    + by eapply Hk.
  - intros k t. split.
    + intros (j & a & [[<- <-]|[Hj Ha]]%lookup_insert_Some & <- & <-); [by left|]. right. split; [|by exists j, a].
      intros E. apply Hj. symmetry. by eapply Hk.
    + intros [[-> ->]|[Hn (j & a & Ha & <- & <-)]]; [exists id, row; by rewrite lookup_insert_eq|].
      exists j, a. rewrite lookup_insert_ne; [done|]. intros <-. by apply Hn, Hid.
Qed.
Lemma rows_add_spec new_id rows r k rows' : storable r → rr_key r = Some k → rows_ok rows → rows_unique rows →
  rows_add new_id rows r = Ok rows' → rows_ok rows' ∧ rows_unique rows' ∧
  ∀ k' t, has rows' k' t ↔ (k' = k ∧ t = Ttl r) ∨ (k' ≠ k ∧ ∃ t0, has rows k' t0 ∧ t = if decide (k'.1 = k.1) then Ttl r else t0).
Proof.
  intros Hst Hk Hok Hu. unfold rows_add. rewrite is_soa_non_soa by by apply storable_non_soa.
  unfold rr_key in Hk. destruct (nzf_FromRR r) as [w|] eqn:Ew; [|done]. simpl in Hk. injection Hk as <-.
  set (k := (ToLower (h_Name r), Rrtype r, RData w)). intros (mid & Hmid & [= <-])%bind_Ok.
  assert (rows_ok mid ∧ rows_unique mid ∧ ∀ k' t, has mid k' t ↔ (k' = k ∧ t = Ttl r) ∨ (k' ≠ k ∧ has rows k' t)) as (H1 & H2 & H3).
  { destruct (find_row rows k) as [[id old]|] eqn:Ef.
    - apply find_row_Some in Ef as [Hold Ek]. destruct (Z.eqb_spec (zr_ttl old) (Ttl r)) as [E|E]; injection Hmid as <-.
      + split; [done|]. split; [done|]. intros k' t. destruct (decide (k' = k)) as [->|]; [|tauto]. split.
        * intros (j & a & Ha & Eka & <-). left. split; [done|].
          assert (j = id) as -> by (eapply Hu; [done..|congruence]). congruence.
        * intros [[_ ->]|[? _]]; [|done]. by exists id, old.
      + destruct (put_row rows id (set_row_ttl old (Ttl r))) as [Hu' Hh]; [done| | |].
        { intros j a Ha Eka. eapply Hu; [done..|]. exact Eka. }
        { intros old' Ho. by assert (old' = old) as -> by congruence. }
        split; [|split; [done|]; intros k' t; rewrite Hh; change (row_key (set_row_ttl old (Ttl r))) with (row_key old); by rewrite Ek].
        apply insert_ok; [done|]. destruct (Hok _ _ Hold). split; try done. apply Hst.
    - destruct (bool_decide _) eqn:Eb; [done|]. injection Hmid as <-. apply bool_decide_eq_false, dec_stable in Eb.
      pose proof (find_row_None _ _ Ef) as Hno. destruct (put_row rows (new_id rows) (mkZrow (h_Name r) (Rrtype r) (Ttl r) (RDataText r) (RData w) 1)) as [Hu' Hh];
        [done|intros j a Ha E; by destruct (Hno _ _ Ha)|intros old Ho; congruence|].
      split; [|by split]. apply insert_ok; [done|]. by apply storable_row. }
  split; [apply setTTL_ok; [done|apply Hst]|]. split; [by apply setTTL_unique|].
  intros k' t. rewrite setTTL_has. change (ToLower (h_Name r), Rrtype r) with k.1. split.
  - intros (l0 & [[-> ->]|[Hn Hh]]%H3 & ->); [left; by destruct (decide _)|right; eauto].
  - intros [[-> ->]|[Hn (l0 & Hh & ->)]]; [exists (Ttl r); rewrite decide_True by done; rewrite H3; by auto|].
    exists l0. rewrite H3. auto.
Qed.
(** Adding records towards a target that has one TTL per added RRset. *)
Lemma add_all new_id (target : rec_key → Z → Prop) added rows rows' :
  (∀ k t t', target k t → target k t' → t = t') →
  Forall (λ x, storable x ∧ ∃ k, rr_key x = Some k ∧ target k (Ttl x) ∧ ∀ k' t', k'.1 = k.1 → target k' t' → t' = Ttl x) added →
  rows_ok rows → rows_unique rows →
  (∀ k t, has rows k t → ∃ t', target k t' ∧ (t = t' ∨ ∃ x, x ∈ added ∧ rrset_name x = k.1)) →
  (∀ k t', target k t' → (∃ t, has rows k t) ∨ ∃ x, x ∈ added ∧ rr_key x = Some k) →
  fold_res (rows_add new_id) rows added = Ok rows' →
  rows_ok rows' ∧ rows_unique rows' ∧ ∀ k t, has rows' k t ↔ target k t.
Proof.
  intros Hfun Hadd. revert rows. induction Hadd as [|x added (Hst & k & Hk & Htx & Hset) Hadd IH]; intros rows Hok Hu H1 H2; simpl.
  { intros [= <-]. split; [done|]. split; [done|]. intros k t. split.
    - intros (t' & Ht & [->|(x & ?%not_elem_of_nil & _)])%H1; done.
    - intros Ht. destruct (H2 _ _ Ht) as [(t0 & Hh)|(x & ?%not_elem_of_nil & _)]; [|done].
      destruct (H1 _ _ Hh) as (t' & Ht' & [->|(x & ?%not_elem_of_nil & _)]); [|done]. by rewrite (Hfun _ _ _ Ht Ht'). }
  intros (mid & Hmid & Hrest)%bind_Ok. destruct (rows_add_spec _ _ _ _ _ Hst Hk Hok Hu Hmid) as (Hok' & Hu' & Hh).
  assert (rrset_name x = k.1) as Hkx by (symmetry; by eapply rr_key_wf; [apply Hst|]).
  apply (IH mid); [done|done| | |done].
  - intros k' t [[-> ->]|[Hn (t0 & Hh0 & ->)]]%Hh; [eauto|]. destruct (H1 _ _ Hh0) as (t' & Ht' & Hor). exists t'. split; [done|].
    destruct (decide (k'.1 = k.1)) as [E|E]; [left; symmetry; by eapply Hset|].
    destruct Hor as [->|(y & [->|Hy]%elem_of_cons & Ey)]; [by left|congruence|right; eauto].
  - intros k' t' Ht'. destruct (decide (k' = k)) as [->|Hn]; [left; exists (Ttl x); apply Hh; by left|].
    destruct (H2 _ _ Ht') as [(t0 & Hh0)|(y & [->|Hy]%elem_of_cons & Ey)]; [left|congruence|right; eauto].
    eexists. apply Hh. right. split; [done|]. eauto.
Qed.

(** ** What an update makes of the records *)
Lemma replace_first_elem (P : rr → Prop) `{∀ x, Decision (P x)} f l x : x ∈ replace_first P f l → x ∈ l ∨ f = Some x.
Proof.
  induction l as [|y l IH]; simpl; [by intros ?%not_elem_of_nil|]. destruct (decide (P y)).
  - destruct f as [r|]; [intros [->|?]%elem_of_cons|]; [by right|left; by right..].
  - intros [->|[?|?]%IH]%elem_of_cons; [left; left|left; by right|by right].
Qed.
Lemma ref_add_elem zone n t r x : at_set n t r → x ∈ ref_add zone n t r →
  (at_set n t x ∧ ∃ y, (y ∈ zone ∨ y = r) ∧ x = set_ttl y (Ttl r)) ∨ (¬ at_set n t x ∧ x ∈ zone).
Proof.
  intros Hr (y & -> & Hy)%list_elem_of_fmap. assert (y ∈ zone ∨ y = r) as Hy'.
  { destruct (decide _); [apply replace_first_elem in Hy as [?|[= ->]]; auto|]. apply elem_of_app in Hy as [?| ->%list_elem_of_singleton]; auto. }
  destruct (decide (at_set n t y)) as [Ha|Ha]; [left; split; [done|eauto]|]. right. split; [done|]. destruct Hy' as [?| ->]; done.
Qed.
(** An update drops records, or adds one to some of the records. *)
Lemma ref_update_cases apex z u (r := u_rr u) (n := owner_of r) (z' := ref_update apex z u) :
  (∀ x, x ∈ rz_rrs z' → x ∈ rz_rrs z) ∨
  (Class r = ClassINET ∧ asSOA r = None ∧ ∃ zone, (∀ x, x ∈ zone → x ∈ rz_rrs z) ∧ rz_rrs z' = ref_add zone n (Rrtype r) (set_name r n)).
Proof.
  unfold z', ref_update. fold r. fold n. destruct (decide (Class r = ClassINET)) as [Hc|Hc].
  - destruct (asSOA r) as [s|]; [left; by destruct (decide _)|].
    destruct (decide (Rrtype r = TypeCNAME)); (destruct (decide _); [by left|]); right; (split; [done|]; split; [done|]); eexists; (split; [|done]).
    + by intros x [_ ?]%list_elem_of_filter.
    + done.
  - left. destruct (decide _); [by intros x [_ ?]%list_elem_of_filter|]. destruct (decide _); [|done]. destruct (decide _); [done|].
    intros x. apply replace_first_sub.
Qed.
(** Each RRset is a part of what it was, or has one TTL. *)
Definition settled (recs zone : list rr) : Prop :=
  ∀ n t, (∀ x, x ∈ zone → at_set n t x → x ∈ recs) ∨ (∃ ttl, ∀ x, x ∈ zone → at_set n t x → Ttl x = ttl).
Lemma set_name_at r : at_set (owner_of r) (Rrtype r) (set_name r (owner_of r)).
Proof. unfold at_set, rrset_name. simpl. f_equal. apply ToLower_idem. Qed.
Lemma update_settled apex us recs z : settled recs (rz_rrs z) → settled recs (rz_rrs (foldl (ref_update apex) z us)).
Proof.
  revert z. induction us as [|u us IH]; intros z Hz; [done|]. simpl. apply IH. intros n t.
  destruct (ref_update_cases apex z u) as [Hsub|(_ & _ & zone & Hsub & ->)].
  - destruct (Hz n t) as [Hl|[ttl Hl]]; [left|right; exists ttl]; intros x Hx; apply Hl; auto.
  - set (r := u_rr u) in *. destruct (decide ((n, t) = (owner_of r, Rrtype r))) as [[= -> ->]|Hne].
    + right. exists (Ttl r). intros x Hx Ha. apply ref_add_elem in Hx as [(_ & y & _ & ->)|[? _]]; [done|done|apply set_name_at].
    + assert (∀ x, x ∈ ref_add zone (owner_of r) (Rrtype r) (set_name r (owner_of r)) → at_set n t x → x ∈ rz_rrs z) as Hs.
      { intros x Hx Ha. apply ref_add_elem in Hx as [(Ha' & _)|[_ ?]]; [|auto|apply set_name_at]. unfold at_set in *. congruence. }
      destruct (Hz n t) as [Hl|[ttl Hl]]; [left|right; exists ttl]; intros x Hx Ha; apply Hl; auto.
Qed.
Lemma update_Forall (P : rr → Prop) apex us z :
  (∀ x y, P x → P y → P (set_ttl x (Ttl y))) →
  Forall (λ u, Class (u_rr u) = ClassINET → asSOA (u_rr u) = None → P (set_name (u_rr u) (owner_of (u_rr u)))) us →
  Forall P (rz_rrs z) → Forall P (rz_rrs (foldl (ref_update apex) z us)).
Proof.
  intros HP Hus. revert z. induction Hus as [|u us Hu Hus IH]; intros z Hz; [done|]. simpl. apply IH.
  rewrite Forall_forall in Hz |- *. intros x Hx.
  destruct (ref_update_cases apex z u) as [Hsub|(Hc & Ha & zone & Hsub & E)]; [auto|]. rewrite E in Hx.
  pose proof (Hu Hc Ha) as Hr. apply ref_add_elem in Hx as [(_ & y & Hy & ->)|[_ ?]]; [|auto|apply set_name_at].
  apply HP; [|done]. destruct Hy as [?| ->]; auto.
Qed.

(** ** The difference *)
Definition distinct_keys (recs : list rr) : Prop := ∀ a b k, a ∈ recs → b ∈ recs → recordKey a = Some k → recordKey b = Some k → a = b.
Lemma load_original recs st st' : load_state st recs = Ok st' → distinct_keys recs → s_original st = ∅ →
  ∀ k x, s_original st' !! k = Some x ↔ x ∈ recs ∧ recordKey x = Some k.
Proof.
  assert (∀ recs st st' seen, load_state st recs = Ok st' → distinct_keys (seen ++ recs) →
    (∀ k x, s_original st !! k = Some x ↔ x ∈ seen ∧ recordKey x = Some k) →
    ∀ k x, s_original st' !! k = Some x ↔ x ∈ seen ++ recs ∧ recordKey x = Some k) as Hgen.
  { clear. induction recs as [|r recs IH]; intros st st' seen; simpl.
    { intros [= <-] _ Hs. by rewrite app_nil_r. }
    destruct (recordKey r) as [k|] eqn:Ek; [|done]. intros Hl Hd Hs. rewrite (cons_middle r), app_assoc in Hd |- *.
    eapply IH; [exact Hl|done|]. simpl. intros k' x. rewrite lookup_insert_Some, Hs, elem_of_app, list_elem_of_singleton.
    assert (∀ y, y ∈ seen → y ∈ (seen ++ [r]) ++ recs) as Hin by (intros; rewrite !elem_of_app; auto).
    assert (r ∈ (seen ++ [r]) ++ recs) as Hr by (rewrite !elem_of_app, list_elem_of_singleton; auto). split.
    - intros [[-> ->]|[Hne [? ?]]]; auto.
    - intros [[Hx| ->] Hk]; [|left; split; congruence]. destruct (decide (k = k')) as [->|]; [left|auto]. split; [done|].
      by eapply Hd; [exact Hr|by apply Hin|..]. }
  intros Hl Hd He. apply (Hgen recs st st' []); [done|done|]. intros k x. rewrite He, lookup_empty. split; [done|]. by intros [?%not_elem_of_nil _].
Qed.
Definition changed (st : state) (x : rr) : Prop :=
  ∀ k old, recordKey x = Some k → s_original st !! k = Some old → Ttl old ≠ Ttl x.
Lemma changes_loop_spec st rrs final added final' added' : changes_loop st final added rrs = Ok (final', added') →
  (∀ x, x ∈ rrs → is_Some (recordKey x)) ∧
  (∀ k, k ∈ final' ↔ k ∈ final ∨ ∃ x, x ∈ rrs ∧ recordKey x = Some k) ∧
  (∀ x, x ∈ added' ↔ x ∈ added ∨ (x ∈ rrs ∧ changed st x)).
Proof.
  revert final added. induction rrs as [|r rrs IH]; intros final added; simpl.
  { intros [= <- <-]. split; [by intros x ?%not_elem_of_nil|].
    split; intros ?; (split; [by left|]); [intros [?|(x & ?%not_elem_of_nil & _)]|intros [?|[?%not_elem_of_nil _]]]; done. }
  destruct (recordKey r) as [k|] eqn:Ek; [|done]. set (ch := match s_original st !! k with Some old => _ | None => _ end).
  assert (ch = true ↔ changed st r) as Hch.
  { unfold ch, changed. rewrite Ek. destruct (s_original st !! k) as [old|] eqn:Eo.
    - rewrite negb_true_iff, Z.eqb_neq. split; [intros Hn ? ? [= <-]; rewrite Eo; congruence|eauto].
    - split; [|done]. intros _ ? ? [= <-]. congruence. }
  intros (H1 & H2 & H3)%IH. split; [intros x [->|?]%elem_of_cons; eauto|]. split.
  - intros k'. rewrite H2, elem_of_union, elem_of_singleton. split.
    + intros [[->|?]|(x & Hx & E)]; [right; exists r; split; [left|done]|by left|right; exists x; split; [by right|done]].
    + intros [?|(x & [->|Hx]%elem_of_cons & E)]; [auto|left; left; congruence|eauto].
  - intros x. rewrite H3. setoid_rewrite elem_of_cons. destruct ch.
    + rewrite elem_of_app, list_elem_of_singleton. split; [intros [[?| ->]|?]; [auto|right; split; [auto|by apply Hch]|tauto]|tauto].
    + split; [tauto|]. intros [?|[[->|?] Hc]]; [auto| |auto]. by apply Hch in Hc.
Qed.
Lemma changes_spec shuffle st deleted added (F := records shuffle st) : (∀ l, shuffle l ≡ₚ l) →
  changes shuffle st = Ok (deleted, added) →
  (∀ x, x ∈ F → is_Some (recordKey x)) ∧ (∀ x, x ∈ added ↔ x ∈ F ∧ changed st x) ∧
  (∀ x, x ∈ deleted ↔ ∃ k, s_original st !! k = Some x ∧ ∀ y, y ∈ F → recordKey y ≠ Some k).
Proof.
  intros Hsh ([final added'] & (H1 & H2 & H3)%changes_loop_spec & [= <- <-])%bind_Ok. split; [done|]. split.
  - intros x. rewrite H3. split; [intros [?%not_elem_of_nil|?]; done|by right].
  - intros x. rewrite (Hsh _), list_elem_of_fmap. split.
    + intros ([k y] & -> & [Hk Hin%elem_of_map_to_list]%list_elem_of_filter). exists k. split; [done|].
      intros y' Hy' E. apply Hk, H2. right. by exists y'.
    + intros (k & Ho & Hn). exists (k, x). split; [done|]. apply list_elem_of_filter. split; [|by apply elem_of_map_to_list].
      intros [?%not_elem_of_empty|(y & Hy & E)]%H2; [done|]. by apply (Hn y).
Qed.
Lemma update_original us st : s_original (update st us) = s_original st.
Proof.
  revert st. induction us as [|u us IH]; intros st; [done|]. unfold update in *. simpl. rewrite IH.
  unfold update_one, update_inet, update_any, update_none. by repeat case_match.
Qed.

(** The records read from the rows. *)
Definition base (r : rr) : Prop := wf_rr r ∧ printed (h_Name r) ∧ ManagedTypes (Rrtype r) = true.
Lemma base_non_soa r : base r → non_soa r.
Proof. intros (_ & _ & Hm) E. by rewrite E in Hm. Qed.
Lemma load_rows rows recs : rows_ok rows → rows_unique rows → loadRecordRRs rows = Ok recs →
  Forall base recs ∧ distinct_keys recs ∧ ∀ k t, has rows k t ↔ ∃ x, x ∈ recs ∧ rr_key x = Some k ∧ Ttl x = t.
Proof.
  intros Hok Hu. unfold loadRecordRRs, queryRRs. destruct (mapM _ _) as [l|] eqn:Em; [|done]. intros [= <-]. apply mapM_Some in Em.
  assert (∀ id r, (id, r) ∈ filter (λ p, true = true) (map_to_list rows) ↔ rows !! id = Some r) as Hf.
  { intros id r. rewrite list_elem_of_filter, elem_of_map_to_list. tauto. }
  assert (∀ x, x ∈ l → ∃ id r, rows !! id = Some r ∧ row_rr r = Some x) as Hto.
  { intros x (i & Hi)%list_elem_of_lookup. destruct (Forall2_lookup_r _ _ _ _ _ Em Hi) as ([id r] & Hr & Hx).
    apply list_elem_of_lookup_2, Hf in Hr. by exists id, r. }
  assert (∀ id r, rows !! id = Some r → ∃ x, x ∈ l ∧ row_rr r = Some x) as Hfrom.
  { intros id r Hr%Hf. apply list_elem_of_lookup in Hr as [i Hi]. destruct (Forall2_lookup_l _ _ _ _ _ Em Hi) as (x & Hx & Hrx).
    exists x. split; [by eapply list_elem_of_lookup_2|done]. }
  split; [|split].
  - apply Forall_forall. intros x (id & r & Hr & Hx)%Hto. destruct (row_rr_key r (Hok _ _ Hr)) as (x' & Hx' & _ & _ & Hwf & En & Et).
    assert (x' = x) as -> by congruence. split; [done|]. rewrite En, Et. destruct (Hok _ _ Hr). done.
  - intros a b k (i & ra & Hra & Ha)%Hto (j & rb & Hrb & Hb)%Hto Eka Ekb.
    destruct (row_rr_key ra (Hok _ _ Hra)) as (a' & Ha' & Ka & _ & Wa & _), (row_rr_key rb (Hok _ _ Hrb)) as (b' & Hb' & Kb & _ & Wb & _).
    assert (a' = a) as -> by congruence. assert (b' = b) as -> by congruence.
    pose proof (recordKey_rr_key a b k Wa Wb Eka Ekb) as E.
    assert (row_key ra = row_key rb) as Ek by congruence. assert (i = j) as <- by by eapply Hu. congruence.
  - intros k t. split.
    + intros (id & r & Hr & <- & <-). destruct (Hfrom _ _ Hr) as (x & Hx & Hrx). exists x. split; [done|].
      destruct (row_rr_key r (Hok _ _ Hr)) as (x' & Hx' & K & Et & _). by assert (x' = x) as -> by congruence.
    + intros (x & (id & r & Hr & Hrx)%Hto & Hk & <-). exists id, r. split; [done|].
      destruct (row_rr_key r (Hok _ _ Hr)) as (x' & Hx' & K & Et & _). assert (x' = x) as -> by congruence. split; congruence.
Qed.

(** ** The rows after an update *)

(** A record of an unpacked message. *)
Record from_wire (u : urr) : Prop := {
  fw_wf : wf_rr (u_rr u); fw_name : printed (ToLower (h_Name (u_rr u))); fw_typed : typed u;
  fw_serial : ∀ s, asSOA (u_rr u) = Some s → is_u32 (s_Serial s) }.
Lemma prescan_elem st us u : prescan st us = Ok tt → u ∈ us → prescan_one st u = Ok tt.
Proof.
  induction us as [|v us IH]; [by intros _ ?%not_elem_of_nil|]. simpl. intros ([] & Hv & Hus)%bind_Ok [->|?]%elem_of_cons; auto.
Qed.
Lemma prescan_managed st us u : prescan st us = Ok tt → u ∈ us → typed u → Class (u_rr u) = ClassINET → asSOA (u_rr u) = None →
  ManagedTypes (Rrtype (u_rr u)) = true.
Proof.
  intros Hp Hu Hty Hc Ha. pose proof (prescan_elem _ _ _ Hp Hu) as H1. unfold prescan_one in H1. rewrite Hc in H1.
  destruct (negb _) in H1; [done|]. simpl in H1. destruct (isMeta _); [done|]. unfold prescan_tail, updatable in H1.
  destruct (Z.eqb_spec (Rrtype (u_rr u)) TypeSOA) as [E|]; [by apply Hty in E|]. simpl in H1. by destruct (ManagedTypes _).
Qed.
Lemma updated_base apex st us recs soa c : prescan st us = Ok tt → Forall from_wire us → Forall base recs →
  Forall base (rz_rrs (foldl (ref_update apex) (mkRzone recs soa c) us)).
Proof.
  intros Hp Hus Hrecs. apply update_Forall; [| |done].
  - intros x y ((? & ? & ?) & ? & ?) ((_ & _ & ?) & _). by split.
  - rewrite Forall_forall in Hus |- *. intros u Hu Hc Ha. destruct (Hus u Hu) as [(? & ? & ?) Hn Hty _].
    split; [by split_and!|]. split; [done|]. by eapply prescan_managed.
Qed.

(** Deleting and adding the difference between [recs] and [zone] takes rows from the one to the other. *)
Section difference.
Context (recs zone added deleted : list rr).
Context (Hbase : Forall base recs) (Hdist : distinct_keys recs) (Hzone : Forall base zone).
Context (Hkeys : ∀ x, x ∈ zone → is_Some (recordKey x)) (Hset : settled recs zone).
Context (Hadded : ∀ x, x ∈ added ↔ x ∈ zone ∧
  ∀ k old, recordKey x = Some k → old ∈ recs ∧ recordKey old = Some k → Ttl old ≠ Ttl x).
Context (Hdeleted : ∀ x, x ∈ deleted ↔ ∃ k, (x ∈ recs ∧ recordKey x = Some k) ∧ ∀ y, y ∈ zone → recordKey y ≠ Some k).

Definition target (k : rec_key) (t : Z) : Prop := ∃ x, x ∈ zone ∧ rr_key x = Some k ∧ Ttl x = t.
Lemma base_key x k : base x → recordKey x = Some k → ∃ k', rr_key x = Some k' ∧ k = key_str k'.
Proof. intros (Hwf & _) E. rewrite recordKey_str in E by done. destruct (rr_key x) as [k'|]; [|done]. injection E as <-. eauto. Qed.
Lemma same_key x y : base x → base y → rr_key x = rr_key y → recordKey x = recordKey y.
Proof. intros (Hx & _) (Hy & _) E. rewrite !recordKey_str by done. by rewrite E. Qed.
Lemma key_set x k : base x → rr_key x = Some k → at_set k.1.1 k.1.2 x.
Proof. intros (Hx & _) Hk. unfold at_set. rewrite <- surjective_pairing. symmetry. by eapply rr_key_wf. Qed.
Lemma zone_key x : x ∈ zone → ∃ k, rr_key x = Some k.
Proof.
  intros Hx. destruct (Hkeys x Hx) as [k Hk]. rewrite Forall_forall in Hzone. destruct (base_key x k (Hzone x Hx) Hk) as (k' & ? & _). eauto.
Qed.
Lemma target_fun k t t' : target k t → target k t' → t = t'.
Proof.
  intros (x & Hx & Kx & <-) (y & Hy & Ky & <-). rewrite Forall_forall in Hzone.
  pose proof (key_set x k (Hzone x Hx) Kx) as Ax. pose proof (key_set y k (Hzone y Hy) Ky) as Ay.
  destruct (Hset k.1.1 k.1.2) as [Hl|[ttl Hl]]; [|by rewrite (Hl x), (Hl y)]. destruct (Hkeys x Hx) as [s Hs]. f_equal.
  apply (Hdist x y s); [auto..|done|]. rewrite <- Hs. symmetry. apply same_key; [auto..|congruence].
Qed.
Lemma added_ok x : x ∈ added → storable x ∧
  ∃ k, rr_key x = Some k ∧ target k (Ttl x) ∧ ∀ k' t', k'.1 = k.1 → target k' t' → t' = Ttl x.
Proof.
  intros [Hx Hc]%Hadded. pose proof Hzone as Hz. rewrite Forall_forall in Hz. destruct (zone_key x Hx) as [k Hk].
  destruct (Hz x Hx) as (Hwf & Hp & Hm). split; [by split|]. exists k. split; [done|]. split; [by exists x|].
  intros k' t' E (y & Hy & Ky & <-). pose proof (key_set x k (Hz x Hx) Hk) as Ax. pose proof (key_set y k' (Hz y Hy) Ky) as Ay. rewrite E in Ay.
  destruct (Hset k.1.1 k.1.2) as [Hl|[ttl Hl]]; [|by rewrite (Hl x), (Hl y)]. destruct (Hkeys x Hx) as [s Hs].
  exfalso. apply (Hc s x); auto.
Qed.
Lemma deleted_ok x : x ∈ deleted → non_soa x ∧ is_Some (rr_key x).
Proof.
  intros (k & [Hx Hk] & _)%Hdeleted. rewrite Forall_forall in Hbase. split; [by apply base_non_soa, Hbase|].
  destruct (base_key x k (Hbase x Hx) Hk) as (? & ? & _). eauto.
Qed.
Lemma kept old k : old ∈ recs → rr_key old = Some k →
  (∀ r, r ∈ deleted → rr_key r ≠ Some k) ↔ ∃ y, y ∈ zone ∧ rr_key y = Some k.
Proof.
  intros Ho Hk. pose proof Hbase as Hb. pose proof Hzone as Hz. rewrite Forall_forall in Hb, Hz.
  assert (recordKey old = Some (key_str k)) as Hs by (rewrite recordKey_str by apply (Hb old Ho); by rewrite Hk). split.
  - intros Hd. destruct (decide (Exists (λ y, recordKey y = Some (key_str k)) zone)) as [He|He].
    + apply Exists_exists in He as (y & Hy & Ey). exists y. split; [done|]. rewrite <- Hk.
      eapply recordKey_rr_key; [apply (Hz y Hy)|apply (Hb old Ho)|done..].
    + exfalso. apply (Hd old); [|done]. apply Hdeleted. exists (key_str k). split; [done|]. intros y Hy E. apply He, Exists_exists. eauto.
  - intros (y & Hy & Ey) r Hr Kr. apply Hdeleted in Hr as (s & [Hr Hrs] & Hn). apply (Hn y Hy). rewrite <- Hrs. apply same_key; [auto..|congruence].
Qed.
Lemma write_difference new_id rows rows' : rows_ok rows → rows_unique rows →
  (∀ k t, has rows k t ↔ ∃ x, x ∈ recs ∧ rr_key x = Some k ∧ Ttl x = t) →
  rows_ApplyRecordChanges new_id rows deleted added = Ok rows' →
  rows_ok rows' ∧ rows_unique rows' ∧ ∀ k t, has rows' k t ↔ target k t.
Proof.
  intros Hok Hu Hrows (mid & Hdel & Hadd)%bind_Ok. pose proof Hbase as Hb. pose proof Hzone as Hz. rewrite Forall_forall in Hb, Hz.
  destruct (delete_all deleted rows mid) as (Hok1 & Hu1 & Hmid); [apply Forall_forall, deleted_ok|done|].
  apply (add_all new_id target added mid rows'); [apply target_fun|apply Forall_forall, added_ok|auto..| | |done].
  - intros k t [(x & Hx & Kx & <-)%Hrows Hn]%Hmid. rewrite (kept x k Hx Kx) in Hn. destruct Hn as (y & Hy & Ky).
    exists (Ttl y). split; [by exists y|]. destruct (decide (Ttl x = Ttl y)) as [|Hne]; [by left|right]. exists y.
    split; [|symmetry; by eapply rr_key_wf; [apply (Hz y Hy)|]]. apply Hadded. split; [done|]. intros s old Hs [Ho Hos] E. apply Hne. rewrite <- E. f_equal.
    apply (Hdist x old s); [done..| |done]. rewrite <- Hs. apply same_key; [auto..|congruence].
  - intros k t (x & Hx & Kx & <-). destruct (decide (Exists (λ old, recordKey old = recordKey x ∧ Ttl old = Ttl x) recs)) as [He|He].
    + left. apply Exists_exists in He as (old & Ho & Ek & _). destruct (Hkeys x Hx) as [s Hs].
      assert (rr_key old = Some k) as Ko by (rewrite <- Kx; apply (recordKey_rr_key old x s); [apply (Hb old Ho)|apply (Hz x Hx)|congruence|done]).
      exists (Ttl old). apply Hmid. split; [apply Hrows; eauto|]. apply (kept old k Ho Ko). eauto.
    + right. exists x. split; [|done]. apply Hadded. split; [done|]. intros s old Hs [Ho Hos] E. apply He, Exists_exists. exists old.
      split; [done|]. split; [congruence|done].
Qed.
End difference.

(** The rows after an update hold the keys and TTLs of the reference. *)
Lemma rows_updated shuffle new_id i serial rows rows' recs st us deleted added : (∀ l, shuffle l ≡ₚ l) →
  rows_ok rows → rows_unique rows → Forall from_wire us →
  loadRecordRRs rows = Ok recs → newState i serial recs = Ok st → prescan st us = Ok tt →
  changes shuffle (update st us) = Ok (deleted, added) →
  rows_ApplyRecordChanges new_id rows deleted added = Ok rows' →
  let z := foldl (ref_update (CanonicalName (zi_name i))) (mkRzone recs (upd_soaRR i serial) false) us in
  rows_ok rows' ∧ rows_unique rows' ∧ (records shuffle (update st us) ≡ₚ rz_rrs z ∧ Forall (λ x, is_Some (rr_key x)) (rz_rrs z)) ∧
  ∀ k t, has rows' k t ↔ ∃ x, x ∈ rz_rrs z ∧ rr_key x = Some k ∧ Ttl x = t.
Proof.
  intros Hsh Hok Hu Hus Hload Hnew Hpre Hch Happ z.
  destruct (load_rows _ _ Hok Hu Hload) as (Hbase & Hdist & Hrows).
  assert (Forall non_soa recs) as Hpl by (eapply Forall_impl; [exact Hbase|apply base_non_soa]).
  assert (Forall typed us) as Hty by (eapply Forall_impl; [exact Hus|by intros ? []]).
  destruct (newState_refines _ _ _ _ (canonical_lower _) Hnew Hpl) as [Hr Ha].
  destruct (update_all_refines us _ _ Hr Hty) as [Hup _]. rewrite Ha in Hup. fold z in Hup. apply refines_flat in Hup.
  assert (records shuffle (update st us) ≡ₚ rz_rrs z) as HF by (unfold records; by rewrite Hsh).
  destruct (changes_spec _ _ _ _ Hsh Hch) as (HkF & Hadded & Hdeleted). setoid_rewrite HF in HkF. setoid_rewrite HF in Hadded. setoid_rewrite HF in Hdeleted.
  unfold newState in Hnew. pose proof (load_original _ _ _ Hnew Hdist eq_refl) as Horig. unfold changed in Hadded. rewrite update_original in Hadded, Hdeleted.
  pose proof (updated_base (CanonicalName (zi_name i)) st us recs (upd_soaRR i serial) false Hpre Hus Hbase) as HbF. fold z in HbF.
  assert (settled recs (rz_rrs z)) as Hset by (apply update_settled; by left).
  destruct (write_difference recs (rz_rrs z) added deleted Hbase Hdist HbF HkF Hset) with new_id rows rows' as (H1 & H2 & H3); [| |done..|].
  - intros x. rewrite Hadded. setoid_rewrite Horig. done.
  - intros x. rewrite Hdeleted. setoid_rewrite Horig. done.
  - do 2 (split; [done|]). split; [|done]. split; [done|]. apply Forall_forall. intros x Hx. by apply (zone_key (rz_rrs z)).
Qed.

(** ** The rules of the zone *)
Lemma zone_rules_sub apex os os' : (∀ p, p ∈ os' ↔ p ∈ os) → (∀ o ty, (occ os' o ty ≤ occ os o ty)%nat) →
  zone_rules apex os → zone_rules apex os'.
Proof.
  intros He Ho [Ha Hr]. split; [by apply He|]. intros o ty Hin%He. destruct (Hr o ty Hin) as [Hc Hd Hds Hab]. split.
  - intros Hcn. destruct (Hc (proj1 (He _) Hcn)) as [Hne Hf]. split; [done|].
    assert (∀ p, p ∈ filter (λ p, p.1 = o) os' → p = (o, TypeCNAME)) as Hall.
    { intros p [E Hp%He]%list_elem_of_filter. apply list_elem_of_singleton. rewrite <- Hf. by apply list_elem_of_filter. }
    assert (length (filter (λ p, p.1 = o) os') = occ os' o TypeCNAME) as El.
    { unfold occ. f_equal. apply filter_forced. intros p Hp. split; [|by intros ->]. intros E. apply Hall. by apply list_elem_of_filter. }
    assert (occ os o TypeCNAME = 1)%nat as E1.
    { unfold occ. rewrite (filter_forced _ (λ p, p.1 = o)); [by rewrite Hf|]. intros p Hp. symmetry. split; [|by intros ->]. intros E.
      apply list_elem_of_singleton. rewrite <- Hf. by apply list_elem_of_filter. }
    pose proof (Ho o TypeCNAME). apply occ_elem in Hcn. destruct (filter (λ p, p.1 = o) os') as [|p [|q l]] eqn:Ef; simpl in El; [lia| |lia].
    f_equal. apply Hall. rewrite ?Ef. left.
  - specialize (Ho o TypeDNAME). lia.
  - intros Hx%He. destruct (Hds Hx) as [? ?%He]. done.
  - intros p Hp Hx%He. by eapply Hab.
Qed.
Lemma rows_pairs rows zone : rows_unique rows → Forall base zone → Forall (λ x, is_Some (rr_key x)) zone →
  (∀ k t, has rows k t ↔ ∃ x, x ∈ zone ∧ rr_key x = Some k ∧ Ttl x = t) →
  (∀ p, p ∈ pairs_of rows ↔ p ∈ map rrset_name zone) ∧
  ∀ o ty, (occ (pairs_of rows) o ty ≤ occ (map rrset_name zone) o ty)%nat.
Proof.
  intros Hu Hb Hk Hh. rewrite Forall_forall in Hb, Hk.
  assert (∀ x k, x ∈ zone → rr_key x = Some k → k.1 = rrset_name x) as Hset by (intros x k Hx Kx; by eapply rr_key_wf; [apply (Hb x Hx)|]).
  assert (∀ id r, rows !! id = Some r → ∃ x, x ∈ zone ∧ rr_key x = Some (row_key r) ∧ rrset_name x = row_pair r) as Hrow.
  { intros id r Hr. destruct (proj1 (Hh (row_key r) (zr_ttl r))) as (x & Hx & Kx & _); [by exists id, r|]. exists x.
    split; [done|]. split; [done|]. by rewrite <- (Hset x _ Hx Kx). }
  split.
  - intros p. unfold pairs_of. rewrite !list_elem_of_fmap. split.
    + intros ([id r] & -> & (x & Hx & _ & E)%elem_of_map_to_list%Hrow). by exists x.
    + intros (x & -> & Hx). destruct (Hk x Hx) as [k Kx]. destruct (proj2 (Hh k (Ttl x))) as (id & r & Hr & Er & _); [by exists x|].
      exists (id, r). split; [|by apply elem_of_map_to_list]. rewrite <- (Hset x k Hx Kx), <- Er. done.
  - intros o ty. unfold occ, pairs_of.
    rewrite (filter_map_comm _ _ (HQ := λ p, decide (row_pair p.2 = (o, ty)))), (filter_map_comm _ _ (HQ := λ x, decide (rrset_name x = (o, ty)))).
    rewrite !length_map. set (K := map (λ p : Z * zrow, row_key p.2) (filter (λ p, row_pair p.2 = (o, ty)) (map_to_list rows))).
    set (F := filter (λ x, rrset_name x = (o, ty)) zone).
    transitivity (length K); [unfold K; by rewrite length_map|]. transitivity (length (omap rr_key F)).
    2:{ clear. induction F as [|x F IH]; [done|].
        change (omap rr_key (x :: F)) with (match rr_key x with Some y => y :: omap rr_key F | None => omap rr_key F end).
        destruct (rr_key x); cbn [length]; lia. }
    apply submseteq_length, NoDup_submseteq.
    + apply NoDup_map_filter, (NoDup_fmap_2_strong _ (map_to_list rows)); [|apply NoDup_map_to_list].
      intros [i a] [j b] Ha%elem_of_map_to_list Hb'%elem_of_map_to_list E. simpl in E. assert (i = j) as -> by by eapply Hu. congruence.
    + intros k ([id r] & -> & [Ep Hin%elem_of_map_to_list]%list_elem_of_filter)%list_elem_of_fmap. simpl in *.
      destruct (Hrow _ _ Hin) as (x & Hx & Kx & E). apply list_elem_of_omap. exists x. split; [|done].
      apply list_elem_of_filter. split; [congruence|done].
Qed.
End keys.

(** ** Applying an update *)
Section applied.
Context `{DnsLaws} (shuffle : list rr → list rr) (wide : Z → Z) (new_id : zrows → Z).
Context (compress : bytes → bytes) (decompress : bytes → option bytes) (sha : bytes → bytes).
Context (range_order : gmap bytes record → list record).
Context (Placeholder : Zone zinfo → rr) (zonemd_Apply : Zone zinfo → list rr → option (list rr)).
Context (signer : option (Signer (Name := zinfo) (RR := rr))).
Hypothesis zstd_round : ∀ raw, decompress (compress raw) = Some raw.
Hypothesis sha_injective : ∀ a b, sha a = sha b → a = b.
Hypothesis range_all : ∀ m, range_order m ≡ₚ map snd (map_to_list m).
Hypothesis shuffle_all : ∀ l, shuffle l ≡ₚ l.

Abbreviation inv := (zone_inv wide decompress sha).
Abbreviation MutateUpdate := (Mutate wide compress decompress sha range_order Placeholder zonemd_Apply signer (λ e, SvcErr (ZoneErr e))).
(** The zone RFC 2136 makes of the stored records. *)
Definition reference (sv : zsvc) (recs : list rr) (us : list urr) : rzone :=
  let i := z_Name (sv_zone sv) in
  foldl (ref_update (CanonicalName (zi_name i))) (mkRzone recs (upd_soaRR i (Serial (sv_zone sv))) false) us.

(** The SOA fields of the zone row afterwards. *)
Definition reference_info (i : zinfo) (z : rzone) : zinfo :=
  match asSOA (rz_soa z) with
  | Some s =>
      if rz_changed z then
        mkZinfo (zi_name i) (mkSOA (CanonicalName (Ns s)) (CanonicalName (Mbox s)) (s_Serial s) (s_Refresh s) (s_Retry s) (s_Expire s) (Minttl s))
          (Ttl (rz_soa z))
      else i
  | None => i
  end.
Lemma reference_soa apex us z : Forall from_wire us → (rz_changed z = true → is_u32 (soa_serial (rz_soa z))) →
  let z' := foldl (ref_update apex) z us in rz_changed z' = true → is_u32 (soa_serial (rz_soa z')).
Proof.
  intros Hus. revert z. induction Hus as [|u us Hu Hus IH]; intros z Hz; [done|]. simpl. apply IH.
  unfold ref_update. destruct (decide (Class (u_rr u) = ClassINET)); [|by repeat destruct (decide _)].
  destruct (asSOA (u_rr u)) as [s|] eqn:Es; [|by repeat destruct (decide _)]. destruct (decide _); [|done].
  intros _. unfold soa_serial. simpl. rewrite Es. by eapply fw_serial.
Qed.
(** The state after the update, from the reference. *)
Lemma update_state sv recs st us : Forall non_soa recs → Forall typed us → newState (z_Name (sv_zone sv)) (Serial (sv_zone sv)) recs = Ok st →
  s_soa (update st us) = rz_soa (reference sv recs us) ∧ s_soaChanged (update st us) = rz_changed (reference sv recs us).
Proof.
  intros Hp Ht Hn. destruct (newState_refines _ _ _ _ (canonical_lower _) Hn Hp) as [Hr Ha].
  destruct (update_all_refines us _ _ Hr Ht) as [Hup _]. rewrite Ha in Hup. apply Hup.
Qed.

(** What [update_fn] writes. *)
Lemma update_fn_ok ok prereqs us sv rows info opts : inv sv → Forall from_wire us →
  update_fn shuffle new_id ok prereqs us sv = Ok (rows, info, opts) →
  ∃ recs (z := reference sv recs us), loadRecordRRs (sv_rows sv) = Ok recs ∧ rows_ok rows ∧ rows_unique rows ∧
    zone_rules (ToLower (zi_name (z_Name (sv_zone sv)))) (pairs_of rows) ∧
    (∀ k t, has rows k t ↔ ∃ x, x ∈ rz_rrs z ∧ rr_key x = Some k ∧ Ttl x = t) ∧
    info = reference_info (z_Name (sv_zone sv)) z ∧
    opts = mkOptions (if rz_changed z then Some (soa_serial (rz_soa z)) else None) false None ∧
    (rz_changed z = true → is_u32 (soa_serial (rz_soa z))).
Proof.
  intros Hinv Hus. unfold update_fn. destruct (negb _); [done|]. destruct (negb ok); [done|].
  intros (recs & Hload & (st & Hnew & ([] & _ & ([] & Hpre & ([deleted added] & Hch & Hf)%bind_Ok)%bind_Ok)%bind_Ok)%bind_Ok)%bind_Ok.
  destruct (loadRecordRRs (sv_rows sv)) as [recs'| | |] eqn:El; try done. injection Hload as ->.
  destruct (_ && _); [done|]. destruct (CheckSet _ _) as [[]| | |] eqn:Ec; try done.
  apply bind_Ok in Hf as (rows' & Ha & [= <- <- <-]). destruct (rows_ApplyRecordChanges _ _ _ _) as [rows1| | |] eqn:Ea; try done.
  injection Ha as ->. exists recs. pose proof (zi_rows _ _ _ _ Hinv) as Hok0. pose proof (zi_unique _ _ _ _ Hinv) as Hu0.
  destruct (rows_updated _ _ _ _ _ _ _ _ _ _ _ shuffle_all Hok0 Hu0 Hus El Hnew Hpre Hch Ea) as (Hok & Hu & [HF HkF] & Hh).
  destruct (load_rows _ _ Hok0 Hu0 El) as (Hb & _ & _).
  destruct (update_state sv recs st us) as [Es Esc];
    [eapply Forall_impl; [exact Hb|apply base_non_soa]|eapply Forall_impl; [exact Hus|by intros ? []]|done|].
  do 3 (split; [done|]). split; [|split; [done|]].
  - apply CheckSet_iff in Ec. pose proof (updated_base (CanonicalName (zi_name (z_Name (sv_zone sv)))) st us recs
      (upd_soaRR (z_Name (sv_zone sv)) (Serial (sv_zone sv))) false Hpre Hus Hb) as HbF.
    destruct (rows_pairs rows' _ Hu HbF HkF Hh) as [P1 P2]. eapply zone_rules_sub; [..|exact Ec].
    + intros p. rewrite P1. by rewrite HF.
    + intros o ty. unfold occ in *. rewrite HF. apply P2.
  - unfold updated_info, reference_info. rewrite Es, Esc. split; [done|]. split; [done|]. by apply reference_soa.
Qed.
Lemma set_info_inv d z i S : journal_inv (Name := zinfo) wide decompress sha d z S → journal_inv wide decompress sha d (set_info z i) S.
Proof. intros []. by split. Qed.

(** The transaction keeps the invariant, with the rows of the reference. *)
Lemma update_inv ok prereqs us sv sv' : inv sv → Forall from_wire us →
  MutateUpdate sv (update_fn shuffle new_id ok prereqs us) = Ok sv' → fits (sv_db sv') (CurrentSeq (sv_zone sv) + 1) →
  inv sv' ∧ ∃ recs (z := reference sv recs us), loadRecordRRs (sv_rows sv) = Ok recs ∧
    (∀ k t, has (sv_rows sv') k t ↔ ∃ x, x ∈ rz_rrs z ∧ rr_key x = Some k ∧ Ttl x = t) ∧
    z_Name (sv_zone sv') = reference_info (z_Name (sv_zone sv)) z.
Proof.
  intros Hinv Hus ([[rows info] opts] & Hfn & Hm)%bind_Ok Hfit.
  destruct (update_fn_ok _ _ _ _ _ _ _ Hinv Hus Hfn) as (recs & Hload & Hok & Hu & Hru & Hh & Hi & -> & Hser).
  set (z := reference sv recs us) in *. pose proof Hinv as [Hk [Hd Hz] Hv _ _ _ (S & soa & HI & _)].
  cbn [z_Kind set_info] in Hm. rewrite bool_decide_eq_true_2 in Hm by done. cbn [orb] in Hm.
  apply bind_Ok in Hm as (r & Hr & Hm). destruct (zone_Rebuild _ _ _ _ _ _ _ _ _ _ _ _) as [r'| | |] eqn:Er; try done.
  injection Hr as ->. assert (zi_name info = zi_name (z_Name (sv_zone sv))) as En.
  { rewrite Hi. unfold reference_info. by repeat case_match. }
  destruct r as [[d z']|]; injection Hm as <-; cbn [sv_rows sv_zone sv_db] in *.
  - split.
    + eapply full_inv; [exact zstd_round|exact sha_injective|exact range_all| | | | | | | | |exact Er|exact Hfit];
        [done|done|done|done|done|cbn [z_Name set_info]; by rewrite En|by apply set_info_inv|]. intros n. destruct (rz_changed z); [|done]. intros [= <-]. auto.
    + exists recs. split; [done|]. split; [done|]. fold z. rewrite <- Hi.
      unfold zone_Rebuild, Rebuild in Er. cbn [Edit] in Er. by apply rebuildFull_row in Er as [-> _].
  - pose proof (full_none_serial _ _ _ _ _ _ _ _ _ _ _ _ _ Er) as Hs.
    assert (info = z_Name (sv_zone sv)) as ->.
    { rewrite Hi. unfold reference_info. destruct (rz_changed z); [done|]. by destruct (asSOA _). }
    assert (set_info (sv_zone sv) (z_Name (sv_zone sv)) = sv_zone sv) as Ez by by destruct (sv_zone sv). rewrite Ez in *.
    split; [by eapply full_none_inv|]. exists recs. by split_and!.
Qed.
End applied.
