(* ===== verification/DynApply.v ===== *)
(** * The applier of dynamic updates

    What a request can do to the hosted zones: which requests may change a zone (TSIG), when the
    prerequisites of RFC 2136, 3.2 hold, and that an accepted update is stored and served. *)

From S2P Require Import Prelude.
From S2P Require Import GoText.
From S2P Require Import NzfNames.
From S2P Require Import NzfFormat.
From S2P Require Import ZoneJournal.
From S2P Require Import ZoneServed.
From S2P Require Import XfrIn.
From S2P Require Import DnsLib.
From S2P Require Import ZoneRules.
From S2P Require Import ZoneRecords.
From S2P Require Import ZoneEdits.
From S2P Require Import DynUpdate.
From S2P Require Import DynRefine.
From S2P Require Import DynStored.

(** ** Prerequisites *)
Section prerequisites.
Context `{DnsLib}.

(** RFC 2136, 3.2 of one prerequisite, on the records of the zone, its SOA among them. *)
Definition at_name (n : bytes) (r : rr) : Prop := owner_of r = n.
#[export] Instance at_name_dec n r : Decision (at_name n r).
Proof. unfold at_name. apply _. Defined.
Definition in_use (zone : list rr) (n : bytes) (t : Z) : Prop :=
  if decide (t = TypeANY) then Exists (at_name n) zone else Exists (at_set n t) zone.
(** The records the message gives for an RRset. *)
Definition given (ps : list urr) (n : bytes) (t : Z) : list rr :=
  filter (at_set n t) (map u_rr (filter (λ p, Class (u_rr p) = ClassINET) ps)).
Definition equal_sets (a b : list rr) : Prop :=
  (∀ x, x ∈ a → ∃ y, y ∈ b ∧ IsDuplicate y x = true) ∧ (∀ y, y ∈ b → ∃ x, x ∈ a ∧ IsDuplicate x y = true).
Definition prereq_holds (apex : bytes) (zone : list rr) (ps : list urr) (p : urr) : Prop :=
  let h := u_rr p in let n := owner_of h in let t := Rrtype h in
  Ttl h = 0 ∧ IsSubDomain apex n = true ∧
  ((Class h = ClassANY ∧ Rdlength p = 0 ∧ in_use zone n t) ∨
   (Class h = ClassNONE ∧ Rdlength p = 0 ∧ ¬ in_use zone n t) ∨
   (Class h = ClassINET ∧ equal_sets (given ps n t) (filter (at_set n t) zone))).

Lemma sameSet_iff a b : sameSet a b = true ↔ equal_sets a b.
Proof.
  unfold sameSet, contains, equal_sets. rewrite andb_true_iff, !forallb_forall.
  setoid_rewrite existsb_exists. setoid_rewrite <- list_elem_of_In. done.
Qed.
Lemma newState_sets i serial recs st n t : newState i serial recs = Ok st →
  rrset_at (s_rrs st) n t = filter (at_set n t) (upd_soaRR i serial :: recs).
Proof.
  assert (∀ recs st st' zone, (∀ n t, rrset_at (s_rrs st) n t = filter (at_set n t) zone) → load_state st recs = Ok st' →
    ∀ n t, rrset_at (s_rrs st') n t = filter (at_set n t) (zone ++ recs)) as Hgen.
  { clear. induction recs as [|r recs IH]; intros st st' zone Hz; simpl; [intros [= <-]; by rewrite app_nil_r|].
    destruct (recordKey r) as [k|]; [|done]. intros Hl n t. rewrite (cons_middle r), app_assoc. eapply IH; [|exact Hl].
    intros n' t'. simpl. rewrite add_rr_sets, Hz, filter_app, filter_cons, filter_nil. destruct (decide _); [done|by rewrite app_nil_r]. }
  intros Hn. apply (Hgen recs _ _ [upd_soaRR i serial]) with (2 := Hn). intros n' t'. simpl. rewrite add_rr_sets, filter_cons, filter_nil.
  assert (rrset_at (∅ : rrmap) n' t' = []) as -> by (unfold rrset_at, rrs_at, set_at; rewrite lookup_empty; simpl; by rewrite lookup_empty).
  by destruct (decide _).
Qed.
Lemma load_apex recs st st' : load_state st recs = Ok st' → s_apex st' = s_apex st.
Proof.
  revert st. induction recs as [|r recs IH]; intros st; simpl; [by intros [= <-]|]. destruct (recordKey r); [|done]. intros Hl. by rewrite (IH _ Hl).
Qed.
Lemma nameExists_iff st n : nameExists st n = true ↔ ∃ t, rrset_at (s_rrs st) n t ≠ [].
Proof.
  unfold nameExists, rrset_at, set_at. rewrite existsb_exists. split.
  - intros ([t l] & Hin%list_elem_of_In%elem_of_map_to_list & Hl). exists t. rewrite Hin. simpl in *. by destruct l.
  - intros [t Ht]. destruct (rrs_at (s_rrs st) n !! t) as [l|] eqn:El; [|done]. exists (t, l).
    split; [by apply list_elem_of_In, elem_of_map_to_list|]. simpl in *. by destruct l.
Qed.
Lemma isnil_false {A} (l : list A) : isnil l = false ↔ l ≠ [].
Proof. by destruct l. Qed.

Section loaded.
Context (st : state) (zone : list rr).
Hypothesis sets : ∀ n t, rrset_at (s_rrs st) n t = filter (at_set n t) zone.

Lemma in_use_iff n t : (if t =? TypeANY then nameExists st n else negb (isnil (rrset_at (s_rrs st) n t))) = true ↔ in_use zone n t.
Proof.
  unfold in_use. destruct (Z.eqb_spec t TypeANY) as [->|Ht]; [rewrite decide_True by done|rewrite decide_False by done].
  - rewrite nameExists_iff, Exists_exists. setoid_rewrite sets. split.
    + intros [t Ht]. destruct (filter (at_set n t) zone) as [|x l] eqn:Ef; [done|].
      assert (x ∈ filter (at_set n t) zone) as [Ha Hx]%list_elem_of_filter by (rewrite Ef; left). exists x. split; [done|]. by injection Ha as <- _.
    + intros (x & Hx & <-). exists (Rrtype x). intros E. apply (not_elem_of_nil x). rewrite <- E. by apply list_elem_of_filter.
  - rewrite negb_true_iff, isnil_false, sets, filter_empty_Exists. destruct (decide (Exists (at_set n t) zone)); tauto.
Qed.
(** The checks on one prerequisite; the RRsets given are collected and compared afterwards. *)
Definition local_ok (p : urr) : Prop :=
  let h := u_rr p in let n := owner_of h in let t := Rrtype h in
  Ttl h = 0 ∧ IsSubDomain (s_apex st) n = true ∧
  ((Class h = ClassANY ∧ Rdlength p = 0 ∧ in_use zone n t) ∨ (Class h = ClassNONE ∧ Rdlength p = 0 ∧ ¬ in_use zone n t) ∨ Class h = ClassINET).
Definition inet_rrs (ps : list urr) : list rr := map u_rr (filter (λ p, Class (u_rr p) = ClassINET) ps).
Lemma local_class p (h := u_rr p) (n := owner_of h) (t := Rrtype h) : Ttl h = 0 → IsSubDomain (s_apex st) n = true →
  (Class h = ClassANY → local_ok p ↔ Rdlength p = 0 ∧ in_use zone n t) ∧
  (Class h = ClassNONE → local_ok p ↔ Rdlength p = 0 ∧ ¬ in_use zone n t) ∧
  (Class h = ClassINET → local_ok p) ∧
  (Class h ≠ ClassANY → Class h ≠ ClassNONE → Class h ≠ ClassINET → ¬ local_ok p).
Proof.
  intros H0 Hs. unfold local_ok. fold h. fold n. fold t. split_and!; [intros ->..| |].
  - split; [intros (_ & _ & [(_ & ?)|[[? _]|?]]); done|tauto].
  - split; [intros (_ & _ & [[? _]|[(_ & ?)|?]]); done|tauto].
  - intros ->. tauto.
  - intros ? ? ? (_ & _ & [[? _]|[[? _]|?]]); done.
Qed.
Lemma loop_step temp p ps :
  (local_ok p ∧ prereq_loop st temp (p :: ps) = prereq_loop st (if decide (Class (u_rr p) = ClassINET) then add_rr temp (u_rr p) else temp) ps) ∨
  (¬ local_ok p ∧ ∃ e, prereq_loop st temp (p :: ps) = Err e).
Proof.
  pose proof (local_class p) as Hlc. pose proof (in_use_iff (owner_of (u_rr p)) (Rrtype (u_rr p))) as Hu. cbv zeta in Hlc.
  cbn [prereq_loop]. fold (owner_of (u_rr p)). set (h := u_rr p) in *. set (n := owner_of h) in *.
  destruct (Z.eqb_spec (Ttl h) 0) as [E0|E0]; [|right; split; [unfold local_ok; tauto|simpl; eauto]]. unfold inZone.
  destruct (IsSubDomain (s_apex st) n) eqn:Es.
  2:{ right. split; [|simpl; eauto]. unfold local_ok. fold h. fold n. rewrite Es. by intros (_ & ? & _). }
  simpl. destruct (Hlc E0 eq_refl) as (L1 & L2 & L3 & L4).
  destruct (Z.eqb_spec (Class h) ClassANY) as [Ec|Ec]; [|destruct (Z.eqb_spec (Class h) ClassNONE) as [Ec'|Ec']].
  - rewrite (decide_False (P := Class h = ClassINET)) by (by rewrite Ec). rewrite (L1 Ec), <- Hu.
    destruct (Z.eqb_spec (Rdlength p) 0); [|right; split; [tauto|simpl; eauto]]. simpl.
    destruct (Rrtype h =? TypeANY); [destruct (nameExists st n)|destruct (isnil _)];
      [by left|right; split; [by intros [_ ?]|eauto]|right; split; [by intros [_ ?]|eauto]|by left].
  - rewrite (decide_False (P := Class h = ClassINET)) by (by rewrite Ec'). rewrite (L2 Ec'), <- Hu.
    destruct (Z.eqb_spec (Rdlength p) 0); [|right; split; [tauto|simpl; eauto]]. simpl.
    destruct (Rrtype h =? TypeANY); [destruct (nameExists st n)|destruct (isnil _)];
      [right; split; [by intros [_ []]|eauto]|by left|by left|right; split; [by intros [_ []]|eauto]].
  - destruct (Z.eqb_spec (Class h) ClassINET) as [Ei|Ei]; [|right; eauto]. left. split; [by apply L3|]. by rewrite decide_True by done.
Qed.
Lemma prereq_loop_iff ps temp temp' : prereq_loop st temp ps = Ok temp' ↔ Forall local_ok ps ∧ temp' = foldl add_rr temp (inet_rrs ps).
Proof.
  revert temp. induction ps as [|p ps IH]; intros temp; [simpl; split; [by intros [= <-]|by intros [_ ->]]|].
  rewrite Forall_cons. unfold inet_rrs. rewrite filter_cons.
  destruct (loop_step temp p ps) as [[Hl ->]|[Hl [e ->]]]; [|split; [done|tauto]].
  rewrite IH. unfold inet_rrs. destruct (decide _); simpl; tauto.
Qed.

(** The RRsets given, as collected. *)
Lemma collected rrs (temp := foldl add_rr ∅ rrs) :
  (∀ n t, rrset_at temp n t = filter (at_set n t) rrs) ∧ (∀ n types t l, temp !! n = Some types → types !! t = Some l → l ≠ []).
Proof.
  unfold temp. clear. induction rrs as [|r rrs [IH1 IH2]] using rev_ind.
  { cbn [foldl]. split; [|intros n types t l Hn; by rewrite lookup_empty in Hn]. intros n t. unfold rrset_at, rrs_at, set_at. rewrite lookup_empty. simpl. by rewrite lookup_empty. }
  rewrite foldl_app. simpl. split.
  - intros n t. rewrite add_rr_sets, IH1, filter_app, filter_cons, filter_nil. destruct (decide _); [done|by rewrite app_nil_r].
  - intros n types t l. set (m := foldl add_rr ∅ rrs) in *. unfold add_rr. rewrite lookup_insert_Some. intros [[<- <-]|[_ Hn]]; [|by eapply IH2].
    rewrite lookup_insert_Some. intros [[_ <-]|[_ Hl]]; [by destruct (rrset_at _ _ _)|]. unfold rrs_at in Hl.
    destruct (m !! _) as [ty|] eqn:Et; [by eapply IH2|simpl in Hl; by rewrite lookup_empty in Hl].
Qed.
Lemma prerequisites_ok ps : prerequisites st ps = Ok tt ↔ Forall (prereq_holds (s_apex st) zone ps) ps.
Proof.
  assert (Forall (prereq_holds (s_apex st) zone ps) ps ↔ Forall local_ok ps ∧
    ∀ x, x ∈ inet_rrs ps → equal_sets (given ps (owner_of x) (Rrtype x)) (filter (at_set (owner_of x) (Rrtype x)) zone)) as ->.
  { rewrite !Forall_forall. unfold inet_rrs, prereq_holds, local_ok. setoid_rewrite list_elem_of_fmap. setoid_rewrite list_elem_of_filter. split.
    - intros Hp. split; [intros p Hin; specialize (Hp p Hin); tauto|]. intros x (p & -> & Hc & Hin).
      destruct (Hp p Hin) as (_ & _ & [[E _]|[[E _]|[_ ?]]]); [by rewrite Hc in E..|done].
    - intros [Hl Hs] p Hin. destruct (Hl p Hin) as (? & ? & [?|[?|Hc]]); [tauto..|]. split_and!; [done..|]. right. right. split; [done|].
      apply Hs. eauto. }
  unfold prerequisites. destruct (collected (inet_rrs ps)) as [Hc1 Hc2]. split.
  - intros (temp & [Hl ->]%prereq_loop_iff & Hf)%bind_Ok. split; [done|]. intros x Hx. destruct (forallb _ _) eqn:Eb; [|done].
    rewrite forallb_forall in Eb. set (n := owner_of x). set (t := Rrtype x).
    assert (x ∈ rrset_at (foldl add_rr ∅ (inet_rrs ps)) n t) as Hin by (rewrite Hc1; by apply list_elem_of_filter).
    unfold rrset_at, rrs_at, set_at in Hin. destruct (foldl add_rr ∅ (inet_rrs ps) !! n) as [types|] eqn:En; simpl in Hin;
      [|rewrite lookup_empty in Hin; by apply not_elem_of_nil in Hin].
    destruct (types !! t) as [l|] eqn:El; [|by apply not_elem_of_nil in Hin].
    specialize (Eb (n, types) ltac:(by apply list_elem_of_In, elem_of_map_to_list)). rewrite forallb_forall in Eb.
    specialize (Eb (t, l) ltac:(by apply list_elem_of_In, elem_of_map_to_list)). cbn [fst snd] in Eb. rewrite sameSet_iff, sets in Eb.
    specialize (Hc1 n t). unfold rrset_at, rrs_at, set_at in Hc1. rewrite En in Hc1. simpl in Hc1. rewrite El in Hc1. simpl in Hc1.
    rewrite Hc1 in Eb. exact Eb.
  - intros [Hl Hs]. rewrite (proj2 (prereq_loop_iff ps ∅ _) (conj Hl eq_refl)). cbn [mbind res_bind].
    destruct (forallb _ _) eqn:Eb; [done|]. exfalso. rewrite <- not_true_iff_false, forallb_forall in Eb. apply Eb.
    intros [n types] Hn%list_elem_of_In%elem_of_map_to_list. cbn [fst snd]. rewrite forallb_forall. intros [t l] Hin%list_elem_of_In%elem_of_map_to_list.
    cbn [fst snd]. rewrite sameSet_iff, sets. specialize (Hc1 n t). specialize (Hc2 n types t l Hn Hin). unfold rrset_at, rrs_at, set_at in Hc1.
    rewrite Hn in Hc1. simpl in Hc1. rewrite Hin in Hc1. simpl in Hc1. destruct l as [|x l]; [done|].
    assert (x ∈ filter (at_set n t) (inet_rrs ps)) as [Ha Hx]%list_elem_of_filter by (rewrite <- Hc1; left).
    specialize (Hs x Hx). unfold at_set, rrset_name in Ha. injection Ha as <- <-. rewrite Hc1. exact Hs.
Qed.
End loaded.

(** The prerequisites of an update are met, on the state loaded from a zone, exactly when each
    holds as RFC 2136, 3.2 defines it: its TTL is zero and its name in the zone, and by its class the
    name or RRset is in use (ANY), is not (NONE), or the RRset equals, as a set, the records the
    message gives for it (IN). *)
Theorem prerequisites_rfc2136 i serial recs st ps : newState i serial recs = Ok st →
  prerequisites st ps = Ok tt ↔ Forall (prereq_holds (CanonicalName (zi_name i)) (upd_soaRR i serial :: recs) ps) ps.
Proof.
  intros Hn. rewrite (prerequisites_ok st (upd_soaRR i serial :: recs)).
  - assert (s_apex st = CanonicalName (zi_name i)) as ->; [|done]. eapply load_apex in Hn. done.
  - intros n t. by eapply newState_sets.
Qed.
End prerequisites.

Section apply.
Context `{DnsLaws} (shuffle : list rr → list rr) (wide : Z → Z).
Context (Unpack : bytes → option umsg) (TsigVerify : bytes → bytes → bool).
Context (tsig_available : bool) (Secret : Z → option bytes).
Context (new_id : zrows → Z).
Context (compress : bytes → bytes) (decompress : bytes → option bytes) (sha : bytes → bytes).
Context (range_order : gmap bytes record → list record).
Context (Placeholder : Zone zinfo → rr) (zonemd_Apply : Zone zinfo → list rr → option (list rr)).
Context (signer : option (Signer (Name := zinfo) (RR := rr))).

Abbreviation ApplyReq := (ApplyFenced shuffle wide Unpack TsigVerify tsig_available Secret new_id compress decompress sha
  range_order Placeholder zonemd_Apply signer).
Abbreviation apply_req := (apply_update shuffle wide Unpack TsigVerify tsig_available Secret new_id compress decompress sha
  range_order Placeholder zonemd_Apply signer).
Abbreviation MutateUpd := (Mutate wide compress decompress sha range_order Placeholder zonemd_Apply signer (λ e, SvcErr (ZoneErr e))).

(** The request is signed with a key the zone lists for updates. *)
Definition authorised (keys : gmap bytes tsig_row) (h : hosted) (req : UpdateRequest) (msg : umsg) : Prop :=
  let keyName := CanonicalName (req_TsigKey req) in
  ∃ name algorithm k secret, IsTsig msg = Some (name, algorithm) ∧ CanonicalName name = keyName ∧ tsig_available = true ∧
    keys !! keyName = Some k ∧ tk_id k ∈ UpdateTSIGKeyIDs h ∧ Secret (tk_id k) = Some secret ∧
    EqualFold wide (tsigAlgorithms (tk_algorithm k)) algorithm = true ∧ TsigVerify (req_Message req) secret = true.
Lemma verify_iff keys h req msg :
  verify wide TsigVerify tsig_available Secret keys h msg (req_Message req) (CanonicalName (req_TsigKey req)) = Ok tt ↔
  authorised keys h req msg.
Proof.
  unfold verify, authorised. split.
  - destruct (IsTsig msg) as [[name algorithm]|]; [|done].
    destruct (bool_decide (CanonicalName name = _)) eqn:E1; [|done]. apply bool_decide_eq_true in E1.
    destruct tsig_available; [|done]. simpl. destruct (keys !! _) as [k|] eqn:E2; [|done].
    destruct (bool_decide (tk_id k ∈ _)) eqn:E3; [|done]. apply bool_decide_eq_true in E3. simpl.
    destruct (Secret (tk_id k)) as [secret|] eqn:E4; [|done]. destruct (EqualFold _ _ _) eqn:E5; [|done]. simpl.
    destruct (TsigVerify _ _) eqn:E6; [|done]. intros _. by exists name, algorithm, k, secret.
  - intros (name & algorithm & k & secret & -> & E1 & -> & -> & E3 & -> & -> & ->).
    rewrite bool_decide_eq_true_2 by done. simpl. by rewrite bool_decide_eq_true_2.
Qed.

(** What an accepted request went through. *)
Lemma apply_Ok fence TSIGCheck keys zones req name h' : apply_req fence TSIGCheck keys zones req = Ok (name, h') →
  ∃ msg h, Unpack (req_Message req) = Some msg ∧ name = CanonicalName (req_Zone req) ∧ zones !! name = Some h ∧
    len (req_Message req) ≤ maxMessage ∧ Opcode msg = OpcodeUpdate ∧ z_Kind (sv_zone (ho_svc h)) = Primary ∧
    (TSIGCheck = true → authorised keys h req msg) ∧ UpdateTSIGKeyIDs h' = UpdateTSIGKeyIDs h ∧
    MutateUpd (ho_svc h) (update_fn shuffle new_id (negb TSIGCheck || allowed keys h (CanonicalName (req_TsigKey req))) (m_Answer msg) (m_Ns msg)) = Ok (ho_svc h').
Proof.
  unfold apply_update. destruct (Z.ltb_spec maxMessage (len (req_Message req))); [done|].
  destruct (Unpack _) as [msg|]; [|done]. destruct (Question msg) as [|[[qname qtype] qclass] [|]]; try done.
  destruct (Z.eqb_spec (Opcode msg) OpcodeUpdate); [|done]. simpl. destruct (Response msg); [done|].
  destruct (_ || negb (bool_decide _)) eqn:Eb; [done|]. apply orb_false_iff in Eb as [_ Eq%negb_false_iff%bool_decide_eq_true].
  destruct (zones !! _) as [h|] eqn:Eh; [|done]. destruct (bool_decide (z_Kind _ = Primary)) eqn:Ek; [|done]. apply bool_decide_eq_true in Ek.
  cbv zeta. intros ([] & Hv & ([] & _ & (sv & Hm & [= <- <-])%bind_Ok)%bind_Ok)%bind_Ok. exists msg, h. rewrite Eq in *.
  split_and!; try done. intros ->. by apply verify_iff.
Qed.

(** C35: With TSIG checks on, a request changes a hosted zone only if it is an update of at most 65535
    bytes for that zone, signed, with the algorithm of the key, by a key that the zone lists for
    updates; the zone is a primary; the response is success; and no other zone changes.  Any other
    response leaves every zone as it was. *)
Theorem Apply_authorised fence keys zones req r zones' : ApplyReq fence true keys zones req = Ok (r, zones') → zones' ≠ zones →
  ∃ msg h h', let name := CanonicalName (req_Zone req) in
    r = None ∧ zones' = <[name := h']> zones ∧ zones !! name = Some h ∧ Unpack (req_Message req) = Some msg ∧
    len (req_Message req) ≤ maxMessage ∧ Opcode msg = OpcodeUpdate ∧ z_Kind (sv_zone (ho_svc h)) = Primary ∧ authorised keys h req msg.
Proof.
  unfold ApplyFenced. destruct (apply_req fence true keys zones req) as [[name h']|[rc| |e]| |] eqn:Ea; intros [= <- <-] Hne; try done.
  destruct (apply_Ok _ _ _ _ _ _ _ Ea) as (msg & h & Hu & -> & Hh & Hl & Ho & Hk & Hau & _). exists msg, h, h'. split_and!; auto.
Qed.

Hypothesis zstd_round : ∀ raw, decompress (compress raw) = Some raw.
Hypothesis sha_injective : ∀ a b, sha a = sha b → a = b.
Hypothesis range_all : ∀ m, range_order m ≡ₚ map snd (map_to_list m).
Hypothesis shuffle_all : ∀ l, shuffle l ≡ₚ l.

(** C34: An update the applier accepts is stored and served.  On unsigned primary zones that serve what
    they store, a request leaves every zone so, keeping the rules of a zone; it changes no zone, or
    one: that zone's stored records are then exactly those, by owner, type, RDATA and TTL, that RFC 2136's update section makes
    of the records stored before, its SOA fields those of the last SOA the update put, and reading
    the served version back gives this SOA and exactly the stored records. *)
Theorem Apply_served fence TSIGCheck keys zones req r zones' :
  (∀ n h, zones !! n = Some h → zone_inv wide decompress sha (ho_svc h)) →
  (∀ msg, Unpack (req_Message req) = Some msg → Forall from_wire (m_Ns msg)) →
  ApplyReq fence TSIGCheck keys zones req = Ok (r, zones') →
  (∀ n h h', zones !! n = Some h → zones' !! n = Some h' → fits (sv_db (ho_svc h')) (CurrentSeq (sv_zone (ho_svc h)) + 1)) →
  (∀ n h, zones' !! n = Some h → zone_inv wide decompress sha (ho_svc h) ∧ served_rows wide decompress range_order (ho_svc h)) ∧
  (zones' = zones ∨ ∃ n h h' msg recs, zones !! n = Some h ∧ zones' = <[n := h']> zones ∧ Unpack (req_Message req) = Some msg ∧
     loadRecordRRs (sv_rows (ho_svc h)) = Ok recs ∧
     let z := reference (ho_svc h) recs (m_Ns msg) in
     (∀ k t, has (sv_rows (ho_svc h')) k t ↔ ∃ x, x ∈ rz_rrs z ∧ rr_key x = Some k ∧ Ttl x = t) ∧
     z_Name (sv_zone (ho_svc h')) = reference_info (z_Name (sv_zone (ho_svc h))) z).
Proof.
  intros Hinv Hfw Ha Hfit.
  assert (∀ sv, zone_inv wide decompress sha sv → zone_inv wide decompress sha sv ∧ served_rows wide decompress range_order sv) as Hs.
  { intros sv Hi. split; [done|]. by apply (inv_served wide decompress sha range_order range_all). }
  unfold ApplyFenced in Ha. destruct (apply_req fence TSIGCheck keys zones req) as [[n h']|[rc| |e]| |] eqn:Ea; try discriminate Ha; injection Ha as <- <-; try (split; [by eauto|by left]).
  destruct (apply_Ok _ _ _ _ _ _ _ Ea) as (msg & h & Hu & -> & Hh & _ & _ & _ & _ & _ & Hm).
  destruct (update_inv shuffle wide new_id compress decompress sha range_order Placeholder zonemd_Apply signer zstd_round sha_injective range_all shuffle_all
    _ _ _ _ _ (Hinv _ _ Hh) (Hfw _ Hu) Hm) as (Hi & recs & Hload & Hhas & Hname).
  { apply (Hfit _ _ _ Hh). apply lookup_insert_eq. }
  split; [|right; by exists (CanonicalName (req_Zone req)), h, h', msg, recs].
  intros n h0 [[<- <-]|[_ Hn]]%lookup_insert_Some; eauto.
Qed.
End apply.
