(* ===== verification/DynExamples.v ===== *)
(** * A concrete dynamic update

    The theorems on dynamic updates applied to the zone of ZoneExamples: a signed update that adds
    two address records if the name is not in use, and is refused the second time. *)

From S2P Require Import Prelude.
From S2P Require Import GoText.
From S2P Require Import NzfNames.
From S2P Require Import NzfFormat.
From S2P Require Import ZoneJournal.
From S2P Require Import ZoneServed.
From S2P Require Import ZoneRebuild.
From S2P Require Import XfrIn.
From S2P Require Import DnsLib.
From S2P Require Import ZoneExamples.
From S2P Require Import ZoneRules.
From S2P Require Import ZoneRecords.
From S2P Require Import ZoneEdits.
From S2P Require Import DynUpdate.
From S2P Require Import DynRefine.
From S2P Require Import DynStored.
From S2P Require Import DynApply.

Module Updates.
Definition key : bytes := str "k".
Definition absent : urr := mkUrr (mkRR Edits.www TypeA ClassNONE 0 [] None) 0.
Definition add1 : urr := mkUrr (mkRR [3; 87; 87; 87; 1; 97; 0] TypeA ClassINET 60 [192; 0; 2; 1] None) 4.
Definition add2 : urr := mkUrr (mkRR Edits.www TypeA ClassINET 30 [192; 0; 2; 2] None) 4.
Definition msg : umsg := mkMsg OpcodeUpdate false [(Edits.apex, TypeSOA, ClassINET)] [absent] [add1; add2] (Some (key, HmacSHA256)).
Definition Unpack (b : bytes) : option umsg := if bool_decide (b = [1]) then Some msg else None.
Definition TsigVerify (raw secret : bytes) : bool := bool_decide (secret = [7]).
Definition Secret (id : Z) : option bytes := if id =? 1 then Some [7] else None.
Definition new_id (rows : zrows) : Z := Z.of_nat (size rows) + 1.
Definition keys : gmap bytes tsig_row := {[ key := mkTsig 1 (str "hmac-sha256") ]}.
Definition zones : gmap bytes hosted := {[ Edits.apex := mkHosted Edits.st0 [1] ]}.
Definition req : UpdateRequest := mkReq Edits.apex [1] key.
Abbreviation ApplyEx := (Apply id Edits.wide Unpack TsigVerify true Secret new_id id Some id Edits.range_order Edits.Placeholder Edits.zonemd_Apply None true keys).
Definition sv1 : zsvc := Eval vm_compute in
  match ApplyEx zones req with Ok (_, zs) => match zs !! Edits.apex with Some h => ho_svc h | None => Edits.st0 end | _ => Edits.st0 end.
Definition zones1 : gmap bytes hosted := <[Edits.apex := mkHosted sv1 [1]]> zones.
Lemma applied : ApplyEx zones req = Ok (None, zones1).
Proof. vm_cast_no_check (eq_refl (@Ok unit _ (@None rcode, zones1))). Qed.
Lemma refused : ApplyEx zones1 req = Ok (Some YXRrset, zones1).
Proof. vm_cast_no_check (eq_refl (@Ok unit _ (Some YXRrset, zones1))). Qed.
Lemma message_ok : Forall from_wire [add1; add2].
Proof. repeat constructor; try done; try (by vm_compute). Qed.
Lemma Apply_served_witness :
  ∃ h', zones1 !! Edits.apex = Some h' ∧ has (sv_rows (ho_svc h')) (Edits.www, TypeA, [192; 0; 2; 1]) 30 ∧
    served_rows Edits.wide Some Edits.range_order (ho_svc h').
Proof.
  destruct (Apply_served id Edits.wide Unpack TsigVerify true Secret new_id id Some id Edits.range_order Edits.Placeholder Edits.zonemd_Apply None
    (λ _, eq_refl) (λ _ _ E, E) (λ _, reflexivity _) (λ _, reflexivity _) (Ok tt) true keys zones req None zones1) as [Hall _].
  - unfold zones. intros n h [_ <-]%lookup_singleton_Some. exact Edits.inv0.
  - intros m Hm. injection Hm as <-. exact message_ok.
  - exact applied.
  - unfold zones, zones1. intros n h h' [<- <-]%lookup_singleton_Some Hh'. rewrite lookup_insert_eq in Hh'. injection Hh' as <-. by apply Example.small; vm_compute.
  - exists (mkHosted sv1 [1]). assert (zones1 !! Edits.apex = Some (mkHosted sv1 [1])) as Hz by apply lookup_insert_eq. split; [exact Hz|]. split; [|by apply (Hall Edits.apex)].
    exists 2. eexists. split; [vm_compute; reflexivity|]. split; reflexivity.
Defined.
Lemma Apply_authorised_witness : ∃ m h, Unpack (req_Message req) = Some m ∧ tk_id (mkTsig 1 (str "hmac-sha256")) ∈ UpdateTSIGKeyIDs h ∧ zones !! Edits.apex = Some h.
Proof.
  destruct (Apply_authorised id Edits.wide Unpack TsigVerify true Secret new_id id Some id Edits.range_order Edits.Placeholder Edits.zonemd_Apply None
    (Ok tt) keys zones req None zones1 applied) as (m & h & h' & _ & _ & Hz & Hm & _ & _ & _ & (n & a & k & s & _ & _ & _ & Hk & Hin & _)).
  - intros E. apply (f_equal (λ m, match m !! Edits.apex with Some h => sv_rev (ho_svc h) | None => 0 end)) in E. vm_compute in E. discriminate E.
  - exists m, h. split; [exact Hm|]. split; [|exact Hz]. injection Hk as <-. exact Hin.
Defined.

(** The update section on the loaded records, and the prerequisites. *)
Definition ns : rr := mkRR Edits.apex TypeNS ClassINET 300 Edits.www None.
Definition loaded : state := Eval vm_compute in match newState Edits.info 1 [ns] with Ok st => st | _ => mkState [] ∅ ns false ∅ end.
Lemma newState_ex : newState Edits.info 1 [ns] = Ok loaded.
Proof. vm_cast_no_check (eq_refl (@Ok upd_err _ loaded)). Qed.
Lemma update_refines_witness : flat (s_rrs (update loaded [add1; add2])) ≡ₚ
  [ns; mkRR Edits.www TypeA ClassINET 30 [192; 0; 2; 1] None; mkRR Edits.www TypeA ClassINET 30 [192; 0; 2; 2] None].
Proof.
  destruct (update_refines Edits.info 1 [ns] loaded [add1; add2] (canonical_lower _)) as [Hp _];
    [repeat constructor; done|repeat constructor; done|exact newState_ex|].
  rewrite Hp. vm_compute. reflexivity.
Defined.
Lemma prerequisites_rfc2136_witness :
  prereq_holds Edits.apex [upd_soaRR Edits.info 1; ns] [absent] absent ∧
  ¬ Forall (prereq_holds Edits.apex [upd_soaRR Edits.info 1; ns] [mkUrr ns 0]) [mkUrr ns 0].
Proof.
  split.
  - pose proof (proj1 (prerequisites_rfc2136 Edits.info 1 [ns] loaded [absent] newState_ex) ltac:(vm_compute; reflexivity)) as Hf. by inversion Hf.
  - intros Hf. pose proof (proj2 (prerequisites_rfc2136 Edits.info 1 [ns] loaded [mkUrr ns 0] newState_ex) Hf) as Hp. vm_compute in Hp. discriminate Hp.
Defined.
End Updates.
