(* ===== verification/EngineName.v ===== *)
(** * Wire names in the engine

    engine/src/authoritative/name.rs: label offsets, lower case, the canonical sort key and the
    subdomain test, on names as the octets of a message or a zone file.  On valid names the key is
    the one the management plane computes, and the fixed buffers of the query path are large enough. *)

From S2P Require Import Prelude.
From S2P Require Import GoText.
From S2P Require Import NzfNames.
From S2P Require Import NzfFormat.
From S2P Require Import NzfTheorems.

(** [to_ascii_lowercase] of octets. *)
Definition lowercase (b : bytes) : bytes := map ascii_lower b.
Definition eq_ignore_ascii_case (a b : bytes) : bool := bool_decide (lowercase a = lowercase b).

(** The offsets of the labels.  The loop stops after 128 of them, each at most 256 octets after the
    one before, so they fit the [u16] they are stored in. *)
Fixpoint label_loop (n : nat) (wire : bytes) (i : Z) : list Z :=
  match n with
  | O => []
  | S n =>
      match idx wire i with
      | None => []
      | Some l => if (l =? 0) || (len wire <? i + 1 + l) then [] else i :: label_loop n wire (i + (l + 1))
      end
  end.
Definition label_offsets (wire : bytes) : list Z := label_loop 128 wire 0.
Definition lowercase_into (wire : bytes) : bytes := lowercase (take 255 wire).

Definition canon_octet (b : Z) : bytes :=
  let c := ascii_lower b in if c =? 0 then [1; 1] else if c =? 1 then [1; 2] else [c].
Definition label_at (wire : bytes) (o : Z) : bytes := slice wire (o + 1) (o + 1 + default 0 (idx wire o)).
Definition canon_key (wire : bytes) : bytes :=
  concat (map (λ o, concat (map canon_octet (label_at wire o)) ++ [0]) (rev (label_offsets wire))).
Definition KEY_BUF : Z := 512.
(** Every push stops at the end of the buffer. *)
Definition canon_key_buf (wire : bytes) : bytes := take (Z.to_nat KEY_BUF) (canon_key wire).

Definition is_subdomain (child parent : bytes) : bool :=
  match parent with
  | [] => false
  | _ :: _ =>
      let start := len child - len parent in
      if (start <? 0) || negb (eq_ignore_ascii_case (drop (Z.to_nat start) child) parent) then false
      else (start =? len child - 1) || existsb (λ o, o =? start) (label_offsets child)
  end.

Fixpoint ascii_labels (out : bytes) (labels : list bytes) : option bytes :=
  match labels with
  | [] => Some out
  | l :: labels => if (len l =? 0) || (63 <? len l) then None else ascii_labels (out ++ u8 (len l) :: l) labels
  end.
Definition strip_dot (s : bytes) : bytes := match rev s with 46 :: r => rev r | _ => s end.
Definition from_ascii (s : bytes) : option bytes :=
  let s := strip_dot s in
  out ← (if bool_decide (s = []) then Some [] else ascii_labels [] (Split s 46));
  let out := out ++ [0] in
  if len out <=? 255 then Some out else None.

(** ** Valid names *)
Definition offset (ls : list bytes) (k : nat) : Z := len (wire_labels (take k ls)).

Lemma label_loop_wire n pre ls rest : Forall label_ok ls → (length ls ≤ n)%nat →
  label_loop n (wire_labels pre ++ wire_name ls ++ rest) (len (wire_labels pre)) =
  map (λ k, len (wire_labels pre) + offset ls k) (seq 0 (length ls)).
Proof.
  intros Hls. revert n pre. induction Hls as [|l ls [Hl1 Hl2] Hls IH]; intros n pre Hn.
  - destruct n; [done|]. simpl. change (wire_name [] ++ rest) with (0 :: rest). by rewrite idx_app_mid.
  - destruct n as [|n]; [simpl in Hn; lia|]. cbn [label_loop length seq map].
    rewrite wire_name_cons, <- app_comm_cons, <- app_assoc, idx_app_mid.
    rewrite (proj2 (Z.eqb_neq (len l) 0)) by lia. rewrite (proj2 (Z.ltb_ge _ _)) by len_lia. simpl.
    f_equal; [unfold offset; simpl; change (len (wire_labels [])) with 0; lia|].
    specialize (IH n (pre ++ [l])). simpl in Hn. rewrite wire_labels_app, wire_labels_cons in IH. change (wire_labels []) with ([] : bytes) in IH.
    rewrite app_nil_r, <- app_assoc, <- app_comm_cons in IH.
    replace (len (wire_labels pre ++ len l :: l)) with (len (wire_labels pre) + (len l + 1)) in IH by len_lia.
    rewrite IH by lia. rewrite <- seq_shift, map_map. apply map_ext. intros k. unfold offset. simpl. rewrite wire_labels_cons. len_lia.
Qed.
Lemma label_offsets_wire ls rest : name_ok ls → label_offsets (wire_name ls ++ rest) = map (offset ls) (seq 0 (length ls)).
Proof.
  intros Hok. pose proof (name_ok_labels ls Hok) as Hn. destruct Hok as [Hls _].
  unfold label_offsets. change (wire_name ls ++ rest) with (wire_labels [] ++ wire_name ls ++ rest).
  change 0 with (len (wire_labels [])). rewrite label_loop_wire; [done|done|unfold len in Hn; lia].
Qed.
Lemma wire_split ls k : wire_name ls = wire_labels (take k ls) ++ wire_name (drop k ls).
Proof. rewrite <- wire_name_app, take_drop. done. Qed.
Lemma drop_offset ls k : drop (Z.to_nat (offset ls k)) (wire_name ls) = wire_name (drop k ls).
Proof. rewrite (wire_split ls k). unfold offset. rewrite to_nat_len. apply drop_app_length. Qed.

Lemma canon_octet_key b : is_byte b → canon_octet b = key_octet b.
Proof.
  intros Hb. unfold canon_octet, key_octet, ascii_lower. destruct (is_upper b) eqn:E; [|done].
  rewrite u8_small; [done|]. unfold is_upper, is_byte in *. lia.
Qed.
(** The key of a valid name, as label keys from the root. *)
Lemma canon_key_wire ls rest : name_ok ls → Forall (Forall is_byte) ls → canon_key (wire_name ls ++ rest) = concat (map label_key (rev ls)).
Proof.
  intros Hok Hb. unfold canon_key. rewrite label_offsets_wire by done. rewrite map_rev, map_map, <- map_rev. f_equal.
  rewrite !map_rev. f_equal.
  assert (∀ k, (k < length ls)%nat → concat (map canon_octet (label_at (wire_name ls ++ rest) (offset ls k))) ++ [0] = label_key (nth k ls [])) as Hk.
  { intros k Hk. destruct (nth_error ls k) as [l|] eqn:El; [|apply nth_error_None in El; lia].
    rewrite (nth_error_nth _ _ _ El). apply nth_error_split in El as (l1 & l2 & E & <-).
    assert (Forall is_byte l) as Hl by (rewrite E in Hb; by apply Forall_app in Hb as [_ [? _]%Forall_cons]).
    unfold label_at, offset. rewrite E, take_app_length, wire_name_app, wire_name_cons, <- !app_assoc, <- !app_comm_cons, idx_app_mid. simpl.
    replace (wire_labels l1 ++ len l :: (l ++ wire_name l2) ++ rest) with ((wire_labels l1 ++ [len l]) ++ l ++ wire_name l2 ++ rest) by by simplify_list_eq.
    replace (len (wire_labels l1) + 1) with (len (wire_labels l1 ++ [len l])) by len_lia. rewrite slice_app_mid.
    unfold label_key. do 2 f_equal. apply map_ext_in. intros b Hin%list_elem_of_In. rewrite Forall_forall in Hl. by apply canon_octet_key, Hl. }
  clear Hok Hb. assert (map label_key ls = map (λ k, label_key (nth k ls [])) (seq 0 (length ls))) as ->.
  { clear. induction ls as [|l ls IH]; [done|]. simpl. f_equal. by rewrite <- seq_shift, map_map. }
  apply map_ext_in. intros k [_ ?]%in_seq. apply Hk. lia.
Qed.

Lemma canon_key_same ls : name_ok ls → Forall (Forall is_byte) ls → canon_key (wire_name ls) = CanonicalKey (wire_name ls).
Proof.
  intros Hok Hb. pose proof (canon_key_wire ls [] Hok Hb) as E. pose proof (CanonicalKey_wire ls [] Hok) as E'.
  rewrite app_nil_r in E, E'. congruence.
Qed.

(** The stack buffer holds the key of every valid name and a wildcard label after it. *)
Lemma canon_key_len ls : name_ok ls → Forall (Forall is_byte) ls → len (canon_key (wire_name ls)) + 2 ≤ KEY_BUF.
Proof.
  intros Hok Hb. pose proof (canon_key_wire ls [] Hok Hb) as E. rewrite app_nil_r in E. rewrite E. destruct Hok as [Hls Hlen].
  assert (∀ l, len (concat (map key_octet l)) ≤ 2 * len l) as Hoct.
  { induction l as [|b l IH]; simpl; [len_lia|]. rewrite len_app. assert (len (key_octet b) ≤ 2); [|len_lia].
    unfold key_octet. repeat case_match; len_lia. }
  assert (∀ ks, len (concat (map label_key ks)) ≤ 2 * len (wire_labels ks)) as Hk.
  { induction ks as [|l ks IH]; [done|]. simpl. rewrite wire_labels_cons. unfold label_key at 1. specialize (Hoct l). len_lia. }
  assert (len (wire_labels (rev ls)) = len (wire_labels ls)) as Er.
  { clear. induction ls as [|l ls IH]; [done|]. simpl. rewrite wire_labels_app, !wire_labels_cons. change (wire_labels []) with ([] : bytes). len_lia. }
  specialize (Hk (rev ls)). rewrite len_wire_name in Hlen. unfold KEY_BUF. lia.
Qed.
Lemma canon_key_buf_exact ls : name_ok ls → Forall (Forall is_byte) ls → canon_key_buf (wire_name ls) = canon_key (wire_name ls).
Proof.
  intros Hok Hb. pose proof (canon_key_len ls Hok Hb). unfold canon_key_buf. apply take_ge. unfold len in *. lia.
Qed.

(** The key the engine computes in its buffer of 512 octets is never cut: for every valid name it is
    the whole key, the same octets the management plane sorts by, and two octets are left for the label
    of a wildcard. *)
Theorem canon_key_bounded ls : name_ok ls → Forall (Forall is_byte) ls →
  canon_key_buf (wire_name ls) = CanonicalKey (wire_name ls) ∧ len (canon_key_buf (wire_name ls)) + 2 ≤ KEY_BUF.
Proof.
  intros Hok Hb. rewrite canon_key_buf_exact by done. split; [by apply canon_key_same|by apply canon_key_len].
Qed.

Lemma canonical_eq a b : canonical_compare a b = Eq ↔ map lowercase a = map lowercase b.
Proof.
  revert b. induction a as [|x a IH]; intros [|y b]; simpl; [done..|]. pose proof (bytes_compare_eq (map ascii_lower x) (map ascii_lower y)) as Hc.
  destruct (bytes_compare _ _).
  - rewrite IH. unfold lowercase. rewrite (proj1 Hc eq_refl). split; [by intros ->|by intros [= ->]].
  - split; [done|]. intros [= E _]. by apply Hc in E.
  - split; [done|]. intros [= E _]. by apply Hc in E.
Qed.
(** Keys tell names apart up to case. *)
Lemma canon_key_inj ls ks : name_ok ls → name_ok ks → Forall (Forall is_byte) ls → Forall (Forall is_byte) ks →
  canon_key (wire_name ls) = canon_key (wire_name ks) ↔ map lowercase ls = map lowercase ks.
Proof.
  intros Hl Hk Bl Bk. pose proof (canon_key_wire ls [] Hl Bl) as El. pose proof (canon_key_wire ks [] Hk Bk) as Ek.
  rewrite app_nil_r in El, Ek. rewrite El, Ek, <- bytes_compare_eq, concat_key_compare, canonical_eq by (by apply Forall_rev).
  rewrite !map_rev. split; [|by intros ->]. intros E. by rewrite <- (rev_involutive (map _ ls)), E, rev_involutive.
Qed.

(** ** Subdomains *)
(** [child] is [parent] or below it: its labels end with those of [parent], up to case. *)
Lemma is_subdomain_wire ls ks : name_ok ls → name_ok ks →
  is_subdomain (wire_name ls) (wire_name ks) = true ↔ ∃ p q, ls = p ++ q ∧ map lowercase q = map lowercase ks.
Proof.
  intros Hl Hk. unfold is_subdomain. destruct (wire_name ks) as [|c w] eqn:Ew; [by destruct ks|]. rewrite <- Ew. clear c w Ew. split.
  - cbv zeta. destruct (Z.ltb_spec (len (wire_name ls) - len (wire_name ks)) 0) as [|Hs]; [done|]. simpl.
    destruct (eq_ignore_ascii_case _ _) eqn:Ee; [|done]. simpl. apply bool_decide_eq_true in Ee.
    assert (∀ k, len (wire_name ls) - len (wire_name ks) = offset ls k → ∃ p q, ls = p ++ q ∧ map lowercase q = map lowercase ks) as Hgo.
    { intros k Ek. rewrite Ek, drop_offset in Ee. exists (take k ls), (drop k ls). split; [by rewrite take_drop|].
      unfold lowercase in Ee. rewrite !map_lower_wire_name in Ee; [|apply Hk|]. 2:{ apply Forall_drop, Hl. }
      apply wire_name_inj in Ee; [done|apply label_ok_lower..]; [apply Forall_drop, Hl|apply Hk]. }
    rewrite orb_true_iff, Z.eqb_eq, existsb_exists. intros [E|(o & Ho & Eo%Z.eqb_eq)].
    + apply (Hgo (length ls)). unfold offset. rewrite E, firstn_all, len_wire_name. lia.
    + pose proof (label_offsets_wire ls [] Hl) as Hoff. rewrite app_nil_r in Hoff. rewrite Hoff in Ho.
      apply in_map_iff in Ho as (k & <- & _). by apply (Hgo k).
  - intros (p & q & -> & E). cbv zeta.
    assert (lowercase (wire_name q) = lowercase (wire_name ks)) as Eq.
    { destruct Hl as [Hl _]. apply Forall_app in Hl as [_ Hq]. destruct Hk as [Hk _]. unfold lowercase.
      rewrite !map_lower_wire_name by done. change (map (map ascii_lower) q) with (map lowercase q). by rewrite E. }
    assert (len (wire_name q) = len (wire_name ks)) as El.
    { apply (f_equal len) in Eq. unfold lowercase in Eq. by rewrite !len_map in Eq. }
    rewrite wire_name_app. replace (len (wire_labels p ++ wire_name q) - len (wire_name ks)) with (len (wire_labels p)) by len_lia.
    rewrite (proj2 (Z.ltb_ge _ _)) by len_lia. rewrite to_nat_len, drop_app_length. unfold eq_ignore_ascii_case. rewrite bool_decide_eq_true_2 by done. simpl.
    destruct q as [|l q].
    + rewrite (proj2 (Z.eqb_eq _ _)); [done|]. change (wire_name []) with [0]. len_lia.
    + apply orb_true_iff. right. apply existsb_exists. exists (len (wire_labels p)). split; [|apply Z.eqb_refl].
      pose proof (label_offsets_wire (p ++ l :: q) [] Hl) as Hoff. rewrite app_nil_r, wire_name_app in Hoff. rewrite Hoff.
      apply in_map_iff. exists (length p). split; [unfold offset; by rewrite take_app_length|]. apply in_seq. rewrite length_app. simpl. lia.
Qed.

