(* ===== verification/EngineNzf.v ===== *)
(** * The engine's reader of the zone format

    engine/src/authoritative/nzf.rs: the parser of full images and deltas, and the proof that it
    reads every blob the management plane writes as what was written. *)

From S2P Require Import Prelude.
From S2P Require Import GoText.
From S2P Require Import NzfNames.
From S2P Require Import NzfFormat.
From S2P Require Import NzfTheorems.
From S2P Require Import EngineName.

Inductive nzf_kind : Type := FullImage | DeltaImage.
#[export] Instance nzf_kind_eq_dec : EqDecision nzf_kind.
Proof. solve_decision. Defined.
(** A full image has its records in [p_a]; a delta its deleted ones in [p_a], its added ones in [p_b]. *)
Record Parsed := mkParsed {
  p_kind : nzf_kind; p_origin : bytes; p_serial : Z; p_from_serial : Z; p_a : list record; p_b : list record }.
Inductive NzfError : Type :=
| NzTruncated | NzBadMagic | NzBadKind | NzBadName | NzOutOfZone | NzBadRecord | NzTrailing | NzTooLarge | NzZstd.

Abbreviation nres := (res NzfError).
Definition nz_take (r : reader) (n : Z) : nres (bytes * reader) :=
  if len (rd_b r) - rd_off r <? n then Err NzTruncated
  else Ok (slice (rd_b r) (rd_off r) (rd_off r + n), mkReader (rd_b r) (rd_off r + n)).
Definition nz_idx {A} (o : option A) : nres A := match o with Some a => Ok a | None => Panic end.
Definition nz_u8 (r : reader) : nres (Z * reader) := '(s, r) ← nz_take r 1; v ← nz_idx (idx s 0); Ok (v, r).
Definition nz_u16 (r : reader) : nres (Z * reader) := '(s, r) ← nz_take r 2; v ← nz_idx (get16 s); Ok (v, r).
Definition nz_u32 (r : reader) : nres (Z * reader) := '(s, r) ← nz_take r 4; v ← nz_idx (get32 s); Ok (v, r).

(** The offset grows by two at least and names have at most 255 octets, so 257 iterations suffice. *)
Fixpoint check_loop (fuel : nat) (name : bytes) (i : Z) : nres unit :=
  match fuel with
  | O => Fuel
  | S fuel =>
      match idx name i with
      | None => Err NzBadName
      | Some l =>
          if l =? 0 then (if i + 1 =? len name then Ok tt else Err NzBadName)
          else if 0x40 <=? l then Err NzBadName
          else check_loop fuel name (i + (l + 1))
      end
  end.
Definition check_name (name : bytes) : nres unit :=
  if (len name =? 0) || (255 <? len name) then Err NzBadName else check_loop 257 name 0.
Definition nz_name (r : reader) : nres (bytes * reader) :=
  '(l, r) ← nz_u8 r;
  '(name, r) ← nz_take r l;
  check_name name;;
  Ok (name, r).
Definition nz_record (r : reader) (origin : bytes) : nres (record * reader) :=
  '(owner, r) ← nz_name r;
  if negb (is_subdomain owner origin) then Err NzOutOfZone
  else
  '(rtype, r) ← nz_u16 r;
  '(class, r) ← nz_u16 r;
  if negb (class =? 1) then Err NzBadRecord
  else
  '(ttl, r) ← nz_u32 r;
  '(rdlen, r) ← nz_u16 r;
  '(rdata, r) ← nz_take r rdlen;
  Ok (mkRecord owner rtype class ttl rdata, r).
Fixpoint nz_records (n : nat) (r : reader) (origin : bytes) : nres (list record * reader) :=
  match n with
  | O => Ok ([], r)
  | S n =>
      '(x, r) ← nz_record r origin;
      '(xs, r) ← nz_records n r origin;
      Ok (x :: xs, r)
  end.

Definition MIN_RECORD : Z := 11.
Definition parse_body (buf : bytes) (kind : nzf_kind) (origin : bytes) (r : reader) : nres Parsed :=
  '(serial, r) ← nz_u32 r;
  '(from_serial, r) ← nz_u32 r;
  '(count_a, r) ← nz_u32 r;
  '(count_b, r) ← nz_u32 r;
  if (len buf - rd_off r) `div` MIN_RECORD <? count_a + count_b then Err NzTooLarge
  else if bool_decide (kind = FullImage) && (negb (from_serial =? 0) || negb (count_b =? 0)) then Err NzBadRecord
  else
  '(a, r) ← nz_records (Z.to_nat count_a) r origin;
  '(b, r) ← nz_records (Z.to_nat count_b) r origin;
  if negb (rd_off r =? len buf) then Err NzTrailing
  else Ok (mkParsed kind origin serial from_serial a b).
Definition parse (buf : bytes) : nres Parsed :=
  let r := mkReader buf 0 in
  '(m, r) ← nz_take r 4;
  if negb (bool_decide (m = magic)) then Err NzBadMagic
  else
  '(k, r) ← nz_u8 r;
  kind ← (if k =? 1 then Ok FullImage else if k =? 2 then Ok DeltaImage else Err NzBadKind);
  '(reserved, r) ← nz_u8 r;
  if negb (reserved =? 0) then Err NzBadKind
  else
  '(origin, r) ← nz_name r;
  if len origin <? 2 then Err NzBadName else parse_body buf kind origin r.

(** [decompress]; [zstd] is the library's decoder. *)
Definition nz_decompress (zstd : bytes → option bytes) (blob : bytes) (max_size : Z) : nres bytes :=
  match zstd blob with
  | None => Err NzZstd
  | Some out => if max_size <? len out then Err NzTooLarge else Ok out
  end.

(** ** Names *)
Lemma idx_bound {A} (l : list A) i x : idx l i = Some x → 0 ≤ i < len l.
Proof. unfold idx, len. case_match; [done|]. intros E%lookup_lt_Some. lia. Qed.
Lemma check_loop_iff fuel b i : Forall is_byte b → 0 ≤ i → len b ≤ 255 →
  check_loop fuel b i = Ok tt ↔ nameEnd_loop fuel b i = Ok (len b).
Proof.
  intros Hb. revert i. induction fuel as [|fuel IH]; intros i Hi Hlen; [done|]. cbn [check_loop nameEnd_loop].
  destruct (Z.leb_spec (len b) i) as [Hle|Hlt]; [by rewrite idx_None|].
  destruct (idx b i) as [l|] eqn:El; [|done]. destruct (Z.eqb_spec l 0) as [->|Hl].
  - rewrite (proj2 (Z.ltb_ge _ _)) by lia. destruct (Z.eqb_spec (i + 1) (len b)) as [->|Hne]; [done|]. split; [done|]. intros [= E]. lia.
  - destruct (0x40 <=? l); [done|]. assert (is_byte l) as [Hl0 _] by (unfold idx in El; case_match; [done|]; by eapply Forall_lookup_1).
    rewrite IH by lia. destruct (Z.ltb_spec 255 (i + (l + 1))); [|done]. split; [|done]. intros E.
    destruct fuel as [|fuel]; [done|]. cbn [nameEnd_loop] in E. by rewrite (proj2 (Z.leb_le _ _)) in E by lia.
Qed.
Lemma check_name_iff b : Forall is_byte b → check_name b = Ok tt ↔ validName b = Ok tt.
Proof.
  intros Hb. unfold check_name. split.
  - destruct (Z.eqb_spec (len b) 0); [done|]. destruct (Z.ltb_spec 255 (len b)); [done|]. cbn [orb].
    intros E%check_loop_iff; [|done|lia|done]. unfold validName, nameEnd. rewrite E. cbn [mbind res_bind]. by rewrite Z.eqb_refl.
  - intros Hv. pose proof (validName_len b Hb Hv) as Hlen.
    destruct (Z.eqb_spec (len b) 0); [lia|]. destruct (Z.ltb_spec 255 (len b)); [lia|]. cbn [orb].
    apply check_loop_iff; [done|lia|lia|]. unfold validName, nameEnd in Hv. apply bind_Ok in Hv as (e & E & He).
    destruct (Z.eqb_spec e (len b)) as [->|]; [done|discriminate He].
Qed.

(** ** What the management plane decodes, the engine parses *)
Definition ascii (b : bytes) : Prop := Forall (λ c, 0 ≤ c < 128) b.
Definition parsed_of (d : decoded) : Parsed :=
  match d with
  | DFull img => mkParsed FullImage (img_Origin img) (img_Serial img) 0 (img_Records img) []
  | DDelta d => mkParsed DeltaImage (dl_Origin d) (ToSerial d) (FromSerial d) (Deleted d) (Added d)
  end.
Definition decoded_ascii (d : decoded) : Prop :=
  let p := parsed_of d in ascii (p_origin p) ∧ Forall (λ r, ascii (Owner r)) (p_a p) ∧ Forall (λ r, ascii (Owner r)) (p_b p).

Lemma take_Ok r n x : take_n r n = Ok x → nz_take r n = Ok x.
Proof. unfold take_n, nz_take. destruct (n <? 0); [done|]. cbn [orb]. destruct (_ <? n); [done|]. by intros [= <-]. Qed.
Lemma of_idx_Ok {A} (o : option A) x : of_idx o = Ok x → o = Some x.
Proof. destruct o; [by intros [= ->]|done]. Qed.
Lemma u8_Ok r x : read_u8 r = Ok x → nz_u8 r = Ok x.
Proof. intros ([s r'] & Ht%take_Ok & (v & Hv%of_idx_Ok & [= <-])%bind_Ok)%bind_Ok. unfold nz_u8. rewrite Ht. simpl. by rewrite Hv. Qed.
Lemma u16_Ok r x : read_u16 r = Ok x → nz_u16 r = Ok x.
Proof. intros ([s r'] & Ht%take_Ok & (v & Hv%of_idx_Ok & [= <-])%bind_Ok)%bind_Ok. unfold nz_u16. rewrite Ht. simpl. by rewrite Hv. Qed.
Lemma u32_Ok r x : read_u32 r = Ok x → nz_u32 r = Ok x.
Proof. intros ([s r'] & Ht%take_Ok & (v & Hv%of_idx_Ok & [= <-])%bind_Ok)%bind_Ok. unfold nz_u32. rewrite Ht. simpl. by rewrite Hv. Qed.
Lemma ascii_octets b : ascii b → Forall is_byte b.
Proof. intros H. eapply Forall_impl; [exact H|]. unfold is_byte. intros; simpl in *; lia. Qed.
Lemma ascii_labels_of ls : ascii (wire_name ls) → Forall (Forall (λ c, 0 ≤ c < 128)) ls.
Proof.
  induction ls as [|l ls IH]; [constructor|]. unfold ascii in *. rewrite wire_name_cons. intros [_ [Hl Hls]%Forall_app]%Forall_cons. constructor; auto.
Qed.
Lemma within_subdomain wide owner origin : ascii owner → ascii origin → validName owner = Ok tt → validName origin = Ok tt →
  within wide owner origin = Ok true → is_subdomain owner origin = true.
Proof.
  intros Ho Hr (ls & -> & Hls)%validName_spec (ks & -> & Hks)%validName_spec; [|by apply ascii_octets..]. intros Hw.
  destruct (within_ascii wide ls ks Hls Hks) as (r & Hr' & Hiff); [by apply ascii_labels_of..|].
  apply is_subdomain_wire; [done|done|]. apply Hiff. congruence.
Qed.
Lemma nz_record_Ok wide r origin rec r' : ascii origin → validName origin = Ok tt → ascii (Owner rec) →
  read_record wide r origin = Ok (rec, r') → nz_record r origin = Ok (rec, r').
Proof.
  intros Hor Hvo Hown Hrd. unfold read_record in Hrd.
  apply bind_Ok in Hrd as ([ol r1] & H1%u8_Ok & ([owner r2] & H2%take_Ok & ([ty r3] & H3%u16_Ok & ([cl r4] & H4%u16_Ok & ([ttl r5] & H5%u32_Ok & ([rl r6] & H6%u16_Ok & ([rd r7] & H7%take_Ok & ([] & Hc & [= <- <-])%bind_Ok)%bind_Ok)%bind_Ok)%bind_Ok)%bind_Ok)%bind_Ok)%bind_Ok).
  apply checkRecord_Ok in Hc as (Hv & Hw & Hcl & _). simpl in *.
  unfold nz_record, nz_name. rewrite H1. cbn [mbind res_bind]. rewrite H2. cbn [mbind res_bind]. rewrite (proj2 (check_name_iff owner (ascii_octets _ Hown)) Hv). cbn [mbind res_bind].
  rewrite (within_subdomain wide owner origin) by done. simpl. rewrite H3. simpl. rewrite H4. simpl. rewrite Hcl. simpl.
  rewrite H5. simpl. rewrite H6. simpl. rewrite H7. simpl. by rewrite <- Hcl.
Qed.
Lemma nz_records_Ok wide n r origin recs r' : ascii origin → validName origin = Ok tt → Forall (λ r, ascii (Owner r)) recs →
  read_records wide n r origin = Ok (recs, r') → nz_records n r origin = Ok (recs, r').
Proof.
  intros Hor Hvo. revert r recs. induction n as [|n IH]; intros r recs Ha; simpl; [by intros [= <- <-]|].
  intros ([x r1] & H1 & ([xs r2] & H2 & [= <- <-])%bind_Ok)%bind_Ok. apply Forall_cons in Ha as [Hx Hxs].
  rewrite (nz_record_Ok wide _ _ _ _ Hor Hvo Hx H1). simpl. by rewrite (IH _ _ Hxs H2).
Qed.

Lemma get32_take l : get32 (take 4 l) = get32 l.
Proof. by destruct l as [|a [|b [|c [|d l]]]]. Qed.
(** Reading one word where the header of sixteen octets was read whole. *)
Lemma nz_u32_word b off k v : 0 ≤ off → 0 ≤ k → k + 4 ≤ 16 → off + 16 ≤ len b → get32 (drop (Z.to_nat k) (slice b off (off + 16))) = Some v →
  nz_u32 (mkReader b (off + k)) = Ok (v, mkReader b (off + k + 4)).
Proof.
  intros Hoff Hk H16 Hlen Hg. unfold nz_u32, nz_take. cbn [rd_b rd_off]. rewrite (proj2 (Z.ltb_ge _ _)) by lia. cbn [mbind res_bind].
  assert (get32 (slice b (off + k) (off + k + 4)) = Some v) as ->; [|done].
  rewrite <- Hg. unfold slice. rewrite <- (get32_take (drop _ _)), skipn_firstn_comm, take_take, drop_drop.
  f_equal. f_equal; [lia|]. f_equal. lia.
Qed.
Lemma take_n_reader r n s r' : take_n r n = Ok (s, r') →
  0 ≤ n ∧ rd_off r + n ≤ len (rd_b r) ∧ s = slice (rd_b r) (rd_off r) (rd_off r + n) ∧ r' = mkReader (rd_b r) (rd_off r + n).
Proof.
  unfold take_n. destruct (Z.ltb_spec n 0); [done|]. cbn [orb]. destruct (Z.ltb_spec (len (rd_b r) - rd_off r) n); [done|].
  intros [= <- <-]. split_and!; [done|lia|done|done].
Qed.
Lemma read_u8_reader r v r' : read_u8 r = Ok (v, r') → r' = mkReader (rd_b r) (rd_off r + 1).
Proof. intros ([s r1] & (_ & _ & _ & ->)%take_n_reader & (w & _ & [= _ <-])%bind_Ok)%bind_Ok. done. Qed.
Definition kind_of (k : Z) : nzf_kind := if k =? KindFull then FullImage else DeltaImage.
Lemma parse_body_Ok wide raw k origin off hdr r serial from ca cb d : 0 ≤ off → decoded_ascii d → validName origin = Ok tt →
  take_n (mkReader raw off) headerTail = Ok (hdr, r) →
  get32 hdr = Some serial → get32 (drop 4 hdr) = Some from → get32 (drop 8 hdr) = Some ca → get32 (drop 12 hdr) = Some cb →
  decodeBody wide raw k origin serial from ca cb r = Ok d →
  parse_body raw (kind_of k) origin (mkReader raw off) = Ok (parsed_of d).
Proof.
  intros Hoff (Ao & Aa & Ab) Hv Ht E1 E2 E3 E4 Hd. apply take_n_reader in Ht as (_ & Hlen & -> & ->). cbn [rd_b rd_off] in *.
  unfold headerTail in *. unfold parse_body.
  pose proof (nz_u32_word raw off 0 serial Hoff ltac:(lia) ltac:(lia) Hlen E1) as W1. rewrite Z.add_0_r in W1. rewrite W1. cbn [mbind res_bind].
  rewrite (nz_u32_word raw off 4 from Hoff ltac:(lia) ltac:(lia) Hlen E2). cbn [mbind res_bind].
  replace (off + 4 + 4) with (off + 8) by lia. rewrite (nz_u32_word raw off 8 ca Hoff ltac:(lia) ltac:(lia) Hlen E3). cbn [mbind res_bind].
  replace (off + 8 + 4) with (off + 12) by lia. rewrite (nz_u32_word raw off 12 cb Hoff ltac:(lia) ltac:(lia) Hlen E4). cbn [mbind res_bind rd_off].
  replace (off + 12 + 4) with (off + 16) by lia. unfold decodeBody in Hd. cbn [rd_off] in Hd.
  change MIN_RECORD with minRecord. destruct (_ <? ca + cb); [done|]. unfold kind_of.
  destruct ((k =? KindFull) && (negb (from =? 0) || negb (cb =? 0))) eqn:Ef; [done|].
  apply bind_Ok in Hd as ([a ra] & Ha & ([b rb] & Hb & Hd)%bind_Ok).
  destruct (Z.eqb_spec (rd_off rb) (len raw)) as [Eo|]; [|done]. cbn [negb] in Hd.
  destruct (Z.eqb_spec k KindFull) as [Ek|Ek].
  - cbn [andb] in Ef. apply orb_false_iff in Ef as [Ef1%negb_false_iff%Z.eqb_eq Ef2%negb_false_iff%Z.eqb_eq]. subst from cb.
    apply bind_Ok in Hd as ([] & _ & [= <-]). simpl in Ao, Aa, Hb. injection Hb as <- <-.
    rewrite bool_decide_eq_true_2 by done. rewrite !Z.eqb_refl. cbn [andb orb negb].
    rewrite (nz_records_Ok wide _ _ _ _ _ Ao Hv Aa Ha). cbn [mbind res_bind].
    change (nz_records (Z.to_nat 0) ra origin) with (Ok ([], ra) : nres (list record * reader)). cbn [mbind res_bind]. by rewrite (proj2 (Z.eqb_eq _ _) Eo).
  - destruct a as [|a0 a]; [done|]. destruct b as [|b0 b]; [done|]. apply bind_Ok in Hd as ([] & _ & ([] & _ & [= <-])%bind_Ok). simpl in Ao, Aa, Ab.
    rewrite bool_decide_eq_false_2 by done. cbn [andb].
    rewrite (nz_records_Ok wide _ _ _ _ _ Ao Hv Aa Ha). cbn [mbind res_bind]. rewrite (nz_records_Ok wide _ _ _ _ _ Ao Hv Ab Hb). cbn [mbind res_bind].
    by rewrite (proj2 (Z.eqb_eq _ _) Eo).
Qed.
Lemma decodeBody_origin wide raw k origin serial from ca cb r d : decodeBody wide raw k origin serial from ca cb r = Ok d → p_origin (parsed_of d) = origin.
Proof.
  unfold decodeBody. destruct (_ <? _); [done|]. destruct (_ && _); [done|]. intros ([a ra] & _ & ([b rb] & _ & Hd)%bind_Ok)%bind_Ok.
  destruct (negb _); [done|]. destruct (k =? KindFull); [by apply bind_Ok in Hd as ([] & _ & [= <-])|].
  destruct a; [done|]. destruct b; [done|]. by apply bind_Ok in Hd as ([] & _ & ([] & _ & [= <-])%bind_Ok).
Qed.
Lemma parse_Decode wide raw d : decoded_ascii d → Decode wide raw = Ok d → parse raw = Ok (parsed_of d).
Proof.
  intros Hasc Hd. unfold Decode in Hd.
  apply bind_Ok in Hd as ([m r1] & H1 & Hd). pose proof (take_n_reader _ _ _ _ H1) as (_ & _ & _ & ->). apply take_Ok in H1. unfold parse. rewrite H1. cbn [mbind res_bind].
  destruct (bool_decide (m = magic)); [|done]. cbn [negb] in Hd |- *.
  apply bind_Ok in Hd as ([kind r2] & H2 & Hd). pose proof (read_u8_reader _ _ _ H2) as ->. rewrite (u8_Ok _ _ H2). cbn [mbind res_bind].
  destruct (negb (kind =? KindFull) && negb (kind =? KindDelta)) eqn:Ek; [done|].
  assert ((if kind =? 1 then Ok FullImage else if kind =? 2 then Ok DeltaImage else Err NzBadKind : nres _) = Ok (kind_of kind)) as ->.
  { unfold kind_of, KindFull, KindDelta in *. destruct (kind =? 1); [done|]. by destruct (kind =? 2). }
  apply bind_Ok in Hd as ([reserved r3] & H3 & Hd). pose proof (read_u8_reader _ _ _ H3) as ->. cbn [mbind res_bind]. rewrite (u8_Ok _ _ H3). cbn [mbind res_bind].
  destruct (reserved =? 0); [|done]. cbn [negb] in Hd |- *.
  apply bind_Ok in Hd as ([ol r4] & H4 & ([origin r5] & H5 & ([] & Hor & Hd)%bind_Ok)%bind_Ok).
  pose proof (read_u8_reader _ _ _ H4) as ->. pose proof (take_n_reader _ _ _ _ H5) as (Hol & _ & _ & ->). cbn [rd_b rd_off] in *.
  apply bind_Ok in Hd as ([hdr r6] & H6 & (serial & E1%of_idx_Ok & (from & E2%of_idx_Ok & (ca & E3%of_idx_Ok & (cb & E4%of_idx_Ok & Hd)%bind_Ok)%bind_Ok)%bind_Ok)%bind_Ok).
  pose proof (decodeBody_origin _ _ _ _ _ _ _ _ _ _ Hd) as Eor. pose proof Hasc as (Ao & _). rewrite Eor in Ao.
  apply bind_Ok in Hor as ([] & Hv & Hl). unfold nz_name. rewrite (u8_Ok _ _ H4). cbn [mbind res_bind]. rewrite (take_Ok _ _ _ H5). cbn [mbind res_bind].
  rewrite (proj2 (check_name_iff origin (ascii_octets _ Ao)) Hv). cbn [mbind res_bind]. destruct (len origin <? 2); [done|].
  eapply parse_body_Ok; [|done|done|exact H6|done|done|done|done|exact Hd]. lia.
Qed.

Lemma ascii_lower_ascii b : ascii b → ascii (lowercase b).
Proof. intros H. apply Forall_fmap. eapply Forall_impl; [exact H|]. intros c. simpl. unfold ascii_lower, is_upper. case_match; lia. Qed.
Lemma parse_full wide img raw : image_wf img → len (img_Records img) < 2 ^ 32 → ascii (img_Origin img) → Forall (λ r, ascii (Owner r)) (img_Records img) →
  EncodeFull wide img = Ok raw →
  parse raw = Ok (mkParsed FullImage (lowercase (img_Origin img)) (img_Serial img) 0 (SortRecords (img_Records img)) []).
Proof.
  intros Hwf Hn Ho Ha He%Decode_full; [|done..]. apply parse_Decode in He; [done|]. split_and!; simpl; [by apply ascii_lower_ascii| |done].
  by rewrite SortRecords_perm.
Qed.
Lemma parse_delta wide d raw : delta_wf d → len (Deleted d) < 2 ^ 32 → len (Added d) < 2 ^ 32 →
  ascii (dl_Origin d) → Forall (λ r, ascii (Owner r)) (Deleted d) → Forall (λ r, ascii (Owner r)) (Added d) → EncodeDelta wide d = Ok raw →
  parse raw = Ok (mkParsed DeltaImage (lowercase (dl_Origin d)) (ToSerial d) (FromSerial d) (sort_tail (Deleted d)) (sort_tail (Added d))).
Proof.
  intros Hwf Hd Ha Ho Had Haa He%Decode_delta; [|done..]. apply parse_Decode in He; [done|]. split_and!; simpl; [by apply ascii_lower_ascii| |];
    by rewrite sort_tail_perm.
Qed.

(** The engine reads what the management plane writes.  A full image or a delta that [EncodeFull]
    or [EncodeDelta] produced, for a zone whose names are ASCII, parses in the engine, to its origin in
    lower case, its serials and exactly its records, in the order they were written. *)
Theorem engine_parses wide : (∀ img raw, image_wf img → len (img_Records img) < 2 ^ 32 →
    ascii (img_Origin img) → Forall (λ r, ascii (Owner r)) (img_Records img) → EncodeFull wide img = Ok raw →
    parse raw = Ok (mkParsed FullImage (lowercase (img_Origin img)) (img_Serial img) 0 (SortRecords (img_Records img)) [])) ∧
  (∀ d raw, delta_wf d → len (Deleted d) < 2 ^ 32 → len (Added d) < 2 ^ 32 →
    ascii (dl_Origin d) → Forall (λ r, ascii (Owner r)) (Deleted d) → Forall (λ r, ascii (Owner r)) (Added d) → EncodeDelta wide d = Ok raw →
    parse raw = Ok (mkParsed DeltaImage (lowercase (dl_Origin d)) (ToSerial d) (FromSerial d) (sort_tail (Deleted d)) (sort_tail (Added d)))).
Proof.
  split.
  - intros img raw Hwf Hn Ho Ha He. apply (parse_full wide img raw); done.
  - intros d raw Hwf Hd Ha Ho Had Haa He. apply (parse_delta wide d raw); done.
Qed.

(** ** No input stops the parser *)
Lemma check_loop_returns fuel b i : Forall is_byte b → 0 ≤ i → len b - i < Z.of_nat fuel → (0 < fuel)%nat → returns (check_loop fuel b i).
Proof.
  intros Hb. revert i. induction fuel as [|fuel IH]; intros i Hi Hf H0; [lia|]. cbn [check_loop]. destruct (idx b i) as [l|] eqn:El; [|done].
  apply idx_bound in El as Hi'. assert (is_byte l) as [Hl0 _] by (unfold idx in El; case_match; [done|]; by eapply Forall_lookup_1).
  destruct (l =? 0); [by case_match|]. destruct (0x40 <=? l); [done|]. apply IH; lia.
Qed.
Lemma nz_take_post r n : reader_ok r → 0 ≤ n → post (nz_take r n) (read_ok (λ s, Forall is_byte s ∧ len s = n) r).
Proof.
  intros [Hb Ho] Hn. unfold nz_take. apply post_guard. intros ?%Z.ltb_ge. unfold read_ok, reader_ok. simpl.
  rewrite len_slice by lia. split_and!; try done; try lia. by apply slice_bytes.
Qed.
Lemma nz_u8_post r : reader_ok r → post (nz_u8 r) (read_ok is_byte r).
Proof.
  intros Hr. unfold nz_u8. eapply post_bind; [by apply nz_take_post|]. intros [s r'] (? & ? & Hs & Hl). simpl in *.
  destruct (idx0_len s Hl) as (v & -> & ->). rewrite Forall_singleton in Hs. done.
Qed.
Lemma nz_u16_post r : reader_ok r → post (nz_u16 r) (read_ok is_u16 r).
Proof.
  intros Hr. unfold nz_u16. eapply post_bind; [by apply nz_take_post|]. intros [s r'] (? & ? & Hs & Hl). simpl in *.
  destruct (get16_len s Hl) as (v & E). rewrite E. apply get16_bound in E; done.
Qed.
Lemma nz_u32_post r : reader_ok r → post (nz_u32 r) (read_ok is_u32 r).
Proof.
  intros Hr. unfold nz_u32. eapply post_bind; [by apply nz_take_post|]. intros [s r'] (? & ? & Hs & Hl). simpl in *.
  destruct (get32_len s) as (v & E); [lia|]. rewrite E. apply get32_bound in E; done.
Qed.
Lemma check_name_post b : Forall is_byte b → post (check_name b) (λ _, validName b = Ok tt).
Proof.
  intros Hb. assert (returns (check_name b)) as Hr.
  { unfold check_name. destruct (_ || _) eqn:E; [done|]. apply orb_false_iff in E as [_ E%Z.ltb_ge]. apply check_loop_returns; [done|lia|lia|lia]. }
  destruct (check_name b) as [[]| | |] eqn:E; try done. simpl. by apply check_name_iff.
Qed.
Lemma nz_name_post r : reader_ok r → post (nz_name r) (read_ok (λ n, Forall is_byte n ∧ validName n = Ok tt) r).
Proof.
  intros Hr. unfold nz_name. eapply post_bind; [by apply nz_u8_post|]. intros [l r1] (Hr1 & E1 & Hl). simpl in *.
  eapply post_bind; [apply nz_take_post; [done|apply Hl]|]. intros [n r2] (Hr2 & E2 & Hn & _). simpl in *.
  eapply post_bind; [by apply check_name_post|]. intros [] Hv. split; [done|]. split; [simpl; congruence|done].
Qed.

(** A record in its zone, its fields within their types. *)
Record rec_ok (origin : bytes) (r : record) : Prop := {
  rk_wf : record_wf r; rk_name : validName (Owner r) = Ok tt; rk_zone : is_subdomain (Owner r) origin = true;
  rk_class : RClass r = 1; rk_rdata : len (RData r) ≤ 65535 }.
Lemma nz_record_post r origin : reader_ok r → post (nz_record r origin) (read_ok (rec_ok origin) r).
Proof.
  intros Hr. unfold nz_record. eapply post_bind; [by apply nz_name_post|]. intros [owner r1] (Hr1 & E1 & Hob & Hv). simpl in *.
  apply post_guard. intros Hs%negb_false_iff. eapply post_bind; [by apply nz_u16_post|]. intros [ty r2] (Hr2 & E2 & Ht). simpl in *.
  eapply post_bind; [by apply nz_u16_post|]. intros [cl r3] (Hr3 & E3 & Hc). simpl in *. apply post_guard. intros ->%negb_false_iff%Z.eqb_eq.
  eapply post_bind; [by apply nz_u32_post|]. intros [ttl r4] (Hr4 & E4 & Hl). simpl in *.
  eapply post_bind; [by apply nz_u16_post|]. intros [rl r5] (Hr5 & E5 & Hrl). simpl in *.
  eapply post_bind; [apply nz_take_post; [done|apply Hrl]|]. intros [rd r6] (Hr6 & E6 & Hrd & Elen). simpl in *.
  split; [done|]. split; [simpl; congruence|]. split; simpl; [by split_and!|done|done|done|]. unfold is_u16 in Hrl. lia.
Qed.
Lemma nz_records_post n r origin : reader_ok r → post (nz_records n r origin) (read_ok (Forall (rec_ok origin)) r).
Proof.
  revert r. induction n as [|n IH]; intros r Hr; simpl; [done|].
  eapply post_bind; [by apply nz_record_post|]. intros [x r1] (Hr1 & E1 & Hx). simpl in *.
  eapply post_bind; [by apply IH|]. intros [xs r2] (Hr2 & E2 & Hxs). simpl in *. split; [done|]. split; [simpl; congruence|by constructor].
Qed.
Record parsed_ok (p : Parsed) : Prop := {
  po_origin : validName (p_origin p) = Ok tt ∧ Forall is_byte (p_origin p) ∧ 2 ≤ len (p_origin p);
  po_serial : is_u32 (p_serial p) ∧ is_u32 (p_from_serial p);
  po_a : Forall (rec_ok (p_origin p)) (p_a p);
  po_b : Forall (rec_ok (p_origin p)) (p_b p);
  po_full : p_kind p = FullImage → p_from_serial p = 0 ∧ p_b p = [] }.
Lemma parse_body_post buf kind origin r : reader_ok r → validName origin = Ok tt → Forall is_byte origin → 2 ≤ len origin →
  post (parse_body buf kind origin r) parsed_ok.
Proof.
  intros Hr Hv Hb Hl. unfold parse_body.
  eapply post_bind; [by apply nz_u32_post|]. intros [serial r1] (Hr1 & _ & Hs). simpl in *.
  eapply post_bind; [by apply nz_u32_post|]. intros [from r2] (Hr2 & _ & Hf). simpl in *.
  eapply post_bind; [by apply nz_u32_post|]. intros [ca r3] (Hr3 & _ & Hca). simpl in *.
  eapply post_bind; [by apply nz_u32_post|]. intros [cb r4] (Hr4 & _ & Hcb). simpl in *.
  apply post_guard. intros _. apply post_guard. intros Hk.
  eapply post_bind; [by apply nz_records_post|]. intros [a r5] (Hr5 & _ & Ha). simpl in *.
  destruct (decide (kind = FullImage)) as [->|Hne].
  - rewrite bool_decide_eq_true_2 in Hk by done. simpl in Hk. apply orb_false_iff in Hk as [->%negb_false_iff%Z.eqb_eq ->%negb_false_iff%Z.eqb_eq].
    simpl. apply post_guard. intros _. by split.
  - eapply post_bind; [by apply nz_records_post|]. intros [b r6] (_ & _ & Hb'). simpl in *. apply post_guard. intros _. by split.
Qed.

Lemma parse_post buf : Forall is_byte buf → post (parse buf) parsed_ok.
Proof.
  intros Hb. unfold parse. assert (reader_ok (mkReader buf 0)) as Hr by (split; simpl; [done|len_lia]).
  eapply post_bind; [by apply nz_take_post|]. intros [m r1] (Hr1 & _ & _). simpl in *. apply post_guard. intros _.
  eapply post_bind; [by apply nz_u8_post|]. intros [k r2] (Hr2 & _ & _). simpl in *.
  eapply (post_bind _ _ (λ _, True)); [by repeat case_match|]. intros kind _.
  eapply post_bind; [by apply nz_u8_post|]. intros [rs r3] (Hr3 & _ & _). simpl in *. apply post_guard. intros _.
  eapply post_bind; [by apply nz_name_post|]. intros [origin r4] (Hr4 & _ & Hob & Hv). simpl in *. apply post_guard. intros Hl%Z.ltb_ge.
  by apply parse_body_post.
Qed.

(** C37: Whatever octets a blob holds, the engine's parser returns, with no index out of range and no
    endless loop, and what it accepts is well formed: the origin is a valid name other than the root,
    every record has a valid owner at or below the origin, class IN and fields within their types,
    and a full image holds no added records. *)
Theorem parse_typed buf : Forall is_byte buf → returns (parse buf) ∧ ∀ p, parse buf = Ok p → parsed_ok p.
Proof.
  intros Hb%parse_post. split; [by eapply post_returns|]. intros p E. by eapply post_Ok.
Qed.
