(* ===== verification/EngineZone.v ===== *)
(** * The engine's zone

    engine/src/authoritative/zone.rs: a zone as nodes by canonical key, built from a full image,
    advanced by deltas, and finished by [finalize], which adds the empty non-terminals, checks the
    SOA and computes the node flags and the indexes of the denial records.  Nodes are shared between
    versions in the code; a delta copies those it changes, so the model copies all of them. *)

From S2P Require Import Prelude.
From S2P Require Import GoText.
From S2P Require Import NzfNames.
From S2P Require Import EngineName.
From S2P Require Import EngineNzf.

Definition T_A : Z := 1.
Definition T_NS : Z := 2.
Definition T_CNAME : Z := 5.
Definition T_SOA : Z := 6.
Definition T_AAAA : Z := 28.
Definition T_DNAME : Z := 39.
Definition T_DS : Z := 43.
Definition T_RRSIG : Z := 46.
Definition T_NSEC : Z := 47.
Definition T_DNSKEY : Z := 48.
Definition T_NSEC3 : Z := 50.
Definition T_NSEC3PARAM : Z := 51.
Definition T_ANY : Z := 255.

Definition NODE_CUT : Z := 1.
Definition NODE_WILDCARD_CHILD : Z := 2.
Definition NODE_BELOW_CUT : Z := 4.
Definition RRSIG_MIN_RDATA : Z := 19.

Record RRset := mkRRset { rs_rtype : Z; rs_ttl : Z; rs_rdata : list bytes; rs_sigs : list bytes }.
Record Node := mkNode { nd_owner : bytes; nd_rrsets : list RRset; nd_flags : Z }.
Abbreviation nodemap := (gmap bytes Node).
Definition node_get (n : Node) (rtype : Z) : option RRset :=
  snd <$> list_find (λ s, rs_rtype s = rtype ∧ rs_rdata s ≠ []) (nd_rrsets n).
Definition is_cut (n : Node) : bool := negb (Z.land (nd_flags n) NODE_CUT =? 0).

Inductive ZoneError : Type :=
| NotFull | NotDelta | NoSoa | BadSoa | OriginMismatch | SerialMismatch (have delta_from : Z) | DeleteAbsent | BadRrsig.
Abbreviation zres := (res ZoneError).

(** The type whose RRset a record belongs to, and whether it is a signature. *)
Definition covered (r : record) : zres (Z * bool) :=
  if negb (RType r =? T_RRSIG) then Ok (RType r, false)
  else if len (RData r) <? RRSIG_MIN_RDATA then Err BadRrsig
  else match get16 (RData r) with Some t => Ok (t, true) | None => Panic end.

(** ** Records in and out *)
Definition add_unique (d : bytes) (l : list bytes) : list bytes := if bool_decide (d ∈ l) then l else l ++ [d].
Definition add_data (is_sig : bool) (r : record) (s : RRset) : RRset :=
  if is_sig then mkRRset (rs_rtype s) (rs_ttl s) (rs_rdata s) (add_unique (RData r) (rs_sigs s))
  else mkRRset (rs_rtype s) (TTL r) (add_unique (RData r) (rs_rdata s)) (rs_sigs s).
(** The binary search by type in the sorted list: the set that is there, or one put in its place. *)
Fixpoint put_set (rtype ttl : Z) (f : RRset → RRset) (l : list RRset) : list RRset :=
  match l with
  | [] => [f (mkRRset rtype ttl [] [])]
  | s :: l =>
      if rs_rtype s =? rtype then f s :: l
      else if rtype <? rs_rtype s then f (mkRRset rtype ttl [] []) :: s :: l
      else s :: put_set rtype ttl f l
  end.
Definition zone_insert (nodes : nodemap) (r : record) : zres nodemap :=
  '(rtype, is_sig) ← covered r;
  let key := canon_key (Owner r) in
  let n := default (mkNode (Owner r) [] 0) (nodes !! key) in
  Ok (<[key := mkNode (nd_owner n) (put_set rtype (TTL r) (add_data is_sig r) (nd_rrsets n)) (nd_flags n)]> nodes).

(** Removes the first occurrence. *)
Fixpoint remove_data (d : bytes) (l : list bytes) : option (list bytes) :=
  match l with
  | [] => None
  | x :: l => if bool_decide (x = d) then Some l else l' ← remove_data d l; Some (x :: l')
  end.
Definition drop_data (is_sig : bool) (d : bytes) (s : RRset) : option (option RRset) :=
  s' ← (if is_sig then l ← remove_data d (rs_sigs s); Some (mkRRset (rs_rtype s) (rs_ttl s) (rs_rdata s) l)
        else l ← remove_data d (rs_rdata s); Some (mkRRset (rs_rtype s) (rs_ttl s) l (rs_sigs s)));
  Some (if bool_decide (rs_rdata s' = [] ∧ rs_sigs s' = []) then None else Some s').
Fixpoint drop_set (rtype : Z) (is_sig : bool) (d : bytes) (l : list RRset) : option (list RRset) :=
  match l with
  | [] => None
  | s :: l =>
      if rs_rtype s =? rtype then s' ← drop_data is_sig d s; Some (match s' with Some s' => s' :: l | None => l end)
      else l' ← drop_set rtype is_sig d l; Some (s :: l')
  end.
Definition zone_remove (nodes : nodemap) (r : record) : zres nodemap :=
  '(rtype, is_sig) ← covered r;
  let key := canon_key (Owner r) in
  match nodes !! key with
  | None => Err DeleteAbsent
  | Some n =>
      match drop_set rtype is_sig (RData r) (nd_rrsets n) with
      | None => Err DeleteAbsent
      | Some l => Ok (<[key := mkNode (nd_owner n) l (nd_flags n)]> nodes)
      end
  end.

(** ** The SOA *)
Fixpoint name_len_loop (fuel : nat) (b : bytes) (i : Z) : option Z :=
  match fuel with
  | O => None
  | S fuel =>
      l ← idx b i;
      if l =? 0 then (if i <? 255 then Some (i + 1) else None)
      else if 0x40 <=? l then None else name_len_loop fuel b (i + (l + 1))
  end.
Definition name_len (b : bytes) : option Z := name_len_loop (S (length b)) b 0.
Definition soa_serial (rdata : bytes) : option Z :=
  m ← name_len rdata;
  r ← name_len (drop (Z.to_nat m) rdata);
  let s := drop (Z.to_nat (m + r)) rdata in
  if len s =? 20 then get32 s else None.

(** ** Finishing *)
(** The nodes in key order. *)
Definition in_key_order {A} (m : gmap bytes A) : list (bytes * A) := stable_sort (λ p q, bytes_lt p.1 q.1) (map_to_list m).

Definition has_data (n : Node) : bool := existsb (λ s, negb (bool_decide (rs_rdata s = [])) || negb (bool_decide (rs_sigs s = []))) (nd_rrsets n).
(** The names strictly between an owner and the origin. *)
Definition between (origin_labels : nat) (owner : bytes) : list bytes :=
  let offs := label_offsets owner in
  map (λ o, drop (Z.to_nat o) owner) (take (Nat.max 1 (length offs - origin_labels) - 1) (drop 1 offs)).
Definition add_empty (nodes : nodemap) (anc : bytes) : nodemap :=
  let key := canon_key anc in
  match nodes !! key with Some _ => nodes | None => <[key := mkNode anc [] 0]> nodes end.

Definition star : bytes := [42; 0].
Fixpoint starts_with (k c : bytes) : bool :=
  match c, k with
  | [], _ => true
  | x :: c, y :: k => (x =? y) && starts_with k c
  | _ :: _, [] => false
  end.
Fixpoint flag_loop (apex_key : bytes) (nodes : nodemap) (cut : option bytes) (l : list (bytes * Node)) : zres (list (bytes * Node)) :=
  match l with
  | [] => Ok []
  | (k, n) :: l =>
      let apex := bool_decide (k = apex_key) in
      if bool_decide (node_get n T_SOA ≠ None) && negb apex then Err NoSoa
      else
        let below := match cut with Some c => (len c <? len k) && starts_with k c | None => false end in
        let cut := if below then cut else None in
        let is_cut := negb apex && bool_decide (node_get n T_NS ≠ None) in
        let cut := if is_cut then (match cut with None => Some k | _ => cut end) else cut in
        let f := Z.lor (Z.lor (if below then NODE_BELOW_CUT else 0) (if is_cut then NODE_CUT else 0))
                   (if bool_decide (nodes !! (k ++ star) ≠ None) then NODE_WILDCARD_CHILD else 0) in
        rest ← flag_loop apex_key nodes cut l;
        Ok ((k, mkNode (nd_owner n) (nd_rrsets n) f) :: rest)
  end.

(** nsec3.rs: 32 characters of base32hex, five bits each, to 20 octets. *)
Definition b32_value (c : Z) : option Z :=
  let c := ascii_lower c in
  if (48 <=? c) && (c <=? 57) then Some (c - 48) else if (97 <=? c) && (c <=? 118) then Some (c - 97 + 10) else None.
Fixpoint b32_loop (bits nbits : Z) (label : bytes) : option bytes :=
  match label with
  | [] => Some []
  | c :: label =>
      v ← b32_value c;
      let bits := u64 (Z.lor (Z.shiftl bits 5) v) in
      let nbits := nbits + 5 in
      if 8 <=? nbits then out ← b32_loop bits (nbits - 8) label; Some (u8 (Z.shiftr bits (nbits - 8)) :: out)
      else b32_loop bits nbits label
  end.
Definition decode_b32hex (label : bytes) : option bytes := if len label =? 32 then b32_loop 0 0 label else None.
Definition decode_b32hex_label (owner : bytes) : option bytes :=
  match owner with
  | 32 :: rest => if 32 <=? len rest then decode_b32hex (take 32 rest) else None
  | _ => None
  end.

Record OwnedRecord := mkOwned { ow_owner : bytes; ow_rtype : Z; ow_ttl : Z; ow_rdata : bytes }.
Record DeltaRecords := mkDeltaRecords { dr_from : Z; dr_to : Z; dr_deleted : list OwnedRecord; dr_added : list OwnedRecord }.
Definition own (r : record) : OwnedRecord := mkOwned (Owner r) (RType r) (TTL r) (RData r).
Definition from_parsed (p : Parsed) : DeltaRecords := mkDeltaRecords (p_from_serial p) (p_serial p) (map own (p_a p)) (map own (p_b p)).

Section zone.
(** What the loader sets: history, expiry, and the policy, [no_policy] when it is not set. *)
Context {Policy : Type} (no_policy : Policy).
Record EZone := mkEZone {
  ez_origin : bytes; ez_apex_key : bytes; ez_origin_labels : nat; ez_serial : Z; ez_nodes : nodemap;
  ez_nsec : list bytes; ez_nsec3 : gmap bytes bytes; ez_nsec3param : option bytes;
  ez_deltas : list DeltaRecords; ez_expired : bool; ez_policy : Policy }.

(** [finalize] on the parts of the zone it reads and writes. *)
Definition check_apex (serial : Z) (apex_key : bytes) (nodes : nodemap) : zres unit :=
  match nodes !! apex_key with
  | None => Err NoSoa
  | Some apex =>
      match node_get apex T_SOA with
      | None => Err NoSoa
      | Some soa =>
          match rs_rdata soa with
          | [d] => if bool_decide (soa_serial d = Some serial) then Ok tt else Err BadSoa
          | _ => Err NoSoa
          end
      end
  end.
Definition with_empty (origin_labels : nat) (nodes : nodemap) : nodemap :=
  foldl add_empty nodes (concat (map (λ p, between origin_labels (nd_owner p.2)) (in_key_order nodes))).
Definition finalize (origin apex_key : bytes) (origin_labels : nat) (serial : Z) (nodes : nodemap) : zres EZone :=
  let nodes := with_empty origin_labels (filter (λ p, has_data p.2 = true) nodes) in
  check_apex serial apex_key nodes;;
  flagged ← flag_loop apex_key nodes None (in_key_order nodes);
  let nodes := list_to_map flagged in
  let having t := filter (λ p, node_get p.2 t ≠ None) flagged in
  Ok (mkEZone origin apex_key origin_labels serial nodes (map fst (having T_NSEC))
    (list_to_map (rev (omap (λ p, h ← decode_b32hex_label (nd_owner p.2); Some (h, p.1)) (having T_NSEC3))))
    (apex ← nodes !! apex_key; s ← node_get apex T_NSEC3PARAM; head (rs_rdata s)) [] false no_policy).

Definition from_image (p : Parsed) : zres EZone :=
  if negb (bool_decide (p_kind p = FullImage)) then Err NotFull
  else
    let origin := lowercase (p_origin p) in
    nodes ← fold_res zone_insert ∅ (p_a p);
    finalize origin (canon_key origin) (length (label_offsets origin)) (p_serial p) nodes.
Definition zone_apply (z : EZone) (d : Parsed) : zres EZone :=
  if negb (bool_decide (p_kind d = DeltaImage)) then Err NotDelta
  else if negb (eq_ignore_ascii_case (p_origin d) (ez_origin z)) then Err OriginMismatch
  else if negb (p_from_serial d =? ez_serial z) then Err (SerialMismatch (ez_serial z) (p_from_serial d))
  else
    nodes ← fold_res zone_remove (ez_nodes z) (p_a d);
    nodes ← fold_res zone_insert nodes (p_b d);
    finalize (ez_origin z) (ez_apex_key z) (ez_origin_labels z) (p_serial d) nodes.

Definition node_by_key (z : EZone) (key : bytes) : option Node := ez_nodes z !! key.
Definition zone_node (z : EZone) (wire : bytes) : option Node := node_by_key z (canon_key_buf wire).
(** A reference to a node is its key with it.  The greatest NSEC key up to [key], or the last one. *)
Definition nsec_covering (z : EZone) (key : bytes) : option (bytes * Node) :=
  k ← match last (filter (λ k, bytes_lt key k = false) (ez_nsec z)) with Some k => Some k | None => last (ez_nsec z) end;
  n ← node_by_key z k; Some (k, n).
Definition nsec3_node (z : EZone) (hash : bytes) : option (bytes * Node) := k ← ez_nsec3 z !! hash; n ← node_by_key z k; Some (k, n).
(** The greatest hash below [hash], or the last one. *)
Definition nsec3_covering (z : EZone) (hash : bytes) : option (bytes * Node) :=
  let hashes := in_key_order (ez_nsec3 z) in
  p ← match last (filter (λ p, bytes_lt p.1 hash = true) hashes) with Some p => Some p | None => last hashes end;
  n ← node_by_key z p.2; Some (p.2, n).
Definition is_signed (z : EZone) : option bool :=
  apex ← node_by_key z (ez_apex_key z); Some (bool_decide (node_get apex T_DNSKEY ≠ None)).
End zone.
Arguments EZone : clear implicits.
