(* ===== verification/EngineContent.v ===== *)
(** * What the engine's zone holds

    The records of a zone, whatever order they came in: [serves] gives the data of the RRsets with
    their time to live, [signs] the signatures.  Inserting and removing a record change exactly that
    record; a zone built from an image holds the image, and a delta leaves what it does not name. *)

From S2P Require Import Prelude.
From S2P Require Import GoText.
From S2P Require Import NzfNames.
From S2P Require Import NzfFormat.
From S2P Require Import EngineName.
From S2P Require Import EngineNzf.
From S2P Require Import EngineZone.

(** ** RRsets of a node *)
Definition set_data (l : list RRset) (t : Z) (d : bytes) (ttl : Z) : Prop :=
  ∃ s, s ∈ l ∧ rs_rtype s = t ∧ d ∈ rs_rdata s ∧ rs_ttl s = ttl.
Definition set_sig (l : list RRset) (t : Z) (d : bytes) : Prop := ∃ s, s ∈ l ∧ rs_rtype s = t ∧ d ∈ rs_sigs s.
Definition set_ok (s : RRset) : Prop := NoDup (rs_rdata s) ∧ NoDup (rs_sigs s) ∧ (rs_rdata s ≠ [] ∨ rs_sigs s ≠ []).
Definition sets_ok (l : list RRset) : Prop := StronglySorted (λ a b, rs_rtype a < rs_rtype b) l ∧ Forall set_ok l.

Lemma sets_ok_cons s l : sets_ok (s :: l) ↔ set_ok s ∧ Forall (λ b, rs_rtype s < rs_rtype b) l ∧ sets_ok l.
Proof. unfold sets_ok. rewrite Forall_cons. split; [intros [[? ?]%StronglySorted_inv [? ?]]; done|intros (? & ? & ? & ?)]. split; [by constructor|done]. Qed.
Lemma set_data_cons s l t d v : set_data (s :: l) t d v ↔ (rs_rtype s = t ∧ d ∈ rs_rdata s ∧ rs_ttl s = v) ∨ set_data l t d v.
Proof. unfold set_data. setoid_rewrite elem_of_cons. naive_solver. Qed.
Lemma set_sig_cons s l t d : set_sig (s :: l) t d ↔ (rs_rtype s = t ∧ d ∈ rs_sigs s) ∨ set_sig l t d.
Proof. unfold set_sig. setoid_rewrite elem_of_cons. naive_solver. Qed.
Lemma set_data_nil t d v : ¬ set_data [] t d v.
Proof. by intros (s & ?%not_elem_of_nil & _). Qed.
Lemma set_sig_nil t d : ¬ set_sig [] t d.
Proof. by intros (s & ?%not_elem_of_nil & _). Qed.
Lemma above_data s l t d v : Forall (λ b, rs_rtype s < rs_rtype b) l → set_data l t d v → rs_rtype s < t.
Proof. rewrite Forall_forall. intros H (b & Hb & <- & _). by apply H. Qed.
Lemma above_sig s l t d : Forall (λ b, rs_rtype s < rs_rtype b) l → set_sig l t d → rs_rtype s < t.
Proof. rewrite Forall_forall. intros H (b & Hb & <- & _). by apply H. Qed.

Lemma elem_of_add_unique d l x : x ∈ add_unique d l ↔ x ∈ l ∨ x = d.
Proof. unfold add_unique. case_bool_decide; [naive_solver|]. by rewrite elem_of_app, list_elem_of_singleton. Qed.
Lemma NoDup_add_unique d l : NoDup l → NoDup (add_unique d l).
Proof.
  intros Hl. unfold add_unique. case_bool_decide; [done|]. apply NoDup_app. split_and!; [done|by intros x ? ->%list_elem_of_singleton|apply NoDup_singleton].
Qed.
Lemma add_unique_ne d l : add_unique d l ≠ [].
Proof. unfold add_unique. case_bool_decide as H; [by intros ->; apply not_elem_of_nil in H|by destruct l]. Qed.

Lemma add_data_type sig r s : rs_rtype (add_data sig r s) = rs_rtype s.
Proof. by destruct sig. Qed.
Lemma add_data_ok sig r s : NoDup (rs_rdata s) → NoDup (rs_sigs s) → set_ok (add_data sig r s).
Proof. intros H1 H2. destruct sig; split_and!; simpl; auto using NoDup_add_unique, add_unique_ne. Qed.

(** ** Putting a record in *)
Lemma put_set_types t ttl f l b : (∀ s, rs_rtype (f s) = rs_rtype s) → b ∈ put_set t ttl f l → rs_rtype b = t ∨ ∃ s, s ∈ l ∧ rs_rtype b = rs_rtype s.
Proof.
  intros Hf. induction l as [|s l IH]; simpl; [intros ->%list_elem_of_singleton; rewrite Hf; auto|].
  destruct (Z.eqb_spec (rs_rtype s) t); [|destruct (t <? rs_rtype s)]; rewrite !elem_of_cons.
  - intros [->|Hb]; [rewrite Hf; auto|eauto 10 with set_solver]. right. exists b. set_solver.
  - intros [->|[->|Hb]]; [rewrite Hf; auto|right; exists s; set_solver|right; exists b; set_solver].
  - intros [->|Hb]; [right; exists s; set_solver|]. destruct (IH Hb) as [?|(x & ? & ?)]; [auto|right; exists x; set_solver].
Qed.
Lemma put_set_ok t ttl sig r l : sets_ok l → sets_ok (put_set t ttl (add_data sig r) l).
Proof.
  assert (∀ v, set_ok (add_data sig r (mkRRset t v [] []))) as Hn by (intros v; apply add_data_ok; constructor).
  induction l as [|s l IH]; simpl; [intros _; split; [repeat constructor|by constructor; [apply Hn|]]|]. rewrite sets_ok_cons. intros ((? & ? & Hne) & Hs & Hl).
  destruct (Z.eqb_spec (rs_rtype s) t); [|destruct (Z.ltb_spec t (rs_rtype s))].
  - rewrite sets_ok_cons. split_and!; [by apply add_data_ok| |done]. by rewrite add_data_type.
  - rewrite !sets_ok_cons. split_and!; [done| |done..]. rewrite add_data_type. simpl. constructor; [done|].
    eapply Forall_impl; [done|]. simpl. lia.
  - rewrite sets_ok_cons. split_and!; [done| |by apply IH]. apply Forall_forall. intros b Hb.
    apply put_set_types in Hb as [->|(x & Hx & ->)]; [lia| |apply add_data_type]. rewrite Forall_forall in Hs. auto.
Qed.
Lemma put_data t ttl r l t' d v : sets_ok l →
  set_data (put_set t ttl (add_data false r) l) t' d v ↔
  (t' ≠ t ∧ set_data l t' d v) ∨ (t' = t ∧ v = TTL r ∧ (d = RData r ∨ ∃ v', set_data l t d v')).
Proof.
  induction l as [|s l IH]; simpl.
  - intros _. rewrite set_data_cons. simpl. rewrite elem_of_add_unique.
    pose proof (set_data_nil t' d v). pose proof (set_data_nil t d). set_solver.
  - rewrite sets_ok_cons. intros (_ & Hs & Hl). specialize (IH Hl). pose proof (above_data s l t' d v Hs) as A1. pose proof (λ v, above_data s l t d v Hs) as A2.
    destruct (Z.eqb_spec (rs_rtype s) t) as [E|E]; [|destruct (Z.ltb_spec t (rs_rtype s))].
    + rewrite set_data_cons. simpl. rewrite elem_of_add_unique. setoid_rewrite set_data_cons. subst t. split.
      * intros [(<- & [?| ->] & <-)|Hd]; [right; eauto 8|right; auto|]. left. split; [|auto]. specialize (A1 Hd). lia.
      * intros [[Hn [(? & _)|?]]|(-> & -> & [->|(v' & [(_ & ? & _)|Hd])])]; [congruence|auto|auto|auto|]. specialize (A2 _ Hd). lia.
    + rewrite set_data_cons. simpl. rewrite elem_of_add_unique. split.
      * intros [(<- & [?%not_elem_of_nil| ->] & <-)|Hd]; [done|right; auto|]. left. split; [|done]. intros ->.
        apply set_data_cons in Hd as [(? & _)|Hd]; [done|]. specialize (A1 Hd). lia.
      * intros [[Hn ?]|(-> & -> & [->|(v' & [(? & _)|Hd]%set_data_cons)])]; [auto|auto|done|]. specialize (A2 _ Hd). lia.
    + setoid_rewrite set_data_cons. rewrite IH. split.
      * intros [(<- & ? & ?)|[[? ?]|(? & ? & [?|(v' & ?)])]]; [left; auto|left; auto|right; auto|right; eauto 8].
      * intros [[? [?|?]]|(? & ? & [?|(v' & [(? & _)|?])])]; [auto|auto|right; right; auto|congruence|right; right; eauto 8].
Qed.
Lemma put_data_sig t ttl r l t' d v : set_data (put_set t ttl (add_data true r) l) t' d v ↔ set_data l t' d v.
Proof.
  induction l as [|s l IH]; simpl; [rewrite set_data_cons; simpl; set_solver|].
  destruct (_ =? _); [by rewrite !set_data_cons|]. destruct (_ <? _); rewrite !set_data_cons; simpl; [set_solver|by rewrite IH].
Qed.
Lemma put_sig t ttl sig r l t' d :
  set_sig (put_set t ttl (add_data sig r) l) t' d ↔ set_sig l t' d ∨ (sig = true ∧ t' = t ∧ d = RData r).
Proof.
  induction l as [|s l IH]; simpl.
  - rewrite set_sig_cons. destruct sig; simpl; [rewrite elem_of_add_unique|]; set_solver.
  - destruct (Z.eqb_spec (rs_rtype s) t); [|destruct (_ <? _)]; rewrite ?set_sig_cons, ?add_data_type; simpl.
    + destruct sig; simpl; [rewrite elem_of_add_unique|]; set_solver.
    + destruct sig; simpl; [rewrite elem_of_add_unique|]; set_solver.
    + rewrite IH. tauto.
Qed.

(** ** Taking a record out *)
Lemma remove_data_Some d l l' : NoDup l → remove_data d l = Some l' → d ∈ l ∧ NoDup l' ∧ ∀ x, x ∈ l' ↔ x ∈ l ∧ x ≠ d.
Proof.
  revert l'. induction l as [|x l IH]; intros l'; [done|]. simpl. intros [Hx Hl]%NoDup_cons. case_bool_decide as E.
  - intros [= <-]. subst x. split_and!; [set_solver|done|]. set_solver.
  - destruct (remove_data d l) as [k|] eqn:Ek; [|done]. intros [= <-]. destruct (IH k Hl eq_refl) as (? & ? & Hk).
    split_and!; [set_solver|apply NoDup_cons; set_solver|set_solver].
Qed.
Lemma remove_data_None d l : remove_data d l = None ↔ d ∉ l.
Proof.
  induction l as [|x l IH]; simpl; [set_solver|]. case_bool_decide; [set_solver|].
  destruct (remove_data d l); simpl; [|set_solver]. split; [done|]. intros Hn. exfalso. assert (d ∈ l); [|set_solver].
  destruct (decide (d ∈ l)); [done|]. by apply IH in n.
Qed.

Lemma set_data_one s t d v : set_data [s] t d v ↔ rs_rtype s = t ∧ d ∈ rs_rdata s ∧ rs_ttl s = v.
Proof. rewrite set_data_cons. pose proof (set_data_nil t d v). tauto. Qed.
Lemma set_sig_one s t d : set_sig [s] t d ↔ rs_rtype s = t ∧ d ∈ rs_sigs s.
Proof. rewrite set_sig_cons. pose proof (set_sig_nil t d). tauto. Qed.
(** What is left of a set, as a list of none or one. *)
Definition keep (s : RRset) : option RRset := if bool_decide (rs_rdata s = [] ∧ rs_sigs s = []) then None else Some s.
Lemma keep_spec s : NoDup (rs_rdata s) → NoDup (rs_sigs s) →
  Forall set_ok (option_list (keep s)) ∧ Forall (λ s', rs_rtype s' = rs_rtype s) (option_list (keep s)) ∧
  (∀ t x v, set_data (option_list (keep s)) t x v ↔ set_data [s] t x v) ∧ (∀ t x, set_sig (option_list (keep s)) t x ↔ set_sig [s] t x).
Proof.
  intros H1 H2. unfold keep. case_bool_decide as E; simpl.
  - destruct E as [E1 E2]. setoid_rewrite set_data_one. setoid_rewrite set_sig_one. rewrite E1, E2.
    split_and!; [done..| |]; intros t x; [intros v|]; [pose proof (set_data_nil t x v)|pose proof (set_sig_nil t x)]; set_solver.
  - split_and!; [|by constructor|done..]. constructor; [|done]. split_and!; [done..|].
    destruct (decide (rs_rdata s = [])); [right|left]; tauto.
Qed.
Lemma drop_data_Some sig d s o : set_ok s → drop_data sig d s = Some o →
  (if sig then d ∈ rs_sigs s else d ∈ rs_rdata s) ∧
  Forall set_ok (option_list o) ∧ Forall (λ s', rs_rtype s' = rs_rtype s) (option_list o) ∧
  (∀ t x v, set_data (option_list o) t x v ↔ set_data [s] t x v ∧ ¬ (sig = false ∧ x = d)) ∧
  (∀ t x, set_sig (option_list o) t x ↔ set_sig [s] t x ∧ ¬ (sig = true ∧ x = d)).
Proof.
  intros (H1 & H2 & _). unfold drop_data. destruct sig; simpl.
  - destruct (remove_data d (rs_sigs s)) as [l|] eqn:E; [|done]. apply remove_data_Some in E as (Hd & Hl & Hx); [|done].
    intros [= <-]. destruct (keep_spec (mkRRset (rs_rtype s) (rs_ttl s) (rs_rdata s) l) H1 Hl) as (K1 & K2 & K3 & K4).
    split_and!; [done..| |]; intros t x; [intros v; rewrite K3, !set_data_one|rewrite K4, !set_sig_one]; simpl; naive_solver.
  - destruct (remove_data d (rs_rdata s)) as [l|] eqn:E; [|done]. apply remove_data_Some in E as (Hd & Hl & Hx); [|done].
    intros [= <-]. destruct (keep_spec (mkRRset (rs_rtype s) (rs_ttl s) l (rs_sigs s)) Hl H2) as (K1 & K2 & K3 & K4).
    split_and!; [done..| |]; intros t x; [intros v; rewrite K3, !set_data_one|rewrite K4, !set_sig_one]; simpl; naive_solver.
Qed.
Lemma drop_data_None sig d s : drop_data sig d s = None ↔ d ∉ (if sig then rs_sigs s else rs_rdata s).
Proof.
  unfold drop_data. destruct sig; rewrite <- remove_data_None; by destruct (remove_data d _).
Qed.
Lemma set_data_app l1 l2 t d v : set_data (l1 ++ l2) t d v ↔ set_data l1 t d v ∨ set_data l2 t d v.
Proof. unfold set_data. setoid_rewrite elem_of_app. naive_solver. Qed.
Lemma set_sig_app l1 l2 t d : set_sig (l1 ++ l2) t d ↔ set_sig l1 t d ∨ set_sig l2 t d.
Proof. unfold set_sig. setoid_rewrite elem_of_app. naive_solver. Qed.

Lemma drop_set_types t sig d l l' b : drop_set t sig d l = Some l' → sets_ok l → b ∈ l' → ∃ s, s ∈ l ∧ rs_rtype b = rs_rtype s.
Proof.
  revert l'. induction l as [|s l IH]; intros l'; [done|]. simpl. rewrite sets_ok_cons. destruct (_ =? _).
  - destruct (drop_data sig d s) as [o|] eqn:E; [|done]. intros [= <-] (Hs & _ & Hl) Hb.
    apply drop_data_Some in E as (_ & _ & Ht & _); [|done]. rewrite Forall_forall in Ht.
    assert (b ∈ option_list o ++ l) as Hb' by by destruct o. apply elem_of_app in Hb' as [?%Ht|]; [exists s|exists b]; set_solver.
  - destruct (drop_set t sig d l) as [k|] eqn:E; [|done]. intros [= <-] (Hs & _ & Hl) [->|Hb]%elem_of_cons; [exists s; set_solver|].
    destruct (IH _ eq_refl Hl Hb) as (x & ? & ?). exists x. set_solver.
Qed.
Lemma sets_ok_app_opt s o l : Forall set_ok (option_list o) → Forall (λ s', rs_rtype s' = rs_rtype s) (option_list o) →
  Forall (λ b, rs_rtype s < rs_rtype b) l → sets_ok l → sets_ok (option_list o ++ l).
Proof.
  destruct o as [s'|]; simpl; [|done]. rewrite !Forall_singleton, sets_ok_cons. by intros H1 ->.
Qed.
Lemma drop_set_Some t sig d l l' : sets_ok l → drop_set t sig d l = Some l' →
  sets_ok l' ∧ (if sig then set_sig l t d else ∃ v, set_data l t d v) ∧
  (∀ t' x v, set_data l' t' x v ↔ set_data l t' x v ∧ ¬ (sig = false ∧ t' = t ∧ x = d)) ∧
  (∀ t' x, set_sig l' t' x ↔ set_sig l t' x ∧ ¬ (sig = true ∧ t' = t ∧ x = d)).
Proof.
  revert l'. induction l as [|s l IH]; intros l'; [done|]. simpl. rewrite sets_ok_cons. intros (Hs & Hlt & Hl).
  destruct (Z.eqb_spec (rs_rtype s) t) as [E|E].
  - destruct (drop_data sig d s) as [o|] eqn:Eo; [|done]. intros [= <-].
    apply drop_data_Some in Eo as (Hd & Ho & Ht & Hx & Hy); [|done].
    assert (match o with Some s' => s' :: l | None => l end = option_list o ++ l) as -> by by destruct o. split_and!.
    + by eapply sets_ok_app_opt.
    + destruct sig; [apply set_sig_cons|exists (rs_ttl s); apply set_data_cons]; auto.
    + intros t' x v. rewrite set_data_app, Hx, set_data_one, set_data_cons. pose proof (above_data s l t' x v Hlt) as A. subst t.
      assert (set_data l t' x v → t' ≠ rs_rtype s) by (intros ?%A; lia). naive_solver.
    + intros t' x. rewrite set_sig_app, Hy, set_sig_one, set_sig_cons. pose proof (above_sig s l t' x Hlt) as A. subst t.
      assert (set_sig l t' x → t' ≠ rs_rtype s) by (intros ?%A; lia). naive_solver.
  - destruct (drop_set t sig d l) as [k|] eqn:Ek; [|done]. intros [= <-]. destruct (IH k Hl eq_refl) as (H1 & H2 & H3 & H4). split_and!.
    + apply sets_ok_cons. split_and!; [done| |done]. rewrite Forall_forall in *. intros b Hb.
      destruct (drop_set_types _ _ _ _ _ b Ek Hl Hb) as (x & ? & ->). auto.
    + destruct sig; [apply set_sig_cons; auto|]. destruct H2 as [v ?]. exists v. apply set_data_cons. auto.
    + intros t' x v. rewrite !set_data_cons, H3. intuition congruence.
    + intros t' x. rewrite !set_sig_cons, H4. intuition congruence.
Qed.
Lemma drop_set_None t sig d l : sets_ok l → drop_set t sig d l = None → ¬ (if sig then set_sig l t d else ∃ v, set_data l t d v).
Proof.
  induction l as [|s l IH]; simpl.
  - intros _ _. destruct sig; [apply set_sig_nil|]. intros [v Hv]. by apply set_data_nil in Hv.
  - rewrite sets_ok_cons. intros (Hs & Hlt & Hl). destruct (Z.eqb_spec (rs_rtype s) t) as [E|E].
    + destruct (drop_data sig d s) as [o|] eqn:Eo; [done|]. apply drop_data_None in Eo. intros _. destruct sig.
      * intros [[_ ?]|Hg]%set_sig_cons; [done|]. apply (above_sig s) in Hg; [lia|done].
      * intros [v [(_ & ? & _)|Hg]%set_data_cons]; [done|]. apply (above_data s) in Hg; [lia|done].
    + destruct (drop_set t sig d l) as [k|] eqn:Ek; [done|]. intros _. specialize (IH Hl eq_refl). destruct sig.
      * intros [[? _]|?]%set_sig_cons; done.
      * intros [v [(? & _)|?]%set_data_cons]; [done|]. apply IH. by exists v.
Qed.

(** ** Zones *)
Definition serves (ns : nodemap) (k : bytes) (t : Z) (d : bytes) (ttl : Z) : Prop := ∃ n, ns !! k = Some n ∧ set_data (nd_rrsets n) t d ttl.
Definition signs (ns : nodemap) (k : bytes) (t : Z) (d : bytes) : Prop := ∃ n, ns !! k = Some n ∧ set_sig (nd_rrsets n) t d.
Definition nodes_ok (ns : nodemap) : Prop := map_Forall (λ k n, canon_key (nd_owner n) = k ∧ sets_ok (nd_rrsets n)) ns.

(** Where a record goes: node, type of the RRset, whether it is a signature, data. *)
Definition slot_of (r : record) : option (bytes * Z * bool * bytes) :=
  match covered r with Ok (t, sig) => Some (canon_key (Owner r), t, sig, RData r) | _ => None end.
Definition has_data_of (S : list record) (k : bytes) (t : Z) (d : bytes) (ttl : Z) : Prop :=
  ∃ r, r ∈ S ∧ slot_of r = Some (k, t, false, d) ∧ TTL r = ttl.
Definition has_sig_of (S : list record) (k : bytes) (t : Z) (d : bytes) : Prop := ∃ r, r ∈ S ∧ slot_of r = Some (k, t, true, d).
Definition represents (ns : nodemap) (S : list record) : Prop :=
  nodes_ok ns ∧ (∀ k t d ttl, serves ns k t d ttl ↔ has_data_of S k t d ttl) ∧ (∀ k t d, signs ns k t d ↔ has_sig_of S k t d).
(** One time to live in each RRset. *)
Definition uniform (S : list record) : Prop := ∀ r1 r2 k t d1 d2, r1 ∈ S → r2 ∈ S →
  slot_of r1 = Some (k, t, false, d1) → slot_of r2 = Some (k, t, false, d2) → TTL r1 = TTL r2.

Lemma has_data_app S1 S2 k t d v : has_data_of (S1 ++ S2) k t d v ↔ has_data_of S1 k t d v ∨ has_data_of S2 k t d v.
Proof. unfold has_data_of. setoid_rewrite elem_of_app. naive_solver. Qed.
Lemma has_sig_app S1 S2 k t d : has_sig_of (S1 ++ S2) k t d ↔ has_sig_of S1 k t d ∨ has_sig_of S2 k t d.
Proof. unfold has_sig_of. setoid_rewrite elem_of_app. naive_solver. Qed.
Lemma uniform_app_l S1 S2 : uniform (S1 ++ S2) → uniform S1.
Proof. intros H r1 r2 k t d1 d2 ? ?. apply H; apply elem_of_app; auto. Qed.

Lemma covered_returns r : returns (covered r).
Proof.
  unfold covered. destruct (negb _); [done|]. destruct (Z.ltb_spec (len (RData r)) RRSIG_MIN_RDATA) as [?|H]; [done|].
  unfold RRSIG_MIN_RDATA in H. destruct (RData r) as [|b0 [|b1 l]]; [len_lia..|done].
Qed.
Lemma slot_covered r k t sig d : slot_of r = Some (k, t, sig, d) ↔ covered r = Ok (t, sig) ∧ canon_key (Owner r) = k ∧ RData r = d.
Proof. unfold slot_of. destruct (covered r) as [[t' sig']| | |]; naive_solver. Qed.
Lemma slot_None r : slot_of r = None ↔ covered r = Err BadRrsig.
Proof.
  unfold slot_of. pose proof (covered_returns r) as H. revert H. unfold covered. destruct (negb _); [by repeat split|].
  destruct (_ <? _); [done|]. by destruct (get16 (RData r)).
Qed.

Lemma serves_insert ns key n k t d v : serves (<[key := n]> ns) k t d v ↔ (k = key ∧ set_data (nd_rrsets n) t d v) ∨ (k ≠ key ∧ serves ns k t d v).
Proof. unfold serves. setoid_rewrite lookup_insert_Some. naive_solver. Qed.
Lemma signs_insert ns key n k t d : signs (<[key := n]> ns) k t d ↔ (k = key ∧ set_sig (nd_rrsets n) t d) ∨ (k ≠ key ∧ signs ns k t d).
Proof. unfold signs. setoid_rewrite lookup_insert_Some. naive_solver. Qed.
(** The node an insertion starts from. *)
Lemma default_node ns key o : nodes_ok ns → canon_key o = key → let n := default (mkNode o [] 0) (ns !! key) in
  canon_key (nd_owner n) = key ∧ sets_ok (nd_rrsets n) ∧
  (∀ t d v, set_data (nd_rrsets n) t d v ↔ serves ns key t d v) ∧ (∀ t d, set_sig (nd_rrsets n) t d ↔ signs ns key t d).
Proof.
  intros Hok Ho. unfold serves, signs. destruct (ns !! key) as [n|] eqn:E; simpl.
  - destruct (Hok _ _ E). split_and!; [done..|intros; naive_solver|intros; naive_solver].
  - split_and!; [done|by split; constructor| |]; intros t d; [intros v; pose proof (set_data_nil t d v)|pose proof (set_sig_nil t d)]; naive_solver.
Qed.

Lemma zone_insert_spec ns r t sig : nodes_ok ns → covered r = Ok (t, sig) → ∃ ns', zone_insert ns r = Ok ns' ∧ nodes_ok ns' ∧
  (∀ k t' d v, serves ns' k t' d v ↔
    if sig then serves ns k t' d v
    else (¬ (k = canon_key (Owner r) ∧ t' = t) ∧ serves ns k t' d v) ∨
         (k = canon_key (Owner r) ∧ t' = t ∧ v = TTL r ∧ (d = RData r ∨ ∃ v', serves ns k t d v'))) ∧
  (∀ k t' d, signs ns' k t' d ↔ signs ns k t' d ∨ (sig = true ∧ k = canon_key (Owner r) ∧ t' = t ∧ d = RData r)).
Proof.
  intros Hok Hc. unfold zone_insert. rewrite Hc. cbn [mbind res_bind]. eexists. split; [done|].
  destruct (default_node ns _ (Owner r) Hok eq_refl) as (Ho & Hs & Hd & Hg). simpl in *.
  set (n := default _ _) in *. set (key := canon_key (Owner r)) in *. split_and!.
  - apply map_Forall_insert_2; [|done]. split; [done|]. by apply put_set_ok.
  - intros k t' d v. rewrite serves_insert. simpl. destruct sig.
    + rewrite put_data_sig, Hd. destruct (decide (k = key)) as [->|]; naive_solver.
    + rewrite put_data by done. setoid_rewrite Hd. destruct (decide (k = key)) as [->|]; [|naive_solver].
      destruct (decide (t' = t)); naive_solver.
  - intros k t' d. rewrite signs_insert. simpl. rewrite put_sig, Hg. destruct (decide (k = key)) as [->|]; naive_solver.
Qed.
Lemma zone_insert_Ok ns r ns' : zone_insert ns r = Ok ns' → ∃ t sig, covered r = Ok (t, sig).
Proof. unfold zone_insert. destruct (covered r) as [[t sig]| | |]; [eauto|done..]. Qed.
Lemma insert_represents ns S r ns' : represents ns S → uniform (S ++ [r]) → zone_insert ns r = Ok ns' → represents ns' (S ++ [r]).
Proof.
  intros (Hok & Hd & Hg) Hu E. destruct (zone_insert_Ok _ _ _ E) as (t & sig & Hc).
  destruct (zone_insert_spec ns r t sig Hok Hc) as (ns2 & E2 & Hok' & Hd' & Hg'). assert (ns2 = ns') as -> by congruence.
  assert (slot_of r = Some (canon_key (Owner r), t, sig, RData r)) as Hr by by apply slot_covered.
  split_and!; [done| |].
  - intros k t' d v. rewrite Hd', has_data_app, <- Hd. unfold has_data_of at 1. destruct sig.
    + split; [auto|]. intros [?|(? & ->%list_elem_of_singleton & ? & _)]; [done|congruence].
    + assert (∀ d v, serves ns (canon_key (Owner r)) t d v → v = TTL r) as Hv.
      { intros d' v' (r' & Hin & Hs & <-)%Hd. eapply (Hu r' r); [set_solver..|exact Hs|exact Hr]. }
      setoid_rewrite list_elem_of_singleton. split.
      * intros [[_ ?]|(-> & -> & -> & [->|(v' & Hs)])]; [auto|right; eauto|left]. by rewrite <- (Hv _ _ Hs).
      * intros [Hs|(? & -> & Hs & <-)]; [|right; rewrite Hr in Hs; injection Hs; intros; subst; auto].
        destruct (decide (k = canon_key (Owner r) ∧ t' = t)) as [[-> ->]|]; [right|left; auto]. split_and!; [done..|by eapply Hv|right; eauto].
  - intros k t' d. rewrite Hg', has_sig_app, <- Hg. unfold has_sig_of. setoid_rewrite list_elem_of_singleton. f_equiv.
    split; [intros (-> & -> & -> & ->); eauto|]. intros (? & -> & Hs). rewrite Hr in Hs. by simplify_eq.
Qed.
Lemma inserts_represent rs ns S ns' : represents ns S → uniform (S ++ rs) → fold_res zone_insert ns rs = Ok ns' → represents ns' (S ++ rs).
Proof.
  revert ns S. induction rs as [|r rs IH]; intros ns S HS Hu; simpl.
  - intros [= <-]. by rewrite app_nil_r.
  - intros (ns1 & E1 & E2)%bind_Ok. rewrite cons_middle, app_assoc in *. apply (IH ns1); [|done..].
    eapply insert_represents; [done|by eapply uniform_app_l|done].
Qed.
Lemma inserts_Ok rs ns : nodes_ok ns → Forall (λ r, slot_of r ≠ None) rs → ∃ ns', fold_res zone_insert ns rs = Ok ns'.
Proof.
  intros Hok Hrs. revert ns Hok. induction Hrs as [|r rs Hr _ IH]; intros ns Hok; simpl; [eauto|].
  destruct (slot_of r) as [[[[k t] sig] d]|] eqn:Es; [|done]. apply slot_covered in Es as (Hc & _ & _).
  destruct (zone_insert_spec ns r t sig Hok Hc) as (ns2 & -> & Hok' & _). by apply IH.
Qed.

Lemma zone_remove_Ok ns r ns' : nodes_ok ns → zone_remove ns r = Ok ns' → ∃ t sig, covered r = Ok (t, sig) ∧ nodes_ok ns' ∧
  (if sig then signs ns (canon_key (Owner r)) t (RData r) else ∃ v, serves ns (canon_key (Owner r)) t (RData r) v) ∧
  (∀ k t' d v, serves ns' k t' d v ↔ serves ns k t' d v ∧ ¬ (sig = false ∧ k = canon_key (Owner r) ∧ t' = t ∧ d = RData r)) ∧
  (∀ k t' d, signs ns' k t' d ↔ signs ns k t' d ∧ ¬ (sig = true ∧ k = canon_key (Owner r) ∧ t' = t ∧ d = RData r)).
Proof.
  intros Hok. unfold zone_remove. intros ([t sig] & Hc & E)%bind_Ok. exists t, sig. split; [done|].
  set (key := canon_key (Owner r)) in *. destruct (ns !! key) as [n|] eqn:En; [|done].
  destruct (drop_set t sig (RData r) (nd_rrsets n)) as [l|] eqn:El; [|done]. injection E as <-.
  destruct (Hok _ _ En) as [Ho Hs]. apply drop_set_Some in El as (Hl & Hp & Hd & Hg); [|done]. split_and!.
  - by apply map_Forall_insert_2.
  - unfold signs, serves. destruct sig; [eauto|]. destruct Hp as [v ?]. eauto.
  - intros k t' d v. rewrite serves_insert. simpl. rewrite Hd. unfold serves. destruct (decide (k = key)) as [->|]; naive_solver.
  - intros k t' d. rewrite signs_insert. simpl. rewrite Hg. unfold signs. destruct (decide (k = key)) as [->|]; naive_solver.
Qed.
Definition without (r : record) (S : list record) : list record := filter (λ x, slot_of x ≠ slot_of r) S.
Lemma remove_represents ns S r ns' : represents ns S → zone_remove ns r = Ok ns' →
  represents ns' (without r S) ∧ ∃ x, x ∈ S ∧ slot_of x = slot_of r.
Proof.
  intros (Hok & Hd & Hg) E. destruct (zone_remove_Ok _ _ _ Hok E) as (t & sig & Hc & Hok' & Hp & Hd' & Hg').
  assert (slot_of r = Some (canon_key (Owner r), t, sig, RData r)) as Hr by by apply slot_covered.
  split; [split_and!; [done| |]|].
  - intros k t' d v. rewrite Hd', Hd. unfold has_data_of, without. setoid_rewrite list_elem_of_filter. rewrite Hr. naive_solver.
  - intros k t' d. rewrite Hg', Hg. unfold has_sig_of, without. setoid_rewrite list_elem_of_filter. rewrite Hr. naive_solver.
  - rewrite Hr. destruct sig; [apply Hg in Hp as (x & ? & ?); eauto|]. destruct Hp as (v & (x & ? & ? & _)%Hd). eauto.
Qed.
Lemma remove_Ok ns S r x : represents ns S → x ∈ S → slot_of x = slot_of r → slot_of r ≠ None → ∃ ns', zone_remove ns r = Ok ns'.
Proof.
  intros (Hok & Hd & Hg) Hx Exr Hr. unfold zone_remove. destruct (slot_of r) as [[[[k t] sig] d]|] eqn:Es; [|done].
  pose proof Es as (-> & <- & <-)%slot_covered. cbn [mbind res_bind].
  assert (∃ n, ns !! canon_key (Owner r) = Some n ∧ if sig then set_sig (nd_rrsets n) t (RData r) else ∃ v, set_data (nd_rrsets n) t (RData r) v) as (n & En & Hn).
  { destruct sig; [apply Hg; eexists; eauto|]. destruct (proj2 (Hd (canon_key (Owner r)) t (RData r) (TTL x))) as (n & ? & ?); [eexists; eauto|eauto]. }
  rewrite En. destruct (drop_set t sig (RData r) (nd_rrsets n)) eqn:El; [eauto|]. apply drop_set_None in El; [done|]. by apply (Hok _ _ En).
Qed.
Definition withouts (D S : list record) : list record := filter (λ x, slot_of x ∉ map slot_of D) S.
Lemma withouts_cons r D S : withouts D (without r S) = withouts (r :: D) S.
Proof.
  unfold withouts, without. rewrite list_filter_filter. apply list_filter_iff. intros x. simpl. rewrite not_elem_of_cons. tauto.
Qed.
Lemma withouts_nil S : withouts [] S = S.
Proof. unfold withouts. induction S as [|x S IH]; [done|]. rewrite filter_cons_True by (simpl; set_solver). by rewrite IH. Qed.
Lemma removes_represent rs ns S ns' : represents ns S → fold_res zone_remove ns rs = Ok ns' → represents ns' (withouts rs S).
Proof.
  revert ns S. induction rs as [|r rs IH]; intros ns S HS; simpl.
  - intros [= <-]. by rewrite withouts_nil.
  - intros (ns1 & E1 & E2)%bind_Ok. rewrite <- withouts_cons. apply (IH ns1); [|done]. by eapply remove_represents.
Qed.
Lemma removes_Ok rs ns S : represents ns S → NoDup (map slot_of rs) → Forall (λ r, slot_of r ≠ None ∧ slot_of r ∈ map slot_of S) rs →
  ∃ ns', fold_res zone_remove ns rs = Ok ns'.
Proof.
  revert ns S. induction rs as [|r rs IH]; intros ns S HS; simpl; [eauto|]. intros [Hr Hnd]%NoDup_cons [[Hs (x & Ex & Hx)%list_elem_of_fmap] Hrs]%Forall_cons.
  destruct (remove_Ok ns S r x HS Hx (eq_sym Ex) Hs) as [ns1 E]. rewrite E. cbn [mbind res_bind].
  eapply IH; [by eapply remove_represents|done|]. rewrite Forall_forall in *. intros y Hy. destruct (Hrs y Hy) as [? (w & Ew & Hw)%list_elem_of_fmap].
  split; [done|]. apply list_elem_of_fmap. exists w. split; [done|]. apply list_elem_of_filter. split; [|done].
  rewrite <- Ew. intros E'. apply Hr. rewrite <- E'. apply list_elem_of_fmap. eauto.
Qed.
Lemma removes_absent rs ns S : represents ns S → (∃ ns', fold_res zone_remove ns rs = Ok ns') →
  NoDup (map slot_of rs) ∧ Forall (λ r, slot_of r ≠ None ∧ slot_of r ∈ map slot_of S) rs.
Proof.
  revert ns S. induction rs as [|r rs IH]; intros ns S HS [ns' E]; simpl in *; [split; constructor|].
  apply bind_Ok in E as (ns1 & E1 & E2). destruct (remove_represents _ _ _ _ HS E1) as [HS1 (x & Hx & Ex)].
  destruct (IH ns1 _ HS1) as [Hnd Hrs]; [eauto|]. rewrite Forall_forall in Hrs. split.
  - apply NoDup_cons. split; [|done]. intros (y & Ey & Hy)%list_elem_of_fmap. destruct (Hrs y Hy) as [_ (w & Ew & [Hne _]%list_elem_of_filter)%list_elem_of_fmap]. congruence.
  - constructor.
    + split; [|rewrite <- Ex; apply list_elem_of_fmap; eauto]. destruct HS as [Hok _]. destruct (zone_remove_Ok _ _ _ Hok E1) as (t & sig & Hc & _).
      unfold slot_of. by rewrite Hc.
    + apply Forall_forall. intros y Hy. destruct (Hrs y Hy) as [? (w & Ew & [_ ?]%list_elem_of_filter)%list_elem_of_fmap].
      split; [done|]. apply list_elem_of_fmap. eauto.
Qed.
