(* ===== verification/EngineFinal.v ===== *)
(** * Finishing a zone

    [finalize] keeps the records, succeeds exactly when the SOA is right, and so a zone built from an
    image, or brought forward by a delta, holds exactly the records it should. *)

From S2P Require Import Prelude.
From S2P Require Import GoText.
From S2P Require Import NzfNames.
From S2P Require Import NzfFormat.
From S2P Require Import EngineName.
From S2P Require Import EngineNzf.
From S2P Require Import EngineZone.
From S2P Require Import EngineContent.

(** ** Finishing keeps the records *)
(** A node without its flags. *)
Definition bare (n : Node) : bytes * list RRset := (nd_owner n, nd_rrsets n).
Lemma represents_ext ns ns' S : (∀ k, bare <$> ns !! k = bare <$> ns' !! k) → represents ns S → represents ns' S.
Proof.
  intros Hb (Hok & Hd & Hg).
  assert (∀ k n, ns' !! k = Some n → ∃ n0, ns !! k = Some n0 ∧ bare n0 = bare n) as H1.
  { intros k n E. specialize (Hb k). rewrite E in Hb. simpl in Hb. apply fmap_Some in Hb as (n0 & ? & ?). eauto. }
  assert (∀ k n, ns !! k = Some n → ∃ n0, ns' !! k = Some n0 ∧ bare n0 = bare n) as H2.
  { intros k n E. specialize (Hb k). rewrite E in Hb. symmetry in Hb. apply fmap_Some in Hb as (n0 & ? & ?). eauto. }
  unfold bare in *. split_and!.
  - intros k n (n0 & E0 & [= <- <-])%H1. by apply (Hok k n0).
  - intros k t d v. rewrite <- Hd. split; intros (n & (n0 & ? & [= ? E])%H1 & ?) || intros (n & (n0 & ? & [= ? E])%H2 & ?); exists n0; by rewrite E.
  - intros k t d. rewrite <- Hg. split; intros (n & (n0 & ? & [= ? E])%H1 & ?) || intros (n & (n0 & ? & [= ? E])%H2 & ?); exists n0; by rewrite E.
Qed.
Lemma has_data_true n : (∃ t d v, set_data (nd_rrsets n) t d v) ∨ (∃ t d, set_sig (nd_rrsets n) t d) → has_data n = true.
Proof.
  intros H. apply existsb_exists. destruct H as [(t & d & v & s & Hs & _ & Hd & _)|(t & d & s & Hs & _ & Hd)]; exists s; (split; [by apply list_elem_of_In|]);
    apply orb_true_iff; [left|right]; apply negb_true_iff, bool_decide_eq_false; intros E; rewrite E in Hd; by apply not_elem_of_nil in Hd.
Qed.
Lemma filter_represents ns S : represents ns S → represents (filter (λ p, has_data p.2 = true) ns) S.
Proof.
  intros (Hok & Hd & Hg). split_and!.
  - intros k n [En _]%map_lookup_filter_Some. by apply Hok.
  - intros k t d v. rewrite <- Hd. unfold serves. setoid_rewrite map_lookup_filter_Some. simpl. split; [naive_solver|].
    intros (n & ? & ?). exists n. split_and!; [done| |done]. apply has_data_true. eauto.
  - intros k t d. rewrite <- Hg. unfold signs. setoid_rewrite map_lookup_filter_Some. simpl. split; [naive_solver|].
    intros (n & ? & ?). exists n. split_and!; [done| |done]. apply has_data_true. eauto.
Qed.
Lemma add_empty_represents ns S o : represents ns S → represents (add_empty ns o) S.
Proof.
  intros (Hok & Hd & Hg). unfold add_empty. destruct (ns !! canon_key o) as [n|] eqn:E; [done|]. split_and!.
  - apply map_Forall_insert_2; [|done]. split; [done|split; constructor].
  - intros k t d v. rewrite <- Hd, serves_insert. simpl. pose proof (set_data_nil t d v). unfold serves.
    destruct (decide (k = canon_key o)) as [->|]; [rewrite E|]; naive_solver.
  - intros k t d. rewrite <- Hg, signs_insert. simpl. pose proof (set_sig_nil t d). unfold signs.
    destruct (decide (k = canon_key o)) as [->|]; [rewrite E|]; naive_solver.
Qed.
Lemma with_empty_represents ns S k : represents ns S → represents (with_empty k ns) S.
Proof.
  intros HS. unfold with_empty. generalize (concat (map (λ p, between k (nd_owner p.2)) (in_key_order ns))) as l.
  intros l. revert ns HS. induction l as [|o l IH]; intros ns HS; [done|]. simpl. by apply IH, add_empty_represents.
Qed.

Lemma in_key_order_perm {A} (m : gmap bytes A) : in_key_order m ≡ₚ map_to_list m.
Proof. apply stable_sort_perm. Qed.
Lemma in_key_order_NoDup {A} (m : gmap bytes A) : NoDup (map fst (in_key_order m)).
Proof. rewrite in_key_order_perm. apply NoDup_fst_map_to_list. Qed.
Lemma elem_of_in_key_order {A} (m : gmap bytes A) k a : (k, a) ∈ in_key_order m ↔ m !! k = Some a.
Proof. rewrite in_key_order_perm. apply elem_of_map_to_list. Qed.

Lemma flag_loop_bare apex ns cut l fl : flag_loop apex ns cut l = Ok fl → Forall2 (λ p q, p.1 = q.1 ∧ bare p.2 = bare q.2) l fl.
Proof.
  revert cut fl. induction l as [|[k n] l IH]; intros cut fl; cbn [flag_loop]; [intros [= <-]; constructor|].
  destruct (_ && _); [done|]. intros (rest & E & [= <-])%bind_Ok. constructor; [done|]. by eapply IH.
Qed.
Lemma flag_loop_Ok apex ns cut l : (∃ fl, flag_loop apex ns cut l = Ok fl) ↔ Forall (λ p, node_get p.2 T_SOA ≠ None → p.1 = apex) l.
Proof.
  revert cut. induction l as [|[k n] l IH]; intros cut; cbn [flag_loop]; [split; [by constructor|eauto]|]. rewrite Forall_cons. simpl.
  destruct (_ && _) eqn:Eb.
  - apply andb_true_iff in Eb as [E1%bool_decide_eq_true E2%negb_true_iff%bool_decide_eq_false]. split; [by intros [fl ?]|]. naive_solver.
  - match goal with |- context [flag_loop apex ns ?c l] => rewrite <- (IH c) end. apply andb_false_iff in Eb. split.
    + intros (fl & (rest & ? & _)%bind_Ok). split; [|eauto].
      destruct Eb as [?%bool_decide_eq_false|?%negb_false_iff%bool_decide_eq_true]; tauto.
    + intros [_ [fl ->]]. simpl. eauto.
Qed.
Lemma flagged_keys (l fl : list (bytes * Node)) : Forall2 (λ p q, p.1 = q.1 ∧ bare p.2 = bare q.2) l fl → map fst fl = map fst l.
Proof. induction 1 as [|p q l fl [E _] _ IH]; [done|]. simpl. congruence. Qed.
Lemma flagged_lookup (ns : nodemap) fl : Forall2 (λ p q, p.1 = q.1 ∧ bare p.2 = bare q.2) (in_key_order ns) fl →
  ∀ k, bare <$> ns !! k = bare <$> (list_to_map fl : nodemap) !! k.
Proof.
  intros HF k. assert (NoDup fl.*1) as Hnd by (change fl.*1 with (map fst fl); rewrite (flagged_keys _ _ HF); apply in_key_order_NoDup).
  destruct (ns !! k) as [n|] eqn:E.
  - apply elem_of_in_key_order, list_elem_of_lookup in E as [i Hi]. destruct (Forall2_lookup_l _ _ _ _ _ HF Hi) as ([k' n'] & Hi' & [Ek Hb]).
    simpl in *. subst k'. apply list_elem_of_lookup_2, (elem_of_list_to_map_1 fl) in Hi' as ->; [|done]. simpl. congruence.
  - destruct ((list_to_map fl : nodemap) !! k) as [n'|] eqn:E'; [|done]. apply elem_of_list_to_map_2, list_elem_of_lookup in E' as [i Hi].
    destruct (Forall2_lookup_r _ _ _ _ _ HF Hi) as ([k' n] & Hi' & [Ek _]). simpl in Ek. subst k'. apply list_elem_of_lookup_2, elem_of_in_key_order in Hi'. simpl in *. congruence.
Qed.

(** ** The SOA *)
Lemma node_get_Some n t s : node_get n t = Some s → s ∈ nd_rrsets n ∧ rs_rtype s = t ∧ rs_rdata s ≠ [].
Proof.
  unfold node_get. intros ([i x] & E & [= ->])%fmap_Some. apply list_find_Some in E as (Hi & [? ?] & _). split; [by eapply list_elem_of_lookup_2|done].
Qed.
Lemma node_get_None n t : node_get n t ≠ None ↔ ∃ d v, set_data (nd_rrsets n) t d v.
Proof.
  split.
  - destruct (node_get n t) as [s|] eqn:E; [|done]. intros _. apply node_get_Some in E as (Hs & Ht & Hd).
    destruct (rs_rdata s) as [|d l] eqn:El; [done|]. exists d, (rs_ttl s), s. rewrite El. set_solver.
  - intros (d & v & s & Hs & Ht & Hd & _) E. unfold node_get in E. apply fmap_None in E. apply list_find_None in E. rewrite Forall_forall in E.
    apply (E s Hs). split; [done|]. intros E'. rewrite E' in Hd. by apply not_elem_of_nil in Hd.
Qed.
Lemma sets_ok_unique l s1 s2 : sets_ok l → s1 ∈ l → s2 ∈ l → rs_rtype s1 = rs_rtype s2 → s1 = s2.
Proof.
  induction l as [|s l IH]; [by intros _ ?%not_elem_of_nil|]. rewrite sets_ok_cons, !elem_of_cons, Forall_forall. intros (_ & Hlt & Hl) [->|H1] [->|H2] E; [done| | |auto].
  - specialize (Hlt _ H2). lia.
  - specialize (Hlt _ H1). lia.
Qed.
(** The RRset found is the data held. *)
Lemma node_get_data n t s : sets_ok (nd_rrsets n) → node_get n t = Some s → ∀ d v, set_data (nd_rrsets n) t d v ↔ d ∈ rs_rdata s ∧ v = rs_ttl s.
Proof.
  intros Hok (Hs & Ht & _)%node_get_Some d v. split.
  - intros (s' & Hs' & Ht' & Hd & <-). assert (s' = s) as -> by (eapply sets_ok_unique; [done..|congruence]). done.
  - intros [Hd ->]. exists s. done.
Qed.

(** One SOA, at the apex, with the serial. *)
Definition soa_ok (apex : bytes) (serial : Z) (S : list record) : Prop :=
  ∃ d, soa_serial d = Some serial ∧ (∃ v, has_data_of S apex T_SOA d v) ∧ ∀ k d' v, has_data_of S k T_SOA d' v → k = apex ∧ d' = d.
Lemma check_apex_Ok serial apex ns S : represents ns S →
  (check_apex serial apex ns = Ok tt ↔
   ∃ d, soa_serial d = Some serial ∧ (∃ v, has_data_of S apex T_SOA d v) ∧ ∀ d' v, has_data_of S apex T_SOA d' v → d' = d).
Proof.
  intros (Hok & Hd & _). unfold check_apex. setoid_rewrite <- Hd. unfold serves. destruct (ns !! apex) as [n|] eqn:En; [|naive_solver].
  destruct (Hok _ _ En) as [_ Hs]. destruct (node_get n T_SOA) as [s|] eqn:Eg.
  - pose proof (node_get_data n T_SOA s Hs Eg) as Hg. apply node_get_Some in Eg as (Hin & _ & Hne).
    assert (NoDup (rs_rdata s)) as Hnd by (destruct Hs as [_ Hs]; rewrite Forall_forall in Hs; by apply Hs).
    assert (∀ d v, (∃ n0, Some n = Some n0 ∧ set_data (nd_rrsets n0) T_SOA d v) ↔ d ∈ rs_rdata s ∧ v = rs_ttl s) as Hg' by naive_solver.
    setoid_rewrite Hg'. clear Hg Hg'. destruct (rs_rdata s) as [|d [|d2 l]] eqn:El; [done| |].
    + case_bool_decide as E; split; [intros _; exists d; set_solver|done|done|]. intros (d' & ? & (v & ->%list_elem_of_singleton & _) & _). done.
    + split; [done|]. intros (d' & _ & _ & Hall). exfalso. apply NoDup_cons in Hnd as [Hn _]. apply Hn.
      rewrite (Hall d (rs_ttl s)) by set_solver. rewrite <- (Hall d2 (rs_ttl s)) by set_solver. set_solver.
  - split; [done|]. intros (d & _ & (v & n0 & [= <-] & H) & _). exfalso. apply (proj2 (node_get_None n T_SOA)); eauto.
Qed.
Lemma flags_Ok apex ns S : represents ns S →
  (∃ fl, flag_loop apex ns None (in_key_order ns) = Ok fl) ↔ ∀ k d v, has_data_of S k T_SOA d v → k = apex.
Proof.
  intros (Hok & Hd & _). rewrite flag_loop_Ok, Forall_forall. setoid_rewrite <- Hd. split.
  - intros H k d v (n & En & Hn). apply (H (k, n)); [by apply elem_of_in_key_order|]. apply node_get_None. eauto.
  - intros H [k n] Hin%elem_of_in_key_order. simpl. intros (d & v & ?)%node_get_None. eapply H. by exists n.
Qed.

Section finish.
Context {Policy : Type} (no_policy : Policy).
(** The nodes of a finished zone, before their flags. *)
Definition skeleton (labels : nat) (ns : nodemap) : nodemap := with_empty labels (filter (λ p, has_data p.2 = true) ns).
Lemma finalize_inv origin apex labels serial ns z : finalize no_policy origin apex labels serial ns = Ok z →
  ez_origin z = origin ∧ ez_apex_key z = apex ∧ ez_origin_labels z = labels ∧ ez_serial z = serial ∧
  check_apex serial apex (skeleton labels ns) = Ok tt ∧
  ∃ fl, flag_loop apex (skeleton labels ns) None (in_key_order (skeleton labels ns)) = Ok fl ∧ ez_nodes z = list_to_map fl ∧
    ez_nsec z = map fst (filter (λ p, node_get p.2 T_NSEC ≠ None) fl).
Proof.
  unfold finalize. fold (skeleton labels ns). intros ([] & E1 & (fl & E2 & [= <-])%bind_Ok)%bind_Ok. split_and!; [done..|]. exists fl. done.
Qed.
Lemma skeleton_represents labels ns S : represents ns S → represents (skeleton labels ns) S.
Proof. intros HS. by apply with_empty_represents, filter_represents. Qed.
Lemma finalize_Ok origin apex labels serial ns S : represents ns S →
  (∃ z, finalize no_policy origin apex labels serial ns = Ok z) ↔ soa_ok apex serial S.
Proof.
  intros HS%(skeleton_represents labels). split.
  - intros (z & (_ & _ & _ & _ & E1 & fl & E2 & _)%finalize_inv). apply (check_apex_Ok _ _ _ _ HS) in E1 as (d & ? & ? & H).
    pose proof (proj1 (flags_Ok apex _ _ HS) (ex_intro _ fl E2)) as Hk. exists d. split_and!; [done..|]. intros k d' v Hd.
    assert (k = apex) as -> by eauto. split; [done|]. by eapply H.
  - intros (d & Hs & Hd & Hall). unfold finalize. fold (skeleton labels ns).
    assert (check_apex serial apex (skeleton labels ns) = Ok tt) as ->.
    { apply (check_apex_Ok _ _ _ _ HS). exists d. split_and!; [done..|]. intros d' v H. by eapply Hall. }
    cbn [mbind res_bind]. destruct (proj2 (flags_Ok apex _ _ HS)) as [fl ->]; [intros k d' v H; by eapply Hall|]. cbn [mbind res_bind]. eauto.
Qed.
Lemma finalize_represents origin apex labels serial ns S z : represents ns S → finalize no_policy origin apex labels serial ns = Ok z →
  represents (ez_nodes z) S.
Proof.
  intros HS%(skeleton_represents labels) (_ & _ & _ & _ & _ & fl & E & -> & _)%finalize_inv.
  eapply represents_ext; [|done]. apply flagged_lookup. by eapply flag_loop_bare.
Qed.

Lemma inserts_slots rs ns ns' : fold_res zone_insert ns rs = Ok ns' → Forall (λ r, slot_of r ≠ None) rs.
Proof.
  revert ns. induction rs as [|r rs IH]; intros ns; [constructor|]. simpl. intros (ns1 & E1 & E2)%bind_Ok. constructor; [|by eapply IH].
  destruct (zone_insert_Ok _ _ _ E1) as (t & sig & Hc). unfold slot_of. by rewrite Hc.
Qed.
Lemma represents_empty : represents ∅ [].
Proof.
  unfold represents, serves, signs, has_data_of, has_sig_of. setoid_rewrite lookup_empty. setoid_rewrite elem_of_nil. split; [done|naive_solver].
Qed.

Lemma from_image_Ok p : p_kind p = FullImage → uniform (p_a p) → Forall (λ r, slot_of r ≠ None) (p_a p) →
  soa_ok (canon_key (lowercase (p_origin p))) (p_serial p) (p_a p) → ∃ z, from_image no_policy p = Ok z.
Proof.
  intros Hk Hu Hs Hsoa. unfold from_image. rewrite bool_decide_eq_true_2 by done. cbn [negb].
  destruct (inserts_Ok (p_a p) ∅) as [ns E]; [by apply represents_empty|done|]. rewrite E. cbn [mbind res_bind].
  eapply finalize_Ok; [|done]. by eapply (inserts_represent _ ∅ []); [apply represents_empty|..].
Qed.
(** A zone built from a full image is that image.  [from_image] succeeds exactly when every RRSIG is
    long enough and the only SOA is at the apex with the header's serial, and the zone then serves the
    data of the image with its times to live, the signatures of the image, and nothing else. *)
Theorem from_image_exact p : p_kind p = FullImage → uniform (p_a p) →
  ((∃ z, from_image no_policy p = Ok z) ↔
   Forall (λ r, slot_of r ≠ None) (p_a p) ∧ soa_ok (canon_key (lowercase (p_origin p))) (p_serial p) (p_a p)) ∧
  ∀ z, from_image no_policy p = Ok z →
    represents (ez_nodes z) (p_a p) ∧ ez_serial z = p_serial p ∧ ez_origin z = lowercase (p_origin p).
Proof.
  intros Hk Hu. split; [split|].
  - intros (z & E). unfold from_image in E. case_bool_decide; [|done]. apply bind_Ok in E as (ns & E1 & E2). split; [by eapply inserts_slots|].
    eapply finalize_Ok; [|eauto]. by eapply (inserts_represent _ ∅ []); [apply represents_empty|..].
  - intros [Hs Hsoa]. by apply from_image_Ok.
  - intros z E. unfold from_image in E. case_bool_decide; [|done]. apply bind_Ok in E as (ns & E1 & E2). split.
    + eapply finalize_represents; [|done]. by eapply (inserts_represent _ ∅ []); [apply represents_empty|..].
    + apply finalize_inv in E2 as (-> & _ & _ & -> & _). done.
Qed.

(** What a delta leaves of a set of records. *)
Definition advanced (S : list record) (d : Parsed) : list record := withouts (p_a d) S ++ p_b d.
Definition delta_fits (z : EZone Policy) (d : Parsed) : Prop :=
  p_kind d = DeltaImage ∧ lowercase (p_origin d) = lowercase (ez_origin z) ∧ p_from_serial d = ez_serial z.

Lemma apply_cases z d : delta_fits z d → zone_apply no_policy z d =
  (nodes ← fold_res zone_remove (ez_nodes z) (p_a d); nodes ← fold_res zone_insert nodes (p_b d);
   finalize no_policy (ez_origin z) (ez_apex_key z) (ez_origin_labels z) (p_serial d) nodes).
Proof.
  intros (Hk & Ho & Hf). unfold zone_apply, eq_ignore_ascii_case. rewrite !bool_decide_eq_true_2 by done. by rewrite (proj2 (Z.eqb_eq _ _) Hf).
Qed.
Lemma apply_fits z d z' : zone_apply no_policy z d = Ok z' → delta_fits z d.
Proof.
  unfold zone_apply, eq_ignore_ascii_case, delta_fits. repeat case_bool_decide; simpl; [|done..]. by destruct (Z.eqb_spec (p_from_serial d) (ez_serial z)).
Qed.
Lemma apply_represents z d S z' : represents (ez_nodes z) S → uniform (advanced S d) → zone_apply no_policy z d = Ok z' →
  represents (ez_nodes z') (advanced S d) ∧ ez_serial z' = p_serial d ∧ ez_origin z' = ez_origin z ∧ ez_apex_key z' = ez_apex_key z ∧ ez_origin_labels z' = ez_origin_labels z.
Proof.
  intros HS Hu E. rewrite apply_cases in E by by eapply apply_fits. apply bind_Ok in E as (n1 & E1 & (n2 & E2 & E3)%bind_Ok).
  eapply removes_represent in E1; [|done]. eapply inserts_represent in E2; [|done..]. split; [by eapply finalize_represents|].
  apply finalize_inv in E3 as (? & ? & ? & ? & _). done.
Qed.

Lemma zone_apply_Ok z S d : represents (ez_nodes z) S → delta_fits z d → uniform (advanced S d) →
  NoDup (map slot_of (p_a d)) ∧ Forall (λ r, slot_of r ≠ None ∧ slot_of r ∈ map slot_of S) (p_a d) ∧
   Forall (λ r, slot_of r ≠ None) (p_b d) ∧ soa_ok (ez_apex_key z) (p_serial d) (advanced S d) → ∃ z', zone_apply no_policy z d = Ok z'.
Proof.
  intros HS Hf Hu (Hnd & Hdel & Hadd & Hsoa). rewrite apply_cases by done. destruct (removes_Ok _ _ _ HS Hnd Hdel) as [n1 E1]. rewrite E1. cbn [mbind res_bind].
  pose proof (removes_represent _ _ _ _ HS E1) as H1. destruct (inserts_Ok (p_b d) n1) as [n2 E2]; [by apply H1|done|]. rewrite E2. cbn [mbind res_bind].
  eapply finalize_Ok; [|done]. by eapply inserts_represent.
Qed.
(** A delta moves a zone from one set of records to the next.  On a zone that holds [S], a delta for
    its origin and serial applies exactly when it deletes records that are there, each once, adds no
    malformed RRSIG and leaves one SOA, at the apex, with the new serial; the zone then holds what the
    delta leaves of [S] together with what it adds. *)
Theorem apply_exact z S d : represents (ez_nodes z) S → delta_fits z d → uniform (advanced S d) →
  ((∃ z', zone_apply no_policy z d = Ok z') ↔
   NoDup (map slot_of (p_a d)) ∧ Forall (λ r, slot_of r ≠ None ∧ slot_of r ∈ map slot_of S) (p_a d) ∧
   Forall (λ r, slot_of r ≠ None) (p_b d) ∧ soa_ok (ez_apex_key z) (p_serial d) (advanced S d)) ∧
  ∀ z', zone_apply no_policy z d = Ok z' →
    represents (ez_nodes z') (advanced S d) ∧ ez_serial z' = p_serial d ∧ ez_origin z' = ez_origin z.
Proof.
  intros HS Hf Hu. split; [split|].
  - intros [z' E]. rewrite apply_cases in E by done. apply bind_Ok in E as (n1 & E1 & (n2 & E2 & E3)%bind_Ok).
    destruct (removes_absent _ _ _ HS (ex_intro _ n1 E1)) as [Hnd Hrs]. split_and!; [done..|by eapply inserts_slots|].
    eapply finalize_Ok; [|eauto]. eapply inserts_represent; [|done..]. by eapply removes_represent.
  - by apply zone_apply_Ok.
  - intros z' E. destruct (apply_represents _ _ _ _ HS Hu E) as (? & ? & ? & _). done.
Qed.
End finish.
