(* ===== verification/EngineFlags.v ===== *)
(** * The shape of a finished zone

    The one ordered pass of [finalize] finds, for every node, whether it is a delegation, whether it
    lies below one and whether it has a wildcard child; and the nodes of a finished zone are closed
    under the names between them and the origin. *)

From S2P Require Import Prelude.
From S2P Require Import GoText.
From S2P Require Import NzfNames.
From S2P Require Import NzfFormat.
From S2P Require Import NzfTheorems.
From S2P Require Import EngineName.
From S2P Require Import EngineNzf.
From S2P Require Import EngineZone.
From S2P Require Import EngineContent.
From S2P Require Import EngineFinal.

(** ** Prefixes in key order *)
Lemma starts_with_prefix k c : starts_with k c = true ↔ c `prefix_of` k.
Proof.
  revert k. induction c as [|x c IH]; intros [|y k]; simpl.
  - split; [intros _; apply prefix_nil|done].
  - split; [intros _; apply prefix_nil|done].
  - split; [done|]. by intros ?%prefix_nil_not.
  - rewrite andb_true_iff, Z.eqb_eq, IH. split; [intros [-> ?]; by apply prefix_cons|]. intros H.
    split; [by eapply prefix_cons_inv_1|by eapply prefix_cons_inv_2].
Qed.
Lemma prefix_lt a b : a `prefix_of` b → len a < len b → bytes_compare a b = Lt.
Proof.
  intros [c ->]. rewrite len_app. intros Hc. destruct c as [|x c]; [len_lia|]. clear Hc.
  induction a as [|y a IH]; simpl; [done|]. by rewrite Z.compare_refl.
Qed.
(** The keys between a key and one of its extensions extend it too. *)
Lemma prefix_interval a j b : a `prefix_of` b → bytes_compare a j = Lt → bytes_compare j b = Lt → a `prefix_of` j.
Proof.
  intros [c ->]. revert j. induction a as [|x a IH]; intros j; [intros; apply prefix_nil|]. destruct j as [|y j]; [done|]. simpl.
  destruct (Z.compare_spec x y) as [->| |]; [|intros _|done].
  - rewrite Z.compare_refl. intros H1 H2. apply prefix_cons. by apply IH.
  - destruct (Z.compare_spec y x); [lia|lia|done].
Qed.
Lemma prefix_len_le (a b : bytes) : a `prefix_of` b → len a ≤ len b.
Proof. intros [c ->]. len_lia. Qed.

(** ** The pass *)
Section pass.
Context (apex : bytes) (ns : nodemap).
Definition cut_node (p : bytes * Node) : Prop := p.1 ≠ apex ∧ node_get p.2 T_NS ≠ None.
#[local] Instance cut_node_dec p : Decision (cut_node p).
Proof. unfold cut_node. apply _. Defined.
Definition above (c k : bytes) : Prop := c `prefix_of` k ∧ len c < len k.
Definition flag_spec (all : list (bytes * Node)) (p q : bytes * Node) : Prop :=
  p.1 = q.1 ∧ bare p.2 = bare q.2 ∧
  (is_cut q.2 = true ↔ cut_node p) ∧
  (Z.land (nd_flags q.2) NODE_WILDCARD_CHILD ≠ 0 ↔ ns !! (p.1 ++ star) ≠ None) ∧
  (Z.land (nd_flags q.2) NODE_BELOW_CUT ≠ 0 ↔ ∃ c, c ∈ all ∧ cut_node c ∧ above c.1 p.1).

Lemma flags_value (b c w : bool) (B C W : Prop) : (b = true ↔ B) → (c = true ↔ C) → (w = true ↔ W) →
  let f := Z.lor (Z.lor (if b then NODE_BELOW_CUT else 0) (if c then NODE_CUT else 0)) (if w then NODE_WILDCARD_CHILD else 0) in
  (negb (Z.land f NODE_CUT =? 0) = true ↔ C) ∧ (Z.land f NODE_WILDCARD_CHILD ≠ 0 ↔ W) ∧ (Z.land f NODE_BELOW_CUT ≠ 0 ↔ B).
Proof. intros Hb Hc Hw f. subst f. rewrite <- Hb, <- Hc, <- Hw. by destruct b, c, w. Qed.

(** What [cut] knows of the nodes before: it is one of the delegations, and every delegation with a
    node still to come below it is at or below [cut]. *)
Definition cut_inv (before todo : list (bytes * Node)) (cut : option bytes) : Prop :=
  (∀ c, cut = Some c → ∃ p, p ∈ before ∧ cut_node p ∧ p.1 = c) ∧
  (∀ p q, p ∈ before → cut_node p → q ∈ todo → above p.1 q.1 → ∃ c, cut = Some c ∧ c `prefix_of` p.1).
Definition key_lt (p q : bytes * Node) : Prop := bytes_compare p.1 q.1 = Lt.

Definition below_of (cut : option bytes) (k : bytes) : bool := match cut with Some c => (len c <? len k) && starts_with k c | None => false end.
Lemma below_above cut k : below_of cut k = true ↔ ∃ c, cut = Some c ∧ above c k.
Proof.
  unfold below_of, above. destruct cut as [c|]; [|naive_solver]. rewrite andb_true_iff, Z.ltb_lt, starts_with_prefix. naive_solver.
Qed.
Lemma below_spec before p todo cut : StronglySorted key_lt (before ++ p :: todo) → cut_inv before (p :: todo) cut →
  below_of cut p.1 = true ↔ ∃ c, c ∈ before ++ p :: todo ∧ cut_node c ∧ above c.1 p.1.
Proof.
  intros Hs [HA HB]. rewrite below_above. split.
  - intros (c & (x & Hx & Hc & <-)%HA & Ha). exists x. set_solver.
  - intros (x & Hx & Hc & [Hp Hl]). assert (x ∈ before) as Hb.
    { apply elem_of_app in Hx as [?|Hx]; [done|]. exfalso. pose proof (prefix_lt _ _ Hp Hl) as Hlt.
      apply elem_of_cons in Hx as [->|Hx]; [by rewrite bytes_compare_refl in Hlt|].
      apply StronglySorted_app_1_r in Hs. apply StronglySorted_inv in Hs as [_ Hs]. rewrite Forall_forall in Hs.
      specialize (Hs x Hx). unfold key_lt in Hs. rewrite bytes_compare_opp, Hs in Hlt. done. }
    destruct (HB x p Hb Hc) as (c & -> & Hpc); [set_solver|done|]. exists c. split; [done|].
    split; [by etrans|]. apply prefix_len_le in Hpc. lia.
Qed.
Lemma cut_step before p todo cut : StronglySorted key_lt (before ++ p :: todo) → cut_inv before (p :: todo) cut →
  let cut1 := if below_of cut p.1 then cut else None in
  cut_inv (before ++ [p]) todo (if bool_decide (cut_node p) then match cut1 with None => Some p.1 | _ => cut1 end else cut1).
Proof.
  intros Hs [HA HB] cut1. split.
  - intros c. subst cut1. destruct (below_of cut p.1) eqn:Eb; case_bool_decide as Ec.
    + destruct cut as [c'|]; [intros [= ->]; destruct (HA c eq_refl) as (x & ? & ? & ?)|intros [= <-]]; [exists x|exists p]; set_solver.
    + intros ->. destruct (HA c eq_refl) as (x & ? & ? & ?). exists x. set_solver.
    + intros [= <-]. exists p. set_solver.
    + done.
  - intros x q Hx Hcx Hq Ha. apply elem_of_app in Hx as [Hx| ->%list_elem_of_singleton].
    + destruct (HB x q Hx Hcx) as (c & -> & Hc); [set_solver|done|]. assert (below_of (Some c) p.1 = true) as Eb.
      { apply below_above. exists c. split; [done|]. destruct Ha as [Hp Hl]. apply StronglySorted_app in Hs as (Hxs & _ & Hs).
        assert (bytes_compare x.1 p.1 = Lt) as Hxp by (apply Hxs; set_solver).
        apply StronglySorted_inv in Hs as [_ Hs]. rewrite Forall_forall in Hs. pose proof (Hs q Hq) as Hpq.
        pose proof (prefix_interval _ _ _ Hp Hxp Hpq) as Hpp. split; [by etrans|].
        assert (len x.1 < len p.1); [|apply prefix_len_le in Hc; lia]. destruct Hpp as [[|y e] E]; [|rewrite E; len_lia].
        rewrite E, app_nil_r, bytes_compare_refl in Hxp. done. }
      subst cut1. rewrite Eb. exists c. by case_bool_decide.
    + rewrite bool_decide_eq_true_2 by done. subst cut1. destruct (below_of cut p.1) eqn:Eb; [|eauto].
      apply below_above in Eb as (c & -> & [? _]). eauto.
Qed.
Lemma flag_loop_spec before l cut fl : StronglySorted key_lt (before ++ l) → cut_inv before l cut →
  flag_loop apex ns cut l = Ok fl → Forall2 (flag_spec (before ++ l)) l fl.
Proof.
  revert before cut fl. induction l as [|[k n] l IH]; intros before cut fl Hs Hi; cbn [flag_loop]; [intros [= <-]; constructor|].
  destruct (_ && _); [done|]. fold (below_of cut k). intros (rest & E & [= <-])%bind_Ok.
  assert (negb (bool_decide (k = apex)) && bool_decide (node_get n T_NS ≠ None) = bool_decide (cut_node (k, n))) as Ec.
  { unfold cut_node. simpl. repeat case_bool_decide; simpl; tauto. }
  rewrite Ec in *. constructor.
  - split; [done|]. split; [done|]. apply flags_value; [by apply (below_spec before (k, n) l)| |]; rewrite bool_decide_eq_true; done.
  - pose proof (cut_step before (k, n) l cut Hs Hi) as Hi'. rewrite cons_middle, app_assoc in Hs |- *. eapply IH; [done|exact Hi'|exact E].
Qed.
End pass.

Lemma in_key_order_sorted (ns : nodemap) : StronglySorted key_lt (in_key_order ns).
Proof.
  pose proof (in_key_order_NoDup ns) as Hnd.
  assert (StrictWeakOrder (λ p q : bytes * Node, bytes_lt p.1 q.1)) as Hswo by by apply (swo_of_cmp fst bytes_compare).
  pose proof (stable_sort_sorted (λ p q : bytes * Node, bytes_lt p.1 q.1) (map_to_list ns)) as Hs. fold (in_key_order ns) in Hs.
  induction Hs as [|p l Hs IH Hall]; [constructor|]. simpl in Hnd. apply NoDup_cons in Hnd as [Hn Hnd]. constructor; [auto|].
  rewrite Forall_forall in *. intros q Hq. specialize (Hall q Hq). unfold in_order, bytes_lt in Hall. apply bool_decide_eq_false in Hall.
  unfold key_lt. rewrite bytes_compare_opp in Hall. destruct (bytes_compare p.1 q.1) eqn:E; [|done|done].
  apply bytes_compare_eq in E. exfalso. apply Hn. rewrite E. apply list_elem_of_fmap. eauto.
Qed.

(** ** Names *)
Definition valid_name (ls : list bytes) : Prop := name_ok ls ∧ Forall (Forall is_byte) ls.
Definition key_of (ls : list bytes) : bytes := concat (map label_key (rev ls)).
Lemma canon_key_of ls : valid_name ls → canon_key (wire_name ls) = key_of ls.
Proof. intros [H1 H2]. pose proof (canon_key_wire ls [] H1 H2) as E. by rewrite app_nil_r in E. Qed.
Lemma key_of_app p q : key_of (p ++ q) = key_of q ++ key_of p.
Proof. unfold key_of. by rewrite rev_app_distr, map_app, concat_app. Qed.
Lemma valid_name_app_r p q : valid_name (p ++ q) → valid_name q.
Proof.
  intros [[H1 H2] H3]. apply Forall_app in H1 as [_ ?], H3 as [_ ?]. split; [split; [done|]|done].
  rewrite wire_name_app, len_app in H2. len_lia.
Qed.
Lemma key_of_inj a b : Forall (Forall is_byte) a → Forall (Forall is_byte) b → key_of a = key_of b ↔ map lowercase a = map lowercase b.
Proof.
  intros Ha Hb. unfold key_of. rewrite <- bytes_compare_eq, concat_key_compare, canonical_eq by (by apply Forall_rev).
  rewrite !map_rev. split; [|by intros ->]. intros E. by rewrite <- (rev_involutive (map _ a)), E, rev_involutive.
Qed.

(** Ancestors and prefixes are the same: no label key runs into the next one. *)
Lemma label_keys_prefix a b : Forall (Forall is_byte) a → Forall (Forall is_byte) b →
  concat (map label_key a) `prefix_of` concat (map label_key b) → ∃ b1 b2, b = b1 ++ b2 ∧ map lowercase b1 = map lowercase a.
Proof.
  intros Ha. revert b. induction Ha as [|l a Hl Ha IH]; intros b Hb; [exists [], b; done|]. destruct Hb as [|m b Hm Hb].
  - intros [c E]. exfalso. simpl in E. unfold label_key in E. by destruct (concat (map key_octet l)).
  - cbn [map concat]. intros [c E]. rewrite <- app_assoc in E. pose proof (label_key_compare m l (concat (map label_key b)) (concat (map label_key a) ++ c) Hm Hl) as Hc.
    rewrite E, bytes_compare_refl in Hc. destruct (bytes_compare (map ascii_lower m) (map ascii_lower l)) eqn:El; [|done|done].
    apply bytes_compare_eq in El. symmetry in Hc. apply bytes_compare_eq in Hc.
    destruct (IH b Hb) as (b1 & b2 & -> & E1); [by exists c|]. exists (m :: b1), b2. split; [done|]. simpl. f_equal; done.
Qed.
Lemma key_of_lower a b : Forall (Forall is_byte) a → Forall (Forall is_byte) b → map lowercase a = map lowercase b → key_of a = key_of b.
Proof. intros ? ? ?. by apply key_of_inj. Qed.
Lemma key_of_prefix a b : Forall (Forall is_byte) a → Forall (Forall is_byte) b →
  key_of a `prefix_of` key_of b ↔ ∃ p q, b = p ++ q ∧ map lowercase q = map lowercase a.
Proof.
  intros Ha Hb. split.
  - intros (b1 & b2 & E & El)%label_keys_prefix; [|by apply Forall_rev..]. exists (rev b2), (rev b1).
    split; [by rewrite <- rev_app_distr, <- E, rev_involutive|]. rewrite !map_rev, El, map_rev. apply rev_involutive.
  - intros (p & q & -> & E). apply Forall_app in Hb as [_ Hq]. rewrite key_of_app, (key_of_lower q a) by done. by exists (key_of p).
Qed.
Lemma key_of_cons l p : key_of (l :: p) = key_of p ++ label_key l.
Proof. change (l :: p) with ([l] ++ p). rewrite key_of_app. unfold key_of at 2. simpl. by rewrite app_nil_r. Qed.
Lemma len_key_of_pos p : p ≠ [] → 0 < len (key_of p).
Proof.
  destruct p as [|l p]; [done|]. intros _. rewrite key_of_cons. unfold label_key. len_lia.
Qed.
Lemma above_key a b : Forall (Forall is_byte) a → Forall (Forall is_byte) b →
  above (key_of a) (key_of b) ↔ ∃ p q, b = p ++ q ∧ p ≠ [] ∧ map lowercase q = map lowercase a.
Proof.
  intros Ha Hb. unfold above. rewrite key_of_prefix by done. split.
  - intros [(p & q & -> & E) Hl]. exists p, q. split_and!; [done| |done]. intros ->. apply Forall_app in Hb as [_ Hq].
    rewrite key_of_app, (key_of_lower q a) in Hl by done. change (key_of []) with ([] : bytes) in Hl. rewrite app_nil_r in Hl. lia.
  - intros (p & q & -> & Hp & E). split; [by exists p, q|]. apply Forall_app in Hb as [_ Hq].
    rewrite key_of_app, (key_of_lower q a) by done. apply len_key_of_pos in Hp. len_lia.
Qed.
Lemma star_key p : key_of ([42] :: p) = key_of p ++ star.
Proof. by rewrite key_of_cons. Qed.

(** ** Nodes inside the zone *)
(** A name in the zone: [p] below the origin [os], whose letters may be written in either case. *)
Definition named (os p : list bytes) (owner : bytes) : Prop :=
  ∃ q, owner = wire_name (p ++ q) ∧ valid_name (p ++ q) ∧ map lowercase q = os.
Definition nodes_in (os : list bytes) (ns : nodemap) : Prop := ∀ k n, ns !! k = Some n → ∃ p, named os p (nd_owner n).
(** An origin: valid and in lower case. *)
Definition origin_ok (os : list bytes) : Prop := valid_name os ∧ map lowercase os = os.
(** The key of the name [p] below the origin. *)
Lemma named_key os p owner : origin_ok os → named os p owner → canon_key owner = key_of (p ++ os) ∧ Forall (Forall is_byte) (p ++ os).
Proof.
  intros [[_ Hos] Hl] (q & -> & Hv & E). rewrite canon_key_of by done. destruct Hv as [_ Hb]. apply Forall_app in Hb as [Hp Hq].
  split; [|by apply Forall_app]. rewrite !key_of_app. f_equal. apply key_of_lower; [done..|]. congruence.
Qed.
Lemma named_drop os p1 p2 owner : named os (p1 ++ p2) owner → named os p2 (drop (Z.to_nat (offset (p1 ++ p2) (length p1))) owner).
Proof.
  intros (q & -> & Hv & E). exists q. rewrite <- app_assoc in *. split_and!; [|by eapply valid_name_app_r|done].
  unfold offset. rewrite take_app_length. replace (wire_labels p1) with (wire_labels (take (length p1) (p1 ++ p2 ++ q))) by by rewrite take_app_length.
  fold (offset (p1 ++ p2 ++ q) (length p1)). by rewrite drop_offset, drop_app_length.
Qed.
(** The names a node needs: every name between it and the origin. *)
Lemma between_named os p owner o : named os p owner →
  o ∈ between (length os) owner ↔ ∃ p1 p2, p = p1 ++ p2 ∧ p1 ≠ [] ∧ p2 ≠ [] ∧ o = drop (Z.to_nat (offset p (length p1))) owner.
Proof.
  intros (q & -> & Hv & E). assert (length q = length os) as Eq by (rewrite <- E; by rewrite length_map).
  unfold between. pose proof (label_offsets_wire (p ++ q) [] (proj1 Hv)) as Ho. rewrite app_nil_r in Ho. rewrite Ho, length_map, length_seq, length_app, Eq.
  replace (length p + length os - length os)%nat with (length p) by lia.
  assert (∀ i, (i ≤ length p)%nat → offset (p ++ q) i = offset p i) as Hoff by (intros i Hi; unfold offset; by rewrite take_app_le).
  rewrite list_elem_of_fmap. split.
  - intros (x & -> & Hx). apply list_elem_of_lookup in Hx as [i Hi]. apply lookup_take_Some in Hi as [Hi Hlt].
    rewrite lookup_drop in Hi. change (map (offset (p ++ q)) ?l) with (offset (p ++ q) <$> l) in Hi. rewrite list_lookup_fmap in Hi.
    apply fmap_Some in Hi as (j & [-> Hj]%lookup_seq & ->). simpl in *. exists (take (S i) p), (drop (S i) p).
    rewrite take_drop, length_take, Nat.min_l by lia. split_and!; [done|destruct p; [simpl in Hlt; lia|done]|intros Ed; apply (f_equal length) in Ed; rewrite length_drop in Ed; simpl in Ed; lia|].
    by rewrite Hoff by lia.
  - intros (p1 & p2 & -> & H1 & H2 & ->). exists (offset ((p1 ++ p2) ++ q) (length p1)). rewrite Hoff by (rewrite length_app; lia). split; [done|].
    rewrite <- Hoff by (rewrite length_app; lia). destruct p1 as [|l p1]; [done|]. destruct p2 as [|m p2]; [done|].
    apply (list_elem_of_lookup_2 _ (length p1)). apply lookup_take_Some. rewrite lookup_drop. change (map ?f ?l) with (f <$> l).
    rewrite list_lookup_fmap, lookup_seq_lt by (rewrite !length_app; simpl; lia). rewrite !length_app. simpl. split; [done|lia].
Qed.

(** ** The names that exist *)
Lemma add_empties_spec l ns : let ns' := foldl add_empty ns l in
  (∀ k n, ns !! k = Some n → ns' !! k = Some n) ∧
  (∀ k n, ns' !! k = Some n → ns !! k = Some n ∨ ∃ o, o ∈ l ∧ k = canon_key o ∧ n = mkNode o [] 0) ∧
  (∀ o, o ∈ l → ns' !! canon_key o ≠ None).
Proof.
  revert ns. induction l as [|o l IH]; intros ns; cbn [foldl]; [split_and!; [done|auto|by intros o ?%not_elem_of_nil]|].
  destruct (IH (add_empty ns o)) as (H1 & H2 & H3).
  assert (∀ k n, ns !! k = Some n → add_empty ns o !! k = Some n) as Hk.
  { intros k n E. unfold add_empty. destruct (ns !! canon_key o) eqn:Eo; [done|]. rewrite lookup_insert_ne; [done|]. intros <-. congruence. }
  assert (add_empty ns o !! canon_key o ≠ None) as Ho.
  { unfold add_empty. destruct (ns !! canon_key o) eqn:Eo; [congruence|]. by rewrite lookup_insert_eq. }
  split_and!.
  - auto.
  - intros k n [E|(o' & ? & ? & ?)]%H2; [|right; exists o'; set_solver]. unfold add_empty in E. destruct (ns !! canon_key o) eqn:Eo; [auto|].
    apply lookup_insert_Some in E as [[<- <-]|[_ ?]]; [right; exists o; set_solver|auto].
  - intros o' [->|Hin]%elem_of_cons; [|auto]. destruct (add_empty ns o !! canon_key o) as [n|] eqn:E; [|done]. by rewrite (H1 _ _ E).
Qed.
Lemma with_empty_spec k0 ns : let ns' := with_empty k0 ns in
  (∀ k n, ns !! k = Some n → ns' !! k = Some n) ∧
  (∀ k n, ns' !! k = Some n → ns !! k = Some n ∨ ∃ k1 n1 o, ns !! k1 = Some n1 ∧ o ∈ between k0 (nd_owner n1) ∧ k = canon_key o ∧ n = mkNode o [] 0) ∧
  (∀ k n o, ns !! k = Some n → o ∈ between k0 (nd_owner n) → ns' !! canon_key o ≠ None).
Proof.
  unfold with_empty. destruct (add_empties_spec (concat (map (λ p, between k0 (nd_owner p.2)) (in_key_order ns))) ns) as (H1 & H2 & H3).
  split_and!; [done| |].
  - intros k n [?|(o & (l & (p & <- & Hp%list_elem_of_In)%in_map_iff & Ho)%list_elem_of_In%in_concat & -> & ->)]%H2; [auto|].
    right. destruct p as [k1 n1]. exists k1, n1, o. apply elem_of_in_key_order in Hp. by rewrite list_elem_of_In.
  - intros k n o E Ho. apply H3. apply list_elem_of_In, in_concat. exists (between k0 (nd_owner n)). split; [|by apply list_elem_of_In].
    apply in_map_iff. exists (k, n). split; [done|]. by apply list_elem_of_In, elem_of_in_key_order.
Qed.

Lemma has_data_inv n : has_data n = true → (∃ t d v, set_data (nd_rrsets n) t d v) ∨ (∃ t d, set_sig (nd_rrsets n) t d).
Proof.
  intros (s & Hs & H)%existsb_exists. apply list_elem_of_In in Hs. apply orb_true_iff in H as [H%negb_true_iff%bool_decide_eq_false|H%negb_true_iff%bool_decide_eq_false].
  - destruct (rs_rdata s) as [|d l] eqn:E; [done|]. left. exists (rs_rtype s), d, (rs_ttl s), s. rewrite E. set_solver.
  - destruct (rs_sigs s) as [|d l] eqn:E; [done|]. right. exists (rs_rtype s), d, s. rewrite E. set_solver.
Qed.
Lemma represents_node ns S k n : represents ns S → ns !! k = Some n → has_data n = true → ∃ r, r ∈ S ∧ slot_of r ≠ None ∧ canon_key (Owner r) = k.
Proof.
  intros (_ & Hd & Hg) E [(t & d & v & H)|(t & d & H)]%has_data_inv.
  - destruct (proj1 (Hd k t d v)) as (r & Hr & Hs & _); [by exists n|]. exists r. apply slot_covered in Hs as (Hc & <- & _). split_and!; [done| |done].
    unfold slot_of. by rewrite Hc.
  - destruct (proj1 (Hg k t d)) as (r & Hr & Hs); [by exists n|]. exists r. apply slot_covered in Hs as (Hc & <- & _). split_and!; [done| |done].
    unfold slot_of. by rewrite Hc.
Qed.
Lemma represents_record ns S r : represents ns S → r ∈ S → slot_of r ≠ None → ∃ n, ns !! canon_key (Owner r) = Some n ∧ has_data n = true.
Proof.
  intros (_ & Hd & Hg) Hr Hs. destruct (slot_of r) as [[[[k t] sig] d]|] eqn:E; [|done]. pose proof E as (_ & -> & _)%slot_covered.
  destruct sig.
  - destruct (proj2 (Hg k t d)) as (n & En & Hn); [by exists r|]. exists n. split; [done|]. apply has_data_true. eauto.
  - destruct (proj2 (Hd k t d (TTL r))) as (n & En & Hn); [by exists r|]. exists n. split; [done|]. apply has_data_true. eauto.
Qed.

Lemma named_lower os p p' : Forall (Forall is_byte) (p ++ os) → Forall (Forall is_byte) (p' ++ os) → key_of (p ++ os) = key_of (p' ++ os) ↔ map lowercase p = map lowercase p'.
Proof. intros H1 H2. rewrite key_of_inj, !map_app by done. split; [by intros ?%app_inv_tail|by intros ->]. Qed.

(** The names that exist in a set of records: those at or above the owner of a record (RFC 4592 2.2). *)
Definition exists_in (os : list bytes) (S : list record) (p : list bytes) : Prop :=
  ∃ r p1 p2, r ∈ S ∧ slot_of r ≠ None ∧ named os (p1 ++ p2) (Owner r) ∧ map lowercase p2 = map lowercase p.
Definition records_in (os : list bytes) (S : list record) : Prop := Forall (λ r, slot_of r ≠ None → ∃ p, named os p (Owner r)) S.

Lemma skeleton_in os ns : origin_ok os → nodes_in os ns → nodes_in os (skeleton (length os) ns).
Proof.
  intros Hos Hin k n E. destruct (with_empty_spec (length os) (filter (λ p, has_data p.2 = true) ns)) as (_ & H2 & _).
  apply H2 in E as [[E _]%map_lookup_filter_Some|(k1 & n1 & o & [E _]%map_lookup_filter_Some & Ho & _ & ->)]; [by eapply Hin|].
  destruct (Hin _ _ E) as [p Hp]. apply (between_named _ _ _ _ Hp) in Ho as (p1 & p2 & -> & _ & _ & ->). exists p2. by apply named_drop.
Qed.
Section skeleton.
Context (os : list bytes) (ns : nodemap) (S : list record).
Context (Hos : origin_ok os) (HS : represents ns S) (Hin : nodes_in os ns) (Hrs : records_in os S).
Abbreviation sk := (skeleton (length os) ns).
Lemma skeleton_ok : nodes_ok sk.
Proof. by apply (skeleton_represents (length os) ns S). Qed.
Lemma skeleton_key k n : sk !! k = Some n → ∃ p, named os p (nd_owner n) ∧ k = key_of (p ++ os) ∧ Forall (Forall is_byte) (p ++ os).
Proof.
  intros E. destruct (skeleton_in os ns Hos Hin k n E) as [p Hp]. exists p. destruct (named_key os p _ Hos Hp) as [Ek Hb].
  destruct (skeleton_ok k n E) as [<- _]. done.
Qed.

(** A node with data and every name above it are in the skeleton. *)
Lemma skeleton_above k n p1 p2 : ns !! k = Some n → has_data n = true → named os (p1 ++ p2) (nd_owner n) → p2 ≠ [] → sk !! key_of (p2 ++ os) ≠ None.
Proof.
  intros E Hd Hn Hp2. destruct (with_empty_spec (length os) (filter (λ p, has_data p.2 = true) ns)) as (H1 & _ & H3).
  assert (filter (λ p : bytes * Node, has_data p.2 = true) ns !! k = Some n) as Ef by (by apply map_lookup_filter_Some).
  destruct p1 as [|l p1].
  - destruct (named_key os p2 _ Hos Hn) as [Ek _]. destruct HS as [Hok _]. destruct (Hok _ _ E) as [Eo _]. rewrite <- Ek, Eo. intros E'. pose proof (H1 _ _ Ef) as E1. unfold skeleton in E'. congruence.
  - assert (drop (Z.to_nat (offset ((l :: p1) ++ p2) (length (l :: p1)))) (nd_owner n) ∈ between (length os) (nd_owner n)) as Hb.
    { apply (between_named _ _ _ _ Hn). exists (l :: p1), p2. done. }
    specialize (H3 _ _ _ Ef Hb). apply named_drop, (named_key os p2 _ Hos) in Hn as [<- _]. done.
Qed.
Lemma lower_split (a b c : list bytes) : map lowercase a = map lowercase (b ++ c) → ∃ b' c', a = b' ++ c' ∧ map lowercase b' = map lowercase b ∧ map lowercase c' = map lowercase c.
Proof. rewrite map_app. intros (b' & c' & -> & ? & ?)%map_eq_app. eauto. Qed.

Lemma skeleton_exists p : sk !! key_of os ≠ None → Forall (Forall is_byte) (p ++ os) → sk !! key_of (p ++ os) ≠ None ↔ exists_in os S p.
Proof.
  intros Hapex Hb. pose proof (proj1 (Forall_forall _ _) Hrs) as Hr0. split.
  - destruct (sk !! key_of (p ++ os)) as [n|] eqn:E; [|done]. intros _.
    destruct (with_empty_spec (length os) (filter (λ p, has_data p.2 = true) ns)) as (_ & H2 & _).
    destruct (H2 _ _ E) as [[En Hd]%map_lookup_filter_Some|(k1 & n1 & o & [En Hd]%map_lookup_filter_Some & Ho & Ek & ->)].
    + destruct (represents_node _ _ _ _ HS En Hd) as (r & Hr & Hsl & Ek). destruct (Hr0 r Hr Hsl) as [p' Hp']. exists r, [], p'. split_and!; [done..|].
      destruct (named_key _ _ _ Hos Hp') as [Ek' Hb']. rewrite Ek' in Ek. by apply (named_lower os).
    + destruct (represents_node _ _ _ _ HS En Hd) as (r & Hr & Hsl & Ek1). destruct (Hr0 r Hr Hsl) as [p' Hp']. destruct (Hin _ _ En) as [pn Hpn].
      destruct (named_key _ _ _ Hos Hp') as [Ek' Hb']. destruct (named_key _ _ _ Hos Hpn) as [Ek2 Hb2]. destruct HS as [Hok _]. destruct (Hok _ _ En) as [Eo _].
      assert (map lowercase p' = map lowercase pn) as El by (apply (named_lower os); [done..|congruence]).
      apply (between_named _ _ _ _ Hpn) in Ho as (p1 & p2 & -> & _ & _ & ->). apply lower_split in El as (a & c & -> & Ea & Ec).
      exists r, a, c. split_and!; [done..|]. apply named_drop, (named_key os p2 _ Hos) in Hpn as [Ek3 Hb3]. rewrite Ec.
      apply (named_lower os); [done..|]. congruence.
  - intros (r & p1 & p2 & Hr & Hsl & Hn & El). destruct p as [|l p]; [done|].
    destruct (represents_record _ _ _ HS Hr Hsl) as (n & En & Hd). destruct (Hin _ _ En) as [pn Hpn].
    destruct (named_key _ _ _ Hos Hn) as [Ek1 Hb1]. destruct (named_key _ _ _ Hos Hpn) as [Ek2 Hb2]. destruct HS as [Hok _]. destruct (Hok _ _ En) as [Eo _].
    assert (map lowercase pn = map lowercase (p1 ++ p2)) as El' by (apply (named_lower os); [done..|congruence]).
    apply lower_split in El' as (a & c & -> & Ea & Ec). assert (map lowercase c = map lowercase (l :: p)) as Ecl by congruence.
    assert (c ≠ []) as Hc by by destruct c. pose proof (skeleton_above _ _ _ _ En Hd Hpn Hc) as Hsk.
    rewrite <- app_assoc in Hb2. apply Forall_app in Hb2 as [_ Hb2]. apply (named_lower os) in Ecl; [|done..]. by rewrite <- Ecl.
Qed.
End skeleton.

(** ** The shape *)
Definition flags_ok (os : list bytes) (ns : nodemap) : Prop := ∀ k n p, ns !! k = Some n → named os p (nd_owner n) →
  (is_cut n = true ↔ p ≠ [] ∧ node_get n T_NS ≠ None) ∧
  (Z.land (nd_flags n) NODE_WILDCARD_CHILD ≠ 0 ↔ ns !! key_of ([42] :: p ++ os) ≠ None) ∧
  (Z.land (nd_flags n) NODE_BELOW_CUT ≠ 0 ↔ ∃ p1 p2 c, p = p1 ++ p2 ∧ p1 ≠ [] ∧ ns !! key_of (p2 ++ os) = Some c ∧ is_cut c = true).
Record zone_shape {Policy} (os : list bytes) (z : EZone Policy) : Prop := {
  zs_origin : origin_ok os ∧ ez_origin z = wire_name os ∧ ez_apex_key z = key_of os ∧ ez_origin_labels z = length os;
  zs_nodes : nodes_ok (ez_nodes z);
  zs_in : nodes_in os (ez_nodes z);
  zs_soa : ∃ n s d, ez_nodes z !! key_of os = Some n ∧ node_get n T_SOA = Some s ∧ rs_rdata s = [d] ∧ soa_serial d = Some (ez_serial z);
  zs_flags : flags_ok os (ez_nodes z) }.

Lemma node_get_bare n n' t : bare n = bare n' → node_get n t = node_get n' t.
Proof. unfold bare, node_get. by intros [= _ ->]. Qed.
Lemma check_apex_inv serial apex ns : check_apex serial apex ns = Ok tt →
  ∃ n s d, ns !! apex = Some n ∧ node_get n T_SOA = Some s ∧ rs_rdata s = [d] ∧ soa_serial d = Some serial.
Proof.
  unfold check_apex. destruct (ns !! apex) as [n|]; [|done]. destruct (node_get n T_SOA) as [s|] eqn:Es; [|done].
  destruct (rs_rdata s) as [|d [|? ?]] eqn:Ed; [done| |done]. case_bool_decide; [|done]. intros _. eauto 10.
Qed.
(** A suffix of a name in the zone that spells another name in the zone. *)
Lemma suffix_in_zone (os a b p pc : list bytes) : p ++ os = a ++ b → map lowercase b = map lowercase (pc ++ os) →
  ∃ p2, p = a ++ p2 ∧ b = p2 ++ os ∧ map lowercase p2 = map lowercase pc.
Proof.
  intros E El. rewrite map_app in El. pose proof (f_equal length El) as Hl. rewrite length_app, !length_map in Hl.
  assert (length a ≤ length p)%nat as Ha by (apply (f_equal length) in E; rewrite !length_app in E; lia).
  exists (drop (length a) p). assert (p = a ++ drop (length a) p) as Ep.
  { rewrite <- (take_drop (length a) p) at 1. f_equal. apply (f_equal (take (length a))) in E. rewrite take_app_le, take_app_length in E by lia. done. }
  assert (b = drop (length a) p ++ os) as Eb.
  { apply (f_equal (drop (length a))) in E. rewrite drop_app_le, drop_app_length in E by lia. done. }
  split_and!; [done..|]. rewrite Eb, map_app in El. by apply app_inv_tail in El.
Qed.

Section shape.
Context (os : list bytes) (ns : nodemap) (fl : list (bytes * Node)) (Hos : origin_ok os).
Context (Hkey : ∀ k n, ns !! k = Some n → ∃ p, named os p (nd_owner n) ∧ k = key_of (p ++ os) ∧ Forall (Forall is_byte) (p ++ os)).
Context (Hfl : flag_loop (key_of os) ns None (in_key_order ns) = Ok fl).
Abbreviation flagged := (list_to_map fl : nodemap).

Lemma flagged_spec k n : flagged !! k = Some n → ∃ n0, ns !! k = Some n0 ∧ flag_spec (key_of os) ns (in_key_order ns) (k, n0) (k, n).
Proof.
  intros E%elem_of_list_to_map_2. pose proof (flag_loop_spec (key_of os) ns [] (in_key_order ns) None fl) as HF.
  assert (Forall2 (flag_spec (key_of os) ns (in_key_order ns)) (in_key_order ns) fl) as HF2.
  { apply HF; [apply in_key_order_sorted| |done]. split; [done|by intros p q ?%not_elem_of_nil]. }
  apply list_elem_of_lookup in E as [i Hi]. destruct (Forall2_lookup_r _ _ _ _ _ HF2 Hi) as ([k' n0] & Hi' & Hs).
  exists n0. destruct Hs as [Ek Hs]. simpl in Ek. subst k'. split; [|by split]. apply elem_of_in_key_order. by eapply list_elem_of_lookup_2.
Qed.
Lemma flagged_bare k : bare <$> ns !! k = bare <$> flagged !! k.
Proof. apply flagged_lookup. by eapply flag_loop_bare. Qed.
Lemma flagged_None k : flagged !! k ≠ None ↔ ns !! k ≠ None.
Proof. pose proof (flagged_bare k) as E. destruct (ns !! k), (flagged !! k); done. Qed.
Lemma key_apex p : Forall (Forall is_byte) (p ++ os) → key_of (p ++ os) ≠ key_of os ↔ p ≠ [].
Proof.
  intros Hb. apply not_iff_compat. pose proof (named_lower os p [] Hb) as H. simpl in H. rewrite H by (by apply Forall_app in Hb as [_ ?]).
  by destruct p.
Qed.
Lemma flagged_ok : flags_ok os flagged.
Proof.
  intros k n p E Hp. destruct (flagged_spec k n E) as (n0 & E0 & _ & Eb & Hc & Hw & Hbl). simpl in *.
  assert (nd_owner n0 = nd_owner n) as Eo by by injection Eb. pose proof (Hkey _ _ E0) as (p' & Hp' & Ek & Hb'). rewrite Eo in Hp'.
  destruct (named_key os p _ Hos Hp) as [Ek1 Hb]. destruct (named_key os p' _ Hos Hp') as [Ek2 _].
  assert (k = key_of (p ++ os)) as -> by congruence. clear p' Hp' Ek Hb' Ek2 Ek1. split_and!.
  - rewrite Hc. unfold cut_node. simpl. by rewrite key_apex, (node_get_bare _ _ _ Eb).
  - rewrite Hw, flagged_None. by rewrite star_key.
  - rewrite Hbl. split.
    + intros ([kc nc] & Hin%elem_of_in_key_order & Hcut & Ha). simpl in *. destruct (Hkey _ _ Hin) as (pc & Hpc & -> & Hbc).
      apply above_key in Ha as (a & b & Ep & Hne & El); [|done..]. destruct (suffix_in_zone os a b p pc Ep El) as (p2 & -> & -> & El2).
      rewrite <- app_assoc in Hb. apply Forall_app in Hb as [_ Hb2]. apply (named_lower os) in El2; [|done..].
      pose proof (flagged_bare (key_of (p2 ++ os))) as Hfb. rewrite El2, Hin in Hfb. destruct (flagged !! key_of (pc ++ os)) as [c|] eqn:Ec; [|done].
      exists a, p2, c. rewrite El2. split_and!; [done..|]. destruct (flagged_spec _ _ Ec) as (n1 & E1 & _ & _ & Hc1 & _). simpl in *.
      apply Hc1. assert (n1 = nc) as -> by congruence. done.
    + intros (p1 & p2 & c & -> & Hne & Ec & Hcut). destruct (flagged_spec _ _ Ec) as (n1 & E1 & _ & _ & Hc1 & _). simpl in *.
      exists (key_of (p2 ++ os), n1). split_and!; [by apply elem_of_in_key_order|by apply Hc1|]. rewrite <- app_assoc in Hb |- *.
      pose proof Hb as Hb'. apply Forall_app in Hb' as [_ Hb2]. apply above_key; [done..|]. by exists p1, (p2 ++ os).
Qed.
End shape.

(** ** Zones from the wire *)
Lemma lowercase_idem l : lowercase (lowercase l) = lowercase l.
Proof. unfold lowercase. rewrite map_map. apply map_ext. intros b. unfold ascii_lower. destruct (is_upper b) eqn:E; [|by rewrite E]. unfold is_upper in *. case_match; lia. Qed.
Lemma lowercase_idem_list ls : map lowercase (map lowercase ls) = map lowercase ls.
Proof. rewrite map_map. apply map_ext. apply lowercase_idem. Qed.
Lemma validName_valid b : Forall is_byte b → validName b = Ok tt → ∃ ls, b = wire_name ls ∧ valid_name ls.
Proof. intros Hb (ls & -> & Hok)%validName_spec; [|done]. exists ls. split; [done|]. split; [done|]. apply wire_name_bytes; [apply Hok|done]. Qed.
(** The origin of a parsed blob, and its records, as names. *)
Lemma parsed_names p : parsed_ok p → ∃ os, origin_ok os ∧ lowercase (p_origin p) = wire_name os ∧
  Forall (λ r, ∃ q, named os q (Owner r)) (p_a p) ∧ Forall (λ r, ∃ q, named os q (Owner r)) (p_b p).
Proof.
  intros [(Hv & Hb & _) _ Ha Hpb _]. destruct (validName_valid _ Hb Hv) as (qs & Eq & [Hok Hbq]). exists (map lowercase qs).
  assert (Hlow : lowercase (wire_name qs) = wire_name (map lowercase qs)) by apply map_lower_wire_name, Hok.
  assert (∀ r, rec_ok (p_origin p) r → ∃ q, named (map lowercase qs) q (Owner r)) as Hr.
  { intros r [Hwf Hn Hz _ _]. destruct (validName_valid (Owner r)) as (ls & El & Hls); [by apply Hwf|done|]. rewrite El, Eq in Hz.
    apply is_subdomain_wire in Hz as (x & y & -> & E); [|by destruct Hls|done]. exists x, y. by rewrite El. }
  split_and!; [|by rewrite Eq|by eapply Forall_impl|by eapply Forall_impl].
  split; [|apply lowercase_idem_list]. split.
  - destruct Hok as [Hl Hlen]. split; [by apply label_ok_lower|]. rewrite <- Hlow. unfold lowercase. by rewrite len_map.
  - apply Forall_forall. intros l (l0 & -> & Hin)%list_elem_of_fmap. rewrite Forall_forall in Hbq. apply Forall_forall.
    intros b (c & -> & Hc)%list_elem_of_fmap. apply ascii_lower_byte. specialize (Hbq _ Hin). rewrite Forall_forall in Hbq. auto.
Qed.
Lemma named_slots os rs : Forall (λ r, ∃ q, named os q (Owner r)) rs → records_in os rs.
Proof. intros H. eapply Forall_impl; [done|]. auto. Qed.

Section zones.
Context {Policy : Type} (no_policy : Policy).
Lemma finalize_shape os ns S serial (z : EZone Policy) : origin_ok os → represents ns S → nodes_in os ns → records_in os S →
  finalize no_policy (wire_name os) (key_of os) (length os) serial ns = Ok z →
  zone_shape os z ∧ ∀ p, Forall (Forall is_byte) (p ++ os) → ez_nodes z !! key_of (p ++ os) ≠ None ↔ exists_in os S p.
Proof.
  intros Hos HS Hin Hrs E. pose proof (finalize_represents _ _ _ _ _ _ _ _ HS E) as HZ.
  apply finalize_inv in E as (E1 & E2 & E3 & E4 & Ha & fl & Efl & En & _). pose proof (skeleton_key os ns S Hos HS Hin) as Hkey.
  apply check_apex_inv in Ha as (n & s & d & Ek & Es & Ed & Eser). pose proof (flagged_bare os _ _ Efl) as Hfb. rewrite <- En in Hfb.
  assert (∀ k, ez_nodes z !! k ≠ None ↔ skeleton (length os) ns !! k ≠ None) as HN by (intros k; rewrite En; by eapply flagged_None).
  split.
  - split; [by split_and!|by apply HZ| | |rewrite En; by eapply flagged_ok].
    + intros k n' En'. specialize (Hfb k). rewrite En' in Hfb. destruct (skeleton (length os) ns !! k) as [n0|] eqn:E0; [|done].
      destruct (Hkey _ _ E0) as (p & Hp & _). exists p. by injection Hfb as <- _.
    + specialize (Hfb (key_of os)). rewrite Ek in Hfb. destruct (ez_nodes z !! key_of os) as [n'|] eqn:E'; [|done]. injection Hfb as Eo Er.
      exists n', s, d. split_and!; [done| |done|congruence]. rewrite <- Es. apply node_get_bare. unfold bare. congruence.
  - intros p Hb. rewrite HN. apply skeleton_exists; [done..|congruence|done].
Qed.

Lemma zone_insert_in os ns r ns' : nodes_in os ns → (∃ p, named os p (Owner r)) → zone_insert ns r = Ok ns' → nodes_in os ns'.
Proof.
  intros Hin Hr. unfold zone_insert. intros ([t sig] & _ & [= <-])%bind_Ok k n [[<- <-]|[_ E]]%lookup_insert_Some; [|by eapply Hin]. simpl.
  destruct (ns !! canon_key (Owner r)) as [n|] eqn:E; [|done]. by eapply Hin.
Qed.
Lemma inserts_in os rs ns ns' : nodes_in os ns → Forall (λ r, ∃ p, named os p (Owner r)) rs → fold_res zone_insert ns rs = Ok ns' → nodes_in os ns'.
Proof.
  intros Hin Hrs. revert ns Hin. induction Hrs as [|r rs Hr _ IH]; intros ns Hin; simpl; [by intros [= <-]|].
  intros (n1 & E1 & E2)%bind_Ok. eapply (IH n1); [|done]. by eapply zone_insert_in.
Qed.
Lemma removes_in os rs ns ns' : nodes_in os ns → fold_res zone_remove ns rs = Ok ns' → nodes_in os ns'.
Proof.
  revert ns. induction rs as [|r rs IH]; intros ns Hin; simpl; [by intros [= <-]|]. intros (n1 & E1 & E2)%bind_Ok. eapply (IH n1); [|done].
  unfold zone_remove in E1. apply bind_Ok in E1 as ([t sig] & _ & E1). destruct (ns !! canon_key (Owner r)) as [n|] eqn:En; [|done].
  destruct (drop_set _ _ _ _); [|done]. injection E1 as <-. intros k n' [[<- <-]|[_ E]]%lookup_insert_Some; [|by eapply Hin]. simpl. by eapply Hin.
Qed.

Lemma from_image_shape p (z : EZone Policy) : parsed_ok p → uniform (p_a p) → from_image no_policy p = Ok z →
  ∃ os, zone_shape os z ∧ ∀ q, Forall (Forall is_byte) (q ++ os) → ez_nodes z !! key_of (q ++ os) ≠ None ↔ exists_in os (p_a p) q.
Proof.
  intros Hp Hu E. destruct (parsed_names p Hp) as (os & Hos & Ho & Ha & _). exists os. unfold from_image in E. case_bool_decide; [|done].
  cbn [negb] in E. apply bind_Ok in E as (ns & E1 & E2). rewrite Ho, (canon_key_of os) in E2 by apply Hos.
  pose proof (label_offsets_wire os []) as Hl. rewrite app_nil_r in Hl. rewrite Hl, length_map, length_seq in E2 by apply Hos.
  eapply finalize_shape; [done|by eapply (inserts_represent _ ∅ []); [apply represents_empty|..]| |by apply named_slots|exact E2].
  eapply inserts_in; [|done..]. intros k n Ek. by rewrite lookup_empty in Ek.
Qed.
Lemma withouts_in os D S : records_in os S → records_in os (withouts D S).
Proof. intros H. apply Forall_forall. intros r [_ Hr]%list_elem_of_filter. by eapply Forall_forall in H. Qed.
Lemma apply_shape os S d (z z' : EZone Policy) : zone_shape os z → represents (ez_nodes z) S → records_in os S → parsed_ok d → uniform (advanced S d) →
  zone_apply no_policy z d = Ok z' →
  zone_shape os z' ∧ records_in os (advanced S d) ∧
  ∀ q, Forall (Forall is_byte) (q ++ os) → ez_nodes z' !! key_of (q ++ os) ≠ None ↔ exists_in os (advanced S d) q.
Proof.
  intros [(Hos & Eo & Ek & El) Hok Hin _ _] HS Hrs Hd Hu E. pose proof (apply_fits _ _ _ _ E) as Hf. rewrite apply_cases in E by done.
  destruct (parsed_names d Hd) as (os' & Hos' & Ho' & _ & Hb).
  assert (os' = os) as ->.
  { destruct Hf as (_ & Ho & _). rewrite Eo, Ho' in Ho. unfold lowercase in Ho. rewrite map_lower_wire_name in Ho by apply Hos.
    apply wire_name_inj in Ho; [|apply Hos'|apply label_ok_lower, Hos]. rewrite Ho. apply Hos. }
  assert (records_in os (advanced S d)) as Hrs' by (apply Forall_app; split; [by apply withouts_in|by apply named_slots]).
  apply bind_Ok in E as (n1 & E1 & (n2 & E2 & E3)%bind_Ok). rewrite Eo, Ek, El in E3.
  assert (represents n2 (advanced S d)) as HS2 by (eapply inserts_represent; [|done..]; by eapply removes_represent).
  assert (nodes_in os n2) as Hin2 by (eapply inserts_in; [|done..]; by eapply removes_in).
  destruct (finalize_shape os n2 _ _ z' Hos HS2 Hin2 Hrs' E3). done.
Qed.

(** A zone with the names and the records of [S]. *)
Record zone_of (os : list bytes) (S : list record) (z : EZone Policy) : Prop := {
  zo_shape : zone_shape os z;
  zo_records : represents (ez_nodes z) S;
  zo_in : records_in os S;
  zo_exists : ∀ q, Forall (Forall is_byte) (q ++ os) → ez_nodes z !! key_of (q ++ os) ≠ None ↔ exists_in os S q }.
Lemma from_image_zone p z : parsed_ok p → uniform (p_a p) → from_image no_policy p = Ok z →
  ∃ os, lowercase (p_origin p) = wire_name os ∧ zone_of os (p_a p) z.
Proof.
  intros Hp Hu E. destruct (from_image_shape p z Hp Hu E) as (os & Hs & Hex). exists os.
  assert (represents (ez_nodes z) (p_a p) ∧ ez_origin z = lowercase (p_origin p)) as [HR Eo].
  { unfold from_image in E. case_bool_decide; [|done]. apply bind_Ok in E as (ns & E1 & E2). split.
    - eapply finalize_represents; [|done]. by eapply (inserts_represent _ ∅ []); [apply represents_empty|..].
    - by apply finalize_inv in E2 as (-> & _). }
  pose proof Hs as [(Hos & Ew & _) _ _ _ _]. split; [congruence|]. split; [done..| |done].
  destruct (parsed_names p Hp) as (os' & Hos' & Ho' & Ha & _). assert (os' = os) as ->; [|by apply named_slots].
  rewrite Ho', Ew in Eo. apply wire_name_inj in Eo; [done|apply Hos|apply Hos'].
Qed.
Lemma apply_zone os S d z z' : zone_of os S z → parsed_ok d → uniform (advanced S d) → zone_apply no_policy z d = Ok z' → zone_of os (advanced S d) z'.
Proof.
  intros [Hs HS Hin _] Hd Hu E. destruct (apply_shape os S d z z' Hs HS Hin Hd Hu E) as (H1 & H2 & H3). split; [done| |done..]. by eapply apply_represents.
Qed.
Lemma applies_zone os S ds z z' : zone_of os S z → Forall parsed_ok ds → (∀ k, uniform (foldl advanced S (take k ds))) →
  fold_res (zone_apply no_policy) z ds = Ok z' → zone_of os (foldl advanced S ds) z'.
Proof.
  intros Hz Hds. revert S z Hz. induction Hds as [|d ds Hd _ IH]; intros S z Hz Hu; simpl; [by intros [= <-]|]. intros (z1 & E1 & E2)%bind_Ok.
  eapply IH; [eapply apply_zone; [done..|apply (Hu 1%nat)|done]| |done]. intros k. apply (Hu (Datatypes.S k)).
Qed.

(** C13: A zone loaded from an image and brought forward by deltas has the records those leave and the
    names that exist in them: the nodes are the names at or above the owner of a record, a node is a
    delegation exactly when it holds NS below the apex, is marked below one exactly when an ancestor is
    one, and has the wildcard mark exactly when its [*] child exists; the apex holds the one SOA, with
    the serial of the zone. *)
Theorem loaded_zone p ds z : parsed_ok p → Forall parsed_ok ds → (∀ k, uniform (foldl advanced (p_a p) (take k ds))) →
  (z0 ← from_image no_policy p; fold_res (zone_apply no_policy) z0 ds) = Ok z →
  ∃ os, lowercase (p_origin p) = wire_name os ∧ zone_of os (foldl advanced (p_a p) ds) z.
Proof.
  intros Hp Hds Hu (z0 & E0 & E)%bind_Ok. destruct (from_image_zone p z0 Hp (Hu 0%nat) E0) as (os & Ho & Hz). exists os. split; [done|].
  by eapply applies_zone.
Qed.
End zones.
