(* ===== verification/EngineLookup.v ===== *)
(** * Finding names in the engine

    engine/src/authoritative/lookup.rs and set.rs: the zone with the longest origin above a name, and
    the walk of RFC 1034 4.3.2 inside it, with delegations, wildcards and DNAME. *)

From S2P Require Import Prelude.
From S2P Require Import GoText.
From S2P Require Import NzfNames.
From S2P Require Import NzfFormat.
From S2P Require Import EngineName.
From S2P Require Import EngineNzf.
From S2P Require Import EngineZone.
From S2P Require Import EngineContent.
From S2P Require Import EngineFinal.
From S2P Require Import EngineFlags.

Inductive Lookup : Type :=
| LExact (n : Node)
| LWildcard (closest_encloser wildcard : Node)
| LNxDomain (closest_encloser : Node)
| LDelegation (n : Node)
| LDname (n : Node).

Section lookup.
Context {Policy : Type}.
Implicit Types z : EZone Policy.

(** The loop over the depths still to visit; [at] is the name at a depth. *)
Fixpoint lookup_loop z (qtype : Z) (total : nat) (at_depth : nat → bytes) (encloser : Node) (depths : list nat) : Lookup :=
  match depths with
  | [] => LExact encloser
  | depth :: depths =>
      match node_by_key z (canon_key_buf (at_depth depth)) with
      | None =>
          let key := canon_key_buf (nd_owner encloser) in
          match (if negb (Z.land (nd_flags encloser) NODE_WILDCARD_CHILD =? 0) && (len key + 2 <=? KEY_BUF)
                 then node_by_key z (key ++ star) else None) with
          | Some w => LWildcard encloser w
          | None => LNxDomain encloser
          end
      | Some node =>
          let is_qname := (depth =? total)%nat in
          if is_cut node && negb (is_qname && (qtype =? T_DS)) then LDelegation node
          else if negb is_qname && bool_decide (node_get node T_DNAME ≠ None) then LDname node
          else lookup_loop z qtype total at_depth node depths
      end
  end.
(** The apex is read by an index that panics when there is none: [None]. *)
Definition lookup z (qname : bytes) (qtype : Z) : option Lookup :=
  apex ← node_by_key z (ez_apex_key z);
  let offs := label_offsets qname in
  let total := length offs in
  let at_depth d := drop (Z.to_nat (default 0 (offs !! (total - d)%nat))) qname in
  Some (lookup_loop z qtype total at_depth apex (seq (S (ez_origin_labels z)) (total - ez_origin_labels z))).

(** ** The walk on names *)
Abbreviation node_at os z p := (ez_nodes z !! key_of (p ++ os)).
(** The names strictly between [p] and the origin exist and none of them ends the walk. *)
Definition clear (os : list bytes) z (p : list bytes) : Prop :=
  ∀ a b, p = a ++ b → a ≠ [] → b ≠ [] → ∃ n, node_at os z b = Some n ∧ is_cut n = false ∧ node_get n T_DNAME = None.
Definition looked_up (os : list bytes) z (p : list bytes) (qtype : Z) (r : Lookup) : Prop :=
  match r with
  | LExact n => clear os z p ∧ node_at os z p = Some n ∧ (is_cut n = true → qtype = T_DS)
  | LDelegation n => ∃ a b, p = a ++ b ∧ b ≠ [] ∧ clear os z b ∧ node_at os z b = Some n ∧ is_cut n = true ∧ ¬ (a = [] ∧ qtype = T_DS)
  | LDname n => ∃ a b, p = a ++ b ∧ a ≠ [] ∧ b ≠ [] ∧ clear os z b ∧ node_at os z b = Some n ∧ is_cut n = false ∧ node_get n T_DNAME ≠ None
  | LNxDomain ce => ∃ a l b, p = a ++ l :: b ∧ clear os z (l :: b) ∧ node_at os z (l :: b) = None ∧ node_at os z b = Some ce ∧
      node_at os z ([42] :: b) = None
  | LWildcard ce w => ∃ a l b, p = a ++ l :: b ∧ clear os z (l :: b) ∧ node_at os z (l :: b) = None ∧ node_at os z b = Some ce ∧
      node_at os z ([42] :: b) = Some w
  end.

Lemma clear_cons os z l p : clear os z (l :: p) ↔
  clear os z p ∧ (p ≠ [] → ∃ n, node_at os z p = Some n ∧ is_cut n = false ∧ node_get n T_DNAME = None).
Proof.
  split.
  - intros H. split; [|by intros Hp; apply (H [l] p)]. intros a b -> Ha Hb. by apply (H (l :: a) b).
  - intros [H1 H2] a b E Ha Hb. destruct a as [|x a]; [done|]. injection E as -> ->. destruct a as [|y a]; [by apply H2|]. by apply (H1 (y :: a) b).
Qed.

Context (os : list bytes) (z : EZone Policy) (Hz : zone_shape os z).
Lemma shape_origin : origin_ok os.
Proof. by destruct Hz as [(? & _) _ _ _ _]. Qed.
(** The key of a node's owner, in the buffer, and the test for its wildcard child. *)
Lemma node_at_owner b n : node_at os z b = Some n →
  canon_key_buf (nd_owner n) = key_of (b ++ os) ∧ len (key_of (b ++ os)) + 2 ≤ KEY_BUF ∧
  ∃ p, named os p (nd_owner n) ∧ key_of (p ++ os) = key_of (b ++ os) ∧ Forall (Forall is_byte) (p ++ os).
Proof.
  intros E. destruct Hz as [(Hos & _) Hok Hin _ _]. destruct (Hin _ _ E) as [p Hp]. destruct (named_key _ _ _ Hos Hp) as [Ek Hb].
  destruct (Hok _ _ E) as [Eo _]. split_and!; [| |exists p; split_and!; [done|congruence|done]].
  - rewrite <- Eo. destruct Hp as (q & -> & [Hv1 Hv2] & _). by apply canon_key_buf_exact.
  - rewrite <- Eo. destruct Hp as (q & -> & [Hv1 Hv2] & _). by apply canon_key_len.
Qed.
Lemma wildcard_child b n : node_at os z b = Some n →
  (if negb (Z.land (nd_flags n) NODE_WILDCARD_CHILD =? 0) && (len (canon_key_buf (nd_owner n)) + 2 <=? KEY_BUF)
   then node_by_key z (canon_key_buf (nd_owner n) ++ star) else None) = node_at os z ([42] :: b).
Proof.
  intros E. destruct (node_at_owner b n E) as (-> & Hl & p & Hp & Ek & _). rewrite (proj2 (Z.leb_le _ _) Hl), andb_true_r.
  destruct Hz as [_ _ _ _ Hf]. destruct (Hf _ _ p E Hp) as (_ & Hw & _). rewrite star_key, Ek in Hw. rewrite <- app_comm_cons, star_key.
  destruct (Z.eqb_spec (Z.land (nd_flags n) NODE_WILDCARD_CHILD) 0) as [E0|E0]; simpl; [|done].
  destruct (ez_nodes z !! (key_of (b ++ os) ++ star)) eqn:Es; [|done]. exfalso. by apply Hw.
Qed.
(** The name at a depth below the origin. *)
Lemma at_depth_key a b qname : named os (a ++ b) qname → let offs := label_offsets qname in let total := length offs in
  total = (length (a ++ b) + length os)%nat ∧
  (b ≠ [] → canon_key_buf (drop (Z.to_nat (default 0 (offs !! (total - (length os + length b))%nat))) qname) = key_of (b ++ os)).
Proof.
  intros Hn offs total. pose proof (named_drop os a b qname Hn) as Hd. destruct (named_key os b _ shape_origin Hd) as [Ek _].
  pose proof Hn as (q & Eq & Hv & El). pose proof (label_offsets_wire ((a ++ b) ++ q) [] (proj1 Hv)) as Ho. rewrite app_nil_r, <- Eq in Ho.
  assert (length q = length os) as Elen by (rewrite <- El; by rewrite length_map).
  assert (total = length (a ++ b) + length os)%nat as Et by (unfold total, offs; rewrite Ho, length_map, length_seq, length_app; lia). split; [done|].
  intros Hb. replace (total - (length os + length b))%nat with (length a) by (rewrite Et, length_app; lia).
  unfold offs. rewrite Ho. change (map ?f ?l) with (f <$> l). rewrite list_lookup_fmap, lookup_seq_lt.
  2:{ destruct b; [done|]. rewrite !length_app. simpl. lia. }
  cbn [fmap option_fmap option_map default]. change (@id Z ?x) with x. rewrite Nat.add_0_l. unfold offset in Hd, Ek |- *. rewrite <- app_assoc, take_app_length. rewrite take_app_length in Hd, Ek.
  rewrite <- Ek. destruct Hd as (q' & E' & [Hv1 Hv2] & _). rewrite E'. by apply canon_key_buf_exact.
Qed.

Lemma lookup_loop_ok qtype total at_depth a b n :
  let p := a ++ b in
  total = (length os + length p)%nat → (∀ a' b', p = a' ++ b' → b' ≠ [] → canon_key_buf (at_depth (length os + length b')%nat) = key_of (b' ++ os)) →
  clear os z b → node_at os z b = Some n → (a ≠ [] → b ≠ [] → is_cut n = false ∧ node_get n T_DNAME = None) → (a = [] → is_cut n = true → qtype = T_DS) →
  looked_up os z p qtype (lookup_loop z qtype total at_depth n (seq (S (length os + length b)) (length a))).
Proof.
  revert b n. induction a as [|l a IH] using rev_ind; intros b n p Et Hat Hc Hn Hgo Hend; subst p.
  - simpl. split_and!; [done..|auto].
  - rewrite length_app, Nat.add_1_r, <- app_assoc in *. cbn [length seq lookup_loop app] in *.
    replace (S (length os + length b)) with (length os + length (l :: b))%nat by (simpl; lia). rewrite (Hat a (l :: b)) by done.
    assert (a ++ [l] ≠ []) as Hne by by destruct a. assert (clear os z (l :: b)) as Hc'.
    { apply clear_cons. split; [done|]. intros Hb. exists n. split; [done|]. by apply Hgo. }
    unfold node_by_key at 1. destruct (ez_nodes z !! key_of ((l :: b) ++ os)) as [n'|] eqn:En'.
    + assert ((length os + length (l :: b) =? total)%nat = bool_decide (a = [])) as ->.
      { rewrite Et, length_app. destruct a; [by rewrite Nat.eqb_refl|]. apply Nat.eqb_neq. simpl. lia. }
      destruct (is_cut n' && negb (bool_decide (a = []) && (qtype =? T_DS))) eqn:Ecut.
      * apply andb_true_iff in Ecut as [Ec Ed]. exists a, (l :: b). split_and!; [done..|]. intros [-> ->]. done.
      * destruct (negb (bool_decide (a = [])) && bool_decide (node_get n' T_DNAME ≠ None)) eqn:Edn.
        -- apply andb_true_iff in Edn as [Ea%negb_true_iff%bool_decide_eq_false Ed%bool_decide_eq_true]. exists a, (l :: b). split_and!; try done.
           rewrite bool_decide_eq_false_2 in Ecut by done. by rewrite andb_true_r in Ecut.
        -- apply (IH (l :: b) n'); [rewrite Et, !length_app; simpl; lia|exact Hat|exact Hc'|exact En'| |].
           ++ intros Ha _. rewrite bool_decide_eq_false_2 in Ecut, Edn by done. simpl in *. rewrite andb_true_r in Ecut.
              apply bool_decide_eq_false in Edn. split; [done|]. by destruct (node_get n' T_DNAME); [destruct Edn|].
           ++ intros -> Ec. rewrite Ec in Ecut. simpl in Ecut. apply negb_false_iff in Ecut. by apply Z.eqb_eq in Ecut.
    + rewrite (wildcard_child b n Hn). destruct (node_at os z ([42] :: b)) as [w|] eqn:Ew; exists a, l, b; done.
Qed.

Lemma lookup_walks p qname qtype : named os p qname → ∃ r, lookup z qname qtype = Some r ∧ looked_up os z p qtype r.
Proof.
  intros Hp. destruct Hz as [(Hos & _ & Ek & El) _ _ (apex & s & d & Ea & _) Hf]. unfold lookup, node_by_key at 1. rewrite Ek, Ea, El.
  cbn [mbind option_bind]. eexists. split; [done|]. destruct (at_depth_key p [] qname) as [Et _]; [by rewrite app_nil_r|]. rewrite app_nil_r in Et.
  replace (length (label_offsets qname) - length os)%nat with (length p) by lia. rewrite <- (app_nil_r p) at 1.
  pose proof (lookup_loop_ok qtype (length (label_offsets qname))
    (λ d, drop (Z.to_nat (default 0 (label_offsets qname !! (length (label_offsets qname) - d)%nat))) qname) p [] apex) as H.
  simpl in H. rewrite Nat.add_0_r in H. apply H.
  - rewrite app_nil_r. lia.
  - intros a b E Hb. rewrite app_nil_r in E. subst p. by apply (at_depth_key a b qname Hp).
  - intros a b E Ha. by destruct a.
  - done.
  - done.
  - intros _ Hc. destruct (node_at_owner [] apex Ea) as (_ & _ & p' & Hp' & Ek' & Hb'). destruct (Hf _ _ p' Ea Hp') as [Hcut _].
    destruct (proj1 Hcut Hc) as [Hne _]. by destruct (proj2 (key_apex _ _ Hb') Hne).
Qed.
(** The walk finds what RFC 1034 4.3.2 says.  For every name of the zone [lookup] returns, and what it
    returns is: the topmost delegation on the way (for DS, strictly above the name), else the topmost
    DNAME strictly above the name and below the apex, else the node of the name, else the closest
    encloser with its wildcard, or without one when it has none. *)
Theorem lookup_walk p qname qtype : named os p qname → ∃ r, lookup z qname qtype = Some r ∧ looked_up os z p qtype r.
Proof. apply lookup_walks. Qed.

(** ** In terms of the records *)
Lemma node_data S k n : represents (ez_nodes z) S → ez_nodes z !! k = Some n → ∀ t d v, set_data (nd_rrsets n) t d v ↔ has_data_of S k t d v.
Proof. intros (_ & Hd & _) E t d v. rewrite <- Hd. unfold serves. rewrite E. naive_solver. Qed.
Lemma exists_above S a b : exists_in os S (a ++ b) → exists_in os S b.
Proof.
  intros (r & p1 & p2 & Hr & Hs & Hn & E). apply lower_split in E as (a' & b' & -> & _ & Eb). exists r, (p1 ++ a'), b'. by rewrite <- app_assoc.
Qed.
(** The closest encloser of a name that does not exist: the next label down is missing. *)
Definition encloses (S : list record) (p b : list bytes) : Prop := ∃ a l, p = a ++ l :: b ∧ (b = [] ∨ exists_in os S b) ∧ ¬ exists_in os S (l :: b).
End lookup.

(** What [lookup] found for the name [p], in terms of the records. *)
Definition found_in (os : list bytes) (S : list record) (p : list bytes) (r : Lookup) : Prop :=
  match r with
  | LExact n => ∀ t d v, set_data (nd_rrsets n) t d v ↔ has_data_of S (key_of (p ++ os)) t d v
  | LNxDomain _ => ¬ exists_in os S p ∧ ∃ b, encloses os S p b ∧ ¬ exists_in os S ([42] :: b)
  | LWildcard _ w => ¬ exists_in os S p ∧ ∃ b, encloses os S p b ∧ ∀ t d v, set_data (nd_rrsets w) t d v ↔ has_data_of S (key_of ([42] :: b ++ os)) t d v
  | LDelegation n => ∃ a b, p = a ++ b ∧ b ≠ [] ∧ (∃ d v, has_data_of S (key_of (b ++ os)) T_NS d v) ∧
      ∀ t d v, set_data (nd_rrsets n) t d v ↔ has_data_of S (key_of (b ++ os)) t d v
  | LDname n => ∃ a b, p = a ++ b ∧ a ≠ [] ∧ b ≠ [] ∧ (∃ d v, has_data_of S (key_of (b ++ os)) T_DNAME d v) ∧
      ∀ t d v, set_data (nd_rrsets n) t d v ↔ has_data_of S (key_of (b ++ os)) t d v
  end.

Section records.
Context {Policy : Type} (os : list bytes) (S : list record) (z : EZone Policy) (Hz : zone_of os S z).
Lemma zone_exists q : Forall (Forall is_byte) (q ++ os) → ez_nodes z !! key_of (q ++ os) ≠ None ↔ exists_in os S q.
Proof. apply Hz. Qed.
Lemma missing_encloses p a l b : Forall (Forall is_byte) (p ++ os) → p = a ++ l :: b → ez_nodes z !! key_of ((l :: b) ++ os) = None → ez_nodes z !! key_of (b ++ os) ≠ None →
  encloses os S p b ∧ ¬ exists_in os S p.
Proof.
  intros Hb -> Hn Hs. rewrite <- app_assoc in Hb. pose proof (proj2 (proj1 (Forall_app _ _ _) Hb)) as Hlb.
  assert (¬ exists_in os S (l :: b)) as Hx by (rewrite <- zone_exists by done; tauto). split.
  - exists a, l. split_and!; [done| |done]. right. apply zone_exists; [by apply Forall_cons in Hlb as [_ ?]|done].
  - intros H. by apply exists_above in H.
Qed.

Lemma lookup_found p qname qtype : named os p qname → ∃ r, lookup z qname qtype = Some r ∧ found_in os S p r.
Proof.
  intros Hp. pose proof Hz as [Hsh HS _ _]. destruct (lookup_walks os z Hsh p qname qtype Hp) as (r & E & Hr). exists r. split; [done|].
  destruct (named_key os p qname (shape_origin os z Hsh) Hp) as [_ Hb]. destruct r as [n|ce w|ce|n|n]; simpl in Hr |- *.
  - destruct Hr as (_ & En & _). by eapply node_data.
  - destruct Hr as (a & l & b & Ep & _ & Hn & Hce & Hw). destruct (missing_encloses p a l b) as [He Hx]; [done..|congruence|]. split; [done|].
    exists b. split; [done|]. by eapply node_data.
  - destruct Hr as (a & l & b & Ep & _ & Hn & Hce & Hw). destruct (missing_encloses p a l b) as [He Hx]; [done..|congruence|]. split; [done|].
    exists b. split; [done|]. rewrite <- zone_exists; [intros H; apply H; exact Hw|]. rewrite Ep, <- app_assoc in Hb. apply Forall_app in Hb as [_ [_ Hb]%Forall_cons].
    constructor; [|done]. by repeat constructor.
  - destruct Hr as (a & b & Ep & Hne & _ & En & Hc & _). exists a, b. split_and!; [done..| |by eapply node_data].
    destruct (node_at_owner os z Hsh b n En) as (_ & _ & p' & Hp' & Ek & _). destruct (zs_flags os z Hsh _ _ p' En Hp') as [Hcut _].
    destruct (proj1 Hcut Hc) as [_ (d & v & Hd)%node_get_None]. exists d, v. by eapply (node_data z S _ n).
  - destruct Hr as (a & b & Ep & Ha & Hne & _ & En & _ & (d & v & Hd)%node_get_None). exists a, b. split_and!; [done..| |by eapply node_data].
    exists d, v. by eapply (node_data z S _ n).
Qed.
(** What a query finds, in terms of the records of the zone.  A node found by name holds exactly the
    records of the zone with that owner.  A name is denied only when no record of the zone is at or below
    it, and then only when the closest name that exists has no [*] child; when it has one, the answer is
    taken from exactly the records of that child. *)
Theorem lookup_records p qname qtype : named os p qname → ∃ r, lookup z qname qtype = Some r ∧ found_in os S p r.
Proof. apply lookup_found. Qed.
End records.

(** ** The hosted zones *)
Section set.
Context {Policy : Type}.
(** By lower-case wire origin. *)
Abbreviation AuthSet := (gmap bytes (EZone Policy)).
Definition from_zones (zones : list (EZone Policy)) : res bytes AuthSet :=
  fold_res (λ map z, match map !! ez_origin z with Some dup => Err (ez_origin dup) | None => Ok (<[ez_origin z := z]> map) end) ∅ zones.
(** The loop on what is left of the name. *)
Fixpoint find_loop (fuel : nat) (set : AuthSet) (lower : bytes) : option (EZone Policy) :=
  match fuel, lower with
  | O, _ | _, [] => None
  | S fuel, l :: _ =>
      match set !! lower with
      | Some z => Some z
      | None => if l =? 0 then None else find_loop fuel set (drop (Z.to_nat (l + 1)) lower)
      end
  end.
Definition find_zone (set : AuthSet) (lower : bytes) : option (EZone Policy) := find_loop (S (length lower)) set lower.
Definition find_for_query (set : AuthSet) (lower : bytes) (qtype : Z) : option (EZone Policy) :=
  z ← find_zone set lower;
  if (qtype =? T_DS) && bool_decide (ez_origin z = lower) && (1 <? len lower)
  then match find_zone set (drop (Z.to_nat (default 0 (idx lower 0) + 1)) lower) with Some p => Some p | None => Some z end
  else Some z.

(** The zone with the longest origin. *)
Definition longest (set : AuthSet) (ls : list bytes) (z : EZone Policy) : Prop :=
  ∃ a b, ls = a ++ b ∧ set !! wire_name b = Some z ∧ ∀ a1 a2, a = a1 ++ a2 → a2 ≠ [] → set !! wire_name (a2 ++ b) = None.
Lemma longest_unique set ls z1 z2 : longest set ls z1 → longest set ls z2 → z1 = z2.
Proof.
  intros (a & b & -> & E & H) (c & d & Ed & E' & H'). destruct (app_eq_inv _ _ _ _ Ed) as [(k & -> & ->)|(k & -> & ->)].
  - destruct k as [|x k]; [by simplify_eq/=|]. rewrite (H c (x :: k)) in E'; done.
  - destruct k as [|x k]; [by simplify_eq/=|]. rewrite (H' a (x :: k)) in E; done.
Qed.
Lemma wire_name_drop l ls : drop (Z.to_nat (len l + 1)) (wire_name (l :: ls)) = wire_name ls.
Proof.
  rewrite wire_name_cons. replace (Z.to_nat (len l + 1)) with (S (length l)) by (unfold len; lia). simpl. apply drop_app_length.
Qed.
Lemma find_loop_spec fuel set ls z : Forall label_ok ls → (length ls < fuel)%nat → find_loop fuel set (wire_name ls) = Some z ↔ longest set ls z.
Proof.
  intros Hls. revert fuel. induction Hls as [|l ls [Hl1 Hl2] Hls IH]; intros [|fuel] Hf; [lia| |lia|].
  - change (wire_name []) with [0]. cbn [find_loop]. unfold longest. destruct (set !! [0]) as [z0|] eqn:E; split.
    + intros [= ->]. exists [], []. split_and!; [done..|]. by intros a1 a2 [-> ->]%eq_sym%app_nil.
    + intros (a & b & [-> ->]%eq_sym%app_nil & E' & _). change (wire_name []) with [0] in E'. congruence.
    + done.
    + intros (a & b & [-> ->]%eq_sym%app_nil & E' & _). change (wire_name []) with [0] in E'. congruence.
  - pose proof (wire_name_drop l ls) as Hd. rewrite wire_name_cons in Hd. rewrite wire_name_cons. cbn [find_loop]. rewrite Hd.
    rewrite <- wire_name_cons. rewrite (proj2 (Z.eqb_neq (len l) 0)) by lia.
    assert (∀ b', l :: ls = b' → set !! wire_name (l :: ls) = None → longest set ls z ↔ longest set b' z) as Hstep.
    { intros ? <- Hn. unfold longest. split.
      - intros (a & b & -> & E & H). exists (l :: a), b. split_and!; [done..|]. intros [|x a1] a2 Ea Hne; simpl in Ea; [by subst a2|]. injection Ea as -> ->. by apply (H a1).
      - intros ([|x a] & b & Ea & E & H); simpl in Ea; [subst b; congruence|]. injection Ea as <- ->. exists a, b. split_and!; [done..|]. intros a1 a2 -> Hne.
        by apply (H (l :: a1)). }
    destruct (set !! wire_name (l :: ls)) as [z0|] eqn:E.
    + split; [intros [= ->]; exists [], (l :: ls); split_and!; [done..|]; by intros a1 a2 [-> ->]%eq_sym%app_nil|].
      intros H. f_equal. apply (longest_unique set (l :: ls)); [|done]. exists [], (l :: ls). split_and!; [done..|]. by intros a1 a2 [-> ->]%eq_sym%app_nil.
    + rewrite <- (Hstep _ eq_refl) by done. apply IH. simpl in Hf. lia.
Qed.
Lemma wire_labels_length ls : (length ls ≤ length (wire_name ls))%nat.
Proof. induction ls as [|l ls IH]; [simpl; lia|]. rewrite wire_name_cons. simpl. rewrite length_app. lia. Qed.
Lemma find_spec set ls z : Forall label_ok ls → find_zone set (wire_name ls) = Some z ↔ longest set ls z.
Proof. intros Hls. apply find_loop_spec; [done|]. pose proof (wire_labels_length ls). lia. Qed.

(** A query goes to the hosted zone with the longest origin at or above its name.  DS at the apex of
    a hosted zone goes to the longest one strictly above it, when there is one. *)
Theorem find_for_query_longest set l ls qtype z : Forall label_ok (l :: ls) → map_Forall (λ k z, ez_origin z = k) set →
  find_for_query set (wire_name (l :: ls)) qtype = Some z ↔
  if bool_decide (qtype = T_DS ∧ is_Some (set !! wire_name (l :: ls)))
  then longest set ls z ∨ ((∀ z', ¬ longest set ls z') ∧ set !! wire_name (l :: ls) = Some z)
  else longest set (l :: ls) z.
Proof.
  intros Hls Hkey. assert (∀ z, set !! wire_name (l :: ls) = Some z → find_zone set (wire_name (l :: ls)) = Some z) as Hown.
  { intros z0 E. apply find_spec; [done|]. exists [], (l :: ls). split_and!; [done..|]. by intros a1 a2 [-> ->]%eq_sym%app_nil. }
  unfold find_for_query. replace (drop (Z.to_nat (default 0 (idx (wire_name (l :: ls)) 0) + 1)) (wire_name (l :: ls))) with (wire_name ls).
  2:{ rewrite <- (wire_name_drop l ls) at 1. by rewrite wire_name_cons. }
  assert ((1 <? len (wire_name (l :: ls))) = true) as Hlen by (apply Z.ltb_lt; apply Forall_cons in Hls as [[? ?] _]; rewrite wire_name_cons; len_lia).
  case_bool_decide as Hd.
  - destruct Hd as [-> [z0 E0]]. rewrite (Hown _ E0), E0. cbn [mbind option_bind]. rewrite (Hkey _ _ E0), Hlen, Z.eqb_refl, bool_decide_eq_true_2 by done. cbn [andb].
    apply Forall_cons in Hls as [_ Hls]. pose proof (λ z, find_spec set ls z Hls) as Hf. setoid_rewrite <- Hf. destruct (find_zone set (wire_name ls)) as [z1|] eqn:E1; naive_solver.
  - rewrite <- find_spec by done. destruct (find_zone set (wire_name (l :: ls))) as [z1|] eqn:E1; [|done]. cbn [mbind option_bind]. rewrite Hlen, andb_true_r.
    destruct ((qtype =? T_DS) && bool_decide (ez_origin z1 = wire_name (l :: ls))) eqn:E; [|done]. exfalso. apply Hd.
    apply andb_true_iff in E as [->%Z.eqb_eq Eo%bool_decide_eq_true]. split; [done|].
    apply find_spec in E1 as (a & b & _ & E1 & _); [|done]. specialize (Hkey _ _ E1). simpl in Hkey. rewrite Eo in Hkey. rewrite Hkey. eauto.
Qed.
End set.
