(* ===== verification/EngineMsg.v ===== *)
(** * Reading DNS messages in the engine

    engine/src/authoritative/msg.rs: a query's header, question, EDNS and TSIG, and the walk over the
    records of a message.  Reading never panics and never runs on: the loop over a name stops after 64
    pointers and 254 octets, which is what the fuel allows for. *)

From S2P Require Import Prelude.
From S2P Require Import GoText.
From S2P Require Import NzfNames.
From S2P Require Import EngineName.
From S2P Require Import EngineZone.

Definition HEADER_LEN : Z := 12.
Definition OPCODE_NOTIFY : Z := 4.
Definition OPCODE_UPDATE : Z := 5.
Definition MAX_POINTER_JUMPS : Z := 64.
Definition T_OPT : Z := 41.
Definition T_TSIG : Z := 250.
Definition T_IXFR : Z := 251.

Record EdnsInfo := mkEdnsInfo { ed_udp_size : Z; ed_do_bit : bool }.
Record Question := mkQuestion {
  q_id : Z; q_opcode : Z; q_flags : Z; q_qname : bytes; q_qtype : Z; q_qclass : Z; q_question_end : Z;
  q_edns : option EdnsInfo; q_ixfr_serial : option Z; q_tsig_at : option Z }.
Inductive MsgError := MsgShort | MsgHeader | MsgName | MsgCounts | MsgRr.
Abbreviation mres := (res MsgError).
(** One resource record located in a message. *)
Record RrAt := mkRrAt { ra_start : Z; ra_name_end : Z; ra_rtype : Z; ra_class : Z; ra_ttl : Z; ra_rdata_start : Z; ra_rdata_end : Z }.

Definition or_panic {E A} (o : option A) : res E A := match o with Some a => Ok a | None => Panic end.
Definition or_err {E A} (e : E) (o : option A) : res E A := match o with Some a => Ok a | None => Err e end.
Definition be16 (b : bytes) (at_ : Z) : mres Z := or_panic (get16 (drop (Z.to_nat at_) b)).
Definition be32 (b : bytes) (at_ : Z) : mres Z := or_panic (get32 (drop (Z.to_nat at_) b)).

Fixpoint uncompressed_loop (fuel : nat) (msg : bytes) (at_ i : Z) : mres Z :=
  match fuel with
  | O => Fuel
  | S fuel =>
      l ← or_err MsgName (idx msg i);
      if 0x40 <=? l then Err MsgName
      else if 255 <? i + 1 + l - at_ then Err MsgName
      else if l =? 0 then Ok (i + 1)
      else uncompressed_loop fuel msg at_ (i + (l + 1))
  end.
Definition uncompressed_name_end (msg : bytes) (at_ : Z) : mres Z := uncompressed_loop 256 msg at_ at_.

Fixpoint name_end_loop (fuel : nat) (msg : bytes) (i : Z) (end_ : option Z) (jumps total : Z) : mres Z :=
  match fuel with
  | O => Fuel
  | S fuel =>
      l ← or_err MsgRr (idx msg i);
      if l =? 0 then Ok (default (i + 1) end_)
      else if 0xc0 <=? l then
        lo ← or_err MsgRr (idx msg (i + 1));
        let target := Z.lor (Z.shiftl (Z.land l 0x3f) 8) lo in
        let jumps := jumps + 1 in
        if (i <=? target) || (MAX_POINTER_JUMPS <? jumps) then Err MsgRr
        else name_end_loop fuel msg target (Some (default (i + 2) end_)) jumps total
      else if 0x40 <=? l then Err MsgRr
      else
        let total := total + (l + 1) in
        if 254 <? total then Err MsgRr else name_end_loop fuel msg (i + (l + 1)) end_ jumps total
  end.
Definition name_end (msg : bytes) (at_ : Z) : mres Z := name_end_loop 320 msg at_ None 0 0.

Fixpoint walk_loop (count : nat) (msg : bytes) (pos : Z) : mres (list RrAt * Z) :=
  match count with
  | O => Ok ([], pos)
  | S count =>
      ne ← name_end msg pos;
      if len msg <? ne + 10 then Err MsgShort
      else
        rdlen ← be16 msg (ne + 8);
        if len msg <? ne + 10 + rdlen then Err MsgShort
        else
          rtype ← be16 msg ne;
          class ← be16 msg (ne + 2);
          ttl ← be32 msg (ne + 4);
          '(out, pos') ← walk_loop count msg (ne + 10 + rdlen);
          Ok (mkRrAt pos ne rtype class ttl (ne + 10) (ne + 10 + rdlen) :: out, pos')
  end.
Definition walk_rrs (msg : bytes) (from count : Z) : mres (list RrAt * Z) :=
  if Z.max 0 (len msg - from) / 11 <? count then Err MsgShort else walk_loop (Z.to_nat count) msg from.

(** The additional section: OPT once, at the root; TSIG last; other records only in an UPDATE. *)
Fixpoint additional_loop (msg : bytes) (opcode : Z) (edns : option EdnsInfo) (tsig_at : option Z) (l : list RrAt) : mres (option EdnsInfo * option Z) :=
  match l with
  | [] => Ok (edns, tsig_at)
  | rr :: l =>
      if ra_rtype rr =? T_OPT then
        b ← or_panic (idx msg (ra_start rr));
        if bool_decide (edns ≠ None) || negb (ra_name_end rr - ra_start rr =? 1) || negb (b =? 0) then Err MsgRr
        else additional_loop msg opcode (Some (mkEdnsInfo (ra_class rr) (negb (Z.land (ra_ttl rr) 0x8000 =? 0)))) tsig_at l
      else if ra_rtype rr =? T_TSIG then
        match l with [] => additional_loop msg opcode edns (Some (ra_start rr)) l | _ :: _ => Err MsgRr end
      else if opcode =? OPCODE_UPDATE then additional_loop msg opcode edns tsig_at l
      else Err MsgCounts
  end.

(** [Question::parse] on what follows the header. *)
Definition ixfr_serial_of (msg : bytes) (ixfr : bool) (auth : list RrAt) : mres (option Z) :=
  if ixfr then
    match auth with
    | [] => Err MsgCounts
    | soa :: _ =>
        if negb (ra_rtype soa =? T_SOA) || (ra_rdata_end soa - ra_rdata_start soa <? 22) then Err MsgRr
        else s ← be32 msg (ra_rdata_end soa - 20); Ok (Some s)
    end
  else Ok None.
Definition question_parse (msg : bytes) : mres Question :=
  if len msg <? HEADER_LEN then Err MsgShort
  else
    flags ← be16 msg 2;
    if negb (Z.land flags 0x8000 =? 0) then Err MsgHeader
    else
      let opcode := Z.land (Z.shiftr flags 11) 0x0f in
      qd ← be16 msg 4; an ← be16 msg 6; ns ← be16 msg 8; ar ← be16 msg 10;
      if negb (qd =? 1) then Err MsgCounts
      else
        name_end ← uncompressed_name_end msg HEADER_LEN;
        let question_end := name_end + 4 in
        if len msg <? question_end then Err MsgShort
        else
          qtype ← be16 msg name_end;
          if negb (an =? 0) && negb (opcode =? OPCODE_NOTIFY) && negb (opcode =? OPCODE_UPDATE) then Err MsgCounts
          else
            let ixfr := (opcode =? 0) && (qtype =? T_IXFR) in
            if negb (ns =? 0) && negb (opcode =? OPCODE_UPDATE) && negb (ixfr && (ns =? 1)) then Err MsgCounts
            else
              '(_, after_an) ← walk_rrs msg question_end an;
              '(auth, after_ns) ← walk_rrs msg after_an ns;
              ixfr_serial ← ixfr_serial_of msg ixfr auth;
              '(additional, end_) ← walk_rrs msg after_ns ar;
              if negb (end_ =? len msg) then Err MsgRr
              else
                '(edns, tsig_at) ← additional_loop msg opcode None None additional;
                id ← be16 msg 0;
                qclass ← be16 msg (name_end + 2);
                Ok (mkQuestion id opcode flags (slice msg HEADER_LEN name_end) qtype qclass question_end edns ixfr_serial tsig_at).

(** ** Safety *)
Lemma idx_byte (b : bytes) i x : Forall is_byte b → idx b i = Some x → is_byte x ∧ 0 ≤ i < len b.
Proof.
  intros Hb E. pose proof (idx_Some_split _ _ _ E) as (p & q & -> & <-). apply Forall_app in Hb as [_ [Hx _]%Forall_cons]. split; [done|len_lia].
Qed.
Lemma get16_long b : 2 ≤ len b → is_Some (get16 b).
Proof. destruct b as [|b0 [|b1 b]]; [len_lia..|]. by eexists. Qed.
Lemma get32_long b : 4 ≤ len b → is_Some (get32 b).
Proof. destruct b as [|b0 [|b1 [|b2 [|b3 b]]]]; [len_lia..|]. by eexists. Qed.
Lemma len_drop {A} (l : list A) n : 0 ≤ n ≤ len l → len (drop (Z.to_nat n) l) = len l - n.
Proof. intros H. unfold len in *. rewrite length_drop. lia. Qed.
Lemma be16_post msg i : Forall is_byte msg → 0 ≤ i → i + 2 ≤ len msg → post (be16 msg i) is_u16.
Proof.
  intros Hb Hi Hl. unfold be16. destruct (get16_long (drop (Z.to_nat i) msg)) as [v E]; [rewrite len_drop; lia|]. rewrite E. simpl.
  eapply get16_bound; [|done]. by apply Forall_drop.
Qed.
Lemma be32_post msg i : Forall is_byte msg → 0 ≤ i → i + 4 ≤ len msg → post (be32 msg i) is_u32.
Proof.
  intros Hb Hi Hl. unfold be32. destruct (get32_long (drop (Z.to_nat i) msg)) as [v E]; [rewrite len_drop; lia|]. rewrite E. simpl.
  eapply get32_bound; [|done]. by apply Forall_drop.
Qed.

Section read.
Context (msg : bytes) (Hb : Forall is_byte msg).
(** A name at [i] that ends at [e], without pointers. *)
Definition name_at (i e : Z) : Prop := ∃ p ls q, msg = p ++ wire_name ls ++ q ∧ i = len p ∧ Forall label_ok ls ∧ e = i + len (wire_name ls).
Lemma uncompressed_post fuel at_ i : 0 ≤ at_ ≤ i → i - at_ ≤ 255 → 255 - (i - at_) < Z.of_nat fuel →
  post (uncompressed_loop fuel msg at_ i) (λ e, name_at i e ∧ e - at_ ≤ 255).
Proof.
  revert i. induction fuel as [|fuel IH]; intros i Hi Hm Hf; [lia|]. cbn [uncompressed_loop].
  destruct (idx msg i) as [l|] eqn:E; [|done]. cbn [or_err mbind res_bind]. destruct (idx_byte _ _ _ Hb E) as [Hl Hil]. unfold is_byte in Hl.
  apply post_guard. intros H1%Z.leb_gt. apply post_guard. intros H2%Z.ltb_ge.
  destruct (Z.eqb_spec l 0) as [->|Hl0].
  - apply idx_Some_split in E as (p & q & -> & <-). simpl. split; [|lia]. exists p, [], q. split_and!; [done..|]. by change (wire_name []) with [0].
  - eapply post_mono; [apply IH; lia|]. intros e [(p & ls & q & Em & Ei & Hls & ->) He]. split; [|done].
    apply idx_Some_split in E as (p0 & q0 & Em0 & Ei0).
    assert (∃ l0, p = p0 ++ l :: l0 ∧ len l0 = l) as (l0 & -> & El).
    { rewrite Em0 in Em. assert (p = take (length p) (p0 ++ l :: q0)) as Ep by (rewrite Em; by rewrite take_app_length).
      replace (length p) with (length p0 + S (Z.to_nat l))%nat in Ep by (unfold len in *; lia). rewrite take_app_add in Ep. simpl in Ep.
      exists (take (Z.to_nat l) q0). split; [done|]. apply (f_equal len) in Ep. rewrite len_app in Ep. len_lia. }
    exists p0, (l0 :: ls), q. rewrite wire_name_cons, Em. split_and!; [by simplify_list_eq|lia|constructor; [unfold label_ok; lia|done]|len_lia].
Qed.
Lemma uncompressed_name_end_post at_ : 0 ≤ at_ → post (uncompressed_name_end msg at_) (λ e, name_at at_ e ∧ e - at_ ≤ 255).
Proof. intros. apply uncompressed_post; lia. Qed.

Lemma name_end_loop_post fuel i end_ jumps total at_ : 0 ≤ at_ → 0 ≤ i → jumps ≤ 64 → total ≤ 254 → (64 - jumps) + (254 - total) < Z.of_nat fuel →
  (match end_ with Some e => at_ < e | None => at_ ≤ i end) → post (name_end_loop fuel msg i end_ jumps total) (λ e, at_ < e).
Proof.
  intros Ha. revert i end_ jumps total. induction fuel as [|fuel IH]; intros i end_ jumps total Hi Hj Ht Hf He; [lia|]. cbn [name_end_loop].
  destruct (idx msg i) as [l|] eqn:E; [|done]. cbn [or_err mbind res_bind]. destruct (idx_byte _ _ _ Hb E) as [Hl _]. unfold is_byte in Hl.
  destruct (Z.eqb_spec l 0); [destruct end_; simpl; lia|]. destruct (0xc0 <=? l).
  - destruct (idx msg (i + 1)) as [lo|] eqn:Elo; [|done]. cbn [or_err mbind res_bind]. destruct (idx_byte _ _ _ Hb Elo) as [Hlo _]. unfold is_byte in Hlo.
    cbv zeta. apply post_guard. intros [H1%Z.leb_gt H2%Z.ltb_ge]%orb_false_iff. unfold MAX_POINTER_JUMPS in H2. apply IH; [|lia..|destruct end_; simpl; lia].
    apply Z.lor_nonneg. split; [|lia]. apply Z.shiftl_nonneg, Z.land_nonneg. lia.
  - apply post_guard. intros H1%Z.leb_gt. cbv zeta. apply post_guard. intros H2%Z.ltb_ge. apply IH; [lia..|destruct end_; lia].
Qed.
Lemma name_end_post at_ : 0 ≤ at_ → post (name_end msg at_) (λ e, at_ < e).
Proof. intros. apply name_end_loop_post; lia. Qed.
Lemma name_end_loop_start fuel i end_ jumps total e : name_end_loop fuel msg i end_ jumps total = Ok e → is_Some (idx msg i).
Proof. destruct fuel; [done|]. cbn [name_end_loop]. destruct (idx msg i); [eauto|done]. Qed.
Lemma name_end_start at_ e : name_end msg at_ = Ok e → is_Some (idx msg at_).
Proof. apply name_end_loop_start. Qed.

Record rr_in (r : RrAt) : Prop := {
  ri_place : 0 ≤ ra_start r < ra_name_end r ∧ ra_rdata_start r = ra_name_end r + 10 ∧ ra_rdata_start r ≤ ra_rdata_end r ≤ len msg;
  ri_first : is_Some (idx msg (ra_start r));
  ri_fields : is_u16 (ra_rtype r) ∧ is_u16 (ra_class r) ∧ is_u32 (ra_ttl r) }.
Lemma walk_loop_post n pos : 0 ≤ pos ≤ len msg → post (walk_loop n msg pos) (λ r, Forall rr_in r.1 ∧ length r.1 = n ∧ pos ≤ r.2 ≤ len msg).
Proof.
  revert pos. induction n as [|n IH]; intros pos Hp; cbn [walk_loop]; [simpl; split_and!; [constructor|done|lia..]|].
  destruct (name_end msg pos) as [ne|e| |] eqn:En; [|done|..]; pose proof (name_end_post pos) as Hn; rewrite En in Hn; simpl in Hn; [|naive_solver lia..].
  specialize (Hn ltac:(lia)). cbn [mbind res_bind]. apply post_guard. intros H1%Z.ltb_ge.
  eapply post_bind; [apply be16_post; [done|lia..]|]. intros rdlen Hr. unfold is_u16 in Hr. apply post_guard. intros H2%Z.ltb_ge.
  eapply post_bind; [apply be16_post; [done|lia..]|]. intros ty Hty. eapply post_bind; [apply be16_post; [done|lia..]|]. intros cl Hcl.
  eapply post_bind; [apply be32_post; [done|lia..]|]. intros ttl Httl. eapply post_bind; [apply IH; lia|]. intros [out pos'] (Ho & Hlen & Hpos). simpl in *.
  split_and!; [|by f_equal|lia..]. constructor; [|done]. split; simpl; [lia|by eapply name_end_start|done].
Qed.
Lemma walk_rrs_post from count : 0 ≤ from ≤ len msg → 0 ≤ count → post (walk_rrs msg from count) (λ r, Forall rr_in r.1 ∧ len r.1 = count ∧ from ≤ r.2 ≤ len msg).
Proof.
  intros Hf Hc. unfold walk_rrs. apply post_guard. intros _. eapply post_mono; [by apply walk_loop_post|]. intros r (? & Hl & ?). split_and!; [done|unfold len; lia|lia..].
Qed.
Lemma additional_post opcode edns tsig l : Forall rr_in l → post (additional_loop msg opcode edns tsig l) (λ r, ∀ t, r.2 = Some t → tsig = Some t ∨ 0 ≤ t < len msg).
Proof.
  intros Hl. revert edns tsig. induction Hl as [|rr l Hr Hl IH]; intros edns tsig; cbn [additional_loop]; [simpl; auto|].
  destruct Hr as [Hpl [b Hb0] _]. destruct (ra_rtype rr =? T_OPT).
  - rewrite Hb0. cbn [or_panic mbind res_bind]. apply post_guard. intros _. apply IH.
  - destruct (ra_rtype rr =? T_TSIG); [destruct l as [|? ?]; [|done]|destruct (opcode =? OPCODE_UPDATE); [apply IH|done]].
    eapply post_mono; [apply IH|]. intros r H t [[= <-]|?]%H; [|auto]. right. apply idx_byte in Hb0 as [_ ?]; [lia|done].
Qed.
End read.

Record question_ok (msg : bytes) (q : Question) : Prop := {
  qk_name : ∃ ls, name_ok ls ∧ Forall (Forall is_byte) ls ∧ q_qname q = wire_name ls ∧ q_qname q = slice msg HEADER_LEN (HEADER_LEN + len (q_qname q));
  qk_end : q_question_end q = HEADER_LEN + len (q_qname q) + 4 ∧ q_question_end q ≤ len msg;
  qk_fields : is_u16 (q_id q) ∧ 0 ≤ q_flags q < 0x8000 ∧ is_u16 (q_qtype q) ∧ is_u16 (q_qclass q) ∧ 0 ≤ q_opcode q < 16;
  qk_ixfr : (is_Some (q_ixfr_serial q) ↔ q_opcode q = 0 ∧ q_qtype q = T_IXFR) ∧ ∀ s, q_ixfr_serial q = Some s → is_u32 s;
  qk_tsig : ∀ t, q_tsig_at q = Some t → 0 ≤ t < len msg }.

Lemma ixfr_serial_post msg ixfr auth : Forall is_byte msg → Forall (rr_in msg) auth →
  post (ixfr_serial_of msg ixfr auth) (λ o, (is_Some o ↔ ixfr = true) ∧ ∀ s, o = Some s → is_u32 s).
Proof.
  intros Hb Ha. unfold ixfr_serial_of. destruct ixfr; [|simpl; split; [split; [by intros [? ?]|done]|done]].
  destruct Ha as [|soa auth [(? & ? & ?) _ _] _]; [done|]. apply post_guard. intros [_ Hlt%Z.ltb_ge]%orb_false_iff.
  eapply post_bind; [apply be32_post; [done|lia..]|]. intros s Hs. simpl. split; [split; [done|eauto]|]. by intros ? [= <-].
Qed.
Lemma name_at_slice msg i e : Forall is_byte msg → name_at msg i e → ∃ ls, Forall label_ok ls ∧ Forall (Forall is_byte) ls ∧ slice msg i e = wire_name ls ∧ e = i + len (wire_name ls) ∧ e ≤ len msg.
Proof.
  intros Hb (p & ls & q & -> & -> & Hls & ->). exists ls. split_and!; [done| |apply slice_app_mid|done|len_lia].
  apply Forall_app in Hb as [_ [Hb _]%Forall_app]. by apply wire_name_bytes.
Qed.
Lemma flags_request f : is_u16 f → Z.land f 0x8000 = 0 → 0 ≤ f < 0x8000.
Proof.
  intros Hf E. split; [unfold is_u16 in Hf; lia|]. destruct (Z.lt_ge_cases f 0x8000) as [|Hge]; [done|exfalso].
  assert (Z.testbit f 15 = true) as Ht.
  { rewrite Z.testbit_true by lia. unfold is_u16 in Hf. replace (f / 2 ^ 15) with 1; [done|]. change (2 ^ 15) with 0x8000.
    apply (Z.div_unique f 0x8000 1 (f - 0x8000)); lia. }
  apply (f_equal (λ x, Z.testbit x 15)) in E. rewrite Z.land_spec, Ht in E. done.
Qed.

Lemma question_parse_post msg : Forall is_byte msg → post (question_parse msg) (question_ok msg).
Proof.
  intros Hb. unfold question_parse, HEADER_LEN in *. apply post_guard. intros H12%Z.ltb_ge.
  eapply post_bind; [apply be16_post; [done|lia..]|]. intros flags Hf. apply post_guard. intros Hr%negb_false_iff%Z.eqb_eq. cbv zeta.
  do 4 (eapply post_bind; [apply be16_post; [done|lia..]|]; intros ? ?). apply post_guard. intros _.
  eapply post_bind; [apply uncompressed_name_end_post; [done|lia]|]. intros ne [Hne Hn255].
  destruct (name_at_slice _ _ _ Hb Hne) as (ls & Hls & Hlb & Esl & Een & Hel). apply post_guard. intros Hq%Z.ltb_ge.
  pose proof (len_wire_name ls) as Hlw. assert (0 ≤ ne) as Hne0 by len_lia.
  eapply post_bind; [apply be16_post; [done|lia..]|]. intros qtype Hqt. apply post_guard. intros _. apply post_guard. intros _.
  unfold is_u16 in *.
  eapply post_bind; [apply walk_rrs_post; [done|lia..]|]. intros [an_rrs after_an] (_ & _ & Ha). simpl in Ha.
  eapply post_bind; [apply walk_rrs_post; [done|lia..]|]. intros [auth after_ns] (Hau & _ & Hns). simpl in Hau, Hns.
  eapply post_bind; [by apply ixfr_serial_post|]. intros serial [Hs1 Hs2].
  eapply post_bind; [apply walk_rrs_post; [done|lia..]|]. intros [add end_] (Had & _ & _). simpl in Had. apply post_guard. intros _.
  eapply post_bind; [by apply additional_post|]. intros [edns tsig] Ht. simpl in Ht.
  eapply post_bind; [apply be16_post; [done|lia..]|]. intros id Hid. eapply post_bind; [apply be16_post; [done|lia..]|]. intros qclass Hqc. unfold is_u16 in *.
  simpl. split; simpl; unfold HEADER_LEN in *.
  - exists ls. split_and!; [split; [done|lia]|done|done|]. rewrite Esl, <- Een. done.
  - rewrite Esl. lia.
  - split_and!; try (unfold is_u16; lia); try (by apply flags_request).
    + apply Z.land_nonneg. lia.
    + change 15 with (Z.ones 4). rewrite Z.land_ones by lia. by apply Z.mod_pos_bound.
  - split; [|done]. rewrite Hs1, andb_true_iff, !Z.eqb_eq. done.
  - intros t Et. by destruct (Ht t Et).
Qed.

(** Reading a query is safe.  For every octet string [parse] returns a question or an error, never a
    panic and never a loop that runs on; and the question it returns is what the octets say: a valid name
    read in place, fields of their width, no response, the IXFR serial exactly for IXFR, and a TSIG
    position inside the message. *)
Theorem question_parse_safe msg : Forall is_byte msg → returns (question_parse msg) ∧ ∀ q, question_parse msg = Ok q → question_ok msg q.
Proof. intros Hb%question_parse_post. split; [by eapply post_returns|]. intros q E. by eapply post_Ok. Qed.
