(* ===== verification/EngineWriter.v ===== *)
(** * Writing responses in the engine

    engine/src/authoritative/writer.rs: header, question and records, with owner names compressed
    against the question name.  The writer is its message so far; a record that does not fit leaves
    it as it was.  Reading back what was written gives the records that went in. *)

From S2P Require Import Prelude.
From S2P Require Import GoText.
From S2P Require Import NzfNames.
From S2P Require Import NzfFormat.
From S2P Require Import NzfTheorems.
From S2P Require Import EngineName.
From S2P Require Import EngineZone.
From S2P Require Import EngineFlags.
From S2P Require Import EngineMsg.

Definition FLAG_QR : Z := 0x80.
Definition FLAG_AA : Z := 0x04.
Definition FLAG_TC : Z := 0x02.
Definition FLAG_RD : Z := 0x01.
Definition FLAG_RA : Z := 0x80.
Definition FLAG_CD : Z := 0x10.

Inductive RSection := SAnswer | SAuthority | SAdditional.
#[export] Instance RSection_eq_dec : EqDecision RSection.
Proof. solve_decision. Defined.
Record Writer := mkWriter {
  w_limit : Z; w_msg : bytes; w_question_end : Z; w_answer : Z; w_authority : Z; w_additional : Z; w_tc : bool; w_qname : bytes }.
Definition w_count (w : Writer) (s : RSection) : Z := match s with SAnswer => w_answer w | SAuthority => w_authority w | SAdditional => w_additional w end.

(** The header as the question leaves it, then the question itself. *)
Definition question_bytes (q : Question) : bytes :=
  put16 (q_id q) ++ [Z.lor FLAG_QR (Z.land (u8 (Z.shiftr (q_flags q) 8)) (Z.lor 0x78 FLAG_RD)); Z.land (u8 (q_flags q)) FLAG_CD] ++
  put16 1 ++ [0; 0; 0; 0; 0; 0] ++ q_qname q ++ put16 (q_qtype q) ++ put16 (q_qclass q).
Definition writer_new (out_len limit : Z) (q : Question) : option Writer :=
  let limit := Z.min limit out_len in
  let question_end := HEADER_LEN + len (q_qname q) + 4 in
  if limit <? question_end then None
  else Some (mkWriter limit (question_bytes q) question_end 0 0 0 false (q_qname q)).

Definition w_put (w : Writer) (b : bytes) : option Writer :=
  if w_limit w <? len (w_msg w) + len b then None
  else Some (mkWriter (w_limit w) (w_msg w ++ b) (w_question_end w) (w_answer w) (w_authority w) (w_additional w) (w_tc w) (w_qname w)).
(** The first suffix of a name that is a suffix of the question name: its offset in both. *)
Fixpoint shared_suffix (qname name : bytes) (offs : list Z) : option (Z * Z) :=
  match offs with
  | [] => None
  | off :: offs =>
      let suffix := drop (Z.to_nat off) name in
      let at_ := len qname - len suffix in
      if (0 <=? at_) && eq_ignore_ascii_case (drop (Z.to_nat at_) qname) suffix && existsb (λ s, s =? at_) (label_offsets qname)
      then Some (off, at_) else shared_suffix qname name offs
  end.
Definition put_name (w : Writer) (name : bytes) : option Writer :=
  match shared_suffix (w_qname w) name (label_offsets name) with
  | Some (off, at_) => w ← w_put w (take (Z.to_nat off) name); w_put w (put16 (Z.lor 0xC000 (u16 (HEADER_LEN + at_))))
  | None => w_put w name
  end.
Definition w_rr (w : Writer) (section : RSection) (owner : bytes) (rtype ttl : Z) (rdata : bytes) : option Writer :=
  w ← put_name w owner;
  if 65535 <? len rdata then None
  else
    w ← w_put w (put16 rtype ++ put16 1 ++ put32 ttl ++ put16 (len rdata));
    w ← w_put w rdata;
    let c s := u16 (w_count w s + (if bool_decide (s = section) then 1 else 0)) in
    Some (mkWriter (w_limit w) (w_msg w) (w_question_end w) (c SAnswer) (c SAuthority) (c SAdditional) (w_tc w) (w_qname w)).
Definition w_reset (w : Writer) : Writer :=
  mkWriter (w_limit w) (take (Z.to_nat (w_question_end w)) (w_msg w)) (w_question_end w) 0 0 0 (w_tc w) (w_qname w).
Definition w_truncate (w : Writer) : Writer :=
  mkWriter (w_limit w) (take (Z.to_nat (w_question_end w)) (w_msg w)) (w_question_end w) 0 0 0 true (w_qname w).
(** The message: flags and counts patched into the header. *)
Definition w_finish (w : Writer) (rcode : Z) (aa ra : bool) : bytes :=
  let b2 := default 0 (idx (w_msg w) 2) in
  let b3 := default 0 (idx (w_msg w) 3) in
  take 2 (w_msg w) ++
  [Z.lor (Z.lor b2 (if aa then FLAG_AA else 0)) (if w_tc w then FLAG_TC else 0);
   Z.lor (Z.lor b3 (if ra then FLAG_RA else 0)) (Z.land rcode 0x0f)] ++
  slice (w_msg w) 4 6 ++ put16 (w_answer w) ++ put16 (w_authority w) ++ put16 (w_additional w) ++ drop 12 (w_msg w).

(** ** What is written *)
Record WRR := mkWRR { wr_section : RSection; wr_owner : bytes; wr_rtype : Z; wr_ttl : Z; wr_rdata : bytes }.
Definition name_bytes (qname name : bytes) : bytes :=
  match shared_suffix qname name (label_offsets name) with
  | Some (off, at_) => take (Z.to_nat off) name ++ put16 (Z.lor 0xC000 (u16 (HEADER_LEN + at_)))
  | None => name
  end.
Definition rr_bytes (qname : bytes) (r : WRR) : bytes :=
  name_bytes qname (wr_owner r) ++ put16 (wr_rtype r) ++ put16 1 ++ put32 (wr_ttl r) ++ put16 (len (wr_rdata r)) ++ wr_rdata r.
Definition in_section (s : RSection) (rrs : list WRR) : list WRR := filter (λ r, wr_section r = s) rrs.
Record wrote (q : Question) (rrs : list WRR) (w : Writer) : Prop := {
  wt_msg : w_msg w = question_bytes q ++ concat (map (rr_bytes (q_qname q)) rrs);
  wt_count : ∀ s, w_count w s = u16 (len (in_section s rrs));
  wt_end : w_question_end w = HEADER_LEN + len (q_qname q) + 4;
  wt_limit : len (w_msg w) ≤ w_limit w;
  wt_qname : w_qname w = q_qname q;
  wt_rdata : Forall (λ r, len (wr_rdata r) ≤ 65535) rrs }.

Lemma len_question_bytes q : len (question_bytes q) = HEADER_LEN + len (q_qname q) + 4.
Proof. unfold question_bytes, HEADER_LEN, put16. len_lia. Qed.
Lemma writer_new_wrote out_len limit q w : writer_new out_len limit q = Some w → wrote q [] w.
Proof.
  unfold writer_new. destruct (Z.ltb_spec (Z.min limit out_len) (HEADER_LEN + len (q_qname q) + 4)); [done|]. intros [= <-].
  split; simpl; [by rewrite app_nil_r|by intros []|done|by rewrite len_question_bytes|done|constructor].
Qed.
Lemma put_name_Some w name w' : put_name w name = Some w' ↔ w_put w (name_bytes (w_qname w) name) = Some w'.
Proof.
  unfold put_name, name_bytes. destruct (shared_suffix _ _ _) as [[off at_]|]; [|done]. unfold w_put. rewrite len_app.
  destruct (Z.ltb_spec (w_limit w) (len (w_msg w) + len (take (Z.to_nat off) name))); cbn [mbind option_bind w_limit w_msg].
  - rewrite (proj2 (Z.ltb_lt _ _)) by len_lia. done.
  - rewrite len_app, <- !Z.add_assoc, <- app_assoc. done.
Qed.
Lemma w_put_Some w b w' : w_put w b = Some w' ↔ len (w_msg w) + len b ≤ w_limit w ∧
  w' = mkWriter (w_limit w) (w_msg w ++ b) (w_question_end w) (w_answer w) (w_authority w) (w_additional w) (w_tc w) (w_qname w).
Proof. unfold w_put. destruct (Z.ltb_spec (w_limit w) (len (w_msg w) + len b)); naive_solver lia. Qed.
Lemma in_section_app s l1 l2 : in_section s (l1 ++ l2) = in_section s l1 ++ in_section s l2.
Proof. apply filter_app. Qed.

(** A record is appended whole, or nothing is. *)
Lemma w_rr_wrote q rrs w section owner rtype ttl rdata w' : wrote q rrs w → w_rr w section owner rtype ttl rdata = Some w' →
  wrote q (rrs ++ [mkWRR section owner rtype ttl rdata]) w' ∧ w_limit w' = w_limit w ∧ w_tc w' = w_tc w.
Proof.
  intros [Hm Hc He Hl Hq Hr]. unfold w_rr. intros (w1 & (H1 & ->)%put_name_Some%w_put_Some & E)%bind_Some.
  destruct (Z.ltb_spec 65535 (len rdata)) as [|Hd]; [done|]. apply bind_Some in E as (w2 & (H2 & ->)%w_put_Some & (w3 & (H3 & ->)%w_put_Some & [= <-])%bind_Some).
  cbn [w_limit w_msg w_question_end w_qname w_tc w_answer w_authority w_additional w_count] in *. split; [|done]. split; simpl.
  - rewrite map_app, concat_app, Hm, Hq. simpl. unfold rr_bytes. simpl. by rewrite app_nil_r, <- !app_assoc.
  - intros s. pose proof (Hc s) as Hs. rewrite in_section_app, len_app.
    assert (len (in_section s [mkWRR section owner rtype ttl rdata]) = if bool_decide (s = section) then 1 else 0) as ->.
    { unfold in_section. rewrite filter_cons. simpl. case_decide; case_bool_decide; congruence || done. }
    destruct s; simpl in *; rewrite Hs; unfold u16; by rewrite Zplus_mod_idemp_l.
  - done.
  - rewrite len_app. done.
  - done.
  - apply Forall_app. by repeat constructor.
Qed.

(** ** Reading back *)
(** A name at [i] of a message that ends in place at [e], with [n] pointers (RFC 1035 4.1.4). *)
Inductive name_reads (msg : bytes) : Z → list bytes → Z → nat → Prop :=
| reads_root i : idx msg i = Some 0 → name_reads msg i [] (i + 1) 0
| reads_label i l ls e n : 1 ≤ len l ≤ 63 → idx msg i = Some (len l) → slice msg (i + 1) (i + 1 + len l) = l →
    name_reads msg (i + 1 + len l) ls e n → name_reads msg i (l :: ls) e n
| reads_pointer i hi lo ls e n : 0xc0 ≤ hi → idx msg i = Some hi → idx msg (i + 1) = Some lo →
    Z.lor (Z.shiftl (Z.land hi 0x3f) 8) lo < i → name_reads msg (Z.lor (Z.shiftl (Z.land hi 0x3f) 8) lo) ls e n → name_reads msg i ls (i + 2) (S n).

Lemma idx_mid_eq {A} (p q : list A) x i : i = len p → idx (p ++ x :: q) i = Some x.
Proof. intros ->. apply idx_app_mid. Qed.
Lemma slice_mid_eq {A} (p l q : list A) i j : i = len p → j = i + len l → slice (p ++ l ++ q) i j = l.
Proof. intros -> ->. apply slice_app_mid. Qed.
Lemma reads_labels p ls q ks e n : Forall label_ok ls → name_reads (p ++ wire_labels ls ++ q) (len p + len (wire_labels ls)) ks e n →
  name_reads (p ++ wire_labels ls ++ q) (len p) (ls ++ ks) e n.
Proof.
  intros Hls. revert p. induction Hls as [|l ls Hl Hls IH]; intros p H.
  - change (wire_labels []) with ([] : bytes) in *. simpl in *. by rewrite Z.add_0_r in H.
  - rewrite wire_labels_cons in *. rewrite <- app_comm_cons, <- app_assoc in *. simpl. eapply reads_label; [done|by apply idx_mid_eq| |].
    + replace (p ++ len l :: l ++ wire_labels ls ++ q) with ((p ++ [len l]) ++ l ++ wire_labels ls ++ q) by by simplify_list_eq.
      apply slice_mid_eq; len_lia.
    + specialize (IH (p ++ len l :: l)). rewrite <- app_assoc, <- app_comm_cons in IH.
      replace (len p + 1 + len l) with (len (p ++ len l :: l)) by len_lia. apply IH.
      replace (len (p ++ len l :: l) + len (wire_labels ls)) with (len p + len (len l :: l ++ wire_labels ls)) by len_lia. done.
Qed.
Lemma reads_wire p ls q : Forall label_ok ls → name_reads (p ++ wire_name ls ++ q) (len p) ls (len p + len (wire_name ls)) 0.
Proof.
  intros Hls. unfold wire_name. rewrite <- app_assoc. rewrite <- (app_nil_r ls) at 2. rewrite len_app. change (len [0]) with 1.
  rewrite Z.add_assoc. apply reads_labels; [done|]. apply reads_root. rewrite app_assoc. apply idx_mid_eq. len_lia.
Qed.

(** [name_end] finds the end of every name that reads with at most 64 pointers and 255 octets. *)
Lemma name_end_loop_reads msg i ls e n fuel end_ jumps total : name_reads msg i ls e n →
  jumps + Z.of_nat n ≤ 64 → total + len (wire_labels ls) ≤ 254 → (n + length ls < fuel)%nat →
  name_end_loop fuel msg i end_ jumps total = Ok (default e end_).
Proof.
  intros H. revert fuel end_ jumps total. induction H as [i E|i l ls e n Hl E Es _ IH|i hi lo ls e n Hh E Elo Ht _ IH]; intros [|fuel] end_ jumps total Hj Htot Hf;
    [lia| |lia| |lia|]; cbn [name_end_loop]; rewrite E; cbn [or_err mbind res_bind].
  - done.
  - rewrite wire_labels_cons in Htot. rewrite (proj2 (Z.eqb_neq _ 0)), (proj2 (Z.leb_gt 192 _)), (proj2 (Z.leb_gt 64 _)) by lia. cbv zeta.
    rewrite (proj2 (Z.ltb_ge 254 _)) by len_lia. replace (i + (len l + 1)) with (i + 1 + len l) by lia. apply IH; [lia|len_lia|simpl in Hf; lia].
  - rewrite (proj2 (Z.eqb_neq hi 0)), (proj2 (Z.leb_le 192 hi)) by lia. rewrite Elo. cbn [or_err mbind res_bind]. cbv zeta. unfold MAX_POINTER_JUMPS.
    rewrite (proj2 (Z.leb_gt _ _) Ht), (proj2 (Z.ltb_ge 64 _)) by lia. cbn [orb]. rewrite IH by lia. by destruct end_.
Qed.
Lemma name_end_reads msg i ls e n : name_reads msg i ls e n → (n ≤ 64)%nat → name_ok ls → name_end msg i = Ok e.
Proof.
  intros H Hn Hok. pose proof (name_ok_labels ls Hok) as Hll. destruct Hok as [_ Hlen]. rewrite len_wire_name in Hlen. unfold name_end.
  rewrite (name_end_loop_reads msg i ls e n) by (done || lia || (unfold len in Hll; lia)). done.
Qed.
(** The two octets of a pointer. *)
Lemma pointer_octets t : 0 ≤ t < 0x4000 → ∃ hi lo, put16 (Z.lor 0xC000 (u16 t)) = [hi; lo] ∧ 0xc0 ≤ hi ∧ Z.lor (Z.shiftl (Z.land hi 0x3f) 8) lo = t.
Proof.
  intros Ht. rewrite u16_small by (unfold is_u16; lia). eexists _, _. split; [done|].
  rewrite Z.lor_comm. change 0xC000 with (Z.shiftl 3 14). rewrite lor_shiftl_add by lia. unfold u8. rewrite Z.shiftr_div_pow2 by lia.
  change (2 ^ 8) with 256. change (2 ^ 14) with 16384. change 0x3f with (Z.ones 6). rewrite Z.land_ones by lia. change (2 ^ 6) with 64.
  rewrite Z.lor_comm. pose proof (Z.mod_pos_bound (t + 3 * 16384) 256). rewrite lor_shiftl_add by lia. change (2 ^ 8) with 256.
  Z.div_mod_to_equations. lia.
Qed.
Lemma shared_suffix_Some qs ls offs off at_ : name_ok qs → name_ok ls → offs ⊆ map (offset ls) (seq 0 (length ls)) →
  shared_suffix (wire_name qs) (wire_name ls) offs = Some (off, at_) →
  ∃ k j, off = offset ls k ∧ at_ = offset qs j ∧ map lowercase (drop j qs) = map lowercase (drop k ls).
Proof.
  intros Hq Hl. induction offs as [|o offs IH]; intros Hsub; [done|]. cbn [shared_suffix].
  destruct (_ && _) eqn:Eb; [|apply IH; set_solver]. intros [= <- <-].
  apply andb_true_iff in Eb as [[_ He]%andb_true_iff (s & Hs & Es%Z.eqb_eq)%existsb_exists]. apply bool_decide_eq_true in He.
  assert (o ∈ map (offset ls) (seq 0 (length ls))) as (k & -> & _)%list_elem_of_fmap by set_solver. rewrite drop_offset in He, Es |- *.
  pose proof (label_offsets_wire qs [] Hq) as Ho. rewrite app_nil_r in Ho. rewrite Ho in Hs. apply in_map_iff in Hs as (j & <- & _).
  rewrite <- Es, drop_offset in He. exists k, j. split_and!; [done|congruence|].
  unfold lowercase in He. rewrite !map_lower_wire_name in He by (apply Forall_drop; apply Hq || apply Hl).
  apply wire_name_inj in He; [done|apply label_ok_lower, Forall_drop..]; [apply Hq|apply Hl].
Qed.
Lemma offset_bound ls k : name_ok ls → 0 ≤ offset ls k ≤ 254.
Proof.
  intros [_ H]. rewrite (wire_split ls k) in H. unfold offset. pose proof (len_wire_name (drop k ls)). len_lia.
Qed.
Lemma take_offset ls k : take (Z.to_nat (offset ls k)) (wire_name ls) = wire_labels (take k ls).
Proof. rewrite (wire_split ls k). unfold offset. rewrite to_nat_len. apply take_app_length. Qed.

(** A name written after the question reads back as itself, up to the case of the shared suffix. *)
Lemma name_bytes_reads h qs mid ls rest : len h = HEADER_LEN → name_ok qs → name_ok ls →
  let pre := h ++ wire_name qs ++ mid in
  ∃ ls' n, name_reads (pre ++ name_bytes (wire_name qs) (wire_name ls) ++ rest) (len pre) ls' (len pre + len (name_bytes (wire_name qs) (wire_name ls))) n ∧
    map lowercase ls' = map lowercase ls ∧ (n ≤ 1)%nat.
Proof.
  intros Hh Hq Hl pre. unfold name_bytes. destruct (shared_suffix _ _ _) as [[off at_]|] eqn:E.
  - apply shared_suffix_Some in E as (k & j & -> & -> & El); [|done..|].
    2:{ pose proof (label_offsets_wire ls [] Hl) as Ho. rewrite app_nil_r in Ho. by rewrite Ho. }
    rewrite take_offset. pose proof (offset_bound qs j Hq) as Hj. destruct (pointer_octets (HEADER_LEN + offset qs j)) as (hi & lo & -> & Hhi & Et); [unfold HEADER_LEN; lia|].
    exists (take k ls ++ drop j qs), 1%nat. split_and!; [|by rewrite map_app, El, <- map_app, take_drop|done].
    rewrite <- app_assoc, len_app, Z.add_assoc. change (len [hi; lo]) with 2. apply reads_labels; [apply Forall_take, Hl|].
    set (msg := pre ++ wire_labels (take k ls) ++ [hi; lo] ++ rest).
    assert (msg = (pre ++ wire_labels (take k ls)) ++ hi :: lo :: rest) as Em by (unfold msg; by simplify_list_eq).
    eapply (reads_pointer _ _ hi lo); [done|rewrite Em; apply idx_mid_eq; len_lia| | |].
    + replace msg with ((pre ++ wire_labels (take k ls) ++ [hi]) ++ lo :: rest) by (unfold msg; by simplify_list_eq). apply idx_mid_eq. len_lia.
    + rewrite Et. assert (len (wire_name qs) = offset qs j + len (wire_name (drop j qs))) as Hw by (rewrite (wire_split qs j) at 1; unfold offset; len_lia).
      pose proof (len_wire_name (drop j qs)). unfold pre. len_lia.
    + rewrite Et. assert (msg = (h ++ wire_labels (take j qs)) ++ wire_name (drop j qs) ++ mid ++ wire_labels (take k ls) ++ [hi; lo] ++ rest) as ->.
      { unfold msg, pre. rewrite (wire_split qs j) at 1. by rewrite <- !app_assoc. }
      replace (HEADER_LEN + offset qs j) with (len (h ++ wire_labels (take j qs))) by (unfold offset; len_lia). apply reads_wire, Forall_drop, Hq.
  - exists ls, 0%nat. split_and!; [apply reads_wire, Hl|done|lia].
Qed.

Lemma be16_at p v q i : is_u16 v → i = len p → be16 (p ++ put16 v ++ q) i = Ok v.
Proof. intros Hv ->. unfold be16. rewrite to_nat_len, drop_app_length, get16_put16 by done. done. Qed.
Lemma be32_at p v q i : is_u32 v → i = len p → be32 (p ++ put32 v ++ q) i = Ok v.
Proof. intros Hv ->. unfold be32. rewrite to_nat_len, drop_app_length, get32_put32 by done. done. Qed.

Definition wrr_ok (r : WRR) : Prop :=
  (∃ ls, name_ok ls ∧ wr_owner r = wire_name ls) ∧ is_u16 (wr_rtype r) ∧ is_u32 (wr_ttl r) ∧ len (wr_rdata r) ≤ 65535.
(** The record located at [a] is [r]. *)
Definition reads_rr (msg : bytes) (r : WRR) (a : RrAt) : Prop :=
  ra_rtype a = wr_rtype r ∧ ra_class a = 1 ∧ ra_ttl a = wr_ttl r ∧ slice msg (ra_rdata_start a) (ra_rdata_end a) = wr_rdata r ∧
  ∃ ls n, name_reads msg (ra_start a) ls (ra_name_end a) n ∧ lowercase (wire_name ls) = lowercase (wr_owner r).

Lemma lower_name_ok ls ks : map lowercase ls = map lowercase ks → name_ok ks → name_ok ls.
Proof.
  intros E [Hk Hlen]. assert (Forall label_ok ls) as Hl.
  { apply Forall_forall. intros l Hin. assert (lowercase l ∈ map lowercase ks) as (k & Ek & Hk')%list_elem_of_fmap by (rewrite <- E; apply list_elem_of_fmap; eauto).
    rewrite Forall_forall in Hk. specialize (Hk k Hk'). apply (f_equal len) in Ek. unfold lowercase, label_ok in *. rewrite !len_map in Ek. lia. }
  split; [done|]. rewrite <- (len_map ascii_lower), map_lower_wire_name in Hlen |- * by done.
  change (map (map ascii_lower) ?x) with (map lowercase x) in *. by rewrite E.
Qed.
Lemma len_rr_bytes qname r : wrr_ok r → 11 ≤ len (rr_bytes qname r).
Proof.
  intros ((ls & Hls & Eo) & _). unfold rr_bytes. rewrite Eo. assert (1 ≤ len (name_bytes qname (wire_name ls))); [|unfold put16, put32 in *; len_lia].
  unfold name_bytes, put16. destruct (shared_suffix _ _ _) as [[off at_]|]; [len_lia|]. pose proof (len_wire_name ls). len_lia.
Qed.
Lemma len_rrs_bytes qname rrs : Forall wrr_ok rrs → 11 * len rrs ≤ len (concat (map (rr_bytes qname) rrs)).
Proof. induction 1 as [|r rrs Hr Hrs IH]; [done|]. cbn [map concat]. pose proof (len_rr_bytes qname r Hr). len_lia. Qed.
Section walk.
Context (h : bytes) (qs : list bytes) (rest : bytes) (Hh : len h = HEADER_LEN) (Hq : name_ok qs).
Lemma walk_one r mid tail : wrr_ok r → let pre := h ++ wire_name qs ++ mid in let msg := pre ++ rr_bytes (wire_name qs) r ++ tail in
  ∃ a, ra_start a = len pre ∧ reads_rr msg r a ∧ name_end msg (len pre) = Ok (ra_name_end a) ∧ ra_rdata_start a = ra_name_end a + 10 ∧
    ra_rdata_end a = len pre + len (rr_bytes (wire_name qs) r) ∧ be16 msg (ra_name_end a + 8) = Ok (len (wr_rdata r)) ∧ ra_rdata_end a = ra_name_end a + 10 + len (wr_rdata r) ∧
    be16 msg (ra_name_end a) = Ok (ra_rtype a) ∧ be16 msg (ra_name_end a + 2) = Ok (ra_class a) ∧ be32 msg (ra_name_end a + 4) = Ok (ra_ttl a).
Proof.
  intros ((ls & Hls & Eo) & Ht & Httl & Hd) pre msg. set (nb := name_bytes (wire_name qs) (wr_owner r)).
  assert (msg = pre ++ nb ++ put16 (wr_rtype r) ++ put16 1 ++ put32 (wr_ttl r) ++ put16 (len (wr_rdata r)) ++ wr_rdata r ++ tail) as Em.
  { unfold msg, rr_bytes. by rewrite <- !app_assoc. }
  destruct (name_bytes_reads h qs mid ls (put16 (wr_rtype r) ++ put16 1 ++ put32 (wr_ttl r) ++ put16 (len (wr_rdata r)) ++ wr_rdata r ++ tail) Hh Hq Hls) as (ls' & n & Hr & El & Hn).
  fold pre in Hr. rewrite <- Eo in Hr. fold nb in Hr. rewrite <- Em in Hr. set (ne := len pre + len nb) in *.
  exists (mkRrAt (len pre) ne (wr_rtype r) 1 (wr_ttl r) (ne + 10) (len pre + len (rr_bytes (wire_name qs) r))). simpl.
  assert (len pre + len (rr_bytes (wire_name qs) r) = ne + 10 + len (wr_rdata r)) as Er by (unfold rr_bytes, ne, nb, put16, put32; len_lia).
  pose proof (lower_name_ok ls' ls El Hls) as Hok'. split_and!; [done| |by apply (name_end_reads _ _ ls' _ n); [|lia|]|done|done| |done| | |].
  - split_and!; simpl; [done..| |exists ls', n; split; [done|]].
    + rewrite Er, Em. replace (pre ++ nb ++ put16 (wr_rtype r) ++ put16 1 ++ put32 (wr_ttl r) ++ put16 (len (wr_rdata r)) ++ wr_rdata r ++ tail)
        with ((pre ++ nb ++ put16 (wr_rtype r) ++ put16 1 ++ put32 (wr_ttl r) ++ put16 (len (wr_rdata r))) ++ wr_rdata r ++ tail) by by rewrite <- !app_assoc.
      apply slice_mid_eq; unfold ne, put16, put32; len_lia.
    + rewrite Eo. unfold lowercase. rewrite !map_lower_wire_name by (apply Hls || apply Hok'). f_equal. exact El.
  - rewrite Em, !app_assoc, <- (app_assoc _ (wr_rdata r)), <- (app_assoc _ (put16 (len _))). apply be16_at; [split; [len_lia|lia]|unfold ne, put16, put32; len_lia].
  - rewrite Em, (app_assoc pre). apply be16_at; [done|]. unfold ne. len_lia.
  - rewrite Em, (app_assoc pre), (app_assoc _ (put16 (wr_rtype r))). apply be16_at; [done|]. unfold ne, put16. len_lia.
  - rewrite Em, (app_assoc pre), (app_assoc _ (put16 (wr_rtype r))), (app_assoc _ (put16 1)). apply be32_at; [done|]. unfold ne, put16. len_lia.
Qed.
Lemma walk_written rrs mid : Forall wrr_ok rrs → let pre := h ++ wire_name qs ++ mid in let msg := pre ++ concat (map (rr_bytes (wire_name qs)) rrs) ++ rest in
  ∃ out, walk_loop (length rrs) msg (len pre) = Ok (out, len pre + len (concat (map (rr_bytes (wire_name qs)) rrs))) ∧ Forall2 (reads_rr msg) rrs out.
Proof.
  intros Hrs. revert mid. induction Hrs as [|r rrs Hr Hrs IH]; intros mid pre msg.
  - exists []. cbn [length walk_loop map concat]. change (len ([] : bytes)) with 0. rewrite Z.add_0_r. done.
  - cbn [map concat length walk_loop] in *. assert (msg = pre ++ rr_bytes (wire_name qs) r ++ concat (map (rr_bytes (wire_name qs)) rrs) ++ rest) as Em by (unfold msg; by rewrite <- app_assoc).
    destruct (walk_one r mid (concat (map (rr_bytes (wire_name qs)) rrs) ++ rest) Hr) as (a & Hs & Hrd & Hne & Hrs' & Hre & Hlen & Hre' & Hty & Hcl & Httl).
    fold pre in Hs, Hrd, Hne, Hre, Hlen, Hty, Hcl, Httl. rewrite <- Em in Hrd, Hne, Hlen, Hty, Hcl, Httl.
    destruct (IH (mid ++ rr_bytes (wire_name qs) r)) as (out & Ew & Hout). clear IH.
    replace (h ++ wire_name qs ++ mid ++ rr_bytes (wire_name qs) r) with (pre ++ rr_bytes (wire_name qs) r) in Ew, Hout by (unfold pre; by rewrite <- !app_assoc).
    rewrite <- app_assoc, <- Em in Ew, Hout. exists (a :: out). split; [|by constructor].
    assert (ra_rdata_end a ≤ len msg) as Hend by (rewrite Hre, Em; len_lia). destruct Hr as (_ & _ & _ & Hd).
    rewrite Hne. cbn [mbind res_bind]. rewrite (proj2 (Z.ltb_ge _ _)) by len_lia. rewrite Hlen. cbn [mbind res_bind]. rewrite (proj2 (Z.ltb_ge _ _)) by lia.
    rewrite Hty, Hcl, Httl. cbn [mbind res_bind]. replace (ra_name_end a + 10 + len (wr_rdata r)) with (len (pre ++ rr_bytes (wire_name qs) r)) by len_lia.
    rewrite Ew. cbn [mbind res_bind]. f_equal. f_equal; [|len_lia]. f_equal. destruct a. simpl in *. f_equal; [congruence..|]. len_lia.
Qed.
Lemma walk_rrs_written rrs mid : Forall wrr_ok rrs → let pre := h ++ wire_name qs ++ mid in let msg := pre ++ concat (map (rr_bytes (wire_name qs)) rrs) ++ rest in
  ∃ out, walk_rrs msg (len pre) (len rrs) = Ok (out, len pre + len (concat (map (rr_bytes (wire_name qs)) rrs))) ∧ Forall2 (reads_rr msg) rrs out.
Proof.
  intros Hrs pre msg. destruct (walk_written rrs mid Hrs) as (out & E & Hout). exists out. split; [|done]. unfold walk_rrs.
  rewrite (proj2 (Z.ltb_ge _ _)); [by rewrite to_nat_len|].
  pose proof (len_rrs_bytes (wire_name qs) rrs Hrs). apply Z.div_le_lower_bound; [lia|]. unfold msg. len_lia.
Qed.
End walk.

(** ** The message *)
Fixpoint w_rrs (w : Writer) (rrs : list WRR) : option Writer :=
  match rrs with
  | [] => Some w
  | r :: rrs => w ← w_rr w (wr_section r) (wr_owner r) (wr_rtype r) (wr_ttl r) (wr_rdata r); w_rrs w rrs
  end.
Lemma w_rrs_wrote q rrs0 w rrs w' : wrote q rrs0 w → w_rrs w rrs = Some w' → wrote q (rrs0 ++ rrs) w' ∧ w_limit w' = w_limit w ∧ w_tc w' = w_tc w.
Proof.
  revert rrs0 w. induction rrs as [|r rrs IH]; intros rrs0 w Hw; simpl; [intros [= <-]; by rewrite app_nil_r|].
  intros (w1 & E1 & E2)%bind_Some. apply (w_rr_wrote q rrs0) in E1 as (Hw1 & El & Et); [|done].
  destruct (IH _ _ Hw1 E2) as (H & El' & Et'). rewrite <- app_assoc in H. split_and!; [by destruct r|congruence..].
Qed.
Lemma w_finish_msg q rrs w rcode aa ra : wrote q rrs w → ∃ h, len h = 6 ∧
  w_finish w rcode aa ra = h ++ put16 (w_answer w) ++ put16 (w_authority w) ++ put16 (w_additional w) ++
    q_qname q ++ (put16 (q_qtype q) ++ put16 (q_qclass q)) ++ concat (map (rr_bytes (q_qname q)) rrs).
Proof.
  intros [Hm _ _ _ _ _]. unfold w_finish. rewrite Hm. unfold question_bytes.
  set (b2 := default 0 _). set (b3 := default 0 _). eexists (put16 (q_id q) ++ [_; _] ++ put16 1). split; [done|].
  unfold put16. simpl. by rewrite <- !app_assoc.
Qed.
Lemma len_section s rrs : len (in_section s rrs) ≤ len rrs.
Proof. unfold in_section, len. pose proof (length_filter (λ r, wr_section r = s) rrs). lia. Qed.
(** C28: Reading a response back gives the records written.  After the question and any sequence of
    records that fit, the finished message is no longer than the limit, its counts are the numbers of
    records of each section, and walking its records gives, in order, each one with its type, class, time
    to live, data and owner (the case of the labels shared with the question aside). *)
Theorem response_reads_back out_len limit q w0 rrs w rcode aa ra :
  (∃ qs, name_ok qs ∧ q_qname q = wire_name qs) → writer_new out_len limit q = Some w0 → limit ≤ 65535 → Forall wrr_ok rrs → w_rrs w0 rrs = Some w →
  let m := w_finish w rcode aa ra in
  len m ≤ limit ∧ be16 m 6 = Ok (len (in_section SAnswer rrs)) ∧ be16 m 8 = Ok (len (in_section SAuthority rrs)) ∧ be16 m 10 = Ok (len (in_section SAdditional rrs)) ∧
  ∃ out, walk_rrs m (HEADER_LEN + len (q_qname q) + 4) (len rrs) = Ok (out, len m) ∧ Forall2 (reads_rr m) rrs out.
Proof.
  intros (qs & Hqs & Eq) E0 Hlim Hrs Ew m. pose proof (writer_new_wrote _ _ _ _ E0) as H0.
  assert (w_limit w0 ≤ limit) as Hl0 by (unfold writer_new in E0; destruct (_ <? _); [done|]; injection E0 as <-; simpl; lia).
  destruct (w_rrs_wrote _ _ _ _ _ H0 Ew) as (Hw & El & _). simpl in Hw. destruct (w_finish_msg q rrs w rcode aa ra Hw) as (h & Hh & Em). fold m in Em.
  pose proof Hw as [Hm Hc _ Hlen _ _]. pose proof (len_rrs_bytes (q_qname q) rrs Hrs) as Hbytes.
  assert (len m = len (w_msg w)) as Elm by (rewrite Em, Hm, !len_app, len_question_bytes; unfold HEADER_LEN, put16; len_lia).
  assert (∀ s, w_count w s = len (in_section s rrs) ∧ is_u16 (w_count w s)) as Hcount.
  { intros s. pose proof (len_section s rrs) as Hs. rewrite Hc. assert (is_u16 (len (in_section s rrs))) as Hu; [|by rewrite u16_small].
    unfold is_u16. rewrite Hm, len_app in Hlen. pose proof (len_question_bytes q). unfold HEADER_LEN in *. len_lia. }
  destruct (Hcount SAnswer) as [Ea Ua], (Hcount SAuthority) as [Eau Uau], (Hcount SAdditional) as [Ead Uad]. cbn [w_count] in *. split_and!; [lia|..].
  - rewrite Em, <- Ea. by apply be16_at.
  - rewrite Em, (app_assoc h), <- Eau. apply be16_at; [done|]. unfold put16. len_lia.
  - rewrite Em, (app_assoc h), (app_assoc _ (put16 (w_authority w))), <- Ead. apply be16_at; [done|]. unfold put16. len_lia.
  - set (h12 := h ++ put16 (w_answer w) ++ put16 (w_authority w) ++ put16 (w_additional w)).
    assert (len h12 = HEADER_LEN) as Hh12 by (unfold h12, HEADER_LEN, put16; len_lia).
    destruct (walk_rrs_written h12 qs [] Hh12 Hqs rrs (put16 (q_qtype q) ++ put16 (q_qclass q)) Hrs) as (out & Eo & Hout). exists out.
    assert ((h12 ++ wire_name qs ++ put16 (q_qtype q) ++ put16 (q_qclass q)) ++ concat (map (rr_bytes (wire_name qs)) rrs) ++ [] = m) as Em'.
    { rewrite Em, Eq. unfold h12. by rewrite app_nil_r, <- !app_assoc. }
    rewrite Em' in Eo, Hout. split; [|done].
    assert (len (h12 ++ wire_name qs ++ put16 (q_qtype q) ++ put16 (q_qclass q)) = HEADER_LEN + len (q_qname q) + 4) as Epre by (rewrite Eq; unfold put16; len_lia).
    rewrite Epre in Eo. rewrite Eo. do 2 f_equal. rewrite <- Em', app_nil_r, len_app. lia.
Qed.
