(* ===== verification/EngineAnswer.v ===== *)
(** * Answering queries in the engine

    engine/src/authoritative/answer.rs with the denial records of dnssec.rs and nsec3.rs: the chain of
    CNAME and DNAME steps, referrals with glue, negative answers with the SOA, wildcards, and the NSEC
    or NSEC3 records that prove them.  SHA-1 is a library's: the parameter [digest]. *)

From S2P Require Import Prelude.
From S2P Require Import GoText.
From S2P Require Import NzfNames.
From S2P Require Import NzfFormat.
From S2P Require Import EngineName.
From S2P Require Import EngineZone.
From S2P Require Import EngineLookup.
From S2P Require Import EngineMsg.
From S2P Require Import EngineWriter.

Definition RCODE_NOERROR : Z := 0.
Definition RCODE_SERVFAIL : Z := 2.
Definition RCODE_NXDOMAIN : Z := 3.
Definition RCODE_YXDOMAIN : Z := 6.
Definition CLASS_IN : Z := 1.
Definition MAX_CHAIN : nat := 8.
Definition PROOFS_PER_STEP : nat := 3.
Definition MAX_PROOFS : nat := PROOFS_PER_STEP * 9.

(** ** RRsets into the message *)
(** Records of one owner and type; stops at the first that does not fit, and says whether all did. *)
Fixpoint write_all (w : Writer) (section : RSection) (owner : bytes) (rtype ttl : Z) (ds : list bytes) : Writer * bool :=
  match ds with
  | [] => (w, true)
  | d :: ds => match w_rr w section owner rtype ttl d with None => (w, false) | Some w => write_all w section owner rtype ttl ds end
  end.
Definition write_rrset_signed_ttl (w : Writer) (section : RSection) (owner : bytes) (set : RRset) (ttl : Z) (dnssec : bool) : Writer * bool :=
  let '(w, ok) := write_all w section owner (rs_rtype set) ttl (rs_rdata set) in
  if negb ok then (w, false)
  else if dnssec then write_all w section owner T_RRSIG ttl (rs_sigs set) else (w, true).
Definition write_rrset_signed (w : Writer) (section : RSection) (owner : bytes) (set : RRset) (dnssec : bool) : Writer * bool :=
  write_rrset_signed_ttl w section owner set (rs_ttl set) dnssec.

(** ** Denial *)
Inductive Denial : Type :=
| DNxDomain (qname : bytes) (closest_encloser : Node)
| DNoData (qname : bytes) (node : Node)
| DWildcardAnswer (qname : bytes) (closest_encloser : Node)
| DWildcardNoData (qname : bytes) (closest_encloser wildcard : Node)
| DInsecureReferral (cut : Node).

(** The nodes collected, each by the origin of its zone and its key. *)
Abbreviation Proofs := (list (bytes * bytes * Node)).
Definition proofs_push (origin : bytes) (ps : Proofs) (o : option (bytes * Node)) : Proofs :=
  match o with
  | None => ps
  | Some (k, n) =>
      if negb (existsb (λ p, bool_decide (p.1.1 = origin ∧ p.1.2 = k)) ps) && (length ps <? MAX_PROOFS)%nat then ps ++ [(origin, k, n)] else ps
  end.
Definition proof_set (n : Node) : option RRset := match node_get n T_NSEC with Some s => Some s | None => node_get n T_NSEC3 end.
Fixpoint proofs_write (w : Writer) (ps : Proofs) : Writer * bool :=
  match ps with
  | [] => (w, true)
  | (_, _, n) :: ps =>
      match proof_set n with
      | None => proofs_write w ps
      | Some set =>
          let '(w, ok) := write_rrset_signed w SAuthority (nd_owner n) set true in
          if ok then proofs_write w ps else (w, false)
      end
  end.

(** [*.<encloser>] in lower case. *)
Definition wildcard_of (encloser : bytes) : option bytes :=
  if 255 <? len encloser + 2 then None else Some (1 :: 42 :: lowercase encloser).
Definition next_closer (qname encloser : bytes) : bytes :=
  let offs := label_offsets qname in
  let i := len offs - (len (label_offsets encloser) + 1) in
  if i <? 0 then qname else drop (Z.to_nat (default 0 (idx offs i))) qname.

Record Params := mkParams { pr_iterations : Z; pr_salt : bytes }.
Definition ALG_SHA1 : Z := 1.
Definition params_parse (rdata : bytes) : option Params :=
  match rdata with
  | [] => None
  | alg :: rest =>
      salt_len ← idx rest 3;
      if len rest <? 4 + salt_len then None
      else if (alg =? ALG_SHA1) && (len rest =? 4 + salt_len)
      then it ← get16 (drop 1 rest); Some (mkParams it (slice rest 4 (4 + salt_len)))
      else None
  end.

Section answer.
Context {Policy : Type} (digest : bytes → bytes).
Abbreviation EZ := (EZone Policy).

Definition sha1 (a b : bytes) : bytes := digest (a ++ b).
Definition nsec3_hash (lower_wire_name : bytes) (iterations : Z) (salt : bytes) : bytes :=
  Nat.iter (Z.to_nat iterations) (λ out, sha1 out salt) (sha1 lower_wire_name salt).

Definition nsec (z : EZ) (d : Denial) (ps : Proofs) : Proofs :=
  let push ps o := proofs_push (ez_origin z) ps o in
  let covering name := nsec_covering z (canon_key_buf name) in
  match d with
  | DNxDomain qname ce =>
      let ps := push ps (covering qname) in
      match wildcard_of (nd_owner ce) with Some wild => push ps (covering wild) | None => ps end
  | DNoData qname _ => push ps (covering qname)
  | DWildcardAnswer qname _ => push ps (covering qname)
  | DWildcardNoData qname _ wildcard => push (push ps (covering qname)) (covering (nd_owner wildcard))
  | DInsecureReferral cut => push ps (covering (nd_owner cut))
  end.
Definition nsec3_denial (z : EZ) (p : Params) (d : Denial) (ps : Proofs) : Proofs :=
  let push ps o := proofs_push (ez_origin z) ps o in
  let hash name := nsec3_hash (lowercase_into name) (pr_iterations p) (pr_salt p) in
  let matching name := nsec3_node z (hash name) in
  let covering name := nsec3_covering z (hash name) in
  match d with
  | DNxDomain qname ce =>
      let ps := push (push ps (matching (nd_owner ce))) (covering (next_closer qname (nd_owner ce))) in
      match wildcard_of (nd_owner ce) with Some wild => push ps (covering wild) | None => ps end
  | DNoData qname _ => push ps (matching qname)
  | DWildcardAnswer qname ce => push ps (covering (next_closer qname (nd_owner ce)))
  | DWildcardNoData qname ce wildcard =>
      push (push (push ps (matching (nd_owner ce))) (covering (next_closer qname (nd_owner ce)))) (matching (nd_owner wildcard))
  | DInsecureReferral cut => push ps (matching (nd_owner cut))
  end.
Definition add_denial (z : EZ) (d : Denial) (ps : Proofs) : Proofs :=
  match ez_nsec3param z with
  | None => nsec z d ps
  | Some rdata => match params_parse rdata with Some p => nsec3_denial z p d ps | None => ps end
  end.

(** ** One step of the chain *)
Inductive Step := Follow (target : bytes) | Stop (rcode : Z).
(** Overflow of the answer or authority section is [None]; an index or [expect] that fails is [Panic]. *)
Abbreviation step_result := (res unit (Writer * bool * Proofs * option Step)).

Definition negative (w : Writer) (z : EZ) (dnssec : bool) : res unit (Writer * bool) :=
  apex ← or_panic (node_by_key z (ez_apex_key z));
  soa ← or_panic (node_get apex T_SOA);
  rdata ← or_panic (head (rs_rdata soa));
  minimum ← (if len rdata <? 4 then Panic else or_panic (get32 (drop (Z.to_nat (len rdata - 4)) rdata)));
  Ok (write_rrset_signed_ttl w SAuthority (ez_origin z) soa (Z.min (rs_ttl soa) minimum) dnssec).

(** The A and AAAA records of the in-zone targets; stops at the first RRset that does not fit. *)
Fixpoint glue_types (w : Writer) (glue : Node) (types : list Z) : Writer * bool :=
  match types with
  | [] => (w, true)
  | t :: types =>
      match node_get glue t with
      | None => glue_types w glue types
      | Some s => let '(w, ok) := write_rrset_signed w SAdditional (nd_owner glue) s false in if ok then glue_types w glue types else (w, false)
      end
  end.
Fixpoint glue_targets (w : Writer) (z : EZ) (targets : list bytes) : Writer :=
  match targets with
  | [] => w
  | target :: targets =>
      if negb (is_subdomain target (ez_origin z)) then glue_targets w z targets
      else match zone_node z target with
           | None => glue_targets w z targets
           | Some glue => let '(w, ok) := glue_types w glue [T_A; T_AAAA] in if ok then glue_targets w z targets else w
           end
  end.
Definition referral (w : Writer) (z : EZ) (cut : Node) (dnssec : bool) (ps : Proofs) : Writer * Proofs * bool :=
  match node_get cut T_NS with
  | None => (w, ps, true)
  | Some ns =>
      let '(w, ok) := write_rrset_signed w SAuthority (nd_owner cut) ns false in
      if negb ok then (w, ps, false)
      else
        let '(w, ps, ok) :=
          if dnssec then
            match node_get cut T_DS with
            | Some ds => let '(w, ok) := write_rrset_signed w SAuthority (nd_owner cut) ds true in (w, ps, ok)
            | None => let ps := add_denial z (DInsecureReferral cut) ps in let '(w, ok) := proofs_write w ps in (w, [], ok)
            end
          else (w, ps, true) in
        if negb ok then (w, ps, false) else (glue_targets w z (rs_rdata ns), ps, true)
  end.
(** [<prefix>.<owner>] to [<prefix>.<target>]; [None] when it would be longer than 255 octets. *)
Definition synth_dname (qname owner target : bytes) : option bytes :=
  let prefix_len := len qname - len owner in
  if (prefix_len <? 0) || (255 <? prefix_len + len target) then None else Some (take (Z.to_nat prefix_len) qname ++ target).

(** What a node found by name, or through a wildcard, gives. *)
Definition node_step (w : Writer) (z : EZ) (name : bytes) (qtype : Z) (dnssec : bool) (aa : bool) (ps : Proofs) (node : Node) (closest_encloser : option Node) : step_result :=
  let answered (ps : Proofs) : Proofs := match dnssec, closest_encloser with true, Some ce => add_denial z (DWildcardAnswer name ce) ps | _, _ => ps end in
  match (if qtype =? T_ANY then list_find (λ s : RRset, rs_rdata s ≠ []) (nd_rrsets node) else None) with
  | Some (_, s) =>
      let '(w, ok) := write_rrset_signed w SAnswer name s dnssec in
      if ok then Ok (w, aa, answered ps, Some (Stop RCODE_NOERROR)) else Ok (w, aa, ps, None)
  | None =>
      match (if negb (qtype =? T_CNAME) && negb (qtype =? T_ANY) then node_get node T_CNAME else None) with
      | Some c =>
          let '(w, ok) := write_rrset_signed w SAnswer name c dnssec in
          if ok then target ← or_panic (head (rs_rdata c)); Ok (w, aa, answered ps, Some (Follow (take 255 target))) else Ok (w, aa, ps, None)
      | None =>
          match node_get node qtype with
          | Some s =>
              let '(w, ok) := write_rrset_signed w SAnswer name s dnssec in
              if ok then Ok (w, aa, answered ps, Some (Stop RCODE_NOERROR)) else Ok (w, aa, ps, None)
          | None =>
              '((w, ok) : Writer * bool) ← negative w z dnssec;
              if ok then
                let d := match closest_encloser with None => DNoData name node | Some ce => DWildcardNoData name ce node end in
                Ok (w, aa, if dnssec then add_denial z d ps else ps, Some (Stop RCODE_NOERROR))
              else Ok (w, aa, ps, None)
          end
      end
  end.
Definition step (w : Writer) (z : EZ) (name : bytes) (qtype : Z) (first dnssec : bool) (aa : bool) (ps : Proofs) : step_result :=
  found ← or_panic (lookup z name qtype);
  match found with
  | LDelegation cut =>
      if first then let '(w, ps, ok) := referral w z cut dnssec ps in Ok (w, false, ps, if ok then Some (Stop RCODE_NOERROR) else None)
      else Ok (w, aa, ps, Some (Stop RCODE_NOERROR))
  | LDname node =>
      dname ← or_panic (node_get node T_DNAME);
      target ← or_panic (head (rs_rdata dname));
      let '(w, ok) := write_rrset_signed w SAnswer (nd_owner node) dname dnssec in
      if negb ok then Ok (w, aa, ps, None)
      else match synth_dname name (nd_owner node) target with
           | None => Ok (w, aa, ps, Some (Stop RCODE_YXDOMAIN))
           | Some next =>
               match w_rr w SAnswer name T_CNAME (rs_ttl dname) next with
               | None => Ok (w, aa, ps, None)
               | Some w => Ok (w, aa, ps, Some (Follow next))
               end
           end
  | LNxDomain ce =>
      '((w, ok) : Writer * bool) ← negative w z dnssec;
      if ok then Ok (w, aa, if dnssec then add_denial z (DNxDomain name ce) ps else ps, Some (Stop RCODE_NXDOMAIN)) else Ok (w, aa, ps, None)
  | LExact node => node_step w z name qtype dnssec aa ps node None
  | LWildcard ce wildcard => node_step w z name qtype dnssec aa ps wildcard (Some ce)
  end.

(** ** The chain *)
Inductive Served := Done (msg : bytes) | NotHosted.
(** A proof that does not fit truncates. *)
Definition finish (w : Writer) (ps : Proofs) (rcode : Z) (aa ra : bool) : bytes :=
  let '(w, ok) := proofs_write w ps in
  if ok then w_finish w rcode aa ra else w_finish (w_truncate w) RCODE_NOERROR aa ra.

Fixpoint respond_loop (fuel : nat) (set : gmap bytes EZ) (qtype : Z) (do_bit ra : bool) (w : Writer) (aa : bool) (ps : Proofs)
    (seen : list bytes) (z : EZ) (name : bytes) (first : bool) : res unit Served :=
  match fuel with
  | O => Fuel
  | S fuel =>
      signed ← or_panic (is_signed z);
      '(w, aa, ps, s) ← step w z name qtype first (do_bit && signed) aa ps;
      match s with
      | None => Ok (Done (w_finish (w_truncate w) RCODE_NOERROR aa ra))
      | Some (Stop rcode) => Ok (Done (finish w ps rcode aa ra))
      | Some (Follow target) =>
          let next := lowercase_into target in
          if bool_decide (next ∈ seen) then Ok (Done (w_finish (w_reset w) RCODE_SERVFAIL aa ra))
          else match find_zone set next with
               | None => Ok (Done (finish w ps RCODE_NOERROR aa ra))
               | Some z =>
                   if (length seen =? S MAX_CHAIN)%nat || ez_expired z then Ok (Done (finish w ps RCODE_NOERROR aa ra))
                   else respond_loop fuel set qtype do_bit ra w aa ps (seen ++ [next]) z next false
               end
      end
  end.
Definition respond (set : gmap bytes EZ) (q : Question) (out_len max_len : Z) (ra : bool) : res unit Served :=
  let qlower := lowercase_into (q_qname q) in
  if negb (q_qclass q =? CLASS_IN) then Ok NotHosted
  else match find_for_query set qlower (q_qtype q) with
       | None => Ok NotHosted
       | Some z =>
           match writer_new out_len max_len q with
           | None => Ok (Done [])
           | Some w =>
               if ez_expired z then Ok (Done (w_finish w RCODE_SERVFAIL false ra))
               else respond_loop (S MAX_CHAIN) set (q_qtype q) (match q_edns q with Some e => ed_do_bit e | None => false end) ra w true [] [qlower] z qlower true
           end
       end.
End answer.
