(* ===== verification/EngineRespond.v ===== *)
(** * The engine's responses

    [respond] always answers: it never panics and the chain ends.  What it sends is one message whose
    records stand in the order of the sections, within the limit, or the truncated or failed form of it;
    and without a chain the records are those RFC 1034 has a zone with these records give ([dictated]),
    all of them where they fit ([fits]). *)

From S2P Require Import Prelude.
From S2P Require Import GoText.
From S2P Require Import NzfNames.
From S2P Require Import NzfFormat.
From S2P Require Import EngineName.
From S2P Require Import EngineNzf.
From S2P Require Import EngineZone.
From S2P Require Import EngineContent.
From S2P Require Import EngineFinal.
From S2P Require Import EngineFlags.
From S2P Require Import EngineLookup.
From S2P Require Import EngineMsg.
From S2P Require Import EngineWriter.
From S2P Require Import EngineAnswer.

(** ** Growth of the message *)
Definition grew (q : Question) (w w' : Writer) (rrs : list WRR) : Prop :=
  ∀ rrs0, wrote q rrs0 w → wrote q (rrs0 ++ rrs) w' ∧ w_limit w' = w_limit w ∧ w_tc w' = w_tc w.
Lemma grew_refl q w : grew q w w [].
Proof. intros rrs0 H. by rewrite app_nil_r. Qed.
Lemma grew_trans q w1 w2 w3 r1 r2 : grew q w1 w2 r1 → grew q w2 w3 r2 → grew q w1 w3 (r1 ++ r2).
Proof. intros H1 H2 rrs0 H. destruct (H1 _ H) as (Ha & ? & ?). destruct (H2 _ Ha) as (Hb & ? & ?). rewrite app_assoc. split_and!; [done|congruence..]. Qed.
Lemma w_rr_grew q w s o t ttl d w' : w_rr w s o t ttl d = Some w' → grew q w w' [mkWRR s o t ttl d].
Proof. intros E rrs0 H. by eapply w_rr_wrote. Qed.

Lemma write_all_grew q w s o t ttl ds w' ok : write_all w s o t ttl ds = (w', ok) →
  ∃ ds', ds' `prefix_of` ds ∧ grew q w w' (map (mkWRR s o t ttl) ds') ∧ (ok = true → ds' = ds).
Proof.
  revert w. induction ds as [|d ds IH]; intros w; simpl; [intros [= <- <-]; exists []; split_and!; [done|apply grew_refl|done]|].
  destruct (w_rr w s o t ttl d) as [w1|] eqn:E; [|intros [= <- <-]; exists []; split_and!; [apply prefix_nil|apply grew_refl|done]].
  intros (ds' & Hp & Hg & Hok)%IH. exists (d :: ds'). split_and!; [by apply prefix_cons| |intros Hk; by rewrite (Hok Hk)].
  simpl. change (?x :: map ?f ?l) with ([x] ++ map f l). eapply grew_trans; [by apply w_rr_grew|done].
Qed.
(** The records of an RRset, with its signatures for a signed answer. *)
Definition set_rrs (s : RSection) (o : bytes) (set : RRset) (ttl : Z) (dnssec : bool) : list WRR :=
  map (mkWRR s o (rs_rtype set) ttl) (rs_rdata set) ++ (if dnssec then map (mkWRR s o T_RRSIG ttl) (rs_sigs set) else []).
Lemma write_set_grew q w s o set ttl dnssec w' ok : write_rrset_signed_ttl w s o set ttl dnssec = (w', ok) →
  ∃ rrs, grew q w w' rrs ∧ Forall (λ r, wr_section r = s) rrs ∧ (ok = true → rrs = set_rrs s o set ttl dnssec).
Proof.
  assert (∀ (f : bytes → WRR) ds, (∀ d, wr_section (f d) = s) → Forall (λ r, wr_section r = s) (map f ds)) as Hall.
  { intros f ds Hf. apply Forall_forall. by intros r (d & -> & _)%list_elem_of_fmap. }
  unfold write_rrset_signed_ttl, set_rrs. destruct (write_all w s o (rs_rtype set) ttl (rs_rdata set)) as [w1 ok1] eqn:E1.
  apply (write_all_grew q) in E1 as (d1 & _ & Hg1 & Hok1). destruct ok1; cbn [negb].
  - rewrite (Hok1 eq_refl) in Hg1. destruct dnssec.
    + intros (d2 & _ & Hg2 & Hok2)%(write_all_grew q). eexists. split_and!; [by eapply grew_trans|apply Forall_app; split; by apply Hall|].
      intros Hk. by rewrite (Hok2 Hk).
    + intros [= <- <-]. eexists. split_and!; [done|by apply Hall|]. by rewrite app_nil_r.
  - intros [= <- <-]. eexists. split_and!; [done|by apply Hall|done].
Qed.
Lemma proofs_write_grew q w ps w' ok : proofs_write w ps = (w', ok) → ∃ rrs, grew q w w' rrs ∧ Forall (λ r, wr_section r = SAuthority) rrs.
Proof.
  revert w. induction ps as [|[[o k] n] ps IH]; intros w; simpl; [intros [= <- <-]; exists []; split; [apply grew_refl|done]|].
  destruct (proof_set n) as [set|]; [|apply IH]. destruct (write_rrset_signed w SAuthority (nd_owner n) set true) as [w1 ok1] eqn:E1.
  apply (write_set_grew q) in E1 as (r1 & Hg1 & Hs1 & _). destruct ok1; [|intros [= <- <-]; eauto].
  intros (r2 & Hg2 & Hs2)%IH. exists (r1 ++ r2). split; [by eapply grew_trans|by apply Forall_app].
Qed.
Section steps.
Context {Policy : Type} (digest : bytes → bytes).
Implicit Types z : EZone Policy.
Lemma negative_grew q w z dnssec w' ok : negative w z dnssec = Ok (w', ok) →
  ∃ rrs, grew q w w' rrs ∧ Forall (λ r, wr_section r = SAuthority) rrs.
Proof.
  unfold negative. intros (apex & _ & (soa & _ & (rd & _ & (m & _ & E)%bind_Ok)%bind_Ok)%bind_Ok)%bind_Ok. injection E as E.
  apply (write_set_grew q) in E as (rrs & ? & ? & _). eauto.
Qed.
Lemma glue_types_grew q w n ts w' ok : glue_types w n ts = (w', ok) → ∃ rrs, grew q w w' rrs ∧ Forall (λ r, wr_section r = SAdditional) rrs.
Proof.
  revert w. induction ts as [|t ts IH]; intros w; simpl; [intros [= <- <-]; exists []; split; [apply grew_refl|done]|].
  destruct (node_get n t) as [s|]; [|apply IH]. destruct (write_rrset_signed _ _ _ _ _) as [w1 ok1] eqn:E1.
  apply (write_set_grew q) in E1 as (r1 & Hg1 & Hs1 & _). destruct ok1; [|intros [= <- <-]; eauto].
  intros (r2 & Hg2 & Hs2)%IH. exists (r1 ++ r2). split; [by eapply grew_trans|by apply Forall_app].
Qed.
Lemma glue_targets_grew q w z ts : ∃ rrs, grew q w (glue_targets w z ts) rrs ∧ Forall (λ r, wr_section r = SAdditional) rrs.
Proof.
  revert w. induction ts as [|t ts IH]; intros w; cbn [glue_targets]; [exists []; split; [apply grew_refl|done]|].
  destruct (negb _); [apply IH|]. destruct (zone_node z t) as [n|]; [|apply IH]. destruct (glue_types w n [T_A; T_AAAA]) as [w1 ok1] eqn:E1.
  apply (glue_types_grew q) in E1 as (r1 & Hg1 & Hs1). destruct ok1; [|eauto].
  destruct (IH w1) as (r2 & Hg2 & Hs2). exists (r1 ++ r2). split; [exact (grew_trans _ _ _ _ _ _ Hg1 Hg2)|by apply Forall_app].
Qed.

(** The sections a part of a message was written to, in order. *)
Record sections (a b c : list WRR) : Prop := {
  sc_answer : Forall (λ r, wr_section r = SAnswer) a;
  sc_authority : Forall (λ r, wr_section r = SAuthority) b;
  sc_additional : Forall (λ r, wr_section r = SAdditional) c }.
Lemma referral_grew q w z cut dnssec ps w' ps' ok : referral digest w z cut dnssec ps = (w', ps', ok) →
  (ps' = ps ∨ ps' = []) ∧ ∃ b c, grew q w w' (b ++ c) ∧ sections [] b c.
Proof.
  unfold referral. destruct (node_get cut T_NS) as [ns|]; [|intros [= <- <- <-]; split; [auto|exists [], []; split; [apply grew_refl|done]]].
  destruct (write_rrset_signed w SAuthority (nd_owner cut) ns false) as [w1 ok1] eqn:E1.
  apply (write_set_grew q) in E1 as (r1 & Hg1 & Hs1 & _). destruct ok1; cbn [negb].
  2:{ intros [= <- <- <-]. split; [auto|]. exists r1, []. rewrite app_nil_r. done. }
  set (mid := if dnssec then _ else _). assert (∃ w2 ps2 ok2 r2, mid = (w2, ps2, ok2) ∧ (ps2 = ps ∨ ps2 = []) ∧ grew q w1 w2 r2 ∧ Forall (λ r, wr_section r = SAuthority) r2) as (w2 & ps2 & ok2 & r2 & -> & Hps & Hg2 & Hs2).
  { unfold mid. destruct dnssec; [|exists w1, ps, true, []; split_and!; [done|auto|apply grew_refl|done]]. destruct (node_get cut T_DS) as [ds|].
    - destruct (write_rrset_signed w1 SAuthority (nd_owner cut) ds true) as [w2 ok2] eqn:E2. apply (write_set_grew q) in E2 as (r2 & ? & ? & _).
      exists w2, ps, ok2, r2. auto.
    - destruct (proofs_write w1 _) as [w2 ok2] eqn:E2. apply (proofs_write_grew q) in E2 as (r2 & ? & ?). exists w2, [], ok2, r2. auto. }
  destruct ok2; cbn [negb]; intros [= <- <- <-]; (split; [done|]).
  - destruct (glue_targets_grew q w2 z (rs_rdata ns)) as (r3 & Hg3 & Hs3). exists (r1 ++ r2), r3. split; [|split; [done|by apply Forall_app|done]].
    eapply grew_trans; [by eapply grew_trans|done].
  - exists (r1 ++ r2), []. rewrite app_nil_r. split; [by eapply grew_trans|split; [done|by apply Forall_app|done]].
Qed.

(** What a step adds, and which proofs it may leave behind it. *)
Definition step_adds (q : Question) (w w' : Writer) (ps' : Proofs) (s : option Step) : Prop :=
  ∃ a b c, grew q w w' (a ++ b ++ c) ∧ sections a b c ∧
    match s with Some (Follow _) => b = [] ∧ c = [] | Some (Stop _) => c = [] ∨ ps' = [] | None => True end.
Lemma adds_answer q w w' ps' s r : grew q w w' r → Forall (λ r, wr_section r = SAnswer) r → step_adds q w w' ps' s.
Proof. intros Hg Hs. exists r, [], []. rewrite !app_nil_r. split_and!; [done|done|]. destruct s as [[?|?]|]; auto. Qed.
Lemma adds_authority q w w' ps' s r : grew q w w' r → Forall (λ r, wr_section r = SAuthority) r → (∀ t, s ≠ Some (Follow t)) → step_adds q w w' ps' s.
Proof. intros Hg Hs Hn. exists [], r, []. rewrite app_nil_r. split_and!; [done|done|]. destruct s as [[t|?]|]; [by destruct (Hn t)|auto|done]. Qed.
Lemma node_step_adds q w z name qtype dnssec aa ps node ce w' aa' ps' s : node_step digest w z name qtype dnssec aa ps node ce = Ok (w', aa', ps', s) →
  aa' = aa ∧ step_adds q w w' ps' s.
Proof.
  unfold node_step. destruct (if qtype =? T_ANY then _ else _) as [[i s0]|].
  { destruct (write_rrset_signed w SAnswer name s0 dnssec) as [w1 ok] eqn:E1. apply (write_set_grew q) in E1 as (r & Hg & Hs & _).
    destruct ok; intros [= <- <- <- <-]; (split; [done|]); by eapply adds_answer. }
  destruct (if negb _ && _ then _ else _) as [c|].
  { destruct (write_rrset_signed w SAnswer name c dnssec) as [w1 ok] eqn:E1. apply (write_set_grew q) in E1 as (r & Hg & Hs & _).
    destruct ok; [intros (t & _ & [= <- <- <- <-])%bind_Ok|intros [= <- <- <- <-]]; (split; [done|]); by eapply adds_answer. }
  destruct (node_get node qtype) as [s0|].
  { destruct (write_rrset_signed w SAnswer name s0 dnssec) as [w1 ok] eqn:E1. apply (write_set_grew q) in E1 as (r & Hg & Hs & _).
    destruct ok; intros [= <- <- <- <-]; (split; [done|]); by eapply adds_answer. }
  intros ([w1 ok] & (r & Hg & Hs)%(negative_grew q) & E)%bind_Ok. destruct ok; injection E as <- <- <- <-; (split; [done|]); by eapply adds_authority.
Qed.
Lemma step_step_adds q w z name qtype first dnssec aa ps w' aa' ps' s : step digest w z name qtype first dnssec aa ps = Ok (w', aa', ps', s) →
  (first = true → ps = []) → step_adds q w w' ps' s.
Proof.
  unfold step. intros (found & _ & E)%bind_Ok Hps. destruct found as [n|ce n|ce|n|n].
  - by eapply node_step_adds.
  - by eapply node_step_adds.
  - apply bind_Ok in E as ([w1 ok] & (r & Hg & Hs)%(negative_grew q) & E). destruct ok; injection E as <- <- <- <-; by eapply adds_authority.
  - destruct first; [|injection E as <- <- <- <-; eapply adds_answer; [apply grew_refl|done]].
    destruct (referral digest w z n dnssec ps) as [[w1 ps1] ok] eqn:Er. apply (referral_grew q) in Er as (Hps1 & b & c & Hg & Hs).
    injection E as <- <- <- <-. exists [], b, c. split_and!; [done|done|]. destruct ok; [|done]. right. rewrite (Hps eq_refl) in Hps1. by destruct Hps1.
  - apply bind_Ok in E as (dname & _ & (target & _ & E)%bind_Ok). destruct (write_rrset_signed w SAnswer (nd_owner n) dname dnssec) as [w1 ok] eqn:E1.
    apply (write_set_grew q) in E1 as (r & Hg & Hs & _). destruct ok; cbn [negb] in E; [|injection E as <- <- <- <-; by eapply adds_answer].
    destruct (synth_dname name (nd_owner n) target) as [next|]; [|injection E as <- <- <- <-; by eapply adds_answer].
    destruct (w_rr w1 SAnswer name T_CNAME (rs_ttl dname) next) as [w2|] eqn:E2; injection E as <- <- <- <-; [|by eapply adds_answer].
    eapply adds_answer; [eapply grew_trans; [done|by apply w_rr_grew]|]. apply Forall_app. by repeat constructor.
Qed.

(** ** No step panics *)
Lemma negative_total os w z dnssec : zone_shape os z → ∃ r, negative w z dnssec = Ok r.
Proof.
  intros [(_ & _ & Ek & _) _ _ (n & s & d & En & Es & Ed & Eser) _]. unfold negative, node_by_key. rewrite Ek, En. cbn [or_panic mbind res_bind].
  rewrite Es. cbn [or_panic mbind res_bind]. rewrite Ed. cbn [head or_panic mbind res_bind].
  assert (4 ≤ len d) as Hd.
  { unfold soa_serial in Eser. apply bind_Some in Eser as (m & _ & (r & _ & E)%bind_Some). destruct (Z.eqb_spec (len (drop (Z.to_nat (m + r)) d)) 20) as [El|]; [|done].
    unfold len in *. rewrite length_drop in El. lia. }
  rewrite (proj2 (Z.ltb_ge _ _)) by done. destruct (get32_long (drop (Z.to_nat (len d - 4)) d)) as [v Ev]; [rewrite len_drop; lia|].
  rewrite Ev. cbn [or_panic mbind res_bind]. eauto.
Qed.
Lemma node_get_head n t s : node_get n t = Some s → ∃ d, head (rs_rdata s) = Some d.
Proof. intros (_ & _ & H)%node_get_Some. destruct (rs_rdata s); [done|]. eauto. Qed.
Lemma node_step_total os w z name qtype dnssec aa ps node ce : zone_shape os z → ∃ r, node_step digest w z name qtype dnssec aa ps node ce = Ok r.
Proof.
  intros Hz. unfold node_step. destruct (if qtype =? T_ANY then _ else _) as [[i s0]|].
  { destruct (write_rrset_signed _ _ _ _ _) as [w1 [|]]; eauto. }
  destruct (if negb _ && _ then _ else _) as [c|] eqn:Ec.
  { destruct (write_rrset_signed _ _ _ _ _) as [w1 [|]]; [|eauto]. destruct (negb _ && _); [|done]. apply node_get_head in Ec as [d ->]. simpl. eauto. }
  destruct (node_get node qtype) as [s0|]; [destruct (write_rrset_signed _ _ _ _ _) as [w1 [|]]; eauto|].
  destruct (negative_total os w z dnssec Hz) as [[w1 ok] ->]. simpl. destruct ok; eauto.
Qed.
Lemma lookup_loop_dname z qtype total at_depth enc ds n : lookup_loop z qtype total at_depth enc ds = LDname n → node_get n T_DNAME ≠ None.
Proof.
  revert enc. induction ds as [|d ds IH]; intros enc; cbn [lookup_loop]; [done|]. destruct (node_by_key z _) as [n1|].
  - destruct (is_cut n1 && _); [done|]. destruct (negb _ && bool_decide (node_get n1 T_DNAME ≠ None)) eqn:E; [|apply IH].
    intros [= ->]. apply andb_true_iff in E as [_ ?%bool_decide_eq_true]. done.
  - by repeat case_match.
Qed.
Lemma step_total os w z name qtype first dnssec aa ps : zone_shape os z → ∃ r, step digest w z name qtype first dnssec aa ps = Ok r.
Proof.
  intros Hz. pose proof Hz as [(_ & _ & Ek & _) _ _ (n & s & d & En & _) _]. unfold step, lookup, node_by_key at 1. rewrite Ek, En. cbn [or_panic mbind option_bind res_bind].
  destruct (lookup_loop _ _ _ _ _ _) as [n1|ce n1|ce|n1|n1] eqn:El.
  - by eapply node_step_total.
  - by eapply node_step_total.
  - destruct (negative_total os w z dnssec Hz) as [[w1 ok] ->]. simpl. destruct ok; eauto.
  - destruct first; [|eauto]. destruct (referral _ _ _ _ _ _) as [[w1 ps1] ok]. eauto.
  - apply lookup_loop_dname in El. destruct (node_get n1 T_DNAME) as [dn|] eqn:Ed; [|done]. apply node_get_head in Ed as [t Et]. cbn [or_panic mbind res_bind].
    rewrite Et. cbn [or_panic mbind res_bind]. destruct (write_rrset_signed _ _ _ _ _) as [w1 [|]]; cbn [negb]; [|eauto].
    destruct (synth_dname _ _ _); [|eauto]. destruct (w_rr _ _ _ _ _ _); eauto.
Qed.
Lemma is_signed_total os z : zone_shape os z → ∃ b, is_signed z = Some b.
Proof. intros [(_ & _ & Ek & _) _ _ (n & s & d & En & _) _]. unfold is_signed, node_by_key. rewrite Ek, En. simpl. eauto. Qed.

(** ** Responses *)
(** A message of [q] within [limit]: records in the order of the sections, none of them when truncated. *)
Definition response (q : Question) (limit : Z) (ra : bool) (m : bytes) : Prop :=
  ∃ w a b c rcode aa, m = w_finish w rcode aa ra ∧ wrote q (a ++ b ++ c) w ∧ sections a b c ∧ w_limit w ≤ limit ∧ (w_tc w = true → a ++ b ++ c = []).
Lemma cleared_wrote q rrs w : wrote q rrs w → wrote q [] (w_truncate w) ∧ wrote q [] (w_reset w).
Proof.
  intros [Hm Hc He Hl Hq Hr]. assert (take (Z.to_nat (w_question_end w)) (w_msg w) = question_bytes q) as Et.
  { rewrite Hm, He, <- len_question_bytes, to_nat_len. apply take_app_length. }
  assert (len (question_bytes q) ≤ w_limit w) as Hlq by (rewrite Hm in Hl; len_lia).
  split; split; simpl; rewrite ?Et; auto; by rewrite ?app_nil_r || by intros [].
Qed.
Lemma response_cleared q limit ra rrs w rcode aa : wrote q rrs w → w_limit w ≤ limit → w_tc w = false →
  response q limit ra (w_finish (w_truncate w) rcode aa ra) ∧ response q limit ra (w_finish (w_reset w) rcode aa ra).
Proof.
  intros [Ht Hr]%cleared_wrote Hl Htc. split; [exists (w_truncate w)|exists (w_reset w)]; exists [], [], [], rcode, aa; split_and!; try done; by simpl; congruence.
Qed.
Lemma finish_response q limit ra a b c w ps rcode aa : wrote q (a ++ b ++ c) w → sections a b c → w_limit w ≤ limit → w_tc w = false → c = [] ∨ ps = [] →
  response q limit ra (finish w ps rcode aa ra).
Proof.
  intros Hw [Ha Hb Hc] Hl Htc Hor. unfold finish. destruct (proofs_write w ps) as [w1 ok] eqn:E. pose proof E as (r & Hg & Hs)%(proofs_write_grew q).
  destruct (Hg _ Hw) as (Hw1 & El & Et). destruct ok; [|apply (response_cleared q limit ra _ w1 RCODE_NOERROR aa Hw1); congruence].
  destruct Hor as [-> | ->].
  - exists w1, a, (b ++ r), [], rcode, aa. rewrite !app_nil_r in *. rewrite <- app_assoc in Hw1. split_and!; [done|done|split; [done|by apply Forall_app|done]|lia|congruence].
  - injection E as <-. exists w, a, b, c, rcode, aa. split_and!; [done..|congruence].
Qed.

Definition zones_ok (set : gmap bytes (EZone Policy)) : Prop := map_Forall (λ k z, ez_origin z = k ∧ ∃ os, zone_shape os z) set.
Lemma find_loop_in set fuel lower z : find_loop fuel set lower = Some z → ∃ k, set !! k = Some z.
Proof.
  revert lower. induction fuel as [|fuel IH]; intros [|l lower]; cbn [find_loop]; [done..|]. destruct (set !! (l :: lower)) as [z0|] eqn:E; [intros [= <-]; eauto|].
  destruct (l =? 0); [done|apply IH].
Qed.
Lemma find_in set lower z : find_zone set lower = Some z → ∃ k, set !! k = Some z.
Proof. apply find_loop_in. Qed.
Lemma respond_loop_response q limit set qtype do_bit ra fuel w aa ps seen z name first a :
  zones_ok set → (∃ os, zone_shape os z) → wrote q a w → Forall (λ r, wr_section r = SAnswer) a → w_limit w ≤ limit → w_tc w = false →
  (first = true → ps = []) → (1 ≤ fuel)%nat → (fuel + length seen = S (S MAX_CHAIN))%nat →
  ∃ m, respond_loop digest fuel set qtype do_bit ra w aa ps seen z name first = Ok (Done m) ∧ response q limit ra m.
Proof.
  intros Hset. revert w aa ps seen z name first a. induction fuel as [|fuel IH]; intros w aa ps seen z name first a [os Hz] Hw Ha Hl Htc Hps Hf Hfs; [lia|].
  cbn [respond_loop]. destruct (is_signed_total os z Hz) as [sg ->]. cbn [or_panic mbind res_bind].
  destruct (step_total os w z name qtype first (do_bit && sg) aa ps Hz) as [[[[w1 aa1] ps1] s] E]. rewrite E. cbn [mbind res_bind].
  apply (step_step_adds q) in E as (a1 & b & c & Hg & [Ha1 Hb Hc] & Hs); [|done]. destruct (Hg _ Hw) as (Hw1 & El & Et). rewrite app_assoc in Hw1.
  assert (Forall (λ r, wr_section r = SAnswer) (a ++ a1)) as Haa by by apply Forall_app.
  destruct s as [[target|rcode]|].
  - destruct Hs as [-> ->]. assert (∀ rc, response q limit ra (finish w1 ps1 rc aa1 ra)) as Hfin.
    { intros rc. eapply finish_response; [exact Hw1|split; [done..|constructor]|lia|congruence|auto]. }
    case_bool_decide; [eexists; split; [done|]; eapply response_cleared; [exact Hw1|lia|congruence]|].
    destruct (find_zone set _) as [z1|] eqn:Ez; [|eauto]. destruct (_ || _) eqn:Eo; [eauto|]. apply orb_false_iff in Eo as [Hlen%Nat.eqb_neq _].
    apply find_in in Ez as [k Ek]. rewrite !app_nil_r in Hw1. unfold MAX_CHAIN in *.
    eapply IH; [by apply (Hset _ _ Ek)|exact Hw1|done|lia|congruence|done|lia|rewrite length_app; simpl; lia].
  - eexists. split; [done|]. eapply finish_response; [exact Hw1|done|lia|congruence|done].
  - eexists. split; [done|]. eapply response_cleared; [exact Hw1|lia|congruence].
Qed.

(** C11: Every query is answered.  For zones the loader built and any question, [respond] neither panics
    nor runs on: it says that no hosted zone has the name, or gives a message of at most the allowed
    length, empty when not even the question fits, which repeats the question and whose records stand
    in the order answer, authority, additional; a truncated message has none. *)
Theorem respond_total set q out_len max_len ra : zones_ok set → ∃ s, respond digest set q out_len max_len ra = Ok s ∧
  match s with
  | NotHosted => q_qclass q ≠ CLASS_IN ∨ find_for_query set (lowercase_into (q_qname q)) (q_qtype q) = None
  | Done m => m = [] ∨ response q (Z.min max_len out_len) ra m
  end.
Proof.
  intros Hset. unfold respond. destruct (Z.eqb_spec (q_qclass q) CLASS_IN); cbn [negb]; [|eexists; split; [done|by left]].
  destruct (find_for_query _ _ _) as [z|] eqn:Ez; [|eexists; split; [done|by right]].
  destruct (writer_new out_len max_len q) as [w|] eqn:Ew; [|eexists; split; [done|by left]]. pose proof (writer_new_wrote _ _ _ _ Ew) as Hw.
  assert (w_limit w = Z.min max_len out_len ∧ w_tc w = false) as [Hl Htc] by (unfold writer_new in Ew; destruct (_ <? _); [done|]; by injection Ew as <-).
  assert (∃ k, set !! k = Some z) as [k Ek].
  { unfold find_for_query in Ez. apply bind_Some in Ez as (z0 & Ez0%find_in & Ez). destruct (_ && _); [|by injection Ez as <-].
    destruct (find_zone set (drop _ _)) as [z1|] eqn:Ez1; injection Ez as <-; [by eapply find_in|done]. }
  destruct (ez_expired z).
  - eexists. split; [done|]. right. exists w, [], [], [], RCODE_SERVFAIL, false. split_and!; [done..|lia|congruence].
  - edestruct (respond_loop_response q (Z.min max_len out_len)) as (m & -> & Hm);
      [exact Hset|by apply (Hset _ _ Ek)|exact Hw|constructor|lia|done|done|unfold MAX_CHAIN; lia|done|]. eexists. split; [done|]. by right.
Qed.
End steps.

(** ** What fits *)
(** The question and the records, encoded, are within the limit, and no record data is too long. *)
Definition fits (limit : Z) (q : Question) (rrs : list WRR) : Prop :=
  len (question_bytes q) + len (concat (map (rr_bytes (q_qname q)) rrs)) ≤ limit ∧ Forall (λ r, len (wr_rdata r) ≤ 65535) rrs.
#[export] Instance fits_dec limit q rrs : Decision (fits limit q rrs).
Proof. unfold fits. apply _. Defined.
Lemma fits_app limit q a b : fits limit q (a ++ b) → fits limit q a.
Proof. intros [H1 [H2 _]%Forall_app]. split; [|done]. rewrite map_app, concat_app in H1. len_lia. Qed.
Lemma wrote_fits q rrs w : wrote q rrs w → fits (w_limit w) q rrs.
Proof. intros [Hm _ _ Hl _ Hd]. split; [|done]. rewrite Hm, len_app in Hl. done. Qed.
(** A record that is not written does not fit. *)
Lemma w_rr_None q rrs w s o t ttl d : wrote q rrs w → w_rr w s o t ttl d = None → ¬ fits (w_limit w) q (rrs ++ [mkWRR s o t ttl d]).
Proof.
  intros [Hm _ _ Hl Hq _] E [Hf [_ [Hd _]%Forall_cons]%Forall_app]. cbn [wr_rdata] in Hd. rewrite map_app, concat_app, len_app in Hf. cbn [map concat] in Hf. rewrite app_nil_r in Hf. unfold rr_bytes at 2 in Hf. cbn [wr_owner wr_rtype wr_ttl wr_rdata] in Hf.
  rewrite <- Hq in Hf. set (nb := name_bytes (w_qname w) o) in *. assert (len (w_msg w) + len (nb ++ put16 t ++ put16 1 ++ put32 ttl ++ put16 (len d) ++ d) ≤ w_limit w) as Hf'.
  { rewrite Hm, <- Hq, len_app. lia. }
  assert (∀ w b, len (w_msg w) + len b ≤ w_limit w → w_put w b = Some (mkWriter (w_limit w) (w_msg w ++ b) (w_question_end w) (w_answer w) (w_authority w) (w_additional w) (w_tc w) (w_qname w))) as Hput.
  { intros w0 b Hb. by apply w_put_Some. }
  unfold w_rr in E. rewrite (proj2 (put_name_Some w o _) (Hput w nb ltac:(len_lia))) in E. cbn [mbind option_bind] in E. rewrite (proj2 (Z.ltb_ge _ _) Hd) in E.
  rewrite Hput in E by (cbn [w_msg w_limit]; len_lia). cbn [mbind option_bind] in E. rewrite Hput in E by (cbn [w_msg w_limit]; len_lia). done.
Qed.
(** Records are written in order until one does not fit. *)
Definition attempts (q : Question) (w w' : Writer) (all : list WRR) (ok : bool) : Prop := ∀ rrs0, wrote q rrs0 w → ∃ rrs, rrs `prefix_of` all ∧
  wrote q (rrs0 ++ rrs) w' ∧ w_limit w' = w_limit w ∧ w_tc w' = w_tc w ∧ if ok then rrs = all else ¬ fits (w_limit w) q (rrs0 ++ all).
Lemma attempts_nil q w : attempts q w w [] true.
Proof. intros rrs0 H. exists []. by rewrite app_nil_r. Qed.
Lemma attempts_app q w1 w2 w3 a b ok : attempts q w1 w2 a true → attempts q w2 w3 b ok → attempts q w1 w3 (a ++ b) ok.
Proof.
  intros H1 H2 rrs0 H. destruct (H1 _ H) as (r1 & _ & Hw1 & L1 & T1 & ->). destruct (H2 _ Hw1) as (r2 & Hp & Hw2 & L2 & T2 & Hok). exists (a ++ r2).
  rewrite <- app_assoc in Hw2. split_and!; [by apply prefix_app|done|congruence|congruence|]. destruct ok; [congruence|]. by rewrite L1, <- app_assoc in Hok.
Qed.
Lemma attempts_fail q w w' a b : attempts q w w' a false → attempts q w w' (a ++ b) false.
Proof.
  intros H1 rrs0 H. destruct (H1 _ H) as (r & Hp & Hw & L & T & Hok). exists r. split_and!; [by apply prefix_app_r|done..|]. intros Hf. apply Hok. rewrite app_assoc in Hf. by apply fits_app in Hf.
Qed.
Lemma write_all_attempts q w s o t ttl ds w' ok : write_all w s o t ttl ds = (w', ok) → attempts q w w' (map (mkWRR s o t ttl) ds) ok.
Proof.
  revert w. induction ds as [|d ds IH]; intros w; cbn [write_all]; [intros [= <- <-]; apply attempts_nil|]. change (map (mkWRR s o t ttl) (d :: ds)) with ([mkWRR s o t ttl d] ++ map (mkWRR s o t ttl) ds).
  destruct (w_rr w s o t ttl d) as [w1|] eqn:E.
  - intros H%IH. eapply attempts_app; [|done]. intros rrs0 Hw. destruct (w_rr_wrote _ _ _ _ _ _ _ _ _ Hw E) as (? & ? & ?). exists [mkWRR s o t ttl d]. done.
  - intros [= <- <-]. apply attempts_fail. intros rrs0 Hw. exists []. rewrite app_nil_r. split_and!; [apply prefix_nil|done..|]. by apply (w_rr_None q rrs0).
Qed.
Lemma write_set_attempts q w s o set ttl w' ok : write_rrset_signed_ttl w s o set ttl false = (w', ok) → attempts q w w' (set_rrs s o set ttl false) ok.
Proof.
  unfold write_rrset_signed_ttl, set_rrs. rewrite app_nil_r. destruct (write_all w s o (rs_rtype set) ttl (rs_rdata set)) as [w1 ok1] eqn:E. apply (write_all_attempts q) in E. destruct ok1; cbn [negb]; by intros [= <- <-].
Qed.

(** ** Answers without a chain *)
Section direct.
Context {Policy : Type} (digest : bytes → bytes) (os : list bytes) (S : list record).
(** The zone has a record of the type at a name below the origin. *)
Definition data (b : list bytes) (t : Z) : Prop := ∃ d ttl, has_data_of S (key_of (b ++ os)) t d ttl.
(** The records of one name and type, under the name of the query. *)
Definition answer_rrs (k name : bytes) (qtype : Z) (rrs : list WRR) : Prop :=
  rrs ≠ [] ∧ NoDup rrs ∧ ∀ r, r ∈ rrs ↔ ∃ d ttl, r = mkWRR SAnswer name qtype ttl d ∧ has_data_of S k qtype d ttl.
(** The SOA with the lesser of its time to live and its last field (RFC 2308). *)
Definition negative_rrs (rrs : list WRR) : Prop := ∃ d ttl minimum, has_data_of S (key_of os) T_SOA d ttl ∧
  get32 (drop (Z.to_nat (len d - 4)) d) = Some minimum ∧ rrs = [mkWRR SAuthority (wire_name os) T_SOA (Z.min ttl minimum) d].
(** A name's answer: its records of the type, or that there are none. *)
Definition node_answer (k name : bytes) (qtype : Z) (rrs : list WRR) : Prop :=
  answer_rrs k name qtype rrs ∨ ((∀ d ttl, ¬ has_data_of S k qtype d ttl) ∧ negative_rrs rrs).
(** No delegation at or above the name; one at the name itself does not count for DS. *)
Definition undelegated (p : list bytes) (qtype : Z) : Prop := ∀ a b, p = a ++ b → b ≠ [] → ¬ (a = [] ∧ qtype = T_DS) → ¬ data b T_NS.
(** The delegation that answers for the name: the topmost one. *)
Definition delegated (p : list bytes) (qtype : Z) (b : list bytes) : Prop := ∃ a, p = a ++ b ∧ b ≠ [] ∧ ¬ (a = [] ∧ qtype = T_DS) ∧ data b T_NS ∧ ∀ c d, b = c ++ d → c ≠ [] → d ≠ [] → ¬ data d T_NS.
(** The NS records of a delegation, and the addresses of the name servers that are in the zone; owners are spelled as in the zone. *)
Definition referral_rrs (b : list bytes) (ns glue : list WRR) : Prop := ∃ own : bytes → bytes, (∀ k t d ttl, has_data_of S k t d ttl → canon_key_buf (own k) = k) ∧
  NoDup ns ∧ (∀ r, r ∈ ns ↔ ∃ d ttl, r = mkWRR SAuthority (own (key_of (b ++ os))) T_NS ttl d ∧ has_data_of S (key_of (b ++ os)) T_NS d ttl) ∧
  (∀ r, r ∈ glue ↔ ∃ target v t d ttl, has_data_of S (key_of (b ++ os)) T_NS target v ∧ is_subdomain target (wire_name os) = true ∧ (t = T_A ∨ t = T_AAAA) ∧
     has_data_of S (canon_key_buf target) t d ttl ∧ r = mkWRR SAdditional (own (canon_key_buf target)) t ttl d).
(** What RFC 1034 4.3.2 has a zone with the records [S] answer: response code, AA, records and glue. *)
Inductive dictated (p : list bytes) (name : bytes) (qtype : Z) : Z → bool → list WRR → list WRR → Prop :=
  | dict_exact rrs : undelegated p qtype → exists_in os S p → node_answer (key_of (p ++ os)) name qtype rrs → dictated p name qtype RCODE_NOERROR true rrs []
  | dict_wildcard b rrs : undelegated p qtype → ¬ exists_in os S p → encloses os S p b → exists_in os S ([42] :: b) → node_answer (key_of ([42] :: b ++ os)) name qtype rrs → dictated p name qtype RCODE_NOERROR true rrs []
  | dict_nxdomain b rrs : undelegated p qtype → ¬ exists_in os S p → encloses os S p b → ¬ exists_in os S ([42] :: b) → negative_rrs rrs → dictated p name qtype RCODE_NXDOMAIN true rrs []
  | dict_referral b ns glue : delegated p qtype b → referral_rrs b ns glue → dictated p name qtype RCODE_NOERROR false ns glue.
(** The name is not an alias: no DNAME above it, and no CNAME at it or at the wildcard that answers for it. *)
Definition no_alias (p : list bytes) (qtype : Z) : Prop := (∀ a b, p = a ++ b → a ≠ [] → b ≠ [] → ¬ data b T_DNAME) ∧
  (qtype ≠ T_CNAME → ¬ data p T_CNAME ∧ ∀ b, encloses os S p b → ¬ data ([42] :: b) T_CNAME).

Context (z : EZone Policy) (Hz : zone_of os S z).
Lemma set_rrs_data n t s sec o : sets_ok (nd_rrsets n) → node_get n t = Some s →
  set_rrs sec o s (rs_ttl s) false ≠ [] ∧ NoDup (set_rrs sec o s (rs_ttl s) false) ∧
  ∀ r, r ∈ set_rrs sec o s (rs_ttl s) false ↔ ∃ d ttl, r = mkWRR sec o t ttl d ∧ set_data (nd_rrsets n) t d ttl.
Proof.
  intros Hok Hs. pose proof (node_get_data n t s Hok Hs) as Hd. pose proof Hs as (Hin & Et & Hne)%node_get_Some. unfold set_rrs. rewrite app_nil_r. split_and!.
  - by destruct (rs_rdata s).
  - apply NoDup_fmap_2; [by intros d1 d2 [= ->]|]. destruct Hok as [_ Hok]. rewrite Forall_forall in Hok. by apply Hok.
  - intros r. rewrite Et. rewrite list_elem_of_fmap. split.
    + intros (d & -> & Hin'). exists d, (rs_ttl s). split; [done|]. by apply Hd.
    + intros (d & ttl & -> & [Hin' ->]%Hd). eauto.
Qed.
Lemma zone_soa : ∃ apex s d, node_by_key z (ez_apex_key z) = Some apex ∧ node_get apex T_SOA = Some s ∧ rs_rdata s = [d] ∧ ez_origin z = wire_name os ∧
  has_data_of S (key_of os) T_SOA d (rs_ttl s).
Proof.
  destruct Hz as [[(_ & Eo & Ek & _) Hok _ (n & s & d & En & Es & Ed & _) _] HS _ _]. exists n, s, d. unfold node_by_key. rewrite Ek. split_and!; [done..|].
  apply (node_data z S _ n HS En). destruct (Hok _ _ En) as [_ Hs]. apply (node_get_data n T_SOA s Hs Es). rewrite Ed. set_solver.
Qed.
Lemma negative_direct q w w' ok : negative w z false = Ok (w', ok) → ∃ rrs, attempts q w w' rrs ok ∧ negative_rrs rrs.
Proof.
  destruct zone_soa as (apex & s & d & Ea & Es & Ed & Eo & Hd). unfold negative. rewrite Ea. cbn [or_panic mbind res_bind]. rewrite Es. cbn [or_panic mbind res_bind].
  rewrite Ed. cbn [head or_panic mbind res_bind]. destruct (len d <? 4); [done|]. destruct (get32 _) as [m|] eqn:Em; [|done]. cbn [or_panic mbind res_bind].
  intros [= E]. apply (write_set_attempts q) in E. eexists. split; [exact E|].
  exists d, (rs_ttl s), m. split_and!; [done..|]. unfold set_rrs. rewrite Ed, Eo, app_nil_r. simpl. by apply node_get_Some in Es as (_ & -> & _).
Qed.
(** *** The names of the zone *)
Lemma node_keyed k n : ez_nodes z !! k = Some n → canon_key_buf (nd_owner n) = k ∧ ∃ b, k = key_of (b ++ os).
Proof.
  intros En. pose proof Hz as [Hsh _ _ _]. pose proof (shape_origin os z Hsh) as Hos. destruct (zs_in os z Hsh _ _ En) as [b Hb]. destruct (named_key os b _ Hos Hb) as [Ek _]. destruct (zs_nodes os z Hsh _ _ En) as [Eo _].
  assert (k = key_of (b ++ os)) as -> by congruence. split; [by apply (node_at_owner os z Hsh b n En)|eauto].
Qed.
Lemma data_node k t d ttl : has_data_of S k t d ttl → ∃ n, ez_nodes z !! k = Some n.
Proof. intros Hd. destruct Hz as [_ (_ & HS & _) _ _]. apply HS in Hd as (n & En & _). eauto. Qed.
Lemma node_get_of k n t : ez_nodes z !! k = Some n → node_get n t ≠ None ↔ ∃ d ttl, has_data_of S k t d ttl.
Proof. intros En. destruct Hz as [_ HS _ _]. rewrite node_get_None. by setoid_rewrite (node_data z S k n HS En). Qed.
Lemma cut_data b n : ez_nodes z !! key_of (b ++ os) = Some n → Forall (Forall is_byte) (b ++ os) → is_cut n = true ↔ b ≠ [] ∧ data b T_NS.
Proof.
  intros En Hb. pose proof Hz as [Hsh _ _ _]. destruct (node_at_owner os z Hsh b n En) as (_ & _ & p & Hp & Ek & Hpb). destruct (zs_flags os z Hsh _ _ p En Hp) as [Hc _].
  rewrite Hc. unfold data. rewrite <- (node_get_of _ _ T_NS En). pose proof (proj1 (named_lower os p b Hpb Hb) Ek) as El. destruct p, b; [tauto|done|done|naive_solver].
Qed.
Lemma bytes_suffix a b : Forall (Forall is_byte) ((a ++ b) ++ os) → Forall (Forall is_byte) (b ++ os).
Proof. rewrite <- app_assoc. by intros [_ ?]%Forall_app. Qed.
Lemma clear_data b : Forall (Forall is_byte) (b ++ os) → clear os z b → ∀ c d, b = c ++ d → c ≠ [] → d ≠ [] → ¬ data d T_NS ∧ ¬ data d T_DNAME.
Proof.
  intros Hb Hc c d -> Hne Hd. destruct (Hc c d eq_refl Hne Hd) as (n & En & Hcut & Hdn). split.
  - intros Hns. apply not_true_iff_false in Hcut. apply Hcut. apply (cut_data d n En); [by eapply bytes_suffix|done].
  - intros Hx. by apply (node_get_of _ _ T_DNAME En) in Hx.
Qed.
(** A name missing below [b]: nothing is at or below it, and no delegation above it. *)
Lemma missing_undelegated p qtype a l b : Forall (Forall is_byte) (p ++ os) → p = a ++ l :: b → clear os z (l :: b) → ez_nodes z !! key_of ((l :: b) ++ os) = None → undelegated p qtype.
Proof.
  intros Hb Ep Hc Hn x y Exy Hy _ Hns. rewrite Ep in Exy. destruct (app_eq_inv _ _ _ _ Exy) as [(k & Ea & Ey)|(k & Ex & Ey)].
  - assert (exists_in os S y) as Hx.
    { apply (zone_exists os S z Hz); [rewrite Ep, Exy in Hb; by apply bytes_suffix in Hb|]. destruct Hns as (d & ttl & Hd). apply data_node in Hd as [n Hd]. by rewrite Hd. }
    rewrite Ey in Hx. apply exists_above in Hx. apply (zone_exists os S z Hz) in Hx; [done|]. rewrite Ep in Hb. by apply bytes_suffix in Hb.
  - destruct k as [|x0 k].
    + simpl in Ey. rewrite <- Ey in Hns. destruct Hns as (d & ttl & Hd). apply data_node in Hd as [n Hd]. congruence.
    + rewrite Ep in Hb. apply bytes_suffix in Hb. by destruct (clear_data _ Hb Hc _ _ Ey) as [Hno _].
Qed.
(** What the lookup finds is what the records say. *)
Definition looked_records (p : list bytes) (qtype : Z) (r : Lookup) : Prop :=
  match r with
  | LExact n => undelegated p qtype ∧ exists_in os S p ∧ ez_nodes z !! key_of (p ++ os) = Some n
  | LWildcard _ n => undelegated p qtype ∧ ¬ exists_in os S p ∧ ∃ b, encloses os S p b ∧ exists_in os S ([42] :: b) ∧ ez_nodes z !! key_of ([42] :: b ++ os) = Some n
  | LNxDomain _ => undelegated p qtype ∧ ¬ exists_in os S p ∧ ∃ b, encloses os S p b ∧ ¬ exists_in os S ([42] :: b)
  | LDelegation n => ∃ b, delegated p qtype b ∧ ez_nodes z !! key_of (b ++ os) = Some n
  | LDname _ => ∃ a b, p = a ++ b ∧ a ≠ [] ∧ b ≠ [] ∧ data b T_DNAME
  end.
Lemma star_bytes b : Forall (Forall is_byte) (b ++ os) → Forall (Forall is_byte) (([42] :: b) ++ os).
Proof. intros Hb. constructor; [|done]. by repeat constructor. Qed.
Lemma lookup_looked p name qtype : named os p name → ∃ r, lookup z name qtype = Some r ∧ looked_records p qtype r.
Proof.
  intros Hp. pose proof Hz as [Hsh _ _ _]. destruct (lookup_walks os z Hsh p name qtype Hp) as (r & Er & Hr). exists r. split; [done|]. destruct (named_key os p name (shape_origin os z Hsh) Hp) as [_ Hb].
  destruct r as [n|ce n|ce|n|n]; simpl in Hr |- *.
  - destruct Hr as (Hc & En & Hds). split_and!; [|apply (zone_exists os S z Hz); [done|by rewrite En]|done]. intros a b -> Hne Hno Hns. destruct a as [|x a].
    + apply Hno. split; [done|]. apply Hds. by apply (cut_data b n En Hb).
    + by destruct (clear_data _ Hb Hc (x :: a) b) as [Hnc _].
  - destruct Hr as (a & l & b & Ep & Hc & Hn & Hce & Hw). destruct (missing_encloses os S z Hz p a l b) as [He Hx]; [done..|congruence|]. split_and!; [by eapply missing_undelegated|done|]. exists b. split_and!; [done| |done].
    apply (zone_exists os S z Hz); [|simpl; by rewrite Hw]. apply star_bytes. rewrite Ep in Hb. apply bytes_suffix in Hb. by apply Forall_cons in Hb as [_ ?].
  - destruct Hr as (a & l & b & Ep & Hc & Hn & Hce & Hw). destruct (missing_encloses os S z Hz p a l b) as [He Hx]; [done..|congruence|]. split_and!; [by eapply missing_undelegated|done|]. exists b. split; [done|].
    rewrite <- (zone_exists os S z Hz); [intros H; apply H; exact Hw|]. apply star_bytes. rewrite Ep in Hb. apply bytes_suffix in Hb. by apply Forall_cons in Hb as [_ ?].
  - destruct Hr as (a & b & -> & Hne & Hc & En & Hcut & Hds). exists b. split; [|done]. pose proof (bytes_suffix _ _ Hb) as Hbb. exists a. split_and!; [done..|by apply (cut_data b n En Hbb)|]. intros c d E Hcn Hdn. by apply (clear_data b Hbb Hc c d E).
  - destruct Hr as (a & b & -> & Ha & Hne & _ & En & _ & Hdn). exists a, b. split_and!; [done..|]. by apply (node_get_of _ _ T_DNAME En).
Qed.

(** *** The steps *)
Lemma node_direct q w name qtype aa k n ce w' aa' ps' s : ez_nodes z !! k = Some n → qtype ≠ T_ANY → (qtype ≠ T_CNAME → node_get n T_CNAME = None) →
  node_step digest w z name qtype false aa [] n ce = Ok (w', aa', ps', s) →
  aa' = aa ∧ ps' = [] ∧ ∃ rrs ok, attempts q w w' rrs ok ∧ s = (if ok then Some (Stop RCODE_NOERROR) else None) ∧ node_answer k name qtype rrs.
Proof.
  intros En Hany Hcn. pose proof Hz as [Hsh HS _ _]. pose proof (node_data z S k n HS En) as Hd. destruct (zs_nodes os z Hsh k n En) as [_ Hs].
  assert ((if negb (qtype =? T_CNAME) && negb (qtype =? T_ANY) then node_get n T_CNAME else None) = None) as Ec.
  { destruct (Z.eqb_spec qtype T_CNAME) as [|Hq]; [done|]. destruct (negb _ && _); [auto|done]. }
  unfold node_step. rewrite Ec, (proj2 (Z.eqb_neq _ _) Hany). destruct (node_get n qtype) as [st|] eqn:Eg.
  - destruct (write_rrset_signed w SAnswer name st false) as [w1 ok] eqn:E1. apply (write_set_attempts q) in E1.
    intros E. assert (w1 = w' ∧ aa' = aa ∧ ps' = [] ∧ s = if ok then Some (Stop RCODE_NOERROR) else None) as (<- & -> & -> & ->) by (destruct ok; by injection E as <- <- <- <-).
    split_and!; [done..|]. eexists _, ok. split_and!; [exact E1|done|]. left. destruct (set_rrs_data n qtype st SAnswer name Hs Eg) as (? & ? & Hr). split_and!; [done..|]. intros x. rewrite Hr. by setoid_rewrite Hd.
  - intros ([w1 ok] & (r & Hg & Hneg)%(negative_direct q) & E)%bind_Ok.
    assert (w1 = w' ∧ aa' = aa ∧ ps' = [] ∧ s = if ok then Some (Stop RCODE_NOERROR) else None) as (<- & -> & -> & ->) by (destruct ok; by injection E as <- <- <- <-).
    split_and!; [done..|]. exists r, ok. split_and!; [done..|]. right. split; [|done]. intros d ttl Hx%Hd. by apply (proj2 (node_get_None n qtype)); eauto.
Qed.
(** The glue records in the order they are written. *)
Definition glue_of (n : Node) (types : list Z) : list WRR := concat (map (λ t, match node_get n t with Some s => set_rrs SAdditional (nd_owner n) s (rs_ttl s) false | None => [] end) types).
Definition glue_all (targets : list bytes) : list WRR :=
  concat (map (λ t, if is_subdomain t (ez_origin z) then match zone_node z t with Some n => glue_of n [T_A; T_AAAA] | None => [] end else []) targets).
Lemma glue_types_attempts q w n ts w' ok : glue_types w n ts = (w', ok) → attempts q w w' (glue_of n ts) ok.
Proof.
  revert w. induction ts as [|t ts IH]; intros w; cbn [glue_types]; [intros [= <- <-]; apply attempts_nil|]. unfold glue_of. cbn [map concat]. fold (glue_of n ts). destruct (node_get n t) as [s|]; [|apply IH].
  destruct (write_rrset_signed w SAdditional (nd_owner n) s false) as [w1 ok1] eqn:E. apply (write_set_attempts q) in E. destruct ok1; [intros H%IH; by eapply attempts_app|]. intros [= <- <-]. by apply attempts_fail.
Qed.
Lemma glue_attempts q w ts : ∃ ok, attempts q w (glue_targets w z ts) (glue_all ts) ok.
Proof.
  revert w. induction ts as [|t ts IH]; intros w; cbn [glue_targets]; [exists true; apply attempts_nil|]. unfold glue_all. cbn [map concat]. fold (glue_all ts). destruct (is_subdomain t (ez_origin z)); cbn [negb]; [|apply IH].
  destruct (zone_node z t) as [n|]; [|apply IH]. destruct (glue_types w n [T_A; T_AAAA]) as [w1 ok] eqn:E. apply (glue_types_attempts q) in E. destruct ok.
  - destruct (IH w1) as [ok H]. exists ok. by eapply attempts_app.
  - exists false. by apply attempts_fail.
Qed.
Definition spelled (k : bytes) : bytes := match ez_nodes z !! k with Some n => nd_owner n | None => [] end.
Lemma elem_glue_of k n r : ez_nodes z !! k = Some n → r ∈ glue_of n [T_A; T_AAAA] ↔ ∃ t d ttl, (t = T_A ∨ t = T_AAAA) ∧ has_data_of S k t d ttl ∧ r = mkWRR SAdditional (nd_owner n) t ttl d.
Proof.
  intros En. pose proof Hz as [Hsh HS _ _]. destruct (zs_nodes os z Hsh k n En) as [_ Hs]. pose proof (node_data z S k n HS En) as Hd.
  assert (∀ t, r ∈ match node_get n t with Some s => set_rrs SAdditional (nd_owner n) s (rs_ttl s) false | None => [] end ↔ ∃ d ttl, has_data_of S k t d ttl ∧ r = mkWRR SAdditional (nd_owner n) t ttl d) as Ht.
  { intros t. setoid_rewrite <- Hd. destruct (node_get n t) as [s|] eqn:Es; [destruct (set_rrs_data n t s SAdditional (nd_owner n) Hs Es) as (_ & _ & Hr); rewrite Hr; naive_solver|].
    split; [by intros ?%not_elem_of_nil|]. intros (d & ttl & Hx & _). exfalso. by apply (proj2 (node_get_None n t)); eauto. }
  unfold glue_of. cbn [map concat]. rewrite app_nil_r, elem_of_app, !Ht. naive_solver.
Qed.
Lemma elem_glue_all ts r : r ∈ glue_all ts ↔ ∃ target t d ttl, target ∈ ts ∧ is_subdomain target (wire_name os) = true ∧ (t = T_A ∨ t = T_AAAA) ∧ has_data_of S (canon_key_buf target) t d ttl ∧ r = mkWRR SAdditional (spelled (canon_key_buf target)) t ttl d.
Proof.
  destruct zone_soa as (_ & _ & _ & _ & _ & _ & Eo & _). induction ts as [|x ts IH]; [split; [by intros ?%not_elem_of_nil|intros (target & ? & ? & ? & ?%not_elem_of_nil & _); done]|].
  unfold glue_all. cbn [map concat]. fold (glue_all ts). rewrite elem_of_app, IH, Eo. setoid_rewrite elem_of_cons.
  assert (r ∈ (if is_subdomain x (wire_name os) then match zone_node z x with Some n => glue_of n [T_A; T_AAAA] | None => [] end else []) ↔
    ∃ t d ttl, is_subdomain x (wire_name os) = true ∧ (t = T_A ∨ t = T_AAAA) ∧ has_data_of S (canon_key_buf x) t d ttl ∧ r = mkWRR SAdditional (spelled (canon_key_buf x)) t ttl d) as Hx.
  2: { rewrite Hx. clear. split.
    - intros [(t & d & ttl & H)|(y & t & d & ttl & Hin & H)]; [exists x, t, d, ttl; split; [by left|done]|exists y, t, d, ttl; split; [by right|done]].
    - intros (y & t & d & ttl & [->|Hin] & H); [left; by exists t, d, ttl|right; by exists y, t, d, ttl]. }
  unfold spelled, zone_node, node_by_key. destruct (is_subdomain x (wire_name os)); [|split; [by intros ?%not_elem_of_nil|by intros (? & ? & ? & ? & _)]]. destruct (ez_nodes z !! canon_key_buf x) as [n|] eqn:En.
  - rewrite (elem_glue_of _ _ _ En). clear. split; [intros (t & d & ttl & H); by exists t, d, ttl|intros (t & d & ttl & _ & H); by exists t, d, ttl].
  - split; [by intros ?%not_elem_of_nil|]. intros (t & d & ttl & _ & _ & Hd & _). apply data_node in Hd as [n Hn]. congruence.
Qed.
Lemma referral_direct q w b n w' ps' ok : ez_nodes z !! key_of (b ++ os) = Some n → data b T_NS → referral digest w z n false [] = (w', ps', ok) →
  ps' = [] ∧ ∃ ns glue, referral_rrs b ns glue ∧ if ok then ∃ w1 okg, attempts q w w1 ns true ∧ attempts q w1 w' glue okg else attempts q w w' ns false.
Proof.
  intros En Hns. pose proof Hz as [Hsh HS _ _]. destruct (zs_nodes os z Hsh _ n En) as [_ Hs]. unfold referral. destruct (node_get n T_NS) as [ns|] eqn:Ens; [|by apply (node_get_of _ _ T_NS En) in Hns].
  destruct (set_rrs_data n T_NS ns SAuthority (nd_owner n) Hs Ens) as (_ & Hnd & Hr). pose proof (node_data z S _ n HS En) as Hd.
  assert (referral_rrs b (set_rrs SAuthority (nd_owner n) ns (rs_ttl ns) false) (glue_all (rs_rdata ns))) as Href.
  { exists spelled. split_and!; [|done| |].
    - intros k t d ttl [n' Hn']%data_node. unfold spelled. rewrite Hn'. by apply node_keyed.
    - intros r. rewrite Hr. setoid_rewrite Hd. unfold spelled. by rewrite En.
    - intros r. rewrite elem_glue_all. setoid_rewrite <- Hd. setoid_rewrite (node_get_data n T_NS ns Hs Ens). clear. split; [intros (x & t & d & ttl & H); exists x, (rs_ttl ns), t, d, ttl; tauto|intros (x & v & t & d & ttl & H); exists x, t, d, ttl; tauto]. }
  destruct (write_rrset_signed w SAuthority (nd_owner n) ns false) as [w1 ok1] eqn:E1. apply (write_set_attempts q) in E1. destruct ok1; cbn [negb]; intros [= <- <- <-]; (split; [done|]); eexists _, _; (split; [exact Href|]); [|exact E1].
  destruct (glue_attempts q w1 (rs_rdata ns)) as [okg Hg]. by exists w1, okg.
Qed.
Lemma step_direct q w p name qtype w' aa' ps' s : named os p name → qtype ≠ T_ANY → no_alias p qtype → step digest w z name qtype true false true [] = Ok (w', aa', ps', s) →
  ps' = [] ∧ ∃ rcode rrs glue, dictated p name qtype rcode aa' rrs glue ∧
    ((s = Some (Stop rcode) ∧ ∃ w1 okg, attempts q w w1 rrs true ∧ attempts q w1 w' glue okg) ∨ (s = None ∧ attempts q w w' rrs false)).
Proof.
  intros Hp Hany [Hdn Hcn]. destruct (lookup_looked p name qtype Hp) as (r & Er & Hr). unfold step. rewrite Er. cbn [or_panic mbind res_bind].
  assert (∀ w' rrs ok rcode, attempts q w w' rrs ok → (if ok then Some (Stop rcode) else None) = Some (Stop rcode) ∧ (∃ w1 okg, attempts q w w1 rrs true ∧ attempts q w1 w' [] okg) ∨
    (if ok then Some (Stop rcode) else None) = None ∧ attempts q w w' rrs false) as Hdone.
  { intros w0 rrs ok rcode Ha. destruct ok; [left; split; [done|]; exists w0, true; split; [done|apply attempts_nil]|by right]. }
  destruct r as [n|ce n|ce|n|n]; simpl in Hr.
  - destruct Hr as (Hu & Hx & En). intros E. assert (qtype ≠ T_CNAME → node_get n T_CNAME = None) as Hc.
    { intros Hq. destruct (Hcn Hq) as [Hc _]. destruct (node_get n T_CNAME) eqn:Ec; [|done]. destruct Hc. apply (node_get_of _ _ T_CNAME En). by rewrite Ec. }
    destruct (node_direct q _ _ _ _ _ _ _ _ _ _ _ En Hany Hc E) as (-> & -> & rrs & ok & Ha & -> & Hans). split; [done|]. exists RCODE_NOERROR, rrs, []. split; [by apply dict_exact|by apply Hdone].
  - destruct Hr as (Hu & Hx & b & He & Hw & En). intros E. assert (qtype ≠ T_CNAME → node_get n T_CNAME = None) as Hc.
    { intros Hq. destruct (Hcn Hq) as [_ Hc]. destruct (node_get n T_CNAME) eqn:Ec; [|done]. destruct (Hc b He). apply (node_get_of _ _ T_CNAME En). by rewrite Ec. }
    destruct (node_direct q _ _ _ _ _ _ _ _ _ _ _ En Hany Hc E) as (-> & -> & rrs & ok & Ha & -> & Hans). split; [done|]. exists RCODE_NOERROR, rrs, []. split; [by apply (dict_wildcard _ _ _ b)|by apply Hdone].
  - destruct Hr as (Hu & Hx & b & He & Hw). intros ([w1 ok] & (rrs & Ha & Hneg)%(negative_direct q) & E)%bind_Ok.
    assert (w1 = w' ∧ aa' = true ∧ ps' = [] ∧ s = if ok then Some (Stop RCODE_NXDOMAIN) else None) as (<- & -> & -> & ->) by (destruct ok; by injection E as <- <- <- <-).
    split; [done|]. exists RCODE_NXDOMAIN, rrs, []. split; [by apply (dict_nxdomain _ _ _ b)|by apply Hdone].
  - destruct Hr as (b & Hd & En). destruct (referral digest w z n false []) as [[w1 ps1] ok] eqn:Eref. intros [= <- <- <- <-]. pose proof Hd as (_ & _ & _ & _ & Hns & _).
    destruct (referral_direct q _ b _ _ _ _ En Hns Eref) as (-> & ns & glue & Href & Ha). split; [done|]. exists RCODE_NOERROR, ns, glue. split; [by apply (dict_referral _ _ _ b)|]. destruct ok; [by left|by right].
  - destruct Hr as (a & b & -> & Ha & Hb & Hd). by destruct (Hdn a b).
Qed.

(** The hosted zone that answers for a name: the one with the longest origin; for DS at an origin, the longest one above, if there is one. *)
Definition hosts (set : gmap bytes (EZone Policy)) (ls : list bytes) (qtype : Z) : Prop :=
  match ls with
  | [] => longest set [] z
  | _ :: above => if bool_decide (qtype = T_DS ∧ is_Some (set !! wire_name ls)) then longest set above z ∨ ((∀ z', ¬ longest set above z') ∧ set !! wire_name ls = Some z) else longest set ls z
  end.
Lemma hosts_find set ls qtype : Forall label_ok ls → map_Forall (λ k z, ez_origin z = k) set → hosts set ls qtype → find_for_query set (wire_name ls) qtype = Some z.
Proof.
  intros Hls Hset. destruct ls as [|l ls]; simpl; [|apply (find_for_query_longest set l ls qtype z Hls Hset)]. intros Hl. apply find_spec in Hl; [|done]. unfold find_for_query. rewrite Hl. cbn [mbind option_bind].
  change (1 <? len (wire_name [])) with false. by rewrite andb_false_r.
Qed.
(** The message with the records and as much of the glue as fits, or cut to the question where the records do not fit. *)
Definition response_of (q : Question) (limit : Z) (ra : bool) (rcode : Z) (aa : bool) (rrs glue : list WRR) (m : bytes) : Prop :=
  if decide (fits limit q rrs)
  then ∃ w g, g `prefix_of` glue ∧ (fits limit q (rrs ++ glue) → g = glue) ∧ wrote q (rrs ++ g) w ∧ w_tc w = false ∧ m = w_finish w rcode aa ra
  else ∃ w, wrote q [] w ∧ w_tc w = true ∧ m = w_finish w RCODE_NOERROR aa ra.

(** C9: The answers come from the zone.  For a query without DNSSEC, other than ANY, whose name is not an alias, the hosted zone with the longest
    origin above the name gives what its records dictate: the NS records of the topmost delegation at or above the name, without AA,
    with the addresses of the name servers in the zone; else exactly the records of the name and type, or the SOA when there are
    none; else, for a name that does not exist, those of the wildcard of the closest encloser, or NXDOMAIN with the SOA.  The
    response has all of these records when they fit, and of the glue as much as fits; else it is cut to the question with TC set;
    it is empty exactly when not even the question fits. *)
Theorem respond_direct set q out_len max_len ra p :
  let name := lowercase_into (q_qname q) in let limit := Z.min max_len out_len in
  q_qclass q = CLASS_IN → (∀ e, q_edns q = Some e → ed_do_bit e = false) → q_qtype q ≠ T_ANY → name = wire_name (p ++ os) → valid_name (p ++ os) →
  map_Forall (λ k z, ez_origin z = k) set → hosts set (p ++ os) (q_qtype q) → ez_expired z = false → no_alias p (q_qtype q) →
  ∃ m, respond digest set q out_len max_len ra = Ok (Done m) ∧
    if decide (limit < 12 + len (q_qname q) + 4) then m = []
    else ∃ rcode aa rrs glue, dictated p name (q_qtype q) rcode aa rrs glue ∧ response_of q limit ra rcode aa rrs glue m.
Proof.
  intros name limit Hc Hdo Hany Hname Hval Hset Hh Hexp Hal. pose proof (zo_shape _ _ _ Hz) as Hsh. unfold respond. fold name. destruct Hval as [[Hok Hlen] Hby].
  rewrite Hc, Z.eqb_refl, Hname, (hosts_find set (p ++ os) (q_qtype q)), Hexp by done. cbn [negb]. unfold writer_new at 1. fold limit. change HEADER_LEN with 12.
  destruct (Z.ltb_spec limit (12 + len (q_qname q) + 4)) as [L|L]; [exists []; split; [done|]; by rewrite decide_True|]. setoid_rewrite decide_False; [|lia..].
  assert ((match q_edns q with Some e => ed_do_bit e | None => false end) = false) as -> by (destruct (q_edns q); auto).
  set (w := mkWriter limit (question_bytes q) (12 + len (q_qname q) + 4) 0 0 0 false (q_qname q)).
  assert (wrote q [] w) as Hw by (apply (writer_new_wrote out_len max_len); unfold writer_new; fold limit; change HEADER_LEN with 12; by rewrite (proj2 (Z.ltb_ge _ _) L)).
  assert (named os p (wire_name (p ++ os))) as Hp by (exists os; split_and!; [done|done|]; by apply (shape_origin os z Hsh)).
  cbn [respond_loop]. destruct (is_signed_total os z Hsh) as [sg ->]. cbn [or_panic mbind res_bind andb].
  destruct (step_total digest os w z (wire_name (p ++ os)) (q_qtype q) true false true [] Hsh) as [[[[w1 aa1] ps1] s] E]. rewrite E. cbn [mbind res_bind].
  apply (step_direct q w p) in E as (-> & rcode & rrs & glue & Hd & Hs); [|done..]. destruct Hs as [(-> & w0 & okg & H1 & H2)|(-> & H1)].
  - destruct (H1 _ Hw) as (r1 & _ & Hw0 & L0 & T0 & ->). destruct (H2 _ Hw0) as (g & Hg & Hw1 & L1 & T1 & Hokg). simpl in *. eexists. split; [done|]. exists rcode, aa1, rrs, glue. split; [done|]. unfold response_of.
    rewrite decide_True by (apply wrote_fits in Hw0; by rewrite L0 in Hw0). exists w1, g. split_and!; [done| |done|congruence|done]. intros Hf. destruct okg; [done|]. rewrite L0 in Hokg. by destruct Hokg.
  - destruct (H1 _ Hw) as (r1 & _ & Hw1 & L1 & T1 & Hnf). simpl in *. eexists. split; [done|]. exists rcode, aa1, rrs, glue. split; [done|]. unfold response_of. rewrite decide_False by done.
    exists (w_truncate w1). split_and!; [by apply (cleared_wrote q r1)|done|done].
Qed.
End direct.
