(* ===== verification/EngineLoader.v ===== *)
(** * Loading zones in the engine

    engine/src/authoritative/loader.rs: a zone of the snapshot is reused when the runtime holds its
    version, advanced by the listed deltas when it holds an earlier one, and read from its image
    otherwise; the IXFR history is rebuilt from the deltas.  Blobs come from a store and are
    decompressed by a library: the parameters [blobs] and [zstd].  The addresses and key names a
    snapshot also carries become the zone's policy by [policy_of], a parameter. *)

From S2P Require Import Prelude.
From S2P Require Import GoText.
From S2P Require Import NzfNames.
From S2P Require Import NzfFormat.
From S2P Require Import NzfTheorems.
From S2P Require Import EngineName.
From S2P Require Import EngineNzf.
From S2P Require Import EngineZone.
From S2P Require Import EngineContent.
From S2P Require Import EngineFinal.
From S2P Require Import EngineFlags.
From S2P Require Import EngineLookup.

(** The snapshot's message for a zone. *)
Record ZoneDelta := mkZoneDelta { zd_from_serial : Z; zd_to_serial : Z; zd_blob : option bytes }.
Record AuthZone (Settings : Type) := mkAuthZone {
  az_name : bytes; az_serial : Z; az_image : option bytes; az_image_serial : Z; az_image_delta_offset : Z;
  az_deltas : list ZoneDelta; az_expired : bool; az_settings : Settings }.
Arguments mkAuthZone {Settings}.
Arguments az_name {Settings}.
Arguments az_serial {Settings}.
Arguments az_image {Settings}.
Arguments az_image_serial {Settings}.
Arguments az_image_delta_offset {Settings}.
Arguments az_deltas {Settings}.
Arguments az_expired {Settings}.
Arguments az_settings {Settings}.

Definition MAX_ZONE_BLOB : Z := 2 ^ 30.
Record LoadCounts := mkCounts { lc_full : Z; lc_delta : Z; lc_reused : Z }.
Inductive LoadError := LBlob | LNzf (e : NzfError) | LZone (e : ZoneError) | LChain.
Abbreviation lres := (res LoadError).
Definition map_err {E F A} (f : E → F) (m : res E A) : res F A :=
  match m with Ok a => Ok a | Err e => Err (f e) | Panic => Panic | Fuel => Fuel end.

(** [snapshot::is_sha256_hex]. *)
Definition is_sha256_hex (h : bytes) : bool :=
  (len h =? 64) && forallb (λ c, ((48 <=? c) && (c <=? 57)) || ((97 <=? c) && (c <=? 102))) h.
(** The checks of [validate] on the versions of a zone: blobs named, the deltas contiguous, ending at
    the serial, and the image at its place among them. *)
Fixpoint contiguous (l : list ZoneDelta) : bool :=
  match l with
  | a :: ((b :: _) as l') => (zd_to_serial a =? zd_from_serial b) && contiguous l'
  | _ => true
  end.
Definition validate_chain {Settings} (z : AuthZone Settings) : lres unit :=
  if negb (match az_image z with Some b => is_sha256_hex b | None => false end) then Err LChain
  else if negb (forallb (λ d, match zd_blob d with Some b => is_sha256_hex b | None => false end) (az_deltas z)) then Err LChain
  else if negb (contiguous (az_deltas z)) then Err LChain
  else if match last (az_deltas z) with Some d => negb (zd_to_serial d =? az_serial z) | None => false end then Err LChain
  else if len (az_deltas z) <? az_image_delta_offset z then Err LChain
  else if negb (match idx (az_deltas z) (az_image_delta_offset z) with
                | Some d => zd_from_serial d =? az_image_serial z
                | None => az_image_serial z =? az_serial z
                end) then Err LChain
  else Ok tt.

Section loader.
Context {Settings Policy : Type} `{EqDecision Policy} (no_policy : Policy) (policy_of : Settings → Policy).
Context (blobs : bytes → option bytes) (zstd : bytes → option bytes).
Abbreviation EZ := (EZone Policy).
Abbreviation AZ := (AuthZone Settings).

Definition load_read (r : bytes) : lres bytes :=
  match blobs r with
  | None => Err LBlob
  | Some compressed => map_err LNzf (nz_decompress zstd compressed MAX_ZONE_BLOB)
  end.
Definition load_parse (raw : bytes) : lres Parsed := map_err LNzf (parse raw).
Definition check_delta_header (p : Parsed) (d : ZoneDelta) : lres unit :=
  if negb (bool_decide (p_kind p = DeltaImage)) || negb (p_from_serial p =? zd_from_serial d) || negb (p_serial p =? zd_to_serial d)
  then Err LChain else Ok tt.
Definition read_delta (d : ZoneDelta) : lres bytes := match zd_blob d with None => Err LChain | Some b => load_read b end.
Definition parse_delta_of (d : ZoneDelta) : lres Parsed :=
  raw ← read_delta d; p ← load_parse raw; check_delta_header p d;; Ok p.

(** The zone after the deltas, [None] when there are none, and their records. *)
Fixpoint apply_deltas (base : EZ) (cur : option EZ) (deltas : list ZoneDelta) : lres (option EZ * list DeltaRecords) :=
  match deltas with
  | [] => Ok (cur, [])
  | d :: deltas =>
      p ← parse_delta_of d;
      next ← map_err LZone (zone_apply no_policy (default base cur) p);
      '(r, staged) ← apply_deltas base (Some next) deltas;
      Ok (r, from_parsed p :: staged)
  end.

Definition same_history (old : EZ) (z : AZ) : bool :=
  (len (ez_deltas old) =? len (az_deltas z)) &&
  forallb (λ p, (dr_from p.1 =? zd_from_serial p.2) && (dr_to p.1 =? zd_to_serial p.2)) (zip (ez_deltas old) (az_deltas z)).
Definition set_loaded (z : EZ) (deltas : list DeltaRecords) (expired : bool) (policy : Policy) : EZ :=
  mkEZone (ez_origin z) (ez_apex_key z) (ez_origin_labels z) (ez_serial z) (ez_nodes z) (ez_nsec z) (ez_nsec3 z) (ez_nsec3param z) deltas expired policy.

(** From the version the runtime holds: the zone, the deltas read on the way and the new counts. *)
Definition load_from_old (z : AZ) (old : option EZ) (counts : LoadCounts) : lres (option EZ * list DeltaRecords * LoadCounts) :=
  match old with
  | None => Ok (None, [], counts)
  | Some old =>
      if ez_serial old =? az_serial z then Ok (Some old, [], mkCounts (lc_full counts) (lc_delta counts) (lc_reused counts + 1))
      else match list_find (λ d, zd_from_serial d = ez_serial old) (az_deltas z) with
           | None => Ok (None, [], counts)
           | Some (i, _) =>
               match apply_deltas old None (drop i (az_deltas z)) with
               | Ok (Some applied, staged) => Ok (Some applied, staged, mkCounts (lc_full counts) (lc_delta counts + 1) (lc_reused counts))
               | Ok (None, _) | Err _ => Ok (None, [], counts)
               | Panic => Panic
               | Fuel => Fuel
               end
           end
  end.
Definition load_from_image (z : AZ) (origin : bytes) : lres (EZ * list DeltaRecords) :=
  image ← match az_image z with None => Err LChain | Some i => Ok i end;
  raw ← load_read image;
  p ← load_parse raw;
  base ← map_err LZone (from_image no_policy p);
  if negb (bool_decide (ez_origin base = origin)) then Err (LZone OriginMismatch)
  else if negb (ez_serial base =? az_image_serial z) then Err LChain
  else
    '(r, staged) ← apply_deltas base None (drop (Nat.min (Z.to_nat (az_image_delta_offset z)) (length (az_deltas z))) (az_deltas z));
    Ok (default base r, staged).
(** The history: each delta from those at hand, or read. *)
Fixpoint load_history (known : list DeltaRecords) (deltas : list ZoneDelta) : lres (list DeltaRecords) :=
  match deltas with
  | [] => Ok []
  | d :: deltas =>
      r ← match list_find (λ r, dr_from r = zd_from_serial d ∧ dr_to r = zd_to_serial d) known with
          | Some (_, r) => Ok r
          | None => p ← parse_delta_of d; Ok (from_parsed p)
          end;
      rest ← load_history known deltas;
      Ok (r :: rest)
  end.
(** What every way of loading ends with. *)
Definition load_rest (z : AZ) (old : option EZ) (zone : EZ) (parsed : list DeltaRecords) (counts : LoadCounts) : lres (EZ * LoadCounts) :=
  if negb (ez_serial zone =? az_serial z) then Err LChain
  else
    history ← load_history (parsed ++ match old with Some o => ez_deltas o | None => [] end) (az_deltas z);
    Ok (set_loaded zone history (az_expired z) (policy_of (az_settings z)), counts).
Definition load_zone (z : AZ) (origin : bytes) (old : option EZ) (counts : LoadCounts) : lres (EZ * LoadCounts) :=
  let policy := policy_of (az_settings z) in
  let reuse := match old with Some o => (ez_serial o =? az_serial z) && same_history o z | None => false end in
  match old, reuse with
  | Some o, true =>
      let counts := mkCounts (lc_full counts) (lc_delta counts) (lc_reused counts + 1) in
      if bool_decide (ez_expired o = az_expired z ∧ ez_policy o = policy) then Ok (o, counts)
      else Ok (set_loaded o (ez_deltas o) (az_expired z) policy, counts)
  | _, _ =>
      '((zone, parsed, counts) : option EZ * list DeltaRecords * LoadCounts) ← load_from_old z old counts;
      '((zone, parsed, counts) : EZ * list DeltaRecords * LoadCounts) ←
        match zone with
        | Some zone => Ok (zone, parsed, counts)
        | None => '(zone, parsed) ← load_from_image z origin; Ok (zone, parsed, mkCounts (lc_full counts + 1) (lc_delta counts) (lc_reused counts))
        end;
      load_rest z old zone parsed counts
  end.

Record Loaded := mkLoaded { ld_set : gmap bytes EZ; ld_counts : LoadCounts; ld_changed : list (bytes * Z) }.
Fixpoint load_loop (prev : gmap bytes EZ) (zones : list AZ) (counts : LoadCounts) : lres (list EZ * LoadCounts * list (bytes * Z)) :=
  match zones with
  | [] => Ok ([], counts, [])
  | z :: zones =>
      origin ← match from_ascii (az_name z) with None => Err LChain | Some o => Ok o end;
      let old := prev !! origin in
      let changed := match old with Some o => negb (ez_serial o =? az_serial z) | None => true end in
      '(zone, counts) ← load_zone z origin old counts;
      '(out, counts, rest) ← load_loop prev zones counts;
      Ok (zone :: out, counts, if changed then (origin, az_serial z) :: rest else rest)
  end.
Definition load (prev : gmap bytes EZ) (zones : list AZ) : lres Loaded :=
  '(out, counts, changed) ← load_loop prev zones (mkCounts 0 0 0);
  set ← map_err (λ _, LChain) (from_zones out);
  Ok (mkLoaded set counts changed).

(** ** What is loaded *)
(** The versions of a zone: the base, advanced by the deltas so far. *)
Definition version (V0 : list record) (ds : list Parsed) (i : nat) : list record := foldl advanced V0 (take i ds).
Lemma version_S V0 ds i d : ds !! i = Some d → version V0 ds (S i) = advanced (version V0 ds i) d.
Proof. intros E. unfold version. by rewrite (take_S_r ds i d E), foldl_app. Qed.
(** A delta that takes one version to the next. *)
Definition delta_ok (apex : bytes) (S : list record) (d : Parsed) : Prop :=
  NoDup (map slot_of (p_a d)) ∧ Forall (λ r, slot_of r ≠ None ∧ slot_of r ∈ map slot_of S) (p_a d) ∧
  Forall (λ r, slot_of r ≠ None) (p_b d) ∧ soa_ok apex (p_serial d) (advanced S d).
(** The blob of a delta reads as [p]. *)
Definition delta_reads (origin : bytes) (d : ZoneDelta) (p : Parsed) : Prop :=
  parse_delta_of d = Ok p ∧ parsed_ok p ∧ lowercase (p_origin p) = origin.
Lemma parse_delta_header d p : parse_delta_of d = Ok p → p_kind p = DeltaImage ∧ p_from_serial p = zd_from_serial d ∧ p_serial p = zd_to_serial d.
Proof.
  unfold parse_delta_of. intros (raw & _ & (p' & _ & ([] & Hc & [= ->])%bind_Ok)%bind_Ok)%bind_Ok. unfold check_delta_header in Hc.
  case_bool_decide; [|done]. destruct (Z.eqb_spec (p_from_serial p) (zd_from_serial d)); [|done]. by destruct (Z.eqb_spec (p_serial p) (zd_to_serial d)).
Qed.

Lemma soa_ok_ext apex n S S' : (∀ r, r ∈ S ↔ r ∈ S') → soa_ok apex n S → soa_ok apex n S'.
Proof.
  intros HS. assert (∀ k t d v, has_data_of S k t d v ↔ has_data_of S' k t d v) as HD by (intros; unfold has_data_of; by setoid_rewrite HS).
  intros (d & ? & (v & Hv) & Hall). exists d. split_and!; [done|exists v; by apply HD|]. intros k d' v' Hx%HD. by eapply Hall.
Qed.
Lemma uniform_ext S S' : (∀ r, r ∈ S ↔ r ∈ S') → uniform S → uniform S'.
Proof. intros HS Hu r1 r2 k t d1 d2 H1%HS H2%HS. by apply Hu. Qed.
Lemma zone_of_ext os S S' (z : EZ) : (∀ r, r ∈ S ↔ r ∈ S') → zone_of os S z → zone_of os S' z.
Proof.
  intros HS [Hsh (Hok & Hd & Hg) Hin Hex]. split; [done|split; [done|split]| |].
  - intros k t d v. rewrite Hd. unfold has_data_of. by setoid_rewrite HS.
  - intros k t d. rewrite Hg. unfold has_sig_of. by setoid_rewrite HS.
  - apply Forall_forall. intros r Hr%HS. by eapply Forall_forall in Hin.
  - intros q Hq. rewrite Hex by done. unfold exists_in. by setoid_rewrite HS.
Qed.
Lemma zone_of_loaded os S (z : EZ) ds e p : zone_of os S z → zone_of os S (set_loaded z ds e p).
Proof. intros [[H1 H2 H3 H4 H5] H6 H7 H8]. split; [split|..]; done. Qed.
Lemma apply_zone_ok os S d (z : EZ) : zone_of os S z → parsed_ok d → p_kind d = DeltaImage → lowercase (p_origin d) = wire_name os → p_from_serial d = ez_serial z →
  uniform (advanced S d) → delta_ok (key_of os) S d →
  ∃ z', zone_apply no_policy z d = Ok z' ∧ zone_of os (advanced S d) z' ∧ ez_serial z' = p_serial d.
Proof.
  intros Hz Hd Hk Ho Hf Hu (H1 & H2 & H3 & H4). pose proof Hz as [[(Hos & Eo & Eapex & _) _ _ _ _] HS _ _].
  assert (delta_fits z d) as Hfit.
  { split_and!; [done| |done]. rewrite Ho, Eo. unfold lowercase. rewrite map_lower_wire_name by apply Hos. f_equal. symmetry. apply Hos. }
  rewrite <- Eapex in H4. destruct (zone_apply_Ok no_policy z S d HS Hfit Hu) as [z' E]; [done|]. exists z'. split; [done|].
  split; [by eapply apply_zone|]. by eapply apply_represents.
Qed.

(** ** A zone of the snapshot *)
Lemma validate_chain_inv (z : AZ) : validate_chain z = Ok tt →
  contiguous (az_deltas z) = true ∧ (∀ d, last (az_deltas z) = Some d → zd_to_serial d = az_serial z) ∧ az_image_delta_offset z ≤ len (az_deltas z) ∧
  match idx (az_deltas z) (az_image_delta_offset z) with Some d => zd_from_serial d = az_image_serial z | None => az_image_serial z = az_serial z end.
Proof.
  unfold validate_chain. destruct (negb _); [done|]. destruct (negb _); [done|]. destruct (contiguous (az_deltas z)); [|done]. cbn [negb].
  destruct (last (az_deltas z)) as [d|]; [destruct (Z.eqb_spec (zd_to_serial d) (az_serial z)); [|done]|]; cbn [negb];
    (destruct (Z.ltb_spec (len (az_deltas z)) (az_image_delta_offset z)); [done|]);
    (destruct (idx (az_deltas z) (az_image_delta_offset z)) as [x|]; [destruct (Z.eqb_spec (zd_from_serial x) (az_image_serial z)); [|done]|destruct (Z.eqb_spec (az_image_serial z) (az_serial z)); [|done]]);
    intros _; split_and!; try done; naive_solver.
Qed.
Lemma contiguous_lookup l i a b : contiguous l = true → l !! i = Some a → l !! S i = Some b → zd_to_serial a = zd_from_serial b.
Proof.
  revert i. induction l as [|x l IH]; intros i; [done|]. destruct l as [|y l]; [by destruct i|]. cbn [contiguous]. intros [E%Z.eqb_eq Hc]%andb_true_iff.
  destruct i as [|i]; [by intros [= <-] [= <-]|]. by apply IH.
Qed.

Section one.
Context (az : AZ) (os : list bytes) (V0 : list record) (ds : list Parsed).
Record history_ok : Prop := {
  hk_reads : Forall2 (delta_reads (wire_name os)) (az_deltas az) ds;
  hk_deltas : ∀ i d, ds !! i = Some d → delta_ok (key_of os) (version V0 ds i) d;
  hk_uniform : ∀ i, uniform (version V0 ds i);
  hk_chain : validate_chain az = Ok tt ∧ 0 ≤ az_image_delta_offset az;
  hk_serials : NoDup (map zd_from_serial (az_deltas az)) ∧ az_serial az ∉ map zd_from_serial (az_deltas az) }.
Context (Hh : history_ok).
Abbreviation current := (version V0 ds (length ds)).

Lemma history_length : length (az_deltas az) = length ds.
Proof. destruct Hh as [H _ _ _ _]. by eapply Forall2_length. Qed.
Lemma apply_deltas_ok base cur i : (i ≤ length ds)%nat → zone_of os (version V0 ds i) (default base cur) →
  (∀ d, az_deltas az !! i = Some d → zd_from_serial d = ez_serial (default base cur)) →
  ∃ r, apply_deltas base cur (drop i (az_deltas az)) = Ok (r, map from_parsed (drop i ds)) ∧ zone_of os current (default base r) ∧
    (i = length ds → r = cur) ∧ ((i < length ds)%nat → ∃ z', r = Some z' ∧ ez_serial z' = az_serial az).
Proof.
  destruct Hh as [Hr Hd Hu [[Hc [Hlast _]]%validate_chain_inv _] _]. pose proof history_length as Hlen.
  remember (length ds - i)%nat as k eqn:Ek. revert i cur Ek. induction k as [|k IH]; intros i cur Ek Hi Hz Hs.
  - assert (i = length ds) as -> by lia. rewrite !drop_ge by lia. exists cur. split_and!; [done..|lia].
  - destruct (lookup_lt_is_Some_2 ds i) as [p Ep]; [lia|]. destruct (lookup_lt_is_Some_2 (az_deltas az) i) as [d Ed]; [lia|].
    rewrite (drop_S _ d i Ed), (drop_S ds p i Ep). cbn [apply_deltas map]. destruct (Forall2_lookup_lr _ _ _ _ _ _ Hr Ed Ep) as (Epd & Hp & Ho).
    rewrite Epd. cbn [mbind res_bind]. destruct (parse_delta_header _ _ Epd) as (Hk & Hf & Ht).
    destruct (apply_zone_ok os (version V0 ds i) p (default base cur)) as (z' & E' & Hz' & Hs'); [done..|by rewrite Hf, (Hs d Ed)|rewrite <- (version_S V0 ds i p Ep); apply Hu|by apply Hd|].
    rewrite E'. cbn [map_err mbind res_bind]. destruct (IH (S i) (Some z')) as (r & Er & Hzr & H1 & H2); [lia|lia|by rewrite (version_S V0 ds i p Ep)| |].
    { intros d' Ed'. simpl. rewrite Hs', Ht. symmetry. by eapply contiguous_lookup. }
    rewrite Er. cbn [mbind res_bind]. exists r. split_and!; [done..|lia|]. intros _. destruct (decide (S i = length ds)) as [E|E]; [|apply H2; lia].
    exists z'. split; [by apply H1|]. rewrite Hs', Ht. apply Hlast. rewrite last_lookup, Hlen, <- E. done.
Qed.

(** Records kept for the history are those of the listed deltas. *)
Definition known_ok (known : list DeltaRecords) : Prop := ∀ r i d p, r ∈ known → az_deltas az !! i = Some d → ds !! i = Some p →
  dr_from r = zd_from_serial d → dr_to r = zd_to_serial d → r = from_parsed p.
Lemma staged_known i : known_ok (map from_parsed (drop i ds)).
Proof.
  intros r j d p (p' & -> & Hin)%list_elem_of_fmap Ed Ep Ef _. apply list_elem_of_lookup in Hin as [k Ek]. rewrite lookup_drop in Ek.
  destruct (Forall2_lookup_r _ _ _ _ _ (hk_reads Hh) Ek) as (d' & Ed' & Epd & _). destruct (parse_delta_header _ _ Epd) as (_ & Hf & _). simpl in Ef.
  destruct (hk_serials Hh) as [Hnd _]. assert ((i + k)%nat = j) as <-; [|congruence].
  eapply (NoDup_lookup _ _ _ (zd_from_serial d) Hnd); change (map ?f ?l) with (f <$> l); rewrite list_lookup_fmap; [rewrite Ed'|rewrite Ed]; simpl; congruence.
Qed.
Lemma load_history_ok known i : known_ok known → load_history known (drop i (az_deltas az)) = Ok (map from_parsed (drop i ds)).
Proof.
  intros Hk. pose proof history_length as Hlen. remember (length ds - i)%nat as k eqn:Ek. revert i Ek. induction k as [|k IH]; intros i Ek; [by rewrite !drop_ge by lia|].
  destruct (lookup_lt_is_Some_2 ds i) as [p Ep]; [lia|]. destruct (lookup_lt_is_Some_2 (az_deltas az) i) as [d Ed]; [lia|].
  rewrite (drop_S _ d i Ed), (drop_S ds p i Ep). cbn [load_history map]. rewrite (IH (S i)) by lia.
  assert (match list_find (λ r, dr_from r = zd_from_serial d ∧ dr_to r = zd_to_serial d) known with
          | Some (_, r) => Ok r | None => p ← parse_delta_of d; Ok (from_parsed p) end = Ok (from_parsed p)) as ->; [|done].
  destruct (list_find _ known) as [[j r]|] eqn:El.
  - apply list_find_Some in El as (Hj & [Hf Ht] & _). f_equal. eapply (Hk r i d p); [by eapply list_elem_of_lookup_2|done..].
  - destruct (Forall2_lookup_lr _ _ _ _ _ _ (hk_reads Hh) Ed Ep) as (-> & _). done.
Qed.

(** The image is the version at its place among the deltas. *)
Record image_ok : Prop := {
  ik_reads : ∃ b raw p, az_image az = Some b ∧ load_read b = Ok raw ∧ load_parse raw = Ok p ∧ parsed_ok p ∧ p_kind p = FullImage ∧
    lowercase (p_origin p) = wire_name os ∧ p_serial p = az_image_serial az ∧
    (∀ r, r ∈ p_a p ↔ r ∈ version V0 ds (Z.to_nat (az_image_delta_offset az)));
  ik_slots : Forall (λ r, slot_of r ≠ None) (version V0 ds (Z.to_nat (az_image_delta_offset az)));
  ik_soa : soa_ok (key_of os) (az_image_serial az) (version V0 ds (Z.to_nat (az_image_delta_offset az))) }.
Lemma load_from_image_ok (Hos : origin_ok os) : image_ok → ∃ z, load_from_image az (wire_name os) = Ok (z, map from_parsed (drop (Z.to_nat (az_image_delta_offset az)) ds)) ∧
  zone_of os current z ∧ ez_serial z = az_serial az.
Proof.
  intros [(b & raw & p & Eb & Er & Ep & Hp & Hk & Ho & Hser & HS) Hsl Hsoa]. pose proof history_length as Hlen. destruct (hk_chain Hh) as [[_ (Hlast & Hoff & Himg)]%validate_chain_inv Hoff0].
  set (o := Z.to_nat (az_image_delta_offset az)) in *. assert (o ≤ length ds)%nat as Hol by (unfold len in Hoff; lia).
  assert (∀ r, r ∈ version V0 ds o ↔ r ∈ p_a p) as HS' by (intros r; by rewrite HS).
  pose proof (uniform_ext _ _ HS' (hk_uniform Hh o)) as Hu.
  destruct (from_image_Ok no_policy p Hk Hu) as [base Ebase].
  { apply Forall_forall. intros r Hr%HS. by eapply Forall_forall in Hsl. }
  { rewrite Ho, canon_key_of by apply Hos. rewrite Hser. by apply (soa_ok_ext _ _ _ _ HS'). }
  destruct (from_image_zone no_policy p base Hp Hu Ebase) as (os' & Eo' & Hz). rewrite Ho in Eo'. apply wire_name_inj in Eo'; [|apply Hos|apply (zs_origin _ _ (zo_shape _ _ _ Hz))].
  subst os'. apply (zone_of_ext _ _ _ _ HS) in Hz. pose proof (zs_origin _ _ (zo_shape _ _ _ Hz)) as (_ & Ebo & _).
  assert (ez_serial base = az_image_serial az) as Ebs by (unfold from_image in Ebase; case_bool_decide; [|done]; apply bind_Ok in Ebase as (ns & _ & (_ & _ & _ & -> & _)%finalize_inv); done).
  unfold load_from_image. rewrite Eb. cbn [mbind res_bind]. rewrite Er. cbn [mbind res_bind]. rewrite Ep. cbn [mbind res_bind]. rewrite Ebase. cbn [map_err mbind res_bind].
  rewrite bool_decide_eq_true_2 by done. rewrite Ebs, Z.eqb_refl. cbn [negb]. fold o. rewrite Nat.min_l by lia.
  assert (∀ d, az_deltas az !! o = Some d → zd_from_serial d = ez_serial base) as Hfrom.
  { intros d Ed. rewrite Ebs. assert (idx (az_deltas az) (az_image_delta_offset az) = Some d) as Ei; [|by rewrite Ei in Himg].
    unfold idx. rewrite (proj2 (Z.ltb_ge _ _)) by done. done. }
  destruct (apply_deltas_ok base None o Hol Hz Hfrom) as (r & -> & Hzr & H1 & H2). cbn [mbind res_bind]. exists (default base r). split_and!; [done..|].
  destruct (decide (o = length ds)) as [E|E]; [|destruct H2 as (z' & -> & ?); [lia|done]]. rewrite (H1 E). simpl. rewrite Ebs.
  assert (idx (az_deltas az) (az_image_delta_offset az) = None) as Ei by (apply idx_None; unfold len; lia). by rewrite Ei in Himg.
Qed.

(** The version a runtime holds is the one its serial says, and its history that of the deltas. *)
Record old_ok (o : EZ) : Prop := {
  ok_current : ez_serial o = az_serial az → zone_of os current o;
  ok_version : ∀ i d, az_deltas az !! i = Some d → zd_from_serial d = ez_serial o → zone_of os (version V0 ds i) o;
  ok_known : known_ok (ez_deltas o) }.
Lemma same_history_ok o : old_ok o → same_history o az = true → ez_deltas o = map from_parsed ds.
Proof.
  intros [_ _ Hk] [El%Z.eqb_eq Ha]%andb_true_iff. pose proof history_length as Hlen. unfold len in El. apply list_eq. intros i.
  change (map from_parsed ds) with (from_parsed <$> ds). rewrite list_lookup_fmap. destruct (ez_deltas o !! i) as [r|] eqn:Er.
  - pose proof (lookup_lt_Some _ _ _ Er). destruct (lookup_lt_is_Some_2 ds i) as [p Ep]; [lia|]. destruct (lookup_lt_is_Some_2 (az_deltas az) i) as [d Ed]; [lia|].
    rewrite Ep. simpl. f_equal. rewrite forallb_forall in Ha. specialize (Ha (r, d)). rewrite <- list_elem_of_In in Ha.
    assert ((r, d) ∈ zip (ez_deltas o) (az_deltas az)) as Hin by (apply (list_elem_of_lookup_2 _ i), lookup_zip_with_Some; eauto).
    apply Ha, andb_true_iff in Hin as [Hf%Z.eqb_eq Ht%Z.eqb_eq]. simpl in *. eapply (Hk r i d p); [by eapply list_elem_of_lookup_2|done..].
  - apply lookup_ge_None in Er. rewrite (proj2 (lookup_ge_None ds i)) by lia. done.
Qed.

(** What the runtime holds of a version gives the current one, or nothing. *)
Lemma load_from_old_ok old counts : (∀ o, old = Some o → old_ok o) → ∃ zone parsed counts', load_from_old az old counts = Ok (zone, parsed, counts') ∧ known_ok parsed ∧
  ∀ z, zone = Some z → zone_of os current z ∧ ez_serial z = az_serial az.
Proof.
  intros Hold. unfold load_from_old. assert (known_ok []) as Hnil by by intros r ? ? ? ?%not_elem_of_nil.
  destruct old as [o|]; [|by eexists _, _, _]. destruct (Hold o eq_refl) as [Hc Hv _]. destruct (Z.eqb_spec (ez_serial o) (az_serial az)) as [E|E].
  { eexists _, _, _. split_and!; [done..|]. intros z [= <-]. auto. }
  destruct (list_find _ (az_deltas az)) as [[i d]|] eqn:El; [|by eexists _, _, _]. apply list_find_Some in El as (Ei & Hf & _).
  pose proof history_length as Hlen. pose proof (lookup_lt_Some _ _ _ Ei) as Hi.
  destruct (apply_deltas_ok o None i) as (r & -> & Hz & _ & H2); [lia|by eapply Hv|simpl; congruence|]. destruct H2 as (z' & -> & Hs); [lia|].
  eexists _, _, _. split_and!; [done|apply staged_known|]. by intros z [= <-].
Qed.

Lemma load_rest_ok old z known counts : (∀ o, old = Some o → old_ok o) → known_ok known → zone_of os current z → ez_serial z = az_serial az →
  ∃ z' counts', load_rest az old z known counts = Ok (z', counts') ∧ zone_of os current z' ∧ ez_serial z' = az_serial az ∧
    ez_deltas z' = map from_parsed ds ∧ ez_expired z' = az_expired az ∧ ez_policy z' = policy_of (az_settings az).
Proof.
  intros Hold Hkn Hzz Hs. unfold load_rest. rewrite Hs, Z.eqb_refl. cbn [negb].
  pose proof (load_history_ok (known ++ match old with Some o => ez_deltas o | None => [] end) 0) as Hl. rewrite !drop_0 in Hl. rewrite Hl.
  - cbn [mbind res_bind]. eexists _, _. split; [done|]. split_and!; [by apply zone_of_loaded|done..].
  - intros r i d p [Hr|Hr]%elem_of_app; [by apply Hkn|]. destruct old as [o|]; [by apply (Hold o eq_refl)|by apply not_elem_of_nil in Hr].
Qed.

Lemma load_zone_ok old counts : origin_ok os → image_ok → (∀ o, old = Some o → old_ok o) →
  ∃ z counts', load_zone az (wire_name os) old counts = Ok (z, counts') ∧ zone_of os current z ∧ ez_serial z = az_serial az ∧
    ez_deltas z = map from_parsed ds ∧ ez_expired z = az_expired az ∧ ez_policy z = policy_of (az_settings az).
Proof.
  intros Hos Himg Hold. unfold load_zone. set (reuse := match old with Some o => _ | None => false end).
  assert (reuse = true → ∃ o, old = Some o ∧ ez_serial o = az_serial az ∧ same_history o az = true) as Hreuse.
  { unfold reuse. destruct old as [o|]; [|done]. intros [E%Z.eqb_eq ?]%andb_true_iff. eauto. }
  destruct reuse.
  - destruct (Hreuse eq_refl) as (o & -> & Es & Esame). pose proof (Hold o eq_refl) as Ho. pose proof (same_history_ok o Ho Esame) as Ed.
    case_bool_decide as Ep; eexists _, _; (split; [done|]).
    + destruct Ep. split_and!; [by apply Ho|done..].
    + split_and!; [by apply zone_of_loaded, Ho|done..].
  - destruct (load_from_old_ok old counts Hold) as (zone & parsed & counts' & E & Hk & Hz). destruct (load_from_image_ok Hos Himg) as (zi & Ei & Hzi & Hsi).
    destruct old as [o|]; rewrite E; cbn [mbind res_bind]; (destruct zone as [z|]; [destruct (Hz z eq_refl)|rewrite Ei]; cbn [mbind res_bind]); eapply load_rest_ok; eauto using staged_known.
Qed.

(** Loading brings a zone to the version the snapshot names.  Given blobs that read as an image and
    deltas of one history, the deltas contiguous as [validate] demands, and a runtime that holds nothing
    of the zone or the version its serial says, loading succeeds; whether it reuses, applies deltas or
    reads the image, the zone has exactly the records of the last version, its serial, the listed deltas
    as its transfer history, and the expiry and policy of the snapshot. *)
Theorem load_zone_current old counts : origin_ok os → image_ok → (∀ o, old = Some o → old_ok o) →
  ∃ z counts', load_zone az (wire_name os) old counts = Ok (z, counts') ∧ zone_of os current z ∧ ez_serial z = az_serial az ∧
    ez_deltas z = map from_parsed ds ∧ ez_expired z = az_expired az ∧ ez_policy z = policy_of (az_settings az).
Proof. apply load_zone_ok. Qed.
End one.
End loader.
