(* ===== verification/EngineExamples.v ===== *)
(** * The engine on a concrete zone

    The zone [a.] with an address at [www], then a delta to a second version: the theorems of the engine
    at these values. *)

From S2P Require Import Prelude.
From S2P Require Import GoText.
From S2P Require Import NzfNames.
From S2P Require Import NzfFormat.
From S2P Require Import NzfTheorems.
From S2P Require Import EngineName.
From S2P Require Import EngineNzf.
From S2P Require Import EngineZone.
From S2P Require Import EngineContent.
From S2P Require Import EngineFinal.
From S2P Require Import EngineFlags.
From S2P Require Import EngineLookup.
From S2P Require Import EngineMsg.
From S2P Require Import EngineWriter.
From S2P Require Import EngineAnswer.
From S2P Require Import EngineRespond.
From S2P Require Import EngineLoader.

Module Example.
Definition os : list bytes := [[97]].
Definition origin : bytes := [1; 97; 0].
Definition soa (serial : Z) : record :=
  mkRecord origin 6 1 300 ([0; 0] ++ put32 serial ++ put32 7200 ++ put32 900 ++ put32 604800 ++ put32 60).
Definition www : record := mkRecord [3; 119; 119; 119; 1; 97; 0] 1 1 300 [192; 0; 2; 1].
Definition ftp : record := mkRecord [3; 102; 116; 112; 1; 97; 0] 1 1 300 [192; 0; 2; 2].
Definition image : Image := mkImage origin 1 [soa 1; www].
Definition delta : Delta := mkDelta origin 1 2 [soa 1; www] [soa 2; ftp].
Definition got {E A} (d : A) (r : res E A) : A := match r with Ok a => a | _ => d end.
Definition raw1 : bytes := Eval vm_compute in got [] (EncodeFull id image).
Definition raw2 : bytes := Eval vm_compute in got [] (EncodeDelta id delta).
Definition p1 : Parsed := mkParsed FullImage origin 1 0 [soa 1; www] [].
Definition p2 : Parsed := mkParsed DeltaImage origin 2 1 [soa 1; www] [soa 2; ftp].

Lemma canon_key_bounded_witness : canon_key_buf (wire_name [[87; 119; 119]; [97]]) = CanonicalKey (wire_name [[87; 119; 119]; [97]]).
Proof. apply (canon_key_bounded [[87; 119; 119]; [97]]); by_compute. Defined.
Lemma engine_parses_witness : parse raw1 = Ok p1 ∧ parse raw2 = Ok p2.
Proof.
  split.
  - apply (proj1 (engine_parses id) image raw1); by_compute.
  - apply (proj2 (engine_parses id) delta raw2); by_compute.
Defined.
Lemma parse_typed_witness : returns (parse raw1) ∧ parsed_ok p1.
Proof. destruct (parse_typed raw1) as [Hr Hp]; [by_compute|]. split; [exact Hr|]. apply Hp. vm_compute. reflexivity. Defined.
Lemma p1_ok : parsed_ok p1.
Proof. apply (post_Ok (parse raw1)); [apply parse_post; by_compute|vm_compute; reflexivity]. Qed.
Lemma p2_ok : parsed_ok p2.
Proof. apply (post_Ok (parse raw2)); [apply parse_post; by_compute|vm_compute; reflexivity]. Qed.

(** A finite set of records is uniform when each pair is. *)
Definition same_ttl (r1 r2 : record) : bool :=
  match slot_of r1, slot_of r2 with
  | Some (k1, t1, false, _), Some (k2, t2, false, _) => negb (bool_decide ((k1, t1) = (k2, t2))) || (TTL r1 =? TTL r2)
  | _, _ => true
  end.
Lemma uniform_check S : forallb (λ r1, forallb (same_ttl r1) S) S = true → uniform S.
Proof.
  intros H r1 r2 k t d1 d2 H1 H2 E1 E2. rewrite forallb_forall in H. specialize (H r1 (proj1 (list_elem_of_In _ _) H1)). rewrite forallb_forall in H.
  specialize (H r2 (proj1 (list_elem_of_In _ _) H2)). unfold same_ttl in H. rewrite E1, E2 in H. rewrite bool_decide_eq_true_2 in H by done. by apply Z.eqb_eq in H.
Qed.
(** One SOA at the apex, by evaluation. *)
Definition soa_check (apex : bytes) (serial : Z) (S : list record) : bool :=
  match filter (λ r, RType r = 6) S with
  | [r] => bool_decide (canon_key (Owner r) = apex) && bool_decide (soa_serial (RData r) = Some serial)
  | _ => false
  end.
Lemma soa_check_ok apex serial S : soa_check apex serial S = true → soa_ok apex serial S.
Proof.
  unfold soa_check. destruct (filter (λ r, RType r = 6) S) as [|r [|? ?]] eqn:E; [done| |done]. rewrite andb_true_iff, !bool_decide_eq_true. intros [Hk Hs].
  assert (∀ x, x ∈ S ∧ RType x = 6 → x = r) as Hall. { intros x [Hx Ht]. assert (x ∈ filter (λ r, RType r = 6) S) as Hi by by apply list_elem_of_filter. rewrite E in Hi. by apply list_elem_of_singleton in Hi. }
  assert (r ∈ S ∧ RType r = 6) as [Hr Ht]. { assert (r ∈ filter (λ r, RType r = 6) S) as [? ?]%list_elem_of_filter by (rewrite E; by left). done. }
  exists (RData r). split_and!; [done| |].
  - exists (TTL r), r. split_and!; [done| |done]. unfold slot_of, covered. by rewrite Ht, Hk.
  - intros k d v (x & Hx & Hsl & _). unfold slot_of, covered in Hsl. destruct (Z.eqb_spec (RType x) T_RRSIG) as [|Hn]; cbn [negb] in Hsl.
    + destruct (_ <? _); [done|]. by destruct (get16 (RData x)).
    + injection Hsl as Hk' Ht' <-. assert (x = r) as -> by (apply Hall; done). split; [congruence|done].
Qed.
Lemma from_image_exact_witness : ∃ z, from_image () p1 = Ok z ∧ represents (ez_nodes z) [soa 1; www].
Proof.
  destruct (from_image_exact () p1) as [[_ Hex] Hz]; [done|by apply uniform_check|]. destruct Hex as [z E]; [split; [by_compute|by apply soa_check_ok; vm_compute]|].
  exists z. split; [done|]. apply (Hz z E).
Defined.
Definition none : EZone () := mkEZone [] [] 0 0 ∅ [] ∅ None [] false ().
Definition z1 : EZone () := Eval vm_compute in got none (from_image () p1).
Lemma z1_image : from_image () p1 = Ok z1.
Proof. vm_compute. reflexivity. Qed.
Lemma uniform1 : uniform [soa 1; www].
Proof. apply uniform_check. vm_compute. reflexivity. Qed.
Lemma os_origin : origin_ok os.
Proof. split; [by_compute|done]. Qed.
Lemma z1_zone : zone_of os [soa 1; www] z1.
Proof.
  destruct (from_image_zone () p1 z1 p1_ok uniform1 z1_image) as (os' & E & Hz). change (lowercase (p_origin p1)) with (wire_name os) in E.
  apply wire_name_inj in E as <-; [done|by_compute|apply (zs_origin _ _ (zo_shape _ _ _ Hz))].
Qed.
Lemma apply_exact_witness : ∃ z2, zone_apply () z1 p2 = Ok z2 ∧ represents (ez_nodes z2) (advanced [soa 1; www] p2).
Proof.
  destruct (apply_exact () z1 [soa 1; www] p2) as [[_ Hex] Hz]; [apply z1_zone|done|apply uniform_check; vm_compute; reflexivity|].
  destruct Hex as [z2 E]; [split_and!; [by_compute|by_compute|by_compute|apply soa_check_ok; vm_compute; reflexivity]|]. exists z2. split; [done|]. apply (Hz z2 E).
Defined.
Lemma loaded_zone_witness : ∃ z2, zone_apply () z1 p2 = Ok z2 ∧ zone_of os (advanced [soa 1; www] p2) z2.
Proof.
  destruct (zone_apply () z1 p2) as [z2| | |] eqn:E; [|by vm_compute in E..]. exists z2. split; [done|].
  destruct (loaded_zone () p1 [p2] z2 p1_ok) as (os' & Eo & Hz); [by constructor; [apply p2_ok|]| | |].
  - intros [|[|k]]; apply uniform_check; vm_compute; reflexivity.
  - rewrite z1_image. cbn [mbind res_bind fold_res]. by rewrite E.
  - change (lowercase (p_origin p1)) with (wire_name os) in Eo. apply wire_name_inj in Eo as <-; [done|by_compute|apply (zs_origin _ _ (zo_shape _ _ _ Hz))].
Defined.

(** ** Queries *)
Definition qname : bytes := [3; 119; 119; 119; 1; 97; 0].
Definition query : bytes := [0; 1; 1; 0; 0; 1; 0; 0; 0; 0; 0; 0] ++ qname ++ [0; 1; 0; 1].
Definition q1 : Question := mkQuestion 1 0 256 qname 1 1 23 None None None.
Lemma www_named : named os [[119; 119; 119]] qname.
Proof. exists os. split_and!; [done| |done]. by_compute. Qed.
Lemma lookup_walk_witness : ∃ r, lookup z1 qname T_A = Some r ∧ looked_up os z1 [[119; 119; 119]] T_A r.
Proof. apply (lookup_walk os z1 (zo_shape _ _ _ z1_zone)). apply www_named. Defined.
Lemma lookup_records_witness : ∃ r, lookup z1 qname T_A = Some r ∧ found_in os [soa 1; www] [[119; 119; 119]] r.
Proof. apply (lookup_records os _ z1 z1_zone). apply www_named. Defined.
Definition hosted : gmap bytes (EZone ()) := {[origin := z1]}.
Lemma hosted_origin : map_Forall (λ k z, ez_origin z = k) hosted.
Proof. apply map_Forall_singleton. done. Qed.
Lemma find_for_query_longest_witness : find_for_query hosted (wire_name [[119; 119; 119]; [97]]) T_A = Some z1 ∧ longest hosted [[119; 119; 119]; [97]] z1.
Proof.
  assert (find_for_query hosted (wire_name [[119; 119; 119]; [97]]) T_A = Some z1) as E by (vm_compute; reflexivity). split; [exact E|].
  apply (find_for_query_longest hosted [119; 119; 119] [[97]] T_A z1) in E; [exact E|by_compute|apply hosted_origin].
Defined.
Lemma question_parse_safe_witness : question_parse query = Ok q1 ∧ question_ok query q1.
Proof.
  destruct (question_parse_safe query) as [_ Hq]; [by_compute|]. assert (question_parse query = Ok q1) as E by (vm_compute; reflexivity). exact (conj E (Hq _ E)).
Defined.
Definition answer : list WRR := [mkWRR SAnswer qname 1 300 [192; 0; 2; 1]].
Lemma response_reads_back_witness : ∃ w0 w m out, writer_new 512 512 q1 = Some w0 ∧ w_rrs w0 answer = Some w ∧ m = w_finish w 0 true false ∧ walk_rrs m 23 1 = Ok (out, len m) ∧ Forall2 (reads_rr m) answer out.
Proof.
  destruct (writer_new 512 512 q1) as [w0|] eqn:E0; [|by vm_compute in E0]. destruct (w_rrs w0 answer) as [w|] eqn:E; [|vm_compute in E0; injection E0 as <-; by vm_compute in E].
  destruct (response_reads_back 512 512 q1 w0 answer w 0 true false) as (_ & _ & _ & _ & out & Ho & Hr);
    [exists [[119; 119; 119]; [97]]; split; by_compute|exact E0|lia| |done|].
  { apply Forall_singleton. split_and!; [exists [[119; 119; 119]; [97]]; split; by_compute|by_compute..]. }
  exists w0, w, (w_finish w 0 true false), out. done.
Defined.
Lemma hosted_ok : zones_ok hosted.
Proof. apply map_Forall_singleton. split; [done|]. exists os. apply z1_zone. Qed.
Lemma respond_total_witness : ∃ s, respond id hosted q1 512 512 false = Ok s.
Proof. destruct (respond_total id hosted q1 512 512 false hosted_ok) as (s & E & _). exists s. exact E. Defined.
Lemma z1_types k t d v : has_data_of [soa 1; www] k t d v → t = T_SOA ∨ t = T_A.
Proof. intros (r & Hr & Hs & _). repeat (apply elem_of_cons in Hr as [->|Hr]; [injection Hs as _ <- _; by (left + right)|]). by apply not_elem_of_nil in Hr. Qed.
Lemma hosts_z1 : hosts z1 hosted ([[119; 119; 119]] ++ os) T_A.
Proof.
  exists [[119; 119; 119]], os. split_and!; [done|vm_compute; reflexivity|]. intros [|x [|y a1]] a2 E Hne; [simpl in E; subst a2; vm_compute; reflexivity| |done].
  simplify_eq/=.
Qed.
Lemma respond_direct_witness : ∃ m, respond id hosted q1 512 512 false = Ok (Done m) ∧
  ∃ rcode aa rrs glue, dictated os [soa 1; www] [[119; 119; 119]] qname T_A rcode aa rrs glue ∧ response_of q1 512 false rcode aa rrs glue m.
Proof.
  destruct (respond_direct id os [soa 1; www] z1 z1_zone hosted q1 512 512 false [[119; 119; 119]]) as (m & E & Hm);
    [done|done|done|vm_compute; reflexivity|by_compute|apply hosted_origin|apply hosts_z1|vm_compute; reflexivity| |].
  { split; [intros a b _ _ _ (d & v & [|]%z1_types); done|]. intros _. split; [intros (d & v & [|]%z1_types); done|intros b _ (d & v & [|]%z1_types); done]. }
  exists m. split; [exact E|]. rewrite decide_False in Hm by (vm_compute; congruence). exact Hm.
Defined.

(** ** Loading *)
Definition key1 : bytes := replicate 64 48.
Definition key2 : bytes := replicate 64 49.
Definition store (k : bytes) : option bytes := if bool_decide (k = key1) then Some raw1 else if bool_decide (k = key2) then Some raw2 else None.
Definition message : AuthZone () := mkAuthZone [97] 2 (Some key1) 1 0 [mkZoneDelta 1 2 (Some key2)] false ().
Lemma message_history : history_ok store Some message os [soa 1; www] [p2].
Proof.
  split.
  - constructor; [|constructor]. split; [vm_compute; reflexivity|]. split; [apply p2_ok|done].
  - intros [|i] d E; [|done]. injection E as <-. split_and!; [by_compute|by_compute|by_compute|apply soa_check_ok; vm_compute; reflexivity].
  - intros [|[|i]]; apply uniform_check; vm_compute; reflexivity.
  - split; [vm_compute; reflexivity|done].
  - split; by_compute.
Qed.
Lemma load_zone_current_witness : ∃ z counts, load_zone () id store Some message (wire_name os) (Some z1) (mkCounts 0 0 0) = Ok (z, counts) ∧ zone_of os (advanced [soa 1; www] p2) z.
Proof.
  destruct (load_zone_current () id store Some message os [soa 1; www] [p2] message_history (Some z1) (mkCounts 0 0 0) os_origin) as (z & counts & E & Hz & _).
  - split; [|by_compute|apply soa_check_ok; vm_compute; reflexivity]. exists key1, raw1, p1. split_and!; try (vm_compute; reflexivity); [apply p1_ok|done].
  - intros o [= <-]. split; [done|intros [|i] d E _; [exact z1_zone|done]|]. intros r i d p Hr. by apply not_elem_of_nil in Hr.
  - exists z, counts. exact (conj E Hz).
Defined.
End Example.
