(* ===== verification/AuthZones.v ===== *)
(** * Zones in the snapshot

    mgmt/internal/snapshot/authzones.go, [AddAuthZones]: the message the management plane builds for a
    zone from its row, its image and its journal.  The invariant [published] ties the tables to the
    history of the zone's versions; [writeVersion] of build.go keeps it.  The settings of a zone
    (addresses, keys, policies) are copied into the message: the type [Settings]. *)

From stdpp Require Import functions.
From S2P Require Import Prelude.
From S2P Require Import GoText.
From S2P Require Import NzfNames.
From S2P Require Import NzfFormat.
From S2P Require Import NzfTheorems.
From S2P Require Import ZoneJournal.
From S2P Require Import ZoneServed.
From S2P Require Import EngineName.
From S2P Require Import EngineNzf.
From S2P Require Import EngineZone.
From S2P Require Import EngineContent.
From S2P Require Import EngineFinal.
From S2P Require Import EngineFlags.
From S2P Require Import EngineLoader.

Definition authJournalListed : Z := 32.
(** [j.seq > LEAST(image_seq, current_seq - authJournalListed) AND j.seq <= current_seq], in order; a
    row without its blob does not join. *)
Definition listed_from {Name} (z : Zone Name) : Z := Z.min (ImageSeq z) (CurrentSeq z - authJournalListed).
Definition listed_row (d : zdb) (seq : Z) : option (Z * ZoneDelta) :=
  row ← journal d !! seq;
  _ ← blobs d !! j_sha row;
  Some (seq, mkZoneDelta (u32 (from_serial row)) (u32 (to_serial row)) (Some (j_sha row))).
Definition listed {Name} (d : zdb) (z : Zone Name) : list (Z * ZoneDelta) :=
  omap (listed_row d) (seqZ (listed_from z + 1) (CurrentSeq z - listed_from z)).
Definition auth_zone {Name Settings} (d : zdb) (name : bytes) (z : Zone Name) (expired : bool) (settings : Settings) : option (AuthZone Settings) :=
  row ← images d !! ImageSeq z;
  _ ← blobs d !! i_sha row;
  let deltas := listed d z in
  Some (mkAuthZone name (u32 (Serial z)) (Some (i_sha row)) (u32 (i_serial row))
    (len (filter (λ p, p.1 ≤ ImageSeq z) deltas)) (map snd deltas) expired settings).

(** The rows of [zones] the query selects: primaries and loaded secondaries of the engine group. *)
Record zone_row (Name Settings : Type) := mkZoneRow {
  zr_db : zdb; zr_name : bytes; zr_zone : Zone Name; zr_loaded : bool; zr_group : option bytes; zr_expired : bool; zr_settings : Settings }.
Arguments mkZoneRow {Name Settings}.
Arguments zr_db {Name Settings}.
Arguments zr_name {Name Settings}.
Arguments zr_zone {Name Settings}.
Arguments zr_loaded {Name Settings}.
Arguments zr_group {Name Settings}.
Arguments zr_expired {Name Settings}.
Arguments zr_settings {Name Settings}.
Definition row_selected {Name Settings} (group : bytes) (r : zone_row Name Settings) : bool :=
  (bool_decide (z_Kind (zr_zone r) = Primary) || zr_loaded r) &&
  match zr_group r with None => true | Some g => bool_decide (g = group) end.
Definition AddAuthZones {Name Settings} (group : bytes) (rows : list (zone_row Name Settings)) : list (AuthZone Settings) :=
  omap (λ r, if row_selected group r then auth_zone (zr_db r) (zr_name r) (zr_zone r) (zr_expired r) (zr_settings r) else None)
    (stable_sort (λ a b, bytes_lt (zr_name a) (zr_name b)) rows).

(** ** What is encoded is octets *)
Lemma appendRecord_bytes r : record_wf r → Forall is_byte (appendRecord r).
Proof.
  intros (Ho & Ht & Hc & Htt & Hr). unfold appendRecord. constructor; [unfold u8, is_byte; apply Z.mod_pos_bound; lia|].
  repeat (apply Forall_app; split); auto using put16_bytes, put32_bytes.
Qed.
Lemma appendRecords_bytes b rs : Forall is_byte b → Forall record_wf rs → Forall is_byte (appendRecords b rs).
Proof.
  intros Hb Hr. apply Forall_app. split; [done|]. apply Forall_concat, Forall_fmap. eapply Forall_impl; [exact Hr|]. intros r. apply appendRecord_bytes.
Qed.
Lemma appendHeader_bytes kind origin serial from a c h : Forall is_byte origin → checkOrigin origin = Ok tt → is_byte kind →
  appendHeader [] kind origin serial from a c = Ok h → Forall is_byte h.
Proof.
  intros Ho Hc Hk. destruct (checkOrigin_lower origin Ho Hc) as (El & _ & Hl). unfold appendHeader. rewrite El. intros [= <-].
  repeat (constructor; [first [apply u8_byte|exact Hk|by_compute]|]). apply Forall_app. split; [by apply lower_bytes|].
  repeat (constructor; [apply u8_byte|]). constructor.
Qed.
Lemma encode_full_bytes wide img raw : image_wf img → EncodeFull wide img = Ok raw → Forall is_byte raw.
Proof.
  intros (Hb & _ & Hr) ([] & Ho & ([] & _ & ([] & _ & (h & Hh & [= <-])%bind_Ok)%bind_Ok)%bind_Ok)%bind_Ok. apply appendRecords_bytes.
  - eapply appendHeader_bytes; [done|done| |exact Hh]. by_compute.
  - by rewrite SortRecords_perm.
Qed.
Lemma encode_delta_bytes wide dl raw : delta_wf dl → EncodeDelta wide dl = Ok raw → Forall is_byte raw.
Proof.
  destruct dl as [origin from to dels adds]. intros (Hb & _ & _ & Hd & Ha) ([] & Ho & H)%bind_Ok. simpl in *.
  destruct dels as [|d0 dels]; [done|]. destruct adds as [|a0 adds]; [done|].
  apply bind_Ok in H as ([] & _ & ([] & _ & ([] & _ & ([] & _ & (h & Hh & [= <-])%bind_Ok)%bind_Ok)%bind_Ok)%bind_Ok).
  apply appendRecords_bytes; [apply appendRecords_bytes; [eapply appendHeader_bytes; [done|done| |exact Hh]; by_compute|]|].
  - by rewrite (sort_tail_perm (d0 :: dels)).
  - by rewrite (sort_tail_perm (a0 :: adds)).
Qed.

(** ** What the engine reads of a version *)
Definition fit (os : list bytes) (serial : Z) (T : list record) : Prop :=
  uniform T ∧ soa_ok (key_of os) serial T ∧ Forall key_ok T ∧ Forall (λ r, ascii (Owner r) ∧ slot_of r ≠ None) T ∧
  ∀ r1 r2, r1 ∈ T → r2 ∈ T → slot_of r1 = slot_of r2 → r1 = r2.
(** The delta [p] takes [S] to [T]. *)
Record steps (os : list bytes) (from to : Z) (S T : list record) (p : Parsed) : Prop := {
  st_kind : p_kind p = DeltaImage;
  st_ok : parsed_ok p;
  st_origin : lowercase (p_origin p) = wire_name os;
  st_serials : p_from_serial p = from ∧ p_serial p = to;
  st_deleted : NoDup (p_a p) ∧ ∀ r, r ∈ p_a p → r ∈ S;
  st_set : ∀ r, r ∈ T ↔ r ∈ p_b p ∨ (r ∈ S ∧ r ∉ p_a p) }.
Record images_of (os : list bytes) (serial : Z) (T : list record) (p : Parsed) : Prop := {
  im_kind : p_kind p = FullImage;
  im_ok : parsed_ok p;
  im_origin : lowercase (p_origin p) = wire_name os;
  im_serial : p_serial p = serial;
  im_set : ∀ r, r ∈ p_a p ↔ r ∈ T }.

Lemma lowercase_twice b : lowercase (lowercase b) = lowercase b.
Proof. unfold lowercase. rewrite map_map. apply map_ext. apply ascii_lower_idemp. Qed.
Lemma ascii_of_lower b : ascii (lowercase b) → ascii b.
Proof. intros H. apply Forall_fmap in H. eapply Forall_impl; [exact H|]. intros c. simpl. unfold ascii_lower, is_upper. case_match; lia. Qed.

Section auth.
Context {Name : Type} (wide : Z → Z) (compress : bytes → bytes) (decompress : bytes → option bytes) (sha : bytes → bytes).
Hypothesis zstd_round : ∀ raw, decompress (compress raw) = Some raw.
Hypothesis sha_injective : ∀ a b, sha a = sha b → a = b.
(** The origin of the zone, in lower case, and its name as the DNS library packs it. *)
Context (os : list bytes) (origin : bytes).
Hypothesis origin_packed : lowercase origin = wire_name os ∧ ascii origin.
Abbreviation Read := (readBlob decompress).
Abbreviation WriteVersion := (writeVersion (Name := Name) wide compress sha).

Lemma encode_full_parse serial recs raw : is_u32 serial → Forall key_ok recs → Forall (λ r, ascii (Owner r)) recs → len raw ≤ maxServedSize →
  EncodeFull wide (mkImage origin serial recs) = Ok raw → ∃ p, parse raw = Ok p ∧ images_of os serial recs p.
Proof.
  intros Hs Hk Ha Hl E. destruct origin_packed as [Ho Hoa]. assert (Forall record_wf recs) as Hw by by apply key_ok_wf.
  assert (image_wf (mkImage origin serial recs)) as Hi by (split_and!; [by apply ascii_octets|done..]).
  pose proof (encode_full_count _ _ _ _ _ Hw E) as Hn. pose proof (encode_full_bytes _ _ _ Hi E) as Hb.
  pose proof (parse_full _ _ _ Hi ltac:(simpl; unfold maxServedSize in *; lia) Hoa Ha E) as Ep. eexists. split; [exact Ep|].
  split; [done|by apply (post_Ok _ _ _ (parse_post raw Hb))|simpl; by rewrite lowercase_twice|done|]. simpl. intros r. by rewrite SortRecords_perm.
Qed.
Lemma encode_delta_parse S T dl raw : delta_wf dl → dl_Origin dl = origin → Forall (λ r, ascii (Owner r)) (Deleted dl) → Forall (λ r, ascii (Owner r)) (Added dl) →
  NoDup (Deleted dl) → (∀ r, r ∈ Deleted dl → r ∈ S) → (∀ r, r ∈ T ↔ r ∈ Added dl ∨ (r ∈ S ∧ r ∉ Deleted dl)) → len raw ≤ maxServedSize →
  EncodeDelta wide dl = Ok raw → ∃ p, parse raw = Ok p ∧ steps os (FromSerial dl) (ToSerial dl) S T p.
Proof.
  intros Hw Eo Hd Ha Hn Hs HT Hl E. destruct origin_packed as [Ho Hoa]. destruct (encode_delta_count _ _ _ Hw E) as [Nd Na].
  pose proof (encode_delta_bytes _ _ _ Hw E) as Hb. unfold maxServedSize in *.
  pose proof (parse_delta _ _ _ Hw ltac:(lia) ltac:(lia) ltac:(by rewrite Eo) Hd Ha E) as Ep. eexists. split; [exact Ep|].
  split; simpl; [done|by apply (post_Ok _ _ _ (parse_post raw Hb))|by rewrite Eo, lowercase_twice|done| |].
  - rewrite (sort_tail_perm (Deleted dl)). split; [done|]. intros r. rewrite (sort_tail_perm (Deleted dl)). apply Hs.
  - intros r. rewrite (sort_tail_perm (Deleted dl)), (sort_tail_perm (Added dl)). apply HT.
Qed.

(** ** The published history

    [V s] is the version at the sequence number [s], [ser s] its serial and [D s] the delta that led to it. *)
Record published (d : zdb) (z : Zone Name) (V : Z → list record) (ser : Z → Z) (D : Z → Parsed) (first : Z) : Prop := {
  pb_blobs : blobs_ok sha d;
  pb_seq : 0 ≤ first ≤ ImageSeq z ∧ ImageSeq z ≤ CurrentSeq z ∧ (0 < CurrentSeq z → 0 < first);
  pb_serial : is_u32 (Serial z) ∧ (0 < CurrentSeq z → ser (CurrentSeq z) = Serial z);
  pb_sers : ∀ s, 0 < s ≤ CurrentSeq z → is_u32 (ser s) ∧ fit os (ser s) (V s);
  pb_distinct : ∀ s t, 0 < s ≤ CurrentSeq z → 0 < t ≤ CurrentSeq z → ser s = ser t → s = t;
  pb_steps : ∀ s, 1 < s ≤ CurrentSeq z → steps os (ser (s - 1)) (ser s) (V (s - 1)) (V s) (D s);
  pb_image : 0 < CurrentSeq z → ∃ row raw p, images d !! ImageSeq z = Some row ∧ i_serial row = ser (ImageSeq z) ∧
    Read d (i_sha row) = Ok raw ∧ len raw ≤ MAX_ZONE_BLOB ∧ parse raw = Ok p ∧ images_of os (ser (ImageSeq z)) (V (ImageSeq z)) p;
  pb_images : ∀ s row, images d !! s = Some row → s ≤ CurrentSeq z;
  pb_journal : ∀ s, journal d !! s ≠ None ↔ first < s ≤ CurrentSeq z;
  pb_rows : ∀ s row, journal d !! s = Some row → from_serial row = ser (s - 1) ∧ to_serial row = ser s ∧
    ∃ raw, Read d (j_sha row) = Ok raw ∧ len raw ≤ MAX_ZONE_BLOB ∧ parse raw = Ok (D s) }.

(** The blobs of a version are within the size the engine reads. *)
Definition blob_fits (d : zdb) (seq : Z) : Prop :=
  (∀ row, journal d !! seq = Some row → j_size row ≤ MAX_ZONE_BLOB) ∧ (∀ row, images d !! seq = Some row → i_size row ≤ MAX_ZONE_BLOB).
(** The delta from the version [S] to the new version [T]. *)
Definition delta_next (z : Zone Name) (serial : Z) (S T : list record) (dl : option Delta) : Prop :=
  match dl with
  | None => CurrentSeq z = 0
  | Some dl => 0 < CurrentSeq z ∧ dl_Origin dl = origin ∧ FromSerial dl = Serial z ∧ ToSerial dl = serial ∧
      NoDup (Deleted dl) ∧ (∀ r, r ∈ Deleted dl → r ∈ S) ∧ ∀ r, r ∈ T ↔ r ∈ Added dl ∨ (r ∈ S ∧ r ∉ Deleted dl)
  end.
Lemma fit_keys serial T : fit os serial T → Forall key_ok T ∧ Forall (λ r, ascii (Owner r)) T.
Proof. intros (_ & _ & Hk & Ha & _). split; [done|]. eapply Forall_impl; [exact Ha|]. by intros r []. Qed.
Lemma MAX_served n : n ≤ MAX_ZONE_BLOB → n ≤ maxServedSize.
Proof. unfold MAX_ZONE_BLOB, maxServedSize. lia. Qed.

(** The row and the blob of the delta. *)
Lemma published_delta d z V ser D first T serial dl d1 : let seq := CurrentSeq z + 1 in
  published d z V ser D first → is_u32 serial → fit os serial T → delta_next z serial (V (CurrentSeq z)) T dl →
  match dl with
  | None => Ok d
  | Some dl =>
      raw ← lift (EncodeDelta wide dl);
      let '(d1, k) := putBlob compress sha d raw in
      insert_journal d1 seq (mkJrow (FromSerial dl) (ToSerial dl) k (len raw))
  end = Ok d1 → (∀ row, journal d1 !! seq = Some row → j_size row ≤ MAX_ZONE_BLOB) →
  blobs_ok sha d1 ∧ blobs d ⊆ blobs d1 ∧ images d1 = images d ∧ (∀ s, s ≤ CurrentSeq z → journal d1 !! s = journal d !! s) ∧
  (∀ s row, journal d1 !! s = Some row → s ≤ seq) ∧ (journal d1 !! seq ≠ None ↔ 0 < CurrentSeq z) ∧
  ∃ p, (0 < CurrentSeq z → steps os (Serial z) serial (V (CurrentSeq z)) T p) ∧
    ∀ row, journal d1 !! seq = Some row → from_serial row = Serial z ∧ to_serial row = serial ∧
      ∃ raw, Read d1 (j_sha row) = Ok raw ∧ len raw ≤ MAX_ZONE_BLOB ∧ parse raw = Ok p.
Proof.
  intros seq HP Hs HT Hdl H1 Hsz. destruct HP as [Hb Hseq [Hzs Hz] Hsers _ _ _ _ Hj _].
  destruct (journal_written wide compress decompress sha zstd_round sha_injective d z dl d1 Hb) as (Hb1 & Hsub & Hi & Hjl & Hjs & Hdl1); [|exact H1|].
  { intros s row E. apply Hj. by rewrite E. }
  split_and!; [done..| |].
  - destruct dl as [dl|]; simpl in Hdl.
    + destruct Hdl1 as (raw & row & _ & Er & _). fold seq in Er. rewrite Er. naive_solver.
    + injection H1 as <-. rewrite Hj. unfold seq. lia.
  - destruct dl as [dl|].
    + destruct Hdl as (Hc & Eo & Ef & Et & Hnd & Hsub' & HTd). destruct Hdl1 as (raw & row & E & Er & Esz & Hrd & Efr & Eto). fold seq in Er.
      pose proof (Hsz row Er) as Hl. rewrite Esz in Hl. destruct (fit_keys _ _ HT) as [Tk Ta]. destruct (Hsers (CurrentSeq z)) as [_ HV]; [lia|]. destruct (fit_keys _ _ HV) as [Vk Va].
      rewrite Forall_forall in Tk, Ta, Vk, Va.
      assert (Forall key_ok (Deleted dl) ∧ Forall key_ok (Added dl)) as [Kd Ka] by (split; apply Forall_forall; intros r Hr; [apply Vk|apply Tk, HTd]; auto).
      destruct (encode_delta_parse (V (CurrentSeq z)) T dl raw) as (p & Ep & Hp); [|done|apply Forall_forall; auto|apply Forall_forall; intros r Hr; apply Ta, HTd; auto|done..|by apply MAX_served|done|].
      { unfold delta_wf. rewrite Eo, Ef, Et. destruct origin_packed as [_ Hoa]. split_and!; [by apply ascii_octets|done|done|by apply key_ok_wf..]. }
      rewrite Ef, Et in Hp. exists p. split; [done|]. intros row' Er'. rewrite Er in Er'. injection Er' as <-. split_and!; [congruence..|]. exists raw. split_and!; [by apply Hrd, MAX_served|done..].
    + simpl in Hdl. injection H1 as <-. exists (mkParsed DeltaImage [] 0 0 [] []). split; [lia|]. intros row E. assert (journal d !! seq ≠ None) as Hn by by rewrite E. apply Hj in Hn. unfold seq in Hn. lia.
Qed.

(** The row and the blob of the image, when there is one. *)
Lemma published_image d1 (z : Zone Name) T serial recs d2 z2 : let seq := CurrentSeq z + 1 in
  blobs_ok sha d1 → is_u32 serial → fit os serial T → Forall key_ok recs → (∀ r, r ∈ recs ↔ r ∈ T) →
  writeImage wide compress sha d1 z origin seq serial recs = Ok (d2, z2) → (∀ row, images d2 !! seq = Some row → i_size row ≤ MAX_ZONE_BLOB) →
  z2 = set_image z seq ∧ blobs_ok sha d2 ∧ blobs d1 ⊆ blobs d2 ∧ journal d2 = journal d1 ∧
  (∀ s row, images d2 !! s = Some row → s = seq ∨ images d1 !! s = Some row) ∧
  ∃ row raw p, images d2 !! seq = Some row ∧ i_serial row = serial ∧ Read d2 (i_sha row) = Ok raw ∧ len raw ≤ MAX_ZONE_BLOB ∧ parse raw = Ok p ∧ images_of os serial T p.
Proof.
  intros seq Hb Hs HT Hk HR Hw Hsz. destruct origin_packed as [_ Hoa]. destruct (fit_keys _ _ HT) as [_ Ta].
  destruct (writeImage_served wide compress decompress sha zstd_round sha_injective _ _ _ _ _ _ _ _ Hb (ascii_octets _ Hoa) Hs Hk Hw) as (-> & H2 & H3 & H4 & H5 & row & raw & img & Er & Erd & _ & _ & Ei & Esz & E).
  { intros row Er. by apply MAX_served, Hsz. }
  pose proof (Hsz row Er) as Hl. rewrite Esz in Hl. destruct (encode_full_parse serial recs raw) as (p & Ep & [P1 P2 P3 P4 P5]); [done..| |by apply MAX_served|done|].
  { apply Forall_forall. intros r Hr%HR. by eapply Forall_forall in Ta. }
  split_and!; [done..|]. exists row, raw, p. split_and!; [done..|]. split; [done..|]. intros r. by rewrite P5.
Qed.

Lemma writeImage_journal d (z : Zone Name) seq serial recs d' z' : writeImage wide compress sha d z origin seq serial recs = Ok (d', z') → journal d' = journal d.
Proof.
  intros (raw & _ & H)%bind_Ok. unfold putBlob in H. apply bind_Ok in H as (d3 & Hi & [= <- _]). unfold insert_image in Hi. case_match; [done|]. by injection Hi as <-.
Qed.
Lemma writeImage_zone d (z : Zone Name) seq serial recs d' z' : writeImage wide compress sha d z origin seq serial recs = Ok (d', z') → z' = set_image z seq.
Proof. intros (raw & _ & H)%bind_Ok. unfold putBlob in H. by apply bind_Ok in H as (d3 & _ & [= _ <-]). Qed.
Lemma pruned_iff (j : gmap Z jrow) (a b first cur : Z) : (∀ s, j !! s ≠ None ↔ first < s ≤ cur) →
  ∀ s, filter (λ p : Z * jrow, ¬ (p.1 ≤ a ∧ p.1 ≤ b)) j !! s ≠ None ↔ Z.max first (Z.min a b) < s ≤ cur.
Proof.
  intros Hj s. assert (filter (λ p : Z * jrow, ¬ (p.1 ≤ a ∧ p.1 ≤ b)) j !! s ≠ None ↔ j !! s ≠ None ∧ ¬ (s ≤ a ∧ s ≤ b)) as ->.
  - destruct (filter _ j !! s) as [row|] eqn:E.
    + apply map_lookup_filter_Some in E as [-> ?]. naive_solver.
    + split; [done|]. intros [Hs Hn]. destruct (j !! s) as [row|] eqn:Es; [|done]. apply map_lookup_filter_None in E as [E|E]; [congruence|]. by destruct (E row Es).
  - rewrite Hj. lia.
Qed.

(** Later versions leave the earlier ones as they were. *)
Lemma published_prefix d z V ser D first T serial p : let seq := CurrentSeq z + 1 in
  published d z V ser D first → is_u32 serial → fit os serial T → (∀ s, 0 < s ≤ CurrentSeq z → ser s ≠ serial) →
  (0 < CurrentSeq z → steps os (Serial z) serial (V (CurrentSeq z)) T p) →
  let V' := <[seq := T]> V in let ser' := <[seq := serial]> ser in let D' := <[seq := p]> D in
  (∀ s, 0 < s ≤ seq → is_u32 (ser' s) ∧ fit os (ser' s) (V' s)) ∧
  (∀ s t, 0 < s ≤ seq → 0 < t ≤ seq → ser' s = ser' t → s = t) ∧
  (∀ s, 1 < s ≤ seq → steps os (ser' (s - 1)) (ser' s) (V' (s - 1)) (V' s) (D' s)).
Proof.
  intros seq [_ Hseq [_ Hz] Hs Hd Hst _ _ _ _] Hu HT Hn Hp V' ser' D'.
  assert (∀ s, s ≤ CurrentSeq z → V' s = V s ∧ ser' s = ser s ∧ D' s = D s) as Hlow.
  { intros s Hl. unfold V', ser', D'. rewrite !fn_lookup_insert_ne by lia. done. }
  assert (V' seq = T ∧ ser' seq = serial ∧ D' seq = p) as (EV & Es & ED) by (unfold V', ser', D'; by rewrite !fn_lookup_insert).
  split_and!.
  - intros s Hr. destruct (decide (s = seq)) as [->|]; [by rewrite EV, Es|]. destruct (Hlow s) as (-> & -> & _); [lia|]. apply Hs. lia.
  - intros s t Hr Ht. destruct (decide (s = seq)) as [->|], (decide (t = seq)) as [->|]; [done| | |].
    + rewrite Es. destruct (Hlow t) as (_ & -> & _); [lia|]. intros E. by destruct (Hn t ltac:(lia)).
    + rewrite Es. destruct (Hlow s) as (_ & -> & _); [lia|]. intros E. by destruct (Hn s ltac:(lia)).
    + destruct (Hlow t) as (_ & -> & _); [lia|]. destruct (Hlow s) as (_ & -> & _); [lia|]. apply Hd; lia.
  - intros s Hr. destruct (Hlow (s - 1)) as (-> & -> & _); [lia|]. destruct (decide (s = seq)) as [->|].
    + rewrite EV, Es, ED. unfold seq in *. replace (CurrentSeq z + 1 - 1) with (CurrentSeq z) by lia. rewrite Hz by lia. apply Hp. lia.
    + destruct (Hlow s) as (-> & -> & ->); [lia|]. apply Hst. lia.
Qed.

Lemma published_current d z V ser D first T serial image due force d1 d2 z2 : let seq := CurrentSeq z + 1 in
  published d z V ser D first → is_u32 serial → fit os serial T → image_for T image → blobs_ok sha d1 → blobs d ⊆ blobs d1 → images d1 = images d →
  needImage d1 z seq = Ok due →
  (if due || force then recs ← image; writeImage wide compress sha d1 z origin seq serial recs else Ok (d1, z)) = Ok (d2, z2) →
  (∀ row, images d2 !! seq = Some row → i_size row ≤ MAX_ZONE_BLOB) →
  blobs_ok sha d2 ∧ blobs d1 ⊆ blobs d2 ∧ journal d2 = journal d1 ∧ (ImageSeq z2 = seq ∨ ImageSeq z2 = ImageSeq z ∧ 0 < CurrentSeq z) ∧
  (∀ s row, images d2 !! s = Some row → s ≤ seq) ∧
  ∃ row raw p, images d2 !! ImageSeq z2 = Some row ∧ i_serial row = <[seq := serial]> ser (ImageSeq z2) ∧ Read d2 (i_sha row) = Ok raw ∧
    len raw ≤ MAX_ZONE_BLOB ∧ parse raw = Ok p ∧ images_of os (<[seq := serial]> ser (ImageSeq z2)) (<[seq := T]> V (ImageSeq z2)) p.
Proof.
  intros seq [_ Hseq _ _ _ _ Him Hims _ _] Hu HT Himg Hb1 Hsub Hi Hdue H2 Hsz. destruct (due || force) eqn:Edue.
  - apply bind_Ok in H2 as (recs & Hrecs & H2). destruct (Himg recs Hrecs) as [Hk HR].
    destruct (published_image d1 z T serial recs d2 z2 Hb1 Hu HT Hk HR H2 Hsz) as (-> & H3 & H4 & H5 & H6 & row & raw & p & H7). split_and!; [done..|by left| |].
    + intros s row' [->|E]%H6; [done|]. rewrite Hi in E. apply Hims in E. unfold seq. lia.
    + exists row, raw, p. simpl. rewrite !fn_lookup_insert. exact H7.
  - injection H2 as <- <-. apply orb_false_iff in Edue as [-> ->].
    assert (0 < CurrentSeq z) as Hc. { destruct (decide (CurrentSeq z = 0)) as [E|]; [|lia]. rewrite needImage_first in Hdue by lia. done. }
    destruct (Him Hc) as (row & raw & p & E1 & E2 & E3 & E4). rewrite !fn_lookup_insert_ne by (unfold seq; lia).
    split_and!; [done..|by right| |].
    + intros s row' E. rewrite Hi in E. apply Hims in E. unfold seq. lia.
    + exists row, raw, p. rewrite Hi. split; [done|]. split; [done|]. split; [by eapply readBlob_mono|exact E4].
Qed.

Lemma published_write d z V ser D first T serial dl force image d' z' : let seq := CurrentSeq z + 1 in
  published d z V ser D first → is_u32 serial → fit os serial T → (∀ s, 0 < s ≤ CurrentSeq z → ser s ≠ serial) →
  delta_next z serial (V (CurrentSeq z)) T dl → image_for T image →
  WriteVersion d z origin serial dl force image = Ok (d', z') → blob_fits d' seq →
  CurrentSeq z' = seq ∧ ∃ p first', published d' z' (<[seq := T]> V) (<[seq := serial]> ser) (<[seq := p]> D) first'.
Proof.
  intros seq HP Hs HT Hn Hdl Himg Hw [Hfj Hfi]. unfold writeVersion in Hw.
  apply bind_Ok in Hw as (d1 & H1 & (due & Hdue & ([d2 z2] & H2 & [= <- <-])%bind_Ok)%bind_Ok). simpl in Hfj, Hfi. split; [done|].
  assert (journal d2 = journal d1) as Hj2.
  { destruct (due || force); [|by injection H2 as <- <-]. apply bind_Ok in H2 as (recs & _ & H2). by apply writeImage_journal in H2. }
  destruct (published_delta d z V ser D first T serial dl d1 HP Hs HT Hdl H1) as (Hb1 & Hsub1 & Hi1 & Hjl & Hjs & Hjn & p & Hp & Hrow).
  { intros row Er. apply Hfj. rewrite Hj2. apply map_lookup_filter_Some. split; [done|]. simpl. unfold journalKept. lia. }
  destruct (published_current d z V ser D first T serial image due force d1 d2 z2) as (Hb2 & Hsub2 & _ & Hi2 & Hims2 & Him2); [done..|].
  destruct (published_prefix d z V ser D first T serial p HP Hs HT Hn Hp) as (Hs' & Hd' & Hst'). pose proof HP as [_ Hseq [_ Hz] _ _ _ _ _ Hj Hrows].
  fold seq in Hs', Hd', Hst', Hjs, Hjn, Hrow, Hi2, Hims2, Him2.
  set (first1 := if CurrentSeq z =? 0 then seq else first).
  assert (∀ s, journal d1 !! s ≠ None ↔ first1 < s ≤ seq) as Hj1.
  { intros s. unfold first1. destruct (Z.ltb_spec seq s); [|destruct (decide (s = seq)) as [->|]].
    - split; [|lia]. destruct (journal d1 !! s) as [row|] eqn:E; [|done]. apply Hjs in E. lia.
    - rewrite Hjn. destruct (Z.eqb_spec (CurrentSeq z) 0); unfold seq; lia.
    - rewrite Hjl, Hj by (unfold seq in *; lia). destruct (Z.eqb_spec (CurrentSeq z) 0); unfold seq in *; lia. }
  exists p, (Z.max first1 (Z.min (seq - journalKept) (ImageSeq z2))).
  assert (z2 = set_image z (ImageSeq z2)) as Ez2.
  { destruct (due || force); [|injection H2 as <- <-; by destruct z]. apply bind_Ok in H2 as (recs & _ & H2). by apply writeImage_zone in H2 as ->. }
  rewrite Ez2. split; simpl.
  - done.
  - unfold first1, journalKept, seq in *. destruct (Z.eqb_spec (CurrentSeq z) 0); lia.
  - rewrite fn_lookup_insert. done.
  - exact Hs'.
  - exact Hd'.
  - exact Hst'.
  - intros _. exact Him2.
  - exact Hims2.
  - intros s. rewrite Hj2. by apply pruned_iff.
  - intros s row Er%pruned_Some. rewrite Hj2 in Er. assert (first1 < s ≤ seq) as Hr by (apply Hj1; by rewrite Er). destruct (decide (s = seq)) as [->|].
    + rewrite !fn_lookup_insert. destruct (Hrow row Er) as (E1 & E2 & raw & E3 & E4). unfold seq at 1. rewrite fn_lookup_insert_ne by lia.
      replace (seq - 1) with (CurrentSeq z) by (unfold seq; lia). rewrite Hz by (unfold first1, seq in *; destruct (Z.eqb_spec (CurrentSeq z) 0); lia).
      split_and!; [done..|]. exists raw. split; [by eapply readBlob_mono|done].
    + rewrite !fn_lookup_insert_ne by lia. rewrite Hjl in Er by (unfold seq in *; lia). destruct (Hrows s row Er) as (E1 & E2 & raw & E3 & E4).
      split_and!; [done..|]. exists raw. split; [|done]. eapply readBlob_mono; [|done]. by trans (blobs d1).
Qed.
End auth.
