(* ===== verification/AuthSystem.v ===== *)
(** * From the journal to the engine

    The management plane's tables and the engine's loader together: the message [auth_zone] builds from
    a published history passes [validate], and loading it gives the engine exactly the current version,
    from nothing or from any version it loaded before. *)

From stdpp Require Import functions.
From S2P Require Import Prelude.
From S2P Require Import GoText.
From S2P Require Import NzfNames.
From S2P Require Import NzfFormat.
From S2P Require Import NzfTheorems.
From S2P Require Import ZoneJournal.
From S2P Require Import ZoneServed.
From S2P Require Import EngineName.
From S2P Require Import EngineNzf.
From S2P Require Import EngineZone.
From S2P Require Import EngineContent.
From S2P Require Import EngineFinal.
From S2P Require Import EngineFlags.
From S2P Require Import EngineLoader.
From S2P Require Import AuthZones.

(** ** Sequences of rows *)
Lemma omap_Forall2 {A B} (f : A → option B) (R : A → B → Prop) l : Forall (λ x, ∃ y, f x = Some y ∧ R x y) l → Forall2 R l (omap f l).
Proof. induction 1 as [|x l (y & E & HR) Hl IH]; simpl; [done|]. rewrite E. by constructor. Qed.
Lemma omap_None {A B} (f : A → option B) l : Forall (λ x, f x = None) l → omap f l = [].
Proof. induction 1 as [|x l E Hl IH]; simpl; [done|]. by rewrite E. Qed.
Lemma contiguous_of l : (∀ i a b, l !! i = Some a → l !! S i = Some b → zd_to_serial a = zd_from_serial b) → contiguous l = true.
Proof.
  induction l as [|x l IH]; intros H; [done|]. destruct l as [|y l]; [done|]. cbn [contiguous]. rewrite (H 0%nat x y) by done. rewrite Z.eqb_refl.
  apply IH. intros i a b. apply (H (S i)).
Qed.
Lemma filter_seqZ m n k : 0 ≤ n - m → 0 ≤ k - m → n ≤ k → filter (λ s, s ≤ n) (seqZ (m + 1) (k - m)) = seqZ (m + 1) (n - m).
Proof.
  intros H1 H2 H3. replace (k - m) with ((n - m) + (k - n)) by lia. rewrite seqZ_app by lia. rewrite filter_app.
  assert (∀ l : list Z, Forall (λ s, s ≤ n) l → filter (λ s, s ≤ n) l = l) as Hall by (intros l; induction 1; [done|]; rewrite filter_cons_True by done; by f_equal).
  assert (∀ l : list Z, Forall (λ s, n < s) l → filter (λ s, s ≤ n) l = []) as Hnone by (intros l; induction 1; [done|]; by rewrite filter_cons_False by lia).
  rewrite Hall, Hnone; [by rewrite app_nil_r|apply Forall_forall; intros s Hs%elem_of_seqZ; lia..].
Qed.

Section system.
Context {Name Settings Policy : Type} `{EqDecision Policy} (no_policy : Policy) (policy_of : Settings → Policy).
Context (decompress : bytes → option bytes) (sha : bytes → bytes).
Context (os : list bytes).
Hypothesis os_ok : origin_ok os.
(** The engine's blob store holds what the management plane stored, and both read the same zstd frames. *)
Context (store zstd : bytes → option bytes).
Hypothesis zstd_agrees : ∀ b raw, decompress b = Some raw → zstd b = Some raw.
Definition stored (d : zdb) : Prop := ∀ k b, blobs d !! k = Some b → store k = Some b.
(** The names of the blobs are 64 hexadecimal digits, as SHA-256 prints. *)
Definition hex_keys (d : zdb) : Prop := ∀ k b, blobs d !! k = Some b → is_sha256_hex k = true.
Abbreviation Published := (published (Name := Name) decompress sha os).
Abbreviation Read := (readBlob decompress).

Lemma read_present d k raw : Read d k = Ok raw → ∃ b, blobs d !! k = Some b ∧ decompress b = Some raw.
Proof.
  unfold readBlob, Decompress. destruct (blobs d !! k) as [b|]; [|done]. destruct (_ <=? _); [done|]. destruct (decompress b) as [out|] eqn:E; [|done].
  destruct (_ <? _); [done|]. intros [= ->]. eauto.
Qed.
Lemma read_hex d k raw : hex_keys d → Read d k = Ok raw → is_sha256_hex k = true.
Proof. intros Hb (b & E & _)%read_present. by eapply Hb. Qed.
Lemma read_engine d k raw p : stored d → Read d k = Ok raw → len raw ≤ MAX_ZONE_BLOB → parse raw = Ok p → load_read store zstd k = Ok raw ∧ load_parse raw = Ok p.
Proof.
  intros Hst (b & E & Ed)%read_present Hl Ep. unfold load_read, nz_decompress, load_parse. rewrite (Hst _ _ E), (zstd_agrees _ _ Ed), Ep.
  by rewrite (proj2 (Z.ltb_ge _ _)) by done.
Qed.

(** The engine holds the version [n] of the history, with deltas of the history for its transfers. *)
Record holds (V : Z → list record) (ser : Z → Z) (D : Z → Parsed) (cur : Z) (o : EZone Policy) (n : Z) : Prop := {
  ho_seq : 0 < n ≤ cur;
  ho_serial : ez_serial o = ser n;
  ho_zone : zone_of os (V n) o;
  ho_deltas : ∀ r, r ∈ ez_deltas o → ∃ s, 1 < s ≤ cur ∧ r = from_parsed (D s) }.

Section one.
Context (d : zdb) (z : Zone Name) (V : Z → list record) (ser : Z → Z) (D : Z → Parsed) (first : Z).
Context (HP : Published d z V ser D first) (Hcur : 0 < CurrentSeq z) (Hhex : hex_keys d).
(** The first version a listed delta starts from. *)
Definition base : Z := Z.max first (listed_from z).
Lemma base_bounds : 0 < base ≤ ImageSeq z ∧ ImageSeq z ≤ CurrentSeq z.
Proof. destruct HP as [_ H _ _ _ _ _ _ _ _]. unfold base, listed_from. lia. Qed.
Lemma u32_ser s : 0 < s ≤ CurrentSeq z → u32 (ser s) = ser s.
Proof. intros Hs. apply u32_small. by apply (pb_sers _ _ _ _ _ _ _ _ _ HP). Qed.

Definition row_of (s : Z) (p : Z * ZoneDelta) : Prop := ∃ row, journal d !! s = Some row ∧ p = (s, mkZoneDelta (ser (s - 1)) (ser s) (Some (j_sha row))).
Lemma listed_rows : Forall2 row_of (seqZ (base + 1) (CurrentSeq z - base)) (listed d z).
Proof.
  pose proof base_bounds as Hb. unfold listed. assert (listed_from z ≤ base) by (unfold base; lia).
  replace (CurrentSeq z - listed_from z) with ((base - listed_from z) + (CurrentSeq z - base)) by lia. rewrite seqZ_app, omap_app by lia.
  rewrite (omap_None _ (seqZ (listed_from z + 1) (base - listed_from z))).
  - replace (listed_from z + 1 + (base - listed_from z)) with (base + 1) by lia. apply omap_Forall2, Forall_forall. intros s Hs%elem_of_seqZ.
    assert (journal d !! s ≠ None) as Hn by (apply (pb_journal _ _ _ _ _ _ _ _ _ HP); unfold base in *; lia).
    destruct (journal d !! s) as [row|] eqn:E; [|done]. destruct (pb_rows _ _ _ _ _ _ _ _ _ HP s row E) as (E1 & E2 & raw & (b & Eb & _)%read_present & _).
    eexists. unfold listed_row. rewrite E. cbn [mbind option_bind]. rewrite Eb. cbn [mbind option_bind]. split; [done|]. exists row. split; [done|].
    rewrite E1, E2, !u32_ser by lia. done.
  - apply Forall_forall. intros s Hs%elem_of_seqZ. unfold listed_row. destruct (journal d !! s) as [row|] eqn:E; [|done].
    assert (first < s ≤ CurrentSeq z) by (apply (pb_journal _ _ _ _ _ _ _ _ _ HP); by rewrite E). unfold base in *. lia.
Qed.
Abbreviation deltas := (map snd (listed d z)).
Lemma deltas_length : Z.of_nat (length deltas) = CurrentSeq z - base.
Proof. pose proof base_bounds. rewrite length_map, <- (Forall2_length _ _ _ listed_rows), length_seqZ. lia. Qed.
Lemma deltas_lookup i zd : deltas !! i = Some zd → ∃ row, let s := base + 1 + Z.of_nat i in
  s ≤ CurrentSeq z ∧ journal d !! s = Some row ∧ zd = mkZoneDelta (ser (s - 1)) (ser s) (Some (j_sha row)).
Proof.
  change deltas with (snd <$> listed d z). rewrite list_lookup_fmap. destruct (listed d z !! i) as [p|] eqn:E; [|done]. intros [= <-].
  destruct (Forall2_lookup_r _ _ _ _ _ listed_rows E) as (s & [-> Hs]%lookup_seqZ & row & Er & ->). exists row. simpl. split_and!; [lia|done..].
Qed.
Lemma listed_offset : len (filter (λ p, p.1 ≤ ImageSeq z) (listed d z)) = ImageSeq z - base.
Proof.
  pose proof base_bounds. assert (∀ ss l, Forall2 row_of ss l → length (filter (λ p : Z * ZoneDelta, p.1 ≤ ImageSeq z) l) = length (filter (λ s, s ≤ ImageSeq z) ss)) as Hl.
  { induction 1 as [|s p ss l (row & _ & ->) Hl IH]; [done|]. rewrite !filter_cons. simpl. case_decide; simpl; lia. }
  unfold len. rewrite (Hl _ _ listed_rows), filter_seqZ by lia. rewrite length_seqZ. lia.
Qed.

Definition listing (name : bytes) (expired : bool) (settings : Settings) (image : bytes) : AuthZone Settings :=
  mkAuthZone name (Serial z) (Some image) (ser (ImageSeq z)) (ImageSeq z - base) deltas expired settings.
Lemma auth_zone_listing name expired settings : ∃ row raw p, images d !! ImageSeq z = Some row ∧ Read d (i_sha row) = Ok raw ∧ len raw ≤ MAX_ZONE_BLOB ∧
  parse raw = Ok p ∧ images_of os (ser (ImageSeq z)) (V (ImageSeq z)) p ∧
  auth_zone d name z expired settings = Some (listing name expired settings (i_sha row)).
Proof.
  pose proof base_bounds. destruct (pb_image _ _ _ _ _ _ _ _ _ HP Hcur) as (row & raw & p & E & Es & Er & Hl & Hp & Hi). exists row, raw, p. split_and!; [done..|].
  destruct (read_present _ _ _ Er) as (b & Eb & _). unfold auth_zone. rewrite E. cbn [mbind option_bind]. rewrite Eb. cbn [mbind option_bind].
  rewrite listed_offset, Es, u32_ser by lia. rewrite u32_small by apply (pb_serial _ _ _ _ _ _ _ _ _ HP). done.
Qed.
Lemma listing_valid name expired settings image : is_sha256_hex image = true → validate_chain (listing name expired settings image) = Ok tt.
Proof.
  intros Hi. pose proof base_bounds as Hb. pose proof deltas_length as Hlen. destruct (pb_serial _ _ _ _ _ _ _ _ _ HP) as [_ Hser]. unfold validate_chain. simpl. rewrite Hi. cbn [negb].
  assert (forallb (λ zd, match zd_blob zd with Some b => is_sha256_hex b | None => false end) deltas = true) as ->.
  { apply forallb_forall. intros zd [i (row & _ & Er & ->)%deltas_lookup]%list_elem_of_In%list_elem_of_lookup. simpl.
    destruct (pb_rows _ _ _ _ _ _ _ _ _ HP _ _ Er) as (_ & _ & raw & Hr & _). by eapply read_hex. }
  cbn [negb]. rewrite contiguous_of.
  2:{ intros i a b (ra & _ & _ & ->)%deltas_lookup (rb & _ & _ & ->)%deltas_lookup. simpl. f_equal. lia. }
  cbn [negb]. assert (match last deltas with Some zd => negb (zd_to_serial zd =? Serial z) | None => false end = false) as ->.
  { destruct (last deltas) as [zd|] eqn:E; [|done]. rewrite last_lookup in E. apply deltas_lookup in E as (row & Hs & _ & ->). simpl.
    rewrite <- (Hser Hcur). replace (base + 1 + Z.of_nat (Init.Nat.pred (length deltas))) with (CurrentSeq z) by lia. by rewrite Z.eqb_refl. }
  rewrite (proj2 (Z.ltb_ge _ _)) by (unfold len; lia).
  assert (match idx deltas (ImageSeq z - base) with Some zd => zd_from_serial zd =? ser (ImageSeq z) | None => ser (ImageSeq z) =? Serial z end = true) as ->; [|done].
  destruct (idx deltas (ImageSeq z - base)) as [zd|] eqn:E.
  - unfold idx in E. rewrite (proj2 (Z.ltb_ge _ _)) in E by lia. apply deltas_lookup in E as (row & _ & _ & ->). simpl. apply Z.eqb_eq. f_equal. lia.
  - unfold idx in E. rewrite (proj2 (Z.ltb_ge _ _)) in E by lia. apply lookup_ge_None in E. rewrite <- (Hser Hcur). apply Z.eqb_eq. f_equal. lia.
Qed.

(** ** The versions the engine passes through *)
Definition parsed_deltas : list Parsed := map D (seqZ (base + 1) (CurrentSeq z - base)).
Lemma parsed_lookup i p : parsed_deltas !! i = Some p → base + 1 + Z.of_nat i ≤ CurrentSeq z ∧ p = D (base + 1 + Z.of_nat i).
Proof.
  change parsed_deltas with (D <$> seqZ (base + 1) (CurrentSeq z - base)). rewrite list_lookup_fmap. destruct (seqZ _ _ !! i) as [s|] eqn:E; [|done].
  apply lookup_seqZ in E as [-> ?]. intros [= <-]. split; [lia|done].
Qed.
Lemma parsed_length : Z.of_nat (length parsed_deltas) = CurrentSeq z - base.
Proof. pose proof base_bounds. unfold parsed_deltas. rewrite length_map, length_seqZ. lia. Qed.
Lemma steps_advanced S s : 1 < s ≤ CurrentSeq z → (∀ r, r ∈ S ↔ r ∈ V (s - 1)) → ∀ r, r ∈ advanced S (D s) ↔ r ∈ V s.
Proof.
  intros Hs HS r. destruct (pb_steps _ _ _ _ _ _ _ _ _ HP s Hs) as [_ _ _ _ [_ Hsub] Hset]. destruct (pb_sers _ _ _ _ _ _ _ _ _ HP (s - 1)) as (_ & _ & _ & _ & _ & Hinj); [lia|].
  unfold advanced, withouts. rewrite elem_of_app, list_elem_of_filter, HS, Hset.
  assert (r ∈ V (s - 1) → slot_of r ∉ map slot_of (p_a (D s)) ↔ r ∉ p_a (D s)) as Hslot; [|tauto]. intros Hr. split; intros Hn Hin; apply Hn.
  - by apply list_elem_of_fmap_2.
  - apply list_elem_of_fmap in Hin as (x & E & Hx). by rewrite (Hinj r x Hr (Hsub x Hx) E).
Qed.
Lemma version_at i : base + Z.of_nat i ≤ CurrentSeq z → ∀ r, r ∈ version (V base) parsed_deltas i ↔ r ∈ V (base + Z.of_nat i).
Proof.
  pose proof base_bounds as Hb. pose proof parsed_length as Hl. induction i as [|i IH]; intros Hi; [intros r; unfold version; simpl; by rewrite Z.add_0_r|].
  destruct (lookup_lt_is_Some_2 parsed_deltas i) as [p Ep]; [lia|]. rewrite (version_S _ _ _ _ Ep). apply parsed_lookup in Ep as [_ ->].
  replace (base + Z.of_nat (S i)) with (base + 1 + Z.of_nat i) by lia. apply steps_advanced; [lia|]. intros r. rewrite IH by lia. by replace (base + 1 + Z.of_nat i - 1) with (base + Z.of_nat i) by lia.
Qed.
Lemma version_last i : (length parsed_deltas ≤ i)%nat → version (V base) parsed_deltas i = version (V base) parsed_deltas (length parsed_deltas).
Proof. intros Hi. unfold version. by rewrite !take_ge by lia. Qed.
Lemma delta_ok_at i p : parsed_deltas !! i = Some p → delta_ok (key_of os) (version (V base) parsed_deltas i) p.
Proof.
  intros Ep. pose proof base_bounds as Hb. pose proof Ep as [Hi ->]%parsed_lookup. set (s := base + 1 + Z.of_nat i) in *.
  destruct (pb_steps _ _ _ _ _ _ _ _ _ HP s) as [_ _ _ [_ Eser] [Hnd Hsub] Hset]; [lia|]. replace (s - 1) with (base + Z.of_nat i) in * by (unfold s; lia).
  destruct (pb_sers _ _ _ _ _ _ _ _ _ HP (base + Z.of_nat i)) as (_ & _ & _ & _ & Hsl & Hinj); [lia|]. destruct (pb_sers _ _ _ _ _ _ _ _ _ HP s) as (_ & _ & Hsoa & _ & Hsl' & _); [lia|].
  rewrite Forall_forall in Hsl, Hsl'. pose proof (version_at i ltac:(lia)) as HV. split_and!.
  - apply NoDup_fmap_2_strong; [|done]. intros a b Ha Hb' E. apply Hinj; auto.
  - apply Forall_forall. intros r Hr. split; [apply Hsl; auto|]. apply list_elem_of_fmap_2, HV. auto.
  - apply Forall_forall. intros r Hr. apply Hsl', Hset. auto.
  - rewrite Eser. eapply soa_ok_ext; [|exact Hsoa]. intros r. symmetry. apply steps_advanced; [lia|]. intros x. rewrite HV. unfold s. by replace (base + 1 + Z.of_nat i - 1) with (base + Z.of_nat i) by lia.
Qed.
Lemma uniform_at i : uniform (version (V base) parsed_deltas i).
Proof.
  pose proof base_bounds as Hb. pose proof parsed_length as Hl.
  assert (∀ j, base + Z.of_nat j ≤ CurrentSeq z → uniform (version (V base) parsed_deltas j)) as Hu.
  { intros j Hj. eapply uniform_ext; [intros r; symmetry; by apply version_at|]. apply (pb_sers _ _ _ _ _ _ _ _ _ HP). lia. }
  destruct (decide (length parsed_deltas ≤ i)%nat); [rewrite version_last by done|]; apply Hu; lia.
Qed.

(** ** Loading *)
Context (Hstored : stored d).
Abbreviation Hist := (history_ok (Settings := Settings) store zstd).
Lemma listing_history name expired settings image : is_sha256_hex image = true → Hist (listing name expired settings image) os (V base) parsed_deltas.
Proof.
  intros Hi. pose proof base_bounds as Hb. pose proof deltas_length as Hdl. pose proof parsed_length as Hpl. split; simpl.
  - apply Forall2_same_length_lookup_2; [lia|]. intros i zd p (row & Hs & Er & ->)%deltas_lookup [_ ->]%parsed_lookup. set (s := base + 1 + Z.of_nat i) in *.
    destruct (pb_rows _ _ _ _ _ _ _ _ _ HP s row Er) as (_ & _ & raw & Hr & Hl & Hp). destruct (read_engine _ _ _ _ Hstored Hr Hl Hp) as [E1 E2].
    destruct (pb_steps _ _ _ _ _ _ _ _ _ HP s) as [Hk Hok Ho [Ef Et] _ _]; [lia|]. split_and!; [|done..].
    unfold parse_delta_of, read_delta. simpl. rewrite E1. cbn [mbind res_bind]. rewrite E2. cbn [mbind res_bind]. unfold check_delta_header. simpl.
    by rewrite bool_decide_eq_true_2, Ef, Et, !Z.eqb_refl by done.
  - intros i p. apply delta_ok_at.
  - apply uniform_at.
  - split; [by apply listing_valid|lia].
  - assert (∀ i zd, deltas !! i = Some zd → base + Z.of_nat i < CurrentSeq z ∧ zd_from_serial zd = ser (base + Z.of_nat i)) as Hf.
    { intros i zd (row & Hs & _ & ->)%deltas_lookup. simpl. split; [lia|f_equal; lia]. }
    assert (∀ i x, map zd_from_serial deltas !! i = Some x → base + Z.of_nat i < CurrentSeq z ∧ x = ser (base + Z.of_nat i)) as Hf'.
    { intros i x. change (map zd_from_serial deltas) with (zd_from_serial <$> deltas). rewrite list_lookup_fmap. destruct (deltas !! i) as [zd|] eqn:E; [|done]. intros [= <-]. by apply Hf. }
    split.
    + apply NoDup_alt. intros i j x [Hi1 ->]%Hf' [Hj1 E]%Hf'. apply (pb_distinct _ _ _ _ _ _ _ _ _ HP) in E; lia.
    + intros [i [Hi1 E]%Hf']%list_elem_of_lookup. destruct (pb_serial _ _ _ _ _ _ _ _ _ HP) as [_ Hser]. rewrite <- (Hser Hcur) in E.
      apply (pb_distinct _ _ _ _ _ _ _ _ _ HP) in E; lia.
Qed.
Lemma listing_image name expired settings : ∃ row, auth_zone d name z expired settings = Some (listing name expired settings (i_sha row)) ∧
  is_sha256_hex (i_sha row) = true ∧ image_ok store zstd (listing name expired settings (i_sha row)) os (V base) parsed_deltas.
Proof.
  pose proof base_bounds as Hb. destruct (auth_zone_listing name expired settings) as (row & raw & p & Er & Erd & Hl & Ep & [I1 I2 I3 I4 I5] & Ea).
  destruct (read_engine _ _ _ _ Hstored Erd Hl Ep) as [E1 E2]. exists row. split_and!; [done|by eapply read_hex|].
  pose proof (version_at (Z.to_nat (ImageSeq z - base)) ltac:(lia)) as HV. replace (base + Z.of_nat (Z.to_nat (ImageSeq z - base))) with (ImageSeq z) in HV by lia.
  destruct (pb_sers _ _ _ _ _ _ _ _ _ HP (ImageSeq z)) as (_ & _ & Hsoa & _ & Hsl & _); [lia|]. rewrite Forall_forall in Hsl. split; simpl.
  - exists (i_sha row), raw, p. split_and!; [done..|]. intros r. by rewrite I5, HV.
  - apply Forall_forall. intros r Hr%HV. by apply Hsl.
  - eapply soa_ok_ext; [|exact Hsoa]. intros r. by rewrite HV.
Qed.
Lemma holds_old name expired settings image o n : is_sha256_hex image = true → holds V ser D (CurrentSeq z) o n → old_ok (listing name expired settings image) os (V base) parsed_deltas o.
Proof.
  intros Hi [Hn Es Hz Hd]. pose proof base_bounds as Hb. pose proof parsed_length as Hpl. destruct (pb_serial _ _ _ _ _ _ _ _ _ HP) as [_ Hser]. split; simpl.
  - rewrite Es, <- (Hser Hcur). intros ->%(pb_distinct _ _ _ _ _ _ _ _ _ HP); [|lia..]. eapply zone_of_ext; [|exact Hz]. intros r. rewrite version_at by lia.
    by replace (base + Z.of_nat (length parsed_deltas)) with (CurrentSeq z) by lia.
  - intros i zd (row & Hs & _ & ->)%deltas_lookup. simpl. rewrite Es. intros E%(pb_distinct _ _ _ _ _ _ _ _ _ HP); [|lia..]. subst n.
    eapply zone_of_ext; [|exact Hz]. intros r. rewrite version_at by lia. by replace (base + 1 + Z.of_nat i - 1) with (base + Z.of_nat i) by lia.
  - intros r i zd p Hr (row & Hs & _ & ->)%deltas_lookup [_ ->]%parsed_lookup _. simpl. destruct (Hd r Hr) as (s & Hs' & ->).
    destruct (pb_steps _ _ _ _ _ _ _ _ _ HP s Hs') as [_ _ _ [_ Et] _ _]. simpl. rewrite Et. intros E%(pb_distinct _ _ _ _ _ _ _ _ _ HP); [|lia..]. by subst s.
Qed.

(** Loading the message of a published zone brings the engine to the current version. *)
Lemma published_loads name expired settings old counts : (∀ o, old = Some o → ∃ n, holds V ser D (CurrentSeq z) o n) →
  ∃ az zn counts', auth_zone d name z expired settings = Some az ∧ validate_chain az = Ok tt ∧
    load_zone no_policy policy_of store zstd az (wire_name os) old counts = Ok (zn, counts') ∧ holds V ser D (CurrentSeq z) zn (CurrentSeq z) ∧
    ez_expired zn = expired ∧ ez_policy zn = policy_of settings.
Proof.
  intros Hold. destruct (listing_image name expired settings) as (row & Ea & Hrow & Himg). pose proof (listing_history name expired settings _ Hrow) as Hh.
  destruct (load_zone_ok no_policy policy_of store zstd _ _ _ _ Hh old counts os_ok Himg) as (zn & counts' & El & Hz & Hs & Hd & He & Hp).
  { intros o Ho. destruct (Hold o Ho) as [n Hn]. by eapply holds_old. }
  pose proof base_bounds as Hb. pose proof parsed_length as Hpl. destruct (pb_serial _ _ _ _ _ _ _ _ _ HP) as [_ Hser].
  eexists _, zn, counts'. split_and!; [exact Ea|by apply listing_valid|exact El| |done|done]. split; [lia|simpl in Hs; rewrite Hs; by rewrite Hser| |].
  - eapply zone_of_ext; [|exact Hz]. intros r. rewrite version_at by lia. by replace (base + Z.of_nat (length parsed_deltas)) with (CurrentSeq z) by lia.
  - intros r. rewrite Hd. intros (p & -> & [i [Hi ->]%parsed_lookup]%list_elem_of_lookup)%list_elem_of_fmap. eexists. split; [|done]. lia.
Qed.
End one.
End system.
