(* ===== verification/AuthRebuild.v ===== *)
(** * Rebuild, publish, load

    [Rebuild] of build.go against the history of [AuthZones]: the delta it writes takes the version
    before to the version after.  A zone's run is a sequence of rebuilds by the management plane and
    loads by an engine, in any order; whenever the engine loads, it serves the version last built. *)

From stdpp Require Import functions.
From S2P Require Import Prelude.
From S2P Require Import GoText.
From S2P Require Import NzfNames.
From S2P Require Import NzfFormat.
From S2P Require Import NzfTheorems.
From S2P Require Import ZoneJournal.
From S2P Require Import ZoneServed.
From S2P Require Import ZoneRebuild.
From S2P Require Import EngineName.
From S2P Require Import EngineNzf.
From S2P Require Import EngineZone.
From S2P Require Import EngineContent.
From S2P Require Import EngineFinal.
From S2P Require Import EngineFlags.
From S2P Require Import EngineLoader.
From S2P Require Import AuthZones.
From S2P Require Import AuthSystem.

(** ** The served serial *)
Lemma soa_serial_served d n : soa_serial d = Some n → 20 ≤ len d ∧ get32 (drop (Z.to_nat (len d - 20)) d) = Some n.
Proof.
  unfold soa_serial. destruct (name_len d) as [m|]; [|done]. simpl. destruct (name_len (drop (Z.to_nat m) d)) as [r|]; [|done]. simpl.
  destruct (Z.eqb_spec (len (drop (Z.to_nat (m + r)) d)) 20) as [E|]; [|done]. unfold len in *. rewrite length_drop in E.
  replace (Z.to_nat (Z.of_nat (length d) - 20)) with (Z.to_nat (m + r)) by lia. split; [lia|done].
Qed.
Lemma covered_soa r : RType r = TypeSOA → slot_of r = Some (canon_key (Owner r), T_SOA, false, RData r).
Proof. intros E. unfold slot_of, covered. by rewrite E. Qed.
Lemma slot_soa r k d : slot_of r = Some (k, T_SOA, false, d) → RType r = TypeSOA ∧ RData r = d.
Proof.
  unfold slot_of, covered. destruct (Z.eqb_spec (RType r) T_RRSIG); cbn [negb]; [|by intros [= _ -> <-]]. destruct (_ <? _); [done|]. by destruct (get16 (RData r)).
Qed.
Lemma served_serial apex n S previous deleted : soa_ok apex n S → (∀ r, r ∈ previous ↔ r ∈ S) → servedSerial (soaWithSigs previous ++ deleted) = Ok n.
Proof.
  intros (d & Hd & (v & r & Hr & Hs & _) & Huniq) Hp. destruct (slot_soa _ _ _ Hs) as [Et _]. unfold soaWithSigs.
  destruct (filter (λ r, RType r = TypeSOA) previous) as [|r0 l] eqn:E.
  - exfalso. assert (r ∈ filter (λ r, RType r = TypeSOA) previous) as Hin by (apply list_elem_of_filter; rewrite Hp; done). rewrite E in Hin. by apply not_elem_of_nil in Hin.
  - assert (r0 ∈ filter (λ r, RType r = TypeSOA) previous) as [Et0 H0%Hp]%list_elem_of_filter by (rewrite E; by left).
    destruct (Huniq (canon_key (Owner r0)) (RData r0) (TTL r0)) as [_ E0]; [exists r0; split_and!; [done|by apply covered_soa|done]|].
    destruct (soa_serial_served _ _ Hd) as [Hl Hg]. cbn [app servedSerial]. rewrite E0, (proj2 (Z.ltb_ge _ _)) by done. by rewrite Hg.
Qed.
Lemma soaWithSigs_NoDup rs deleted : NoDup rs → NoDup deleted → (∀ r, r ∈ deleted → isSOAData r = false) → NoDup (soaWithSigs rs ++ deleted).
Proof.
  intros Hr Hd Hs. apply NoDup_app. split_and!; [|intros r [_ E]%elem_soaWithSigs Hin; by rewrite Hs in E|done].
  unfold soaWithSigs. apply NoDup_app. split_and!; [by apply NoDup_filter| |by apply NoDup_filter].
  intros r [E _]%list_elem_of_filter [[Hn _] _]%list_elem_of_filter. done.
Qed.

Section run.
Context {Name RR Settings Policy : Type} `{EqDecision Policy} (no_policy : Policy) (policy_of : Settings → Policy).
Context (wide : Z → Z) (FromRR : RR → option record) (rr_set_serial : Z → RR → RR).
Context (soaRR : Zone Name → RR) (wireName : Name → option bytes).
Context (compress : bytes → bytes) (decompress : bytes → option bytes) (sha : bytes → bytes).
Context (range_order : gmap bytes record → list record).
Context (Placeholder : Zone Name → RR) (zonemd_Apply : Zone Name → list RR → option (list RR)).
Context (store zstd : bytes → option bytes).
(** What the libraries document, as in [ZoneRebuild] and [AuthSystem]. *)
Hypothesis zstd_round : ∀ raw, decompress (compress raw) = Some raw.
Hypothesis zstd_agrees : ∀ b raw, decompress b = Some raw → zstd b = Some raw.
Hypothesis sha_injective : ∀ a b, sha a = sha b → a = b.
Hypothesis range_all : ∀ m, range_order m ≡ₚ map snd (map_to_list m).
Hypothesis FromRR_ok : ∀ rr r, FromRR rr = Some r → key_ok r.
Hypothesis set_serial_plain : ∀ s rr r, FromRR rr = Some r → isSOAData r = false → FromRR (rr_set_serial s rr) = Some r.
Hypothesis set_serial_soa : ∀ s rr r, FromRR (rr_set_serial s rr) = Some r → isSOAData r = false → FromRR rr = Some r.
Context {Hzonemd : ∀ z, PlainKept FromRR (zonemd_Apply z)}.
Context (os : list bytes) (origin : bytes).
Hypothesis origin_packed : lowercase origin = wire_name os ∧ ascii origin.
Hypothesis os_ok : origin_ok os.

Abbreviation Inv := (journal_inv (Name := Name) wide decompress sha).
Abbreviation Published := (published (Name := Name) decompress sha os).
Abbreviation RebuildFull := (rebuildFull wide FromRR rr_set_serial soaRR wireName compress decompress sha range_order Placeholder zonemd_Apply).
Abbreviation LoadZone := (load_zone (Settings := Settings) no_policy policy_of store zstd).
Abbreviation Holds := (holds (Policy := Policy) os).

Lemma rebuild_delta d z V ser D first previous desired final serial dl force : let S := V (CurrentSeq z) in
  Published d z V ser D first → Inv d z S → (0 < CurrentSeq z → NoDup previous ∧ ∀ r, r ∈ previous ↔ r ∈ S) →
  Forall key_ok desired → Forall key_ok final → (∀ r, r ∈ plain desired ↔ r ∈ plain final) →
  let '(deleted, added) := diffIgnoringSOA previous desired in
  next_delta z origin serial previous deleted added final = Ok (dl, force) → delta_next origin z serial S final dl.
Proof.
  intros S HP HI Hprev Hd Hf Hpl. pose proof (next_delta_for wide decompress sha d z S previous desired final origin serial dl force HI (λ H, proj2 (Hprev H)) Hd Hf Hpl) as Hfor.
  destruct (diffIgnoringSOA previous desired) as [deleted added] eqn:Ed. intros E. specialize (Hfor E). unfold next_delta in E. pose proof (ji_seq _ _ _ _ _ _ HI) as Hseq.
  destruct (Z.ltb_spec 0 (CurrentSeq z)) as [Hc|]; [|injection E as <- <-; simpl; lia]. destruct (Hprev Hc) as [Hnd Hp].
  destruct (pb_sers _ _ _ _ _ _ _ _ _ HP (CurrentSeq z)) as (_ & _ & Hsoa & _); [lia|]. destruct (pb_serial _ _ _ _ _ _ _ _ _ HP) as [_ Hser].
  rewrite (served_serial _ _ _ _ deleted Hsoa Hp) in E. cbn [mbind res_bind] in E. rewrite (Hser Hc), Z.eqb_refl in E. injection E as <- <-.
  destruct Hfor as (_ & _ & _ & _ & _ & _ & HT). unfold diffIgnoringSOA in Ed. injection Ed as Edel _. simpl. do 4 (split; [done|]). split_and!.
  - apply soaWithSigs_NoDup; [done|rewrite <- Edel; by apply NoDup_filter|]. intros r. rewrite <- Edel. by intros [[? _] _]%list_elem_of_filter.
  - intros r [[Hr _]%elem_soaWithSigs|Hr]%elem_of_app; apply Hp; [done|]. rewrite <- Edel in Hr. by apply list_elem_of_filter in Hr as [_ ?].
  - intros r. rewrite (HT eq_refl r), elem_of_app, list_elem_of_filter. simpl. tauto.
Qed.

(** The records of the version [Rebuild] builds from the rows at a serial. *)
Definition built (rows : res zone_err (list RR)) (signer : option Signer) (z : Zone Name) (serial : Z) (recs : list record) : Prop :=
  ∃ desired final, first_desired soaRR Placeholder rows signer z = Ok desired ∧ final_desired rr_set_serial zonemd_Apply signer z desired serial = Ok final ∧
    toRecords FromRR final = Ok recs.
Lemma writeVersion_zone d (z : Zone Name) serial dl force image d' z' : writeVersion wide compress sha d z origin serial dl force image = Ok (d', z') →
  z_Name z' = z_Name z ∧ Serial z' = serial.
Proof.
  intros (d1 & _ & (due & _ & ([d2 z2] & H & [= _ <-])%bind_Ok)%bind_Ok)%bind_Ok. split; [|done]. simpl. destruct (due || force); [|by injection H as _ <-].
  apply bind_Ok in H as (recs & _ & H). by apply writeImage_zone in H as ->.
Qed.
Lemma blob_fits_fits d seq : blob_fits d seq → fits d seq.
Proof. intros [H1 H2]. split; intros row Hr; [apply H1 in Hr|apply H2 in Hr]; by apply MAX_served. Qed.

Lemma delta_next_for (z : Zone Name) serial S T dl force : Forall key_ok S → Forall key_ok T → delta_next origin z serial S T dl → delta_for z origin serial S T force dl.
Proof.
  rewrite !Forall_forall. intros HS HT. destruct dl as [dl|]; [|done]. intros (? & ? & ? & ? & _ & Hd & HTd). simpl. do 4 (split; [done|]). split_and!.
  - apply Forall_forall. auto.
  - apply Forall_forall. intros r Hr. apply HT, HTd. auto.
  - intros _ r. rewrite HTd, elem_of_app, list_elem_of_filter. tauto.
Qed.

Lemma rebuild_published d z V ser D first rows signer opts d' z' recs : let seq := CurrentSeq z + 1 in
  Published d z V ser D first → Inv d z (V (CurrentSeq z)) → wireName (z_Name z) = Some origin → (∀ s, signer = Some s → SignerLaws FromRR s) →
  (∀ n, o_Serial opts = Some n → is_u32 n) → RebuildFull d rows signer z opts = Ok (Some (d', z')) → blob_fits d' seq →
  built rows signer z (Serial z') recs → fit os (Serial z') recs → (∀ s, 0 < s ≤ CurrentSeq z → ser s ≠ Serial z') →
  CurrentSeq z' = seq ∧ z_Name z' = z_Name z ∧ Inv d' z' recs ∧
  ∃ p first', Published d' z' (<[seq := recs]> V) (<[seq := Serial z']> ser) (<[seq := p]> D) first'.
Proof.
  intros seq HP HI Hw Hsl Hser H Hfit (des & fin & Ed & Ef & Er) HT Hn. destruct origin_packed as [_ Hoa]. unfold rebuildFull in H.
  apply bind_Ok in H as (desired & Hdes & (previous & Hprev & (drecs & Hdr & H)%bind_Ok)%bind_Ok).
  destruct (diffIgnoringSOA previous drecs) as [deleted added] eqn:Edf. destruct (_ && _); [done|].
  apply bind_Ok in H as (serial & Hs & (final & Hf & (recs' & Hr & (origin' & Ho & ([dl force] & Hdl & ([d2 z2] & Hwv & [= -> ->])%bind_Ok)%bind_Ok)%bind_Ok)%bind_Ok)%bind_Ok).
  rewrite Hw in Ho. injection Ho as <-. destruct (writeVersion_zone _ _ _ _ _ _ _ _ Hwv) as [En Es]. rewrite Ed in Hdes. injection Hdes as ->. rewrite <- Es, Ef in Hf. injection Hf as ->. rewrite Er in Hr. injection Hr as ->.
  destruct (toRecords_Ok _ FromRR_ok _ _ Hdr) as [Edr Kdr]. destruct (toRecords_Ok _ FromRR_ok _ _ Er) as [Err Kr].
  assert (∀ r, r ∈ plain drecs ↔ r ∈ plain recs') as Hpl.
  { intros r. rewrite <- Edr, <- Err. by eapply final_desired_kept. }
  assert (0 < CurrentSeq z → NoDup previous ∧ ∀ r, r ∈ previous ↔ r ∈ V (CurrentSeq z)) as Hp.
  { intros Hc. rewrite (proj2 (Z.ltb_lt _ _)) in Hprev by done. destruct (loadServed_Inv wide decompress sha range_order range_all d z _ HI Hc) as (out & Eo & ? & ?). rewrite Eo in Hprev. by injection Hprev as <-. }
  pose proof (rebuild_delta d z V ser D first previous drecs recs' serial dl force HP HI Hp Kdr Kr Hpl) as Hnext. rewrite Edf in Hnext. specialize (Hnext Hdl).
  pose proof (nextSerial_u32 z opts serial (ji_serial _ _ _ _ _ _ HI) Hser Hs) as Hu. rewrite Es in *.
  assert (image_for recs' (Ok recs')) as Himg by by intros l [= <-].
  destruct (published_write wide compress decompress sha zstd_round sha_injective os origin origin_packed d z V ser D first recs' serial dl force (Ok recs') d' z' HP Hu HT Hn Hnext Himg Hwv Hfit) as (Ec & p & first' & HP').
  split_and!; [done..| |eauto].
  eapply (writeVersion_served wide compress decompress sha zstd_round sha_injective d z (V (CurrentSeq z)) recs' origin serial dl force (Ok recs')); eauto using ascii_octets, blob_fits_fits.
  apply delta_next_for; [apply HI|done..].
Qed.

(** ** Rebuild from an edit *)
Abbreviation RebuildEdit := (rebuildEdit wide FromRR rr_set_serial soaRR wireName compress sha).
Lemma served_serial_published d z V ser D first : Published d z V ser D first → 0 < CurrentSeq z → served_serial_at d z = Ok (Serial z).
Proof.
  intros HP Hc. destruct (pb_serial _ _ _ _ _ _ _ _ _ HP) as [_ Hser]. unfold served_serial_at. destruct (journal d !! CurrentSeq z) as [row|] eqn:E.
  - destruct (pb_rows _ _ _ _ _ _ _ _ _ HP _ _ E) as (_ & -> & _). by rewrite Hser.
  - destruct (pb_seq _ _ _ _ _ _ _ _ _ HP) as (? & ? & _). assert (ImageSeq z = CurrentSeq z) as Ei.
    { destruct (decide (first = CurrentSeq z)); [lia|]. exfalso. assert (journal d !! CurrentSeq z ≠ None); [|done]. apply (pb_journal _ _ _ _ _ _ _ _ _ HP). lia. }
    destruct (pb_image _ _ _ _ _ _ _ _ _ HP Hc) as (row & raw & p & Er & Es & _). rewrite Ei in *. rewrite Er, Es. by rewrite Hser.
Qed.
Lemma edit_published d z V ser D first P rows opts before after soa d' z' : let seq := CurrentSeq z + 1 in let recs := soa :: omap FromRR rows in
  Published d z V ser D first → Inv d z (V (CurrentSeq z)) → 0 < CurrentSeq z → wireName (z_Name z) = Some origin →
  edit_of FromRR soaRR d z (V (CurrentSeq z)) P before after rows → NoDup (omap FromRR before) →
  (∀ n, o_Serial opts = Some n → is_u32 n) → RebuildEdit d (Ok rows) z opts before after = Ok (Some (d', z')) → blob_fits d' seq →
  FromRR (rr_set_serial (Serial z') (soaRR z)) = Some soa → fit os (Serial z') recs → (∀ s, 0 < s ≤ CurrentSeq z → ser s ≠ Serial z') →
  CurrentSeq z' = seq ∧ z_Name z' = z_Name z ∧ Inv d' z' recs ∧
  ∃ p first', Published d' z' (<[seq := recs]> V) (<[seq := Serial z']> ser) (<[seq := p]> D) first'.
Proof.
  intros seq recs HP HI Hc Hw He Hnd Hser H Hfit Hsoa HT Hn. destruct origin_packed as [_ Hoa]. pose proof (served_serial_published _ _ _ _ _ _ HP Hc) as Hsv.
  unfold rebuildEdit in H. apply bind_Ok in H as (brecs & Hb & (arecs & Ha & H)%bind_Ok).
  destruct (diffIgnoringSOA brecs arecs) as [deleted added] eqn:Ed. destruct (_ && _); [done|].
  rewrite Hsv, Hw in H. apply bind_Ok in H as (serial & Hs & (served & [= <-] & (old & Hold & (new & Hnew & (origin' & [= <-] & ([d2 z2] & Hwv & [= -> ->])%bind_Ok)%bind_Ok)%bind_Ok)%bind_Ok)%bind_Ok).
  destruct (writeVersion_zone _ _ _ _ _ _ _ _ Hwv) as [En Es]. rewrite Es in *. unfold of_opt in Hold, Hnew. destruct (FromRR (soaRR z)) as [old'|] eqn:Eold; [|done]. injection Hold as ->.
  rewrite Hsoa in Hnew. injection Hnew as ->. pose proof (nextSerial_u32 z opts serial (ji_serial _ _ _ _ _ _ HI) Hser Hs) as Hu.
  assert (u32 (Serial z) = Serial z) as Eu by (apply u32_small, HI). assert (isSOAData old = true) as Hsd by by apply He.
  pose proof (edit_set wide FromRR soaRR decompress sha FromRR_ok d z _ P before after rows old new (Serial z) brecs arecs He Hsv Eu HI Eold Hsd Hb Ha) as Hset. rewrite Ed in Hset.
  destruct (toRecords_Ok _ FromRR_ok _ _ Hb) as [Eb _]. unfold diffIgnoringSOA in Ed. injection Ed as Edel _.
  assert (∀ r, r ∈ deleted → r ∈ omap FromRR before ∧ isSOAData r = false) as Hdel. { intros r. rewrite <- Edel, Eb. by intros [[? _] ?]%list_elem_of_filter. }
  assert (delta_next origin z serial (V (CurrentSeq z)) recs (Some (mkDelta origin (Serial z) serial (old :: deleted) (new :: added)))) as Hnext.
  { simpl. do 4 (split; [done|]). split_and!.
    - constructor; [intros [_ ?]%Hdel; congruence|]. rewrite <- Edel, <- Eb. by apply NoDup_filter.
    - intros r [->|[Hr Hp]%Hdel]%elem_of_cons; [by apply (eo_soa _ _ _ _ _ _ _ _ _ He _ Hsv Eu)|]. apply (eo_plain _ _ _ _ _ _ _ _ _ He); [done|]. by apply (eo_before _ _ _ _ _ _ _ _ _ He).
    - intros r. unfold recs. rewrite (Hset r), elem_of_app, list_elem_of_filter. tauto. }
  pose proof (edit_image FromRR rr_set_serial soaRR FromRR_ok set_serial_plain z serial rows new (proj2 (proj2 (eo_managed _ _ _ _ _ _ _ _ _ He))) Hsoa) as Himg.
  destruct (published_write wide compress decompress sha zstd_round sha_injective os origin origin_packed d z V ser D first recs serial _ _ _ d' z' HP Hu HT Hn Hnext Himg Hwv Hfit) as (Ec & p & first' & HP').
  destruct (fit_keys _ _ _ HT) as [Tk _]. split_and!; [done..| |eauto].
  eapply (writeVersion_served wide compress decompress sha zstd_round sha_injective d z (V (CurrentSeq z)) recs origin serial); eauto using ascii_octets, blob_fits_fits.
  apply delta_next_for; [apply HI|done..].
Qed.

(** ** Runs

    A zone from its creation on: rebuilds from the whole set or from an edit, and loads of the
    engine, which may miss any number of versions.  [V s] is the version built at the sequence number
    [s] and [ser s] its serial; a serial is not used twice. *)
Inductive run : zdb → Zone Name → option (EZone Policy) → (Z → list record) → (Z → Z) → Prop :=
| run_new d z : wireName (z_Name z) = Some origin → CurrentSeq z = 0 → ImageSeq z = 0 → is_u32 (Serial z) → blobs_ok sha d →
    journal d = ∅ → images d = ∅ → run d z None (λ _, []) (λ _, 0)
| run_rebuild d z e V ser rows signer opts d' z' recs : run d z e V ser →
    (∀ s, signer = Some s → SignerLaws FromRR s) → (∀ n, o_Serial opts = Some n → is_u32 n) →
    RebuildFull d rows signer z opts = Ok (Some (d', z')) → blob_fits d' (CurrentSeq z + 1) →
    built rows signer z (Serial z') recs → fit os (Serial z') recs → (∀ s, 0 < s ≤ CurrentSeq z → ser s ≠ Serial z') →
    run d' z' e (<[CurrentSeq z + 1 := recs]> V) (<[CurrentSeq z + 1 := Serial z']> ser)
| run_edit d z e V ser P rows opts before after soa d' z' : run d z e V ser → 0 < CurrentSeq z →
    edit_of FromRR soaRR d z (V (CurrentSeq z)) P before after rows → NoDup (omap FromRR before) → (∀ n, o_Serial opts = Some n → is_u32 n) →
    RebuildEdit d (Ok rows) z opts before after = Ok (Some (d', z')) → blob_fits d' (CurrentSeq z + 1) →
    FromRR (rr_set_serial (Serial z') (soaRR z)) = Some soa → fit os (Serial z') (soa :: omap FromRR rows) → (∀ s, 0 < s ≤ CurrentSeq z → ser s ≠ Serial z') →
    run d' z' e (<[CurrentSeq z + 1 := soa :: omap FromRR rows]> V) (<[CurrentSeq z + 1 := Serial z']> ser)
| run_load d z e V ser name expired settings az counts zn counts' : run d z e V ser → 0 < CurrentSeq z → stored store d → hex_keys d →
    auth_zone d name z expired settings = Some az → LoadZone az (wire_name os) e counts = Ok (zn, counts') →
    run d z (Some zn) V ser.

Lemma holds_later V ser D cur T serial p o n : Holds V ser D cur o n → Holds (<[cur + 1 := T]> V) (<[cur + 1 := serial]> ser) (<[cur + 1 := p]> D) (cur + 1) o n.
Proof.
  intros [Hn Hs Hz Hd]. split; rewrite ?fn_lookup_insert_ne by lia; [lia|done..|]. intros r (s & Hr & ->)%Hd. exists s. rewrite fn_lookup_insert_ne by lia. split; [lia|done].
Qed.
Lemma auth_run_inv d z e V ser : run d z e V ser → wireName (z_Name z) = Some origin ∧ ∃ D first,
  Published d z V ser D first ∧ Inv d z (V (CurrentSeq z)) ∧ ∀ o, e = Some o → ∃ n, Holds V ser D (CurrentSeq z) o n.
Proof.
  induction 1 as [d z Hn Hc Hi Hs Hb Hj Him|d z e V ser rows signer opts d' z' recs _ (Hn & D & first & HP & HI & He) Hsl Hser Hr Hf Hbt Hfit Hnew
    |d z e V ser P rows opts before after soa d' z' _ (Hn & D & first & HP & HI & He) Hc Hed Hnd Hser Hr Hf Hsoa Hfit Hnew
    |d z e V ser name expired settings az counts zn counts' _ (Hn & D & first & HP & HI & He) Hc Hst Hhex Ha Hl].
  - split; [done|]. exists (λ _, mkParsed DeltaImage [] 0 0 [] []), 0. rewrite Hc. split_and!; [| |done].
    + split; rewrite ?Hc, ?Hi, ?Hj, ?Him; try done; try lia; try (split; [done|lia]); intros s; rewrite ?lookup_empty; try done; try lia.
    + split; rewrite ?Hc, ?Hi, ?Hj, ?Him; try done; intros s row; by rewrite lookup_empty.
  - destruct (rebuild_published d z V ser D first rows signer opts d' z' recs) as (Ec & En & HI' & p & first' & HP'); [done..|]. rewrite Ec. split; [congruence|].
    exists (<[CurrentSeq z + 1 := p]> D), first'. split_and!; [done|by rewrite fn_lookup_insert|]. intros o [n Hh]%He. exists n. by apply holds_later.
  - destruct (edit_published d z V ser D first P rows opts before after soa d' z') as (Ec & En & HI' & p & first' & HP'); [done..|]. rewrite Ec. split; [congruence|].
    exists (<[CurrentSeq z + 1 := p]> D), first'. split_and!; [done|by rewrite fn_lookup_insert|]. intros o [n Hh]%He. exists n. by apply holds_later.
  - split; [done|]. exists D, first. split_and!; [done..|]. intros o [= <-].
    destruct (published_loads no_policy policy_of decompress sha os os_ok store zstd zstd_agrees d z V ser D first HP Hc Hhex Hst name expired settings e counts He)
      as (az' & zn' & counts'' & Ea & _ & El & Hh & _). rewrite Ha in Ea. injection Ea as <-. rewrite Hl in El. injection El as -> ->. eauto.
Qed.

(** C2: What the management plane builds is what the engine serves.  Along every run of a zone, through
    rebuilds, edits and loads in any order, the message of the zone passes the engine's [validate], and
    loading it succeeds, whether the engine holds nothing, an old version or the current one, from
    deltas or from the image: the engine then has exactly the records of the version last built, with
    its serial, expiry and policy. *)
Theorem built_is_served d z e V ser name expired settings counts : run d z e V ser → 0 < CurrentSeq z → stored store d → hex_keys d →
  ∃ az zn counts', auth_zone d name z expired settings = Some az ∧ validate_chain az = Ok tt ∧
    LoadZone az (wire_name os) e counts = Ok (zn, counts') ∧ zone_of os (V (CurrentSeq z)) zn ∧ ez_serial zn = Serial z ∧
    ez_expired zn = expired ∧ ez_policy zn = policy_of settings.
Proof.
  intros (_ & D & first & HP & _ & He)%auth_run_inv Hc Hst Hhex.
  destruct (published_loads no_policy policy_of decompress sha os os_ok store zstd zstd_agrees d z V ser D first HP Hc Hhex Hst name expired settings e counts He)
    as (az & zn & counts' & Ea & Hv & El & [_ Hs Hz _] & Hx). exists az, zn, counts'. destruct (pb_serial _ _ _ _ _ _ _ _ _ HP) as [_ Hser]. split_and!; try done; [by rewrite Hs, Hser|apply Hx..].
Qed.
End run.
