(* ===== verification/AuthExamples.v ===== *)
(** * A run of a concrete zone

    The zone [a.] is built, loaded, built again and loaded again: [built_is_served] at these values.
    The DNS library is that of [ZoneRebuild.Example]; blobs are stored uncompressed, under names of 64
    digits. *)

From stdpp Require Import functions.
From S2P Require Import Prelude.
From S2P Require Import GoText.
From S2P Require Import NzfNames.
From S2P Require Import NzfFormat.
From S2P Require Import NzfTheorems.
From S2P Require Import ZoneJournal.
From S2P Require Import ZoneServed.
From S2P Require Import ZoneRebuild.
From S2P Require Import EngineName.
From S2P Require Import EngineNzf.
From S2P Require Import EngineZone.
From S2P Require Import EngineContent.
From S2P Require Import EngineFinal.
From S2P Require Import EngineFlags.
From S2P Require Import EngineLoader.
From S2P Require Import EngineExamples.
From S2P Require Import AuthZones.
From S2P Require Import AuthSystem.
From S2P Require Import AuthRebuild.

Module AuthExample.
Import ZoneRebuild.Example.
Abbreviation raw1 := EngineExamples.Example.raw1.
Abbreviation raw2 := EngineExamples.Example.raw2.
Abbreviation key1 := EngineExamples.Example.key1.
Abbreviation key2 := EngineExamples.Example.key2.
Abbreviation os := EngineExamples.Example.os.
(** Names for the two blobs of the run; every other blob has a name of its own. *)
Definition sha (b : bytes) : bytes := if bool_decide (b = raw1) then key1 else if bool_decide (b = raw2) then key2 else 71 :: b.
Lemma sha_injective a b : sha a = sha b → a = b.
Proof. unfold sha. repeat case_bool_decide; by (congruence || (intros E; vm_compute in E; congruence)). Qed.
Definition build := rebuildFull wide FromRR rr_set_serial soaRR owner_ok id Some sha range_order Placeholder zonemd_Apply.
Definition s1 := Eval vm_compute in got (build d0 (Ok [www]) None z0 opts0).
Definition s2 := Eval vm_compute in got (build s1.1 (Ok [ftp]) None s1.2 opts0).
Abbreviation Run := (run () (λ _ : (), ()) wide FromRR rr_set_serial soaRR owner_ok id Some sha range_order Placeholder zonemd_Apply EngineExamples.Example.store Some os [1; 97; 0]).

Definition fit_check (serial : Z) (T : list record) : bool :=
  forallb (λ r1, forallb (EngineExamples.Example.same_ttl r1) T) T && EngineExamples.Example.soa_check (key_of os) serial T && forallb (λ r, bool_decide (key_ok r)) T &&
  forallb (λ r, bool_decide (ascii (Owner r)) && bool_decide (slot_of r ≠ None)) T && bool_decide (NoDup (map slot_of T)).
Lemma fit_check_ok serial T : fit_check serial T = true → fit os serial T.
Proof.
  unfold fit_check. rewrite !andb_true_iff, bool_decide_eq_true. intros [[[[H1 H2] H3] H4] H5]. split_and!.
  - by apply EngineExamples.Example.uniform_check.
  - by apply EngineExamples.Example.soa_check_ok.
  - apply Forall_forall. intros r Hr%list_elem_of_In. rewrite forallb_forall in H3. by apply H3, bool_decide_eq_true in Hr.
  - apply Forall_forall. intros r Hr%list_elem_of_In. rewrite forallb_forall in H4. apply H4, andb_true_iff in Hr as [?%bool_decide_eq_true ?%bool_decide_eq_true]. done.
  - intros r1 r2 [i1 E1]%list_elem_of_lookup [i2 E2]%list_elem_of_lookup E. assert (i1 = i2) as ->; [|congruence].
    eapply (NoDup_lookup _ _ _ (slot_of r1) H5); change (map slot_of T) with (slot_of <$> T); rewrite list_lookup_fmap; [by rewrite E1|]. rewrite E2. simpl. by rewrite E.
Qed.
Lemma fits_check d seq : bool_decide (map_Forall (λ _ r, j_size r ≤ MAX_ZONE_BLOB) (journal d)) = true →
  bool_decide (map_Forall (λ _ r, i_size r ≤ MAX_ZONE_BLOB) (images d)) = true → blob_fits d seq.
Proof. intros H1%bool_decide_eq_true H2%bool_decide_eq_true. split; intros row H; [by eapply H1|by eapply H2]. Qed.

Definition V1 : list record := [soaRR z0; www].
Definition V2 : list record := [soaRR (set_version z0 2 0); ftp].
Lemma packed : lowercase [1; 97; 0] = wire_name os ∧ ascii [1; 97; 0].
Proof. split; [done|by_compute]. Qed.
Lemma auth_run0 : Run d0 z0 None (λ _, []) (λ _, 0).
Proof. apply run_new; [vm_compute; reflexivity|done..|by_compute| |done|done]. by intros k b. Qed.
Lemma auth_run1 : Run s1.1 s1.2 None (<[1 := V1]> (λ _, [])) (<[1 := 1]> (λ _, 0)).
Proof.
  apply (run_rebuild _ _ _ _ _ _ _ _ _ _ _ _ _ _ _ _ _ d0 z0 None (λ _, []) (λ _, 0) (Ok [www]) None opts0 s1.1 s1.2 V1 auth_run0);
    [done|done|vm_compute; reflexivity|apply fits_check; vm_compute; reflexivity| |apply fit_check_ok; vm_compute; reflexivity|simpl; lia].
  eexists _, _. split_and!; [done..|]. vm_compute. reflexivity.
Qed.
Lemma blobs_check d : bool_decide (map_Forall (λ k b, EngineExamples.Example.store k = Some b ∧ is_sha256_hex k = true) (blobs d)) = true →
  stored EngineExamples.Example.store d ∧ hex_keys d.
Proof. intros H%bool_decide_eq_true. split; intros k b E; by apply (H k b) in E as []. Qed.
Lemma stored1 : stored EngineExamples.Example.store s1.1 ∧ hex_keys s1.1.
Proof. apply blobs_check. vm_compute. reflexivity. Qed.
Lemma stored2 : stored EngineExamples.Example.store s2.1 ∧ hex_keys s2.1.
Proof. apply blobs_check. vm_compute. reflexivity. Qed.

(** The engine loads the first version; the second is built from it. *)
Definition message1 : AuthZone () := Eval vm_compute in default (mkAuthZone [] 0 None 0 0 [] false ()) (auth_zone s1.1 [97] s1.2 false ()).
Definition loaded1 : EZone () := Eval vm_compute in
  match load_zone () (λ _ : (), ()) EngineExamples.Example.store Some message1 (wire_name os) None (mkCounts 0 0 0) with Ok (z, _) => z | _ => EngineExamples.Example.none end.
Lemma auth_run2 : Run s1.1 s1.2 (Some loaded1) (<[1 := V1]> (λ _, [])) (<[1 := 1]> (λ _, 0)).
Proof.
  eapply (run_load _ _ _ _ _ _ _ _ _ _ _ _ _ _ _ _ _ s1.1 s1.2 None _ _ [97] false () message1 (mkCounts 0 0 0) loaded1 _ auth_run1);
    [done|apply stored1|apply stored1|vm_compute; reflexivity|vm_compute; reflexivity].
Qed.
Lemma auth_run3 : Run s2.1 s2.2 (Some loaded1) (<[2 := V2]> (<[1 := V1]> (λ _, []))) (<[2 := 2]> (<[1 := 1]> (λ _, 0))).
Proof.
  apply (run_rebuild _ _ _ _ _ _ _ _ _ _ _ _ _ _ _ _ _ s1.1 s1.2 (Some loaded1) _ _ (Ok [ftp]) None opts0 s2.1 s2.2 V2 auth_run2);
    [done|done|vm_compute; reflexivity|apply fits_check; vm_compute; reflexivity| |apply fit_check_ok; vm_compute; reflexivity|].
  - eexists _, _. split_and!; [done..|]. vm_compute. reflexivity.
  - intros s Hs. assert (s = 1) as -> by (simpl in Hs; lia). vm_compute. done.
Qed.
Lemma built_is_served_witness : ∃ az zn counts, auth_zone s2.1 [97] s2.2 false () = Some az ∧ validate_chain az = Ok tt ∧
  load_zone () (λ _ : (), ()) EngineExamples.Example.store Some az (wire_name os) (Some loaded1) (mkCounts 0 0 0) = Ok (zn, counts) ∧ zone_of os V2 zn.
Proof.
  destruct (built_is_served () (λ _ : (), ()) wide FromRR rr_set_serial soaRR owner_ok id Some sha range_order Placeholder zonemd_Apply EngineExamples.Example.store Some
    (λ _, eq_refl) (λ _ _ E, E) sha_injective (λ _, reflexivity _) FromRR_ok set_plain set_soa (Hzonemd := zonemd_id) os [1; 97; 0] packed EngineExamples.Example.os_origin
    s2.1 s2.2 (Some loaded1) _ _ [97] false () (mkCounts 0 0 0) auth_run3) as (az & zn & counts & H1 & H2 & H3 & H4 & _); [done|apply stored2|apply stored2|].
  exists az, zn, counts. exact (conj H1 (conj H2 (conj H3 H4))).
Defined.
End AuthExample.
