(* ===== verification/DnssecSign.v ===== *)
(** * Signing a zone

    mgmt/internal/dnssec/canonical.go and sign.go: the records of a zone are grouped into RRsets, the
    DNSKEY, CDS and CDNSKEY sets and the NSEC or NSEC3 chain are generated, and every authoritative
    RRset is signed, reusing the signatures of the previous pass that still cover the same data.  The
    DNS library packs records, hashes names and makes signatures: the classes [DnsLib] and [SignLib].
    A range over a map visits its keys in an order of the runtime's choosing: [range_sets] and
    [range_types]. *)

From S2P Require Import Prelude.
From S2P Require Import GoText.
From S2P Require Import NzfNames.
From S2P Require Import NzfFormat.
From S2P Require Import Effects.
From S2P Require Import ZoneJournal.
From S2P Require Import DnssecRollover.
From S2P Require Import XfrIn.
From S2P Require Import DnsLib.

Definition TypeNSEC : Z := 47.
Definition TypeDNSKEY : Z := 48.
Definition TypeNSEC3 : Z := 50.
Definition TypeNSEC3PARAM : Z := 51.
Definition TypeCDS : Z := 59.
Definition TypeCDNSKEY : Z := 60.
Definition hash_SHA1 : Z := 1.

(** Durations, in nanoseconds. *)
Definition second : Z := 1000000000.
Definition hour : Z := 3600 * second.
Definition Validity : Z := 14 * 24 * hour.
Definition RefreshBefore : Z := 7 * 24 * hour.
Definition InceptionSkew : Z := hour.
Definition refreshWindow : Z := hour.
(** [time.Unix(sec, 0)] and [t.Unix()]. *)
Definition time_Unix (sec : Z) : Z := sec * second.
Definition Unix (t : Z) : Z := t / second.

(** ** Records

    A record of the library: its header and the fields of its type. *)
Record Hdr := mkHdr { hd_Name : bytes; hd_Rrtype : Z; hd_Class : Z; hd_Ttl : Z }.
Record Dnskey := mkDnskey { dk_Flags : Z; dk_Protocol : Z; dk_Algorithm : Z; dk_PublicKey : bytes }.
Record RRSIG := mkRRSIG {
  sg_TypeCovered : Z; sg_Algorithm : Z; sg_Labels : Z; sg_OrigTtl : Z; sg_Expiration : Z; sg_Inception : Z; sg_KeyTag : Z;
  sg_SignerName : bytes; sg_Signature : bytes }.
Inductive fields : Type :=
| FOther (data : bytes)
| FSOA (s : SOAData)
| FDNSKEY (k : Dnskey)
| FCDS (data : bytes)
| FCDNSKEY (k : Dnskey)
| FNSEC (NextDomain : bytes) (TypeBitMap : list Z)
| FNSEC3 (Hash HashLength : Z) (NextDomain : bytes) (TypeBitMap : list Z)
| FNSEC3PARAM (Hash : Z)
| FRRSIG (s : RRSIG).
Record sRR := mkSRR { s_hdr : Hdr; s_fields : fields }.
#[export] Instance Hdr_eq_dec : EqDecision Hdr.
Proof. solve_decision. Defined.
#[export] Instance Dnskey_eq_dec : EqDecision Dnskey.
Proof. solve_decision. Defined.
#[export] Instance RRSIG_eq_dec : EqDecision RRSIG.
Proof. solve_decision. Defined.
#[export] Instance fields_eq_dec : EqDecision fields.
Proof. solve_decision. Defined.
#[export] Instance sRR_eq_dec : EqDecision sRR.
Proof. solve_decision. Defined.
Definition s_Name (r : sRR) : bytes := hd_Name (s_hdr r).
Definition s_Type (r : sRR) : Z := hd_Rrtype (s_hdr r).
Definition s_Ttl (r : sRR) : Z := hd_Ttl (s_hdr r).

Class SignLib (Signer : Type) := {
  (** The RDATA the library prints and packs for the fields of a generated record. *)
  field_data : fields → bytes;
  ToDS : Hdr → Dnskey → option bytes;
  KeyTag : Dnskey → Z;
  HashName : bytes → bytes;
  rrsig_Sign : Signer → Hdr → RRSIG → list sRR → option (Hdr * RRSIG);
}.

(** A key as the signer uses it. *)
Record Key (Signer : Type) := mkSKey {
  K_ID : bytes; K_Role : Role; K_Algorithm : Z; K_DNSKEY : Dnskey; K_Signer : Signer; K_Signs : bool; K_InCDS : bool }.
Arguments mkSKey {Signer}.
Arguments K_ID {Signer}.
Arguments K_Role {Signer}.
Arguments K_Algorithm {Signer}.
Arguments K_DNSKEY {Signer}.
Arguments K_Signer {Signer}.
Arguments K_Signs {Signer}.
Arguments K_InCDS {Signer}.

(** Owner and type; owner, covered type and key tag. *)
Abbreviation setKey := (bytes * Z)%type.
Abbreviation SigKey := (bytes * Z * Z)%type.
(** A signature, with its header, and the digest of the set it covers. *)
Record CachedSig := mkCached { c_Digest : bytes; c_RRSIG : Hdr * RRSIG }.
#[export] Instance CachedSig_eq_dec : EqDecision CachedSig.
Proof. solve_decision. Defined.
Record Input (Signer : Type) := mkInput {
  in_Origin : bytes; in_Records : list sRR; in_Keys : list (Key Signer); in_NSEC3 : bool; in_Cache : gmap SigKey CachedSig; in_Now : Z }.
Arguments mkInput {Signer}.
Arguments in_Origin {Signer}.
Arguments in_Records {Signer}.
Arguments in_Keys {Signer}.
Arguments in_NSEC3 {Signer}.
Arguments in_Cache {Signer}.
Arguments in_Now {Signer}.
Record Output := mkOutput { o_Served : list sRR; o_Cache : gmap SigKey CachedSig; o_NextRefresh : Z; o_Reused : Z; o_Created : Z }.
Inductive sign_err := SPack | SOutside | SSOAOwner | SNoSOA | SNoDS | SBadName | SHashFailed | SHashCollision | SNoKey | SSignFailed.
Abbreviation sres := (res sign_err).

Definition generatedTypes (t : Z) : bool :=
  bool_decide (t ∈ [TypeDNSKEY; TypeRRSIG; TypeNSEC; TypeNSEC3; TypeNSEC3PARAM; TypeCDS; TypeCDNSKEY]).
Definition hdr (name : bytes) (rtype ttl : Z) : Hdr := mkHdr name rtype ClassINET ttl.
Definition sort_types (l : list Z) : list Z := sort_on id Z.compare l.
Definition sres_of {A} (e : sign_err) (o : option A) : sres A := match o with Some a => Ok a | None => Err e end.

(** [strings.ToUpper] of an ASCII string. *)
Definition ascii_upper (c : Z) : Z := if (97 <=? c) && (c <=? 122) then c - 32 else c.

(** hash/fnv: FNV-1a of 32 bits. *)
Definition fnv32a (b : bytes) : Z := foldl (λ h c, u32 (Z.lxor h c * 16777619)) 2166136261 b.

Section sign.
Context {Signer : Type} `{DnsLib} `{SignLib Signer} (sha256 : bytes → bytes).
Context (range_sets : nat → gmap setKey (list sRR) → list setKey) (range_types : gmap bytes (list Z) → list bytes).

Definition as_rr (r : sRR) : rr :=
  mkRR (s_Name r) (s_Type r) (hd_Class (s_hdr r)) (s_Ttl r) (match s_fields r with FOther d => d | f => field_data f end)
    (match s_fields r with FSOA s => Some s | _ => None end).

(** ** canonical.go *)
Definition canonKey (name : bytes) : option bytes := CanonicalKey <$> PackDomainName name.
Definition canon (name : bytes) : bytes := default [] (canonKey name).
Definition sortCanonical (names : list bytes) : sres (list bytes) :=
  if forallb (λ n, bool_decide (is_Some (canonKey n))) names then Ok (sort_on canon bytes_compare names) else Err SBadName.
Definition packCanonical (r : sRR) : option bytes := PackRR (set_name (as_rr r) (ToLower (s_Name r))).
Definition rrsetDigest (set : list sRR) : option bytes :=
  wires ← mapM packCanonical set;
  Some (sha256 (concat (map (λ w, put32 (u32 (len w)) ++ w) (sort_on id bytes_compare wires)))).
Definition parent (name : bytes) : bytes :=
  if bool_decide (name = [46]) then []
  else let '(i, end_) := NextLabel name 0 in if end_ then [46] else drop (Z.to_nat i) name.
Fixpoint occluded_loop (fuel : nat) (origin : bytes) (cuts : gset bytes) (p : bytes) : bool :=
  match fuel with
  | O => false
  | S fuel => if len p <=? len origin then false else bool_decide (p ∈ cuts) || occluded_loop fuel origin cuts (parent p)
  end.
Definition occluded (origin : bytes) (cuts : gset bytes) (name : bytes) : bool := occluded_loop (length name + 3) origin cuts (parent name).

(** ** Grouping *)
Record zoneSets := mkSets { zs_sets : gmap setKey (list sRR); zs_seen : gset bytes }.
Definition sets_add (z : zoneSets) (r : sRR) : sres zoneSets :=
  w ← sres_of SPack (packCanonical r);
  if bool_decide (w ∈ zs_seen z) then Ok z
  else
    let k := (ToLower (s_Name r), s_Type r) in
    Ok (mkSets (<[k := default [] (zs_sets z !! k) ++ [r]]> (zs_sets z)) ({[w]} ∪ zs_seen z)).
Definition add_record (origin : bytes) (st : zoneSets * option (Hdr * SOAData)) (r : sRR) : sres (zoneSets * option (Hdr * SOAData)) :=
  let '(z, soa) := st in
  if generatedTypes (s_Type r) then Ok st
  else if negb (IsSubDomain origin (ToLower (s_Name r))) then Err SOutside
  else
    soa ← match s_fields r with
          | FSOA s => if bool_decide (ToLower (s_Name r) = origin) then Ok (Some (s_hdr r, s)) else Err SSOAOwner
          | _ => Ok soa
          end;
    z ← sets_add z r;
    Ok (z, soa).
Definition add_key (origin : bytes) (ttl : Z) (z : zoneSets) (k : Key Signer) : sres zoneSets :=
  z ← sets_add z (mkSRR (hdr origin TypeDNSKEY ttl) (FDNSKEY (K_DNSKEY k)));
  if negb (K_InCDS k) then Ok z
  else
    ds ← sres_of SNoDS (ToDS (hdr origin TypeDNSKEY ttl) (K_DNSKEY k));
    z ← sets_add z (mkSRR (hdr origin TypeCDS ttl) (FCDS ds));
    sets_add z (mkSRR (hdr origin TypeCDNSKEY ttl) (FCDNSKEY (K_DNSKEY k))).

(** ** Authority *)
Definition cuts_of (origin : bytes) (keys : list setKey) : gset bytes :=
  foldl (λ cuts k, if (k.2 =? TypeNS) && negb (bool_decide (k.1 = origin)) then {[k.1]} ∪ cuts else cuts) ∅ keys.
(** At a delegation only NS and DS are the zone's data; below it nothing is. *)
Definition authoritative (origin : bytes) (cuts : gset bytes) (k : setKey) : bool :=
  negb (occluded origin cuts k.1 || (bool_decide (k.1 ∈ cuts) && negb (k.2 =? TypeNS) && negb (k.2 =? TypeDS))).
Definition types_of (origin : bytes) (cuts : gset bytes) (keys : list setKey) : gmap bytes (list Z) :=
  foldl (λ m k, if authoritative origin cuts k then <[k.1 := default [] (m !! k.1) ++ [k.2]]> m else m) ∅ keys.

(** ** The chains *)
Definition nsec_rr (owners : list bytes) (types : gmap bytes (list Z)) (negTTL : Z) (i : nat) (o : bytes) : sRR :=
  mkSRR (hdr o TypeNSEC negTTL)
    (FNSEC (default [] (owners !! (S i mod length owners)%nat)) (sort_types (default [] (types !! o) ++ [TypeRRSIG; TypeNSEC]))).
Definition addNSEC (z : zoneSets) (owners : list bytes) (types : gmap bytes (list Z)) (negTTL : Z) : sres zoneSets :=
  fold_res sets_add z (imap (nsec_rr owners types negTTL) owners).

(** The empty non-terminals above [p], below the origin. *)
Fixpoint ent_loop (fuel : nat) (origin : bytes) (types : gmap bytes (list Z)) (names : list bytes) (p : bytes) : gmap bytes (list Z) * list bytes :=
  match fuel with
  | O => (types, names)
  | S fuel =>
      if len p <=? len origin then (types, names)
      else match types !! p with
           | Some _ => ent_loop fuel origin types names (parent p)
           | None => ent_loop fuel origin (<[p := []]> types) (names ++ [p]) (parent p)
           end
  end.
Definition add_ents (origin : bytes) (owners : list bytes) (types : gmap bytes (list Z)) : gmap bytes (list Z) * list bytes :=
  foldl (λ st o, ent_loop (length o + 3) origin st.1 st.2 (parent o)) (types, owners) owners.
Definition nsec3_bitmap (cuts : gset bytes) (types : gmap bytes (list Z)) (name : bytes) : list Z :=
  match default [] (types !! name) with
  | [] => []
  | ts => if negb (bool_decide (name ∈ cuts)) || bool_decide (TypeDS ∈ ts) then sort_types (ts ++ [TypeRRSIG]) else ts
  end.
Definition nsec3_rr (origin : bytes) (hs : list (bytes * bytes)) (cuts : gset bytes) (types : gmap bytes (list Z)) (negTTL : Z) (i : nat) (h : bytes * bytes) : sRR :=
  mkSRR (hdr (h.1 ++ [46] ++ origin) TypeNSEC3 negTTL)
    (FNSEC3 hash_SHA1 20 (map ascii_upper (default [] (fst <$> hs !! (S i mod length hs)%nat))) (nsec3_bitmap cuts types h.2)).
Fixpoint nsec3_loop (z : zoneSets) (prev : option bytes) (l : list (bytes * sRR)) : sres zoneSets :=
  match l with
  | [] => Ok z
  | (h, r) :: l =>
      if bool_decide (prev = Some h) then Err SHashCollision
      else z ← sets_add z r; nsec3_loop z (Some h) l
  end.
Definition addNSEC3 (z : zoneSets) (origin : bytes) (owners : list bytes) (types : gmap bytes (list Z)) (cuts : gset bytes) (negTTL : Z) : sres zoneSets :=
  let '(types, names) := add_ents origin owners types in
  let hs := map (λ n, (ToLower (HashName n), n)) names in
  if existsb (λ h, bool_decide (h.1 = [])) hs then Err SHashFailed
  else
    let hs := sort_on fst bytes_compare hs in
    nsec3_loop z None (imap (λ i h, (h.1, nsec3_rr origin hs cuts types negTTL i h)) hs).

(** ** Signatures *)
Definition reusable (s : RRSIG) (now : Z) : bool :=
  (RefreshBefore + refreshWindow <? time_Sub (time_Unix (sg_Expiration s)) now) && negb (After (time_Unix (sg_Inception s)) now).
Definition jitter (r : sRR) : Z := (fnv32a (ToLower (s_Name r) ++ put16 (s_Type r)) mod 3600) * second.
Definition newSig (origin : bytes) (set : list sRR) (k : Key Signer) (now : Z) : sres (Hdr * RRSIG) :=
  match set with
  | [] => Panic
  | r :: _ =>
      sres_of SSignFailed (rrsig_Sign (K_Signer k) (hdr (s_Name r) TypeRRSIG (s_Ttl r))
        (mkRRSIG 0 (K_Algorithm k) 0 (s_Ttl r) (u32 (Unix (now + (Validity - jitter r)))) (u32 (Unix (now - InceptionSkew))) (KeyTag (K_DNSKEY k)) origin [])
        set)
  end.
Definition role_of (rtype : Z) : Role := if (rtype =? TypeDNSKEY) || (rtype =? TypeCDS) || (rtype =? TypeCDNSKEY) then KSK else ZSK.
Definition record_sig (out : Output) (sk : SigKey) (digest : bytes) (sig : Hdr * RRSIG) (reused : bool) : Output :=
  let refresh := time_Unix (sg_Expiration sig.2) - RefreshBefore in
  mkOutput (o_Served out) (<[sk := mkCached digest sig]> (o_Cache out))
    (if IsZero (o_NextRefresh out) || Before refresh (o_NextRefresh out) then refresh else o_NextRefresh out)
    (if reused then o_Reused out + 1 else o_Reused out) (if reused then o_Created out else o_Created out + 1).
(** The cached signature, when it covers the same data and is not due for refresh. *)
Definition cached_sig (cache : gmap SigKey CachedSig) (now : Z) (sk : SigKey) (digest : bytes) (alg : Z) : option (Hdr * RRSIG) :=
  match cache !! sk with
  | Some c => if bool_decide (c_Digest c = digest) && (sg_Algorithm (c_RRSIG c).2 =? alg) && reusable (c_RRSIG c).2 now then Some (c_RRSIG c) else None
  | None => None
  end.
Definition sig_rr (s : Hdr * RRSIG) : sRR := mkSRR s.1 (FRRSIG s.2).
Fixpoint sign_loop (origin : bytes) (k : setKey) (set : list sRR) (digest : bytes) (keys : list (Key Signer)) (cache : gmap SigKey CachedSig) (now : Z)
    (out : Output) (sigs : list sRR) : sres (Output * list sRR) :=
  match keys with
  | [] => Ok (out, sigs)
  | key :: keys =>
      if negb (K_Signs key) || negb (bool_decide (K_Role key = role_of k.2)) then sign_loop origin k set digest keys cache now out sigs
      else
        let sk := (k.1, k.2, KeyTag (K_DNSKEY key)) in
        '(sig, reused) ← match cached_sig cache now sk digest (K_Algorithm key) with Some s => Ok (s, true) | None => s ← newSig origin set key now; Ok (s, false) end;
        sign_loop origin k set digest keys cache now (record_sig out sk digest sig reused) (sigs ++ [sig_rr sig])
  end.
Definition signSet (origin : bytes) (k : setKey) (set : list sRR) (keys : list (Key Signer)) (cache : gmap SigKey CachedSig) (now : Z) (out : Output)
    : sres (Output * list sRR) :=
  digest ← sres_of SPack (rrsetDigest set);
  '(out, sigs) ← sign_loop origin k set digest keys cache now out [];
  if bool_decide (sigs = []) then Err SNoKey else Ok (out, sigs).

(** ** Sign *)
Definition serve (out : Output) (rs : list sRR) : Output := mkOutput (o_Served out ++ rs) (o_Cache out) (o_NextRefresh out) (o_Reused out) (o_Created out).
Definition unsigned (origin : bytes) (cuts : gset bytes) (k : setKey) : bool :=
  occluded origin cuts k.1 || (bool_decide (k.1 ∈ cuts) && negb (k.2 =? TypeDS) && negb (k.2 =? TypeNSEC)).
Definition serve_set (inp : Input Signer) (origin : bytes) (cuts : gset bytes) (sets : gmap setKey (list sRR)) (out : Output) (k : setKey) : sres Output :=
  let set := default [] (sets !! k) in
  let out := serve out set in
  if unsigned origin cuts k then Ok out
  else
    '(out, sigs) ← signSet origin k set (in_Keys inp) (in_Cache inp) (in_Now inp) out;
    Ok (serve out sigs).
Definition collect (inp : Input Signer) (origin : bytes) : sres (zoneSets * (Hdr * SOAData)) :=
  '(z, soa) ← fold_res (add_record origin) (mkSets ∅ ∅, None) (in_Records inp);
  soa ← sres_of SNoSOA soa;
  z ← fold_res (add_key origin (hd_Ttl soa.1)) z (in_Keys inp);
  z ← (if in_NSEC3 inp then sets_add z (mkSRR (hdr origin TypeNSEC3PARAM (Z.min (hd_Ttl soa.1) (Minttl soa.2))) (FNSEC3PARAM hash_SHA1)) else Ok z);
  Ok (z, soa).
Definition add_chain (inp : Input Signer) (origin : bytes) (z : zoneSets) (cuts : gset bytes) (negTTL : Z) : sres zoneSets :=
  let types := types_of origin cuts (range_sets 1 (zs_sets z)) in
  let owners := range_types types in
  let types := sort_types <$> types in
  owners ← sortCanonical owners;
  if in_NSEC3 inp then addNSEC3 z origin owners types cuts negTTL else addNSEC z owners types negTTL.
Definition set_order (sets : gmap setKey (list sRR)) : sres (list setKey) :=
  let keys := range_sets 2 sets in
  if forallb (λ k, bool_decide (is_Some (canonKey k.1))) keys then Ok (sort_on (λ k, (canon k.1, k.2)) (lex_cmp bytes_compare Z.compare) keys)
  else Err SBadName.
(** The cuts, the sets and the order they are served in. *)
Definition prepare (inp : Input Signer) (origin : bytes) : sres (gset bytes * gmap setKey (list sRR) * list setKey) :=
  '(z, soa) ← collect inp origin;
  let negTTL := Z.min (hd_Ttl soa.1) (Minttl soa.2) in
  let cuts := cuts_of origin (range_sets 0 (zs_sets z)) in
  z ← add_chain inp origin z cuts negTTL;
  order ← set_order (zs_sets z);
  Ok (cuts, zs_sets z, order).
Definition Sign (inp : Input Signer) : sres Output :=
  let origin := CanonicalName (in_Origin inp) in
  '(cuts, sets, order) ← prepare inp origin;
  fold_res (serve_set inp origin cuts sets) (mkOutput [] ∅ zero_time 0 0) order.
End sign.
