(* ===== verification/DnssecSets.v ===== *)
(** * The RRsets of a zone being signed

    What is relied on of the library by the signer, and the lemmas about the first half of
    [DnssecSign.Sign]: names and their canonical keys, cuts, and the grouping of records into RRsets. *)

From S2P Require Import Prelude.
From S2P Require Import GoText.
From S2P Require Import NzfNames.
From S2P Require Import NzfFormat.
From S2P Require Import Effects.
From S2P Require Import ZoneJournal.
From S2P Require Import DnssecRollover.
From S2P Require Import XfrIn.
From S2P Require Import DnsLib.
From S2P Require Import DnssecSign.

(** A printed name in lower case is printed, and its wire form is in lower case; the owner of an
    NSEC3 record is printed; a signature keeps the fields it was asked for and covers the type of
    the set it was made of, which it verifies with the public key of the pair; and whether a
    signature verifies depends on the canonical wire forms of the set only (RFC 4034, 3.1.8.1). *)
Class SignLaws (Signer : Type) `{DnsLaws} `{SignLib Signer} := {
  key_pair : Signer → Dnskey → Prop;
  Verifies : Dnskey → RRSIG → list sRR → Prop;
  printed_lower : ∀ n, printed n → printed (ToLower n);
  lower_wire : ∀ n o, printed n → ToLower n = n → PackDomainName n = Some o → map ascii_lower o = o;
  hash_printed : ∀ n origin, printed origin → is_Some (PackDomainName (ToLower (HashName n) ++ [46] ++ origin)) →
    printed (ToLower (HashName n) ++ [46] ++ origin);
  sign_fields : ∀ k h s r set h' s', rrsig_Sign k h s (r :: set) = Some (h', s') →
    hd_Name h' = s_Name r ∧ hd_Rrtype h' = TypeRRSIG ∧ hd_Ttl h' = hd_Ttl h ∧ sg_TypeCovered s' = s_Type r ∧
    sg_Algorithm s' = sg_Algorithm s ∧ sg_Expiration s' = sg_Expiration s ∧ sg_Inception s' = sg_Inception s ∧
    sg_KeyTag s' = sg_KeyTag s ∧ sg_SignerName s' = sg_SignerName s;
  sign_verifies : ∀ k d h s set h' s', key_pair k d → sg_KeyTag s = KeyTag d → sg_Algorithm s = dk_Algorithm d →
    rrsig_Sign k h s set = Some (h', s') → Verifies d s' set;
  verifies_wires : ∀ d s set set', map packCanonical set ≡ₚ map packCanonical set' → Verifies d s set → Verifies d s set';
}.

(** A list of keys that a range over a map may visit. *)
Definition ranges {K V} `{Countable K} (range : gmap K V → list K) : Prop := ∀ m, range m ≡ₚ (map_to_list m).*1.
Lemma ranges_NoDup {K V} `{Countable K} (range : gmap K V → list K) m : ranges range → NoDup (range m).
Proof. intros Hr. rewrite (Hr m). apply NoDup_fst_map_to_list. Qed.
Lemma elem_of_ranges {K V} `{Countable K} (range : gmap K V → list K) m k : ranges range → k ∈ range m ↔ is_Some (m !! k).
Proof.
  intros Hr. rewrite (Hr m), list_elem_of_fmap. split.
  - intros ([k' v] & -> & Hv%elem_of_map_to_list). by exists v.
  - intros [v Hv]. exists (k, v). by rewrite elem_of_map_to_list.
Qed.

Lemma canonical_compare_eq a b : canonical_compare a b = Eq → map (map ascii_lower) a = map (map ascii_lower) b.
Proof.
  revert b. induction a as [|x a IH]; intros [|y b]; simpl; try done.
  destruct (bytes_compare (map ascii_lower x) (map ascii_lower y)) eqn:E; [|done|done].
  apply bytes_compare_eq in E. intros H%IH. by rewrite E, H.
Qed.
(** Names with one canonical key differ in case only. *)
Lemma CanonicalKey_lower a b : validName a = Ok tt → validName b = Ok tt → Forall is_byte a → Forall is_byte b →
  CanonicalKey a = CanonicalKey b → map ascii_lower a = map ascii_lower b.
Proof.
  intros Ha Hb Ba Bb E. apply validName_spec in Ha as (ls & -> & Hls); [|done]. apply validName_spec in Hb as (ks & -> & Hks); [|done].
  rewrite <- (app_nil_r (wire_name ls)), <- (app_nil_r (wire_name ks)), !CanonicalKey_wire in E by done.
  apply bytes_compare_eq in E. rewrite concat_key_compare in E by (apply Forall_rev; apply wire_name_bytes; [by apply Hls || by apply Hks|done]).
  apply canonical_compare_eq in E. rewrite !map_rev in E. apply (f_equal (@rev _)) in E. rewrite !rev_involutive in E.
  rewrite !map_lower_wire_name by (apply Hls || apply Hks). by rewrite E.
Qed.

Section sets.
Context {Signer : Type} `{HS : SignLaws Signer}.

(** ** Names *)
Definition plain_name (n : bytes) : Prop := printed n ∧ ToLower n = n.
Lemma plain_lower n : printed n → plain_name (ToLower n).
Proof. intros Hn. split; [by apply printed_lower|apply ToLower_idem]. Qed.
Lemma canonKey_inj a b : plain_name a → plain_name b → is_Some (canonKey a) → canonKey a = canonKey b → a = b.
Proof.
  intros [Pa La] [Pb Lb] [k Ek] E. rewrite Ek in E. unfold canonKey in *.
  apply fmap_Some in Ek as (oa & Ea & ->). symmetry in E. apply fmap_Some in E as (ob & Eb & E).
  destruct (pack_name _ _ Ea) as [Va Ba]. destruct (pack_name _ _ Eb) as [Vb Bb].
  apply CanonicalKey_lower in E; [|done..]. rewrite (lower_wire a oa), (lower_wire b ob) in E by done. subst.
  by eapply printed_inj.
Qed.
Lemma canon_inj a b : plain_name a → plain_name b → is_Some (canonKey a) → is_Some (canonKey b) → canon a = canon b → a = b.
Proof. intros Pa Pb [x Hx] [y Hy] E. apply canonKey_inj; [done..|]. unfold canon in E. rewrite Hx, Hy in *. simpl in E. by subst. Qed.

(** The proper ancestors of a name that are longer than the origin. *)
Inductive Above (origin : bytes) : bytes → bytes → Prop :=
| above_parent n : len origin < len (parent n) → Above origin n (parent n)
| above_step n p : len origin < len (parent n) → Above origin (parent n) p → Above origin n p.

Definition walk_measure (p : bytes) : nat := if bool_decide (p = [46]) then 1 else match p with [] => 0 | _ => S (length p) end.
Lemma parent_measure p : p ≠ [] → (walk_measure (parent p) < walk_measure p)%nat.
Proof.
  intros Hp. unfold parent, walk_measure at 2. case_bool_decide; [by compute; lia|]. destruct (NextLabel p 0) as [i e] eqn:E.
  destruct e; [destruct p; [done|]; unfold walk_measure; simpl; lia|]. apply next_label in E as [Hi _]; [|done].
  destruct p as [|c p]; [done|]. unfold walk_measure. case_bool_decide; [simpl; lia|].
  destruct (drop (Z.to_nat i) (c :: p)) eqn:Ed; [simpl; lia|]. rewrite <- Ed, length_drop. unfold len in Hi. simpl in *. lia.
Qed.
Lemma parent_measure_start n : (walk_measure (parent n) < length n + 3)%nat.
Proof.
  destruct (decide (n = [])) as [->|Hn].
  - unfold parent. rewrite bool_decide_eq_false_2 by done. destruct (NextLabel [] 0) as [i e] eqn:E. destruct e; [by compute; lia|].
    rewrite drop_nil. compute. lia.
  - pose proof (parent_measure n Hn). enough (walk_measure n ≤ S (length n))%nat by lia. unfold walk_measure. case_bool_decide; [lia|]. destruct n; simpl; lia.
Qed.
Lemma len_pos_ne (p x : bytes) : len x < len p → p ≠ [].
Proof. intros Hl ->. pose proof (len_nonneg x). unfold len in *. simpl in *. lia. Qed.

Lemma occluded_loop_iff fuel origin cuts p : (walk_measure p < fuel)%nat →
  occluded_loop fuel origin cuts p = true ↔ len origin < len p ∧ (p ∈ cuts ∨ ∃ q, Above origin p q ∧ q ∈ cuts).
Proof.
  revert p. induction fuel as [|fuel IH]; intros p Hf; [lia|]. simpl. destruct (Z.leb_spec (len p) (len origin)) as [|Hlt]; [split; [done|lia]|].
  pose proof (parent_measure p (len_pos_ne _ _ Hlt)). rewrite orb_true_iff, bool_decide_eq_true, IH by lia. split.
  - intros [?|(Hl & Hq)]; (split; [done|]); [by left|]. right. destruct Hq as [Hq|(q & Ha & Hq)].
    + exists (parent p). by split; [constructor|].
    + exists q. by split; [apply above_step|].
  - intros (_ & [?|(q & Ha & Hq)]); [by left|]. right. destruct Ha; (split; [done|]); [by left|]. right. by eexists.
Qed.
(** A name is occluded when a cut lies above it. *)
Lemma occluded_iff origin cuts n : occluded origin cuts n = true ↔ ∃ p, Above origin n p ∧ p ∈ cuts.
Proof.
  unfold occluded. rewrite occluded_loop_iff by apply parent_measure_start. split.
  - intros (Hl & [Hp|(q & Ha & Hq)]); [exists (parent n); by split; [constructor|]|]. exists q. by split; [apply above_step|].
  - intros (p & Ha & Hp). destruct Ha; (split; [done|]); [by left|]. right. by eexists.
Qed.

(** ** Grouping *)
Definition rr_key (r : sRR) : setKey := (ToLower (s_Name r), s_Type r).
Definition wf_srr (r : sRR) : Prop := printed (s_Name r) ∧ is_u16 (s_Type r).
Definition set_of (z : zoneSets) (k : setKey) : list sRR := default [] (zs_sets z !! k).

Lemma packCanonical_wire r w : packCanonical r = Some w →
  ∃ o d, PackDomainName (ToLower (s_Name r)) = Some o ∧ w = wire_rr o (s_Type r) (hd_Class (s_hdr r)) (s_Ttl r) d ∧ len d ≤ 65535.
Proof.
  unfold packCanonical. rewrite pack_rr. simpl. destruct (PackDomainName _) as [o|]; [|done]. simpl.
  destruct (rdata_of _) as [d|] eqn:Ed; [|done]. intros [= <-]. exists o, d. split; [done|]. split; [done|]. by apply rdata_bytes in Ed as [_ ?].
Qed.
(** Records with one canonical wire form have one owner and one type. *)
Lemma packCanonical_key r r' w : wf_srr r → wf_srr r' → packCanonical r = Some w → packCanonical r' = Some w → rr_key r = rr_key r'.
Proof.
  intros [Pr Tr] [Pr' Tr'] (o & d & Eo & -> & _)%packCanonical_wire (o' & d' & Eo' & Ew & _)%packCanonical_wire.
  destruct (pack_name _ _ Eo) as [V B]. destruct (pack_name _ _ Eo') as [V' B'].
  apply validName_spec in V as (ls & -> & Hls); [|done]. apply validName_spec in V' as (ks & -> & Hks); [|done].
  unfold wire_rr in Ew. apply wire_name_app_inj in Ew as [-> Ew]; [|apply Hls|apply Hks].
  unfold rr_key. f_equal; [eapply printed_inj; eauto using printed_lower|].
  apply (f_equal get16) in Ew. rewrite !get16_put16 in Ew by done. by injection Ew.
Qed.

Record zinv (z : zoneSets) : Prop := {
  zi_sets : ∀ k s, zs_sets z !! k = Some s → s ≠ [] ∧ Forall (λ r, wf_srr r ∧ rr_key r = k ∧ ∃ w, packCanonical r = Some w ∧ w ∈ zs_seen z) s;
  zi_dup : ∀ k, NoDup (map packCanonical (set_of z k));
  zi_seen : ∀ w, w ∈ zs_seen z → ∃ k r, r ∈ set_of z k ∧ packCanonical r = Some w }.
Lemma zinv_empty : zinv (mkSets ∅ ∅).
Proof. split; [intros k s; simpl; by rewrite lookup_empty|intros k; unfold set_of; simpl; rewrite lookup_empty; constructor|intros w; simpl; set_solver]. Qed.

Lemma set_of_Some z k r : r ∈ set_of z k → is_Some (zs_sets z !! k).
Proof. unfold set_of. destruct (zs_sets z !! k); [by eexists|]. by intros ?%not_elem_of_nil. Qed.
Lemma zinv_elem z k r : zinv z → r ∈ set_of z k → wf_srr r ∧ rr_key r = k ∧ is_Some (packCanonical r).
Proof.
  intros Hz Hr. destruct (set_of_Some _ _ _ Hr) as [s Hs]. unfold set_of in Hr. rewrite Hs in Hr. simpl in Hr.
  destruct (zi_sets _ Hz _ _ Hs) as [_ Hf]. rewrite Forall_forall in Hf. destruct (Hf _ Hr) as (? & ? & w & Hw & _). by rewrite Hw.
Qed.
Lemma zinv_nonempty z k : zinv z → is_Some (zs_sets z !! k) → ∃ r, r ∈ set_of z k.
Proof.
  intros Hz [s Hs]. destruct (zi_sets _ Hz _ _ Hs) as [Hne _]. unfold set_of. rewrite Hs. simpl. destruct s as [|r s]; [done|]. exists r. by left.
Qed.

Lemma zinv_single z k x : zinv z → is_Some (zs_sets z !! k) → (∀ r, r ∈ set_of z k → r = x) → set_of z k = [x].
Proof.
  intros Hz Hk Hall. destruct (zinv_nonempty _ _ Hz Hk) as [r Hr]. pose proof (zi_dup _ Hz k) as Hd.
  destruct (set_of z k) as [|a [|b l]]; [by apply not_elem_of_nil in Hr|f_equal; apply Hall; by left|].
  exfalso. cbn [map] in Hd. apply NoDup_cons in Hd as [Hd _]. apply Hd. rewrite (Hall a) by left. rewrite (Hall b) by (right; left). left.
Qed.

(** [z'] has the sets of [z] and the records [rs], each up to records with the same wire form. *)
Record grown (z : zoneSets) (rs : list sRR) (z' : zoneSets) : Prop := {
  gr_inv : zinv z';
  gr_keys : ∀ k, is_Some (zs_sets z' !! k) ↔ is_Some (zs_sets z !! k) ∨ k ∈ map rr_key rs;
  gr_from : ∀ k r, r ∈ set_of z' k → r ∈ set_of z k ∨ r ∈ rs;
  gr_old : ∀ k, k ∉ map rr_key rs → zs_sets z' !! k = zs_sets z !! k;
  gr_prefix : ∀ k, set_of z k `prefix_of` set_of z' k;
  gr_new : ∀ r, r ∈ rs → ∃ r', r' ∈ set_of z' (rr_key r) ∧ packCanonical r' = packCanonical r }.

Lemma sets_add_grown z r z' : zinv z → wf_srr r → sets_add z r = Ok z' → grown z [r] z'.
Proof.
  intros Hz Hr. unfold sets_add. destruct (packCanonical r) as [w|] eqn:Ew; [|done]. simpl. case_bool_decide as Hseen; intros [= <-].
  - destruct (zi_seen _ Hz _ Hseen) as (k0 & r0 & Hr0 & Ew0). destruct (zinv_elem _ _ _ Hz Hr0) as (Hwf0 & <- & _).
    pose proof (packCanonical_key r0 r w Hwf0 Hr Ew0 Ew) as Ek. rewrite Ek in Hr0. split; [done| |by left|done|done|].
    + intros k. simpl. rewrite list_elem_of_singleton. split; [by left|]. intros [?| ->]; [done|]. by eapply set_of_Some.
    + intros x ->%list_elem_of_singleton. exists r0. by rewrite Ew0, Ew.
  - set (k0 := rr_key r). set (z' := mkSets _ _). change (ToLower (s_Name r), s_Type r) with k0 in *.
    assert (∀ k, set_of z' k = if decide (k = k0) then set_of z k0 ++ [r] else set_of z k) as Hset.
    { intros k. unfold set_of, z'. simpl. case_decide as E; [subst; by rewrite lookup_insert_eq|by rewrite lookup_insert_ne]. }
    split.
    + split.
      * intros k s. unfold z'. simpl. destruct (decide (k = k0)) as [->|Hk].
        -- rewrite lookup_insert_eq. intros [= <-]. split; [by destruct (default _ _)|]. apply Forall_app. split.
           ++ destruct (zs_sets z !! k0) as [s0|] eqn:Es; [|constructor]. simpl. eapply Forall_impl; [by apply (zi_sets _ Hz _ _ Es)|].
              intros x (? & ? & w0 & ? & ?). split_and!; [done..|]. exists w0. split; [done|]. set_solver.
           ++ constructor; [|constructor]. split_and!; [done..|]. exists w. split; [done|]. set_solver.
        -- rewrite lookup_insert_ne by done. intros Hs. destruct (zi_sets _ Hz _ _ Hs) as [? Hf]. split; [done|].
           eapply Forall_impl; [exact Hf|]. intros x (? & ? & w0 & ? & ?). split_and!; [done..|]. exists w0. split; [done|]. set_solver.
      * intros k. rewrite Hset. case_decide; [|by apply (zi_dup _ Hz)]. rewrite map_app. apply NoDup_app. split; [by apply (zi_dup _ Hz)|].
        split; [|apply NoDup_singleton]. intros x (y & -> & Hy)%list_elem_of_fmap. cbn [map]. rewrite list_elem_of_singleton, Ew. intros Ey.
        destruct (set_of_Some _ _ _ Hy) as [s Hs]. destruct (zi_sets _ Hz _ _ Hs) as [_ Hf]. unfold set_of in Hy. rewrite Hs in Hy.
        rewrite Forall_forall in Hf. destruct (Hf _ Hy) as (_ & _ & w0 & Ew0 & Hw0). congruence.
      * intros w0. unfold z' at 1. simpl. rewrite elem_of_union, elem_of_singleton. intros [->|Hw0].
        -- exists k0, r. rewrite Hset, decide_True by done. split; [|done]. apply elem_of_app. right. by left.
        -- destruct (zi_seen _ Hz _ Hw0) as (k & x & Hx & ?). exists k, x. split; [|done]. rewrite Hset. case_decide; [subst; set_solver|done].
    + intros k. unfold z'. simpl. rewrite lookup_insert_is_Some, list_elem_of_singleton. change (rr_key r) with k0. destruct (decide (k = k0)); naive_solver.
    + intros k x. rewrite Hset. case_decide; [subst|by left]. rewrite elem_of_app. naive_solver.
    + intros k Hk. cbn [map] in Hk. rewrite list_elem_of_singleton in Hk. unfold z'. simpl. by rewrite lookup_insert_ne.
    + intros k. rewrite Hset. case_decide; [subst; by apply prefix_app_r|done].
    + intros x ->%list_elem_of_singleton. exists r. change (rr_key r) with k0. rewrite Hset, decide_True by done. split; [|done]. apply elem_of_app. right. by left.
Qed.

Lemma grown_trans z rs z' rs' z'' : grown z rs z' → grown z' rs' z'' → grown z (rs ++ rs') z''.
Proof.
  intros G G'. split.
  - apply G'.
  - intros k. rewrite (gr_keys _ _ _ G'), (gr_keys _ _ _ G), map_app, elem_of_app. tauto.
  - intros k r Hr. rewrite elem_of_app. apply (gr_from _ _ _ G') in Hr as [Hr|]; [|tauto]. apply (gr_from _ _ _ G) in Hr. tauto.
  - intros k. rewrite map_app, not_elem_of_app. intros [??]. rewrite (gr_old _ _ _ G') by done. by apply (gr_old _ _ _ G).
  - intros k. etrans; [apply (gr_prefix _ _ _ G)|apply (gr_prefix _ _ _ G')].
  - intros r [Hr|Hr]%elem_of_app; [|by apply (gr_new _ _ _ G')].
    destruct (gr_new _ _ _ G r Hr) as (r' & Hr' & E). exists r'. split; [|done].
    eapply elem_of_prefix; [exact Hr'|]. apply (gr_prefix _ _ _ G').
Qed.
Lemma grown_nil z : zinv z → grown z [] z.
Proof. intros Hz. split; [done|intros k; simpl; rewrite elem_of_nil; tauto|tauto|done|done|by intros r ?%not_elem_of_nil]. Qed.
Lemma fold_add_grown rs z z' : zinv z → Forall wf_srr rs → fold_res sets_add z rs = Ok z' → grown z rs z'.
Proof.
  intros Hz Hrs. revert z Hz. induction Hrs as [|r rs Hr Hrs IH]; intros z Hz; simpl; [intros [= <-]; by apply grown_nil|].
  intros (z1 & E1 & E2)%bind_Ok. apply sets_add_grown in E1; [|done..]. change (r :: rs) with ([r] ++ rs). eapply grown_trans; [done|].
  apply IH; [apply E1|done].
Qed.

(** ** The records of the zone *)
Definition key_rrs (origin : bytes) (ttl : Z) (k : Key Signer) : list sRR :=
  mkSRR (hdr origin TypeDNSKEY ttl) (FDNSKEY (K_DNSKEY k)) ::
  if K_InCDS k then
    [mkSRR (hdr origin TypeCDS ttl) (FCDS (default [] (ToDS (hdr origin TypeDNSKEY ttl) (K_DNSKEY k))));
     mkSRR (hdr origin TypeCDNSKEY ttl) (FCDNSKEY (K_DNSKEY k))]
  else [].
Definition kept (inp : Input Signer) : list sRR := filter (λ r, generatedTypes (s_Type r) = false) (in_Records inp).
Definition generated (inp : Input Signer) (origin : bytes) (soa : Hdr * SOAData) : list sRR :=
  concat (map (key_rrs origin (hd_Ttl soa.1)) (in_Keys inp)) ++
  if in_NSEC3 inp then [mkSRR (hdr origin TypeNSEC3PARAM (Z.min (hd_Ttl soa.1) (Minttl soa.2))) (FNSEC3PARAM hash_SHA1)] else [].


Definition soa_of (rs : list sRR) (soa : option (Hdr * SOAData)) : option (Hdr * SOAData) :=
  foldl (λ soa r, match s_fields r with FSOA s => Some (s_hdr r, s) | _ => soa end) soa rs.
Lemma fold_add_record origin rs z soa z' soa' : fold_res (add_record origin) (z, soa) rs = Ok (z', soa') →
  let rs' := filter (λ r, generatedTypes (s_Type r) = false) rs in
  fold_res sets_add z rs' = Ok z' ∧ soa' = soa_of rs' soa ∧
  Forall (λ r, IsSubDomain origin (ToLower (s_Name r)) = true ∧ (∀ s, s_fields r = FSOA s → ToLower (s_Name r) = origin)) rs'.
Proof.
  cbv zeta. revert z soa. induction rs as [|r rs IH]; intros z soa; simpl; [by intros [= <- <-]|].
  rewrite filter_cons. unfold add_record at 1. destruct (generatedTypes (s_Type r)); [by apply IH|]. rewrite decide_True by done.
  destruct (IsSubDomain _ _) eqn:Hs; [|done]. simpl. intros ([z1 soa1] & E1 & E2)%bind_Ok. apply bind_Ok in E1 as (s1 & Es & E1).
  apply bind_Ok in E1 as (z2 & Ez & E1). injection E1 as -> ->. rewrite Ez. simpl. destruct (IH _ _ E2) as (-> & -> & Hf).
  destruct (s_fields r) eqn:Ef; [injection Es as ->; split_and!; try done; constructor; try done; by rewrite Ef| |injection Es as ->; split_and!; try done; constructor; try done; by rewrite Ef..].
  case_bool_decide as Eo; [|done]. injection Es as <-. split_and!; [done..|]. constructor; [|done]. by split.
Qed.
Lemma add_key_rrs origin ttl z k z' : add_key origin ttl z k = Ok z' → fold_res sets_add z (key_rrs origin ttl k) = Ok z'.
Proof.
  unfold add_key, key_rrs. simpl. destruct (sets_add z _) as [z1| | |]; simpl; try done. destruct (K_InCDS k); simpl; [|done].
  destruct (ToDS _ _) as [ds|]; simpl; [|done]. destruct (sets_add z1 _) as [z2| | |]; simpl; try done. by destruct (sets_add z2 _).
Qed.
Lemma fold_add_key origin ttl ks z z' : fold_res (add_key origin ttl) z ks = Ok z' → fold_res sets_add z (concat (map (key_rrs origin ttl) ks)) = Ok z'.
Proof.
  revert z. induction ks as [|k ks IH]; intros z; [done|]. cbn [fold_res map concat]. intros (z1 & E1 & E2)%bind_Ok.
  rewrite fold_res_app, (add_key_rrs _ _ _ _ _ E1). simpl. by apply IH.
Qed.
(** The sets of the zone are those of its own records and of the generated ones. *)
Lemma collect_rrs inp origin z soa : collect inp origin = Ok (z, soa) →
  fold_res sets_add (mkSets ∅ ∅) (kept inp ++ generated inp origin soa) = Ok z ∧ soa_of (kept inp) None = Some soa ∧
  Forall (λ r, IsSubDomain origin (ToLower (s_Name r)) = true ∧ (∀ s, s_fields r = FSOA s → ToLower (s_Name r) = origin)) (kept inp).
Proof.
  unfold collect. intros ([z1 s1] & E1 & E)%bind_Ok. apply fold_add_record in E1 as (E1 & -> & Hf). fold (kept inp) in *.
  apply bind_Ok in E as (soa1 & Es & E). destruct (soa_of (kept inp) None) as [s2|] eqn:Eso; [|done]. injection Es as ->.
  apply bind_Ok in E as (z2 & E2 & E). apply bind_Ok in E as (z3 & E3 & E). injection E as -> ->. split_and!; [|done|done].
  unfold generated. rewrite fold_res_app, E1. simpl. rewrite fold_res_app, (fold_add_key _ _ _ _ _ E2). simpl.
  destruct (in_NSEC3 inp); simpl; [|done]. by rewrite E3.
Qed.
End sets.
