(* ===== verification/DnssecChain.v ===== *)
(** * The authenticated denial chains

    Which RRsets of a zone are its own data, and the NSEC and NSEC3 chains over their owners:
    ordered, closed, with exact type bitmaps, so that every name is either an owner or in exactly one
    gap. *)

From S2P Require Import Prelude.
From S2P Require Import GoText.
From S2P Require Import NzfNames.
From S2P Require Import NzfFormat.
From S2P Require Import Effects.
From S2P Require Import ZoneJournal.
From S2P Require Import DnssecRollover.
From S2P Require Import XfrIn.
From S2P Require Import DnsLib.
From S2P Require Import DnssecSign.
From S2P Require Import DnssecSets.

(** ** Gaps of a circular list

    The gap after position [i] ends at the next position, the last gap wraps around. *)
Definition in_gap (a b k : bytes) : Prop :=
  match bytes_compare a b with
  | Lt => bytes_compare a k = Lt ∧ bytes_compare k b = Lt
  | _ => bytes_compare a k = Lt ∨ bytes_compare k b = Lt
  end.
Definition next_of {A} (l : list A) (i : nat) : option A := l !! (S i mod length l)%nat.
Lemma bytes_lt_cases a b : a ≠ b → bytes_compare a b = Lt ∨ bytes_compare b a = Lt.
Proof. intros Hab. rewrite (bytes_compare_opp a b). destruct (bytes_compare a b) eqn:E; [|by left|by right]. by apply bytes_compare_eq in E. Qed.
Lemma bytes_lt_asym a b : bytes_compare a b = Lt → bytes_compare b a ≠ Lt.
Proof. intros Hl. by rewrite (bytes_compare_opp a b), Hl. Qed.
Lemma bytes_lt_irrefl a : bytes_compare a a ≠ Lt.
Proof. by rewrite bytes_compare_refl. Qed.

Section circular.
Context {A : Type} (key : A → bytes).
Abbreviation lt_key := (key_lt key bytes_compare).
Lemma sorted_lookup_lt l i j a b : StronglySorted lt_key l → l !! i = Some a → l !! j = Some b → (i < j)%nat → bytes_compare (key a) (key b) = Lt.
Proof.
  intros Hs. revert i j. induction Hs as [|x l Hs IH Hx]; intros i j Hi Hj Hij; [done|]. destruct j as [|j]; [lia|].
  destruct i as [|i]; simpl in *; [|eapply IH; eauto; lia]. injection Hi as ->. rewrite Forall_forall in Hx.
  apply Hx. by eapply list_elem_of_lookup_2.
Qed.
Lemma next_spec (l : list A) i a : l !! i = Some a →
  (S i < length l)%nat ∧ next_of l i = l !! S i ∨ S i = length l ∧ next_of l i = l !! 0%nat.
Proof.
  intros Hi%lookup_lt_Some. unfold next_of. destruct (decide (S i < length l)%nat); [left; by rewrite Nat.mod_small|].
  right. replace (S i) with (length l) by lia. by rewrite Nat.Div0.mod_same.
Qed.
(** How many keys of a sorted list lie before [k]. *)
Lemma sorted_split l k : StronglySorted lt_key l → (∀ a, a ∈ l → key a ≠ k) →
  ∃ n, (n ≤ length l)%nat ∧ ∀ i a, l !! i = Some a → ((i < n)%nat ↔ bytes_compare (key a) k = Lt).
Proof.
  induction 1 as [|x l Hs IH Hx]; intros Hk; [exists 0%nat; split; [done|]; done|].
  destruct IH as (n & Hn & Hsp); [intros a Ha; apply Hk; by right|]. destruct (bytes_lt_cases (key x) k) as [Hlt|Hgt]; [apply Hk; by left|..].
  - exists (S n). split; [simpl; lia|]. intros [|i] a Ha; simpl in Ha; [injection Ha as ->; split; [done|lia]|]. rewrite <- (Hsp i a Ha). lia.
  - exists 0%nat. split; [lia|]. intros i a Ha. split; [lia|]. intros Hlt. exfalso. eapply bytes_lt_asym; [exact Hlt|].
    destruct i as [|i]; simpl in Ha; [by injection Ha as ->|]. eapply bytes_compare_lt_trans; [exact Hgt|]. rewrite Forall_forall in Hx. apply Hx. by eapply list_elem_of_lookup_2.
Qed.
(** A key that is not on the circle is in exactly one gap. *)
Lemma one_gap l k : l ≠ [] → StronglySorted lt_key l → (∀ a, a ∈ l → key a ≠ k) →
  exists! i, ∃ a b, l !! i = Some a ∧ next_of l i = Some b ∧ in_gap (key a) (key b) k.
Proof.
  intros Hne Hs Hk. destruct (sorted_split l k Hs Hk) as (n & Hn & Hsp).
  assert (0 < length l)%nat as Hl by (destruct l; [done|simpl; lia]).
  assert (∀ i a, l !! i = Some a → (n ≤ i)%nat → bytes_compare k (key a) = Lt) as Hge.
  { intros i a Ha Hi. destruct (bytes_lt_cases (key a) k) as [Hlt|]; [apply Hk; by eapply list_elem_of_lookup_2| |done]. apply (Hsp i a Ha) in Hlt. lia. }
  assert (∀ i a b, l !! i = Some a → next_of l i = Some b → in_gap (key a) (key b) k ↔ S i = n ∨ n = 0%nat ∧ S i = length l) as Hgap.
  { intros i a b Ha Hb. pose proof (lookup_lt_Some _ _ _ Ha) as Hi. unfold in_gap. destruct (next_spec l i a Ha) as [[Hlt En]|[Hlast En]]; rewrite En in Hb.
    - rewrite (sorted_lookup_lt l i (S i) a b) by (done || lia). rewrite <- (Hsp i a Ha). split.
      + intros [? Hkb]. left. destruct (decide (S i < n)%nat) as [Hc|]; [|lia]. apply (Hsp _ _ Hb) in Hc. by apply bytes_lt_asym in Hc.
      + intros [?|?]; [|lia]. split; [lia|]. apply (Hge _ _ Hb). lia.
    - assert (bytes_compare (key a) (key b) ≠ Lt) as Hnl.
      { destruct (decide (i = 0%nat)) as [->|]; [rewrite Ha in Hb; injection Hb as ->; apply bytes_lt_irrefl|].
        apply bytes_lt_asym. apply (sorted_lookup_lt l 0 i); [done..|lia]. }
      assert ((bytes_compare (key a) k = Lt ∨ bytes_compare k (key b) = Lt) ↔ S i = n ∨ n = 0%nat ∧ S i = length l) as Hg.
      { rewrite <- (Hsp i a Ha). split.
        - intros [?|Hkb]; [lia|]. right. destruct n as [|n]; [done|]. exfalso. eapply bytes_lt_asym; [exact Hkb|]. apply (Hsp _ _ Hb). lia.
        - intros [?|[-> _]]; [left; lia|]. right. apply (Hge _ _ Hb). lia. }
      by destruct (bytes_compare (key a) (key b)). }
  assert (∀ i, (i < length l)%nat → ∃ a b, l !! i = Some a ∧ next_of l i = Some b) as Hex.
  { intros i Hi. destruct (lookup_lt_is_Some_2 l i Hi) as [a Ha]. destruct (lookup_lt_is_Some_2 l (S i mod length l)%nat) as [b Hb]; [apply Nat.mod_upper_bound; lia|]. by exists a, b. }
  set (i0 := if decide (n = 0%nat) then pred (length l) else pred n). assert (i0 < length l)%nat as Hi0 by (unfold i0; case_decide; lia).
  destruct (Hex _ Hi0) as (a & b & Ha & Hb). exists i0. split.
  - exists a, b. split_and!; [done..|]. apply (Hgap i0); [done..|]. unfold i0. case_decide; lia.
  - intros j (a' & b' & Ha' & Hb' & Hg). apply (Hgap j) in Hg; [|done..]. pose proof (lookup_lt_Some _ _ _ Ha'). unfold i0. case_decide; lia.
Qed.
End circular.

Section chain.
Context {Signer : Type} `{HS : SignLaws Signer}.

(** ** Authority *)
Definition cut (keys : list setKey) (origin o : bytes) : Prop := (o, TypeNS) ∈ keys ∧ o ≠ origin.
(** The zone's own data: not below a delegation, and NS and DS only at one. *)
Definition owned (keys : list setKey) (origin : bytes) (k : setKey) : Prop :=
  k ∈ keys ∧ (∀ p, Above origin k.1 p → ¬ cut keys origin p) ∧ (cut keys origin k.1 → k.2 = TypeNS ∨ k.2 = TypeDS).

Lemma elem_of_cuts_of origin keys o : o ∈ cuts_of origin keys ↔ cut keys origin o.
Proof.
  unfold cuts_of, cut. induction keys as [|k keys IH] using rev_ind; simpl; [set_solver|]. rewrite foldl_app, elem_of_app, list_elem_of_singleton. simpl.
  destruct (Z.eqb_spec k.2 TypeNS) as [Et|Et]; simpl; [case_bool_decide as Eo; simpl|].
  - rewrite IH. split; [tauto|]. intros [[?|<-] Hne]; [done|]. by simpl in *.
  - rewrite elem_of_union, elem_of_singleton, IH. split.
    + intros [->|[??]]; [|tauto]. split; [right; rewrite <- Et; by destruct k|done].
    + intros [[?|<-] ?]; [by right|by left].
  - rewrite IH. split; [tauto|]. intros [[?|<-] Hne]; [done|]. by simpl in *.
Qed.
Lemma authoritative_iff keys origin cuts k : (∀ o, o ∈ cuts ↔ cut keys origin o) → k ∈ keys →
  authoritative origin cuts k = true ↔ owned keys origin k.
Proof.
  intros Hc Hk. unfold authoritative, owned. rewrite negb_true_iff, orb_false_iff. split.
  - intros [Hoc Hb]. split_and!; [done|..].
    + intros p Ha Hp. apply not_true_iff_false in Hoc. apply Hoc, occluded_iff. exists p. by rewrite Hc.
    + intros Hcut%Hc. rewrite bool_decide_eq_true_2 in Hb by done. simpl in Hb.
      destruct (Z.eqb_spec k.2 TypeNS); [by left|]. destruct (Z.eqb_spec k.2 TypeDS); [by right|done].
  - intros (_ & Ha & Hb). split.
    + apply not_true_iff_false. rewrite occluded_iff. intros (p & Hp & Hcut%Hc). by apply (Ha p).
    + case_bool_decide as Hcut; [|done]. apply Hc in Hcut. destruct (Hb Hcut) as [-> | ->]; done.
Qed.
Lemma types_of_lookup origin cuts keys o : types_of origin cuts keys !! o =
  match map snd (filter (λ k, k.1 = o ∧ authoritative origin cuts k = true) keys) with [] => None | ts => Some ts end.
Proof.
  unfold types_of. induction keys as [|k keys IH] using rev_ind; [done|]. rewrite foldl_app, filter_app, map_app. simpl.
  destruct (authoritative origin cuts k) eqn:Ea.
  - rewrite filter_cons. destruct (decide (k.1 = o)) as [<-|Hne].
    + rewrite lookup_insert_eq, IH. rewrite decide_True by done. simpl. by destruct (map snd _).
    + rewrite lookup_insert_ne by done. rewrite decide_False by (by intros [? _]). by rewrite filter_nil, app_nil_r.
  - rewrite filter_cons, decide_False by (intros [_ ?]; congruence). by rewrite filter_nil, app_nil_r.
Qed.

(** What the chain loops are given: the types of each owner, sorted. *)
Record chain_input (keys : list setKey) (origin : bytes) (types : gmap bytes (list Z)) : Prop := {
  ci_types : ∀ o t, t ∈ default [] (types !! o) ↔ owned keys origin (o, t);
  ci_owner : ∀ o, is_Some (types !! o) ↔ ∃ t, owned keys origin (o, t);
  ci_nodup : ∀ o, NoDup (default [] (types !! o));
  ci_sorted : ∀ o, StronglySorted Z.lt (default [] (types !! o)) }.
Lemma sort_types_perm l : sort_types l ≡ₚ l.
Proof. apply sort_on_perm. Qed.
Lemma sort_types_sorted l : NoDup l → StronglySorted Z.lt (sort_types l).
Proof.
  intros Hl. pose proof (sort_on_strict id Z.compare l) as Hs. rewrite map_id in Hs. specialize (Hs Hl).
  clear -Hs. unfold sort_types. induction Hs as [|x k Hk IH Hx]; constructor; [done|]. eapply Forall_impl; [exact Hx|]. intros y. unfold key_lt, id. by intros ?%Z.compare_lt_iff.
Qed.
Lemma chain_input_of keys keys' origin cuts : NoDup keys' → (∀ k, k ∈ keys' ↔ k ∈ keys) → (∀ o, o ∈ cuts ↔ cut keys origin o) →
  chain_input keys origin (sort_types <$> types_of origin cuts keys').
Proof.
  intros Hnd Hkeys Hc.
  assert (∀ o, default [] ((sort_types <$> types_of origin cuts keys') !! o) ≡ₚ map snd (filter (λ k, k.1 = o ∧ authoritative origin cuts k = true) keys')) as Hp.
  { intros o. rewrite lookup_fmap, types_of_lookup. destruct (map snd _) as [|t ts] eqn:E; cbn [fmap option_fmap option_map default]; [done|]. apply sort_types_perm. }
  assert (∀ o t, t ∈ map snd (filter (λ k, k.1 = o ∧ authoritative origin cuts k = true) keys') ↔ owned keys origin (o, t)) as Ht.
  { intros o t. rewrite list_elem_of_fmap. split.
    - intros ([o' t'] & -> & Hk). apply list_elem_of_filter in Hk as [[E Ha] Hk]. simpl in *. subst. apply (authoritative_iff keys origin cuts); [done|by apply Hkeys|done].
    - intros Ho. exists (o, t). split; [done|]. apply list_elem_of_filter. assert ((o, t) ∈ keys) as Hk by apply Ho.
      rewrite Hkeys. split; [|done]. split; [done|]. by apply (authoritative_iff keys origin cuts). }
  assert (∀ o, NoDup (map snd (filter (λ k, k.1 = o ∧ authoritative origin cuts k = true) keys'))) as Hd.
  { intros o. apply NoDup_fmap_2_strong; [|by apply NoDup_filter].
    intros [a1 b1] [a2 b2] [[? _] _]%list_elem_of_filter [[? _] _]%list_elem_of_filter Eb. simpl in *. by subst. }
  split.
  - intros o t. by rewrite Hp, Ht.
  - intros o. rewrite lookup_fmap, fmap_is_Some, types_of_lookup. setoid_rewrite <- Ht. destruct (map snd _) as [|t ts].
    + split; [by intros [? ?]|]. by intros [? ?%not_elem_of_nil].
    + split; [intros _; exists t; by left|]. by eexists.
  - intros o. by rewrite Hp.
  - intros o. specialize (Hd o). rewrite lookup_fmap, types_of_lookup. destruct (map snd _) as [|t ts]; [constructor|].
    cbn [fmap option_fmap option_map default]. by apply sort_types_sorted.
Qed.

(** ** NSEC *)
Lemma rr_key_nsec owners types ttl i o : ToLower o = o → rr_key (nsec_rr owners types ttl i o) = (o, TypeNSEC).
Proof. intros Hl. change ((ToLower o, TypeNSEC) = (o, TypeNSEC)). by rewrite Hl. Qed.
(** Adding one record of a type the zone does not have yet at each of a list of owners. *)
Lemma add_indexed {A} (f : nat → A → sRR) (own : A → bytes) (T : Z) l z z' :
  zinv z → (∀ i a, l !! i = Some a → wf_srr (f i a) ∧ rr_key (f i a) = (own a, T)) → NoDup (map own l) →
  (∀ o, zs_sets z !! (o, T) = None) → fold_res sets_add z (imap f l) = Ok z' →
  zinv z' ∧ (∀ k, k.2 ≠ T → zs_sets z' !! k = zs_sets z !! k) ∧ (∀ o, is_Some (zs_sets z' !! (o, T)) ↔ o ∈ map own l) ∧
  (∀ i a, l !! i = Some a → set_of z' (own a, T) = [f i a]).
Proof.
  intros Hz Hf Hnd Hno Ha. set (rs := imap f l) in Ha.
  assert (∀ r, r ∈ rs ↔ ∃ i a, l !! i = Some a ∧ r = f i a) as Hrs by (intros r; unfold rs; rewrite elem_of_lookup_imap; naive_solver).
  assert (∀ k, k ∈ map rr_key rs ↔ k.2 = T ∧ k.1 ∈ map own l) as Hkeys.
  { intros k. rewrite !list_elem_of_fmap. split.
    - intros (r & -> & (i & a & Hi & ->)%Hrs). rewrite (proj2 (Hf i a Hi)). split; [done|]. exists a. split; [done|]. by eapply list_elem_of_lookup_2.
    - intros [Et (a & Eo & (i & Hi)%list_elem_of_lookup)]. exists (f i a). rewrite (proj2 (Hf i a Hi)). split; [destruct k; simpl in *; by subst|]. apply Hrs. by exists i, a. }
  apply fold_add_grown in Ha as G; [|done|apply Forall_forall; intros r (i & a & Hi & ->)%Hrs; by apply Hf].
  split_and!; [apply G|..].
  - intros k Hk. apply (gr_old _ _ _ G). rewrite Hkeys. tauto.
  - intros o. rewrite (gr_keys _ _ _ G), Hno, Hkeys. simpl. split; [|by right]. by intros [[? ?]|[_ ?]].
  - intros i a Hi. pose proof (gr_inv _ _ _ G) as Hz'. apply zinv_single; [done|..].
    + apply (gr_keys _ _ _ G). right. rewrite Hkeys. split; [done|]. apply list_elem_of_fmap. exists a. split; [done|]. by eapply list_elem_of_lookup_2.
    + intros r Hr. destruct (zinv_elem _ _ _ Hz' Hr) as (_ & Ek & _). apply (gr_from _ _ _ G) in Hr as [Hr|(j & b & Hj & ->)%Hrs].
      * apply set_of_Some in Hr. rewrite Hno in Hr. by destruct Hr.
      * rewrite (proj2 (Hf j b Hj)) in Ek. injection Ek as Ek. assert (j = i) as ->; [|congruence].
        eapply NoDup_lookup; [exact Hnd|..]; change (map own l) with (own <$> l); rewrite list_lookup_fmap, ?Hi, ?Hj; simpl; [by rewrite Ek|done].
Qed.
Lemma addNSEC_spec z owners types ttl z' : zinv z → Forall plain_name owners → NoDup owners → (∀ o, zs_sets z !! (o, TypeNSEC) = None) →
  addNSEC z owners types ttl = Ok z' →
  zinv z' ∧ (∀ k, k.2 ≠ TypeNSEC → zs_sets z' !! k = zs_sets z !! k) ∧ (∀ o, is_Some (zs_sets z' !! (o, TypeNSEC)) ↔ o ∈ owners) ∧
  (∀ i o, owners !! i = Some o → set_of z' (o, TypeNSEC) = [nsec_rr owners types ttl i o]).
Proof.
  intros Hz Hp Hnd Hno Ha. rewrite Forall_forall in Hp. pose proof (add_indexed (nsec_rr owners types ttl) (λ o, o) TypeNSEC owners z z' Hz) as Hadd. rewrite map_id in Hadd.
  apply Hadd; [|done..]. intros i o Ho. assert (plain_name o) as [Po Lo] by (apply Hp; by eapply list_elem_of_lookup_2).
  split; [by split|by apply rr_key_nsec].
Qed.
Lemma sortCanonical_spec names l : Forall plain_name names → NoDup names → sortCanonical names = Ok l →
  l ≡ₚ names ∧ StronglySorted (key_lt canon bytes_compare) l ∧ Forall (λ n, is_Some (canonKey n)) names.
Proof.
  intros Hp Hnd. unfold sortCanonical. destruct (forallb _ names) eqn:Hf; [|done]. intros [= <-].
  assert (Forall (λ n, is_Some (canonKey n)) names) as Hk.
  { apply Forall_forall. intros n Hn. rewrite forallb_forall in Hf. specialize (Hf n). rewrite <- list_elem_of_In in Hf. by apply Hf, bool_decide_eq_true in Hn. }
  split; [apply sort_on_perm|]. split; [|done]. apply sort_on_strict; [apply _|]. apply NoDup_fmap_2_strong; [|done].
  rewrite Forall_forall in Hp, Hk. intros a b Ha Hb. apply canon_inj; auto.
Qed.
End chain.
