(* ===== verification/DnssecChain3.v ===== *)
(** * The NSEC3 chain

    [addNSEC3]: the hashes of the owners and of the empty non-terminals above them, in order, each
    with the types of its name. *)

From S2P Require Import Prelude.
From S2P Require Import GoText.
From S2P Require Import NzfNames.
From S2P Require Import NzfFormat.
From S2P Require Import Effects.
From S2P Require Import ZoneJournal.
From S2P Require Import DnssecRollover.
From S2P Require Import XfrIn.
From S2P Require Import DnsLib.
From S2P Require Import DnssecSign.
From S2P Require Import DnssecSets.
From S2P Require Import DnssecChain.

Section nsec3.
Context {Signer : Type} `{HS : SignLaws Signer}.

(** ** Empty non-terminals *)
Definition domain_list (types : gmap bytes (list Z)) (names : list bytes) : Prop := NoDup names ∧ ∀ n, n ∈ names ↔ is_Some (types !! n).
(** [types'] is [types] with empty entries for the names of [P] it lacks. *)
Record padded (P : bytes → Prop) (types types' : gmap bytes (list Z)) : Prop := {
  pd_old : ∀ n ts, types !! n = Some ts → types' !! n = Some ts;
  pd_new : ∀ n ts, types !! n = None → types' !! n = Some ts → ts = [];
  pd_dom : ∀ n, is_Some (types' !! n) ↔ is_Some (types !! n) ∨ P n }.
Lemma padded_trans (P Q : bytes → Prop) t1 t2 t3 : padded P t1 t2 → padded Q t2 t3 → padded (λ n, P n ∨ Q n) t1 t3.
Proof.
  intros A B. split.
  - intros n ts E. by apply (pd_old _ _ _ B), (pd_old _ _ _ A).
  - intros n ts E E3. destruct (t2 !! n) as [ts'|] eqn:E2; [|by eapply (pd_new _ _ _ B)].
    apply (pd_old _ _ _ B) in E2 as E3'. rewrite E3 in E3'. injection E3' as ->. by eapply (pd_new _ _ _ A).
  - intros n. rewrite (pd_dom _ _ _ B), (pd_dom _ _ _ A). tauto.
Qed.
Lemma padded_ext (P Q : bytes → Prop) t t' : (∀ n, P n ↔ Q n) → padded P t t' → padded Q t t'.
Proof. intros E A. split; [apply A|apply A|]. intros n. rewrite (pd_dom _ _ _ A), E. done. Qed.
Lemma padded_refl (P : bytes → Prop) t : (∀ n, P n → is_Some (t !! n)) → padded P t t.
Proof. intros HP. split; [done|congruence|]. intros n. split; [by left|]. intros [?|?]; auto. Qed.
Lemma padded_one t p : t !! p = None → padded (λ n, n = p) t (<[p := []]> t).
Proof.
  intros Hp. split.
  - intros n ts E. by rewrite lookup_insert_ne by (intros ->; congruence).
  - intros n ts E. destruct (decide (p = n)) as [->|]; [rewrite lookup_insert_eq; by intros [= <-]|rewrite lookup_insert_ne by done; congruence].
  - intros n. rewrite lookup_insert_is_Some. destruct (decide (p = n)); naive_solver.
Qed.
Lemma ent_loop_spec fuel origin types names p : (walk_measure p < fuel)%nat → domain_list types names →
  let st := ent_loop fuel origin types names p in
  domain_list st.1 st.2 ∧ padded (λ n, len origin < len p ∧ (n = p ∨ Above origin p n)) types st.1.
Proof.
  cbv zeta. revert types names p. induction fuel as [|fuel IH]; intros types names p Hf Hd; [lia|]. simpl.
  destruct (Z.leb_spec (len p) (len origin)) as [|Hlt]; [split; [done|]; apply padded_refl; intros n [? _]; lia|].
  pose proof (parent_measure p (len_pos_ne _ _ Hlt)) as Hm.
  assert (∀ n, (len origin < len (parent p) ∧ (n = parent p ∨ Above origin (parent p) n)) ↔ Above origin p n) as Ha.
  { intros n. split; [intros (? & [->|?]); [by constructor|by apply above_step]|]. intros []; auto. }
  destruct (types !! p) as [ts|] eqn:Ep.
  - destruct (IH types names (parent p)) as [Hd' Hp]; [lia|done|]. split; [done|]. apply (padded_ext (λ n, n = p ∨ Above origin p n)); [naive_solver|].
    eapply padded_trans; [apply (padded_refl (λ n, n = p)); intros n ->; by eexists|]. eapply padded_ext; [exact Ha|done].
  - destruct (IH (<[p := []]> types) (names ++ [p]) (parent p)) as [Hd' Hp]; [lia|..].
    + destruct Hd as [Hn Hd]. split.
      * apply NoDup_app. split; [done|]. split; [|apply NoDup_singleton]. intros x Hx. rewrite list_elem_of_singleton. intros ->. apply Hd in Hx as [? ?]. congruence.
      * intros n. rewrite elem_of_app, list_elem_of_singleton, Hd, lookup_insert_is_Some. destruct (decide (p = n)); naive_solver.
    + split; [done|]. apply (padded_ext (λ n, n = p ∨ Above origin p n)); [naive_solver|]. eapply padded_trans; [by apply padded_one|].
      eapply padded_ext; [exact Ha|done].
Qed.
Lemma add_ents_spec origin owners types : domain_list types owners →
  let st := add_ents origin owners types in
  domain_list st.1 st.2 ∧ padded (λ n, ∃ o, o ∈ owners ∧ Above origin o n) types st.1.
Proof.
  cbv zeta. intros Hd. unfold add_ents.
  enough (∀ l types names, domain_list types names →
    let st := foldl (λ st o, ent_loop (length o + 3) origin st.1 st.2 (parent o)) (types, names) l in
    domain_list st.1 st.2 ∧ padded (λ n, ∃ o, o ∈ l ∧ Above origin o n) types st.1) as Hg by by apply Hg.
  clear Hd types owners. induction l as [|o l IH]; intros types names Hd; simpl.
  - split; [done|]. apply padded_refl. by intros n (o & ?%not_elem_of_nil & _).
  - destruct (ent_loop_spec (length o + 3) origin types names (parent o)) as [Hd1 Hp1]; [apply parent_measure_start|done|]. cbv zeta in *.
    destruct (ent_loop _ _ _ _ _) as [t1 n1]. simpl in *. destruct (IH t1 n1 Hd1) as [Hd2 Hp2]. split; [done|].
    eapply padded_ext; [|by eapply padded_trans]. intros n. cbv beta. setoid_rewrite elem_of_cons. split.
    + intros [(Hl & [->|Ha])|(x & ? & ?)]; [exists o; split; [by left|by constructor]|exists o; split; [by left|by apply above_step]|exists x; split; [by right|done]].
    + intros (x & [->|Hx] & Ha); [|right; by exists x]. left. destruct Ha; auto.
Qed.

(** ** The loop *)
Lemma nsec3_loop_spec prev l z z' : nsec3_loop z prev l = Ok z' →
  StronglySorted (λ a b, bytes_compare b a ≠ Lt) (map fst l) → (∀ p, prev = Some p → Forall (λ h, bytes_compare h p ≠ Lt) (map fst l)) →
  fold_res sets_add z (map snd l) = Ok z' ∧ StronglySorted (λ a b, bytes_compare a b = Lt) (map fst l) ∧
  (∀ p, prev = Some p → Forall (λ h, bytes_compare p h = Lt) (map fst l)).
Proof.
  revert prev z. induction l as [|[h r] l IH]; intros prev z; simpl; [intros [= <-] _ _; split_and!; [done|constructor|constructor]|].
  case_bool_decide as Hne; [done|]. intros (z1 & -> & E)%bind_Ok Hs Hp. simpl. apply StronglySorted_inv in Hs as [Hs Hh].
  destruct (IH _ _ E Hs) as (-> & Hs' & Hlt); [by intros p [= <-]|]. specialize (Hlt h eq_refl). split_and!; [done|by constructor|].
  intros p ->. specialize (Hp p eq_refl). apply Forall_cons in Hp as [Hph _].
  assert (bytes_compare p h = Lt) as Hlt' by (destruct (bytes_lt_cases p h); congruence). constructor; [done|].
  eapply Forall_impl; [exact Hlt|]. intros x. by apply bytes_compare_lt_trans.
Qed.
Lemma sort_on_weak {A} (key : A → bytes) l : StronglySorted (λ a b, bytes_compare b a ≠ Lt) (map key (sort_on key bytes_compare l)).
Proof.
  assert (StrictWeakOrder (λ a b, bool_decide (bytes_compare (key a) (key b) = Lt))) as Ho by by apply (swo_of_cmp key bytes_compare).
  pose proof (stable_sort_sorted (λ a b, bool_decide (bytes_compare (key a) (key b) = Lt)) l) as Hs. fold (sort_on key bytes_compare l) in Hs.
  induction Hs as [|a k Hs IH Ha]; simpl; constructor; [done|]. rewrite Forall_map. eapply Forall_impl; [exact Ha|]. simpl. intros b Hb. by apply bool_decide_eq_false in Hb.
Qed.
Lemma fold_add_packs rs z z' r : fold_res sets_add z rs = Ok z' → r ∈ rs → is_Some (packCanonical r).
Proof.
  revert z. induction rs as [|x rs IH]; intros z; [by intros _ ?%not_elem_of_nil|]. simpl. intros (z1 & E1 & E2)%bind_Ok [->|Hr]%elem_of_cons; [|by eapply IH].
  unfold sets_add in E1. by destruct (packCanonical x).
Qed.

Definition hash_owner (origin h : bytes) : bytes := h ++ [46] ++ origin.
Lemma hash_owner_lower origin n : ToLower origin = origin → ToLower (hash_owner origin (ToLower (HashName n))) = hash_owner origin (ToLower (HashName n)).
Proof. intros Ho. unfold hash_owner, ToLower at 1. rewrite !map_app. fold (ToLower (ToLower (HashName n))) (ToLower origin). by rewrite ToLower_idem, Ho. Qed.

(** [hs] is the chain of the names: their hashes in strict order. *)
Definition hash_chain (names : list bytes) (hs : list (bytes * bytes)) : Prop :=
  hs ≡ₚ map (λ n, (ToLower (HashName n), n)) names ∧ StronglySorted (key_lt fst bytes_compare) hs.

Lemma imap_pair {A B C} (g : A → B) (f : nat → A → C) l :
  map fst (imap (λ i a, (g a, f i a)) l) = map g l ∧ map snd (imap (λ i a, (g a, f i a)) l) = imap f l.
Proof.
  revert f. induction l as [|a l IH]; intros f; [done|]. simpl. destruct (IH (f ∘ S)) as [E1 E2].
  split; f_equal; [exact E1|exact E2].
Qed.
(** The hashes are put in order, and no two of them are equal. *)
Lemma addNSEC3_chain z origin owners types cuts ttl z' (st := add_ents origin owners types) :
  addNSEC3 z origin owners types cuts ttl = Ok z' →
  ∃ hs, hash_chain st.2 hs ∧ fold_res sets_add z (imap (nsec3_rr origin hs cuts st.1 ttl) hs) = Ok z'.
Proof.
  unfold addNSEC3. fold st. clearbody st. destruct st as [types' names]. simpl. destruct (existsb _ _) eqn:Hex; [done|].
  set (hs := sort_on fst bytes_compare _). intros Ha. exists hs.
  destruct (imap_pair fst (nsec3_rr origin hs cuts types' ttl) hs) as [E1 E2].
  apply nsec3_loop_spec in Ha as (Hfold & Hstrict & _); [|rewrite E1; apply sort_on_weak|done]. rewrite E1 in Hstrict. rewrite E2 in Hfold.
  split; [split; [apply sort_on_perm|]|done].
  clear -Hstrict. induction hs as [|h hs IH]; [constructor|]. simpl in Hstrict. apply StronglySorted_inv in Hstrict as [Hs Hh]. constructor; [by apply IH|]. by rewrite Forall_map in Hh.
Qed.
Lemma addNSEC3_spec z origin owners types cuts ttl z' (st := add_ents origin owners types) :
  zinv z → plain_name origin → (∀ o, zs_sets z !! (o, TypeNSEC3) = None) → addNSEC3 z origin owners types cuts ttl = Ok z' →
  ∃ hs, hash_chain st.2 hs ∧ zinv z' ∧ (∀ k, k.2 ≠ TypeNSEC3 → zs_sets z' !! k = zs_sets z !! k) ∧
  (∀ o, is_Some (zs_sets z' !! (o, TypeNSEC3)) ↔ o ∈ map (λ h, hash_owner origin h.1) hs) ∧
  (∀ i h, hs !! i = Some h → set_of z' (hash_owner origin h.1, TypeNSEC3) = [nsec3_rr origin hs cuts st.1 ttl i h]).
Proof.
  intros Hz [Po Lo] Hno (hs & Hc & Hfold)%addNSEC3_chain. fold st in Hc, Hfold. exists hs. split; [done|]. destruct Hc as [Hperm Hs].
  apply (add_indexed _ (λ h, hash_owner origin h.1)); [done|..|done|done].
  - intros i h Hi. pose proof (list_elem_of_lookup_2 _ _ _ Hi) as Hin. rewrite Hperm, list_elem_of_fmap in Hin. destruct Hin as (n & -> & _).
    assert (rr_key (nsec3_rr origin hs cuts st.1 ttl i (ToLower (HashName n), n)) = (hash_owner origin (ToLower (HashName n)), TypeNSEC3)) as Ek.
    { change ((ToLower (hash_owner origin (ToLower (HashName n))), TypeNSEC3) = (hash_owner origin (ToLower (HashName n)), TypeNSEC3)). by rewrite hash_owner_lower. }
    split; [|done]. split; [|done]. destruct (fold_add_packs _ _ _ (nsec3_rr origin hs cuts st.1 ttl i (ToLower (HashName n), n)) Hfold) as [w Hw].
    { apply elem_of_lookup_imap. by eexists i, _. }
    apply packCanonical_wire in Hw as (o & _ & Hw & _). injection Ek as Ek. rewrite Ek in Hw. apply hash_printed; [done|]. by eexists.
  - apply strict_NoDup in Hs; [|apply _]. rewrite <- (map_map fst (hash_owner origin)). apply NoDup_fmap_2_strong; [|done].
    intros a b _ _. unfold hash_owner. apply app_inv_tail.
Qed.
End nsec3.
