(* ===== verification/DnssecSigned.v ===== *)
(** * What a signing pass leaves

    The zone a pass signs, and the pass as a whole. *)

From S2P Require Import Prelude.
From S2P Require Import GoText.
From S2P Require Import NzfNames.
From S2P Require Import NzfFormat.
From S2P Require Import Effects.
From S2P Require Import ZoneJournal.
From S2P Require Import DnssecRollover.
From S2P Require Import XfrIn.
From S2P Require Import DnsLib.
From S2P Require Import DnssecSign.
From S2P Require Import DnssecSets.
From S2P Require Import DnssecChain.
From S2P Require Import DnssecChain3.

(** ** The signatures of a signed zone

    The second half of [DnssecSign.Sign]: the sets are served in canonical order, each followed by
    its signatures.  A pass is described by its entries, one per signature. *)

Section signed.
Context {Signer : Type} `{HS : SignLaws Signer} (sha256 : bytes → bytes).

(** One signature: the set it covers, the key, the digest of the set, and whether it was reused. *)
Record entry := mkEntry { e_key : setKey; e_signer : Key Signer; e_digest : bytes; e_sig : Hdr * RRSIG; e_reused : bool }.
Definition e_sk (e : entry) : SigKey := ((e_key e).1, (e_key e).2, KeyTag (K_DNSKEY (e_signer e))).
Definition e_cached (e : entry) : CachedSig := mkCached (e_digest e) (e_sig e).
Definition e_rr (e : entry) : sRR := sig_rr (e_sig e).
Definition e_refresh (e : entry) : Z := time_Unix (sg_Expiration (e_sig e).2) - RefreshBefore.
Definition record_entry (out : Output) (e : entry) : Output := record_sig out (e_sk e) (e_digest e) (e_sig e) (e_reused e).
Definition signs (k : setKey) (key : Key Signer) : bool := K_Signs key && bool_decide (K_Role key = role_of k.2).

(** [e] is the entry of [key] for the set [k]. *)
Definition made (origin : bytes) (k : setKey) (set : list sRR) (digest : bytes) (cache : gmap SigKey CachedSig) (now : Z) (key : Key Signer) (e : entry) : Prop :=
  e_key e = k ∧ e_signer e = key ∧ e_digest e = digest ∧
  match cached_sig cache now (e_sk e) digest (K_Algorithm key) with
  | Some s => e_sig e = s ∧ e_reused e = true
  | None => newSig origin set key now = Ok (e_sig e) ∧ e_reused e = false
  end.

Lemma sign_loop_iff origin k set digest keys cache now out sigs out' sigs' :
  sign_loop origin k set digest keys cache now out sigs = Ok (out', sigs') ↔
  ∃ es, Forall2 (made origin k set digest cache now) (filter (λ key, signs k key = true) keys) es ∧
    out' = foldl record_entry out es ∧ sigs' = sigs ++ map e_rr es.
Proof.
  revert out sigs. induction keys as [|key keys IH]; intros out sigs; simpl.
  { split; [intros [= <- <-]; exists []; by rewrite app_nil_r|]. intros (es & ->%Forall2_nil_inv_l & -> & ->). simpl. by rewrite app_nil_r. }
  rewrite filter_cons. assert (negb (K_Signs key) || negb (bool_decide (K_Role key = role_of k.2)) = negb (signs k key)) as -> by by rewrite <- negb_andb.
  destruct (signs k key) eqn:Esg; [rewrite decide_True by done; simpl|rewrite decide_False by congruence; apply IH].
  set (sk := (k.1, k.2, KeyTag (K_DNSKEY key))). split.
  - intros ([sig reused] & Es & E)%bind_Ok. apply IH in E as (es & Hes & -> & ->). exists (mkEntry k key digest sig reused :: es).
    split_and!; [|done|by rewrite <- app_assoc]. constructor; [|done]. split_and!; [done..|]. unfold e_sk. simpl. fold sk.
    destruct (cached_sig cache now sk digest (K_Algorithm key)); [by injection Es as <- <-|]. apply bind_Ok in Es as (s & Es & E). by injection E as <- <-.
  - intros (es & Hes & -> & ->). apply Forall2_cons_inv_l in Hes as (e & es' & (<- & <- & <- & Hm) & Hes & ->). unfold e_sk in Hm. fold sk in Hm.
    destruct (cached_sig cache now sk _ _) as [s|].
    + destruct Hm as [<- Hr]. simpl. apply IH. exists es'. split_and!; [done| |simpl; by rewrite <- app_assoc]. simpl. unfold record_entry at 2. unfold e_sk. fold sk. by rewrite Hr.
    + destruct Hm as [-> Hr]. simpl. apply IH. exists es'. split_and!; [done| |simpl; by rewrite <- app_assoc]. simpl. unfold record_entry at 2. unfold e_sk. fold sk. by rewrite Hr.
Qed.

(** The entries of one set: none for a set that is not signed, one per signing key of its role otherwise. *)
Definition block (inp : Input Signer) (origin : bytes) (cuts : gset bytes) (sets : gmap setKey (list sRR)) (k : setKey) (es : list entry) : Prop :=
  if unsigned origin cuts k then es = []
  else es ≠ [] ∧ ∃ digest, rrsetDigest sha256 (default [] (sets !! k)) = Some digest ∧
    Forall2 (made origin k (default [] (sets !! k)) digest (in_Cache inp) (in_Now inp)) (filter (λ key, signs k key = true) (in_Keys inp)) es.
Definition served_of (sets : gmap setKey (list sRR)) (k : setKey) (es : list entry) : list sRR := default [] (sets !! k) ++ map e_rr es.

Lemma record_serve es out rs : foldl record_entry (serve out rs) es = serve (foldl record_entry out es) rs.
Proof. revert out. induction es as [|e es IH]; intros out; [done|]. simpl. by rewrite <- IH. Qed.
Lemma serve_serve out a b : serve (serve out a) b = serve out (a ++ b).
Proof. unfold serve. simpl. by rewrite app_assoc. Qed.
Lemma serve_nil out : serve out [] = out.
Proof. unfold serve. rewrite app_nil_r. by destruct out. Qed.

Lemma serve_set_iff inp origin cuts sets out k out' : serve_set sha256 inp origin cuts sets out k = Ok out' ↔
  ∃ es, block inp origin cuts sets k es ∧ out' = serve (foldl record_entry out es) (served_of sets k es).
Proof.
  unfold serve_set, block, served_of. destruct (unsigned origin cuts k).
  { split; [intros [= <-]; exists []; by rewrite app_nil_r|]. intros (es & -> & ->). by rewrite app_nil_r. }
  unfold signSet. split.
  - intros ([o sigs] & E & E')%bind_Ok. injection E' as <-. apply bind_Ok in E as (digest & Ed & E). apply bind_Ok in E as ([o1 s1] & El & E).
    apply sign_loop_iff in El as (es & Hes & -> & ->). case_bool_decide as Hne; [done|]. injection E as <- <-. exists es.
    destruct (rrsetDigest sha256 _) as [d|] eqn:Edig; [|done]. injection Ed as <-. rewrite record_serve, serve_serve. split; [|done].
    split; [by intros ->|]. by exists d.
  - intros (es & (Hne & digest & Ed & Hes) & ->). rewrite Ed. simpl.
    rewrite (proj2 (sign_loop_iff _ _ _ _ _ _ _ _ _ _ _) (ex_intro _ es (conj Hes (conj eq_refl eq_refl)))). simpl.
    rewrite bool_decide_eq_false_2 by (by destruct es). simpl. by rewrite record_serve, serve_serve.
Qed.
Lemma serve_loop_iff inp origin cuts sets order out out' : fold_res (serve_set sha256 inp origin cuts sets) out order = Ok out' ↔
  ∃ ess, Forall2 (block inp origin cuts sets) order ess ∧
    out' = serve (foldl record_entry out (concat ess)) (concat (zip_with (served_of sets) order ess)).
Proof.
  revert out. induction order as [|k order IH]; intros out; simpl.
  { split; [intros [= <-]; exists []; by rewrite serve_nil|]. intros (ess & ->%Forall2_nil_inv_l & ->). by rewrite serve_nil. }
  split.
  - intros (o1 & (es & Hb & ->)%serve_set_iff & (ess & Hess & ->)%IH)%bind_Ok. exists (es :: ess). split; [by constructor|]. simpl.
    by rewrite record_serve, serve_serve, foldl_app.
  - intros (ess0 & Hall & ->). apply Forall2_cons_inv_l in Hall as (es & ess & Hb & Hess & ->).
    rewrite (proj2 (serve_set_iff _ _ _ _ _ _ _) (ex_intro _ es (conj Hb eq_refl))). simpl. apply IH. exists ess. split; [done|]. cbn [concat zip_with].
    by rewrite record_serve, serve_serve, foldl_app.
Qed.

(** ** What a pass records *)
Lemma record_served es out : o_Served (foldl record_entry out es) = o_Served out.
Proof. revert out. induction es as [|e es IH]; intros out; [done|]. simpl. by rewrite IH. Qed.
Lemma record_cache es out sk : NoDup (map e_sk es) →
  o_Cache (foldl record_entry out es) !! sk =
    match list_find (λ e, e_sk e = sk) es with Some (_, e) => Some (e_cached e) | None => o_Cache out !! sk end.
Proof.
  revert out. induction es as [|e es IH]; intros out Hnd; [done|]. cbn [map] in Hnd. apply NoDup_cons in Hnd as [Hne Hnd].
  cbn [foldl list_find]. rewrite IH by done. case_decide as E; [|].
  - assert (list_find (λ e0, e_sk e0 = sk) es = None) as ->.
    { apply list_find_None, Forall_forall. intros x Hx Ex. apply Hne. rewrite E, <- Ex. by apply list_elem_of_fmap_2. }
    simpl. by rewrite E, lookup_insert_eq.
  - destruct (list_find _ es) as [[i x]|]; [done|]. simpl. by rewrite lookup_insert_ne.
Qed.
(** The cache of a pass that starts with an empty one holds its entries. *)
Lemma record_cache_iff es out sk c : NoDup (map e_sk es) → o_Cache out = ∅ →
  o_Cache (foldl record_entry out es) !! sk = Some c ↔ ∃ e, e ∈ es ∧ e_sk e = sk ∧ c = e_cached e.
Proof.
  intros Hnd He. rewrite record_cache by done. rewrite He, lookup_empty. destruct (list_find _ es) as [[i e]|] eqn:E.
  - apply list_find_Some in E as (Hi & Ek & _). pose proof (list_elem_of_lookup_2 _ _ _ Hi) as Hin. split; [intros [= <-]; by exists e|].
    intros (e' & Hin' & Ek' & ->). enough (e' = e) as -> by done. apply (list_elem_of_lookup_1 es) in Hin' as [j Hj].
    assert (i = j) as ->; [|congruence]. apply (NoDup_lookup (map e_sk es) i j sk); [done|..]; change (map e_sk es) with (e_sk <$> es); rewrite list_lookup_fmap, ?Hi, ?Hj; simpl; congruence.
  - apply list_find_None in E. rewrite Forall_forall in E. split; [done|]. intros (e & Hin & Ek & _). by apply E in Hin.
Qed.
(** The next refresh is the earliest of the entries'. *)
Lemma record_refresh es out : es ≠ [] → o_NextRefresh out = zero_time → (∀ e, e ∈ es → 0 ≤ sg_Expiration (e_sig e).2) →
  (∃ e, e ∈ es ∧ o_NextRefresh (foldl record_entry out es) = e_refresh e) ∧ ∀ e, e ∈ es → o_NextRefresh (foldl record_entry out es) ≤ e_refresh e.
Proof.
  intros Hne Hz Hexp. assert (∀ e, e ∈ es → e_refresh e ≠ zero_time) as Hnz.
  { intros e He. specialize (Hexp e He). unfold e_refresh, time_Unix, RefreshBefore, hour, second, zero_time. lia. }
  clear Hexp. induction es as [|e es IH] using rev_ind; [done|]. rewrite foldl_app. simpl. set (o := foldl record_entry out es) in *.
  unfold IsZero, Before. destruct es as [|e0 es0] eqn:Ees.
  { simpl in o. unfold o. rewrite Hz, Z.eqb_refl. simpl. split; [exists e; split; [by left|done]|]. by intros x ->%list_elem_of_singleton. }
  rewrite <- Ees in *. destruct IH as [(x & Hx & Ex) Hle]; [by rewrite Ees|intros y Hy; apply Hnz; set_solver|]. fold o in Ex, Hle.
  rewrite (proj2 (Z.eqb_neq _ _)) by (rewrite Ex; apply Hnz; set_solver). simpl. change (time_Unix (sg_Expiration (e_sig e).2) - RefreshBefore) with (e_refresh e).
  destruct (Z.ltb_spec (e_refresh e) (o_NextRefresh o)); (split; [|intros y [Hy|Hy]%elem_of_app; [specialize (Hle y Hy); lia|apply list_elem_of_singleton in Hy as ->; lia]]).
  - exists e. split; [set_solver|done].
  - exists x. split; [set_solver|done].
Qed.
Lemma record_created es out : o_Created (foldl record_entry out es) = o_Created out + len (filter (λ e, e_reused e = false) es) ∧
  o_Reused (foldl record_entry out es) = o_Reused out + len (filter (λ e, e_reused e = true) es).
Proof.
  revert out. induction es as [|e es IH]; intros out; [simpl; len_lia|]. cbn [foldl]. destruct (IH (record_entry out e)) as [-> ->]. rewrite !filter_cons. simpl.
  destruct (e_reused e); simpl; len_lia.
Qed.
End signed.

(** ** A signing pass, taken apart

    A successful [DnssecSign.Sign] as its parts: the sets collected, the cuts, the denial chain, the
    order the sets are served in and the entries of each. *)

Section pass.
Context {Signer : Type} `{HS : SignLaws Signer} (sha256 : bytes → bytes).
Context (range_sets : nat → gmap setKey (list sRR) → list setKey) (range_types : gmap bytes (list Z) → list bytes).
Abbreviation Sign := (Sign sha256 range_sets range_types).

(** Owner names as the library prints them, and header fields of their width. *)
Record wf_input (inp : Input Signer) : Prop := {
  wi_records : Forall wf_srr (in_Records inp);
  wi_origin : printed (CanonicalName (in_Origin inp));
  wi_nonempty : CanonicalName (in_Origin inp) ≠ [] }.
Definition origin_of (inp : Input Signer) : bytes := CanonicalName (in_Origin inp).
Definition zone_keys (inp : Input Signer) (soa : Hdr * SOAData) : list setKey := map rr_key (kept inp ++ generated inp (origin_of inp) soa).
Definition negTTL (soa : Hdr * SOAData) : Z := Z.min (hd_Ttl soa.1) (Minttl soa.2).

Lemma plain_origin inp : wf_input inp → plain_name (origin_of inp).
Proof. intros Hw. split; [apply Hw|apply canonical_lower]. Qed.
Lemma generated_key inp soa r : wf_input inp → r ∈ generated inp (origin_of inp) soa →
  s_Name r = origin_of inp ∧ s_Type r ∈ [TypeDNSKEY; TypeCDS; TypeCDNSKEY; TypeNSEC3PARAM].
Proof.
  intros Hw [Hr|Hr]%elem_of_app.
  - apply list_elem_of_In, in_concat in Hr as (l & (k & <- & _)%in_map_iff & Hr%list_elem_of_In). unfold key_rrs in Hr.
    destruct (K_InCDS k); rewrite !elem_of_cons, ?elem_of_nil in Hr; destruct_or! Hr; subst; try done; (split; [done|]); simpl; set_solver.
  - destruct (in_NSEC3 inp); [|by apply not_elem_of_nil in Hr]. apply list_elem_of_singleton in Hr as ->. split; [done|]. simpl. set_solver.
Qed.
Lemma zone_rrs_wf inp soa : wf_input inp → Forall wf_srr (kept inp ++ generated inp (origin_of inp) soa).
Proof.
  intros Hw. apply Forall_app. split; [apply Forall_filter, Hw|]. apply Forall_forall. intros r Hr. destruct (generated_key _ _ _ Hw Hr) as [En Et].
  split; [rewrite En; apply Hw|]. rewrite !elem_of_cons, elem_of_nil in Et. destruct_or! Et; rewrite ?Et; by compute.
Qed.
(** No set of the zone has a type of the chain or of signatures. *)
Lemma zone_keys_types inp soa k : wf_input inp → k ∈ zone_keys inp soa → k.2 ≠ TypeNSEC ∧ k.2 ≠ TypeNSEC3 ∧ k.2 ≠ TypeRRSIG ∧ plain_name k.1.
Proof.
  intros Hw (r & -> & Hr)%list_elem_of_fmap. pose proof (zone_rrs_wf inp soa Hw) as Hall. rewrite Forall_forall in Hall. destruct (Hall _ Hr) as [Hp _].
  unfold rr_key. cbn [fst snd]. apply elem_of_app in Hr as [Hr|Hr].
  - apply list_elem_of_filter in Hr as [Hg _]. unfold generatedTypes in Hg. apply bool_decide_eq_false in Hg. rewrite !elem_of_cons in Hg.
    split_and!; [tauto..|by apply plain_lower].
  - destruct (generated_key _ _ _ Hw Hr) as [_ Et]. rewrite !elem_of_cons, elem_of_nil in Et. split_and!; [..|by apply plain_lower]; destruct_or! Et; rewrite ?Et; done.
Qed.

(** The NSEC records added to [z]: one per owner, in canonical order. *)
Definition nsec_chain_of (inp : Input Signer) (soa : Hdr * SOAData) (z z' : zoneSets) (owners : list bytes) (types : gmap bytes (list Z)) : Prop :=
  let keys := zone_keys inp soa in
  chain_input keys (origin_of inp) types ∧ StronglySorted (key_lt canon bytes_compare) owners ∧
  (∀ o, o ∈ owners ↔ ∃ t, owned keys (origin_of inp) (o, t)) ∧ (∀ o, o ∈ owners → is_Some (canonKey o)) ∧
  (∀ k, k.2 ≠ TypeNSEC → zs_sets z' !! k = zs_sets z !! k) ∧ (∀ o, is_Some (zs_sets z' !! (o, TypeNSEC)) ↔ o ∈ owners) ∧
  (∀ i o, owners !! i = Some o → set_of z' (o, TypeNSEC) = [nsec_rr owners types (negTTL soa) i o]).
(** The NSEC3 records added to [z]: one per owner or empty non-terminal, in the order of the hashes. *)
Definition nsec3_chain_of (inp : Input Signer) (soa : Hdr * SOAData) (cuts : gset bytes) (z z' : zoneSets) (hs : list (bytes * bytes)) (types types' : gmap bytes (list Z)) : Prop :=
  let keys := zone_keys inp soa in
  chain_input keys (origin_of inp) types ∧ padded (λ n, ∃ o t, owned keys (origin_of inp) (o, t) ∧ Above (origin_of inp) o n) types types' ∧
  (∃ names, domain_list types' names ∧ hash_chain names hs) ∧
  (∀ k, k.2 ≠ TypeNSEC3 → zs_sets z' !! k = zs_sets z !! k) ∧
  (∀ o, is_Some (zs_sets z' !! (o, TypeNSEC3)) ↔ o ∈ map (λ h, hash_owner (origin_of inp) h.1) hs) ∧
  (∀ i h, hs !! i = Some h → set_of z' (hash_owner (origin_of inp) h.1, TypeNSEC3) = [nsec3_rr (origin_of inp) hs cuts types' (negTTL soa) i h]).

Context (Hsets : ∀ i, ranges (range_sets i)) (Htypes : ranges range_types).
Lemma add_chain_parts inp soa z cuts z' : wf_input inp → grown (mkSets ∅ ∅) (kept inp ++ generated inp (origin_of inp) soa) z →
  (∀ o, o ∈ cuts ↔ cut (zone_keys inp soa) (origin_of inp) o) → add_chain range_sets range_types inp (origin_of inp) z cuts (negTTL soa) = Ok z' →
  zinv z' ∧ (in_NSEC3 inp = false → ∃ owners types, nsec_chain_of inp soa z z' owners types) ∧
  (in_NSEC3 inp = true → ∃ hs types types', nsec3_chain_of inp soa cuts z z' hs types types').
Proof.
  intros Hw G Hc. unfold add_chain. set (types := types_of _ _ _). intros (owners & Eo & E)%bind_Ok.
  assert (∀ k, is_Some (zs_sets z !! k) ↔ k ∈ zone_keys inp soa) as Hkeys.
  { intros k. rewrite (gr_keys _ _ _ G). simpl. rewrite lookup_empty. unfold zone_keys. split; [|by right]. by intros [[? ?]|?]. }
  assert (chain_input (zone_keys inp soa) (origin_of inp) (sort_types <$> types)) as Hin.
  { apply chain_input_of; [by apply ranges_NoDup| |done]. intros k. by rewrite elem_of_ranges, Hkeys. }
  assert (∀ o, o ∈ range_types types ↔ is_Some ((sort_types <$> types) !! o)) as Hdom by (intros o; by rewrite elem_of_ranges, lookup_fmap, fmap_is_Some).
  assert (∀ o, o ∈ range_types types → plain_name o) as Hpl.
  { intros o (t & Ht & _)%Hdom%(ci_owner _ _ _ Hin). apply (zone_keys_types _ _ _ Hw Ht). }
  apply sortCanonical_spec in Eo as (Hperm & Hs & Hck); [|by apply Forall_forall|by apply ranges_NoDup].
  assert (∀ o, zs_sets z !! (o, TypeNSEC) = None ∧ zs_sets z !! (o, TypeNSEC3) = None) as Hno.
  { intros o. split; apply eq_None_not_Some; rewrite Hkeys; intros (? & ? & _)%(zone_keys_types _ _ _ Hw); done. }
  destruct (in_NSEC3 inp).
  - apply addNSEC3_spec in E as (hs & Hch & Hz' & Hk1 & Hk2 & Hk3); [|apply G|by apply plain_origin|apply Hno]. split; [done|]. split; [done|]. intros _.
    destruct (add_ents_spec (origin_of inp) owners (sort_types <$> types)) as [Hdl Hpad].
    { split; [rewrite Hperm; by apply ranges_NoDup|]. intros n. by rewrite Hperm. }
    exists hs, (sort_types <$> types), (add_ents (origin_of inp) owners (sort_types <$> types)).1. split; [done|]. split_and!; [|by eexists|done..].
    eapply padded_ext; [|exact Hpad]. intros n. cbv beta. split.
    + intros (o & Ho & Ha). rewrite Hperm, Hdom, (ci_owner _ _ _ Hin) in Ho. destruct Ho as [t Ht]. by exists o, t.
    + intros (o & t & Ht & Ha). exists o. split; [|done]. rewrite Hperm, Hdom, (ci_owner _ _ _ Hin). by exists t.
  - apply addNSEC_spec in E as (Hz' & Hk1 & Hk2 & Hk3); [|apply G|apply Forall_forall; intros o; rewrite Hperm; apply Hpl|rewrite Hperm; by apply ranges_NoDup|apply Hno].
    split; [done|]. split; [intros _|done]. exists owners, (sort_types <$> types). split; [done|]. split_and!; [done|..|done|done|done].
    + intros o. by rewrite Hperm, Hdom, (ci_owner _ _ _ Hin).
    + rewrite Forall_forall in Hck. intros o. rewrite Hperm. apply Hck.
Qed.

Lemma set_order_spec z order : zinv z → set_order range_sets (zs_sets z) = Ok order →
  order ≡ₚ range_sets 2 (zs_sets z) ∧ StronglySorted (key_lt (λ k, (canon k.1, k.2)) (lex_cmp bytes_compare Z.compare)) order ∧
  Forall (λ k, is_Some (canonKey k.1)) (range_sets 2 (zs_sets z)).
Proof.
  intros Hz. unfold set_order. destruct (forallb _ _) eqn:Hf; [|done]. intros [= <-]. set (keys := range_sets 2 (zs_sets z)) in *.
  assert (Forall (λ k, is_Some (canonKey k.1)) keys) as Hk.
  { apply Forall_forall. intros k Hn. rewrite forallb_forall in Hf. specialize (Hf k). rewrite <- list_elem_of_In in Hf. by apply Hf, bool_decide_eq_true in Hn. }
  split; [apply sort_on_perm|]. split; [|done]. apply sort_on_strict; [apply _|]. apply NoDup_fmap_2_strong; [|by apply ranges_NoDup].
  assert (∀ k, k ∈ keys → plain_name k.1) as Hpl.
  { intros k Hin%elem_of_ranges; [|done]. destruct (zinv_nonempty _ _ Hz Hin) as [r Hr]. destruct (zinv_elem _ _ _ Hz Hr) as ([Hp _] & <- & _). by apply plain_lower. }
  rewrite Forall_forall in Hk. intros [a s] [b t] Ha Hb [= Ec Et]. subst t. f_equal. apply canon_inj; [by apply (Hpl (a, s))|by apply (Hpl (b, s))|by apply (Hk (a, s))|by apply (Hk (b, s))|done].
Qed.

Record pass (inp : Input Signer) (out : Output) (soa : Hdr * SOAData) (z z' : zoneSets) (cuts : gset bytes) (order : list setKey) (ess : list (list entry)) : Prop := {
  pa_soa : soa_of (kept inp) None = Some soa;
  pa_zone : grown (mkSets ∅ ∅) (kept inp ++ generated inp (origin_of inp) soa) z;
  pa_cuts : ∀ o, o ∈ cuts ↔ cut (zone_keys inp soa) (origin_of inp) o;
  pa_inv : zinv z';
  pa_nsec : in_NSEC3 inp = false → ∃ owners types, nsec_chain_of inp soa z z' owners types;
  pa_nsec3 : in_NSEC3 inp = true → ∃ hs types types', nsec3_chain_of inp soa cuts z z' hs types types';
  pa_order : ∀ k, k ∈ order ↔ is_Some (zs_sets z' !! k);
  pa_sorted : StronglySorted (key_lt (λ k, (canon k.1, k.2)) (lex_cmp bytes_compare Z.compare)) order;
  pa_blocks : Forall2 (block sha256 inp (origin_of inp) cuts (zs_sets z')) order ess;
  pa_out : out = serve (foldl record_entry (mkOutput [] ∅ zero_time 0 0) (concat ess)) (concat (zip_with (served_of (zs_sets z')) order ess)) }.
Lemma zone_cuts inp soa z o : grown (mkSets ∅ ∅) (kept inp ++ generated inp (origin_of inp) soa) z →
  o ∈ cuts_of (origin_of inp) (range_sets 0 (zs_sets z)) ↔ cut (zone_keys inp soa) (origin_of inp) o.
Proof.
  intros G. rewrite elem_of_cuts_of. unfold cut, zone_keys. rewrite elem_of_ranges by done. rewrite (gr_keys _ _ _ G). simpl. rewrite lookup_empty.
  split; [|tauto]. intros [[[? ?]|?] ?]; done.
Qed.
Lemma prepare_parts inp cuts sets order : wf_input inp → prepare range_sets range_types inp (origin_of inp) = Ok (cuts, sets, order) →
  ∃ soa z z', sets = zs_sets z' ∧ soa_of (kept inp) None = Some soa ∧ grown (mkSets ∅ ∅) (kept inp ++ generated inp (origin_of inp) soa) z ∧
    (∀ o, o ∈ cuts ↔ cut (zone_keys inp soa) (origin_of inp) o) ∧ add_chain range_sets range_types inp (origin_of inp) z cuts (negTTL soa) = Ok z' ∧
    set_order range_sets (zs_sets z') = Ok order.
Proof.
  intros Hw. unfold prepare. intros ([z soa] & (Ez & Es & Hf)%collect_rrs & E)%bind_Ok. apply bind_Ok in E as (z' & Ec & E). apply bind_Ok in E as (order' & Eo & E). injection E as <- <- <-.
  apply fold_add_grown in Ez; [|apply zinv_empty|by apply zone_rrs_wf]. exists soa, z, z'. split_and!; [done..| |done|done].
  intros o. by apply zone_cuts.
Qed.
(** Every successful [Sign] is a pass. *)
Lemma Sign_prepared inp out : wf_input inp → Sign inp = Ok out →
  ∃ soa z z' cuts order ess, prepare range_sets range_types inp (origin_of inp) = Ok (cuts, zs_sets z', order) ∧ pass inp out soa z z' cuts order ess.
Proof.
  intros Hw. unfold DnssecSign.Sign. fold (origin_of inp). intros ([[cuts sets] order] & Eprep & E)%bind_Ok. pose proof Eprep as (soa & z & z' & -> & Es & Ez & Hc & Ec & Eo)%prepare_parts; [|done].
  apply serve_loop_iff in E as (ess & Hb & ->). destruct (add_chain_parts inp soa z cuts z' Hw Ez Hc Ec) as (Hz' & Hn & Hn3).
  apply set_order_spec in Eo as (Hperm & Hs & _); [|done]. exists soa, z, z', cuts, order, ess. split; [done|]. split; try done. intros k. by rewrite Hperm, elem_of_ranges.
Qed.
Lemma Sign_pass inp out : wf_input inp → Sign inp = Ok out → ∃ soa z z' cuts order ess, pass inp out soa z z' cuts order ess.
Proof. intros Hw (soa & z & z' & cuts & order & ess & _ & Hp)%Sign_prepared; [|done]. by exists soa, z, z', cuts, order, ess. Qed.
End pass.
