(* ===== verification/DnssecDenial.v ===== *)
(** * Signed zones, served

    The served form of a signed zone and the denials it contains. *)

From S2P Require Import Prelude.
From S2P Require Import GoText.
From S2P Require Import NzfNames.
From S2P Require Import NzfFormat.
From S2P Require Import Effects.
From S2P Require Import ZoneJournal.
From S2P Require Import DnssecRollover.
From S2P Require Import XfrIn.
From S2P Require Import DnsLib.
From S2P Require Import DnssecSign.
From S2P Require Import DnssecSets.
From S2P Require Import DnssecChain.
From S2P Require Import DnssecChain3.
From S2P Require Import DnssecSigned.

(** ** What a signed zone serves

    The records of a signed zone, set by set, and its denial chains as a resolver reads them. *)

Section served.
Context {Signer : Type} `{HS : SignLaws Signer}.

(** A signature with the owner, type and key tag it is filed under. *)
Definition sig_for (sk : SigKey) (s : Hdr * RRSIG) : Prop :=
  hd_Rrtype s.1 = TypeRRSIG ∧ ToLower (hd_Name s.1) = sk.1.1 ∧ sg_TypeCovered s.2 = sk.1.2 ∧ sg_KeyTag s.2 = sk.2 ∧ is_u32 (sg_Expiration s.2).
Definition wf_cache (cache : gmap SigKey CachedSig) : Prop := ∀ sk c, cache !! sk = Some c → sig_for sk (c_RRSIG c).
Definition served_set (out : Output) (k : setKey) : list sRR := filter (λ r, rr_key r = k) (o_Served out).

Lemma cached_sig_Some cache now sk digest alg s : cached_sig cache now sk digest alg = Some s →
  ∃ c, cache !! sk = Some c ∧ c_Digest c = digest ∧ s = c_RRSIG c ∧ sg_Algorithm s.2 = alg ∧ reusable s.2 now = true.
Proof.
  unfold cached_sig. destruct (cache !! sk) as [c|]; [|done]. destruct (_ && _ && _) eqn:E; [|done]. intros [= <-].
  rewrite !andb_true_iff in E. destruct E as [[Ed%bool_decide_eq_true Ea%Z.eqb_eq] Er]. by exists c.
Qed.
Lemma newSig_Ok origin set key now s : newSig origin set key now = Ok s → ∃ r set', set = r :: set' ∧
  hd_Name s.1 = s_Name r ∧ hd_Rrtype s.1 = TypeRRSIG ∧ sg_TypeCovered s.2 = s_Type r ∧ sg_Algorithm s.2 = K_Algorithm key ∧
  sg_Expiration s.2 = u32 (Unix (now + (Validity - jitter r))) ∧ sg_Inception s.2 = u32 (Unix (now - InceptionSkew)) ∧
  sg_KeyTag s.2 = KeyTag (K_DNSKEY key) ∧ sg_SignerName s.2 = origin.
Proof.
  unfold newSig. destruct set as [|r set]; [done|]. destruct (rrsig_Sign _ _ _ _) as [[h' s']|] eqn:E; [|done]. intros [= <-].
  apply sign_fields in E. exists r, set. split; [done|]. simpl in *. tauto.
Qed.
Lemma made_sig_for origin k set digest cache now key e : wf_cache cache → Forall (λ r, rr_key r = k) set →
  made origin k set digest cache now key e → sig_for (e_sk e) (e_sig e).
Proof.
  intros Hw Hset (Hk & Hs & Hd & Hm). destruct (cached_sig _ _ _ _ _) as [s|] eqn:Ec.
  - destruct Hm as [-> _]. apply cached_sig_Some in Ec as (c & Hc & _ & -> & _). by apply Hw.
  - destruct Hm as [Hn _]. apply newSig_Ok in Hn as (r & set' & -> & En & Et & Ec' & _ & Ex & _ & Etag & _). apply Forall_cons in Hset as [Hr _].
    unfold e_sk. rewrite Hk, Hs, <- Hr. split_and!; simpl; try done; [by rewrite En|]. rewrite Ex. unfold u32, is_u32. apply Z.mod_pos_bound. lia.
Qed.

Section one.
Context (sha256 : bytes → bytes) {inp : Input Signer} {out : Output} {soa : Hdr * SOAData} {z z' : zoneSets} {cuts : gset bytes} {order : list setKey} {ess : list (list (entry (Signer := Signer)))}.
Context (Hp : pass sha256 inp out soa z z' cuts order ess) (Hc : wf_cache (in_Cache inp)).

Lemma pass_set k : k ∈ order → Forall (λ r, rr_key r = k) (set_of z' k).
Proof. intros _. apply Forall_forall. intros r Hr. by apply (zinv_elem _ _ _ (pa_inv _ _ _ _ _ _ _ _ _ Hp)) in Hr as (_ & ? & _). Qed.
Lemma pass_NoDup : NoDup order.
Proof. eapply NoDup_fmap_1, (strict_NoDup _ (lex_cmp bytes_compare Z.compare)), Hp. Qed.
Lemma block_entries k es e : block sha256 inp (origin_of inp) cuts (zs_sets z') k es → e ∈ es →
  unsigned (origin_of inp) cuts k = false ∧ signs k (e_signer e) = true ∧ e_signer e ∈ in_Keys inp ∧ rrsetDigest sha256 (set_of z' k) = Some (e_digest e) ∧
  made (origin_of inp) k (set_of z' k) (e_digest e) (in_Cache inp) (in_Now inp) (e_signer e) e.
Proof.
  unfold block. destruct (unsigned _ _ _); [by intros -> ?%not_elem_of_nil|]. intros (_ & digest & Ed & Hf) (i & Hi)%list_elem_of_lookup.
  destruct (Forall2_lookup_r _ _ _ _ _ Hf Hi) as (key & Hkey & Hm). apply list_elem_of_lookup_2, list_elem_of_filter in Hkey as [Hsg Hin].
  pose proof Hm as (_ & -> & -> & _). done.
Qed.
Lemma pass_entry e : e ∈ concat ess → e_key e ∈ order ∧ unsigned (origin_of inp) cuts (e_key e) = false ∧ signs (e_key e) (e_signer e) = true ∧
  e_signer e ∈ in_Keys inp ∧ rrsetDigest sha256 (set_of z' (e_key e)) = Some (e_digest e) ∧
  made (origin_of inp) (e_key e) (set_of z' (e_key e)) (e_digest e) (in_Cache inp) (in_Now inp) (e_signer e) e.
Proof.
  intros He. apply list_elem_of_In, in_concat in He as (es & Hes%list_elem_of_In & He%list_elem_of_In). apply list_elem_of_lookup in Hes as [i Hi].
  destruct (Forall2_lookup_r _ _ _ _ _ (pa_blocks _ _ _ _ _ _ _ _ _ Hp) Hi) as (k & Hk & Hb). pose proof (block_entries _ _ _ Hb He) as (? & ? & ? & ? & Hm).
  assert (e_key e = k) as -> by apply Hm. split_and!; try done. by eapply list_elem_of_lookup_2.
Qed.
Lemma entry_sig_for e : e ∈ concat ess → sig_for (e_sk e) (e_sig e).
Proof. intros (Ho & _ & _ & _ & _ & Hm)%pass_entry. eapply made_sig_for; [done| |done]. by apply pass_set. Qed.
(** What is served: the sets, and the signatures. *)
Lemma pass_served r : r ∈ o_Served out ↔ (∃ k, k ∈ order ∧ r ∈ set_of z' k) ∨ ∃ e, e ∈ concat ess ∧ r = e_rr e.
Proof.
  rewrite (pa_out _ _ _ _ _ _ _ _ _ Hp). simpl. rewrite record_served. simpl. pose proof (pa_blocks _ _ _ _ _ _ _ _ _ Hp) as Hb. clear Hp.
  induction Hb as [|k es order' ess' _ _ IH]; [simpl; setoid_rewrite elem_of_nil; naive_solver|]. cbn [zip_with concat]. rewrite elem_of_app, IH. unfold served_of at 1.
  rewrite elem_of_app, list_elem_of_fmap. setoid_rewrite elem_of_cons. setoid_rewrite elem_of_app. fold (set_of z' k). naive_solver.
Qed.
Lemma pass_served_set k : k.2 ≠ TypeRRSIG → served_set out k = set_of z' k.
Proof.
  intros Ht. unfold served_set. rewrite (pa_out _ _ _ _ _ _ _ _ _ Hp). cbn [serve o_Served]. rewrite record_served. cbn [o_Served app].
  pose proof pass_NoDup as Hnd. assert (∀ k', k' ∈ order → Forall (λ r, rr_key r = k') (set_of z' k')) as Hsets by apply pass_set.
  assert (∀ e, e ∈ concat ess → rr_key (e_rr e) ≠ k) as Hsig.
  { intros e (E & _)%entry_sig_for Ek. apply Ht. rewrite <- Ek. done. }
  assert (k ∉ order → set_of z' k = []) as Hno.
  { intros Hk. unfold set_of. destruct (zs_sets z' !! k) as [s|] eqn:Es; [|done]. destruct Hk. apply (pa_order _ _ _ _ _ _ _ _ _ Hp). by eexists. }
  pose proof (pa_blocks _ _ _ _ _ _ _ _ _ Hp) as Hb. clear Hp Hc. induction Hb as [|k' es order' ess' _ _ IH]; [symmetry; apply Hno, not_elem_of_nil|].
  apply NoDup_cons in Hnd as [Hnk Hnd]. cbn [zip_with concat] in *. unfold served_of at 1. rewrite !filter_app. fold (set_of z' k').
  assert (filter (λ r, rr_key r = k) (map e_rr es) = []) as ->.
  { apply filter_nil_iff_elem. intros x (e & -> & He)%list_elem_of_fmap. apply Hsig, elem_of_app. by left. }
  rewrite app_nil_r. pose proof (Hsets k' ltac:(by left)) as Hk'. rewrite Forall_forall in Hk'. destruct (decide (k' = k)) as [->|Hne].
  - rewrite filter_all by done. rewrite <- (app_nil_r (set_of z' k)) at 2. f_equal. apply filter_nil_iff_elem. intros x Hx Ek.
    apply list_elem_of_In, in_concat in Hx as (l & Hl%list_elem_of_In & Hx%list_elem_of_In). apply elem_of_lookup_zip_with in Hl as (i & k2 & es2 & -> & H2 & He2).
    unfold served_of in Hx. apply elem_of_app in Hx as [Hx|(e & -> & He)%list_elem_of_fmap].
    + apply list_elem_of_lookup_2 in H2. pose proof (Hsets k2 ltac:(by right)) as Hk2. rewrite Forall_forall in Hk2. specialize (Hk2 _ Hx). congruence.
    + eapply Hsig; [|exact Ek]. apply elem_of_app. right. apply list_elem_of_In, in_concat. exists es2. rewrite <- !list_elem_of_In. split; [by eapply list_elem_of_lookup_2|done].
  - rewrite (filter_nil_iff_elem _ (set_of z' k')) by (intros x Hx Ek; apply Hne; rewrite <- (Hk' x Hx); done). apply IH; [done|intros; apply Hsets; by right|intros; apply Hsig, elem_of_app; by right|].
    intros Hk. apply Hno. rewrite elem_of_cons. naive_solver.
Qed.
End one.
End served.

(** ** Authenticated denial

    The NSEC and NSEC3 records a signed zone serves prove exactly what the zone does not hold. *)

Section denial.
Context {Signer : Type} `{HS : SignLaws Signer} (sha256 : bytes → bytes).
Context (range_sets : nat → gmap setKey (list sRR) → list setKey) (range_types : gmap bytes (list Z) → list bytes).
Context (Hsets : ∀ i, ranges (range_sets i)) (Htypes : ranges range_types).
Abbreviation Sign := (Sign sha256 range_sets range_types).

Lemma parent_len p : p ≠ [] → len (parent p) ≤ len p.
Proof.
  intros Hp. unfold parent. case_bool_decide; [pose proof (len_nonneg p); simpl; unfold len at 1; simpl; lia|]. destruct (NextLabel p 0) as [i e]. destruct e.
  - destruct p; [done|]. len_simpl. pose proof (len_nonneg p). lia.
  - unfold len. rewrite length_drop. lia.
Qed.
(** The apex is an owner. *)
Lemma apex_owned inp soa : wf_input inp → soa_of (kept inp) None = Some soa →
  Forall (λ r, ∀ s, s_fields r = FSOA s → ToLower (s_Name r) = origin_of inp) (kept inp) → ∃ t, owned (zone_keys inp soa) (origin_of inp) (origin_of inp, t).
Proof.
  intros Hw Hs Hf. assert (∃ r s, r ∈ kept inp ∧ s_fields r = FSOA s) as (r & s & Hr & Es).
  { assert (∀ rs acc, soa_of rs acc = Some soa → acc = Some soa ∨ ∃ r s, r ∈ rs ∧ s_fields r = FSOA s) as Hex; [|by destruct (Hex _ _ Hs)].
    induction rs as [|r rs IH]; intros acc E; [by left|]. unfold soa_of in E. simpl in E. apply IH in E as [E|(x & s & ? & ?)]; [|right; exists x, s; split; [by right|done]].
    destruct (s_fields r) eqn:Er; try by left. right. exists r, s. split; [by left|done]. }
  rewrite Forall_forall in Hf. specialize (Hf r Hr s Es). exists (s_Type r). split_and!; simpl.
  - unfold zone_keys. apply list_elem_of_fmap. exists r. split; [unfold rr_key; by rewrite Hf|]. apply elem_of_app. by left.
  - intros p Ha. exfalso. pose proof (parent_len (origin_of inp) (wi_nonempty _ Hw)). inversion Ha; lia.
  - intros [_ Hne]. done.
Qed.
Lemma Sign_apex inp out : wf_input inp → Sign inp = Ok out →
  Forall (λ r, ∀ s, s_fields r = FSOA s → ToLower (s_Name r) = origin_of inp) (kept inp).
Proof.
  intros Hw. unfold DnssecSign.Sign, prepare. intros ([[cuts sets] order] & ([z soa] & (_ & _ & Hf)%collect_rrs & _)%bind_Ok & _)%bind_Ok.
  eapply Forall_impl; [exact Hf|]. by intros r [_ ?].
Qed.

(** The NSEC chain of a pass, read from the served records. *)
Lemma pass_nsec inp out soa z z' cuts order ess owners types : wf_input inp → wf_cache (in_Cache inp) →
  pass sha256 inp out soa z z' cuts order ess → nsec_chain_of inp soa z z' owners types →
  (∀ i o, owners !! i = Some o → ∃ next, next_of owners i = Some next ∧
    served_set out (o, TypeNSEC) = [mkSRR (hdr o TypeNSEC (negTTL soa)) (FNSEC next (sort_types (default [] (types !! o) ++ [TypeRRSIG; TypeNSEC])))]) ∧
  (∀ r, r ∈ o_Served out → s_Type r = TypeNSEC → ∃ i o, owners !! i = Some o ∧ r = nsec_rr owners types (negTTL soa) i o).
Proof.
  intros Hw Hc Hp (Hin & Hs & Hown & _ & _ & Hdom & Hset). split.
  - intros i o Ho. unfold next_of. destruct (lookup_lt_is_Some_2 owners (S i mod length owners)) as [next Hn].
    { apply lookup_lt_Some in Ho. apply Nat.mod_upper_bound. lia. }
    exists next. split; [done|]. rewrite (pass_served_set sha256 Hp Hc) by done. rewrite (Hset i o Ho). unfold nsec_rr. by rewrite Hn.
  - intros r Hr Ht. apply (pass_served sha256 Hp) in Hr as [(k & Hk & Hr)|(e & He & ->)].
    + pose proof (pa_inv _ _ _ _ _ _ _ _ _ Hp) as Hz. destruct (zinv_elem _ _ _ Hz Hr) as (_ & Ek & _). unfold rr_key in Ek. rewrite Ht in Ek. subst k.
      apply (pa_order _ _ _ _ _ _ _ _ _ Hp), Hdom, list_elem_of_lookup in Hk as [i Hi]. exists i. eexists. split; [exact Hi|].
      rewrite (Hset _ _ Hi) in Hr. by apply list_elem_of_singleton in Hr.
    + exfalso. apply (entry_sig_for sha256 Hp Hc) in He as [E _]. unfold s_Type, e_rr, sig_rr in Ht. simpl in Ht. by rewrite E in Ht.
Qed.

(** C12: In a zone signed with NSEC, the served NSEC records are one per name the zone has data of its own at (nothing below a delegation, and NS and DS only at one), in strict canonical order; each points to the next, the last to the first, and lists exactly the types present at its name, RRSIG and NSEC included, in increasing order. *)
Theorem Sign_nsec_chain inp out : wf_input inp → wf_cache (in_Cache inp) → in_NSEC3 inp = false → Sign inp = Ok out →
  ∃ soa owners, soa_of (kept inp) None = Some soa ∧ StronglySorted (key_lt canon bytes_compare) owners ∧
  (∀ o, o ∈ owners ↔ ∃ t, owned (zone_keys inp soa) (origin_of inp) (o, t)) ∧
  (∀ r, r ∈ o_Served out → s_Type r = TypeNSEC → s_Name r ∈ owners) ∧
  ∀ i o, owners !! i = Some o → ∃ next bitmap, next_of owners i = Some next ∧
    served_set out (o, TypeNSEC) = [mkSRR (hdr o TypeNSEC (negTTL soa)) (FNSEC next bitmap)] ∧
    StronglySorted Z.lt bitmap ∧ ∀ t, t ∈ bitmap ↔ owned (zone_keys inp soa) (origin_of inp) (o, t) ∨ t = TypeRRSIG ∨ t = TypeNSEC.
Proof.
  intros Hw Hc Hn Hs. destruct (Sign_pass _ _ _ Hsets Htypes _ _ Hw Hs) as (soa & z & z' & cuts & order & ess & Hp).
  destruct (pa_nsec _ _ _ _ _ _ _ _ _ Hp Hn) as (owners & types & Hch). destruct (pass_nsec _ _ _ _ _ _ _ _ _ _ Hw Hc Hp Hch) as [Hat Hall].
  exists soa, owners. destruct Hch as (Hin & Hso & Hown & _). split_and!; [apply Hp|done|done|..].
  - intros r Hr Ht. destruct (Hall r Hr Ht) as (i & o & Ho & ->). by eapply list_elem_of_lookup_2.
  - intros i o Ho. destruct (Hat i o Ho) as (next & Hnext & Hset). exists next. eexists. split_and!; [done|exact Hset|..].
    + apply sort_types_sorted. apply NoDup_app. split; [apply (ci_nodup _ _ _ Hin)|]. split; [|by compute_done].
      intros t Ht. apply (ci_types _ _ _ Hin) in Ht as [Ht _]. destruct (zone_keys_types _ _ _ Hw Ht) as (? & ? & ? & _). simpl in *. rewrite !elem_of_cons, elem_of_nil. tauto.
    + intros t. rewrite sort_types_perm, elem_of_app, (ci_types _ _ _ Hin), !elem_of_cons, elem_of_nil. tauto.
Qed.

(** In a zone signed with NSEC, a name the zone has no data of its own at lies in the gap of exactly one served NSEC record: the zone proves that the name does not exist, and no other record of it does. *)
Theorem Sign_nsec_denies inp out soa name : wf_input inp → wf_cache (in_Cache inp) → in_NSEC3 inp = false → Sign inp = Ok out →
  soa_of (kept inp) None = Some soa → plain_name name → is_Some (canonKey name) → (∀ t, ¬ owned (zone_keys inp soa) (origin_of inp) (name, t)) →
  exists! r, r ∈ o_Served out ∧ s_Type r = TypeNSEC ∧ ∃ next bitmap, s_fields r = FNSEC next bitmap ∧ in_gap (canon (s_Name r)) (canon next) (canon name).
Proof.
  intros Hw Hc Hn Hs Esoa Hpl Hck Hno. pose proof (Sign_apex _ _ Hw Hs) as Hapex. destruct (Sign_pass _ _ _ Hsets Htypes _ _ Hw Hs) as (soa' & z & z' & cuts & order & ess & Hp).
  assert (soa' = soa) as -> by (pose proof (pa_soa _ _ _ _ _ _ _ _ _ Hp); congruence).
  destruct (pa_nsec _ _ _ _ _ _ _ _ _ Hp Hn) as (owners & types & Hch). destruct (pass_nsec _ _ _ _ _ _ _ _ _ _ Hw Hc Hp Hch) as [Hat Hall].
  destruct Hch as (Hin & Hso & Hown & Hkeys & Hch). destruct (apex_owned inp soa Hw Esoa Hapex) as [t0 Ht0].
  destruct (one_gap canon owners (canon name)) as (i & (a & b & Ha & Hb & Hg) & Huniq); [|done|..].
  { intros ->. apply (not_elem_of_nil (origin_of inp)), Hown. by exists t0. }
  { intros o Ho Eo. pose proof Ho as [t Ht]%Hown. apply (Hno t). replace name with o; [done|]. apply canon_inj; [apply (zone_keys_types inp soa (o, t) Hw), Ht|done|by apply Hkeys|done|done]. }
  destruct (Hat i a Ha) as (next & Hnext & Hset). rewrite Hb in Hnext. injection Hnext as <-.
  exists (nsec_rr owners types (negTTL soa) i a). split.
  - split; [|split; [done|]].
    + assert (nsec_rr owners types (negTTL soa) i a ∈ served_set out (a, TypeNSEC)) as Hin'; [|by apply list_elem_of_filter in Hin' as [_ ?]].
      rewrite Hset. unfold nsec_rr. change (owners !! (S i mod length owners)%nat) with (next_of owners i). rewrite Hb. by left.
    + exists b. eexists. split; [|exact Hg]. unfold nsec_rr. change (owners !! (S i mod length owners)%nat) with (next_of owners i). by rewrite Hb.
  - intros r (Hr & Ht & nx & bm & Ef & Hg'). destruct (Hall r Hr Ht) as (j & o & Ho & ->). enough (i = j) as <- by congruence. apply Huniq.
    destruct (Hat j o Ho) as (nj & Hnj & _). exists o, nj. split_and!; [done..|]. simpl in Ef. injection Ef as <- _.
    change (owners !! (S j mod length owners)%nat) with (next_of owners j) in Hg'. by rewrite Hnj in Hg'.
Qed.

(** The bitmap of an NSEC3 record: RRSIG is listed when the name has a signed set. *)
Lemma nsec3_bitmap_spec inp soa cuts types types' P n : wf_input inp → chain_input (zone_keys inp soa) (origin_of inp) types → padded P types types' →
  (∀ o, o ∈ cuts ↔ cut (zone_keys inp soa) (origin_of inp) o) → let owns t := owned (zone_keys inp soa) (origin_of inp) (n, t) in
  StronglySorted Z.lt (nsec3_bitmap cuts types' n) ∧
  ∀ t, t ∈ nsec3_bitmap cuts types' n ↔ owns t ∨ t = TypeRRSIG ∧ ∃ t', owns t' ∧ (n ∉ cuts ∨ t' = TypeDS).
Proof.
  cbv zeta. intros Hw Hin Hpad Hc. unfold nsec3_bitmap.
  assert (default [] (types' !! n) = default [] (types !! n)) as ->.
  { destruct (types !! n) as [ts|] eqn:E; [by rewrite (pd_old _ _ _ Hpad _ _ E)|]. destruct (types' !! n) as [ts|] eqn:E'; [|done]. by rewrite (pd_new _ _ _ Hpad _ _ E E'). }
  pose proof (ci_types _ _ _ Hin n) as Ht. pose proof (ci_sorted _ _ _ Hin n) as Hso. pose proof (ci_nodup _ _ _ Hin n) as Hnd.
  setoid_rewrite <- Ht. destruct (default [] (types !! n)) as [|t0 ts] eqn:E.
  { split; [constructor|]. intros t. rewrite elem_of_nil. split; [done|]. intros [?|(_ & t' & ?%not_elem_of_nil & _)]; done. }
  rewrite <- E in *. set (l := default [] (types !! n)) in *. clearbody l. destruct (negb _ || _) eqn:Eb.
  - split; [apply sort_types_sorted, NoDup_app; split; [done|]; split; [|apply NoDup_singleton]|].
    + intros t [Hk _]%Ht. destruct (zone_keys_types _ _ _ Hw Hk) as (_ & _ & ? & _). by rewrite list_elem_of_singleton.
    + intros t. rewrite sort_types_perm, elem_of_app, list_elem_of_singleton. apply orb_true_iff in Eb. split; [|tauto]. intros [?| ->]; [by left|]. right. split; [done|].
      destruct Eb as [Eb|Eb]; [|apply bool_decide_eq_true in Eb; exists TypeDS; tauto]. apply negb_true_iff, bool_decide_eq_false in Eb. exists t0. split; [rewrite E; left|by left].
  - split; [done|]. intros t. split; [by left|]. intros [?|(_ & t' & Ht' & Hc')]; [done|]. exfalso. apply orb_false_iff in Eb as [Eb1 Eb2].
    apply negb_false_iff, bool_decide_eq_true in Eb1. apply bool_decide_eq_false in Eb2. destruct Hc' as [?| ->]; done.
Qed.

(** C10: In a zone signed with NSEC3, the served NSEC3 records are one per name with data of the zone's own and per empty non-terminal above one, in strict order of their hashes, each pointing to the next and the last to the first; a record lists exactly the types at its name, RRSIG only when a set of the name is signed; and every name whose hash is not in the chain lies in exactly one gap. *)
Theorem Sign_nsec3_chain inp out : wf_input inp → wf_cache (in_Cache inp) → in_NSEC3 inp = true → Sign inp = Ok out →
  ∃ soa hs, let owns n t := owned (zone_keys inp soa) (origin_of inp) (n, t) in
  soa_of (kept inp) None = Some soa ∧ StronglySorted (key_lt fst bytes_compare) hs ∧
  (∀ h n, (h, n) ∈ hs ↔ h = ToLower (HashName n) ∧ ((∃ t, owns n t) ∨ ∃ o t, owns o t ∧ Above (origin_of inp) o n)) ∧
  (∀ i h n, hs !! i = Some (h, n) → ∃ next bitmap, next_of hs i = Some next ∧
    served_set out (hash_owner (origin_of inp) h, TypeNSEC3) = [mkSRR (hdr (hash_owner (origin_of inp) h) TypeNSEC3 (negTTL soa)) (FNSEC3 hash_SHA1 20 (map ascii_upper next.1) bitmap)] ∧
    StronglySorted Z.lt bitmap ∧
    ∀ t, t ∈ bitmap ↔ owns n t ∨ t = TypeRRSIG ∧ ∃ t', owns n t' ∧ (¬ cut (zone_keys inp soa) (origin_of inp) n ∨ t' = TypeDS)) ∧
  (∀ name, (∀ h n, (h, n) ∈ hs → h ≠ ToLower (HashName name)) →
    exists! i, ∃ a b, hs !! i = Some a ∧ next_of hs i = Some b ∧ in_gap a.1 b.1 (ToLower (HashName name))).
Proof.
  intros Hw Hc Hn Hs. pose proof (Sign_apex _ _ Hw Hs) as Hapex. destruct (Sign_pass _ _ _ Hsets Htypes _ _ Hw Hs) as (soa & z & z' & cuts & order & ess & Hp).
  destruct (pa_nsec3 _ _ _ _ _ _ _ _ _ Hp Hn) as (hs & types & types' & Hin & Hpad & (names & [_ Hdom] & Hperm & Hso) & _ & _ & Hset).
  assert (∀ h n, (h, n) ∈ hs ↔ h = ToLower (HashName n) ∧ ((∃ t, owned (zone_keys inp soa) (origin_of inp) (n, t)) ∨ ∃ o t, owned (zone_keys inp soa) (origin_of inp) (o, t) ∧ Above (origin_of inp) o n)) as Hhs.
  { intros h n. rewrite Hperm, list_elem_of_fmap. setoid_rewrite Hdom. setoid_rewrite (pd_dom _ _ _ Hpad). setoid_rewrite (ci_owner _ _ _ Hin). naive_solver. }
  exists soa, hs. cbv zeta. split_and!; [apply Hp|done|done|..].
  - intros i h n Hi. destruct (lookup_lt_is_Some_2 hs (S i mod length hs)) as [next Hnext]; [apply lookup_lt_Some in Hi; apply Nat.mod_upper_bound; lia|].
    exists next, (nsec3_bitmap cuts types' n). destruct (nsec3_bitmap_spec inp soa cuts types types' _ n Hw Hin Hpad (pa_cuts _ _ _ _ _ _ _ _ _ Hp)) as [Hb1 Hb2].
    split_and!; [done| |done|].
    + rewrite (pass_served_set sha256 Hp Hc) by done. change h with (h, n).1 at 1. rewrite (Hset i (h, n) Hi). unfold nsec3_rr. by rewrite Hnext.
    + intros t. rewrite Hb2. by setoid_rewrite (pa_cuts _ _ _ _ _ _ _ _ _ Hp).
  - intros name Hno. apply one_gap; [|done|].
    + intros ->. destruct (apex_owned inp soa Hw (pa_soa _ _ _ _ _ _ _ _ _ Hp) Hapex) as [t0 Ht0]. apply (not_elem_of_nil (ToLower (HashName (origin_of inp)), origin_of inp)), Hhs.
      split; [done|]. left. by exists t0.
    + intros [h n] Hh. by apply (Hno h n).
Qed.
End denial.
