(* ===== verification/DnssecVerify.v ===== *)
(** * The signatures of a signed zone verify

    Every signature a signed zone serves verifies over the set it is served with, also when it was
    reused from an earlier pass, and exactly the sets that must be signed are. *)

From S2P Require Import Prelude.
From S2P Require Import GoText.
From S2P Require Import NzfNames.
From S2P Require Import NzfFormat.
From S2P Require Import Effects.
From S2P Require Import ZoneJournal.
From S2P Require Import DnssecRollover.
From S2P Require Import XfrIn.
From S2P Require Import DnsLib.
From S2P Require Import DnssecSign.
From S2P Require Import DnssecSets.
From S2P Require Import DnssecChain.
From S2P Require Import DnssecChain3.
From S2P Require Import DnssecSigned.
From S2P Require Import DnssecDenial.

(** ** The digest determines the set *)
Definition prefixed (w : bytes) : bytes := put32 (u32 (len w)) ++ w.
Lemma prefixed_inj l k : Forall (λ w, is_u32 (len w)) l → Forall (λ w, is_u32 (len w)) k → concat (map prefixed l) = concat (map prefixed k) → l = k.
Proof.
  intros Hl. revert k. induction Hl as [|w l Hw Hl IH]; intros k Hk E.
  { destruct Hk as [|v k]; [done|]. by destruct v. }
  destruct Hk as [|v k Hv Hk]; [by destruct w|]. cbn [map concat] in E. unfold prefixed at 1 3 in E. rewrite <- !app_assoc in E.
  pose proof (f_equal get32 E) as El. rewrite !get32_put32 in El by (unfold u32, is_u32; apply Z.mod_pos_bound; lia). injection El as El.
  apply app_inj_1 in E as [_ E]; [|done]. unfold u32 in El. rewrite !Z.mod_small in El by done.
  apply app_inj_1 in E as [-> E]; [|unfold len in El; lia]. f_equal. by apply IH.
Qed.

Section verify.
Context {Signer : Type} `{HS : SignLaws Signer} (sha256 : bytes → bytes).
Context (range_sets : nat → gmap setKey (list sRR) → list setKey) (range_types : gmap bytes (list Z) → list bytes).
Abbreviation Sign := (Sign sha256 range_sets range_types).

Lemma packed_len r w : packCanonical r = Some w → is_u32 (len w).
Proof.
  intros (o & d & Eo & -> & Hd)%packCanonical_wire. destruct (pack_name _ _ Eo) as [V B]. apply validName_len in V; [|done].
  unfold wire_rr, is_u32. pose proof (len_nonneg o). pose proof (len_nonneg d). rewrite !len_app. unfold put16, put32. len_simpl. lia.
Qed.
Lemma mapM_packed set ws : mapM packCanonical set = Some ws → map packCanonical set = map Some ws ∧ Forall (λ w, is_u32 (len w)) ws.
Proof.
  intros E%mapM_Some. induction E as [|r w set ws Hr _ [IH1 IH2]]; [by split|]. simpl. split; [by rewrite Hr, IH1|]. constructor; [by eapply packed_len|done].
Qed.
Lemma rrsetDigest_wires set set' d : Inj (=) (=) sha256 → rrsetDigest sha256 set = Some d → rrsetDigest sha256 set' = Some d →
  map packCanonical set ≡ₚ map packCanonical set'.
Proof.
  intros Hinj. unfold rrsetDigest. destruct (mapM packCanonical set) as [ws|] eqn:E; [|done]. destruct (mapM packCanonical set') as [ws'|] eqn:E'; [|done].
  simpl. intros [= <-] [= Ed%Hinj]. apply mapM_packed in E as [-> Hws], E' as [-> Hws'].
  assert (sort_on id bytes_compare ws' = sort_on id bytes_compare ws) as Es.
  { apply prefixed_inj; [by rewrite sort_on_perm..|exact Ed]. }
  apply fmap_Permutation. rewrite <- (sort_on_perm id bytes_compare ws), <- Es. apply sort_on_perm.
Qed.

(** The signing keys are the pairs of the published ones, each with its algorithm. *)
Definition keys_ok (inp : Input Signer) : Prop := ∀ key, key ∈ in_Keys inp → K_Signs key = true →
  key_pair (K_Signer key) (K_DNSKEY key) ∧ K_Algorithm key = dk_Algorithm (K_DNSKEY key).
Definition tags_distinct (inp : Input Signer) : Prop :=
  NoDup (map (λ key, KeyTag (K_DNSKEY key)) (filter (λ key, K_Signs key = true) (in_Keys inp))).
(** A cached signature verifies, under the key it is filed under, over a set with the cached digest. *)
Definition cache_valid (keys : list (Key Signer)) (cache : gmap SigKey CachedSig) : Prop :=
  ∀ sk c key, cache !! sk = Some c → key ∈ keys → K_Signs key = true → KeyTag (K_DNSKEY key) = sk.2 → sg_Algorithm (c_RRSIG c).2 = K_Algorithm key →
    ∃ set, rrsetDigest sha256 set = Some (c_Digest c) ∧ Verifies (K_DNSKEY key) (c_RRSIG c).2 set.

Lemma tags_inj inp a b : tags_distinct inp → a ∈ in_Keys inp → b ∈ in_Keys inp → K_Signs a = true → K_Signs b = true →
  KeyTag (K_DNSKEY a) = KeyTag (K_DNSKEY b) → a = b.
Proof.
  intros Ht Ha Hb Sa Sb E. assert (∀ x, x ∈ in_Keys inp → K_Signs x = true → x ∈ filter (λ key, K_Signs key = true) (in_Keys inp)) as Hf by (intros; by apply list_elem_of_filter).
  apply Hf in Ha as [i Hi]%list_elem_of_lookup, Hb as [j Hj]%list_elem_of_lookup; [|done..]. unfold tags_distinct in Ht.
  assert (i = j) as ->; [|congruence]. eapply NoDup_lookup; [exact Ht|..]; change (map ?f ?l) with (f <$> l); rewrite list_lookup_fmap, ?Hi, ?Hj; simpl; [done|by rewrite E].
Qed.

Section one.
Context {inp : Input Signer} {out : Output} {soa : Hdr * SOAData} {z z' : zoneSets} {cuts : gset bytes} {order : list setKey} {ess : list (list (entry (Signer := Signer)))}.
Context (Hp : pass sha256 inp out soa z z' cuts order ess) (Hw : wf_input inp).

Lemma entry_alg e : e ∈ concat ess → sg_Algorithm (e_sig e).2 = K_Algorithm (e_signer e).
Proof.
  intros (_ & _ & _ & _ & _ & _ & _ & _ & Hm)%(pass_entry sha256 Hp). destruct (cached_sig _ _ _ _ _) as [s|] eqn:Ec.
  - destruct Hm as [-> _]. by apply cached_sig_Some in Ec as (c & _ & _ & _ & ? & _).
  - destruct Hm as [Hn _]. by apply newSig_Ok in Hn as (r & set & _ & _ & _ & _ & ? & _).
Qed.
(** A fresh signature verifies because it was just made, a reused one because the digests agree. *)
Lemma entry_verifies e : Inj (=) (=) sha256 → keys_ok inp → cache_valid (in_Keys inp) (in_Cache inp) → e ∈ concat ess →
  Verifies (K_DNSKEY (e_signer e)) (e_sig e).2 (set_of z' (e_key e)).
Proof.
  intros Hinj Hk Hv He. pose proof (entry_alg e He) as Ha. apply (pass_entry sha256 Hp) in He as (_ & _ & Hsg & Hin & Hd & _ & _ & _ & Hm).
  apply andb_true_iff in Hsg as [Hsg _]. destruct (Hk _ Hin Hsg) as [Hpair Halg]. destruct (cached_sig _ _ _ _ _) as [s|] eqn:Ec.
  - destruct Hm as [-> _]. apply cached_sig_Some in Ec as (c & Hc & Ed & -> & Ea & _). destruct (Hv _ _ _ Hc Hin Hsg eq_refl Ea) as (set & Hset & Hver).
    eapply verifies_wires; [|exact Hver]. rewrite Ed in Hset. by eapply rrsetDigest_wires.
  - destruct Hm as [Hn _]. unfold newSig in Hn. destruct (set_of z' (e_key e)) as [|r set]; [done|]. destruct (rrsig_Sign _ _ _ _) as [[h' s']|] eqn:E; [|done].
    injection Hn as <-. eapply sign_verifies; [exact Hpair| |..|exact E]; done.
Qed.
(** One entry per set to be signed and signing key of its role. *)
Lemma pass_signed k key : k ∈ order → unsigned (origin_of inp) cuts k = false → key ∈ in_Keys inp → signs k key = true →
  ∃ e, e ∈ concat ess ∧ e_key e = k ∧ e_signer e = key.
Proof.
  intros (i & Hi)%list_elem_of_lookup Hu Hin Hsg. destruct (Forall2_lookup_l _ _ _ _ _ (pa_blocks _ _ _ _ _ _ _ _ _ Hp) Hi) as (es & Hes & Hb).
  unfold block in Hb. rewrite Hu in Hb. destruct Hb as (_ & digest & _ & Hf). assert (key ∈ filter (λ key, signs k key = true) (in_Keys inp)) as (j & Hj)%list_elem_of_lookup by by apply list_elem_of_filter.
  destruct (Forall2_lookup_l _ _ _ _ _ Hf Hj) as (e & He & Hm). exists e. split; [|split; apply Hm].
  apply list_elem_of_In, in_concat. exists es. rewrite <- !list_elem_of_In. split; by eapply list_elem_of_lookup_2.
Qed.
Lemma block_key k es e : block sha256 inp (origin_of inp) cuts (zs_sets z') k es → e ∈ es → e_key e = k.
Proof.
  unfold block. destruct (unsigned _ _ _); [by intros -> ?%not_elem_of_nil|]. intros (_ & digest & _ & Hf) (i & Hi)%list_elem_of_lookup.
  by destruct (Forall2_lookup_r _ _ _ _ _ Hf Hi) as (key & _ & -> & _).
Qed.
Lemma blocks_key ks ls e : Forall2 (block sha256 inp (origin_of inp) cuts (zs_sets z')) ks ls → e ∈ concat ls → e_key e ∈ ks.
Proof.
  induction 1 as [|k es ks ls Hk _ IH]; [by intros ?%not_elem_of_nil|]. simpl. intros [He|He]%elem_of_app; [|right; by apply IH].
  rewrite (block_key _ _ _ Hk He). left.
Qed.
Lemma entries_NoDup : tags_distinct inp → NoDup (map e_sk (concat ess)).
Proof.
  intros Ht. pose proof (pass_NoDup sha256 Hp) as Hnd. pose proof (pa_blocks _ _ _ _ _ _ _ _ _ Hp) as Hb. clear Hp.
  induction Hb as [|k es order' ess' Hk Hb IH]; [constructor|]. apply NoDup_cons in Hnd as [Hnk Hnd]. cbn [concat]. rewrite map_app. apply NoDup_app. split_and!; [|..|by apply IH].
  - unfold block in Hk. destruct (unsigned _ _ _); [subst; constructor|]. destruct Hk as (_ & digest & _ & Hf).
    assert (map e_sk es = map (λ key, (k.1, k.2, KeyTag (K_DNSKEY key))) (filter (λ key, signs k key = true) (in_Keys inp))) as ->.
    { clear -Hf. induction Hf as [|key e l es (E1 & E2 & _) _ IH]; [done|]. simpl. rewrite IH. f_equal. unfold e_sk. by rewrite E1, E2. }
    rewrite <- (map_map (λ key, KeyTag (K_DNSKEY key)) (λ t, (k.1, k.2, t))). apply NoDup_fmap_2; [by intros a b [= ->]|].
    rewrite <- (list_filter_filter_l (λ key, signs k key = true) (λ key, K_Signs key = true)) by (by intros x [? _]%andb_true_iff). by apply NoDup_map_filter.
  - intros sk (e & -> & He)%list_elem_of_fmap (e' & E & He')%list_elem_of_fmap. apply Hnk.
    pose proof (block_key _ _ _ Hk He) as Ek. pose proof (blocks_key _ _ _ Hb He') as Ho. injection E as E1 E2 _.
    replace k with (e_key e'); [done|]. rewrite <- Ek. rewrite (surjective_pairing (e_key e)), (surjective_pairing (e_key e')). by rewrite E1, E2.
Qed.
Lemma order_types k : k ∈ order → k.2 ≠ TypeRRSIG.
Proof.
  intros Hk%(pa_order _ _ _ _ _ _ _ _ _ Hp).
  assert (is_Some (zs_sets z !! k) → k.2 ≠ TypeRRSIG) as Hz.
  { rewrite (gr_keys _ _ _ (pa_zone _ _ _ _ _ _ _ _ _ Hp)). simpl. rewrite lookup_empty. intros [[? ?]|Hz]; [done|]. by apply (zone_keys_types inp soa k Hw) in Hz as (_ & _ & ? & _). }
  destruct (in_NSEC3 inp) eqn:Hn.
  - destruct (pa_nsec3 _ _ _ _ _ _ _ _ _ Hp Hn) as (hs & types & types' & _ & _ & _ & Heq & _). destruct (decide (k.2 = TypeNSEC3)) as [->|]; [done|]. rewrite Heq in Hk by done. auto.
  - destruct (pa_nsec _ _ _ _ _ _ _ _ _ Hp Hn) as (owners & types & _ & _ & _ & _ & Heq & _). destruct (decide (k.2 = TypeNSEC)) as [->|]; [done|]. rewrite Heq in Hk by done. auto.
Qed.
(** The sets that are signed: not below a delegation, and at one only DS and NSEC. *)
Definition to_sign (keys : list setKey) (origin : bytes) (k : setKey) : Prop :=
  (∀ p, Above origin k.1 p → ¬ cut keys origin p) ∧ (cut keys origin k.1 → k.2 = TypeDS ∨ k.2 = TypeNSEC).
Lemma unsigned_iff k : unsigned (origin_of inp) cuts k = false ↔ to_sign (zone_keys inp soa) (origin_of inp) k.
Proof.
  unfold unsigned, to_sign. pose proof (pa_cuts _ _ _ _ _ _ _ _ _ Hp) as Hc. rewrite orb_false_iff. split.
  - intros [Ho Hu]. split.
    + intros q Ha Hcut. apply not_true_iff_false in Ho. apply Ho, occluded_iff. exists q. by rewrite Hc.
    + intros Hcut%Hc. rewrite bool_decide_eq_true_2 in Hu by done. simpl in Hu.
      destruct (Z.eqb_spec k.2 TypeDS); [by left|]. destruct (Z.eqb_spec k.2 TypeNSEC); [by right|done].
  - intros [Ho Hu]. split.
    + apply not_true_iff_false. rewrite occluded_iff. intros (q & Ha & Hcut%Hc). by apply (Ho q).
    + case_bool_decide as Hcut; [|done]. destruct (Hu (proj1 (Hc _) Hcut)) as [-> | ->]; done.
Qed.
End one.
Context (Hsets : ∀ i, ranges (range_sets i)) (Htypes : ranges range_types).

(** C8: Every set a signed zone serves that is not below a delegation, and at a delegation the DS and NSEC sets, has a signature by every active key of its role (KSKs for DNSKEY, CDS and CDNSKEY, ZSKs for the rest) that verifies over the set as served, reused signatures included; every served signature is one of these; and the signatures the pass keeps for the next one have the same property. *)
Theorem Sign_verifies inp out : Inj (=) (=) sha256 → wf_input inp → keys_ok inp → tags_distinct inp →
  wf_cache (in_Cache inp) → cache_valid (in_Keys inp) (in_Cache inp) → Sign inp = Ok out →
  ∃ soa, soa_of (kept inp) None = Some soa ∧
  (∀ k key, k.2 ≠ TypeRRSIG → served_set out k ≠ [] → to_sign (zone_keys inp soa) (origin_of inp) k → key ∈ in_Keys inp → signs k key = true →
    ∃ s, sig_rr s ∈ o_Served out ∧ sig_for (k.1, k.2, KeyTag (K_DNSKEY key)) s ∧ Verifies (K_DNSKEY key) s.2 (served_set out k)) ∧
  (∀ r, r ∈ o_Served out → s_Type r = TypeRRSIG → ∃ k key s, r = sig_rr s ∧ sig_for (k.1, k.2, KeyTag (K_DNSKEY key)) s ∧
    served_set out k ≠ [] ∧ to_sign (zone_keys inp soa) (origin_of inp) k ∧ key ∈ in_Keys inp ∧ signs k key = true ∧ Verifies (K_DNSKEY key) s.2 (served_set out k)) ∧
  wf_cache (o_Cache out) ∧ cache_valid (in_Keys inp) (o_Cache out).
Proof.
  intros Hinj Hw Hk Ht Hc Hv Hs. destruct (Sign_pass _ _ _ Hsets Htypes _ _ Hw Hs) as (soa & z & z' & cuts & order & ess & Hp). exists soa.
  pose proof (pa_inv _ _ _ _ _ _ _ _ _ Hp) as Hz. pose proof (pa_order _ _ _ _ _ _ _ _ _ Hp) as Ho. pose proof (entries_NoDup Hp Ht) as Hnd.
  assert (∀ k, k.2 ≠ TypeRRSIG → served_set out k ≠ [] ↔ k ∈ order) as Hne.
  { intros k Hkt. rewrite (pass_served_set sha256 Hp Hc k Hkt), Ho. split; [unfold set_of; by destruct (zs_sets z' !! k)|]. intros (r & Hr)%(zinv_nonempty _ _ Hz) E. rewrite E in Hr. by apply not_elem_of_nil in Hr. }
  assert (∀ sk c, o_Cache out !! sk = Some c ↔ ∃ e, e ∈ concat ess ∧ e_sk e = sk ∧ c = e_cached e) as Hcache.
  { intros sk c. rewrite (pa_out _ _ _ _ _ _ _ _ _ Hp). simpl. by apply record_cache_iff. }
  split_and!; [apply Hp|..].
  - intros k key Hkt Hset%Hne Hsg Hin Hkey; [|done]. destruct (pass_signed Hp k key) as (e & He & <- & <-); [done|by apply (unsigned_iff Hp)|done|done|].
    exists (e_sig e). rewrite (pass_served_set sha256 Hp Hc) by done. split_and!; [|by apply (entry_sig_for sha256 Hp Hc)|by eapply (entry_verifies Hp)].
    apply (pass_served sha256 Hp). right. by exists e.
  - intros r [(k & Hord & Hr)|(e & He & ->)]%(pass_served sha256 Hp) Hrt.
    + destruct (zinv_elem _ _ _ Hz Hr) as (_ & <- & _). by apply (order_types Hp Hw) in Hord.
    + pose proof (pass_entry sha256 Hp e He) as (Hord & Hu & Hsg & Hin & _). pose proof (order_types Hp Hw _ Hord). exists (e_key e), (e_signer e), (e_sig e).
      rewrite (Hne (e_key e)), (pass_served_set sha256 Hp Hc) by done. split_and!; try done; [by apply (entry_sig_for sha256 Hp Hc)|by apply (unsigned_iff Hp)|by eapply (entry_verifies Hp)].
  - intros sk c (e & He & <- & ->)%Hcache. by apply (entry_sig_for sha256 Hp Hc).
  - intros sk c key (e & He & <- & ->)%Hcache Hin Hsg Etag Ealg. pose proof (pass_entry sha256 Hp e He) as (_ & _ & Hse%andb_true_iff & Hie & Hd & _). destruct Hse as [Hse _].
    assert (key = e_signer e) as -> by by eapply tags_inj. exists (set_of z' (e_key e)). split; [done|]. by eapply (entry_verifies Hp).
Qed.
End verify.
