(* ===== verification/DnssecStable.v ===== *)
(** * Signing again

    Signatures are fresh when they are served; a pass does not depend on the order maps are visited
    in; and a pass over an unchanged zone reuses every signature. *)

From S2P Require Import Prelude.
From S2P Require Import GoText.
From S2P Require Import NzfNames.
From S2P Require Import NzfFormat.
From S2P Require Import Effects.
From S2P Require Import ZoneJournal.
From S2P Require Import DnssecRollover.
From S2P Require Import XfrIn.
From S2P Require Import DnsLib.
From S2P Require Import DnssecSign.
From S2P Require Import DnssecSets.
From S2P Require Import DnssecChain.
From S2P Require Import DnssecChain3.
From S2P Require Import DnssecSigned.
From S2P Require Import DnssecDenial.
From S2P Require Import DnssecVerify.

(** ** Time *)
Lemma Unix_bounds t : t - second < time_Unix (Unix t) ≤ t.
Proof. unfold time_Unix, Unix, second. pose proof (Z.div_mod t 1000000000). pose proof (Z.mod_pos_bound t 1000000000). lia. Qed.
Lemma jitter_bounds r : 0 ≤ jitter r ≤ 3599 * second.
Proof. unfold jitter. pose proof (Z.mod_pos_bound (fnv32a (ToLower (s_Name r) ++ put16 (s_Type r))) 3600). unfold second. lia. Qed.
(** Not renewed: more than [refreshWindow] is left until the signature is due. *)
Lemma reusable_iff s now : is_u32 (sg_Expiration s) → 0 ≤ now →
  reusable s now = true ↔ now + refreshWindow < time_Unix (sg_Expiration s) - RefreshBefore ∧ time_Unix (sg_Inception s) ≤ now.
Proof.
  intros [? ?] Hn. unfold reusable, After. rewrite andb_true_iff, negb_true_iff, Z.ltb_lt, Z.ltb_ge.
  unfold time_Sub, min_duration, max_duration, time_Unix, RefreshBefore, refreshWindow, hour, second in *. lia.
Qed.

Section stable.
Context {Signer : Type} `{HS : SignLaws Signer} (sha256 : bytes → bytes).

(** The clock is past the skew, and what it signs expires before 2106. *)
Definition clock_ok (now : Z) : Prop := InceptionSkew ≤ now ∧ now + Validity < time_Unix (2 ^ 32).
Lemma newSig_fresh origin set key now s : clock_ok now → newSig origin set key now = Ok s → time_Unix (sg_Inception s.2) ≤ now ∧
  now + refreshWindow < time_Unix (sg_Expiration s.2) - RefreshBefore.
Proof.
  intros [Hlo Hhi] (r & _ & _ & _ & _ & _ & _ & -> & -> & _)%newSig_Ok. pose proof (jitter_bounds r) as Hj.
  set (a := now - InceptionSkew). set (b := now + (Validity - jitter r)). pose proof (Unix_bounds a) as Ha. pose proof (Unix_bounds b) as Hb.
  assert (u32 (Unix a) = Unix a ∧ u32 (Unix b) = Unix b) as [-> ->].
  { unfold u32, a, b, time_Unix, Validity, InceptionSkew, hour, second in *. rewrite !Z.mod_small by lia. done. }
  unfold a, b, Validity, InceptionSkew, RefreshBefore, refreshWindow, hour, second in *. lia.
Qed.

Section one.
Context {inp : Input Signer} {out : Output} {soa : Hdr * SOAData} {z z' : zoneSets} {cuts : gset bytes} {order : list setKey} {ess : list (list (entry (Signer := Signer)))}.
Context (Hp : pass sha256 inp out soa z z' cuts order ess) (Hw : wf_input inp) (Hc : wf_cache (in_Cache inp)) (Hclock : clock_ok (in_Now inp)).

Lemma entry_fresh e : e ∈ concat ess → time_Unix (sg_Inception (e_sig e).2) ≤ in_Now inp ∧ in_Now inp + refreshWindow < e_refresh e.
Proof.
  intros He. destruct (entry_sig_for sha256 Hp Hc e He) as (_ & _ & _ & _ & Hx). apply (pass_entry sha256 Hp) in He as (_ & _ & _ & _ & _ & _ & _ & _ & Hm).
  destruct (cached_sig _ _ _ _ _) as [s|] eqn:Ec.
  - destruct Hm as [E _]. rewrite <- E in *. apply cached_sig_Some in Ec as (c & _ & _ & _ & _ & Hr).
    apply reusable_iff in Hr; [tauto|done|]. destruct Hclock. unfold InceptionSkew, hour, second in *. lia.
  - destruct Hm as [Hn _]. by apply (newSig_fresh _ _ _ _ _ Hclock) in Hn.
Qed.
(** The SOA at the apex is signed, so there is an entry. *)
Lemma pass_entries : Forall (λ r, ∀ s, s_fields r = FSOA s → ToLower (s_Name r) = origin_of inp) (kept inp) → concat ess ≠ [].
Proof.
  intros Hapex. destruct (apex_owned inp soa Hw (pa_soa _ _ _ _ _ _ _ _ _ Hp) Hapex) as [t (Hk & Ha & Hcut)].
  assert ((origin_of inp, t) ∈ order) as Ho.
  { apply (pa_order _ _ _ _ _ _ _ _ _ Hp). destruct (zone_keys_types inp soa _ Hw Hk) as (H1' & H2' & _).
    assert (is_Some (zs_sets z !! (origin_of inp, t))) as Hz by (apply (gr_keys _ _ _ (pa_zone _ _ _ _ _ _ _ _ _ Hp)); by right).
    destruct (in_NSEC3 inp) eqn:Hn.
    - destruct (pa_nsec3 _ _ _ _ _ _ _ _ _ Hp Hn) as (hs & types & types' & _ & _ & _ & Heq & _). by rewrite Heq.
    - destruct (pa_nsec _ _ _ _ _ _ _ _ _ Hp Hn) as (owners & types & _ & _ & _ & _ & Heq & _). by rewrite Heq. }
  apply list_elem_of_lookup in Ho as [i Hi]. destruct (Forall2_lookup_l _ _ _ _ _ (pa_blocks _ _ _ _ _ _ _ _ _ Hp) Hi) as (es & Hes & Hb).
  unfold block in Hb. rewrite (proj2 (unsigned_iff sha256 Hp (origin_of inp, t))) in Hb by (split; [done|]; intros [_ ?]; done).
  destruct Hb as [Hne _]. intros E. destruct es as [|e es]; [done|]. apply (not_elem_of_nil e). rewrite <- E. apply list_elem_of_In, in_concat. exists (e :: es).
  rewrite <- list_elem_of_In. split; [by eapply list_elem_of_lookup_2|by left].
Qed.
Lemma pass_refresh : concat ess ≠ [] → (∃ e, e ∈ concat ess ∧ o_NextRefresh out = e_refresh e) ∧ ∀ e, e ∈ concat ess → o_NextRefresh out ≤ e_refresh e.
Proof.
  intros Hne. rewrite (pa_out _ _ _ _ _ _ _ _ _ Hp). simpl. apply record_refresh; [done|done|]. intros e (_ & _ & _ & _ & [? _])%(entry_sig_for sha256 Hp Hc). done.
Qed.
End one.

Section fresh.
Context (range_sets : nat → gmap setKey (list sRR) → list setKey) (range_types : gmap bytes (list Z) → list bytes).
Context (Hsets : ∀ i, ranges (range_sets i)) (Htypes : ranges range_types).

(** Every signature a signed zone serves is already valid and is not due for renewal for more than an hour; the instant recorded for the next maintenance is the earliest at which one of them is. *)
Theorem Sign_fresh inp out : wf_input inp → wf_cache (in_Cache inp) → clock_ok (in_Now inp) → Sign sha256 range_sets range_types inp = Ok out →
  (∀ r s, r ∈ o_Served out → s_Type r = TypeRRSIG → s_fields r = FRRSIG s →
    time_Unix (sg_Inception s) ≤ in_Now inp ∧ o_NextRefresh out ≤ time_Unix (sg_Expiration s) - RefreshBefore) ∧
  in_Now inp + refreshWindow < o_NextRefresh out ∧
  ∃ s, sig_rr s ∈ o_Served out ∧ o_NextRefresh out = time_Unix (sg_Expiration s.2) - RefreshBefore.
Proof.
  intros Hw Hc Hclock Hs. pose proof (Sign_apex _ _ _ _ _ Hw Hs) as Hapex. destruct (Sign_pass _ _ _ Hsets Htypes _ _ Hw Hs) as (soa & z & z' & cuts & order & ess & Hp).
  destruct (pass_refresh Hp Hc (pass_entries Hp Hw Hapex)) as [(e & He & Ee) Hle]. split_and!.
  - intros r s [(k & Hk & Hr)|(x & Hx & ->)]%(pass_served sha256 Hp) Ht Ef.
    + destruct (zinv_elem _ _ _ (pa_inv _ _ _ _ _ _ _ _ _ Hp) Hr) as (_ & <- & _). by apply (order_types sha256 Hp Hw) in Hk.
    + simpl in Ef. injection Ef as <-. destruct (entry_fresh Hp Hc Hclock x Hx). split; [done|]. by apply Hle.
  - rewrite Ee. by apply (entry_fresh Hp Hc Hclock).
  - exists (e_sig e). split; [|done]. apply (pass_served sha256 Hp). right. by exists e.
Qed.
End fresh.

(** ** The order of maps *)
Lemma sortCanonical_perm l k : Forall plain_name l → NoDup l → l ≡ₚ k → sortCanonical l = sortCanonical k.
Proof.
  intros Hpl Hnd Hp. unfold sortCanonical. rewrite <- (forallb_perm _ _ _ Hp). destruct (forallb _ l) eqn:Hf; [|done]. f_equal.
  apply sort_on_perm_eq; [apply _| |done]. apply NoDup_fmap_2_strong; [|done]. rewrite Forall_forall in Hpl. rewrite forallb_forall in Hf.
  assert (∀ a, a ∈ l → is_Some (canonKey a)) as Hk by (intros a Ha; specialize (Hf a); rewrite <- list_elem_of_In in Hf; by apply Hf, bool_decide_eq_true in Ha).
  intros a b Ha Hb. apply canon_inj; auto.
Qed.

Section ranges.
Context (rs rs' : nat → gmap setKey (list sRR) → list setKey) (rt rt' : gmap bytes (list Z) → list bytes).
Context (Hrs : ∀ i, ranges (rs i)) (Hrs' : ∀ i, ranges (rs' i)) (Hrt : ranges rt) (Hrt' : ranges rt').
Lemma ranges_perm {K V} `{Countable K} (r r' : gmap K V → list K) m m' : ranges r → ranges r' → dom m = dom m' → r m ≡ₚ r' m'.
Proof.
  intros Hr Hr' Hd. apply NoDup_Permutation; [by apply ranges_NoDup..|]. intros k. rewrite !elem_of_ranges by done. rewrite <- !elem_of_dom. by rewrite Hd.
Qed.
Lemma types_of_perm origin cuts keys keys' : NoDup keys → keys ≡ₚ keys' →
  sort_types <$> types_of origin cuts keys = sort_types <$> types_of origin cuts keys'.
Proof.
  intros Hnd Hp. apply map_eq. intros o. rewrite !lookup_fmap, !types_of_lookup.
  assert (map snd (filter (λ k, k.1 = o ∧ authoritative origin cuts k = true) keys) ≡ₚ map snd (filter (λ k, k.1 = o ∧ authoritative origin cuts k = true) keys')) as Hf by by rewrite Hp.
  assert (NoDup (map snd (filter (λ k, k.1 = o ∧ authoritative origin cuts k = true) keys))) as Hd.
  { apply NoDup_fmap_2_strong; [|by apply NoDup_filter]. intros [a1 b1] [a2 b2] [[? _] _]%list_elem_of_filter [[? _] _]%list_elem_of_filter Eb. simpl in *. by subst. }
  destruct (map snd (filter _ keys)) as [|t ts], (map snd (filter _ keys')) as [|t' ts']; [done|by apply Permutation_nil_l in Hf|by apply Permutation_nil_r in Hf|].
  cbn [fmap option_fmap option_map]. f_equal. apply sort_on_perm_eq; [apply _|by rewrite map_id|done].
Qed.
Lemma set_order_ranges z : zinv z → set_order rs (zs_sets z) = set_order rs' (zs_sets z).
Proof.
  intros Hz. pose proof (ranges_perm (rs 2) (rs' 2) (zs_sets z) (zs_sets z) (Hrs 2) (Hrs' 2) eq_refl) as Hp. unfold set_order.
  rewrite <- (forallb_perm _ _ _ Hp). destruct (forallb _ _) eqn:Hf; [|done]. f_equal. apply sort_on_perm_eq; [apply _| |done].
  destruct (set_order_spec rs Hrs z (sort_on (λ k, (canon k.1, k.2)) (lex_cmp bytes_compare Z.compare) (rs 2 (zs_sets z))) Hz) as (Hperm & Hs & _).
  { unfold set_order. by rewrite Hf. }
  rewrite <- Hperm. eapply strict_NoDup, Hs. apply _.
Qed.
Lemma prepare_ranges inp : wf_input inp → prepare rs rt inp (origin_of inp) = prepare rs' rt' inp (origin_of inp).
Proof.
  intros Hw. unfold prepare. destruct (collect inp (origin_of inp)) as [[z soa]| | |] eqn:Ec; [|done..]. cbn [mbind res_bind].
  apply collect_rrs in Ec as (Ez & Es & _). apply fold_add_grown in Ez as G; [|apply zinv_empty|by apply zone_rrs_wf].
  assert (∀ i, rs i (zs_sets z) ≡ₚ rs' i (zs_sets z)) as Hperm by (intros i; by apply ranges_perm).
  assert (cuts_of (origin_of inp) (rs 0 (zs_sets z)) = cuts_of (origin_of inp) (rs' 0 (zs_sets z))) as <-.
  { apply set_eq. intros o. rewrite !elem_of_cuts_of. unfold cut. by rewrite (Hperm 0%nat). }
  set (cuts := cuts_of _ _). pose proof (types_of_perm (origin_of inp) cuts _ _ (ranges_NoDup _ _ (Hrs 1)) (Hperm 1%nat)) as Ht.
  assert (add_chain rs rt inp (origin_of inp) z cuts (negTTL soa) = add_chain rs' rt' inp (origin_of inp) z cuts (negTTL soa)) as Eadd.
  { unfold add_chain. rewrite <- Ht. set (types := types_of _ cuts (rs 1 _)) in *. set (types' := types_of _ cuts (rs' 1 _)) in *.
    assert (dom types = dom types') as Hd by (rewrite <- (dom_fmap_L sort_types types), <- (dom_fmap_L sort_types types'); by rewrite Ht).
    rewrite (sortCanonical_perm (rt types) (rt' types')); [done| |by apply ranges_NoDup|by apply ranges_perm].
    apply Forall_forall. intros o Ho%elem_of_ranges; [|done]. unfold types in Ho. rewrite types_of_lookup in Ho.
    destruct (map snd _) as [|t ts] eqn:E; [by destruct Ho|]. assert (t ∈ map snd (filter (λ k, k.1 = o ∧ authoritative (origin_of inp) cuts k = true) (rs 1 (zs_sets z)))) as Hin by (rewrite E; left).
    apply list_elem_of_fmap in Hin as ([o' t'] & -> & [[Eo _] Hin]%list_elem_of_filter). simpl in Eo. subst o'. apply elem_of_ranges in Hin; [|done].
    apply (gr_keys _ _ _ G) in Hin as [Hin|Hin]; [simpl in Hin; rewrite lookup_empty in Hin; by destruct Hin|]. apply (zone_keys_types inp soa _ Hw Hin). }
  unfold negTTL in Eadd. rewrite Eadd. destruct (add_chain rs' rt' inp (origin_of inp) z cuts _) as [z2| | |] eqn:E2; [|done..]. cbn [mbind res_bind].
  assert (zinv z2) as Hz2.
  { eapply (add_chain_parts rs' rt' Hrs' Hrt' inp soa z cuts z2); [done|done| |done]. intros o. by apply zone_cuts. }
  by rewrite (set_order_ranges z2 Hz2).
Qed.

(** The signed zone does not depend on the order in which Go visits its maps: whatever orders two runs see, they give the same result, error or not. *)
Theorem Sign_ranges inp : wf_input inp → Sign sha256 rs rt inp = Sign sha256 rs' rt' inp.
Proof. intros Hw. unfold Sign. by rewrite (prepare_ranges inp Hw : prepare rs rt inp (CanonicalName (in_Origin inp)) = _). Qed.
End ranges.

(** ** Nothing changed *)
Definition reused_entry (e : entry (Signer := Signer)) : entry := mkEntry (e_key e) (e_signer e) (e_digest e) (e_sig e) true.
Lemma record_reused es out out' : o_Cache out = o_Cache out' → o_NextRefresh out = o_NextRefresh out' →
  o_Cache (foldl record_entry out (map reused_entry es)) = o_Cache (foldl record_entry out' es) ∧
  o_NextRefresh (foldl record_entry out (map reused_entry es)) = o_NextRefresh (foldl record_entry out' es).
Proof. revert out out'. induction es as [|e es IH]; intros out out' Ec En; [done|]. simpl. apply IH; unfold record_entry, record_sig; simpl; [by rewrite Ec|by rewrite En]. Qed.
Definition later (inp : Input Signer) (cache : gmap SigKey CachedSig) (now : Z) : Input Signer :=
  mkInput (in_Origin inp) (in_Records inp) (in_Keys inp) (in_NSEC3 inp) cache now.

Section again.
Context (rs rs' : nat → gmap setKey (list sRR) → list setKey) (rt rt' : gmap bytes (list Z) → list bytes).
Context (Hrs : ∀ i, ranges (rs i)) (Hrs' : ∀ i, ranges (rs' i)) (Hrt : ranges rt) (Hrt' : ranges rt').

Lemma block_again inp out soa z z' cuts order ess now k es : pass sha256 inp out soa z z' cuts order ess → wf_cache (in_Cache inp) → tags_distinct inp →
  clock_ok (in_Now inp) → in_Now inp ≤ now → now + refreshWindow < o_NextRefresh out → (∀ e, e ∈ concat ess → o_NextRefresh out ≤ e_refresh e) →
  es ∈ ess → block sha256 inp (origin_of inp) cuts (zs_sets z') k es →
  block sha256 (later inp (o_Cache out) now) (origin_of inp) cuts (zs_sets z') k (map reused_entry es).
Proof.
  intros Hp Hc Ht Hclock Hle Hnow Href Hes. unfold block. destruct (unsigned _ _ _); [by intros ->|]. intros (Hne & digest & Hd & Hf).
  split; [by destruct es|]. exists digest. split; [done|]. simpl.
  assert (∀ e, e ∈ es → e ∈ concat ess) as Hin.
  { intros e He. apply list_elem_of_In, in_concat. exists es. by rewrite <- !list_elem_of_In. }
  assert (∀ e, e ∈ concat ess → cached_sig (o_Cache out) now (e_sk e) (e_digest e) (K_Algorithm (e_signer e)) = Some (e_sig e)) as Hcached.
  { intros e He. unfold cached_sig. assert (o_Cache out !! e_sk e = Some (e_cached e)) as ->.
    { rewrite (pa_out _ _ _ _ _ _ _ _ _ Hp). simpl. apply record_cache_iff; [by eapply (entries_NoDup sha256 Hp)|done|]. by exists e. }
    simpl. rewrite bool_decide_eq_true_2 by done. rewrite (entry_alg sha256 Hp e He), Z.eqb_refl. simpl.
    destruct (entry_fresh Hp Hc Hclock e He). destruct (entry_sig_for sha256 Hp Hc e He) as (_ & _ & _ & _ & Hx). specialize (Href e He).
    rewrite (proj2 (reusable_iff (e_sig e).2 now Hx ltac:(destruct Hclock; unfold InceptionSkew, hour, second in *; lia))); [done|]. unfold e_refresh in *. lia. }
  assert (∀ e, e ∈ es → cached_sig (o_Cache out) now (e_sk e) (e_digest e) (K_Algorithm (e_signer e)) = Some (e_sig e)) as Hces by auto. clear -Hf Hces.
  induction Hf as [|key e l es (E1 & E2 & E3 & _) Hf IH]; [constructor|]. cbn [map]. constructor; [|apply IH; intros; apply Hces; by right].
  specialize (Hces e ltac:(by left)). split_and!; [done..|]. change (e_sk (reused_entry e)) with (e_sk e). rewrite <- E2, <- E3. by rewrite Hces.
Qed.

Lemma Sign_later inp out now : wf_input inp → wf_cache (in_Cache inp) → tags_distinct inp → clock_ok (in_Now inp) → Sign sha256 rs rt inp = Ok out →
  in_Now inp ≤ now → now + refreshWindow < o_NextRefresh out →
  ∃ out', Sign sha256 rs' rt' (later inp (o_Cache out) now) = Ok out' ∧ o_Served out' = o_Served out ∧ o_Created out' = 0 ∧
    o_Cache out' = o_Cache out ∧ o_NextRefresh out' = o_NextRefresh out.
Proof.
  intros Hw Hc Ht Hclock Hs Hle Hnow. pose proof (Sign_apex _ _ _ _ _ Hw Hs) as Hapex.
  destruct (Sign_prepared _ _ _ Hrs Hrt _ _ Hw Hs) as (soa & z & z' & cuts & order & ess & Hprep & Hp). destruct (pass_refresh Hp Hc (pass_entries Hp Hw Hapex)) as [_ Href].
  set (ess' := map (map reused_entry) ess). assert (concat ess' = map reused_entry (concat ess)) as Econ by (unfold ess'; by rewrite concat_map).
  set (o0 := mkOutput [] ∅ zero_time 0 0). exists (serve (foldl record_entry o0 (concat ess')) (concat (zip_with (served_of (zs_sets z')) order ess'))).
  destruct (record_reused (concat ess) o0 o0 eq_refl eq_refl) as [E1 E2]. rewrite <- Econ in E1, E2. pose proof (pa_out _ _ _ _ _ _ _ _ _ Hp) as Eout. fold o0 in Eout. split_and!.
  - unfold Sign. change (CanonicalName (in_Origin (later inp (o_Cache out) now))) with (origin_of inp).
    change (prepare rs' rt' (later inp (o_Cache out) now) (origin_of inp)) with (prepare rs' rt' inp (origin_of inp)).
    rewrite <- (prepare_ranges rs rs' rt rt' Hrs Hrs' Hrt Hrt' inp Hw), Hprep. simpl. apply serve_loop_iff. exists ess'. split; [|done].
    apply Forall2_fmap_r, Forall2_lookup. intros i. pose proof (proj1 (Forall2_lookup _ _ _) (pa_blocks _ _ _ _ _ _ _ _ _ Hp) i) as Hb.
    destruct (order !! i), (ess !! i) as [es|] eqn:Ei; inversion Hb; constructor. eapply block_again; eauto. by eapply list_elem_of_lookup_2.
  - rewrite Eout. simpl. rewrite !record_served. simpl. f_equal. unfold ess'. clear. generalize order. induction ess as [|es ess IH]; intros [|k ord]; [done..|]. simpl. f_equal; [|apply IH].
    unfold served_of. by rewrite map_map.
  - simpl. rewrite (proj1 (record_created (concat ess') o0)), Econ. simpl. rewrite (filter_nil_iff_elem (λ e, e_reused e = false)); [done|]. by intros x (e & -> & _)%list_elem_of_fmap.
  - by rewrite Eout.
  - by rewrite Eout.
Qed.
(** Signing an unchanged zone again, with the signatures of the last pass and before the earliest of them is due, gives the same records, signature for signature: none is made, and the cache and the next refresh stay as they are. *)
Theorem Sign_again inp out now : wf_input inp → wf_cache (in_Cache inp) → tags_distinct inp → clock_ok (in_Now inp) → Sign sha256 rs rt inp = Ok out →
  in_Now inp ≤ now → now + refreshWindow < o_NextRefresh out →
  ∃ out', Sign sha256 rs' rt' (later inp (o_Cache out) now) = Ok out' ∧ o_Served out' = o_Served out ∧ o_Created out' = 0 ∧
    o_Cache out' = o_Cache out ∧ o_NextRefresh out' = o_NextRefresh out.
Proof. apply Sign_later. Qed.
End again.
End stable.
