(* ===== verification/DnssecErrors.v ===== *)
(** * When signing fails

    [DnssecSign.Sign] returns, and an error of it has a cause in its input or in the answers of the
    library; nothing else keeps a zone from being signed. *)

From S2P Require Import Prelude.
From S2P Require Import GoText.
From S2P Require Import NzfNames.
From S2P Require Import NzfFormat.
From S2P Require Import Effects.
From S2P Require Import ZoneJournal.
From S2P Require Import DnssecRollover.
From S2P Require Import XfrIn.
From S2P Require Import DnsLib.
From S2P Require Import DnssecSign.
From S2P Require Import DnssecSets.
From S2P Require Import DnssecChain.
From S2P Require Import DnssecChain3.
From S2P Require Import DnssecSigned.

Lemma errs_sres {A} e (o : option A) Q : (o = None → Q e) → errs (sres_of e o) Q.
Proof. destruct o; simpl; auto. Qed.

Section errors.
Context {Signer : Type} `{HS : SignLaws Signer} (sha256 : bytes → bytes).
Context (range_sets : nat → gmap setKey (list sRR) → list setKey) (range_types : gmap bytes (list Z) → list bytes).

(** ** Causes *)
(** The names of the chain: those with data, and with NSEC3 the empty non-terminals. *)
Definition chain_name (inp : Input Signer) (soa : Hdr * SOAData) (n : bytes) : Prop :=
  let keys := zone_keys inp soa in
  (∃ t, owned keys (origin_of inp) (n, t)) ∨ (in_NSEC3 inp = true ∧ ∃ o t, owned keys (origin_of inp) (o, t) ∧ Above (origin_of inp) o n).
Definition chain_rr (inp : Input Signer) (soa : Hdr * SOAData) (r : sRR) : Prop :=
  ∃ n, chain_name inp soa n ∧
    if in_NSEC3 inp then s_Type r = TypeNSEC3 ∧ s_Name r = hash_owner (origin_of inp) (ToLower (HashName n)) else s_Type r = TypeNSEC ∧ s_Name r = n.
(** The records signed: the zone's own, the generated ones and the chain. *)
Definition zone_rr (inp : Input Signer) (r : sRR) : Prop :=
  r ∈ kept inp ∨ ∃ soa, soa_of (kept inp) None = Some soa ∧ (r ∈ generated inp (origin_of inp) soa ∨ chain_rr inp soa r).
Definition cause (inp : Input Signer) (e : sign_err) : Prop :=
  match e with
  | SOutside => ∃ r, r ∈ kept inp ∧ IsSubDomain (origin_of inp) (ToLower (s_Name r)) = false
  | SSOAOwner => ∃ r s, r ∈ kept inp ∧ s_fields r = FSOA s ∧ ToLower (s_Name r) ≠ origin_of inp
  | SNoSOA => ∀ r s, r ∈ kept inp → s_fields r ≠ FSOA s
  | SNoDS => ∃ key ttl, key ∈ in_Keys inp ∧ K_InCDS key = true ∧ ToDS (hdr (origin_of inp) TypeDNSKEY ttl) (K_DNSKEY key) = None
  | SPack => ∃ r, zone_rr inp r ∧ packCanonical r = None
  | SHashFailed => ∃ soa n, soa_of (kept inp) None = Some soa ∧ chain_name inp soa n ∧ HashName n = []
  | SHashCollision => ∃ soa n m, soa_of (kept inp) None = Some soa ∧ chain_name inp soa n ∧ chain_name inp soa m ∧ n ≠ m ∧ ToLower (HashName n) = ToLower (HashName m)
  | SNoKey => ∃ role, ∀ key, key ∈ in_Keys inp → K_Signs key = true → K_Role key ≠ role
  | SSignFailed => ∃ key set, key ∈ in_Keys inp ∧ K_Signs key = true ∧ set ≠ [] ∧ Forall (zone_rr inp) set ∧ newSig (origin_of inp) set key (in_Now inp) = Err SSignFailed
  | SBadName => False
  end.

(** ** Grouping *)
Lemma sets_add_errs z r : errs (sets_add z r) (λ e, e = SPack ∧ packCanonical r = None).
Proof. unfold sets_add. apply errs_bind; [by apply errs_sres|]. intros w _. by case_bool_decide. Qed.
Lemma fold_sets_errs z rs : errs (fold_res sets_add z rs) (λ e, e = SPack ∧ ∃ r, r ∈ rs ∧ packCanonical r = None).
Proof. apply errs_fold. intros a r Hr. eapply errs_mono; [apply sets_add_errs|]. intros e [-> ?]. split; [done|]. by exists r. Qed.
Lemma elem_kept (inp : Input Signer) r : r ∈ kept inp ↔ generatedTypes (s_Type r) = false ∧ r ∈ in_Records inp.
Proof. unfold kept. by rewrite list_elem_of_filter. Qed.
Lemma add_record_errs (inp : Input Signer) st r : r ∈ in_Records inp → errs (add_record (origin_of inp) st r) (cause inp).
Proof.
  intros Hr. destruct st as [z soa]. unfold add_record. destruct (generatedTypes (s_Type r)) eqn:Eg; [done|]. assert (r ∈ kept inp) as Hk by by apply elem_kept.
  destruct (IsSubDomain _ _) eqn:Es; cbn [negb]; [|by exists r]. apply errs_bind.
  - destruct (s_fields r) eqn:Ef; try done. case_bool_decide; [done|]. simpl. by exists r, s.
  - intros soa' _. apply errs_bind; [|done]. eapply errs_mono; [apply sets_add_errs|]. intros e [-> Hp]. exists r. split; [by left|done].
Qed.
Lemma soa_of_None rs soa : soa_of rs soa = None → ∀ r s, r ∈ rs → s_fields r ≠ FSOA s.
Proof.
  unfold soa_of. induction rs as [|x rs IH] using rev_ind; [by intros _ r s ?%not_elem_of_nil|]. rewrite foldl_app. simpl. intros E r s [Hr| ->%list_elem_of_singleton]%elem_of_app Ef.
  - destruct (s_fields x); (done || by eapply (IH E)).
  - by rewrite Ef in E.
Qed.
Lemma add_key_errs (inp : Input Signer) soa z key : soa_of (kept inp) None = Some soa → key ∈ in_Keys inp → errs (add_key (origin_of inp) (hd_Ttl soa.1) z key) (cause inp).
Proof.
  intros Es Hk. assert (∀ z r, r ∈ key_rrs (origin_of inp) (hd_Ttl soa.1) key → errs (sets_add z r) (cause inp)) as Hadd.
  { intros z' r Hr. eapply errs_mono; [apply sets_add_errs|]. intros e [-> Hp]. exists r. split; [|done]. right. exists soa. split; [done|]. left. unfold generated. apply elem_of_app. left.
    apply list_elem_of_In, in_concat. eexists. split; [apply in_map; by apply list_elem_of_In|]. by apply list_elem_of_In. }
  unfold add_key. unfold key_rrs in Hadd. apply errs_bind; [apply Hadd; left|]. intros z1 _. destruct (K_InCDS key) eqn:Ec; cbn [negb]; [|done].
  destruct (ToDS _ _) as [ds|] eqn:Ed; simpl; [|by exists key, (hd_Ttl soa.1)]. simpl in Hadd.
  apply errs_bind; [apply Hadd; right; left|]. intros z2 _. apply Hadd. right. right. left.
Qed.
Lemma collect_errs (inp : Input Signer) : errs (collect inp (origin_of inp)) (cause inp).
Proof.
  unfold collect. apply errs_bind; [apply errs_fold; intros st r; apply add_record_errs|]. intros [z so] E1. apply fold_add_record in E1 as (_ & -> & _). fold (kept inp).
  apply errs_bind; [apply errs_sres; intros En; exact (soa_of_None _ _ En)|]. intros soa Es. destruct (soa_of (kept inp) None) as [s|] eqn:Eso; [|done]. injection Es as ->.
  apply errs_bind; [apply errs_fold; intros z1 key; by apply add_key_errs|]. intros z1 _. apply errs_bind; [|done]. destruct (in_NSEC3 inp) eqn:En; [|done].
  eapply errs_mono; [apply sets_add_errs|]. intros e [-> Hp]. eexists. split; [|exact Hp]. right. exists soa. split; [done|]. left. unfold generated. rewrite En. apply elem_of_app. right. left.
Qed.

(** ** The chain *)
Context (Hsets : ∀ i, ranges (range_sets i)) (Htypes : ranges range_types).
Lemma zone_canon z k : zinv z → is_Some (zs_sets z !! k) → is_Some (canonKey k.1).
Proof.
  intros Hz Hk. destruct (zinv_nonempty _ _ Hz Hk) as [r Hr]. destruct (zinv_elem _ _ _ Hz Hr) as (_ & <- & [w Hw]). apply packCanonical_wire in Hw as (o & d & Eo & _).
  unfold canonKey, rr_key. simpl. by rewrite Eo.
Qed.
Lemma nsec3_loop_errs z prev l : errs (nsec3_loop z prev l)
  (λ e, e = SPack ∧ (∃ p, p ∈ l ∧ packCanonical p.2 = None) ∨ e = SHashCollision ∧ ¬ NoDup (option_list prev ++ map fst l)).
Proof.
  revert z prev. induction l as [|[h r] l IH]; intros z prev; simpl; [done|]. case_bool_decide as Ep.
  - right. split; [done|]. rewrite Ep. simpl. intros [Hn _]%NoDup_cons. apply Hn. left.
  - apply errs_bind.
    + eapply errs_mono; [apply sets_add_errs|]. intros e [-> ?]. left. split; [done|]. exists (h, r). split; [by left|done].
    + intros z1 _. eapply errs_mono; [apply IH|]. intros e [[-> (p & Hp & ?)]|[-> Hn]]; [left; split; [done|]; exists p; split; [by right|done]|right].
      split; [done|]. intros Hd. apply Hn. by apply NoDup_app in Hd as (_ & _ & ?).
Qed.
Lemma addNSEC3_errs z origin owners types cuts ttl (names := (add_ents origin owners types).2) : NoDup names → errs (addNSEC3 z origin owners types cuts ttl)
  (λ e, (e = SHashFailed ∧ ∃ n, n ∈ names ∧ HashName n = []) ∨ (e = SHashCollision ∧ ∃ n m, n ∈ names ∧ m ∈ names ∧ n ≠ m ∧ ToLower (HashName n) = ToLower (HashName m)) ∨
    (e = SPack ∧ ∃ r n, n ∈ names ∧ s_Type r = TypeNSEC3 ∧ s_Name r = hash_owner origin (ToLower (HashName n)) ∧ packCanonical r = None)).
Proof.
  unfold addNSEC3, names. clear names. destruct (add_ents origin owners types) as [types' names]. simpl. intros Hnd. set (hash := λ n, (ToLower (HashName n), n)). destruct (existsb _ _) eqn:Hex.
  - apply existsb_exists in Hex as ([h n] & (n' & [= <- <-] & Hn)%in_map_iff & Eh%bool_decide_eq_true). left. split; [done|]. exists n'. split; [by apply list_elem_of_In|].
    simpl in Eh. by apply map_eq_nil in Eh.
  - set (hs := sort_on fst bytes_compare _). assert (hs ≡ₚ map hash names) as Hp by apply sort_on_perm. eapply errs_mono; [apply nsec3_loop_errs|].
    destruct (imap_pair fst (nsec3_rr origin hs cuts types' ttl) hs) as [E1 _]. intros e [[-> (p & Hp' & Hpk)]|[-> Hn]].
    + right. right. split; [done|]. apply elem_of_lookup_imap in Hp' as (i & h & -> & Hi). pose proof (list_elem_of_lookup_2 _ _ _ Hi) as Hin. rewrite Hp, list_elem_of_fmap in Hin.
      destruct Hin as (n & -> & Hin). eexists _, n. split_and!; [done| | |exact Hpk]; done.
    + right. left. split; [done|]. rewrite E1 in Hn. simpl in Hn. rewrite Hp, map_map in Hn. by apply (not_NoDup_map (λ n, ToLower (HashName n))) in Hn.
Qed.
Lemma add_chain_errs (inp : Input Signer) soa z cuts : wf_input inp → soa_of (kept inp) None = Some soa → grown (mkSets ∅ ∅) (kept inp ++ generated inp (origin_of inp) soa) z →
  (∀ o, o ∈ cuts ↔ cut (zone_keys inp soa) (origin_of inp) o) → errs (add_chain range_sets range_types inp (origin_of inp) z cuts (negTTL soa)) (cause inp).
Proof.
  intros Hw Es G Hc. unfold add_chain. set (types := types_of _ _ _).
  assert (∀ k, is_Some (zs_sets z !! k) ↔ k ∈ zone_keys inp soa) as Hkeys.
  { intros k. rewrite (gr_keys _ _ _ G). simpl. rewrite lookup_empty. unfold zone_keys. split; [|by right]. by intros [[? ?]|?]. }
  assert (chain_input (zone_keys inp soa) (origin_of inp) (sort_types <$> types)) as Hin.
  { apply chain_input_of; [by apply ranges_NoDup| |done]. intros k. by rewrite elem_of_ranges, Hkeys. }
  assert (∀ o, o ∈ range_types types ↔ ∃ t, owned (zone_keys inp soa) (origin_of inp) (o, t)) as Hdom.
  { intros o. rewrite elem_of_ranges by done. by rewrite <- (ci_owner _ _ _ Hin), lookup_fmap, fmap_is_Some. }
  unfold sortCanonical. assert (forallb (λ n, bool_decide (is_Some (canonKey n))) (range_types types) = true) as ->.
  { apply forallb_forall. intros o (t & Ht & _)%list_elem_of_In%Hdom. apply bool_decide_eq_true. apply Hkeys in Ht. by apply (zone_canon z (o, t)); [apply G|]. }
  simpl. set (owners := sort_on _ _ _). assert (owners ≡ₚ range_types types) as Hp by apply sort_on_perm. destruct (in_NSEC3 inp) eqn:En.
  - destruct (add_ents_spec (origin_of inp) owners (sort_types <$> types)) as [[Hnd Hdl] Hpad].
    { split; [rewrite Hp; by apply ranges_NoDup|]. intros n. by rewrite Hp, Hdom, (ci_owner _ _ _ Hin). }
    assert (∀ n, n ∈ (add_ents (origin_of inp) owners (sort_types <$> types)).2 → chain_name inp soa n) as Hn.
    { intros n Hn%Hdl%(pd_dom _ _ _ Hpad). destruct Hn as [Hn|(o & Ho & Ha)]; [left; by apply (ci_owner _ _ _ Hin)|right]. split; [done|]. rewrite Hp, Hdom in Ho. destruct Ho as [t Ht]. by exists o, t. }
    eapply errs_mono; [by apply addNSEC3_errs|]. intros e [[-> (n & ? & ?)]|[[-> (n & m & ? & ? & ? & ?)]|[-> (r & n & ? & ? & ? & ?)]]]; simpl.
    + exists soa, n. by auto.
    + exists soa, n, m. by auto.
    + exists r. split; [|done]. right. exists soa. split; [done|]. right. exists n. rewrite En. auto.
  - unfold addNSEC. eapply errs_mono; [apply fold_sets_errs|]. intros e [-> (r & Hr & Hpk)]. exists r. split; [|done]. right. exists soa. split; [done|]. right.
    apply elem_of_lookup_imap in Hr as (i & o & -> & Hi). exists o. rewrite En. split; [|done]. left. apply Hdom. rewrite <- Hp. by eapply list_elem_of_lookup_2.
Qed.

(** ** Signing *)
Lemma sign_loop_errs origin k set digest keys cache now out sigs : set ≠ [] → errs (sign_loop origin k set digest keys cache now out sigs)
  (λ e, e = SSignFailed ∧ ∃ key, key ∈ keys ∧ K_Signs key = true ∧ newSig origin set key now = Err SSignFailed).
Proof.
  intros Hne. revert out sigs. induction keys as [|key keys IH]; intros out sigs; simpl; [done|].
  assert (∀ out sigs, errs (sign_loop origin k set digest keys cache now out sigs) (λ e, e = SSignFailed ∧ ∃ key', key' ∈ key :: keys ∧ K_Signs key' = true ∧ newSig origin set key' now = Err SSignFailed)) as IH'.
  { intros o s. eapply errs_mono; [apply IH|]. intros e [-> (x & Hx & ?)]. split; [done|]. exists x. split; [by right|done]. }
  destruct (K_Signs key) eqn:Eks; simpl; [|apply IH']. case_bool_decide; simpl; [|apply IH']. apply errs_bind.
  - destruct (cached_sig _ _ _ _ _); [done|]. apply errs_bind; [|done]. destruct (newSig origin set key now) as [s|e| |] eqn:En; simpl; [done|..].
    + assert (e = SSignFailed) as -> by (unfold newSig in En; destruct set; [done|]; destruct (rrsig_Sign _ _ _ _); [done|]; by injection En). split; [done|]. exists key. split_and!; [by left|done|done].
    + unfold newSig in En. destruct set; [done|]. by destruct (rrsig_Sign _ _ _ _).
    + unfold newSig in En. destruct set; [done|]. by destruct (rrsig_Sign _ _ _ _).
  - intros [s r] _. apply IH'.
Qed.
Lemma serve_set_errs (inp : Input Signer) cuts z' out k : zinv z' → is_Some (zs_sets z' !! k) → (∀ r, r ∈ set_of z' k → zone_rr inp r) →
  errs (serve_set sha256 inp (origin_of inp) cuts (zs_sets z') out k) (cause inp).
Proof.
  intros Hz Hk Hrr. unfold serve_set. destruct (unsigned _ _ _); [done|]. fold (set_of z' k). apply errs_bind; [|by intros [o s] _].
  assert (∃ d, rrsetDigest sha256 (set_of z' k) = Some d) as [d Ed].
  { unfold rrsetDigest. destruct (mapM packCanonical (set_of z' k)) as [ws|] eqn:Em; [by eexists|]. apply mapM_None, Exists_exists in Em as (r & Hr & Hn).
    destruct (zinv_elem _ _ _ Hz Hr) as (_ & _ & [? ?]). congruence. }
  assert (set_of z' k ≠ []) as Hne by (destruct (zinv_nonempty _ _ Hz Hk) as [r Hr]; by intros E; rewrite E in Hr; apply not_elem_of_nil in Hr).
  unfold signSet. rewrite Ed. simpl. apply errs_bind.
  - eapply errs_mono; [by apply sign_loop_errs|]. intros e [-> (key & ? & ? & ?)]. exists key, (set_of z' k). split_and!; try done. by apply Forall_forall.
  - intros [o sigs] (es & Hes & _ & ->)%sign_loop_iff. case_bool_decide as Hs; [|done]. simpl in *. apply map_eq_nil in Hs as ->. apply Forall2_nil_inv_r in Hes.
    exists (role_of k.2). intros key Hin Hsg Hro. eapply (not_elem_of_nil key). rewrite <- Hes. apply list_elem_of_filter. split; [|done]. unfold signs. rewrite Hsg, Hro. by rewrite bool_decide_eq_true_2.
Qed.
Lemma chain_members (inp : Input Signer) soa z z' cuts : soa_of (kept inp) None = Some soa → grown (mkSets ∅ ∅) (kept inp ++ generated inp (origin_of inp) soa) z →
  (in_NSEC3 inp = false → ∃ owners types, nsec_chain_of inp soa z z' owners types) →
  (in_NSEC3 inp = true → ∃ hs types types', nsec3_chain_of inp soa cuts z z' hs types types') → ∀ k r, r ∈ set_of z' k → zone_rr inp r.
Proof.
  intros Es G Hn Hn3 k r Hr. assert (∀ r, r ∈ set_of z k → zone_rr inp r) as Hz.
  { intros x [Hx|[Hx|Hx]%elem_of_app]%(gr_from _ _ _ G); [unfold set_of in Hx; simpl in Hx; rewrite lookup_empty in Hx; by apply not_elem_of_nil in Hx|by left|right]. exists soa. split; [done|by left]. }
  destruct (in_NSEC3 inp) eqn:En.
  - destruct (Hn3 eq_refl) as (hs & types & types' & Hin & Hpad & (names & [_ Hdom] & [Hperm _]) & Hold & Hkeys & Hset).
    destruct (decide (k.2 = TypeNSEC3)) as [Et|Et]; [|apply Hz; unfold set_of in *; by rewrite <- Hold]. destruct k as [o t]. simpl in Et. subst t.
    pose proof (set_of_Some _ _ _ Hr) as (h & -> & Hh)%Hkeys%list_elem_of_fmap. pose proof Hh as [i Hi]%list_elem_of_lookup. rewrite (Hset i h Hi) in Hr. apply list_elem_of_singleton in Hr as ->.
    rewrite Hperm, list_elem_of_fmap in Hh. destruct Hh as (n & -> & Hh). right. exists soa. split; [done|]. right. exists n. rewrite En. split; [|done].
    apply Hdom, (pd_dom _ _ _ Hpad) in Hh as [Hh|Hh]; [left; by apply (ci_owner _ _ _ Hin)|by right].
  - destruct (Hn eq_refl) as (owners & types & Hin & _ & Hown & _ & Hold & Hkeys & Hset).
    destruct (decide (k.2 = TypeNSEC)) as [Et|Et]; [|apply Hz; unfold set_of in *; by rewrite <- Hold]. destruct k as [o t]. simpl in Et. subst t.
    pose proof (set_of_Some _ _ _ Hr) as Ho%Hkeys. pose proof Ho as [i Hi]%list_elem_of_lookup. rewrite (Hset i o Hi) in Hr. apply list_elem_of_singleton in Hr as ->.
    right. exists soa. split; [done|]. right. exists o. rewrite En. split; [|done]. left. by apply Hown.
Qed.

(** C22: Signing a zone returns, and it fails only for a cause: a record outside the zone, an SOA that is missing or not at the apex, a record of the signed zone that does not pack, a name whose hash fails or two names whose hashes collide, a key without a DS digest, no signing key of a role, or a set the library refuses to sign.  In the absence of these every zone is signed. *)
Theorem Sign_fails inp : wf_input inp →
  (∃ out, Sign sha256 range_sets range_types inp = Ok out) ∨ (∃ e, Sign sha256 range_sets range_types inp = Err e ∧ cause inp e).
Proof.
  intros Hw. assert (errs (Sign sha256 range_sets range_types inp) (cause inp)) as He; [|destruct (Sign _ _ _ inp); simpl in He; [left; by eexists|right; by eexists|done|done]].
  unfold Sign. fold (origin_of inp). apply errs_bind.
  - unfold prepare. apply errs_bind; [apply collect_errs|]. intros [z soa] (Ez & Es & _)%collect_rrs. apply fold_add_grown in Ez; [|apply zinv_empty|by apply zone_rrs_wf].
    assert (∀ o, o ∈ cuts_of (origin_of inp) (range_sets 0 (zs_sets z)) ↔ cut (zone_keys inp soa) (origin_of inp) o) as Hc by (intros o; by apply zone_cuts).
    apply errs_bind; [by apply add_chain_errs|]. intros z' Ech. apply errs_bind; [|done]. destruct (add_chain_parts _ _ Hsets Htypes inp soa z _ z' Hw Ez Hc Ech) as (Hz' & _).
    unfold set_order. assert (forallb (λ k, bool_decide (is_Some (canonKey k.1))) (range_sets 2 (zs_sets z')) = true) as ->; [|done].
    apply forallb_forall. intros k Hk%list_elem_of_In%elem_of_ranges; [|done]. apply bool_decide_eq_true. by eapply zone_canon.
  - intros [[cuts sets] order] E. apply prepare_parts in E as (soa & z & z' & -> & Es & G & Hc & Ech & Eo); [|done..].
    destruct (add_chain_parts _ _ Hsets Htypes inp soa z cuts z' Hw G Hc Ech) as (Hz' & Hn & Hn3). apply set_order_spec in Eo as (Hperm & _); [|done..].
    apply errs_fold. intros out k Hk. rewrite Hperm in Hk. apply serve_set_errs; [done|by apply (elem_of_ranges (range_sets 2))|]. intros r Hr. by eapply chain_members.
Qed.
End errors.
