(* ===== verification/Secrets.v ===== *)
(** * Key material at rest

    mgmt/internal/secrets/secrets.go and the parts of signing.go that seal and open private keys: NXE1
    envelopes, sealed under a fresh data key that the key-encryption key of the box wraps.  AES-GCM is
    the class [Gcm]; the random octets a call reads are its arguments; the PKCS#11 token is [Hsm]. *)

From S2P Require Import Prelude.
From S2P Require Import GoText.

Class Gcm := {
  gcm_Seal : bytes → bytes → bytes → bytes → bytes;
  gcm_Open : bytes → bytes → bytes → bytes → option bytes;
}.
(** A 16-octet tag that binds the additional data: what opens was sealed with the same data. *)
Class GcmLaws `{Gcm} := {
  gcm_open_seal : ∀ k n p a, gcm_Open k n (gcm_Seal k n p a) a = Some p;
  gcm_seal_len : ∀ k n p a, len (gcm_Seal k n p a) = len p + 16;
  gcm_bound : ∀ k n p a a' p', gcm_Open k n (gcm_Seal k n p a) a' = Some p' → a' = a;
}.

Inductive secret_err := ErrUnconfigured | ErrKEKMismatch | ErrBackendUnavailable | NotEnvelope | AuthFailed | WrapFailed | CryptoErr.
#[export] Instance secret_err_eq_dec : EqDecision secret_err.
Proof. solve_decision. Defined.
Abbreviation secres := (res secret_err).

Definition WrapFileKEK : Z := 1.
Definition WrapPKCS11 : Z := 2.
Definition BackendKEK : bytes := str "kek".
Definition BackendPKCS11 : bytes := str "pkcs11".
Definition magic : bytes := str "NXE1".
Definition headerLen : Z := 85.
Definition minEnvelop : Z := headerLen + 16.
Definition dekAAD : bytes := str "NXE1-dek".

(** The token as the box uses it: the identifier of its wrap key, and wrapping with that key. *)
Record Hsm := mkHsm { h_kekID : bytes; h_wrapDEK : bytes → bytes → option bytes; h_unwrapDEK : bytes → bytes → res secret_err bytes }.
(** [None] for a nil box. *)
Record Box := mkBox { b_kek : bytes; b_kekID : bytes; b_hsm : option Hsm }.

Definition HasBackend (b : option Box) (be : bytes) : bool :=
  match b with
  | None => false
  | Some b =>
      if bool_decide (be = BackendKEK) then len (b_kek b) =? 32
      else if bool_decide (be = BackendPKCS11) then match b_hsm b with Some _ => true | None => false end
      else false
  end.
Definition Configured (b : option Box) : bool := HasBackend b BackendKEK || HasBackend b BackendPKCS11.
Definition DefaultBackend (b : option Box) : bytes := if HasBackend b BackendPKCS11 then BackendPKCS11 else BackendKEK.

Definition SigningKeyPurpose (keyRef : bytes) : bytes := str "nexora/dnssec/v1:" ++ hex_EncodeToString keyRef.
Definition TSIGPurpose (id name algorithm : bytes) : bytes := str "nexora/tsig/v1:" ++ id ++ [58] ++ name ++ [58] ++ algorithm.

Section secrets.
Context `{Gcm}.

(** [aes.NewCipher] takes keys of 16, 24 or 32 octets. *)
Definition gcm (key : bytes) : option bytes := if bool_decide (len key ∈ [16; 24; 32]) then Some key else None.
Definition sealWith (wrap : Z) (kekID : bytes) (wrapDEK : bytes → bytes → option bytes) (purpose plaintext : bytes)
    (rand : option (bytes * bytes * bytes)) : secres bytes :=
  match rand with
  | None => Err CryptoErr
  | Some (dek, dekNonce, dataNonce) =>
      match wrapDEK dekNonce dek with
      | None => Err WrapFailed
      | Some wrapped =>
          if negb (len wrapped =? 48) then Err WrapFailed
          else match gcm dek with
               | None => Err CryptoErr
               | Some k =>
                   if len kekID <? 8 then Panic
                   else Ok (magic ++ [wrap] ++ take 8 kekID ++ dekNonce ++ wrapped ++ dataNonce ++ gcm_Seal k dataNonce plaintext purpose)
               end
      end
  end.
Definition Seal (b : option Box) (purpose plaintext : bytes) (rand : option (bytes * bytes * bytes)) : secres bytes :=
  match b with
  | None => Err ErrUnconfigured
  | Some bx =>
      if HasBackend b BackendKEK then
        sealWith WrapFileKEK (b_kekID bx) (λ nonce dek, g ← gcm (b_kek bx); Some (gcm_Seal g nonce dek dekAAD)) purpose plaintext rand
      else match b_hsm bx with
           | Some h => sealWith WrapPKCS11 (h_kekID h) (h_wrapDEK h) purpose plaintext rand
           | None => Err ErrUnconfigured
           end
  end.

(** Which key opens the envelope: its identifier, and unwrapping with it. *)
Definition unwrapper (b : option Box) (wrap : Z) : option (bytes * (bytes → bytes → secres bytes)) :=
  match b with
  | None => None
  | Some bx =>
      if (wrap =? WrapFileKEK) && HasBackend b BackendKEK then
        Some (b_kekID bx, λ nonce wrapped,
          match gcm (b_kek bx) with
          | None => Err CryptoErr
          | Some g => match gcm_Open g nonce wrapped dekAAD with Some dek => Ok dek | None => Err CryptoErr end
          end)
      else if wrap =? WrapPKCS11 then match b_hsm bx with Some h => Some (h_kekID h, h_unwrapDEK h) | None => None end
      else None
  end.
Definition Unseal (b : option Box) (purpose envelope : bytes) : secres bytes :=
  if negb (Configured b) then Err ErrUnconfigured
  else if (len envelope <? minEnvelop) || negb (bool_decide (take 4 envelope = magic)) then Err NotEnvelope
  else
    match idx envelope 4 with
    | None => Panic
    | Some wrap =>
        match unwrapper b wrap with
        | None => Err ErrBackendUnavailable
        | Some (kekID, unwrap) =>
            if negb (bool_decide (slice envelope 5 13 = kekID)) then Err ErrKEKMismatch
            else
              match unwrap (slice envelope 13 25) (slice envelope 25 73) with
              | Err ErrBackendUnavailable => Err ErrBackendUnavailable
              | Ok dek =>
                  if negb (len dek =? 32) then Err AuthFailed
                  else match gcm dek with
                       | None => Err AuthFailed
                       | Some k => match gcm_Open k (slice envelope 73 85) (drop 85 envelope) purpose with Some p => Ok p | None => Err AuthFailed end
                       end
              | Err _ => Err AuthFailed
              | Panic => Panic
              | Fuel => Fuel
              end
        end
    end.
End secrets.

(** ** Theorems *)
(** What [Open] builds: an 8-octet identifier with a 32-octet key, and a token whose wrap key has one. *)
Definition hsm_ok (h : Hsm) : Prop := len (h_kekID h) = 8 ∧ (∀ n w, returns (h_unwrapDEK h n w)) ∧
  (∀ n d w, h_wrapDEK h n d = Some w → h_unwrapDEK h n w = Ok d).
Definition box_ok (b : option Box) : Prop := ∀ bx, b = Some bx → (len (b_kek bx) = 32 → len (b_kekID bx) = 8) ∧ (∀ h, b_hsm bx = Some h → hsm_ok h).
Definition rand_ok (r : option (bytes * bytes * bytes)) : Prop := ∀ d n m, r = Some (d, n, m) → len d = 32 ∧ len n = 12 ∧ len m = 12.

Section theorems.
Context `{GcmLaws}.

Lemma take_app_len {A} (a b : list A) n : len a = n → take (Z.to_nat n) (a ++ b) = a.
Proof. intros Ha. rewrite take_app_le, take_ge by (unfold len in Ha; lia). done. Qed.
Lemma drop_app_len {A} (a b : list A) n : len a = n → drop (Z.to_nat n) (a ++ b) = b.
Proof. intros Ha. rewrite drop_app_ge by (unfold len in Ha; lia). replace (_ - _)%nat with 0%nat by (unfold len in Ha; lia). done. Qed.
Lemma slice_mid {A} (pre mid post : list A) lo hi : len pre = lo → len mid = hi - lo → slice (pre ++ mid ++ post) lo hi = mid.
Proof. intros Hp Hm. unfold slice. rewrite (drop_app_len pre _ lo Hp). by apply take_app_len. Qed.

(** The parts of an envelope. *)
Lemma envelope_parts wrap kekID n w m c (e := magic ++ [wrap] ++ kekID ++ n ++ w ++ m ++ c) :
  len kekID = 8 → len n = 12 → len w = 48 → len m = 12 → 16 ≤ len c →
  minEnvelop ≤ len e ∧ take 4 e = magic ∧ idx e 4 = Some wrap ∧ slice e 5 13 = kekID ∧ slice e 13 25 = n ∧ slice e 25 73 = w ∧ slice e 73 85 = m ∧ drop 85 e = c.
Proof.
  intros Hk Hn Hw Hm Hc. assert (len magic = 4) as Hg by done. unfold e. split_and!.
  - unfold minEnvelop, headerLen. rewrite !len_app. len_lia.
  - by apply (take_app_len magic _ 4).
  - rewrite <- Hg. rewrite <- (Z.add_0_r (len magic)), idx_app_r by lia. done.
  - rewrite (app_assoc magic [wrap]). apply slice_mid; [by rewrite len_app|lia].
  - rewrite (app_assoc magic [wrap]), (app_assoc _ kekID). apply slice_mid; [rewrite !len_app, Hk; done|lia].
  - rewrite (app_assoc magic [wrap]), (app_assoc _ kekID), (app_assoc _ n). apply slice_mid; [rewrite !len_app, Hk, Hn; done|lia].
  - rewrite (app_assoc magic [wrap]), (app_assoc _ kekID), (app_assoc _ n), (app_assoc _ w). apply slice_mid; [rewrite !len_app, Hk, Hn, Hw; done|lia].
  - rewrite (app_assoc magic [wrap]), (app_assoc _ kekID), (app_assoc _ n), (app_assoc _ w), (app_assoc _ m).
    apply (drop_app_len _ _ 85). rewrite !len_app, Hk, Hn, Hw, Hm. done.
Qed.

Lemma gcm_32 k : len k = 32 → gcm k = Some k.
Proof. intros Hk. unfold gcm. rewrite Hk. done. Qed.
Lemma sealWith_Ok wrap kekID wrapDEK purpose p rand e : rand_ok rand → len kekID = 8 → sealWith wrap kekID wrapDEK purpose p rand = Ok e →
  ∃ dek n w m, rand = Some (dek, n, m) ∧ wrapDEK n dek = Some w ∧ len dek = 32 ∧ len n = 12 ∧ len w = 48 ∧ len m = 12 ∧
    e = magic ++ [wrap] ++ kekID ++ n ++ w ++ m ++ gcm_Seal dek m p purpose.
Proof.
  intros Hr Hk. unfold sealWith. destruct rand as [[[dek n] m]|]; [|done]. destruct (Hr _ _ _ eq_refl) as (Hd & Hn & Hm). destruct (wrapDEK n dek) as [w|] eqn:Ew; [|done].
  destruct (Z.eqb_spec (len w) 48); [|done]. rewrite gcm_32, Hk by done. simpl. intros [= <-]. exists dek, n, w, m. split_and!; try done.
  rewrite take_ge by (unfold len in Hk; lia). done.
Qed.
Lemma HasBackend_kek bx : HasBackend (Some bx) BackendKEK = (len (b_kek bx) =? 32).
Proof. unfold HasBackend. by rewrite bool_decide_eq_true_2. Qed.
Lemma HasBackend_pkcs11 bx : HasBackend (Some bx) BackendPKCS11 = match b_hsm bx with Some _ => true | None => false end.
Proof. unfold HasBackend. rewrite bool_decide_eq_false_2 by done. by rewrite bool_decide_eq_true_2. Qed.

(** An envelope whose wrapped key the box opens is opened for its purpose only. *)
Lemma Unseal_envelope b wrap kekID unwrap purpose purpose' dek n w m p : Configured b = true → unwrapper b wrap = Some (kekID, unwrap) → unwrap n w = Ok dek →
  len kekID = 8 → len dek = 32 → len n = 12 → len w = 48 → len m = 12 →
  Unseal b purpose' (magic ++ [wrap] ++ kekID ++ n ++ w ++ m ++ gcm_Seal dek m p purpose) = if bool_decide (purpose' = purpose) then Ok p else Err AuthFailed.
Proof.
  intros Hc Hu Hw Hk Hd Hn Hlw Hm.
  destruct (envelope_parts wrap kekID n w m (gcm_Seal dek m p purpose)) as (P1 & P2 & P3 & P4 & P5 & P6 & P7 & P8); try done.
  { rewrite gcm_seal_len. pose proof (len_nonneg p). lia. }
  unfold Unseal. rewrite (proj2 (Z.ltb_ge _ _) P1), Hc, P2, P3, Hu, P4, P5, P6, P7, P8, Hw, Hd, gcm_32 by done. rewrite !bool_decide_eq_true_2 by done. cbn [negb orb Z.eqb].
  case_bool_decide as Ep; [subst; by rewrite gcm_open_seal|]. destruct (gcm_Open _ _ _ _) as [p'|] eqn:E; [|done]. by apply gcm_bound in E.
Qed.

Lemma Unseal_sealed b purpose purpose' p rand e : box_ok b → rand_ok rand → Seal b purpose p rand = Ok e →
  Unseal b purpose' e = if bool_decide (purpose' = purpose) then Ok p else Err AuthFailed.
Proof.
  intros Hb Hr. unfold Seal. destruct b as [bx|]; [|done]. destruct (Hb bx eq_refl) as [Hkek Hhsm]. destruct (HasBackend (Some bx) BackendKEK) eqn:Ek.
  - rewrite HasBackend_kek in Ek. apply Z.eqb_eq in Ek as El. intros (dek & n & w & m & -> & Ew & Hd & Hn & Hw & Hm & ->)%sealWith_Ok; [|done|by apply Hkek].
    rewrite gcm_32 in Ew by done. injection Ew as <-.
    apply (Unseal_envelope _ _ _ (λ nonce wrapped, match gcm_Open (b_kek bx) nonce wrapped dekAAD with Some dek => Ok dek | None => Err CryptoErr end)); try done.
    + unfold Configured. by rewrite HasBackend_kek, Ek.
    + unfold unwrapper. rewrite HasBackend_kek, Ek. cbn [andb Z.eqb WrapFileKEK]. by rewrite gcm_32.
    + by rewrite gcm_open_seal.
    + by apply Hkek.
  - destruct (b_hsm bx) as [h|] eqn:Eh; [|done]. destruct (Hhsm h eq_refl) as (Hk & _ & Hround).
    intros (dek & n & w & m & -> & Ew & Hd & Hn & Hw & Hm & ->)%sealWith_Ok; [|done|done]. apply (Unseal_envelope _ _ _ (h_unwrapDEK h)); try done.
    + unfold Configured. rewrite HasBackend_pkcs11, Eh. apply orb_true_r.
    + unfold unwrapper. rewrite Ek, Eh. reflexivity.
    + by apply Hround.
Qed.
(** What a box seals it opens again, for the purpose it was sealed for and for no other: an envelope moved to another row does not open there. *)
Theorem Unseal_Seal b purpose purpose' p rand e : box_ok b → rand_ok rand → Seal b purpose p rand = Ok e →
  Unseal b purpose' e = if bool_decide (purpose' = purpose) then Ok p else Err AuthFailed.
Proof. apply Unseal_sealed. Qed.
Lemma Unseal_returns b purpose e : box_ok b → returns (Unseal b purpose e).
Proof.
  intros Hb. unfold Unseal. destruct (Configured b); [|done]. simpl. destruct (Z.ltb_spec (len e) minEnvelop) as [|Hl]; [done|]. simpl. case_bool_decide; [|done]. simpl.
  destruct (idx_is_Some e 4) as [wrap ->]; [unfold minEnvelop, headerLen in Hl; lia|]. destruct b as [bx|]; [|done]. destruct (Hb bx eq_refl) as [_ Hhsm]. unfold unwrapper.
  destruct (_ && _).
  - case_bool_decide; [|done]. simpl. destruct (gcm (b_kek bx)); [|done]. destruct (gcm_Open _ _ _ _) as [dek|]; [|done]. destruct (len dek =? 32); [|done]. simpl. destruct (gcm dek); [|done]. by destruct (gcm_Open _ _ _ _).
  - destruct (wrap =? WrapPKCS11); [|done]. destruct (b_hsm bx) as [h|]; [|done]. destruct (Hhsm h eq_refl) as (_ & Hret & _). case_bool_decide; [|done]. simpl.
    specialize (Hret (slice e 13 25) (slice e 25 73)). destruct (h_unwrapDEK h _ _) as [dek|er| |]; [|by destruct er|done|done].
    destruct (len dek =? 32); [|done]. simpl. destruct (gcm dek); [|done]. by destruct (gcm_Open _ _ _ _).
Qed.
End theorems.

(** ** Signing keys

    signing.go.  The encodings of keys (crypto/x509, encoding/base64 and the public key formats) are
    the class [KeyLib]; a signer is a private key, or a key of the token with the public key it was
    created with. *)
Class KeyLib (Priv Pub : Type) := {
  MarshalPKCS8 : Priv → option bytes;
  ParsePKCS8 : bytes → option Priv;
  Public : Priv → Pub;
  dnskeyPublic : Pub → option bytes;
  parseDNSKEYPublic : Z → bytes → option Pub;
  algorithmOf : Priv → Z;
}.
Record StoredKey := mkStored { sk_Backend : bytes; sk_Algorithm : Z; sk_KeyRef : bytes; sk_Envelope : bytes; sk_PublicKey : bytes }.
Inductive KeySigner (Priv Pub : Type) : Type :=
| SoftSigner (p : Priv)
| TokenSigner (alg : Z) (ref : bytes) (pub : Pub).
Arguments SoftSigner {Priv Pub}.
Arguments TokenSigner {Priv Pub}.
Definition algRSASHA256 : Z := 8.
Definition algECDSAP256SHA256 : Z := 13.

Section signing.
Context {Priv Pub : Type} `{Gcm} `{KeyLib Priv Pub}.

(** [ref] is what [rand.Read] gave; [hsm_generate] is the public key of the pair made in the token;
    [gen] the private key made otherwise. *)
Definition GenerateSigningKey (b : option Box) (be : bytes) (alg : Z) (ref : option bytes) (hsm_generate : option bytes) (gen : option Priv)
    (rand : option (bytes * bytes * bytes)) : secres StoredKey :=
  if negb (Configured b) then Err ErrUnconfigured
  else if negb (HasBackend b be) then Err ErrBackendUnavailable
  else if negb (alg =? algECDSAP256SHA256) && negb (alg =? algRSASHA256) then Err CryptoErr
  else match ref with
       | None => Err CryptoErr
       | Some ref =>
           if bool_decide (be = BackendPKCS11) then
             match hsm_generate with Some pub => Ok (mkStored be alg ref [] pub) | None => Err CryptoErr end
           else
             match gen with
             | None => Err CryptoErr
             | Some priv =>
                 match dnskeyPublic (Public priv), MarshalPKCS8 priv with
                 | Some pub, Some der => env ← Seal b (SigningKeyPurpose ref) der rand; Ok (mkStored be alg ref env pub)
                 | _, _ => Err CryptoErr
                 end
             end
       end.
Definition box_Signer (b : option Box) (k : StoredKey) : secres (KeySigner Priv Pub) :=
  match parseDNSKEYPublic (sk_Algorithm k) (sk_PublicKey k) with
  | None => Err CryptoErr
  | Some pub =>
      if bool_decide (sk_Backend k = BackendPKCS11) then
        if negb (HasBackend b BackendPKCS11) then Err ErrBackendUnavailable else Ok (TokenSigner (sk_Algorithm k) (sk_KeyRef k) pub)
      else if negb (bool_decide (sk_Backend k = BackendKEK)) then Err CryptoErr
      else
        der ← Unseal b (SigningKeyPurpose (sk_KeyRef k)) (sk_Envelope k);
        match ParsePKCS8 der with
        | None => Err CryptoErr
        | Some priv =>
            if bool_decide (dnskeyPublic (Public priv) = Some (sk_PublicKey k)) && (algorithmOf priv =? sk_Algorithm k) then Ok (SoftSigner priv) else Err CryptoErr
        end
  end.
(** [None] for a token that fails; a key that is already gone is no error. *)
Definition DestroySigningKey (b : option Box) (k : StoredKey) (token : gset bytes) (ok : bool) : secres (gset bytes) :=
  if negb (bool_decide (sk_Backend k = BackendPKCS11)) then Ok token
  else if negb (HasBackend b BackendPKCS11) then Err ErrBackendUnavailable
  else if ok then Ok (token ∖ {[sk_KeyRef k]}) else Err CryptoErr.
End signing.

Section signing_theorems.
Context {Priv Pub : Type} `{GcmLaws} `{KeyLib Priv Pub}.

(** The signer of a stored key is the pair of its public key, made with its algorithm. *)
Lemma box_Signer_pair b k s : box_Signer b k = Ok s →
  match s with
  | SoftSigner priv => dnskeyPublic (Public priv) = Some (sk_PublicKey k) ∧ algorithmOf priv = sk_Algorithm k
  | TokenSigner alg ref pub => alg = sk_Algorithm k ∧ ref = sk_KeyRef k ∧ parseDNSKEYPublic alg (sk_PublicKey k) = Some pub
  end.
Proof.
  unfold box_Signer. destruct (parseDNSKEYPublic _ _) as [pub|] eqn:Ep; [|done]. case_bool_decide.
  - destruct (HasBackend b BackendPKCS11); [|done]. by intros [= <-].
  - case_bool_decide; [|done]. simpl. intros (der & _ & E)%bind_Ok. destruct (ParsePKCS8 der) as [priv|]; [|done].
    destruct (_ && _) eqn:Eb; [|done]. injection E as <-. apply andb_true_iff in Eb as [E1%bool_decide_eq_true E2%Z.eqb_eq]. done.
Qed.
(** A private key made for the key-encryption-key backend can be used again from what the database keeps of it, and only there: the stored envelope under any other key reference does not open. *)
Lemma generated_key_signs b alg ref priv rand k ref' : box_ok b → rand_ok rand →
  (∀ p der, MarshalPKCS8 p = Some der → ParsePKCS8 der = Some p) → algorithmOf priv = alg →
  (∀ s, dnskeyPublic (Public priv) = Some s → is_Some (parseDNSKEYPublic alg s)) → SigningKeyPurpose ref' ≠ SigningKeyPurpose ref →
  GenerateSigningKey b BackendKEK alg (Some ref) None (Some priv) rand = Ok k →
  box_Signer b k = Ok (SoftSigner priv) ∧
  box_Signer (Priv := Priv) (Pub := Pub) b (mkStored BackendKEK alg ref' (sk_Envelope k) (sk_PublicKey k)) = Err AuthFailed.
Proof.
  intros Hb Hr Hround Halg Hpub Hne. unfold GenerateSigningKey. destruct (Configured b); [|done]. destruct (HasBackend b BackendKEK); [|done]. destruct (_ && _); [done|]. simpl.
  destruct (dnskeyPublic (Public priv)) as [pub|] eqn:Ep; [|done]. destruct (MarshalPKCS8 priv) as [der|] eqn:Em; [|done].
  intros (env & Es & E)%bind_Ok. injection E as <-. destruct (Hpub _ eq_refl) as [pk Epk]. unfold box_Signer. cbn [sk_Algorithm sk_PublicKey sk_Backend sk_KeyRef sk_Envelope]. rewrite Epk.
  rewrite bool_decide_eq_false_2 by done. rewrite bool_decide_eq_true_2 by done. cbn [negb].
  rewrite !(Unseal_sealed b _ _ der rand env Hb Hr Es). rewrite bool_decide_eq_true_2 by done. rewrite (bool_decide_eq_false_2 _ Hne). simpl.
  rewrite (Hround _ _ Em), Ep, Halg, Z.eqb_refl, bool_decide_eq_true_2 by done. done.
Qed.
End signing_theorems.
