(* ===== verification/DnssecStore.v ===== *)
(** * The signer's store

    The signatures kept in the database between passes, and that signing through the store is signing. *)

From S2P Require Import Prelude.
From S2P Require Import GoText.
From S2P Require Import NzfNames.
From S2P Require Import NzfFormat.
From S2P Require Import Effects.
From S2P Require Import ZoneJournal.
From S2P Require Import DnssecRollover.
From S2P Require Import XfrIn.
From S2P Require Import DnsLib.
From S2P Require Import Secrets.
From S2P Require Import DnssecSign.
From S2P Require Import ZoneServed.
From S2P Require Import ZoneRebuild.
From S2P Require Import DnssecSets.
From S2P Require Import DnssecChain.
From S2P Require Import DnssecSigned.
From S2P Require Import DnssecDenial.
From S2P Require Import DnssecVerify.
From S2P Require Import DnssecStable.

(** ** The signer of stored zones

    mgmt/internal/dnssec/store.go with the settings and key queries of service.go: keys, settings and
    the signatures of the last pass are rows of the database; signing a zone loads them, signs, and
    stores the signatures and the instant of the next maintenance. *)

(** ** Rows *)
Record key_row := mkKrow {
  kr_id : bytes; kr_zone : bytes; kr_role : Role; kr_alg : Z; kr_tag : Z; kr_public : bytes; kr_backend : bytes; kr_ref : bytes;
  kr_envelope : option bytes; kr_state : KeyPhase; kr_ds : DSPhase; kr_published : Z; kr_activated : option Z; kr_retired : option Z;
  kr_removed : option Z; kr_seen : option Z }.
Record zd_row := mkZd {
  zd_enabled : bool; zd_algorithm : Z; zd_mode : bytes; zd_backend : bytes; zd_propagation : Z; zd_parent : Z; zd_lifetime : Z; zd_next : option Z }.
Record sig_row := mkSrow { sr_digest : bytes; sr_expiration : Z; sr_wire : bytes }.
(** Keys by id, signatures by zone, destructions in the order they were queued, orphans by when they were first seen. *)
Record ddb := mkDdb {
  d_settings : gmap bytes zd_row; d_keys : gmap bytes key_row; d_sigs : gmap bytes (gmap SigKey sig_row);
  d_queue : list bytes; d_orphans : gmap bytes Z }.
Definition set_settings (d : ddb) (m : gmap bytes zd_row) : ddb := mkDdb m (d_keys d) (d_sigs d) (d_queue d) (d_orphans d).
Definition set_keys (d : ddb) (m : gmap bytes key_row) : ddb := mkDdb (d_settings d) m (d_sigs d) (d_queue d) (d_orphans d).
Definition set_sigs (d : ddb) (m : gmap bytes (gmap SigKey sig_row)) : ddb := mkDdb (d_settings d) (d_keys d) m (d_queue d) (d_orphans d).
Definition set_queue (d : ddb) (q : list bytes) : ddb := mkDdb (d_settings d) (d_keys d) (d_sigs d) q (d_orphans d).
Definition set_orphans (d : ddb) (m : gmap bytes Z) : ddb := mkDdb (d_settings d) (d_keys d) (d_sigs d) (d_queue d) m.
Definition set_next (r : zd_row) (t : option Z) : zd_row :=
  mkZd (zd_enabled r) (zd_algorithm r) (zd_mode r) (zd_backend r) (zd_propagation r) (zd_parent r) (zd_lifetime r) t.
Record SZone := mkSZone { sz_ID : bytes; sz_Name : bytes; sz_SOATTL : Z }.

Inductive store_err := NotEnabled | SignFailure (e : sign_err) | KeyFailure (e : secret_err) | SigPack | NoZonemd | SOACount.
Abbreviation stres := (res store_err).
Definition of_sign {A} (m : sres A) : stres A := match m with Ok a => Ok a | Err e => Err (SignFailure e) | Panic => Panic | Fuel => Fuel end.
Definition of_secret {A} (m : secres A) : stres A := match m with Ok a => Ok a | Err e => Err (KeyFailure e) | Panic => Panic | Fuel => Fuel end.

(** ** Settings and key states (service.go) *)
Record Settings := mkSettings { st_Algorithm : Z; st_NSECMode : bytes; st_KeyBackend : bytes; st_Propagation : Z; st_ParentDSTTL : Z; st_Lifetime : Z }.
Definition withDefaults (st : Settings) (b : option Box) : Settings :=
  mkSettings (if st_Algorithm st =? 0 then algECDSAP256SHA256 else st_Algorithm st)
    (if bool_decide (st_NSECMode st = []) then str "nsec3" else st_NSECMode st)
    (if bool_decide (st_KeyBackend st = []) then DefaultBackend b else st_KeyBackend st)
    (if st_Propagation st =? 0 then hour else st_Propagation st) (if st_ParentDSTTL st =? 0 then 24 * hour else st_ParentDSTTL st) (st_Lifetime st).
Definition loadSettings (d : ddb) (b : option Box) (zoneID : bytes) : Settings * bool :=
  match d_settings d !! zoneID with
  | None => (withDefaults (mkSettings 0 [] [] 0 0 90) b, false)
  | Some r => (mkSettings (u8 (zd_algorithm r)) (zd_mode r) (zd_backend r) (seconds (zd_propagation r)) (seconds (zd_parent r)) (zd_lifetime r), zd_enabled r)
  end.
Definition zone_rows (d : ddb) (zoneID : bytes) : list key_row := filter (λ r, kr_zone r = zoneID) (map snd (map_to_list (d_keys d))).
Definition row_state (r : key_row) : KeyState :=
  mkKey (kr_id r) (kr_role r) (kr_state r) (kr_ds r) (kr_published r) (kr_activated r) (kr_retired r) (kr_removed r) (kr_seen r).
Definition live_rows (d : ddb) (zoneID : bytes) : list key_row :=
  sort_on (λ r, (kr_published r, kr_id r)) (lex_cmp Z.compare bytes_compare) (filter (λ r, kr_state r ≠ RemovedKey) (zone_rows d zoneID)).
Definition loadKeyStates (d : ddb) (zoneID : bytes) : list KeyState := map row_state (live_rows d zoneID).
Definition policyOf (st : Settings) (soaTTL maxTTL : Z) : Policy :=
  mkPolicy (seconds soaTTL) (seconds (Z.max soaTTL maxTTL)) (st_Propagation st) (st_ParentDSTTL st) (i64 (st_Lifetime st * 24 * hour)).

(** ** Keys *)
Definition role_rank (r : Role) : Z := match r with KSK => 0 | ZSK => 1 end.
Definition key_rows (d : ddb) (zoneID : bytes) : list key_row :=
  sort_on (λ r, (role_rank (kr_role r), (kr_published r, kr_id r))) (lex_cmp Z.compare (lex_cmp Z.compare bytes_compare))
    (filter (λ r, kr_state r ≠ RemovedKey) (zone_rows d zoneID)).
(** The newest active KSK, the one CDS and CDNSKEY advertise. *)
Definition cds_step (acc : option bytes * Z) (r : key_row) : option bytes * Z :=
  match kr_activated r with
  | Some t =>
      if bool_decide (kr_role r = KSK) && bool_decide (kr_state r = ActiveKey) && negb (Before t acc.2) then (Some (kr_id r), t) else acc
  | None => acc
  end.
Definition cdsKey (rows : list key_row) : option bytes := (foldl cds_step (None, zero_time) rows).1.
Definition key_flags (r : Role) : Z := match r with KSK => 257 | ZSK => 256 end.
Definition row_dnskey (r : key_row) : Dnskey := mkDnskey (key_flags (kr_role r)) 3 (u8 (kr_alg r)) (kr_public r).
Definition stored_of (r : key_row) : StoredKey := mkStored (kr_backend r) (u8 (kr_alg r)) (kr_ref r) (default [] (kr_envelope r)) (kr_public r).

Section store.
Context {Priv Pub : Type} `{Gcm} `{KeyLib Priv Pub} `{DnsLib} `{SignLib (option (KeySigner Priv Pub))}.
Context (sha256 : bytes → bytes) (UnpackSig : bytes → option (Hdr * RRSIG)).
Context (range_sets : nat → gmap setKey (list sRR) → list setKey) (range_types : gmap bytes (list Z) → list bytes).
Context (range_cache : gmap SigKey CachedSig → list SigKey).
(** A signer is set on active keys only. *)
Abbreviation SKey := (Key (option (KeySigner Priv Pub))).

Definition load_key (b : option Box) (cds : option bytes) (r : key_row) : stres SKey :=
  let signs := bool_decide (kr_state r = ActiveKey) in
  signer ← (if signs then (Some <$> of_secret (box_Signer b (stored_of r))) else Ok None);
  Ok (mkSKey (kr_id r) (kr_role r) (u8 (kr_alg r)) (row_dnskey r) signer signs (bool_decide (cds = Some (kr_id r)) && bool_decide (kr_ds r = DSPending))).
Fixpoint load_key_rows (b : option Box) (cds : option bytes) (rows : list key_row) : stres (list SKey) :=
  match rows with
  | [] => Ok []
  | r :: rows => k ← load_key b cds r; ks ← load_key_rows b cds rows; Ok (k :: ks)
  end.
Definition loadKeys (d : ddb) (b : option Box) (zoneID : bytes) : stres (list SKey) :=
  let rows := key_rows d zoneID in load_key_rows b (cdsKey rows) rows.

(** ** The signature cache *)
Definition decode_sig (r : sig_row) : option CachedSig :=
  s ← UnpackSig (sr_wire r);
  if len (sr_digest r) =? 32 then Some (mkCached (sr_digest r) s) else None.
Definition zone_sigs (d : ddb) (zoneID : bytes) : gmap SigKey sig_row := default ∅ (d_sigs d !! zoneID).
Definition loadCache (d : ddb) (zoneID : bytes) (only : option setKey) : gmap SigKey CachedSig :=
  omap decode_sig (match only with None => zone_sigs d zoneID | Some k => filter (λ p, p.1.1 = k) (zone_sigs d zoneID) end).
Definition cacheChunk : Z := 5000.
Definition encode_sig (c : CachedSig) : option sig_row :=
  w ← PackRR (as_rr (sig_rr (c_RRSIG c)));
  Some (mkSrow (c_Digest c) (time_Unix (sg_Expiration (c_RRSIG c).2)) w).
Definition flush (buf : list (SigKey * sig_row)) (sigs : gmap SigKey sig_row) : gmap SigKey sig_row := foldl (λ m p, <[p.1 := p.2]> m) sigs buf.
(** Equal contents stand for the identity of a signature that was reused as loaded. *)
Fixpoint save_loop (old next : gmap SigKey CachedSig) (keys : list SigKey) (buf : list (SigKey * sig_row)) (sigs : gmap SigKey sig_row) : stres (gmap SigKey sig_row) :=
  match keys with
  | [] => Ok (flush buf sigs)
  | k :: keys =>
      match next !! k with
      | None => save_loop old next keys buf sigs
      | Some c =>
          if bool_decide (old !! k = Some c) then save_loop old next keys buf sigs
          else
            match encode_sig c with
            | None => Err SigPack
            | Some row =>
                let buf := buf ++ [(k, row)] in
                if len buf =? cacheChunk then save_loop old next keys [] (flush buf sigs) else save_loop old next keys buf sigs
            end
      end
  end.
Definition saveCache (d : ddb) (zoneID : bytes) (old next : gmap SigKey CachedSig) : stres ddb :=
  sigs ← save_loop old next (range_cache next) [] (zone_sigs d zoneID);
  Ok (set_sigs d (<[zoneID := filter (λ p, ¬ (is_Some (old !! p.1) ∧ next !! p.1 = None)) sigs]> (d_sigs d))).

(** ** Signing *)
Definition max_ttl (rrs : list sRR) : Z := foldl (λ m r, Z.max m (s_Ttl r)) 0 rrs.
Definition rolloverDue (d : ddb) (b : option Box) (z : SZone) (rrs : list sRR) (now : Z) : Z :=
  let '(st, _) := loadSettings d b (sz_ID z) in
  let keys := loadKeyStates d (sz_ID z) in
  let '(out, act, next) := Advance keys (policyOf st (sz_SOATTL z) (max_ttl rrs)) now in
  if CreateZSK act || negb (bool_decide (map k_State out = map k_State keys)) then now else next.
(** [UPDATE zone_dnssec SET next_maintenance_at]: nothing without a row. *)
Definition update_next (d : ddb) (zoneID : bytes) (f : option Z → option Z) : ddb := set_settings d (alter (λ r, set_next r (f (zd_next r))) zoneID (d_settings d)).
Definition Store_Sign (d : ddb) (b : option Box) (z : SZone) (rrs : list sRR) (now : Z) : stres (list sRR * ddb) :=
  match d_settings d !! sz_ID z with
  | Some r =>
      if negb (zd_enabled r) then Err NotEnabled
      else
        keys ← loadKeys d b (sz_ID z);
        let cache := loadCache d (sz_ID z) None in
        out ← of_sign (Sign sha256 range_sets range_types (mkInput (sz_Name z) rrs keys (bool_decide (zd_mode r = str "nsec3")) cache now));
        d ← saveCache d (sz_ID z) cache (o_Cache out);
        let next := rolloverDue d b z rrs now in
        let next := if IsZero next || Before (o_NextRefresh out) next then o_NextRefresh out else next in
        Ok (o_Served out, update_next d (sz_ID z) (λ _, Some next))
  | None => Err NotEnabled
  end.
Definition least (a : option Z) (b : Z) : Z := match a with Some a => Z.min a b | None => b end.
Definition covers (r : sRR) (t : Z) : bool := match s_fields r with FRRSIG s => sg_TypeCovered s =? t | _ => false end.
Definition empty_output : Output := mkOutput [] ∅ zero_time 0 0.
Definition Store_SignZONEMD (d : ddb) (b : option Box) (z : SZone) (served : list sRR) (now : Z) : stres (list sRR * ddb) :=
  let apex := CanonicalName (sz_Name z) in
  let atApex r := bool_decide (CanonicalName (s_Name r) = apex) in
  let out := filter (λ r, atApex r && covers r TypeZONEMD = false) served in
  let set := filter (λ r, atApex r && (s_Type r =? TypeZONEMD) = true) out in
  if bool_decide (set = []) then Err NoZonemd
  else
    keys ← loadKeys d b (sz_ID z);
    '(signed, sigs) ← of_sign (signSet sha256 apex (apex, TypeZONEMD) set keys ∅ now empty_output);
    Ok (out ++ sigs, update_next d (sz_ID z) (λ n, Some (least n (o_NextRefresh signed)))).
Definition Store_ResignSOA (d : ddb) (b : option Box) (z : SZone) (served : list sRR) (now : Z) : stres (list sRR * ddb) :=
  let out := filter (λ r, covers r TypeSOA = false) served in
  match filter (λ r, s_Type r = TypeSOA) out with
  | [r] =>
      keys ← loadKeys d b (sz_ID z);
      let k := (ToLower (s_Name r), TypeSOA) in
      let cache := loadCache d (sz_ID z) (Some k) in
      '(signed, sigs) ← of_sign (signSet sha256 (CanonicalName (sz_Name z)) k [r] keys cache now empty_output);
      d ← saveCache d (sz_ID z) cache (o_Cache signed);
      Ok (out ++ sigs, update_next d (sz_ID z) (λ n, Some (least n (o_NextRefresh signed))))
  | _ => Err SOACount
  end.
End store.

(** ** Stored signatures

    The signature cache reads back as it was saved, so that signing an unchanged zone again serves
    the same records; and the store keeps the promise [ZoneRebuild] relies on of a signer. *)

(** A signature that was made or unpacked unpacks as it was packed; the RDATA of a signature starts
    with the type it covers (RFC 4034, 3.1). *)
Class SigWire (Signer : Type) `{DnsLaws} `{SignLib Signer} (UnpackSig : bytes → option (Hdr * RRSIG)) := {
  good_sig : Hdr * RRSIG → Prop;
  sign_good : ∀ k h s set x, rrsig_Sign k h s set = Some x → good_sig x;
  unpack_good : ∀ w x, UnpackSig w = Some x → good_sig x;
  unpack_sig : ∀ x w, good_sig x → PackRR (as_rr (sig_rr x)) = Some w → UnpackSig w = Some x;
  sig_rdata : ∀ h s d, rdata_of (as_rr (mkSRR h (FRRSIG s))) = Some d → ∃ d', d = put16 (sg_TypeCovered s) ++ d';
}.

Section store_thms.
Context {Priv Pub : Type} `{Gcm} `{KeyLib Priv Pub} `{HS : SignLaws (option (KeySigner Priv Pub))}.
Context (sha256 : bytes → bytes) (UnpackSig : bytes → option (Hdr * RRSIG)) `{HW : !SigWire (option (KeySigner Priv Pub)) UnpackSig}.
Context (range_sets : nat → gmap setKey (list sRR) → list setKey) (range_types : gmap bytes (list Z) → list bytes) (range_cache : gmap SigKey CachedSig → list SigKey).
Abbreviation loadCache := (loadCache UnpackSig).
Abbreviation saveCache := (saveCache range_cache).

(** ** The cache *)
Lemma flush_snoc buf p sigs : flush (buf ++ [p]) sigs = <[p.1 := p.2]> (flush buf sigs).
Proof. unfold flush. by rewrite foldl_app. Qed.
Definition changed (old next : gmap SigKey CachedSig) (k : SigKey) : option CachedSig :=
  match next !! k with Some c => if bool_decide (old !! k = Some c) then None else Some c | None => None end.
(** Writing in chunks writes every changed signature. *)
Lemma save_loop_spec old next keys buf sigs sigs' : save_loop old next keys buf sigs = Ok sigs' → ∀ k,
  (k ∈ keys → ∀ c, changed old next k = Some c → ∃ row, encode_sig c = Some row ∧ sigs' !! k = Some row) ∧
  ((k ∉ keys ∨ changed old next k = None) → sigs' !! k = flush buf sigs !! k).
Proof.
  revert buf sigs. induction keys as [|k0 keys IH]; intros buf sigs; simpl; [intros [= <-] k; split; [by intros ?%not_elem_of_nil|done]|].
  assert (∀ k, (k ∉ k0 :: keys ∨ changed old next k = None) → k ∉ keys ∨ changed old next k = None) as Hmono by (intros k [Hk|?]; [left; set_solver|by right]).
  destruct (next !! k0) as [c0|] eqn:En; [case_bool_decide as Eo|].
  - intros E k. destruct (IH _ _ E k) as [IH1 IH2]. split; [|intros; by apply IH2, Hmono]. intros [->|Hk]%elem_of_cons; [|by apply IH1].
    intros c. unfold changed. rewrite En, bool_decide_eq_true_2 by done. done.
  - destruct (encode_sig c0) as [row|] eqn:Er; [|done]. intros E.
    assert (∀ k, (k ∈ keys → ∀ c, changed old next k = Some c → ∃ row, encode_sig c = Some row ∧ sigs' !! k = Some row) ∧
      ((k ∉ keys ∨ changed old next k = None) → sigs' !! k = <[k0 := row]> (flush buf sigs) !! k)) as Hrest.
    { intros k. destruct (_ =? _).
      - destruct (IH _ _ E k) as [IH1 IH2]. split; [done|]. intros Hk. rewrite (IH2 Hk). simpl. by rewrite flush_snoc.
      - destruct (IH _ _ E k) as [IH1 IH2]. split; [done|]. intros Hk. rewrite (IH2 Hk). by rewrite flush_snoc. }
    assert (changed old next k0 = Some c0) as Hch by (unfold changed; rewrite En, bool_decide_eq_false_2 by done; done).
    intros k. destruct (Hrest k) as [H1' H2']. split.
    + intros [->|Hk]%elem_of_cons; [|by apply H1']. intros c Hc. rewrite Hch in Hc. injection Hc as <-. destruct (decide (k0 ∈ keys)) as [Hin|Hout]; [by apply H1'|].
      exists row. split; [done|]. rewrite H2' by by left. by rewrite lookup_insert_eq.
    + intros Hk. rewrite H2' by by apply Hmono. rewrite lookup_insert_ne; [done|]. intros ->. destruct Hk as [Hk|Hk]; [by destruct Hk; left|congruence].
  - intros E k. destruct (IH _ _ E k) as [IH1 IH2]. split; [|intros; by apply IH2, Hmono]. intros [->|Hk]%elem_of_cons; [|by apply IH1].
    intros c. unfold changed. by rewrite En.
Qed.
Lemma decode_encode c row : good_sig (c_RRSIG c) → len (c_Digest c) = 32 → encode_sig c = Some row → decode_sig UnpackSig row = Some c.
Proof.
  intros Hg Hd. unfold encode_sig, decode_sig. destruct (PackRR _) as [w|] eqn:Ew; [|done]. simpl. intros [= <-]. simpl. rewrite (unpack_sig _ _ Hg Ew). simpl.
  rewrite Hd. simpl. by destruct c.
Qed.
(** What was saved is what the next pass loads. *)
Lemma loadCache_saved d zoneID next d' : ranges range_cache → (∀ k c, next !! k = Some c → good_sig (c_RRSIG c) ∧ len (c_Digest c) = 32) →
  saveCache d zoneID (loadCache d zoneID None) next = Ok d' → loadCache d' zoneID None = next.
Proof.
  intros Hr Hgood. unfold DnssecStore.saveCache. set (old := loadCache d zoneID None). intros (sigs & Es & E)%bind_Ok. injection E as <-.
  pose proof (save_loop_spec _ _ _ _ _ _ Es) as Hsave. apply map_eq. intros k. unfold DnssecStore.loadCache, zone_sigs. simpl. rewrite lookup_insert_eq. simpl.
  rewrite lookup_omap. assert (old !! k = zone_sigs d zoneID !! k ≫= decode_sig UnpackSig) as Hold by (unfold old, DnssecStore.loadCache; by rewrite lookup_omap).
  destruct (Hsave k) as [H1' H2']. destruct (next !! k) as [c|] eqn:En.
  - destruct (Hgood k c En) as [Hg Hd]. assert (k ∈ range_cache next) as Hin by (apply elem_of_ranges; [done|by eexists]).
    assert (∃ row, sigs !! k = Some row ∧ decode_sig UnpackSig row = Some c) as (row & Erow & Edec).
    { destruct (changed old next k) as [c'|] eqn:Ech.
      - assert (c' = c) as -> by (unfold changed in Ech; rewrite En in Ech; case_bool_decide; congruence). destruct (H1' Hin c eq_refl) as (row & Er & El). exists row. split; [done|]. by apply decode_encode.
      - assert (old !! k = Some c) as Eo by (unfold changed in Ech; rewrite En in Ech; by case_bool_decide). rewrite Eo in Hold. symmetry in Hold. apply bind_Some in Hold as (row & Er & Ed).
        exists row. split; [|done]. by rewrite H2' by by right. }
    rewrite (map_lookup_filter_Some_2 _ _ _ row); [done|done|]. simpl. rewrite En. intros [_ ?]. done.
  - assert (changed old next k = None) as Ech by (unfold changed; by rewrite En). rewrite map_lookup_filter, H2' by by right. simpl.
    destruct (zone_sigs d zoneID !! k) as [row|] eqn:Er; [|done]. simpl in *. case_guard as Hcond; [|done]. simpl.
    rewrite En in Hcond. destruct (decode_sig UnpackSig row) as [c|] eqn:Ed; [|done]. exfalso. apply Hcond. rewrite Hold. split; [by eexists|done].
Qed.

(** ** Signing again *)
Lemma save_same m keys sigs : save_loop (m : gmap SigKey CachedSig) m keys [] sigs = Ok sigs.
Proof. induction keys as [|k keys IH]; [done|]. simpl. destruct (m !! k) as [c|]; [|done]. by rewrite bool_decide_eq_true_2. Qed.
Definition dnskey_tags (rows : list key_row) : list Z := map (λ r, KeyTag (row_dnskey r)) (filter (λ r, kr_state r = ActiveKey) rows).
Lemma load_key_Ok b cds r k : load_key b cds r = Ok k → K_ID k = kr_id r ∧ K_Role k = kr_role r ∧ K_DNSKEY k = row_dnskey r ∧ K_Algorithm k = u8 (kr_alg r) ∧
  K_Signs k = bool_decide (kr_state r = ActiveKey) ∧ K_InCDS k = bool_decide (cds = Some (kr_id r)) && bool_decide (kr_ds r = DSPending) ∧
  (K_Signs k = true → ∃ s, box_Signer b (stored_of r) = Ok s ∧ K_Signer k = Some s).
Proof.
  unfold load_key. case_bool_decide; intros (s & Es & E)%bind_Ok; injection E as <-; split_and!; try done. simpl. intros _.
  destruct (box_Signer b (stored_of r)) as [x| | |]; simpl in Es; try done. injection Es as <-. by exists x.
Qed.
Lemma load_key_rows_Ok b cds rows ks : load_key_rows b cds rows = Ok ks → Forall2 (λ r k, load_key b cds r = Ok k) rows ks.
Proof.
  revert ks. induction rows as [|r rows IH]; intros ks; simpl; [by intros [= <-]|]. intros (k & Ek & E)%bind_Ok. apply bind_Ok in E as (ks' & Eks & E). injection E as <-.
  constructor; [done|]. by apply IH.
Qed.
Lemma loaded_tags d b zoneID ks : loadKeys d b zoneID = Ok ks →
  map (λ k, KeyTag (K_DNSKEY k)) (filter (λ k, K_Signs k = true) ks) = dnskey_tags (key_rows d zoneID).
Proof.
  intros Hf%load_key_rows_Ok. unfold dnskey_tags. induction Hf as [|r k rows ks Hk _ IH]; [done|].
  apply load_key_Ok in Hk as (_ & _ & Ed & _ & Es & _). rewrite !filter_cons, Es. case_bool_decide; [rewrite !decide_True by done|rewrite !decide_False by done]; cbn [map]; by rewrite ?Ed, IH.
Qed.

Context (Hsets : ∀ i, ranges (range_sets i)) (Htypes : ranges range_types) (Hcache : ranges range_cache) (Hsha : ∀ b, len (sha256 b) = 32).
Abbreviation Store_Sign := (Store_Sign sha256 UnpackSig range_sets range_types range_cache).

Lemma out_cache_good d zoneID inp out : wf_input inp → tags_distinct inp → in_Cache inp = loadCache d zoneID None → Sign sha256 range_sets range_types inp = Ok out →
  ∀ k c, o_Cache out !! k = Some c → good_sig (c_RRSIG c) ∧ len (c_Digest c) = 32.
Proof.
  intros Hw Ht Hc Hs k c. destruct (Sign_pass _ _ _ Hsets Htypes _ _ Hw Hs) as (soa & z & z' & cuts & order & ess & Hp).
  rewrite (pa_out _ _ _ _ _ _ _ _ _ Hp). simpl. rewrite record_cache_iff; [|by eapply (entries_NoDup sha256 Hp)|done]. intros (e & He & _ & ->).
  apply (pass_entry sha256 Hp) in He as (_ & _ & _ & _ & Hd & _ & _ & _ & Hm). simpl. split.
  - destruct (cached_sig _ _ _ _ _) as [s|] eqn:Ec.
    + destruct Hm as [-> _]. apply cached_sig_Some in Ec as (c & Ec & _ & -> & _). rewrite Hc in Ec. unfold DnssecStore.loadCache in Ec. rewrite lookup_omap in Ec.
      apply bind_Some in Ec as (row & _ & Ed). unfold decode_sig in Ed. apply bind_Some in Ed as (s & Eu & Ed). destruct (_ =? _); [|done]. injection Ed as <-. by eapply unpack_good.
    + destruct Hm as [Hn _]. unfold newSig in Hn. destruct (set_of z' (e_key e)); [done|]. destruct (rrsig_Sign _ _ _ _) eqn:E; [|done]. injection Hn as <-. by eapply sign_good.
  - unfold rrsetDigest in Hd. destruct (mapM _ _); [|done]. injection Hd as <-. apply Hsha.
Qed.
Definition input_of (z : SZone) (rrs : list sRR) (keys : list (Key (option (KeySigner Priv Pub)))) (r : zd_row) (cache : gmap SigKey CachedSig) (now : Z) : Input (option (KeySigner Priv Pub)) :=
  mkInput (sz_Name z) rrs keys (bool_decide (zd_mode r = str "nsec3")) cache now.
Lemma Store_Sign_Ok d b z rrs now served d' : Store_Sign d b z rrs now = Ok (served, d') →
  ∃ r keys out d1 next, d_settings d !! sz_ID z = Some r ∧ zd_enabled r = true ∧ loadKeys d b (sz_ID z) = Ok keys ∧
    Sign sha256 range_sets range_types (input_of z rrs keys r (loadCache d (sz_ID z) None) now) = Ok out ∧
    saveCache d (sz_ID z) (loadCache d (sz_ID z) None) (o_Cache out) = Ok d1 ∧ served = o_Served out ∧
    d' = update_next d1 (sz_ID z) (λ _, Some next) ∧ next ≤ o_NextRefresh out.
Proof.
  unfold DnssecStore.Store_Sign. destruct (d_settings d !! sz_ID z) as [r|] eqn:Er; [|done]. destruct (zd_enabled r) eqn:Een; [|done]. simpl.
  intros (keys & Ek & E)%bind_Ok. apply bind_Ok in E as (out & Eo & E). apply bind_Ok in E as (d1 & Ed & E). injection E as <- <-.
  exists r, keys, out, d1. eexists. split_and!; try done.
  - unfold of_sign in Eo. destruct (Sign _ _ _ _) eqn:Es; try done. injection Eo as ->. done.
  - destruct (IsZero _); simpl; [lia|]. destruct (Before _ _) eqn:Eb; [lia|]. unfold Before in Eb. lia.
Qed.
Lemma saveCache_other d zoneID old next d1 : saveCache d zoneID old next = Ok d1 → d_settings d1 = d_settings d ∧ d_keys d1 = d_keys d ∧ d_queue d1 = d_queue d ∧ d_orphans d1 = d_orphans d.
Proof. unfold DnssecStore.saveCache. intros (sigs & _ & E)%bind_Ok. by injection E as <-. Qed.

(** From a signed zone to the next maintenance the store records, signing it again unchanged succeeds and serves exactly the same records: the signatures stored by a pass are what the next one loads and reuses. *)
Theorem Store_Sign_again d b z rrs now served d' now' : Forall wf_srr rrs → printed (CanonicalName (sz_Name z)) → CanonicalName (sz_Name z) ≠ [] →
  NoDup (dnskey_tags (key_rows d (sz_ID z))) → wf_cache (loadCache d (sz_ID z) None) → clock_ok now → now ≤ now' →
  Store_Sign d b z rrs now = Ok (served, d') →
  (∀ r t, d_settings d' !! sz_ID z = Some r → zd_next r = Some t → now' + refreshWindow < t) →
  ∃ d'', Store_Sign d' b z rrs now' = Ok (served, d'') ∧ loadCache d'' (sz_ID z) None = loadCache d' (sz_ID z) None.
Proof.
  intros Hrrs Ho Hne Htags Hc Hclock Hle (r & keys & out & d1 & next & Er & Een & Ek & Es & Ed & -> & -> & Hnext)%Store_Sign_Ok Hdue.
  destruct (saveCache_other _ _ _ _ _ Ed) as (Eset & Ekeys & _). set (inp := input_of z rrs keys r (loadCache d (sz_ID z) None) now) in *.
  assert (wf_input inp) as Hw by by split. assert (tags_distinct inp) as Ht by (unfold tags_distinct; simpl; by rewrite (loaded_tags _ _ _ _ Ek)).
  set (d2 := update_next d1 (sz_ID z) (λ _, Some next)) in *.
  assert (d_settings d2 !! sz_ID z = Some (set_next r (Some next))) as Er2 by (unfold d2, update_next; simpl; rewrite lookup_alter_eq, Eset, Er; done).
  specialize (Hdue _ _ Er2 eq_refl). assert (loadCache d2 (sz_ID z) None = o_Cache out) as El.
  { change (loadCache d2 (sz_ID z) None) with (loadCache d1 (sz_ID z) None). eapply loadCache_saved; [done|by eapply out_cache_good|done]. }
  destruct (Sign_later sha256 range_sets range_sets range_types range_types Hsets Hsets Htypes Htypes inp out now' Hw Hc Ht Hclock Es Hle) as (out' & Es' & Eserved & _ & Ecache & _); [lia|].
  unfold DnssecStore.Store_Sign. rewrite Er2. cbn [zd_enabled set_next zd_mode]. rewrite Een. simpl.
  assert (loadKeys d2 b (sz_ID z) = loadKeys d b (sz_ID z)) as -> by (unfold loadKeys, key_rows, zone_rows; simpl; by rewrite Ekeys). rewrite Ek. simpl. rewrite El.
  change (mkInput (sz_Name z) rrs keys _ (o_Cache out) now') with (later inp (o_Cache out) now'). rewrite Es'. simpl. rewrite Ecache.
  unfold DnssecStore.saveCache. rewrite save_same. simpl. eexists. split; [by rewrite Eserved|].
  set (d3 := set_sigs d2 _). assert (saveCache d2 (sz_ID z) (loadCache d2 (sz_ID z) None) (o_Cache out) = Ok d3) as E3.
  { unfold DnssecStore.saveCache. rewrite El, save_same. done. }
  match goal with |- loadCache (update_next d3 _ _) _ _ = _ => change (loadCache d3 (sz_ID z) None = o_Cache out) end.
  eapply loadCache_saved; [done|by eapply out_cache_good|exact E3].
Qed.
End store_thms.
