(* ===== verification/DnssecSigner.v ===== *)
(** * The store as the signer of a rebuild

    [ZoneRebuild] rebuilds a zone against the interface of a signer: its second and third calls
    change SOA data only.  The DNSSEC store keeps that promise. *)

From S2P Require Import Prelude.
From S2P Require Import GoText.
From S2P Require Import NzfNames.
From S2P Require Import NzfFormat.
From S2P Require Import Effects.
From S2P Require Import ZoneJournal.
From S2P Require Import ZoneServed.
From S2P Require Import ZoneRebuild.
From S2P Require Import DnssecRollover.
From S2P Require Import XfrIn.
From S2P Require Import DnsLib.
From S2P Require Import Secrets.
From S2P Require Import DnssecSign.
From S2P Require Import DnssecSets.
From S2P Require Import DnssecSigned.
From S2P Require Import DnssecDenial.
From S2P Require Import DnssecStore.

(** A record whose header names the type of its fields, as the library makes them. *)
Definition typed (r : sRR) : Prop := match s_fields r with FRRSIG _ => s_Type r = TypeRRSIG | _ => True end.
#[export] Instance typed_dec r : Decision (typed r).
Proof. unfold typed. destruct (s_fields r); apply _. Defined.
Definition trr : Type := { r : sRR | typed r }.
Definition typed_of (r : sRR) : option trr := match decide (typed r) with left p => Some (r ↾ p) | right _ => None end.
Lemma typed_of_Some r t : typed_of r = Some t → `t = r.
Proof. unfold typed_of. destruct (decide (typed r)); [|done]. by intros [= <-]. Qed.
Lemma mapM_typed l ts : mapM typed_of l = Some ts → map proj1_sig ts = l.
Proof. intros E%mapM_Some. induction E as [|r t l ts Hr _ IH]; [done|]. simpl. by rewrite (typed_of_Some _ _ Hr), IH. Qed.

Section signer.
Context {Priv Pub : Type} `{Gcm} `{KeyLib Priv Pub} `{HS : SignLaws (option (KeySigner Priv Pub))}.
Context (sha256 : bytes → bytes) (UnpackSig : bytes → option (Hdr * RRSIG)) `{HW : !SigWire (option (KeySigner Priv Pub)) UnpackSig}.
Context (range_sets : nat → gmap setKey (list sRR) → list setKey) (range_types : gmap bytes (list Z) → list bytes) (range_cache : gmap SigKey CachedSig → list SigKey).
Context {Name : Type} (zone_of : Zone Name → SZone) (b : option Box) (now : Z).
Abbreviation loadCache := (loadCache UnpackSig).

Definition trr_FromRR (t : trr) : option record := nzf_FromRR (as_rr (`t)).
Definition signed_rrs (m : stres (list sRR * ddb)) : option (list trr) := match m with Ok (l, _) => mapM typed_of l | _ => None end.
(** The calls of one rebuild: each sees the database as the calls before left it. *)
Definition store_signer (d0 d1 d2 : ddb) : Signer (Name := Name) (RR := trr) := mkSigner
  (λ z l, signed_rrs (Store_Sign sha256 UnpackSig range_sets range_types range_cache d0 b (zone_of z) (map proj1_sig l) now))
  (λ z l, signed_rrs (Store_ResignSOA sha256 UnpackSig range_cache d1 b (zone_of z) (map proj1_sig l) now))
  (λ z l, signed_rrs (Store_SignZONEMD sha256 d2 b (zone_of z) (map proj1_sig l) now)).

Lemma FromRR_rdata r x : nzf_FromRR r = Some x → rdata_of r = Some (RData x).
Proof.
  unfold nzf_FromRR. rewrite pack_rr. destruct (PackDomainName (h_Name r)) as [o|]; [|done]. destruct (rdata_of r) as [d|]; [|done]. cbn [mbind option_bind].
  destruct (wire_fields o (Rrtype r) (Class r) (Ttl r) d) as (_ & E2 & E3 & _ & E5 & E6 & _). destruct (_ <? _)%nat; [done|].
  rewrite E5. cbn [mbind option_bind]. destruct (negb _); [done|]. rewrite E2, E3. cbn [mbind option_bind]. destruct (get32 _); [|done]. intros [= <-]. simpl. by rewrite E6.
Qed.
(** A signature of the SOA or of the ZONEMD is SOA data. *)
Lemma covering_soa_data r x t : typed r → covers r t = true → t = TypeSOA ∨ t = TypeZONEMD → nzf_FromRR (as_rr r) = Some x → isSOAData x = true.
Proof.
  unfold typed, covers. destruct r as [h f]. simpl. destruct f; try done. intros Ht Hc%Z.eqb_eq Hor Hx. pose proof (FromRR_type _ _ Hx) as Ex.
  apply FromRR_rdata, sig_rdata in Hx as (d' & Ed). unfold isSOAData. rewrite Ex. unfold as_rr. simpl. rewrite Ht, Ed, Hc.
  assert (is_u16 t) as Hu by by destruct Hor as [-> | ->]. rewrite get16_put16 by done. rewrite len_app. pose proof (len_nonneg d').
  replace (len (put16 t)) with 2 by done. destruct (Z.ltb_spec (2 + len d') 2); [lia|]. simpl. destruct Hor as [-> | ->]; done.
Qed.

(** Dropping and adding signatures of [t] keeps the rest. *)
Lemma replaced_plain (P : sRR → bool) t (l : list trr) (sigs : list sRR) (ts : list trr) : t = TypeSOA ∨ t = TypeZONEMD →
  (∀ r, P r = true → covers r t = true) → (∀ r, r ∈ sigs → covers r t = true) →
  mapM typed_of (filter (λ r, P r = false) (map proj1_sig l) ++ sigs) = Some ts →
  ∀ x, x ∈ plain_of trr_FromRR l ↔ x ∈ plain_of trr_FromRR ts.
Proof.
  intros Ht HP Hsig Hts x. pose proof (mapM_typed _ _ Hts) as Ets. unfold plain_of, plain. rewrite !list_elem_of_filter, !list_elem_of_omap. split.
  - intros (Hx & [r Hr] & Hin & Ex). split; [done|]. assert (r ∈ map proj1_sig ts) as (t' & -> & Ht')%list_elem_of_fmap.
    { rewrite Ets, elem_of_app. left. apply list_elem_of_filter. split; [|apply list_elem_of_fmap; by exists (r ↾ Hr)].
      apply not_true_iff_false. intros Hc%HP. pose proof (covering_soa_data r x t Hr Hc Ht Ex). congruence. }
    by exists t'.
  - intros (Hx & t' & Hin & Ex). split; [done|]. assert (`t' ∈ map proj1_sig ts) as Hin' by (apply list_elem_of_fmap; by exists t').
    rewrite Ets, elem_of_app in Hin'. destruct Hin' as [[_ Hl]%list_elem_of_filter|Hs].
    + apply list_elem_of_fmap in Hl as (t2 & E & Hl). exists t2. split; [done|]. unfold trr_FromRR in *. by rewrite <- E.
    + exfalso. destruct t' as [r Hr]. simpl in *. pose proof (covering_soa_data r x t Hr (Hsig _ Hs) Ht Ex). congruence.
Qed.
(** The signatures of [signSet] cover the type of the set. *)
Lemma signSet_covers origin k set keys cache out out' sigs : Forall (λ r, s_Type r = k.2) set → wf_cache cache →
  signSet sha256 origin k set keys cache now out = Ok (out', sigs) → ∀ r, r ∈ sigs → covers r k.2 = true.
Proof.
  intros Hset Hc. unfold signSet. intros (dg & _ & E)%bind_Ok r Hr. apply bind_Ok in E as ([o1 s1] & (es & Hes & _ & ->)%sign_loop_iff & E).
  case_bool_decide; [done|]. injection E as <- <-. simpl in Hr. apply list_elem_of_fmap in Hr as (e & -> & (i & Hi)%list_elem_of_lookup).
  destruct (Forall2_lookup_r _ _ _ _ _ Hes Hi) as (key & _ & Ek & _ & _ & Hm). unfold covers. simpl. apply Z.eqb_eq. destruct (cached_sig _ _ _ _ _) as [s|] eqn:Ec.
  - destruct Hm as [-> _]. apply cached_sig_Some in Ec as (c & Hc' & _ & -> & _). apply Hc in Hc' as (_ & _ & -> & _). unfold e_sk. simpl. by rewrite Ek.
  - destruct Hm as [Hn _]. apply newSig_Ok in Hn as (r & set' & -> & _ & _ & -> & _). by apply Forall_cons in Hset as [? _].
Qed.

(** The DNSSEC store keeps the promise the rebuild of a zone relies on: signing the SOA again and signing the ZONEMD change only SOA data, so the difference the rebuild computed before them is the difference after them. *)
Theorem store_signer_laws d0 d1 d2 : (∀ z k, wf_cache (loadCache d1 (sz_ID (zone_of z)) (Some k))) → SignerLaws trr_FromRR (store_signer d0 d1 d2).
Proof.
  intros Hc. split; intros z l ts E; simpl in E.
  - unfold Store_ResignSOA in E. destruct (filter (λ r, s_Type r = TypeSOA) _) as [|r [|]] eqn:Ef; try done.
    destruct (loadKeys _ _ _) as [keys| | |]; try done. cbn [mbind res_bind] in E. destruct (signSet _ _ _ _ _ _ _ _) as [[o sigs]| | |] eqn:Es; try done.
    cbn [mbind res_bind of_sign] in E. destruct (saveCache _ _ _ _ _) as [d'| | |]; try done. cbn [mbind res_bind signed_rrs] in E.
    eapply (replaced_plain (λ r, covers r TypeSOA) TypeSOA); [by left|done| |exact E].
    assert (s_Type r = TypeSOA) as Hr by (assert (r ∈ [r]) as Hin by left; rewrite <- Ef in Hin; by apply list_elem_of_filter in Hin as [? _]).
    eapply (signSet_covers _ (ToLower (s_Name r), TypeSOA)); [|apply Hc|exact Es]. by constructor.
  - unfold Store_SignZONEMD in E. case_bool_decide; [done|]. destruct (loadKeys _ _ _) as [keys| | |]; try done. cbn [mbind res_bind] in E.
    destruct (signSet _ _ _ _ _ _ _ _) as [[o sigs]| | |] eqn:Es; try done. cbn [mbind res_bind of_sign signed_rrs] in E.
    eapply (replaced_plain (λ r, bool_decide (CanonicalName (s_Name r) = CanonicalName (sz_Name (zone_of z))) && covers r TypeZONEMD) TypeZONEMD); [by right|by intros r [_ ?]%andb_true_iff| |exact E].
    eapply (signSet_covers _ (_, TypeZONEMD)); [|by intros sk c; rewrite lookup_empty|exact Es].
    apply Forall_forall. intros r [[_ ?%Z.eqb_eq]%andb_true_iff _]%list_elem_of_filter. done.
Qed.
End signer.
