(* ===== verification/DnssecKeys.v ===== *)
(** * The life of signing keys

    mgmt/internal/dnssec/enable.go, lifecycle.go, the key operations of service.go and the maintainer:
    keys are created, rolled and removed in transactions on the database, while the PKCS#11 token that
    holds some of them is not transactional.  Each operation returns the token it leaves, also when it
    fails, and the database to commit.  [attempt] holds what one key generation reads from outside:
    random octets, the token's answers, the private key made. *)

From S2P Require Import Prelude.
From S2P Require Import GoText.
From S2P Require Import Effects.
From S2P Require Import DnssecRollover.
From S2P Require Import DnsLib.
From S2P Require Import Secrets.
From S2P Require Import DnssecSign.
From S2P Require Import DnssecStore.

Inductive key_err := KUnconfigured | KBackend | KSettings | KNoZone | KNotPrimary | KGenerate (e : secret_err) | KNoTag | KConflict
  | KNotEnabled | KInProgress | KNotPending | KAlgorithm | KStale.
Abbreviation kres := (res key_err).
Definition maxTagAttempts : nat := 8.
Definition OrphanGrace : Z := hour.
Definition destructionBatch : nat := 100.

(** ** Settings *)
Definition validate (st : Settings) : bool :=
  negb ((negb (st_Algorithm st =? algECDSAP256SHA256) && negb (st_Algorithm st =? algRSASHA256))
    || (negb (bool_decide (st_NSECMode st = str "nsec")) && negb (bool_decide (st_NSECMode st = str "nsec3")))
    || ((st_Propagation st <? second) || (7 * 24 * hour <? st_Propagation st))
    || ((st_ParentDSTTL st <? second) || (7 * 24 * hour <? st_ParentDSTTL st))
    || ((st_Lifetime st <? 0) || (3650 <? st_Lifetime st))).
Definition settings_row (st : Settings) (next : option Z) : zd_row :=
  mkZd true (st_Algorithm st) (st_NSECMode st) (st_KeyBackend st) (Z.quot (st_Propagation st) second) (Z.quot (st_ParentDSTTL st) second) (st_Lifetime st) next.

Section keys.
Context {Priv Pub : Type} `{Gcm} `{KeyLib Priv Pub} (KeyTag : Dnskey → Z).
(** The kind of a zone; [None] when there is no such zone. *)
Context (kind_of : bytes → option bool).

Record attempt := mkAttempt {
  at_ref : option bytes; at_hsm : option bytes; at_priv : option Priv; at_rand : option (bytes * bytes * bytes); at_destroy : bool }.
Definition gen_attempt (b : option Box) (be : bytes) (alg : Z) (a : attempt) : secres StoredKey :=
  GenerateSigningKey b be alg (at_ref a) (at_hsm a) (at_priv a) (at_rand a).
(** A key made in the token is there from then on. *)
Definition with_key (k : StoredKey) (token : gset bytes) : gset bytes :=
  if bool_decide (sk_Backend k = BackendPKCS11) then {[sk_KeyRef k]} ∪ token else token.
Definition refs_of (d : ddb) : list bytes := map (λ p, kr_ref p.2) (map_to_list (d_keys d)).
Definition key_of (k : StoredKey) (id zoneID : bytes) (role : Role) (state : KeyPhase) (ds : DSPhase) (tag now : Z) : key_row :=
  mkKrow id zoneID role (sk_Algorithm k) tag (sk_PublicKey k) (sk_Backend k) (sk_KeyRef k) (if bool_decide (sk_Envelope k = []) then None else Some (sk_Envelope k))
    state ds now (if bool_decide (state = ActiveKey) then Some now else None) None None None.
(** INSERT: the id and the key reference are unique. *)
Definition insert_key (d : ddb) (r : key_row) : kres ddb :=
  if bool_decide (is_Some (d_keys d !! kr_id r)) || bool_decide (kr_ref r ∈ refs_of d) then Err KConflict
  else Ok (set_keys d (<[kr_id r := r]> (d_keys d))).
Definition used_tags (d : ddb) (zoneID : bytes) : list Z := map (λ r, u16 (kr_tag r)) (zone_rows d zoneID).
Fixpoint create_loop (n : nat) (d : ddb) (token : gset bytes) (b : option Box) (zoneID : bytes) (st : Settings) (role : Role) (state : KeyPhase) (ds : DSPhase)
    (now : Z) (id : bytes) (atts : list attempt) : gset bytes * kres ddb :=
  match n, atts with
  | O, _ => (token, Err KNoTag)
  | S _, [] => (token, Err (KGenerate CryptoErr))
  | S n, a :: atts =>
      match gen_attempt b (st_KeyBackend st) (st_Algorithm st) a with
      | Ok sk =>
          let token := with_key sk token in
          let tag := KeyTag (mkDnskey (key_flags role) 3 (sk_Algorithm sk) (sk_PublicKey sk)) in
          if bool_decide (tag ∈ used_tags d zoneID) then
            match DestroySigningKey b sk token (at_destroy a) with
            | Ok token => create_loop n d token b zoneID st role state ds now id atts
            | Err e => (token, Err (KGenerate e))
            | _ => (token, Panic)
            end
          else (token, insert_key d (key_of sk id zoneID role state ds tag now))
      | Err e => (token, Err (KGenerate e))
      | _ => (token, Panic)
      end
  end.
Definition createKey := create_loop maxTagAttempts.

Definition Enable (d : ddb) (token : gset bytes) (b : option Box) (zoneID : bytes) (st : Settings) (now : Z) (id1 id2 : bytes) (atts1 atts2 : list attempt)
    : gset bytes * kres ddb :=
  if negb (Configured b) then (token, Err KUnconfigured)
  else
    let st := withDefaults st b in
    if negb (HasBackend b (st_KeyBackend st)) then (token, Err KBackend)
    else if negb (validate st) then (token, Err KSettings)
    else match kind_of zoneID with
         | None => (token, Err KNoZone)
         | Some false => (token, Err KNotPrimary)
         | Some true =>
             let next := d_settings d !! zoneID ≫= zd_next in
             let d := set_settings d (<[zoneID := settings_row st next]> (d_settings d)) in
             if negb (bool_decide (filter (λ r, kr_state r ≠ RemovedKey) (zone_rows d zoneID) = [])) then (token, Ok d)
             else
               match createKey d token b zoneID st KSK ActiveKey DSPending now id1 atts1 with
               | (token, Ok d) => createKey d token b zoneID st ZSK ActiveKey DSNone now id2 atts2
               | r => r
               end
         end.

(** ** Removal *)
Definition enqueue (q : list bytes) (r : key_row) : list bytes :=
  if bool_decide (kr_backend r = BackendPKCS11) && negb (bool_decide (kr_ref r ∈ q)) then q ++ [kr_ref r] else q.
Definition enqueueDestruction (d : ddb) (rows : list key_row) : ddb := set_queue d (foldl enqueue (d_queue d) rows).
Definition removed_row (now : Z) (r : key_row) : key_row :=
  mkKrow (kr_id r) (kr_zone r) (kr_role r) (kr_alg r) (kr_tag r) (kr_public r) (kr_backend r) (kr_ref r) None RemovedKey (kr_ds r) (kr_published r) (kr_activated r)
    (kr_retired r) (Some now) (kr_seen r).
Definition disabled_row (r : zd_row) : zd_row := mkZd false (zd_algorithm r) (zd_mode r) (zd_backend r) (zd_propagation r) (zd_parent r) (zd_lifetime r) None.
Definition disable_key (zoneID : bytes) (now : Z) (r : key_row) : key_row :=
  if bool_decide (kr_zone r = zoneID) && negb (bool_decide (kr_state r = RemovedKey)) then removed_row now r else r.
Definition Disable (d : ddb) (zoneID : bytes) (now : Z) : ddb :=
  let removed := filter (λ r, kr_state r ≠ RemovedKey) (zone_rows d zoneID) in
  enqueueDestruction
    (mkDdb (alter disabled_row zoneID (d_settings d)) (disable_key zoneID now <$> d_keys d) (delete zoneID (d_sigs d)) (d_queue d) (d_orphans d)) removed.

(** ** Rollovers (service.go) *)
Definition in_rollover (role : Role) (k : KeyState) : bool :=
  match role with
  | ZSK => bool_decide (k_Role k = ZSK) && (bool_decide (k_State k = PublishedKey) || bool_decide (k_State k = RetiredKey))
  | KSK => bool_decide (k_Role k = KSK) && bool_decide (k_State k = ActiveKey)
  end.
Definition StartRollover (d : ddb) (token : gset bytes) (b : option Box) (zoneID : bytes) (role : Role) (now : Z) (id : bytes) (atts : list attempt) : gset bytes * kres ddb :=
  let '(st, enabled) := loadSettings d b zoneID in
  if negb enabled then (token, Err KNotEnabled)
  else
    let busy := length (filter (λ k, in_rollover role k = true) (loadKeyStates d zoneID)) in
    match role with
    | ZSK => if (0 <? busy)%nat then (token, Err KInProgress) else createKey d token b zoneID st ZSK PublishedKey DSNone now id atts
    | KSK => if (2 <=? busy)%nat then (token, Err KInProgress) else createKey d token b zoneID st KSK ActiveKey DSPending now id atts
    end.
Definition seen_row (now : Z) (r : key_row) : key_row :=
  mkKrow (kr_id r) (kr_zone r) (kr_role r) (kr_alg r) (kr_tag r) (kr_public r) (kr_backend r) (kr_ref r) (kr_envelope r) (kr_state r) DSSeen (kr_published r)
    (kr_activated r) (kr_retired r) (kr_removed r) (Some now).
Definition ConfirmDS (d : ddb) (zoneID keyID : bytes) (now : Z) : kres ddb :=
  match d_keys d !! keyID with
  | Some r =>
      if bool_decide (kr_zone r = zoneID) && bool_decide (kr_role r = KSK) && bool_decide (kr_state r = ActiveKey) && bool_decide (kr_ds r = DSPending)
      then Ok (set_keys d (<[keyID := seen_row now r]> (d_keys d))) else Err KNotPending
  | None => Err KNotPending
  end.
(** UPDATE dnssec_keys of one transition. *)
Definition moved_row (k : KeyState) (r : key_row) : key_row :=
  mkKrow (kr_id r) (kr_zone r) (kr_role r) (kr_alg r) (kr_tag r) (kr_public r) (kr_backend r) (kr_ref r)
    (if bool_decide (k_State k = RemovedKey) then None else kr_envelope r) (k_State k) (kr_ds r) (kr_published r) (ActivatedAt k) (RetiredAt k) (RemovedAt k) (kr_seen r).
Fixpoint advance_loop (d : ddb) (old out : list KeyState) : ddb :=
  match old, out with
  | o :: old, k :: out =>
      let d :=
        if bool_decide (k_State k = k_State o) then d
        else match d_keys d !! k_ID k with
             | None => d
             | Some r =>
                 let d := set_keys d (<[k_ID k := moved_row k r]> (d_keys d)) in
                 if bool_decide (k_State k = RemovedKey) then enqueueDestruction d [r] else d
             end in
      advance_loop d old out
  | _, _ => d
  end.
Definition advance (d : ddb) (token : gset bytes) (b : option Box) (zoneID : bytes) (soaTTL maxTTL now : Z) (id : bytes) (atts : list attempt) : gset bytes * kres ddb :=
  let '(st, enabled) := loadSettings d b zoneID in
  if negb enabled then (token, Ok d)
  else
    let keys := loadKeyStates d zoneID in
    let '(out, act, _) := Advance keys (policyOf st soaTTL (u32 maxTTL)) now in
    let d := advance_loop d keys out in
    if CreateZSK act then createKey d token b zoneID st ZSK PublishedKey DSNone now id atts else (token, Ok d).
Definition Update (d : ddb) (token : gset bytes) (b : option Box) (zoneID : bytes) (zoneRevision revision : Z) (enabled : bool) (st : Settings) (now : Z)
    (id1 id2 : bytes) (atts1 atts2 : list attempt) : gset bytes * kres ddb :=
  if negb (zoneRevision =? revision) then (token, Err KStale)
  else
    let '(cur, wasEnabled) := loadSettings d b zoneID in
    if enabled then
      if Configured b && wasEnabled && negb (st_Algorithm (withDefaults st b) =? st_Algorithm cur) then (token, Err KAlgorithm)
      else Enable d token b zoneID st now id1 id2 atts1 atts2
    else (token, Ok (Disable d zoneID now)).

(** ** The token (lifecycle.go)

    Each run is made of phases, between which others run.  [ok] says whether the token carries out a
    destruction, [del] whether the database then deletes its row. *)
Definition live_ref (d : ddb) (ref : bytes) : bool := bool_decide (ref ∈ map kr_ref (filter (λ r, kr_state r ≠ RemovedKey) (map snd (map_to_list (d_keys d))))).
Definition token_key (ref : bytes) : StoredKey := mkStored BackendPKCS11 0 ref [] [].
(** The queue as one query reads it, with the keys that are in use. *)
Definition pending (d : ddb) : list (bytes * bool) := map (λ ref, (ref, live_ref d ref)) (take destructionBatch (d_queue d)).
Definition destroy_queued (b : option Box) (ok del : bool) (q : bytes * bool) (d : ddb) (token : gset bytes) : ddb * gset bytes * Z :=
  let '(ref, live) := q in
  match (if live then Ok token else DestroySigningKey b (token_key ref) token ok) with
  | Ok token => if del then (set_queue d (filter (λ r, r ≠ ref) (d_queue d)), token, 0) else (d, token, 1)
  | _ => (d, token, 1)
  end.
Fixpoint destroy_loop (b : option Box) (ok del : bytes → bool) (batch : list (bytes * bool)) (d : ddb) (token : gset bytes) (errs : Z) : ddb * gset bytes * Z :=
  match batch with
  | [] => (d, token, errs)
  | q :: batch => let '(d, token, e) := destroy_queued b (ok q.1) (del q.1) q d token in destroy_loop b ok del batch d token (errs + e)
  end.
Definition DestroyPending (d : ddb) (token : gset bytes) (b : option Box) (ok del : bytes → bool) : kres (ddb * gset bytes * Z) :=
  let batch := pending d in
  if negb (bool_decide (batch = [])) && negb (HasBackend b BackendPKCS11) then Err KBackend
  else Ok (destroy_loop b ok del batch d token 0).

(** The orphans after the sweep's transaction: those still listed and unreferenced, and the new ones. *)
Definition swept_orphans (d : ddb) (refs : gset bytes) (now : Z) : gmap bytes Z :=
  filter (λ p, p.1 ∈ refs ∧ live_ref d p.1 = false) (d_orphans d) ∪ gset_to_gmap now (filter (λ r, live_ref d r = false) refs).
Definition due_orphans (orphans : gmap bytes Z) (now grace : Z) : list bytes := map fst (filter (λ p, p.2 ≤ now - grace) (map_to_list orphans)).
(** The transaction of a sweep that listed [refs]. *)
Definition sweep_record (d : ddb) (refs : gset bytes) (now grace : Z) : ddb * list bytes :=
  let orphans := swept_orphans d refs now in (set_orphans d orphans, due_orphans orphans now grace).
Definition sweep_destroy (b : option Box) (ok del : bool) (ref : bytes) (d : ddb) (token : gset bytes) : ddb * gset bytes * Z * Z :=
  match DestroySigningKey b (token_key ref) token ok with
  | Ok token => if del then (set_orphans d (delete ref (d_orphans d)), token, 1, 0) else (d, token, 1, 1)
  | _ => (d, token, 0, 1)
  end.
Fixpoint sweep_loop (b : option Box) (ok del : bytes → bool) (due : list bytes) (d : ddb) (token : gset bytes) (destroyed errs : Z) : ddb * gset bytes * Z * Z :=
  match due with
  | [] => (d, token, destroyed, errs)
  | ref :: due => let '(d, token, n, e) := sweep_destroy b (ok ref) (del ref) ref d token in sweep_loop b ok del due d token (destroyed + n) (errs + e)
  end.
(** A sweep that nothing interrupts: [token] is the listing of the installation's keys. *)
Definition SweepTokenOrphans (d : ddb) (token : gset bytes) (b : option Box) (now grace : Z) (ok del : bytes → bool) : ddb * gset bytes * Z * Z :=
  if negb (HasBackend b BackendPKCS11) then (d, token, 0, 0)
  else let '(d, due) := sweep_record d token now grace in sweep_loop b ok del due d token 0 0.
(** Deleting a zone deletes its settings, keys and signatures (ON DELETE CASCADE); its keys stay in the token. *)
Definition cascade (d : ddb) (zoneID : bytes) : ddb :=
  mkDdb (delete zoneID (d_settings d)) (filter (λ p, kr_zone p.2 ≠ zoneID) (d_keys d)) (delete zoneID (d_sigs d)) (d_queue d) (d_orphans d).
End keys.
