(* ===== verification/DnssecKeysThms.v ===== *)
(** * Signing keys are never lost

    Transactions on keys of different zones, open side by side, and the phases of destructions and
    sweeps of the token, zone deletions and signing interleave in any order, and any of them may
    stop half way: live keys stay in the token, key tags stay distinct, and a signed zone always has
    active keys of both roles.  [ran] is what one operation does to the database, [kstep] the
    interleaving, [sinv] its invariant. *)

From S2P Require Import Prelude.
From S2P Require Import GoText.
From S2P Require Import Effects.
From S2P Require Import DnssecRollover.
From S2P Require Import RolloverTheorems.
From S2P Require Import DnsLib.
From S2P Require Import Secrets.
From S2P Require Import DnssecSign.
From S2P Require Import DnssecStore.
From S2P Require Import DnssecKeys.

Definition live (r : key_row) : Prop := kr_state r ≠ RemovedKey.

Section keys_thms.
Context {Priv Pub : Type} `{Gcm} `{KeyLib Priv Pub} (KeyTag : Dnskey → Z) (kind_of : bytes → option bool).
Context (Htag : ∀ k, is_u16 (KeyTag k)).
Abbreviation att := (attempt (Priv := Priv)).

Definition enabled (d : ddb) (zoneID : bytes) : Prop := ∃ s, d_settings d !! zoneID = Some s ∧ zd_enabled s = true.
(** What holds of the rows at any point of a transaction. *)
Record kbase (d : ddb) (token : gset bytes) : Prop := {
  ki_id : ∀ id r, d_keys d !! id = Some r → kr_id r = id;
  ki_refs : ∀ i j r s, d_keys d !! i = Some r → d_keys d !! j = Some s → kr_ref r = kr_ref s → i = j;
  ki_tags : ∀ i j r s, d_keys d !! i = Some r → d_keys d !! j = Some s → kr_zone r = kr_zone s → kr_tag r = kr_tag s → i = j;
  ki_tag : ∀ id r, d_keys d !! id = Some r → kr_tag r = KeyTag (row_dnskey r);
  ki_token : ∀ id r, d_keys d !! id = Some r → live r → kr_backend r = BackendPKCS11 → kr_ref r ∈ token }.
(** What holds between transactions: signed zones have active keys, and only they have live ones. *)
Record kinv (d : ddb) (token : gset bytes) : Prop := {
  ki_base : kbase d token;
  ki_active : ∀ zone role, enabled d zone → ∃ id r, d_keys d !! id = Some r ∧ kr_zone r = zone ∧ kr_role r = role ∧ kr_state r = ActiveKey;
  ki_dark : ∀ id r, d_keys d !! id = Some r → live r → enabled d (kr_zone r) }.

Lemma kinv_empty : kinv (mkDdb ∅ ∅ ∅ [] ∅) ∅.
Proof. split; [split|..]; try (intros *; simpl; rewrite lookup_empty; done). by intros zone role (s & Hs & _). Qed.
Lemma elem_refs_of d ref : ref ∈ refs_of d ↔ ∃ id r, d_keys d !! id = Some r ∧ kr_ref r = ref.
Proof.
  unfold refs_of. rewrite list_elem_of_fmap. split.
  - intros ([id r] & -> & Hr%elem_of_map_to_list). by exists id, r.
  - intros (id & r & Hr & <-). exists (id, r). by rewrite elem_of_map_to_list.
Qed.
Lemma elem_zone_rows d zone r : r ∈ zone_rows d zone ↔ kr_zone r = zone ∧ ∃ id, d_keys d !! id = Some r.
Proof.
  unfold zone_rows. rewrite list_elem_of_filter, list_elem_of_fmap. split; intros [Hz Hr]; (split; [done|]).
  - destruct Hr as ([id x] & -> & Hx%elem_of_map_to_list). by exists id.
  - destruct Hr as [id Hid]. exists (id, r). by rewrite elem_of_map_to_list.
Qed.
Lemma live_ref_iff d ref : live_ref d ref = true ↔ ∃ id r, d_keys d !! id = Some r ∧ live r ∧ kr_ref r = ref.
Proof.
  unfold live_ref. rewrite bool_decide_eq_true, list_elem_of_fmap. split.
  - intros (r & -> & [Hl ([id x] & -> & Hx%elem_of_map_to_list)%list_elem_of_fmap]%list_elem_of_filter). by exists id, x.
  - intros (id & r & Hr & Hl & <-). exists r. split; [done|]. apply list_elem_of_filter. split; [done|]. apply list_elem_of_fmap. exists (id, r). by rewrite elem_of_map_to_list.
Qed.

(** Only the token changed, and it still holds what the rows refer to. *)
Definition token_kept (d : ddb) (token token' : gset bytes) : Prop := ∀ ref, ref ∈ refs_of d → ref ∈ token → ref ∈ token'.
Lemma kbase_token d token token' : kbase d token → token_kept d token token' → kbase d token'.
Proof.
  intros Hi Ht. destruct Hi as [A B C D E]. split; try done. intros id r Hr Hl Hb. apply Ht; [|by eapply E]. apply elem_refs_of. by exists id, r.
Qed.
Lemma kinv_token d token token' : kinv d token → token_kept d token token' → kinv d token'.
Proof. intros [Hb Ha Hd] Ht. split; [by eapply kbase_token|done|done]. Qed.

(** ** Rows that move *)
(** The same key, perhaps further on its way; what is removed stays removed. *)
Definition kept_row (r r' : key_row) : Prop :=
  kr_id r' = kr_id r ∧ kr_zone r' = kr_zone r ∧ kr_role r' = kr_role r ∧ kr_alg r' = kr_alg r ∧ kr_tag r' = kr_tag r ∧ kr_public r' = kr_public r ∧
  kr_backend r' = kr_backend r ∧ kr_ref r' = kr_ref r ∧ (live r' → live r).
Lemma kept_refl r : kept_row r r.
Proof. by repeat split. Qed.
Definition kept_keys (d d' : ddb) : Prop :=
  (∀ id r', d_keys d' !! id = Some r' → ∃ r, d_keys d !! id = Some r ∧ kept_row r r') ∧ ∀ id, is_Some (d_keys d !! id) → is_Some (d_keys d' !! id).
Lemma kbase_kept d d' token : kbase d token → kept_keys d d' → kbase d' token.
Proof.
  intros Hi [Hk _]. split.
  - intros id r' (r & Hr & Hk' & _)%Hk. rewrite Hk'. by eapply (ki_id _ _ Hi).
  - intros i j r' s' (r & Hr & Kr)%Hk (s & Hs & Ks)%Hk E. destruct Kr as (_ & _ & _ & _ & _ & _ & _ & Kr & _), Ks as (_ & _ & _ & _ & _ & _ & _ & Ks & _).
    eapply (ki_refs _ _ Hi); [done..|]. congruence.
  - intros i j r' s' (r & Hr & Kr)%Hk (s & Hs & Ks)%Hk E1 E2. destruct Kr as (_ & Kz & _ & _ & Kt & _), Ks as (_ & Kz' & _ & _ & Kt' & _).
    eapply (ki_tags _ _ Hi); [done..| |]; congruence.
  - intros id r' (r & Hr & _ & _ & Er & Ea & Et & Ep & _)%Hk. rewrite Et. unfold row_dnskey. rewrite Er, Ea, Ep. by eapply (ki_tag _ _ Hi).
  - intros id r' (r & Hr & _ & _ & _ & _ & _ & _ & Eb & Eref & Hl)%Hk Hl' Hb. rewrite Eref. eapply (ki_token _ _ Hi); [done|auto|congruence].
Qed.
Lemma kinv_kept d d' token : kinv d token → kept_keys d d' →
  (∀ zone role, enabled d' zone → ∃ id r, d_keys d' !! id = Some r ∧ kr_zone r = zone ∧ kr_role r = role ∧ kr_state r = ActiveKey) →
  (∀ id r, d_keys d' !! id = Some r → live r → enabled d (kr_zone r) → enabled d' (kr_zone r)) → kinv d' token.
Proof.
  intros Hi Hk Hact Hen. split; [eapply kbase_kept; [apply Hi|done]|done|]. intros id r' Hr' Hl'.
  pose proof Hr' as (r & Hr & _ & Ez & _ & _ & _ & _ & _ & _ & Hl)%(proj1 Hk). eapply Hen; [done..|]. rewrite Ez. eapply (ki_dark _ _ Hi); [done|auto].
Qed.

(** ** Creating keys *)
Definition fresh_atts (d : ddb) (atts : list att) : Prop := ∀ a ref, a ∈ atts → at_ref a = Some ref → ref ∉ refs_of d.
Lemma gen_attempt_Ok b be alg a sk : gen_attempt (Priv := Priv) (Pub := Pub) b be alg a = Ok sk → at_ref a = Some (sk_KeyRef sk) ∧ sk_Backend sk = be ∧ sk_Algorithm sk = alg.
Proof.
  unfold gen_attempt, GenerateSigningKey. destruct (Configured b); [|done]. destruct (HasBackend b be); [|done]. simpl. destruct (_ && _); [done|]. destruct (at_ref a) as [ref|]; [|done].
  case_bool_decide; [destruct (at_hsm a); [by intros [= <-]|done]|]. destruct (at_priv a) as [priv|]; [|done]. destruct (dnskeyPublic (Public priv)), (MarshalPKCS8 priv); try done.
  intros (env & _ & E)%bind_Ok. by injection E as <-.
Qed.
Lemma destroy_Ok b k token ok token' : DestroySigningKey b k token ok = Ok token' → token' = token ∨ token' = token ∖ {[sk_KeyRef k]}.
Proof. unfold DestroySigningKey. case_bool_decide; simpl; [|intros [= <-]; by left]. destruct (HasBackend _ _); [|done]. destruct ok; [|done]. intros [= <-]. by right. Qed.
Lemma create_loop_spec n d token b zone st role state ds now id atts token' res : fresh_atts d atts →
  create_loop KeyTag n d token b zone st role state ds now id atts = (token', res) →
  token_kept d token token' ∧ ∀ d', res = Ok d' → ∃ sk (tag := KeyTag (mkDnskey (key_flags role) 3 (sk_Algorithm sk) (sk_PublicKey sk))),
    (∃ a, a ∈ atts ∧ at_ref a = Some (sk_KeyRef sk)) ∧ sk_Algorithm sk = st_Algorithm st ∧ tag ∉ used_tags d zone ∧ insert_key d (key_of sk id zone role state ds tag now) = Ok d' ∧
    (sk_Backend sk = BackendPKCS11 → sk_KeyRef sk ∈ token').
Proof.
  revert token atts. induction n as [|n IH]; intros token atts Hf; simpl; [intros [= <- <-]; split; [by intros ref|done]|].
  destruct atts as [|a atts]; [intros [= <- <-]; split; [by intros ref|done]|]. destruct (gen_attempt _ _ _ a) as [sk|e| |] eqn:Eg; try (intros [= <- <-]; split; [by intros ref|done]).
  apply gen_attempt_Ok in Eg as (Er & Eb & Ea). assert (token_kept d token (with_key sk token)) as Hwk by (intros ref _ ?; unfold with_key; case_bool_decide; set_solver).
  assert (sk_KeyRef sk ∉ refs_of d) as Hfr by (eapply Hf; [by left|done]). set (tag := KeyTag _). case_bool_decide as Htg.
  - destruct (DestroySigningKey _ _ _ _) as [t1|e| |] eqn:Ed; try (intros [= <- <-]; split; [done|done]). intros E. apply IH in E as [Hk Hres]; [|intros x ref Hx; apply Hf; by right]. split.
    + intros ref Href Hin. apply Hk; [done|]. apply Hwk in Hin; [|done]. apply destroy_Ok in Ed as [-> | ->]; [done|]. set_solver.
    + intros d' E'. destruct (Hres d' E') as (sk' & (x & Hx & ?) & ?). exists sk'. split; [exists x; split; [by right|done]|done].
  - intros [= <- <-]. split; [done|]. intros d' Hd. exists sk. split_and!; [exists a; split; [by left|done]|done|done|done|]. intros Hb. unfold with_key. rewrite bool_decide_eq_true_2 by done. set_solver.
Qed.
Lemma insert_key_Ok d r d' : insert_key d r = Ok d' → d_keys d !! kr_id r = None ∧ kr_ref r ∉ refs_of d ∧ d' = set_keys d (<[kr_id r := r]> (d_keys d)).
Proof. unfold insert_key. case_bool_decide as Hid; [done|]. case_bool_decide; [done|]. intros [= <-]. split_and!; [by apply eq_None_not_Some|done|done]. Qed.
Lemma createKey_spec d token b zone st role state ds now id atts token' res : kbase d token → u8 (st_Algorithm st) = st_Algorithm st → fresh_atts d atts →
  createKey KeyTag d token b zone st role state ds now id atts = (token', res) →
  token_kept d token token' ∧ ∀ d', res = Ok d' → kbase d' token' ∧ ∃ r, d' = set_keys d (<[id := r]> (d_keys d)) ∧ d_keys d !! id = None ∧
    kr_zone r = zone ∧ kr_role r = role ∧ kr_state r = state ∧ ∃ a, a ∈ atts ∧ at_ref a = Some (kr_ref r).
Proof.
  intros Hb Hu Hf Hc. apply create_loop_spec in Hc as [Ht Hres]; [|done]. split; [done|]. intros d' Hd. destruct (Hres d' Hd) as (sk & Hat & Halg & Hused & (Hid & Hfr & ->)%insert_key_Ok & Htok).
  set (r := key_of _ _ _ _ _ _ _ _) in *. split; [|exists r; by split_and!]. pose proof (kbase_token _ _ _ Hb Ht) as Hb'. change (kr_id r) with id in *.
  assert (∀ i x, d_keys (set_keys d (<[id := r]> (d_keys d))) !! i = Some x → i = id ∧ x = r ∨ i ≠ id ∧ d_keys d !! i = Some x) as Hl.
  { intros i x. simpl. destruct (decide (i = id)) as [->|]; [rewrite lookup_insert_eq; intros [= <-]; by left|rewrite lookup_insert_ne by done; by right]. }
  assert (∀ i x, d_keys d !! i = Some x → kr_ref x ≠ kr_ref r) as Hne by (intros i x Hx E; apply Hfr, elem_refs_of; by exists i, x).
  assert (∀ i x, d_keys d !! i = Some x → kr_zone x = zone → kr_tag x ≠ kr_tag r) as Hnt.
  { intros i x Hx Hz E. apply Hused. unfold used_tags. apply list_elem_of_fmap. exists x. change (kr_tag r) with (KeyTag (mkDnskey (key_flags role) 3 (sk_Algorithm sk) (sk_PublicKey sk))) in E.
    split; [|apply elem_zone_rows; split; [done|by exists i]]. rewrite E. unfold u16. rewrite Z.mod_small; [done|apply Htag]. }
  split.
  - intros i x [[-> ->]|[_ Hx]]%Hl; [done|by eapply (ki_id _ _ Hb')].
  - intros i j x y [[-> ->]|[Hi Hx]]%Hl [[-> ->]|[Hj Hy]]%Hl E; [done|by apply Hne in Hy|by apply Hne in Hx|by eapply (ki_refs _ _ Hb')].
  - intros i j x y [[-> ->]|[Hi Hx]]%Hl [[-> ->]|[Hj Hy]]%Hl E1 E2; [done|by destruct (Hnt _ _ Hy)|by destruct (Hnt _ _ Hx)|by eapply (ki_tags _ _ Hb')].
  - intros i x [[-> ->]|[_ Hx]]%Hl; [|by eapply (ki_tag _ _ Hb')]. unfold row_dnskey. simpl. by rewrite Halg, Hu.
  - intros i x [[-> ->]|[_ Hx]]%Hl Hlv Hbk; [by apply Htok|by eapply (ki_token _ _ Hb')].
Qed.
(** A key added to an enabled zone. *)
Lemma createKey_inv d token b zone st role state ds now id atts token' res : kinv d token → enabled d zone → u8 (st_Algorithm st) = st_Algorithm st → fresh_atts d atts →
  createKey KeyTag d token b zone st role state ds now id atts = (token', res) → kinv d token' ∧ ∀ d', res = Ok d' → kinv d' token'.
Proof.
  intros Hi He Hu Hf Hc. apply createKey_spec in Hc as [Ht Hres]; [|apply Hi|done|done]. split; [by eapply kinv_token|]. intros d' Hd. destruct (Hres d' Hd) as (Hb & r & -> & Hid & Hz & _).
  split; [done|..].
  - intros z ro Hen. destruct (ki_active _ _ Hi z ro Hen) as (i & x & Hx & Hrest). exists i, x. split; [|done]. simpl. rewrite lookup_insert_ne; [done|]. intros ->. congruence.
  - intros i x. simpl. destruct (decide (i = id)) as [->|]; [rewrite lookup_insert_eq; intros [= <-] _; by rewrite Hz|rewrite lookup_insert_ne by done]. apply (ki_dark _ _ Hi).
Qed.

(** ** Enabling and disabling *)
Lemma kbase_settings d m token : kbase d token ↔ kbase (set_settings d m) token.
Proof. split; intros [A B C D E]; by split. Qed.
Lemma enabled_insert d zone row z : zd_enabled row = true → enabled (set_settings d (<[zone := row]> (d_settings d))) z ↔ z = zone ∨ enabled d z.
Proof.
  intros Hr. unfold enabled. simpl. destruct (decide (z = zone)) as [->|Hne].
  - split; [by left|]. intros _. exists row. by rewrite lookup_insert_eq.
  - rewrite lookup_insert_ne by done. naive_solver.
Qed.
Lemma validate_alg st : validate st = true → u8 (st_Algorithm st) = st_Algorithm st.
Proof.
  unfold validate. rewrite negb_true_iff, !orb_false_iff. intros [[[[Ha _] _] _] _]. apply andb_false_iff in Ha as [Ha%negb_false_iff%Z.eqb_eq|Ha%negb_false_iff%Z.eqb_eq]; by rewrite Ha.
Qed.
(** Both keys are made from different references. *)
Definition fresh_pair (d : ddb) (atts1 atts2 : list att) : Prop :=
  fresh_atts d (atts1 ++ atts2) ∧ ∀ a1 a2 ref, a1 ∈ atts1 → a2 ∈ atts2 → at_ref a1 = Some ref → at_ref a2 = Some ref → False.
Lemma Enable_inv d token b zone st now id1 id2 atts1 atts2 token' res : kinv d token → fresh_pair d atts1 atts2 →
  Enable KeyTag kind_of d token b zone st now id1 id2 atts1 atts2 = (token', res) → kinv d token' ∧ ∀ d', res = Ok d' → kinv d' token'.
Proof.
  intros Hi [Hf Hdis]. unfold Enable. destruct (Configured b); [|intros [= <- <-]; done]. cbn [negb]. set (st' := withDefaults st b). destruct (HasBackend _ _); [|intros [= <- <-]; done]. cbn [negb].
  destruct (validate st') eqn:Ev; [|intros [= <- <-]; done]. cbn [negb]. destruct (kind_of zone) as [[|]|]; [|intros [= <- <-]; done..]. set (row := settings_row st' _). set (d1 := set_settings d _).
  assert (∀ z, enabled d1 z ↔ z = zone ∨ enabled d z) as Hen by (intros z; by apply enabled_insert). change (zone_rows d1 zone) with (zone_rows d zone). case_bool_decide as Hlive; cbn [negb].
  - apply validate_alg in Ev as Hu. assert (kbase d1 token) as Hb by by apply kbase_settings, Hi. destruct (createKey _ d1 _ _ _ _ _ _ _ _ _ atts1) as [t1 r1] eqn:E1.
    pose proof (createKey_spec _ _ _ _ _ _ _ _ _ _ _ _ _ Hb Hu (λ a ref Ha, Hf a ref (proj2 (elem_of_app _ _ _) (or_introl Ha))) E1) as [Ht1 Hr1]. change (token_kept d1 token t1) with (token_kept d token t1) in Ht1.
    destruct r1 as [d2|e| |]; try (intros [= <- <-]; split; [by eapply kinv_token|done]). destruct (Hr1 d2 eq_refl) as (Hb2 & r & Ed2 & Hid & Hz & Hro & Hst & a & Ha & Eref).
    intros E2. assert (fresh_atts d2 atts2) as Hf2.
    { intros x ref Hx Ex. rewrite elem_refs_of, Ed2. simpl. intros (i & y & Hy & Ey). destruct (decide (i = id1)) as [->|].
      - rewrite lookup_insert_eq in Hy. injection Hy as <-. eapply Hdis; eauto. congruence.
      - rewrite lookup_insert_ne in Hy by done. eapply (Hf x ref); [apply elem_of_app; by right|done|]. apply elem_refs_of. by exists i, y. }
    pose proof (createKey_spec _ _ _ _ _ _ _ _ _ _ _ _ _ Hb2 Hu Hf2 E2) as [Ht2 Hr2].
    assert (token_kept d token token') as Htk.
    { intros ref Href Hin. apply Ht2; [|by apply Ht1]. apply elem_refs_of in Href as (i & y & Hy & Ey). apply elem_refs_of. exists i, y. split; [|done]. rewrite Ed2. simpl. rewrite lookup_insert_ne; [done|].
      intros ->. simpl in Hid. congruence. }
    split; [by eapply kinv_token|]. intros d' ->. destruct (Hr2 d' eq_refl) as (Hb3 & r2 & Ed3 & Hid2 & Hz2 & Hro2 & Hst2 & _).
    assert (∀ i x, d_keys d !! i = Some x → d_keys d' !! i = Some x) as Hmono.
    { intros i x Hx. rewrite Ed3. simpl. rewrite lookup_insert_ne; [|intros ->; rewrite Ed2 in Hid2; simpl in Hid2; apply lookup_insert_None in Hid2 as [? _]; congruence].
      rewrite Ed2. simpl. rewrite lookup_insert_ne; [done|]. intros ->. simpl in Hid. congruence. }
    assert (d_keys d' !! id1 = Some r) as H1'.
    { rewrite Ed3. simpl. rewrite lookup_insert_ne; [rewrite Ed2; simpl; by rewrite lookup_insert_eq|]. intros ->. rewrite Ed2 in Hid2. simpl in Hid2. by rewrite lookup_insert_eq in Hid2. }
    assert (d_keys d' !! id2 = Some r2) as H2' by (rewrite Ed3; simpl; by rewrite lookup_insert_eq).
    assert (∀ z, enabled d' z ↔ enabled d1 z) as Hen' by (intros z; rewrite Ed3, Ed2; done). split; [done|..].
    + intros z ro. rewrite Hen', Hen. intros [->|Hez]; [destruct ro; [by exists id1, r|by exists id2, r2]|]. destruct (ki_active _ _ Hi z ro Hez) as (i & x & Hx & ?). exists i, x. split; [by apply Hmono|done].
    + intros i x Hx Hl. rewrite Hen', Hen. rewrite Ed3 in Hx. simpl in Hx. destruct (decide (i = id2)) as [->|]; [rewrite lookup_insert_eq in Hx; injection Hx as <-; by left|]. rewrite lookup_insert_ne in Hx by done.
      rewrite Ed2 in Hx. simpl in Hx. destruct (decide (i = id1)) as [->|]; [rewrite lookup_insert_eq in Hx; injection Hx as <-; by left|]. rewrite lookup_insert_ne in Hx by done. right. by eapply (ki_dark _ _ Hi).
  - intros [= <- <-]. split; [done|]. intros d' [= <-]. assert (enabled d zone) as He.
    { destruct (filter _ (zone_rows d zone)) as [|x l] eqn:Ef; [done|]. assert (x ∈ x :: l) as Hin by left. rewrite <- Ef in Hin. apply list_elem_of_filter in Hin as [Hl [Hz [i Hx]]%elem_zone_rows].
      rewrite <- Hz. by eapply (ki_dark _ _ Hi). }
    assert (∀ z, enabled d1 z ↔ enabled d z) as Hen' by (intros z; rewrite Hen; naive_solver). split; [by apply kbase_settings, Hi|..].
    + intros z ro Hez. by apply (ki_active _ _ Hi), Hen'.
    + intros i x Hx Hl. apply Hen'. by eapply (ki_dark _ _ Hi).
Qed.

Lemma kinv_queue d q token : kinv d token → kinv (set_queue d q) token.
Proof. intros [[A B C D E] F G]. split; [by split|done|done]. Qed.
Lemma Disable_inv d token zone now : kinv d token → kinv (Disable d zone now) token.
Proof.
  intros Hi. unfold Disable. apply kinv_queue. set (f := disable_key zone now). set (d' := mkDdb _ _ _ _ _).
  assert (∀ r, kept_row r (f r)) as Hf by (intros r; unfold f, disable_key; destruct (_ && _); [split_and!; done|apply kept_refl]).
  assert (∀ id r', d_keys d' !! id = Some r' → ∃ r, d_keys d !! id = Some r ∧ r' = f r) as Hl by (intros id r'; simpl; rewrite lookup_fmap; intros (r & -> & Hr)%fmap_Some; by exists r).
  assert (∀ z, enabled d' z → z ≠ zone ∧ enabled d z) as Hen.
  { intros z (s & Hs & Es). simpl in Hs. destruct (decide (z = zone)) as [->|Hne].
    - rewrite lookup_alter_eq in Hs. apply fmap_Some in Hs as (x & _ & ->). done.
    - rewrite lookup_alter_ne in Hs by done. split; [done|]. by exists s. }
  assert (∀ r, live (f r) → kr_zone (f r) ≠ zone) as Hz.
  { intros r. unfold f, disable_key. case_bool_decide; simpl; [|done]. case_bool_decide; unfold live; simpl; tauto. }
  eapply kinv_kept; [done|split|..].
  - intros id r' (r & Hr & ->)%Hl. by exists r.
  - intros id [r Hr]. simpl. rewrite lookup_fmap, Hr. by eexists.
  - intros z ro [Hne He]%Hen. destruct (ki_active _ _ Hi z ro He) as (id & r & Hr & Hrz & Hrest). exists id, r. split; [|done]. simpl. rewrite lookup_fmap, Hr. simpl. unfold f, disable_key.
    rewrite bool_decide_eq_false_2 by congruence. done.
  - intros id r' (r & Hr & ->)%Hl Hlv (s & Hs & Es). exists s. split; [|done]. simpl. rewrite lookup_alter_ne; [done|]. intros E. by apply (Hz r Hlv).
Qed.
Lemma same_keys_inv d d' token : kinv d token → (∀ id r', d_keys d' !! id = Some r' → ∃ r, d_keys d !! id = Some r ∧ kept_row r r' ∧ kr_state r' = kr_state r) →
  (∀ id, is_Some (d_keys d !! id) → is_Some (d_keys d' !! id)) → (∀ z, enabled d' z ↔ enabled d z) → kinv d' token.
Proof.
  intros Hi Hk Hd Hen. eapply kinv_kept; [done|split; [|done]|..].
  - intros id r' (r & Hr & ? & _)%Hk. by exists r.
  - intros z ro He%Hen. destruct (ki_active _ _ Hi z ro He) as (id & r & Hr & Hz & Hro & Hs). destruct (Hd id ltac:(by eexists)) as [r' Hr']. destruct (Hk id r' Hr') as (r2 & Hr2 & (_ & Ez & Ero & _) & Es).
    assert (r2 = r) as -> by congruence. exists id, r'. split_and!; congruence.
  - intros id r' _ _. by rewrite Hen.
Qed.
Lemma ConfirmDS_inv d token zone keyID now d' : kinv d token → ConfirmDS d zone keyID now = Ok d' → kinv d' token.
Proof.
  intros Hi. unfold ConfirmDS. destruct (d_keys d !! keyID) as [r|] eqn:Er; [|done]. destruct (_ && _ && _ && _); [|done]. intros [= <-].
  apply (same_keys_inv d); [done|..|done].
  - intros id r'. simpl. destruct (decide (id = keyID)) as [->|]; [rewrite lookup_insert_eq; intros [= <-]; exists r; by split_and!|rewrite lookup_insert_ne by done; intros Hr'; exists r'; split_and!; [done|apply kept_refl|done]].
  - intros id. simpl. rewrite lookup_insert_is_Some'. by right.
Qed.

(** ** Rollovers *)
Lemma loadSettings_enabled d b zone st : loadSettings d b zone = (st, true) → enabled d zone ∧ u8 (st_Algorithm st) = st_Algorithm st.
Proof.
  unfold loadSettings. destruct (d_settings d !! zone) as [s|] eqn:Es; [|done]. intros [= <- E]. split; [by exists s|]. simpl. unfold u8. by rewrite Zmod_mod.
Qed.
Lemma StartRollover_inv d token b zone role now id atts token' res : kinv d token → fresh_atts d atts →
  StartRollover KeyTag d token b zone role now id atts = (token', res) → kinv d token' ∧ ∀ d', res = Ok d' → kinv d' token'.
Proof.
  intros Hi Hf. unfold StartRollover. destruct (loadSettings d b zone) as [st en] eqn:El. destruct en; cbn [negb]; [|intros [= <- <-]; done].
  apply loadSettings_enabled in El as [He Hu].
  destruct role; (destruct (_ <? _)%nat || destruct (_ <=? _)%nat); try (intros [= <- <-]; done); by apply createKey_inv.
Qed.
(** One update per transition, in any order. *)
Lemma advance_loop_spec old out d : NoDup (map k_ID out) → length old = length out → let d' := advance_loop d old out in
  d_settings d' = d_settings d ∧ (∀ id, id ∉ map k_ID out → d_keys d' !! id = d_keys d !! id) ∧
  (∀ i o k r, old !! i = Some o → out !! i = Some k → d_keys d !! k_ID k = Some r → d_keys d' !! k_ID k = Some (if bool_decide (k_State k = k_State o) then r else moved_row k r)).
Proof.
  cbv zeta. revert out d. induction old as [|o old IH]; intros [|k out] d Hnd Hlen; try done. cbn [map] in Hnd. apply NoDup_cons in Hnd as [Hn Hnd]. injection Hlen as Hlen. simpl.
  set (d1 := if bool_decide (k_State k = k_State o) then d else _).
  assert (d_settings d1 = d_settings d ∧ (∀ id, id ≠ k_ID k → d_keys d1 !! id = d_keys d !! id) ∧
    (∀ r, d_keys d !! k_ID k = Some r → d_keys d1 !! k_ID k = Some (if bool_decide (k_State k = k_State o) then r else moved_row k r))) as (Es & Eo & Ek).
  { unfold d1. case_bool_decide; [by split_and!|]. destruct (d_keys d !! k_ID k) as [r|] eqn:Er; [|by split_and!].
    case_bool_decide; (split_and!; [done| |]); simpl; (intros id Hid; by rewrite lookup_insert_ne by done) || (intros x [= <-]; by rewrite lookup_insert_eq). }
  destruct (IH out d1 Hnd Hlen) as (IH1 & IH2 & IH3). split_and!.
  - by rewrite IH1.
  - intros id Hid. rewrite elem_of_cons in Hid. rewrite IH2 by tauto. apply Eo. tauto.
  - intros [|i] o' k' r Ho Hk Hr; simpl in *.
    + injection Ho as ->. injection Hk as ->. rewrite IH2 by done. by apply Ek.
    + apply (IH3 i); [done..|]. rewrite Eo; [done|]. intros E. apply Hn. rewrite <- E. apply list_elem_of_fmap. exists k'. split; [done|]. by eapply list_elem_of_lookup_2.
Qed.
Lemma moves_ids p now l l' : moves p now l l' → map k_ID l' = map k_ID l.
Proof.
  induction 1 as [|k k' l l' Hk _ IH]; [done|]. cbn [map]. rewrite IH. f_equal. clear IH. induction Hk as [|x y z Hxy _ IH]; [done|]. rewrite IH. by destruct Hxy.
Qed.
Lemma elem_live_rows d zone r : r ∈ live_rows d zone ↔ live r ∧ kr_zone r = zone ∧ ∃ id, d_keys d !! id = Some r.
Proof. unfold live_rows. by rewrite sort_on_perm, list_elem_of_filter, elem_zone_rows. Qed.
Lemma live_ids d token zone : kbase d token → NoDup (map kr_id (live_rows d zone)).
Proof.
  intros Hb. assert (NoDup (live_rows d zone)) as Hnd.
  { unfold live_rows, zone_rows. rewrite sort_on_perm. do 2 apply NoDup_filter. apply (NoDup_fmap_1 kr_id). change (map snd ?l) with (snd <$> l). rewrite <- list_fmap_compose.
    replace (_ <$> map_to_list (d_keys d)) with (map_to_list (d_keys d)).*1; [apply NoDup_fst_map_to_list|]. apply list_fmap_ext. intros i [id r] Hr. simpl. symmetry.
    eapply (ki_id _ _ Hb), elem_of_map_to_list, list_elem_of_lookup_2. done. }
  apply NoDup_fmap_2_strong; [|done]. intros r s (_ & _ & i & Hr)%elem_live_rows (_ & _ & j & Hs)%elem_live_rows E.
  pose proof (ki_id _ _ Hb _ _ Hr). pose proof (ki_id _ _ Hb _ _ Hs). congruence.
Qed.
(** The rows after the transitions. *)
Lemma advance_rows d token zone p now out act next : kbase d token → Advance (loadKeyStates d zone) p now = (out, act, next) →
  let d' := advance_loop d (loadKeyStates d zone) out in
  d_settings d' = d_settings d ∧ kept_keys d d' ∧ (∀ id r, d_keys d !! id = Some r → kr_zone r ≠ zone → d_keys d' !! id = Some r) ∧
  ∀ k, k ∈ out → ∃ r', d_keys d' !! k_ID k = Some r' ∧ kr_zone r' = zone ∧ kr_role r' = k_Role k ∧ kr_state r' = k_State k.
Proof.
  intros Hb E. apply Advance_advanced in E as [Hm _ _ _ _ _]. cbv zeta. set (keys := loadKeyStates d zone) in *. pose proof (moves_ids _ _ _ _ Hm) as Eids.
  assert (map k_ID out = map kr_id (live_rows d zone)) as Eids' by (rewrite Eids; unfold keys, loadKeyStates; by rewrite map_map).
  destruct (advance_loop_spec keys out d) as (E1 & E2 & E3); [rewrite Eids'; by eapply live_ids|by eapply Forall2_length|]. set (d' := advance_loop _ _ _) in *.
  assert (∀ i k, out !! i = Some k → ∃ r, live_rows d zone !! i = Some r ∧ d_keys d !! k_ID k = Some r ∧ k_ID k = kr_id r ∧ k_Role k = kr_role r ∧
    d_keys d' !! k_ID k = Some (if bool_decide (k_State k = kr_state r) then r else moved_row k r)) as Hrow.
  { intros i k Hk. destruct (moves_lookup _ _ _ _ _ _ Hm Hk) as (o & Ho & Hmv). pose proof Ho as (r & -> & Hr)%list_lookup_fmap_Some_1. apply move_kept in Hmv as [Hro _].
    assert (k_ID k = kr_id r) as Ek. { assert (map k_ID out !! i = map kr_id (live_rows d zone) !! i) as X by by rewrite Eids'. rewrite !list_lookup_fmap in X. change (map ?f ?l) with (f <$> l) in X. rewrite Hk, Hr in X. by injection X. }
    assert (r ∈ live_rows d zone) as (_ & _ & id & Hid)%elem_live_rows by by eapply list_elem_of_lookup_2.
    assert (d_keys d !! k_ID k = Some r) as Hkr by (rewrite Ek, (ki_id _ _ Hb _ _ Hid); done). exists r. split_and!; [done..|]. by apply (E3 i (row_state r) k r). }
  assert (∀ k, k ∈ out → ∃ r, r ∈ live_rows d zone ∧ d_keys d !! k_ID k = Some r ∧ k_ID k = kr_id r ∧ k_Role k = kr_role r ∧
    d_keys d' !! k_ID k = Some (if bool_decide (k_State k = kr_state r) then r else moved_row k r)) as Hrow'.
  { intros k [i Hk]%list_elem_of_lookup. destruct (Hrow i k Hk) as (r & Hr & ?). exists r. split; [by eapply list_elem_of_lookup_2|done]. }
  split; [done|]. split; [split|split].
  - intros id r' Hr'. destruct (decide (id ∈ map k_ID out)) as [(k & -> & Hk)%list_elem_of_fmap|Hn]; [|rewrite E2 in Hr' by done; exists r'; split; [done|apply kept_refl]].
    destruct (Hrow' k Hk) as (r & (Hl & _)%elem_live_rows & Hr & _ & _ & Hd). exists r. split; [done|]. rewrite Hd in Hr'. injection Hr' as <-. case_bool_decide; [apply kept_refl|by split_and!].
  - intros id [r Hr]. destruct (decide (id ∈ map k_ID out)) as [(k & -> & Hk)%list_elem_of_fmap|Hn]; [|rewrite E2 by done; by eexists]. destruct (Hrow' k Hk) as (? & _ & _ & _ & _ & ->). by eexists.
  - intros id r Hr Hz. rewrite E2; [done|]. intros (k & -> & Hk)%list_elem_of_fmap. destruct (Hrow' k Hk) as (x & (_ & ? & _)%elem_live_rows & Hx & _). congruence.
  - intros k Hk. destruct (Hrow' k Hk) as (r & (_ & Hz & _)%elem_live_rows & _ & _ & Hro & Hd). eexists. split; [done|]. by case_bool_decide.
Qed.
Lemma enabled_ext d d' z : d_settings d' = d_settings d → enabled d' z ↔ enabled d z.
Proof. unfold enabled. by intros ->. Qed.
Lemma advance_inv d token b zone soaTTL maxTTL now id atts token' res : kinv d token → fresh_atts d atts →
  advance KeyTag d token b zone soaTTL maxTTL now id atts = (token', res) → kinv d token' ∧ ∀ d', res = Ok d' → kinv d' token'.
Proof.
  intros Hi Hf. unfold advance. destruct (loadSettings d b zone) as [st en] eqn:El. destruct en; cbn [negb]; [|intros [= <- <-]; split; [done|]; by intros d' [= <-]].
  apply loadSettings_enabled in El as [He Hu]. set (p := policyOf _ _ _). destruct (Advance _ p now) as [[out act] next] eqn:E.
  destruct (advance_rows _ _ _ _ _ _ _ _ (ki_base _ _ Hi) E) as (Es & Hk & Ho & Hrow). set (d1 := advance_loop _ _ _) in *.
  assert (kinv d1 token) as Hi1.
  { eapply kinv_kept; [done..| |]; [|intros ? ? _ _; by rewrite enabled_ext]. intros z ro Hz. rewrite enabled_ext in Hz by done. destruct (ki_active _ _ Hi z ro Hz) as (i & r & Hr & Erz & Ero & Hs).
    destruct (decide (z = zone)) as [->|]; [|exists i, r; split; [apply Ho; congruence|done]]. assert (row_state r ∈ loadKeyStates d zone) as [j Hj]%list_elem_of_lookup.
    { apply list_elem_of_fmap. exists r. split; [done|]. apply elem_live_rows. split_and!; [unfold live; by rewrite Hs|done|by exists i]. }
    pose proof (Advance_never_dark _ p now ro j _ Hj Ero Hs) as Hd. rewrite E in Hd. destruct Hd as (j' & k' & Hk' & Hro' & Hs'). destruct (Hrow k') as (r' & ? & ? & ? & ?); [by eapply list_elem_of_lookup_2|].
    exists (k_ID k'), r'. split_and!; congruence. }
  assert (∀ ref, ref ∈ refs_of d1 → ref ∈ refs_of d) as Hrefs.
  { intros ref (i & r' & (r & Hr & Kr)%(proj1 Hk) & <-)%elem_refs_of. apply elem_refs_of. exists i, r. split; [done|]. symmetry. apply Kr. }
  destruct (CreateZSK act); [|intros [= <- <-]; split; [done|]; by intros d' [= <-]]. intros Hc. assert (fresh_atts d1 atts) as Hf1 by (intros a ref Ha Ea Hin; eapply Hf; eauto).
  assert (enabled d1 zone) as He1 by by apply (enabled_ext d).
  split; [|by apply (createKey_inv _ _ _ _ _ _ _ _ _ _ _ _ _ Hi1 He1 Hu Hf1 Hc)]. apply createKey_spec in Hc as [Ht _]; [|apply Hi1|done|done]. eapply kinv_token; [done|]. intros ref Href. apply Ht.
  apply elem_refs_of in Href as (i & r & Hr & <-). destruct (proj2 Hk i ltac:(by eexists)) as [r' Hr']. destruct (proj1 Hk i r' Hr') as (r2 & Hr2 & Kr). apply elem_refs_of. exists i, r'. split; [done|].
  assert (r2 = r) as -> by congruence. apply Kr.
Qed.
Lemma Update_inv d token b zone zrev rev en st now id1 id2 atts1 atts2 token' res : kinv d token → fresh_pair d atts1 atts2 →
  Update KeyTag kind_of d token b zone zrev rev en st now id1 id2 atts1 atts2 = (token', res) → kinv d token' ∧ ∀ d', res = Ok d' → kinv d' token'.
Proof.
  intros Hi Hf. unfold Update. destruct (negb _); [intros [= <- <-]; done|]. destruct (loadSettings d b zone) as [cur was]. destruct en.
  - destruct (_ && _); [intros [= <- <-]; done|]. by apply Enable_inv.
  - intros [= <- <-]. split; [done|]. intros d' [= <-]. by apply Disable_inv.
Qed.

(** ** What one operation does

    It changes rows of its zone only, adds keys with references it drew, and touches only those in
    the token. *)
Definition refs_in (atts : list att) : gset bytes := list_to_set (omap at_ref atts).
Lemma elem_refs_in atts ref : ref ∈ refs_in atts ↔ ∃ a, a ∈ atts ∧ at_ref a = Some ref.
Proof. unfold refs_in. by rewrite elem_of_list_to_set, list_elem_of_omap. Qed.
Definition same_token (refs token token' : gset bytes) : Prop := ∀ ref, ref ∉ refs → ref ∈ token ↔ ref ∈ token'.
Record ran (d d' : ddb) (zone : bytes) (refs : gset bytes) : Prop := {
  rn_rows : ∀ id r', d_keys d' !! id = Some r' → (∃ r, d_keys d !! id = Some r ∧ kept_row r r') ∨ (d_keys d !! id = None ∧ kr_ref r' ∈ refs ∧ kr_zone r' = zone);
  rn_kept : ∀ id, is_Some (d_keys d !! id) → is_Some (d_keys d' !! id);
  rn_other : ∀ id r, d_keys d !! id = Some r → kr_zone r ≠ zone → d_keys d' !! id = Some r;
  rn_settings : ∀ z, z ≠ zone → d_settings d' !! z = d_settings d !! z;
  rn_queue : ∀ ref, ref ∈ d_queue d' → ref ∈ d_queue d ∨ ref ∈ refs_of d ∨ ref ∈ refs;
  rn_orphans : d_orphans d' = d_orphans d }.
Lemma ran_refs d d' zone refs ref : ran d d' zone refs → ref ∈ refs_of d' → ref ∈ refs_of d ∨ ref ∈ refs.
Proof.
  intros Hr (id & r' & Hr' & <-)%elem_refs_of. destruct (rn_rows _ _ _ _ Hr _ _ Hr') as [(r & Hi & K)|(_ & ? & _)]; [left|by right].
  apply elem_refs_of. exists id, r. split; [done|]. symmetry. apply K.
Qed.
Lemma ran_refl d zone refs : ran d d zone refs.
Proof. split; try done; [|by left]. intros id r Hr. left. exists r. split; [done|apply kept_refl]. Qed.
Lemma ran_mono d d' zone R R' : R ⊆ R' → ran d d' zone R → ran d d' zone R'.
Proof. intros HR [A B C D E F]. split; try done. - intros id r [?|(? & ? & ?)]%A; [by left|right; split_and!; [done|set_solver|done]]. - intros ref [?|[?|?]]%E; [by left|right; by left|right; right; set_solver]. Qed.
Lemma ran_trans d1 d2 d3 zone R : ran d1 d2 zone R → ran d2 d3 zone R → ran d1 d3 zone R.
Proof.
  intros H1 H2. split.
  - intros id r3 H3. destruct (rn_rows _ _ _ _ H2 _ _ H3) as [(r2 & E2 & K2)|(E2 & Hr & Hz)].
    + destruct K2 as (? & Kz & ? & ? & ? & ? & ? & Kr & Kl). destruct (rn_rows _ _ _ _ H1 _ _ E2) as [(r1 & E1 & K1)|(E1 & Hr & Hz)].
      * left. exists r1. split; [done|]. destruct K1 as (? & ? & ? & ? & ? & ? & ? & ? & ?). split_and!; try congruence. tauto.
      * right. split_and!; congruence.
    + right. split_and!; [|done..]. destruct (d_keys d1 !! id) as [r1|] eqn:E1; [|done]. destruct (rn_kept _ _ _ _ H1 id) as [x Hx]; [by eexists|congruence].
  - intros id Hid. by apply (rn_kept _ _ _ _ H2), (rn_kept _ _ _ _ H1).
  - intros id r Hr Hz. apply (rn_other _ _ _ _ H2); [by apply (rn_other _ _ _ _ H1)|done].
  - intros z Hz. by rewrite (rn_settings _ _ _ _ H2), (rn_settings _ _ _ _ H1).
  - intros ref [Hq|[Hq|Hq]]%(rn_queue _ _ _ _ H2); [by apply (rn_queue _ _ _ _ H1)| |by right; right]. right. by eapply ran_refs.
  - by rewrite (rn_orphans _ _ _ _ H2), (rn_orphans _ _ _ _ H1).
Qed.
Lemma same_token_trans R t1 t2 t3 : same_token R t1 t2 → same_token R t2 t3 → same_token R t1 t3.
Proof. intros H1 H2 ref Hr. by rewrite (H1 ref Hr), (H2 ref Hr). Qed.
Lemma destroy_same b k token ok token' R : sk_KeyRef k ∈ R → DestroySigningKey b k token ok = Ok token' → same_token R token token'.
Proof. intros Hk [-> | ->]%destroy_Ok ref Hr; [done|]. assert (ref ≠ sk_KeyRef k) by set_solver. set_solver. Qed.
Lemma create_ran n d token b zone st role state ds now id atts token' res R : refs_in atts ⊆ R → create_loop KeyTag n d token b zone st role state ds now id atts = (token', res) →
  same_token R token token' ∧ ∀ d', res = Ok d' → ran d d' zone R.
Proof.
  revert token atts. induction n as [|n IH]; intros token atts HR; simpl; [intros [= <- <-]; split; [by intros ref|done]|]. destruct atts as [|a atts]; [intros [= <- <-]; split; [by intros ref|done]|].
  destruct (gen_attempt _ _ _ a) as [sk|e| |] eqn:Eg; try (intros [= <- <-]; split; [by intros ref|done]). apply gen_attempt_Ok in Eg as (Er & _).
  assert (sk_KeyRef sk ∈ R) as Hin by (apply HR, elem_refs_in; exists a; split; [by left|done]). assert (refs_in atts ⊆ R) as HR' by (intros ref (x & Hx & Ex)%elem_refs_in; apply HR, elem_refs_in; exists x; split; [by right|done]).
  assert (same_token R token (with_key sk token)) as Hw by (intros ref Href; unfold with_key; case_bool_decide; [|done]; assert (ref ≠ sk_KeyRef sk) by set_solver; set_solver). set (tag := KeyTag _). case_bool_decide.
  - destruct (DestroySigningKey _ _ _ _) as [t1|e| |] eqn:Ed; try (intros [= <- <-]; split; [done|done]). intros [Hs Hres]%IH; [|done]. split; [|done]. apply (destroy_same _ _ _ _ _ R) in Ed; [|done]. by eapply same_token_trans, same_token_trans.
  - intros [= <- <-]. split; [done|]. intros d' (Hid & Hfr & ->)%insert_key_Ok. set (r := key_of _ _ _ _ _ _ _ _) in *. change (kr_id r) with id in *. split; try done; [| | |by left].
    + intros i x. simpl. destruct (decide (i = id)) as [->|]; [rewrite lookup_insert_eq; intros [= <-]; by right|rewrite lookup_insert_ne by done; intros Hx; left; exists x; split; [done|apply kept_refl]].
    + intros i Hi. simpl. apply lookup_insert_is_Some'. by right.
    + intros i x Hx _. simpl. rewrite lookup_insert_ne; [done|congruence].
Qed.
Lemma Enable_ran d token b zone st now id1 id2 atts1 atts2 token' res R : refs_in atts1 ∪ refs_in atts2 ⊆ R → Enable KeyTag kind_of d token b zone st now id1 id2 atts1 atts2 = (token', res) →
  same_token R token token' ∧ ∀ d', res = Ok d' → ran d d' zone R.
Proof.
  intros HR. unfold Enable. destruct (negb _); [intros [= <- <-]; by split|]. destruct (negb _); [intros [= <- <-]; by split|]. destruct (negb _); [intros [= <- <-]; by split|].
  destruct (kind_of zone) as [[|]|]; [|intros [= <- <-]; by split..]. set (d1 := set_settings d _).
  assert (ran d d1 zone R) as H1. { split; try done; [|intros z Hz; simpl; by rewrite lookup_insert_ne|by left]. intros id r Hr. left. exists r. split; [done|apply kept_refl]. }
  destruct (negb _); [intros [= <- <-]; split; [done|by intros d' [= <-]]|]. destruct (createKey _ d1 _ _ _ _ _ _ _ _ _ atts1) as [t1 r1] eqn:E1. apply (create_ran _ _ _ _ _ _ _ _ _ _ _ _ _ _ R) in E1 as [T1 R1]; [|set_solver].
  destruct r1 as [d2|e| |]; try (intros [= <- <-]; by split). intros [T2 R2]%(create_ran _ _ _ _ _ _ _ _ _ _ _ _ _ _ R); [|set_solver]. split; [by eapply same_token_trans|]. intros d' Hd. eapply ran_trans; [exact H1|]. eapply ran_trans; [by apply R1|by apply R2].
Qed.
Lemma elem_enqueue q r ref : ref ∈ enqueue q r → ref ∈ q ∨ ref = kr_ref r.
Proof. unfold enqueue. destruct (_ && _); [|by left]. intros [?| ->%list_elem_of_singleton]%elem_of_app; [by left|by right]. Qed.
Lemma elem_enqueued d rows ref : ref ∈ d_queue (enqueueDestruction d rows) → ref ∈ d_queue d ∨ ∃ r, r ∈ rows ∧ kr_ref r = ref.
Proof.
  unfold enqueueDestruction. simpl. generalize (d_queue d). induction rows as [|r rows IH]; intros q; simpl; [by left|]. intros [[?| ->]%elem_enqueue|(x & ? & ?)]%IH; [by left|right; exists r; split; [by left|done]|right; exists x; split; [by right|done]].
Qed.
Lemma Disable_ran d zone now R : ran d (Disable d zone now) zone R.
Proof.
  assert (∀ r, kept_row r (disable_key zone now r)) as Hf by (intros r; unfold disable_key; destruct (_ && _); [split_and!; done|apply kept_refl]). unfold Disable. split; [| | | | |done].
  - intros id r' Hr'. simpl in Hr'. rewrite lookup_fmap in Hr'. apply fmap_Some in Hr' as (r & Hr & ->). left. by exists r.
  - intros id [r Hr]. simpl. rewrite lookup_fmap, Hr. by eexists.
  - intros id r Hr Hz. simpl. rewrite lookup_fmap, Hr. simpl. unfold disable_key. by rewrite bool_decide_eq_false_2.
  - intros z Hz. simpl. by rewrite lookup_alter_ne.
  - intros ref [?|(r & Hr & <-)]%elem_enqueued; [by left|right; left]. apply list_elem_of_filter in Hr as [_ (_ & id & Hid)%elem_zone_rows]. apply elem_refs_of. by exists id, r.
Qed.
Lemma ConfirmDS_ran d zone keyID now d' R : ConfirmDS d zone keyID now = Ok d' → ran d d' zone R.
Proof.
  unfold ConfirmDS. destruct (d_keys d !! keyID) as [r|] eqn:Er; [|done]. case_bool_decide as Hz; [|done]. destruct (_ && _ && _); [|done]. intros [= <-]. split; try done; [| | |by left].
  - intros id r'. simpl. destruct (decide (id = keyID)) as [->|]; [rewrite lookup_insert_eq; intros [= <-]; left; exists r; by split_and!|rewrite lookup_insert_ne by done; intros Hr'; left; exists r'; split; [done|apply kept_refl]].
  - intros id Hid. simpl. apply lookup_insert_is_Some'. by right.
  - intros id x Hx Hxz. simpl. rewrite lookup_insert_ne; [done|congruence].
Qed.
Lemma advance_loop_queue old out d : let d' := advance_loop d old out in d_orphans d' = d_orphans d ∧ ∀ ref, ref ∈ d_queue d' → ref ∈ d_queue d ∨ ref ∈ refs_of d.
Proof.
  cbv zeta. revert out d. induction old as [|o old IH]; intros [|k out] d; simpl; try (split; [done|by left]). set (d1 := if bool_decide (k_State k = k_State o) then d else _).
  destruct (IH out d1) as [Eo Eq].
  assert (d_orphans d1 = d_orphans d ∧ (∀ ref, ref ∈ refs_of d1 → ref ∈ refs_of d) ∧ ∀ ref, ref ∈ d_queue d1 → ref ∈ d_queue d ∨ ref ∈ refs_of d) as (E1 & E2 & E3); [|split; [congruence|intros ref [?|?]%Eq; auto]].
  unfold d1. case_bool_decide; [split_and!; [done..|by left]|]. destruct (d_keys d !! k_ID k) as [r|] eqn:Er; [|split_and!; [done..|by left]].
  assert (∀ ref, ref ∈ refs_of (set_keys d (<[k_ID k := moved_row k r]> (d_keys d))) → ref ∈ refs_of d) as Hrefs.
  { intros ref (i & x & Hx & <-)%elem_refs_of. simpl in Hx. apply elem_refs_of. destruct (decide (i = k_ID k)) as [->|]; [rewrite lookup_insert_eq in Hx; injection Hx as <-; by exists (k_ID k), r|rewrite lookup_insert_ne in Hx by done; by exists i, x]. }
  case_bool_decide; (split_and!; [done|done|]); [|by left]. intros ref [?|(x & ->%list_elem_of_singleton & <-)]%elem_enqueued; [by left|right]. apply elem_refs_of. by exists (k_ID k), r.
Qed.
Lemma advance_ran d token b zone soaTTL maxTTL now id atts token' res R : kbase d token → refs_in atts ⊆ R → advance KeyTag d token b zone soaTTL maxTTL now id atts = (token', res) →
  same_token R token token' ∧ ∀ d', res = Ok d' → ran d d' zone R.
Proof.
  intros Hb HR. unfold advance. destruct (loadSettings d b zone) as [st en]. destruct (negb en); [intros [= <- <-]; split; [done|intros d' [= <-]; apply ran_refl]|].
  destruct (Advance _ _ now) as [[out act] next] eqn:E. destruct (advance_rows _ _ _ _ _ _ _ _ Hb E) as (Es & Hk & Ho & _). destruct (advance_loop_queue (loadKeyStates d zone) out d) as [Eo Eq]. set (d1 := advance_loop _ _ _) in *.
  assert (ran d d1 zone R) as H1. { split; [|apply Hk|apply Ho| | |done]. - intros i r' Hr'. left. by apply Hk. - intros z _. by rewrite Es. - intros ref [?|?]%Eq; [by left|right; by left]. }
  destruct (CreateZSK act); [|intros [= <- <-]; split; [done|by intros d' [= <-]]]. intros [Ht Hr]%(create_ran _ _ _ _ _ _ _ _ _ _ _ _ _ _ R); [|done]. split; [done|]. intros d' Hd. eapply ran_trans; [exact H1|by apply Hr].
Qed.

(** ** Operations *)
Inductive kop :=
| OpEnable (b : option Box) (zone : bytes) (st : Settings) (now : Z) (id1 id2 : bytes) (atts1 atts2 : list att)
| OpDisable (zone : bytes) (now : Z)
| OpUpdate (b : option Box) (zone : bytes) (zrev rev : Z) (en : bool) (st : Settings) (now : Z) (id1 id2 : bytes) (atts1 atts2 : list att)
| OpStartRollover (b : option Box) (zone : bytes) (role : Role) (now : Z) (id : bytes) (atts : list att)
| OpConfirmDS (zone keyID : bytes) (now : Z)
| OpAdvance (b : option Box) (zone : bytes) (soaTTL maxTTL now : Z) (id : bytes) (atts : list att)
| OpEdit (zone : bytes).
(** An edit of the records of a zone leaves the keys as they are. *)
Definition run_op (op : kop) (d : ddb) (token : gset bytes) : gset bytes * kres ddb :=
  match op with
  | OpEnable b zone st now id1 id2 atts1 atts2 => Enable KeyTag kind_of d token b zone st now id1 id2 atts1 atts2
  | OpDisable zone now => (token, Ok (Disable d zone now))
  | OpUpdate b zone zrev rev en st now id1 id2 atts1 atts2 => Update KeyTag kind_of d token b zone zrev rev en st now id1 id2 atts1 atts2
  | OpStartRollover b zone role now id atts => StartRollover KeyTag d token b zone role now id atts
  | OpConfirmDS zone keyID now => (token, ConfirmDS d zone keyID now)
  | OpAdvance b zone soaTTL maxTTL now id atts => advance KeyTag d token b zone soaTTL maxTTL now id atts
  | OpEdit zone => (token, Ok d)
  end.
Definition op_zone (op : kop) : bytes :=
  match op with
  | OpEnable _ zone _ _ _ _ _ _ | OpDisable zone _ | OpUpdate _ zone _ _ _ _ _ _ _ _ _ | OpStartRollover _ zone _ _ _ _ | OpConfirmDS zone _ _ | OpAdvance _ zone _ _ _ _ _ | OpEdit zone => zone
  end.
(** The references an operation draws at random. *)
Definition op_refs (op : kop) : gset bytes :=
  match op with
  | OpEnable _ _ _ _ _ _ atts1 atts2 | OpUpdate _ _ _ _ _ _ _ _ _ atts1 atts2 => refs_in atts1 ∪ refs_in atts2
  | OpStartRollover _ _ _ _ _ atts | OpAdvance _ _ _ _ _ _ atts => refs_in atts
  | OpDisable _ _ | OpConfirmDS _ _ _ | OpEdit _ => ∅
  end.
(** None of them was drawn before, and the two keys of a new zone draw different ones. *)
Definition fresh_op (drawn : gset bytes) (op : kop) : Prop :=
  op_refs op ## drawn ∧
  match op with OpEnable _ _ _ _ _ _ atts1 atts2 | OpUpdate _ _ _ _ _ _ _ _ _ atts1 atts2 => refs_in atts1 ## refs_in atts2 | _ => True end.
Lemma fresh_atts_in d atts drawn : (∀ ref, ref ∈ refs_of d → ref ∈ drawn) → refs_in atts ## drawn → fresh_atts d atts.
Proof. intros Hd Hf a ref Ha Er Href%Hd. eapply Hf; [|done]. apply elem_refs_in. by exists a. Qed.
Lemma fresh_pair_in d atts1 atts2 drawn : (∀ ref, ref ∈ refs_of d → ref ∈ drawn) → refs_in atts1 ∪ refs_in atts2 ## drawn → refs_in atts1 ## refs_in atts2 → fresh_pair d atts1 atts2.
Proof.
  intros Hd Hf Hdis. split.
  - intros a ref [Ha|Ha]%elem_of_app Er Href%Hd; (eapply Hf; [|done]); apply elem_of_union; [left|right]; apply elem_refs_in; by exists a.
  - intros a1 a2 ref H1 H2 E1 E2. eapply (Hdis ref); apply elem_refs_in; [by exists a1|by exists a2].
Qed.
Lemma kop_inv op d token token' res drawn : kinv d token → (∀ ref, ref ∈ refs_of d → ref ∈ drawn) → fresh_op drawn op → run_op op d token = (token', res) →
  same_token (op_refs op) token token' ∧ ∀ d', res = Ok d' → kinv d' token' ∧ ran d d' (op_zone op) (op_refs op).
Proof.
  intros Hi Hd [Hf Hp] E. destruct op; simpl in *.
  - destruct (Enable_ran _ _ _ _ _ _ _ _ _ _ _ _ _ (reflexivity _) E) as [Ht Hr]. split; [done|]. apply Enable_inv in E as [_ Hk]; [|done|by eapply fresh_pair_in]. intros d' Hd'. split; [by apply Hk|by apply Hr].
  - injection E as <- <-. split; [done|]. intros d' [= <-]. split; [by apply Disable_inv|apply Disable_ran].
  - assert (kinv d token' ∧ ∀ d', res = Ok d' → kinv d' token') as [_ Hk] by (eapply Update_inv; [done|by eapply fresh_pair_in|done]). unfold Update in E. destruct (negb _); [injection E as <- <-; by split|].
    destruct (loadSettings d b zone) as [cur was]. destruct en.
    + destruct (_ && _); [injection E as <- <-; by split|]. destruct (Enable_ran _ _ _ _ _ _ _ _ _ _ _ _ _ (reflexivity _) E) as [Ht Hr]. split; [done|]. intros d' Hd'. split; [by apply Hk|by apply Hr].
    + injection E as <- <-. split; [done|]. intros d' [= <-]. split; [by apply Hk|apply Disable_ran].
  - assert (kinv d token' ∧ ∀ d', res = Ok d' → kinv d' token') as [_ Hk] by (eapply StartRollover_inv; [done|by eapply fresh_atts_in|done]). unfold StartRollover in E. destruct (loadSettings d b zone) as [st en].
    destruct (negb en); [injection E as <- <-; by split|].
    destruct role; (destruct (_ <? _)%nat || destruct (_ <=? _)%nat); try (injection E as <- <-; by split);
      (apply (create_ran _ _ _ _ _ _ _ _ _ _ _ _ _ _ (refs_in atts)) in E as [Ht Hr]; [|done]; split; [done|]; intros d' Hd'; split; [by apply Hk|by apply Hr]).
  - injection E as <- <-. split; [done|]. intros d' Hd'. split; [by eapply ConfirmDS_inv|by eapply ConfirmDS_ran].
  - destruct (advance_ran _ _ _ _ _ _ _ _ _ _ _ _ (ki_base _ _ Hi) (reflexivity _) E) as [Ht Hr]. split; [done|]. apply advance_inv in E as [_ Hk]; [|done|by eapply fresh_atts_in]. intros d' Hd'. split; [by apply Hk|by apply Hr].
  - injection E as <- <-. split; [done|]. intros d' [= <-]. split; [done|apply ran_refl].
Qed.

(** ** Everything interleaved

    A transaction on a zone holds the lock of the zone (FOR UPDATE) until it ends; its writes are
    its own until it commits, but the keys it made are in the token at once.  A sweep lists the
    token, then runs its transaction, then destroys what was due one by one; a run of the
    destruction queue reads the queue, then destroys one by one. *)
Record txn := mkTxn { tx_zone : bytes; tx_began : Z; tx_db : ddb; tx_queued : list bytes; tx_refs : gset bytes }.
Inductive job := JTx (t : txn) | JListed (refs : gset bytes) | JDue (due : list bytes) | JBatch (batch : list (bytes * bool)).
(** The clock, the committed database, the token, the references drawn so far and when, and what is under way. *)
Record kst := mkKst { k_now : Z; k_db : ddb; k_token : gset bytes; k_drawn : gmap bytes Z; k_jobs : gmap nat job }.
Definition unlocked (jobs : gmap nat job) (zone : bytes) : Prop := ∀ i t, jobs !! i = Some (JTx t) → tx_zone t ≠ zone.
(** The rows a commit leaves: those of the zone are the transaction's, the others what they have become meanwhile; ids are unique. *)
Definition rows_of (zone : bytes) (d : ddb) : gmap bytes key_row := filter (λ p, kr_zone p.2 = zone) (d_keys d).
Definition rows_not_of (zone : bytes) (d : ddb) : gmap bytes key_row := filter (λ p, kr_zone p.2 ≠ zone) (d_keys d).
Definition commit (d : ddb) (t : txn) : ddb :=
  mkDdb (partial_alter (λ _, d_settings (tx_db t) !! tx_zone t) (tx_zone t) (d_settings d))
    (rows_not_of (tx_zone t) d ∪ rows_of (tx_zone t) (tx_db t))
    (partial_alter (λ _, d_sigs (tx_db t) !! tx_zone t) (tx_zone t) (d_sigs d))
    (d_queue d ++ filter (λ r, r ∉ d_queue d) (tx_queued t)) (d_orphans d).
Definition with_db (s : kst) (d : ddb) : kst := mkKst (k_now s) d (k_token s) (k_drawn s) (k_jobs s).
Definition with_token (s : kst) (token : gset bytes) : kst := mkKst (k_now s) (k_db s) token (k_drawn s) (k_jobs s).
Definition with_jobs (s : kst) (jobs : gmap nat job) : kst := mkKst (k_now s) (k_db s) (k_token s) (k_drawn s) jobs.
Definition draws (s : kst) (op : kop) : kst := mkKst (k_now s) (k_db s) (k_token s) (gset_to_gmap (k_now s) (op_refs op) ∪ k_drawn s) (k_jobs s).
Inductive kstep : kst → kst → Prop :=
(** Time passes; a transaction does not stay open for as long as the grace period. *)
| ks_tick s now : k_now s ≤ now → (∀ i t, k_jobs s !! i = Some (JTx t) → now < tx_began t + OrphanGrace) → kstep s (mkKst now (k_db s) (k_token s) (k_drawn s) (k_jobs s))
(** An operation locks its zone and does its work; it commits later. *)
| ks_begin s op i token d : k_jobs s !! i = None → unlocked (k_jobs s) (op_zone op) → fresh_op (dom (k_drawn s)) op → run_op op (k_db s) (k_token s) = (token, Ok d) →
    kstep s (with_jobs (with_token (draws s op) token)
      (<[i := JTx (mkTxn (op_zone op) (k_now s) d (filter (λ r, r ∉ d_queue (k_db s)) (d_queue d)) (op_refs op))]> (k_jobs s)))
(** It fails, also half way; what it did to the token stays. *)
| ks_fail s op token res : unlocked (k_jobs s) (op_zone op) → fresh_op (dom (k_drawn s)) op → run_op op (k_db s) (k_token s) = (token, res) → kstep s (with_token (draws s op) token)
(** Its zone is signed in the transaction, which writes signatures and the next maintenance only. *)
| ks_sign s i t m f : k_jobs s !! i = Some (JTx t) →
    kstep s (with_jobs s (<[i := JTx (mkTxn (tx_zone t) (tx_began t) (update_next (set_sigs (tx_db t) m) (tx_zone t) f) (tx_queued t) (tx_refs t))]> (k_jobs s)))
| ks_commit s i t : k_jobs s !! i = Some (JTx t) → rows_not_of (tx_zone t) (k_db s) ##ₘ rows_of (tx_zone t) (tx_db t) →
    kstep s (with_jobs (with_db s (commit (k_db s) t)) (delete i (k_jobs s)))
(** A transaction rolls back, or a sweep or a run of the queue ends early. *)
| ks_drop s i : kstep s (with_jobs s (delete i (k_jobs s)))
| ks_delete s zone : unlocked (k_jobs s) zone → kstep s (with_db s (cascade (k_db s) zone))
| ks_list s i b : k_jobs s !! i = None → HasBackend b BackendPKCS11 = true → kstep s (with_jobs s (<[i := JListed (k_token s)]> (k_jobs s)))
| ks_record s i refs d due : k_jobs s !! i = Some (JListed refs) → sweep_record (k_db s) refs (k_now s) OrphanGrace = (d, due) →
    kstep s (with_jobs (with_db s d) (<[i := JDue due]> (k_jobs s)))
| ks_orphan s i ref due b ok del d token n e : k_jobs s !! i = Some (JDue (ref :: due)) → sweep_destroy b ok del ref (k_db s) (k_token s) = (d, token, n, e) →
    kstep s (with_jobs (with_token (with_db s d) token) (<[i := JDue due]> (k_jobs s)))
| ks_query s i : k_jobs s !! i = None → kstep s (with_jobs s (<[i := JBatch (pending (k_db s))]> (k_jobs s)))
| ks_destroy s i q batch b ok del d token e : k_jobs s !! i = Some (JBatch (q :: batch)) → destroy_queued b ok del q (k_db s) (k_token s) = (d, token, e) →
    kstep s (with_jobs (with_token (with_db s d) token) (<[i := JBatch batch]> (k_jobs s))).

(** *** The invariant *)
(** Its reference was drawn, and no open transaction drew it. *)
Definition settled (s : kst) (ref : bytes) : Prop := ref ∈ dom (k_drawn s) ∧ ∀ i t, k_jobs s !! i = Some (JTx t) → ref ∉ tx_refs t.
(** No row uses it, and none will. *)
Definition dead (s : kst) (ref : bytes) : Prop := settled s ref ∧ live_ref (k_db s) ref = false.
(** The zone of a transaction as it will be. *)
Definition own_part (t : txn) : ddb := mkDdb (filter (λ p, p.1 = tx_zone t) (d_settings (tx_db t))) (rows_of (tx_zone t) (tx_db t)) ∅ [] ∅.
Record tx_ok (s : kst) (t : txn) : Prop := {
  tk_age : k_now s < tx_began t + OrphanGrace;
  tk_drawn : ∀ ref, ref ∈ tx_refs t → k_drawn s !! ref = Some (tx_began t);
  tk_part : kinv (own_part t) (k_token s);
  tk_rows : ∀ id r', rows_of (tx_zone t) (tx_db t) !! id = Some r' → (∃ r, d_keys (k_db s) !! id = Some r ∧ kept_row r r') ∨ kr_ref r' ∈ tx_refs t;
  tk_queued : ∀ ref, ref ∈ tx_queued t → settled s ref ∨ ref ∈ tx_refs t }.
Definition job_ok (s : kst) (j : job) : Prop :=
  match j with
  | JTx t => tx_ok s t
  | JListed refs => ∀ ref, ref ∈ refs → ref ∈ dom (k_drawn s)
  | JDue due => ∀ ref, ref ∈ due → dead s ref
  | JBatch batch => ∀ ref, (ref, false) ∈ batch → dead s ref
  end.
Record sinv (s : kst) : Prop := {
  si_db : kinv (k_db s) (k_token s);
  si_drawn : ∀ ref t, k_drawn s !! ref = Some t → t ≤ k_now s;
  si_token : ∀ ref, ref ∈ k_token s → ref ∈ dom (k_drawn s);
  si_orphans : ∀ ref t, d_orphans (k_db s) !! ref = Some t → ∃ t0, k_drawn s !! ref = Some t0 ∧ t0 ≤ t;
  si_refs : ∀ ref, ref ∈ refs_of (k_db s) → settled s ref;
  si_queue : ∀ ref, ref ∈ d_queue (k_db s) → settled s ref;
  si_jobs : ∀ i j, k_jobs s !! i = Some j → job_ok s j;
  si_apart : ∀ i j t u, k_jobs s !! i = Some (JTx t) → k_jobs s !! j = Some (JTx u) → i ≠ j → tx_zone t ≠ tx_zone u ∧ tx_refs t ## tx_refs u }.

Lemma kinv_live d token token' : kinv d token → (∀ ref, live_ref d ref = true → ref ∈ token → ref ∈ token') → kinv d token'.
Proof.
  intros [[A B C D E] Ha Hd] Ht. split; [split; try done|done|done]. intros id r Hr Hl Hb. apply Ht; [|by eapply E]. apply live_ref_iff. by exists id, r.
Qed.
Lemma kinv_keys d d' token : d_keys d' = d_keys d → (∀ z, enabled d' z ↔ enabled d z) → kinv d token → kinv d' token.
Proof. intros Ek Ez [[A B C D E] G I]. split; [split; by rewrite Ek|..]; rewrite Ek; [intros z ro Hz%Ez; by apply G|intros id r Hr Hl; apply Ez; by eapply I]. Qed.
Lemma live_ref_keys d d' ref : d_keys d' = d_keys d → live_ref d' ref = live_ref d ref.
Proof. unfold live_ref. by intros ->. Qed.
Lemma refs_of_keys d d' : d_keys d' = d_keys d → refs_of d' = refs_of d.
Proof. unfold refs_of. by intros ->. Qed.
Lemma part_live s t ref : tx_ok s t → live_ref (own_part t) ref = true → ref ∈ tx_refs t ∨ live_ref (k_db s) ref = true.
Proof.
  intros Ht (id & r' & Hr' & Hl & <-)%live_ref_iff. destruct (tk_rows _ _ Ht _ _ Hr') as [(r & Hr & K)|]; [right|by left]. apply live_ref_iff. exists id, r. destruct K as (? & ? & ? & ? & ? & ? & ? & Kr & Kl). split_and!; auto.
Qed.
(** What the rest of the state keeps when a step leaves it alone. *)
Record frame (s s' : kst) : Prop := {
  fr_drawn : k_drawn s ⊆ k_drawn s';
  fr_refs : ∀ i t ref, k_jobs s' !! i = Some (JTx t) → ref ∈ tx_refs t → (∃ i0 t0, k_jobs s !! i0 = Some (JTx t0) ∧ ref ∈ tx_refs t0) ∨ ref ∉ dom (k_drawn s);
  fr_live : ∀ ref, settled s ref → live_ref (k_db s') ref = true → live_ref (k_db s) ref = true;
  fr_token : ∀ ref, ref ∈ k_token s → ref ∈ k_token s' ∨ dead s ref }.
Lemma settled_frame s s' ref : frame s s' → settled s ref → settled s' ref.
Proof.
  intros F [Hd Hn]. split; [apply (subseteq_dom _ _ (fr_drawn _ _ F)), Hd|]. intros i t Ht Hr. destruct (fr_refs _ _ F _ _ _ Ht Hr) as [(i0 & t0 & Hi0 & Hr0)|]; [by eapply Hn|done].
Qed.
Lemma dead_frame s s' ref : frame s s' → dead s ref → dead s' ref.
Proof. intros F [Hs Hl]. split; [by eapply settled_frame|]. apply not_true_iff_false. intros Hx%(fr_live _ _ F); [congruence|done]. Qed.
Lemma tx_frame s s' t i : frame s s' → k_jobs s !! i = Some (JTx t) → k_now s' < tx_began t + OrphanGrace → (∀ id r, d_keys (k_db s) !! id = Some r → kr_zone r = tx_zone t → d_keys (k_db s') !! id = Some r) →
  tx_ok s t → tx_ok s' t.
Proof.
  intros F Hj Hage Hrows Ho. split; [done| | | |].
  - intros ref Hr. eapply lookup_weaken, (fr_drawn _ _ F). by apply (tk_drawn _ _ Ho).
  - eapply kinv_live; [apply Ho|]. intros ref Hl Hin. destruct (fr_token _ _ F _ Hin) as [?|[[_ Hs] Hdl]]; [done|]. destruct (part_live _ _ _ Ho Hl) as [Hr|Hr]; [by destruct (Hs _ _ Hj)|congruence].
  - intros id r' Hr'. destruct (tk_rows _ _ Ho _ _ Hr') as [(r & Hr & K)|]; [left|by right]. exists r. split; [|done]. apply Hrows; [done|]. apply map_lookup_filter_Some in Hr' as [_ Hz]. simpl in Hz. destruct K as (_ & Kz & _). congruence.
  - intros ref [?|?]%(tk_queued _ _ Ho); [left; by eapply settled_frame|by right].
Qed.
Lemma job_frame s s' i j : frame s s' → k_jobs s !! i = Some j → (∀ t, j = JTx t → k_now s' < tx_began t + OrphanGrace ∧ ∀ id r, d_keys (k_db s) !! id = Some r → kr_zone r = tx_zone t → d_keys (k_db s') !! id = Some r) →
  job_ok s j → job_ok s' j.
Proof.
  intros F Hj Ht. destruct j as [t|refs|due|batch]; simpl.
  - destruct (Ht t eq_refl). by eapply tx_frame.
  - intros Ho ref Hr%Ho. by apply (subseteq_dom _ _ (fr_drawn _ _ F)).
  - intros Ho ref Hr%Ho. by eapply dead_frame.
  - intros Ho ref Hr%Ho. by eapply dead_frame.
Qed.
Lemma db_frame s s' : frame s s' → kinv (k_db s) (k_token s) → kinv (k_db s) (k_token s').
Proof. intros F Hi. eapply kinv_live; [done|]. intros ref Hl Hin. destruct (fr_token _ _ F _ Hin) as [?|[_ ?]]; [done|congruence]. Qed.
Lemma grace_pos : 0 < OrphanGrace.
Proof. done. Qed.
(** Steps that draw nothing. *)
Definition same_tx (s : kst) (i : nat) (j : job) : Prop := ∀ t, j = JTx t → ∃ t0, k_jobs s !! i = Some (JTx t0) ∧ tx_zone t = tx_zone t0 ∧ tx_refs t = tx_refs t0.
Lemma sinv_keep s s' : sinv s → frame s s' → k_drawn s' = k_drawn s → k_now s' = k_now s → k_token s' ⊆ k_token s → kinv (k_db s') (k_token s') →
  (∀ ref, ref ∈ refs_of (k_db s') → settled s' ref) → (∀ ref, ref ∈ d_queue (k_db s') → settled s' ref) →
  (∀ ref t, d_orphans (k_db s') !! ref = Some t → ∃ t0, k_drawn s !! ref = Some t0 ∧ t0 ≤ t) →
  (∀ i t, k_jobs s' !! i = Some (JTx t) → ∀ id r, d_keys (k_db s) !! id = Some r → kr_zone r = tx_zone t → d_keys (k_db s') !! id = Some r) →
  (∀ i j, k_jobs s' !! i = Some j → k_jobs s !! i = Some j ∨ job_ok s' j ∧ same_tx s i j) → sinv s'.
Proof.
  intros Hs F Ed En Et Hk Hr Hq Ho Hrows Hj. split; [done|..].
  - rewrite Ed, En. apply Hs.
  - intros ref Hin. rewrite Ed. by apply Hs, Et.
  - by rewrite Ed.
  - done.
  - done.
  - intros i j Hi. destruct (Hj i j Hi) as [Hi0|[? _]]; [|done]. eapply job_frame; [done..| |by apply Hs in Hi0]. intros t ->. split; [|by eapply Hrows]. rewrite En. by apply Hs in Hi0 as [? _ _ _ _].
  - assert (∀ i t, k_jobs s' !! i = Some (JTx t) → ∃ t0, k_jobs s !! i = Some (JTx t0) ∧ tx_zone t = tx_zone t0 ∧ tx_refs t = tx_refs t0) as Hold.
    { intros i t Hi. destruct (Hj i _ Hi) as [?|[_ Hst]]; [by exists t|by apply Hst]. }
    intros i j t u (t0 & Hi & -> & ->)%Hold (u0 & Hj' & -> & ->)%Hold. by apply (si_apart _ Hs).
Qed.
Lemma frame_jobs s jobs : (∀ i t, jobs !! i = Some (JTx t) → ∃ t0, k_jobs s !! i = Some (JTx t0) ∧ tx_refs t = tx_refs t0) → frame s (with_jobs s jobs).
Proof.
  intros Hj. split; [done| |done|by left]. intros i t ref Hi Hr. left. destruct (Hj i t Hi) as (t0 & Hi0 & E). exists i, t0. split; [done|]. by rewrite <- E.
Qed.
(** Only the jobs change. *)
Lemma sinv_jobs s jobs : sinv s → (∀ i j, jobs !! i = Some j → k_jobs s !! i = Some j ∨ (frame s (with_jobs s jobs) → job_ok (with_jobs s jobs) j) ∧ same_tx s i j) → sinv (with_jobs s jobs).
Proof.
  intros Hs Hj. assert (frame s (with_jobs s jobs)) as F.
  { apply frame_jobs. intros i t Hi. destruct (Hj i _ Hi) as [?|[_ Hst]]; [by exists t|]. destruct (Hst t eq_refl) as (t0 & ? & _ & ?). by exists t0. }
  apply (sinv_keep s); [done..|apply Hs|intros ref Hr; apply (settled_frame s); [done|by apply (si_refs _ Hs)]|intros ref Hr; apply (settled_frame s); [done|by apply (si_queue _ Hs)]|apply Hs|done|]. intros i j Hi. destruct (Hj i j Hi) as [?|[Hok ?]]; [by left|right; auto].
Qed.
Lemma set_job (jobs : gmap nat job) i j k x : <[i := j]> jobs !! k = Some x → k = i ∧ x = j ∨ k ≠ i ∧ jobs !! k = Some x.
Proof. destruct (decide (k = i)) as [->|]; [rewrite lookup_insert_eq; intros [= <-]; by left|rewrite lookup_insert_ne by done; by right]. Qed.
Lemma tick_inv s now : sinv s → k_now s ≤ now → (∀ i t, k_jobs s !! i = Some (JTx t) → now < tx_began t + OrphanGrace) → sinv (mkKst now (k_db s) (k_token s) (k_drawn s) (k_jobs s)).
Proof.
  intros Hs Hn Ha. set (s' := mkKst _ _ _ _ _). assert (frame s s') as F by (split; [done|intros i t ref Hi Hr; left; by exists i, t|done|by left]). split; try apply Hs.
  - intros ref t Hr%(si_drawn _ Hs). simpl. lia.
  - intros i j Hi. eapply (job_frame s s'); [done..| |by apply Hs in Hi]. intros t ->. split; [by eapply Ha|done].
Qed.
(** The token of an operation under way: what others use is not touched. *)
Lemma draw_inv s op token : sinv s → op_refs op ## dom (k_drawn s) → same_token (op_refs op) (k_token s) token → frame s (with_token (draws s op) token) ∧ sinv (with_token (draws s op) token).
Proof.
  intros Hs Hf Ht. set (s' := with_token _ _). assert (∀ ref, ref ∈ dom (k_drawn s') ↔ ref ∈ op_refs op ∨ ref ∈ dom (k_drawn s)) as Hdom by (intros ref; simpl; by rewrite dom_union_L, dom_gset_to_gmap, elem_of_union).
  assert (∀ ref t, k_drawn s !! ref = Some t → k_drawn s' !! ref = Some t) as Hsub.
  { intros ref t Hr. simpl. rewrite lookup_union_r; [done|]. apply lookup_gset_to_gmap_None. intros Hin. eapply Hf; [done|]. by apply elem_of_dom_2 in Hr. }
  assert (frame s s') as F.
  { split; [apply map_subseteq_spec; exact Hsub|intros i t ref Hi Hr; left; by exists i, t|done|]. intros ref Hin. left. apply Ht; [|done]. intros Hr. eapply Hf; [done|]. by apply Hs. }
  split; [done|]. split.
  - by apply (db_frame s s'), Hs.
  - intros ref t. simpl. intros [Hr|[_ Hr]]%lookup_union_Some_raw; [apply lookup_gset_to_gmap_Some in Hr as [_ <-]; lia|by apply Hs in Hr].
  - intros ref Hin. apply Hdom. destruct (decide (ref ∈ op_refs op)); [by left|right]. by apply Hs, Ht.
  - intros ref t (t0 & ? & ?)%(si_orphans _ Hs). exists t0. auto.
  - intros ref Hr%(si_refs _ Hs). by eapply settled_frame.
  - intros ref Hr%(si_queue _ Hs). by eapply settled_frame.
  - intros i j Hi. eapply (job_frame s s'); [done..| |by apply Hs in Hi]. intros t ->. split; [by apply Hs in Hi as [? _ _ _ _]|done].
  - apply Hs.
Qed.
Lemma kinv_part t token : kinv (tx_db t) token → kinv (own_part t) token.
Proof.
  intros Hi. assert (∀ id r, rows_of (tx_zone t) (tx_db t) !! id = Some r → d_keys (tx_db t) !! id = Some r ∧ kr_zone r = tx_zone t) as Hk by (by intros id r [? ?]%map_lookup_filter_Some).
  assert (∀ z, enabled (own_part t) z ↔ z = tx_zone t ∧ enabled (tx_db t) z) as Hen.
  { intros z. unfold enabled. simpl. setoid_rewrite map_lookup_filter_Some. simpl. naive_solver. }
  destruct Hi as [[A B C D E] G I]. split; [split|..]; simpl.
  - intros id r [? ?]%Hk. by eapply A.
  - intros i j r s [? ?]%Hk [? ?]%Hk. by apply B.
  - intros i j r s [? ?]%Hk [? ?]%Hk. by apply C.
  - intros id r [? ?]%Hk. by eapply D.
  - intros id r [? ?]%Hk. by eapply E.
  - intros z ro [-> He]%Hen. destruct (G _ ro He) as (id & r & ? & ? & ?). exists id, r. split; [|done]. by apply map_lookup_filter_Some.
  - intros id r [? Hz]%Hk Hl. apply Hen. split; [done|]. by eapply I.
Qed.
Lemma begin_inv s op i token d : sinv s → k_jobs s !! i = None → unlocked (k_jobs s) (op_zone op) → fresh_op (dom (k_drawn s)) op → run_op op (k_db s) (k_token s) = (token, Ok d) →
  sinv (with_jobs (with_token (draws s op) token) (<[i := JTx (mkTxn (op_zone op) (k_now s) d (filter (λ r, r ∉ d_queue (k_db s)) (d_queue d)) (op_refs op))]> (k_jobs s))).
Proof.
  intros Hs Hi Hu Hf E. set (t := mkTxn _ _ _ _ _). destruct (kop_inv _ _ _ _ _ _ (si_db _ Hs) (λ ref Hr, proj1 (si_refs _ Hs ref Hr)) Hf E) as [Ht Hd]. destruct (Hd d eq_refl) as [Hk Hr].
  destruct (draw_inv s op token Hs (proj1 Hf) Ht) as [F1 Hs1]. set (s1 := with_token (draws s op) token) in *. set (s' := with_jobs s1 _).
  assert (frame s s') as F.
  { destruct F1 as [A B C D]. split; [done| |done|done]. intros k u ref [[-> [= ->]]|[_ Hk']]%set_job Href; [right; intros Hx; by apply (proj1 Hf ref)|left; by exists k, u]. }
  assert (∀ ref, ref ∈ op_refs op → k_drawn s' !! ref = Some (k_now s)) as Hdr by (intros ref Href; simpl; apply lookup_union_Some_l; by apply lookup_gset_to_gmap_Some).
  split; try apply Hs1.
  - intros ref Hx%(si_refs _ Hs). by eapply settled_frame.
  - intros ref Hx%(si_queue _ Hs). by eapply settled_frame.
  - intros k j [[-> ->]|[Hne Hj]]%set_job.
    + split; simpl.
      * pose proof grace_pos. lia.
      * done.
      * by apply (kinv_part t).
      * intros id r' [Hr' _]%map_lookup_filter_Some. simpl in Hr'. destruct (rn_rows _ _ _ _ Hr _ _ Hr') as [?|(_ & ? & _)]; [by left|by right].
      * intros ref [Hn Hq]%list_elem_of_filter. destruct (rn_queue _ _ _ _ Hr _ Hq) as [?|[?|?]]; [done|left|by right]. apply (settled_frame s); [done|by apply (si_refs _ Hs)].
    + eapply (job_frame s s'); [done..| |by apply Hs in Hj]. intros u ->. split; [by apply Hs in Hj as [? _ _ _ _]|done].
  - assert (∀ k u, k_jobs s !! k = Some (JTx u) → tx_zone t ≠ tx_zone u ∧ tx_refs t ## tx_refs u) as Hap.
    { intros k u Hk'. split; [intros E'; by apply (Hu _ _ Hk')|]. intros ref Hx Hy. apply (proj1 Hf ref Hx). apply Hs in Hk'. apply elem_of_dom_2 with (tx_began u). by apply (tk_drawn _ _ Hk'). }
    intros a c u v [[-> [= ->]]|[_ Ha]]%set_job [[-> [= ->]]|[_ Hc]]%set_job Hne; [done|by eapply Hap| |by apply (si_apart _ Hs a c)]. destruct (Hap _ _ Ha). split; [done|by symmetry].
Qed.
Lemma update_next_enabled d zone f z : enabled (update_next d zone f) z ↔ enabled d z.
Proof.
  unfold enabled, update_next. simpl. destruct (decide (z = zone)) as [->|]; [|by rewrite lookup_alter_ne by done]. rewrite lookup_alter_eq. destruct (d_settings d !! zone) as [s|]; simpl; split.
  - intros (x & [= <-] & ?). by exists s.
  - intros (x & [= <-] & ?). eexists. by split.
  - by intros (? & ? & _).
  - by intros (? & ? & _).
Qed.
Lemma sign_inv s i t m f : sinv s → k_jobs s !! i = Some (JTx t) →
  sinv (with_jobs s (<[i := JTx (mkTxn (tx_zone t) (tx_began t) (update_next (set_sigs (tx_db t) m) (tx_zone t) f) (tx_queued t) (tx_refs t))]> (k_jobs s))).
Proof.
  intros Hs Hi. apply sinv_jobs; [done|]. intros k j [[-> ->]|[_ ?]]%set_job; [right|by left]. split; [|intros u [= <-]; by exists t]. intros F. pose proof (si_jobs _ Hs _ _ Hi) as [A B C D E].
  split; [done|done| |done|intros ref [?|?]%E; [left; by eapply settled_frame|by right]]. eapply kinv_keys; [| |exact C]; [done|]. intros z. unfold own_part. unfold enabled. simpl. setoid_rewrite map_lookup_filter_Some. simpl.
  pose proof (update_next_enabled (set_sigs (tx_db t) m) (tx_zone t) f z) as Hu. unfold enabled in Hu. simpl in Hu. naive_solver.
Qed.
Lemma commit_rows d t id r : rows_not_of (tx_zone t) d ##ₘ rows_of (tx_zone t) (tx_db t) →
  d_keys (commit d t) !! id = Some r ↔ d_keys d !! id = Some r ∧ kr_zone r ≠ tx_zone t ∨ rows_of (tx_zone t) (tx_db t) !! id = Some r.
Proof. intros Hd. simpl. rewrite lookup_union_Some by done. unfold rows_not_of. by rewrite map_lookup_filter_Some. Qed.
Lemma commit_enabled d t z : enabled (commit d t) z ↔ if bool_decide (z = tx_zone t) then enabled (own_part t) z else enabled d z.
Proof.
  unfold enabled. simpl. case_bool_decide as Hz; [subst z; rewrite lookup_partial_alter_eq|by rewrite lookup_partial_alter_ne]. setoid_rewrite map_lookup_filter_Some. simpl. naive_solver.
Qed.
Lemma commit_kinv s i t : sinv s → k_jobs s !! i = Some (JTx t) → rows_not_of (tx_zone t) (k_db s) ##ₘ rows_of (tx_zone t) (tx_db t) → kinv (commit (k_db s) t) (k_token s).
Proof.
  intros Hs Hi Hdis. pose proof (si_jobs _ Hs _ _ Hi) as Ht. simpl in Ht. pose proof (tk_part _ _ Ht) as [[A' B' C' D' E'] G' I']. pose proof (si_db _ Hs) as [[A B C D E] G I]. simpl in *.
  assert (∀ id r, d_keys (commit (k_db s) t) !! id = Some r → d_keys (k_db s) !! id = Some r ∧ kr_zone r ≠ tx_zone t ∨ rows_of (tx_zone t) (tx_db t) !! id = Some r) as Hr by (intros id r; by apply commit_rows).
  assert (∀ id r, rows_of (tx_zone t) (tx_db t) !! id = Some r → kr_zone r = tx_zone t) as Hz by (by intros id r [_ ?]%map_lookup_filter_Some).
  assert (∀ a c r x, d_keys (k_db s) !! a = Some r → kr_zone r ≠ tx_zone t → rows_of (tx_zone t) (tx_db t) !! c = Some x → kr_ref r ≠ kr_ref x) as Hx.
  { intros a c r x Ha Hra Hc Er. pose proof (Hz _ _ Hc). destruct (tk_rows _ _ Ht _ _ Hc) as [(y & Hy & K)|Href].
    - destruct K as (_ & Kz & _ & _ & _ & _ & _ & Kr & _). assert (a = c) as -> by (eapply B; [done..|congruence]). congruence.
    - rewrite <- Er in Href. destruct (si_refs _ Hs (kr_ref r)) as [_ Hn]; [apply elem_refs_of; by exists a, r|]. by eapply Hn. }
  split; [split|..].
  - intros id r [[? _]|?]%Hr; eauto.
  - intros a c r x [[Ha Hza]|Ha]%Hr [[Hc Hzc]|Hc]%Hr Er; [by eapply B|by destruct (Hx a c r x)|by destruct (Hx c a x r)|by eapply B'].
  - intros a c r x [[Ha Hza]|Ha]%Hr [[Hc Hzc]|Hc]%Hr Ez Er; [by eapply C|apply Hz in Hc; congruence|apply Hz in Ha; congruence|by eapply C'].
  - intros id r [[? _]|?]%Hr; eauto.
  - intros id r [[? _]|?]%Hr; eauto.
  - intros z ro. rewrite commit_enabled. case_bool_decide as Hzz.
    + intros (id & r & Hin & ?)%(G' _ ro). exists id, r. split; [|done]. apply commit_rows; [done|by right].
    + intros (id & r & Hin & Ez & ?)%(G _ ro). exists id, r. split; [|done]. apply commit_rows; [done|left]. split; [done|congruence].
  - intros id r [[Hin Hzn]|Hin]%Hr Hl; apply commit_enabled; [rewrite bool_decide_eq_false_2 by done; by eapply I|rewrite bool_decide_eq_true_2 by (by eapply Hz); by eapply I'].
Qed.
Lemma commit_inv s i t : sinv s → k_jobs s !! i = Some (JTx t) → rows_not_of (tx_zone t) (k_db s) ##ₘ rows_of (tx_zone t) (tx_db t) →
  sinv (with_jobs (with_db s (commit (k_db s) t)) (delete i (k_jobs s))).
Proof.
  intros Hs Hi Hdis. set (s' := with_jobs _ _). pose proof (si_jobs _ Hs _ _ Hi) as Ht. simpl in Ht. assert (∀ k j, k_jobs s' !! k = Some j → k ≠ i ∧ k_jobs s !! k = Some j) as Hj by (intros k j; simpl; by intros [? ?]%lookup_delete_Some).
  assert (frame s s') as F.
  { split; [done|intros k u ref [_ Hk]%Hj Href; left; by exists k, u| |by left]. intros ref [_ Hn] (id & r & Hr & Hl & <-)%live_ref_iff. apply live_ref_iff. apply commit_rows in Hr as [[Hr _]|Hr]; [by exists id, r| |done].
    destruct (tk_rows _ _ Ht _ _ Hr) as [(x & Hx & K)|Href]; [|by destruct (Hn _ _ Hi)]. destruct K as (_ & _ & _ & _ & _ & _ & _ & Kr & Kl). exists id, x. split_and!; auto. }
  assert (∀ ref, ref ∈ tx_refs t → settled s' ref) as Hown.
  { intros ref Href. split; [eapply elem_of_dom_2; by apply (tk_drawn _ _ Ht)|]. intros k u [Hne Hk]%Hj Hu. by eapply (si_apart _ Hs k i u t Hk Hi Hne). }
  apply (sinv_keep s); [done..|by apply (commit_kinv s i)| | |apply Hs| |].
  - intros ref (id & r & Hr & <-)%elem_refs_of. apply commit_rows in Hr as [[Hr _]|Hr]; [| |done].
    + apply (settled_frame s); [done|]. apply Hs, elem_refs_of. by exists id, r.
    + destruct (tk_rows _ _ Ht _ _ Hr) as [(x & Hx & K)|Href]; [|by apply Hown]. apply (settled_frame s); [done|]. apply Hs, elem_refs_of. exists id, x. split; [done|]. symmetry. apply K.
  - intros ref [Hq|[_ Hq]%list_elem_of_filter]%elem_of_app; [apply (settled_frame s); [done|by apply (si_queue _ Hs)]|]. destruct (tk_queued _ _ Ht _ Hq); [by apply (settled_frame s)|by apply Hown].
  - intros k u [Hne Hk]%Hj id r Hr Hz. apply commit_rows; [done|left]. split; [done|]. rewrite Hz. by apply (si_apart _ Hs k i u t).
  - intros k j [_ Hk]%Hj. by left.
Qed.
Lemma cascade_inv s zone : sinv s → unlocked (k_jobs s) zone → sinv (with_db s (cascade (k_db s) zone)).
Proof.
  intros Hs Hu. set (s' := with_db _ _). assert (∀ id r, d_keys (k_db s') !! id = Some r ↔ d_keys (k_db s) !! id = Some r ∧ kr_zone r ≠ zone) as Hr by (intros id r; simpl; by rewrite map_lookup_filter_Some).
  assert (∀ z, enabled (k_db s') z ↔ z ≠ zone ∧ enabled (k_db s) z) as Hen by (intros z; unfold enabled; simpl; setoid_rewrite lookup_delete_Some; naive_solver).
  assert (frame s s') as F.
  { split; [done|intros i t ref Hi Href; left; by exists i, t| |by left]. intros ref _ (id & r & [Hx _]%Hr & Hl)%live_ref_iff. apply live_ref_iff. by exists id, r. }
  apply (sinv_keep s); [done..| | | |apply Hs| |by left].
  - pose proof (si_db _ Hs) as [[A B C D E] G I]. split; [split|..].
    + intros id r [? _]%Hr. by eapply A.
    + intros i j r x [? _]%Hr [? _]%Hr. by apply B.
    + intros i j r x [? _]%Hr [? _]%Hr. by apply C.
    + intros id r [? _]%Hr. by eapply D.
    + intros id r [? _]%Hr. by eapply E.
    + intros z ro [Hz (id & r & Hx & Ez & Hrest)%(λ H, G z ro H)]%Hen. exists id, r. split; [|done]. apply Hr. split; [done|congruence].
    + intros id r [? ?]%Hr Hl. apply Hen. split; [done|by eapply I].
  - intros ref (id & r & [Hx _]%Hr & <-)%elem_refs_of. apply (settled_frame s); [done|]. apply Hs, elem_refs_of. by exists id, r.
  - intros ref Hq. apply (settled_frame s); [done|]. by apply (si_queue _ Hs).
  - intros i t Hi id r Hx Hz. apply Hr. split; [done|]. rewrite Hz. by eapply Hu.
Qed.
(** Writes to the queue and the orphans, and a destruction. *)
Lemma token_inv s d token i j ref : sinv s → token = k_token s ∨ dead s ref ∧ token = k_token s ∖ {[ref]} →
  d_keys d = d_keys (k_db s) → d_settings d = d_settings (k_db s) → (∀ x, x ∈ d_queue d → x ∈ d_queue (k_db s)) →
  (∀ x t, d_orphans d !! x = Some t → ∃ t0, k_drawn s !! x = Some t0 ∧ t0 ≤ t) → (∀ t, j ≠ JTx t) →
  let s' := with_jobs (with_token (with_db s d) token) (<[i := j]> (k_jobs s)) in (frame s s' → job_ok s' j) → sinv s'.
Proof.
  intros Hs Ht Ek Es Eq Eo Hj s' Hok.
  assert (∀ k u, k_jobs s' !! k = Some (JTx u) → k_jobs s !! k = Some (JTx u)) as Hold by (intros k u [[-> E]|[_ ?]]%set_job; [by destruct (Hj u)|done]).
  assert (frame s s') as F.
  { split; [done|intros k u x Hk Hx; left; exists k, u; auto|intros x _; simpl; by rewrite (live_ref_keys (k_db s) d)|]. intros x Hx. destruct Ht as [-> |[Hd ->]]; [by left|]. destruct (decide (x = ref)) as [->|]; [by right|left; set_solver]. }
  apply (sinv_keep s); [done..| | | | |done| |].
  - simpl. destruct Ht as [-> |[_ ->]]; set_solver.
  - apply (db_frame s s') in F as Hk; [|apply Hs]. eapply kinv_keys; [done| |exact Hk]. intros z. by apply enabled_ext.
  - intros x Hx. simpl in Hx. rewrite (refs_of_keys (k_db s) d) in Hx by done. apply (settled_frame s); [done|by apply Hs].
  - intros x Hx%Eq. apply (settled_frame s); [done|by apply (si_queue _ Hs)].
  - intros k u _ id r Hr _. simpl. by rewrite Ek.
  - intros k x [[-> ->]|[_ ?]]%set_job; [right|by left]. split; [auto|]. intros u E. by destruct (Hj u).
Qed.
Lemma record_inv s i refs d due : sinv s → k_jobs s !! i = Some (JListed refs) → sweep_record (k_db s) refs (k_now s) OrphanGrace = (d, due) → sinv (with_jobs (with_db s d) (<[i := JDue due]> (k_jobs s))).
Proof.
  intros Hs Hi [= <- <-]. pose proof (si_jobs _ Hs _ _ Hi) as Hl. simpl in Hl. set (orphans := swept_orphans _ _ _).
  assert (∀ x t, orphans !! x = Some t → live_ref (k_db s) x = false ∧ ∃ t0, k_drawn s !! x = Some t0 ∧ t0 ≤ t) as Ho.
  { intros x t [Hx|[_ Hx]]%lookup_union_Some_raw; [apply map_lookup_filter_Some in Hx as [Hx [_ ?]]; split; [done|by apply Hs in Hx]|].
    apply lookup_gset_to_gmap_Some in Hx as [[? Hx]%elem_of_filter <-]. split; [done|]. apply Hl, elem_of_dom in Hx as [t0 Hx]. exists t0. split; [done|]. by apply (si_drawn _ Hs) in Hx. }
  apply (token_inv s (set_orphans (k_db s) orphans) (k_token s) i (JDue _) []); [done|by left|done..| |done|].
  - intros x t Hx. by apply Ho.
  - intros F ref Hd. apply (dead_frame s); [done|]. unfold due_orphans in Hd. apply list_elem_of_fmap in Hd as ([x t] & -> & [Hdue Hx%elem_of_map_to_list]%list_elem_of_filter). simpl in *.
    destruct (Ho _ _ Hx) as (Hlive & t0 & Hd & Hle). split; [|done]. split; [by eapply elem_of_dom_2|]. intros k u Hk Hu. apply Hs in Hk as [Hage Hdr _ _ _]. apply Hdr in Hu. assert (t0 = tx_began u) by congruence. lia.
Qed.
Lemma destroyed_token b ok ref token token' : DestroySigningKey b (token_key ref) token ok = Ok token' → token' = token ∨ token' = token ∖ {[ref]}.
Proof. apply (destroy_Ok b (token_key ref)). Qed.
Lemma orphan_inv s i ref due b ok del d token n e : sinv s → k_jobs s !! i = Some (JDue (ref :: due)) → sweep_destroy b ok del ref (k_db s) (k_token s) = (d, token, n, e) →
  sinv (with_jobs (with_token (with_db s d) token) (<[i := JDue due]> (k_jobs s))).
Proof.
  intros Hs Hi E. pose proof (si_jobs _ Hs _ _ Hi) as Hd. simpl in Hd.
  assert ((token = k_token s ∨ token = k_token s ∖ {[ref]}) ∧ d_keys d = d_keys (k_db s) ∧ d_settings d = d_settings (k_db s) ∧ d_queue d = d_queue (k_db s) ∧ ∀ x t, d_orphans d !! x = Some t → d_orphans (k_db s) !! x = Some t)
    as (Ht & Ek & Es & Eq & Eo).
  { unfold sweep_destroy in E. destruct (DestroySigningKey _ _ _ _) as [t'|err| |] eqn:Ed; [|injection E as <- <- <- <-; split; [by left|done]..]. apply destroyed_token in Ed. destruct del; injection E as <- <- <- <-; (split; [done|]); [|done].
    split_and!; [done..|]. intros x t Hx. simpl in Hx. by apply lookup_delete_Some in Hx as [_ ?]. }
  apply (token_inv s d token i (JDue due) ref); [done| |done|done|by rewrite Eq|intros x t Hx%Eo; by apply Hs in Hx|done|].
  - destruct Ht; [by left|right]. split; [|done]. apply Hd. by left.
  - intros F x Hx. apply (dead_frame s); [done|]. apply Hd. by right.
Qed.
Lemma destroy_inv s i q batch b ok del d token e : sinv s → k_jobs s !! i = Some (JBatch (q :: batch)) → destroy_queued b ok del q (k_db s) (k_token s) = (d, token, e) →
  sinv (with_jobs (with_token (with_db s d) token) (<[i := JBatch batch]> (k_jobs s))).
Proof.
  intros Hs Hi E. pose proof (si_jobs _ Hs _ _ Hi) as Hd. simpl in Hd. destruct q as [ref live].
  assert ((token = k_token s ∨ live = false ∧ token = k_token s ∖ {[ref]}) ∧ d_keys d = d_keys (k_db s) ∧ d_settings d = d_settings (k_db s) ∧ d_orphans d = d_orphans (k_db s) ∧ ∀ x, x ∈ d_queue d → x ∈ d_queue (k_db s))
    as (Ht & Ek & Es & Eo & Eq).
  { unfold destroy_queued in E. destruct (if live then Ok (k_token s) else _) as [t'|err| |] eqn:Ed; [|injection E as <- <- <-; split; [by left|done]..].
    assert (t' = k_token s ∨ live = false ∧ t' = k_token s ∖ {[ref]}) as Ht by (destruct live; [injection Ed as <-; by left|apply destroyed_token in Ed as [?|?]; [by left|by right]]).
    destruct del; injection E as <- <- <-; (split; [done|]); [|done]. split_and!; [done..|]. intros x Hx. by apply list_elem_of_filter in Hx as [_ ?]. }
  apply (token_inv s d token i (JBatch batch) ref); [done| |done|done|done|rewrite Eo; apply Hs|done|].
  - destruct Ht as [?|[-> ?]]; [by left|right]. split; [|done]. apply Hd. by left.
  - intros F x Hx. apply (dead_frame s); [done|]. apply Hd. by right.
Qed.
Lemma kstep_inv s s' : kstep s s' → sinv s → sinv s'.
Proof.
  intros Hst Hs. destruct Hst as [s now Hn Ha|s op i token d Hi Hu Hf E|s op token res Hu Hf E|s i t m f Hi|s i t Hi Hdis|s i|s zone Hu|s i b Hi Hb|s i refs d due Hi E|s i ref due b ok del d token n e Hi E|s i Hi|s i q batch b ok del d token e Hi E].
  - by apply tick_inv.
  - by apply begin_inv.
  - destruct (kop_inv _ _ _ _ _ _ (si_db _ Hs) (λ ref Hr, proj1 (si_refs _ Hs ref Hr)) Hf E) as [Ht _]. apply draw_inv; [done|apply Hf|done].
  - by apply sign_inv.
  - by apply commit_inv.
  - apply sinv_jobs; [done|]. intros k j [_ ?]%lookup_delete_Some. by left.
  - by apply cascade_inv.
  - apply sinv_jobs; [done|]. intros k j [[-> ->]|[_ ?]]%set_job; [right|by left]. split; [|done]. intros _ ref Hr. by apply Hs.
  - by eapply record_inv.
  - by eapply orphan_inv.
  - apply sinv_jobs; [done|]. intros k j [[-> ->]|[_ ?]]%set_job; [right|by left]. split; [|done]. intros F ref Hr. apply (dead_frame s); [done|].
    apply list_elem_of_fmap in Hr as (x & [= <- Hl] & Hx). split; [|done]. apply (si_queue _ Hs). by eapply subseteq_take.
  - by eapply destroy_inv.
Qed.
Definition start (now : Z) : kst := mkKst now (mkDdb ∅ ∅ ∅ [] ∅) ∅ ∅ ∅.
Lemma start_inv now : sinv (start now).
Proof.
  split; simpl.
  - apply kinv_empty.
  - intros ref t Hr. by rewrite lookup_empty in Hr.
  - intros ref Hr. by apply elem_of_empty in Hr.
  - intros ref t Hr. by rewrite lookup_empty in Hr.
  - intros ref (id & r & Hr & _)%elem_refs_of. simpl in Hr. by rewrite lookup_empty in Hr.
  - intros ref Hr. by apply not_elem_of_nil in Hr.
  - intros i j Hr. by rewrite lookup_empty in Hr.
  - intros i j t u Hr. by rewrite lookup_empty in Hr.
Qed.
(** *** Uninterrupted runs *)
(** A transaction that nothing interleaves with commits the rows it wrote. *)
Lemma commit_alone d d' zone now queued refs : ran d d' zone refs → let d1 := commit d (mkTxn zone now d' queued refs) in d_keys d1 = d_keys d' ∧ d_settings d1 = d_settings d'.
Proof.
  intros Hr. split.
  - apply map_eq. intros id. apply option_eq. intros r. simpl. rewrite lookup_union_Some_raw. unfold rows_not_of, rows_of. rewrite !map_lookup_filter_Some, map_lookup_filter_None. simpl. split.
    + intros [[Hd Hz]|[_ [? _]]]; [by apply (rn_other _ _ _ _ Hr)|done].
    + intros Hd'. destruct (decide (kr_zone r = zone)) as [Hz|Hz].
      * right. split; [|done]. right. intros x Hx Hzx. rewrite (rn_other _ _ _ _ Hr _ _ Hx Hzx) in Hd'. congruence.
      * left. split; [|done]. destruct (rn_rows _ _ _ _ Hr _ _ Hd') as [(x & Hx & K)|(_ & _ & ?)]; [|done]. destruct K as (_ & Kz & _). assert (kr_zone x ≠ zone) as Hzx by congruence.
        rewrite (rn_other _ _ _ _ Hr _ _ Hx Hzx) in Hd'. congruence.
  - apply map_eq. intros z. simpl. destruct (decide (z = zone)) as [->|Hz]; [by rewrite lookup_partial_alter_eq|]. rewrite lookup_partial_alter_ne by done. symmetry. by apply (rn_settings _ _ _ _ Hr).
Qed.
Definition after (s : kst) (d : ddb) (token : gset bytes) : kst := with_token (with_db s d) token.
Lemma destroy_loop_steps b ok del i batch s d token errs n : k_jobs s !! i = None → destroy_loop b ok del batch (k_db s) (k_token s) n = (d, token, errs) →
  rtc kstep (with_jobs s (<[i := JBatch batch]> (k_jobs s))) (after s d token).
Proof.
  intros Hi. revert s n Hi. induction batch as [|q batch IH]; intros s n Hi; cbn [destroy_loop].
  - intros [= <- <- _]. apply rtc_once. destruct s as [no d0 t0 dr jobs]. simpl in *. set (s1 := with_jobs _ _). replace (after _ _ _) with (with_jobs s1 (delete i (k_jobs s1))); [apply ks_drop|].
    unfold s1, with_jobs, after, with_token, with_db. simpl. f_equal. by apply delete_insert_id.
  - destruct (destroy_queued _ _ _ q _ _) as [[d1 t1] e] eqn:E. intros E'. eapply rtc_l; [eapply (ks_destroy (with_jobs s (<[i := JBatch (q :: batch)]> (k_jobs s))) i); [apply lookup_insert_eq|exact E]|].
    unfold with_jobs, with_token, with_db. simpl. rewrite insert_insert_eq. apply (IH (after s d1 t1) (n + e)); done.
Qed.
Lemma DestroyPending_steps s b ok del d token errs : DestroyPending (k_db s) (k_token s) b ok del = Ok (d, token, errs) → rtc kstep s (after s d token).
Proof.
  unfold DestroyPending. destruct (_ && _); [done|]. intros [= E]. set (i := fresh (dom (k_jobs s))). assert (k_jobs s !! i = None) as Hi by apply not_elem_of_dom, is_fresh.
  eapply rtc_l; [by apply (ks_query s i)|]. by eapply destroy_loop_steps.
Qed.
Lemma sweep_loop_steps b ok del i due s d token n errs m k : k_jobs s !! i = None → sweep_loop b ok del due (k_db s) (k_token s) m k = (d, token, n, errs) →
  rtc kstep (with_jobs s (<[i := JDue due]> (k_jobs s))) (after s d token).
Proof.
  intros Hi. revert s m k Hi. induction due as [|ref due IH]; intros s m k Hi; cbn [sweep_loop].
  - intros [= <- <- _ _]. apply rtc_once. destruct s as [no d0 t0 dr jobs]. simpl in *. set (s1 := with_jobs _ _). replace (after _ _ _) with (with_jobs s1 (delete i (k_jobs s1))); [apply ks_drop|].
    unfold s1, with_jobs, after, with_token, with_db. simpl. f_equal. by apply delete_insert_id.
  - destruct (sweep_destroy _ _ _ ref _ _) as [[[d1 t1] n1] e] eqn:E. intros E'. eapply rtc_l; [eapply (ks_orphan (with_jobs s (<[i := JDue (ref :: due)]> (k_jobs s))) i); [apply lookup_insert_eq|exact E]|].
    unfold with_jobs, with_token, with_db. simpl. rewrite insert_insert_eq. apply (IH (after s d1 t1) (m + n1) (k + e)); done.
Qed.
Lemma Sweep_steps s b ok del d token n errs : SweepTokenOrphans (k_db s) (k_token s) b (k_now s) OrphanGrace ok del = (d, token, n, errs) → rtc kstep s (after s d token).
Proof.
  unfold SweepTokenOrphans. destruct (HasBackend _ _) eqn:Hb; cbn [negb]; [|intros [= <- <- _ _]; by destruct s]. destruct (sweep_record _ _ _ _) as [d1 due] eqn:Er. intros E.
  set (i := fresh (dom (k_jobs s))). assert (k_jobs s !! i = None) as Hi by apply not_elem_of_dom, is_fresh. eapply rtc_l; [by apply (ks_list s i b)|]. eapply rtc_l; [eapply (ks_record _ i); [apply lookup_insert_eq|exact Er]|].
  unfold with_jobs, with_db. simpl. rewrite insert_insert_eq. by eapply (sweep_loop_steps _ _ _ _ _ (with_db s d1)).
Qed.
(** The store's signing calls are steps of the transaction they run in. *)
Section signed.
Context `{DnsLib} `{SignLib (option (KeySigner Priv Pub))} (sha256 : bytes → bytes) (UnpackSig : bytes → option (Hdr * RRSIG)).
Context (range_sets : nat → gmap setKey (list sRR) → list setKey) (range_types : gmap bytes (list Z) → list bytes) (range_cache : gmap SigKey CachedSig → list SigKey).
Definition resigned (t : txn) (d : ddb) : txn := mkTxn (tx_zone t) (tx_began t) d (tx_queued t) (tx_refs t).
Lemma set_sigs_same d : set_sigs d (d_sigs d) = d.
Proof. by destruct d. Qed.
Lemma saveCache_signs d zone old next d' : saveCache range_cache d zone old next = Ok d' → ∃ m, d' = set_sigs d m.
Proof. unfold saveCache. intros (sigs & _ & E)%bind_Ok. injection E as <-. eauto. Qed.
Lemma store_steps s i t b z rrs now served d' : k_jobs s !! i = Some (JTx t) → sz_ID z = tx_zone t →
  Store_Sign sha256 UnpackSig range_sets range_types range_cache (tx_db t) b z rrs now = Ok (served, d') ∨ Store_SignZONEMD sha256 (tx_db t) b z rrs now = Ok (served, d') ∨
  Store_ResignSOA sha256 UnpackSig range_cache (tx_db t) b z rrs now = Ok (served, d') → kstep s (with_jobs s (<[i := JTx (resigned t d')]> (k_jobs s))).
Proof.
  intros Hi Hz Hsig. assert (∃ m f, d' = update_next (set_sigs (tx_db t) m) (tx_zone t) f) as (m & f & ->); [|by apply ks_sign]. destruct Hsig as [E|[E|E]].
  - unfold Store_Sign in E. destruct (d_settings _ !! sz_ID z) as [r|]; [|done]. destruct (negb _); [done|]. apply bind_Ok in E as (keys & _ & E). apply bind_Ok in E as (out & _ & E).
    apply bind_Ok in E as (d1 & Ed & E). injection E as _ <-. apply saveCache_signs in Ed as [m ->]. rewrite Hz. eauto.
  - unfold Store_SignZONEMD in E. case_bool_decide; [done|]. apply bind_Ok in E as (keys & _ & E). apply bind_Ok in E as ([o sigs] & _ & E). injection E as _ <-. exists (d_sigs (tx_db t)). rewrite set_sigs_same, Hz. eauto.
  - unfold Store_ResignSOA in E. destruct (filter _ _) as [|r [|]]; [done| |done]. apply bind_Ok in E as (keys & _ & E). apply bind_Ok in E as ([o sigs] & _ & E).
    apply bind_Ok in E as (d1 & Ed & E). injection E as _ <-. apply saveCache_signs in Ed as [m ->]. rewrite Hz. eauto.
Qed.
End signed.

Lemma key_rows_tags d token zone : kbase d token → NoDup (map (λ r, KeyTag (row_dnskey r)) (key_rows d zone)).
Proof.
  intros Hb. assert (key_rows d zone ≡ₚ live_rows d zone) as -> by (unfold key_rows, live_rows; by rewrite !sort_on_perm).
  apply NoDup_fmap_2_strong; [|apply (NoDup_fmap_1 kr_id); by eapply live_ids]. intros r s (_ & Hz & i & Hr)%elem_live_rows (_ & Hz' & j & Hs)%elem_live_rows E.
  rewrite <- (ki_tag _ _ Hb _ _ Hr), <- (ki_tag _ _ Hb _ _ Hs) in E. assert (i = j) as -> by (eapply (ki_tags _ _ Hb); [done..|congruence|done]). congruence.
Qed.

(** C23: Signing keys are never lost.  Transactions that create, roll or remove keys of different zones are open side by side and commit or roll
    back later than they touch the token; orphan sweeps (listing, transaction, each destruction), runs of the
    destruction queue (query, each destruction), zone deletions and signing interleave with them in any order, and any of
    them may stop half way.  References are drawn at random and never twice, and no transaction stays open for the grace period of the sweep.
    Then at every moment the token holds every key in use, committed or still to be committed; the keys in use of a zone have distinct key
    tags; a zone with signing enabled has an active KSK and an active ZSK; and one without has no key in use. *)
Theorem key_safety now s : rtc kstep (start now) s → let d := k_db s in
  (∀ id r, d_keys d !! id = Some r → live r → enabled d (kr_zone r) ∧ (kr_backend r = BackendPKCS11 → kr_ref r ∈ k_token s)) ∧
  (∀ i t id r, k_jobs s !! i = Some (JTx t) → d_keys (tx_db t) !! id = Some r → kr_zone r = tx_zone t → live r → kr_backend r = BackendPKCS11 → kr_ref r ∈ k_token s) ∧
  (∀ zone, NoDup (map (λ r, KeyTag (row_dnskey r)) (key_rows d zone))) ∧
  (∀ zone role, enabled d zone → ∃ id r, d_keys d !! id = Some r ∧ kr_zone r = zone ∧ kr_role r = role ∧ kr_state r = ActiveKey).
Proof.
  intros Hr. assert (sinv s) as Hi by (revert Hr; apply (rtc_ind_r sinv); [apply start_inv|intros s1 s2 _ Hst; by apply kstep_inv]). pose proof (si_db _ Hi) as Hk. split_and!.
  - intros id r Hin Hl. split; [by eapply (ki_dark _ _ Hk)|]. by eapply (ki_token _ _ (ki_base _ _ Hk)).
  - intros i t id r Ht Hin Hz. apply Hi in Ht as [_ _ [Hb _ _] _ _]. apply (ki_token _ _ Hb id). by apply map_lookup_filter_Some.
  - intros zone. by eapply key_rows_tags, Hk.
  - apply Hk.
Qed.
End keys_thms.
