(* ===== verification/DnssecExamples.v ===== *)
(** * Signing, evaluated

    A small zone with concrete keys, and the witnesses of the theorems on signing and key storage. *)

From S2P Require Import Prelude.
From S2P Require Import GoText.
From S2P Require Import NzfNames.
From S2P Require Import NzfFormat.
From S2P Require Import NzfTheorems.
From S2P Require Import Effects.
From S2P Require Import ZoneJournal.
From S2P Require Import DnssecRollover.
From S2P Require Import XfrIn.
From S2P Require Import DnsLib.
From S2P Require Import ZoneExamples.
From S2P Require Import Secrets.
From S2P Require Import DnssecSign.
From S2P Require Import DnssecSets.
From S2P Require Import DnssecStore.
From S2P Require Import ZoneServed.
From S2P Require Import ZoneRebuild.
From S2P Require Import DnssecChain.
From S2P Require Import DnssecSigned.
From S2P Require Import DnssecDenial.
From S2P Require Import DnssecVerify.
From S2P Require Import DnssecStable.
From S2P Require Import DnssecErrors.
From S2P Require Import DnssecSigner.
From S2P Require Import DnssecKeys.
From S2P Require Import DnssecKeysThms.

(** ** A concrete signing library

    Instances of the classes the signer, the store and the key operations are written against, small
    enough to evaluate: a signature is a sum over the wire forms it covers and the public key, an
    AES-GCM tag names the key, the nonce and the additional data it was made with.  They satisfy the
    laws, so the theorems that assume them are not vacuous. *)

Module SignExample.
(** ** Key material *)
Definition tag (k n a : bytes) : bytes := Z.pos (encode (k, n, a)) :: replicate 15 0.
#[export] Instance toy_gcm : Gcm := {|
  gcm_Seal k n p a := p ++ tag k n a;
  gcm_Open k n c a := let m := (length c - 16)%nat in if bool_decide (drop m c = tag k n a) then Some (take m c) else None;
|}.
Lemma cut_tag p k n a : let c := p ++ tag k n a in let m := (length c - 16)%nat in take m c = p ∧ drop m c = tag k n a.
Proof.
  cbv zeta. replace (length (p ++ tag k n a) - 16)%nat with (length p) by (rewrite length_app; simpl; lia).
  by rewrite take_app_length, drop_app_length.
Qed.
#[export] Instance toy_gcm_laws : GcmLaws.
Proof.
  split; simpl.
  - intros k n p a. destruct (cut_tag p k n a) as [-> ->]. by rewrite bool_decide_eq_true_2.
  - intros. rewrite len_app. done.
  - intros k n p a a' p'. destruct (cut_tag p k n a) as [-> ->]. case_bool_decide as E; [|done]. intros _. unfold tag in E.
    assert (encode (k, n, a) = encode (k, n, a')) as E' by by injection E. apply (inj encode) in E'. by injection E' as ->.
Qed.
(** Private and public keys are numbers; the private key is the public key. *)
#[export] Instance toy_keys : KeyLib Z Z := {|
  MarshalPKCS8 p := Some [p];
  ParsePKCS8 b := match b with [p] => Some p | _ => None end;
  Public p := p;
  dnskeyPublic p := Some [p];
  parseDNSKEYPublic _ b := match b with [p] => Some p | _ => None end;
  algorithmOf _ := algECDSAP256SHA256;
|}.
Abbreviation toy_signer := (option (KeySigner Z Z)).
Definition public_of (s : toy_signer) : Z := match s with Some (SoftSigner p) => p | Some (TokenSigner _ _ p) => p | None => 0 end.

(** ** Records *)
Definition key_data (k : Dnskey) : bytes := put16 (dk_Flags k) ++ [u8 (dk_Protocol k); u8 (dk_Algorithm k)] ++ dk_PublicKey k.
Definition sig_data (s : RRSIG) : bytes :=
  put16 (sg_TypeCovered s) ++ [u8 (sg_Algorithm s); u8 (sg_Labels s)] ++ put32 (sg_OrigTtl s) ++ put32 (sg_Expiration s) ++ put32 (sg_Inception s) ++
  put16 (sg_KeyTag s) ++ sg_SignerName s ++ sg_Signature s.
Definition toy_data (f : fields) : bytes :=
  match f with
  | FOther d | FCDS d => d
  | FSOA s => Lib.soa_data s
  | FDNSKEY k | FCDNSKEY k => key_data k
  | FNSEC next types => next ++ concat (map put16 types)
  | FNSEC3 h l next types => [h; 0; 0; 0; 0; l] ++ next ++ concat (map put16 types)
  | FNSEC3PARAM h => [h; 0; 0; 0; 0]
  | FRRSIG s => sig_data s
  end.
Definition sig_as_rr (x : Hdr * RRSIG) : rr := mkRR (hd_Name x.1) (hd_Rrtype x.1) (hd_Class x.1) (hd_Ttl x.1) (sig_data x.2) None.
(** A record that packs to the same octets. *)
Definition decode_data (h : Hdr) (d : bytes) : option (Hdr * RRSIG) :=
  t ← get16 d; alg ← d !! 2%nat; labels ← d !! 3%nat; ottl ← get32 (drop 4 d); exp ← get32 (drop 8 d); inc ← get32 (drop 12 d); tg ← get16 (drop 16 d);
  let rest := drop 18 d in
  match nameEnd rest with
  | Ok n => Some (h, mkRRSIG t alg labels ottl exp inc tg (take (Z.to_nat n) rest) (drop (Z.to_nat n) rest))
  | _ => None
  end.
Definition toy_unpack (w : bytes) : option (Hdr * RRSIG) :=
  r ← UnpackRR w;
  x ← decode_data (mkHdr (h_Name r) (Rrtype r) (Class r) (Ttl r)) (Data r);
  if bool_decide (PackRR (sig_as_rr x) = Some w) then Some x else None.

(** ** Signatures *)
Definition wire_of (r : sRR) : option bytes :=
  PackRR (mkRR (ToLower (s_Name r)) (s_Type r) (hd_Class (s_hdr r)) (s_Ttl r) (match s_fields r with FOther d => d | f => toy_data f end)
    (match s_fields r with FSOA s => Some s | _ => None end)).
Definition wire_sum (w : option bytes) : Z := match w with Some b => foldr Z.add 0 b | None => 0 end.
Definition toy_sum (pub : Z) (ws : list (option bytes)) : bytes := [u8 pub; u8 (foldr (λ w a, wire_sum w + a) 0 ws)].
Lemma toy_sum_perm pub ws ws' : ws ≡ₚ ws' → toy_sum pub ws = toy_sum pub ws'.
Proof.
  intros Hp. unfold toy_sum. do 3 f_equal. induction Hp as [|x l k _ IH|x y l|a b c _ -> _ ->]; simpl; [done|by rewrite IH|lia|done].
Qed.
Definition toy_make (k : toy_signer) (h : Hdr) (s : RRSIG) (set : list sRR) : option (Hdr * RRSIG) :=
  match set with
  | [] => None
  | r :: _ => Some (mkHdr (s_Name r) TypeRRSIG ClassINET (hd_Ttl h), mkRRSIG (s_Type r) (sg_Algorithm s) (sg_Labels s) (sg_OrigTtl s) (sg_Expiration s) (sg_Inception s)
      (sg_KeyTag s) (sg_SignerName s) (toy_sum (public_of k) (map wire_of set)))
  end.
(** Signing succeeds when the signature reads back from its wire form. *)
Definition toy_sign (k : toy_signer) (h : Hdr) (s : RRSIG) (set : list sRR) : option (Hdr * RRSIG) :=
  x ← toy_make k h s set;
  w ← PackRR (sig_as_rr x);
  if bool_decide (toy_unpack w = Some x) then Some x else None.
#[export] Instance toy_lib : SignLib toy_signer := {|
  field_data := toy_data;
  ToDS h k := Some (key_data k);
  KeyTag k := u16 (dk_Flags k + hd 0 (dk_PublicKey k));
  HashName n := [2; 97 + foldr Z.add 0 n mod 26];
  rrsig_Sign := toy_sign;
|}.
Lemma toy_sign_made k h s set x : toy_sign k h s set = Some x → toy_make k h s set = Some x ∧ ∃ w, PackRR (sig_as_rr x) = Some w ∧ toy_unpack w = Some x.
Proof.
  unfold toy_sign. destruct (toy_make k h s set) as [y|]; [|done]. cbn [mbind option_bind]. destruct (PackRR (sig_as_rr y)) as [w|] eqn:Ew; [|done].
  cbn [mbind option_bind]. case_bool_decide; [|done]. intros [= <-]. split; [done|]. by exists w.
Qed.
Lemma lower_name n : Lib.name_ok n → Lib.name_ok (ToLower n).
Proof.
  intros [Hv Ha]. pose proof (Lib.ascii_bytes _ Ha) as Hb. apply validName_spec in Hv as (ls & -> & Hls & Hlen); [|done].
  assert (Forall (λ c, 0 ≤ c < RuneSelf) (ToLower (wire_name ls))) as Ha'.
  { apply Forall_map. eapply Forall_impl; [exact Ha|]. intros c. unfold ascii_lower, is_upper, RuneSelf. destruct (Z.leb_spec 65 c), (Z.leb_spec c 90); simpl; lia. }
  split; [|done]. apply validName_spec; [by apply Lib.ascii_bytes|]. exists (map (map ascii_lower) ls). unfold ToLower. rewrite map_lower_wire_name by done.
  split; [done|]. split; [by apply label_ok_lower|]. rewrite <- map_lower_wire_name, len_map by done. done.
Qed.
#[export, refine] Instance toy_laws : SignLaws toy_signer := {|
  key_pair k d := dk_PublicKey d = [public_of k];
  Verifies d s set := ∃ pub, dk_PublicKey d = [pub] ∧ sg_Signature s = toy_sum pub (map wire_of set);
|}.
Proof.
  - apply lower_name.
  - intros n o _ Hl (-> & _)%Lib.pack_name_Some. exact Hl.
  - intros n origin _ [o (_ & ? & ?)%Lib.pack_name_Some]. by split.
  - intros k h s r set h' s' [[= <- <-] _]%toy_sign_made. by split_and!.
  - intros k d h s set h' s' Hk _ _ [Hm _]%toy_sign_made. exists (public_of k). split; [done|]. unfold toy_make in Hm. destruct set; [done|]. by injection Hm as <- <-.
  - intros d s set set' Hp (pub & Hd & Hs). exists pub. split; [done|]. rewrite Hs. by apply toy_sum_perm.
Defined.
Lemma unpack_packs w x : toy_unpack w = Some x → PackRR (sig_as_rr x) = Some w.
Proof. unfold toy_unpack. intros (r & _ & E)%bind_Some. apply bind_Some in E as (y & _ & E). case_bool_decide; [|done]. by injection E as <-. Qed.
#[export, refine] Instance toy_wire : SigWire toy_signer toy_unpack := {|
  good_sig x := ∀ w, PackRR (sig_as_rr x) = Some w → toy_unpack w = Some x;
|}.
Proof.
  - intros k h s set x (_ & w & Ew & Hu)%toy_sign_made w' Ew'. congruence.
  - intros w x Hu w' Ew'. apply unpack_packs in Hu as Ew. congruence.
  - intros x w Hg Hp. by apply Hg.
  - intros h s d Hd. unfold rdata_of in Hd. simpl in Hd. unfold Lib.rdata in Hd. simpl in Hd. case_decide; [|done]. injection Hd as <-. unfold sig_data. by eexists.
Defined.

(** ** Digests and map ranges *)
Definition toy_sha (b : bytes) : bytes := Z.pos (encode b) :: replicate 31 0.
Lemma toy_sha_inj : Inj (=) (=) toy_sha.
Proof. intros a b E. unfold toy_sha in E. apply (inj encode). by injection E. Qed.
Lemma toy_sha_len b : len (toy_sha b) = 32.
Proof. done. Qed.
Definition range {K V} `{Countable K} (m : gmap K V) : list K := (map_to_list m).*1.
Definition range_back {K V} `{Countable K} (m : gmap K V) : list K := rev (range m).
Lemma range_ranges {K V} `{Countable K} : ranges (K := K) (V := V) range.
Proof. by intros m. Qed.
Lemma range_back_ranges {K V} `{Countable K} : ranges (K := K) (V := V) range_back.
Proof. intros m. symmetry. apply Permutation_rev. Qed.
End SignExample.

(** ** A zone signed

    The theorems on signing applied to the zone [z.] with the library above: an apex, a
    host, a delegation with glue below it and a host below an empty non-terminal. *)

Module DnssecWitness.
Import SignExample.

Definition apex : bytes := [1; 122; 0].
Definition host : bytes := [2; 119; 46] ++ apex.
Definition child : bytes := [2; 100; 46] ++ apex.
Definition glue : bytes := [2; 110; 46] ++ child.
Definition deep : bytes := [2; 97; 46; 2; 98; 46] ++ apex.
Definition record_at (n : bytes) (t : Z) (d : bytes) : sRR := mkSRR (hdr n t 300) (FOther d).
Definition records : list sRR :=
  [mkSRR (hdr apex TypeSOA 300) (FSOA (mkSOA [1; 110; 0] [1; 109; 0] 1 2 3 4 60)); record_at apex TypeNS [1; 110; 0]; record_at host TypeA [192; 0; 2; 1];
   record_at child TypeNS [1; 110; 0]; record_at glue TypeA [192; 0; 2; 2]; record_at deep TypeA [192; 0; 2; 3]].
Definition ksk : Key toy_signer := mkSKey [1] KSK 13 (mkDnskey 257 3 13 [5]) (Some (SoftSigner 5)) true true.
Definition zsk : Key toy_signer := mkSKey [2] ZSK 13 (mkDnskey 256 3 13 [7]) (Some (SoftSigner 7)) true false.
Definition time : Z := 1000000 * second.
Definition zone_input (nsec3 : bool) : Input toy_signer := mkInput apex records [ksk; zsk] nsec3 ∅ time.
Abbreviation sign nsec3 := (Sign toy_sha (λ _, range) range (zone_input nsec3)).
Definition signed (nsec3 : bool) : Output := match sign nsec3 with Ok out => out | _ => mkOutput [] ∅ 0 0 0 end.
Lemma signed_Ok nsec3 : sign nsec3 = Ok (signed nsec3).
Proof. destruct nsec3; vm_compute; reflexivity. Qed.
Lemma input_wf nsec3 : wf_input (zone_input nsec3).
Proof. split; [|by_compute|done]. apply (bool_decide_unpack _). by vm_compute. Qed.
Lemma cache_wf nsec3 : wf_cache (in_Cache (zone_input nsec3)).
Proof. intros sk c. simpl. by rewrite lookup_empty. Qed.

(** ** Denial *)
Lemma Sign_nsec_chain_witness : ∃ soa owners, StronglySorted (key_lt canon bytes_compare) owners ∧
  (∀ o, o ∈ owners ↔ ∃ t, owned (zone_keys (zone_input false) soa) apex (o, t)) ∧ ∀ r, r ∈ o_Served (signed false) → s_Type r = TypeNSEC → s_Name r ∈ owners.
Proof.
  destruct (Sign_nsec_chain toy_sha (λ _, range) range (λ _, range_ranges) range_ranges (zone_input false) (signed false) (input_wf _) (cache_wf _) eq_refl (signed_Ok false))
    as (soa & owners & _ & H1 & H2 & H3 & _).
  exact (ex_intro _ soa (ex_intro _ owners (conj H1 (conj H2 H3)))).
Defined.
Definition absent : bytes := [2; 109; 46] ++ apex.
Definition soa_fields : Hdr * SOAData := (hdr apex TypeSOA 300, mkSOA [1; 110; 0] [1; 109; 0] 1 2 3 4 60).
Lemma absent_owns t : ¬ owned (zone_keys (zone_input false) soa_fields) apex (absent, t).
Proof.
  intros [Hin _]. apply (list_elem_of_fmap_2 fst) in Hin. revert Hin. apply (bool_decide_unpack _). by vm_compute.
Qed.
Lemma Sign_nsec_denies_witness : exists! r, r ∈ o_Served (signed false) ∧ s_Type r = TypeNSEC ∧
  ∃ next bitmap, s_fields r = FNSEC next bitmap ∧ in_gap (canon (s_Name r)) (canon next) (canon absent).
Proof.
  apply (Sign_nsec_denies toy_sha (λ _, range) range (λ _, range_ranges) range_ranges (zone_input false) (signed false) soa_fields absent (input_wf _) (cache_wf _) eq_refl (signed_Ok false)).
  - vm_compute. reflexivity.
  - split; by_compute.
  - by_compute.
  - exact absent_owns.
Defined.
Lemma Sign_nsec3_chain_witness : ∃ soa hs, StronglySorted (key_lt fst bytes_compare) hs ∧ ∀ h n, (h, n) ∈ hs ↔
  h = ToLower (HashName n) ∧ ((∃ t, owned (zone_keys (zone_input true) soa) apex (n, t)) ∨ ∃ o t, owned (zone_keys (zone_input true) soa) apex (o, t) ∧ Above apex o n).
Proof.
  destruct (Sign_nsec3_chain toy_sha (λ _, range) range (λ _, range_ranges) range_ranges (zone_input true) (signed true) (input_wf _) (cache_wf _) eq_refl (signed_Ok true))
    as (soa & hs & _ & H1 & H2 & _).
  exact (ex_intro _ soa (ex_intro _ hs (conj H1 H2))).
Defined.

(** ** Signatures *)
Lemma keys_pairs nsec3 : keys_ok (zone_input nsec3).
Proof. intros key Hk _. simpl in Hk. rewrite !elem_of_cons, elem_of_nil in Hk. by destruct Hk as [-> |[-> |[]]]. Qed.
Lemma keys_tags nsec3 : tags_distinct (zone_input nsec3).
Proof. apply (bool_decide_unpack _). by vm_compute. Qed.
Lemma Sign_verifies_witness : wf_cache (o_Cache (signed true)) ∧ cache_valid toy_sha [ksk; zsk] (o_Cache (signed true)) ∧
  ∀ r, r ∈ o_Served (signed true) → s_Type r = TypeRRSIG → ∃ k key s, r = sig_rr s ∧ key ∈ [ksk; zsk] ∧ Verifies (K_DNSKEY key) s.2 (served_set (signed true) k).
Proof.
  destruct (Sign_verifies toy_sha (λ _, range) range (λ _, range_ranges) range_ranges (zone_input true) (signed true) toy_sha_inj (input_wf _) (keys_pairs _) (keys_tags _) (cache_wf _))
    as (soa & _ & _ & H & Hw & Hv); [intros sk c key; simpl; by rewrite lookup_empty|apply signed_Ok|].
  split; [exact Hw|split; [exact Hv|]]. intros r Hr Ht. destruct (H r Hr Ht) as (k & key & s & E & _ & _ & _ & Hk & _ & V). exists k, key, s. exact (conj E (conj Hk V)).
Defined.
Lemma time_ok : clock_ok time.
Proof. by_compute. Qed.
Lemma Sign_fresh_witness : time + refreshWindow < o_NextRefresh (signed false) ∧
  ∃ s, sig_rr s ∈ o_Served (signed false) ∧ o_NextRefresh (signed false) = time_Unix (sg_Expiration s.2) - RefreshBefore.
Proof.
  apply (Sign_fresh toy_sha (λ _, range) range (λ _, range_ranges) range_ranges (zone_input false) (signed false) (input_wf _) (cache_wf _) time_ok (signed_Ok false)).
Defined.
Lemma Sign_ranges_witness : sign true = Sign toy_sha (λ _, range_back) range_back (zone_input true).
Proof. exact (Sign_ranges toy_sha (λ _, range) (λ _, range_back) range range_back (λ _, range_ranges) (λ _, range_back_ranges) range_ranges range_back_ranges _ (input_wf true)). Defined.
Lemma later_time : time + hour + refreshWindow < o_NextRefresh (signed true).
Proof. vm_compute. reflexivity. Qed.
Lemma Sign_again_witness : ∃ out', Sign toy_sha (λ _, range_back) range_back (later (zone_input true) (o_Cache (signed true)) (time + hour)) = Ok out' ∧
  o_Served out' = o_Served (signed true) ∧ o_Created out' = 0.
Proof.
  destruct (Sign_again toy_sha (λ _, range) (λ _, range_back) range range_back (λ _, range_ranges) (λ _, range_back_ranges) range_ranges range_back_ranges
    (zone_input true) (signed true) (time + hour) (input_wf _) (cache_wf _) (keys_tags _) time_ok (signed_Ok true)) as (out' & H1 & H2 & H3 & _); [by_compute|exact later_time|].
  exact (ex_intro _ out' (conj H1 (conj H2 H3))).
Defined.

(** Without a key-signing key the apex cannot be signed. *)
Definition keyless : Input toy_signer := mkInput apex records [zsk] true ∅ time.
Lemma Sign_fails_witness : ∃ e, Sign toy_sha (λ _, range) range keyless = Err e ∧ cause keyless e.
Proof.
  assert (wf_input keyless) as Hw by (destruct (input_wf true); by split).
  destruct (Sign_fails toy_sha (λ _, range) range (λ _, range_ranges) range_ranges keyless Hw) as [[out E]|He]; [|exact He].
  exfalso. revert E. vm_compute. discriminate.
Defined.

(** ** Sealing *)
Definition file_box : option Box := Some (mkBox (replicate 32 7) (replicate 8 1) None).
Definition random : option (bytes * bytes * bytes) := Some (replicate 32 9, replicate 12 2, replicate 12 3).
Definition sealed : bytes := match Seal file_box (SigningKeyPurpose [1]) [5] random with Ok e => e | _ => [] end.
Lemma Unseal_Seal_witness : Unseal file_box (SigningKeyPurpose [1]) sealed = Ok [5] ∧ Unseal file_box (SigningKeyPurpose [2]) sealed = Err AuthFailed.
Proof.
  assert (box_ok file_box) as Hb by (intros bx [= <-]; by split).
  assert (rand_ok random) as Hr by (intros d n m [= <- <- <-]; done).
  assert (Seal file_box (SigningKeyPurpose [1]) [5] random = Ok sealed) as Hs by (vm_compute; reflexivity).
  split; rewrite (Unseal_Seal file_box (SigningKeyPurpose [1]) _ [5] random sealed Hb Hr Hs); vm_compute; reflexivity.
Defined.

(** ** Keys *)
Definition token_box : option Box := Some (mkBox [] [] (Some (mkHsm (replicate 8 1) (λ _ _, None) (λ _ _, Err CryptoErr)))).
Definition made (ref pub : Z) : attempt (Priv := Z) := mkAttempt (Some [ref]) (Some [pub]) None None true.
Definition kind (zone : bytes) : option bool := Some true.
Definition settings : Settings := mkSettings 0 [] [] 0 0 90.
Definition db0 : ddb := mkDdb ∅ ∅ ∅ [] ∅.
(** Signing of zone 1 is enabled; the first ZSK collides with the KSK and is destroyed. *)
Definition enable : kop (Priv := Z) := OpEnable token_box [1] settings time [10] [20] [made 1 5] [made 2 6; made 3 7].
Definition db1 : ddb := match run_op (KeyTag (Signer := toy_signer)) kind enable db0 ∅ with (_, Ok d) => d | _ => db0 end.
Definition token1 : gset bytes := (run_op (KeyTag (Signer := toy_signer)) kind enable db0 ∅).1.
(** While that transaction is open, a sweep lists the token and records the new keys as orphans; then it commits, and two hours later
    a sweep that nothing interrupts finds them in use. *)
Abbreviation step := (kstep (Pub := Z) (KeyTag (Signer := toy_signer)) kind).
Definition tx1 : txn := mkTxn [1] time db1 [] {[ [1]; [2]; [3] ]}.
Definition opened : kst := with_jobs (with_token (draws (start time) enable) token1) {[0%nat := JTx tx1]}.
Definition listing : kst := with_jobs opened (<[1%nat := JListed token1]> (k_jobs opened)).
Definition recorded : kst := with_jobs (with_db listing (sweep_record db0 token1 time OrphanGrace).1) (<[1%nat := JDue []]> (k_jobs listing)).
Definition committed : kst := with_jobs (with_db recorded (commit (k_db recorded) tx1)) (delete 0%nat (k_jobs recorded)).
Definition later : kst := mkKst (time + 2 * hour) (k_db committed) (k_token committed) (k_drawn committed) (k_jobs committed).
Definition sweep2 : ddb * gset bytes * Z * Z := SweepTokenOrphans (k_db later) (k_token later) token_box (k_now later) OrphanGrace (λ _, true) (λ _, true).
Definition swept : kst := after later sweep2.1.1.1 sweep2.1.1.2.
Definition no_tx (j : job) : bool := match j with JTx _ => false | _ => true end.
Lemma no_tx_open (jobs : gmap nat job) : map_Forall (λ _ j, no_tx j = true) jobs → ∀ i t, jobs !! i ≠ Some (JTx t).
Proof. intros Hj i t Hi. by apply Hj in Hi. Qed.
Lemma enable_fresh : fresh_op ∅ enable.
Proof. split; [apply disjoint_empty_r|]. by_compute. Qed.
Lemma opened_reached : rtc step (start time) opened.
Proof.
  apply rtc_once. refine (ks_begin (Pub := Z) (KeyTag (Signer := toy_signer)) kind (start time) enable 0 token1 db1 _ _ enable_fresh _); [done|intros i t Hi; simpl in Hi; by rewrite lookup_empty in Hi|vm_compute; reflexivity].
Qed.
Lemma swept_reached : rtc step (start time) swept.
Proof.
  etrans; [exact opened_reached|]. eapply rtc_l; [apply (ks_list _ _ opened 1 token_box); vm_compute; reflexivity|].
  eapply rtc_l; [apply (ks_record _ _ listing 1 token1 (sweep_record db0 token1 time OrphanGrace).1 []); vm_compute; reflexivity|].
  eapply rtc_l; [apply (ks_commit _ _ recorded 0 tx1); [vm_compute; reflexivity|by_compute]|].
  eapply rtc_l; [apply (ks_tick _ _ committed (time + 2 * hour)); [by vm_compute|]|].
  - intros i t Hi. destruct (no_tx_open (k_jobs committed) ltac:(by_compute) i t Hi).
  - apply (Sweep_steps _ _ later token_box (λ _, true) (λ _, true) sweep2.1.1.1 sweep2.1.1.2 sweep2.1.2 sweep2.2). vm_compute. reflexivity.
Qed.
(** Its removal is queued when signing is disabled, and carried out. *)
Definition tx2 : txn := mkTxn [1] (time + 2 * hour) (Disable (k_db swept) [1] (time + 2 * hour)) [[1]; [3]] ∅.
Definition disabling : kst := with_jobs (with_token (draws (Priv := Z) swept (OpDisable [1] (time + 2 * hour))) (k_token swept)) (<[0%nat := JTx tx2]> (k_jobs swept)).
Definition disabled : kst := with_jobs (with_db disabling (commit (k_db disabling) tx2)) (delete 0%nat (k_jobs disabling)).
Definition emptied : ddb * gset bytes * Z := match DestroyPending (k_db disabled) (k_token disabled) token_box (λ _, true) (λ _, true) with Ok r => r | _ => (db0, ∅, 0) end.
Definition destroyed : kst := after disabled emptied.1.1 emptied.1.2.
Lemma destroyed_reached : rtc step (start time) destroyed.
Proof.
  etrans; [exact swept_reached|]. eapply rtc_l.
  - refine (ks_begin (Pub := Z) (KeyTag (Signer := toy_signer)) kind swept (OpDisable [1] (time + 2 * hour)) 0 (k_token swept) (Disable (k_db swept) [1] (time + 2 * hour)) _ _ _ _);
      [vm_compute; reflexivity|intros i t Hi; destruct (no_tx_open (k_jobs swept) ltac:(by_compute) i t Hi)|split; [apply disjoint_empty_l|done]|reflexivity].
  - eapply rtc_l; [apply (ks_commit _ _ disabling 0 tx2); [vm_compute; reflexivity|by_compute]|].
    apply (DestroyPending_steps _ _ disabled token_box (λ _, true) (λ _, true) emptied.1.1 emptied.1.2 emptied.2). vm_compute. reflexivity.
Qed.
Lemma keytag_u16 k : is_u16 (KeyTag (Signer := toy_signer) k).
Proof. simpl. unfold is_u16, u16. apply Z.mod_pos_bound. lia. Qed.
Lemma key_safety_witness : d_orphans (k_db recorded) !! [3] = Some time ∧ (∃ id r, d_keys (k_db swept) !! id = Some r ∧ kr_zone r = [1] ∧ kr_role r = ZSK ∧ kr_state r = ActiveKey) ∧
  k_token swept = {[ [1]; [3] ]} ∧ (∀ id r, d_keys (k_db destroyed) !! id = Some r → live r → enabled (k_db destroyed) (kr_zone r)) ∧ k_token destroyed = ∅.
Proof.
  destruct (key_safety (Pub := Z) (KeyTag (Signer := toy_signer)) kind keytag_u16 time swept swept_reached) as (_ & _ & _ & Ha).
  destruct (key_safety (Pub := Z) (KeyTag (Signer := toy_signer)) kind keytag_u16 time destroyed destroyed_reached) as (Hl & _).
  split; [vm_compute; reflexivity|]. split; [apply Ha; eexists; split; [vm_compute; reflexivity|reflexivity]|]. split; [vm_compute; reflexivity|]. split; [|vm_compute; reflexivity].
  intros id r Hr Hlv. exact (proj1 (Hl id r Hr Hlv)).
Defined.

(** ** The store *)
Definition zone1 : SZone := mkSZone [1] apex 300.
Abbreviation store_sign := (Store_Sign toy_sha toy_unpack (λ _, range) range range).
Definition stored : list sRR * ddb := match store_sign db1 token_box zone1 records time with Ok r => r | _ => ([], db1) end.
Lemma stored_Ok : store_sign db1 token_box zone1 records time = Ok (stored.1, stored.2).
Proof. vm_compute. reflexivity. Qed.
Lemma no_sigs only : wf_cache (loadCache toy_unpack db1 [1] only).
Proof.
  intros sk c. unfold loadCache. rewrite lookup_omap. replace (zone_sigs db1 [1]) with (∅ : gmap SigKey sig_row) by (vm_compute; reflexivity).
  destruct only; [rewrite map_filter_empty|]; by rewrite lookup_empty.
Qed.
Definition stored_next : Z := default 0 (d_settings stored.2 !! [1] ≫= zd_next).
Lemma Store_Sign_again_witness : ∃ d'', store_sign stored.2 token_box zone1 records (time + hour) = Ok (stored.1, d'').
Proof.
  destruct (Store_Sign_again toy_sha toy_unpack (λ _, range) range range (λ _, range_ranges) range_ranges range_ranges toy_sha_len db1 token_box zone1 records time stored.1 stored.2 (time + hour))
    as (d'' & H & _).
  - exact (wi_records _ (input_wf true)).
  - exact (wi_origin _ (input_wf true)).
  - done.
  - apply (bool_decide_unpack _). by vm_compute.
  - exact (no_sigs None).
  - exact time_ok.
  - by_compute.
  - exact stored_Ok.
  - intros r t Hr Ht. assert (stored_next = t) as <- by (unfold stored_next; change (sz_ID zone1) with [1] in Hr; by rewrite Hr; simpl; rewrite Ht). vm_compute. reflexivity.
  - exact (ex_intro _ d'' H).
Defined.
Lemma store_signer_laws_witness : SignerLaws trr_FromRR (store_signer toy_sha toy_unpack (λ _, range) range range (λ _ : Zone bytes, zone1) token_box time db1 db1 stored.2).
Proof. exact (store_signer_laws toy_sha toy_unpack (λ _, range) range range (λ _, zone1) token_box time db1 db1 stored.2 (λ _ k, no_sigs (Some k))). Defined.
End DnssecWitness.
