(* ===== verification/ValDenial.v ===== *)
(** * Denial of existence in the recursor

    The names of the DNS library, and engine/src/recursor/dnssec/denial.rs on top of them. *)

From S2P Require Import Prelude.
From S2P Require Import GoText.
From S2P Require Import ZoneJournal.
From S2P Require Import DnsLib.
From S2P Require Import DnssecSign.

(** ** Names in the recursor

    The names of the DNS library the engine's recursor uses (hickory-proto), as a class of operations
    with what is documented of them: a name is its labels, compared without regard to ASCII case.  The
    path of a name, its lower-case labels from the root down, turns ancestors into prefixes and the
    canonical order of RFC 4034 into the order of lists. *)

Class NameLib := {
  Name : Type;
  labels : Name → list bytes;
  Name_eqb : Name → Name → bool;
  trim_to : Name → nat → Name;
  num_labels : Name → nat;
  zone_of : Name → Name → bool;
  base_name : Name → Name;
  (** [Name::from_ascii("*")] with [append_domain]: none when the name gets too long. *)
  prepend_star : Name → option Name;
  to_lowercase : Name → Name;
  Name_root : Name;
}.
Definition star : bytes := [42].
Definition path `{NameLib} (n : Name) : list bytes := rev (map (map ascii_lower) (labels n)).
(** [num_labels] does not count a leading asterisk. *)
Class NameLaws `{NameLib} := {
  eqb_path : ∀ a b, Name_eqb a b = bool_decide (path a = path b);
  trim_labels : ∀ n k, labels (trim_to n k) = drop (length (labels n) - k) (labels n);
  num_labels_spec : ∀ n, num_labels n = match labels n with l :: ls => if bool_decide (l = star) then length ls else S (length ls) | [] => 0%nat end;
  zone_path : ∀ a b, zone_of a b = bool_decide (path a `prefix_of` path b);
  base_labels : ∀ n, labels (base_name n) = tail (labels n);
  star_labels : ∀ n w, prepend_star n = Some w → labels w = star :: labels n;
  lower_labels : ∀ n, labels (to_lowercase n) = map (map ascii_lower) (labels n);
  root_labels : labels Name_root = [];
}.

(** ** The order of paths *)
Fixpoint path_compare (a b : list bytes) : comparison :=
  match a, b with
  | [], [] => Eq
  | [], _ :: _ => Lt
  | _ :: _, [] => Gt
  | x :: a, y :: b => match bytes_compare x y with Eq => path_compare a b | c => c end
  end.
#[export] Instance path_compare_order : CmpOrder path_compare.
Proof.
  split.
  - intros a. induction a as [|x a IH]; intros [|y b]; simpl; try done. rewrite (bytes_compare_opp x y), IH. by destruct (bytes_compare x y).
  - intros a. induction a as [|x a IH]; intros [|y b]; simpl; try done. destruct (bytes_compare x y) eqn:E; try done. apply bytes_compare_eq in E as ->. by intros ->%IH.
  - intros a. induction a as [|x a IH]; intros [|y b] [|z c]; simpl; try done. destruct (bytes_compare x y) eqn:E1; [apply bytes_compare_eq in E1 as ->| |done].
    + destruct (bytes_compare y z) eqn:E2; [|done|done]. apply IH.
    + intros _. destruct (bytes_compare y z) eqn:E2; [apply bytes_compare_eq in E2 as ->; by rewrite E1|intros _; by rewrite (bytes_compare_lt_trans _ _ _ E1 E2)|done].
Qed.
Definition path_lt (a b : list bytes) : Prop := path_compare a b = Lt.
#[export] Instance path_lt_dec a b : Decision (path_lt a b).
Proof. unfold path_lt. apply _. Defined.
Lemma path_lt_irrefl a : ¬ path_lt a a.
Proof. unfold path_lt. by rewrite (cmp_refl path_compare). Qed.
Lemma path_lt_trans a b c : path_lt a b → path_lt b c → path_lt a c.
Proof. apply (cmp_lt_trans (cmp := path_compare)). Qed.
Lemma path_lt_total a b : path_lt a b ∨ a = b ∨ path_lt b a.
Proof.
  unfold path_lt. destruct (path_compare a b) eqn:E; [right; left; by apply (cmp_eq (cmp := path_compare))|by left|right; right]. by rewrite (cmp_opp (cmp := path_compare) a b), E.
Qed.
(** An ancestor comes first, and the names below one are next to each other. *)
Lemma prefix_le p n : p `prefix_of` n → p = n ∨ path_lt p n.
Proof.
  intros [k ->]. induction p as [|x p IH]; simpl; [destruct k; [by left|by right]|]. unfold path_lt. simpl. rewrite (cmp_refl bytes_compare). destruct IH as [<-|IH]; [by left|by right].
Qed.
Lemma prefix_between p a b c : p `prefix_of` a → p `prefix_of` c → ¬ path_lt b a → ¬ path_lt c b → p `prefix_of` b.
Proof.
  intros [a' ->] [c' ->]. revert b. induction p as [|x p IH]; intros b; [intros _ _; apply prefix_nil|]. destruct b as [|y b]; [by intros H _; destruct H|].
  unfold path_lt in *. cbn [app path_compare]. destruct (bytes_compare y x) eqn:E.
  - apply bytes_compare_eq in E as ->. rewrite (cmp_refl bytes_compare). intros H1 H2. by apply prefix_cons, IH.
  - by intros [].
  - rewrite (bytes_compare_opp y x), E. simpl. by intros _ [].
Qed.

(** ** Laws on paths *)
Section paths.
Context `{NameLaws}.

Lemma length_path n : length (path n) = length (labels n).
Proof. unfold path. by rewrite length_rev, length_map. Qed.
Lemma path_trim n k : path (trim_to n k) = take k (path n).
Proof. unfold path. by rewrite trim_labels, firstn_rev, length_map, skipn_map. Qed.
Lemma path_star n w : prepend_star n = Some w → path w = path n ++ [star].
Proof. intros E%star_labels. unfold path. rewrite E. done. Qed.
Lemma path_lower n : path (to_lowercase n) = path n.
Proof. unfold path. rewrite lower_labels. f_equal. rewrite map_map. apply map_ext. intros l. rewrite map_map. apply map_ext. apply ascii_lower_idemp. Qed.
Lemma path_root : path Name_root = [].
Proof. unfold path. by rewrite root_labels. Qed.
Lemma path_base n : path (base_name n) = take (length (path n) - 1) (path n).
Proof. unfold path. rewrite base_labels. destruct (labels n) as [|l ls]; [done|]. simpl. rewrite length_app. simpl. rewrite take_app_le, take_ge by lia. done. Qed.
Lemma eqb_true a b : Name_eqb a b = true ↔ path a = path b.
Proof. by rewrite eqb_path, bool_decide_eq_true. Qed.
Lemma zone_of_true a b : zone_of a b = true ↔ path a `prefix_of` path b.
Proof. by rewrite zone_path, bool_decide_eq_true. Qed.
End paths.

(** ** Denial of existence in the recursor

    engine/src/recursor/dnssec/denial.rs: canonical order, NSEC proofs and NSEC3 proofs, on records that
    were verified before.  A denial record is the library's: its fields are here, whether it marks the
    parent side of a cut, the NSEC3 digest and the base32 of an owner are parameters. *)

Record NSEC `{NameLib} := mkNSEC { next_domain_name : Name; type_set : list Z }.
Record NSEC3 := mkNSEC3 { opt_out : bool; iterations : Z; salt : bytes; next_hashed_owner_name : bytes; type_set3 : list Z }.

#[global] Arguments mkNSEC {_}.

Class DenialLib `{NameLib} := {
  (** Of the types of an NSEC or NSEC3 record. *)
  is_ancestor_delegation : list Z → bool;
  nsec3_digest : bytes → Z → Name → option bytes;
  base32hex_decode : bytes → option bytes;
}.

Inductive Denial := Proven | ProvenOptOut | NotProven (why : string) | InsecureIterations (n : Z) | BogusIterations (n : Z).
#[export] Instance Denial_eq_dec : EqDecision Denial.
Proof. solve_decision. Defined.
Definition NSEC3_INSECURE_ITERATIONS : Z := 50.
Definition NSEC3_BOGUS_ITERATIONS : Z := 150.

Section denial.
Context `{NameLib} `{!DenialLib}.

(** ** Order *)
Fixpoint zip_cmp (x y : list bytes) : comparison :=
  match x, y with
  | a :: x, b :: y => match bytes_compare a b with Eq => zip_cmp x y | o => o end
  | _, _ => Eq
  end.
Definition canonical_cmp (a b : Name) : comparison :=
  let al := map (map ascii_lower) (labels a) in
  let bl := map (map ascii_lower) (labels b) in
  match zip_cmp (rev al) (rev bl) with Eq => Nat.compare (length al) (length bl) | o => o end.
Definition is_less (c : comparison) : bool := match c with Lt => true | _ => false end.
Definition nsec_covers (owner next name : Name) : bool :=
  if is_less (canonical_cmp owner next) then is_less (canonical_cmp owner name) && is_less (canonical_cmp name next)
  else is_less (canonical_cmp owner name) || is_less (canonical_cmp name next).
(** The number of labels [take_while] takes. *)
Fixpoint shared (x y : list bytes) : nat :=
  match x, y with
  | a :: x, b :: y => if bool_decide (map ascii_lower a = map ascii_lower b) then S (shared x y) else 0%nat
  | _, _ => 0%nat
  end.
Definition common_ancestor (a b : Name) : Name := trim_to a (shared (rev (labels a)) (rev (labels b))).
Definition wildcard_of (ce : Name) : option Name := prepend_star ce.

(** ** NSEC *)
Definition usable_below (owner : Name) (n : NSEC) (name : Name) : bool :=
  negb (is_ancestor_delegation (type_set n) && zone_of owner name && negb (Name_eqb owner name)).
Definition covering_nsec (name : Name) (nsecs : list (Name * NSEC)) : option (Name * NSEC) :=
  snd <$> list_find (λ p, nsec_covers p.1 (next_domain_name p.2) name && usable_below p.1 p.2 name = true) nsecs.
Definition closest_encloser (qname owner next : Name) : Name :=
  let a := common_ancestor qname owner in
  let b := common_ancestor qname next in
  if (num_labels b <=? num_labels a)%nat then a else b.
Definition nsec_at (name : Name) (nsecs : list (Name * NSEC)) : option NSEC :=
  (λ p, p.2.2) <$> list_find (λ p, Name_eqb p.1 name = true) nsecs.
Definition is_Some_b {A} (o : option A) : bool := match o with Some _ => true | None => false end.
Definition nsec_proves_nxdomain (qname : Name) (nsecs : list (Name * NSEC)) : Denial :=
  if existsb (λ p, Name_eqb p.1 qname) nsecs then NotProven "name exists"
  else match covering_nsec qname nsecs with
       | None => NotProven "no NSEC covers qname"
       | Some (owner, n) =>
           match wildcard_of (closest_encloser qname owner (next_domain_name n)) with
           | None => NotProven "no NSEC covers the wildcard"
           | Some wild => if is_Some_b (covering_nsec wild nsecs) then Proven else NotProven "no NSEC covers the wildcard"
           end
       end.
Definition contains (l : list Z) (t : Z) : bool := bool_decide (t ∈ l).
Definition bitmap_denies (has : Z → bool) (ancestor_delegation : bool) (qtype : Z) : Denial :=
  if has qtype then NotProven "type present in bitmap"
  else if has TypeCNAME then NotProven "CNAME present in bitmap"
  else if (qtype =? TypeDS) && has TypeSOA then NotProven "DS denial from the child zone"
  else if negb (qtype =? TypeDS) && ancestor_delegation then NotProven "denial from the parent side of a delegation"
  else Proven.
Definition types_deny (types : list Z) (qtype : Z) : Denial := bitmap_denies (contains types) (is_ancestor_delegation types) qtype.
Definition nsec_proves_nodata (qname : Name) (qtype : Z) (nsecs : list (Name * NSEC)) : Denial :=
  match nsec_at qname nsecs with
  | Some n => types_deny (type_set n) qtype
  | None =>
      match covering_nsec qname nsecs with
      | None => NotProven "no matching NSEC"
      | Some (owner, n) =>
          if zone_of qname (next_domain_name n) then Proven
          else match wildcard_of (closest_encloser qname owner (next_domain_name n)) with
               | Some wild => match nsec_at wild nsecs with Some w => types_deny (type_set w) qtype | None => NotProven "no matching NSEC" end
               | None => NotProven "no matching NSEC"
               end
      end
  end.
Definition nsec_proves_no_closer_match (qname : Name) (rrsig_labels : nat) (nsecs : list (Name * NSEC)) : Denial :=
  if is_Some_b (covering_nsec (trim_to qname (rrsig_labels + 1)) nsecs) then Proven else NotProven "next closer name not covered".

(** ** NSEC3 *)
Definition nsec3_hash (name : Name) (n : NSEC3) : option bytes := nsec3_digest (salt n) (iterations n) name.
Definition nsec3_owner_hash (owner : Name) : option bytes :=
  match labels owner with [] => None | first :: _ => base32hex_decode (map ascii_upper first) end.
Definition nsec3_covers_hash (owner_hash next h : bytes) : bool :=
  if bytes_lt owner_hash next then bytes_lt owner_hash h && bytes_lt h next else bytes_lt owner_hash h || bytes_lt h next.
(** [Nsec3Set::new]: the records of the zone that share the parameters of the first one. *)
Definition max_iterations (nsec3s : list (Name * NSEC3)) : Z := foldr (λ p m, Z.max (iterations p.2) m) 0 nsec3s.
Definition same_params (f n : NSEC3) : bool := bool_decide (salt f = salt n) && (iterations f =? iterations n).
Definition of_zone (zone : Name) (p : Name * NSEC3) : bool := Name_eqb (base_name p.1) zone.
Definition with_hash (p : Name * NSEC3) : option (bytes * NSEC3) := (λ h, (h, p.2)) <$> nsec3_owner_hash p.1.
Definition Nsec3Set_new (zone : Name) (nsec3s : list (Name * NSEC3)) : list (bytes * NSEC3) + Denial :=
  let max := max_iterations nsec3s in
  if NSEC3_BOGUS_ITERATIONS <? max then inr (BogusIterations max)
  else if NSEC3_INSECURE_ITERATIONS <? max then inr (InsecureIterations max)
  else
    inl (match list_find (λ p, of_zone zone p = true) nsec3s with
         | None => []
         | Some (_, f) => omap with_hash (filter (λ p, of_zone zone p && same_params f.2 p.2 = true) nsec3s)
         end).
Section set.
Context (records : list (bytes * NSEC3)).
Definition set_hash (name : Name) : option bytes := p ← head records; nsec3_hash name p.2.
Definition matching (h : bytes) : option NSEC3 := (λ p, p.2.2) <$> list_find (λ p, p.1 = h) records.
Definition covering (h : bytes) : option NSEC3 := (λ p, p.2.2) <$> list_find (λ p, nsec3_covers_hash p.1 (next_hashed_owner_name p.2) h = true) records.
(** From [labels] down to the labels of the zone. *)
Fixpoint encloser_loop (fuel : nat) (qname zone : Name) (labels : nat) : Denial + Name * NSEC3 :=
  match fuel with
  | O => inl (NotProven "no closest encloser")
  | S fuel =>
      if (num_labels zone <? labels)%nat then
        let labels := (labels - 1)%nat in
        let ce := trim_to qname labels in
        match set_hash ce with
        | None => inl (NotProven "no closest encloser")
        | Some h =>
            match matching h with
            | None => encloser_loop fuel qname zone labels
            | Some m =>
                if is_ancestor_delegation (type_set3 m) && negb (Name_eqb ce zone) then inl (NotProven "closest encloser is a delegation")
                else match set_hash (trim_to qname (labels + 1)) ≫= covering with
                     | Some c => inr (ce, c)
                     | None => inl (NotProven "next closer not covered")
                     end
            end
        end
      else inl (NotProven "no closest encloser")
  end.
Definition closest_encloser_proof (qname zone : Name) : Denial + Name * NSEC3 := encloser_loop (S (num_labels qname)) qname zone (num_labels qname).
End set.
Definition nsec3_proves_nxdomain (qname zone : Name) (nsec3s : list (Name * NSEC3)) : Denial :=
  match Nsec3Set_new zone nsec3s with
  | inr d => d
  | inl set =>
      if is_Some_b (set_hash set qname ≫= matching set) then NotProven "name exists"
      else match closest_encloser_proof set qname zone with
           | inl d => d
           | inr (ce, c) =>
               if opt_out c then ProvenOptOut
               else match wildcard_of ce ≫= set_hash set with
                    | Some h => if is_Some_b (covering set h) then Proven else NotProven "wildcard not covered"
                    | None => NotProven "wildcard not covered"
                    end
           end
  end.
Definition nsec3_proves_nodata (qname : Name) (qtype : Z) (zone : Name) (nsec3s : list (Name * NSEC3)) : Denial :=
  match Nsec3Set_new zone nsec3s with
  | inr d => d
  | inl set =>
      match set_hash set qname ≫= matching set with
      | Some m => types_deny (type_set3 m) qtype
      | None =>
          match closest_encloser_proof set qname zone with
          | inl _ => NotProven "no matching NSEC3"
          | inr (ce, c) =>
              if (qtype =? TypeDS) && opt_out c then ProvenOptOut
              else match (wildcard_of ce ≫= set_hash set) ≫= matching set with
                   | Some w => types_deny (type_set3 w) qtype
                   | None => NotProven "no matching NSEC3"
                   end
          end
      end
  end.
Definition nsec3_proves_no_closer_match (qname : Name) (rrsig_labels : nat) (zone : Name) (nsec3s : list (Name * NSEC3)) : Denial :=
  match Nsec3Set_new zone nsec3s with
  | inr d => d
  | inl set =>
      match set_hash set (trim_to qname (rrsig_labels + 1)) ≫= covering set with
      | Some c => if opt_out c then ProvenOptOut else Proven
      | None => NotProven "next closer name not covered"
      end
  end.
Definition nsec3_match (name zone : Name) (nsec3s : list (Name * NSEC3)) : option NSEC3 :=
  match Nsec3Set_new zone nsec3s with
  | inr _ => None
  | inl set => set_hash set name ≫= matching set
  end.
End denial.
