(* ===== verification/ValZone.v ===== *)
(** * What the recursor takes as a denial is what the zone says

    The reference meaning of a signed zone, the soundness of the NSEC and NSEC3 proofs of denial.rs
    against it, and the completeness of the NSEC proofs. *)

From S2P Require Import Prelude.
From S2P Require Import GoText.
From S2P Require Import ZoneJournal.
From S2P Require Import DnsLib.
From S2P Require Import DnssecSign.
From S2P Require Import ValDenial.

(** ** What a signed zone says about a name

    The reference for denial of existence: a signed zone as the types at its owner names (RFC 4034, the
    NSEC chain), what it answers for a name (data, an empty non-terminal, a wildcard, nothing, or a
    referral below a cut), and when an NSEC or NSEC3 record is one of the zone's own. *)

Notation npath := (list bytes).
Record szone := mkSzone { z_apex : npath; z_types : gmap npath (list Z) }.

(** A delegation, or a DNAME: the zone has nothing of its own below the owner. *)
Definition delegates (T : list Z) : Prop := (TypeNS ∈ T ∧ TypeSOA ∉ T) ∨ TypeDNAME ∈ T.
#[export] Instance delegates_dec T : Decision (delegates T).
Proof. unfold delegates. apply _. Defined.
Class szone_wf (z : szone) : Prop := {
  sw_apex : ∃ T, z_types z !! z_apex z = Some T ∧ TypeSOA ∈ T;
  sw_below : ∀ p T, z_types z !! p = Some T → z_apex z `prefix_of` p;
  sw_cut : ∀ p q T T', z_types z !! p = Some T → delegates T → z_types z !! q = Some T' → p `prefix_of` q → p = q;
  (** No delegation and no zone at a wildcard. *)
  sw_star : ∀ p T, z_types z !! (p ++ [star]) = Some T → TypeNS ∉ T;
}.
Definition exists_at (z : szone) (p : npath) : Prop := ∃ d T, z_types z !! d = Some T ∧ p `prefix_of` d.
#[export] Instance exists_at_dec z p : Decision (exists_at z p).
Proof. refine (cast_if (decide (map_Exists (λ d _, p `prefix_of` d) (z_types z)))); unfold exists_at; [by destruct m as (d & T & ? & ?); exists d, T|]. intros (d & T & ? & ?). apply n. by exists d, T. Defined.
Definition is_encloser (z : szone) (q ce : npath) : Prop :=
  exists_at z ce ∧ ce `prefix_of` q ∧ ∀ p, p `prefix_of` q → exists_at z p → p `prefix_of` ce.
Definition cut_above (z : szone) (q p : npath) : Prop := ∃ T, z_types z !! p = Some T ∧ delegates T ∧ p `prefix_of` q ∧ p ≠ q.

(** The types at a name: none at an empty non-terminal. *)
Definition z_at (z : szone) (p : npath) : list Z := default [] (z_types z !! p).

Inductive Status := Below (cut : npath) | Here (types : list Z) | Empty | Wild (types : list Z) | Nothing.
Inductive answers (z : szone) (q : npath) : Status → Prop :=
  | ans_below p : cut_above z q p → answers z q (Below p)
  | ans_here T : z_types z !! q = Some T → answers z q (Here T)
  | ans_empty : z_types z !! q = None → exists_at z q → answers z q Empty
  | ans_wild ce : (∀ p, ¬ cut_above z q p) → ¬ exists_at z q → is_encloser z q ce → exists_at z (ce ++ [star]) → answers z q (Wild (z_at z (ce ++ [star])))
  | ans_nothing ce : (∀ p, ¬ cut_above z q p) → ¬ exists_at z q → is_encloser z q ce → ¬ exists_at z (ce ++ [star]) → answers z q Nothing.

(** No data of a type: what a NODATA answer claims. *)
Definition lacks (T : list Z) (t : Z) : Prop :=
  t ∉ T ∧ TypeCNAME ∉ T ∧ (t = TypeDS → TypeSOA ∉ T) ∧ (t ≠ TypeDS → ¬ delegates T).
#[export] Instance lacks_dec T t : Decision (lacks T t).
Proof. unfold lacks. apply _. Defined.
Definition no_data (s : Status) (t : Z) : Prop :=
  match s with Here T | Wild T => lacks T t | Empty => True | Below _ | Nothing => False end.
(** Neither the name nor the wildcard of its closest encloser has records, and no cut is above the name. *)
Definition without_records (z : szone) (q : npath) : Prop :=
  z_types z !! q = None ∧ (∀ p, ¬ cut_above z q p) ∧ ∃ ce, is_encloser z q ce ∧ z_types z !! (ce ++ [star]) = None.
#[export] Instance cut_above_dec z q p : Decision (cut_above z q p).
Proof.
  unfold cut_above. destruct (z_types z !! p) as [T|]; [|right; by intros (T & [=] & _)].
  refine (cast_if (decide (delegates T ∧ p `prefix_of` q ∧ p ≠ q))); [by exists T|by intros (T' & [= <-] & ?)].
Defined.
(** The name is below an apex that has a DNAME: the zone redirects it. *)
Definition dname_apex (z : szone) (q : npath) : Prop := cut_above z q (z_apex z) ∧ TypeDNAME ∈ z_at z (z_apex z).
#[export] Instance dname_apex_dec z q : Decision (dname_apex z q).
Proof. unfold dname_apex. apply _. Defined.
(** The type is missing at the name, or at the wildcard that answers for it. *)
Definition without_type (z : szone) (q : npath) (t : Z) : Prop :=
  (∃ s, answers z q s ∧ no_data s t) ∧ (exists_at z q ∨ ∃ ce T, is_encloser z q ce ∧ z_types z !! (ce ++ [star]) = Some T).

Lemma exists_up z p q : p `prefix_of` q → exists_at z q → exists_at z p.
Proof. intros Hp (d & T & Hd & Hq). exists d, T. split; [done|]. by trans q. Qed.
Lemma exists_here z p T : z_types z !! p = Some T → exists_at z p.
Proof. by exists p, T. Qed.
Lemma prefix_antisym (p q : npath) : p `prefix_of` q → q `prefix_of` p → p = q.
Proof. intros H1 H2. apply prefix_length_eq; [done|by apply prefix_length]. Qed.
Lemma encloser_fun z q a b : is_encloser z q a → is_encloser z q b → a = b.
Proof. intros (Ha & Pa & Ma) (Hb & Pb & Mb). apply prefix_antisym; auto. Qed.
(** Nothing exists below a cut. *)
Lemma cut_no_data z q p : szone_wf z → cut_above z q p → ¬ exists_at z q.
Proof.
  intros W (T & Hp & HT & Hq & Hn) (d & T' & Hd & Hqd). assert (p = d) as -> by (apply (sw_cut _ _ _ _ Hp HT Hd); by trans q). apply Hn. by apply prefix_antisym.
Qed.
Lemma cut_fun z q p p' : szone_wf z → cut_above z q p → cut_above z q p' → p = p'.
Proof.
  intros W (T & Hp & HT & Hq & _) (T' & Hp' & HT' & Hq' & _). destruct (prefix_weak_total _ _ _ Hq Hq') as [H|H]; [by apply (sw_cut _ _ _ _ Hp HT Hp')|symmetry; by apply (sw_cut _ _ _ _ Hp' HT' Hp)].
Qed.
(** A zone says one thing about a name. *)
Lemma answers_fun z q s s' : szone_wf z → answers z q s → answers z q s' → s = s'.
Proof.
  intros W H H'. destruct H as [p Hc|T HT|H1 H2|ce Hc Hx Hen Hw|ce Hc Hx Hen Hw], H' as [p' Hc'|T' HT'|H1' H2'|ce' Hc' Hx' Hen' Hw'|ce' Hc' Hx' Hen' Hw']; try done;
    try (by destruct (cut_no_data _ _ _ W Hc); eauto using exists_here); try (by destruct (cut_no_data _ _ _ W Hc'); eauto using exists_here);
    try (by destruct (Hc p')); try (by destruct (Hc' p)); try (by destruct Hx; eauto using exists_here); try (by destruct Hx'; eauto using exists_here);
    try (pose proof (encloser_fun _ _ _ _ Hen Hen') as ->); try congruence.
  by rewrite (cut_fun _ _ _ _ W Hc Hc').
Qed.
(** Without records: the name is missing, an empty non-terminal, or under an empty wildcard. *)
Lemma without_records_status z q : without_records z q → answers z q Nothing ∨ answers z q Empty ∨ answers z q (Wild []).
Proof.
  intros (Hq & Hc & ce & He & Hw). destruct (decide (exists_at z q)) as [Hx|Hx]; [right; left; by apply ans_empty|].
  destruct (decide (exists_at z (ce ++ [star]))) as [Hs|Hs]; [right; right|left; by apply (ans_nothing _ _ _ Hc Hx He)].
  pose proof (ans_wild _ _ _ Hc Hx He Hs) as A. unfold z_at in A. by rewrite Hw in A.
Qed.
(** The closest encloser is above a next closer name that does not exist. *)
Lemma take_S_prefix k (q : npath) : take k q `prefix_of` take (S k) q.
Proof. replace (take k q) with (take k (take (S k) q)) by (rewrite take_take; f_equal; lia). apply prefix_take. Qed.
Lemma encloser_at z q k : exists_at z (take k q) → ¬ exists_at z (take (S k) q) → is_encloser z q (take k q) ∧ ¬ exists_at z q.
Proof.
  intros Hx Hnc. split; [split_and!; [done|apply prefix_take|]|intros Hq; apply Hnc, exists_up with q; [apply prefix_take|done]].
  intros p Hpq Hpx. destruct (decide (length p <= k)%nat) as [L|L].
  - destruct Hpq as [r ->]. rewrite take_app_ge by done. apply prefix_app_r, reflexivity.
  - destruct Hnc. apply exists_up with p; [|done]. destruct Hpq as [r ->]. rewrite take_app_le by lia. apply prefix_take.
Qed.
Lemma encloser_cut z q k p : szone_wf z → exists_at z (take k q) → ¬ exists_at z (take (S k) q) → cut_above z q p → p = take k q.
Proof.
  intros W Hx Hnc (T & Hp & Hd & Hpq & _). destruct (encloser_at z q k Hx Hnc) as [(_ & _ & Hm) _]. pose proof (Hm p Hpq (exists_here _ _ _ Hp)) as Hpk.
  destruct Hx as (d & Td & Hdd & Hpre). pose proof (sw_cut _ _ _ _ Hp Hd Hdd (transitivity Hpk Hpre)) as ->. by apply prefix_antisym.
Qed.
(** A wildcard answers for the names whose next closer name does not exist. *)
Lemma wild_answers z q k : szone_wf z → exists_at z (take k q ++ [star]) → ¬ exists_at z (take (S k) q) → answers z q (Wild (z_at z (take k q ++ [star]))).
Proof.
  intros W Hw Hnc. assert (exists_at z (take k q)) as Hx by (apply exists_up with (take k q ++ [star]); [by apply prefix_app_r|done]).
  destruct (encloser_at z q k Hx Hnc) as [He Hq]. apply ans_wild; [|done..].
  intros p Hc. pose proof (encloser_cut _ _ _ _ W Hx Hnc Hc) as ->. destruct Hc as (Tp & HTp & Hd & _), Hw as (d & T & Hd' & Hp).
  pose proof (prefix_length _ _ Hp) as L. rewrite <- (sw_cut _ _ _ _ HTp Hd Hd') in L; [rewrite length_app in L; simpl in L; lia|]. trans (take k q ++ [star]); [by apply prefix_app_r|done].
Qed.
Lemma next_closer_in z q k T : szone_wf z → z_apex z `prefix_of` q → z_types z !! (take k q ++ [star]) = Some T → z_apex z `prefix_of` take (S k) q.
Proof.
  intros W [r ->] HT. pose proof (prefix_length _ _ (sw_below _ _ HT)) as L. rewrite length_app, length_take in L. simpl in L. rewrite take_app_ge by lia. by apply prefix_app_r.
Qed.
(** A next closer name without records: the wildcard answers, or the next closer name is an empty non-terminal. *)
Lemma wild_or_empty z q k T : szone_wf z → z_types z !! (take k q ++ [star]) = Some T → z_types z !! take (S k) q = None → answers z q (Wild T) ∨ answers z (take (S k) q) Empty.
Proof.
  intros W HT Hn. destruct (decide (exists_at z (take (S k) q))) as [Hx|Hx]; [right; by apply ans_empty|left]. pose proof (wild_answers z _ k W (exists_here _ _ _ HT) Hx) as A. unfold z_at in A. by rewrite HT in A.
Qed.

(** ** Records of the zone *)
Definition gap (o n d : npath) : Prop := if decide (path_lt o n) then path_lt o d ∧ path_lt d n else path_lt o d ∨ path_lt d n.
#[export] Instance gap_dec o n d : Decision (gap o n d).
Proof. unfold gap. destruct (decide _); apply _. Defined.
(** Type lists up to order and repetition. *)
Definition same_types (T T' : list Z) : Prop := ∀ t, t ∈ T ↔ t ∈ T'.
#[export] Instance same_types_equiv : Equivalence same_types.
Proof. split; [by intros T t|by intros T T' H t; rewrite (H t)|]. intros T T' T'' H H' t. by rewrite (H t), (H' t). Qed.
#[export] Instance elem_of_same t : Proper (same_types ==> iff) (elem_of t).
Proof. by intros T T' H. Qed.
#[export] Instance delegates_same : Proper (same_types ==> iff) delegates.
Proof. intros T T' H. unfold delegates. by rewrite H. Qed.
#[export] Instance lacks_same : Proper (same_types ==> eq ==> iff) lacks.
Proof. intros T T' H t t' <-. unfold lacks. by rewrite H. Qed.
Record authentic (z : szone) (o n : npath) (T : list Z) : Prop := {
  au_owner : ∃ T', z_types z !! o = Some T' ∧ same_types T T';
  au_next : ∃ T', z_types z !! n = Some T';
  au_gap : ∀ d T', z_types z !! d = Some T' → ¬ gap o n d;
}.

Section gap.
Context (z : szone) `{!szone_wf z}.
Context (o n : npath) (T : list Z) (Hau : authentic z o n T).

Lemma apex_first q : z_apex z `prefix_of` q → ¬ path_lt q (z_apex z).
Proof. intros H L. destruct (prefix_le _ _ H) as [E|L']; [rewrite E in L; by apply path_lt_irrefl in L|]. exact (path_lt_irrefl _ (path_lt_trans _ _ _ L L')). Qed.
(** The last record of the chain leads to the apex. *)
Lemma wrap_apex : ¬ path_lt o n → n = z_apex z.
Proof.
  intros Hw. destruct (sw_apex (z := z)) as (Ta & Ha & _). destruct (path_lt_total n (z_apex z)) as [L|[E|L]]; [|done|].
  - destruct (au_next _ _ _ _ Hau) as [Tn Hn]. by apply apex_first in L; [|by eapply sw_below].
  - destruct (au_gap _ _ _ _ Hau _ _ Ha). unfold gap. rewrite decide_False by done. by right.
Qed.
Context (q : npath) (Hz : z_apex z `prefix_of` q) (Hq : gap o n q).
Lemma gap_after : path_lt o q.
Proof. pose proof Hq as Hq'. unfold gap in Hq'. destruct (decide _) as [|Hw]; [tauto|]. destruct Hq' as [|L]; [done|]. rewrite (wrap_apex Hw) in L. by apply apex_first in L. Qed.
Lemma gap_absent : z_types z !! q = None.
Proof. destruct (z_types z !! q) as [T'|] eqn:E; [|done]. by destruct (au_gap _ _ _ _ Hau _ _ E). Qed.
(** What exists above a name in the gap is above an end of the gap. *)
Lemma gap_prefix p : p `prefix_of` q → exists_at z p → p `prefix_of` o ∨ p `prefix_of` n.
Proof.
  intros Hp (d & Td & Hd & Hpd). pose proof gap_after as Lo. destruct (decide (path_lt o d)) as [L|L].
  - right. pose proof (au_gap _ _ _ _ Hau _ _ Hd) as G. pose proof Hq as Hq'. unfold gap in G, Hq'. destruct (decide _); [|tauto].
    apply (prefix_between p q n d); [done|done| |tauto]. intros L'. exact (path_lt_irrefl _ (path_lt_trans _ _ _ L' (proj2 Hq'))).
  - left. apply (prefix_between p d o q); [done..|]. intros L'. exact (path_lt_irrefl _ (path_lt_trans _ _ _ L' Lo)).
Qed.
(** A cut above the name is the owner. *)
Lemma gap_cut p : cut_above z q p → delegates T ∧ o `prefix_of` q ∧ o ≠ q.
Proof.
  intros (Tp & Hp & Hd & Hpq & Hne). destruct (au_owner _ _ _ _ Hau) as (To & Ho & Hs), (au_next _ _ _ _ Hau) as (Tn & Hn).
  assert (p = o) as ->; [|split; [|done]; rewrite Hs; congruence].
  destruct (gap_prefix p Hpq (exists_here _ _ _ Hp)) as [H|H]; [by apply (sw_cut _ _ _ _ Hp Hd Ho)|].
  pose proof (sw_cut _ _ _ _ Hp Hd Hn H) as ->. pose proof Hq as Hq'. unfold gap in Hq'. destruct (decide _) as [|Hw].
  - destruct (prefix_le _ _ Hpq) as [|L]; [done|]. destruct (path_lt_irrefl n). apply path_lt_trans with q; tauto.
  - apply (sw_cut _ _ _ _ Hp Hd Ho). rewrite (wrap_apex Hw). by eapply sw_below.
Qed.
End gap.

(** ** Hashed records *)
Definition hgap (o n h : bytes) : Prop := if bytes_lt o n then bytes_lt o h = true ∧ bytes_lt h n = true else bytes_lt o h = true ∨ bytes_lt h n = true.
Definition in_zone (z : szone) (p : npath) : Prop := z_apex z `prefix_of` p ∧ exists_at z p.
Definition unsigned (T : list Z) : Prop := TypeNS ∈ T ∧ TypeSOA ∉ T ∧ TypeDS ∉ T.
(** At and below the name are unsigned delegations only: an opt-out record may leave it out. *)
Definition opted (z : szone) (p : npath) : Prop := ∀ d T, z_types z !! d = Some T → p `prefix_of` d → unsigned T.
#[export] Instance unsigned_dec T : Decision (unsigned T).
Proof. unfold unsigned. apply _. Defined.
#[export] Instance opted_dec z p : Decision (opted z p).
Proof. refine (cast_if (decide (map_Forall (λ d T, p `prefix_of` d → unsigned T) (z_types z)))); unfold opted; [by intros d T ?; apply m|]. intros H. apply n. intros d T. apply H. Defined.
Definition types_at (z : szone) (p : npath) (T : list Z) : Prop := same_types T (z_at z p).
Record authentic3 (z : szone) (hash : npath → bytes) (h : bytes) (n : NSEC3) : Prop := {
  a3_owner : ∃ p, in_zone z p ∧ h = hash p ∧ types_at z p (type_set3 n);
  a3_gap : ∀ d, in_zone z d → (opt_out n = true → ¬ opted z d) → ¬ hgap h (next_hashed_owner_name n) (hash d);
}.

(** ** Denial proofs are sound

    What denial.rs accepts as a proof, from records of the zone, is what the zone says: NSEC proofs of
    NXDOMAIN, NODATA and of an expanded wildcard, and the NSEC3 proofs. *)

(** An NSEC or NSEC3 at the parent side of a cut is recognised; a hash is one of the name. *)
Class DenialLaws `{DenialLib} := {
  ancestor_delegation : ∀ T, delegates T → is_ancestor_delegation T = true;
  hash_of : bytes → Z → npath → bytes;
  digest_path : ∀ s i n h, nsec3_digest s i n = Some h → h = hash_of s i (path n);
}.

Section nsec.
Context {NL : NameLib} {NLaws : NameLaws} {DL : DenialLib} {DLaws : DenialLaws}.

(** ** Order and ancestors on paths *)
Lemma canonical_path a b : canonical_cmp a b = path_compare (path a) (path b).
Proof.
  unfold canonical_cmp, path. rewrite <- (length_rev (map _ (labels a))), <- (length_rev (map _ (labels b))).
  generalize (rev (map (map ascii_lower) (labels a))), (rev (map (map ascii_lower) (labels b))). intros x. induction x as [|u x IH]; intros [|v y]; simpl; try done.
  destruct (bytes_compare u v); [apply IH|done|done].
Qed.
Lemma less_lt a b : is_less (canonical_cmp a b) = true ↔ path_lt (path a) (path b).
Proof. rewrite canonical_path. unfold path_lt. by destruct (path_compare _ _). Qed.
Lemma nsec_covers_gap o n q : nsec_covers o n q = true ↔ gap (path o) (path n) (path q).
Proof.
  unfold nsec_covers, gap. destruct (decide (path_lt (path o) (path n))) as [L|L].
  - rewrite (proj2 (less_lt o n) L), andb_true_iff, !less_lt. done.
  - destruct (is_less (canonical_cmp o n)) eqn:E; [by apply less_lt in E|]. rewrite orb_true_iff, !less_lt. done.
Qed.
Lemma shared_prefix x y : let p := take (shared x y) (map (map ascii_lower) x) in
  p `prefix_of` map (map ascii_lower) x ∧ p `prefix_of` map (map ascii_lower) y ∧
  ∀ r, r `prefix_of` map (map ascii_lower) x → r `prefix_of` map (map ascii_lower) y → r `prefix_of` p.
Proof.
  simpl. split; [apply prefix_take|]. revert y. induction x as [|u x IH]; intros [|v y]; simpl; try (split; [apply prefix_nil|by intros r ? ?]).
  case_bool_decide as E; simpl.
  - rewrite E. destruct (IH y) as [H1 H2]. split; [by apply prefix_cons|]. intros [|w r] Hx Hy; [apply prefix_nil|].
    pose proof (prefix_cons_inv_1 _ _ _ _ Hx) as ->. apply prefix_cons, H2; by eapply prefix_cons_inv_2.
  - split; [apply prefix_nil|]. intros [|w r] Hx Hy; [done|]. apply prefix_cons_inv_1 in Hx, Hy. congruence.
Qed.
Lemma path_map n : path n = map (map ascii_lower) (rev (labels n)).
Proof. unfold path. by rewrite map_rev. Qed.
Lemma path_ancestor a b : let c := path (common_ancestor a b) in
  c `prefix_of` path a ∧ c `prefix_of` path b ∧ ∀ r, r `prefix_of` path a → r `prefix_of` path b → r `prefix_of` c.
Proof. unfold common_ancestor. rewrite path_trim, (path_map a), (path_map b). apply shared_prefix. Qed.
Lemma num_labels_plain n : star ∉ path n → num_labels n = length (path n).
Proof.
  intros Hs. rewrite num_labels_spec, length_path. unfold path in Hs. destruct (labels n) as [|l ls]; [done|]. case_bool_decide as E; [|done]. destruct Hs. subst l.
  simpl. apply elem_of_app. right. by left.
Qed.
Lemma star_prefix p q : p `prefix_of` q → star ∉ q → star ∉ p.
Proof. intros [k ->]. rewrite elem_of_app. tauto. Qed.
Lemma path_encloser q o n : star ∉ path q → let c := path (closest_encloser q o n) in
  (c `prefix_of` path o ∨ c `prefix_of` path n) ∧ c `prefix_of` path q ∧
  ∀ r, r `prefix_of` path q → r `prefix_of` path o ∨ r `prefix_of` path n → r `prefix_of` c.
Proof.
  intros Hs. destruct (path_ancestor q o) as (A1 & A2 & A3), (path_ancestor q n) as (B1 & B2 & B3). simpl. unfold closest_encloser.
  pose proof (num_labels_plain _ (star_prefix _ _ A1 Hs)) as EA. pose proof (num_labels_plain _ (star_prefix _ _ B1 Hs)) as EB.
  destruct (Nat.leb_spec (num_labels (common_ancestor q n)) (num_labels (common_ancestor q o))) as [L|L]; rewrite EA, EB in L.
  - split_and!; [by left|done|]. intros r Hr [|]; [auto|]. trans (path (common_ancestor q n)); [auto|]. destruct (prefix_weak_total _ _ _ A1 B1) as [P|P]; [|done].
    by rewrite (prefix_length_eq _ _ P L).
  - split_and!; [by right|done|]. intros r Hr [|]; [|auto]. trans (path (common_ancestor q o)); [auto|]. destruct (prefix_weak_total _ _ _ A1 B1) as [P|P]; [done|].
    apply prefix_length in P. lia.
Qed.

(** ** NSEC proofs *)
Context (z : szone) {Wz : szone_wf z}.
Definition nsecs_of (nsecs : list (Name * NSEC)) : Prop := ∀ o n, (o, n) ∈ nsecs → authentic z (path o) (path (next_domain_name n)) (type_set n).
Context (nsecs : list (Name * NSEC)) (Hau : nsecs_of nsecs).

Lemma covering_nsec_Some q o n : covering_nsec q nsecs = Some (o, n) → (o, n) ∈ nsecs ∧ gap (path o) (path (next_domain_name n)) (path q) ∧ usable_below o n q = true.
Proof.
  unfold covering_nsec. intros ((i & p) & E & Ep)%fmap_Some. simpl in Ep. subst p. apply list_find_Some in E as (Hi & Hc & _). apply andb_true_iff in Hc as [Hc Hu].
  split_and!; [by eapply list_elem_of_lookup_2|by apply nsec_covers_gap|done].
Qed.
Lemma nsec_at_Some q n : nsec_at q nsecs = Some n → ∃ T, z_types z !! path q = Some T ∧ same_types (type_set n) T.
Proof.
  unfold nsec_at. intros ((i & o & n') & E & Ep)%fmap_Some. simpl in Ep. subst n'. apply list_find_Some in E as (Hi & Hc & _). apply eqb_true in Hc. simpl in Hc.
  destruct (au_owner _ _ _ _ (Hau _ _ (list_elem_of_lookup_2 _ _ _ Hi))) as (T & HT & Hs). exists T. by rewrite <- Hc.
Qed.
Lemma usable_cut o n q p : (o, n) ∈ nsecs → z_apex z `prefix_of` path q → gap (path o) (path (next_domain_name n)) (path q) → usable_below o n q = true → ¬ cut_above z (path q) p.
Proof.
  intros Hin Hz Hg Hu Hc. destruct (gap_cut z _ _ _ (Hau _ _ Hin) _ Hz Hg _ Hc) as (Hd & Hp & Hne). unfold usable_below in Hu.
  rewrite (ancestor_delegation _ Hd), (proj2 (zone_of_true _ _) Hp), eqb_path, bool_decide_false in Hu; done.
Qed.
Lemma types_deny_cases T t : types_deny T t = Proven ∧ lacks T t ∨ ∃ w, types_deny T t = NotProven w.
Proof.
  unfold types_deny, bitmap_denies, contains. repeat case_bool_decide; eauto; unfold lacks. all: destruct (Z.eqb_spec t TypeDS); simpl; eauto.
  all: destruct (is_ancestor_delegation T) eqn:E; eauto; left; split_and!; try done.
  all: intros ? Hd; apply ancestor_delegation in Hd; congruence.
Qed.
Lemma types_deny_lacks T t : types_deny T t = Proven → lacks T t.
Proof. destruct (types_deny_cases T t) as [[_ ?]|[w ->]]; done. Qed.
(** A covering record gives the closest encloser. *)
Lemma covered_encloser q o n : star ∉ path q → z_apex z `prefix_of` path q → covering_nsec q nsecs = Some (o, n) →
  let ce := path (closest_encloser q o (next_domain_name n)) in is_encloser z (path q) ce ∧ z_apex z `prefix_of` ce.
Proof.
  intros Hs Hz (Hin & Hg & _)%covering_nsec_Some. pose proof (Hau _ _ Hin) as Ha. destruct (path_encloser q o (next_domain_name n) Hs) as (E1 & E2 & E3). simpl.
  destruct (au_owner _ _ _ _ Ha) as (To & Ho & _), (au_next _ _ _ _ Ha) as (Tn & Hn), (sw_apex (z := z)) as (Ta & HTa & _).
  assert (∀ p, p `prefix_of` path q → exists_at z p → p `prefix_of` path (closest_encloser q o (next_domain_name n))) as Hmax by (intros p Hp He; apply E3, (gap_prefix z _ _ _ Ha _ Hz Hg); done).
  split; [split_and!; [|done|done]|by apply Hmax, (exists_here _ _ _ HTa)]. destruct E1; [by exists (path o), To|by exists (path (next_domain_name n)), Tn].
Qed.
Lemma covered_absent q r : z_apex z `prefix_of` path q → covering_nsec q nsecs = Some r → z_types z !! path q = None ∧ ∀ p, ¬ cut_above z (path q) p.
Proof.
  destruct r as [o n]. intros Hz (Hin & Hg & Hu)%covering_nsec_Some. split; [by apply (gap_absent z _ _ _ (Hau _ _ Hin))|]. intros p. by apply (usable_cut o n).
Qed.
Lemma nxdomain_sound q : star ∉ path q → z_apex z `prefix_of` path q → nsec_proves_nxdomain q nsecs = Proven → without_records z (path q).
Proof.
  intros Hs Hz. unfold nsec_proves_nxdomain. destruct (existsb _ _); [done|]. destruct (covering_nsec q nsecs) as [[o n]|] eqn:E; [|done]. destruct (wildcard_of _) as [w|] eqn:Ew; [|done].
  destruct (covering_nsec w nsecs) as [r|] eqn:Er; [|done]. intros _. destruct (covered_encloser _ _ _ Hs Hz E) as [He Hce], (covered_absent _ _ Hz E) as [Hq Hc].
  pose proof (path_star _ _ Ew) as Pw. split_and!; [done|done|]. eexists. split; [exact He|]. rewrite <- Pw. apply (covered_absent w r); [|done]. rewrite Pw. by apply prefix_app_r.
Qed.
Lemma nodata_sound q t : star ∉ path q → z_apex z `prefix_of` path q → nsec_proves_nodata q t nsecs = Proven → without_type z (path q) t.
Proof.
  intros Hs Hz. unfold nsec_proves_nodata, without_type. destruct (nsec_at q nsecs) as [n|] eqn:En.
  { destruct (nsec_at_Some _ _ En) as (T & HT & Hst). intros Hl%types_deny_lacks. split; [|left; by eapply exists_here]. exists (Here T). split; [by apply ans_here|]. simpl. by rewrite <- Hst. }
  destruct (covering_nsec q nsecs) as [[o n]|] eqn:E; [|done]. destruct (covered_encloser _ _ _ Hs Hz E) as [He Hce], (covered_absent _ _ Hz E) as [Hq Hc].
  destruct (zone_of q _) eqn:Ez.
  { intros _. assert (exists_at z (path q)) as Hx; [|split; [|by left]; exists Empty; split; [by apply ans_empty|done]].
    apply zone_of_true in Ez. apply covering_nsec_Some in E as (Hin & _). destruct (au_next _ _ _ _ (Hau _ _ Hin)) as (Tn & Hn). by exists (path (next_domain_name n)), Tn. }
  destruct (wildcard_of _) as [w|] eqn:Ew; [|done]. destruct (nsec_at w nsecs) as [nw|] eqn:Enw; [|done]. destruct (nsec_at_Some _ _ Enw) as (T & HT & Hst). intros Hl%types_deny_lacks.
  destruct (decide (exists_at z (path q))) as [Hx|Hx]; [split; [|by left]; exists Empty; split; [by apply ans_empty|done]|]. rewrite (path_star _ _ Ew) in HT. split; [|right; eauto].
  eexists. split; [apply (ans_wild _ _ _ Hc Hx He); by eapply exists_here|]. simpl. unfold z_at. rewrite HT. simpl. by rewrite <- Hst.
Qed.
(** An answer made from the wildcard below the first [k] labels, with a proof for the next closer name. *)
Lemma no_closer_sound q k T : z_apex z `prefix_of` path q → z_types z !! (take k (path q) ++ [star]) = Some T →
  nsec_proves_no_closer_match q k nsecs = Proven → z_types z !! take (S k) (path q) = None.
Proof.
  intros Hz HT. unfold nsec_proves_no_closer_match. destruct (covering_nsec _ _) as [r|] eqn:E; [|done]. intros _. rewrite Nat.add_1_r in E.
  apply covered_absent in E as [Hn _]; rewrite path_trim in *; [done|by apply (next_closer_in z _ k T)].
Qed.
End nsec.

(** ** NSEC3 proofs *)
Section nsec3.
Context {NL : NameLib} {NLaws : NameLaws} {DL : DenialLib} {DLaws : DenialLaws}.
Context (z : szone) {Wz : szone_wf z}.
(** The hash of a name of the zone is that of no other name. *)
Context (Hinj : ∀ s i d p, in_zone z d → hash_of s i p = hash_of s i d → p = d).
Definition nsec3s_of (nsec3s : list (Name * NSEC3)) : Prop :=
  ∀ o n h, (o, n) ∈ nsec3s → path (base_name o) = z_apex z → nsec3_owner_hash o = Some h → authentic3 z (hash_of (salt n) (iterations n)) h n.
(** The records of a set, with one salt and one count of iterations. *)
Definition set_of (s : bytes) (i : Z) (set : list (bytes * NSEC3)) : Prop :=
  ∀ h n, (h, n) ∈ set → salt n = s ∧ iterations n = i ∧ authentic3 z (hash_of s i) h n.
Lemma Nsec3Set_set zone nsec3s set : path zone = z_apex z → nsec3s_of nsec3s → Nsec3Set_new zone nsec3s = inl set → ∃ s i, set_of s i set.
Proof.
  intros Hz Ha. unfold Nsec3Set_new. destruct (_ <? _); [done|]. destruct (_ <? _); [done|]. intros [= <-]. destruct (list_find _ _) as [[k [o f]]|]; [|exists [], 0; by intros h n ?%not_elem_of_nil].
  exists (salt f), (iterations f). intros h n ((o' & n') & Hin & Hw)%list_elem_of_omap. apply list_elem_of_filter in Hin as [Hp Hin]. apply andb_true_iff in Hp as [Hb Hs].
  unfold same_params in Hs. apply andb_true_iff in Hs as [E1%bool_decide_eq_true_1 E2%Z.eqb_eq]. apply fmap_Some in Hw as (h' & Hh & [= <- <-]). simpl in *. split_and!; [done|done|].
  rewrite E1, E2. apply (Ha o'); [done| |done]. unfold of_zone in Hb. apply eqb_true in Hb. simpl in Hb. congruence.
Qed.
Context (s : bytes) (i : Z) (set : list (bytes * NSEC3)) (Hset : set_of s i set).
Lemma set_hash_of n h : set_hash set n = Some h → h = hash_of s i (path n).
Proof.
  unfold set_hash. destruct set as [|[h0 n0] l] eqn:E; [done|]. cbn [head mbind option_bind snd]. unfold nsec3_hash. destruct (Hset h0 n0) as (-> & -> & _); [by left|]. apply digest_path.
Qed.
Lemma matching_Some p m : matching set (hash_of s i p) = Some m → in_zone z p ∧ types_at z p (type_set3 m).
Proof.
  unfold matching. intros ((k & h & m') & E & Ep)%fmap_Some. simpl in Ep. subst m'. apply list_find_Some in E as (Hk & Hh & _). simpl in Hh. subst h.
  destruct (Hset _ _ (list_elem_of_lookup_2 _ _ _ Hk)) as (_ & _ & Ha). destruct (a3_owner _ _ _ _ Ha) as (d & Hd & Eh & Ht). by rewrite (Hinj _ _ _ _ Hd Eh).
Qed.
Lemma covers_hash_gap o n h : nsec3_covers_hash o n h = true ↔ hgap o n h.
Proof. unfold nsec3_covers_hash, hgap. destruct (bytes_lt o n); [by rewrite andb_true_iff|by rewrite orb_true_iff]. Qed.
Lemma covering_Some p c : covering set (hash_of s i p) = Some c → in_zone z p → opt_out c = true ∧ opted z p.
Proof.
  unfold covering. intros ((k & h & c') & E & Ep)%fmap_Some Hp. simpl in Ep. subst c'. apply list_find_Some in E as (Hk & Hh & _). apply covers_hash_gap in Hh. simpl in Hh.
  destruct (Hset _ _ (list_elem_of_lookup_2 _ _ _ Hk)) as (_ & _ & Ha). pose proof (a3_gap _ _ _ _ Ha _ Hp) as Hg.
  destruct (opt_out c); [split; [done|]|by destruct Hg]. destruct (decide (opted z p)); [done|]. by destruct Hg.
Qed.
Lemma num_labels_le n : (num_labels n ≤ length (path n))%nat.
Proof. rewrite num_labels_spec, length_path. destruct (labels n); simpl; [lia|]. case_bool_decide; lia. Qed.
(** What the search for the closest encloser finds. *)
Lemma encloser_loop_sound zone q fuel l ce c : (l ≤ length (path q))%nat → path zone = z_apex z → encloser_loop set fuel q zone l = inr (ce, c) → ∃ k T,
  (k < length (path q))%nat ∧ path ce = take k (path q) ∧ in_zone z (path ce) ∧ types_at z (path ce) T ∧ (delegates T → path ce = z_apex z) ∧
  covering set (hash_of s i (take (S k) (path q))) = Some c.
Proof.
  intros Hl Hz. revert l Hl. induction fuel as [|fuel IH]; intros l Hl; [done|]. cbn [encloser_loop]. destruct (Nat.ltb_spec (num_labels zone) l) as [L|]; [|done].
  destruct (set_hash set (trim_to q (l - 1))) as [h|] eqn:Eh; [|done]. destruct (matching set h) as [m|] eqn:Em; [|apply IH; lia].
  pose proof (set_hash_of _ _ Eh) as ->. apply matching_Some in Em as [Hi Ht]. destruct (_ && _) eqn:Ed; [done|]. destruct (set_hash set (trim_to q (l - 1 + 1))) as [h|] eqn:En; [|done]. simpl.
  pose proof (set_hash_of _ _ En) as ->. destruct (covering set _) as [c'|] eqn:Ec; [|done]. intros [= <- <-]. exists (l - 1)%nat, (type_set3 m). rewrite path_trim in *.
  split_and!; try done; [lia| |].
  - intros Hd. rewrite (ancestor_delegation _ Hd) in Ed. simpl in Ed. apply negb_false_iff, eqb_true in Ed. by rewrite path_trim, Hz in Ed.
  - by rewrite <- Nat.add_1_r.
Qed.
Lemma encloser_proof_sound zone q ce c : path zone = z_apex z → closest_encloser_proof set q zone = inr (ce, c) → ∃ k T,
  (k < length (path q))%nat ∧ path ce = take k (path q) ∧ in_zone z (path ce) ∧ types_at z (path ce) T ∧ (delegates T → path ce = z_apex z) ∧
  covering set (hash_of s i (take (S k) (path q))) = Some c.
Proof. apply encloser_loop_sound, num_labels_le. Qed.
Lemma next_closer_zone q k : in_zone z (take k q) → exists_at z (take (S k) q) → in_zone z (take (S k) q).
Proof. intros [Hp _] Hx. split; [|done]. trans (take k q); [done|apply take_S_prefix]. Qed.
(** Without a cut, unless it is a DNAME at the apex: another encloser that is one is refused. *)
Lemma encloser_no_cut q k T p : in_zone z (take k q) → types_at z (take k q) T → (delegates T → take k q = z_apex z) → ¬ exists_at z (take (S k) q) → cut_above z q p → dname_apex z q.
Proof.
  intros [_ Hx] Ht Hap Hnc Hc. pose proof (encloser_cut _ _ _ _ Wz Hx Hnc Hc) as ->. pose proof Hc as (T' & HT' & Hd & _). unfold types_at, z_at in Ht. rewrite HT' in Ht. simpl in Ht. rewrite <- Ht in Hd.
  specialize (Hap Hd). rewrite Hap in *. split; [done|]. destruct (sw_apex (z := z)) as (Ta & Ha & Hsoa). unfold z_at. rewrite HT' in Ha |- *. injection Ha as <-. rewrite Ht in Hd. by destruct Hd as [[_ []]|Hd].
Qed.
Lemma covering_wild p c : covering set (hash_of s i (p ++ [star])) = Some c → z_apex z `prefix_of` p → z_types z !! (p ++ [star]) = None.
Proof.
  intros Hc Hp. destruct (z_types z !! (p ++ [star])) as [T|] eqn:E; [|done]. destruct (covering_Some _ _ Hc) as [_ Ho]; [split; [by apply prefix_app_r|by eapply exists_here]|].
  destruct (Ho _ _ E (reflexivity _)) as (Hn & _). by apply (sw_star _ _ E) in Hn.
Qed.
End nsec3.

Section proofs3.
Context {NL : NameLib} {NLaws : NameLaws} {DL : DenialLib} {DLaws : DenialLaws}.
Context (z : szone) {Wz : szone_wf z}.
Context (Hinj : ∀ s i d p, in_zone z d → hash_of s i p = hash_of s i d → p = d).
Context (zone : Name) (Hzone : path zone = z_apex z) (nsec3s : list (Name * NSEC3)) (Ha : nsec3s_of z nsec3s).

(** Opt-out leaves open what is at or below a next closer name, except for signed data. *)
Definition open_below (q : npath) : Prop := ∃ k, (k < length q)%nat ∧ in_zone z (take k q) ∧ opted z (take (S k) q).
Definition name_denied (q : npath) (d : Denial) : Prop := match d with Proven => ¬ exists_at z q ∧ (without_records z q ∨ dname_apex z q) | ProvenOptOut => open_below q | _ => True end.
Definition type_denied (q : npath) (t : Z) (d : Denial) : Prop :=
  match d with Proven => (∃ s, answers z q s ∧ no_data s t) ∨ open_below q ∧ t ≠ TypeDS ∧ (∃ p, p ∈ nsec3s ∧ opt_out p.2 = true) | ProvenOptOut => open_below q ∧ t = TypeDS | _ => True end.
Lemma Nsec3Set_err d : Nsec3Set_new zone nsec3s = inr d → d ≠ Proven ∧ d ≠ ProvenOptOut.
Proof. unfold Nsec3Set_new. intros E. repeat case_match; by simplify_eq/=. Qed.
Lemma encloser_proof_err set fuel q l d : encloser_loop set fuel q zone l = inl d → ∃ w, d = NotProven w.
Proof. revert l. induction fuel as [|fuel IH]; intros l; simpl; [intros [= <-]; eauto|]. repeat case_match; try (intros [= <-]; eauto); eauto. Qed.
Lemma open_sound q s i set k c : set_of z s i set → (k < length q)%nat → in_zone z (take k q) → covering set (hash_of s i (take (S k) q)) = Some c →
  ¬ exists_at z (take (S k) q) ∨ open_below q ∧ opt_out c = true.
Proof.
  intros Hset Hk Hi Hc. destruct (decide (exists_at z (take (S k) q))) as [Hx|Hx]; [right|by left].
  destruct (covering_Some z s i set Hset _ _ Hc (next_closer_zone z _ _ Hi Hx)) as [Ho Hop]. split; [by exists k|done].
Qed.
Lemma closed_open q k : (k < length q)%nat → in_zone z (take k q) → ¬ exists_at z (take (S k) q) → open_below q.
Proof. intros Hk Hi Hn. exists k. split_and!; [done|done|]. intros d T Hd Hp. destruct Hn. by exists d, T. Qed.
(** What the proof of NXDOMAIN gives before the apex is looked at. *)
Lemma nxdomain3_cases q : match nsec3_proves_nxdomain q zone nsec3s with
  | Proven => ∃ k T, in_zone z (take k (path q)) ∧ types_at z (take k (path q)) T ∧ (delegates T → take k (path q) = z_apex z) ∧
      ¬ exists_at z (take (S k) (path q)) ∧ z_types z !! (take k (path q) ++ [star]) = None
  | ProvenOptOut => open_below (path q)
  | _ => True
  end.
Proof.
  unfold nsec3_proves_nxdomain. destruct (Nsec3Set_new zone nsec3s) as [set|d] eqn:Es; [|by destruct (Nsec3Set_err _ Es), d].
  destruct (Nsec3Set_set z _ _ _ Hzone Ha Es) as (s & i & Hset). destruct (is_Some_b _); [done|].
  destruct (closest_encloser_proof set q zone) as [d|[ce c]] eqn:Ec; [by destruct (encloser_proof_err _ _ _ _ _ Ec) as [w ->]|].
  destruct (encloser_proof_sound z Hinj s i set Hset _ _ _ _ Hzone Ec) as (k & T & Hk & Ek & Hi & Ht & Hd & Hc). rewrite Ek in *.
  destruct (open_sound (path q) _ _ _ _ _ Hset Hk Hi Hc) as [Hnx|[Hop ->]]; [|done].
  destruct (opt_out c); [by apply (closed_open _ k)|]. destruct (wildcard_of ce) as [w|] eqn:Ew; [|done]. simpl. destruct (set_hash set w) as [h|] eqn:Eh; [|done].
  rewrite (set_hash_of z s i set Hset _ _ Eh), (path_star _ _ Ew), Ek in *. destruct (covering set (hash_of s i (take k (path q) ++ [star]))) as [c'|] eqn:Ec'; [|done]. simpl.
  exists k, T. split_and!; try done. apply (covering_wild z s i set Hset _ _ Ec'), Hi.
Qed.
Lemma nxdomain3_sound q : name_denied (path q) (nsec3_proves_nxdomain q zone nsec3s).
Proof.
  pose proof (nxdomain3_cases q) as H. destruct (nsec3_proves_nxdomain q zone nsec3s); try done. destruct H as (k & T & Hi & Ht & Hd & Hnx & Hnw). destruct (encloser_at z _ _ (proj2 Hi) Hnx) as [He Hq]. split; [done|].
  destruct (decide (dname_apex z (path q))) as [Ha'|Ha']; [by right|left]. split_and!; [|intros p Hc; by apply Ha', (encloser_no_cut z _ _ _ p Hi Ht Hd Hnx)|by eexists].
  destruct (z_types z !! path q) eqn:E; [|done]. by destruct Hq; eapply exists_here.
Qed.
Lemma covering_elem set h c : covering set h = Some c → ∃ h', (h', c) ∈ set.
Proof. unfold covering. intros ((k & h' & c') & E & Ep)%fmap_Some. simpl in Ep. subst c'. apply list_find_Some in E as (Hk & _). exists h'. by eapply list_elem_of_lookup_2. Qed.
Lemma Nsec3Set_sub set h n : Nsec3Set_new zone nsec3s = inl set → (h, n) ∈ set → ∃ o, (o, n) ∈ nsec3s.
Proof.
  unfold Nsec3Set_new. destruct (_ <? _); [done|]. destruct (_ <? _); [done|]. intros [= <-]. destruct (list_find _ _) as [[k f]|]; [|by intros ?%not_elem_of_nil].
  intros ((o & n') & [_ Hin]%list_elem_of_filter & Hw)%list_elem_of_omap. unfold with_hash in Hw. apply fmap_Some in Hw as (h' & _ & [= <- <-]). by exists o.
Qed.
Lemma wild_nodata3 q t s i set k ce : set_of z s i set → path ce = take k (path q) → ¬ exists_at z (take (S k) (path q)) →
  type_denied (path q) t (match (wildcard_of ce ≫= set_hash set) ≫= matching set with Some w => types_deny (type_set3 w) t | None => NotProven "no matching NSEC3" end).
Proof.
  intros Hset Ek Hnx. destruct (wildcard_of ce) as [w|] eqn:Ew; [|done]. simpl. destruct (set_hash set w) as [h|] eqn:Eh; [|done]. simpl. destruct (matching set h) as [m|] eqn:Em; [|done].
  rewrite (set_hash_of z s i set Hset _ _ Eh), (path_star _ _ Ew), Ek in Em. apply (matching_Some z Hinj s i set Hset) in Em as [Hwi Hwt].
  destruct (types_deny_cases (type_set3 m) t) as [[-> Hl]|[w' ->]]; [|done]. left. eexists. split; [by apply (wild_answers z _ k); [|apply Hwi|]|]. unfold types_at in Hwt. simpl. by rewrite <- Hwt.
Qed.
Lemma nodata3_sound q t : type_denied (path q) t (nsec3_proves_nodata q t zone nsec3s).
Proof.
  unfold nsec3_proves_nodata. destruct (Nsec3Set_new zone nsec3s) as [set|d] eqn:Es; [|by destruct (Nsec3Set_err _ Es), d].
  destruct (Nsec3Set_set z _ _ _ Hzone Ha Es) as (s & i & Hset).
  destruct (set_hash set q ≫= matching set) as [m|] eqn:Em.
  { destruct (set_hash set q) as [h|] eqn:Eh; [|done]. simpl in Em. rewrite (set_hash_of z s i set Hset _ _ Eh) in Em. apply (matching_Some z Hinj s i set Hset) in Em as [Hi Ht].
    destruct (types_deny_cases (type_set3 m) t) as [[-> Hl]|[w ->]]; [|done]. left. unfold types_at, z_at in Ht. destruct (z_types z !! path q) as [T|] eqn:ET.
    - exists (Here T). split; [by apply ans_here|]. simpl in *. by rewrite <- Ht.
    - exists Empty. split; [apply ans_empty; [done|apply Hi]|done]. }
  destruct (closest_encloser_proof set q zone) as [d|[ce c]] eqn:Ec; [done|].
  destruct (encloser_proof_sound z Hinj s i set Hset _ _ _ _ Hzone Ec) as (k & T & Hk & Ek & Hi & Ht & Hd & Hc). rewrite Ek in *.
  destruct (open_sound (path q) _ _ _ _ _ Hset Hk Hi Hc) as [Hnx|[Hop Hoc]].
  - destruct (Z.eqb_spec t TypeDS) as [->|Ht']; simpl; [destruct (opt_out c); [split; [by apply (closed_open _ k)|done]|]|]. all: by apply (wild_nodata3 q _ s i set k ce).
  - rewrite Hoc, andb_true_r. destruct (Z.eqb_spec t TypeDS) as [->|Ht']; [done|].
    destruct ((wildcard_of ce ≫= set_hash set) ≫= matching set) as [w|]; [|done]. destruct (types_deny_cases (type_set3 w) t) as [[-> Hl]|[w' ->]]; [|done].
    right. split_and!; [done|done|]. destruct (covering_elem _ _ _ Hc) as [h' Hin]. destruct (Nsec3Set_sub _ _ _ Es Hin) as [o Ho]. by exists (o, c).
Qed.
Lemma no_closer3_sound q k : z_apex z `prefix_of` path q → (k < length (path q))%nat → match nsec3_proves_no_closer_match q k zone nsec3s with
  | Proven => ∀ T, z_types z !! (take k (path q) ++ [star]) = Some T → answers z (path q) (Wild T)
  | ProvenOptOut => in_zone z (take k (path q)) → open_below (path q)
  | _ => True
  end.
Proof.
  intros Hz Hk. unfold nsec3_proves_no_closer_match. destruct (Nsec3Set_new zone nsec3s) as [set|d] eqn:Es; [|by destruct (Nsec3Set_err _ Es), d].
  destruct (Nsec3Set_set z _ _ _ Hzone Ha Es) as (s & i & Hset). destruct (set_hash set _) as [h|] eqn:Eh; [|done]. simpl. destruct (covering set h) as [c|] eqn:Ec; [|done].
  rewrite (set_hash_of z s i set Hset _ _ Eh), path_trim, Nat.add_1_r in Ec. destruct (opt_out c) eqn:Eo.
  - intros Hi. destruct (open_sound (path q) _ _ _ _ _ Hset Hk Hi Ec) as [Hnx|[Hop _]]; [by apply (closed_open _ k)|done].
  - intros T HT. replace T with (z_at z (take k (path q) ++ [star])) by (unfold z_at; by rewrite HT). apply (wild_answers z _ k); [done|by eapply exists_here|]. intros Hx. destruct (covering_Some z s i set Hset _ _ Ec) as [? _]; [|congruence].
    split; [by apply (next_closer_in z _ k T)|done].
Qed.
(** Too many iterations: one of the records has them. *)
Lemma max_iterations_elem l : 0 < max_iterations l → ∃ p, p ∈ l ∧ iterations p.2 = max_iterations l.
Proof.
  induction l as [|p l IH]; simpl; [lia|]. intros Hm. destruct (decide (max_iterations l ≤ iterations p.2)) as [L|L]; [exists p; split; [by left|]; unfold max_iterations in *; lia|].
  destruct IH as (p' & Hp' & E); [|exists p'; split; [by right|]]; unfold max_iterations in *; lia.
Qed.
Lemma Nsec3Set_iterations n : Nsec3Set_new zone nsec3s = inr (InsecureIterations n) → ∃ p, p ∈ nsec3s ∧ NSEC3_INSECURE_ITERATIONS < iterations p.2.
Proof.
  unfold Nsec3Set_new. destruct (_ <? _); [done|]. destruct (Z.ltb_spec NSEC3_INSECURE_ITERATIONS (max_iterations nsec3s)) as [L|]; [|done]. intros _.
  destruct (max_iterations_elem nsec3s) as (p & Hp & E); [unfold NSEC3_INSECURE_ITERATIONS in L; lia|]. exists p. split; [done|]. by rewrite E.
Qed.
Lemma iterations_nxdomain q n : nsec3_proves_nxdomain q zone nsec3s = InsecureIterations n → ∃ p, p ∈ nsec3s ∧ NSEC3_INSECURE_ITERATIONS < iterations p.2.
Proof.
  unfold nsec3_proves_nxdomain. destruct (Nsec3Set_new zone nsec3s) as [set|d] eqn:Es; [|intros ->; by apply Nsec3Set_iterations in Es].
  destruct (is_Some_b _); [done|]. destruct (closest_encloser_proof set q zone) as [d|[ce c]] eqn:Ec; [destruct (encloser_proof_err _ _ _ _ _ Ec) as [w ->]; done|]. by repeat case_match.
Qed.
Lemma iterations_nodata q t n : nsec3_proves_nodata q t zone nsec3s = InsecureIterations n → ∃ p, p ∈ nsec3s ∧ NSEC3_INSECURE_ITERATIONS < iterations p.2.
Proof.
  unfold nsec3_proves_nodata. destruct (Nsec3Set_new zone nsec3s) as [set|d] eqn:Es; [|intros ->; by apply Nsec3Set_iterations in Es].
  repeat case_match; try done; match goal with |- types_deny ?T ?t = _ → _ => destruct (types_deny_cases T t) as [[-> _]|[? ->]] end; done.
Qed.
End proofs3.

(** ** NSEC proofs are complete

    With the records of the whole zone at hand, what the zone denies is proved: together with soundness,
    the NSEC proofs of denial.rs decide exactly what the zone says. *)

Lemma path_max (l : list npath) : l ≠ [] → ∃ m, m ∈ l ∧ ∀ x, x ∈ l → ¬ path_lt m x.
Proof.
  induction l as [|x l IH]; [done|]. intros _. destruct (decide (l = [])) as [->|Hne]; [exists x; split; [by left|]; intros y ->%list_elem_of_singleton; apply path_lt_irrefl|].
  destruct (IH Hne) as (m & Hm & Hmax). destruct (decide (path_lt m x)) as [L|L].
  - exists x. split; [by left|]. intros y [->|Hy]%elem_of_cons L'; [by apply path_lt_irrefl in L'|]. by apply (Hmax y Hy), path_lt_trans with x.
  - exists m. split; [by right|]. intros y [->|Hy]%elem_of_cons; [done|by apply Hmax].
Qed.

Section complete.
Context {NL : NameLib} {NLaws : NameLaws} {DL : DenialLib} {DLaws : DenialLaws}.
Context (z : szone) {Wz : szone_wf z}.
(** Nothing else is taken for the parent side of a cut, and the wildcards of the name are not too long. *)
Context (Hexact : ∀ T, is_ancestor_delegation T = true → delegates T).
Context (nsecs : list (Name * NSEC)) (Hau : nsecs_of z nsecs) (Hall : ∀ d T, z_types z !! d = Some T → ∃ o n, (o, n) ∈ nsecs ∧ path o = d).

(** A name without data is in the gap of the record before it. *)
Lemma gap_exists p : z_apex z `prefix_of` p → z_types z !! p = None → ∃ o n, (o, n) ∈ nsecs ∧ gap (path o) (path (next_domain_name n)) p.
Proof.
  intros Hp Hn. destruct (sw_apex (z := z)) as (Ta & Ha & _). set (below := filter (λ d, path_lt d p) (map fst (map_to_list (z_types z)))).
  assert (∀ d, d ∈ below ↔ path_lt d p ∧ ∃ T, z_types z !! d = Some T) as Hin.
  { intros d. unfold below. rewrite list_elem_of_filter, list_elem_of_fmap. apply and_iff_compat_l. split; [intros ([d' T] & -> & Hd); exists T; by apply elem_of_map_to_list|intros [T HT]; exists (d, T); split; [done|by apply elem_of_map_to_list]]. }
  destruct (path_max below) as (m & Hm & Hmax).
  { assert (z_apex z ∈ below) as Hx; [|by intros E; rewrite E in Hx; apply not_elem_of_nil in Hx]. apply Hin. split; [|eauto]. destruct (prefix_le _ _ Hp) as [E|]; [|done]. rewrite <- E in Hn. congruence. }
  apply Hin in Hm as [Hlt [T HT]]. destruct (Hall _ _ HT) as (o & n & Ho & Eo). exists o, n. split; [done|]. rewrite Eo. unfold gap. destruct (decide _) as [L|L]; [|by left]. split; [done|].
  destruct (au_next _ _ _ _ (Hau _ _ Ho)) as [Tn HTn]. destruct (path_lt_total p (path (next_domain_name n))) as [?|[E|L']]; [done|by rewrite E in Hn; congruence|].
  destruct (Hmax (path (next_domain_name n))); [|done]. apply Hin. eauto.
Qed.
Lemma usable_no_cut o n q : (o, n) ∈ nsecs → (∀ p, ¬ cut_above z (path q) p) → usable_below o n q = true.
Proof.
  intros Hin Hc. unfold usable_below. destruct (is_ancestor_delegation (type_set n)) eqn:Ea; [|done]. destruct (zone_of o q) eqn:Ez; [|done]. destruct (Name_eqb o q) eqn:Eq; [done|]. simpl.
  destruct (au_owner _ _ _ _ (Hau _ _ Hin)) as (T & HT & Hs). destruct (Hc (path o)). exists T. split_and!; [done|rewrite <- Hs; by apply Hexact|by apply zone_of_true|]. intros E. apply (eqb_true o q) in E. congruence.
Qed.
Lemma covering_exists q : z_apex z `prefix_of` path q → z_types z !! path q = None → (∀ p, ¬ cut_above z (path q) p) → ∃ r, covering_nsec q nsecs = Some r.
Proof.
  intros Hp Hn Hc. destruct (gap_exists _ Hp Hn) as (o & n & Hin & Hg). unfold covering_nsec. destruct (list_find _ nsecs) as [[i r]|] eqn:E; [by exists r|]. apply list_find_None in E. rewrite Forall_forall in E.
  destruct (E _ Hin). simpl. rewrite (proj2 (nsec_covers_gap _ _ _) Hg), (usable_no_cut _ _ _ Hin Hc). done.
Qed.
Lemma nsec_at_exists q T : z_types z !! path q = Some T → ∃ n, nsec_at q nsecs = Some n ∧ same_types (type_set n) T.
Proof.
  intros HT. destruct (nsec_at q nsecs) as [n|] eqn:En; [exists n; split; [done|]; destruct (nsec_at_Some z nsecs Hau _ _ En) as (T' & HT' & Hs); by replace T with T' by congruence|].
  destruct (Hall _ _ HT) as (o & n & Ho & Eo). unfold nsec_at in En. apply fmap_None, list_find_None in En. rewrite Forall_forall in En. destruct (En _ Ho). by apply eqb_true.
Qed.
Lemma types_deny_complete T t : lacks T t → types_deny T t = Proven.
Proof.
  intros (H1 & H2 & H3 & H4). unfold types_deny, bitmap_denies, contains. rewrite !bool_decide_false by done. destruct (Z.eqb_spec t TypeDS) as [->|Ht]; simpl.
  - rewrite bool_decide_false by auto. done.
  - destruct (is_ancestor_delegation T) eqn:E; [|done]. by apply Hexact, H4 in E.
Qed.
Lemma lacks_same_Proven T T' t : same_types T T' → lacks T' t → types_deny T t = Proven.
Proof. intros Hs Hl. apply types_deny_complete. by rewrite Hs. Qed.
Context (q : Name) (Hs : star ∉ path q) (Hz : z_apex z `prefix_of` path q).
Context (Hstar : ∀ n, path n `prefix_of` path q → is_Some (wildcard_of n)).
(** A shorter prefix of a name and one label is a prefix of the name. *)
Lemma prefix_snoc (p c : npath) (x : bytes) : p `prefix_of` c ++ [x] → p ≠ c ++ [x] → p `prefix_of` c.
Proof.
  intros [k Hk] Hne. destruct k as [|y k _] using rev_ind; [rewrite app_nil_r in Hk; congruence|]. rewrite app_assoc in Hk. apply app_inj_tail in Hk as [-> _]. by apply prefix_app_r.
Qed.
Lemma nxdomain_complete : without_records z (path q) → nsec_proves_nxdomain q nsecs = Proven.
Proof.
  intros (Hn & Hc & ce & He & Hw). unfold nsec_proves_nxdomain. destruct (existsb _ _) eqn:Ee.
  { apply existsb_exists in Ee as ([o n] & Hin & Eo%eqb_true). apply list_elem_of_In in Hin. simpl in Eo. destruct (au_owner _ _ _ _ (Hau _ _ Hin)) as (T & HT & _). congruence. }
  destruct (covering_exists q Hz Hn Hc) as [[o n] E]. rewrite E. destruct (covered_encloser z nsecs Hau q o n Hs Hz E) as [He' Hap]. pose proof (encloser_fun _ _ _ _ He He') as Ece.
  destruct (Hstar (closest_encloser q o (next_domain_name n))) as [w Ew]; [apply He'|]. rewrite Ew. pose proof (path_star _ _ Ew) as Pw. rewrite <- Ece in Pw, Hap.
  destruct (covering_exists w) as [r ->]; [rewrite Pw; by apply prefix_app_r|by rewrite Pw| |done].
  intros p (T & HT & Hd & Hpre & Hne). rewrite Pw in Hpre, Hne. destruct (Hc p). exists T. split_and!; [done|done|trans ce; [by apply (prefix_snoc _ _ star)|apply He]|]. intros ->. congruence.
Qed.
Lemma nodata_complete t : without_type z (path q) t → nsec_proves_nodata q t nsecs = Proven.
Proof.
  intros [(s & Ha & Hno) Hw']. unfold nsec_proves_nodata. destruct Ha as [p Hc|T HT|Hn Hx|ce Hc Hx He Hw|]; try done.
  - destruct (nsec_at_exists _ _ HT) as (n & -> & Hst). by eapply lacks_same_Proven.
  - assert (nsec_at q nsecs = None) as -> by (destruct (nsec_at q nsecs) as [n|] eqn:E; [destruct (nsec_at_Some z nsecs Hau _ _ E) as (T & HT & _); congruence|done]).
    destruct (covering_exists q Hz Hn) as [[o n] E]; [intros p Hc; by apply (cut_no_data z (path q) p)|]. rewrite E. apply covering_nsec_Some in E as (Hin & Hg & _).
    assert (path q `prefix_of` path (next_domain_name n)) as Hpre; [|by rewrite (proj2 (zone_of_true _ _) Hpre)]. pose proof Hx as Hx'. destruct Hx as (d & T & Hd & Hqd).
    destruct (gap_prefix z _ _ _ (Hau _ _ Hin) _ Hz Hg (path q) (reflexivity _) Hx') as [Ho|]; [|done]. pose proof (gap_after z _ _ _ (Hau _ _ Hin) _ Hz Hg) as L.
    destruct (prefix_le _ _ Ho) as [E|L']; [rewrite E in L; by apply path_lt_irrefl in L|]. by destruct (path_lt_irrefl _ (path_lt_trans _ _ _ L L')).
  - assert (z_types z !! path q = None) as Hn by (destruct (z_types z !! path q) eqn:E; [|done]; by destruct Hx; eapply exists_here).
    assert (nsec_at q nsecs = None) as -> by (destruct (nsec_at q nsecs) as [n|] eqn:E; [destruct (nsec_at_Some z nsecs Hau _ _ E) as (T & HT & _); congruence|done]).
    destruct (covering_exists q Hz Hn Hc) as [[o n] E]. rewrite E. destruct (zone_of _ _); [done|]. destruct (covered_encloser z nsecs Hau q o n Hs Hz E) as [He' Hap]. pose proof (encloser_fun _ _ _ _ He He') as Ece.
    destruct (Hstar (closest_encloser q o (next_domain_name n))) as [w Ew]; [apply He'|]. rewrite Ew. pose proof (path_star _ _ Ew) as Pw. rewrite <- Ece in Pw.
    destruct Hw' as [|(ce' & T & Hen & ET)]; [done|]. rewrite <- (encloser_fun _ _ _ _ He Hen), <- Pw in ET. destruct (nsec_at_exists _ _ ET) as (nw & -> & Hst). eapply lacks_same_Proven; [done|]. unfold no_data, z_at in Hno. by rewrite <- Pw, ET in Hno.
Qed.
Lemma no_closer_complete k T : z_types z !! (take k (path q) ++ [star]) = Some T → z_types z !! take (S k) (path q) = None → nsec_proves_no_closer_match q k nsecs = Proven.
Proof.
  intros HT Hn. unfold nsec_proves_no_closer_match. destruct (covering_exists (trim_to q (k + 1))) as [r ->]; [..|done]; rewrite ?path_trim, Nat.add_1_r; [by apply (next_closer_in z _ k T)|done|].
  intros p (Tp & Hp & Hd & Hpre & Hne). assert (p `prefix_of` take k (path q)) as Hpk.
  { destruct (decide (length (path q) <= k)%nat) as [L|L]; [by rewrite take_ge in Hpre by lia; rewrite take_ge by lia|]. destruct (lookup_lt_is_Some_2 (path q) k) as [x Hx]; [lia|]. rewrite (take_S_r _ _ _ Hx) in Hpre, Hne. by apply (prefix_snoc _ _ x). }
  assert (p = take k (path q) ++ [star]) as -> by (apply (sw_cut _ _ _ _ Hp Hd HT); by apply prefix_app_r). apply prefix_length in Hpk. rewrite length_app in Hpk. simpl in Hpk. lia.
Qed.
End complete.

(** C14: NSEC proofs against the records of a signed zone, for a name of the zone without an asterisk label: denial.rs proves NXDOMAIN only
    where neither the name nor the wildcard of its closest encloser has records (so also for an empty non-terminal, and under an empty
    wildcard), NODATA only where the type is missing at the name or at the wildcard that answers, and that no closer name than a
    wildcard exists only where the next closer name has no records; with the records of the whole zone it proves each exactly there. *)
Theorem nsec_denials_exact `{NameLaws} `{!DenialLib} `{!DenialLaws} (z : szone) (nsecs : list (Name * NSEC)) (q : Name) :
  szone_wf z → nsecs_of z nsecs → star ∉ path q → z_apex z `prefix_of` path q →
  (nsec_proves_nxdomain q nsecs = Proven → without_records z (path q) ∧ (answers z (path q) Nothing ∨ answers z (path q) Empty ∨ answers z (path q) (Wild []))) ∧
  (∀ t, nsec_proves_nodata q t nsecs = Proven → without_type z (path q) t) ∧
  (∀ k T, z_types z !! (take k (path q) ++ [star]) = Some T → nsec_proves_no_closer_match q k nsecs = Proven →
     z_types z !! take (S k) (path q) = None ∧ (answers z (path q) (Wild T) ∨ answers z (take (S k) (path q)) Empty)) ∧
  ((∀ T, is_ancestor_delegation T = true → delegates T) → (∀ n, path n `prefix_of` path q → is_Some (wildcard_of n)) →
   (∀ d T, z_types z !! d = Some T → ∃ o n, (o, n) ∈ nsecs ∧ path o = d) →
   (nsec_proves_nxdomain q nsecs = Proven ↔ without_records z (path q)) ∧
   (∀ t, nsec_proves_nodata q t nsecs = Proven ↔ without_type z (path q) t) ∧
   (∀ k T, z_types z !! (take k (path q) ++ [star]) = Some T → nsec_proves_no_closer_match q k nsecs = Proven ↔ z_types z !! take (S k) (path q) = None)).
Proof.
  intros Wz Hau Hs Hz. pose proof (nxdomain_sound z nsecs Hau q Hs Hz) as Hnx. split_and!.
  - intros H'. split; [auto|by apply without_records_status, Hnx].
  - intros t. by apply nodata_sound.
  - intros k T HT H'. pose proof (no_closer_sound z nsecs Hau q k T Hz HT H') as Hn. split; [done|by apply wild_or_empty].
  - intros Hex Hw Hall. split_and!; [split; [done|by apply nxdomain_complete]|intros t; split; [by apply nodata_sound|by apply nodata_complete]|].
    intros k T HT. split; [by apply (no_closer_sound z nsecs Hau q k T)|by apply (no_closer_complete z Hex nsecs Hau Hall q Hz k T)].
Qed.

(** C15: NSEC3 proofs against the records of a signed zone whose name hashes do not collide: NXDOMAIN is proved only for a name that does not
    exist and for which no wildcard has records, or that is below a DNAME at the apex; NODATA only where the type is missing or below an
    opt-out span; an expanded wildcard only where it answers; and an opt-out verdict only where the zone has no signed data at or below
    the next closer name. *)
Theorem nsec3_denials_sound `{NameLaws} `{!DenialLib} `{!DenialLaws} (z : szone) (zone : Name) (nsec3s : list (Name * NSEC3)) (q : Name) :
  szone_wf z → path zone = z_apex z → nsec3s_of z nsec3s → (∀ s i d p, in_zone z d → hash_of s i p = hash_of s i d → p = d) →
  name_denied z (path q) (nsec3_proves_nxdomain q zone nsec3s) ∧
  (∀ t, type_denied z nsec3s (path q) t (nsec3_proves_nodata q t zone nsec3s)) ∧
  (∀ k, z_apex z `prefix_of` path q → (k < length (path q))%nat → match nsec3_proves_no_closer_match q k zone nsec3s with
     | Proven => ∀ T, z_types z !! (take k (path q) ++ [star]) = Some T → answers z (path q) (Wild T)
     | ProvenOptOut => in_zone z (take k (path q)) → open_below z (path q)
     | _ => True
     end).
Proof.
  intros Wz Hzone Ha Hinj. split_and!; [by apply nxdomain3_sound|intros t; by apply nodata3_sound|]. intros k. by apply no_closer3_sound.
Qed.
