(* ===== verification/ValVerify.v ===== *)
(** * Signatures in the recursor

    engine/src/recursor/dnssec/verify.rs and which signatures it accepts. *)

From S2P Require Import Prelude.
From S2P Require Import GoText.
From S2P Require Import ZoneJournal.
From S2P Require Import DnsLib.
From S2P Require Import DnssecSign.
From S2P Require Import ValDenial.

(** ** Signature verification in the recursor

    engine/src/recursor/dnssec/verify.rs: validity windows, the choice among signatures and keys, DS
    matching.  Records are those of the DNS library; the public-key check, key tags and DS digests are
    parameters. *)

(** ** Records *)
Record RRSIG `{NameLib} := mkRRSIG {
  type_covered : Z; sig_algorithm : Z; sig_labels : nat; original_ttl : Z; sig_expiration : Z; sig_inception : Z;
  sig_key_tag : Z; signer_name : Name; signature : bytes }.
Record DNSKEY := mkDNSKEY { flags : Z; key_algorithm : Z; public_key : bytes }.
(** The flags of RFC 4034 and RFC 5011. *)
Definition zone_key (k : DNSKEY) : bool := Z.testbit (flags k) 8.
Definition revoke (k : DNSKEY) : bool := Z.testbit (flags k) 7.
Definition secure_entry_point (k : DNSKEY) : bool := Z.testbit (flags k) 0.
#[export] Instance DNSKEY_eq_dec : EqDecision DNSKEY.
Proof. solve_decision. Defined.
Record DS := mkDS { ds_key_tag : Z; ds_algorithm : Z; digest_type : Z; digest : bytes }.
Inductive RData `{NameLib} :=
  | RRSIGData (s : RRSIG) | DNSKEYData (k : DNSKEY) | DSData (d : DS) | NSECData (n : NSEC) | NSEC3Data (n : NSEC3)
  | CNAMEData (target : Name) | SOAData (minimum : Z) (rest : bytes) | OtherData (rtype : Z) (rdata : bytes).
Record DRecord `{NameLib} := mkDRecord { r_name : Name; r_ttl : Z; r_data : RData }.
#[global] Arguments mkRRSIG {_}.
#[global] Arguments mkDRecord {_}.
#[global] Arguments RRSIGData {_}.
#[global] Arguments DNSKEYData {_}.
#[global] Arguments DSData {_}.
#[global] Arguments NSECData {_}.
#[global] Arguments NSEC3Data {_}.
#[global] Arguments CNAMEData {_}.
#[global] Arguments SOAData {_}.
#[global] Arguments OtherData {_}.
Definition data_type `{NameLib} (d : RData) : Z :=
  match d with
  | RRSIGData _ => TypeRRSIG | DNSKEYData _ => TypeDNSKEY | DSData _ => TypeDS | NSECData _ => TypeNSEC | NSEC3Data _ => TypeNSEC3
  | CNAMEData _ => TypeCNAME | SOAData _ _ => TypeSOA | OtherData t _ => t
  end.
Definition record_type `{NameLib} (r : DRecord) : Z := data_type (r_data r).

Class VerifyLib `{NameLib} := {
  calculate_key_tag : DNSKEY → option Z;
  (** [covers(..).unwrap_or(false)]. *)
  ds_covers : DS → Name → DNSKEY → bool;
  verify_rrsig : DNSKEY → Name → RRSIG → list DRecord → bool;
}.

(** ** Validity *)
Definition i32 (x : Z) : Z := (x + 2 ^ 31) mod 2 ^ 32 - 2 ^ 31.
Inductive Validity := Valid | NotYetValid_ | Expired_ | Malformed.
Definition clamp (x lo hi : Z) : Z := Z.max lo (Z.min x hi).
Definition within_validity (inception expiration now_unix : Z) : Validity :=
  let now := u32 now_unix in
  let span := u32 (expiration - inception) in
  if (span =? 0) || (2 ^ 31 - 1 <? span) then Malformed
  else
    let skew := clamp (span / 10) 300 3600 in
    if i32 (u32 (now - u32 (inception - skew))) <? 0 then NotYetValid_
    else if i32 (u32 (u32 (expiration + skew) - now)) <? 0 then Expired_
    else Valid.

Definition SUPPORTED_ALGORITHMS : list Z := [8; 13; 14; 15].
Definition algorithm_supported (a : Z) : bool := bool_decide (a ∈ SUPPORTED_ALGORITHMS).
Definition SHA1 : Z := 1.
Definition SHA256 : Z := 2.
Definition SHA384 : Z := 4.
Definition digest_supported (d : Z) : bool := bool_decide (d ∈ [SHA1; SHA256; SHA384]).

Inductive VerifyError := NoRrsig | NoMatchingKey | UnsupportedAlgorithm | Expired | NotYetValid | BadSignature | SignerMismatch | LabelCount.
#[export] Instance VerifyError_eq_dec : EqDecision VerifyError.
Proof. solve_decision. Defined.
Definition rank (e : VerifyError) : Z :=
  match e with
  | BadSignature => 7 | Expired => 6 | NotYetValid => 5 | NoMatchingKey => 4 | UnsupportedAlgorithm => 3 | SignerMismatch => 2 | LabelCount => 1 | NoRrsig => 0
  end.
Definition remember (e err : VerifyError) : VerifyError := if rank err <? rank e then e else err.
Record VerifiedSig := mkVerifiedSig { v_key_tag : Z; v_expiration : Z; v_original_ttl : Z; wildcard_expanded : bool }.
Inductive DsMatch := Matched (keys : list DNSKEY) | NoSupported | NoMatch.

Section verify.
Context `{NameLib} `{!VerifyLib}.

Definition rrsig (r : DRecord) : option RRSIG := match r_data r with RRSIGData s => Some s | _ => None end.

(** ** One RRset *)
Definition candidates (owner : Name) (rtype : Z) (rrsigs : list DRecord) : list RRSIG :=
  filter (λ s, type_covered s = rtype) (omap rrsig (filter (λ r, Name_eqb (r_name r) owner = true) rrsigs)).
Definition key_matches (allow_revoked : bool) (s : RRSIG) (k : DNSKEY) : bool :=
  zone_key k && (allow_revoked || negb (revoke k)) && (key_algorithm k =? sig_algorithm s) && bool_decide (calculate_key_tag k = Some (sig_key_tag s)).
(** The checks before any key is tried. *)
Definition precheck (owner_labels : nat) (zone : Name) (now : Z) (s : RRSIG) : option VerifyError :=
  if negb (Name_eqb (signer_name s) zone) then Some SignerMismatch
  else if negb (algorithm_supported (sig_algorithm s)) then Some UnsupportedAlgorithm
  else if (owner_labels <? sig_labels s)%nat then Some LabelCount
  else match within_validity (sig_inception s) (sig_expiration s) now with
       | Valid => None
       | NotYetValid_ => Some NotYetValid
       | Expired_ | Malformed => Some Expired
       end.
Fixpoint verify_loop (owner : Name) (rrset : list DRecord) (keys : list DNSKEY) (zone : Name) (now : Z) (allow_revoked : bool) (sigs : list RRSIG) (err : VerifyError) :
    res VerifyError VerifiedSig :=
  match sigs with
  | [] => Err err
  | s :: sigs =>
      let next e := verify_loop owner rrset keys zone now allow_revoked sigs (remember e err) in
      match precheck (num_labels owner) zone now s with
      | Some e => next e
      | None =>
          let matching := filter (λ k, key_matches allow_revoked s k = true) keys in
          if existsb (λ k, verify_rrsig k owner s rrset) matching then
            Ok (mkVerifiedSig (sig_key_tag s) (sig_expiration s) (original_ttl s) (sig_labels s <? num_labels owner)%nat)
          else next (match matching with [] => NoMatchingKey | _ => BadSignature end)
      end
  end.
Definition verify_inner (rrset rrsigs : list DRecord) (keys : list DNSKEY) (zone : Name) (now : Z) (allow_revoked : bool) : res VerifyError VerifiedSig :=
  match rrset with
  | [] => Err NoRrsig
  | first :: _ =>
      verify_loop (r_name first) rrset keys zone now allow_revoked (candidates (r_name first) (record_type first) rrsigs) NoRrsig
  end.
Definition verify_rrset (rrset rrsigs : list DRecord) (keys : list DNSKEY) (zone : Name) (now : Z) : res VerifyError VerifiedSig :=
  verify_inner rrset rrsigs keys zone now false.
Definition revoked_key_verifies (rrset rrsigs : list DRecord) (key : DNSKEY) (zone : Name) (now : Z) : option VerifiedSig :=
  if revoke key then match verify_inner rrset rrsigs [key] zone now true with Ok v => Some v | _ => None end else None.
Definition revoked_key_signs (rrset rrsigs : list DRecord) (key : DNSKEY) (zone : Name) (now : Z) : bool :=
  is_Some_b (revoked_key_verifies rrset rrsigs key zone now).
Definition capped_ttl (rrset_ttl : Z) (sig : VerifiedSig) (now_unix : Z) : Z :=
  let left := u32 (v_expiration sig - u32 now_unix) in
  let left := if i32 left <? 0 then 0 else left in
  Z.min (Z.min rrset_ttl (v_original_ttl sig)) left.

(** ** DS records *)
Definition ds_usable (d : DS) : bool := algorithm_supported (ds_algorithm d) && digest_supported (digest_type d).
Definition not_shadowed (supported : list DS) (d : DS) : bool :=
  negb (digest_type d =? SHA1) || negb (existsb (λ o, (ds_key_tag o =? ds_key_tag d) && negb (digest_type o =? SHA1)) supported).
Definition add_matched (zone : Name) (d : DS) (matched : list DNSKEY) (k : DNSKEY) : list DNSKEY :=
  if (key_algorithm k =? ds_algorithm d) && bool_decide (calculate_key_tag k = Some (ds_key_tag d)) && ds_covers d zone k && negb (bool_decide (k ∈ matched))
  then matched ++ [k] else matched.
Definition match_ds (zone : Name) (dnskeys : list DNSKEY) (ds : list DS) : DsMatch :=
  match filter (λ d, ds_usable d = true) ds with
  | [] => NoSupported
  | supported =>
      match foldl (λ matched d, foldl (add_matched zone d) matched dnskeys) [] (filter (λ d, not_shadowed supported d = true) supported) with
      | [] => NoMatch
      | matched => Matched matched
      end
  end.
End verify.

(** ** Verification of RRsets: which signatures count

    A validity check is the window of the signature widened by the skew; an RRset verifies exactly when
    one candidate signature passes every check with one of the keys, and otherwise the most specific
    failure is reported; matched keys are those a usable DS record covers. *)

(** ** Serial numbers *)
Lemma i32_u32 x : i32 (u32 x) = i32 x.
Proof. unfold i32, u32. by rewrite Zplus_mod_idemp_l. Qed.
Lemma i32_small x : - 2 ^ 31 ≤ x < 2 ^ 31 → i32 x = x.
Proof. intros H. unfold i32. rewrite Z.mod_small by lia. lia. Qed.
Lemma u32_sub a b : u32 (u32 a - u32 b) = u32 (a - b).
Proof. unfold u32. by rewrite <- Zminus_mod. Qed.
Definition skew_of (span : Z) : Z := clamp (span / 10) 300 3600.
Lemma skew_bounds span : 300 ≤ skew_of span ≤ 3600.
Proof. unfold skew_of, clamp. lia. Qed.
(** The distances that the check computes modulo 2^32, when no time is further than 2^31 seconds away. *)
Lemma validity_window inception expiration now : 0 < expiration - inception < 2 ^ 31 →
  let skew := skew_of (expiration - inception) in
  - 2 ^ 31 ≤ now - (inception - skew) < 2 ^ 31 → - 2 ^ 31 ≤ expiration + skew - now < 2 ^ 31 →
  within_validity (u32 inception) (u32 expiration) now =
    (if decide (now < inception - skew) then NotYetValid_ else if decide (expiration + skew < now) then Expired_ else Valid).
Proof.
  intros Hs skew H1 H2. unfold within_validity. rewrite u32_sub. rewrite (u32_small (expiration - inception)) by (unfold is_u32; lia).
  destruct (Z.eqb_spec (expiration - inception) 0); [lia|]. destruct (Z.ltb_spec (2 ^ 31 - 1) (expiration - inception)); [lia|]. simpl orb. cbv iota. fold (skew_of (expiration - inception)). fold skew.
  assert (u32 (u32 inception - skew) = u32 (inception - skew)) as -> by (unfold u32; by rewrite Zminus_mod_idemp_l).
  assert (u32 (u32 expiration + skew) = u32 (expiration + skew)) as -> by (unfold u32; by rewrite Zplus_mod_idemp_l).
  rewrite !u32_sub, !i32_u32, !i32_small by done.
  destruct (decide (now < inception - skew)), (Z.ltb_spec (now - (inception - skew)) 0); try lia; [done|]. destruct (decide (expiration + skew < now)), (Z.ltb_spec (expiration + skew - now) 0); try lia; done.
Qed.
Lemma capped_ttl_bound ttl v now : 0 ≤ ttl → 0 ≤ v_original_ttl v → 0 ≤ capped_ttl ttl v now ≤ Z.min ttl (v_original_ttl v).
Proof. intros H1 H2. unfold capped_ttl. pose proof (Z.mod_pos_bound (v_expiration v - u32 now) (2 ^ 32)). unfold u32 in *. destruct (_ <? 0); lia. Qed.
Lemma capped_ttl_expires ttl v now E : 0 ≤ ttl → 0 ≤ v_original_ttl v → v_expiration v = u32 E → - 2 ^ 31 ≤ E - now < 2 ^ 31 → capped_ttl ttl v now ≤ Z.max 0 (E - now).
Proof.
  intros H1 H2 HE Hd. unfold capped_ttl. rewrite HE, u32_sub, i32_u32, i32_small by done. destruct (Z.ltb_spec (E - now) 0); [lia|]. rewrite u32_small by (unfold is_u32; lia). lia.
Qed.

Section verify.
Context {NL : NameLib} {VL : VerifyLib}.

(** ** The outcome of one signature *)
Definition failure (owner : Name) (rrset : list DRecord) (keys : list DNSKEY) (zone : Name) (now : Z) (allow_revoked : bool) (s : RRSIG) : option VerifyError :=
  match precheck (num_labels owner) zone now s with
  | Some e => Some e
  | None =>
      let matching := filter (λ k, key_matches allow_revoked s k = true) keys in
      if existsb (λ k, verify_rrsig k owner s rrset) matching then None else Some (match matching with [] => NoMatchingKey | _ => BadSignature end)
  end.
Definition verified (owner : Name) (s : RRSIG) : VerifiedSig := mkVerifiedSig (sig_key_tag s) (sig_expiration s) (original_ttl s) (sig_labels s <? num_labels owner)%nat.
Lemma rank_remember e err : rank (remember e err) = Z.max (rank e) (rank err).
Proof. unfold remember. destruct (Z.ltb_spec (rank err) (rank e)); lia. Qed.
Lemma verify_loop_spec owner rrset keys zone now ar sigs err :
  match verify_loop owner rrset keys zone now ar sigs err with
  | Ok v => ∃ s, s ∈ sigs ∧ failure owner rrset keys zone now ar s = None ∧ v = verified owner s
  | Err e => (e = err ∨ ∃ s, s ∈ sigs ∧ failure owner rrset keys zone now ar s = Some e) ∧ rank err ≤ rank e ∧
      ∀ s, s ∈ sigs → ∃ e', failure owner rrset keys zone now ar s = Some e' ∧ rank e' ≤ rank e
  | _ => False
  end.
Proof.
  revert err. induction sigs as [|s sigs IH]; intros err; cbn [verify_loop].
  { split_and!; [by left|lia|by intros s ?%not_elem_of_nil]. }
  assert (∀ e, failure owner rrset keys zone now ar s = Some e →
    match verify_loop owner rrset keys zone now ar sigs (remember e err) with
    | Ok v => ∃ s0, s0 ∈ s :: sigs ∧ failure owner rrset keys zone now ar s0 = None ∧ v = verified owner s0
    | Err e => (e = err ∨ ∃ s0, s0 ∈ s :: sigs ∧ failure owner rrset keys zone now ar s0 = Some e) ∧ rank err ≤ rank e ∧
        ∀ s0, s0 ∈ s :: sigs → ∃ e', failure owner rrset keys zone now ar s0 = Some e' ∧ rank e' ≤ rank e
    | _ => False
    end) as Hnext.
  { intros e Ef. specialize (IH (remember e err)). destruct (verify_loop _ _ _ _ _ _ _ _) as [v|e'| |]; try done.
    - destruct IH as (s0 & Hin & ?). exists s0. split; [by right|done].
    - destruct IH as (Ho & Hr & Ha). rewrite rank_remember in Hr. split_and!; [|lia|].
      + destruct Ho as [->|(s0 & Hin & Hf)]; [|right; exists s0; split; [by right|done]]. unfold remember. case_match; [right; exists s; split; [by left|done]|by left].
      + intros s0 [->|Hin]%elem_of_cons; [exists e; split; [done|lia]|by apply Ha]. }
  unfold failure in Hnext at 1. destruct (precheck _ _ _ s) as [e|] eqn:Ep; [by apply Hnext|]. cbv zeta in *. destruct (existsb _ _) eqn:Ev; [|by apply Hnext].
  exists s. split_and!; [by left| |done]. unfold failure. by rewrite Ep, Ev.
Qed.
Lemma failure_None owner rrset keys zone now ar s : failure owner rrset keys zone now ar s = None ↔
  precheck (num_labels owner) zone now s = None ∧ ∃ k, k ∈ keys ∧ key_matches ar s k = true ∧ verify_rrsig k owner s rrset = true.
Proof.
  unfold failure. destruct (precheck _ _ _ _); [split; [done|by intros []]|]. cbv zeta.
  assert (existsb (λ k, verify_rrsig k owner s rrset) (filter (λ k, key_matches ar s k = true) keys) = true ↔ ∃ k, k ∈ keys ∧ key_matches ar s k = true ∧ verify_rrsig k owner s rrset = true) as E.
  { rewrite existsb_exists. setoid_rewrite <- list_elem_of_In. setoid_rewrite list_elem_of_filter. naive_solver. }
  destruct (existsb _ _); [|split; [done|]; intros [_ Hk]; by apply E in Hk]. split; [|done]. intros _. split; [done|]. by apply E.
Qed.
(** ** RRsets *)
Lemma verify_inner_spec first rest rrsigs keys zone now ar :
  let sigs := candidates (r_name first) (record_type first) rrsigs in
  let fail := failure (r_name first) (first :: rest) keys zone now ar in
  match verify_inner (first :: rest) rrsigs keys zone now ar with
  | Ok v => ∃ s, s ∈ sigs ∧ fail s = None ∧ v = verified (r_name first) s
  | Err e => (sigs = [] ∧ e = NoRrsig ∨ ∃ s, s ∈ sigs ∧ fail s = Some e) ∧ ∀ s, s ∈ sigs → ∃ e', fail s = Some e' ∧ rank e' ≤ rank e
  | _ => False
  end.
Proof.
  intros sigs fail. unfold verify_inner. fold sigs. pose proof (verify_loop_spec (r_name first) (first :: rest) keys zone now ar sigs NoRrsig) as H.
  destruct (verify_loop _ _ _ _ _ _ _ _) as [v|e| |]; [done| |done|done]. destruct H as (Ho & _ & Ha). split; [|done]. destruct Ho as [->|]; [|by right].
  destruct sigs as [|s l] eqn:E; [by left|]. right. exists s. split; [by left|]. destruct (Ha s) as (e' & Ef & Hr); [by left|]. destruct e'; simpl in Hr; try lia. done.
Qed.
Lemma verify_rrset_Ok rrset rrsigs keys zone now v : verify_rrset rrset rrsigs keys zone now = Ok v → ∃ first rest s k,
  rrset = first :: rest ∧ s ∈ candidates (r_name first) (record_type first) rrsigs ∧ precheck (num_labels (r_name first)) zone now s = None ∧ v = verified (r_name first) s ∧
  k ∈ keys ∧ key_matches false s k = true ∧ verify_rrsig k (r_name first) s rrset = true.
Proof.
  unfold verify_rrset. destruct rrset as [|first rest]; [done|]. pose proof (verify_inner_spec first rest rrsigs keys zone now false) as H. intros E. cbv zeta in H. rewrite E in H.
  destruct H as (s & Hs & Hf & ->). apply failure_None in Hf as (Hp & k & Hk & Hm & Hv). by exists first, rest, s, k.
Qed.
Lemma precheck_None ol zone now s : precheck ol zone now s = None → Name_eqb (signer_name s) zone = true ∧ algorithm_supported (sig_algorithm s) = true ∧
  (sig_labels s ≤ ol)%nat ∧ within_validity (sig_inception s) (sig_expiration s) now = Valid.
Proof. unfold precheck. repeat case_match; try done. intros _. apply negb_false_iff in H, H0. apply Nat.ltb_ge in H1. done. Qed.
Lemma candidates_elem owner rtype rrsigs s : s ∈ candidates owner rtype rrsigs ↔ type_covered s = rtype ∧ ∃ r, r ∈ rrsigs ∧ Name_eqb (r_name r) owner = true ∧ r_data r = RRSIGData s.
Proof.
  unfold candidates. rewrite list_elem_of_filter, list_elem_of_omap. setoid_rewrite list_elem_of_filter. apply and_iff_compat_l. split; intros (r & Hr & Hd).
  - exists r. unfold rrsig in Hd. destruct (r_data r) eqn:E; naive_solver.
  - destruct Hd as [Hn Hd]. exists r. unfold rrsig. by rewrite Hd.
Qed.

(** ** DS records *)
Definition ds_selects (zone : Name) (d : DS) (k : DNSKEY) : Prop := key_algorithm k = ds_algorithm d ∧ calculate_key_tag k = Some (ds_key_tag d) ∧ ds_covers d zone k = true.
Lemma add_matched_elem zone d m k k' : k' ∈ add_matched zone d m k ↔ k' ∈ m ∨ k' = k ∧ ds_selects zone d k.
Proof.
  unfold add_matched, ds_selects. destruct (Z.eqb_spec (key_algorithm k) (ds_algorithm d)); simpl; [|naive_solver]. case_bool_decide; simpl; [|naive_solver]. destruct (ds_covers d zone k); simpl; [|naive_solver].
  case_bool_decide; simpl; [naive_solver|]. rewrite elem_of_app, list_elem_of_singleton. naive_solver.
Qed.
Lemma add_matched_NoDup zone d m k : NoDup m → NoDup (add_matched zone d m k).
Proof. intros Hm. unfold add_matched. case_match; [|done]. apply andb_true_iff in H as [_ H]. apply negb_true_iff, bool_decide_eq_false in H. apply NoDup_app. split_and!; [done| |apply NoDup_singleton]. intros x Hx ->%list_elem_of_singleton. done. Qed.
Lemma matched_keys zone d ks m k' : k' ∈ foldl (add_matched zone d) m ks ↔ k' ∈ m ∨ k' ∈ ks ∧ ds_selects zone d k'.
Proof.
  revert m. induction ks as [|k ks IH]; intros m; simpl; [set_solver|]. rewrite IH, add_matched_elem, elem_of_cons. naive_solver.
Qed.
Lemma matched_ds zone ks ds m k' : k' ∈ foldl (λ m d, foldl (add_matched zone d) m ks) m ds ↔ k' ∈ m ∨ k' ∈ ks ∧ ∃ d, d ∈ ds ∧ ds_selects zone d k'.
Proof.
  revert m. induction ds as [|d ds IH]; intros m; simpl; [set_solver|]. rewrite IH, matched_keys. setoid_rewrite elem_of_cons. naive_solver.
Qed.
(** The keys matched are those that a usable DS record selects: SHA-1 only where no other digest is there for the tag. *)
Definition ds_counts (ds : list DS) (d : DS) : Prop :=
  d ∈ ds ∧ ds_usable d = true ∧ (digest_type d = SHA1 → ∀ o, o ∈ ds → ds_usable o = true → ds_key_tag o = ds_key_tag d → digest_type o = SHA1).
Lemma not_shadowed_counts ds d : d ∈ filter (λ d, not_shadowed (filter (λ d, ds_usable d = true) ds) d = true) (filter (λ d, ds_usable d = true) ds) ↔ ds_counts ds d.
Proof.
  rewrite !list_elem_of_filter. unfold not_shadowed, ds_counts. destruct (Z.eqb_spec (digest_type d) SHA1) as [E|E]; simpl; [|naive_solver].
  rewrite negb_true_iff, <- not_true_iff_false, existsb_exists. setoid_rewrite <- list_elem_of_In. setoid_rewrite list_elem_of_filter. setoid_rewrite andb_true_iff. setoid_rewrite Z.eqb_eq. setoid_rewrite negb_true_iff. setoid_rewrite Z.eqb_neq.
  split; [|naive_solver]. intros (Hn & Hu & Hd). split; [done|split; [done|]]. intros _ o Ho Hou Ht. destruct (decide (digest_type o = SHA1)); [done|]. destruct Hn. by exists o.
Qed.
Lemma match_ds_spec zone dnskeys ds :
  match match_ds zone dnskeys ds with
  | Matched ks => ks ≠ [] ∧ ∀ k, k ∈ ks ↔ k ∈ dnskeys ∧ ∃ d, ds_counts ds d ∧ ds_selects zone d k
  | NoSupported => ∀ d, d ∈ ds → ds_usable d = false
  | NoMatch => (∃ d, d ∈ ds ∧ ds_usable d = true) ∧ ∀ k d, k ∈ dnskeys → ds_counts ds d → ¬ ds_selects zone d k
  end.
Proof.
  unfold match_ds. destruct (filter _ ds) as [|d0 l] eqn:E.
  { intros d Hd. destruct (ds_usable d) eqn:Eu; [|done]. assert (d ∈ filter (λ d, ds_usable d = true) ds) by (by apply list_elem_of_filter). rewrite E in H. by apply not_elem_of_nil in H. }
  pose proof (not_shadowed_counts ds) as Hc. rewrite E in Hc. pose proof (matched_ds zone dnskeys (filter (λ d, not_shadowed (d0 :: l) d = true) (d0 :: l)) []) as Hm. setoid_rewrite Hc in Hm.
  destruct (foldl _ _ _) as [|k0 ks] eqn:Ef; [|split; [done|]; intros k; rewrite (Hm k); set_solver].
  split; [exists d0; apply and_comm, (list_elem_of_filter (λ d, ds_usable d = true)); rewrite E; by left|]. intros k d Hk Hd Hs. apply (not_elem_of_nil k), Hm. right. eauto.
Qed.
End verify.

(** C29: Times of a signature, as seconds that the code keeps modulo 2^32: while no time is further away than 2^31 seconds, the signature counts
    as valid exactly from the inception to the expiration, both widened by a tenth of the lifetime between five minutes and an hour; and the TTL
    that is left never exceeds the time to the expiration. *)
Theorem signature_lifetime inception expiration now ttl v : 0 < expiration - inception < 2 ^ 31 → - 2 ^ 31 ≤ now - (inception - skew_of (expiration - inception)) < 2 ^ 31 →
  - 2 ^ 31 ≤ expiration + skew_of (expiration - inception) - now < 2 ^ 31 → - 2 ^ 31 ≤ expiration - now < 2 ^ 31 →
  0 ≤ ttl → 0 ≤ v_original_ttl v → v_expiration v = u32 expiration →
  (within_validity (u32 inception) (u32 expiration) now = Valid ↔ inception - skew_of (expiration - inception) ≤ now ≤ expiration + skew_of (expiration - inception)) ∧
  300 ≤ skew_of (expiration - inception) ≤ 3600 ∧ 0 ≤ capped_ttl ttl v now ≤ Z.min ttl (v_original_ttl v) ∧ capped_ttl ttl v now ≤ Z.max 0 (expiration - now).
Proof.
  intros H1 H2 H3 H4 H5 H6 H7. split; [|split; [apply skew_bounds|split; [by apply capped_ttl_bound|by apply capped_ttl_expires]]].
  rewrite validity_window by done. repeat case_decide; split; try done; lia.
Qed.

(** ** What a signature must be

    The conditions of RFC 4035, section 5.3.1, in the order in which the code reports them, with serial
    number arithmetic (RFC 1982) for the times. *)
Section specification.
Context {NL : NameLib} {NLaws : NameLaws} {VL : VerifyLib}.
(** The signature covers the RRset of the first record. *)
Definition sig_for (sigs : list DRecord) (first : DRecord) (s : RRSIG) : Prop :=
  ∃ r, r ∈ sigs ∧ r_data r = RRSIGData s ∧ path (r_name r) = path (r_name first) ∧ type_covered s = record_type first.
Definition lifetime (s : RRSIG) : Z := (sig_expiration s - sig_inception s) mod 2 ^ 32.
Definition margin (s : RRSIG) : Z := Z.max 300 (Z.min (lifetime s / 10) 3600).
Definition started (s : RRSIG) (now : Z) : Prop := (now - (sig_inception s - margin s)) mod 2 ^ 32 < 2 ^ 31.
Definition ended (s : RRSIG) (now : Z) : Prop := 2 ^ 31 ≤ (sig_expiration s + margin s - now) mod 2 ^ 32.
Definition bounded (s : RRSIG) : Prop := 0 < lifetime s < 2 ^ 31.
#[global] Instance started_dec s now : Decision (started s now).
Proof. unfold started. apply _. Defined.
#[global] Instance ended_dec s now : Decision (ended s now).
Proof. unfold ended. apply _. Defined.
#[global] Instance bounded_dec s : Decision (bounded s).
Proof. unfold bounded. apply _. Defined.
(** A zone key that is not revoked, with the algorithm and the tag of the signature. *)
Definition usable_key (s : RRSIG) (k : DNSKEY) : Prop :=
  Z.testbit (flags k) 8 = true ∧ Z.testbit (flags k) 7 = false ∧ key_algorithm k = sig_algorithm s ∧ calculate_key_tag k = Some (sig_key_tag s).
Record well_formed (zone : Name) (now : Z) (first : DRecord) (s : RRSIG) : Prop := {
  wf_signer : path (signer_name s) = path zone;
  wf_algorithm : sig_algorithm s ∈ [8; 13; 14; 15];
  wf_labels : (sig_labels s ≤ num_labels (r_name first))%nat;
  wf_bounded : bounded s;
  wf_started : started s now;
  wf_ended : ¬ ended s now;
}.
Definition accepted (rrset : list DRecord) (keys : list DNSKEY) (zone : Name) (now : Z) (first : DRecord) (s : RRSIG) : Prop :=
  well_formed zone now first s ∧ ∃ k, k ∈ keys ∧ usable_key s k ∧ verify_rrsig k (r_name first) s rrset = true.
Inductive refused (rrset : list DRecord) (keys : list DNSKEY) (zone : Name) (now : Z) (first : DRecord) (s : RRSIG) : VerifyError → Prop :=
  | ref_signer : path (signer_name s) ≠ path zone → refused rrset keys zone now first s SignerMismatch
  | ref_algorithm : path (signer_name s) = path zone → sig_algorithm s ∉ [8; 13; 14; 15] → refused rrset keys zone now first s UnsupportedAlgorithm
  | ref_labels : path (signer_name s) = path zone → sig_algorithm s ∈ [8; 13; 14; 15] → (num_labels (r_name first) < sig_labels s)%nat → refused rrset keys zone now first s LabelCount
  | ref_early : path (signer_name s) = path zone → sig_algorithm s ∈ [8; 13; 14; 15] → (sig_labels s ≤ num_labels (r_name first))%nat → bounded s → ¬ started s now → refused rrset keys zone now first s NotYetValid
  | ref_late : path (signer_name s) = path zone → sig_algorithm s ∈ [8; 13; 14; 15] → (sig_labels s ≤ num_labels (r_name first))%nat → ¬ bounded s ∨ started s now ∧ ended s now → refused rrset keys zone now first s Expired
  | ref_key : well_formed zone now first s → (∀ k, k ∈ keys → ¬ usable_key s k) → refused rrset keys zone now first s NoMatchingKey
  | ref_bad k : well_formed zone now first s → k ∈ keys → usable_key s k → (∀ k', k' ∈ keys → usable_key s k' → verify_rrsig k' (r_name first) s rrset = false) → refused rrset keys zone now first s BadSignature.
(** Errors from the least to the most specific one. *)
Definition specificity : list VerifyError := [NoRrsig; LabelCount; SignerMismatch; UnsupportedAlgorithm; NoMatchingKey; NotYetValid; Expired; BadSignature].
Definition at_most (e e' : VerifyError) : Prop := ∃ i j, specificity !! i = Some e ∧ specificity !! j = Some e' ∧ (i ≤ j)%nat.
(** The error of an RRset none of whose signatures is accepted. *)
Definition rejected_with (rrset sigs : list DRecord) (keys : list DNSKEY) (zone : Name) (now : Z) (e : VerifyError) : Prop :=
  match rrset with
  | [] => e = NoRrsig
  | first :: _ => ((∀ s, ¬ sig_for sigs first s) ∧ e = NoRrsig ∨ ∃ s, sig_for sigs first s ∧ refused rrset keys zone now first s e) ∧
      ∀ s, sig_for sigs first s → ∃ e', refused rrset keys zone now first s e' ∧ at_most e' e
  end.

Lemma serial_negative x : (i32 (u32 x) <? 0) = bool_decide (2 ^ 31 ≤ x mod 2 ^ 32).
Proof.
  unfold i32, u32. pose proof (Z.mod_pos_bound x (2 ^ 32) eq_refl). set (y := x mod 2 ^ 32) in *. destruct (decide (y < 2 ^ 31)).
  - rewrite Z.mod_small, bool_decide_eq_false_2 by lia. apply Z.ltb_ge. lia.
  - replace (y + 2 ^ 31) with (y - 2 ^ 31 + 1 * 2 ^ 32) by lia. rewrite Z_mod_plus_full, Z.mod_small, bool_decide_eq_true_2 by lia. apply Z.ltb_lt. lia.
Qed.
Lemma validity_spec s now : within_validity (sig_inception s) (sig_expiration s) now =
  (if decide (bounded s) then if decide (started s now) then if decide (ended s now) then Expired_ else Valid else NotYetValid_ else Malformed).
Proof.
  unfold within_validity. fold (u32 (sig_expiration s - sig_inception s)). change (u32 (sig_expiration s - sig_inception s)) with (lifetime s). unfold bounded.
  pose proof (Z.mod_pos_bound (sig_expiration s - sig_inception s) (2 ^ 32) eq_refl) as Hl. fold (lifetime s) in Hl.
  destruct (decide _) as [Hb|Hb], (Z.eqb_spec (lifetime s) 0), (Z.ltb_spec (2 ^ 31 - 1) (lifetime s)); simpl; try lia; try done. fold (clamp (lifetime s / 10) 300 3600). change (clamp (lifetime s / 10) 300 3600) with (margin s).
  rewrite !u32_sub, !serial_negative. unfold started, ended.
  destruct (decide (_ < _)); [rewrite bool_decide_eq_false_2 by lia|by rewrite bool_decide_eq_true_2 by lia]. case_bool_decide; by case_decide.
Qed.
Lemma key_matches_usable s k : key_matches false s k = true ↔ usable_key s k.
Proof. unfold key_matches, usable_key, zone_key, revoke. rewrite !andb_true_iff, bool_decide_eq_true, Z.eqb_eq. simpl. rewrite negb_true_iff. tauto. Qed.
Lemma candidates_for first sigs s : s ∈ candidates (r_name first) (record_type first) sigs ↔ sig_for sigs first s.
Proof. rewrite candidates_elem. unfold sig_for. setoid_rewrite eqb_true. naive_solver. Qed.
Lemma rank_specificity e e' : rank e ≤ rank e' ↔ at_most e e'.
Proof.
  assert (∀ e, specificity !! Z.to_nat (rank e) = Some e) as Hl by (by intros []). split.
  - intros H. exists (Z.to_nat (rank e)), (Z.to_nat (rank e')). split_and!; [done|done|lia].
  - intros (i & j & Hi & Hj & Hij). do 8 (destruct i as [|i]; [do 8 (destruct j as [|j]; [simplify_eq/=; lia|]); simplify_eq/=|]). simplify_eq/=.
Qed.
Lemma well_formed_precheck zone now first s : precheck (num_labels (r_name first)) zone now s = None ↔ well_formed zone now first s.
Proof.
  unfold precheck, algorithm_supported, SUPPORTED_ALGORITHMS. rewrite validity_spec. split.
  - destruct (Name_eqb _ _) eqn:En; simpl; [|done]. apply eqb_true in En. case_bool_decide as Ha; simpl; [|done]. destruct (Nat.ltb_spec (num_labels (r_name first)) (sig_labels s)); [done|].
    repeat case_decide; try done.
  - intros [H1 H2 H3 H4 H5 H6]. rewrite (proj2 (eqb_true _ _) H1), bool_decide_eq_true_2 by done. simpl. rewrite (proj2 (Nat.ltb_ge _ _) H3), !decide_True, decide_False by done. done.
Qed.
Lemma failure_accepted rrset keys zone now first s : failure (r_name first) rrset keys zone now false s = None ↔ accepted rrset keys zone now first s.
Proof. rewrite failure_None, well_formed_precheck. unfold accepted. by setoid_rewrite key_matches_usable. Qed.
Lemma failure_refused rrset keys zone now first s e : failure (r_name first) rrset keys zone now false s = Some e → refused rrset keys zone now first s e.
Proof.
  unfold failure. destruct (precheck _ _ _ _) as [e'|] eqn:Ep.
  - intros [= ->]. unfold precheck, algorithm_supported, SUPPORTED_ALGORITHMS in Ep. rewrite validity_spec in Ep. destruct (Name_eqb _ _) eqn:En; simpl in Ep.
    2:{ injection Ep as <-. apply ref_signer. intros E%eqb_true. congruence. }
    apply eqb_true in En. case_bool_decide; simpl in Ep; [|injection Ep as <-; by apply ref_algorithm]. destruct (Nat.ltb_spec (num_labels (r_name first)) (sig_labels s)); [injection Ep as <-; by apply ref_labels|].
    repeat case_decide; try done; injection Ep as <-; [apply ref_late|apply ref_early|apply ref_late]; auto.
  - apply well_formed_precheck in Ep. cbv zeta. destruct (existsb _ _) eqn:Ev; [done|]. intros [= <-].
    assert (∀ k, k ∈ keys → usable_key s k → k ∈ filter (λ k, key_matches false s k = true) keys) as Hin by (intros k Hk Hu; apply list_elem_of_filter; by rewrite key_matches_usable).
    destruct (filter _ keys) as [|k l] eqn:Ef; [apply ref_key; [done|]; intros k Hk Hu; by apply (not_elem_of_nil k), Hin|].
    assert (k ∈ filter (λ k, key_matches false s k = true) keys) as [Hu Hk]%list_elem_of_filter by (rewrite Ef; by left). apply key_matches_usable in Hu. apply (ref_bad _ _ _ _ _ _ k); try done.
    intros k' Hk' Hu'. apply not_true_iff_false. intros Hv. apply not_true_iff_false in Ev. apply Ev, existsb_exists. exists k'. split; [by apply list_elem_of_In, Hin|done].
Qed.
Lemma refused_failure rrset keys zone now first s e : refused rrset keys zone now first s e → failure (r_name first) rrset keys zone now false s = Some e.
Proof.
  intros Hr. destruct (failure _ _ _ _ _ _ _) as [e'|] eqn:E.
  - apply failure_refused in E. f_equal. destruct Hr as [| | | | |[]|? []], E as [| | | | |[]|? []]; try done; exfalso; try lia; first [tauto|naive_solver].
  - apply failure_accepted in E as [[] (k' & ? & ? & Hv)]. exfalso. destruct Hr as [| | | | |? Hn|? ? ? ? Hn]; try lia; try tauto; [by eapply Hn|]. by rewrite (Hn k') in Hv.
Qed.
Lemma verify_rrset_cases rrset sigs keys zone now : match verify_rrset rrset sigs keys zone now with
  | Ok v => ∃ first rest s, rrset = first :: rest ∧ sig_for sigs first s ∧ accepted rrset keys zone now first s ∧ v = verified (r_name first) s
  | Err e => rejected_with rrset sigs keys zone now e
  | _ => False
  end.
Proof.
  unfold verify_rrset. destruct rrset as [|first rest]; [done|]. pose proof (verify_inner_spec first rest sigs keys zone now false) as H. cbv zeta in H. destruct (verify_inner _ _ _ _ _ _) as [v|e| |]; try done.
  - destruct H as (s & Hs & Hf & ->). exists first, rest, s. by rewrite <- candidates_for, <- failure_accepted.
  - destruct H as [Ho Ha]. unfold rejected_with. setoid_rewrite <- candidates_for. split.
    + destruct Ho as [[-> ->]|(s & Hs & Hf)]; [left; split; [by intros s ?%not_elem_of_nil|done]|right; exists s; split; [done|by apply failure_refused]].
    + intros s Hs. destruct (Ha s Hs) as (e' & Hf & Hr). exists e'. split; [by apply failure_refused|by apply rank_specificity].
Qed.
Lemma accepted_not_refused rrset keys zone now first s e : accepted rrset keys zone now first s → ¬ refused rrset keys zone now first s e.
Proof. intros Ha%failure_accepted Hr%refused_failure. congruence. Qed.
Lemma rejection_fun rrset sigs keys zone now e e' : rejected_with rrset sigs keys zone now e → rejected_with rrset sigs keys zone now e' → e = e'.
Proof.
  destruct rrset as [|first rest]; simpl; [congruence|]. intros [Ho Ha] [Ho' Ha'].
  destruct Ho as [[Hn ->]|(s & Hs & Hr)], Ho' as [[Hn' ->]|(s' & Hs' & Hr')]; [done|by destruct (Hn s')|by destruct (Hn' s)|].
  destruct (Ha' s Hs) as (x & Hx & Hle), (Ha s' Hs') as (x' & Hx' & Hle'). apply refused_failure in Hr, Hr', Hx, Hx'. assert (x = e) as -> by congruence. assert (x' = e') as -> by congruence.
  apply rank_specificity in Hle, Hle'. destruct e, e'; simpl in *; try done; lia.
Qed.
End specification.

(** C21: An RRset verifies exactly when it is not empty and one of the RRSIG records at its owner covers its type, names the zone as signer, has a
    supported algorithm, no more labels than the owner and a time window that now is in (widened by a tenth of the lifetime, between
    five minutes and an hour), and verifies with a zone key of the set that is not revoked and has its algorithm and tag; what is
    returned describes such a signature.  Otherwise the error is that of the first condition a signature fails, the most
    specific over the signatures, or that there is none. *)
Theorem verify_rrset_exact `{NameLaws} `{!VerifyLib} (rrset sigs : list DRecord) keys zone now :
  ((∃ v, verify_rrset rrset sigs keys zone now = Ok v) ↔ ∃ first rest s, rrset = first :: rest ∧ sig_for sigs first s ∧ accepted rrset keys zone now first s) ∧
  (∀ v, verify_rrset rrset sigs keys zone now = Ok v → ∃ first rest s, rrset = first :: rest ∧ sig_for sigs first s ∧ accepted rrset keys zone now first s ∧
     v = mkVerifiedSig (sig_key_tag s) (sig_expiration s) (original_ttl s) (bool_decide (sig_labels s < num_labels (r_name first))%nat)) ∧
  (∀ e, verify_rrset rrset sigs keys zone now = Err e ↔ rejected_with rrset sigs keys zone now e).
Proof.
  pose proof (verify_rrset_cases rrset sigs keys zone now) as Hc. destruct (verify_rrset _ _ _ _ _) as [v|e| |]; [| |done|done].
  - destruct Hc as (first & rest & s & -> & Hs & Ha & ->). split_and!.
    + split; [by exists first, rest, s|eauto].
    + intros v [= <-]. exists first, rest, s. split_and!; try done. unfold verified. f_equal. destruct (Nat.ltb_spec (sig_labels s) (num_labels (r_name first))); by case_bool_decide; try lia.
    + intros e. split; [done|]. intros [_ Hr]. destruct (Hr s Hs) as (e' & He & _). by apply (accepted_not_refused _ _ _ _ _ _ e') in Ha.
  - split_and!; [|done|].
    + split; [by intros []|]. intros (first & rest & s & -> & Hs & Ha). destruct Hc as [_ Hr]. destruct (Hr s Hs) as (e' & He & _). by apply (accepted_not_refused _ _ _ _ _ _ e') in Ha.
    + intros e'. split; [by intros [= ->]|]. intros Hr. f_equal. by eapply rejection_fun.
Qed.
