(* ===== verification/Validator.v ===== *)
(** * Chain-of-trust validation

    engine/src/recursor/dnssec/validator.rs: grouping of a response into RRsets, the walk from a trust
    point down to the signer of an RRset, and the checks of positive and negative answers.

    The fetcher is a function of the name and the type: a validation keeps every fetch it made
    ([MemoFetcher]), so it never sees two answers to one question.  A walk reads the cache of zone states
    before its first fetch and only writes it afterwards; it returns its writes, and each check of a
    response is given the cache as it finds it, whatever other checks wrote in between.  Of an extended
    error only the code is kept (the text is for logs); counters and the fetches made ahead of the walk
    have no part in the result.  The walk is a loop that need not end, so it has fuel. *)

From S2P Require Import Prelude.
From S2P Require Import GoText.
From S2P Require Import ZoneJournal.
From S2P Require Import DnsLib.
From S2P Require Import DnssecSign.
From S2P Require Import ValDenial.
From S2P Require Import ValVerify.

Definition MAX_ZONE_CACHE_SECS : Z := 3600.
Definition BOGUS_CACHE_SECS : Z := 60.
Definition EDE_NETWORK_ERROR : Z := 23.
Definition MAX_CNAME_DEPTH : nat := 16.
Definition NoError : Z := 0.
Definition NXDomain : Z := 3.
Notation Ede := Z (only parsing).
Notation loops A := (res Empty_set A).

Record FetchedSet `{NameLib} := mkFetchedSet { f_rcode : Z; f_answers : list DRecord; f_authorities : list DRecord }.
Inductive FetchError := Unreachable | Limit.
Record TrustPoint := mkTrustPoint { tp_ds : list DS; tp_keys : list DNSKEY }.
Inductive Security := SecSecure | SecInsecure (e : option Ede) | SecBogus (e : Ede) | SecIndeterminate (e : Ede).
Record ValidationResult := mkResult { security : Security; result_ttl_cap : option Z }.
Inductive ZoneState := ZSecure (keys : list DNSKEY) | ZInsecure (e : option Ede) | ZBogus (e : Ede).
Record CachedZone `{NameLib} := mkCached { c_state : ZoneState; c_key_zone : Name; c_expires : Z }.
Record RrSet `{NameLib} := mkRrSet { s_name : Name; s_rtype : Z; s_records : list DRecord; s_sigs : list DRecord }.
Inductive Outcome := OSecure (ttl : option Z) | OInsecure (e : option Ede) | OBogus (e : Ede) | OIndeterminate (e : Ede).
Record Combined := mkCombined { cb_bogus : option Ede; cb_indeterminate : option Ede; cb_insecure : option (option Ede); cb_ttl : option Z }.
Record VerifiedDenial `{NameLib} := mkDenial { vd_nsec : list (Name * NSEC); vd_nsec3 : list (Name * NSEC3); vd_records : list DRecord; vd_ttl : option Z }.
Inductive Descend := Cut (keys : list DNSKEY) (ttl : Z) | Inside | Nonexistent | Stop (s : ZoneState).
(** Arguments of [insert_secure]. *)
Record NsecInsert `{NameLib} := mkInsert { i_zone : Name; i_soa : list DRecord; i_denial : list DRecord }.
#[global] Arguments mkFetchedSet {_}.
#[global] Arguments mkCached {_}.
#[global] Arguments mkRrSet {_}.
#[global] Arguments mkDenial {_}.
#[global] Arguments mkInsert {_}.

(** ** Outcomes *)
Definition verify_ede (e : VerifyError) : Ede :=
  match e with BadSignature => 6 | Expired => 7 | NotYetValid => 8 | NoMatchingKey => 9 | NoRrsig => 10 | UnsupportedAlgorithm | SignerMismatch | LabelCount => 6 end.
Definition unsupported_ds (ds : list DS) : ZoneState := if forallb (λ d, negb (digest_supported (digest_type d))) ds then ZInsecure (Some 2) else ZInsecure (Some 1).
Definition supported_ds (ds : list DS) : bool := existsb ds_usable ds.
Definition network_error : ZoneState := ZBogus EDE_NETWORK_ERROR.
Definition outcome_of (s : ZoneState) : Outcome :=
  match s with
  | ZSecure _ => OSecure None
  | ZInsecure e => OInsecure e
  | ZBogus e => if e =? EDE_NETWORK_ERROR then OIndeterminate e else OBogus e
  end.
Definition denial_outcome (d : Denial) : Outcome :=
  match d with
  | Proven => OSecure None
  | ProvenOptOut => OInsecure None
  | InsecureIterations _ => OInsecure (Some 27)
  | BogusIterations _ => OBogus 27
  | NotProven _ => OBogus 12
  end.
Definition combined_default : Combined := mkCombined None None None None.
Definition min_opt (c : option Z) (t : Z) : option Z := Some (match c with None => t | Some c => Z.min c t end).
Definition get_or_insert {A} (o : option A) (a : A) : option A := match o with Some _ => o | None => Some a end.
Definition combined_add (c : Combined) (o : Outcome) : Combined :=
  match o with
  | OSecure ttl => match ttl with None => c | Some t => mkCombined (cb_bogus c) (cb_indeterminate c) (cb_insecure c) (min_opt (cb_ttl c) t) end
  | OInsecure e =>
      match cb_insecure c with
      | Some (Some _) => c
      | _ => mkCombined (cb_bogus c) (cb_indeterminate c) (Some e) (cb_ttl c)
      end
  | OBogus e => mkCombined (get_or_insert (cb_bogus c) e) (cb_indeterminate c) (cb_insecure c) (cb_ttl c)
  | OIndeterminate e => mkCombined (cb_bogus c) (get_or_insert (cb_indeterminate c) e) (cb_insecure c) (cb_ttl c)
  end.
Definition combined_security (c : Combined) : Security :=
  match cb_bogus c, cb_indeterminate c, cb_insecure c with
  | Some e, _, _ => SecBogus e
  | None, Some e, _ => SecIndeterminate e
  | None, None, Some e => SecInsecure e
  | None, None, None => SecSecure
  end.

Section validator.
Context `{NameLib} `{!DenialLib} `{!VerifyLib}.

(** ** Trust points *)
Definition TrustPoints := list (Name * TrustPoint).
Fixpoint update_first {A} (P : A → bool) (f : A → A) (l : list A) : option (list A) :=
  match l with
  | [] => None
  | x :: l => if P x then Some (f x :: l) else cons x <$> update_first P f l
  end.
Definition point_mut (zones : TrustPoints) (zone : Name) (f : TrustPoint → TrustPoint) : TrustPoints :=
  default (zones ++ [(zone, f (mkTrustPoint [] []))]) (update_first (λ p, Name_eqb p.1 zone) (λ p, (p.1, f p.2)) zones).
Definition add_ds (zones : TrustPoints) (zone : Name) (d : DS) : TrustPoints := point_mut zones zone (λ p, mkTrustPoint (tp_ds p ++ [d]) (tp_keys p)).
Definition add_key (zones : TrustPoints) (zone : Name) (k : DNSKEY) : TrustPoints := point_mut zones zone (λ p, mkTrustPoint (tp_ds p) (tp_keys p ++ [k])).
(** [max_by_key]: the last of the deepest. *)
Definition deeper (best : option (Name * TrustPoint)) (p : Name * TrustPoint) : option (Name * TrustPoint) :=
  match best with Some b => if (num_labels p.1 <? num_labels b.1)%nat then Some b else Some p | None => Some p end.
Definition closest (zones : TrustPoints) (name : Name) : option (Name * TrustPoint) := foldl deeper None (filter (λ p, zone_of p.1 name = true) zones).
Definition under_nta (name : Name) (ntas : list (Name * Z)) (now_unix : Z) : bool := existsb (λ p, zone_of p.1 name && (i64 now_unix <? p.2)) ntas.

(** ** RRsets *)
Definition min_ttl (records : list DRecord) : Z := match map r_ttl records with [] => 0 | t :: ts => foldr Z.min t ts end.
Definition set_signer (s : RrSet) : option Name :=
  snd <$> list_find (λ n, zone_of n (s_name s) = true) (map (λ s, to_lowercase (signer_name s)) (omap rrsig (s_sigs s))).
Definition in_set (name : Name) (rtype : Z) (s : RrSet) : bool := Name_eqb (s_name s) name && (s_rtype s =? rtype).
Definition group_record (sets : list RrSet) (r : DRecord) : list RrSet :=
  if record_type r =? TypeRRSIG then sets
  else default (sets ++ [mkRrSet (r_name r) (record_type r) [r] []])
         (update_first (in_set (r_name r) (record_type r)) (λ s, mkRrSet (s_name s) (s_rtype s) (s_records s ++ [r]) (s_sigs s)) sets).
Definition group_sig (sets : list RrSet) (r : DRecord) : list RrSet :=
  match rrsig r with
  | None => sets
  | Some g => default sets (update_first (in_set (r_name r) (type_covered g)) (λ s, mkRrSet (s_name s) (s_rtype s) (s_records s) (s_sigs s ++ [r])) sets)
  end.
Definition group (records : list DRecord) : list RrSet := foldl group_sig (foldl group_record [] records) records.
Definition rrset_of (records : list DRecord) (name : Name) (rtype : Z) : list DRecord * list DRecord :=
  match list_find (λ s, in_set name rtype s = true) (group records) with Some (_, s) => (s_records s, s_sigs s) | None => ([], []) end.
Definition dnskeys (records : list DRecord) : list DNSKEY := omap (λ r, match r_data r with DNSKEYData k => Some k | _ => None end) records.
Definition ds_records (records : list DRecord) : list DS := omap (λ r, match r_data r with DSData d => Some d | _ => None end) records.

(** ** Verified denials *)
Definition is_denial_type (t : Z) : bool := (t =? TypeNSEC) || (t =? TypeNSEC3).
Definition add_denial (d : VerifiedDenial) (r : DRecord) : VerifiedDenial :=
  match r_data r with
  | NSECData n => mkDenial (vd_nsec d ++ [(r_name r, n)]) (vd_nsec3 d) (vd_records d) (vd_ttl d)
  | NSEC3Data n => mkDenial (vd_nsec d) (vd_nsec3 d ++ [(r_name r, n)]) (vd_records d) (vd_ttl d)
  | _ => d
  end.
Definition denial_set (zone : Name) (keys : list DNSKEY) (now : Z) (out : VerifiedDenial) (s : RrSet) : res Ede VerifiedDenial :=
  if negb (match set_signer s with Some n => Name_eqb n zone | None => false end) then Ok out
  else match verify_rrset (s_records s) (s_sigs s) keys zone now with
       | Ok v =>
           let ttl := capped_ttl (min_ttl (s_records s)) v now in
           let out := foldl add_denial (mkDenial (vd_nsec out) (vd_nsec3 out) (vd_records out) (min_opt (vd_ttl out) ttl)) (s_records s) in
           Ok (mkDenial (vd_nsec out) (vd_nsec3 out) (vd_records out ++ s_records s ++ s_sigs s) (vd_ttl out))
       | Err e => Err (verify_ede e)
       | Panic => Panic
       | Fuel => Fuel
       end.
Definition verified_denial (records : list DRecord) (zone : Name) (keys : list DNSKEY) (now : Z) : res Ede VerifiedDenial :=
  fold_res (denial_set zone keys now) (mkDenial [] [] [] None) (filter (λ s, is_denial_type (s_rtype s) = true) (group records)).

(** ** The cache of zone states *)
Definition zcache := list (Name * CachedZone).
Definition zones_get (zones : zcache) (name : Name) : option CachedZone := (λ p, p.2.2) <$> list_find (λ p, Name_eqb p.1 name = true) zones.
Definition zones_insert (zones : zcache) (p : Name * CachedZone) : zcache := p :: filter (λ q, Name_eqb q.1 p.1 = false) zones.
Definition cached (zones : zcache) (name : Name) (now : Z) : option CachedZone := c ← zones_get zones name; if now <? c_expires c then Some c else None.
Definition store (name : Name) (state : ZoneState) (key_zone : Name) (ttl now : Z) : zcache :=
  match state with
  | ZBogus e => if e =? EDE_NETWORK_ERROR then [] else [(name, mkCached state key_zone (now + BOGUS_CACHE_SECS))]
  | _ => [(name, mkCached state key_zone (now + Z.min ttl MAX_ZONE_CACHE_SECS))]
  end.

Definition is_empty {A} (l : list A) : bool := match l with [] => true | _ => false end.

Section walk.
Context (fetch : Name → Z → FetchedSet + FetchError) (now : Z).

(** ** One step down *)
Definition trust_point_keys (zone : Name) (tp : TrustPoint) : list DNSKEY * Z + ZoneState :=
  if is_empty (tp_keys tp) && is_empty (tp_ds tp) then inr (ZInsecure None)
  else if is_empty (tp_keys tp) && negb (supported_ds (tp_ds tp)) then inr (unsupported_ds (tp_ds tp))
  else
    match fetch zone TypeDNSKEY with
    | inr _ => inr network_error
    | inl set =>
        let '(records, sigs) := rrset_of (f_answers set) zone TypeDNSKEY in
        let fetched := dnskeys records in
        let authorised := (match match_ds zone fetched (tp_ds tp) with Matched k => k | _ => [] end) ++ filter (λ k, k ∈ tp_keys tp) fetched in
        match authorised with
        | [] => inr (ZBogus 9)
        | _ =>
            match verify_rrset records sigs authorised zone now with
            | Ok v => inl (filter (λ k, zone_key k = true) fetched, capped_ttl (min_ttl records) v now)
            | Err e => inr (ZBogus (verify_ede e))
            | _ => inr network_error
            end
        end
    end.
Definition descend_keys (child : Name) (ds : list DS) (ds_ttl : Z) : Descend :=
  match fetch child TypeDNSKEY with
  | inr _ => Stop network_error
  | inl kset =>
      let '(krecords, ksigs) := rrset_of (f_answers kset) child TypeDNSKEY in
      let fetched := dnskeys krecords in
      match match_ds child fetched ds with
      | Matched authorised =>
          match verify_rrset krecords ksigs authorised child now with
          | Ok kv => Cut (filter (λ k, zone_key k = true) fetched) (Z.min ds_ttl (capped_ttl (min_ttl krecords) kv now))
          | Err e => Stop (ZBogus (verify_ede e))
          | _ => Stop network_error
          end
      | NoSupported => Stop (unsupported_ds ds)
      | NoMatch => Stop (ZBogus 9)
      end
  end.
Definition proof_of_missing (nxdomain : bool) (name : Name) (qtype : Z) (zone : Name) (denial : VerifiedDenial) : Denial :=
  match nxdomain, vd_nsec3 denial with
  | true, [] => nsec_proves_nxdomain name (vd_nsec denial)
  | true, _ => nsec3_proves_nxdomain name zone (vd_nsec3 denial)
  | false, [] => nsec_proves_nodata name qtype (vd_nsec denial)
  | false, _ => nsec3_proves_nodata name qtype zone (vd_nsec3 denial)
  end.
Definition is_delegation (child key_zone : Name) (denial : VerifiedDenial) : bool :=
  match nsec_at child (vd_nsec denial) with
  | Some n => contains (type_set n) TypeNS
  | None => match nsec3_match child key_zone (vd_nsec3 denial) with Some n => contains (type_set3 n) TypeNS | None => false end
  end.
Definition descend_denied (child key_zone : Name) (keys : list DNSKEY) (set : FetchedSet) : Descend :=
  if negb ((f_rcode set =? NoError) || (f_rcode set =? NXDomain)) then Stop network_error
  else match verified_denial (f_authorities set) key_zone keys now with
       | Err e => Stop (ZBogus e)
       | Ok denial =>
           let nxdomain := f_rcode set =? NXDomain in
           match proof_of_missing nxdomain child TypeDS key_zone denial with
           | Proven => if nxdomain then Nonexistent else if is_delegation child key_zone denial then Stop (ZInsecure None) else Inside
           | ProvenOptOut => Stop (ZInsecure None)
           | NotProven _ => Stop (ZBogus 12)
           | other => match denial_outcome other with OInsecure e => Stop (ZInsecure e) | OBogus e => Stop (ZBogus e) | _ => Inside end
           end
       | _ => Stop network_error
       end.
Definition descend (child key_zone : Name) (keys : list DNSKEY) : Descend :=
  match fetch child TypeDS with
  | inr _ => Stop network_error
  | inl set =>
      let '(ds_set, ds_sigs) := rrset_of (f_answers set) child TypeDS in
      match ds_set with
      | [] => descend_denied child key_zone keys set
      | _ =>
          match verify_rrset ds_set ds_sigs keys key_zone now with
          | Err e => Stop (ZBogus (verify_ede e))
          | Ok v =>
              let ds := ds_records ds_set in
              if negb (supported_ds ds) then Stop (unsupported_ds ds) else descend_keys child ds (capped_ttl (min_ttl ds_set) v now)
          | _ => Stop network_error
          end
      end
  end.

(** ** The walk *)
Definition walked : Type := ZoneState * Name * zcache.
Fixpoint walk_loop (fuel : nat) (zone cur key_zone : Name) (keys : list DNSKEY) (ttl : Z) : loops walked :=
  if (num_labels cur <? num_labels zone)%nat then
    match fuel with
    | O => Fuel
    | S fuel =>
        let child := trim_to zone (num_labels cur + 1) in
        let go key_zone keys ttl :=
          '(state, kz, w) ← walk_loop fuel zone child key_zone keys ttl;
          Ok (state, kz, store child (ZSecure keys) key_zone ttl now ++ w) in
        match descend child key_zone keys with
        | Cut child_keys t => go child child_keys (Z.min ttl t)
        | Inside => go key_zone keys ttl
        | Nonexistent => Ok (ZSecure keys, key_zone, store zone (ZSecure keys) key_zone ttl now)
        | Stop state => Ok (state, key_zone, store child state key_zone ttl now ++ store zone state key_zone ttl now)
        end
    end
  else Ok (ZSecure keys, key_zone, store zone (ZSecure keys) key_zone ttl now).
(** The deepest cached ancestor with at least [lo] labels and fewer than [hi]. *)
Fixpoint resume_from (zones : zcache) (zone : Name) (lo hi : nat) : option (Name * CachedZone) :=
  match hi with
  | O => None
  | S l => if (lo <=? l)%nat then
             match cached zones (trim_to zone l) now with Some c => Some (trim_to zone l, c) | None => resume_from zones zone lo l end
           else None
  end.
Definition walk (fuel : nat) (zones : zcache) (name : Name) (trust : TrustPoints) : loops walked :=
  let zone := to_lowercase name in
  match cached zones zone now with
  | Some c => Ok (c_state c, c_key_zone c, [])
  | None =>
      match closest trust zone with
      | None => Ok (ZInsecure None, Name_root, [])
      | Some (tp_name, tp) =>
          match resume_from zones zone (num_labels tp_name) (num_labels zone) with
          | Some (anc, c) =>
              match c_state c with
              | ZSecure k => walk_loop fuel zone anc (c_key_zone c) k MAX_ZONE_CACHE_SECS
              | other => Ok (other, c_key_zone c, store zone other (c_key_zone c) MAX_ZONE_CACHE_SECS now)
              end
          | None =>
              match trust_point_keys tp_name tp with
              | inl (k, t) =>
                  '(state, kz, w) ← walk_loop fuel zone tp_name tp_name k t;
                  Ok (state, kz, store tp_name (ZSecure k) tp_name t now ++ w)
              | inr state => Ok (state, tp_name, store tp_name state tp_name MAX_ZONE_CACHE_SECS now ++ store zone state tp_name MAX_ZONE_CACHE_SECS now)
              end
          end
      end
  end.

(** ** Checks *)
Definition sig_count (tag : Z) (sigs : list DRecord) : nat := match list_find (λ s, sig_key_tag s = tag) (omap rrsig sigs) with Some (_, s) => sig_labels s | None => 0%nat end.
Definition rrset_outcome (s : RrSet) (authorities : list DRecord) (signer : Name) (keys : list DNSKEY) : Outcome :=
  match verify_rrset (s_records s) (s_sigs s) keys signer now with
  | Err e => OBogus (verify_ede e)
  | Ok v =>
      let ttl := capped_ttl (min_ttl (s_records s)) v now in
      if wildcard_expanded v then
        let labels := sig_count (v_key_tag v) (s_sigs s) in
        match verified_denial authorities signer keys now with
        | Err e => OBogus e
        | Ok denial =>
            let proof := match vd_nsec3 denial with
                         | [] => nsec_proves_no_closer_match (s_name s) labels (vd_nsec denial)
                         | _ => nsec3_proves_no_closer_match (s_name s) labels signer (vd_nsec3 denial)
                         end in
            match proof with Proven => OSecure (Some ttl) | _ => denial_outcome proof end
        | _ => OBogus 6
        end
      else OSecure (Some ttl)
  | _ => OBogus 6
  end.
Definition check_rrset (fuel : nat) (zones : zcache) (s : RrSet) (authorities : list DRecord) (trust : TrustPoints) : loops (Outcome * zcache) :=
  let signer := set_signer s in
  '(state, key_zone, w) ← walk fuel zones (default (s_name s) signer) trust;
  match state with
  | ZSecure keys =>
      match signer with
      | None => Ok (OBogus 10, w)
      | Some signer => if negb (Name_eqb key_zone signer) then Ok (OBogus 6, w) else Ok (rrset_outcome s authorities signer keys, w)
      end
  | other => Ok (outcome_of other, w)
  end.

Record ValidationInput := mkInput { q_name : Name; q_type : Z; q_rcode : Z; q_answers : list DRecord; q_authorities : list DRecord }.
Definition denial_signer (sets : list RrSet) : option Name :=
  match list_find (λ s, s_rtype s = TypeSOA) sets ≫= λ p, set_signer p.2 with
  | Some n => Some n
  | None => head (omap set_signer (filter (λ s, is_denial_type (s_rtype s) = true) sets))
  end.
Definition min_ttls (a b : option Z) : option Z := match a, b with Some a, Some b => Some (Z.min a b) | Some a, None => Some a | None, b => b end.
Definition negative_proof (sname : Name) (input : ValidationInput) (zone : Name) (keys : list DNSKEY) (soa : option RrSet) (ttl_cap : option Z) : Outcome * option NsecInsert :=
  match verified_denial (q_authorities input) zone keys now with
  | Err e => (OBogus e, None)
  | Ok denial =>
      match proof_of_missing (q_rcode input =? NXDomain) sname (q_type input) zone denial with
      | Proven => (OSecure (min_ttls ttl_cap (vd_ttl denial)), (λ s, mkInsert zone (s_records s ++ s_sigs s) (vd_records denial)) <$> soa)
      | proof => (denial_outcome proof, None)
      end
  | _ => (OBogus 6, None)
  end.
Definition negative_outcome (sname : Name) (input : ValidationInput) (zone : Name) (keys : list DNSKEY) (soa : option RrSet) : Outcome * option NsecInsert :=
  match soa with
  | None => negative_proof sname input zone keys None None
  | Some s =>
      match verify_rrset (s_records s) (s_sigs s) keys zone now with
      | Ok v => negative_proof sname input zone keys (Some s) (Some (capped_ttl (min_ttl (s_records s)) v now))
      | Err e => (OBogus (verify_ede e), None)
      | _ => (OBogus 6, None)
      end
  end.
Definition check_negative (fuel : nat) (zones : zcache) (sname : Name) (input : ValidationInput) (trust : TrustPoints) : loops (Outcome * zcache * option NsecInsert) :=
  let sets := group (q_authorities input) in
  let soa := snd <$> list_find (λ s, s_rtype s = TypeSOA) sets in
  let signer := denial_signer sets in
  '(state, key_zone, w) ← walk fuel zones (default sname signer) trust;
  match state with
  | ZSecure keys =>
      match signer with
      | None => Ok (OBogus 12, w, None)
      | Some zone =>
          if negb (Name_eqb key_zone zone) then Ok (OBogus 6, w, None)
          else let '(o, i) := negative_outcome sname input zone keys soa in Ok (o, w, i)
      end
  | other => Ok (outcome_of other, w, None)
  end.

(** ** Responses *)
Definition cname_of (sname : Name) (r : DRecord) : option Name := match r_data r with CNAMEData t => if Name_eqb (r_name r) sname then Some t else None | _ => None end.
Fixpoint final_loop (n : nat) (sname : Name) (answers : list DRecord) : Name :=
  match n with
  | O => sname
  | S n => match head (omap (cname_of sname) answers) with Some t => final_loop n t answers | None => sname end
  end.
Definition final_name (qname : Name) (qtype : Z) (answers : list DRecord) : Name := if qtype =? TypeCNAME then qname else final_loop MAX_CNAME_DEPTH qname answers.
Definition synthesised (answers : list RrSet) (s : RrSet) : bool :=
  (s_rtype s =? TypeCNAME) && match s_sigs s with [] => true | _ => false end &&
  existsb (λ d, (s_rtype d =? TypeDNAME) && zone_of (s_name d) (s_name s) && negb (Name_eqb (s_name d) (s_name s))) answers.
Definition needs_denial (sname : Name) (input : ValidationInput) : bool :=
  ((q_rcode input =? NoError) || (q_rcode input =? NXDomain)) &&
  ((q_rcode input =? NXDomain) || negb (existsb (λ r, Name_eqb (r_name r) sname && (record_type r =? q_type input)) (q_answers input))).
(** The checks of the answer RRsets, the [i]-th with the cache as [zones_at i] has it. *)
Fixpoint check_sets (fuel : nat) (zones_at : nat → zcache) (sets : list RrSet) (authorities : list DRecord) (trust : TrustPoints) : loops (list Outcome * zcache) :=
  match sets with
  | [] => Ok ([], [])
  | s :: sets =>
      '(o, w) ← check_rrset fuel (zones_at 0%nat) s authorities trust;
      '(os, ws) ← check_sets fuel (λ i, zones_at (S i)) sets authorities trust;
      Ok (o :: os, w ++ ws)
  end.
Definition result_of (outcomes : list Outcome) : ValidationResult :=
  let acc := foldl combined_add combined_default outcomes in mkResult (combined_security acc) (cb_ttl acc).
Definition validate_response (fuel : nat) (zones_at : nat → zcache) (input : ValidationInput) (trust : TrustPoints) : loops (ValidationResult * zcache * option NsecInsert) :=
  let answers := group (q_answers input) in
  let sname := final_name (q_name input) (q_type input) (q_answers input) in
  let sets := filter (λ s, synthesised answers s = false) answers in
  '(os, w) ← check_sets fuel zones_at sets (q_authorities input) trust;
  if needs_denial sname input then
    '(o, w', i) ← check_negative fuel (zones_at (length sets)) sname input trust;
    Ok (result_of (os ++ [o]), w ++ w', i)
  else Ok (result_of os, w, None).
Definition validate (fuel : nat) (zones_at : nat → zcache) (input : ValidationInput) (trust : TrustPoints) (ntas : list (Name * Z)) : loops (ValidationResult * zcache * option NsecInsert) :=
  if under_nta (q_name input) ntas now then Ok (mkResult (SecInsecure None) None, [], None) else validate_response fuel zones_at input trust.
Definition zone_state (fuel : nat) (zones : zcache) (zone : Name) (trust : TrustPoints) : loops ZoneState := '(state, _, _) ← walk fuel zones zone trust; Ok state.
End walk.
End validator.
