(* ===== verification/ValChain.v ===== *)
(** * The chain of trust, in a world of zones

    What zones publish and sign, and what the walk of validator.rs then finds. *)

From S2P Require Import Prelude.
From S2P Require Import GoText.
From S2P Require Import ZoneJournal.
From S2P Require Import DnsLib.
From S2P Require Import DnssecSign.
From S2P Require Import ValDenial.
From S2P Require Import ValZone.
From S2P Require Import ValVerify.
From S2P Require Import Validator.

(** ** The world a validator sees

    Zones with their keys, what they signed and what they contain, and what is assumed of them: only a
    zone signs with its keys, DS and DNSKEY records are the zone's own, denial records are those of the
    contents.  Then what a verified RRset and verified denial records are in that world.  The fetcher,
    and so the network, is arbitrary. *)

(** The name a signature with this label count is made for (RFC 4035, 5.3.2). *)
Definition plain_length (p : npath) : nat := match last p with Some l => if decide (l = star) then (length p - 1)%nat else length p | None => 0%nat end.
Definition expand (owner : npath) (k : nat) : npath := if (k <? plain_length owner)%nat then take k owner ++ [star] else owner.

Record World `{NameLib} := mkWorld {
  genuine : npath → DNSKEY → Prop;
  (** Zone, owner, type, data. *)
  published : npath → npath → Z → list RData → Prop;
  contents : npath → szone;
}.
Class WorldLaws {NL : NameLib} {DL : DenialLib} {DLaws : DenialLaws} {VL : VerifyLib} (W : World) : Prop := {
  w_zone : ∀ p k, genuine W p k → szone_wf (contents W p) ∧ z_apex (contents W p) = p;
  (** Signatures are not forged. *)
  w_signed : ∀ p k owner s rrset, genuine W p k → verify_rrsig k owner s rrset = true → path (signer_name s) = p →
    published W p (expand (path owner) (sig_labels s)) (type_covered s) (map r_data rrset);
  (** No DS, DNSKEY or NSEC3 RRset at a wildcard. *)
  w_star : ∀ p o t rds, published W p (o ++ [star]) t rds → t ≠ TypeDS ∧ t ≠ TypeDNSKEY ∧ t ≠ TypeNSEC3;
  w_dnskey : ∀ p rds k, published W p p TypeDNSKEY rds → DNSKEYData k ∈ rds → genuine W p k;
  w_ds : ∀ p rds d name k, published W p (path name) TypeDS rds → DSData d ∈ rds → ds_covers d name k = true → genuine W (path name) k;
  w_data : ∀ p k o t rds, genuine W p k → published W p o t rds → t ≠ TypeNSEC3 → ∃ T, z_types (contents W p) !! o = Some T ∧ t ∈ T;
  w_nsec : ∀ p o rds n, published W p o TypeNSEC rds → NSECData n ∈ rds → authentic (contents W p) o (path (next_domain_name n)) (type_set n);
  w_nsec3 : ∀ p rds owner n h, published W p (path owner) TypeNSEC3 rds → NSEC3Data n ∈ rds → nsec3_owner_hash owner = Some h →
    authentic3 (contents W p) (hash_of (salt n) (iterations n)) h n;
  w_hash : ∀ p s i d q, in_zone (contents W p) d → hash_of s i q = hash_of s i d → q = d;
}.

Lemma plain_length_le p : (plain_length p ≤ length p)%nat.
Proof. unfold plain_length. destruct (last p); [case_decide; lia|lia]. Qed.
Lemma expand_star owner k : expand owner k = owner ∨ ∃ o, expand owner k = o ++ [star].
Proof. unfold expand. destruct (_ <? _)%nat; eauto. Qed.

Section world.
Context {NL : NameLib} {NLaws : NameLaws} {DL : DenialLib} {DLaws : DenialLaws} {VL : VerifyLib}.

Lemma lower_star l : map ascii_lower l = star ↔ l = star.
Proof.
  split; [|by intros ->]. unfold star. destruct l as [|x [|y l]]; try done. simpl. intros [= E]. f_equal. unfold ascii_lower in E. destruct (is_upper x) eqn:Eb; [|done]. unfold is_upper in Eb. lia.
Qed.
Lemma num_labels_path n : num_labels n = plain_length (path n).
Proof.
  rewrite num_labels_spec. unfold plain_length. rewrite length_path. unfold path. destruct (labels n) as [|l ls]; [done|]. simpl. rewrite last_snoc. pose proof (lower_star l). case_bool_decide; case_decide; try tauto; lia.
Qed.

(** ** Grouping *)
Lemma update_first_Some {A} (P : A → bool) f l l' : update_first P f l = Some l' → ∃ l1 x l2, l = l1 ++ x :: l2 ∧ P x = true ∧ l' = l1 ++ f x :: l2.
Proof.
  revert l'. induction l as [|x l IH]; intros l'; simpl; [done|]. destruct (P x) eqn:E; [intros [= <-]; by exists [], x, l|].
  intros (k & Hk & ->)%fmap_Some. destruct (IH _ Hk) as (l1 & y & l2 & -> & HP & ->). by exists (x :: l1), y, l2.
Qed.
Definition set_ok (records : list DRecord) (s : RrSet) : Prop :=
  s_records s ≠ [] ∧ s_rtype s ≠ TypeRRSIG ∧
  (∀ r, r ∈ s_records s → r ∈ records ∧ path (r_name r) = path (s_name s) ∧ record_type r = s_rtype s) ∧
  (∀ r, r ∈ s_sigs s → r ∈ records ∧ path (r_name r) = path (s_name s) ∧ ∃ g, r_data r = RRSIGData g ∧ type_covered g = s_rtype s).
Lemma group_record_ok records sets r : r ∈ records → Forall (set_ok records) sets → Forall (set_ok records) (group_record sets r).
Proof.
  intros Hr Hs. unfold group_record. destruct (Z.eqb_spec (record_type r) TypeRRSIG) as [|Ht]; [done|]. destruct (update_first _ _ _) as [l'|] eqn:E; simpl.
  - apply update_first_Some in E as (l1 & s & l2 & -> & HP & ->). apply Forall_app in Hs as [H1 [(N & T & R & G) H2]%Forall_cons]. apply Forall_app; split; [done|]. apply Forall_cons; split; [|done].
    unfold in_set in HP. apply andb_true_iff in HP as [En%eqb_true Et%Z.eqb_eq]. split_and!; simpl; [by destruct (s_records s)|done| |done].
    intros r' [Hin|Hin%list_elem_of_singleton]%elem_of_app; [by apply R|by subst].
  - apply Forall_app; split; [done|]. apply Forall_singleton. split_and!; simpl; [done|done| |by intros r' ?%not_elem_of_nil]. by intros r' ->%list_elem_of_singleton.
Qed.
Lemma group_sig_ok records sets r : r ∈ records → Forall (set_ok records) sets → Forall (set_ok records) (group_sig sets r).
Proof.
  intros Hr Hs. unfold group_sig. destruct (rrsig r) as [g|] eqn:Eg; [|done]. destruct (update_first _ _ _) as [l'|] eqn:E; simpl; [|done].
  apply update_first_Some in E as (l1 & s & l2 & -> & HP & ->). apply Forall_app in Hs as [H1 [(N & T & R & G) H2]%Forall_cons]. apply Forall_app; split; [done|]. apply Forall_cons; split; [|done].
  unfold in_set in HP. apply andb_true_iff in HP as [En%eqb_true Et%Z.eqb_eq]. split_and!; simpl; [done..|]. unfold rrsig in Eg. destruct (r_data r) eqn:Ed; try done. injection Eg as ->.
  intros r' [Hin|Hin%list_elem_of_singleton]%elem_of_app; [by apply G|subst; eauto].
Qed.
Lemma foldl_Forall {A B} (P : A → Prop) (f : list A → B → list A) (l : list B) acc : Forall P acc → (∀ acc b, b ∈ l → Forall P acc → Forall P (f acc b)) → Forall P (foldl f acc l).
Proof. apply (foldl_inv (Forall P)). Qed.
Lemma group_ok records : Forall (set_ok records) (group records).
Proof.
  unfold group. apply foldl_Forall; [apply foldl_Forall; [by apply Forall_nil|]|]; intros acc b Hb; [by apply group_record_ok|by apply group_sig_ok].
Qed.
Lemma rrset_of_ok records name rtype rs sigs : rrset_of records name rtype = (rs, sigs) → ∀ r, r ∈ rs → path (r_name r) = path name ∧ record_type r = rtype.
Proof.
  unfold rrset_of. destruct (list_find _ _) as [[i s]|] eqn:E; intros [= <- <-] r Hr; [|by apply not_elem_of_nil in Hr]. apply list_find_Some in E as (Hi & HP & _).
  pose proof (group_ok records) as G. rewrite Forall_forall in G. destruct (G _ (list_elem_of_lookup_2 _ _ _ Hi)) as (_ & _ & R & _). destruct (R _ Hr) as (_ & En & Et).
  unfold in_set in HP. apply andb_true_iff in HP as [En'%eqb_true Et'%Z.eqb_eq]. split; congruence.
Qed.

(** ** What verifies *)
Context (W : World) {WL : WorldLaws W}.
Definition all_genuine (zone : Name) (keys : list DNSKEY) : Prop := ∀ k, k ∈ keys → genuine W (path zone) k.
Lemma verified_published rrset sigs keys zone now v : all_genuine zone keys → verify_rrset rrset sigs keys zone now = Ok v → ∃ first rest s,
  rrset = first :: rest ∧ s ∈ candidates (r_name first) (record_type first) sigs ∧ v = verified (r_name first) s ∧ (∃ k, genuine W (path zone) k) ∧
  (sig_labels s ≤ num_labels (r_name first))%nat ∧ published W (path zone) (expand (path (r_name first)) (sig_labels s)) (record_type first) (map r_data rrset).
Proof.
  intros Hg (first & rest & s & k & -> & Hs & Hp & -> & Hk & Hm & Hv)%verify_rrset_Ok. apply precheck_None in Hp as (Hn%eqb_true & _ & Hl & _). apply candidates_elem in Hs as Hs'. destruct Hs' as [Et _].
  exists first, rest, s. split_and!; try done; [exists k; by apply Hg|]. rewrite <- Et. apply (w_signed _ k); [by apply Hg|done|done].
Qed.
(** Data of a type that no wildcard has: published for the very name. *)
Lemma exact_published rrset sigs keys zone now v name t : all_genuine zone keys → verify_rrset rrset sigs keys zone now = Ok v → (∀ r, r ∈ rrset → path (r_name r) = path name ∧ record_type r = t) →
  (t = TypeDS ∨ t = TypeDNSKEY ∨ t = TypeNSEC3) → published W (path zone) (path name) t (map r_data rrset) ∧ (∃ k, genuine W (path zone) k) ∧ rrset ≠ [].
Proof.
  intros Hg Hv Hr Ht. destruct (verified_published _ _ _ _ _ _ Hg Hv) as (first & rest & s & -> & _ & _ & Hk & _ & Hp). destruct (Hr first) as [En Et]; [by left|]. rewrite En, Et in Hp.
  destruct (expand_star (path name) (sig_labels s)) as [E|[o E]]; rewrite E in Hp; [done|]. apply w_star in Hp as (? & ? & ?). naive_solver.
Qed.

(** ** Verified denials *)
Definition nsec_rec (r : DRecord) : option (Name * NSEC) := match r_data r with NSECData n => Some (r_name r, n) | _ => None end.
Definition nsec3_rec (r : DRecord) : option (Name * NSEC3) := match r_data r with NSEC3Data n => Some (r_name r, n) | _ => None end.
Lemma add_denial_all d rs : foldl add_denial d rs = mkDenial (vd_nsec d ++ omap nsec_rec rs) (vd_nsec3 d ++ omap nsec3_rec rs) (vd_records d) (vd_ttl d).
Proof.
  revert d. induction rs as [|r rs IH]; intros d; [simpl; rewrite !app_nil_r; by destruct d|]. cbn [foldl]. rewrite IH. unfold add_denial, nsec_rec, nsec3_rec.
  destruct (r_data r) eqn:Ed; simpl; rewrite Ed, <- ?app_assoc; done.
Qed.
Lemma nsec_rec_elem o n (rs : list DRecord) : (o, n) ∈ omap nsec_rec rs → ∃ r, r ∈ rs ∧ r_name r = o ∧ r_data r = NSECData n.
Proof. intros (r & Hr & E)%list_elem_of_omap. exists r. unfold nsec_rec in E. destruct (r_data r) eqn:Ed; by simplify_eq. Qed.
Lemma nsec3_rec_elem o n (rs : list DRecord) : (o, n) ∈ omap nsec3_rec rs → ∃ r, r ∈ rs ∧ r_name r = o ∧ r_data r = NSEC3Data n.
Proof. intros (r & Hr & E)%list_elem_of_omap. exists r. unfold nsec3_rec in E. destruct (r_data r) eqn:Ed; by simplify_eq. Qed.
(** Where a denial record comes from: the zone published it for the owner, or for the wildcard its signature names. *)
Definition sig_of (records : list DRecord) (o : Name) (t : Z) (k : nat) : Prop := ∃ r g, r ∈ records ∧ path (r_name r) = path o ∧ r_data r = RRSIGData g ∧ type_covered g = t ∧ sig_labels g = k.
Definition nsec_from (records : list DRecord) (zone : Name) (p : Name * NSEC) : Prop := path zone `prefix_of` path p.1 ∧
  ∃ k rds, sig_of records p.1 TypeNSEC k ∧ (k ≤ num_labels p.1)%nat ∧ published W (path zone) (expand (path p.1) k) TypeNSEC rds ∧ NSECData p.2 ∈ rds.
Definition nsec3_from (zone : Name) (p : Name * NSEC3) : Prop := path zone `prefix_of` path p.1 ∧ ∃ rds, published W (path zone) (path p.1) TypeNSEC3 rds ∧ NSEC3Data p.2 ∈ rds.
Lemma set_signer_Some s n : set_signer s = Some n → path n `prefix_of` path (s_name s).
Proof. unfold set_signer. intros ((i & n') & E & ->)%fmap_Some. apply list_find_Some in E as (_ & E & _). by apply zone_of_true. Qed.
Definition denial_from (records : list DRecord) (zone : Name) (d : VerifiedDenial) : Prop :=
  (∀ p, p ∈ vd_nsec d → nsec_from records zone p) ∧ (∀ p, p ∈ vd_nsec3 d → nsec3_from zone p).
Lemma nsec_from_sub records records' zone p : records ⊆ records' → nsec_from records zone p → nsec_from records' zone p.
Proof. intros Hsub (Hz & k & rds & (r & g & Hr & Hg) & Hp). split; [done|]. exists k, rds. split; [|done]. exists r, g. split; [by apply Hsub|done]. Qed.
(** The records of a verified set come with the signatures kept beside them. *)
Lemma denial_set_from records zone keys now out s out' : all_genuine zone keys → set_ok records s → denial_from (vd_records out) zone out ∧ vd_records out ⊆ records →
  denial_set zone keys now out s = Ok out' → denial_from (vd_records out') zone out' ∧ vd_records out' ⊆ records.
Proof.
  intros Hg (Hne & _ & HR & HG) [[H1 H2] Hsub]. unfold denial_set. destruct (set_signer s) as [n|] eqn:Es; simpl; [|by intros [= <-]]. destruct (Name_eqb n zone) eqn:En; simpl; [|by intros [= <-]].
  destruct (verify_rrset _ _ _ _ _) as [v| | |] eqn:Ev; try done. intros [= <-]. rewrite add_denial_all. simpl.
  split; [|intros r [Hr|[Hr|Hr]%elem_of_app]%elem_of_app; [by apply Hsub|by apply HR|by apply HG]].
  apply eqb_true in En. apply set_signer_Some in Es. rewrite En in Es.
  destruct (verified_published _ _ _ _ _ _ Hg Ev) as (first & rest & g & Ef & Hcand & _ & Hk & Hl & Hp). assert (first ∈ s_records s) as Hfirst by (rewrite Ef; by left). destruct (HR _ Hfirst) as (_ & Hfn & Hft).
  split; simpl; intros [o m] Hin; apply elem_of_app in Hin as [Hin|Hin]; [eapply nsec_from_sub, H1, Hin; set_solver|apply nsec_rec_elem in Hin as (r & Hr & <- & Hd)|by auto|apply nsec3_rec_elem in Hin as (r & Hr & <- & Hd)];
    destruct (HR _ Hr) as (_ & Hrn & Hrt).
  - assert (record_type first = TypeNSEC) as Et by (rewrite Hft, <- Hrt; unfold record_type; by rewrite Hd). split; simpl; [by rewrite Hrn|]. rewrite Et, Hfn, <- Hrn in Hp.
    exists (sig_labels g), (map r_data (s_records s)). split_and!; [|by rewrite (num_labels_path (r_name r)), Hrn, <- Hfn, <- num_labels_path|done|apply list_elem_of_fmap; eauto].
    apply candidates_elem in Hcand as (Hty & r' & Hr' & Hn' & Hd'). destruct (HG _ Hr') as (_ & Hn'' & _). exists r', g. split_and!; [set_solver|congruence|done|congruence|done].
  - split; simpl; [by rewrite Hrn|]. destruct (exact_published _ _ _ _ _ _ (r_name r) TypeNSEC3 Hg Ev) as (Hpub & _ & _); [|by auto|].
    + intros r' Hr'. destruct (HR _ Hr') as (_ & Hrn' & Hrt'). split; [congruence|]. rewrite Hrt', <- Hrt. unfold record_type. by rewrite Hd.
    + eexists. split; [done|]. apply list_elem_of_fmap. eauto.
Qed.
Lemma verified_denial_kept records zone keys now d : all_genuine zone keys → verified_denial records zone keys now = Ok d → denial_from (vd_records d) zone d ∧ vd_records d ⊆ records.
Proof.
  intros Hg. unfold verified_denial. apply (fold_res_inv (λ d, denial_from (vd_records d) zone d ∧ vd_records d ⊆ records)); [split; [split; intros p Hp; by apply not_elem_of_nil in Hp|set_solver]|].
  intros a s a' Hs Ha. apply list_elem_of_filter in Hs as [_ Hs]. apply denial_set_from; [done| |done]. by apply (proj1 (Forall_forall _ _) (group_ok records)).
Qed.
Lemma verified_denial_from records zone keys now d : all_genuine zone keys → verified_denial records zone keys now = Ok d → denial_from records zone d.
Proof. intros Hg [[H1 H2] Hsub]%verified_denial_kept; [|done]. split; [|done]. intros p Hp. by eapply nsec_from_sub, H1. Qed.
(** Without expanded signatures, the records are those of the zone. *)
Definition unexpanded (records : list DRecord) : Prop := ∀ r g, r ∈ records → r_data r = RRSIGData g → type_covered g = TypeNSEC → (num_labels (r_name r) ≤ sig_labels g)%nat.
Lemma nsec_from_authentic records zone p : unexpanded records → nsec_from records zone p → authentic (contents W (path zone)) (path p.1) (path (next_domain_name p.2)) (type_set p.2).
Proof.
  intros Hu (_ & k & rds & (r & g & Hr & Hn & Hd & Ht & <-) & Hl & Hp & Hrd). apply (w_nsec _ _ rds); [|done].
  pose proof (Hu _ _ Hr Hd Ht) as Hle. unfold expand in Hp. rewrite num_labels_path, Hn in Hle. destruct (Nat.ltb_spec (sig_labels g) (plain_length (path p.1))); [lia|done].
Qed.
Lemma denial_nsecs records zone d : unexpanded records → denial_from records zone d → nsecs_of (contents W (path zone)) (vd_nsec d).
Proof. intros Hu [H1 _] o n Hin. by apply (nsec_from_authentic records zone (o, n)), H1. Qed.
Lemma denial_nsec3s records zone d : denial_from records zone d → nsec3s_of (contents W (path zone)) (vd_nsec3 d).
Proof. intros [_ H2] o n h Hin _ Hh. destruct (H2 _ Hin) as (_ & rds & Hp & Hrd). by apply (w_nsec3 _ rds o). Qed.
(** Every record that is kept is one of those. *)
Definition kept_ok (d : VerifiedDenial) : Prop := ∀ r, r ∈ vd_records d →
  (∀ n, r_data r = NSECData n → (r_name r, n) ∈ vd_nsec d) ∧ (∀ n, r_data r = NSEC3Data n → (r_name r, n) ∈ vd_nsec3 d).
Lemma kept_denial records zone keys now d : verified_denial records zone keys now = Ok d → kept_ok d.
Proof.
  unfold verified_denial. apply fold_res_inv; [by intros r ?%not_elem_of_nil|]. intros a s a' Hs Ha. apply list_elem_of_filter in Hs as [_ Hs]. pose proof (proj1 (Forall_forall _ _) (group_ok records) _ Hs) as (_ & _ & _ & HG).
  unfold denial_set. destruct (negb _); [by intros [= <-]|]. destruct (verify_rrset _ _ _ _ _); try done. intros [= <-]. rewrite add_denial_all. intros r. simpl. rewrite !elem_of_app. intros [Hr|[Hr|Hr]].
  - destruct (Ha _ Hr) as [H1 H2]. split; intros n Hn; rewrite elem_of_app; left; auto.
  - split; intros n Hn; rewrite elem_of_app; right; apply list_elem_of_omap; exists r; unfold nsec_rec, nsec3_rec; by rewrite Hn.
  - destruct (HG _ Hr) as (_ & _ & g & Hg & _). split; intros n Hn; congruence.
Qed.
End world.

(** ** The chain of trust

    The walk from a trust point against an arbitrary network: the keys of a secure state are keys of the
    zone it names, an insecure state has a cause in the signed data, whatever the cache holds and however
    the walks interleave; and the walk ends, for a name without an asterisk label. *)

Section chain.
Context {NL : NameLib} {NLaws : NameLaws} {DL : DenialLib} {DLaws : DenialLaws} {VL : VerifyLib}.
Context (W : World) {WL : WorldLaws W}.

(** ** Why a name is insecure *)
Inductive insecure_point (z c : npath) : Prop :=
  | ip_unsigned T : z_types (contents W z) !! c = Some T → unsigned T → insecure_point z c
  | ip_opt_out : open_below (contents W z) c → insecure_point z c
  | ip_algorithms rds : published W z c TypeDS rds → rds ≠ [] → (∀ d, DSData d ∈ rds → ds_usable d = false) → insecure_point z c
  | ip_iterations o rds n : published W z o TypeNSEC3 rds → NSEC3Data n ∈ rds → NSEC3_INSECURE_ITERATIONS < iterations n → insecure_point z c.
Definition unusable (tp : TrustPoint) : Prop := tp_keys tp = [] ∧ ∀ d, d ∈ tp_ds tp → ds_usable d = false.
Definition insecure (trust : TrustPoints) (name : npath) : Prop :=
  (∃ p, p ∈ trust ∧ path p.1 `prefix_of` name ∧ unusable p.2) ∨
  ∃ z c, c `prefix_of` name ∧ z `prefix_of` c ∧ (∃ k, genuine W z k) ∧ insecure_point z c.
Lemma insecure_down trust p q : p `prefix_of` q → insecure trust p → insecure trust q.
Proof. intros Hp [(tp & ? & ? & ?)|(z & c & ? & ?)]; [left; exists tp; split_and!; try done; by trans p|right; exists z, c; split; [by trans p|done]]. Qed.

(** ** One step *)
Section step.
Context (fetch : Name → Z → FetchedSet + FetchError) (now : Z).

Lemma dnskeys_elem k rs : k ∈ dnskeys rs → DNSKEYData k ∈ map r_data rs.
Proof. unfold dnskeys. intros (r & Hr & E)%list_elem_of_omap. apply list_elem_of_fmap. exists r. destruct (r_data r) eqn:Ed; by simplify_eq. Qed.
Lemma ds_records_elem d rs : d ∈ ds_records rs ↔ DSData d ∈ map r_data rs.
Proof.
  unfold ds_records. rewrite list_elem_of_omap, list_elem_of_fmap. split; [intros (r & Hr & E); exists r; destruct (r_data r) eqn:Ed; by simplify_eq|]. intros (r & E & Hr). exists r. by rewrite <- E.
Qed.
(** A DNSKEY RRset that verifies with keys of the zone holds keys of the zone. *)
Lemma dnskey_genuine zone records sigs ans keys v : rrset_of ans zone TypeDNSKEY = (records, sigs) → all_genuine W zone keys →
  verify_rrset records sigs keys zone now = Ok v → all_genuine W zone (filter (λ k, zone_key k = true) (dnskeys records)).
Proof.
  intros E Hg Hv k [_ Hk]%list_elem_of_filter. destruct (exact_published W _ _ _ _ _ _ zone TypeDNSKEY Hg Hv) as (Hp & _ & _); [by eapply rrset_of_ok|auto|].
  by apply (w_dnskey _ _ _ Hp), dnskeys_elem.
Qed.
Lemma unsupported_insecure ds e : unsupported_ds ds = e → ∃ c, e = ZInsecure c.
Proof. unfold unsupported_ds. case_match; intros <-; eauto. Qed.
Lemma supported_false ds d : supported_ds ds = false → d ∈ ds → ds_usable d = false.
Proof. unfold supported_ds. intros E Hd. destruct (ds_usable d) eqn:Eu; [|done]. rewrite <- E. symmetry. apply existsb_exists. exists d. by rewrite <- list_elem_of_In. Qed.
Lemma nsec_verdicts q nsecs : (∃ w, nsec_proves_nxdomain q nsecs = NotProven w) ∨ nsec_proves_nxdomain q nsecs = Proven.
Proof. unfold nsec_proves_nxdomain. repeat case_match; eauto. Qed.
Lemma nsec_verdicts_nodata q t nsecs : (∃ w, nsec_proves_nodata q t nsecs = NotProven w) ∨ nsec_proves_nodata q t nsecs = Proven.
Proof. unfold nsec_proves_nodata. repeat case_match; eauto; match goal with |- context[types_deny ?T ?t] => destruct (types_deny_cases T t) as [[-> _]|[? ->]] end; eauto. Qed.
Lemma missing_opt_out nx child t zone denial records : (∃ k, genuine W (path zone) k) → denial_from W records zone denial →
  proof_of_missing nx child t zone denial = ProvenOptOut → open_below (contents W (path zone)) (path child).
Proof.
  intros [k Hk] Hd. destruct (w_zone _ _ Hk) as [Hwf Hap]. pose proof (denial_nsec3s W _ _ _ Hd) as H3. unfold proof_of_missing.
  destruct nx, (vd_nsec3 denial) as [|p l] eqn:E.
  - by destruct (nsec_verdicts child (vd_nsec denial)) as [[w ->]| ->].
  - intros Ho. pose proof (nxdomain3_cases (contents W (path zone)) (w_hash (path zone)) zone (eq_sym Hap) _ H3 child) as Hc. by rewrite Ho in Hc.
  - by destruct (nsec_verdicts_nodata child t (vd_nsec denial)) as [[w ->]| ->].
  - intros Ho. pose proof (nodata3_sound (contents W (path zone)) (w_hash (path zone)) zone (eq_sym Hap) _ H3 child t) as Hc. rewrite Ho in Hc. apply Hc.
Qed.
Lemma missing_iterations nx child t zone denial records n : denial_from W records zone denial → proof_of_missing nx child t zone denial = InsecureIterations n →
  ∃ o rds m, published W (path zone) o TypeNSEC3 rds ∧ NSEC3Data m ∈ rds ∧ NSEC3_INSECURE_ITERATIONS < iterations m.
Proof.
  intros [_ Hd]. unfold proof_of_missing. assert (∀ p : Name * NSEC3, p ∈ vd_nsec3 denial → NSEC3_INSECURE_ITERATIONS < iterations p.2 →
    ∃ o rds m, published W (path zone) o TypeNSEC3 rds ∧ NSEC3Data m ∈ rds ∧ NSEC3_INSECURE_ITERATIONS < iterations m) as Hx.
  { intros p Hp Hi. destruct (Hd _ Hp) as (_ & rds & Hpub & Hin). by exists (path p.1), rds, p.2. }
  destruct nx, (vd_nsec3 denial) as [|p l] eqn:E.
  - by destruct (nsec_verdicts child (vd_nsec denial)) as [[w ->]| ->].
  - intros (q & Hq & Hi)%iterations_nxdomain. by apply (Hx q).
  - by destruct (nsec_verdicts_nodata child t (vd_nsec denial)) as [[w ->]| ->].
  - intros (q & Hq & Hi)%iterations_nodata. by apply (Hx q).
Qed.
(** An NSEC for the name with the NS bit is the name's own: no wildcard has it. *)
Lemma nsec_at_ns records zone denial child n : (∃ k, genuine W (path zone) k) → denial_from W records zone denial → nsec_at child (vd_nsec denial) = Some n → TypeNS ∈ type_set n →
  ∃ T, z_types (contents W (path zone)) !! path child = Some T ∧ same_types (type_set n) T.
Proof.
  intros [k Hk] [Hd _] Hn Hns. destruct (w_zone _ _ Hk) as [Hwf _]. unfold nsec_at in Hn. apply fmap_Some in Hn as ((i & o & n') & E & ->). apply list_find_Some in E as (Hi & Ho%eqb_true & _). simpl in *.
  destruct (Hd _ (list_elem_of_lookup_2 _ _ _ Hi)) as (_ & j & rds & _ & _ & Hp & Hin). simpl in *. destruct (au_owner _ _ _ _ (w_nsec _ _ _ _ Hp Hin)) as (T & HT & Hs).
  destruct (expand_star (path o) j) as [E|[w E]]; rewrite E in HT; [exists T; by rewrite <- Ho|]. apply sw_star in HT. by rewrite Hs in Hns.
Qed.
Lemma nsec3_match_from zone nsec3s child n : (∃ k, genuine W (path zone) k) → nsec3s_of (contents W (path zone)) nsec3s → nsec3_match child zone nsec3s = Some n → types_at (contents W (path zone)) (path child) (type_set3 n).
Proof.
  intros [k Hk] Ha. destruct (w_zone _ _ Hk) as [Hwf Hap]. unfold nsec3_match. destruct (Nsec3Set_new zone nsec3s) as [set|d] eqn:Es; [|done].
  destruct (Nsec3Set_set (contents W (path zone)) _ _ _ (eq_sym Hap) Ha Es) as (s & i & Hset). destruct (set_hash set child) as [h|] eqn:Eh; [|done]. simpl. rewrite (set_hash_of _ _ _ _ Hset _ _ Eh).
  intros Hm. by apply (matching_Some _ (w_hash (path zone)) _ _ _ Hset) in Hm as [_ ?].
Qed.
Lemma delegation_unsigned records zone denial child : (∃ k, genuine W (path zone) k) → denial_from W records zone denial →
  proof_of_missing false child TypeDS zone denial = Proven → is_delegation child zone denial = true → ∃ T, z_types (contents W (path zone)) !! path child = Some T ∧ unsigned T.
Proof.
  intros Hk Hd Hp Hdel. pose proof Hk as [k Hk']. destruct (w_zone _ _ Hk') as [Hwf Hap]. pose proof (denial_nsec3s W _ _ _ Hd) as H3.
  assert (∃ T, z_types (contents W (path zone)) !! path child = Some T ∧ TypeNS ∈ T ∧ (vd_nsec3 denial = [] → lacks T TypeDS)) as (T & HT & Hns & Hl).
  { unfold is_delegation in Hdel. destruct (nsec_at child (vd_nsec denial)) as [n|] eqn:En.
    - unfold contains in Hdel. apply bool_decide_eq_true in Hdel. destruct (nsec_at_ns _ _ _ _ _ Hk Hd En Hdel) as (T & HT & Hs). exists T. split_and!; [done|by rewrite <- Hs|].
      intros E. unfold proof_of_missing, nsec_proves_nodata in Hp. rewrite E, En in Hp. rewrite <- Hs. by apply types_deny_lacks.
    - destruct (nsec3_match child zone (vd_nsec3 denial)) as [n|] eqn:Em; [|done]. unfold contains in Hdel. apply bool_decide_eq_true in Hdel.
      pose proof (nsec3_match_from _ _ _ _ Hk H3 Em) as Ht. unfold types_at in Ht. rewrite Ht in Hdel. unfold z_at in Hdel. destruct (z_types _ !! path child) as [T|]; [|by apply not_elem_of_nil in Hdel].
      exists T. split_and!; [done|done|]. intros E. by rewrite E in Em. }
  assert (lacks T TypeDS) as (Hds & _ & Hsoa & _); [|exists T; split; [done|]; split_and!; [done|by apply Hsoa|done]].
  destruct (vd_nsec3 denial) as [|p l] eqn:E; [by apply Hl|]. unfold proof_of_missing in Hp. rewrite E in Hp.
  pose proof (nodata3_sound _ (w_hash (path zone)) zone (eq_sym Hap) _ H3 child TypeDS) as Hc. rewrite Hp in Hc. destruct Hc as [(s & Hs & Hno)|(_ & Hne & _)]; [|done].
  pose proof (answers_fun _ _ _ _ Hwf Hs (ans_here _ _ _ HT)) as ->. done.
Qed.
(** ** Descending *)
Lemma descend_denied_sound child zone keys set : (∃ k, genuine W (path zone) k) → all_genuine W zone keys →
  match descend_denied now child zone keys set with
  | Cut _ _ | Stop (ZSecure _) => False
  | Stop (ZInsecure _) => insecure_point (path zone) (path child)
  | _ => True
  end.
Proof.
  intros Hk Hg. unfold descend_denied. destruct (negb _); [done|]. destruct (verified_denial _ _ _ _) as [d| | |] eqn:Ed; try done. apply (verified_denial_from W) in Ed; [|done].
  destruct (proof_of_missing _ _ _ _ d) eqn:Ep; try done.
  - destruct (f_rcode set =? NXDomain) eqn:En; [done|]. destruct (is_delegation child zone d) eqn:Edel; [|done]. destruct (delegation_unsigned _ _ _ _ Hk Ed Ep Edel) as (T & HT & Hu). by apply (ip_unsigned _ _ T).
  - apply ip_opt_out. by eapply missing_opt_out.
  - simpl. destruct (missing_iterations _ _ _ _ _ _ _ Ed Ep) as (o & rds & m & H1 & H2 & H3). by apply (ip_iterations _ _ o rds m).
Qed.
Lemma matched_genuine zone ds fetched ks : (∀ d k, d ∈ ds → ds_covers d zone k = true → genuine W (path zone) k) → match_ds zone fetched ds = Matched ks → (∃ k, genuine W (path zone) k) ∧ all_genuine W zone ks.
Proof.
  intros Hd Hm. pose proof (match_ds_spec zone fetched ds) as Hs. rewrite Hm in Hs. destruct Hs as [Hne Hs].
  assert (all_genuine W zone ks) as Hg by (intros k Hk; apply Hs in Hk as (_ & d & (Hin & _) & (_ & _ & Hc)); by apply (Hd d)).
  split; [|done]. destruct ks as [|k ks]; [done|]. exists k. apply Hg. by left.
Qed.
Lemma descend_sound child zone keys : (∃ k, genuine W (path zone) k) → all_genuine W zone keys →
  match descend fetch now child zone keys with
  | Cut ks _ => (∃ k, genuine W (path child) k) ∧ all_genuine W child ks
  | Stop (ZInsecure _) => insecure_point (path zone) (path child)
  | Stop (ZSecure _) => False
  | _ => True
  end.
Proof.
  intros Hk Hg. unfold descend. destruct (fetch child TypeDS) as [set|]; [|done]. destruct (rrset_of _ _ _) as [ds_set ds_sigs] eqn:Es. destruct ds_set as [|r0 rs].
  { pose proof (descend_denied_sound child zone keys set Hk Hg). by destruct (descend_denied _ _ _ _ _) as [| | |[]]. }
  destruct (verify_rrset _ _ _ _ _) as [v| | |] eqn:Ev; try done.
  destruct (exact_published W _ _ _ _ _ _ child TypeDS Hg Ev) as (Hp & _ & _); [by eapply rrset_of_ok|auto|].
  destruct (supported_ds _) eqn:Esup; cbn [negb].
  - unfold descend_keys. destruct (fetch child TypeDNSKEY) as [kset|]; [|done]. destruct (rrset_of (f_answers kset) child TypeDNSKEY) as [kr ks] eqn:Ek. destruct (match_ds child (dnskeys kr) (ds_records (r0 :: rs))) as [auth| |] eqn:Em.
    + destruct (verify_rrset kr ks auth child now) as [kv| | |] eqn:Ekv; try done. destruct (matched_genuine child _ _ _ (λ d k Hd, w_ds _ _ _ _ _ Hp (proj1 (ds_records_elem d _) Hd)) Em) as [Hex Hga].
      split; [done|]. by eapply dnskey_genuine.
    + destruct (unsupported_ds _) as [|e|] eqn:Eu; try done; [by destruct (unsupported_insecure _ _ Eu)|]. pose proof (match_ds_spec child (dnskeys kr) (ds_records (r0 :: rs))) as Hs. rewrite Em in Hs.
      apply (ip_algorithms _ _ _ Hp); [done|]. intros d Hd. apply Hs. by apply ds_records_elem.
    + done.
  - destruct (unsupported_ds _) as [|e|] eqn:Eu; try done; [by destruct (unsupported_insecure _ _ Eu)|]. apply (ip_algorithms _ _ _ Hp); [done|]. intros d Hd. apply (supported_false _ _ Esup). by apply ds_records_elem.
Qed.

(** ** The walk *)
Context (trust : TrustPoints).
Definition trust_ok : Prop := ∀ n tp, (n, tp) ∈ trust → (∀ d k, d ∈ tp_ds tp → ds_covers d n k = true → genuine W (path n) k) ∧ (∀ k, k ∈ tp_keys tp → genuine W (path n) k).
Definition state_ok (name : npath) (state : ZoneState) (kz : Name) : Prop :=
  match state with
  | ZSecure ks => path kz `prefix_of` name ∧ (∃ k, genuine W (path kz) k) ∧ all_genuine W kz ks
  | ZInsecure _ => insecure trust name
  | ZBogus _ => True
  end.
Definition entry_ok (p : Name * CachedZone) : Prop := state_ok (path p.1) (c_state p.2) (c_key_zone p.2).
Definition cache_ok (zones : zcache) : Prop := Forall entry_ok zones.
Context (Htrust : trust_ok).

Lemma store_ok n state kz ttl : state_ok (path n) state kz → cache_ok (store n state kz ttl now).
Proof. intros H. unfold store. destruct state; [by apply Forall_singleton|by apply Forall_singleton|]. case_match; [by apply Forall_nil|by apply Forall_singleton]. Qed.
#[local] Opaque store.
Lemma cached_ok zones n c : cache_ok zones → cached zones n now = Some c → state_ok (path n) (c_state c) (c_key_zone c).
Proof.
  intros Hz. unfold cached, zones_get. destruct (list_find _ zones) as [[i [n' c']]|] eqn:E; [|done]. simpl. case_match; [|done]. intros [= <-].
  apply list_find_Some in E as (Hi & En%eqb_true & _). simpl in En. rewrite <- En. apply (proj1 (Forall_forall _ _) Hz (n', c')). by eapply list_elem_of_lookup_2.
Qed.
Lemma closest_elem name p : closest trust name = Some p → p ∈ trust ∧ path p.1 `prefix_of` path name.
Proof.
  unfold closest. assert (∀ l best q, (∀ b, best = Some b → b ∈ trust ∧ path b.1 `prefix_of` path name) → (∀ b, b ∈ l → b ∈ trust ∧ path b.1 `prefix_of` path name) → foldl deeper best l = Some q → q ∈ trust ∧ path q.1 `prefix_of` path name) as Hx.
  { induction l as [|x l IH]; intros best q Hb Hl; simpl; [auto|]. apply IH; [|intros b Hin; apply Hl; by right]. intros b. unfold deeper. destruct best as [b0|]; [|intros [= <-]; apply Hl; by left].
    case_match; intros [= <-]; [by apply Hb|apply Hl; by left]. }
  apply Hx; [done|]. intros b [Hz Hin]%list_elem_of_filter. split; [done|]. by apply zone_of_true.
Qed.
Lemma closest_none name : closest trust name = None → ∀ p, p ∈ trust → ¬ path p.1 `prefix_of` path name.
Proof.
  unfold closest. intros E p Hp Hz. assert (p ∈ filter (λ p, zone_of p.1 name = true) trust) as Hin by (apply list_elem_of_filter; split; [by apply zone_of_true|done]).
  destruct (filter _ trust) as [|x l]; [by apply not_elem_of_nil in Hin|]. simpl in E. clear Hin. revert x E. induction l as [|y l IH]; intros x; simpl; [done|]. case_match; apply IH.
Qed.
Lemma trust_point_sound n tp : (n, tp) ∈ trust → match trust_point_keys fetch now n tp with
  | inl (ks, _) => (∃ k, genuine W (path n) k) ∧ all_genuine W n ks
  | inr (ZSecure _) => False
  | inr (ZInsecure _) => unusable tp
  | inr (ZBogus _) => True
  end.
Proof.
  intros Hin. destruct (Htrust _ _ Hin) as [Hds Hks]. unfold trust_point_keys.
  destruct (is_empty (tp_keys tp) && is_empty (tp_ds tp)) eqn:E1.
  { unfold unusable. destruct (tp_keys tp), (tp_ds tp); try done. split; [done|]. by intros d ?%not_elem_of_nil. }
  destruct (is_empty (tp_keys tp) && negb (supported_ds (tp_ds tp))) eqn:E2.
  { apply andb_true_iff in E2 as [E2 E3%negb_true_iff]. destruct (unsupported_ds _) as [|e|] eqn:Eu; try (by destruct (unsupported_insecure _ _ Eu)). split; [by destruct (tp_keys tp)|]. intros d. by apply supported_false. }
  destruct (fetch n TypeDNSKEY) as [set|]; [|done]. destruct (rrset_of _ _ _) as [records sigs] eqn:Er.
  set (auth := match match_ds n (dnskeys records) (tp_ds tp) with Matched k => k | _ => [] end ++ filter (λ k, k ∈ tp_keys tp) (dnskeys records)).
  assert (all_genuine W n auth) as Hg.
  { intros k [Hk|Hk]%elem_of_app; [|apply list_elem_of_filter in Hk as [Hk _]; by apply Hks]. destruct (match_ds _ _ _) eqn:Em; try by apply not_elem_of_nil in Hk. by apply (matched_genuine n _ _ _ Hds Em). }
  clearbody auth. destruct auth as [|k0 auth]; [done|]. destruct (verify_rrset records _ _ _ _) as [v| | |] eqn:Ev; try done. split; [exists k0; apply Hg; by left|]. by eapply dnskey_genuine.
Qed.
Lemma child_below zone cur : path cur `prefix_of` path zone → path cur `prefix_of` path (trim_to zone (num_labels cur + 1)) ∧ path (trim_to zone (num_labels cur + 1)) `prefix_of` path zone.
Proof.
  intros [r E]. rewrite path_trim. split; [|apply prefix_take]. rewrite E, take_app_ge; [by apply prefix_app_r|]. rewrite num_labels_path. unfold plain_length. destruct (last (path cur)) eqn:El; [case_decide; lia|].
  apply last_None in El. rewrite El. simpl. lia.
Qed.
Lemma walk_loop_ok fuel zone cur kz keys ttl st kz' w : path kz `prefix_of` path cur → path cur `prefix_of` path zone → (∃ k, genuine W (path kz) k) → all_genuine W kz keys →
  walk_loop fetch now fuel zone cur kz keys ttl = Ok (st, kz', w) → state_ok (path zone) st kz' ∧ cache_ok w.
Proof.
  revert cur kz keys ttl st kz' w. induction fuel as [|fuel IH]; intros cur kz keys ttl st kz' w Hkc Hcz Hk Hg; cbn [walk_loop]; (destruct (_ <? _)%nat;
    [|intros [= <- <- <-]; assert (state_ok (path zone) (ZSecure keys) kz) by (split_and!; [by trans (path cur)|done|done]); split; [done|by apply store_ok]]); [done|].
  destruct (child_below zone cur Hcz) as [Hcc Hchz]. set (child := trim_to zone (num_labels cur + 1)) in *. pose proof (descend_sound child kz keys Hk Hg) as Hd.
  assert (∀ kz1 ks1 t1, path kz1 `prefix_of` path child → (∃ k, genuine W (path kz1) k) → all_genuine W kz1 ks1 →
    ('(state, kz0, w0) ← walk_loop fetch now fuel zone child kz1 ks1 t1; Ok (state, kz0, store child (ZSecure ks1) kz1 t1 now ++ w0)) = Ok (st, kz', w) → state_ok (path zone) st kz' ∧ cache_ok w) as Hgo.
  { intros kz1 ks1 t1 H1 H2 H3 ([[st1 kz2] w1] & E1 & [= <- <- <-])%bind_Ok. destruct (IH _ _ _ _ _ _ _ H1 Hchz H2 H3 E1) as [Hs Hw]. split; [done|]. apply Forall_app; split; [|done]. by apply store_ok. }
  destruct (descend _ _ _ _ _) as [ks t| | |state]; [destruct Hd; by apply Hgo|apply Hgo; [by trans (path cur)|done|done]| |].
  - intros [= <- <- <-]. assert (state_ok (path zone) (ZSecure keys) kz) by (split_and!; [by trans (path cur)|done|done]). split; [done|by apply store_ok].
  - intros [= <- <- <-]. assert (∀ p, path child `prefix_of` p → state_ok p state kz) as Hst.
    { intros p Hp. destruct state; [done| |done]. right. exists (path kz), (path child). split_and!; [done|by trans (path cur)|done|done]. }
    split; [by apply Hst|]. apply Forall_app; split; apply store_ok; by apply Hst.
Qed.
Lemma resume_ok zones zone lo hi anc c : cache_ok zones → resume_from now zones zone lo hi = Some (anc, c) → path anc `prefix_of` path zone ∧ state_ok (path anc) (c_state c) (c_key_zone c).
Proof.
  intros Hz. induction hi as [|l IH]; simpl; [done|]. destruct (lo <=? l)%nat; [|done]. destruct (cached zones (trim_to zone l) now) as [c'|] eqn:E; [|done]. intros [= <- <-]. split; [rewrite path_trim; apply prefix_take|by eapply cached_ok].
Qed.
Lemma state_down p q state kz : p `prefix_of` q → state_ok p state kz → state_ok q state kz.
Proof. intros Hp. destruct state; simpl; [|by apply insecure_down|done]. intros (? & ? & ?). split; [by trans p|done]. Qed.
(** No trust point is at or above the name. *)
Definition no_trust (name : npath) : Prop := ∀ p, p ∈ trust → ¬ path p.1 `prefix_of` name.
Lemma walk_ok fuel zones name st kz w : cache_ok zones → walk fetch now fuel zones name trust = Ok (st, kz, w) →
  (state_ok (path name) st kz ∨ (∃ e, st = ZInsecure e) ∧ no_trust (path name)) ∧ cache_ok w.
Proof.
  intros Hz. unfold walk. rewrite <- (path_lower name). destruct (cached _ _ _) as [c|] eqn:Ec; [intros [= <- <- <-]; split; [left; by eapply cached_ok|by apply Forall_nil]|].
  destruct (closest trust (to_lowercase name)) as [[tpn tp]|] eqn:Et; [|intros [= <- <- <-]; split; [right; split; [eauto|exact (closest_none _ Et)]|by apply Forall_nil]].
  destruct (closest_elem _ _ Et) as [Hin Hp]. simpl in Hp. destruct (resume_from _ _ _ _ _) as [[anc c]|] eqn:Er.
  - destruct (resume_ok _ _ _ _ _ _ Hz Er) as [Ha Hs]. destruct (c_state c) as [ks|e|e] eqn:Es.
    + destruct Hs as (H1 & H2 & H3). intros E. destruct (walk_loop_ok _ _ _ _ _ _ _ _ _ H1 Ha H2 H3 E). split; [by left|done].
    + intros [= <- <- <-]. pose proof (state_down _ _ _ _ Ha Hs). split; [by left|by apply store_ok].
    + intros [= <- <- <-]. split; [by left|by apply store_ok].
  - pose proof (trust_point_sound _ _ Hin) as Ht. destruct (trust_point_keys _ _ _ _) as [[ks t]|state].
    + destruct Ht as [H1 H2]. intros ([[st1 kz2] w1] & E1 & [= <- <- <-])%bind_Ok. destruct (walk_loop_ok _ _ _ _ _ _ _ _ _ (reflexivity _) Hp H1 H2 E1). split; [by left|]. apply Forall_app; split; [|done]. apply store_ok. done.
    + intros [= <- <- <-]. assert (∀ p, path tpn `prefix_of` p → state_ok p state tpn) as Hst by (intros p Hpp; destruct state; [done|left; by exists (tpn, tp)|done]).
      split; [left; by apply Hst|]. apply Forall_app; split; apply store_ok; by apply Hst.
Qed.

(** ** The walk ends *)
(** An asterisk label at most in front. *)
Definition stars_first (p : npath) : Prop := star ∉ take (plain_length p) p.
Lemma plain_prefix p q : p `prefix_of` q → (length p ≤ plain_length q)%nat → p `prefix_of` take (plain_length q) q.
Proof. intros [r ->] L. rewrite take_app_ge by done. by apply prefix_app_r. Qed.
Lemma plain_length_snoc p l : plain_length (p ++ [l]) = if decide (l = star) then length p else S (length p).
Proof. unfold plain_length. rewrite last_snoc, length_app. simpl. case_decide; lia. Qed.
Lemma stars_first_prefix p q : p `prefix_of` q → stars_first q → stars_first p.
Proof.
  intros Hp Hs. unfold stars_first in *. destruct (decide (length p ≤ plain_length q)%nat) as [L|L]; [apply star_prefix with (take (plain_length q) q); [|done]; trans p; [apply prefix_take|by apply plain_prefix]|].
  assert (p = q) as ->; [|done]. apply prefix_length_eq; [done|]. apply prefix_length in Hp as L'. destruct q as [|x q'] using rev_ind; [simpl in *; lia|]. rewrite plain_length_snoc in L. rewrite length_app in *. simpl in *. case_decide; lia.
Qed.
Lemma walk_loop_ends fuel zone cur kz keys ttl : stars_first (path zone) → path cur `prefix_of` path zone → (num_labels zone ≤ fuel + num_labels cur)%nat →
  ∃ r, walk_loop fetch now fuel zone cur kz keys ttl = Ok r.
Proof.
  intros Hs. revert cur kz keys ttl. induction fuel as [|fuel IH]; intros cur kz keys ttl Hc Hf; cbn [walk_loop]; destruct (Nat.ltb_spec (num_labels cur) (num_labels zone)) as [L|L]; eauto; [lia|].
  destruct (child_below zone cur Hc) as [_ Hz]. assert (num_labels (trim_to zone (num_labels cur + 1)) = num_labels cur + 1)%nat as En.
  { assert (plain_length (path zone) ≤ length (path zone))%nat by apply plain_length_le. rewrite (num_labels_path zone) in L. rewrite num_labels_plain; rewrite path_trim; [rewrite length_take; lia|].
    eapply star_prefix; [|exact Hs]. apply plain_prefix; [apply prefix_take|rewrite length_take; lia]. }
  assert (∀ kz keys ttl (f : walked → walked), ∃ r, ('(a, b, c) ← walk_loop fetch now fuel zone (trim_to zone (num_labels cur + 1)) kz keys ttl; Ok (f (a, b, c))) = Ok r) as Hgo.
  { intros kz1 ks1 t1 f. destruct (IH (trim_to zone (num_labels cur + 1)) kz1 ks1 t1 Hz) as [[[a b] c] E]; [lia|]. rewrite E. simpl. eauto. }
  destruct (descend _ _ _ _ _); eauto; [eapply (Hgo _ _ _ (λ r, (r.1.1, r.1.2, _ ++ r.2)))|eapply (Hgo _ _ _ (λ r, (r.1.1, r.1.2, _ ++ r.2)))].
Qed.
Lemma walk_ends fuel zones name : stars_first (path name) → (length (path name) ≤ fuel)%nat → ∃ r, walk fetch now fuel zones name trust = Ok r.
Proof.
  intros Hs Hf. rewrite <- path_lower in Hs. assert (num_labels (to_lowercase name) ≤ fuel)%nat as Hn by (rewrite num_labels_path, path_lower; pose proof (plain_length_le (path name)); lia).
  unfold walk. destruct (cached _ _ _); [eauto|]. destruct (closest _ _) as [[tpn tp]|] eqn:Et; [|eauto]. destruct (closest_elem _ _ Et) as [_ Hp]. simpl in Hp.
  destruct (resume_from _ _ _ _ _) as [[anc c]|] eqn:Er.
  - assert (path anc `prefix_of` path (to_lowercase name)) as Ha.
    { clear -Er NLaws. revert Er. generalize (num_labels (to_lowercase name)). induction n as [|l IH]; simpl; [done|]. case_match; [|done]. case_match; [|done]. intros [= <- <-]. rewrite path_trim. apply prefix_take. }
    destruct (c_state c); eauto. apply walk_loop_ends; [done|done|lia].
  - destruct (trust_point_keys _ _ _ _) as [[ks t]|]; [|eauto]. destruct (walk_loop_ends fuel _ _ tpn ks t Hs Hp) as [[[a b] d] E]; [lia|]. rewrite E. simpl. eauto.
Qed.
(** With an asterisk label in the middle, a name inside the zone is its own child, and the walk does not end. *)
Lemma walk_loop_stays fuel zone cur kz keys ttl : let child := trim_to zone (num_labels cur + 1) in
  num_labels child = num_labels cur → (num_labels cur < num_labels zone)%nat → descend fetch now child kz keys = Inside →
  walk_loop fetch now fuel zone cur kz keys ttl = Fuel.
Proof.
  intros child Hn Hl Hd. revert cur child Hn Hl Hd. induction fuel as [|fuel IH]; intros cur child Hn Hl Hd; cbn [walk_loop]; destruct (Nat.ltb_spec (num_labels cur) (num_labels zone)); try lia; [done|].
  fold child. rewrite Hd. assert (trim_to zone (num_labels child + 1) = child) as Hc by (unfold child in *; by rewrite Hn). rewrite (IH child); [done|by rewrite Hc|lia|by rewrite Hc].
Qed.
End step.
End chain.
