(* ===== verification/ValResponse.v ===== *)
(** * Responses

    What the verdict on a response means, against an arbitrary network and any interleaving of the checks
    over the cache of zone states: secure answers are data the zone above them published and holds,
    insecure ones have a cause, secure denials say what the zone says, and validation ends. *)

From S2P Require Import Prelude.
From S2P Require Import GoText.
From S2P Require Import ZoneJournal.
From S2P Require Import DnsLib.
From S2P Require Import DnssecSign.
From S2P Require Import ValDenial.
From S2P Require Import ValZone.
From S2P Require Import ValVerify.
From S2P Require Import Validator.
From S2P Require Import ValChain.

(** ** Combining *)
Definition bogus_of (o : Outcome) : option Z := match o with OBogus e => Some e | _ => None end.
Lemma combined_secure c os : combined_security (foldl combined_add c os) = SecSecure → cb_bogus c = None ∧ cb_indeterminate c = None ∧ cb_insecure c = None ∧ Forall (λ o, ∃ t, o = OSecure t) os.
Proof.
  revert c. induction os as [|o os IH]; intros c; simpl; [unfold combined_security; repeat case_match; intros; split_and!; try done; by apply Forall_nil|].
  intros (H1 & H2 & H3 & H4)%IH. destruct o as [t|e|e|e]; simpl in *.
  - destruct t; simpl in *; split_and!; try done; apply Forall_cons; eauto.
  - destruct (cb_insecure c) as [[]|] eqn:E; simpl in *; congruence.
  - by destruct (cb_bogus c).
  - by destruct (cb_indeterminate c).
Qed.
Lemma combined_insecure c os e : combined_security (foldl combined_add c os) = SecInsecure e → is_Some (cb_insecure c) ∨ ∃ e', OInsecure e' ∈ os.
Proof.
  revert c. induction os as [|o os IH]; intros c; simpl; [unfold combined_security; repeat case_match; intros; try done; left; eauto|].
  intros [H|[e' H]]%IH; [|right; exists e'; by right]. destruct o as [t|e'|e'|e']; simpl in *; [destruct t; by left|right; exists e'; by left|by left|by left].
Qed.
Lemma combined_ok c os e : combined_security (foldl combined_add c os) = SecInsecure e → Forall (λ o, (∃ t, o = OSecure t) ∨ ∃ e', o = OInsecure e') os ∧ cb_bogus c = None ∧ cb_indeterminate c = None.
Proof.
  revert c. induction os as [|o os IH]; intros c; simpl; [unfold combined_security; repeat case_match; intros; split_and!; try done; by apply Forall_nil|].
  intros (H1 & H2 & H3)%IH. destruct o as [t|e'|e'|e']; simpl in *.
  - destruct t; simpl in *; split_and!; try done; apply Forall_cons; eauto.
  - destruct (cb_insecure c) as [[]|]; simpl in *; split_and!; try done; apply Forall_cons; eauto.
  - by destruct (cb_bogus c).
  - by destruct (cb_indeterminate c).
Qed.

Section response.
Context {NL : NameLib} {NLaws : NameLaws} {DL : DenialLib} {DLaws : DenialLaws} {VL : VerifyLib}.
Context (W : World) {WL : WorldLaws W}.
Context (fetch : Name → Z → FetchedSet + FetchError) (now : Z) (trust : TrustPoints) (Htrust : trust_ok W trust).

(** ** Answers *)
(** A zone above the name published the data, for the name or for the wildcard with [j] labels. *)
Definition set_published (s : RrSet) (p : npath) (j : nat) : Prop := p `prefix_of` path (s_name s) ∧ (∃ k, genuine W p k) ∧ (j ≤ num_labels (s_name s))%nat ∧
  published W p (expand (path (s_name s)) j) (s_rtype s) (map r_data (s_records s)).
(** The signatures with one key tag agree on the label count. *)
Definition tags_agree (s : RrSet) : Prop := ∀ r r' g g', r ∈ s_sigs s → r' ∈ s_sigs s → r_data r = RRSIGData g → r_data r' = RRSIGData g' → sig_key_tag g = sig_key_tag g' → sig_labels g = sig_labels g'.
(** What the zone says about the name, when a wildcard answers. *)
Definition expanded_ok (s : RrSet) (authorities : list DRecord) (p : npath) (j : nat) : Prop :=
  (j < plain_length (path (s_name s)))%nat → tags_agree s → unexpanded authorities →
  ∃ T, s_rtype s ∈ T ∧ (answers (contents W p) (path (s_name s)) (Wild T) ∨ answers (contents W p) (take (S j) (path (s_name s))) Empty).
Definition rrset_verdict (s : RrSet) (authorities : list DRecord) (at_ : npath) (o : Outcome) : Prop :=
  match o with
  | OSecure _ => ∃ p j, set_published s p j ∧ expanded_ok s authorities p j
  | OInsecure _ => insecure W trust at_ ∨ no_trust trust at_ ∨ ∃ p j, set_published s p j
  | _ => True
  end.
Lemma sig_count_agree s g r : tags_agree s → r ∈ s_sigs s → r_data r = RRSIGData g → sig_count (sig_key_tag g) (s_sigs s) = sig_labels g.
Proof.
  intros Ht Hr Hd. unfold sig_count. destruct (list_find _ _) as [[i g']|] eqn:E.
  - apply list_find_Some in E as (Hi & Htag & _). apply list_elem_of_lookup_2, list_elem_of_omap in Hi as (r' & Hr' & Eg). unfold rrsig in Eg. destruct (r_data r') eqn:Ed; try done. injection Eg as ->.
    by apply (Ht r' r).
  - apply list_find_None in E. rewrite Forall_forall in E. destruct (E g); [|done]. apply list_elem_of_omap. exists r. unfold rrsig. by rewrite Hd.
Qed.
(** The proof for the next closer name, with the label count of the signature. *)
Lemma closer_ok s authorities signer keys d j proof : verified_denial authorities signer keys now = Ok d → all_genuine W signer keys → set_published s (path signer) j → (j < plain_length (path (s_name s)))%nat →
  unexpanded authorities →
  proof = match vd_nsec3 d with [] => nsec_proves_no_closer_match (s_name s) j (vd_nsec d) | _ => nsec3_proves_no_closer_match (s_name s) j signer (vd_nsec3 d) end → proof = Proven →
  ∃ T, s_rtype s ∈ T ∧ (answers (contents W (path signer)) (path (s_name s)) (Wild T) ∨ answers (contents W (path signer)) (take (S j) (path (s_name s))) Empty).
Proof.
  intros Hd Hg (Hp & [k Hk] & _ & Hpub) L Hu Epr Hpr. subst proof. destruct (w_zone _ _ Hk) as [Hwf Hap]. unfold expand in Hpub. rewrite (proj2 (Nat.ltb_lt _ _) L) in Hpub.
  destruct (w_data _ _ _ _ _ Hk Hpub) as (T & HT & HtT); [by apply w_star in Hpub as (_ & _ & ?)|]. exists T. split; [done|]. apply (verified_denial_from W) in Hd; [|done]. rewrite <- Hap in Hp.
  pose proof (plain_length_le (path (s_name s))). destruct (vd_nsec3 d) as [|x l] eqn:E.
  - apply wild_or_empty; [done|done|]. by apply (no_closer_sound _ _ (denial_nsecs W _ _ _ Hu Hd) (s_name s) j T).
  - left. pose proof (no_closer3_sound _ signer (eq_sym Hap) _ (denial_nsec3s W _ _ _ Hd) (s_name s) j Hp) as Hc. rewrite E, Hpr in Hc. apply Hc; [lia|done].
Qed.
Lemma rrset_outcome_ok records s authorities signer keys : set_ok records s → path signer `prefix_of` path (s_name s) → (∃ k, genuine W (path signer) k) → all_genuine W signer keys →
  match rrset_outcome now s authorities signer keys with
  | OSecure _ => ∃ j, set_published s (path signer) j ∧ expanded_ok s authorities (path signer) j
  | OInsecure _ => ∃ j, set_published s (path signer) j
  | _ => True
  end.
Proof.
  intros (Hne & _ & HR & HG) Hp Hk Hg. unfold rrset_outcome. destruct (verify_rrset _ _ _ _ _) as [v| | |] eqn:Ev; try done.
  destruct (verified_published W _ _ _ _ _ _ Hg Ev) as (first & rest & g & Ef & Hc & -> & _ & Hl & Hpub). assert (first ∈ s_records s) as Hin by (rewrite Ef; by left). destruct (HR _ Hin) as (_ & Hn & Ht).
  rewrite Hn, Ht in Hpub. rewrite num_labels_path, Hn, <- num_labels_path in Hl. assert (set_published s (path signer) (sig_labels g)) as Hsp by done.
  unfold verified at 1. cbn [wildcard_expanded v_key_tag]. rewrite num_labels_path, Hn. destruct (Nat.ltb_spec (sig_labels g) (plain_length (path (s_name s)))) as [L|L].
  - destruct (verified_denial _ _ _ _) as [d| | |] eqn:Ed; try done. cbn [v_key_tag verified].
    assert (tags_agree s → sig_count (sig_key_tag g) (s_sigs s) = sig_labels g) as Hcount.
    { intros Hta. apply candidates_elem in Hc as (_ & r & Hr & _ & Hrd). by apply (sig_count_agree s g r). }
    set (proof := match vd_nsec3 d with [] => _ | _ => _ end). destruct proof eqn:Epr; cbn [denial_outcome]; try (by eauto). exists (sig_labels g). split; [done|]. intros _ Hta Hu.
    eapply (closer_ok s authorities signer keys d _ proof); try done. unfold proof. by rewrite (Hcount Hta).
  - exists (sig_labels g). split; [done|]. intros L'. lia.
Qed.
Lemma check_rrset_ok fuel zones records s authorities o w : cache_ok W trust zones → set_ok records s → check_rrset fetch now fuel zones s authorities trust = Ok (o, w) →
  rrset_verdict s authorities (path (default (s_name s) (set_signer s))) o ∧ cache_ok W trust w.
Proof.
  intros Hz Hs. unfold check_rrset. intros ([[st kz] w1] & Ew & E)%bind_Ok. destruct (walk_ok W fetch now trust Htrust _ _ _ _ _ _ Hz Ew) as [Hst Hw].
  destruct st as [keys|e|e].
  - destruct Hst as [(H1 & H2 & H3)|[[e ?] _]]; [|done]. destruct (set_signer s) as [signer|] eqn:Esig; [|by injection E as <- <-]. destruct (Name_eqb kz signer) eqn:En; simpl in E; [|by injection E as <- <-].
    injection E as <- <-. split; [|done]. apply eqb_true in En. assert (all_genuine W signer keys) as H3' by (intros k Hk; rewrite <- En; by apply H3). rewrite En in H2.
    pose proof (rrset_outcome_ok records s authorities signer keys Hs (set_signer_Some _ _ Esig) H2 H3') as Ho. unfold rrset_verdict. destruct (rrset_outcome _ _ _ _ _); try done; [destruct Ho; eauto|destruct Ho; eauto].
  - injection E as <- <-. split; [|done]. simpl. destruct Hst as [|[_ ?]]; eauto.
  - injection E as <- <-. split; [|done]. simpl. by destruct (_ =? _).
Qed.

(** ** Denials *)
(** What the zone says, where a denial was accepted. *)
Definition denied (p : npath) (sname : npath) (rcode qtype : Z) : Prop :=
  if rcode =? NXDomain then without_records (contents W p) sname ∨ dname_apex (contents W p) sname
  else (∃ s, answers (contents W p) sname s ∧ no_data s qtype) ∨ open_below (contents W p) sname ∧ qtype ≠ TypeDS.
Definition negative_verdict (sname : npath) (input : ValidationInput) (at_ : npath) (o : Outcome) : Prop :=
  match o with
  | OSecure _ => ∃ zone k, denial_signer (group (q_authorities input)) = Some zone ∧ genuine W (path zone) k ∧
      (path zone `prefix_of` sname → star ∉ sname → unexpanded (q_authorities input) → denied (path zone) sname (q_rcode input) (q_type input))
  | OInsecure _ => insecure W trust at_ ∨ no_trust trust at_ ∨ ∃ p k, genuine W p k ∧
      (open_below (contents W p) sname ∨ ∃ o rds n, published W p o TypeNSEC3 rds ∧ NSEC3Data n ∈ rds ∧ NSEC3_INSECURE_ITERATIONS < iterations n)
  | _ => True
  end.
(** What goes into the cache of denials. *)
Definition insert_ok (i : NsecInsert) : Prop := (∃ k, genuine W (path (i_zone i)) k) ∧ ∀ r, r ∈ i_denial i →
  (∀ n, r_data r = NSECData n → nsec_from W (i_denial i) (i_zone i) (r_name r, n)) ∧ (∀ n, r_data r = NSEC3Data n → nsec3_from W (i_zone i) (r_name r, n)).
Lemma missing_sound sname zone d records rcode qtype : (∃ k, genuine W (path zone) k) → denial_from W records zone d → path zone `prefix_of` path sname → star ∉ path sname → unexpanded records →
  proof_of_missing (rcode =? NXDomain) sname qtype zone d = Proven → denied (path zone) (path sname) rcode qtype.
Proof.
  intros [k Hk] Hd Hp Hs Hu. destruct (w_zone _ _ Hk) as [Hwf Hap]. pose proof (denial_nsecs W _ _ _ Hu Hd) as H1. pose proof (denial_nsec3s W _ _ _ Hd) as H3. rewrite <- Hap in Hp.
  unfold denied, proof_of_missing. destruct (rcode =? NXDomain), (vd_nsec3 d) as [|x l] eqn:E.
  - intros Hpr. left. by apply (nxdomain_sound _ _ H1).
  - intros Hpr. pose proof (nxdomain3_sound _ (w_hash (path zone)) zone (eq_sym Hap) _ H3 sname) as Hc. rewrite Hpr in Hc. apply Hc.
  - intros Hpr. left. by apply (nodata_sound _ _ H1).
  - intros Hpr. pose proof (nodata3_sound _ (w_hash (path zone)) zone (eq_sym Hap) _ H3 sname qtype) as Hc. rewrite Hpr in Hc. destruct Hc as [?|(? & ? & _)]; [by left|by right].
Qed.
Lemma negative_proof_ok sname input zone keys soa cap at_ o i : denial_signer (group (q_authorities input)) = Some zone → (∃ k, genuine W (path zone) k) → all_genuine W zone keys → negative_proof now sname input zone keys soa cap = (o, i) →
  negative_verdict (path sname) input at_ o ∧ ∀ ins, i = Some ins → insert_ok ins.
Proof.
  intros Hsig Hk Hg. unfold negative_proof. destruct (verified_denial _ _ _ _) as [d| | |] eqn:Ed; try by intros [= <- <-]. pose proof (kept_denial _ _ _ _ _ Ed) as Hkeep.
  destruct (verified_denial_kept W _ _ _ _ _ Hg Ed) as [[K1 K2] _]. apply (verified_denial_from W) in Ed; [|done].
  destruct (proof_of_missing _ _ _ _ d) eqn:Ep; intros [= <- <-]; (split; [|try done]).
  - destruct Hk as [k Hk]. exists zone, k. split_and!; [done|done|]. intros Hp Hs Hu. by apply (missing_sound sname zone d (q_authorities input)); [exists k|..].
  - intros ins Hi. destruct soa as [s|]; [|done]. injection Hi as <-. split; [done|]. simpl. intros r Hr. destruct (Hkeep _ Hr) as [H1 H2]. split; intros n Hn; auto.
  - right; right. destruct Hk as [k Hk]. exists (path zone), k. split; [done|]. left. eapply missing_opt_out; [done|by exists k|done|done].
  - done.
  - right; right. destruct Hk as [k Hk]. exists (path zone), k. split; [done|]. right. by eapply missing_iterations.
  - done.
Qed.
Lemma check_negative_ok fuel zones sname input o w i : cache_ok W trust zones → check_negative fetch now fuel zones sname input trust = Ok (o, w, i) →
  negative_verdict (path sname) input (path (default sname (denial_signer (group (q_authorities input))))) o ∧ cache_ok W trust w ∧ ∀ ins, i = Some ins → insert_ok ins.
Proof.
  intros Hz. unfold check_negative. intros ([[st kz] w1] & Ew & E)%bind_Ok. destruct (walk_ok W fetch now trust Htrust _ _ _ _ _ _ Hz Ew) as [Hst Hw].
  destruct st as [keys|e|e].
  - destruct Hst as [(H1 & H2 & H3)|[[e ?] _]]; [|done]. destruct (denial_signer _) as [zone|] eqn:Esig; [|by injection E as <- <- <-]. destruct (Name_eqb kz zone) eqn:En; simpl in E; [|by injection E as <- <- <-].
    apply eqb_true in En. assert (all_genuine W zone keys) as H3' by (intros k Hk; rewrite <- En; by apply H3). rewrite En in H2.
    destruct (negative_outcome _ _ _ _ _ _) as [o' i'] eqn:Eo. injection E as <- <- <-. cut (negative_verdict (path sname) input (path zone) o' ∧ ∀ ins, i' = Some ins → insert_ok ins); [tauto|].
    unfold negative_outcome in Eo. destruct (snd <$> _) as [s|]; [destruct (verify_rrset _ _ _ _ _); try by injection Eo as <- <-|]; by eapply negative_proof_ok.
  - injection E as <- <- <-. split_and!; [|done|done]. simpl. destruct Hst as [|[_ ?]]; eauto.
  - injection E as <- <- <-. split_and!; [|done|done]. simpl. by destruct (_ =? _).
Qed.

(** ** Responses *)
Lemma check_sets_ok fuel zones_at records sets authorities os w : (∀ i, cache_ok W trust (zones_at i)) → Forall (set_ok records) sets → check_sets fetch now fuel zones_at sets authorities trust = Ok (os, w) →
  Forall2 (λ s o, rrset_verdict s authorities (path (default (s_name s) (set_signer s))) o) sets os ∧ cache_ok W trust w.
Proof.
  intros Hz Hs. revert zones_at os w Hz. induction Hs as [|s sets Hs _ IH]; intros zones_at os w Hz; simpl; [intros [= <- <-]; split; [done|by apply Forall_nil]|].
  intros ([o w1] & E1 & ([os' w'] & E2 & [= <- <-])%bind_Ok)%bind_Ok. destruct (check_rrset_ok _ _ _ _ _ _ _ (Hz 0%nat) Hs E1) as [H1 H2], (IH _ _ _ (λ i, Hz (S i)) E2) as [H3 H4].
  split; [by constructor|by apply Forall_app].
Qed.
Definition signed_sets (input : ValidationInput) : list RrSet := let answers := group (q_answers input) in filter (λ s, synthesised answers s = false) answers.
Definition target (input : ValidationInput) : Name := final_name (q_name input) (q_type input) (q_answers input).
(** The verdicts behind a result. *)
Lemma validate_response_ok fuel zones_at input r w i : (∀ i, cache_ok W trust (zones_at i)) → validate_response fetch now fuel zones_at input trust = Ok (r, w, i) → ∃ os neg,
  r = result_of (os ++ neg) ∧ Forall2 (λ s o, rrset_verdict s (q_authorities input) (path (default (s_name s) (set_signer s))) o) (signed_sets input) os ∧
  (if needs_denial (target input) input then ∃ o, neg = [o] ∧ negative_verdict (path (target input)) input (path (default (target input) (denial_signer (group (q_authorities input))))) o else neg = []) ∧
  cache_ok W trust w ∧ ∀ ins, i = Some ins → insert_ok ins.
Proof.
  intros Hz. unfold validate_response. fold (target input). fold (signed_sets input). intros ([os w1] & E1 & E2)%bind_Ok.
  destruct (check_sets_ok _ _ (q_answers input) _ _ _ _ Hz (Forall_filter _ _ _ (group_ok _)) E1) as [H1 H2]. exists os. destruct (needs_denial _ _).
  - apply bind_Ok in E2 as ([[o w'] i'] & E2 & [= <- <- <-]). destruct (check_negative_ok _ _ _ _ _ _ _ (Hz _) E2) as (H3 & H4 & H5). exists [o]. split_and!; [done|done|by exists o|by apply Forall_app|done].
  - injection E2 as <- <- <-. exists []. rewrite app_nil_r. split_and!; done.
Qed.
End response.

(** ** Every cache that walks can leave *)
Section reach.
Context {NL : NameLib} {NLaws : NameLaws} {DL : DenialLib} {DLaws : DenialLaws} {VL : VerifyLib}.
Inductive reach (trust : TrustPoints) : zcache → Prop :=
  | reach_empty : reach trust []
  | reach_evict c c' : reach trust c → c' ⊆ c → reach trust c'
  | reach_store fetch now fuel c c0 name st kz w p : reach trust c → reach trust c0 → walk fetch now fuel c0 name trust = Ok (st, kz, w) → p ∈ w → reach trust (zones_insert c p).
Lemma reach_ok W `{!WorldLaws W} trust c : trust_ok W trust → reach trust c → cache_ok W trust c.
Proof.
  intros Ht. induction 1 as [|c c' _ IH Hsub|fetch now fuel c c0 name st kz w p _ IH _ IH0 E Hp]; unfold cache_ok in *.
  - by apply Forall_nil.
  - rewrite Forall_forall in *. auto.
  - destruct (walk_ok W fetch now trust Ht _ _ _ _ _ _ IH0 E) as [_ Hw]. unfold cache_ok in Hw. rewrite Forall_forall in Hw. apply Forall_cons. split; [by apply Hw|]. by apply Forall_filter.
Qed.
End reach.
