(* ===== verification/ValNsecCache.v ===== *)
(** * The cache of validated denials

    engine/src/recursor/dnssec/nsec_cache.rs, its byte counts and the answers it synthesises. *)

From S2P Require Import Prelude.
From S2P Require Import GoText.
From S2P Require Import ZoneJournal.
From S2P Require Import DnsLib.
From S2P Require Import DnssecSign.
From S2P Require Import ValDenial.
From S2P Require Import ValZone.
From S2P Require Import ValVerify.
From S2P Require Import Validator.
From S2P Require Import ValChain.
From S2P Require Import ValResponse.

(** ** Aggressive use of validated denials

    engine/src/recursor/dnssec/nsec_cache.rs: the denial records of secure negative responses, kept by
    zone within a byte budget, and the negative answers synthesised from them (RFC 8198).

    The B-tree and hash maps are finite maps keyed by canonical key, owner hash and zone; an entry is
    told from another by its key where the code compares addresses.  Which of several zones of the same
    age is evicted first is that of the map's order, as in the code.  A subtraction below zero panics;
    sums of byte estimates stay far below 2^64 and are not wrapped. *)

Definition OVERHEAD_BYTES : Z := 64.
Record Entry `{NameLib} (T : Type) := mkEntry { e_owner : Name; e_rdata : T; e_records : list DRecord; e_expires : Z; e_bytes : Z }.
Record ZoneDenials `{NameLib} := mkDenials {
  d_soa : list DRecord; d_soa_expires : Z; d_nsec : gmap npath (Entry NSEC); d_nsec3 : gmap bytes (Entry NSEC3); d_inserted : Z; d_bytes : Z }.
Record Zones `{NameLib} := mkZones { z_map : gmap npath ZoneDenials; z_bytes : Z }.
#[global] Arguments mkEntry {_ _}.
#[global] Arguments e_owner {_ _}.
#[global] Arguments e_rdata {_ _}.
#[global] Arguments e_records {_ _}.
#[global] Arguments e_expires {_ _}.
#[global] Arguments e_bytes {_ _}.
#[global] Arguments mkDenials {_}.
#[global] Arguments mkZones {_}.

(** The size of a record in memory and the length of a name. *)
Class SizeLib `{NameLib} := { size_of_Record : Z; name_len : Name → Z }.

Section cache.
Context `{NameLib} `{!DenialLib} `{!SizeLib}.

Definition record_bytes (r : DRecord) : Z := size_of_Record + name_len (r_name r) + 32.
Definition entry_bytes (records : list DRecord) : Z := OVERHEAD_BYTES + foldr Z.add 0 (map record_bytes records).
Definition sub64 (a b : Z) : loops Z := if b <=? a then Ok (a - b) else Panic.
Definition no_denials : ZoneDenials := mkDenials [] 0 ∅ ∅ 0 0.

(** ** Eviction *)
Definition older (best : option (npath * ZoneDenials)) (p : npath * ZoneDenials) : option (npath * ZoneDenials) :=
  match best with Some b => if d_inserted p.2 <? d_inserted b.2 then Some p else Some b | None => Some p end.
Definition oldest (keep : option npath) (m : gmap npath ZoneDenials) : option (npath * ZoneDenials) :=
  foldl older None (filter (λ p, Some p.1 ≠ keep) (map_to_list m)).
Fixpoint evict_loop (fuel : nat) (capacity : Z) (keep : option npath) (zones : Zones) : loops Zones :=
  if capacity <? z_bytes zones then
    match fuel with
    | O => Fuel
    | S fuel =>
        match oldest keep (z_map zones) with
        | None => Ok zones
        | Some (z, d) => b ← sub64 (z_bytes zones) (d_bytes d); evict_loop fuel capacity keep (mkZones (delete z (z_map zones)) b)
        end
    end
  else Ok zones.
Definition evict (capacity : Z) (keep : option npath) (zones : Zones) : loops Zones := evict_loop (S (size (z_map zones))) capacity keep zones.
Definition nsec_set_capacity (zones : Zones) (capacity_bytes : Z) : loops Zones := evict capacity_bytes None zones.
Definition nsec_clear : Zones := mkZones ∅ 0.
Definition weight (zones : Zones) : Z := z_bytes zones.

(** ** Insertion *)
Definition canonical_key (n : Name) : npath := path n.
Definition sum_bytes {K} `{Countable K} {T} (m : gmap K (Entry T)) : Z := foldr Z.add 0 (map (λ p, e_bytes p.2) (map_to_list m)).
Definition retain {K} `{Countable K} {T} (now : Z) (m : gmap K (Entry T)) : gmap K (Entry T) := filter (λ p, now < e_expires p.2) m.
Definition freed {K} `{Countable K} {T} (now : Z) (m : gmap K (Entry T)) : Z := sum_bytes (filter (λ p, ¬ now < e_expires p.2) m).
Definition sigs_of (denial_records : list DRecord) (r : DRecord) : list DRecord :=
  filter (λ s, Name_eqb (r_name s) (r_name r) && match rrsig s with Some x => type_covered x =? record_type r | None => false end = true) denial_records.
Definition bytes_at {K} `{Countable K} {T} (m : gmap K (Entry T)) (k : K) : Z := match m !! k with Some e => e_bytes e | None => 0 end.
(** One record into its map, if the zone still fits. *)
Definition add_entry {K} `{Countable K} {T} (capacity : Z) (m : gmap K (Entry T)) (bytes : Z) (k : K) (e : Entry T) : loops (gmap K (Entry T) * Z) :=
  b ← sub64 bytes (bytes_at m k);
  if capacity <? b + e_bytes e then Ok (m, bytes) else Ok (<[k := e]> m, b + e_bytes e).
Definition insert_record (capacity now negative_ttl : Z) (denial_records : list DRecord) (d : ZoneDenials) (r : DRecord) : loops ZoneDenials :=
  let expires := now + Z.min (r_ttl r) negative_ttl in
  let records := r :: sigs_of denial_records r in
  match r_data r with
  | NSECData n =>
      '(m, b) ← add_entry capacity (d_nsec d) (d_bytes d) (canonical_key (r_name r)) (mkEntry (r_name r) n records expires (entry_bytes records));
      Ok (mkDenials (d_soa d) (d_soa_expires d) m (d_nsec3 d) (d_inserted d) b)
  | NSEC3Data n =>
      if opt_out n then Ok d
      else match nsec3_owner_hash (r_name r) with
           | None => Ok d
           | Some hash =>
               '(m, b) ← add_entry capacity (d_nsec3 d) (d_bytes d) hash (mkEntry (r_name r) n records expires (entry_bytes records));
               Ok (mkDenials (d_soa d) (d_soa_expires d) (d_nsec d) m (d_inserted d) b)
           end
  | _ => Ok d
  end.
Definition soa_of (r : DRecord) : option (Z * Z) := match r_data r with SOAData minimum _ => Some (r_ttl r, minimum) | _ => None end.
Definition refresh (d : ZoneDenials) (soa : list DRecord) (now negative_ttl : Z) : loops ZoneDenials :=
  b ← sub64 (Z.max 0 (d_bytes d - entry_bytes (d_soa d)) + entry_bytes soa) (freed now (d_nsec d) + freed now (d_nsec3 d));
  Ok (mkDenials soa (now + negative_ttl) (retain now (d_nsec d)) (retain now (d_nsec3 d)) now b).
Definition insert_secure (capacity : Z) (zones : Zones) (zone : Name) (soa denial_records : list DRecord) (now : Z) : loops Zones :=
  match head (omap soa_of soa) with
  | None => Ok zones
  | Some (soa_ttl, minimum) =>
      let negative_ttl := Z.min soa_ttl minimum in
      let key := path zone in
      let d := default no_denials (z_map zones !! key) in
      d1 ← refresh d soa now negative_ttl;
      d2 ← fold_res (insert_record capacity now negative_ttl denial_records) d1 denial_records;
      b ← sub64 (z_bytes zones) (d_bytes d);
      evict capacity (Some key) (mkZones (<[key := d2]> (z_map zones)) (b + d_bytes d2))
  end.

(** ** Synthesis *)
Section range.
Context {K : Type} `{Countable K} (lt : K → K → bool) {T : Type}.
Definition later (best : option (K * Entry T)) (p : K * Entry T) : option (K * Entry T) := match best with Some b => if lt b.1 p.1 then Some p else Some b | None => Some p end.
Definition last_of (l : list (K * Entry T)) : option (K * Entry T) := foldl later None l.
Definition at_or_before (m : gmap K (Entry T)) (k : K) : option (K * Entry T) :=
  match last_of (filter (λ p, lt k p.1 = false) (map_to_list m)) with Some p => Some p | None => last_of (map_to_list m) end.
Definition push_unique (v : list (K * Entry T)) (e : option (K * Entry T)) (now : Z) : list (K * Entry T) :=
  match e with
  | Some p => if (now <? e_expires p.2) && negb (existsb (λ x, bool_decide (x.1 = p.1)) v) then v ++ [p] else v
  | None => v
  end.
Definition with_key (m : gmap K (Entry T)) (k : K) : option (K * Entry T) := pair k <$> m !! k.
Definition pairs (v : list (K * Entry T)) : list (Name * T) := map (λ p, (e_owner p.2, e_rdata p.2)) v.
Definition records_of (v : list (K * Entry T)) : list DRecord := concat (map (λ p, e_records p.2) v).
End range.
Definition path_ltb (a b : npath) : bool := bool_decide (path_lt a b).
Definition synthesize_nsec (d : ZoneDenials) (qname : Name) (qtype now : Z) : option (Z * list DRecord) :=
  let used := push_unique [] (at_or_before path_ltb (d_nsec d) (canonical_key qname)) now in
  match used with
  | [] => None
  | first :: _ =>
      let ce := closest_encloser qname (e_owner first.2) (next_domain_name (e_rdata first.2)) in
      let used := match prepend_star ce with Some wild => push_unique used (at_or_before path_ltb (d_nsec d) (canonical_key wild)) now | None => used end in
      if bool_decide (nsec_proves_nxdomain qname (pairs used) = Proven) then Some (NXDomain, records_of used)
      else if bool_decide (nsec_proves_nodata qname qtype (pairs used) = Proven) then Some (NoError, records_of used)
      else None
  end.
(** The records around the closest encloser; [None] where a hash fails. *)
Fixpoint collect3 (fuel : nat) (m : gmap bytes (Entry NSEC3)) (hash : Name → option bytes) (zone qname : Name) (now : Z) (labels : nat) (used : list (bytes * Entry NSEC3)) :
    option (list (bytes * Entry NSEC3)) :=
  match fuel with
  | O => Some used
  | S fuel =>
      if (num_labels zone <? labels)%nat then
        let labels := (labels - 1)%nat in
        let ce := trim_to qname labels in
        h ← hash ce;
        match with_key m h with
        | None => collect3 fuel m hash zone qname now labels used
        | Some e =>
            let used := push_unique used (Some e) now in
            nc ← hash (trim_to qname (labels + 1));
            let used := push_unique used (at_or_before bytes_lt m nc) now in
            Some (match prepend_star ce ≫= hash with
                  | Some wh => push_unique (push_unique used (with_key m wh) now) (at_or_before bytes_lt m wh) now
                  | None => used
                  end)
        end
      else Some used
  end.
Definition first_entry (m : gmap bytes (Entry NSEC3)) : option (bytes * Entry NSEC3) := last_of (λ a b, bytes_lt b a) (map_to_list m).
Definition synthesize_nsec3 (d : ZoneDenials) (zone qname : Name) (qtype now : Z) : option (Z * list DRecord) :=
  params ← (λ p, e_rdata p.2) <$> first_entry (d_nsec3 d);
  let hash n := nsec3_hash n params in
  h ← hash qname;
  used ← collect3 (S (num_labels qname)) (d_nsec3 d) hash zone qname now (num_labels qname) (push_unique [] (with_key (d_nsec3 d) h) now);
  if bool_decide (nsec3_proves_nxdomain qname zone (pairs used) = Proven) then Some (NXDomain, records_of used)
  else if bool_decide (nsec3_proves_nodata qname qtype zone (pairs used) = Proven) then Some (NoError, records_of used)
  else None.
(** The deepest zone at or above the name. *)
Fixpoint find_zone (m : gmap npath ZoneDenials) (qname : Name) (l : nat) : option (Name * ZoneDenials) :=
  match m !! path (trim_to qname l) with
  | Some d => Some (trim_to qname l, d)
  | None => match l with O => None | S l => find_zone m qname l end
  end.
Definition cap_record (ttl : Z) (r : DRecord) : DRecord := mkDRecord (r_name r) (Z.min (r_ttl r) ttl) (r_data r).
Definition synthesize (zones : Zones) (qname : Name) (qtype now : Z) : option (Z * list DRecord) :=
  '(zone, d) ← find_zone (z_map zones) qname (num_labels qname);
  if d_soa_expires d <=? now then None
  else
    '(rcode, used) ← if bool_decide (size (d_nsec d) = 0%nat) then synthesize_nsec3 d zone qname qtype now else synthesize_nsec d qname qtype now;
    Some (rcode, map (cap_record (u32 (Z.max 0 (d_soa_expires d - now)))) (d_soa d ++ used)).
End cache.

(** ** The cache of denials: bytes and answers

    The byte counts of the cache are exact, no subtraction goes below zero, and after an insertion the
    cache fits its budget or holds the zone just inserted alone; what is synthesised from it is what the
    zone says. *)

(** ** Sums over maps *)
Definition total {K} `{Countable K} {A} (f : A → Z) (m : gmap K A) : Z := foldr Z.add 0 (map (λ p, f p.2) (map_to_list m)).
Section total.
Context {K : Type} `{Countable K} {A : Type} (f : A → Z).
Lemma sum_perm (l k : list Z) : l ≡ₚ k → foldr Z.add 0 l = foldr Z.add 0 k.
Proof. induction 1; simpl; lia. Qed.
Lemma total_empty : total f (∅ : gmap K A) = 0.
Proof. unfold total. by rewrite map_to_list_empty. Qed.
Lemma total_insert (m : gmap K A) k a : m !! k = None → total f (<[k := a]> m) = f a + total f m.
Proof. intros E. unfold total. rewrite (sum_perm _ (map (λ p, f p.2) ((k, a) :: map_to_list m))); [done|]. by apply Permutation_map, map_to_list_insert. Qed.
Lemma total_delete (m : gmap K A) k a : m !! k = Some a → total f m = f a + total f (delete k m).
Proof. intros E. rewrite <- (total_insert (delete k m) k) by apply lookup_delete_eq. by rewrite insert_delete_id. Qed.
Lemma total_replace (m : gmap K A) k a : total f (<[k := a]> m) = f a + total f (delete k m).
Proof. rewrite <- insert_delete_eq. apply total_insert, lookup_delete_eq. Qed.
Lemma total_nonneg (m : gmap K A) : (∀ k a, m !! k = Some a → 0 ≤ f a) → 0 ≤ total f m.
Proof.
  induction m as [|k a m E IH] using map_ind; intros Hf; [by rewrite total_empty|]. rewrite total_insert by done. specialize (Hf k a) as Ha. rewrite lookup_insert_eq in Ha.
  assert (0 ≤ total f m); [|specialize (Ha eq_refl); lia]. apply IH. intros k' a' E'. apply (Hf k'). rewrite lookup_insert_ne; [done|]. congruence.
Qed.
Lemma total_filter (P : K * A → Prop) `{∀ x, Decision (P x)} (m : gmap K A) : total f m = total f (filter P m) + total f (filter (λ x, ¬ P x) m).
Proof.
  induction m as [|k a m E IH] using map_ind; [by rewrite !map_filter_empty, !total_empty|]. rewrite total_insert by done. destruct (decide (P (k, a))).
  - rewrite map_filter_insert_True, total_insert, (map_filter_insert_False (λ x, ¬ P x)), (delete_id m k) by (done || tauto || (apply map_lookup_filter_None; by left)). lia.
  - rewrite map_filter_insert_False, (map_filter_insert_True (λ x, ¬ P x)), (delete_id m k), total_insert by (done || tauto || (apply map_lookup_filter_None; by left)). lia.
Qed.
End total.

Section cache.
Context {NL : NameLib} {NLaws : NameLaws} {DL : DenialLib} {SL : SizeLib}.

(** ** Byte counts *)
Definition entries_sized {K} `{Countable K} {T} (m : gmap K (Entry T)) : Prop := ∀ k e, m !! k = Some e → 0 ≤ e_bytes e.
Record zone_counts (d : ZoneDenials) : Prop := {
  zc_bytes : d_bytes d = entry_bytes (d_soa d) + total e_bytes (d_nsec d) + total e_bytes (d_nsec3 d);
  zc_nsec : entries_sized (d_nsec d);
  zc_nsec3 : entries_sized (d_nsec3 d);
}.
Record counts (zones : Zones) : Prop := {
  ct_bytes : z_bytes zones = total d_bytes (z_map zones);
  ct_zone : ∀ z d, z_map zones !! z = Some d → zone_counts d;
}.
Context (Hsize : 0 ≤ size_of_Record) (Hlen : ∀ n, 0 ≤ name_len n).
Lemma entry_bytes_pos rs : 64 ≤ entry_bytes rs.
Proof. unfold entry_bytes, OVERHEAD_BYTES. induction rs as [|r rs IH]; simpl; [lia|]. assert (0 ≤ record_bytes r) by (unfold record_bytes; pose proof (Hlen (r_name r)); lia). lia. Qed.
Lemma zone_bytes_pos d : zone_counts d → 64 ≤ d_bytes d.
Proof. intros [-> H1 H2]. pose proof (entry_bytes_pos (d_soa d)). pose proof (total_nonneg e_bytes _ H1). pose proof (total_nonneg e_bytes _ H2). lia. Qed.
Lemma sub64_Ok a b : b ≤ a → sub64 a b = Ok (a - b).
Proof. intros L. unfold sub64. by rewrite (proj2 (Z.leb_le _ _) L). Qed.
Lemma counts_delete zones z d : counts zones → z_map zones !! z = Some d → 0 ≤ d_bytes d ≤ z_bytes zones ∧ counts (mkZones (delete z (z_map zones)) (z_bytes zones - d_bytes d)).
Proof.
  intros [Eb Hz] E. pose proof (total_delete d_bytes _ _ _ E) as Ed. assert (∀ k a, delete z (z_map zones) !! k = Some a → zone_counts a) as Hd by (intros k a [_ Ha]%lookup_delete_Some; eauto).
  pose proof (zone_bytes_pos _ (Hz _ _ E)). assert (0 ≤ total d_bytes (delete z (z_map zones))) by (apply total_nonneg; intros k a Ha; pose proof (zone_bytes_pos _ (Hd _ _ Ha)); lia).
  split; [lia|]. split; simpl; [lia|done].
Qed.
Lemma oldest_elem keep m z d : oldest keep m = Some (z, d) → m !! z = Some d ∧ Some z ≠ keep.
Proof.
  unfold oldest. assert (∀ l best q, (∀ b, best = Some b → m !! b.1 = Some b.2 ∧ Some b.1 ≠ keep) → (∀ b, b ∈ l → m !! b.1 = Some b.2 ∧ Some b.1 ≠ keep) → foldl older best l = Some q → m !! q.1 = Some q.2 ∧ Some q.1 ≠ keep) as Hx.
  { induction l as [|x l IH]; intros best q Hb Hl; simpl; [auto|]. apply IH; [|intros b Hin; apply Hl; by right]. intros b. unfold older. destruct best as [b0|]; [|intros [= <-]; apply Hl; by left].
    case_match; intros [= <-]; [apply Hl; by left|by apply Hb]. }
  intros E. apply (Hx _ None (z, d)) in E; [done|done|]. intros [b1 b2] [Hk Hin]%list_elem_of_filter. split; [by apply elem_of_map_to_list|done].
Qed.
Lemma oldest_none keep m : oldest keep m = None → ∀ z d, m !! z = Some d → Some z = keep.
Proof.
  unfold oldest. intros E z d Hz. destruct (decide (Some z = keep)) as [|Hn]; [done|]. assert ((z, d) ∈ filter (λ p, Some p.1 ≠ keep) (map_to_list m)) as Hin by (apply list_elem_of_filter; split; [done|by apply elem_of_map_to_list]).
  destruct (filter _ _) as [|x l]; [by apply not_elem_of_nil in Hin|]. simpl in E. clear Hin. revert x E. induction l as [|y l IH]; intros x; simpl; [done|]. case_match; apply IH.
Qed.
(** Eviction removes whole zones until the rest fits, and never the zone to keep. *)
Lemma evict_loop_ok fuel capacity keep zones : counts zones → (size (z_map zones) < fuel)%nat → ∃ zones', evict_loop fuel capacity keep zones = Ok zones' ∧ counts zones' ∧
  z_map zones' ⊆ z_map zones ∧ (∀ z, Some z = keep → z_map zones' !! z = z_map zones !! z) ∧ (z_bytes zones' ≤ capacity ∨ ∀ z d, z_map zones' !! z = Some d → Some z = keep).
Proof.
  revert zones. induction fuel as [|fuel IH]; intros zones Hc Hf; [lia|]. cbn [evict_loop]. destruct (Z.ltb_spec capacity (z_bytes zones)) as [L|L]; [|exists zones; split_and!; try done; by left].
  destruct (oldest keep (z_map zones)) as [[z d]|] eqn:Eo; [|exists zones; split_and!; try done; right; by apply oldest_none]. destruct (oldest_elem _ _ _ _ Eo) as [Hz Hk].
  destruct (counts_delete _ _ _ Hc Hz) as [Hb Hc']. rewrite sub64_Ok by lia. simpl. destruct (IH _ Hc') as (zones' & E & H1 & H2 & H3 & H4).
  { simpl. rewrite map_size_delete_Some by done. destruct (size (z_map zones)) eqn:Es; [apply map_size_empty_inv in Es; rewrite Es in Hz; by rewrite lookup_empty in Hz|lia]. }
  exists zones'. split_and!; [done|done|by trans (delete z (z_map zones)); [|apply delete_subseteq]| |done]. intros z' Hz'. rewrite H3 by done. simpl. rewrite lookup_delete_ne; [done|]. congruence.
Qed.
Lemma add_entry_ok {K} `{Countable K} {T} capacity (m : gmap K (Entry T)) bytes rest k e : bytes = rest + total e_bytes m → 0 ≤ rest → entries_sized m → 0 ≤ e_bytes e →
  ∃ m' b, add_entry capacity m bytes k e = Ok (m', b) ∧ b = rest + total e_bytes m' ∧ entries_sized m' ∧ (b ≤ Z.max capacity bytes) ∧ ∀ k' e', m' !! k' = Some e' → m !! k' = Some e' ∨ k' = k ∧ e' = e.
Proof.
  intros Eb Hr Hm He. unfold add_entry, bytes_at. set (old := match m !! k with Some e => e_bytes e | None => 0 end).
  assert (total e_bytes m = old + total e_bytes (delete k m)) as Et by (unfold old; destruct (m !! k) eqn:E; [by apply total_delete|by rewrite delete_id by done]).
  assert (0 ≤ total e_bytes (delete k m)) by (apply total_nonneg; intros k' a [_ ?]%lookup_delete_Some; eauto). rewrite sub64_Ok by lia. simpl.
  destruct (Z.ltb_spec capacity (bytes - old + e_bytes e)); [exists m, bytes; split_and!; [done|done|done|lia|auto]|].
  exists (<[k := e]> m), (bytes - old + e_bytes e). rewrite total_replace. split_and!; [done|lia| |lia|].
  - intros k' e' [[_ <-]|[_ ?]]%lookup_insert_Some; [done|eauto].
  - intros k' e' [[<- <-]|[_ ?]]%lookup_insert_Some; auto.
Qed.
Lemma counts_soa d : zone_counts d → 0 ≤ d_bytes d - total e_bytes (d_nsec d) ∧ 0 ≤ d_bytes d - total e_bytes (d_nsec3 d).
Proof. intros [-> H1 H2]. pose proof (entry_bytes_pos (d_soa d)). pose proof (total_nonneg e_bytes _ H1). pose proof (total_nonneg e_bytes _ H2). lia. Qed.
Lemma insert_record_ok capacity now ttl recs d r : zone_counts d → ∃ d', insert_record capacity now ttl recs d r = Ok d' ∧ zone_counts d' ∧ d_bytes d' ≤ Z.max capacity (d_bytes d) ∧ d_soa d' = d_soa d.
Proof.
  intros Hd. pose proof (counts_soa _ Hd) as [R1 R2]. pose proof Hd as [Eb H1 H2]. unfold insert_record. destruct (r_data r) as [| | |n|n| | |]; try (exists d; split_and!; done || lia).
  - set (e := mkEntry _ _ _ _ _). pose proof (entry_bytes_pos (r :: sigs_of recs r)).
    destruct (add_entry_ok capacity (d_nsec d) (d_bytes d) (d_bytes d - total e_bytes (d_nsec d)) (canonical_key (r_name r)) e) as (m' & b & -> & Hb & Hs & Hmax & _); [lia|done|done|simpl; lia|].
    simpl. eexists. split_and!; [done| |done|done]. split; simpl; [lia|done|done].
  - destruct (opt_out n); [exists d; split_and!; done || lia|]. destruct (nsec3_owner_hash _) as [h|]; [|exists d; split_and!; done || lia]. set (e := mkEntry _ _ _ _ _). pose proof (entry_bytes_pos (r :: sigs_of recs r)).
    destruct (add_entry_ok capacity (d_nsec3 d) (d_bytes d) (d_bytes d - total e_bytes (d_nsec3 d)) h e) as (m' & b & -> & Hb & Hs & Hmax & _); [lia|done|done|simpl; lia|].
    simpl. eexists. split_and!; [done| |done|done]. split; simpl; [lia|done|done].
Qed.
Lemma insert_records_ok capacity now ttl recs rs d : zone_counts d → ∃ d', fold_res (insert_record capacity now ttl recs) d rs = Ok d' ∧ zone_counts d' ∧ d_bytes d' ≤ Z.max capacity (d_bytes d).
Proof.
  revert d. induction rs as [|r rs IH]; intros d Hd; simpl; [exists d; split_and!; done || lia|]. destruct (insert_record_ok capacity now ttl recs d r Hd) as (d1 & -> & H1 & L1 & _). simpl.
  destruct (IH d1 H1) as (d' & -> & H2 & L2). exists d'. split_and!; [done|done|lia].
Qed.
Lemma retain_sized {K} `{Countable K} {T} now (m : gmap K (Entry T)) : entries_sized m → entries_sized (retain now m).
Proof. intros Hm k e [E _]%map_lookup_filter_Some. eauto. Qed.
Lemma retain_total {K} `{Countable K} {T} now (m : gmap K (Entry T)) : total e_bytes m = total e_bytes (retain now m) + freed now m.
Proof. unfold retain, freed, sum_bytes. apply (total_filter e_bytes (λ p, now < e_expires p.2)). Qed.
Lemma refresh_ok d soa now ttl : zone_counts d ∨ d = no_denials → ∃ d', refresh d soa now ttl = Ok d' ∧ zone_counts d' ∧ d_bytes d' ≤ Z.max 0 (d_bytes d - entry_bytes (d_soa d)) + entry_bytes soa ∧
  d_soa d' = soa ∧ d_nsec d' = retain now (d_nsec d) ∧ d_nsec3 d' = retain now (d_nsec3 d).
Proof.
  intros Hd. assert (entries_sized (d_nsec d) ∧ entries_sized (d_nsec3 d) ∧ Z.max 0 (d_bytes d - entry_bytes (d_soa d)) = total e_bytes (d_nsec d) + total e_bytes (d_nsec3 d)) as (H1 & H2 & Em).
  { destruct Hd as [[Eb H1 H2]| ->]; [|split_and!; [by intros k e Hk; simpl in Hk; apply lookup_empty_Some in Hk|by intros k e Hk; simpl in Hk; apply lookup_empty_Some in Hk|]].
    - split_and!; [done|done|]. pose proof (total_nonneg e_bytes _ H1). pose proof (total_nonneg e_bytes _ H2). lia.
    - unfold no_denials. simpl. rewrite !total_empty. pose proof (entry_bytes_pos []). lia. }
  pose proof (retain_total now (d_nsec d)) as E1. pose proof (retain_total now (d_nsec3 d)) as E2. pose proof (entry_bytes_pos soa).
  pose proof (total_nonneg e_bytes _ (retain_sized now _ H1)). pose proof (total_nonneg e_bytes _ (retain_sized now _ H2)).
  assert (0 ≤ freed now (d_nsec d)) by (apply total_nonneg; intros k a [Ek _]%map_lookup_filter_Some; eauto). assert (0 ≤ freed now (d_nsec3 d)) by (apply total_nonneg; intros k a [Ek _]%map_lookup_filter_Some; eauto).
  unfold refresh. rewrite sub64_Ok by lia. simpl. eexists. split_and!; [done| |simpl; lia|done|done|done]. split; simpl; [lia|by apply retain_sized|by apply retain_sized].
Qed.
(** An insertion: the counts stay exact, and the cache fits or holds this zone alone. *)
Lemma insert_counts capacity zones zone soa recs now : counts zones → ∃ zones', insert_secure capacity zones zone soa recs now = Ok zones' ∧ counts zones' ∧
  (head (omap soa_of soa) ≠ None → z_bytes zones' ≤ capacity ∨ ∀ z d, z_map zones' !! z = Some d → z = path zone).
Proof.
  intros Hc. unfold insert_secure. destruct (head _) as [[st mn]|]; [|by exists zones]. set (d := default no_denials _). assert (zone_counts d ∨ d = no_denials) as Hd.
  { unfold d. destruct (z_map zones !! path zone) as [d0|] eqn:E; simpl; [left; by eapply ct_zone|by right]. }
  destruct (refresh_ok d soa now (Z.min st mn) Hd) as (d1 & -> & H1 & _). simpl. destruct (insert_records_ok capacity now (Z.min st mn) recs recs d1 H1) as (d2 & -> & H2 & _). simpl.
  assert (d_bytes d ≤ z_bytes zones ∧ z_bytes zones - d_bytes d = total d_bytes (delete (path zone) (z_map zones))) as [Hle Hrest].
  { unfold d. destruct (z_map zones !! path zone) as [d0|] eqn:E; simpl.
    - destruct (counts_delete _ _ _ Hc E) as [? [Eb _]]. simpl in Eb. lia.
    - rewrite delete_id by done. destruct Hc as [Eb Hz]. assert (0 ≤ total d_bytes (z_map zones)) by (apply total_nonneg; intros k a Ha; pose proof (zone_bytes_pos _ (Hz _ _ Ha)); lia). lia. }
  rewrite sub64_Ok by done. simpl. destruct (evict_loop_ok (S (size (<[path zone := d2]> (z_map zones)))) capacity (Some (path zone)) (mkZones (<[path zone := d2]> (z_map zones)) (z_bytes zones - d_bytes d + d_bytes d2)))
    as (zones' & E & H3 & _ & _ & H4); [|simpl; lia|].
  - split; simpl; [rewrite total_replace; lia|]. intros z d' [[_ <-]|[_ ?]]%lookup_insert_Some; [done|by eapply ct_zone].
  - exists zones'. split_and!; [done|done|]. intros _. destruct H4 as [|H4]; [by left|right]. intros z d' Hz. apply H4 in Hz. congruence.
Qed.
End cache.

(** ** Synthesised answers *)
Section range.
Context {NL : NameLib} {K : Type} `{Countable K} (lt : K → K → bool) {T : Type} (m : gmap K (Entry T)).
Definition in_map (p : K * Entry T) : Prop := m !! p.1 = Some p.2.
Lemma last_of_elem (l : list (K * Entry T)) p : last_of lt l = Some p → p ∈ l.
Proof.
  unfold last_of. assert (∀ (l : list (K * Entry T)) best q, foldl (later lt) best l = Some q → best = Some q ∨ q ∈ l) as Hx; [|intros E; by apply Hx in E as [|]].
  clear. induction l as [|x l IH]; intros best q; simpl; [by left|]. intros [E|E]%IH; [|right; by right]. unfold later in E. destruct best as [b|]; [|injection E as ->; right; by left]. case_match; injection E as ->; [right; by left|by left].
Qed.
Lemma at_or_before_in k p : at_or_before lt m k = Some p → in_map p.
Proof.
  unfold at_or_before, in_map. destruct p as [k' e]. intros E. apply elem_of_map_to_list. destruct (last_of lt (filter _ _)) as [q|] eqn:Eq; [injection E as ->; apply last_of_elem, list_elem_of_filter in Eq; tauto|by apply last_of_elem in E].
Qed.
Lemma with_key_in k p : with_key m k = Some p → in_map p.
Proof. unfold with_key. by intros (e & E & ->)%fmap_Some. Qed.
Lemma push_unique_in v e now : Forall in_map v → (∀ p, e = Some p → in_map p) → Forall in_map (push_unique v e now).
Proof. intros Hv He. unfold push_unique. destruct e as [p|]; [|done]. case_match; [|done]. apply Forall_app; split; [done|]. apply Forall_singleton. by apply He. Qed.
Lemma push_unique_live (v : list (K * Entry T)) e now : Forall (λ p, now < e_expires p.2) v → Forall (λ p, now < e_expires p.2) (push_unique v e now).
Proof.
  intros Hv. unfold push_unique. destruct e as [p|]; [|done]. destruct (_ && _) eqn:E; [|done]. apply andb_true_iff in E as [E%Z.ltb_lt _]. apply Forall_app; split; [done|]. by apply Forall_singleton.
Qed.
Lemma pairs_elem v o t : Forall in_map v → (o, t) ∈ pairs v → ∃ k e, m !! k = Some e ∧ e_owner e = o ∧ e_rdata e = t.
Proof. intros Hv. unfold pairs. intros ([k e] & [= -> ->] & Hp)%list_elem_of_fmap. rewrite Forall_forall in Hv. exists k, e. split; [by apply (Hv (k, e))|done]. Qed.
End range.

Section sound.
Context {NL : NameLib} {NLaws : NameLaws} {DL : DenialLib} {DLaws : DenialLaws} {VL : VerifyLib} {SL : SizeLib}.
Context (W : World) {WL : WorldLaws W}.
Definition entry3_ok (p : npath) (e : Entry NSEC3) : Prop := opt_out (e_rdata e) = false ∧
  ∀ h, nsec3_owner_hash (e_owner e) = Some h → authentic3 (contents W p) (hash_of (salt (e_rdata e)) (iterations (e_rdata e))) h (e_rdata e).
(** An NSEC record kept with signatures made for a wildcard need not be one of its owner's. *)
Definition entry_nsec_ok (p : npath) (e : Entry NSEC) : Prop := unexpanded (e_records e) → authentic (contents W p) (path (e_owner e)) (path (next_domain_name (e_rdata e))) (type_set (e_rdata e)).
Record denials_sound (p : npath) (d : ZoneDenials) : Prop := {
  ds_zone : ∃ k, genuine W p k;
  ds_nsec : ∀ k e, d_nsec d !! k = Some e → entry_nsec_ok p e;
  ds_nsec3 : ∀ k e, d_nsec3 d !! k = Some e → entry3_ok p e;
}.
Definition cache_sound (zones : Zones) : Prop := ∀ p d, z_map zones !! p = Some d → denials_sound p d.
(** What a synthesised answer claims. *)
Definition synthesised_ok (p q : npath) (rcode qtype : Z) : Prop :=
  if rcode =? NXDomain then without_records (contents W p) q ∨ dname_apex (contents W p) q else rcode = NoError ∧ ∃ s, answers (contents W p) q s ∧ no_data s qtype.
Lemma unexpanded_sub records records' : records ⊆ records' → unexpanded records' → unexpanded records.
Proof. intros Hs Hu r g Hr. by apply Hu, Hs. Qed.
Lemma unexpanded_cap ttl records : unexpanded (map (cap_record ttl) records) → unexpanded records.
Proof. intros Hu r g Hr Hd. apply (Hu (cap_record ttl r) g); [by apply list_elem_of_fmap; exists r|done]. Qed.
Lemma records_of_sub {K} (v : list (K * Entry NSEC)) k e : (k, e) ∈ v → e_records e ⊆ records_of v.
Proof. intros Hin r Hr. unfold records_of. apply list_elem_of_In, in_concat. exists (e_records e). split; [|by apply list_elem_of_In]. apply list_elem_of_In, list_elem_of_fmap. by exists (k, e). Qed.
Lemma synthesize_nsec_sound p d q t now rcode rs : denials_sound p d → star ∉ path q → p `prefix_of` path q → synthesize_nsec d q t now = Some (rcode, rs) → unexpanded rs → synthesised_ok p (path q) rcode t.
Proof.
  intros [[k Hk] H1 _] Hs Hp. destruct (w_zone _ _ Hk) as [Hwf Hap]. rewrite <- Hap in Hp. unfold synthesize_nsec. set (used0 := push_unique [] _ now).
  assert (Forall (in_map (d_nsec d)) used0) as Hu by (apply push_unique_in; [by apply Forall_nil|]; intros r; apply at_or_before_in). destruct used0 as [|first rest]; [done|].
  set (used := match prepend_star _ with Some _ => _ | None => _ end). assert (Forall (in_map (d_nsec d)) used) as Hu'.
  { unfold used. case_match; [|done]. apply push_unique_in; [done|]. intros r. apply at_or_before_in. }
  assert (unexpanded (records_of used) → nsecs_of (contents W p) (pairs used)) as Hn.
  { intros Hux o n ([k' e] & [= -> ->] & Hin)%list_elem_of_fmap. apply (H1 k' e); [by apply (proj1 (Forall_forall _ _) Hu' (k', e))|]. by eapply unexpanded_sub, Hux; eapply records_of_sub. }
  clearbody used. unfold synthesised_ok. case_bool_decide as E1.
  - intros [= <- <-] Hux. left. by apply (nxdomain_sound _ _ (Hn Hux)).
  - case_bool_decide as E2; [|done]. intros [= <- <-] Hux. split; [done|]. by apply (nodata_sound _ _ (Hn Hux)).
Qed.
Lemma collect3_in fuel m hash zone q now labels used v : Forall (in_map m) used → collect3 fuel m hash zone q now labels used = Some v → Forall (in_map m) v.
Proof.
  revert labels used. induction fuel as [|fuel IH]; intros labels used Hu; cbn [collect3]; [by intros [= <-]|]. destruct (_ <? _)%nat; [|by intros [= <-]]. cbv zeta. destruct (hash (trim_to q (labels - 1))) as [h|]; [|done]. cbn [mbind option_bind].
  destruct (with_key m h) as [e|] eqn:Ee; [|by apply IH]. destruct (hash (trim_to q (labels - 1 + 1))) as [nc|]; [|done]. cbn [mbind option_bind]. intros [= <-].
  assert (Forall (in_map m) (push_unique (push_unique used (Some e) now) (at_or_before bytes_lt m nc) now)) as Hv.
  { apply push_unique_in; [apply push_unique_in; [done|]; intros p [= <-]; by eapply with_key_in|]. intros p. apply at_or_before_in. }
  destruct (prepend_star _ ≫= hash) as [wh|]; [|done]. apply push_unique_in; [apply push_unique_in; [done|]; intros p; apply with_key_in|]. intros p. apply at_or_before_in.
Qed.
Lemma synthesize_nsec3_sound zone d q t now rcode rs : denials_sound (path zone) d → synthesize_nsec3 d zone q t now = Some (rcode, rs) → synthesised_ok (path zone) (path q) rcode t.
Proof.
  intros [[k Hk] _ H3]. destruct (w_zone _ _ Hk) as [Hwf Hap]. unfold synthesize_nsec3. destruct (first_entry _) as [[fk fe]|]; [|done]. cbn [fmap option_fmap option_map mbind option_bind]. destruct (nsec3_hash q _) as [h|]; [|done]. cbn [mbind option_bind].
  destruct (collect3 _ _ _ _ _ _ _ _) as [used|] eqn:Ec; [|done]. cbn [mbind option_bind]. apply collect3_in in Ec; [|apply push_unique_in; [by apply Forall_nil|]; intros p; apply with_key_in].
  assert (nsec3s_of (contents W (path zone)) (pairs used)) as Hn by (intros o n h' Hin _ Hh; destruct (pairs_elem _ _ _ _ Ec Hin) as (k' & e & E & <- & <-); by apply (H3 k' e E)).
  case_bool_decide as E1; [|case_bool_decide as E2; [|done]]; intros [= <- _].
  - pose proof (nxdomain3_sound _ (w_hash (path zone)) zone (eq_sym Hap) _ Hn q) as Hc. rewrite E1 in Hc. apply Hc.
  - pose proof (nodata3_sound _ (w_hash (path zone)) zone (eq_sym Hap) _ Hn q t) as Hc. rewrite E2 in Hc. destruct Hc as [Hc|(_ & _ & [o n] & Hin & Ho)]; [done|].
    destruct (pairs_elem _ _ _ _ Ec Hin) as (k' & e & E & <- & <-). destruct (H3 k' e E) as [Hoo _]. simpl in Ho. congruence.
Qed.
Lemma find_zone_in m q l zone d : find_zone m q l = Some (zone, d) → m !! path zone = Some d ∧ path zone `prefix_of` path q.
Proof.
  induction l as [|l IH]; simpl; (destruct (m !! path (trim_to q _)) as [d'|] eqn:E; [intros [= <- <-]; split; [done|rewrite path_trim; apply prefix_take]|done || apply IH]).
Qed.
Lemma synthesize_sound zones q t now rcode rs : cache_sound zones → star ∉ path q → synthesize zones q t now = Some (rcode, rs) → unexpanded rs →
  ∃ p d, z_map zones !! p = Some d ∧ p `prefix_of` path q ∧ now < d_soa_expires d ∧ synthesised_ok p (path q) rcode t ∧ ∀ r, r ∈ rs → r_ttl r ≤ d_soa_expires d - now.
Proof.
  intros Hc Hs. unfold synthesize. destruct (find_zone _ _ _) as [[zone d]|] eqn:Ef; [|done]. destruct (find_zone_in _ _ _ _ _ Ef) as [Hz Hp]. cbn [mbind option_bind]. destruct (Z.leb_spec (d_soa_expires d) now) as [|L]; [done|].
  destruct (if bool_decide _ then _ else _) as [[rc used]|] eqn:Eu; [|done]. cbn [mbind option_bind]. intros [= <- <-] Hux. exists (path zone), d. split_and!; try done.
  - case_bool_decide; [by eapply synthesize_nsec3_sound; [apply Hc|]|]. eapply synthesize_nsec_sound; [by apply Hc|done..|]. eapply unexpanded_sub, unexpanded_cap, Hux. set_solver.
  - intros r (r' & -> & _)%list_elem_of_fmap. simpl. assert (u32 (Z.max 0 (d_soa_expires d - now)) ≤ Z.max 0 (d_soa_expires d - now)) by (unfold u32; apply Z.mod_le; lia). lia.
Qed.

(** ** Insertions keep the cache sound *)
Lemma evict_loop_sub fuel capacity keep zones zones' : evict_loop fuel capacity keep zones = Ok zones' → z_map zones' ⊆ z_map zones.
Proof.
  revert zones. induction fuel as [|fuel IH]; intros zones; cbn [evict_loop]; (destruct (_ <? _); [|by intros [= <-]]); [done|]. destruct (oldest _ _) as [[z d]|]; [|by intros [= <-]].
  intros (b & _ & E)%bind_Ok. apply IH in E. simpl in E. by trans (delete z (z_map zones)); [|apply delete_subseteq].
Qed.
Lemma cache_sound_sub zones zones' : z_map zones' ⊆ z_map zones → cache_sound zones → cache_sound zones'.
Proof. intros Hs Hc p d E. apply Hc. by eapply lookup_weaken. Qed.
Lemma add_entry_in {K} `{Countable K} {T} capacity (m m' : gmap K (Entry T)) bytes b k e k' e' : add_entry capacity m bytes k e = Ok (m', b) → m' !! k' = Some e' → m !! k' = Some e' ∨ e' = e.
Proof. unfold add_entry. intros (x & _ & E)%bind_Ok. case_match; injection E as <- <-; [by left|]. intros [[_ <-]|[_ ?]]%lookup_insert_Some; [by right|by left]. Qed.
(** The signatures a record is kept with are those that verified it. *)
Lemma nsec_from_sigs recs zone r n : r_data r = NSECData n → nsec_from W recs zone (r_name r, n) → nsec_from W (r :: sigs_of recs r) zone (r_name r, n).
Proof.
  intros Hd (Hz & k & rds & (r' & g & Hr' & Hn & Hg & Ht & Hk) & Hp). split; [done|]. exists k, rds. split; [|done]. exists r', g. split_and!; try done. right. unfold sigs_of. apply list_elem_of_filter. split; [|done].
  unfold rrsig, record_type. rewrite Hg, Hd, Ht. by rewrite (proj2 (eqb_true (r_name r') (r_name r)) Hn).
Qed.
Lemma insert_record_sound capacity now ttl recs zone d r d' : r ∈ recs → (∀ r, r ∈ recs →
    (∀ n, r_data r = NSECData n → nsec_from W recs zone (r_name r, n)) ∧ (∀ n, r_data r = NSEC3Data n → nsec3_from W zone (r_name r, n))) →
  denials_sound (path zone) d → insert_record capacity now ttl recs d r = Ok d' → denials_sound (path zone) d'.
Proof.
  intros Hr Hrecs [Hk H1 H3]. destruct (Hrecs _ Hr) as [R1 R3]. unfold insert_record. destruct (r_data r) as [| | |n|n| | |] eqn:Ed; try by intros [= <-].
  - intros ([m b] & E & [= <-])%bind_Ok. split; simpl; [done| |done]. intros k e [Hin| ->]%(add_entry_in _ _ _ _ _ _ _ _ _ E); [eauto|]. intros Hu. apply (nsec_from_authentic W _ zone (r_name r, n) Hu). by apply nsec_from_sigs, R1.
  - destruct (opt_out n) eqn:Eo; [by intros [= <-]|]. destruct (nsec3_owner_hash _) as [h|] eqn:Eh; [|by intros [= <-]]. intros ([m b] & E & [= <-])%bind_Ok. split; simpl; [done|done|].
    intros k e [Hin| ->]%(add_entry_in _ _ _ _ _ _ _ _ _ E); [eauto|]. split; [done|]. simpl. intros h' Hh. destruct (R3 n eq_refl) as (_ & rds & Hp & Hd). by apply (w_nsec3 _ rds (r_name r)).
Qed.
Lemma insert_sound capacity zones zone soa recs now zones' : insert_ok W (mkInsert zone soa recs) → cache_sound zones →
  insert_secure capacity zones zone soa recs now = Ok zones' → cache_sound zones'.
Proof.
  intros [Hk Hrecs] Hc. simpl in *. unfold insert_secure. destruct (head _) as [[st mn]|]; [|by intros [= <-]]. intros (d1 & E1 & (d2 & E2 & (b & _ & E3)%bind_Ok)%bind_Ok)%bind_Ok.
  apply evict_loop_sub in E3. apply (cache_sound_sub _ _ E3). intros p d. simpl. intros [[<- <-]|[_ ?]]%lookup_insert_Some; [|by apply Hc].
  revert E2. apply fold_res_inv; [|intros a r a' Hr Ha; by apply (insert_record_sound capacity now (Z.min st mn) recs)]. unfold refresh in E1. apply bind_Ok in E1 as (b1 & _ & [= <-]). split; simpl; [done| |].
  - intros k e [E _]%map_lookup_filter_Some. destruct (z_map zones !! path zone) as [d0|] eqn:Ez; simpl in E; [by eapply ds_nsec; [apply Hc|]|by apply lookup_empty_Some in E].
  - intros k e [E _]%map_lookup_filter_Some. destruct (z_map zones !! path zone) as [d0|] eqn:Ez; simpl in E; [by eapply ds_nsec3; [apply Hc|]|by apply lookup_empty_Some in E].
Qed.
End sound.

(** ** Every cache of denials that validation can leave *)
Section nreach.
Context {NL : NameLib} {NLaws : NameLaws} {DL : DenialLib} {DLaws : DenialLaws} {VL : VerifyLib} {SL : SizeLib}.
Inductive nreach (trust : TrustPoints) : Zones → Prop :=
  | nreach_clear : nreach trust nsec_clear
  | nreach_capacity zones capacity zones' : nreach trust zones → nsec_set_capacity zones capacity = Ok zones' → nreach trust zones'
  | nreach_insert zones zones' capacity fetch now fuel zones_at input r w i : nreach trust zones → (∀ n, reach trust (zones_at n)) →
      validate_response fetch now fuel zones_at input trust = Ok (r, w, Some i) → insert_secure capacity zones (i_zone i) (i_soa i) (i_denial i) now = Ok zones' → nreach trust zones'.
Lemma nreach_sound W `{!WorldLaws W} trust zones : trust_ok W trust → nreach trust zones → cache_sound W zones.
Proof.
  intros Ht. induction 1 as [|zones capacity zones' _ IH E|zones zones' capacity fetch now fuel zones_at input r w i _ IH Hz E1 E2].
  - intros p d E. cbn [z_map nsec_clear] in E. by apply lookup_empty_Some in E.
  - apply evict_loop_sub in E. by apply (cache_sound_sub W _ _ E).
  - destruct (validate_response_ok W fetch now trust Ht _ _ _ _ _ _ (λ n, reach_ok W _ _ Ht (Hz n)) E1) as (os & neg & _ & _ & _ & _ & Hi). specialize (Hi _ eq_refl). destruct i as [z soa recs]. by eapply insert_sound.
Qed.
Lemma nreach_counts trust zones : 0 ≤ size_of_Record → (∀ n, 0 ≤ name_len n) → nreach trust zones → counts zones.
Proof.
  intros H1 H2. induction 1 as [|zones capacity zones' _ IH E|zones zones' capacity fetch now fuel zones_at input r w i _ IH Hz E1 E2].
  - split; simpl; [by rewrite total_empty|]. intros z d E. cbn [z_map nsec_clear] in E. by apply lookup_empty_Some in E.
  - unfold nsec_set_capacity, evict in E. destruct (evict_loop_ok H1 H2 (S (size (z_map zones))) capacity None zones IH) as (z & E' & Hc & _); [lia|]. rewrite E in E'. by injection E' as ->.
  - destruct (insert_counts H1 H2 capacity zones (i_zone i) (i_soa i) (i_denial i) now IH) as (z & E' & Hc & _). rewrite E2 in E'. by injection E' as ->.
Qed.
End nreach.
