(* ===== verification/ValSecure.v ===== *)
(** * Validation: the theorems

    Against an arbitrary network, and whatever walks and evictions left in the caches. *)

From S2P Require Import Prelude.
From S2P Require Import GoText.
From S2P Require Import ZoneJournal.
From S2P Require Import DnsLib.
From S2P Require Import DnssecSign.
From S2P Require Import ValDenial.
From S2P Require Import ValZone.
From S2P Require Import ValVerify.
From S2P Require Import Validator.
From S2P Require Import ValChain.
From S2P Require Import ValResponse.
From S2P Require Import ValNsecCache.

(** ** Validation ends *)
Section ends.
Context {NL : NameLib} {NLaws : NameLaws} {DL : DenialLib} {DLaws : DenialLaws} {VL : VerifyLib}.
Context (fetch : Name → Z → FetchedSet + FetchError) (now : Z) (trust : TrustPoints) (fuel : nat).
Definition walkable (p : npath) : Prop := stars_first p ∧ (length p ≤ fuel)%nat.
Lemma walkable_prefix p q : p `prefix_of` q → walkable q → walkable p.
Proof. intros Hp [H1 H2]. split; [by eapply stars_first_prefix|]. apply prefix_length in Hp. lia. Qed.
Lemma signer_walkable s : walkable (path (s_name s)) → walkable (path (default (s_name s) (set_signer s))).
Proof. intros Hw. destruct (set_signer s) as [n|] eqn:E; [|done]. by eapply walkable_prefix; [apply set_signer_Some|]. Qed.
Lemma set_walkable records s : (∀ r, r ∈ records → walkable (path (r_name r))) → set_ok records s → walkable (path (s_name s)).
Proof. intros Hr (Hne & _ & HR & _). destruct (s_records s) as [|r l]; [done|]. destruct (HR r) as (Hin & <- & _); [by left|]. by apply Hr. Qed.
Lemma check_sets_end zones_at sets authorities : Forall (λ s, walkable (path (s_name s))) sets → ∃ r, check_sets fetch now fuel zones_at sets authorities trust = Ok r.
Proof.
  intros Hs. revert zones_at. induction Hs as [|s sets Hs _ IH]; intros zones_at; simpl; [eauto|]. destruct (signer_walkable _ Hs) as [H1 H2]. unfold check_rrset.
  destruct (walk_ends fetch now trust fuel (zones_at 0%nat) _ H1 H2) as [[[st kz] w] ->]. simpl. destruct (IH (λ i, zones_at (S i))) as [[os ws] E]. destruct st; simpl; [|rewrite E; simpl; eauto|rewrite E; simpl; eauto].
  destruct (set_signer s); [destruct (negb _)|]; simpl; rewrite E; simpl; eauto.
Qed.
Lemma denial_signer_walkable records n : (∀ r, r ∈ records → walkable (path (r_name r))) → denial_signer (group records) = Some n → walkable (path n).
Proof.
  intros Hr. assert (∀ s, s ∈ group records → ∀ n, set_signer s = Some n → walkable (path n)) as Hs.
  { intros s Hin n' E. eapply walkable_prefix; [by apply set_signer_Some|]. eapply set_walkable; [done|]. by apply (proj1 (Forall_forall _ _) (group_ok records)). }
  unfold denial_signer. destruct (list_find _ _ ≫= _) as [n'|] eqn:E.
  - intros [= <-]. destruct (list_find _ _) as [[i s]|] eqn:Ef; [|done]. apply list_find_Some in Ef as (Hi & _). simpl in E. by eapply Hs; [eapply list_elem_of_lookup_2|].
  - intros Hh. assert (n ∈ omap set_signer (filter (λ s, is_denial_type (s_rtype s) = true) (group records))) as Hin by (destruct (omap _ _); [done|]; injection Hh as ->; by left).
    apply list_elem_of_omap in Hin as (s & [_ Hin]%list_elem_of_filter & Es). by eapply Hs.
Qed.
(** C18: Validation returns for every response whose owner names, and the name the answer leads to, have an asterisk label in front at most,
    with as many steps of fuel as the longest of them has labels. *)
Theorem validation_ends zones_at input : (∀ r, r ∈ q_answers input ++ q_authorities input → walkable (path (r_name r))) → walkable (path (target input)) →
  ∃ r, validate_response fetch now fuel zones_at input trust = Ok r.
Proof.
  intros Hr Hq. unfold validate_response. fold (target input). fold (signed_sets input). destruct (check_sets_end zones_at (signed_sets input) (q_authorities input)) as [[os w] ->].
  { apply Forall_filter. eapply Forall_impl; [apply group_ok|]. intros s. apply set_walkable. intros r Hin. apply Hr, elem_of_app. by left. }
  simpl. destruct (needs_denial _ _); [|eauto]. unfold check_negative. set (at_ := default _ _). assert (walkable (path at_)) as [H1 H2].
  { unfold at_. destruct (denial_signer _) as [n|] eqn:E; [|done]. eapply denial_signer_walkable; [|done]. intros r Hin. apply Hr, elem_of_app. by right. }
  destruct (walk_ends fetch now trust fuel (zones_at (length (signed_sets input))) _ H1 H2) as [[[st kz] w'] ->]. simpl. destruct st; simpl; eauto. destruct (denial_signer _) as [n|]; simpl; eauto.
  destruct (Name_eqb kz n); simpl; eauto. destruct (negative_outcome _ _ _ _ _ _); simpl; eauto.
Qed.
End ends.

Section theorems.
Context {NL : NameLib} {NLaws : NameLaws} {DL : DenialLib} {DLaws : DenialLaws} {VL : VerifyLib} {SL : SizeLib}.


(** C5: With a trust point at the root, a response without a denial passes as insecure only because of one of its answer RRsets: for a cause in
    signed data above the owner (an unsigned delegation, an opt-out span, unsupported algorithms, too many NSEC3 iterations, an unusable trust
    point), or with data the zone did publish.  Stripping or forging signatures does not do it. *)
Theorem not_downgraded (W : World) fetch now fuel zones_at input trust r w i e tp : WorldLaws W → trust_ok W trust → (∀ n, reach trust (zones_at n)) → tp ∈ trust → path tp.1 = [] →
  validate_response fetch now fuel zones_at input trust = Ok (r, w, i) → needs_denial (target input) input = false → security r = SecInsecure e →
  ∃ s, s ∈ signed_sets input ∧ (insecure W trust (path (s_name s)) ∨ ∃ p j, set_published W s p j).
Proof.
  intros WL Ht Hz Htp Hroot E En Hs. destruct (validate_response_ok W fetch now trust Ht _ _ _ _ _ _ (λ n, reach_ok W _ _ Ht (Hz n)) E) as (os & neg & -> & Hv & Hn & _).
  rewrite En in Hn. subst neg. rewrite app_nil_r in Hs. apply combined_insecure in Hs as [[? ?]|[e' Hin]]; [done|]. destruct (Forall2_elem_r _ _ _ _ Hv Hin) as (s & Hs & Hver). exists s. split; [done|].
  destruct Hver as [Hi|[Hno|Hp]]; [left|exfalso|by right].
  - eapply insecure_down; [|done]. destruct (set_signer s) as [n|] eqn:Es; [by apply set_signer_Some|done].
  - apply (Hno _ Htp). rewrite Hroot. apply prefix_nil.
Qed.


(** C17: The byte counts of the cache of denials are exact: an insertion never panics, and afterwards the cache is within its capacity or holds
    the inserted zone alone. *)
Theorem denial_cache_bounded trust zones capacity zone soa recs now : 0 ≤ size_of_Record → (∀ n, 0 ≤ name_len n) → nreach trust zones →
  counts zones ∧ ∃ zones', insert_secure capacity zones zone soa recs now = Ok zones' ∧ counts zones' ∧
    (head (omap soa_of soa) ≠ None → z_bytes zones' ≤ capacity ∨ ∀ z d, z_map zones' !! z = Some d → z = path zone).
Proof. intros H1 H2 Hn. pose proof (nreach_counts trust zones H1 H2 Hn) as Hc. split; [done|]. by apply insert_counts. Qed.
End theorems.
