(* ===== verification/ValAnchors.v ===== *)
(** * Trust anchors

    engine/src/recursor/dnssec/anchors.rs: the DS anchors of the configuration merged with the automated
    rollover of RFC 5011, kept in a file, and the trust points made of them for the validator; with
    [parse_ds] (snapshot_m3.rs), [ds_from_text] and [from_config] (validator.rs).

    Text is UTF-8.  Of an error only which one it is is kept.  The file is one of three: it is not there, it
    cannot be read, or it has content; what a write leaves is an argument, and so is the answer of a fetch.
    Times are seconds, far below 2^63.  The lock on the file makes each operation one step; a refresh takes
    the trust points when its fetch has returned and records what it observed later. *)

From S2P Require Import Prelude.
From S2P Require Import GoText.
From S2P Require Import ZoneJournal.
From S2P Require Import DnsLib.
From S2P Require Import DnssecSign.
From S2P Require Import ValDenial.
From S2P Require Import ValZone.
From S2P Require Import ValVerify.
From S2P Require Import Validator.

(** ** State *)
Inductive KeyState := Configured | AddPend | KValid | Missing | Revoked.
#[export] Instance KeyState_eq_dec : EqDecision KeyState.
Proof. solve_decision. Defined.
Record AnchorKey := mkAnchorKey {
  ak_key_tag : Z; ak_algorithm : Z; ak_ds : option bytes; ak_dnskey_b64 : option bytes; ak_state : KeyState; ak_hold_down_until : Z; ak_from_config : bool }.
Inductive AnchorError := NoAnchorError | ReadingState | CorruptState | Persisting | NotValidated | NetworkError | NoTrustedKey.
Record ZoneAnchors := mkZoneAnchors { za_keys : list AnchorKey; za_last_success : Z; za_next_refresh : Z; za_last_error : AnchorError }.
Notation AnchorFile := (gmap bytes ZoneAnchors).
Definition DAY : Z := 86400.
Definition HOUR : Z := 3600.
Definition ADD_HOLD_DOWN : Z := 30 * 86400.
Definition REMOVE_HOLD_DOWN : Z := 30 * 86400.
Record Observation := mkObservation { ob_dnskeys : list DNSKEY; ob_validated : bool; ob_revoked : list Z; ob_orig_ttl : Z; ob_sig_expiration : Z }.
(** [proto::TrustAnchor]. *)
Record TrustAnchor := mkTrustAnchor { ta_zone : bytes; ta_ds : bytes }.

Class AnchorLib `{NameLib} := {
  name_from_ascii : bytes → option Name;
  name_to_ascii : Name → bytes;
  dnskey_to_bytes : DNSKEY → option bytes;
  to_digest : DNSKEY → Name → Z → option bytes;
  base64_encode : bytes → bytes;
  base64_decode : bytes → option bytes;
  hex_decode : bytes → option bytes;
  file_to_json : AnchorFile → option bytes;
  file_from_json : bytes → option AnchorFile;
}.

(** ** DS records as text *)
Fixpoint digits (max acc : Z) (s : bytes) : option Z :=
  match s with
  | [] => Some acc
  | c :: s => if (48 <=? c) && (c <=? 57) then let acc := acc * 10 + (c - 48) in if max <? acc then None else digits max acc s else None
  end.
(** [str::parse] of an unsigned integer. *)
Definition parse_unsigned (max : Z) (s : bytes) : option Z :=
  match s with
  | [] => None
  | 43 :: [] => None
  | 43 :: s => digits max 0 s
  | s => digits max 0 s
  end.
Definition digest_length (dtype : Z) : option Z := if dtype =? 1 then Some 20 else if dtype =? 2 then Some 32 else if dtype =? 4 then Some 48 else None.

Section anchors.
Context `{NameLib} `{!DenialLib} `{!VerifyLib} `{!AnchorLib}.

Definition parse_ds (text : bytes) : option (Z * Z * Z * bytes) :=
  match Fields text with
  | [tag; alg; dtype; digest] =>
      tag ← parse_unsigned 65535 tag;
      alg ← parse_unsigned 255 alg;
      dtype ← parse_unsigned 255 dtype;
      digest ← hex_decode digest;
      want ← digest_length dtype;
      if len digest =? want then Some (tag, alg, dtype, digest) else None
  | _ => None
  end.
Definition ds_from_text (text : bytes) : option DS := '(tag, alg, dtype, digest) ← parse_ds text; Some (mkDS tag alg dtype digest).
Definition from_config (anchors : list TrustAnchor) : TrustPoints :=
  foldl (λ points a, match name_from_ascii (ta_zone a), ds_from_text (ta_ds a) with Some zone, Some ds => add_ds points (to_lowercase zone) ds | _, _ => points end) [] anchors.
Definition ds_matches (ds_text : bytes) (zone : Name) (k : DNSKEY) : bool :=
  match parse_ds ds_text with
  | None => false
  | Some (tag, alg, dtype, digest) =>
      bool_decide (calculate_key_tag k = Some tag) && (key_algorithm k =? alg) && match to_digest k zone dtype with Some d => bool_decide (d = digest) | None => false end
  end.

(** ** Keys as text *)
Definition b64 (k : DNSKEY) : bytes := base64_encode (default [] (dnskey_to_bytes k)).
Definition dnskey_from_b64 (s : bytes) : option DNSKEY :=
  rdata ← base64_decode s;
  match rdata with
  | _ :: _ :: protocol :: alg :: key => if is_empty key || negb (protocol =? 3) then None else flags ← get16 rdata; Some (mkDNSKEY flags alg key)
  | _ => None
  end.

(** ** RFC 5011 *)
Definition refresh_interval (orig_ttl sig_expiration now : Z) : Z := Z.max HOUR (Z.min (Z.min (15 * DAY) (Z.quot orig_ttl 2)) (Z.quot (sig_expiration - now) 2)).
Definition retry_interval (orig_ttl sig_expiration now : Z) : Z := Z.max HOUR (Z.min (Z.min DAY (Z.quot orig_ttl 10)) (Z.quot (sig_expiration - now) 10)).
Definition seen_key : Type := Z * Z * DNSKEY.
Definition seen (obs : Observation) : list seen_key :=
  omap (λ k, (λ t, (t, key_algorithm k, k)) <$> calculate_key_tag k) (filter (λ k, secure_entry_point k && zone_key k = true) (ob_dnskeys obs)).
Definition in_slot (tag alg : Z) (s : seen_key) : bool := (s.1.1 =? tag) && (s.1.2 =? alg).
Definition key_hit (l : list seen_key) (key : AnchorKey) : option DNSKEY :=
  (λ p, p.2.2) <$> list_find (λ s, in_slot (ak_key_tag key) (ak_algorithm key) s && match ak_dnskey_b64 key with None => true | Some b => bool_decide (b = b64 s.2) end = true) l.
Definition with_state (key : AnchorKey) (s : KeyState) : AnchorKey :=
  mkAnchorKey (ak_key_tag key) (ak_algorithm key) (ak_ds key) (ak_dnskey_b64 key) s (ak_hold_down_until key) (ak_from_config key).
Definition step_key (zone : Name) (obs : Observation) (now : Z) (key : AnchorKey) : AnchorKey :=
  match ak_state key, key_hit (seen obs) key with
  | st, Some k =>
      if bool_decide (ak_key_tag key ∈ ob_revoked obs) && negb (bool_decide (st = Revoked)) then
        mkAnchorKey (ak_key_tag key) (ak_algorithm key) (ak_ds key) (ak_dnskey_b64 key) Revoked (now + REMOVE_HOLD_DOWN) (ak_from_config key)
      else match st with
           | Configured =>
               if match ak_ds key with Some d => ds_matches d zone k | None => true end
               then mkAnchorKey (ak_key_tag key) (ak_algorithm key) (ak_ds key) (Some (b64 k)) KValid (ak_hold_down_until key) (ak_from_config key)
               else key
           | AddPend => if ak_hold_down_until key <=? now then with_state key KValid else key
           | Missing => with_state key KValid
           | KValid | Revoked => key
           end
  | KValid, None => with_state key Missing
  | _, None => key
  end.
(** What is not forgotten: pending keys still there, revoked keys within the hold-down. *)
Definition retained (obs : Observation) (now : Z) (k : AnchorKey) : bool :=
  negb (bool_decide (ak_state k = AddPend) && negb (existsb (in_slot (ak_key_tag k) (ak_algorithm k)) (seen obs))) &&
  negb (bool_decide (ak_state k = Revoked) && (ak_hold_down_until k <=? now)).
Definition same_slot (tag alg : Z) (k : AnchorKey) : bool := (ak_key_tag k =? tag) && (ak_algorithm k =? alg).
Definition add_seen (obs : Observation) (now : Z) (keys : list AnchorKey) (s : seen_key) : list AnchorKey :=
  let '(t, a, k) := s in
  if negb (existsb (same_slot t a) keys) && negb (revoke k) && negb (bool_decide (t ∈ ob_revoked obs))
  then keys ++ [mkAnchorKey t a None (Some (b64 k)) AddPend (now + ADD_HOLD_DOWN) false] else keys.
Definition apply_rfc5011 (z : ZoneAnchors) (zone : Name) (obs : Observation) (now : Z) : ZoneAnchors :=
  if negb (ob_validated obs) then mkZoneAnchors (za_keys z) (za_last_success z) (za_next_refresh z) NotValidated
  else
    let keys := filter (λ k, retained obs now k = true) (map (step_key zone obs now) (za_keys z)) in
    mkZoneAnchors (foldl (add_seen obs now) keys (seen obs)) now (now + refresh_interval (ob_orig_ttl obs) (ob_sig_expiration obs) now) NoAnchorError.

(** ** The store *)
Record TrustAnchorStore := mkStore { ts_path : bool; ts_file : AnchorFile; ts_points : TrustPoints; ts_rfc5011 : bool; ts_load_error : AnchorError }.
Inductive ReadState := NotFound | Unreadable | Content (b : bytes).
(** [write_atomic]: the file is replaced, or not, or replaced without the directory being synced. *)
Inductive WriteState := Written | WriteFailed | WrittenUnsynced.
Definition anchor_key (zone : Name) : bytes := name_to_ascii (to_lowercase zone).
Definition file_zones (f : AnchorFile) : list (bytes * ZoneAnchors) := sort_on fst bytes_compare (map_to_list f).
Definition publish_key (rfc5011 : bool) (name : Name) (points : TrustPoints) (k : AnchorKey) : TrustPoints :=
  let as_ds := if rfc5011 then bool_decide (ak_state k = Configured) else ak_from_config k && negb (bool_decide (ak_state k = Revoked)) in
  if as_ds then match ak_ds k ≫= ds_from_text with Some ds => add_ds points name ds | None => points end
  else if rfc5011 && (bool_decide (ak_state k = KValid) || bool_decide (ak_state k = Missing)) then
    match ak_dnskey_b64 k ≫= dnskey_from_b64 with Some key => add_key points name key | None => points end
  else points.
Definition publish_zone (rfc5011 : bool) (points : TrustPoints) (p : bytes * ZoneAnchors) : TrustPoints :=
  match name_from_ascii p.1 with None => points | Some name => foldl (publish_key rfc5011 name) points (za_keys p.2) end.
Definition points_of (rfc5011 : bool) (f : AnchorFile) : TrustPoints := foldl (publish_zone rfc5011) [] (file_zones f).
Definition republish (s : TrustAnchorStore) : TrustAnchorStore := mkStore (ts_path s) (ts_file s) (points_of (ts_rfc5011 s) (ts_file s)) (ts_rfc5011 s) (ts_load_error s).
Definition set_error (e : AnchorError) (z : ZoneAnchors) : ZoneAnchors := mkZoneAnchors (za_keys z) (za_last_success z) (za_next_refresh z) e.
(** The store, the file, and whether the state was saved. *)
Definition saved : Type := TrustAnchorStore * ReadState * bool.
Definition save (s : TrustAnchorStore) (disk : ReadState) (w : WriteState) : saved :=
  if negb (ts_path s) then (s, disk, true)
  else
    let failed := mkStore (ts_path s) (set_error Persisting <$> ts_file s) (ts_points s) (ts_rfc5011 s) (ts_load_error s) in
    match file_to_json (ts_file s), w with
    | Some b, Written => (s, Content b, true)
    | Some b, WrittenUnsynced => (failed, Content b, false)
    | _, _ => (failed, disk, false)
    end.
Definition store_open (path : bool) (disk : ReadState) : TrustAnchorStore :=
  let '(file, load_error) :=
    if negb path then (∅, NoAnchorError)
    else match disk with
         | NotFound => (∅, NoAnchorError)
         | Unreadable => (∅, ReadingState)
         | Content b => match file_from_json b with Some f => (f, NoAnchorError) | None => (∅, CorruptState) end
         end in
  republish (mkStore path file [] true load_error).

(** ** Configuration *)
Definition config_entry (m : gmap bytes (list (bytes * Z * Z))) (a : TrustAnchor) : gmap bytes (list (bytes * Z * Z)) :=
  match name_from_ascii (ta_zone a), parse_ds (ta_ds a) with
  | Some zone, Some (tag, alg, _, _) => <[anchor_key zone := default [] (m !! anchor_key zone) ++ [(ta_ds a, tag, alg)]]> m
  | _, _ => m
  end.
Definition configured (anchors : list TrustAnchor) : gmap bytes (list (bytes * Z * Z)) := foldl config_entry ∅ anchors.
Definition keeps_config (dss : list (bytes * Z * Z)) (k : AnchorKey) : bool :=
  negb (ak_from_config k) || bool_decide (ak_state k = KValid) || existsb (λ d, same_slot d.1.2 d.2 k) dss.
Definition add_configured (keys : list AnchorKey) (d : bytes * Z * Z) : list AnchorKey :=
  let '(text, tag, alg) := d in
  if existsb (same_slot tag alg) keys then keys else keys ++ [mkAnchorKey tag alg (Some text) None Configured 0 true].
Definition merge_zone (load_error : AnchorError) (now : Z) (z : option ZoneAnchors) (dss : list (bytes * Z * Z)) : ZoneAnchors :=
  let za := default (mkZoneAnchors [] 0 now load_error) z in
  mkZoneAnchors (foldl add_configured (filter (λ k, keeps_config dss k = true) (za_keys za)) dss) (za_last_success za) (za_next_refresh za) (za_last_error za).
Definition merge_file (f : AnchorFile) (load_error : AnchorError) (anchors : list TrustAnchor) (now : Z) : AnchorFile :=
  map_imap (λ zone dss, Some (merge_zone load_error now (f !! zone) dss)) (configured anchors).
Definition merged (s : TrustAnchorStore) (anchors : list TrustAnchor) (rfc5011 : bool) (now : Z) : TrustAnchorStore :=
  republish (mkStore (ts_path s) (merge_file (ts_file s) (ts_load_error s) anchors now) (ts_points s) rfc5011 NoAnchorError).
Definition merge_config (s : TrustAnchorStore) (disk : ReadState) (anchors : list TrustAnchor) (rfc5011 : bool) (now : Z) (w : WriteState) : saved :=
  save (merged s anchors rfc5011 now) disk w.

(** ** Observations *)
Definition observed (s : TrustAnchorStore) (zone : Name) (z : ZoneAnchors) (obs : Observation) (now : Z) : TrustAnchorStore :=
  republish (mkStore (ts_path s) (<[anchor_key zone := apply_rfc5011 z zone obs now]> (ts_file s)) (ts_points s) (ts_rfc5011 s) (ts_load_error s)).
Definition record_observation (s : TrustAnchorStore) (disk : ReadState) (zone : Name) (obs : Observation) (now : Z) (w : WriteState) : saved :=
  match ts_file s !! anchor_key zone with
  | None => (s, disk, true)
  | Some z => save (observed s zone z obs now) disk w
  end.
Definition record_failure (s : TrustAnchorStore) (zone : Name) (error : AnchorError) (now : Z) : TrustAnchorStore :=
  match ts_file s !! anchor_key zone with
  | None => s
  | Some z => mkStore (ts_path s) (<[anchor_key zone := mkZoneAnchors (za_keys z) (za_last_success z) (now + retry_interval 0 now now) error]> (ts_file s)) (ts_points s) (ts_rfc5011 s) (ts_load_error s)
  end.
Definition due (s : TrustAnchorStore) (now : Z) : list Name :=
  if negb (ts_rfc5011 s) then [] else omap (λ p, name_from_ascii p.1) (filter (λ p, za_next_refresh p.2 ≤ now) (file_zones (ts_file s))).
Definition lost_trust_points (s : TrustAnchorStore) : list Name :=
  filter (λ n, existsb (λ p, Name_eqb p.1 n) (ts_points s) = false)
    (omap (λ p, name_from_ascii p.1) (filter (λ p, existsb (λ k, bool_decide (ak_state k = Revoked)) (za_keys p.2) = true) (file_zones (ts_file s)))).

(** ** A refresh *)
(** The key with the REVOKE bit clear. *)
Definition cleared (k : DNSKEY) : DNSKEY := mkDNSKEY (Z.clearbit (flags k) 7) (key_algorithm k) (public_key k).
Definition revocation (tp : TrustPoint) (records sigs : list DRecord) (zone : Name) (now : Z) (k : DNSKEY) : option (DNSKEY * VerifiedSig) :=
  let trusted := bool_decide (cleared k ∈ tp_keys tp) || match match_ds zone [cleared k] (tp_ds tp) with Matched _ => true | _ => false end in
  if trusted then pair (cleared k) <$> revoked_key_verifies records sigs k zone now else None.
Definition revocation_only (tp : TrustPoint) (records sigs : list DRecord) (keys : list DNSKEY) (zone : Name) (now : Z) : Observation + AnchorError :=
  match omap (revocation tp records sigs zone now) (filter (λ k, revoke k && secure_entry_point k = true) keys) with
  | [] => inr NotValidated
  | (k, v) :: rest =>
      let revoked := map fst ((k, v) :: rest) in
      inl (mkObservation revoked true (omap calculate_key_tag revoked) (v_original_ttl v) (v_expiration v))
  end.
Definition observe_key (records sigs : list DRecord) (zone : Name) (now : Z) (acc : list DNSKEY * list Z) (k : DNSKEY) : list DNSKEY * list Z :=
  let '(keys, revoked) := acc in
  if negb (revoke k) then (keys ++ [k], revoked)
  else if secure_entry_point k && revoked_key_signs records sigs k zone now then
    match calculate_key_tag (cleared k) with Some tag => (keys ++ [cleared k], revoked ++ [tag]) | None => acc end
  else acc.
(** From the fetched set and the trust points to the observation, or the reason to fail. *)
Definition observe (points : TrustPoints) (zone : Name) (fetched : FetchedSet + FetchError) (now : Z) : Observation + AnchorError :=
  match fetched with
  | inr _ => inr NetworkError
  | inl set =>
      let records := filter (λ r, Name_eqb (r_name r) zone && (record_type r =? TypeDNSKEY) = true) (f_answers set) in
      let sigs := filter (λ r, Name_eqb (r_name r) zone && match rrsig r with Some s => type_covered s =? TypeDNSKEY | None => false end = true) (f_answers set) in
      let keys := dnskeys records in
      match list_find (λ p, Name_eqb p.1 zone = true) points with
      | None => inr NoTrustedKey
      | Some (_, (_, tp)) =>
          let authorised := (match match_ds zone keys (tp_ds tp) with Matched k => k | _ => [] end) ++ filter (λ k, k ∈ tp_keys tp) keys in
          let now_unix := Z.max now 0 in
          match verify_rrset records sigs authorised zone now_unix with
          | Ok v =>
              let '(seen_keys, revoked) := foldl (observe_key records sigs zone now_unix) ([], []) keys in
              inl (mkObservation seen_keys true revoked (v_original_ttl v) (v_expiration v))
          | _ => revocation_only tp records sigs keys zone now_unix
          end
      end
  end.
Definition record_refresh (s : TrustAnchorStore) (disk : ReadState) (zone : Name) (o : Observation + AnchorError) (now : Z) (w : WriteState) : TrustAnchorStore * ReadState :=
  match o with
  | inr e => (record_failure s zone e now, disk)
  | inl obs =>
      let '(s', disk', ok) := record_observation s disk zone obs now w in
      if ok then (s', disk') else (record_failure s' zone Persisting now, disk')
  end.
Definition refresh_zone (s : TrustAnchorStore) (disk : ReadState) (zone : Name) (fetch : Name → Z → FetchedSet + FetchError) (now : Z) (w : WriteState) : TrustAnchorStore * ReadState :=
  record_refresh s disk zone (observe (ts_points s) zone (fetch zone TypeDNSKEY) now) now w.
End anchors.
