(* ===== verification/ValAnchorsThms.v ===== *)
(** * Trust anchors: what RFC 5011 promises

    Each key of a zone moves along the state table of RFC 5011 ([rfc5011]) or in a few ways beyond it ([beyond]); a
    key that was not configured is trusted only after it was seen through the hold-down; a revoked key is out while
    its hold-down lasts, and may come back afterwards; and in a world of zones that sign only what is theirs, every trust point ever published is right, whatever the network
    answers, however writes fail and engines restart. *)

From S2P Require Import Prelude.
From S2P Require Import GoText.
From S2P Require Import ZoneJournal.
From S2P Require Import DnsLib.
From S2P Require Import DnssecSign.
From S2P Require Import ValDenial.
From S2P Require Import ValZone.
From S2P Require Import ValVerify.
From S2P Require Import Validator.
From S2P Require Import ValChain.
From S2P Require Import ValAnchors.

(** ** Slots

    A key is known by its tag and algorithm; a zone has one entry for each. *)
Section slots.
Context `{NameLib} `{!DenialLib} `{!VerifyLib} `{!AnchorLib}.
Definition slot (k : AnchorKey) : Z * Z := (ak_key_tag k, ak_algorithm k).
Definition distinct (keys : list AnchorKey) : Prop := NoDup (map slot keys).
Fixpoint at_slot (t a : Z) (keys : list AnchorKey) : option AnchorKey :=
  match keys with [] => None | k :: keys => if same_slot t a k then Some k else at_slot t a keys end.

Lemma same_slot_true t a k : same_slot t a k = true ↔ slot k = (t, a).
Proof. unfold same_slot, slot. rewrite andb_true_iff, !Z.eqb_eq. split; [by intros [-> ->]|by intros [= -> ->]]. Qed.
Lemma in_slot_true t a s : in_slot t a s = true ↔ s.1 = (t, a).
Proof. unfold in_slot. destruct s as [[x y] k]. simpl. rewrite andb_true_iff, !Z.eqb_eq. split; [by intros [-> ->]|by intros [= -> ->]]. Qed.
Lemma at_slot_Some t a keys k : at_slot t a keys = Some k → k ∈ keys ∧ slot k = (t, a).
Proof.
  induction keys as [|x keys IH]; simpl; [done|]. destruct (same_slot t a x) eqn:E; [intros [= <-]; split; [by left|by apply same_slot_true]|]. intros (? & ?)%IH. split; [by right|done].
Qed.
Lemma at_slot_None t a keys : at_slot t a keys = None ↔ ∀ k, k ∈ keys → slot k ≠ (t, a).
Proof.
  induction keys as [|x keys IH]; simpl; [by split; [intros _ k ?%not_elem_of_nil|]|]. destruct (same_slot t a x) eqn:E.
  - apply same_slot_true in E. split; [done|]. intros Hn. by destruct (Hn x (list_elem_of_here _ _)).
  - rewrite IH. split; intros Hn k; [|intros Hk; apply Hn; by right]. intros [->|Hk]%elem_of_cons; [|by apply Hn]. intros Hs%same_slot_true. congruence.
Qed.
Lemma at_slot_elem keys k : distinct keys → k ∈ keys → at_slot (ak_key_tag k) (ak_algorithm k) keys = Some k.
Proof.
  induction keys as [|x keys IH]; simpl; intros Hd Hk; [by apply not_elem_of_nil in Hk|]. apply NoDup_cons in Hd as [Hx Hd]. apply elem_of_cons in Hk as [->|Hk].
  - assert (same_slot (ak_key_tag x) (ak_algorithm x) x = true) as -> by (by apply same_slot_true). done.
  - destruct (same_slot _ _ x) eqn:E; [|by apply IH]. apply same_slot_true in E. destruct Hx. apply list_elem_of_fmap. by exists k.
Qed.
Lemma existsb_slot t a keys : existsb (same_slot t a) keys = match at_slot t a keys with Some _ => true | None => false end.
Proof. induction keys as [|x keys IH]; simpl; [done|]. by destruct (same_slot t a x). Qed.
Lemma at_slot_app t a l k : at_slot t a (l ++ k) = match at_slot t a l with Some x => Some x | None => at_slot t a k end.
Proof. induction l as [|x l IH]; simpl; [done|]. by destruct (same_slot t a x). Qed.
Lemma at_slot_map f t a keys : (∀ k, slot (f k) = slot k) → at_slot t a (map f keys) = f <$> at_slot t a keys.
Proof. intros Hf. induction keys as [|x keys IH]; simpl; [done|]. assert (same_slot t a (f x) = same_slot t a x) as -> by (unfold same_slot; specialize (Hf x); unfold slot in Hf; congruence). by destruct (same_slot t a x). Qed.
Lemma at_slot_filter (P : AnchorKey → bool) t a keys : distinct keys → at_slot t a (filter (λ k, P k = true) keys) = k ← at_slot t a keys; if P k then Some k else None.
Proof.
  induction keys as [|x keys IH]; simpl; intros Hd; [done|]. apply NoDup_cons in Hd as [Hx Hd]. rewrite filter_cons. destruct (same_slot t a x) eqn:E.
  - simpl. destruct (P x) eqn:EP; [rewrite decide_True by done; simpl; by rewrite E|]. rewrite decide_False by congruence. apply at_slot_None. intros k [_ Hk]%list_elem_of_filter Hs.
    apply same_slot_true in E. apply Hx, list_elem_of_fmap. exists k. split; [congruence|done].
  - destruct (decide (P x = true)); simpl; [rewrite E|]; by apply IH.
Qed.
Lemma distinct_map f keys : (∀ k, slot (f k) = slot k) → distinct keys → distinct (map f keys).
Proof. intros Hf. unfold distinct. rewrite map_map. by rewrite (map_ext (λ k, slot (f k)) slot Hf). Qed.
Lemma distinct_filter (P : AnchorKey → Prop) `{∀ k, Decision (P k)} keys : distinct keys → distinct (filter P keys).
Proof.
  unfold distinct. induction keys as [|x keys IH]; simpl; [done|]. intros [Hx Hd]%NoDup_cons. rewrite filter_cons. destruct (decide (P x)); [|by apply IH]. simpl. apply NoDup_cons. split; [|by apply IH].
  intros (k & E & [_ Hk]%list_elem_of_filter)%list_elem_of_fmap. apply Hx, list_elem_of_fmap. by exists k.
Qed.
Lemma distinct_snoc keys k : existsb (same_slot (ak_key_tag k) (ak_algorithm k)) keys = false → distinct keys → distinct (keys ++ [k]).
Proof.
  rewrite existsb_slot. destruct (at_slot _ _ keys) eqn:E; [done|]. intros _ Hd. unfold distinct. rewrite map_app. simpl. apply NoDup_app. split_and!; [done| |by apply NoDup_singleton].
  intros s (x & Es & Hx)%list_elem_of_fmap Hk%list_elem_of_singleton. rewrite at_slot_None in E. apply (E x Hx). unfold slot in *. congruence.
Qed.

(** ** One observation, key by key *)
Lemma step_key_slot zone obs now k : slot (step_key zone obs now k) = slot k.
Proof. unfold step_key. repeat case_match; done. Qed.
Definition fresh (obs : Observation) (now t a : Z) : option AnchorKey :=
  if bool_decide (t ∈ ob_revoked obs) then None
  else (λ p, mkAnchorKey t a None (Some (b64 p.2.2)) AddPend (now + ADD_HOLD_DOWN) false) <$> list_find (λ s, in_slot t a s && negb (revoke s.2) = true) (seen obs).
Lemma add_seen_distinct obs now keys s : distinct keys → distinct (add_seen obs now keys s).
Proof. destruct s as [[t a] k]. intros Hd. simpl. destruct (existsb _ _) eqn:E; simpl; [done|]. destruct (_ && _); [|done]. by apply distinct_snoc. Qed.
Lemma at_slot_add obs now keys t a l :
  at_slot t a (foldl (add_seen obs now) keys l) = match at_slot t a keys with
    | Some k => Some k
    | None => if bool_decide (t ∈ ob_revoked obs) then None
        else (λ p, mkAnchorKey t a None (Some (b64 p.2.2)) AddPend (now + ADD_HOLD_DOWN) false) <$> list_find (λ s, in_slot t a s && negb (revoke s.2) = true) l
    end.
Proof.
  revert keys. induction l as [|[[t' a'] k] l IH]; intros keys; cbn [foldl list_find]; [destruct (at_slot t a keys); [done|]; by case_bool_decide|]. rewrite IH. simpl add_seen.
  destruct (decide ((t', a') = (t, a))) as [[= -> ->]|Hne].
  - rewrite existsb_slot. assert (in_slot t a (t, a, k) = true) as Es by (by apply in_slot_true). rewrite Es. destruct (at_slot t a keys) eqn:E; cbn [negb andb]; [by rewrite E|].
    destruct (revoke k) eqn:Er; cbn [negb andb]; [rewrite E; case_bool_decide; [done|]; rewrite decide_False by (cbn [snd andb]; by rewrite Er); by destruct (list_find _ l) as [[? ?]|]|].
    case_bool_decide; cbn [negb]; [by rewrite E|]. rewrite at_slot_app, E. cbn [at_slot]. assert (same_slot t a (mkAnchorKey t a None (Some (b64 k)) AddPend (now + ADD_HOLD_DOWN) false) = true) as -> by (by apply same_slot_true). rewrite decide_True by (cbn [snd andb]; by rewrite Er). done.
  - assert (in_slot t a (t', a', k) = false) as Es by (destruct (in_slot t a (t', a', k)) eqn:E; [|done]; by apply in_slot_true in E). rewrite Es. rewrite decide_False by done.
    assert (at_slot t a (if negb (existsb (same_slot t' a') keys) && negb (revoke k) && negb (bool_decide (t' ∈ ob_revoked obs))
      then keys ++ [mkAnchorKey t' a' None (Some (b64 k)) AddPend (now + ADD_HOLD_DOWN) false] else keys) = at_slot t a keys) as ->.
    { destruct (_ && _ && _); [|done]. rewrite at_slot_app. destruct (at_slot t a keys); [done|]. simpl. destruct (same_slot t a _) eqn:E; [|done]. by apply same_slot_true in E. }
    destruct (at_slot t a keys); [done|]. case_bool_decide; [done|]. by destruct (list_find _ l) as [[? ?]|].
Qed.
(** The entry of a slot after an observation depends on the entry before alone. *)
Lemma at_slot_apply z zone obs now t a : distinct (za_keys z) → ob_validated obs = true →
  at_slot t a (za_keys (apply_rfc5011 z zone obs now)) = match at_slot t a (za_keys z) with
    | Some k => if retained obs now (step_key zone obs now k) then Some (step_key zone obs now k) else fresh obs now t a
    | None => fresh obs now t a
    end.
Proof.
  intros Hd Hv. unfold apply_rfc5011. rewrite Hv. cbn [negb za_keys]. rewrite at_slot_add, at_slot_filter by (by apply distinct_map; [apply step_key_slot|]). rewrite at_slot_map by apply step_key_slot.
  unfold fresh. destruct (at_slot t a (za_keys z)); simpl; [|done]. by destruct (retained _ _ _).
Qed.
Lemma apply_distinct z zone obs now : distinct (za_keys z) → distinct (za_keys (apply_rfc5011 z zone obs now)).
Proof.
  intros Hd. unfold apply_rfc5011. destruct (negb _); [done|]. cbn [za_keys]. apply foldl_inv; [by apply distinct_filter, distinct_map; [apply step_key_slot|]|]. intros keys s _. apply add_seen_distinct.
Qed.
Lemma merge_distinct le now z dss : (∀ za, z = Some za → distinct (za_keys za)) → distinct (za_keys (merge_zone le now z dss)).
Proof.
  intros Hz. unfold merge_zone. cbn [za_keys]. apply foldl_inv.
  - apply distinct_filter. destruct z; [by apply Hz|apply NoDup_nil_2].
  - intros keys [[text t] a] _ Hd. simpl. destruct (existsb _ _) eqn:E; [done|]. by apply distinct_snoc.
Qed.
End slots.

(** ** The state table of RFC 5011

    On the entry of a pair of key tag and algorithm, before and after an observation.  A key counts if it has the
    SEP and the zone key flag; it is that of an entry if it has the entry's tag and algorithm and, once the
    entry has a key, is that very key.  Revocations are observed by tag. *)
Section rows.
Context {NL : NameLib} {DL : DenialLib} {VL : VerifyLib} {AL : AnchorLib}.
(** The first element with a property. *)
Definition first_with {X} (P : X → Prop) (l : list X) (x : X) : Prop := ∃ l1 l2, l = l1 ++ x :: l2 ∧ P x ∧ ∀ y, y ∈ l1 → ¬ P y.
Definition is_sep (t a : Z) (k : DNSKEY) : Prop := Z.testbit (flags k) 0 = true ∧ Z.testbit (flags k) 8 = true ∧ calculate_key_tag k = Some t ∧ key_algorithm k = a.
Definition shows (e : AnchorKey) (k : DNSKEY) : Prop := is_sep (ak_key_tag e) (ak_algorithm e) k ∧ match ak_dnskey_b64 e with Some b => b = b64 k | None => True end.
Definition no_key (obs : Observation) (P : DNSKEY → Prop) : Prop := ∀ k, k ∈ ob_dnskeys obs → ¬ P k.
Definition first_key (obs : Observation) (P : DNSKEY → Prop) (k : DNSKEY) : Prop := first_with P (ob_dnskeys obs) k.
(** The DS text is that of the key. *)
Definition is_ds_of (zone : Name) (text : bytes) (k : DNSKEY) : Prop :=
  ∃ t a dt dg, parse_ds text = Some (t, a, dt, dg) ∧ calculate_key_tag k = Some t ∧ key_algorithm k = a ∧ to_digest k zone dt = Some dg.
Definition moved (e : AnchorKey) (st : KeyState) (until : Z) : AnchorKey := mkAnchorKey (ak_key_tag e) (ak_algorithm e) (ak_ds e) (ak_dnskey_b64 e) st until (ak_from_config e).

(** The rows of the table (RFC 5011, 4.1), and where an entry stays. *)
Inductive rfc5011 (obs : Observation) (now t a : Z) : option AnchorKey → option AnchorKey → Prop :=
  | NewKey k : first_key obs (is_sep t a) k → t ∉ ob_revoked obs → rfc5011 obs now t a None (Some (mkAnchorKey t a None (Some (b64 k)) AddPend (now + 30 * 86400) false))
  | NoKey : no_key obs (is_sep t a) ∨ t ∈ ob_revoked obs → rfc5011 obs now t a None None
  | PendRem e : ak_state e = AddPend → no_key obs (is_sep t a) → rfc5011 obs now t a (Some e) None
  | PendWait e k : ak_state e = AddPend → first_key obs (shows e) k → t ∉ ob_revoked obs → now < ak_hold_down_until e → rfc5011 obs now t a (Some e) (Some e)
  | AddTime e k : ak_state e = AddPend → first_key obs (shows e) k → t ∉ ob_revoked obs → ak_hold_down_until e ≤ now → rfc5011 obs now t a (Some e) (Some (moved e KValid (ak_hold_down_until e)))
  | ValidRem e : ak_state e = KValid → no_key obs (shows e) → rfc5011 obs now t a (Some e) (Some (moved e Missing (ak_hold_down_until e)))
  | ValidPres e k : ak_state e = KValid → first_key obs (shows e) k → t ∉ ob_revoked obs → rfc5011 obs now t a (Some e) (Some e)
  | MissingPres e k : ak_state e = Missing → first_key obs (shows e) k → t ∉ ob_revoked obs → rfc5011 obs now t a (Some e) (Some (moved e KValid (ak_hold_down_until e)))
  | MissingRem e : ak_state e = Missing → no_key obs (shows e) → rfc5011 obs now t a (Some e) (Some e)
  | RevBit e k : ak_state e = KValid ∨ ak_state e = Missing → first_key obs (shows e) k → t ∈ ob_revoked obs → rfc5011 obs now t a (Some e) (Some (moved e Revoked (now + 30 * 86400)))
  | RevWait e : ak_state e = Revoked → now < ak_hold_down_until e → rfc5011 obs now t a (Some e) (Some e)
  | RemTime e : ak_state e = Revoked → ak_hold_down_until e ≤ now → no_key obs (is_sep t a) ∨ t ∈ ob_revoked obs → rfc5011 obs now t a (Some e) None.
(** What the code does beyond the table: configured anchors that were not seen yet; a pending key that is revoked; a pending key that is gone
    while another key has its tag and algorithm; a removed key whose tag and algorithm a key has again. *)
Inductive beyond (zone : Name) (obs : Observation) (now t a : Z) : option AnchorKey → option AnchorKey → Prop :=
  | ConfiguredPres e k : ak_state e = Configured → first_key obs (shows e) k → t ∉ ob_revoked obs → (∀ text, ak_ds e = Some text → is_ds_of zone text k) →
      beyond zone obs now t a (Some e) (Some (mkAnchorKey (ak_key_tag e) (ak_algorithm e) (ak_ds e) (Some (b64 k)) KValid (ak_hold_down_until e) (ak_from_config e)))
  | ConfiguredWait e : ak_state e = Configured → no_key obs (shows e) → beyond zone obs now t a (Some e) (Some e)
  | ConfiguredOther e k text : ak_state e = Configured → first_key obs (shows e) k → t ∉ ob_revoked obs → ak_ds e = Some text → ¬ is_ds_of zone text k → beyond zone obs now t a (Some e) (Some e)
  | EarlyRevBit e k : ak_state e = Configured ∨ ak_state e = AddPend → first_key obs (shows e) k → t ∈ ob_revoked obs → beyond zone obs now t a (Some e) (Some (moved e Revoked (now + 30 * 86400)))
  | PendOther e k : ak_state e = AddPend → no_key obs (shows e) → first_key obs (is_sep t a) k → beyond zone obs now t a (Some e) (Some e)
  | Again e k : ak_state e = Revoked → ak_hold_down_until e ≤ now → first_key obs (is_sep t a) k → t ∉ ob_revoked obs →
      beyond zone obs now t a (Some e) (Some (mkAnchorKey t a None (Some (b64 k)) AddPend (now + 30 * 86400) false)).

Lemma first_with_fun {X} (P : X → Prop) l x y : first_with P l x → first_with P l y → x = y.
Proof.
  intros (l1 & l2 & -> & Hx & Hn) (k1 & k2 & E & Hy & Hm). revert k1 E Hm. induction l1 as [|z l1 IH]; intros [|w k1] E Hm; simpl in E.
  - congruence.
  - injection E as <- _. by destruct (Hm x); [left|].
  - injection E as <- _. by destruct (Hn z); [left|].
  - injection E as <- E. apply (IH (λ v Hv, Hn v (list_elem_of_further _ _ _ Hv)) k1 E). intros v Hv. apply Hm. by right.
Qed.
Lemma first_with_elem {X} (P : X → Prop) l x : first_with P l x → x ∈ l ∧ P x.
Proof. intros (l1 & l2 & -> & Hx & _). split; [|done]. apply elem_of_app. right. by left. Qed.
(** The two tables leave no choice. *)
Lemma table_fun zone obs now t a e x y : (∀ k, e = Some k → slot k = (t, a)) → rfc5011 obs now t a e x ∨ beyond zone obs now t a e x → rfc5011 obs now t a e y ∨ beyond zone obs now t a e y → x = y.
Proof.
  intros He. assert (∀ P k, first_key obs P k → no_key obs P → False) as Ha by (intros P k [Hk HP]%first_with_elem Hn; by eapply Hn).
  assert (∀ P k k', first_key obs P k → first_key obs P k' → k = k') as Hf by (intros P k k'; apply first_with_fun).
  assert (∀ e' k, e = Some e' → first_key obs (shows e') k → no_key obs (is_sep t a) → False) as Hs.
  { intros e' k E [Hk [HP _]]%first_with_elem Hn. specialize (He _ E). unfold slot in He. injection He as <- <-. by eapply Hn. }
  intros Hx Hy. destruct Hx as [Hx|Hx], Hy as [Hy|Hy]; inversion Hx; subst; inversion Hy; subst;
    repeat match goal with H : _ ∨ _ |- _ => destruct H end; try congruence; try lia; try (exfalso; eauto 2; fail);
    try (exfalso; eapply Hs; eauto; fail);
    repeat match goal with H : first_key obs ?P ?k, H' : first_key obs ?P ?k' |- _ => pose proof (Hf P k k' H H'); clear H'; subst end; try done; exfalso; eauto.
Qed.
End rows.

Section table.
Context {NL : NameLib} {NLaws : NameLaws} {DL : DenialLib} {VL : VerifyLib} {AL : AnchorLib}.
Definition present (obs : Observation) (t a : Z) : bool := existsb (in_slot t a) (seen obs).
Definition unflagged (obs : Observation) : Prop := ∀ k, k ∈ ob_dnskeys obs → revoke k = false.

Lemma seen_elem obs s : s ∈ seen obs → s.2 ∈ ob_dnskeys obs ∧ calculate_key_tag s.2 = Some s.1.1 ∧ key_algorithm s.2 = s.1.2.
Proof. unfold seen. intros (k & [_ Hk]%list_elem_of_filter & (t & Ht & ->)%fmap_Some)%list_elem_of_omap. done. Qed.
Lemma key_hit_Some l key k : key_hit l key = Some k → (slot key, k) ∈ l ∧ (∀ b, ak_dnskey_b64 key = Some b → b = b64 k).
Proof.
  unfold key_hit. intros ((i & s) & E & ->)%fmap_Some. apply list_find_Some in E as (Hi & HP & _). apply andb_true_iff in HP as [Hs Hb]. apply in_slot_true in Hs. destruct s as [ta k]. simpl in *.
  split; [unfold slot; rewrite <- Hs; by eapply list_elem_of_lookup_2|]. intros b E. rewrite E in Hb. by apply bool_decide_eq_true in Hb.
Qed.
Lemma present_true obs t a : present obs t a = true ↔ ∃ k, (t, a, k) ∈ seen obs.
Proof.
  unfold present. rewrite existsb_exists. split.
  - intros ([ta k] & Hin & Hs%in_slot_true). simpl in Hs. subst ta. exists k. by apply list_elem_of_In.
  - intros [k Hk]. exists (t, a, k). split; [by apply list_elem_of_In|by apply in_slot_true].
Qed.
Lemma fresh_Some obs now t a k : fresh obs now t a = Some k → t ∉ ob_revoked obs ∧ ∃ key, (t, a, key) ∈ seen obs ∧ k = mkAnchorKey t a None (Some (b64 key)) AddPend (now + ADD_HOLD_DOWN) false.
Proof.
  unfold fresh. case_bool_decide; [done|]. intros ((i & [ta key]) & E & ->)%fmap_Some. apply list_find_Some in E as (Hi & HP & _). apply andb_true_iff in HP as [Hs%in_slot_true _]. simpl in Hs. subst ta.
  split; [done|]. exists key. split; [by eapply list_elem_of_lookup_2|done].
Qed.
(** Looking through the keys seen is looking through the key set. *)
Lemma seen_find (f : seen_key → bool) (P : DNSKEY → Prop) obs : (∀ k t, calculate_key_tag k = Some t → secure_entry_point k && zone_key k = true → f (t, key_algorithm k, k) = true ↔ P k) →
  (∀ k, P k → secure_entry_point k && zone_key k = true ∧ is_Some (calculate_key_tag k)) →
  match list_find (λ s, f s = true) (seen obs) with Some (_, s) => first_key obs P s.2 | None => no_key obs P end.
Proof.
  intros Hf HP. unfold first_key, no_key, seen. induction (ob_dnskeys obs) as [|k l IH]; [by intros k ?%not_elem_of_nil|].
  assert (¬ P k → match list_find (λ s, f s = true) (omap (λ k, (λ t, (t, key_algorithm k, k)) <$> calculate_key_tag k) (filter (λ k, secure_entry_point k && zone_key k = true) l)) with
    Some (_, s) => first_with P (k :: l) s.2 | None => ∀ x, x ∈ k :: l → ¬ P x end) as Hskip.
  { intros Hk. destruct (list_find _ _) as [[i s]|]; [|intros x [->|Hx]%elem_of_cons; auto]. destruct IH as (l1 & l2 & -> & Hs & Hn). exists (k :: l1), l2. split_and!; [done|done|]. intros y [->|Hy]%elem_of_cons; auto. }
  rewrite filter_cons. case_decide as Hs; [|apply Hskip; intros Hk; by apply HP in Hk as []]. cbn [omap list_omap]. destruct (calculate_key_tag k) as [t|] eqn:Et; cbn [fmap option_fmap option_map]; [|apply Hskip; intros Hk; apply HP in Hk as [_ [? ?]]; congruence].
  cbn [list_find]. case_decide as Hk; [exists [], l; split_and!; [done|by apply (Hf k t)|by intros ? ?%not_elem_of_nil]|].
  rewrite <- (Hf k t Et Hs) in Hskip. specialize (Hskip Hk). destruct (list_find _ _) as [[i s]|]; done.
Qed.
Lemma sep_bits t a k : is_sep t a k → secure_entry_point k && zone_key k = true ∧ is_Some (calculate_key_tag k).
Proof. unfold is_sep, secure_entry_point, zone_key. intros (-> & -> & -> & _). split; [done|eauto]. Qed.
Lemma in_slot_sep t a t' k : calculate_key_tag k = Some t' → secure_entry_point k && zone_key k = true → in_slot t a (t', key_algorithm k, k) = true ↔ is_sep t a k.
Proof. unfold is_sep, secure_entry_point, zone_key. intros -> [-> ->]%andb_true_iff. rewrite in_slot_true. simpl. naive_solver. Qed.
Lemma key_hit_there obs e : match key_hit (seen obs) e with Some k => first_key obs (shows e) k | None => no_key obs (shows e) end.
Proof.
  unfold key_hit. pose proof (seen_find (λ s, in_slot (ak_key_tag e) (ak_algorithm e) s && match ak_dnskey_b64 e with None => true | Some b => bool_decide (b = b64 s.2) end) (shows e) obs) as H.
  destruct (list_find _ _) as [[i s]|]; simpl; apply H; try (by intros k [? _]; eapply sep_bits); intros k t Ht Hs; rewrite andb_true_iff, (in_slot_sep _ _ t k Ht Hs); unfold shows; simpl; destruct (ak_dnskey_b64 e); rewrite ?bool_decide_eq_true; tauto.
Qed.
Lemma present_there obs t a : if present obs t a then ∃ k, first_key obs (is_sep t a) k else no_key obs (is_sep t a).
Proof.
  pose proof (seen_find (in_slot t a) (is_sep t a) obs (λ k t', in_slot_sep t a t' k) (sep_bits t a)) as H. destruct (present obs t a) eqn:Ep.
  - apply present_true in Ep as [k Hk]. destruct (list_find _ _) as [[i s]|] eqn:E; [eauto|]. apply list_find_None in E. rewrite Forall_forall in E. destruct (E _ Hk). by apply in_slot_true.
  - destruct (list_find _ _) as [[i s]|] eqn:E; [|done]. apply list_find_Some in E as (Hi & Hs & _). apply not_true_iff_false in Ep. destruct Ep. apply present_true. exists s.2. apply in_slot_true in Hs. rewrite <- Hs. destruct s. by eapply list_elem_of_lookup_2.
Qed.
(** A slot without an entry. *)
Lemma fresh_there obs now t a : unflagged obs → match fresh obs now t a with
  | Some e => t ∉ ob_revoked obs ∧ ∃ k, first_key obs (is_sep t a) k ∧ e = mkAnchorKey t a None (Some (b64 k)) AddPend (now + 30 * 86400) false
  | None => no_key obs (is_sep t a) ∨ t ∈ ob_revoked obs
  end.
Proof.
  intros Hu. unfold fresh. case_bool_decide as Er; [by right|].
  pose proof (seen_find (λ s, in_slot t a s && negb (revoke s.2)) (λ k, is_sep t a k ∧ revoke k = false) obs) as H.
  specialize (H ltac:(intros k t' Ht Hs; by rewrite andb_true_iff, (in_slot_sep _ _ t' k Ht Hs), negb_true_iff) ltac:(intros k [Hk _]; by eapply sep_bits)).
  destruct (list_find _ _) as [[i s]|]; cbn [fmap option_fmap option_map snd].
  - destruct H as (l1 & l2 & El & [Hs Hr] & Hn). split; [done|]. exists s.2. split; [|done]. exists l1, l2. split_and!; [done|done|]. intros y Hy Hsep. apply (Hn y Hy). split; [done|]. apply Hu. rewrite El. apply elem_of_app. by left.
  - left. intros k Hk Hsep. apply (H k Hk). split; [done|by apply Hu].
Qed.
Lemma fresh_table obs now t a : unflagged obs → rfc5011 obs now t a None (fresh obs now t a).
Proof. intros Hu. pose proof (fresh_there obs now t a Hu) as H. destruct (fresh obs now t a); [destruct H as (Hr & k & Hk & ->); by apply NewKey|by apply NoKey]. Qed.
Lemma ds_matches_spec text zone k : ds_matches text zone k = true ↔ is_ds_of zone text k.
Proof.
  unfold ds_matches, is_ds_of. destruct (parse_ds text) as [[[[t a] dt] dg]|]; [|naive_solver]. rewrite !andb_true_iff, bool_decide_eq_true, Z.eqb_eq. destruct (to_digest k zone dt) as [d|] eqn:Ed; [rewrite bool_decide_eq_true|]; naive_solver.
Qed.
Lemma retained_spec obs now k : retained obs now k = match ak_state k with AddPend => present obs (ak_key_tag k) (ak_algorithm k) | Revoked => now <? ak_hold_down_until k | _ => true end.
Proof.
  unfold retained, present. destruct (ak_state k); repeat (rewrite bool_decide_false by done); repeat (rewrite bool_decide_true by done); simpl; try done; [by rewrite negb_involutive, andb_true_r|]. by rewrite Z.leb_antisym, negb_involutive.
Qed.
(** A slot with an entry. *)
Lemma forgotten_table zone obs now t a e : ak_state e = Revoked → ak_hold_down_until e ≤ now → unflagged obs →
  rfc5011 obs now t a (Some e) (fresh obs now t a) ∨ beyond zone obs now t a (Some e) (fresh obs now t a).
Proof. intros Hs Hn Hu. pose proof (fresh_there obs now t a Hu) as H. destruct (fresh obs now t a); [right; destruct H as (Hr & k & Hk & ->); by apply Again|left; by apply RemTime]. Qed.
Lemma step_table zone obs now t a k : slot k = (t, a) → unflagged obs → let after := if retained obs now (step_key zone obs now k) then Some (step_key zone obs now k) else fresh obs now t a in
  rfc5011 obs now t a (Some k) after ∨ beyond zone obs now t a (Some k) after.
Proof.
  intros Hs Hu after. pose proof Hs as [= Et Ea]. subst after. rewrite retained_spec. unfold step_key. rewrite Et.
  pose proof (key_hit_there obs k) as Hh. pose proof (present_there obs t a) as Hp. destruct (key_hit (seen obs) k) as [key|] eqn:Eh.
  - assert (present obs t a = true) as Ep by (apply present_true; exists key; rewrite <- Hs; by apply (key_hit_Some _ _ _ Eh)).
    destruct (bool_decide (t ∈ ob_revoked obs)) eqn:Er; [apply bool_decide_eq_true in Er|apply bool_decide_eq_false in Er]; destruct (ak_state k) eqn:Es; cbn [andb negb]; rewrite ?bool_decide_false by done; rewrite ?bool_decide_true by done; cbn [andb negb ak_state ak_hold_down_until];
      rewrite ?Es; try (assert (now <? now + REMOVE_HOLD_DOWN = true) as -> by (unfold REMOVE_HOLD_DOWN; lia)).
    + right. rewrite <- Et. apply (EarlyRevBit _ _ _ _ _ _ key); [by left|done|by rewrite Et].
    + right. rewrite <- Et. apply (EarlyRevBit _ _ _ _ _ _ key); [by right|done|by rewrite Et].
    + left. rewrite <- Et. apply (RevBit _ _ _ _ _ key); [by left|done|by rewrite Et].
    + left. rewrite <- Et. apply (RevBit _ _ _ _ _ key); [by right|done|by rewrite Et].
    + destruct (Z.ltb_spec now (ak_hold_down_until k)); [left; by apply RevWait|by apply forgotten_table].
    + right. destruct (ak_ds k) as [d|] eqn:Ed; [destruct (ds_matches d zone key) eqn:Em|]; cbn [ak_state]; rewrite ?Es.
      * rewrite <- Ed, <- Et. apply ConfiguredPres; [done|done|by rewrite Et|]. rewrite Ed. intros text [= <-]. by apply ds_matches_spec.
      * apply (ConfiguredOther _ _ _ _ _ _ key d); try done. rewrite <- ds_matches_spec. by rewrite Em.
      * rewrite <- Ed, <- Et. apply ConfiguredPres; [done|done|by rewrite Et|]. by rewrite Ed.
    + left. destruct (Z.leb_spec (ak_hold_down_until k) now); cbn [ak_state with_state]; rewrite ?Es, ?Et, ?Ea, ?Ep; [apply (AddTime _ _ _ _ _ key); done|apply (PendWait _ _ _ _ _ key); done].
    + left. by apply (ValidPres _ _ _ _ _ key).
    + left. by apply (MissingPres _ _ _ _ _ key).
    + destruct (Z.ltb_spec now (ak_hold_down_until k)); [left; by apply RevWait|by apply forgotten_table].
  - destruct (ak_state k) eqn:Es; cbn [ak_state with_state]; rewrite ?Es.
    + right. by apply ConfiguredWait.
    + rewrite Et, Ea. destruct (present obs t a) eqn:Ep; [right; destruct Hp as [key Hkey]; by apply (PendOther _ _ _ _ _ _ key)|]. left. destruct (fresh obs now t a) as [f|] eqn:Ef; [|by apply PendRem].
      apply fresh_Some in Ef as (_ & key & Hk & _). assert (present obs t a = true) by (apply present_true; by exists key). congruence.
    + left. by apply ValidRem.
    + left. by apply MissingRem.
    + destruct (Z.ltb_spec now (ak_hold_down_until k)); [left; by apply RevWait|by apply forgotten_table].
Qed.
End table.

(** ** What a refresh observes *)
Section observe.
Context {NL : NameLib} {NLaws : NameLaws} {DL : DenialLib} {VL : VerifyLib} {AL : AnchorLib}.
Lemma cleared_revoke k : revoke (cleared k) = false.
Proof. unfold revoke, cleared. cbn [flags]. by apply Z.clearbit_eq. Qed.
(** Every observed key is one of the fetched set, or the cleared form of one that is revoked. *)
Definition from_keys (keys : list DNSKEY) (acc : list DNSKEY * list Z) : Prop :=
  ∀ k, k ∈ acc.1 → revoke k = false ∧ (k ∈ keys ∨ ∃ t, calculate_key_tag k = Some t ∧ t ∈ acc.2).
Lemma observe_keys records sigs zone now keys : from_keys keys (foldl (observe_key records sigs zone now) ([], []) keys).
Proof.
  apply foldl_inv; [by intros k ?%not_elem_of_nil|]. intros [observed revoked] k Hk Ha. unfold observe_key. destruct (revoke k) eqn:Er; cbn [negb].
  - destruct (secure_entry_point k && _); [|done]. destruct (calculate_key_tag (cleared k)) as [t|] eqn:Et; [|done]. intros x. simpl. rewrite elem_of_app, list_elem_of_singleton. intros [Hx| ->].
    + destruct (Ha x Hx) as [? [?|(t' & ? & ?)]]; split; try done; [by left|]. right. exists t'. split; [done|]. apply elem_of_app. by left.
    + split; [apply cleared_revoke|]. right. exists t. split; [done|]. apply elem_of_app. right. by left.
  - intros x. simpl. rewrite elem_of_app, list_elem_of_singleton. intros [Hx| ->]; [by apply Ha|]. split; [done|by left].
Qed.
Lemma revocation_only_spec tp records sigs keys zone now obs : revocation_only tp records sigs keys zone now = inl obs →
  ob_validated obs = true ∧ ∀ k, k ∈ ob_dnskeys obs → revoke k = false ∧ ∀ t, calculate_key_tag k = Some t → t ∈ ob_revoked obs.
Proof.
  unfold revocation_only. set (l := omap _ _). intros E. assert (ob_validated obs = true ∧ ob_dnskeys obs = map fst l ∧ ob_revoked obs = omap calculate_key_tag (map fst l)) as (-> & -> & ->).
  { destruct l as [|[k v] rest]; [done|]. by injection E as <-. }
  split; [done|]. intros k Hk. split.
  - apply list_elem_of_fmap in Hk as ([k' v] & -> & Hk). apply list_elem_of_omap in Hk as (k1 & _ & Hr). unfold revocation in Hr. destruct (_ || _); [|done]. apply fmap_Some in Hr as (v' & _ & [= -> ->]). apply cleared_revoke.
  - intros t Ht. apply list_elem_of_omap. by exists k.
Qed.
(** The two ways to an observation: the set verified with the trusted keys, or trusted keys revoke themselves. *)
Lemma observe_spec points zone fetched now obs : observe points zone fetched now = inl obs →
  ob_validated obs = true ∧ unflagged obs ∧ ∃ set tp n, fetched = inl set ∧ (n, tp) ∈ points ∧ path n = path zone ∧
    let records := filter (λ r, Name_eqb (r_name r) zone && (record_type r =? TypeDNSKEY) = true) (f_answers set) in
    ((∃ sigs keys v, verify_rrset records sigs ((match match_ds zone (dnskeys records) (tp_ds tp) with Matched k => k | _ => [] end) ++ filter (λ k, k ∈ tp_keys tp) keys) zone (Z.max now 0) = Ok v ∧
       ∀ k, k ∈ ob_dnskeys obs → k ∈ dnskeys records ∨ ∃ t, calculate_key_tag k = Some t ∧ t ∈ ob_revoked obs) ∨
     ∀ k t, k ∈ ob_dnskeys obs → calculate_key_tag k = Some t → t ∈ ob_revoked obs).
Proof.
  unfold observe. destruct fetched as [set|]; [|done]. destruct (list_find _ points) as [[i [n tp]]|] eqn:Ef; [|done]. apply list_find_Some in Ef as (Hi%list_elem_of_lookup_2 & Hn%eqb_true & _). cbn [fst] in Hn.
  set (records := filter _ _). set (sigs := filter _ _). destruct (verify_rrset _ _ _ _ _) as [v| | |] eqn:Ev.
  - pose proof (observe_keys records sigs zone (Z.max now 0) (dnskeys records)) as Hk. destruct (foldl _ _ _) as [observed revoked]. intros [= <-]. split; [done|]. split; [intros k ?; by apply Hk|].
    exists set, tp, n. split_and!; try done. left. exists sigs, (dnskeys records), v. split; [done|]. intros k ?. by apply Hk.
  - intros (Hv & Hk)%revocation_only_spec. split; [done|]. split; [intros k ?; by apply Hk|]. exists set, tp, n. split_and!; try done. right. intros k t Hin. by apply Hk.
  - intros (Hv & Hk)%revocation_only_spec. split; [done|]. split; [intros k ?; by apply Hk|]. exists set, tp, n. split_and!; try done. right. intros k t Hin. by apply Hk.
  - intros (Hv & Hk)%revocation_only_spec. split; [done|]. split; [intros k ?; by apply Hk|]. exists set, tp, n. split_and!; try done. right. intros k t Hin. by apply Hk.
Qed.
End observe.

(** ** Every state the store can reach *)
Class AnchorLaws `{AL : AnchorLib} `{!VerifyLib} : Prop := {
  ascii_back : ∀ n, ∃ m, name_from_ascii (name_to_ascii n) = Some m ∧ path m = path n;
  ascii_path : ∀ a b, path a = path b → name_to_ascii (to_lowercase a) = name_to_ascii (to_lowercase b);
  json_back : ∀ f b, file_to_json f = Some b → file_from_json b = Some f;
  base64_back : ∀ b, base64_decode (base64_encode b) = Some b;
  (** The wire form of RFC 4034, 2.1. *)
  dnskey_bytes : ∀ k b, dnskey_to_bytes k = Some b → is_u16 (flags k) ∧ b = put16 (flags k) ++ [3; key_algorithm k] ++ public_key k;
  (** A digest is over the canonical form of the name. *)
  covers_path : ∀ d n m k, path n = path m → ds_covers d n k = ds_covers d m k;
}.
(** The observations behind a file: zone, time, what was seen. *)
Notation hist := (list (bytes * Z * Observation)).

Section reach.
Context {NL : NameLib} {NLaws : NameLaws} {DL : DenialLib} {VL : VerifyLib} {AL : AnchorLib}.
Context (cfg : list TrustAnchor → Prop).
Definition on_disk (s : TrustAnchorStore) (w : WriteState) (h dh : hist) : hist :=
  if ts_path s then match file_to_json (ts_file s), w with Some _, Written | Some _, WrittenUnsynced => h | _, _ => dh end else dh.
(** A store with its history, and the file with the history of its content: merges and refreshes in any order, with trust points taken at
    any earlier time and writes that may fail; restarts; a lost or damaged file; and two processes that share the file. *)
Inductive areach : TrustAnchorStore → hist → ReadState → hist → Prop :=
  | ar_new path : areach (store_open path NotFound) [] NotFound []
  | ar_restart s h d dh : areach s h d dh → areach (store_open true d) dh d dh
  | ar_lost s h d dh path d' : areach s h d dh → d' = NotFound ∨ d' = Unreadable ∨ (∃ b, d' = Content b ∧ file_from_json b = None) → areach (store_open path d') [] d' []
  | ar_share s h d dh s' h' d' dh' : areach s h d dh → areach s' h' d' dh' → areach s h d' dh'
  | ar_merge s h d dh anchors rfc now w s' d' ok : areach s h d dh → cfg anchors → merge_config s d anchors rfc now w = (s', d', ok) →
      areach s' h d' (on_disk (merged s anchors rfc now) w h dh)
  | ar_refresh s h d dh s0 h0 d0 dh0 zone z fetched obs now w s' d' : areach s h d dh → areach s0 h0 d0 dh0 → observe (ts_points s0) zone fetched now = inl obs →
      ts_file s !! anchor_key zone = Some z → record_refresh s d zone (inl obs) now w = (s', d') →
      areach s' (h ++ [(anchor_key zone, now, obs)]) d' (on_disk (observed s zone z obs now) w (h ++ [(anchor_key zone, now, obs)]) dh)
  | ar_failure s h d dh zone e now : areach s h d dh → areach (record_failure s zone e now) h d dh.

(** Files with the same keys. *)
Definition same_keys (f g : AnchorFile) : Prop := ∀ key, za_keys <$> f !! key = za_keys <$> g !! key.
Lemma failure_keys s zone e now : same_keys (ts_file (record_failure s zone e now)) (ts_file s) ∧ ts_points (record_failure s zone e now) = ts_points s.
Proof.
  unfold record_failure. destruct (ts_file s !! anchor_key zone) as [z|] eqn:E; [|done]. split; [|done]. intros key. cbn [ts_file]. destruct (decide (key = anchor_key zone)) as [->|]; [by rewrite lookup_insert_eq, E|by rewrite lookup_insert_ne].
Qed.
Lemma save_spec s disk w s' disk' ok : save s disk w = (s', disk', ok) → same_keys (ts_file s') (ts_file s) ∧ ts_points s' = ts_points s ∧
  (∀ h dh, (on_disk s w h dh = dh ∧ disk' = disk) ∨ (on_disk s w h dh = h ∧ ∃ b, disk' = Content b ∧ file_to_json (ts_file s) = Some b)).
Proof.
  assert (same_keys (set_error Persisting <$> ts_file s) (ts_file s)) as Hs by (intros key; rewrite lookup_fmap; by destruct (ts_file s !! key)).
  unfold save, on_disk. destruct (ts_path s); cbn [negb]; [|intros [= <- <- <-]; split_and!; [done|done|by left]].
  destruct (file_to_json (ts_file s)) as [b|] eqn:E; destruct w; intros [= <- <- <-]; cbn [ts_file ts_points]; split_and!; try done; intros h dh; first [by left|right; split; [done|by exists b]].
Qed.

(** *** An invariant of keys and points *)
Context `{!AnchorLaws}.
Context (P : bytes → hist → AnchorKey → Prop) (Q : TrustPoints → Prop).
Definition file_inv (f : AnchorFile) (h : hist) : Prop := ∀ key z k, f !! key = Some z → k ∈ za_keys z → P key h k.
Context (P_other : ∀ key key' h now obs k, key ≠ key' → P key h k → P key (h ++ [(key', now, obs)]) k).
Context (P_config : ∀ anchors a zone tag alg dt dg h, cfg anchors → a ∈ anchors → name_from_ascii (ta_zone a) = Some zone → parse_ds (ta_ds a) = Some (tag, alg, dt, dg) →
  P (anchor_key zone) h (mkAnchorKey tag alg (Some (ta_ds a)) None Configured 0 true)).
Context (P_step : ∀ points zone fetched now obs h k, Q points → observe points zone fetched now = inl obs → P (anchor_key zone) h k → retained obs now (step_key zone obs now k) = true →
  P (anchor_key zone) (h ++ [(anchor_key zone, now, obs)]) (step_key zone obs now k)).
Context (P_fresh : ∀ points zone fetched now obs h t a k, Q points → observe points zone fetched now = inl obs → (t, a, k) ∈ seen obs → t ∉ ob_revoked obs →
  P (anchor_key zone) (h ++ [(anchor_key zone, now, obs)]) (mkAnchorKey t a None (Some (b64 k)) AddPend (now + ADD_HOLD_DOWN) false)).
Context (P_points : ∀ rfc f h, file_inv f h → Q (points_of rfc f)).

Lemma file_inv_same f g h : same_keys f g → file_inv g h → file_inv f h.
Proof. intros Hs Hg key z k E Hk. specialize (Hs key). rewrite E in Hs. destruct (g !! key) as [z'|] eqn:E'; [|done]. injection Hs as Hs. apply (Hg key z' k E'). by rewrite <- Hs. Qed.
Lemma configured_elem anchors key dss d : configured anchors !! key = Some dss → d ∈ dss → ∃ a zone dt dg, a ∈ anchors ∧ name_from_ascii (ta_zone a) = Some zone ∧ key = anchor_key zone ∧
  parse_ds (ta_ds a) = Some (d.1.2, d.2, dt, dg) ∧ d.1.1 = ta_ds a.
Proof.
  unfold configured. revert key dss d. apply (foldl_inv (λ m : gmap bytes (list (bytes * Z * Z)), ∀ key dss d, m !! key = Some dss → d ∈ dss → ∃ a zone dt dg, a ∈ anchors ∧ name_from_ascii (ta_zone a) = Some zone ∧ key = anchor_key zone ∧
    parse_ds (ta_ds a) = Some (d.1.2, d.2, dt, dg) ∧ d.1.1 = ta_ds a)); [intros key dss d E; by apply lookup_empty_Some in E|].
  intros m a Ha Hm key dss d. unfold config_entry. destruct (name_from_ascii (ta_zone a)) as [zone|] eqn:En; [|by apply Hm]. destruct (parse_ds (ta_ds a)) as [[[[tag alg] dt] dg]|] eqn:Ep; [|by apply Hm].
  destruct (decide (key = anchor_key zone)) as [->|Hne]; [|rewrite lookup_insert_ne by done; by apply Hm]. rewrite lookup_insert_eq. intros [= <-]. rewrite elem_of_app, list_elem_of_singleton. intros [Hd| ->].
  - destruct (m !! anchor_key zone) as [l|] eqn:E; simpl in Hd; [by eapply Hm|by apply not_elem_of_nil in Hd].
  - exists a, zone, dt, dg. done.
Qed.
Lemma merge_inv f h le anchors now : cfg anchors → file_inv f h → file_inv (merge_file f le anchors now) h.
Proof.
  intros Hc Hf key z k E Hk. unfold merge_file in E. rewrite map_lookup_imap in E. apply bind_Some in E as (dss & Ed & [= <-]). revert Hk. unfold merge_zone. cbn [za_keys]. revert k.
  apply (foldl_inv (λ keys, ∀ k, k ∈ keys → P key h k)).
  - intros k [_ Hk]%list_elem_of_filter. destruct (f !! key) as [z|] eqn:E; simpl in Hk; [by eapply Hf|by apply not_elem_of_nil in Hk].
  - intros keys [[text tag] alg] Hd Hkeys k. simpl. destruct (existsb _ _); [by apply Hkeys|]. rewrite elem_of_app, list_elem_of_singleton. intros [Hk| ->]; [by apply Hkeys|].
    destruct (configured_elem _ _ _ _ Ed Hd) as (a & zone & dt & dg & Ha & Hz & -> & Hp & Ht). simpl in *. subst text. by eapply P_config.
Qed.
Lemma apply_inv f h points zone fetched now obs z : Q points → observe points zone fetched now = inl obs → file_inv f h → f !! anchor_key zone = Some z →
  file_inv (<[anchor_key zone := apply_rfc5011 z zone obs now]> f) (h ++ [(anchor_key zone, now, obs)]).
Proof.
  intros Hq Ho Hf Ez key z' k E Hk. destruct (decide (key = anchor_key zone)) as [->|Hne]; [|rewrite lookup_insert_ne in E by done; apply P_other; [done|by eapply Hf]].
  rewrite lookup_insert_eq in E. injection E as <-. destruct (observe_spec _ _ _ _ _ Ho) as (Hv & _). revert Hk. unfold apply_rfc5011. rewrite Hv. cbn [negb za_keys]. revert k.
  apply (foldl_inv (λ keys, ∀ k, k ∈ keys → P (anchor_key zone) (h ++ [(anchor_key zone, now, obs)]) k)).
  - intros k [Hr Hk]%list_elem_of_filter. apply list_elem_of_fmap in Hk as (k0 & -> & Hk0). eapply P_step; [done..| |done]. by eapply Hf.
  - intros keys [[t a] key] Hs Hkeys k. simpl. destruct (negb _ && _ && _) eqn:E; [|by apply Hkeys]. rewrite elem_of_app, list_elem_of_singleton. intros [Hk| ->]; [by apply Hkeys|].
    apply andb_true_iff in E as [_ Er]. apply negb_true_iff, bool_decide_eq_false in Er. by eapply P_fresh.
Qed.
Definition disk_inv (d : ReadState) (dh : hist) : Prop := ∀ b f, d = Content b → file_from_json b = Some f → file_inv f dh.
Lemma saved_inv s h d dh w s' d' ok : file_inv (ts_file s) h → disk_inv d dh → save s d w = (s', d', ok) → file_inv (ts_file s') h ∧ disk_inv d' (on_disk s w h dh) ∧ ts_points s' = ts_points s.
Proof.
  intros Hf Hd (Hk & Hp & Hh)%save_spec. split_and!; [by eapply file_inv_same| |done]. destruct (Hh h dh) as [[-> ->]|(-> & b & -> & Ej)]; [done|]. intros b' f [= <-] Ef. apply json_back in Ej. rewrite Ej in Ef. by injection Ef as <-.
Qed.
Lemma open_inv path d dh : disk_inv d dh → file_inv (ts_file (store_open path d)) dh ∧ Q (ts_points (store_open path d)).
Proof.
  intros Hd. assert (∀ h, file_inv ∅ h) as H0 by (intros h key z k E; by apply lookup_empty_Some in E). unfold store_open. destruct path; cbn [negb]; [|split; [done|by eapply P_points, (H0 [])]].
  destruct d as [| |b]; try (split; [done|by eapply P_points, (H0 [])]). destruct (file_from_json b) as [f|] eqn:Ef; [|split; [done|by eapply P_points, (H0 [])]]. split; [by eapply Hd|]. by eapply P_points, (Hd b f).
Qed.
Lemma areach_inv s h d dh : areach s h d dh → file_inv (ts_file s) h ∧ disk_inv d dh ∧ Q (ts_points s).
Proof.
  assert (∀ d, d = NotFound ∨ d = Unreadable ∨ (∃ b, d = Content b ∧ file_from_json b = None) → disk_inv d []) as Hn by (intros d' [->|[->|(b & -> & E)]] b' f [= ]; congruence).
  induction 1 as [path|s h d dh _ (IH1 & IH2 & IH3)|s h d dh path d' _ _ Hd'|s h d dh s' h' d' dh' _ (IH1 & IH2 & IH3) _ (IH1' & IH2' & IH3')|s h d dh anchors rfc now w s' d' ok _ (IH1 & IH2 & IH3) Hc E
    |s h d dh s0 h0 d0 dh0 zone z fetched obs now w s' d' _ (IH1 & IH2 & IH3) _ (_ & _ & IH0) Ho Ez E|s h d dh zone e now _ (IH1 & IH2 & IH3)].
  - destruct (open_inv path NotFound []) as [? ?]; [by apply Hn; left|]. split_and!; [done|by apply Hn; left|done].
  - destruct (open_inv true d dh IH2). done.
  - destruct (open_inv path d' []) as [? ?]; [by apply Hn|]. split_and!; [done|by apply Hn|done].
  - done.
  - assert (file_inv (ts_file (merged s anchors rfc now)) h) as Hm by (by apply merge_inv). destruct (saved_inv _ _ _ _ _ _ _ _ Hm IH2 E) as (? & ? & ->). split_and!; [done|done|]. by eapply P_points.
  - assert (file_inv (ts_file (observed s zone z obs now)) (h ++ [(anchor_key zone, now, obs)])) as Hm by (by eapply apply_inv). unfold record_refresh, record_observation in E. rewrite Ez in E.
    destruct (save _ d w) as [[s1 d1] ok] eqn:Es. destruct (saved_inv _ _ _ _ _ _ _ _ Hm IH2 Es) as (H1 & H2 & H3). assert (Q (ts_points s1)) as H4 by (rewrite H3; by eapply P_points).
    destruct ok; injection E as <- <-; [done|]. destruct (failure_keys s1 zone Persisting now) as [Hk ->]. split_and!; [by eapply file_inv_same|done|done].
  - destruct (failure_keys s zone e now) as [Hk ->]. split_and!; [by eapply file_inv_same|done|done].
Qed.
End reach.

(** ** The points that are published are right *)
Section genuine.
Context {NL : NameLib} {NLaws : NameLaws} {DL : DenialLib} {DLaws : DenialLaws} {VL : VerifyLib} {AL : AnchorLib} {ALaws : AnchorLaws}.
Context (W : World) {WL : WorldLaws W}.

Lemma dnskey_from_b64_back k k' : dnskey_from_b64 (b64 k) = Some k' → k' = k.
Proof.
  unfold dnskey_from_b64, b64. rewrite base64_back. destruct (dnskey_to_bytes k) as [b|] eqn:E; [|done]. apply dnskey_bytes in E as [Hf ->].
  pose proof (get16_put16 (flags k) ([3; key_algorithm k] ++ public_key k) Hf) as Hg. cbn [mbind option_bind default from_option id app put16] in *. rewrite Hg. destruct (_ || _); [done|]. cbn [mbind option_bind]. intros [= <-]. by destruct k.
Qed.
Lemma anchor_key_path zone n : name_from_ascii (anchor_key zone) = Some n → path n = path zone.
Proof. unfold anchor_key. intros E. destruct (ascii_back (to_lowercase zone)) as (m & E' & Hm). rewrite E in E'. injection E' as <-. by rewrite Hm, path_lower. Qed.
Lemma step_key_b64 zone obs now k : ak_ds (step_key zone obs now k) = ak_ds k ∧ ak_from_config (step_key zone obs now k) = ak_from_config k ∧
  (ak_dnskey_b64 (step_key zone obs now k) = ak_dnskey_b64 k ∨
   ∃ key, ak_state k = Configured ∧ key_hit (seen obs) k = Some key ∧ ak_key_tag k ∉ ob_revoked obs ∧ (∀ text, ak_ds k = Some text → ds_matches text zone key = true) ∧
     ak_dnskey_b64 (step_key zone obs now k) = Some (b64 key)).
Proof.
  unfold step_key. destruct (key_hit (seen obs) k) as [key|]; [|destruct (ak_state k); split_and!; try done; by left]. destruct (bool_decide (ak_key_tag k ∈ ob_revoked obs)) eqn:Er; cbn [andb].
  - destruct (ak_state k); rewrite ?bool_decide_false by done; rewrite ?bool_decide_true by done; split_and!; try done; by left.
  - destruct (ak_state k); try (destruct (_ <=? _)); try (split_and!; [done|done|by left]). destruct (match ak_ds k with Some _ => _ | None => _ end) eqn:Em; [|split_and!; try done; by left].
    split_and!; [done|done|]. right. exists key. apply bool_decide_eq_false in Er. split_and!; try done. intros text E. by rewrite E in Em.
Qed.

(** *** Observations *)
Lemma authorised_genuine points zone n tp keys keys' : trust_ok W points → (n, tp) ∈ points → path n = path zone →
  all_genuine W zone ((match match_ds zone keys (tp_ds tp) with Matched k => k | _ => [] end) ++ filter (λ k, k ∈ tp_keys tp) keys').
Proof.
  intros Ht Hin Hn k. rewrite elem_of_app. destruct (Ht _ _ Hin) as [Hd Hk]. intros [Hm|[Hf _]%list_elem_of_filter]; [|rewrite <- Hn; by apply Hk].
  destruct (match_ds zone keys (tp_ds tp)) as [ks| |] eqn:Em; [|by apply not_elem_of_nil in Hm..]. apply (matched_genuine W zone (tp_ds tp) keys ks); [|done|done].
  intros d k' Hin' Hc. rewrite (covers_path _ _ n) in Hc by done. rewrite <- Hn. by eapply Hd.
Qed.
Lemma observed_genuine points zone fetched now obs t a k : trust_ok W points → observe points zone fetched now = inl obs → (t, a, k) ∈ seen obs → t ∉ ob_revoked obs → genuine W (path zone) k.
Proof.
  intros Ht Ho Hs Hr. destruct (observe_spec _ _ _ _ _ Ho) as (_ & _ & set & tp & n & _ & Hin & Hn & Hc). destruct (seen_elem _ _ Hs) as (Hk & Htag & _). simpl in *. set (records := filter _ _) in *.
  destruct Hc as [(sigs & keys & v & Ev & Hkeys)|Hrev]; [|destruct Hr; by eapply Hrev]. destruct (Hkeys k Hk) as [Hd|(t' & Ht' & Hr')]; [|congruence].
  destruct (exact_published W _ _ _ _ _ _ zone TypeDNSKEY (authorised_genuine _ _ _ _ _ _ Ht Hin Hn) Ev) as (Hp & _ & _); [|auto|by apply (w_dnskey _ _ _ Hp), dnskeys_elem].
  intros r [HP _]%list_elem_of_filter. by apply andb_true_iff in HP as [?%eqb_true ?%Z.eqb_eq].
Qed.

(** *** Entries *)
Definition entry_ok (p : npath) (k : AnchorKey) : Prop :=
  (∀ text d n key, ak_ds k = Some text → ds_from_text text = Some d → path n = p → ds_covers d n key = true → genuine W p key) ∧
  (∀ b key, ak_dnskey_b64 k = Some b → dnskey_from_b64 b = Some key → genuine W p key).
Definition config_ok (anchors : list TrustAnchor) : Prop := ∀ a zone d n k, a ∈ anchors → name_from_ascii (ta_zone a) = Some zone → ds_from_text (ta_ds a) = Some d →
  path n = path zone → ds_covers d n k = true → genuine W (path zone) k.
Definition anchored (key : bytes) (h : hist) (k : AnchorKey) : Prop := ∀ n, name_from_ascii key = Some n → entry_ok (path n) k.

(** *** Points *)
Lemma point_mut_elem zones zone f n tp : (n, tp) ∈ point_mut zones zone f → (n, tp) ∈ zones ∨ path n = path zone ∧ ∃ tp0, tp = f tp0 ∧ ((n, tp0) ∈ zones ∨ tp0 = mkTrustPoint [] []).
Proof.
  unfold point_mut. destruct (update_first _ _ zones) as [l|] eqn:E; simpl.
  - apply update_first_Some in E as (l1 & [n0 tp0] & l2 & -> & HP & ->). simpl in HP. apply eqb_true in HP. rewrite !elem_of_app, !elem_of_cons. intros [?|[[= -> ->]|?]]; [by left; left| |by left; right; right].
    right. split; [done|]. exists tp0. split; [done|]. left. apply elem_of_app. right. by left.
  - rewrite elem_of_app, list_elem_of_singleton. intros [?|[= -> ->]]; [by left|]. right. split; [done|]. exists (mkTrustPoint [] []). split; [done|by right].
Qed.
Lemma add_ds_ok points name d : trust_ok W points → (∀ n k, path n = path name → ds_covers d n k = true → genuine W (path name) k) → trust_ok W (add_ds points name d).
Proof.
  intros Ht Hd n tp [Hin|(Hn & tp0 & -> & H0)]%point_mut_elem; [by apply Ht|]. cbn [tp_ds tp_keys]. split.
  - intros d' k. rewrite elem_of_app, list_elem_of_singleton. intros [Hin| ->] Hc; [|rewrite Hn; by apply (Hd n)]. destruct H0 as [H0| ->]; [by apply (proj1 (Ht n tp0 H0) d')|by apply not_elem_of_nil in Hin].
  - intros k Hk. destruct H0 as [H0| ->]; [by apply (proj2 (Ht n tp0 H0))|by apply not_elem_of_nil in Hk].
Qed.
Lemma add_key_ok points name key : trust_ok W points → genuine W (path name) key → trust_ok W (add_key points name key).
Proof.
  intros Ht Hg n tp [Hin|(Hn & tp0 & -> & H0)]%point_mut_elem; [by apply Ht|]. cbn [tp_ds tp_keys]. split.
  - intros d' k Hk. destruct H0 as [H0| ->]; [by apply (proj1 (Ht n tp0 H0) d')|by apply not_elem_of_nil in Hk].
  - intros k. rewrite elem_of_app, list_elem_of_singleton. intros [Hin| ->]; [|by rewrite Hn]. destruct H0 as [H0| ->]; [by apply (proj2 (Ht n tp0 H0))|by apply not_elem_of_nil in Hin].
Qed.
Lemma publish_ok rfc name points k : trust_ok W points → entry_ok (path name) k → trust_ok W (publish_key rfc name points k).
Proof.
  intros Ht [Hd Hk]. unfold publish_key. destruct (if rfc then _ else _).
  - destruct (ak_ds k) as [text|] eqn:E1; [|done]. cbn [mbind option_bind]. destruct (ds_from_text text) as [d|] eqn:E2; [|done]. apply add_ds_ok; [done|]. intros n key. by apply (Hd text).
  - destruct (_ && _); [|done]. destruct (ak_dnskey_b64 k) as [b|] eqn:E1; [|done]. cbn [mbind option_bind]. destruct (dnskey_from_b64 b) as [key|] eqn:E2; [|done]. apply add_key_ok; [done|]. by eapply Hk.
Qed.
Lemma points_ok rfc f h : file_inv anchored f h → trust_ok W (points_of rfc f).
Proof.
  intros Hf. unfold points_of. apply foldl_inv; [by intros n tp ?%not_elem_of_nil|]. intros points [key z] Hin Ht. unfold publish_zone. cbn [fst snd]. destruct (name_from_ascii key) as [name|] eqn:En; [|done].
  apply foldl_inv; [done|]. intros points' k Hk Ht'. apply publish_ok; [done|]. unfold file_zones in Hin. apply elem_of_sort_on, elem_of_map_to_list in Hin. by eapply Hf.
Qed.
Lemma reach_trust s h d dh : areach config_ok s h d dh → trust_ok W (ts_points s).
Proof.
  intros Hr. apply (areach_inv config_ok anchored (trust_ok W)) in Hr as (_ & _ & Ht); try done.
  - intros anchors a zone tag alg dt dg h' Hc Ha Hz Hp n Hn. apply anchor_key_path in Hn. split; [|done]. cbn [ak_ds]. intros text d' m key [= <-] Hd Hm Hcov. rewrite Hn in *. by eapply Hc.
  - intros points zone fetched now obs h' k Ht Ho Ha _ n Hn. specialize (Ha n Hn). apply anchor_key_path in Hn. destruct Ha as [H1 H2]. destruct (step_key_b64 zone obs now k) as (Ed & _ & Eb). unfold entry_ok. rewrite Ed. split; [done|].
    destruct Eb as [->|(key & _ & Hh & Hrv & _ & ->)]; [done|]. intros b key' [= <-] ->%dnskey_from_b64_back. destruct (key_hit_Some _ _ _ Hh) as [Hs _]. rewrite Hn. by eapply observed_genuine.
  - intros points zone fetched now obs h' t a k Ht Ho Hs Hrv n Hn. apply anchor_key_path in Hn. split; [done|]. cbn [ak_dnskey_b64]. intros b key [= <-] ->%dnskey_from_b64_back. rewrite Hn. by eapply observed_genuine.
  - apply points_ok.
Qed.
End genuine.

(** ** Trusted keys are configured or were held down *)
Section earned.
Context {NL : NameLib} {NLaws : NameLaws} {DL : DenialLib} {VL : VerifyLib} {AL : AnchorLib} {ALaws : AnchorLaws}.
Context (cfg : list TrustAnchor → Prop).

(** *** Where a point comes from *)
Definition as_ds (rfc : bool) (k : AnchorKey) : bool := if rfc then bool_decide (ak_state k = Configured) else ak_from_config k && negb (bool_decide (ak_state k = Revoked)).
Definition entry_of (f : AnchorFile) (n : Name) (k : AnchorKey) : Prop := ∃ zk z m, f !! zk = Some z ∧ k ∈ za_keys z ∧ name_from_ascii zk = Some m ∧ path m = path n.
Definition sourced (rfc : bool) (f : AnchorFile) (points : TrustPoints) : Prop := ∀ n tp, (n, tp) ∈ points →
  (∀ d, d ∈ tp_ds tp → ∃ k, entry_of f n k ∧ as_ds rfc k = true ∧ ak_ds k ≫= ds_from_text = Some d) ∧
  (∀ key, key ∈ tp_keys tp → ∃ k, entry_of f n k ∧ rfc = true ∧ (ak_state k = KValid ∨ ak_state k = Missing) ∧ ak_dnskey_b64 k ≫= dnskey_from_b64 = Some key).
Lemma entry_of_path f n m k : path n = path m → entry_of f n k → entry_of f m k.
Proof. intros E (zk & z & x & ? & ? & ? & ?). exists zk, z, x. split_and!; try done. congruence. Qed.
Lemma publish_sourced rfc f name points k : sourced rfc f points → entry_of f name k → sourced rfc f (publish_key rfc name points k).
Proof.
  intros Hs He. unfold publish_key. fold (as_ds rfc k). destruct (as_ds rfc k) eqn:Ed.
  - destruct (ak_ds k ≫= ds_from_text) as [d|] eqn:E; [|done]. intros n tp [Hin|(Hn & tp0 & -> & H0)]%point_mut_elem; [by apply Hs|]. cbn [tp_ds tp_keys]. split.
    + intros d'. rewrite elem_of_app, list_elem_of_singleton. intros [Hin| ->]; [|exists k; split; [by apply (entry_of_path _ name)|done]]. destruct H0 as [H0| ->]; [by apply (proj1 (Hs n tp0 H0))|by apply not_elem_of_nil in Hin].
    + intros key Hk. destruct H0 as [H0| ->]; [by apply (proj2 (Hs n tp0 H0))|by apply not_elem_of_nil in Hk].
  - destruct (rfc && _) eqn:Er; [|done]. apply andb_true_iff in Er as [-> Est]. apply orb_true_iff in Est. rewrite !bool_decide_eq_true in Est. destruct (ak_dnskey_b64 k ≫= dnskey_from_b64) as [key|] eqn:E; [|done].
    intros n tp [Hin|(Hn & tp0 & -> & H0)]%point_mut_elem; [by apply Hs|]. cbn [tp_ds tp_keys]. split.
    + intros d' Hk. destruct H0 as [H0| ->]; [by apply (proj1 (Hs n tp0 H0))|by apply not_elem_of_nil in Hk].
    + intros x. rewrite elem_of_app, list_elem_of_singleton. intros [Hin| ->]; [|exists k; split; [by apply (entry_of_path _ name)|done]]. destruct H0 as [H0| ->]; [by apply (proj2 (Hs n tp0 H0))|by apply not_elem_of_nil in Hin].
Qed.
Lemma points_sourced rfc f : sourced rfc f (points_of rfc f).
Proof.
  unfold points_of. apply foldl_inv; [by intros n tp ?%not_elem_of_nil|]. intros points [zk z] Hin Hs. unfold publish_zone. cbn [fst snd]. destruct (name_from_ascii zk) as [name|] eqn:En; [|done].
  apply foldl_inv; [done|]. intros points' k Hk Hs'. apply publish_sourced; [done|]. unfold file_zones in Hin. apply elem_of_sort_on, elem_of_map_to_list in Hin. by exists zk, z, name.
Qed.
Lemma sourced_same rfc f g points : same_keys f g → sourced rfc f points → sourced rfc g points.
Proof.
  intros Hk Hs n tp Hin. assert (∀ k, entry_of f n k → entry_of g n k) as He.
  { intros k (zk & z & m & E & Hz & ? & ?). specialize (Hk zk). rewrite E in Hk. destruct (g !! zk) as [z'|] eqn:E'; [|done]. injection Hk as Hk. exists zk, z', m. split_and!; try done. by rewrite <- Hk. }
  destruct (Hs n tp Hin) as [H1 H2]. split; [intros d Hd; destruct (H1 d Hd) as (k & ? & ?)|intros key Hd; destruct (H2 key Hd) as (k & ? & ?)]; exists k; split; auto.
Qed.
Lemma same_keys_sym f g : same_keys f g → same_keys g f.
Proof. intros Hs key. by rewrite (Hs key). Qed.
Lemma areach_sourced s h d dh : areach cfg s h d dh → sourced (ts_rfc5011 s) (ts_file s) (ts_points s).
Proof.
  assert (∀ s disk w s' disk' ok, save s disk w = (s', disk', ok) → ts_rfc5011 s' = ts_rfc5011 s) as Hsave by (intros ? ? ? ? ? ?; unfold save; repeat case_match; by intros [= <- _ _]).
  assert (∀ s zone e now, ts_rfc5011 (record_failure s zone e now) = ts_rfc5011 s) as Hfail by (intros; unfold record_failure; by case_match).
  assert (∀ s zone e now, sourced (ts_rfc5011 s) (ts_file s) (ts_points s) → sourced (ts_rfc5011 (record_failure s zone e now)) (ts_file (record_failure s zone e now)) (ts_points (record_failure s zone e now))) as Hf.
  { intros s0 zone e now Hs. rewrite Hfail. destruct (failure_keys s0 zone e now) as [Hk ->]. by eapply sourced_same; [apply same_keys_sym|]. }
  assert (∀ s disk w s' disk' ok, save (republish s) disk w = (s', disk', ok) → sourced (ts_rfc5011 s') (ts_file s') (ts_points s')) as Hr.
  { intros s0 disk w s' disk' ok E. rewrite (Hsave _ _ _ _ _ _ E). apply save_spec in E as (Hk & -> & _). eapply sourced_same; [by apply same_keys_sym|]. apply points_sourced. }
  assert (∀ path disk, sourced (ts_rfc5011 (store_open path disk)) (ts_file (store_open path disk)) (ts_points (store_open path disk))) as Ho.
  { intros path disk. unfold store_open. case_match. apply points_sourced. }
  induction 1 as [path|s h d dh _ _|s h d dh path d' _ _ _|s h d dh s' h' d' dh' _ IH _ _|s h d dh anchors rfc now w s' d' ok _ _ _ E|s h d dh s0 h0 d0 dh0 zone z fetched obs now w s' d' _ _ _ _ _ Ez E|s h d dh zone e now _ IH]; try done; [by eapply Hr| |by apply Hf].
  unfold record_refresh, record_observation in E. rewrite Ez in E. destruct (save _ d w) as [[s1 d1] ok] eqn:Es. apply Hr in Es. destruct ok; injection E as <- <-; [done|by apply Hf].
Qed.

(** *** Where an entry comes from *)
Definition saw (o : Observation) (k : AnchorKey) : Prop := ∃ key, (slot k, key) ∈ seen o ∧ ak_dnskey_b64 k = Some (b64 key).
Definition there (zk : bytes) (k : AnchorKey) (e : bytes * Z * Observation) : Prop := e.1.1 = zk → present e.2 (ak_key_tag k) (ak_algorithm k) = true.
(** Seen at two times at least the hold-down apart, and whenever the zone was observed in between. *)
Definition held_down (zk : bytes) (h : hist) (k : AnchorKey) : Prop := ∃ i j t0 o0 t1 o1, (i < j)%nat ∧ h !! i = Some (zk, t0, o0) ∧ h !! j = Some (zk, t1, o1) ∧ saw o0 k ∧ saw o1 k ∧ t0 + ADD_HOLD_DOWN ≤ t1 ∧
  ∀ m e, (i ≤ m ≤ j)%nat → h !! m = Some e → there zk k e.
Definition pending (zk : bytes) (h : hist) (k : AnchorKey) : Prop := ∃ i t0 o0, h !! i = Some (zk, t0, o0) ∧ saw o0 k ∧ ak_hold_down_until k = t0 + ADD_HOLD_DOWN ∧ ∀ m e, (i ≤ m)%nat → h !! m = Some e → there zk k e.
Definition from_anchor (zk : bytes) (k : AnchorKey) : Prop := ∃ anchors a zone, cfg anchors ∧ a ∈ anchors ∧ name_from_ascii (ta_zone a) = Some zone ∧ zk = anchor_key zone ∧ ak_ds k = Some (ta_ds a) ∧
  ∀ b, ak_dnskey_b64 k = Some b → ∃ zone' key, zk = anchor_key zone' ∧ b = b64 key ∧ ds_matches (ta_ds a) zone' key = true.
Definition earned (zk : bytes) (h : hist) (k : AnchorKey) : Prop :=
  if ak_from_config k then from_anchor zk k
  else match ak_state k with Configured => False | AddPend => pending zk h k | KValid | Missing => held_down zk h k | Revoked => True end.

Lemma held_down_app zk h h' k k' : slot k' = slot k → ak_dnskey_b64 k' = ak_dnskey_b64 k → held_down zk h k → held_down zk (h ++ h') k'.
Proof.
  intros Hs Hb (i & j & t0 & o0 & t1 & o1 & Hij & Hi & Hj & (k0 & H0 & E0) & (k1 & H1 & E1) & Ht & Hb'). exists i, j, t0, o0, t1, o1. pose proof (lookup_lt_Some _ _ _ Hi). pose proof (lookup_lt_Some _ _ _ Hj).
  rewrite !lookup_app_l by done. unfold saw. rewrite Hs, Hb. split_and!; try done; [by exists k0|by exists k1|]. intros m e Hm. rewrite lookup_app_l by lia. intros He. unfold there. unfold slot in Hs. injection Hs as -> ->. by apply (Hb' m).
Qed.
Lemma pending_app zk h e k : pending zk h k → there zk k e → pending zk (h ++ [e]) k.
Proof.
  intros (i & t0 & o0 & Hi & Hs & Hu & Hall) He. exists i, t0, o0. pose proof (lookup_lt_Some _ _ _ Hi). rewrite lookup_app_l by done. split_and!; try done. intros m e' Hm [E|[_ E]]%lookup_app_Some; [by apply (Hall m)|].
  apply list_lookup_singleton_Some in E as [_ <-]. done.
Qed.
Lemma pending_held zk h now obs k k' key : pending zk h k → key_hit (seen obs) k = Some key → ak_hold_down_until k ≤ now → slot k' = slot k → ak_dnskey_b64 k' = ak_dnskey_b64 k → held_down zk (h ++ [(zk, now, obs)]) k'.
Proof.
  intros (i & t0 & o0 & Hi & (k0 & H0 & E0) & Hu & Hall) [Hk Hb]%key_hit_Some Hn Hs Eb. pose proof (lookup_lt_Some _ _ _ Hi). pose proof (Hb _ E0) as Ek. exists i, (length h), t0, o0, now, obs. rewrite lookup_app_l by done.
  unfold saw. rewrite Hs, Eb. split_and!; try done; [by apply list_lookup_middle|by exists k0|exists key; split; [done|congruence]|lia|].
  intros m e Hm [E|[_ E]]%lookup_app_Some; unfold there; unfold slot in Hs; injection Hs as -> ->; [by apply (Hall m); [lia|]|]. apply list_lookup_singleton_Some in E as [_ <-]. intros _. apply present_true. by exists key.
Qed.
Lemma step_key_state zone obs now k : match ak_state (step_key zone obs now k) with
    | Configured => ak_state k = Configured
    | AddPend => step_key zone obs now k = k
    | KValid => ak_state k = KValid ∨ ak_state k = Missing ∨ ak_state k = Configured ∨ ak_state k = AddPend ∧ ak_hold_down_until k ≤ now ∧ ∃ key, key_hit (seen obs) k = Some key
    | Missing => ak_state k = KValid ∨ ak_state k = Missing
    | Revoked => True
    end.
Proof.
  unfold step_key. destruct (key_hit (seen obs) k) as [key|]; [|destruct (ak_state k) eqn:Es; cbn [ak_state with_state]; rewrite ?Es; auto].
  destruct (bool_decide (ak_key_tag k ∈ ob_revoked obs)); destruct (ak_state k) eqn:Es; rewrite ?bool_decide_false by done; rewrite ?bool_decide_true by done; cbn [andb negb ak_state]; rewrite ?Es; auto.
  - destruct (match ak_ds k with Some _ => _ | None => _ end); cbn [ak_state]; rewrite ?Es; auto.
  - destruct (Z.leb_spec (ak_hold_down_until k) now); cbn [ak_state with_state]; rewrite ?Es; eauto 10.
  - cbn [ak_state with_state]. auto.
Qed.
Lemma step_earned zone obs now h k : earned (anchor_key zone) h k → retained obs now (step_key zone obs now k) = true → earned (anchor_key zone) (h ++ [(anchor_key zone, now, obs)]) (step_key zone obs now k).
Proof.
  intros He Hr. pose proof (step_key_slot zone obs now k) as Hs. destruct (step_key_b64 zone obs now k) as (Ed & Ef & Eb). unfold earned in *. rewrite Ef. destruct (ak_from_config k) eqn:Efc.
  { destruct He as (anchors & a & zone' & ? & ? & ? & ? & E & Hb). exists anchors, a, zone'. rewrite Ed. split_and!; try done. destruct Eb as [->|(key & Est & Hh & Hrv & Hm & ->)]; [done|]. intros b [= <-].
    exists zone, key. split_and!; try done. by apply Hm. }
  assert (ak_state k ≠ Configured) as Hnc by (intros E; by rewrite E in He). assert (ak_dnskey_b64 (step_key zone obs now k) = ak_dnskey_b64 k) as Eb' by (destruct Eb as [?|(? & ? & _)]; done). clear Eb.
  rewrite retained_spec in Hr. pose proof (step_key_state zone obs now k) as Hst. destruct (ak_state (step_key zone obs now k)) eqn:Es; [done| | | |done].
  - rewrite Hst in *. rewrite Es in He. apply pending_app; [done|]. intros _. exact Hr.
  - destruct Hst as [E|[E|[E|(E & Hu & key & Hh)]]]; rewrite ?E in He; [by eapply held_down_app|by eapply held_down_app|done|by eapply pending_held].
  - destruct Hst as [E|E]; rewrite E in He; by eapply held_down_app.
Qed.
Lemma areach_earned s h d dh : areach cfg s h d dh → file_inv earned (ts_file s) h.
Proof.
  intros Hr. apply (areach_inv cfg earned (λ _, True)) in Hr as (? & _ & _); try done.
  - intros zk zk' h' now obs k Hne He. unfold earned in *. destruct (ak_from_config k); [done|]. destruct (ak_state k); try done; [apply pending_app; [done|]; by intros E|by eapply held_down_app|by eapply held_down_app].
  - intros anchors a zone tag alg dt dg h' Hc Ha Hz Hp. unfold earned. cbn [ak_from_config]. exists anchors, a, zone. done.
  - intros points zone fetched now obs h' k _ _. apply step_earned.
  - intros points zone fetched now obs h' t a k _ _ Hs _. unfold earned. cbn [ak_from_config ak_state]. exists (length h'), now, obs. split_and!; [by apply list_lookup_middle|by exists k|done|].
    intros m e Hm [E|[_ E]]%lookup_app_Some; [apply lookup_lt_Some in E; lia|]. apply list_lookup_singleton_Some in E as [_ <-]. intros _. apply present_true. by exists k.
Qed.
(** The observations of a history were made with trust points of the store. *)
Lemma areach_hist s h d dh : areach cfg s h d dh → ∀ e, e ∈ h ++ dh → ∃ s0 h0 d0 dh0 zone fetched, areach cfg s0 h0 d0 dh0 ∧ e.1.1 = anchor_key zone ∧ observe (ts_points s0) zone fetched e.1.2 = inl e.2.
Proof.
  assert (∀ s w h dh e, e ∈ on_disk s w h dh → e ∈ h ∨ e ∈ dh) as Hod by (intros s0 w h0 dh0 e; unfold on_disk; repeat case_match; auto).
  induction 1 as [path|s h d dh _ IH|s h d dh path d' _ _ _|s h d dh s' h' d' dh' _ IH _ IH'|s h d dh anchors rfc now w s' d' ok _ IH _ _|s h d dh s0 h0 d0 dh0 zone z fetched obs now w s' d' _ IH H0 _ Ho _ _|s h d dh zone e now _ IH]; intros x; rewrite elem_of_app.
  - by intros [?%not_elem_of_nil|?%not_elem_of_nil].
  - intros [?|?]; apply IH, elem_of_app; by right.
  - by intros [?%not_elem_of_nil|?%not_elem_of_nil].
  - intros [?|?]; [apply IH|apply IH']; apply elem_of_app; auto.
  - intros [?|[?|?]%Hod]; apply IH, elem_of_app; auto.
  - assert (x ∈ h ++ [(anchor_key zone, now, obs)] → ∃ s0 h0 d0 dh0 zone fetched, areach cfg s0 h0 d0 dh0 ∧ x.1.1 = anchor_key zone ∧ observe (ts_points s0) zone fetched x.1.2 = inl x.2) as Hx.
    { rewrite elem_of_app, list_elem_of_singleton. intros [?| ->]; [apply IH, elem_of_app; auto|]. exists s0, h0, d0, dh0, zone, fetched. done. }
    intros [?|[?|?]%Hod]; [auto|auto|]. apply IH, elem_of_app. auto.
  - intros ?. apply IH, elem_of_app. done.
Qed.
End earned.

(** ** Revoked keys *)
Section revoked.
Context {NL : NameLib} {NLaws : NameLaws} {DL : DenialLib} {VL : VerifyLib} {AL : AnchorLib} {ALaws : AnchorLaws}.
Context (cfg : list TrustAnchor → Prop).

(** An entry's DS and key are those of its slot. *)
Definition slotted (zk : bytes) (h : hist) (k : AnchorKey) : Prop := (∃ zone, zk = anchor_key zone) ∧
  (∀ text, ak_ds k = Some text → ∃ dt dg, parse_ds text = Some (ak_key_tag k, ak_algorithm k, dt, dg)) ∧
  (∀ b, ak_dnskey_b64 k = Some b → ∃ key, b = b64 key ∧ calculate_key_tag key = Some (ak_key_tag k) ∧ key_algorithm key = ak_algorithm k).
Lemma areach_slotted s h d dh : areach cfg s h d dh → file_inv slotted (ts_file s) h.
Proof.
  intros Hr. apply (areach_inv cfg slotted (λ _, True)) in Hr as (? & _ & _); try done.
  - intros anchors a zone tag alg dt dg h' Hc Ha Hz Hp. split; [by exists zone|]. split; [|done]. cbn [ak_ds ak_key_tag ak_algorithm]. intros text [= <-]. by exists dt, dg.
  - intros points zone fetched now obs h' k _ _ (Hz & H1 & H2) _. split; [by exists zone|]. pose proof (step_key_slot zone obs now k) as Hs. unfold slot in Hs. injection Hs as Et Ea. destruct (step_key_b64 zone obs now k) as (-> & _ & Eb). rewrite Et, Ea.
    split; [done|]. destruct Eb as [->|(key & _ & [Hh _]%key_hit_Some & _ & _ & ->)]; [done|]. intros b [= <-]. exists key. destruct (seen_elem _ _ Hh) as (_ & ? & ?). done.
  - intros points zone fetched now obs h' t a k _ _ Hs _. split; [by exists zone|]. split; [done|]. cbn [ak_dnskey_b64 ak_key_tag ak_algorithm]. intros b [= <-]. exists k. destruct (seen_elem _ _ Hs) as (_ & ? & ?). done.
Qed.
Definition file_distinct (f : AnchorFile) : Prop := ∀ zk z, f !! zk = Some z → distinct (za_keys z).
Lemma file_distinct_same f g : same_keys f g → file_distinct g → file_distinct f.
Proof. intros Hs Hg zk z E. specialize (Hs zk). rewrite E in Hs. destruct (g !! zk) as [z'|] eqn:E'; [|done]. injection Hs as ->. by eapply Hg. Qed.
Lemma merge_file_distinct f le anchors now : file_distinct f → file_distinct (merge_file f le anchors now).
Proof. intros Hf zk z E. unfold merge_file in E. rewrite map_lookup_imap in E. apply bind_Some in E as (dss & Ed & [= <-]). apply merge_distinct. intros za. apply Hf. Qed.
Lemma observed_distinct s zone z obs now : file_distinct (ts_file s) → ts_file s !! anchor_key zone = Some z → file_distinct (ts_file (observed s zone z obs now)).
Proof.
  intros Hf Ez zk z' E. cbn [observed republish ts_file] in E. destruct (decide (zk = anchor_key zone)) as [->|]; [rewrite lookup_insert_eq in E; injection E as <-; apply apply_distinct; by eapply Hf|rewrite lookup_insert_ne in E by done; by eapply Hf].
Qed.
Lemma areach_distinct s h d dh : areach cfg s h d dh → file_distinct (ts_file s) ∧ ∀ b f, d = Content b → file_from_json b = Some f → file_distinct f.
Proof.
  assert (file_distinct ∅) as H0 by (intros zk z E; by apply lookup_empty_Some in E).
  assert (∀ path d, (∀ b f, d = Content b → file_from_json b = Some f → file_distinct f) → file_distinct (ts_file (store_open path d))) as Ho.
  { intros path d' Hd. unfold store_open. destruct path; [|done]. cbn [negb]. destruct d' as [| |b]; try done. destruct (file_from_json b) as [f|] eqn:E; [|done]. cbn [ts_file republish]. by eapply Hd. }
  assert (∀ s d w s' d' ok, file_distinct (ts_file s) → (∀ b f, d = Content b → file_from_json b = Some f → file_distinct f) → save s d w = (s', d', ok) →
    file_distinct (ts_file s') ∧ ∀ b f, d' = Content b → file_from_json b = Some f → file_distinct f) as Hs.
  { intros s0 d0 w s' d' ok Hf Hd (Hk & _ & Hh)%save_spec. split; [by eapply file_distinct_same|]. destruct (Hh [] []) as [[_ ->]|(_ & b & -> & Ej)]; [done|]. intros b' f [= <-] Ef. apply json_back in Ej. rewrite Ej in Ef. by injection Ef as <-. }
  induction 1 as [path|s h d dh _ [IH1 IH2]|s h d dh path d' _ _ Hd'|s h d dh s' h' d' dh' _ [IH1 IH2] _ [IH1' IH2']|s h d dh anchors rfc now w s' d' ok _ [IH1 IH2] _ E
    |s h d dh s0 h0 d0 dh0 zone z fetched obs now w s' d' _ [IH1 IH2] _ _ _ Ez E|s h d dh zone e now _ [IH1 IH2]].
  - split; [by apply Ho|done].
  - split; [by apply Ho|done].
  - assert (∀ b f, d' = Content b → file_from_json b = Some f → file_distinct f) as Hd by (destruct Hd' as [->|[->|(b & -> & E)]]; intros b' f [= ]; congruence). split; [by apply Ho|done].
  - done.
  - eapply Hs; [|done|exact E]. by apply merge_file_distinct.
  - unfold record_refresh, record_observation in E. rewrite Ez in E. destruct (save _ d w) as [[s1 d1] ok] eqn:Es. apply Hs in Es as [H1 H2]; [|by apply observed_distinct|done].
    destruct ok; injection E as <- <-; [done|]. split; [|done]. eapply file_distinct_same; [apply failure_keys|done].
  - split; [|done]. eapply file_distinct_same; [apply failure_keys|done].
Qed.

(** *** While the hold-down lasts *)
Definition revoked_at (s : TrustAnchorStore) (zk : bytes) (t a u : Z) (c : bool) : Prop :=
  ∃ z k, ts_file s !! zk = Some z ∧ at_slot t a (za_keys z) = Some k ∧ ak_state k = Revoked ∧ ak_hold_down_until k = u ∧ ak_from_config k = c.
(** The zone stays configured, and so does the DS of the slot if the entry came from the configuration. *)
Definition stays (anchors : list TrustAnchor) (zk : bytes) (t a : Z) (c : bool) : Prop := ∃ dss, configured anchors !! zk = Some dss ∧ (c = false ∨ ∃ text, (text, t, a) ∈ dss).
Lemma revoked_same s s' zk t a u c : same_keys (ts_file s') (ts_file s) → revoked_at s zk t a u c → revoked_at s' zk t a u c.
Proof. intros Hs (z & k & E & Hk & H). specialize (Hs zk). rewrite E in Hs. destruct (ts_file s' !! zk) as [z'|] eqn:E'; [|done]. injection Hs as Hs. exists z', k. by rewrite Hs. Qed.
Lemma add_configured_slot t a dss keys k : at_slot t a keys = Some k → at_slot t a (foldl add_configured keys dss) = Some k.
Proof. intros Hk. apply (foldl_inv (λ keys, at_slot t a keys = Some k)); [done|]. intros keys' [[text t'] a'] _ E. simpl. destruct (existsb _ _); [done|]. by rewrite at_slot_app, E. Qed.
Lemma merged_revoked s anchors rfc now zk t a u c : file_distinct (ts_file s) → stays anchors zk t a c → revoked_at s zk t a u c → revoked_at (merged s anchors rfc now) zk t a u c.
Proof.
  intros Hd (dss & Hc & Hin) (z & k & E & Hk & Hst & Hu & Hf). exists (merge_zone (ts_load_error s) now (Some z) dss), k. cbn [merged republish ts_file]. split; [unfold merge_file; rewrite map_lookup_imap, Hc; simpl; by rewrite E|].
  split; [|done]. unfold merge_zone. cbn [za_keys default]. apply add_configured_slot. rewrite at_slot_filter by (by eapply Hd). cbn [from_option id]. rewrite Hk. cbn [mbind option_bind].
  assert (keeps_config dss k = true) as ->; [|done]. unfold keeps_config. rewrite Hf. destruct Hin as [->|[text Hin]]; [done|]. apply orb_true_iff. right. apply existsb_exists. exists (text, t, a). split; [by apply list_elem_of_In|].
  apply at_slot_Some in Hk as [_ Hk]. by apply same_slot_true.
Qed.
Lemma observed_revoked s zone z obs now zk t a u c : file_distinct (ts_file s) → ts_file s !! anchor_key zone = Some z → now < u → revoked_at s zk t a u c → revoked_at (observed s zone z obs now) zk t a u c.
Proof.
  intros Hd Ez Hn (z' & k & E & Hk & Hst & Hu & Hf). unfold revoked_at. cbn [observed republish ts_file]. destruct (decide (zk = anchor_key zone)) as [->|]; [|exists z', k; by rewrite lookup_insert_ne].
  rewrite Ez in E. injection E as ->. exists (apply_rfc5011 z' zone obs now), k. rewrite lookup_insert_eq. split; [done|]. split; [|done]. destruct (ob_validated obs) eqn:Ev; [|unfold apply_rfc5011; by rewrite Ev].
  rewrite at_slot_apply by (done || by eapply Hd). rewrite Hk. assert (step_key zone obs now k = k) as ->.
  { unfold step_key. rewrite Hst. destruct (key_hit _ _); [|done]. rewrite (bool_decide_true (Revoked = Revoked)) by done. cbn [negb]. by rewrite andb_false_r. }
  rewrite retained_spec, Hst, Hu. by destruct (Z.ltb_spec now u); [|lia].
Qed.
Inductive during (zk : bytes) (t a u : Z) (c : bool) : TrustAnchorStore * hist * ReadState * hist → TrustAnchorStore * hist * ReadState * hist → Prop :=
  | du_refl x : during zk t a u c x x
  | du_merge x s h d dh anchors rfc now w s' d' ok : during zk t a u c x (s, h, d, dh) → cfg anchors → stays anchors zk t a c → merge_config s d anchors rfc now w = (s', d', ok) →
      during zk t a u c x (s', h, d', on_disk (merged s anchors rfc now) w h dh)
  | du_refresh x s h d dh s0 h0 d0 dh0 zone z fetched obs now w s' d' : during zk t a u c x (s, h, d, dh) → areach cfg s0 h0 d0 dh0 → now < u → observe (ts_points s0) zone fetched now = inl obs →
      ts_file s !! anchor_key zone = Some z → record_refresh s d zone (inl obs) now w = (s', d') →
      during zk t a u c x (s', h ++ [(anchor_key zone, now, obs)], d', on_disk (observed s zone z obs now) w (h ++ [(anchor_key zone, now, obs)]) dh)
  | du_failure x s h d dh zone e now : during zk t a u c x (s, h, d, dh) → during zk t a u c x (record_failure s zone e now, h, d, dh).
Lemma during_revoked zk t a u c x y : during zk t a u c x y → areach cfg x.1.1.1 x.1.1.2 x.1.2 x.2 → revoked_at x.1.1.1 zk t a u c → areach cfg y.1.1.1 y.1.1.2 y.1.2 y.2 ∧ revoked_at y.1.1.1 zk t a u c.
Proof.
  intros Hd Hr Hx. induction Hd as [x|x s h d dh anchors rfc now w s' d' ok _ IH Hc Hs E|x s h d dh s0 h0 d0 dh0 zone z fetched obs now w s' d' _ IH H0 Hn Ho Ez E|x s h d dh zone e now _ IH]; [done|..]; destruct (IH Hr Hx) as [Ha Hv]; cbn [fst snd] in *.
  - split; [by eapply ar_merge|]. destruct (areach_distinct _ _ _ _ Ha) as [Hdis _]. apply save_spec in E as (Hk & _). eapply revoked_same; [done|]. by apply merged_revoked.
  - split; [exact (ar_refresh _ _ _ _ _ _ _ _ _ _ _ _ _ _ _ _ _ Ha H0 Ho Ez E)|]. destruct (areach_distinct _ _ _ _ Ha) as [Hdis _]. unfold record_refresh, record_observation in E. rewrite Ez in E. destruct (save _ d w) as [[s1 d1] ok] eqn:Es. apply save_spec in Es as (Hk & _).
    assert (revoked_at s1 zk t a u c) as H1 by (eapply revoked_same; [done|]; by apply observed_revoked). destruct ok; injection E as <- <-; [done|]. eapply revoked_same; [apply failure_keys|done].
  - split; [by apply ar_failure|]. eapply revoked_same; [apply failure_keys|done].
Qed.
(** A slot in revocation has no point. *)
Lemma revoked_no_point s h d dh zk t a u c n tp : areach cfg s h d dh → revoked_at s zk t a u c → (n, tp) ∈ ts_points s → anchor_key n = zk →
  (∀ ds, ds ∈ tp_ds tp → (ds_key_tag ds, ds_algorithm ds) ≠ (t, a)) ∧ (∀ key, key ∈ tp_keys tp → calculate_key_tag key = Some t → key_algorithm key ≠ a).
Proof.
  intros Hr (z & k & E & Hk & Hst & _) Hin Hn. pose proof (areach_slotted _ _ _ _ Hr) as Hsl. destruct (areach_distinct _ _ _ _ Hr) as [Hdis _]. destruct (areach_sourced cfg _ _ _ _ Hr n tp Hin) as [H1 H2].
  assert (∀ k', entry_of (ts_file s) n k' → k' ∈ za_keys z) as He.
  { intros k' (zk' & z' & m & E' & Hk' & Hm & Hp). destruct (Hsl _ _ _ E' Hk') as ([zone ->] & _). pose proof (anchor_key_path _ _ Hm) as Hm'. assert (anchor_key zone = zk) as Ez by (rewrite <- Hn; apply ascii_path; congruence). rewrite Ez in E'. congruence. }
  assert (∀ k', k' ∈ za_keys z → slot k' = (t, a) → k' = k) as Hu by (intros k' Hk' Es; pose proof (at_slot_elem _ _ (Hdis _ _ E) Hk') as E'; unfold slot in Es; injection Es as Et Ea; rewrite Et, Ea in E'; congruence).
  split.
  - intros ds Hds [= Et Ea]. destruct (H1 ds Hds) as (k' & Hk' & Ha & Ed). apply He in Hk'. destruct (Hsl _ _ _ E Hk') as (_ & Hd & _). destruct (ak_ds k') as [text|]; [|done]. cbn [mbind option_bind] in Ed. destruct (Hd text eq_refl) as (dt & dg & Ep).
    unfold ds_from_text in Ed. rewrite Ep in Ed. injection Ed as <-. cbn [ds_key_tag ds_algorithm] in *. rewrite (Hu k') in Ha; [|done|unfold slot; congruence]. unfold as_ds in Ha. rewrite Hst in Ha. destruct (ts_rfc5011 s); [done|]. by rewrite andb_false_r in Ha.
  - intros key Hkey Ht Ea. destruct (H2 key Hkey) as (k' & Hk' & _ & Hs & Eb). apply He in Hk'. destruct (Hsl _ _ _ E Hk') as (_ & _ & Hb). destruct (ak_dnskey_b64 k') as [b|]; [|done]. cbn [mbind option_bind] in Eb. destruct (Hb b eq_refl) as (key' & -> & Ht' & Ea').
    apply dnskey_from_b64_back in Eb as ->. rewrite (Hu k') in Hs; [by rewrite Hst in Hs; destruct Hs|done|unfold slot; congruence].
Qed.
End revoked.

(** ** What the store promises *)
Section promises.
Context {NL : NameLib} {NLaws : NameLaws} {DL : DenialLib} {VL : VerifyLib} {AL : AnchorLib} {ALaws : AnchorLaws}.

(** A configured anchor for the zone of a name. *)
Definition configured_for (cfg : list TrustAnchor → Prop) (n : Name) (a : TrustAnchor) : Prop := ∃ anchors zone, cfg anchors ∧ a ∈ anchors ∧ name_from_ascii (ta_zone a) = Some zone ∧ path zone = path n.
(** The key was observed at two times at least the hold-down apart, and at every observation in between a key of its tag and algorithm was. *)
Definition held_key (h : hist) (n : Name) (key : DNSKEY) : Prop := ∃ i j t0 o0 t1 o1, (i < j)%nat ∧ h !! i = Some (anchor_key n, t0, o0) ∧ h !! j = Some (anchor_key n, t1, o1) ∧
  key ∈ ob_dnskeys o0 ∧ key ∈ ob_dnskeys o1 ∧ t0 + ADD_HOLD_DOWN ≤ t1 ∧
  ∀ m t o, (i ≤ m ≤ j)%nat → h !! m = Some (anchor_key n, t, o) → ∃ key', key' ∈ ob_dnskeys o ∧ calculate_key_tag key' = calculate_key_tag key ∧ key_algorithm key' = key_algorithm key.

Lemma key_back_path zone n m : name_from_ascii (anchor_key zone) = Some m → path m = path n → path zone = path n ∧ anchor_key zone = anchor_key n.
Proof. intros Hm Hp. pose proof (anchor_key_path _ _ Hm) as Hz. split; [congruence|]. apply ascii_path. congruence. Qed.
Lemma held_down_key h n zk k key : anchor_key n = zk → ak_dnskey_b64 k ≫= dnskey_from_b64 = Some key → held_down zk h k → held_key h n key.
Proof.
  intros <- Eb (i & j & t0 & o0 & t1 & o1 & Hij & Hi & Hj & (k0 & H0 & E0) & (k1 & H1 & E1) & Ht & Hall).
  assert (∀ k', ak_dnskey_b64 k = Some (b64 k') → k' = key) as Hk by (intros k' E; rewrite E in Eb; by apply dnskey_from_b64_back in Eb).
  destruct (seen_elem _ _ H0) as (H0' & Ht0 & Ha0), (seen_elem _ _ H1) as (H1' & _). cbn [fst snd] in *. rewrite (Hk k0 E0) in *. rewrite (Hk k1 E1) in *.
  exists i, j, t0, o0, t1, o1. split_and!; try done. intros m t o Hm He. apply Hall, (λ f, f eq_refl) in He; [|done]. apply present_true in He as [key' Hs]. destruct (seen_elem _ _ Hs) as (? & Et & Ea). exists key'. cbn [fst snd slot] in *. split_and!; congruence.
Qed.

(** *** After a merge *)
(** A DS of these anchors for the zone of a name, with the tag and the algorithm. *)
Definition configured_slot (anchors : list TrustAnchor) (n : Name) (t a : Z) : Prop :=
  ∃ x zone ds, x ∈ anchors ∧ name_from_ascii (ta_zone x) = Some zone ∧ path zone = path n ∧ ds_from_text (ta_ds x) = Some ds ∧ ds_key_tag ds = t ∧ ds_algorithm ds = a.
(** A configured entry that a merge leaves has the slot of one of its DS records. *)
Lemma merge_zone_slot le now z dss k : k ∈ za_keys (merge_zone le now z dss) → (∀ za k, z = Some za → k ∈ za_keys za → ak_state k = Configured → ak_from_config k = true) → ak_state k = Configured →
  ∃ text, (text, ak_key_tag k, ak_algorithm k) ∈ dss.
Proof.
  intros Hk Hz Hst. revert Hk. unfold merge_zone. cbn [za_keys]. revert k Hst. apply (foldl_inv (λ keys, ∀ k, ak_state k = Configured → k ∈ keys → ∃ text, (text, ak_key_tag k, ak_algorithm k) ∈ dss)).
  - intros k Hst [Hkeep Hk]%list_elem_of_filter. destruct z as [za|]; cbn [default from_option za_keys] in Hk; [|by apply not_elem_of_nil in Hk]. unfold keeps_config in Hkeep. rewrite (Hz za k eq_refl Hk Hst), Hst, bool_decide_false in Hkeep by done.
    apply existsb_exists in Hkeep as ([[text t] a] & Hin%list_elem_of_In & Hs%same_slot_true). unfold slot in Hs. injection Hs as -> ->. by exists text.
  - intros keys [[text t] a] Hd Hkeys k Hst. simpl. destruct (existsb _ _); [by apply Hkeys|]. rewrite elem_of_app, list_elem_of_singleton. intros [Hk| ->]; [by apply Hkeys|]. by exists text.
Qed.
Lemma merged_slots cfg s h d dh anchors now w s' d' ok n tp ds : areach cfg s h d dh → cfg anchors → merge_config s d anchors true now w = (s', d', ok) → (n, tp) ∈ ts_points s' → ds ∈ tp_ds tp →
  configured_slot anchors n (ds_key_tag ds) (ds_algorithm ds).
Proof.
  intros Hr Hc E Hin Hds. pose proof (areach_earned cfg _ _ _ _ Hr) as He. pose proof (areach_slotted cfg _ _ _ _ (ar_merge _ _ _ _ _ _ _ _ _ _ _ _ Hr Hc E)) as Hsl. unfold merge_config in E. apply save_spec in E as (Hk & Hp & _).
  rewrite Hp in Hin. destruct (points_sourced true _ n tp Hin) as [H1 _]. destruct (H1 ds Hds) as (k & (zk & z & m & Ez & Hkz & Hm & Hpm) & Has & Ed). cbn [merged republish ts_file] in Hk. unfold as_ds in Has. apply bool_decide_eq_true in Has.
  pose proof (Hk zk) as Hkk. cbn [ts_file] in Ez. unfold merged, republish in Hkk. cbn [ts_file] in Hkk. rewrite Ez in Hkk. destruct (ts_file s' !! zk) as [z'|] eqn:Ez'; [|done]. injection Hkk as Hkk.
  destruct (Hsl _ _ k Ez') as (_ & Hd & _); [by rewrite Hkk|]. destruct (ak_ds k) as [text|] eqn:Et; [|done]. cbn [mbind option_bind] in Ed. destruct (Hd text eq_refl) as (dt & dg & Ep). unfold ds_from_text in Ed. rewrite Ep in Ed. injection Ed as <-.
  unfold merge_file in Ez. rewrite map_lookup_imap in Ez. apply bind_Some in Ez as (dss & Edss & [= <-]).
  destruct (merge_zone_slot _ _ _ _ _ Hkz) as [text' Hin']; [|done|].
  { intros za k' Eza Hk' Hst. specialize (He _ _ _ Eza Hk'). unfold earned in He. rewrite Hst in He. by destruct (ak_from_config k'). }
  destruct (configured_elem _ _ _ _ Edss Hin') as (x & zone & dt' & dg' & Hx & Hzone & -> & Hpx & _). cbn [fst snd] in Hpx.
  exists x, zone, (mkDS (ak_key_tag k) (ak_algorithm k) dt' dg'). split_and!; try done; [by apply (key_back_path _ _ m)|]. unfold ds_from_text. by rewrite Hpx.
Qed.

(** *** Published DS records *)
Lemma foldl_hit {X Y} (P : X → Prop) (f : X → Y → X) l x y : y ∈ l → (∀ x, P (f x y)) → (∀ x z, P x → P (f x z)) → P (foldl f x l).
Proof. intros Hy Hf Hk. revert x. induction l as [|z l IH]; [by apply not_elem_of_nil in Hy|]. intros x. apply elem_of_cons in Hy as [->|Hy]; simpl; [|by apply IH]. apply foldl_inv; [by apply Hf|]. intros a b _. apply Hk. Qed.
Definition trusts (p : npath) (ds : DS) (points : TrustPoints) : Prop := ∃ n tp, (n, tp) ∈ points ∧ path n = p ∧ ds ∈ tp_ds tp.
Lemma trusts_mut p ds points zone f : (∀ tp, tp_ds tp ⊆ tp_ds (f tp)) → trusts p ds points → trusts p ds (point_mut points zone f).
Proof.
  intros Hf (n & tp & Hin & Hn & Hds). unfold trusts, point_mut. destruct (update_first _ _ points) as [l|] eqn:E; simpl; [|exists n, tp; split; [apply elem_of_app; by left|done]].
  apply update_first_Some in E as (l1 & [n0 tp0] & l2 & -> & _ & ->). apply elem_of_app in Hin as [Hin|[[= -> ->]|Hin]%elem_of_cons].
  - exists n, tp. split; [apply elem_of_app; by left|done].
  - exists n0, (f tp0). split; [apply elem_of_app; right; by left|]. split; [done|]. by apply Hf.
  - exists n, tp. split; [apply elem_of_app; right; by right|done].
Qed.
Lemma trusts_add points name ds : trusts (path name) ds (add_ds points name ds).
Proof.
  unfold trusts, add_ds, point_mut. destruct (update_first _ _ points) as [l|] eqn:E; simpl.
  - apply update_first_Some in E as (l1 & [n0 tp0] & l2 & -> & HP%eqb_true & ->). exists n0, (mkTrustPoint (tp_ds tp0 ++ [ds]) (tp_keys tp0)). split; [apply elem_of_app; right; by left|]. split; [done|]. apply elem_of_app. right. by left.
  - exists name, (mkTrustPoint ([] ++ [ds]) []). split; [apply elem_of_app; right; by left|]. split; [done|by left].
Qed.
Lemma trusts_publish p ds rfc name points k : trusts p ds points → trusts p ds (publish_key rfc name points k).
Proof.
  intros Ht. unfold publish_key. repeat case_match; try done; apply trusts_mut; try done; intros tp; cbn [tp_ds]; set_solver.
Qed.
Lemma points_trust f zk z m k ds : f !! zk = Some z → k ∈ za_keys z → name_from_ascii zk = Some m → ak_state k = Configured → ak_ds k ≫= ds_from_text = Some ds → trusts (path m) ds (points_of true f).
Proof.
  intros Ez Hk Hm Hst Hds. unfold points_of. apply (foldl_hit _ _ _ _ (zk, z)).
  - unfold file_zones. by apply elem_of_sort_on, elem_of_map_to_list.
  - intros points. unfold publish_zone. cbn [fst snd]. rewrite Hm. apply (foldl_hit _ _ _ _ k); [done| |intros; by apply trusts_publish]. intros x. unfold publish_key. rewrite Hst, bool_decide_true, Hds by done. apply trusts_add.
  - intros points [zk' z'] Ht. unfold publish_zone. cbn [fst snd]. destruct (name_from_ascii zk'); [|done]. apply foldl_inv; [done|]. intros; by apply trusts_publish.
Qed.

(** *** A removed key whose DS is configured *)
Lemma at_slot_configured t a keys dss text : at_slot t a keys = None → (text, t, a) ∈ dss → ∃ text', (text', t, a) ∈ dss ∧ at_slot t a (foldl add_configured keys dss) = Some (mkAnchorKey t a (Some text') None Configured 0 true).
Proof.
  revert keys. induction dss as [|[[x t'] a'] dss IH]; [by intros ? _ ?%not_elem_of_nil|]. intros keys Hn Hin. cbn [foldl].
  destruct (decide ((t', a') = (t, a))) as [[= -> ->]|Hne].
  - exists x. split; [by left|]. apply add_configured_slot. simpl. rewrite existsb_slot, Hn, at_slot_app, Hn. cbn [at_slot]. assert (same_slot t a (mkAnchorKey t a (Some x) None Configured 0 true) = true) as -> by (by apply same_slot_true). done.
  - apply elem_of_cons in Hin as [[= -> -> ->]|Hin]; [done|]. destruct (IH (add_configured keys (x, t', a'))) as (text' & Hin' & E); [|done|exists text'; split; [by right|done]].
    simpl. destruct (existsb _ _); [done|]. rewrite at_slot_app, Hn. simpl. destruct (same_slot t a _) eqn:E; [|done]. by apply same_slot_true in E.
Qed.
Lemma refresh_keys s d zone obs now w s' d' z : ts_file s !! anchor_key zone = Some z → record_refresh s d zone (inl obs) now w = (s', d') → same_keys (ts_file s') (ts_file (observed s zone z obs now)).
Proof.
  intros Ez E. unfold record_refresh, record_observation in E. rewrite Ez in E. destruct (save _ d w) as [[s1 d1] ok] eqn:Es. apply save_spec in Es as (Hk & _). destruct ok; injection E as <- <-; [done|]. intros zk. by rewrite (proj1 (failure_keys _ _ _ _) zk).
Qed.
Lemma forgotten cfg s h d dh points zone fetched obs now w s' d' t a u c : areach cfg s h d dh → revoked_at s (anchor_key zone) t a u c → observe points zone fetched now = inl obs → u ≤ now → no_key obs (is_sep t a) →
  record_refresh s d zone (inl obs) now w = (s', d') → ∃ z, ts_file s' !! anchor_key zone = Some z ∧ distinct (za_keys z) ∧ at_slot t a (za_keys z) = None.
Proof.
  intros Hr (z & k & Ez & Hk & Hst & Hu & _) Ho Hn Hno E. destruct (areach_distinct cfg _ _ _ _ Hr) as [Hd _]. specialize (Hd _ _ Ez). destruct (observe_spec _ _ _ _ _ Ho) as (Hv & Huf & _).
  pose proof (refresh_keys _ _ _ _ _ _ _ _ _ Ez E (anchor_key zone)) as Hs. cbn [observed republish ts_file] in Hs. rewrite lookup_insert_eq in Hs. destruct (ts_file s' !! anchor_key zone) as [z'|]; [|done]. injection Hs as Hs. exists z'. rewrite Hs.
  split_and!; [done|by apply apply_distinct|]. rewrite at_slot_apply by done. rewrite Hk, retained_spec. assert (step_key zone obs now k = k) as ->.
  { unfold step_key. rewrite Hst. destruct (key_hit _ _); [|done]. rewrite (bool_decide_true (Revoked = Revoked)) by done. cbn [negb]. by rewrite andb_false_r. }
  rewrite Hst. destruct (Z.ltb_spec now (ak_hold_down_until k)); [lia|]. pose proof (fresh_there obs now t a Huf) as Hf. destruct (fresh obs now t a); [|done]. destruct Hf as (_ & key & [Hkey Hs']%first_with_elem & _). by destruct (Hno key).
Qed.

(** C4: trust anchors are only ever genuine.  Take a world in which zones sign only what is theirs and configurations whose DS records cover
    only genuine keys.  Whatever answers the network gives to the refreshes, with trust points read at any earlier time, however writes of
    the state file fail, the file is lost or damaged, and the engine restarts, the trust points the validator reads hold only DS records
    that cover genuine keys and genuine keys: the assumption under which its verdicts are sound. *)
Theorem anchors_genuine {DLaws : DenialLaws} (W : World) {WL : WorldLaws W} s h d dh : areach (config_ok W) s h d dh → trust_ok W (ts_points s).
Proof. exact (reach_trust W s h d dh). Qed.

(** C6: trust is configured or earned.  In every state the store can reach, each DS the validator trusts is that of a configured anchor of
    the zone, and each key it trusts either matches the DS of a configured anchor of the zone or was held down: it was in the key sets
    observed at two times at least 30 days apart, and at each observation of the zone in between a key with its tag and algorithm was.  Each
    of these observations was made of a fetched set with the trust points of a state of the store.  After a merge with RFC 5011 on, each DS
    trusted has the tag and the algorithm of a DS that the merged anchors have for the zone. *)
Theorem anchors_earned cfg s h d dh n tp : areach cfg s h d dh → (n, tp) ∈ ts_points s →
  (∀ ds, ds ∈ tp_ds tp → ∃ a, configured_for cfg n a ∧ ds_from_text (ta_ds a) = Some ds) ∧
  (∀ key, key ∈ tp_keys tp → (∃ a zone, configured_for cfg n a ∧ path zone = path n ∧ ds_matches (ta_ds a) zone key = true) ∨ held_key h n key) ∧
  (∀ e, e ∈ h → ∃ s0 h0 d0 dh0 zone fetched, areach cfg s0 h0 d0 dh0 ∧ e.1.1 = anchor_key zone ∧ observe (ts_points s0) zone fetched e.1.2 = inl e.2) ∧
  (∀ anchors now w s' d' ok m tq ds, cfg anchors → merge_config s d anchors true now w = (s', d', ok) → (m, tq) ∈ ts_points s' → ds ∈ tp_ds tq → configured_slot anchors m (ds_key_tag ds) (ds_algorithm ds)).
Proof.
  intros Hr Hin. destruct (areach_sourced cfg _ _ _ _ Hr n tp Hin) as [H1 H2]. pose proof (areach_earned cfg _ _ _ _ Hr) as He. pose proof (areach_slotted cfg _ _ _ _ Hr) as Hs. split_and!.
  - intros ds Hds. destruct (H1 ds Hds) as (k & (zk & z & m & E & Hk & Hm & Hp) & Has & Ed). specialize (He _ _ _ E Hk). unfold earned in He.
    assert (ak_from_config k = true) as Hf by (unfold as_ds in Has; destruct (ts_rfc5011 s); [case_bool_decide as Hst; [|done]; rewrite Hst in He; by destruct (ak_from_config k)|by apply andb_true_iff in Has as [? _]]).
    rewrite Hf in He. destruct He as (anchors & a & zone & Hc & Ha & Hz & -> & Eds & _). rewrite Eds in Ed. exists a. split; [|done]. exists anchors, zone. split_and!; try done. by apply (key_back_path _ _ m).
  - intros key Hkey. destruct (H2 key Hkey) as (k & (zk & z & m & E & Hk & Hm & Hp) & _ & Hst & Eb). destruct (Hs _ _ _ E Hk) as ([zone0 ->] & _). specialize (He _ _ _ E Hk). unfold earned in He.
    destruct (key_back_path _ _ _ Hm Hp) as [Hp0 Ek0]. destruct (ak_from_config k).
    + left. destruct He as (anchors & a & zone & Hc & Ha & Hz & Ez & Eds & Hb). rewrite Ez in Hm. destruct (ak_dnskey_b64 k) as [b|]; [|done]. cbn [mbind option_bind] in Eb. destruct (Hb b eq_refl) as (zone' & key' & Ez' & -> & Hds). apply dnskey_from_b64_back in Eb as ->.
      exists a, zone'. split; [exists anchors, zone; split_and!; try done; by apply (key_back_path _ _ m)|]. split; [|done]. rewrite <- Ez, Ez' in Hm. by apply (key_back_path _ _ m).
    + right. apply (held_down_key _ _ (anchor_key zone0) k); [done|done|]. destruct Hst as [Hst|Hst]; by rewrite Hst in He.
  - intros e Hh. apply (areach_hist cfg _ _ _ _ Hr), elem_of_app. by left.
  - intros anchors now w s' d' ok m tq ds Hc E Hm Hds. exact (merged_slots cfg _ _ _ _ _ _ _ _ _ _ _ _ _ Hr Hc E Hm Hds).
Qed.

(** C19: a refresh follows the state table of RFC 5011.  When an observation of a zone is recorded in a reachable store, whether or not the
    file is written, each pair of tag and algorithm has at most one entry, before and after, and that entry moves by a row of the table, or
    in one of four ways beyond it: an anchor of the configuration becomes valid when the first key with its tag and algorithm has its DS,
    waits otherwise, and is revoked like a valid key; a pending key is revoked too; a pending key that is gone stays pending while
    another key has its tag and algorithm; and a key with the tag and algorithm of a removed one is a new key.  The keys of other zones stay. *)
Theorem rfc5011_table cfg s h d dh points zone fetched obs now w z s' d' : areach cfg s h d dh → observe points zone fetched now = inl obs → ts_file s !! anchor_key zone = Some z →
  record_refresh s d zone (inl obs) now w = (s', d') →
  (∃ z', ts_file s' !! anchor_key zone = Some z' ∧ distinct (za_keys z) ∧ distinct (za_keys z') ∧
    ∀ t a, let before := at_slot t a (za_keys z) in let after := at_slot t a (za_keys z') in
      (rfc5011 obs now t a before after ∨ beyond zone obs now t a before after) ∧
      ∀ other, rfc5011 obs now t a before other ∨ beyond zone obs now t a before other → other = after) ∧
  ∀ zk, zk ≠ anchor_key zone → za_keys <$> ts_file s' !! zk = za_keys <$> ts_file s !! zk.
Proof.
  intros Hr Ho Ez E. destruct (areach_distinct cfg _ _ _ _ Hr) as [Hd _]. specialize (Hd _ _ Ez). destruct (observe_spec _ _ _ _ _ Ho) as (Hv & Hu & _).
  pose proof (refresh_keys _ _ _ _ _ _ _ _ _ Ez E) as Hs.
  split.
  - specialize (Hs (anchor_key zone)). cbn [observed republish ts_file] in Hs. rewrite lookup_insert_eq in Hs. destruct (ts_file s' !! anchor_key zone) as [z'|]; [|done]. injection Hs as Hs. exists z'. rewrite Hs. split_and!; [done|done|by apply apply_distinct|].
    intros t a before after. assert (rfc5011 obs now t a before after ∨ beyond zone obs now t a before after) as Ht.
    { subst after before. rewrite at_slot_apply by done. destruct (at_slot t a (za_keys z)) as [k|] eqn:Ek; [|left; by apply fresh_table]. apply at_slot_Some in Ek as [_ Ek]. by apply step_table. }
    split; [done|]. intros other Hother. eapply table_fun; [|exact Hother|exact Ht]. intros k Hk. by apply at_slot_Some in Hk as [_ ?].
  - intros zk Hne. rewrite (Hs zk). cbn [observed republish ts_file]. by rewrite lookup_insert_ne.
Qed.

(** C20: a revoked key stays out.  From a reachable state in which a key of a zone is revoked, through any sequence of configuration merges
    that keep the zone (and the DS of the key, if the key was configured), refreshes with any answers before the hold-down ends, failed
    refreshes and failed writes, the entry stays revoked, and the validator trusts no DS and no key of the zone with that tag and
    algorithm. *)
Theorem revoked_stays_out cfg s h d dh zk t a u c s' h' d' dh' n tp : areach cfg s h d dh → revoked_at s zk t a u c → during cfg zk t a u c (s, h, d, dh) (s', h', d', dh') →
  revoked_at s' zk t a u c ∧ ((n, tp) ∈ ts_points s' → anchor_key n = zk →
    (∀ ds, ds ∈ tp_ds tp → (ds_key_tag ds, ds_algorithm ds) ≠ (t, a)) ∧ (∀ key, key ∈ tp_keys tp → calculate_key_tag key = Some t → key_algorithm key ≠ a)).
Proof. intros Hr Hv Hd. destruct (during_revoked cfg _ _ _ _ _ _ _ Hd Hr Hv) as [Hr' Hv']. split; [done|]. intros Hin Hn. by apply (revoked_no_point cfg _ _ _ _ _ _ _ _ _ _ _ Hr' Hv' Hin Hn). Qed.

(** C31: a revoked key is trusted again.  Let the configured key of a zone be revoked in a reachable store.  If a refresh is recorded once the
    hold-down of the revocation is over, of a key set without a key of its tag and algorithm, the entry is removed; and the next merge of a
    configuration that still has a DS with that tag and algorithm for the zone makes it a configured anchor again, whose DS is in the trust points. *)
Theorem revoked_returns cfg s h d dh zone t a u points fetched obs now w s1 d1 anchors dss text now' w' s2 d2 ok : areach cfg s h d dh → revoked_at s (anchor_key zone) t a u true →
  observe points zone fetched now = inl obs → u ≤ now → no_key obs (is_sep t a) → record_refresh s d zone (inl obs) now w = (s1, d1) →
  configured anchors !! anchor_key zone = Some dss → (text, t, a) ∈ dss → merge_config s1 d1 anchors true now' w' = (s2, d2, ok) →
  (∃ z1, ts_file s1 !! anchor_key zone = Some z1 ∧ at_slot t a (za_keys z1) = None) ∧
  ∃ text' ds z2, (text', t, a) ∈ dss ∧ ds_from_text text' = Some ds ∧ ds_key_tag ds = t ∧ ds_algorithm ds = a ∧
    ts_file s2 !! anchor_key zone = Some z2 ∧ at_slot t a (za_keys z2) = Some (mkAnchorKey t a (Some text') None Configured 0 true) ∧ trusts (path zone) ds (ts_points s2).
Proof.
  intros Hr Hv Ho Hu Hno E Hc Hin Em. destruct (forgotten cfg _ _ _ _ _ _ _ _ _ _ _ _ _ _ _ _ Hr Hv Ho Hu Hno E) as (z1 & Ez1 & Hd1 & Hn1). split; [by exists z1|].
  unfold merge_config in Em. apply save_spec in Em as (Hk & Hp & _). set (k1 := filter (λ k, keeps_config dss k = true) (za_keys z1)).
  destruct (at_slot_configured t a k1 dss text) as (text' & Hin' & Eat); [unfold k1; by rewrite at_slot_filter, Hn1|done|]. destruct (configured_elem _ _ _ _ Hc Hin') as (x & zone' & dt & dg & _ & _ & _ & Hpx & Etx). cbn [fst snd] in Hpx, Etx. subst text'.
  set (zm := merge_zone (ts_load_error s1) now' (Some z1) dss). assert (ts_file (merged s1 anchors true now') !! anchor_key zone = Some zm) as Ez by (cbn [merged republish ts_file]; unfold merge_file; rewrite map_lookup_imap, Hc; simpl; by rewrite Ez1).
  assert (at_slot t a (za_keys zm) = Some (mkAnchorKey t a (Some (ta_ds x)) None Configured 0 true)) as Eat' by exact Eat.
  pose proof (Hk (anchor_key zone)) as Hkz. rewrite Ez in Hkz. destruct (ts_file s2 !! anchor_key zone) as [z2|] eqn:Ez2; [|done]. injection Hkz as Hkz.
  exists (ta_ds x), (mkDS t a dt dg), z2. split_and!; try done; [unfold ds_from_text; by rewrite Hpx|by rewrite Hkz|]. rewrite Hp. destruct (ascii_back (to_lowercase zone)) as (m & Hm & Hpm). rewrite path_lower in Hpm. rewrite <- Hpm.
  apply at_slot_Some in Eat' as [Hmem _]. eapply (points_trust _ (anchor_key zone) zm m _ (mkDS t a dt dg) Ez Hmem Hm); [done|]. simpl. unfold ds_from_text. by rewrite Hpx.
Qed.
End promises.
