(* ===== verification/ValExamples.v ===== *)
(** * Validation, evaluated

    A small world of zones with concrete names, keys and signatures, the witnesses of the theorems on
    validation and on the trust anchors, and what the code accepts or does in it that it should not. *)

From S2P Require Import Prelude.
From S2P Require Import GoText.
From S2P Require Import ZoneJournal.
From S2P Require Import DnsLib.
From S2P Require Import DnssecSign.
From S2P Require Import ValDenial.
From S2P Require Import ValZone.
From S2P Require Import ValVerify.
From S2P Require Import Validator.
From S2P Require Import ValChain.
From S2P Require Import ValNsecCache.
From S2P Require Import ValResponse.
From S2P Require Import ValSecure.
From S2P Require Import ValAnchors.
From S2P Require Import ValAnchorsThms.

(** ** A small world to validate in

    Concrete names, keys, signatures and hashes that satisfy the laws the theorems assume, and a world of
    three zones: the root, [example] with a wildcard and an empty non-terminal, and [evil]. *)

Module ValExample.
(** ** Names *)
Definition low (n : list bytes) : list bytes := map (map ascii_lower) n.
#[global] Instance names : NameLib := {|
  Name := list bytes;
  labels := λ n, n;
  Name_eqb := λ a b, bool_decide (low a = low b);
  trim_to := λ n k, drop (length n - k) n;
  num_labels := λ n, match n with l :: ls => if bool_decide (l = star) then length ls else S (length ls) | [] => 0%nat end;
  zone_of := λ a b, bool_decide (rev (low a) `prefix_of` rev (low b));
  base_name := λ n, tail n;
  prepend_star := λ n, Some (star :: n);
  to_lowercase := low;
  Name_root := [];
|}.
#[global] Instance names_laws : NameLaws.
Proof.
  split; try done.
  - intros a b. unfold path. simpl. apply bool_decide_ext. unfold low. split; [by intros E; rewrite E|]. intros E. apply (f_equal (@rev _)) in E. by rewrite !rev_involutive in E.
  - by intros n w [= <-].
Qed.

(** ** Hashes *)
Definition enc (p : npath) : bytes := concat (map (λ l, Z.of_nat (length l) :: l) p).
Lemma enc_inj p q : enc p = enc q → p = q.
Proof.
  revert q. induction p as [|l p IH]; intros [|m q]; unfold enc; simpl; try done. intros [= El E]. apply Nat2Z.inj in El. apply app_inj_1 in E as [-> E]; [|done]. by rewrite (IH q E).
Qed.
#[global] Instance denials : DenialLib := {|
  is_ancestor_delegation := λ T, bool_decide (delegates T);
  nsec3_digest := λ _ _ n, Some (enc (path n));
  base32hex_decode := λ b, Some (map ascii_lower b);
|}.
#[global] Program Instance denials_laws : DenialLaws := {| hash_of := λ _ _ p, enc p |}.
Next Obligation. intros T HT. by apply bool_decide_eq_true. Qed.
Next Obligation. by intros s i n h [= <-]. Qed.

(** ** Data *)
#[global] Instance Name_eq_dec : EqDecision Name.
Proof. simpl. apply _. Defined.
#[global] Instance NSEC_eq_dec : EqDecision NSEC.
Proof. solve_decision. Defined.
#[global] Instance NSEC3_eq_dec : EqDecision NSEC3.
Proof. solve_decision. Defined.
#[global] Instance RRSIG_eq_dec : EqDecision RRSIG.
Proof. solve_decision. Defined.
#[global] Instance DS_eq_dec : EqDecision DS.
Proof. solve_decision. Defined.
#[global] Instance RData_eq_dec : EqDecision RData.
Proof. solve_decision. Defined.

Definition nm (s : list string) : Name := map str s.
Definition root : Name := [].
Definition example : Name := nm ["example"].
Definition evil : Name := nm ["evil"].
Definition key_of (p : npath) : DNSKEY := mkDNSKEY 257 13 (enc p).
Definition tag_of (p : npath) : Z := len (enc p).
Definition ds_of (p : npath) : DS := mkDS (tag_of p) 13 SHA256 (enc p).
Definition T_A : Z := TypeA.
Definition apex_types : list Z := [TypeNS; TypeSOA; TypeRRSIG; TypeNSEC; TypeDNSKEY].
Definition host_types : list Z := [TypeA; TypeRRSIG; TypeNSEC].
Definition a_data (x : Z) : RData := OtherData TypeA [x].
Definition soa_data : RData := SOAData 300 [].

(** ** Contents *)
Definition sub_types : list Z := [TypeNS; TypeDS; TypeRRSIG; TypeNSEC].
Definition open_types : list Z := [TypeNS; TypeRRSIG; TypeNSEC].
(** Owner, next name, types: the chains. *)
Definition chain_root : list (Name * Name * list Z) :=
  [(root, evil, apex_types); (evil, example, sub_types); (example, nm ["open"], sub_types); (nm ["open"], root, open_types)].
Definition chain_example : list (Name * Name * list Z) :=
  [(example, nm ["b"; "ent"; "example"], apex_types);
   (nm ["b"; "ent"; "example"], nm ["*"; "w"; "example"], host_types);
   (nm ["*"; "w"; "example"], nm ["a"; "w"; "example"], host_types);
   (nm ["a"; "w"; "example"], nm ["www"; "example"], host_types);
   (nm ["www"; "example"], example, host_types)].
Definition chain_evil : list (Name * Name * list Z) := [(evil, evil, apex_types)].
Definition szone_of (apex : Name) (c : list (Name * Name * list Z)) : szone := mkSzone (path apex) (list_to_map (map (λ e, (path e.1.1, e.2)) c)).
Definition zone_list : list (Name * list (Name * Name * list Z)) := [(root, chain_root); (example, chain_example); (evil, chain_evil)].
Definition content (p : npath) : szone :=
  match list_find (λ z, path z.1 = p) zone_list with Some (_, z) => szone_of z.1 z.2 | None => mkSzone [] ∅ end.
(** ** What is signed *)
Definition statement : Type := npath * npath * Z * list RData.
Definition nsec_statements (z : Name * list (Name * Name * list Z)) : list statement := map (λ e, (path z.1, path e.1.1, TypeNSEC, [NSECData (mkNSEC e.1.2 e.2)])) z.2.
Definition apex_statements (z : Name * list (Name * Name * list Z)) : list statement :=
  [(path z.1, path z.1, TypeDNSKEY, [DNSKEYData (key_of (path z.1))]); (path z.1, path z.1, TypeSOA, [soa_data])].
Definition data_statements : list statement :=
  [([], path example, TypeDS, [DSData (ds_of (path example))]); ([], path evil, TypeDS, [DSData (ds_of (path evil))]);
   (path example, path (nm ["www"; "example"]), TypeA, [a_data 1]); (path example, path (nm ["*"; "w"; "example"]), TypeA, [a_data 2])].
Definition statements : list statement := concat (map nsec_statements zone_list) ++ concat (map apex_statements zone_list) ++ data_statements.
#[global] Instance verifier : VerifyLib := {|
  calculate_key_tag := λ k, Some (len (public_key k));
  ds_covers := λ d n k, bool_decide (digest d = enc (path n)) && bool_decide (k = key_of (path n));
  verify_rrsig := λ k owner s rrset, bool_decide (k = key_of (path (signer_name s))) &&
    bool_decide ((path (signer_name s), expand (path owner) (sig_labels s), type_covered s, map r_data rrset) ∈ statements) && bool_decide (signature s = [1]);
|}.
Definition is_zone (p : npath) : Prop := p ∈ map (λ z, path z.1) zone_list.
Definition W : World := {| genuine := λ p k, is_zone p ∧ k = key_of p; published := λ p o t rds, (p, o, t, rds) ∈ statements; contents := content |}.

(** ** The laws hold *)
Definition wfb (z : szone) : bool :=
  bool_decide (TypeSOA ∈ z_at z (z_apex z)) &&
  bool_decide (map_Forall (λ p T, z_apex z `prefix_of` p ∧ (last p = Some star → TypeNS ∉ T) ∧ (delegates T → map_Forall (λ q _, p `prefix_of` q → p = q) (z_types z))) (z_types z)).
Lemma wfb_ok z : wfb z = true → szone_wf z.
Proof.
  unfold wfb. rewrite andb_true_iff, !bool_decide_eq_true. intros [H1 H2]. split.
  - unfold z_at in H1. destruct (z_types z !! z_apex z) as [T|] eqn:E; simpl in H1; [by exists T|by apply not_elem_of_nil in H1].
  - intros p T HT. by apply (H2 p T HT).
  - intros p q T T' HT HD HT' Hp. destruct (H2 p T HT) as (_ & _ & H3). by apply (H3 HD q T').
  - intros p T HT. destruct (H2 _ T HT) as (_ & H3 & _). apply H3. apply last_snoc.
Qed.
Definition same_typesb (T T' : list Z) : bool := forallb (λ t, bool_decide (t ∈ T')) T && forallb (λ t, bool_decide (t ∈ T)) T'.
Lemma same_typesb_ok T T' : same_typesb T T' = true → same_types T T'.
Proof.
  unfold same_typesb. rewrite andb_true_iff, !forallb_forall. intros [H1 H2] t. rewrite !list_elem_of_In. split; intros Hin; apply list_elem_of_In; [exact (bool_decide_eq_true_1 _ (H1 _ Hin))|exact (bool_decide_eq_true_1 _ (H2 _ Hin))].
Qed.
Definition authenticb (z : szone) (o n : npath) (T : list Z) : bool :=
  match z_types z !! o with Some T' => same_typesb T T' | None => false end && is_Some_b (z_types z !! n) && bool_decide (map_Forall (λ d _, ¬ gap o n d) (z_types z)).
Lemma authenticb_ok z o n T : authenticb z o n T = true → authentic z o n T.
Proof.
  unfold authenticb. rewrite !andb_true_iff, bool_decide_eq_true. intros [[H1 H2] H3]. split.
  - destruct (z_types z !! o) as [T'|]; [exists T'; split; [done|by apply same_typesb_ok]|done].
  - destruct (z_types z !! n) as [T'|]; [by exists T'|done].
  - intros d T' HT. exact (H3 d T' HT).
Qed.
(** Every statement is one its zone may make. *)
Definition statement_ok (s : statement) : bool :=
  let '(p, o, t, rds) := s in
  bool_decide (is_zone p) &&
  bool_decide (last o = Some star → t ∉ [TypeDS; TypeDNSKEY; TypeNSEC3]) &&
  bool_decide (t ∈ z_at (content p) o) &&
  forallb (λ r, match r with
                | DNSKEYData k => bool_decide (k = key_of p)
                | DSData d => bool_decide (is_zone o)
                | NSECData n => authenticb (content p) o (path (next_domain_name n)) (type_set n)
                | NSEC3Data _ => false
                | _ => true
                end) rds.
Lemma statements_ok s : s ∈ statements → statement_ok s = true.
Proof. intros Hs. apply list_elem_of_In in Hs. revert s Hs. apply forallb_forall. vm_compute. reflexivity. Qed.
Lemma zones_wf p : is_zone p → szone_wf (content p) ∧ z_apex (content p) = p.
Proof.
  unfold is_zone. rewrite list_elem_of_fmap. intros (z & -> & Hz). assert (∀ z, z ∈ zone_list → wfb (content (path z.1)) && bool_decide (z_apex (content (path z.1)) = path z.1) = true) as H.
  { intros z' Hz'. apply list_elem_of_In in Hz'. revert z' Hz'. apply forallb_forall. vm_compute. reflexivity. }
  specialize (H z Hz). apply andb_true_iff in H as [H1%wfb_ok H2%bool_decide_eq_true]. done.
Qed.
#[global] Instance W_laws : WorldLaws W.
Proof.
  split.
  - intros p k [Hp _]. by apply zones_wf.
  - intros p k owner s rrset [Hp ->] Hv <-. simpl in *. rewrite !andb_true_iff, !bool_decide_eq_true in Hv. by destruct Hv as [[_ ?] _].
  - intros p o t rds Hs%statements_ok. unfold statement_ok in Hs. rewrite !andb_true_iff, !bool_decide_eq_true in Hs. destruct Hs as [[[_ H] _] _]. specialize (H (last_snoc _ _)). rewrite !not_elem_of_cons in H. tauto.
  - intros p rds k Hs%statements_ok Hk. unfold statement_ok in Hs. rewrite !andb_true_iff, forallb_forall, !bool_decide_eq_true in Hs. destruct Hs as [[[Hp _] _] H]. apply list_elem_of_In, H, bool_decide_eq_true in Hk. done.
  - intros p rds d n k Hs%statements_ok Hd Hc. unfold statement_ok in Hs. rewrite !andb_true_iff, forallb_forall, !bool_decide_eq_true in Hs. destruct Hs as [_ H]. apply list_elem_of_In, H, bool_decide_eq_true in Hd.
    simpl in Hc. rewrite andb_true_iff, !bool_decide_eq_true in Hc. destruct Hc as [_ ->]. done.
  - intros p k o t rds _ Hs%statements_ok _. unfold statement_ok in Hs. rewrite !andb_true_iff, !bool_decide_eq_true in Hs. destruct Hs as [[_ H] _]. unfold z_at in H. simpl. destruct (z_types _ !! o) as [T|]; [by exists T|by apply not_elem_of_nil in H].
  - intros p o rds n Hs%statements_ok Hn. unfold statement_ok in Hs. rewrite !andb_true_iff, forallb_forall in Hs. destruct Hs as [_ H]. apply list_elem_of_In, H, authenticb_ok in Hn. done.
  - intros p rds o n h Hs%statements_ok Hn. unfold statement_ok in Hs. rewrite !andb_true_iff, forallb_forall in Hs. destruct Hs as [_ H]. by apply list_elem_of_In, H in Hn.
  - intros p s i d q _ E. by apply enc_inj.
Qed.
End ValExample.

(** ** Validation in the small world

    Witnesses of the theorems on validation, and two things the code accepts or does that it should not:
    denials forged from an expanded wildcard or an unrelated zone, and a walk that does not end. *)

Module ValWitness.
Import ValExample.

(** ** Records and the network *)
Definition rr (n : Name) (d : RData) : DRecord := mkDRecord n 300 d.
Definition sg (zone owner : Name) (k : nat) (t : Z) : DRecord := rr owner (RRSIGData (mkRRSIG t 13 k 3600 2000000 0 (tag_of (path zone)) zone [1])).
Definition signed (zone owner : Name) (k : nat) (t : Z) (d : RData) : list DRecord := [rr owner d; sg zone owner k t].
Definition nsec_rr (owner next : Name) (T : list Z) (k : nat) : list DRecord := signed example owner k TypeNSEC (NSECData (mkNSEC next T)).
Definition w_example : Name := nm ["w"; "example"].
Definition star_w : Name := nm ["*"; "w"; "example"].
Definition a_w : Name := nm ["a"; "w"; "example"].
Definition www : Name := nm ["www"; "example"].
Definition b_ent : Name := nm ["b"; "ent"; "example"].
Definition answer (rs : list DRecord) : FetchedSet := mkFetchedSet NoError rs [].
Definition nodata (rs : list DRecord) : FetchedSet := mkFetchedSet NoError [] rs.
Definition network : list (Name * Z * FetchedSet) :=
  [(root, TypeDNSKEY, answer (signed root root 0 TypeDNSKEY (DNSKEYData (key_of []))));
   (example, TypeDS, answer (signed root example 1 TypeDS (DSData (ds_of (path example)))));
   (example, TypeDNSKEY, answer (signed example example 1 TypeDNSKEY (DNSKEYData (key_of (path example)))));
   (evil, TypeDS, answer (signed root evil 1 TypeDS (DSData (ds_of (path evil)))));
   (evil, TypeDNSKEY, answer (signed evil evil 1 TypeDNSKEY (DNSKEYData (key_of (path evil)))));
   (nm ["open"], TypeDS, nodata (signed root (nm ["open"]) 1 TypeNSEC (NSECData (mkNSEC root open_types))));
   (w_example, TypeDS, nodata (nsec_rr b_ent star_w host_types 3));
   (star_w, TypeDS, nodata (nsec_rr star_w a_w host_types 2))].
Definition fetch (n : Name) (t : Z) : FetchedSet + FetchError :=
  match list_find (λ e, path e.1.1 = path n ∧ e.1.2 = t) network with Some (_, e) => inl e.2 | None => inr Unreachable end.
Definition trust : TrustPoints := [(root, mkTrustPoint [] [key_of []])].
Definition now : Z := 1000.
Definition cold : nat → zcache := λ _, [].
Lemma trust_fine : trust_ok W trust.
Proof.
  intros n tp [= -> ->]%list_elem_of_singleton. split; simpl; [by intros d k ?%not_elem_of_nil|]. intros k ->%list_elem_of_singleton. split; [|done]. apply list_elem_of_fmap. exists (root, chain_root). split; [done|by left].
Qed.
Lemma cold_reach n : reach trust (cold n).
Proof. apply reach_empty. Qed.

(** ** Inputs *)
Definition soa_rr : list DRecord := signed example example 1 TypeSOA soa_data.
(** A name that does not exist, with the records that deny it and the wildcard. *)
Definition missing : Name := nm ["nope"; "example"].
Definition missing_input : ValidationInput := mkInput missing TypeA NXDomain [] (soa_rr ++ nsec_rr b_ent star_w host_types 3 ++ nsec_rr example b_ent apex_types 1).
(** A name that the wildcard answers for. *)
Definition wild_name : Name := nm ["q"; "w"; "example"].
Definition wild_input : ValidationInput := mkInput wild_name TypeA NoError (signed example wild_name 2 TypeA (a_data 2)) (nsec_rr a_w www host_types 3).
Definition verdict (i : ValidationInput) : option Security := match validate_response fetch now 8 cold i trust with Ok (r, _, _) => Some (security r) | _ => None end.
Lemma verdicts : verdict missing_input = Some SecSecure ∧ verdict wild_input = Some SecSecure.
Proof. vm_compute. done. Qed.

(** ** What should not be accepted *)
(** The NSEC of the wildcard, put at another name of its level: it now seems to close the chain. *)
Definition forged_input : ValidationInput := mkInput www TypeA NXDomain [] (signed example (nm ["b"; "w"; "example"]) 2 TypeNSEC (NSECData (mkNSEC a_w host_types))).
(** The one NSEC of an unrelated zone. *)
Definition foreign_input : ValidationInput := mkInput www TypeA NXDomain [] (signed evil evil 1 TypeNSEC (NSECData (mkNSEC evil apex_types))).
(** The SOA of an unrelated unsigned zone. *)
Definition unsigned_input : ValidationInput := mkInput www TypeA NXDomain [] (signed (nm ["open"]) (nm ["open"]) 1 TypeSOA soa_data).
(** The wildcard below a name that exists, with a second signature that does not verify. *)
Definition deep : Name := nm ["x"; "a"; "w"; "example"].
Definition junk : DRecord := rr deep (RRSIGData (mkRRSIG TypeA 13 3 3600 2000000 0 (tag_of (path example)) example [9])).
Definition relabelled_input : ValidationInput := mkInput deep TypeA NoError (junk :: signed example deep 2 TypeA (a_data 2)) (nsec_rr a_w www host_types 3).

(** Forged responses that validation lets through in a world where no signature is forged: NXDOMAIN for a name that has an address is secure
    with the NSEC of a wildcard moved to another name, or with the NSEC of an unrelated zone, and insecure with the SOA of an unsigned zone; and
    a wildcard's address is secure for a name that has none, beside a signature that does not verify but has a larger label count. *)
Theorem forgeries_accepted :
  answers (contents W (path example)) (path www) (Here host_types) ∧ answers (contents W (path example)) (path deep) Nothing ∧
  verdict forged_input = Some SecSecure ∧ verdict foreign_input = Some SecSecure ∧ verdict unsigned_input = Some (SecInsecure None) ∧ verdict relabelled_input = Some SecSecure.
Proof.
  split_and!; [by apply ans_here| |vm_compute; reflexivity..]. set (z := contents W (path example)). assert (szone_wf z) as Wz by (apply zones_wf; apply list_elem_of_fmap; exists (example, chain_example); split; [done|by right; left]).
  assert (exists_at z (path a_w)) as Hx by (by apply (exists_here z _ host_types)). assert (¬ exists_at z (path deep)) as Hn by (apply (bool_decide_eq_false_1 (exists_at z (path deep))); vm_compute; reflexivity).
  change (path a_w) with (take 3 (path deep)) in Hx. change (path deep) with (take 4 (path deep)) in Hn at 1. destruct (encloser_at z (path deep) 3 Hx Hn) as [He Hd].
  apply (ans_nothing z _ (take 3 (path deep))); [|done|done|].
  - intros p Hc. pose proof (encloser_cut _ _ _ _ Wz Hx Hn Hc) as ->. destruct Hc as (T & HT & HD & _). change (take 3 (path deep)) with (path a_w) in HT. assert (z_types z !! path a_w = Some host_types) as E by done.
    rewrite E in HT. injection HT as <-. revert HD. apply (bool_decide_eq_false_1 (delegates host_types)). vm_compute. reflexivity.
  - apply (bool_decide_eq_false_1 (exists_at z _)). vm_compute. reflexivity.
Qed.

(** An unsigned address for a name with an asterisk label in the middle, below a wildcard of a signed zone. *)
Definition starred : Name := nm ["x"; "*"; "w"; "example"].
Definition starred_input : ValidationInput := mkInput starred TypeA NoError [rr starred (a_data 3)] [].

Lemma starred_stays fuel : walk_loop fetch now fuel starred w_example example [key_of (path example)] 300 = Fuel.
Proof. apply walk_loop_stays; vm_compute; [reflexivity|lia|reflexivity]. Qed.
Lemma starred_walk fuel : walk fetch now fuel [] starred trust = Fuel.
Proof.
  assert (walk fetch now fuel [] starred trust = ('(state, kz, w) ← walk_loop fetch now fuel starred root root [key_of []] 300; Ok (state, kz, store root (ZSecure [key_of []]) root 300 now ++ w))) as -> by reflexivity.
  destruct fuel as [|[|fuel]]; [reflexivity|reflexivity|].
  assert (walk_loop fetch now (S (S fuel)) starred root root [key_of []] 300 =
    ('(state, kz, w) ← ('(state, kz, w) ← walk_loop fetch now fuel starred w_example example [key_of (path example)] 300; Ok (state, kz, store w_example (ZSecure [key_of (path example)]) example 300 now ++ w));
     Ok (state, kz, store example (ZSecure [key_of (path example)]) example 300 now ++ w))) as -> by reflexivity.
  by rewrite starred_stays.
Qed.

(** C30: Validation of an unsigned answer for a name with an asterisk label in the middle does not end: however many steps the walk is given, it
    asks for the DS of the same wildcard again. *)
Theorem walk_never_ends fuel : validate_response fetch now fuel cold starred_input trust = Fuel.
Proof.
  unfold validate_response. change (filter _ (group (q_answers starred_input))) with [mkRrSet starred TypeA [rr starred (a_data 3)] []]. cbn [check_sets]. unfold check_rrset.
  change (default _ _) with starred. by rewrite starred_walk.
Qed.

(** ** Witnesses: denials *)
Definition ex_zone : szone := contents W (path example).
Definition ex_nsecs : list (Name * NSEC) := map (λ e, (e.1.1, mkNSEC e.1.2 e.2)) chain_example.
Lemma ex_wf : szone_wf ex_zone.
Proof. apply zones_wf, list_elem_of_fmap. exists (example, chain_example). split; [done|by right; left]. Qed.
Lemma ex_nsecs_of : nsecs_of ex_zone ex_nsecs.
Proof.
  assert (forallb (λ p : Name * NSEC, authenticb ex_zone (path p.1) (path (next_domain_name p.2)) (type_set p.2)) ex_nsecs = true) as H by (vm_compute; reflexivity).
  rewrite forallb_forall in H. intros o n Hin. apply authenticb_ok. by apply (H (o, n)), list_elem_of_In.
Qed.
Lemma ex_all d T : z_types ex_zone !! d = Some T → ∃ o n, (o, n) ∈ ex_nsecs ∧ path o = d.
Proof.
  assert (z_types ex_zone = list_to_map (map (λ e, (path e.1.1, e.2)) chain_example)) as -> by reflexivity. intros E%elem_of_list_to_map_2. apply list_elem_of_fmap in E as ([[o n] T'] & [= -> ->] & Hin).
  exists o, (mkNSEC n T'). split; [|done]. apply list_elem_of_fmap. by exists (o, n, T').
Qed.
Lemma nsec_denials_exact_witness : without_records ex_zone (path missing) ∧ nsec_proves_nodata www TypeDS ex_nsecs = Proven.
Proof.
  assert (star ∉ path missing) as H1 by (apply (bool_decide_eq_false_1 (star ∈ path missing)); vm_compute; reflexivity).
  assert (z_apex ex_zone `prefix_of` path missing) as H2 by (by exists [str "nope"]). assert (z_apex ex_zone `prefix_of` path www) as H3 by (by exists [str "www"]).
  assert (star ∉ path www) as H4 by (apply (bool_decide_eq_false_1 (star ∈ path www)); vm_compute; reflexivity). split.
  - destruct (nsec_denials_exact ex_zone ex_nsecs missing ex_wf ex_nsecs_of H1 H2) as (H & _). destruct H as [H _]; [vm_compute; reflexivity|exact H].
  - destruct (nsec_denials_exact ex_zone ex_nsecs www ex_wf ex_nsecs_of H4 H3) as (_ & _ & _ & H). destruct H as (_ & H & _); [intros T HT; by apply bool_decide_eq_true in HT|by eexists|apply ex_all|].
    apply H. split; [|left; by eapply exists_here]. exists (Here host_types). split; [by apply ans_here|]. apply (bool_decide_eq_true_1 (lacks host_types TypeDS)). vm_compute. reflexivity.
Defined.

(** A hashed zone: the apex [h], and one name below it. *)
Definition h_apex : Name := nm ["h"].
Definition h_www : Name := nm ["www"; "h"].
Definition h_zone : szone := mkSzone (path h_apex) (list_to_map [(path h_apex, apex_types); (path h_www, host_types)]).
Definition h_owner (n : Name) : Name := enc (path n) :: h_apex.
Definition h_nsec3s : list (Name * NSEC3) :=
  [(h_owner h_apex, mkNSEC3 false 1 [] (enc (path h_www)) apex_types); (h_owner h_www, mkNSEC3 false 1 [] (enc (path h_apex)) host_types)].
Lemma h_wf : szone_wf h_zone.
Proof. apply wfb_ok. vm_compute. reflexivity. Qed.
Lemma h_names p : in_zone h_zone p → p = path h_apex ∨ p = path h_www.
Proof.
  intros [[r ->] (d & T & Hd & Hp)]. apply elem_of_list_to_map_2 in Hd. apply elem_of_cons in Hd as [[= -> _]|[= -> _]%list_elem_of_singleton]; destruct Hp as [k Hk]; destruct r as [|a [|b r]]; try done; [by left..|].
  injection Hk as <- _. by right.
Qed.
Definition h_ok (p : Name * NSEC3) : bool :=
  match nsec3_owner_hash p.1 with
  | Some h => existsb (λ o, bool_decide (h = enc o) && same_typesb (type_set3 p.2) (z_at h_zone o)) [path h_apex; path h_www] &&
      forallb (λ o, negb (nsec3_covers_hash h (next_hashed_owner_name p.2) (enc o))) [path h_apex; path h_www]
  | None => false
  end.
Lemma h_nsec3s_of : nsec3s_of h_zone h_nsec3s.
Proof.
  assert (forallb h_ok h_nsec3s = true) as H by (vm_compute; reflexivity). rewrite forallb_forall in H. intros o n h Hin _ Hh. apply list_elem_of_In, H in Hin. unfold h_ok in Hin. simpl fst in Hin. rewrite Hh in Hin.
  apply andb_true_iff in Hin as [H1 H2]. apply existsb_exists in H1 as (p & Hp & [E1%bool_decide_eq_true E2%same_typesb_ok]%andb_true_iff). split.
  - exists p. split_and!; [|done|done]. apply list_elem_of_In in Hp. apply elem_of_cons in Hp as [->| ->%list_elem_of_singleton]; (split; [by eexists|by eapply exists_here]).
  - intros d Hd _ Hg. rewrite forallb_forall in H2. assert (In d [path h_apex; path h_www]) as Hin by (destruct (h_names d Hd) as [->| ->]; simpl; auto). apply H2, negb_true_iff in Hin.
    unfold hgap in Hg. unfold nsec3_covers_hash in Hin. simpl snd in Hin. destruct (bytes_lt h (next_hashed_owner_name n)); [apply andb_false_iff in Hin|apply orb_false_iff in Hin]; simpl in Hg; destruct Hg, Hin; congruence.
Qed.
Lemma nsec3_denials_sound_witness : name_denied h_zone (path (nm ["nope"; "h"])) Proven ∧ type_denied h_zone h_nsec3s (path h_www) TypeDS Proven.
Proof.
  assert (∀ s i d p, in_zone h_zone d → hash_of s i p = hash_of s i d → p = d) as Hi by (intros s i d p _; apply enc_inj).
  split.
  - destruct (nsec3_denials_sound h_zone h_apex h_nsec3s (nm ["nope"; "h"]) h_wf eq_refl h_nsec3s_of Hi) as (H & _). exact H.
  - destruct (nsec3_denials_sound h_zone h_apex h_nsec3s h_www h_wf eq_refl h_nsec3s_of Hi) as (_ & H & _). exact (H TypeDS).
Defined.

(** ** Witnesses: signatures *)
Lemma signature_lifetime_witness : within_validity (u32 1000) (u32 101000) 50000 = Valid ∧ 0 ≤ capped_ttl 7200 (mkVerifiedSig 1 101000 3600 false) 100000 ≤ 1000.
Proof.
  pose proof (signature_lifetime 1000 101000 50000 7200 (mkVerifiedSig 1 101000 3600 false)) as H1. pose proof (signature_lifetime 1000 101000 100000 7200 (mkVerifiedSig 1 101000 3600 false)) as H2.
  assert (skew_of (101000 - 1000) = 3600) as Hs by (vm_compute; reflexivity). rewrite Hs in H1, H2. simpl in H1, H2. split; [apply H1; try lia; vm_compute; reflexivity|].
  destruct H2 as (_ & _ & H2 & H3); try lia; vm_compute; reflexivity.
Defined.

(** The address of [www], and the key of [example] as it is and revoked. *)
Definition www_set : list DRecord := [rr www (a_data 1)].
Definition www_sigs : list DRecord := [sg example www 2 TypeA].
Definition revoked_key : DNSKEY := mkDNSKEY 385 13 (enc (path example)).
Lemma verify_rrset_exact_witness : (∃ first rest s, www_set = first :: rest ∧ sig_for www_sigs first s ∧ accepted www_set [key_of (path example)] example now first s) ∧
  rejected_with www_set www_sigs [revoked_key] example now NoMatchingKey ∧ rejected_with www_set www_sigs [key_of (path example)] example 5000000 Expired.
Proof.
  split; [|split].
  - apply (verify_rrset_exact www_set www_sigs [key_of (path example)] example now).
    assert (match verify_rrset www_set www_sigs [key_of (path example)] example now with Ok _ => true | _ => false end = true) as E by (vm_compute; reflexivity).
    destruct (verify_rrset _ _ _ _ _) as [v| | |]; [by exists v|discriminate E..].
  - apply (verify_rrset_exact www_set www_sigs [revoked_key] example now). vm_compute. reflexivity.
  - apply (verify_rrset_exact www_set www_sigs [key_of (path example)] example 5000000). vm_compute. reflexivity.
Defined.

(** ** Witnesses: validation *)
Definition full (i : ValidationInput) : ValidationResult * zcache * option NsecInsert :=
  match validate_response fetch now 8 cold i trust with Ok x => x | _ => (mkResult (SecInsecure None) None, [], None) end.
Lemma full_ok i : (match validate_response fetch now 8 cold i trust with Ok _ => true | _ => false end) = true → validate_response fetch now 8 cold i trust = Ok (full i).
Proof. unfold full. by destruct (validate_response _ _ _ _ _ _). Qed.
Lemma full_triple i : (match validate_response fetch now 8 cold i trust with Ok _ => true | _ => false end) = true →
  validate_response fetch now 8 cold i trust = Ok ((full i).1.1, (full i).1.2, (full i).2).
Proof. intros ->%full_ok. by destruct (full i) as [[??]?]. Qed.

(** An unsigned address below the unsigned delegation. *)
Definition open_name : Name := nm ["x"; "open"].
Definition open_input : ValidationInput := mkInput open_name TypeA NoError [rr open_name (a_data 7)] [].
Lemma not_downgraded_witness : insecure W trust (path open_name) ∨ ∃ p j, set_published W (mkRrSet open_name TypeA [rr open_name (a_data 7)] []) p j.
Proof.
  destruct (not_downgraded W fetch now 8 cold open_input trust (full open_input).1.1 (full open_input).1.2 (full open_input).2 None (root, mkTrustPoint [] [key_of []]) W_laws trust_fine cold_reach
    (list_elem_of_here _ _) eq_refl (full_triple open_input eq_refl) eq_refl eq_refl) as (s & Hs & H).
  change (signed_sets open_input) with [mkRrSet open_name TypeA [rr open_name (a_data 7)] []] in Hs. apply list_elem_of_singleton in Hs as ->. exact H.
Defined.

Definition walkableb (fuel : nat) (n : Name) : bool := bool_decide (star ∉ take (plain_length (path n)) (path n)) && (length (path n) <=? fuel)%nat.
Lemma walkableb_ok fuel n : walkableb fuel n = true → walkable fuel (path n).
Proof. intros [H1%bool_decide_eq_true H2%Nat.leb_le]%andb_true_iff. done. Qed.
Lemma validation_ends_witness : ∃ r, validate_response (λ _ _, inr Unreachable) now 4 cold missing_input trust = Ok r.
Proof.
  apply (validation_ends (λ _ _, inr Unreachable) now trust 4 cold missing_input); [|by apply walkableb_ok]. assert (forallb (λ r, walkableb 4 (r_name r)) (q_answers missing_input ++ q_authorities missing_input) = true) as H by (vm_compute; reflexivity).
  rewrite forallb_forall in H. intros r Hr%list_elem_of_In. by apply walkableb_ok, H.
Defined.

(** ** Witnesses: the cache of denials *)
#[global] Instance sizes : SizeLib := {| size_of_Record := 100; name_len := λ n, Z.of_nat (length (concat n)) |}.
Definition kept : NsecInsert := default (mkInsert root [] []) (full missing_input).2.
Definition warm : Zones := match insert_secure 100000 nsec_clear (i_zone kept) (i_soa kept) (i_denial kept) now with Ok z => z | _ => nsec_clear end.
Lemma kept_validated : validate_response fetch now 8 cold missing_input trust = Ok ((full missing_input).1.1, (full missing_input).1.2, Some kept).
Proof. assert ((full missing_input).2 = Some kept) as E by (vm_compute; reflexivity). rewrite <- E. by apply full_triple. Qed.
Lemma kept_inserted : insert_secure 100000 nsec_clear (i_zone kept) (i_soa kept) (i_denial kept) now = Ok warm.
Proof.
  assert (match insert_secure 100000 nsec_clear (i_zone kept) (i_soa kept) (i_denial kept) now with Ok _ => true | _ => false end = true) as E by (vm_compute; reflexivity).
  unfold warm. by destruct (insert_secure _ _ _ _ _ _).
Qed.
Lemma warm_reach : nreach trust warm.
Proof. eapply nreach_insert; [apply nreach_clear|apply cold_reach|exact kept_validated|exact kept_inserted]. Qed.
Lemma denial_cache_bounded_witness : counts warm ∧ ∃ zones', insert_secure 100 warm evil (signed evil evil 1 TypeSOA soa_data) [] now = Ok zones' ∧
  (z_bytes zones' ≤ 100 ∨ ∀ z d, z_map zones' !! z = Some d → z = path evil).
Proof.
  destruct (denial_cache_bounded trust warm 100 evil (signed evil evil 1 TypeSOA soa_data) [] now) as (H1 & z & H2 & _ & H3); [discriminate|intros n; simpl; lia|exact warm_reach|].
  split; [exact H1|]. exists z. split; [exact H2|]. apply H3. discriminate.
Defined.
End ValWitness.

(** ** Trust anchors in a small world

    The root zone with two keys: one configured, one that earns its trust; and the first one revoked. *)
Module AnchorWitness.
Import ValExample.

(** *** Text forms *)
Definition state_code (s : KeyState) : Z := match s with Configured => 0 | AddPend => 1 | KValid => 2 | Missing => 3 | Revoked => 4 end.
Definition code_state (z : Z) : KeyState := if z =? 0 then Configured else if z =? 1 then AddPend else if z =? 2 then KValid else if z =? 3 then Missing else Revoked.
Definition error_code (e : AnchorError) : Z :=
  match e with NoAnchorError => 0 | ReadingState => 1 | CorruptState => 2 | Persisting => 3 | NotValidated => 4 | NetworkError => 5 | NoTrustedKey => 6 end.
Definition code_error (z : Z) : AnchorError :=
  if z =? 0 then NoAnchorError else if z =? 1 then ReadingState else if z =? 2 then CorruptState else if z =? 3 then Persisting else if z =? 4 then NotValidated else if z =? 5 then NetworkError else NoTrustedKey.
Definition of_key (k : AnchorKey) : Z * Z * option bytes * option bytes * Z * Z * bool :=
  (ak_key_tag k, ak_algorithm k, ak_ds k, ak_dnskey_b64 k, state_code (ak_state k), ak_hold_down_until k, ak_from_config k).
Definition to_key (t : Z * Z * option bytes * option bytes * Z * Z * bool) : AnchorKey := let '(tag, alg, d, b, s, u, c) := t in mkAnchorKey tag alg d b (code_state s) u c.
#[global] Instance AnchorKey_eq_dec : EqDecision AnchorKey.
Proof. solve_decision. Defined.
#[global] Instance AnchorKey_countable : Countable AnchorKey.
Proof. apply (inj_countable' of_key to_key). by intros [? ? ? ? [] ? ?]. Defined.
Definition of_zone (z : ZoneAnchors) : list AnchorKey * Z * Z * Z := (za_keys z, za_last_success z, za_next_refresh z, error_code (za_last_error z)).
Definition to_zone (t : list AnchorKey * Z * Z * Z) : ZoneAnchors := let '(k, l, n, e) := t in mkZoneAnchors k l n (code_error e).
#[global] Instance AnchorError_eq_dec : EqDecision AnchorError.
Proof. solve_decision. Defined.
#[global] Instance ZoneAnchors_eq_dec : EqDecision ZoneAnchors.
Proof. solve_decision. Defined.
#[global] Instance ZoneAnchors_countable : Countable ZoneAnchors.
Proof. apply (inj_countable' of_zone to_zone). by intros [? ? ? []]. Defined.
Definition as_text `{Countable A} (a : A) : bytes := [Zpos (countable.encode a)].
Definition of_text `{Countable A} (b : bytes) : option A := match b with [Zpos p] => countable.decode p | _ => None end.
Lemma text_back `{Countable A} (a : A) : of_text (as_text a) = Some a.
Proof. apply countable.decode_encode. Qed.

(** *** The zone *)
Definition k1 : DNSKEY := mkDNSKEY 257 13 [65].
Definition k2 : DNSKEY := mkDNSKEY 257 13 [66].
Definition k1_revoked : DNSKEY := mkDNSKEY 385 13 [65].
Definition keys_of_root : list DNSKEY := [k1; k2; k1_revoked].
Definition key_sets : list (list DNSKEY) := [[k1]; [k1; k2]; [k1_revoked; k2]; [k2]].
Definition digest_of (k : DNSKEY) : bytes := repeat (default 0 (head (public_key k))) 32.
#[global] Instance anchor_verifier : VerifyLib := {|
  calculate_key_tag := λ k, Some (flags k + default 0 (head (public_key k)));
  ds_covers := λ d n k, bool_decide (path n = []) && bool_decide (k ∈ keys_of_root) && bool_decide (digest d = digest_of k);
  verify_rrsig := λ k owner s rrset, bool_decide (k ∈ keys_of_root) && bool_decide (path owner = []) && (type_covered s =? TypeDNSKEY) && bool_decide (map r_data rrset ∈ map (map DNSKEYData) key_sets);
|}.
#[global] Instance anchor_lib : AnchorLib := {|
  name_from_ascii := of_text; name_to_ascii := as_text;
  dnskey_to_bytes := λ k, if bool_decide (is_u16 (flags k)) then Some (put16 (flags k) ++ [3; key_algorithm k] ++ public_key k) else None;
  to_digest := λ k n t, Some (digest_of k);
  base64_encode := λ b, b; base64_decode := Some; hex_decode := Some;
  file_to_json := λ f, Some (as_text f); file_from_json := of_text;
|}.
#[global] Instance anchor_laws : AnchorLaws.
Proof.
  split; try done.
  - intros n. exists n. split; [apply text_back|done].
  - intros a b E. simpl. f_equal. unfold path in E. apply (f_equal (@rev _)) in E. by rewrite !rev_involutive in E.
  - intros f b [= <-]. apply text_back.
  - intros k b. simpl. case_bool_decide; [|done]. by intros [= <-].
  - intros d n m k E. simpl. by rewrite E.
Qed.
Definition root_zone : szone := mkSzone [] {[ [] := apex_types ]}.
Definition A : World := {| genuine := λ p k, p = [] ∧ k ∈ keys_of_root; published := λ p o t rds, p = [] ∧ o = [] ∧ t = TypeDNSKEY ∧ rds ∈ map (map DNSKEYData) key_sets; contents := λ _, root_zone |}.
#[global] Instance A_laws : WorldLaws A.
Proof.
  assert (∀ rds r, rds ∈ map (map DNSKEYData) key_sets → r ∈ rds → ∃ k, r = DNSKEYData k ∧ k ∈ keys_of_root) as Hk.
  { intros rds r (ks & -> & Hs)%list_elem_of_fmap (k & -> & Hin)%list_elem_of_fmap. exists k. split; [done|]. assert (forallb (forallb (λ k, bool_decide (k ∈ keys_of_root))) key_sets = true) as H by (vm_compute; reflexivity).
    rewrite forallb_forall in H. specialize (H ks (proj1 (list_elem_of_In _ _) Hs)). rewrite forallb_forall in H. by apply (bool_decide_eq_true_1 _ (H k (proj1 (list_elem_of_In _ _) Hin))). }
  split.
  - intros p k [-> _]. split; [apply wfb_ok; vm_compute; reflexivity|done].
  - intros p k owner s rrset [-> _] Hv Hs. simpl in Hv. rewrite !andb_true_iff, !bool_decide_eq_true, Z.eqb_eq in Hv. destruct Hv as [[[_ Ho] Ht] Hr]. split; [done|]. split; [|done]. rewrite Ho. unfold expand. by destruct (sig_labels s).
  - intros p o t rds (_ & E & _). by destruct o.
  - intros p rds k (-> & _ & _ & Hr) Hin. split; [done|]. by destruct (Hk _ _ Hr Hin) as (k' & [= ->] & ?).
  - by intros p rds d n k (_ & _ & ? & _).
  - intros p k o t rds _ (-> & -> & -> & _) _. exists apex_types. split; [done|]. apply (bool_decide_eq_true_1 (TypeDNSKEY ∈ apex_types)). vm_compute. reflexivity.
  - by intros p o rds n (_ & _ & ? & _).
  - by intros p rds o n h (_ & _ & ? & _).
  - intros p s i d q _ E. by apply enc_inj.
Qed.

(** *** A run *)
Definition anchor : TrustAnchor := mkTrustAnchor (as_text root) (str "322 13 2 " ++ digest_of k1).
Definition zk : bytes := anchor_key root.
Definition sig_by (k : DNSKEY) : DRecord := mkDRecord root 300 (RRSIGData (mkRRSIG TypeDNSKEY 13 0 3600 (200 * DAY) 0 (default 0 (calculate_key_tag k)) root [1])).
Definition served (ks signers : list DNSKEY) : FetchedSet + FetchError := inl (mkFetchedSet NoError (map (λ k, mkDRecord root 300 (DNSKEYData k)) ks ++ map sig_by signers) []).
Definition run_state : Type := TrustAnchorStore * hist * ReadState * hist.
Definition merge_step (x : run_state) (now : Z) : run_state :=
  let '(s, h, d, dh) := x in let '(s', d', _) := merge_config s d [anchor] true now Written in (s', h, d', on_disk (merged s [anchor] true now) Written h dh).
Definition refresh_step (x : run_state) (f : FetchedSet + FetchError) (now : Z) : run_state :=
  let '(s, h, d, dh) := x in
  match observe (ts_points s) root f now, ts_file s !! zk with
  | inl obs, Some z => let '(s', d') := record_refresh s d root (inl obs) now Written in (s', h ++ [(zk, now, obs)], d', on_disk (observed s root z obs now) Written (h ++ [(zk, now, obs)]) dh)
  | _, _ => x
  end.
Definition start : run_state := (store_open true NotFound, [], NotFound, []).
Definition x1 : run_state := merge_step start 0.
Definition x2 : run_state := refresh_step x1 (served [k1] [k1]) 1.
Definition x3 : run_state := refresh_step x2 (served [k1; k2] [k1]) 2.
Definition x4 : run_state := refresh_step x3 (served [k1; k2] [k1]) (2 + 30 * DAY).
Definition x5 : run_state := refresh_step x4 (served [k1_revoked; k2] [k1_revoked; k2]) (40 * DAY).
Definition x6 : run_state := merge_step x5 (41 * DAY).
Definition x7 : run_state := refresh_step x6 (served [k2] [k2]) (70 * DAY).
Definition x8 : run_state := merge_step x7 (71 * DAY).
Definition store (x : run_state) : TrustAnchorStore := x.1.1.1.
Definition good (cfg : list TrustAnchor → Prop) (x : run_state) : Prop := areach cfg x.1.1.1 x.1.1.2 x.1.2 x.2.

Lemma merge_good cfg x now : cfg [anchor] → good cfg x → good cfg (merge_step x now).
Proof. intros Hc Hx. destruct x as [[[s h] d] dh]. unfold merge_step. destruct (merge_config s d [anchor] true now Written) as [[s' d'] ok] eqn:E. exact (ar_merge _ _ _ _ _ _ _ _ _ _ _ _ Hx Hc E). Qed.
Lemma refresh_good cfg x f now : good cfg x → good cfg (refresh_step x f now).
Proof.
  intros Hx. destruct x as [[[s h] d] dh]. unfold refresh_step. destruct (observe (ts_points s) root f now) as [obs|] eqn:Eo; [|exact Hx]. destruct (ts_file s !! zk) as [z|] eqn:Ez; [|exact Hx].
  destruct (record_refresh s d root (inl obs) now Written) as [s' d'] eqn:E. exact (ar_refresh _ _ _ _ _ _ _ _ _ _ _ _ _ _ _ _ _ Hx Hx Eo Ez E).
Qed.
Lemma x5_good cfg : cfg [anchor] → good cfg x4 ∧ good cfg x5.
Proof. intros Hc. assert (good cfg x4) as H4 by (do 3 apply refresh_good; apply merge_good; [done|apply ar_new]). split; [done|by apply refresh_good]. Qed.
Lemma x3_good cfg : cfg [anchor] → good cfg x3.
Proof. intros Hc. do 2 apply refresh_good. apply merge_good; [done|apply ar_new]. Qed.
Definition only (anchors : list TrustAnchor) : Prop := anchors = [anchor].
Definition revokedb (s : TrustAnchorStore) (t a u : Z) (c : bool) : bool :=
  match ts_file s !! zk ≫= λ z, at_slot t a (za_keys z) with Some k => bool_decide (ak_state k = Revoked) && (ak_hold_down_until k =? u) && bool_decide (ak_from_config k = c) | None => false end.
Lemma revokedb_ok s t a u c : revokedb s t a u c = true → revoked_at s zk t a u c.
Proof.
  unfold revokedb, revoked_at. destruct (ts_file s !! zk) as [z|]; [|done]. cbn [mbind option_bind]. destruct (at_slot t a (za_keys z)) as [k|] eqn:E; [|done]. rewrite !andb_true_iff, !bool_decide_eq_true, Z.eqb_eq. intros [[? ?] ?]. by exists z, k.
Qed.

(** The root's configured key is revoked by a signature of its own, and trusted again after the hold-down: a key set signed by it alone is
    accepted. *)
Lemma revoked_run : good only x5 ∧ revoked_at (store x5) zk 322 13 (70 * DAY) true ∧ good only x8 ∧
  (∃ tp, (root, tp) ∈ ts_points (store x8) ∧ match_ds root [k1] (tp_ds tp) = Matched [k1]) ∧ ∃ obs, observe (ts_points (store x8)) root (served [k1] [k1]) (72 * DAY) = inl obs ∧ ob_dnskeys obs = [k1].
Proof.
  destruct (x5_good only eq_refl) as [_ H5]. split; [exact H5|]. split; [apply revokedb_ok; vm_compute; reflexivity|]. split; [apply merge_good, refresh_good, merge_good; done|]. split.
  - assert (match ts_points (store x8) with [(n, tp)] => bool_decide (n = root) && match match_ds root [k1] (tp_ds tp) with Matched l => bool_decide (l = [k1]) | _ => false end | _ => false end = true) as H by (vm_compute; reflexivity).
    destruct (ts_points (store x8)) as [|[n tp] [|? ?]]; [done| |done]. apply andb_true_iff in H as [->%bool_decide_eq_true H]. exists tp. split; [by left|]. destruct (match_ds _ _ _); try done. by apply bool_decide_eq_true in H as ->.
  - assert (match observe (ts_points (store x8)) root (served [k1] [k1]) (72 * DAY) with inl o => bool_decide (ob_dnskeys o = [k1]) | inr _ => false end = true) as H by (vm_compute; reflexivity).
    destruct (observe _ _ _ _) as [o|]; [|done]. exists o. split; [done|]. exact (bool_decide_eq_true_1 _ H).
Qed.

(** *** Witnesses *)
Lemma config_fine : config_ok A [anchor].
Proof. intros a zone d n k _ _ _ Hn Hc. simpl in Hc. rewrite !andb_true_iff, !bool_decide_eq_true in Hc. destruct Hc as [[E Hk] _]. split; [congruence|done]. Qed.
Lemma anchors_genuine_witness : trust_ok A (ts_points (store x4)).
Proof. exact (anchors_genuine A _ _ _ _ (proj1 (x5_good (config_ok A) config_fine))). Defined.
Lemma k2_trusted : ∃ tp, (root, tp) ∈ ts_points (store x4) ∧ k2 ∈ tp_keys tp.
Proof.
  assert (existsb (λ p, bool_decide (p.1 = root) && bool_decide (k2 ∈ tp_keys p.2)) (ts_points (store x4)) = true) as H by (vm_compute; reflexivity).
  apply existsb_exists in H as ([n tp] & Hin%list_elem_of_In & H). rewrite andb_true_iff, !bool_decide_eq_true in H. destruct H as [E Hk]. simpl in E. subst n. by exists tp.
Qed.
Lemma anchors_earned_witness : held_key x4.1.1.2 root k2.
Proof.
  destruct k2_trusted as (tp & Hin & Hk). destruct (anchors_earned only _ _ _ _ root tp (proj1 (x5_good only eq_refl)) Hin) as (_ & H & _ & _). destruct (H k2 Hk) as [(a & zone & (anchors & z & -> & Ha & _) & _ & Hd)|Hh]; [|exact Hh].
  apply list_elem_of_singleton in Ha as ->. assert (∀ zone, ds_matches (ta_ds anchor) zone k2 = false) as Hf by (intros; vm_compute; reflexivity). rewrite Hf in Hd. discriminate Hd.
Defined.
Lemma refreshed x f now : match observe (ts_points (store x)) root f now, ts_file (store x) !! zk with inl _, Some _ => true | _, _ => false end = true →
  ∃ obs z, observe (ts_points (store x)) root f now = inl obs ∧ ts_file (store x) !! zk = Some z.
Proof. destruct (observe _ _ _ _); [|done]. destruct (ts_file _ !! zk); [|done]. eauto. Qed.
Lemma rfc5011_table_witness : ∃ obs z z', observe (ts_points (store x3)) root (served [k1; k2] [k1]) (2 + 30 * DAY) = inl obs ∧ ts_file (store x3) !! zk = Some z ∧
  rfc5011 obs (2 + 30 * DAY) 323 13 (at_slot 323 13 (za_keys z)) (at_slot 323 13 (za_keys z')).
Proof.
  destruct (refreshed x3 (served [k1; k2] [k1]) (2 + 30 * DAY)) as (obs & z & Ho & Ez); [vm_compute; reflexivity|]. destruct (record_refresh (store x3) x3.1.2 root (inl obs) (2 + 30 * DAY) Written) as [s' d'] eqn:E.
  destruct (rfc5011_table only _ _ _ _ _ root _ obs _ _ z s' d' (x3_good only eq_refl) Ho Ez E) as [(z' & _ & _ & _ & H) _]. exists obs, z, z'. split; [exact Ho|]. split; [exact Ez|]. destruct (H 323 13) as [[Ht|Ht] _]; [exact Ht|exfalso].
  assert (match observe (ts_points (store x3)) root (served [k1; k2] [k1]) (2 + 30 * DAY), ts_file (store x3) !! zk ≫= λ z, at_slot 323 13 (za_keys z) with
    | inl o, Some k => bool_decide (ak_state k = AddPend) && bool_decide (ob_revoked o = []) && bool_decide (ak_dnskey_b64 k = Some (b64 k2)) && bool_decide (ob_dnskeys o = [k1; k2]) && (ak_key_tag k =? 323) && (ak_algorithm k =? 13) | _, _ => false end = true) as Hc by (vm_compute; reflexivity).
  rewrite Ho, Ez in Hc. cbn [mbind option_bind] in Hc. destruct (at_slot 323 13 (za_keys z)) as [k|]; [|discriminate Hc]. rewrite !andb_true_iff, !bool_decide_eq_true, !Z.eqb_eq in Hc. destruct Hc as (((((Hst & Hrv) & Hb) & Hk) & Ht1) & Ha1).
  inversion Ht as [? ? Hs|? Hs|? ? ? Hs|? ? [Hs|Hs] Hf Hr|? ? Hs Hno|? ? Hs]; subst; try congruence; [by rewrite Hrv in Hr; apply not_elem_of_nil in Hr|].
  apply (Hno k2); [rewrite Hk; right; by left|]. unfold shows. rewrite Hb, Ht1, Ha1. split; [|reflexivity]. split; [reflexivity|]. split; [reflexivity|]. split; reflexivity.
Defined.
Lemma revoked_returns_witness : ∃ s2 ds, ds_key_tag ds = 322 ∧ ds_algorithm ds = 13 ∧ trusts [] ds (ts_points s2).
Proof.
  assert (good only x6) as H6 by (apply merge_good; [done|apply (x5_good only eq_refl)]). assert (revoked_at (store x6) zk 322 13 (70 * DAY) true) as Hv by (apply revokedb_ok; vm_compute; reflexivity).
  destruct (refreshed x6 (served [k2] [k2]) (70 * DAY)) as (obs & z & Ho & _); [vm_compute; reflexivity|]. destruct (record_refresh (store x6) x6.1.2 root (inl obs) (70 * DAY) Written) as [s1 d1] eqn:E1.
  destruct (merge_config s1 d1 [anchor] true (71 * DAY) Written) as [[s2 d2] ok] eqn:E2.
  assert (match observe (ts_points (store x6)) root (served [k2] [k2]) (70 * DAY) with inl o => bool_decide (ob_dnskeys o = [k2]) | inr _ => false end = true) as Hk by (vm_compute; reflexivity). rewrite Ho in Hk. apply bool_decide_eq_true in Hk.
  assert (no_key obs (is_sep 322 13)) as Hno by (intros k; rewrite Hk; intros ->%list_elem_of_singleton (_ & _ & Ht & _); discriminate Ht).
  assert (configured [anchor] !! zk = Some [(ta_ds anchor, 322, 13)]) as Hc by (vm_compute; reflexivity).
  destruct (revoked_returns only _ _ _ _ root 322 13 (70 * DAY) _ _ obs (70 * DAY) Written s1 d1 [anchor] _ (ta_ds anchor) (71 * DAY) Written s2 d2 ok H6 Hv Ho (Z.le_refl _) Hno E1 Hc (list_elem_of_here _ _) E2)
    as (_ & text & ds & z2 & _ & _ & Ht & Ha & _ & _ & Hp). exists s2, ds. split; [exact Ht|]. split; [exact Ha|]. exact Hp.
Defined.
Definition x7' : run_state := refresh_step x6 (served [k2] [k2]) (50 * DAY).
Lemma x6_during : during only zk 322 13 (70 * DAY) true x5 x7'.
Proof.
  assert (good only x6) as H6 by (apply merge_good; [done|apply (x5_good only eq_refl)]). assert (during only zk 322 13 (70 * DAY) true x5 x6) as Hd.
  { unfold x6, merge_step. destruct x5 as [[[s h] d] dh]. destruct (merge_config s d [anchor] true (41 * DAY) Written) as [[s' d'] ok] eqn:E. eapply du_merge; [apply du_refl|done| |exact E].
    assert (match configured [anchor] !! zk with Some [(t, x, y)] => (x =? 322) && (y =? 13) | _ => false end = true) as H by (vm_compute; reflexivity). unfold stays. destruct (configured [anchor] !! zk) as [[|[[t x] y] [|? ?]]|]; try done.
    apply andb_true_iff in H as [->%Z.eqb_eq ->%Z.eqb_eq]. eexists. split; [done|]. right. exists t. by left. }
  unfold x7', refresh_step. destruct x6 as [[[s h] d] dh]. destruct (observe (ts_points s) root (served [k2] [k2]) (50 * DAY)) as [obs|] eqn:Eo; [|exact Hd]. destruct (ts_file s !! zk) as [z|] eqn:Ez; [|exact Hd].
  destruct (record_refresh s d root (inl obs) (50 * DAY) Written) as [s' d'] eqn:E. refine (du_refresh _ _ _ _ _ _ _ _ _ _ _ _ _ _ _ _ _ _ _ _ _ _ _ Hd H6 _ Eo Ez E). unfold DAY. lia.
Qed.
Lemma revoked_stays_out_witness : revoked_at (store x7') zk 322 13 (70 * DAY) true.
Proof.
  assert (revoked_at (store x5) zk 322 13 (70 * DAY) true) as Hv by (apply revokedb_ok; vm_compute; reflexivity). pose proof x6_during as Hd. pose proof (proj2 (x5_good only eq_refl)) as H5. unfold good, store in *.
  destruct x5 as [[[s h] d] dh], x7' as [[[s' h'] d'] dh']. exact (proj1 (revoked_stays_out only s h d dh zk 322 13 (70 * DAY) true s' h' d' dh' root (mkTrustPoint [] []) H5 Hv Hd)).
Defined.
End AnchorWitness.
